(* ===== verification/_CoqProject ===== *)
-Q . S2P
Prelude.v
MemLayout.v
Ring.v
UserLink.v
FsTypes.v
Pipe.v
Locks.v
PhysPages.v
Heap.v
HeapList.v
HeapFree.v
HeapAlloc.v
HeapSpec.v
HeapUse.v
PageTables.v
PageTablesSpec.v
PageTablesMap.v
VirtualSpace.v
FatTable.v
BlockDev.v
FatFs.v
FatChain.v
FatSpec.v
Path.v
PathSpec.v
PathUse.v
Mount.v
MountSpec.v
Vfs.v
VfsSpec.v
FatDir.v
FatNames.v
FatDirSpec.v
FatVolume.v
Context.v
Process.v
ProcessSpec.v
Scheduler.v
SchedInv.v
SchedulerSpec.v
SchedLive.v
SchedDemo.v
Bytes.v
Elf.v
ElfSpec.v
Graphics.v
GraphicsSpec.v
Spawn.v
Syscalls.v
SyscallsSpec.v
SysDemo.v
AmlData.v
Resource.v
ResourceSpec.v
Aml.v
AmlEnds.v
AmlDecode.v
AmlProgram.v
AmlTree.v
AmlSpace.v
AmlSleep.v
AcpiTables.v
AcpiPower.v
AcpiSpec.v
AcpiUse.v
Cmdline.v
Multiboot.v
MultibootSpec.v
Input.v
InputSpec.v
Pci.v
Ata.v
AtaSpec.v
Apic.v
ApicSpec.v
Once.v
Clocks.v
ClocksSpec.v
Console.v
ConsoleSpec.v
