(* ===== verification/Prelude.v ===== *)
(** * Emerald: a verification development

    Emerald is a small x86-64 operating system written in Rust.  This
    library models the parts of it that carry its own logic as executable
    Rocq functions translated from the sources, and proves what makes them
    correct.  File and function names below are those of the repository.

    ** The program and the files of this library

    Memory management ([kernel/src/memory_management]).
    - [MemLayout]: the constants of the address space, the alignment
      arithmetic and the direct map ([memory_layout.rs]).
    - [PhysPages]: the physical page allocator
      ([physical_page_allocator.rs]).  Free pages form a list whose links
      are stored in the pages themselves, so the state is the allocator
      record together with word-addressed memory.
    - [PageTables], [PageTablesSpec], [PageTablesMap]: the four-level page
      tables ([virtual_memory_mapper.rs]).  Tables live in pages of
      [PhysPages]; the specification reads the tables as a tree and as the
      translation of every virtual address.
    - [VirtualSpace]: the allocator of kernel virtual ranges
      ([virtual_space.rs]).
    - [Heap], [HeapList], [HeapFree], [HeapAlloc], [HeapSpec], [HeapUse]: the heap allocator shared by kernel and user space
      ([libraries/increasing_heap_allocator]).  Its free list is in the heap
      memory; it grows through the interface [PageAllocatorProvider], whose
      two implementations ([kernel_heap_allocator.rs],
      [emerald_std/src/alloc.rs]) are in [HeapUse].

    Kernel data structures and devices.
    - [Ring]: the ring buffer ([collections/ring.rs]), against a queue.
    - [Pipe]: pipes ([devices/pipe.rs]), as a step relation over the
      operations of all holders of a pipe.
    - [Locks]: the spin locks ([sync/spin]) and the interrupt nesting of a CPU
      ([cpu/mod.rs]); [Mutex] and [RwLock] are step relations at the
      granularity of atomic accesses.
    - [Once]: cells that are initialised once ([sync/once.rs]), any number of
      calls interleaved at their accesses, with the memory orderings of the
      accesses.
    - [BlockDev]: [read_sync] and [write_sync] of the IDE driver
      ([devices/ide.rs]).  One command transfer is the interface [AtaDrive];
      [TransferLaws] states what a drive does with the transfers it can
      serve, [DriveLaws] what a fault-free one does with all of them, and
      [MemDrive] is an instance.
    - [Ata], [AtaSpec]: the rest of the driver: commands and packets at the
      ports of a controller, the identification and registration of drives
      and the interrupt handlers.  [AtaSpec] has the protocol of a drive at
      its registers, and shows that the transfers through it satisfy
      [TransferLaws].
    - [Pci]: configuration space, the decoding of functions and their
      regions, and the scan of the bus ([devices/pci.rs]), on host bridges
      that keep the low bits of an address and on ones that do not.
    - [Input], [InputSpec]: keyboard and mouse from the controller
      ([devices/keyboard_mouse]) to the user side
      ([libraries/kernel_user_link], [libraries/emerald_runtime]); the
      broadcast channel of the crate blinkcast is the interface [Blinkcast].
    - [Apic], [ApicSpec]: descriptor tables and vectors ([cpu/idt.rs],
      [cpu/gdt.rs], [cpu/interrupts/mod.rs]) and the interrupt controllers
      ([cpu/interrupts/apic.rs]), set up from the tables of [AcpiTables];
      memory-mapped registers and those of the CPU are the interfaces [Mmio]
      and [CpuRegs].
    - [Clocks], [ClocksSpec]: the clocks ([devices/clock]): real-time clock,
      HPET, PIT, the time stamp counter with its calibration, and the system
      time over the interface [ClockDevice].  [ClockLaws] is what a device
      promises to the system time; the three devices are an instance, given
      what their chips do ([TimerLaws]).
    - [Console], [ConsoleSpec]: the serial port, the text screen and the
      console over them ([io/uart.rs], [io/console/vga_text.rs],
      [io/console.rs]).  A screen is the interface [VideoConsole] with the
      laws [VideoLaws]; the text screen obeys them, and the console on it is
      shown to be a terminal.  The screen made of pixels
      ([io/console/vga_graphics.rs]) is not modelled, and does not obey these
      laws.

    File systems ([kernel/src/fs]).
    - [FsTypes]: errors, attributes and nodes ([fs/mod.rs]).
    - [FatTable]: the file allocation table with its 12, 16 and 32-bit
      entries and its dirty bitmap ([fs/fat.rs], [struct Fat]).
    - [FatFs]: boot sector, directory entries, cluster cache and file
      operations ([fs/fat.rs]), on [FatTable] and [BlockDev].
    - [FatChain], [FatSpec]: cluster chains and the theorems.
    - [FatDir], [FatNames], [FatDirSpec], [FatVolume]:
      directories ([fs/fat.rs]).  [FatDir] has the
      iteration over entries, the short and long names, look-up and creation;
      the others read a directory as its list of slots and prove what the
      operations do to it.
    - [Path], [PathSpec], [PathUse]: paths ([fs/path.rs]), with the iterator
      from both ends against a double-ended queue.
    - [Mount], [MountSpec], [Vfs], [VfsSpec]: the mount table
      ([fs/mapping.rs]), path resolution and the file objects ([fs/mod.rs]).
      A file system is the record of operations of the trait [FileSystem].

    Processes ([kernel/src/process], [kernel/src/executable]).
    - [Context]: saved registers ([cpu/idt.rs], [process/mod.rs]) and the time
      arithmetic ([devices/clock/mod.rs]).
    - [Process], [ProcessSpec]: descriptors, children, heap and stack of a
      process ([process/mod.rs]), over the interface [UserVm] of an address
      space.
    - [Scheduler], [SchedInv], [SchedulerSpec], [SchedLive], [SchedDemo]:
      the scheduler ([process/scheduler.rs]) on one CPU, as
      operations on its queues and as a step relation over the timer, the
      exits, sleeps and waits.
    - [Bytes], [Elf], [ElfSpec]: the ELF reader and the loader
      ([executable/elf.rs], [executable/mod.rs]); [Bytes] has the
      little-endian encodings.
    - [Spawn]: [Process::allocate_process].

    The system-call boundary.
    - [UserLink]: the encodings of [libraries/kernel_user_link] that both
      sides of a system call must agree on.
    - [Graphics], [GraphicsSpec]: frame buffers and the ownership of the
      display ([graphics/vga.rs]).
    - [Syscalls], [SyscallsSpec], [SysDemo]: the 22 handlers and their
      dispatch ([process/syscalls/mod.rs]), over all of the above.

    The firmware ([kernel/src/acpi]).
    - [AmlData], [Aml]: the terms of AML and the recursive-descent parser
      ([aml/parser/mod.rs]).  Its functions call each other in a circle and
      are written against a record of the functions they call; [knot] closes
      the circle.
    - [AmlEnds]: the parser ends on every input.
    - [AmlDecode], [AmlProgram]: a declarative grammar of AML and the proof
      that the parser reads back what it encodes, with an example program.
    - [Resource], [ResourceSpec]: resource templates
      ([aml/parser/resource_template.rs]).
    - [AmlTree], [AmlSpace], [AmlSleep]: the namespace the
      definitions of a program form ([aml/structured.rs]), the evaluation of
      named data ([aml/execution.rs]) and the search for the sleep types
      ([acpi/mod.rs]), against the declarative relation [namespace].
    - [AcpiTables], [AcpiSpec]: the root pointer, checksums and the decoding of
      the tables ([tables/mod.rs]); physical memory is a function from
      addresses to bytes.
    - [AcpiPower], [AcpiUse]: the registers of the FACP
      ([tables/facp.rs]), [enable], [sleep] and the interrupt handler
      ([acpi/mod.rs]), over the interface [PortIo].

    Boot.
    - [Cmdline]: the tokenizer and the parser of the kernel command line
      ([cmdline.rs], [cmdline/]); the classes of characters beyond ASCII are
      the interface [Unicode].
    - [Multiboot], [MultibootSpec]: the tags of the boot information
      ([multiboot2.rs]) and what the command line, the page allocator and the
      search for the ACPI tables take from them.

    [Prelude] (this file) has the outcome type, the state monad with its
    weakest preconditions, machine arithmetic, bit lemmas and tactics.

    ** How the code is modelled

    A function that can panic returns an [outcome]; one that changes state is
    an [ST] computation over an explicit state record, and Rust's [Result] is
    the type [result], threaded with [ebind] where the source uses [?].
    Integers are [Z] with the overflow checks of the debug profile written
    out ([cadd], [csub], [cmul]): the theorems that a call returns show that
    none of them fires, so the release profile computes the same.  Raw
    memory is a function from word addresses to words.  Outside
    [Locks] an operation is the critical section it runs under its lock.

    Loops are structural where the source iterates over a list or a range,
    and otherwise take fuel that the caller computes from the loop's own
    measure: the number of pages for [map_loop] and [unmap_loop], the number
    of sectors for the transfer loops of [BlockDev], the number of bytes for
    [access_loop], 65 steps for the 64 bits of a word of the dirty bitmap.
    The AML parser takes three levels of calls for a byte of code: an
    argument, its data object or term, and the argument of that.
    The scan of the PCI bus takes the 256 buses, 32 devices and 8 functions
    there are, and one step more to see the end.
    The real-time clock is read at most four times, after at most as many
    polls as an update of it lasts; the serial port is polled as often as it
    is busy after a byte.
    [sleep] takes the number of polls until the machine wakes up; the waits
    for a drive take as many polls as the drive is busy at most.
    The system calls that read until the end of a file or wait for input take
    the fuel as an argument; their theorems say how much is enough.
    Running out of fuel is the outcome [Diverge], which no theorem accepts:
    [wp] is false for it, so every total statement shows the fuel is enough.

    ** What is proved

    - Memory: allocations of the heap are disjoint, aligned and inside the
      heap in every reachable state, a servable request is served, nothing
      leaks; pages are never shared; booting collects exactly the usable
      pages; [map] and [unmap] change exactly the translations they are
      asked to change, for frames below 4 GiB (above, the code cuts the
      address); virtual ranges do not overlap.
    - Structures: the ring refines a bounded queue; a pipe is a stream; the
      spin locks exclude, never fail an assertion and keep interrupts off
      exactly while they are in use; a once cell has one value, which every
      call that returns it saw, and which no call sees too early on a machine
      that orders its loads.
    - Time: the real-time clock is never read torn, and its date, outside
      noon and midnight of a clock of twelve hours, is turned into the
      seconds of the calendar; the system time never goes back,
      whatever devices it changes between; the calibrated time stamp counter
      agrees with its base.
    - Console: however a text with colour commands is cut into writes, the
      text screen shows what a terminal shows and the serial line carries the
      text; what is typed is read in its order and not lost; a captured text
      goes nowhere else.
    - Storage: entries of the table are independent, resizing a file
      rewrites its own chain and no other, a flush puts the table on the
      disk, transfers of any length read back what was written, directory
      entries and attributes survive their encodings; a file created in the
      root directory of a FAT12 or FAT16 volume is found in any letter case, a duplicate is refused and leaves no trace, a
      listing gives exactly the files of the directory.
    - Names, for ASCII paths: iterating a path from both ends equals a queue
      of its components; a path without [..] resolves to its deepest mount
      point and then look-up by look-up.
    - Processes: in every run of the scheduler only two requests of a
      process panic (a sleep beyond the end of the clock, a priority for a
      process that does not exist), a preempted
      process resumes with its registers, a scheduled process is chosen after
      a bounded number of steps, exit codes reach a waiting parent, shutdown
      terminates; an ELF file is decoded to the image it encodes, and loading
      it puts exactly its segments into the address space.
    - Boundary: what user space decodes is what the kernel encoded, for the
      encodings and for a whole system call; reading delivers the bytes of
      the file into the caller's buffer and nowhere else.
    - Firmware: every program of the grammar parses to the terms it encodes,
      the parser ends on any bytes, resource templates are decoded to their
      items, short vendor items excepted; every definition of a program
      within the limits of [namespace] is found under its path, and
      nothing else is; booting loads the tables the firmware lists, laid out
      as the ACPI specification says, and [sleep] programs the sleep types
      that the constants of the firmware's code define.
    - Boot: the settings of a well-formed command line are the ones the
      kernel runs with, its usable memory goes to the page allocator; the
      parser of the command line is total.
    - Devices: a scan of the PCI bus finds the functions with an ordinary
      header and leaves the bus as it was; a drive of up to 2^24 sectors
      behind its ports is identified and
      keeps what is written to it; what the user does on keyboard and mouse,
      with the modifiers held, reaches a program that reads the devices; a
      line that a driver asks for, for the CPU with the number 0,
      raises a vector of its own, which runs the driver's handler.
    - Display: a blit shows exactly its rectangle; the fast and the slow copy
      agree.
    - Where the code does not do what it means to do, a theorem states what
      it does: [push_replace] on a full ring, releasing a virtual range next
      to a free one, flags of shared page-table entries, the walk over the
      user's level-4 slots, large alignments and exhaustion in the heap, the
      last sector of a disk, a failed [try_lock] of [ReMutex], and the
      concrete runs of [Once], [FatVolume], [VfsSpec], [PathUse], [SchedDemo],
      [ElfSpec], [GraphicsSpec], [SysDemo], [ResourceSpec], [AmlProgram],
      [AmlSleep], [AcpiUse], [Cmdline], [MultibootSpec], [InputSpec], [Pci],
      [AtaSpec], [ApicSpec], [ClocksSpec] and [ConsoleSpec] whose
      names say what goes wrong.

    ** What is not modelled

    What the hardware does at ports, registers and memory-mapped addresses is
    a parameter with laws; assembly, the TLB and [cr3], the delivery of
    interrupts by the CPU and, outside [Once], weak memory orderings have no
    counterpart.
    The 2 MiB page branch of [map] is disabled in the source.
    [create_disk_mapping] is the one operation of the mount table left out:
    it only composes the partition table on a device with [mount].
    The drawing traits and the fonts of the graphical console belong to a
    graphics library; the display of AML, of tables and of device classes and
    the trace output produce text and change no state the rest depends on.  [main.rs] calls the initialisers in order.  The user
    programs run on top of the system-call interface, and the build tools run
    on another machine. *)

From stdpp Require Export base tactics numbers list gmap.
From Stdlib Require Export ZArith Lia.

#[global] Open Scope Z_scope.
#[global] Set Default Goal Selector "!".

(** ** Outcomes of a Rust computation

    A Rust function either returns, or panics (a failed [assert!], an
    [unwrap] of [None], an explicit [panic!], an arithmetic overflow under
    the debug profile, an access outside the mapped memory a component
    owns).  A model that iterates with fuel has a third outcome,
    [Diverge], that no theorem ever accepts as a result. *)
Inductive outcome (A : Type) : Type :=
| Ret (a : A)
| Panic
| Diverge.
Arguments Ret {A} a.
Arguments Panic {A}.
Arguments Diverge {A}.

#[global] Instance outcome_ret : MRet outcome := fun A a => Ret a.
#[global] Instance outcome_bind : MBind outcome := fun A B f m =>
  match m with
  | Ret a => f a
  | Panic => Panic
  | Diverge => Diverge
  end.

#[global] Instance outcome_eq_dec {A} `{EqDecision A} : EqDecision (outcome A).
Proof. solve_decision. Defined.

(** [assert!(b)] *)
Definition assert_that (b : bool) : outcome unit := if b then Ret tt else Panic.

(** [Option::unwrap] / [expect] *)
Definition unwrap {A} (o : option A) : outcome A :=
  match o with Some a => Ret a | None => Panic end.

(** Rust's [Result] *)
Inductive result (A E : Type) : Type :=
| Ok (a : A)
| Err (e : E).
Arguments Ok {A E} a.
Arguments Err {A E} e.

Definition is_ok {A E} (r : result A E) : bool :=
  match r with Ok _ => true | Err _ => false end.

(** ** Machine integers

    A [w]-bit unsigned integer is a [Z] in [0, 2^w).  The [c]-prefixed
    operations are the plain Rust operators, which panic on overflow under
    the debug profile; wherever a theorem shows that such an operation
    returns, the release profile computes the same value. *)
Definition in_word (w : Z) (z : Z) : Prop := 0 <= z < 2 ^ w.
Definition wrap (w : Z) (z : Z) : Z := z mod 2 ^ w.
Definition cadd (w a b : Z) : outcome Z := if a + b <? 2 ^ w then Ret (a + b) else Panic.
Definition csub (a b : Z) : outcome Z := if b <=? a then Ret (a - b) else Panic.
Definition cmul (w a b : Z) : outcome Z := if a * b <? 2 ^ w then Ret (a * b) else Panic.
Definition cdiv (a b : Z) : outcome Z := if b =? 0 then Panic else Ret (a / b).
Definition cmod (a b : Z) : outcome Z := if b =? 0 then Panic else Ret (a mod b).
(** [!x] on a [w]-bit integer *)
Definition unot (w z : Z) : Z := Z.lxor z (Z.ones w).

Lemma cadd_ret w a b : a + b < 2 ^ w -> cadd w a b = Ret (a + b).
Proof. intros H. unfold cadd. by rewrite (proj2 (Z.ltb_lt _ _) H). Qed.

Lemma csub_ret a b : b <= a -> csub a b = Ret (a - b).
Proof. intros H. unfold csub. by rewrite (proj2 (Z.leb_le _ _) H). Qed.

Lemma cmul_ret w a b : a * b < 2 ^ w -> cmul w a b = Ret (a * b).
Proof. intros H. unfold cmul. by rewrite (proj2 (Z.ltb_lt _ _) H). Qed.

Lemma cdiv_ret a b : b <> 0 -> cdiv a b = Ret (a / b).
Proof. intros H. unfold cdiv. by destruct (Z.eqb_spec b 0). Qed.

Lemma cmod_ret a b : b <> 0 -> cmod a b = Ret (a mod b).
Proof. intros H. unfold cmod. by destruct (Z.eqb_spec b 0). Qed.

(** Reading a successful computation backwards. *)
Lemma bind_inv {A B} (m : outcome A) (f : A -> outcome B) b :
  m ≫= f = Ret b -> exists a, m = Ret a /\ f a = Ret b.
Proof. destruct m as [a| |]; [by exists a|done..]. Qed.
Lemma cadd_inv w a b c : cadd w a b = Ret c -> c = a + b /\ a + b < 2 ^ w.
Proof. unfold cadd. destruct (Z.ltb_spec (a + b) (2 ^ w)); [by intros [= <-]|done]. Qed.
Lemma csub_inv a b c : csub a b = Ret c -> c = a - b /\ b <= a.
Proof. unfold csub. destruct (Z.leb_spec b a); [by intros [= <-]|done]. Qed.
Lemma cmul_inv w a b c : cmul w a b = Ret c -> c = a * b /\ a * b < 2 ^ w.
Proof. unfold cmul. destruct (Z.ltb_spec (a * b) (2 ^ w)); [by intros [= <-]|done]. Qed.
Lemma cdiv_inv a b c : cdiv a b = Ret c -> c = a / b /\ b <> 0.
Proof. unfold cdiv. destruct (Z.eqb_spec b 0); [done|by intros [= <-]]. Qed.

Lemma assert_ret b : b = true -> assert_that b = Ret tt.
Proof. by intros ->. Qed.

#[global] Instance in_word_dec w z : Decision (in_word w z).
Proof. unfold in_word. apply _. Defined.

(** ** The state-and-panic monad used by the stateful components *)
Definition ST (S A : Type) : Type := S -> outcome (A * S).

#[global] Instance ST_ret {S} : MRet (ST S) := fun A a s => Ret (a, s).
#[global] Instance ST_bind {S} : MBind (ST S) := fun A B f m s =>
  match m s with
  | Ret (a, s') => f a s'
  | Panic => Panic
  | Diverge => Diverge
  end.

Definition lift {S A} (o : outcome A) : ST S A := fun s =>
  match o with
  | Ret a => Ret (a, s)
  | Panic => Panic
  | Diverge => Diverge
  end.
Definition get {S} : ST S S := fun s => Ret (s, s).
Definition put {S} (s : S) : ST S unit := fun _ => Ret (tt, s).
Definition modify {S} (f : S -> S) : ST S unit := fun s => Ret (tt, f s).
Definition panic {S A} : ST S A := fun _ => Panic.
Definition diverge {S A} : ST S A := fun _ => Diverge.
Definition when {S} (b : bool) (m : ST S unit) : ST S unit := if b then m else mret tt.

(** Rust's [?]: stop at the first error. *)
Definition ebind {S A B E} (m : ST S (result A E)) (k : A -> ST S (result B E)) : ST S (result B E) :=
  r ← m;
  match r with Ok a => k a | Err e => mret (Err e) end.
Notation "x ←? y ; z" := (ebind y (fun x => z))
  (at level 20, y at level 100, z at level 200, only parsing) : stdpp_scope.
(** A call that cannot fail, inside such a computation. *)
Definition ok {S A E} (m : ST S A) : ST S (result A E) := a ← m; mret (Ok a).

(** Ports, shared by the device drivers: [cpu::io_in] and [cpu::io_out], of a number of bytes *)
Class PortIo (H : Type) : Type := {
  io_in : nat -> Z -> ST H Z;
  io_out : nat -> Z -> Z -> ST H unit
}.

(** Weakest precondition.  [P] is what a panic is worth: [False] for total
    correctness (no panic, no exhausted fuel), [True] when a panic is an
    acceptable (fail-stop) outcome.  Running out of fuel never is. *)
Definition wp (P : Prop) {S A} (m : ST S A) (s : S) (Q : A -> S -> Prop) : Prop :=
  match m s with
  | Ret (a, s') => Q a s'
  | Panic => P
  | Diverge => False
  end.

Section wp_rules.
Context (P : Prop) {S A B : Type}.
Implicit Types (s : S).

Lemma wp_ret (a : A) s (Q : A -> S -> Prop) : Q a s -> wp P (mret a) s Q.
Proof. done. Qed.

Lemma wp_bind (m : ST S A) (f : A -> ST S B) s Q :
  wp P m s (fun a s' => wp P (f a) s' Q) -> wp P (m ≫= f) s Q.
Proof. unfold wp, mbind, ST_bind. by destruct (m s) as [[a s']| |]. Qed.

Lemma wp_mono (m : ST S A) s (Q Q' : A -> S -> Prop) :
  wp P m s Q -> (forall a s', Q a s' -> Q' a s') -> wp P m s Q'.
Proof. unfold wp. intros Hm HQ. destruct (m s) as [[a s']| |]; auto. Qed.

Lemma wp_get s (Q : S -> S -> Prop) : Q s s -> wp P get s Q.
Proof. done. Qed.

Lemma wp_put s s' (Q : unit -> S -> Prop) : Q tt s' -> wp P (put s') s Q.
Proof. done. Qed.

Lemma wp_modify (f : S -> S) s (Q : unit -> S -> Prop) : Q tt (f s) -> wp P (modify f) s Q.
Proof. done. Qed.

Lemma wp_lift_ret (a : A) (o : outcome A) s (Q : A -> S -> Prop) :
  o = Ret a -> Q a s -> wp P (lift o) s Q.
Proof. by intros ->. Qed.

Lemma wp_assert (b : bool) s (Q : unit -> S -> Prop) :
  b = true -> Q tt s -> wp P (lift (assert_that b)) s Q.
Proof. by intros ->. Qed.

Lemma wp_assert_or (b : bool) s (Q : unit -> S -> Prop) :
  P -> (b = true -> Q tt s) -> wp P (lift (assert_that b)) s Q.
Proof. unfold wp. destruct b; simpl; auto. Qed.

Lemma wp_cadd w a b s (Q : Z -> S -> Prop) :
  a + b < 2 ^ w -> Q (a + b) s -> wp P (lift (cadd w a b)) s Q.
Proof. intros H HQ. unfold wp, lift. by rewrite cadd_ret. Qed.

Lemma wp_csub a b s (Q : Z -> S -> Prop) :
  b <= a -> Q (a - b) s -> wp P (lift (csub a b)) s Q.
Proof. intros H HQ. unfold wp, lift. by rewrite csub_ret. Qed.

Lemma wp_cmul w a b s (Q : Z -> S -> Prop) :
  a * b < 2 ^ w -> Q (a * b) s -> wp P (lift (cmul w a b)) s Q.
Proof. intros H HQ. unfold wp, lift. by rewrite cmul_ret. Qed.

(** From a total triple to the equation it stands for. *)
Lemma wp_total (m : ST S A) s (Q : A -> S -> Prop) :
  wp False m s Q -> exists a s', m s = Ret (a, s') /\ Q a s'.
Proof. unfold wp. destruct (m s) as [[a s']| |]; naive_solver. Qed.

Lemma wp_run (m : ST S unit) s (R : S -> Prop) :
  wp False m s (fun _ => R) -> exists s', m s = Ret (tt, s') /\ R s'.
Proof. unfold wp. destruct (m s) as [[[] s']| |]; naive_solver. Qed.

Lemma wp_elim (m : ST S A) s (Q : A -> S -> Prop) a s' :
  wp P m s Q -> m s = Ret (a, s') -> Q a s'.
Proof. unfold wp. intros H Hm. by rewrite Hm in H. Qed.
End wp_rules.

Lemma wp_ebind P {S A B E} (m : ST S (result A E)) (k : A -> ST S (result B E)) (s : S) Q :
  wp P m s (fun r s' => match r with Ok a => wp P (k a) s' Q | Err e => Q (Err e) s' end) ->
  wp P (ebind m k) s Q.
Proof. intros Hm. apply wp_bind. eapply wp_mono; [exact Hm|]. by intros [a|e] s'. Qed.

Lemma wp_ok P {S A E} (m : ST S A) (s : S) (Q : result A E -> S -> Prop) :
  wp P m s (fun a s' => Q (Ok a) s') -> wp P (ok m) s Q.
Proof. intros Hm. by apply wp_bind. Qed.


(** ** Bits *)
Create Rewrite HintDb testbits.
#[global] Hint Rewrite Z.land_spec Z.lor_spec Z.lxor_spec Z.ldiff_spec
  Z.testbit_0_l Bool.andb_true_r Bool.andb_false_r Bool.orb_false_r
  Bool.orb_true_r Bool.andb_true_l Bool.andb_false_l Bool.orb_false_l : testbits.

Lemma testbit_small w z i : in_word w z -> w <= i -> Z.testbit z i = false.
Proof.
  intros [H0 H1] Hi. destruct (decide (z = 0)) as [->|Hz]; [apply Z.testbit_0_l|].
  assert (0 <= w). { destruct (Z.ltb_spec w 0); [|done]. rewrite Z.pow_neg_r in H1; lia. }
  apply Z.bits_above_log2; [done|]. apply Z.log2_lt_pow2; [lia|].
  eapply Z.lt_le_trans; [exact H1|]. apply Z.pow_le_mono_r; lia.
Qed.

Lemma testbit_ones w i : 0 <= w -> 0 <= i -> Z.testbit (Z.ones w) i = (i <? w).
Proof.
  intros. destruct (Z.ltb_spec i w).
  - apply Z.ones_spec_low; lia.
  - apply Z.ones_spec_high; lia.
Qed.

(** [x & !(2^k - 1)] clears the low [k] bits: it rounds down to a multiple
    of [2^k]. *)
Lemma land_unot_mask w k x :
  0 <= k <= w -> in_word w x ->
  Z.land x (unot w (2 ^ k - 1)) = x - x mod 2 ^ k.
Proof.
  intros Hk Hx. pose proof (Z.div_mod x (2 ^ k) ltac:(lia)) as Hd.
  replace (x - x mod 2 ^ k) with (2 ^ k * (x / 2 ^ k)) by lia.
  rewrite Z.mul_comm, <-Z.shiftr_div_pow2, <-Z.shiftl_mul_pow2 by lia.
  apply Z.bits_inj'. intros i Hi. unfold unot.
  rewrite Z.sub_1_r, <-Z.ones_equiv.
  rewrite Z.land_spec, Z.lxor_spec, !testbit_ones, Z.shiftl_spec by lia.
  destruct (Z.ltb_spec i k).
  - rewrite (Z.testbit_neg_r _ (i - k)) by lia.
    rewrite (proj2 (Z.ltb_lt i w)) by lia. simpl. by rewrite andb_false_r.
  - rewrite Z.shiftr_spec by lia. replace (i - k + k) with i by lia.
    destruct (Z.ltb_spec i w); simpl; [by rewrite andb_true_r|].
    by rewrite (testbit_small w) by (done || lia).
Qed.

(** [x & (2^k - 1)] is the remainder. *)
Lemma land_mask k x : 0 <= k -> Z.land x (2 ^ k - 1) = x mod 2 ^ k.
Proof. intros. rewrite Z.sub_1_r, <-Z.ones_equiv. by apply Z.land_ones. Qed.

Lemma in_word_land w x y : 0 <= w -> in_word w x -> 0 <= y -> in_word w (Z.land x y).
Proof.
  intros Hw [Hx0 Hx1] Hy. split; [apply Z.land_nonneg; auto|].
  destruct (decide (Z.land x y = 0)) as [->|Hne]; [lia|].
  pose proof (proj2 (Z.land_nonneg x y) (or_introl Hx0)).
  apply Z.log2_lt_pow2; [lia|].
  eapply Z.le_lt_trans; [apply Z.log2_land; lia|].
  destruct (decide (x = 0)) as [->|]; [done|].
  apply Z.le_lt_trans with (Z.log2 x); [lia|]. apply Z.log2_lt_pow2; lia.
Qed.

Lemma in_word_lor w x y : 0 <= w -> in_word w x -> in_word w y -> in_word w (Z.lor x y).
Proof.
  intros Hw [Hx0 Hx1] [Hy0 Hy1]. split; [apply Z.lor_nonneg; auto|].
  destruct (decide (Z.lor x y = 0)) as [->|Hne]; [lia|].
  pose proof (proj2 (Z.lor_nonneg x y) (conj Hx0 Hy0)).
  apply Z.log2_lt_pow2; [lia|]. rewrite Z.log2_lor by lia.
  apply Z.max_lub_lt.
  - destruct (decide (x = 0)) as [->|]; [|apply Z.log2_lt_pow2; lia].
    destruct (decide (w = 0)) as [->|]; [|simpl; lia].
    assert (y = 0) by lia. subst. simpl in Hne. done.
  - destruct (decide (y = 0)) as [->|]; [|apply Z.log2_lt_pow2; lia].
    destruct (decide (w = 0)) as [->|]; [|simpl; lia].
    assert (x = 0) by lia. subst. simpl in Hne. done.
Qed.

(** ** Automation *)

(** Turn the boolean comparisons of a hypothesis into propositions. *)
Ltac bool_hyps :=
  repeat match goal with
  | H : (_ && _)%bool = true |- _ => apply andb_true_iff in H; destruct H
  | H : (_ || _)%bool = false |- _ => apply orb_false_iff in H; destruct H
  | H : negb _ = true |- _ => apply negb_true_iff in H
  | H : negb _ = false |- _ => apply negb_false_iff in H
  | H : (_ <? _) = true |- _ => apply Z.ltb_lt in H
  | H : (_ <? _) = false |- _ => apply Z.ltb_ge in H
  | H : (_ <=? _) = true |- _ => apply Z.leb_le in H
  | H : (_ <=? _) = false |- _ => apply Z.leb_gt in H
  | H : (_ =? _) = true |- _ => apply Z.eqb_eq in H
  | H : (_ =? _) = false |- _ => apply Z.eqb_neq in H
  | H : bool_decide _ = true |- _ => apply bool_decide_eq_true in H
  | H : bool_decide _ = false |- _ => apply bool_decide_eq_false in H
  end.

(** Invert the hypotheses that say an [outcome] computation returned. *)
Ltac out_inv :=
  repeat match goal with
  | H : _ ≫= _ = Ret _ |- _ => apply bind_inv in H as (? & ? & H)
  | H : cadd _ _ _ = Ret _ |- _ => apply cadd_inv in H as [? ?]
  | H : csub _ _ = Ret _ |- _ => apply csub_inv in H as [? ?]
  | H : cmul _ _ _ = Ret _ |- _ => apply cmul_inv in H as [? ?]
  | H : cdiv _ _ = Ret _ |- _ => apply cdiv_inv in H as [? ?]
  end; simplify_eq.

(** [lia] with division and remainder by constants. *)
Ltac dlia := Z.to_euclidean_division_equations; lia.

(** Run the next operation of an [outcome] program whose side condition is
    arithmetic. *)
Ltac out_step :=
  first [ rewrite cadd_ret by lia | rewrite csub_ret by lia
        | rewrite cmul_ret by lia | rewrite assert_ret by lia ];
  cbn [mbind outcome_bind].

(** One step of symbolic execution of an [ST] program. *)
Ltac wp_step :=
  lazymatch goal with
  | |- wp _ (_ ≫= _) _ _ => apply wp_bind
  | |- wp _ (mret _) _ _ => apply wp_ret
  | |- wp _ get _ _ => apply wp_get
  | |- wp _ (put _) _ _ => apply wp_put
  | |- wp _ (modify _) _ _ => apply wp_modify
  | |- wp _ (lift (cadd _ _ _)) _ _ => apply wp_cadd; [try lia|]
  | |- wp _ (lift (csub _ _)) _ _ => apply wp_csub; [try lia|]
  | |- wp _ (lift (cmul _ _ _)) _ _ => apply wp_cmul; [try lia|]
  | |- wp _ (lift (assert_that _)) _ _ => apply wp_assert; [try lia|]
  end.
Ltac wp_steps := repeat (wp_step; try (progress cbn beta)).
