(* ===== verification/MemLayout.v ===== *)
(** * The kernel's address-space layout and alignment arithmetic

    Models [kernel/src/memory_management/memory_layout.rs]: the constants of
    the kernel map, the [AlignMem] trait (instantiated by the source at
    [usize] and [u64], both 64 bits wide on the target), and the direct
    mapping between kernel virtual and physical addresses. *)
From S2P Require Import Prelude.

(** ** Constants *)
Definition PAGE_4K : Z := 0x1000.
Definition PAGE_2M : Z := 0x200000.
Definition MB : Z := 0x100000.
Definition GB : Z := 0x40000000.

Definition KERNEL_BASE : Z := 0xFFFFFFFF80000000.
Definition EXTENDED_OFFSET : Z := 0x100000.
Definition KERNEL_LINK : Z := KERNEL_BASE + EXTENDED_OFFSET.
Definition KERNEL_MAPPED_SIZE : Z := 0x8000000.
Definition KERNEL_END : Z := KERNEL_BASE + KERNEL_MAPPED_SIZE.
Definition KERNEL_HEAP_BASE : Z := KERNEL_END.
Definition KERNEL_HEAP_SIZE : Z := 0x1000000.

Definition INTR_STACK_SIZE : Z := PAGE_4K * 32.
Definition INTR_STACK_EMPTY_SIZE : Z := PAGE_4K.
Definition INTR_STACK_ENTRY_SIZE : Z := INTR_STACK_SIZE + INTR_STACK_EMPTY_SIZE.
Definition INTR_STACK_BASE : Z := KERNEL_HEAP_BASE + KERNEL_HEAP_SIZE.
Definition INTR_STACK_COUNT : Z := 7.
Definition INTR_STACK_TOTAL_SIZE : Z := INTR_STACK_ENTRY_SIZE * INTR_STACK_COUNT.

Definition KERNEL_EXTRA_MEMORY_BASE : Z := INTR_STACK_BASE + INTR_STACK_TOTAL_SIZE.
Definition KERNEL_LAST_POSSIBLE_ADDR : Z := 0xFFFFFFFFFFFFF000.
Definition KERNEL_EXTRA_MEMORY_SIZE : Z := KERNEL_LAST_POSSIBLE_ADDR - KERNEL_EXTRA_MEMORY_BASE.

(** ** [trait AlignMem] at 64 bits *)
Definition align_up (addr alignment : Z) : outcome Z :=
  x ← cadd 64 addr alignment;
  y ← csub x 1;
  m ← csub alignment 1;
  Ret (Z.land y (unot 64 m)).

Definition align_down (addr alignment : Z) : outcome Z :=
  m ← csub alignment 1;
  Ret (Z.land addr (unot 64 m)).

Definition is_aligned (addr alignment : Z) : outcome bool :=
  m ← csub alignment 1;
  Ret (Z.land addr m =? 0).

(** returns [(start_aligned, size, offset)] *)
Definition align_range (addr size alignment : Z) : outcome (Z * Z * Z) :=
  addr_end ← cadd 64 addr size;
  start_aligned ← align_down addr alignment;
  end_aligned ← align_up addr_end alignment;
  size' ← csub end_aligned start_aligned;
  _ ← assert_that (0 <? size');
  al ← is_aligned size' alignment;
  _ ← assert_that al;
  offset ← csub addr start_aligned;
  Ret (start_aligned, size', offset).

(** ** The direct map of the low physical memory *)
Definition virtual2physical (addr : Z) : outcome Z :=
  _ ← assert_that ((KERNEL_BASE <=? addr) && (addr <=? KERNEL_BASE + KERNEL_MAPPED_SIZE));
  csub addr KERNEL_BASE.

Definition physical2virtual (addr : Z) : outcome Z :=
  _ ← assert_that (addr <? KERNEL_MAPPED_SIZE);
  cadd 64 addr KERNEL_BASE.

(** ** Specifications *)

(** A power-of-two alignment, as every caller passes. *)
Definition pow2_align (al : Z) : Prop := exists k, 0 <= k < 64 /\ al = 2 ^ k.

Lemma pow2_align_pos al : pow2_align al -> 0 < al < 2 ^ 64.
Proof.
  intros (k & Hk & ->). split; [apply Z.pow_pos_nonneg; lia|].
  apply Z.pow_lt_mono_r; lia.
Qed.

Lemma pow2_PAGE_4K : pow2_align PAGE_4K.
Proof. by exists 12. Qed.

Lemma pow2_divide_le a b : pow2_align a -> pow2_align b -> a <= b -> (a | b).
Proof.
  intros (k & Hk & ->) (j & Hj & ->) Hle. exists (2 ^ (j - k)).
  rewrite <-Z.pow_add_r; [f_equal|..]; try lia;
  apply Z.pow_le_mono_r_iff in Hle; lia.
Qed.

(** The rounded value, as arithmetic. *)
Definition round_down (x al : Z) : Z := x - x mod al.
Definition round_up (x al : Z) : Z := round_down (x + al - 1) al.

Lemma round_down_spec x al : 0 < al ->
  round_down x al <= x < round_down x al + al /\ round_down x al mod al = 0.
Proof.
  intros. unfold round_down. pose proof (Z.mod_pos_bound x al ltac:(lia)).
  split; [lia|]. rewrite Zminus_mod_idemp_r, Z.sub_diag. done.
Qed.

Lemma round_up_spec x al : 0 < al ->
  x <= round_up x al < x + al /\ round_up x al mod al = 0.
Proof.
  intros. unfold round_up. destruct (round_down_spec (x + al - 1) al); [lia|].
  split; [lia|done].
Qed.

Lemma round_up_id x al : 0 < al -> x mod al = 0 -> round_up x al = x.
Proof.
  intros Hal Hx. unfold round_up, round_down.
  rewrite <-Z.add_sub_assoc, <-(Zplus_mod_idemp_l x), Hx, Z.add_0_l.
  rewrite Z.mod_small; lia.
Qed.

Lemma round_down_id x al : x mod al = 0 -> round_down x al = x.
Proof. unfold round_down. lia. Qed.

Lemma round_down_greatest x y al : 0 < al -> y mod al = 0 -> y <= x -> y <= round_down x al.
Proof.
  intros Hal Hy Hle. destruct (round_down_spec x al Hal) as [Hb Hm].
  apply Z.mod_divide in Hy as [k ->]; [|lia]. apply Z.mod_divide in Hm as [j Hj]; [|lia].
  rewrite Hj in Hb |- *. assert (k < j + 1) by nia. nia.
Qed.

Lemma round_up_least x y al : 0 < al -> y mod al = 0 -> x <= y -> round_up x al <= y.
Proof.
  intros Hal Hy Hle. destruct (round_up_spec x al Hal) as [Hb Hm].
  apply Z.mod_divide in Hy as [k ->]; [|lia]. apply Z.mod_divide in Hm as [j Hj]; [|lia].
  rewrite Hj in Hb |- *. assert (j < k + 1) by nia. nia.
Qed.

Lemma align_down_eq addr al :
  pow2_align al -> in_word 64 addr -> align_down addr al = Ret (round_down addr al).
Proof.
  intros (k & Hk & ->) Ha. pose proof (Z.pow_pos_nonneg 2 k).
  unfold align_down. out_step. by rewrite land_unot_mask by (done || lia).
Qed.

Lemma align_up_eq addr al :
  pow2_align al -> 0 <= addr -> addr + al < 2 ^ 64 ->
  align_up addr al = Ret (round_up addr al).
Proof.
  intros (k & Hk & ->) Ha Hb. pose proof (Z.pow_pos_nonneg 2 k).
  unfold align_up. do 3 out_step.
  by rewrite land_unot_mask by (unfold in_word; lia).
Qed.

Lemma is_aligned_eq addr al :
  pow2_align al -> is_aligned addr al = Ret (addr mod al =? 0).
Proof.
  intros (k & Hk & ->). pose proof (Z.pow_pos_nonneg 2 k).
  unfold is_aligned. out_step. by rewrite land_mask by lia.
Qed.

Lemma round_range_size addr size al :
  0 < al -> 0 < size ->
  0 < round_up (addr + size) al - round_down addr al /\
  (round_up (addr + size) al - round_down addr al) mod al = 0.
Proof.
  intros Hal Hs.
  destruct (round_up_spec (addr + size) al) as [? Hu]; [lia|].
  destruct (round_down_spec addr al) as [? Hd]; [lia|].
  split; [lia|]. by rewrite Zminus_mod, Hu, Hd.
Qed.

Lemma align_range_eq addr size al :
  pow2_align al -> 0 <= addr -> 0 < size -> addr + size + al < 2 ^ 64 ->
  align_range addr size al =
    Ret (round_down addr al,
         round_up (addr + size) al - round_down addr al,
         addr - round_down addr al).
Proof.
  intros Hal Ha Hs Hb. pose proof (pow2_align_pos _ Hal) as Hp.
  destruct (round_range_size addr size al) as [Hpos Hmod]; [lia..|].
  destruct (round_down_spec addr al) as [? ?]; [lia|].
  unfold align_range. out_step.
  rewrite align_down_eq by (done || unfold in_word; lia). cbn [mbind outcome_bind].
  rewrite align_up_eq by (done || lia). cbn [mbind outcome_bind].
  out_step. out_step. rewrite is_aligned_eq by done. cbn [mbind outcome_bind].
  do 2 out_step. done.
Qed.

(** [align_range] returns the smallest page-aligned window around the
    requested range: it starts at or before the address, ends at or after
    the end of the range, and wastes less than one unit at each end. *)
Theorem align_range_covers addr size al :
  pow2_align al -> 0 <= addr -> 0 < size -> addr + size + al < 2 ^ 64 ->
  exists start size' offset,
    align_range addr size al = Ret (start, size', offset) /\
    start mod al = 0 /\ size' mod al = 0 /\
    start + offset = addr /\ 0 <= offset < al /\
    addr + size <= start + size' < addr + size + al.
Proof.
  intros Hal Ha Hs Hb. pose proof (pow2_align_pos _ Hal).
  destruct (round_range_size addr size al) as [? Hm]; [lia..|].
  destruct (round_down_spec addr al) as [? Hd]; [lia|].
  destruct (round_up_spec (addr + size) al) as [? ?]; [lia|].
  rewrite align_range_eq by done.
  eexists _, _, _. split; [done|]. split_and!; done || lia.
Qed.

Lemma align_range_covers_witness :
  exists start size' offset,
    align_range 0xB8010 0x20 PAGE_4K = Ret (start, size', offset) /\
    start mod PAGE_4K = 0 /\ size' mod PAGE_4K = 0 /\
    start + offset = 0xB8010 /\ 0 <= offset < PAGE_4K /\
    0xB8010 + 0x20 <= start + size' < 0xB8010 + 0x20 + PAGE_4K.
Proof. apply align_range_covers; [exact pow2_PAGE_4K|vm_compute; done..]. Defined.

Lemma virtual2physical_eq addr :
  KERNEL_BASE <= addr <= KERNEL_END -> virtual2physical addr = Ret (addr - KERNEL_BASE).
Proof.
  unfold KERNEL_END. intros. unfold virtual2physical.
  rewrite assert_ret by lia. cbn [mbind outcome_bind]. by rewrite csub_ret by lia.
Qed.

Lemma physical2virtual_eq p :
  p < KERNEL_MAPPED_SIZE -> physical2virtual p = Ret (p + KERNEL_BASE).
Proof.
  intros H. unfold physical2virtual. rewrite assert_ret by lia. cbn [mbind outcome_bind].
  apply cadd_ret. unfold KERNEL_MAPPED_SIZE, KERNEL_BASE in *. lia.
Qed.

(** The two translations of the direct map are inverse to each other on the
    mapped window, and each refuses addresses outside it. *)
Theorem direct_map_roundtrip v p :
  (KERNEL_BASE <= v < KERNEL_END ->
     (q ← virtual2physical v; physical2virtual q) = Ret v) /\
  (0 <= p < KERNEL_MAPPED_SIZE ->
     (w ← physical2virtual p; virtual2physical w) = Ret p) /\
  (KERNEL_MAPPED_SIZE <= p -> physical2virtual p = Panic) /\
  (v < KERNEL_BASE -> virtual2physical v = Panic).
Proof.
  unfold KERNEL_END. split_and!; intros H.
  - rewrite virtual2physical_eq by (unfold KERNEL_END; lia). cbn [mbind outcome_bind].
    rewrite physical2virtual_eq by lia. f_equal. lia.
  - rewrite physical2virtual_eq by lia. cbn [mbind outcome_bind].
    rewrite virtual2physical_eq by (unfold KERNEL_END; lia). f_equal. lia.
  - unfold physical2virtual, assert_that. by rewrite (proj2 (Z.ltb_ge _ _) H).
  - unfold virtual2physical, assert_that. by rewrite (proj2 (Z.leb_gt _ _) H).
Qed.

Lemma direct_map_roundtrip_witness :
  (q ← virtual2physical KERNEL_LINK; physical2virtual q) = Ret KERNEL_LINK /\
  (w ← physical2virtual 0xB8000; virtual2physical w) = Ret 0xB8000 /\
  physical2virtual KERNEL_MAPPED_SIZE = Panic.
Proof.
  split; [|split].
  - apply (direct_map_roundtrip KERNEL_LINK 0). vm_compute. done.
  - apply (direct_map_roundtrip 0 0xB8000). vm_compute. done.
  - apply (direct_map_roundtrip 0 KERNEL_MAPPED_SIZE). vm_compute. done.
Defined.

(** The windows of the kernel half: direct map, heap, interrupt stacks and
    the virtual-space window follow each other, and stop below [2^64]. *)
Lemma kernel_windows_ordered :
  KERNEL_BASE < KERNEL_LINK < KERNEL_END /\
  KERNEL_HEAP_BASE + KERNEL_HEAP_SIZE <= INTR_STACK_BASE /\
  INTR_STACK_BASE + INTR_STACK_TOTAL_SIZE <= KERNEL_EXTRA_MEMORY_BASE /\
  KERNEL_EXTRA_MEMORY_BASE + KERNEL_EXTRA_MEMORY_SIZE + PAGE_4K = 2 ^ 64 /\
  KERNEL_EXTRA_MEMORY_BASE mod PAGE_4K = 0 /\ KERNEL_EXTRA_MEMORY_SIZE mod PAGE_4K = 0.
Proof. split_and!; vm_compute; done. Qed.
