(* ===== verification/Ring.v ===== *)
(** * The fixed-size ring buffer

    Models [kernel/src/collections/ring.rs].  The buffer is a list of
    [MaybeUninit] slots ([None] is an uninitialised slot); [assume_init_*]
    of an uninitialised slot is undefined behaviour, modelled as [Panic].
    The abstract specification is a bounded first-in first-out queue of
    capacity [N - 1]; a simulation shows that the indices and the modular
    arithmetic implement it. *)
From S2P Require Import Prelude.

#[local] Open Scope nat_scope.

Module Ring.

Record RingBuffer (T : Type) : Type := mkRing {
  buffer : list (option T);
  read_index : nat;
  write_index : nat
}.
Arguments mkRing {T} _ _ _.
Arguments buffer {T} _.
Arguments read_index {T} _.
Arguments write_index {T} _.

Section ring.
Context {T : Type}.
Implicit Types (rb : RingBuffer T) (v : T) (q : list T).

(** [(i + 1) % self.buffer.len()]; the remainder by zero panics. *)
Definition next_of rb (i : nat) : outcome nat :=
  if length (buffer rb) =? 0 then Panic else Ret ((i + 1) mod length (buffer rb)).

(** [self.buffer[i] = MaybeUninit::new(value)] *)
Definition set_slot rb (i : nat) v : outcome (list (option T)) :=
  if i <? length (buffer rb) then Ret (<[i := Some v]> (buffer rb)) else Panic.

(** [self.buffer[i].assume_init_read()] *)
Definition read_slot rb (i : nat) : outcome T :=
  match buffer rb !! i with Some (Some v) => Ret v | _ => Panic end.

Definition empty (N : nat) : RingBuffer T := mkRing (replicate N None) 0 0.

Definition try_push rb v : outcome (bool * RingBuffer T) :=
  next_index ← next_of rb (write_index rb);
  if next_index =? read_index rb then Ret (false, rb)
  else
    b ← set_slot rb (write_index rb) v;
    Ret (true, mkRing b (read_index rb) next_index).

Definition push rb v : outcome (RingBuffer T) :=
  next_index ← next_of rb (write_index rb);
  if next_index =? read_index rb then Panic
  else
    b ← set_slot rb (write_index rb) v;
    Ret (mkRing b (read_index rb) next_index).

Definition push_replace rb v : outcome (RingBuffer T) :=
  next_index ← next_of rb (write_index rb);
  if next_index =? read_index rb then
    _ ← read_slot rb (read_index rb);
    b ← set_slot rb (read_index rb) v;
    r ← next_of rb (read_index rb);
    Ret (mkRing b r next_index)
  else
    b ← set_slot rb (write_index rb) v;
    Ret (mkRing b (read_index rb) next_index).

Definition pop rb : outcome (option T * RingBuffer T) :=
  if read_index rb =? write_index rb then Ret (None, rb)
  else
    v ← read_slot rb (read_index rb);
    r ← next_of rb (read_index rb);
    Ret (Some v, mkRing (buffer rb) r (write_index rb)).

Definition clear rb : RingBuffer T := mkRing (buffer rb) 0 0.

(** ** The abstract queue and the representation relation *)
Definition slot_of (N r i : nat) : nat := (r + i) mod N.

Record Rep (N : nat) rb q : Prop := mkRep {
  rep_len : length (buffer rb) = N;
  rep_read : read_index rb < N;
  rep_cap : length q < N;
  rep_write : write_index rb = slot_of N (read_index rb) (length q);
  rep_slots : forall i x, q !! i = Some x ->
    buffer rb !! slot_of N (read_index rb) i = Some (Some x)
}.

Lemma mod_wrap a n : a < 2 * n -> a mod n = if a <? n then a else a - n.
Proof.
  intros H. destruct (Nat.ltb_spec a n); [by apply Nat.mod_small|].
  replace a with ((a - n) + 1 * n) at 1 by lia.
  rewrite Nat.Div0.mod_add. apply Nat.mod_small. lia.
Qed.

Lemma slot_of_lt N r i : 0 < N -> slot_of N r i < N.
Proof. intros. apply Nat.mod_upper_bound. lia. Qed.

Lemma slot_of_S N r i : 0 < N -> (slot_of N r i + 1) mod N = slot_of N r (S i).
Proof.
  intros. unfold slot_of. rewrite Nat.Div0.add_mod_idemp_l. f_equal. lia.
Qed.

Lemma slot_of_shift N r i : 0 < N -> slot_of N ((r + 1) mod N) i = slot_of N r (S i).
Proof. intros. unfold slot_of. rewrite Nat.Div0.add_mod_idemp_l. f_equal. lia. Qed.

Lemma slot_of_inj N r i j :
  r < N -> i < N -> j < N -> slot_of N r i = slot_of N r j -> i = j.
Proof.
  intros Hr Hi Hj. unfold slot_of. rewrite !mod_wrap by lia.
  destruct (Nat.ltb_spec (r + i) N), (Nat.ltb_spec (r + j) N); lia.
Qed.

Lemma next_of_ret N rb i :
  length (buffer rb) = N -> 0 < N -> next_of rb i = Ret ((i + 1) mod N).
Proof. intros HN H0. unfold next_of. rewrite HN. destruct N; [lia|done]. Qed.

(** The fullness test of the code is the test on the number of elements. *)
Lemma full_test N rb q :
  Rep N rb q ->
  ((write_index rb + 1) mod N =? read_index rb) = (length q =? N - 1).
Proof.
  intros [HN Hr Hc Hw _]. rewrite Hw, slot_of_S by lia.
  destruct (Nat.eqb_spec (length q) (N - 1)) as [He|He].
  - apply Nat.eqb_eq. unfold slot_of. rewrite He, mod_wrap by lia.
    destruct (Nat.ltb_spec (read_index rb + S (N - 1)) N); lia.
  - apply Nat.eqb_neq. intros Heq. assert (S (length q) = 0) as ?; [|lia].
    apply (slot_of_inj N (read_index rb)); try lia. rewrite Heq.
    unfold slot_of. rewrite Nat.add_0_r, Nat.mod_small; lia.
Qed.

Lemma empty_test N rb q :
  Rep N rb q -> (read_index rb =? write_index rb) = (length q =? 0).
Proof.
  intros [HN Hr Hc Hw _]. rewrite Hw.
  destruct (Nat.eqb_spec (length q) 0) as [->|He].
  - apply Nat.eqb_eq. unfold slot_of. rewrite Nat.add_0_r, Nat.mod_small; lia.
  - apply Nat.eqb_neq. intros Heq. apply He.
    apply (slot_of_inj N (read_index rb)); try lia. rewrite <-Heq.
    unfold slot_of. rewrite Nat.add_0_r, Nat.mod_small; lia.
Qed.

Lemma Rep_empty N : 0 < N -> Rep N (empty N) [].
Proof.
  intros. constructor; simpl; try done.
  - by rewrite length_replicate.
  - unfold slot_of. by rewrite Nat.mod_small by lia.
Qed.

(** Writing the next free slot and advancing the write index appends. *)
Lemma Rep_push N rb q v :
  Rep N rb q -> length q < N - 1 ->
  Rep N (mkRing (<[write_index rb := Some v]> (buffer rb)) (read_index rb)
           ((write_index rb + 1) mod N)) (q ++ [v]).
Proof.
  intros [HN Hr Hc Hw Hs] Hfree. constructor; simpl; try done.
  - by rewrite length_insert.
  - rewrite length_app. simpl. lia.
  - rewrite Hw, slot_of_S, length_app by lia. f_equal. simpl. lia.
  - intros i x Hx. rewrite Hw. destruct (decide (i < length q)) as [Hi|Hi].
    + rewrite lookup_app_l in Hx by done. rewrite list_lookup_insert_ne; [by apply Hs|].
      intros Heq. apply slot_of_inj in Heq; lia.
    + apply lookup_lt_Some in Hx as Hl. rewrite length_app in Hl. simpl in Hl.
      assert (i = length q) as -> by lia.
      rewrite list_lookup_middle in Hx by done. injection Hx as ->.
      apply list_lookup_insert_eq. rewrite HN. apply slot_of_lt. lia.
Qed.

Lemma Rep_pop N rb x q :
  Rep N rb (x :: q) ->
  buffer rb !! read_index rb = Some (Some x) /\
  Rep N (mkRing (buffer rb) ((read_index rb + 1) mod N) (write_index rb)) q.
Proof.
  intros [HN Hr Hc Hw Hs]. simpl in Hc. split.
  - specialize (Hs 0 x eq_refl). unfold slot_of in Hs.
    by rewrite Nat.add_0_r, Nat.mod_small in Hs by done.
  - constructor; simpl; try done.
    + apply Nat.mod_upper_bound. lia.
    + lia.
    + by rewrite Hw, slot_of_shift by lia.
    + intros i y Hy. rewrite slot_of_shift by lia. by apply Hs.
Qed.

Lemma try_push_spec N rb q v :
  Rep N rb q ->
  exists rb', try_push rb v = Ret (length q <? N - 1, rb') /\
    Rep N rb' (if length q <? N - 1 then q ++ [v] else q).
Proof.
  intros HR. pose proof HR as [HN Hr Hc Hw _]. unfold try_push.
  rewrite (next_of_ret N) by lia. cbn [mbind outcome_bind].
  rewrite (full_test N _ q HR).
  destruct (Nat.eqb_spec (length q) (N - 1)), (Nat.ltb_spec (length q) (N - 1)); try lia.
  - by exists rb.
  - unfold set_slot. rewrite HN, Hw, (proj2 (Nat.ltb_lt _ _)) by (apply slot_of_lt; lia).
    cbn [mbind outcome_bind]. rewrite <-Hw.
    eexists. split; [done|]. by apply Rep_push.
Qed.

Lemma pop_spec N rb q :
  Rep N rb q ->
  exists rb', pop rb = Ret (head q, rb') /\ Rep N rb' (tail q).
Proof.
  intros HR. pose proof HR as [HN Hr Hc _ _]. unfold pop. rewrite (empty_test N _ q HR).
  destruct q as [|x q]; simpl; [by exists rb|].
  destruct (Rep_pop N rb x q HR) as [Hx HR'].
  unfold read_slot. rewrite Hx. cbn [mbind outcome_bind].
  rewrite (next_of_ret N) by lia. cbn [mbind outcome_bind]. by eexists.
Qed.

Lemma Rep_clear N rb q : Rep N rb q -> Rep N (clear rb) [].
Proof.
  intros [HN Hr Hc Hw _]. constructor; simpl; try done; try lia.
  unfold slot_of. by rewrite Nat.mod_small by lia.
Qed.

(** ** Whole runs *)
Inductive op : Type :=
| OpTryPush (v : T)
| OpPop
| OpClear.
Inductive answer : Type :=
| AnsPushed (b : bool)
| AnsPopped (o : option T)
| AnsCleared.

Definition step_ring rb (o : op) : outcome (answer * RingBuffer T) :=
  match o with
  | OpTryPush v => '(b, rb') ← try_push rb v; Ret (AnsPushed b, rb')
  | OpPop => '(x, rb') ← pop rb; Ret (AnsPopped x, rb')
  | OpClear => Ret (AnsCleared, clear rb)
  end.

(** The specification: a queue that holds at most [cap] elements. *)
Definition step_queue (cap : nat) q (o : op) : answer * list T :=
  match o with
  | OpTryPush v => if length q <? cap then (AnsPushed true, q ++ [v]) else (AnsPushed false, q)
  | OpPop => (AnsPopped (head q), tail q)
  | OpClear => (AnsCleared, [])
  end.

Fixpoint run_ring rb (ops : list op) : outcome (list answer * RingBuffer T) :=
  match ops with
  | [] => Ret ([], rb)
  | o :: ops =>
      '(a, rb') ← step_ring rb o;
      '(rest, rb'') ← run_ring rb' ops;
      Ret (a :: rest, rb'')
  end.

Fixpoint run_queue (cap : nat) q (ops : list op) : list answer * list T :=
  match ops with
  | [] => ([], q)
  | o :: ops =>
      let '(a, q') := step_queue cap q o in
      let '(rest, q'') := run_queue cap q' ops in
      (a :: rest, q'')
  end.

Lemma step_simulation N rb q o :
  Rep N rb q ->
  exists rb', step_ring rb o = Ret ((step_queue (N - 1) q o).1, rb') /\
    Rep N rb' (step_queue (N - 1) q o).2.
Proof.
  intros HR. destruct o as [v| |]; simpl.
  - destruct (try_push_spec N rb q v HR) as (rb' & -> & HR').
    exists rb'. cbn [mbind outcome_bind]. by destruct (length q <? N - 1).
  - destruct (pop_spec N rb q HR) as (rb' & -> & HR'). by exists rb'.
  - exists (clear rb). split; [done|]. by eapply Rep_clear.
Qed.

Lemma run_simulation N ops rb q :
  Rep N rb q ->
  exists rb', run_ring rb ops = Ret ((run_queue (N - 1) q ops).1, rb') /\
    Rep N rb' (run_queue (N - 1) q ops).2.
Proof.
  revert rb q. induction ops as [|o ops IH]; intros rb q HR; simpl; [by exists rb|].
  destruct (step_simulation N rb q o HR) as (rb1 & -> & HR1). cbn [mbind outcome_bind].
  destruct (step_queue (N - 1) q o) as [a q'].
  destruct (IH rb1 q' HR1) as (rb2 & Hrun & HR2). simpl in Hrun. rewrite Hrun.
  cbn [mbind outcome_bind].
  destruct (run_queue (N - 1) q' ops) as [rest q'']. by exists rb2.
Qed.

(** Every run of [try_push], [pop] and [clear] from an empty ring of [N]
    slots answers exactly like a first-in first-out queue that holds at most
    [N - 1] elements: nothing is lost, reordered or read uninitialised, and
    no index goes out of range. *)
Theorem ring_refines_queue (N : nat) (ops : list op) :
  0 < N ->
  exists rb, run_ring (empty N) ops = Ret ((run_queue (N - 1) [] ops).1, rb) /\
    Rep N rb (run_queue (N - 1) [] ops).2.
Proof. intros HN. apply run_simulation. by apply Rep_empty. Qed.

(** [push] panics exactly on a full ring, and otherwise appends. *)
Theorem push_spec N rb q v :
  Rep N rb q ->
  if length q =? N - 1 then push rb v = Panic
  else exists rb', push rb v = Ret rb' /\ Rep N rb' (q ++ [v]).
Proof.
  intros HR. pose proof HR as [HN Hr Hc Hw _]. unfold push.
  rewrite (next_of_ret N) by lia. cbn [mbind outcome_bind].
  rewrite (full_test N _ q HR).
  destruct (Nat.eqb_spec (length q) (N - 1)); [done|].
  unfold set_slot. rewrite HN, Hw, (proj2 (Nat.ltb_lt _ _)) by (apply slot_of_lt; lia).
  cbn [mbind outcome_bind]. rewrite <-Hw. eexists. split; [done|]. apply Rep_push; [done|lia].
Qed.

(** [push_replace] on a full ring of two or more slots: the oldest element
    leaves the queue, but the new value is stored in the slot that the
    write index now designates, outside the readable window; the last
    readable slot is the one that was free before the call, whose content
    does not depend on the pushed value. *)
Theorem push_replace_full_loses_value N rb x q v :
  Rep N rb (x :: q) -> length (x :: q) = N - 1 ->
  exists rb', push_replace rb v = Ret rb' /\
    buffer rb' !! write_index rb' = Some (Some v) /\
    read_index rb' = slot_of N (read_index rb) 1 /\
    write_index rb' = slot_of N (read_index rb') (length (x :: q)) /\
    (forall i y, q !! i = Some y -> buffer rb' !! slot_of N (read_index rb') i = Some (Some y)) /\
    buffer rb' !! slot_of N (read_index rb') (length q) = buffer rb !! write_index rb.
Proof.
  intros HR Hfull. pose proof HR as [HN Hr Hc Hw Hs].
  destruct (Rep_pop N rb x q HR) as [Hx [_ _ _ Hw' Hs']].
  cbn [buffer read_index write_index] in *.
  unfold push_replace. rewrite !(next_of_ret N) by lia. cbn [mbind outcome_bind].
  rewrite (full_test N _ _ HR), Hfull, Nat.eqb_refl.
  unfold read_slot. rewrite Hx. cbn [mbind outcome_bind].
  unfold set_slot. rewrite HN, (proj2 (Nat.ltb_lt _ _)) by done. cbn [mbind outcome_bind].
  assert ((write_index rb + 1) mod N = read_index rb) as Hnext.
  { apply Nat.eqb_eq. rewrite (full_test N _ _ HR). by apply Nat.eqb_eq. }
  assert (slot_of N (read_index rb) 0 = read_index rb) as H0.
  { unfold slot_of. rewrite Nat.add_0_r. by apply Nat.mod_small. }
  eexists. split; [done|]. cbn [buffer read_index write_index]. rewrite Hnext.
  split_and!.
  - apply list_lookup_insert_eq. lia.
  - done.
  - rewrite slot_of_shift by lia. unfold slot_of. simpl in *. rewrite mod_wrap by lia.
    destruct (Nat.ltb_spec (read_index rb + S (N - 1)) N); lia.
  - intros i y Hy. apply lookup_lt_Some in Hy as Hl. simpl in Hfull.
    rewrite list_lookup_insert_ne; [by apply Hs'|].
    rewrite slot_of_shift, <-H0 at 1 by lia. intros Heq. apply slot_of_inj in Heq; lia.
  - simpl in Hfull. rewrite list_lookup_insert_ne; [by rewrite Hw'|].
    rewrite slot_of_shift, <-H0 at 1 by lia. intros Heq. apply slot_of_inj in Heq; lia.
Qed.
End ring.

(** ** Witnesses *)
Definition full3 : RingBuffer nat := mkRing [Some 1; Some 2; Some 3; None] 0 3.

Lemma Rep_full3 : Rep 4 full3 [1; 2; 3].
Proof.
  constructor; simpl; try lia; try done.
  intros i x. do 3 (destruct i as [|i]; [by intros [= <-]|]). done.
Qed.

Lemma ring_refines_queue_witness :
  exists rb, run_ring (empty 3) [OpTryPush 7; OpTryPush 8; OpTryPush 9; OpPop; OpTryPush 9; OpPop; OpPop; OpPop]
    = Ret ([AnsPushed true; AnsPushed true; AnsPushed false; AnsPopped (Some 7); AnsPushed true;
            AnsPopped (Some 8); AnsPopped (Some 9); AnsPopped None], rb) /\
    Rep 3 rb [].
Proof.
  apply (ring_refines_queue 3
    [OpTryPush 7; OpTryPush 8; OpTryPush 9; OpPop; OpTryPush 9; OpPop; OpPop; OpPop]). lia.
Defined.

Lemma push_spec_witness : push full3 9 = Panic.
Proof. exact (push_spec 4 full3 [1; 2; 3] 9 Rep_full3). Defined.

Lemma push_replace_full_loses_value_witness :
  exists rb', push_replace full3 9 = Ret rb' /\
    buffer rb' !! write_index rb' = Some (Some 9) /\
    read_index rb' = slot_of 4 0 1 /\
    write_index rb' = slot_of 4 (read_index rb') 3 /\
    (forall i y, [2; 3] !! i = Some y -> buffer rb' !! slot_of 4 (read_index rb') i = Some (Some y)) /\
    buffer rb' !! slot_of 4 (read_index rb') 2 = Some None.
Proof. exact (push_replace_full_loses_value 4 full3 1 [2; 3] 9 Rep_full3 eq_refl). Defined.

End Ring.
