(* ===== verification/UserLink.v ===== *)
(** * The kernel/user interface crate

    Models [libraries/kernel_user_link/src]: the encoding of system-call
    results and argument errors in one 64-bit register ([syscalls.rs]), and
    the flag words of [file.rs], [process.rs] and [clock.rs]. *)
From S2P Require Import Prelude.

(** ** Words made of disjoint fields *)
Lemma lor_shiftl_add a b k :
  0 <= k -> 0 <= a < 2 ^ k -> 0 <= b -> Z.lor a (Z.shiftl b k) = a + b * 2 ^ k.
Proof.
  intros Hk Ha Hb. rewrite <-Z.shiftl_mul_pow2 by done.
  apply eq_sym, Z.add_nocarry_lor, Z.bits_inj'. intros i Hi.
  rewrite Z.land_spec, Z.testbit_0_l. destruct (Z.ltb_spec i k).
  - rewrite Z.shiftl_spec_low by done. apply andb_false_r.
  - by rewrite (testbit_small k a) by (unfold in_word; lia).
Qed.

Lemma byte_of_add a b : 0 <= a < 256 -> Z.land (a + b * 256) 0xFF = a.
Proof.
  intros. change 0xFF with (2 ^ 8 - 1). rewrite land_mask by lia.
  change (2 ^ 8) with 256. rewrite Z.mod_add by lia. apply Z.mod_small. lia.
Qed.

(** ** [syscalls.rs] *)
Module Syscalls.

Definition NUM_SYSCALLS : Z := 22.

Inductive SyscallArgError : Type :=
| GeneralInvalid
| InvalidUserPointer
| NotValidUtf8
| InvalidHeapIncrement
| DuplicateFileMappings
| InvalidNanoseconds.

#[global] Instance SyscallArgError_eq_dec : EqDecision SyscallArgError.
Proof. solve_decision. Defined.

(** the [repr(u8)] discriminant *)
Definition arg_error_code (e : SyscallArgError) : Z :=
  match e with
  | GeneralInvalid => 1
  | InvalidUserPointer => 2
  | NotValidUtf8 => 3
  | InvalidHeapIncrement => 4
  | DuplicateFileMappings => 5
  | InvalidNanoseconds => 6
  end.

(** [SyscallArgError::try_from] *)
Definition arg_error_try_from (value : Z) : result (option SyscallArgError) unit :=
  if value =? 0 then Ok None
  else if value =? 1 then Ok (Some GeneralInvalid)
  else if value =? 2 then Ok (Some InvalidUserPointer)
  else if value =? 3 then Ok (Some NotValidUtf8)
  else if value =? 4 then Ok (Some InvalidHeapIncrement)
  else if value =? 5 then Ok (Some DuplicateFileMappings)
  else if value =? 6 then Ok (Some InvalidNanoseconds)
  else Err tt.

Inductive SyscallError : Type :=
| SyscallNotFound
| InvalidError
| CouldNotOpenFile
| InvalidFileIndex
| CouldNotWriteToFile
| CouldNotReadFromFile
| CouldNotLoadElf
| CouldNotAllocateProcess
| HeapRangesExceeded
| EndOfFile
| FileNotFound
| PidNotFound
| ProcessStillRunning
| IsNotDirectory
| IsDirectory
| BufferTooSmall
| GraphicsNotAvailable
| GraphicsAlreadyTaken
| GraphicsNotOwned
| InvalidGraphicsBuffer
| InvalidOffset
| AlreadyExists
| OperationNotSupported
| InvalidArgument (arg1 arg2 arg3 arg4 arg5 arg6 arg7 : option SyscallArgError).

Definition SyscallResult : Type := result Z SyscallError.

(** [arg.map(|e| e as u64).unwrap_or(0)] *)
Definition arg_byte (o : option SyscallArgError) : Z :=
  match o with Some e => arg_error_code e | None => 0 end.

Definition create_syscall_error (arg1 arg2 arg3 arg4 arg5 arg6 arg7 : option SyscallArgError) : Z :=
  let error := 0 in
  let error := Z.lor error (arg_byte arg1) in
  let error := Z.lor error (Z.shiftl (arg_byte arg2) 8) in
  let error := Z.lor error (Z.shiftl (arg_byte arg3) 16) in
  let error := Z.lor error (Z.shiftl (arg_byte arg4) 24) in
  let error := Z.lor error (Z.shiftl (arg_byte arg5) 32) in
  let error := Z.lor error (Z.shiftl (arg_byte arg6) 40) in
  let error := Z.lor error (Z.shiftl (arg_byte arg7) 48) in
  Z.lor error (Z.shiftl 1 63).

Definition syscall_result_to_u64 (r : SyscallResult) : outcome Z :=
  match r with
  | Ok value =>
      _ ← assert_that (Z.land value (Z.shiftl 1 63) =? 0);
      Ret value
  | Err error =>
      err_upper ←
        match error with
        | SyscallNotFound => Ret (wrap 64 (-1))
        | InvalidArgument a1 a2 a3 a4 a5 a6 a7 => Ret (create_syscall_error a1 a2 a3 a4 a5 a6 a7)
        | CouldNotOpenFile => Ret (Z.shiftl 2 56)
        | InvalidFileIndex => Ret (Z.shiftl 3 56)
        | CouldNotWriteToFile => Ret (Z.shiftl 4 56)
        | CouldNotReadFromFile => Ret (Z.shiftl 5 56)
        | CouldNotLoadElf => Ret (Z.shiftl 6 56)
        | CouldNotAllocateProcess => Ret (Z.shiftl 7 56)
        | HeapRangesExceeded => Ret (Z.shiftl 8 56)
        | EndOfFile => Ret (Z.shiftl 9 56)
        | FileNotFound => Ret (Z.shiftl 10 56)
        | PidNotFound => Ret (Z.shiftl 11 56)
        | ProcessStillRunning => Ret (Z.shiftl 12 56)
        | IsNotDirectory => Ret (Z.shiftl 13 56)
        | IsDirectory => Ret (Z.shiftl 14 56)
        | BufferTooSmall => Ret (Z.shiftl 15 56)
        | GraphicsNotAvailable => Ret (Z.shiftl 16 56)
        | GraphicsAlreadyTaken => Ret (Z.shiftl 17 56)
        | GraphicsNotOwned => Ret (Z.shiftl 18 56)
        | InvalidGraphicsBuffer => Ret (Z.shiftl 19 56)
        | InvalidOffset => Ret (Z.shiftl 20 56)
        | AlreadyExists => Ret (Z.shiftl 21 56)
        | OperationNotSupported => Ret (Z.shiftl 22 56)
        | InvalidError => Panic
        end;
      Ret (Z.lor err_upper (Z.shiftl 1 63))
  end.

(** The [?] of a failed byte returns [Err(InvalidError)]. *)
Definition decode_arg (value shift : Z) : option (option SyscallArgError) :=
  match arg_error_try_from (Z.land (Z.shiftr value shift) 0xFF) with
  | Ok o => Some o
  | Err _ => None
  end.

Definition decode_args (value : Z) : option SyscallError :=
  a1 ← decode_arg value 0;
  a2 ← decode_arg value 8;
  a3 ← decode_arg value 16;
  a4 ← decode_arg value 24;
  a5 ← decode_arg value 32;
  a6 ← decode_arg value 40;
  a7 ← decode_arg value 48;
  Some (InvalidArgument a1 a2 a3 a4 a5 a6 a7).

Definition syscall_result_from_u64 (value : Z) : SyscallResult :=
  if Z.land value (Z.shiftl 1 63) =? 0 then Ok value
  else
    let value := Z.land value (unot 64 (Z.shiftl 1 63)) in
    let err_byte := wrap 8 (Z.shiftr value 56) in
    Err (if err_byte =? 0 then default InvalidError (decode_args value)
         else if err_byte =? 1 then InvalidError
         else if err_byte =? 2 then CouldNotOpenFile
         else if err_byte =? 3 then InvalidFileIndex
         else if err_byte =? 4 then CouldNotWriteToFile
         else if err_byte =? 5 then CouldNotReadFromFile
         else if err_byte =? 6 then CouldNotLoadElf
         else if err_byte =? 7 then CouldNotAllocateProcess
         else if err_byte =? 8 then HeapRangesExceeded
         else if err_byte =? 9 then EndOfFile
         else if err_byte =? 10 then FileNotFound
         else if err_byte =? 11 then PidNotFound
         else if err_byte =? 12 then ProcessStillRunning
         else if err_byte =? 13 then IsNotDirectory
         else if err_byte =? 14 then IsDirectory
         else if err_byte =? 15 then BufferTooSmall
         else if err_byte =? 16 then GraphicsNotAvailable
         else if err_byte =? 17 then GraphicsAlreadyTaken
         else if err_byte =? 18 then GraphicsNotOwned
         else if err_byte =? 19 then InvalidGraphicsBuffer
         else if err_byte =? 20 then InvalidOffset
         else if err_byte =? 21 then AlreadyExists
         else if err_byte =? 22 then OperationNotSupported
         else InvalidError).

(** [f] is the body of the selected system call. *)
Definition syscall_handler_wrapper (syscall_number : Z) (f : unit -> outcome SyscallResult) : outcome Z :=
  if NUM_SYSCALLS <=? syscall_number then syscall_result_to_u64 (Err SyscallNotFound)
  else r ← f tt; syscall_result_to_u64 r.

(** *** Proofs *)
Lemma arg_byte_bound o : 0 <= arg_byte o < 256.
Proof. destruct o as [[]|]; simpl; lia. Qed.

Lemma arg_byte_decode o : arg_error_try_from (arg_byte o) = Ok o.
Proof. by destruct o as [[]|]. Qed.

(** The packed arguments as a number in base 256. *)
Fixpoint pack (bs : list Z) : Z :=
  match bs with [] => 0 | b :: bs => b + pack bs * 256 end.

Lemma pack_bound bs :
  Forall (fun b => 0 <= b < 256) bs -> 0 <= pack bs < 256 ^ Z.of_nat (length bs).
Proof.
  induction 1 as [|b bs Hb _ IH]; [done|]. cbn [pack length].
  rewrite Nat2Z.inj_succ, Z.pow_succ_r by lia. lia.
Qed.

Lemma pack_app bs b :
  pack (bs ++ [b]) = pack bs + b * 256 ^ Z.of_nat (length bs).
Proof.
  induction bs as [|c bs IH]; cbn [pack app length]; [simpl; lia|].
  rewrite IH, Nat2Z.inj_succ, Z.pow_succ_r by lia. ring.
Qed.

Lemma pack_shiftr b bs : 0 <= b < 256 -> Z.shiftr (pack (b :: bs)) 8 = pack bs.
Proof.
  intros. rewrite Z.shiftr_div_pow2 by lia. cbn [pack]. change (2 ^ 8) with 256.
  rewrite Z.div_add by lia. rewrite Z.div_small by lia. lia.
Qed.

Lemma pack_byte bs i b :
  Forall (fun b => 0 <= b < 256) bs -> bs !! i = Some b ->
  Z.land (Z.shiftr (pack bs) (8 * Z.of_nat i)) 0xFF = b.
Proof.
  intros Hbs. revert i. induction Hbs as [|c bs Hc Hbs IH]; intros i Hi; [done|].
  destruct i as [|i]; simpl in Hi.
  - injection Hi as ->. change (8 * Z.of_nat 0) with 0. rewrite Z.shiftr_0_r. cbn [pack].
    by apply byte_of_add.
  - rewrite Nat2Z.inj_succ, Z.mul_succ_r, Z.add_comm, <-Z.shiftr_shiftr by lia.
    rewrite pack_shiftr by done. by apply IH.
Qed.

Definition arg_bytes (args : list (option SyscallArgError)) : list Z := arg_byte <$> args.

Lemma arg_bytes_bound args : Forall (fun b => 0 <= b < 256) (arg_bytes args).
Proof. apply Forall_fmap, Forall_true. intros o. apply arg_byte_bound. Qed.

Lemma pack_snoc_lor args o k :
  k = 8 * Z.of_nat (length args) ->
  Z.lor (pack (arg_bytes args)) (Z.shiftl (arg_byte o) k) = pack (arg_bytes (args ++ [o])).
Proof.
  intros ->. pose proof (pack_bound _ (arg_bytes_bound args)) as Hb.
  unfold arg_bytes in *. rewrite length_fmap in Hb. rewrite fmap_app.
  change (arg_byte <$> [o]) with [arg_byte o]. rewrite pack_app, length_fmap.
  rewrite lor_shiftl_add; [by rewrite Z.pow_mul_r by lia|lia| |apply arg_byte_bound].
  by rewrite Z.pow_mul_r by lia.
Qed.

Lemma create_syscall_error_pack a1 a2 a3 a4 a5 a6 a7 :
  create_syscall_error a1 a2 a3 a4 a5 a6 a7 =
  Z.lor (pack (arg_bytes [a1; a2; a3; a4; a5; a6; a7])) (Z.shiftl 1 63).
Proof.
  unfold create_syscall_error. cbv zeta. f_equal. rewrite Z.lor_0_l.
  replace (arg_byte a1) with (pack (arg_bytes [a1])) by (simpl; lia).
  do 6 (rewrite pack_snoc_lor by done; cbn [app]). done.
Qed.

Lemma clear_msb x : 0 <= x < 2 ^ 63 ->
  (Z.land (Z.lor x (Z.shiftl 1 63)) (Z.shiftl 1 63) =? 0) = false /\
  Z.land (Z.lor x (Z.shiftl 1 63)) (unot 64 (Z.shiftl 1 63)) = x.
Proof.
  intros Hx. split.
  - apply Z.eqb_neq. intros H. apply (f_equal (fun z => Z.testbit z 63)) in H.
    rewrite Z.land_spec, Z.lor_spec in H. simpl in H. by rewrite orb_true_r in H.
  - change (unot 64 (Z.shiftl 1 63)) with (Z.ones 63).
    rewrite Z.land_ones, lor_shiftl_add by lia.
    rewrite Z.mod_add by lia. by apply Z.mod_small.
Qed.

Lemma decode_arg_pack args i o k :
  args !! i = Some o -> k = 8 * Z.of_nat i ->
  decode_arg (pack (arg_bytes args)) k = Some o.
Proof.
  intros Hi ->. unfold decode_arg.
  rewrite (pack_byte _ i (arg_byte o)) 
    by (apply arg_bytes_bound || (unfold arg_bytes; by rewrite list_lookup_fmap, Hi)).
  by rewrite arg_byte_decode.
Qed.

Lemma decode_args_pack a1 a2 a3 a4 a5 a6 a7 :
  decode_args (pack (arg_bytes [a1; a2; a3; a4; a5; a6; a7])) =
  Some (InvalidArgument a1 a2 a3 a4 a5 a6 a7).
Proof.
  unfold decode_args.
  rewrite (decode_arg_pack _ 0 a1 0), (decode_arg_pack _ 1 a2 8), (decode_arg_pack _ 2 a3 16),
    (decode_arg_pack _ 3 a4 24), (decode_arg_pack _ 4 a5 32), (decode_arg_pack _ 5 a6 40),
    (decode_arg_pack _ 6 a7 48) by done. done.
Qed.

(** What a caller can receive for a result the kernel encodes: every value
    and every error comes back unchanged, except [SyscallNotFound], whose
    all-ones encoding has no decoder case and comes back as
    [InvalidError]. *)
Definition received (r : SyscallResult) : SyscallResult :=
  match r with Err SyscallNotFound => Err InvalidError | _ => r end.

Lemma small_args_word a1 a2 a3 a4 a5 a6 a7 :
  0 <= pack (arg_bytes [a1; a2; a3; a4; a5; a6; a7]) < 2 ^ 56.
Proof. apply (pack_bound _ (arg_bytes_bound [a1; a2; a3; a4; a5; a6; a7])). Qed.

Lemma encoded_result_decodes (r : SyscallResult) (w : Z) :
  match r with Ok v => in_word 64 v | Err _ => True end ->
  syscall_result_to_u64 r = Ret w ->
  in_word 64 w /\ syscall_result_from_u64 w = received r.
Proof.
  intros Hv Hw. destruct r as [v|e]; simpl in Hw.
  - destruct (Z.eqb_spec (Z.land v (Z.shiftl 1 63)) 0) as [E|]; [|done].
    injection Hw as <-. split; [done|]. unfold syscall_result_from_u64. by rewrite E.
  - destruct e as [| | | | | | | | | | | | | | | | | | | | | | |arg1 arg2 arg3 arg4 arg5 arg6 arg7].
    1-23: first [discriminate Hw|injection Hw as <-; split; [vm_compute; done|reflexivity]].
    cbn [mbind outcome_bind] in Hw. injection Hw as <-.
    rewrite create_syscall_error_pack, <-Z.lor_assoc, Z.lor_diag.
    pose proof (small_args_word arg1 arg2 arg3 arg4 arg5 arg6 arg7) as Hp.
    set (p := pack _) in *.
    destruct (clear_msb p) as [Hm1 Hm2]; [lia|]. split.
    { apply in_word_lor; [done|unfold in_word; lia|vm_compute; done]. }
    unfold syscall_result_from_u64. rewrite Hm1, Hm2. cbv zeta.
    rewrite Z.shiftr_div_pow2, Z.div_small by lia. change (wrap 8 0 =? 0) with true.
    unfold p. by rewrite decode_args_pack.
Qed.

(** The register encoding of system-call results loses nothing the handlers
    return: for every result that [syscall_result_to_u64] accepts, the user
    side decodes the same result, up to [received]. *)
Theorem syscall_result_roundtrip (r : SyscallResult) (w : Z) :
  match r with Ok v => in_word 64 v | Err _ => True end ->
  syscall_result_to_u64 r = Ret w ->
  in_word 64 w /\ syscall_result_from_u64 w = received r.
Proof. apply encoded_result_decodes. Qed.

Lemma syscall_result_roundtrip_witness :
  exists w,
    syscall_result_to_u64 (Err (InvalidArgument None (Some NotValidUtf8) None None None None (Some GeneralInvalid))) = Ret w /\
    in_word 64 w /\
    syscall_result_from_u64 w =
      Err (InvalidArgument None (Some NotValidUtf8) None None None None (Some GeneralInvalid)).
Proof.
  eexists. split; [vm_compute; reflexivity|].
  apply (syscall_result_roundtrip
    (Err (InvalidArgument None (Some NotValidUtf8) None None None None (Some GeneralInvalid))));
    [done|reflexivity].
Defined.

(** The wrapper of the system-call interrupt never runs the body of an
    unknown call, answers it with a negative word, and the only results
    that stop the kernel are a success value with the top bit set and
    [InvalidError]. *)
Theorem syscall_handler_wrapper_total n f :
  (NUM_SYSCALLS <= n -> syscall_handler_wrapper n f = Ret (2 ^ 64 - 1)) /\
  (n < NUM_SYSCALLS -> forall r, f tt = Ret r ->
     (syscall_handler_wrapper n f = Panic <->
      r = Err InvalidError \/ exists v, r = Ok v /\ Z.land v (2 ^ 63) <> 0)).
Proof.
  split; intros Hn.
  - unfold syscall_handler_wrapper. by rewrite (proj2 (Z.leb_le _ _) Hn).
  - intros r Hr. unfold syscall_handler_wrapper. rewrite (proj2 (Z.leb_gt _ _) Hn), Hr.
    cbn [mbind outcome_bind]. destruct r as [v|e]; simpl.
    + change (Z.shiftl 1 63) with (2 ^ 63).
      destruct (Z.eqb_spec (Z.land v (2 ^ 63)) 0); simpl; naive_solver.
    + destruct e; simpl; naive_solver.
Qed.

Lemma syscall_handler_wrapper_total_witness :
  syscall_handler_wrapper 1000 (fun _ => Panic) = Ret (2 ^ 64 - 1) /\
  (syscall_handler_wrapper 3 (fun _ => Ret (Ok 7)) = Panic <->
     (@Ok Z SyscallError 7 = Err InvalidError \/ exists v, @Ok Z SyscallError 7 = Ok v /\ Z.land v (2 ^ 63) <> 0)).
Proof.
  split.
  - apply (syscall_handler_wrapper_total 1000 (fun _ => Panic)). vm_compute. done.
  - apply (syscall_handler_wrapper_total 3 (fun _ => Ret (Ok 7))); [vm_compute; done|done].
Defined.
End Syscalls.

(** ** [file.rs] *)
Module FileLink.

Inductive BlockingMode : Type :=
| BmNone
| BmLine
| BmBlock (n : Z).

#[global] Instance BlockingMode_eq_dec : EqDecision BlockingMode.
Proof. solve_decision. Defined.

(** [BlockingMode::from_flags] *)
Definition blocking_from_flags (flags : Z) : outcome BlockingMode :=
  let m := Z.land flags 1 in
  if m =? 0 then Ret BmNone else if m =? 1 then Ret BmLine else Panic.

(** [BlockingMode::to_u64] *)
Definition blocking_to_u64 (b : BlockingMode) : Z :=
  match b with
  | BmNone => 0
  | BmLine => 1
  | BmBlock num => Z.lor (wrap 64 (Z.shiftl num 2)) 3
  end.

(** [BlockingMode::try_from] *)
Definition blocking_try_from (value : Z) : result BlockingMode unit :=
  let mode := Z.land value 3 in
  let rest := Z.shiftr value 2 in
  if (mode =? 0) && (rest =? 0) then Ok BmNone
  else if (mode =? 1) && (rest =? 0) then Ok BmLine
  else if (mode =? 3) && negb (rest =? 0) && (rest <=? 0xFFFFFFFF) then Ok (BmBlock (wrap 32 rest))
  else Err tt.

Definition parse_flags (flags : Z) : outcome (option BlockingMode) :=
  blocking_mode ← blocking_from_flags flags;
  let flags := Z.land flags (unot 64 1) in
  Ret (if flags =? 0 then Some blocking_mode else None).

Inductive FileType : Type := FtFile | FtDirectory.
Record FileStat : Type := mkFileStat { stat_size : Z; stat_file_type : FileType }.

Definition MAX_FILENAME_LEN : nat := 255.

(** [DirFilename::from(&str)] *)
Definition dir_filename_from (bytes : list Z) : outcome (list Z) :=
  _ ← assert_that (Nat.ltb (length bytes) MAX_FILENAME_LEN);
  Ret (bytes ++ replicate (MAX_FILENAME_LEN + 1 - length bytes)%nat 0).

(** [DirFilename::as_cstr]: the bytes before the first NUL *)
Fixpoint as_cstr (name : list Z) : option (list Z) :=
  match name with
  | [] => None
  | b :: name => if b =? 0 then Some [] else cons b <$> as_cstr name
  end.

Inductive FileMeta : Type :=
| FmBlockingMode (b : BlockingMode)
| FmIsTerminal (t : bool).

Definition to_u64_meta_id (m : FileMeta) : Z :=
  match m with FmBlockingMode _ => 0 | FmIsTerminal _ => 1 end.
Definition inner_u64 (m : FileMeta) : Z :=
  match m with FmBlockingMode b => blocking_to_u64 b | FmIsTerminal t => Z.b2z t end.
Definition file_meta_try_from (id v : Z) : result FileMeta unit :=
  if id =? 0 then
    match blocking_try_from v with Ok b => Ok (FmBlockingMode b) | Err e => Err e end
  else if id =? 1 then Ok (FmIsTerminal (negb (v =? 0)))
  else Err tt.

Inductive SeekWhence : Type := SwStart | SwCurrent | SwEnd.
Definition seek_whence_try_from (value : Z) : result SeekWhence unit :=
  if value =? 0 then Ok SwStart
  else if value =? 1 then Ok SwCurrent
  else if value =? 2 then Ok SwEnd
  else Err tt.

(** *** [OpenOptions(u8)] *)
Definition OpenOptions : Type := Z.
Definition OO_READ : OpenOptions := Z.shiftl 1 0.
Definition OO_WRITE : OpenOptions := Z.shiftl 1 1.
Definition OO_CREATE : OpenOptions := Z.shiftl 1 2.
Definition OO_CREATE_NEW : OpenOptions := Z.shiftl 1 3.
Definition OO_TRUNCATE : OpenOptions := Z.shiftl 1 4.
Definition OO_APPEND : OpenOptions := Z.shiftl 1 5.

Definition oo_new : OpenOptions := 0.
(** the shared body of the builder methods [read], [write], [create], ... *)
Definition oo_set (flag : OpenOptions) (o : OpenOptions) (b : bool) : OpenOptions :=
  if b then Z.lor o flag else Z.land o (unot 8 flag).
Definition oo_read := oo_set OO_READ.
Definition oo_write := oo_set OO_WRITE.
Definition oo_create := oo_set OO_CREATE.
Definition oo_create_new := oo_set OO_CREATE_NEW.
Definition oo_truncate := oo_set OO_TRUNCATE.
Definition oo_append := oo_set OO_APPEND.

Definition has_flag (o flag : OpenOptions) : bool := negb (Z.land o flag =? 0).
Definition is_append (o : OpenOptions) : bool := has_flag o OO_APPEND.
Definition is_read (o : OpenOptions) : bool := has_flag o OO_READ.
Definition is_write (o : OpenOptions) : bool := has_flag o OO_WRITE || is_append o.
Definition is_create (o : OpenOptions) : bool := has_flag o OO_CREATE.
Definition is_create_new (o : OpenOptions) : bool := has_flag o OO_CREATE_NEW.
Definition is_truncate (o : OpenOptions) : bool := has_flag o OO_TRUNCATE.

Definition oo_from_u64 (flags : Z) : option OpenOptions :=
  let all := Z.lor (Z.lor (Z.lor (Z.lor (Z.lor OO_READ OO_WRITE) OO_CREATE) OO_CREATE_NEW) OO_TRUNCATE) OO_APPEND in
  if negb (Z.land flags (unot 64 all) =? 0) then None else Some (wrap 8 flags).
Definition oo_to_u64 (o : OpenOptions) : Z := o.

(** *** Proofs *)

(** A blocking mode survives the trip through a register, except
    [Block(0)], which the decoder refuses. *)
Theorem blocking_mode_roundtrip b :
  match b with BmBlock n => 0 < n < 2 ^ 32 | _ => True end ->
  blocking_try_from (blocking_to_u64 b) = Ok b.
Proof.
  intros Hb. destruct b as [| |n]; [done..|].
  unfold blocking_to_u64, blocking_try_from, wrap. cbv zeta.
  rewrite Z.shiftl_mul_pow2, Z.mod_small by lia.
  assert (Z.lor (n * 2 ^ 2) 3 = 3 + n * 2 ^ 2) as ->.
  { rewrite <-(lor_shiftl_add 3 n 2), Z.shiftl_mul_pow2 by lia. apply Z.lor_comm. }
  assert (Z.land (3 + n * 2 ^ 2) 3 = 3) as ->.
  { change 3 with (2 ^ 2 - 1) at 2. rewrite land_mask, Z.mod_add by lia. done. }
  assert (Z.shiftr (3 + n * 2 ^ 2) 2 = n) as ->.
  { rewrite Z.shiftr_div_pow2, Z.div_add by lia. change (3 / 2 ^ 2) with 0. lia. }
  simpl (3 =? _). cbn [andb].
  rewrite (proj2 (Z.eqb_neq _ _)), (proj2 (Z.leb_le _ _)) by lia. simpl.
  by rewrite Z.mod_small by lia.
Qed.

Lemma blocking_mode_roundtrip_witness :
  blocking_try_from (blocking_to_u64 (BmBlock 1)) = Ok (BmBlock 1).
Proof. apply blocking_mode_roundtrip. lia. Defined.

(** Only bit 0 of an open flag word has a meaning: every other word is
    refused, and the decoder never reaches its unreachable branch. *)
Lemma parse_flags_spec flags :
  in_word 64 flags ->
  parse_flags flags =
    Ret (if flags =? 0 then Some BmNone else if flags =? 1 then Some BmLine else None).
Proof.
  intros Hf. unfold parse_flags, blocking_from_flags.
  assert (Z.land flags 1 = flags mod 2) as -> by (apply (land_mask 1); lia).
  assert (Z.land flags (unot 64 1) = flags - flags mod 2) as ->
    by (apply (land_unot_mask 64 1); [lia|done]).
  unfold in_word in Hf. pose proof (Z.mod_pos_bound flags 2 ltac:(lia)).
  pose proof (Z.div_mod flags 2 ltac:(lia)).
  repeat (case_match; cbn [mbind outcome_bind]); bool_hyps; try lia; done.
Qed.

(** The file name of a directory entry, as the user program reads it back. *)
Lemma dir_filename_roundtrip bytes name :
  Forall (fun b => b <> 0) bytes -> dir_filename_from bytes = Ret name ->
  length name = S MAX_FILENAME_LEN /\ as_cstr name = Some bytes.
Proof.
  intros Hb Hn. unfold dir_filename_from, assert_that in Hn.
  destruct (Nat.ltb_spec (length bytes) MAX_FILENAME_LEN) as [Hl|]; [|done].
  injection Hn as <-. split.
  { rewrite length_app, length_replicate. unfold MAX_FILENAME_LEN in *. lia. }
  change (MAX_FILENAME_LEN + 1)%nat with 256%nat.
  assert ((256 - length bytes)%nat = S (255 - length bytes)) as ->
    by (unfold MAX_FILENAME_LEN in *; lia).
  generalize (255 - length bytes)%nat as k. intros k. clear Hl. induction Hb as [|b bs Hb _ IH]; [done|].
  simpl. rewrite (proj2 (Z.eqb_neq _ _) Hb). simpl in IH. by rewrite IH.
Qed.

(** [OpenOptions::from_u64] accepts exactly the words below [2^6], and
    keeps them. *)
Lemma oo_from_u64_spec flags :
  in_word 64 flags -> oo_from_u64 flags = if flags <? 2 ^ 6 then Some flags else None.
Proof.
  intros Hf. unfold oo_from_u64. change (Z.lor _ OO_APPEND) with (2 ^ 6 - 1).
  rewrite land_unot_mask by (done || lia). unfold in_word in Hf.
  pose proof (Z.mod_pos_bound flags (2 ^ 6) ltac:(lia)).
  pose proof (Z.div_mod flags (2 ^ 6) ltac:(lia)).
  destruct (Z.ltb_spec flags (2 ^ 6)).
  - rewrite Z.mod_small, Z.sub_diag by lia. simpl. unfold wrap. by rewrite Z.mod_small by lia.
  - rewrite (proj2 (Z.eqb_neq _ _)) by lia. done.
Qed.

(** The single-bit flags are independent: a builder call sets or clears its
    own flag and leaves the five others as they were. *)
Theorem open_options_flags_independent i j o b :
  0 <= i < 6 -> 0 <= j < 6 ->
  has_flag (oo_set (2 ^ i) o b) (2 ^ j) = if i =? j then b else has_flag o (2 ^ j).
Proof.
  intros Hi Hj. unfold has_flag.
  assert (forall z, negb (Z.land z (2 ^ j) =? 0) = Z.testbit z j) as Hbit.
  { intros z. destruct (Z.testbit z j) eqn:E.
    - apply negb_true_iff, Z.eqb_neq. intros H.
      apply (f_equal (fun x => Z.testbit x j)) in H.
      rewrite Z.land_spec, E, Z.pow2_bits_true, Z.testbit_0_l in H by lia. done.
    - apply negb_false_iff, Z.eqb_eq. apply Z.bits_inj'. intros k Hk.
      rewrite Z.land_spec, Z.testbit_0_l. destruct (decide (k = j)) as [->|].
      + by rewrite E.
      + rewrite (Z.pow2_bits_false j k) by lia. apply andb_false_r. }
  rewrite !Hbit. unfold oo_set. destruct b.
  - rewrite Z.lor_spec. destruct (Z.eqb_spec i j) as [->|].
    + rewrite Z.pow2_bits_true by lia. apply orb_true_r.
    + rewrite Z.pow2_bits_false by lia. apply orb_false_r.
  - unfold unot. rewrite Z.land_spec, Z.lxor_spec, Z.ones_spec_low by lia.
    destruct (Z.eqb_spec i j) as [->|].
    + rewrite Z.pow2_bits_true by lia. apply andb_false_r.
    + rewrite Z.pow2_bits_false by lia. apply andb_true_r.
Qed.

Lemma open_options_flags_independent_witness :
  has_flag (oo_set (2 ^ 2) 5 false) (2 ^ 0) = has_flag 5 (2 ^ 0).
Proof. apply (open_options_flags_independent 2 0 5 false); lia. Defined.
End FileLink.

(** ** [process.rs] and [clock.rs] *)
Module ProcessLink.
Inductive PriorityLevel : Type := VeryLow | Low | Normal | High | VeryHigh.

#[global] Instance PriorityLevel_eq_dec : EqDecision PriorityLevel.
Proof. solve_decision. Defined.

Definition priority_from_u64 (value : Z) : option PriorityLevel :=
  if value =? 1 then Some VeryLow
  else if value =? 2 then Some Low
  else if value =? 3 then Some Normal
  else if value =? 4 then Some High
  else if value =? 5 then Some VeryHigh
  else None.

Definition priority_to_u64 (p : PriorityLevel) : Z :=
  match p with VeryLow => 1 | Low => 2 | Normal => 3 | High => 4 | VeryHigh => 5 end.

Lemma priority_roundtrip p : priority_from_u64 (priority_to_u64 p) = Some p.
Proof. by destruct p. Qed.

Inductive ClockType : Type := RealTime | SystemTime.
Definition clock_type_try_from (value : Z) : result ClockType unit :=
  if value =? 0 then Ok RealTime else if value =? 1 then Ok SystemTime else Err tt.
End ProcessLink.
