(* ===== verification/FsTypes.v ===== *)
(** * Types shared by the file-system components

    Models the data types of [kernel/src/fs/mod.rs] (errors, attributes,
    nodes, access modes), the error types they embed ([fs/fat.rs],
    [fs/mapping.rs], [devices/ide.rs]), and the byte-string view of Rust's
    [str] used by the path and file-name code. *)
From S2P Require Import Prelude UserLink.
From Stdlib Require Import String Ascii.

(** ** Strings as UTF-8 bytes *)
Notation bytes := (list Z) (only parsing).

Fixpoint of_string (s : string) : bytes :=
  match s with
  | EmptyString => []
  | String c s => Z.of_N (N_of_ascii c) :: of_string s
  end.

(** ** Errors *)
Inductive IdeError : Type :=
| DeviceError (code : Z)
| UnalignedSize
| BoundsExceeded.

Inductive FatError : Type :=
| InvalidBootSector
| UnexpectedFatEntry
| NotEnoughSpace.

Inductive MappingError : Type :=
| MapMustBeAbsolute
| MapInvalidPath
| PartOfParentNotMounted
| AlreadyMounted.

Inductive FileSystemError : Type :=
| PartitionTableNotFound
| DeviceNotFound
| DiskReadError (sector : Z) (error : IdeError)
| FatErr (e : FatError)
| FileNotFound
| InvalidPath
| MustBeAbsolute
| IsNotDirectory
| IsDirectory
| ReadNotSupported
| WriteNotSupported
| OperationNotSupported
| CouldNotSetFileLength
| EndOfFile
| BufferNotLargeEnough (n : Z)
| AlreadyExists
| MappingErr (e : MappingError).

#[global] Instance IdeError_eq_dec : EqDecision IdeError.
Proof. solve_decision. Defined.
#[global] Instance FatError_eq_dec : EqDecision FatError.
Proof. solve_decision. Defined.
#[global] Instance MappingError_eq_dec : EqDecision MappingError.
Proof. solve_decision. Defined.
#[global] Instance FileSystemError_eq_dec : EqDecision FileSystemError.
Proof. solve_decision. Defined.

(** ** Attributes *)
Definition FileAttributes : Type := Z.
Definition ATTR_EMPTY : FileAttributes := 0.
Definition ATTR_READ_ONLY : FileAttributes := 1.
Definition ATTR_HIDDEN : FileAttributes := 2.
Definition ATTR_SYSTEM : FileAttributes := 4.
Definition ATTR_VOLUME_LABEL : FileAttributes := 8.
Definition ATTR_DIRECTORY : FileAttributes := 16.
Definition ATTR_ARCHIVE : FileAttributes := 32.

(** [FileAttributes::contains] *)
Definition attr_contains (a other : FileAttributes) : bool := negb (Z.land a other =? 0).
(** [FileAttributes::directory] *)
Definition attr_directory (a : FileAttributes) : bool := attr_contains a ATTR_DIRECTORY.

(** ** Nodes.  A device is a handle into the store of open devices. *)
Record BaseNode : Type := mkBaseNode {
  bn_name : bytes;
  bn_attributes : FileAttributes;
  start_cluster : Z;
  parent_dir_sector : Z;
  parent_dir_index : Z
}.
Record FileNode : Type := mkFileNode {
  fn_base : BaseNode;
  fn_size : Z;
  fn_device : option nat
}.
Record DirectoryNode : Type := mkDirectoryNode { dn_base : BaseNode }.
Inductive Node : Type :=
| NFile (f : FileNode)
| NDirectory (d : DirectoryNode).

Definition NO_PARENT_DIR_SECTOR : Z := 0xFFFFFFFFFFFFFFFF.
Definition ANOTHER_FILESYSTEM_MAPPING_INODE_MAGIC : Z := 0xf11356573e.
Definition DEVICES_FILESYSTEM_CLUSTER_MAGIC : Z := 0xdef1ce5.
Definition DEVICES_FILESYSTEM_ROOT_INODE_MAGIC : Z := 0xdef1ce55007.

Definition new_file (name : bytes) (a : FileAttributes) (cl size sec idx : Z) : outcome FileNode :=
  _ ← assert_that (negb (attr_directory a));
  Ret (mkFileNode (mkBaseNode name a cl sec idx) size None).

Definition new_device (name : bytes) (a : FileAttributes) (dev : nat) : outcome FileNode :=
  _ ← assert_that (negb (attr_directory a));
  Ret (mkFileNode (mkBaseNode name a DEVICES_FILESYSTEM_CLUSTER_MAGIC NO_PARENT_DIR_SECTOR 0) 0 (Some dev)).

Definition new_directory (name : bytes) (a : FileAttributes) (cl sec idx : Z) : outcome DirectoryNode :=
  _ ← assert_that (attr_directory a);
  Ret (mkDirectoryNode (mkBaseNode name a cl sec idx)).

(** [DirectoryNode::without_parent] *)
Definition without_parent (name : bytes) (a : FileAttributes) (cl : Z) : outcome DirectoryNode :=
  new_directory name a cl NO_PARENT_DIR_SECTOR 0.

(** [Node::new] *)
Definition new_node (name : bytes) (a : FileAttributes) (cl size sec idx : Z) : outcome Node :=
  if attr_directory a then d ← new_directory name a cl sec idx; Ret (NDirectory d)
  else f ← new_file name a cl size sec idx; Ret (NFile f).

Definition node_size (n : Node) : Z :=
  match n with NFile f => fn_size f | NDirectory _ => 0 end.
Definition node_base (n : Node) : BaseNode :=
  match n with NFile f => fn_base f | NDirectory d => dn_base d end.
Definition node_name (n : Node) : bytes := bn_name (node_base n).
Definition is_dir (n : Node) : bool :=
  match n with NDirectory _ => true | NFile _ => false end.
Definition into_dir (n : Node) : result DirectoryNode FileSystemError :=
  match n with NDirectory d => Ok d | NFile _ => Err IsNotDirectory end.
Definition into_file (n : Node) : result FileNode FileSystemError :=
  match n with NFile f => Ok f | NDirectory _ => Err IsDirectory end.
Definition as_file_stat (n : Node) : FileLink.FileStat :=
  FileLink.mkFileStat (node_size n)
    (match n with NFile _ => FileLink.FtFile | NDirectory _ => FileLink.FtDirectory end).

(** A node built by [Node::new] never panics, and is a directory exactly
    when its attributes say so. *)
Lemma new_node_spec name a cl size sec idx :
  exists n, new_node name a cl size sec idx = Ret n /\ is_dir n = attr_directory a /\
    node_base n = mkBaseNode name a cl sec idx /\
    node_size n = if attr_directory a then 0 else size.
Proof.
  unfold new_node, new_directory, new_file. destruct (attr_directory a); simpl; by eexists.
Qed.

(** ** Open modes of a handle *)
Record FileAccess : Type := mkFileAccess { fa_read : bool; fa_write : bool }.
Definition FA_READ : FileAccess := mkFileAccess true false.
Definition FA_WRITE : FileAccess := mkFileAccess false true.
Definition fa_bitor (a b : FileAccess) : FileAccess :=
  mkFileAccess (fa_read a || fa_read b) (fa_write a || fa_write b).

(** [struct AccessHelper]: the cluster a file handle keeps locked *)
Record AccessHelper : Type := mkAccessHelper { current_cluster : Z; cluster_index : Z }.
Definition access_default : AccessHelper := mkAccessHelper 0 0.
