(* ===== verification/Pipe.v ===== *)
(** * Pipes

    Models [kernel/src/devices/pipe.rs].  The two [PipeSide]s share one
    [InnerPipe] behind an [Arc<Mutex<_>>]: the model keeps the shared inner
    pipe and the two [clones] counters in one state, and every operation
    names the side it is called on.  A [VecDeque] is a list, front first. *)
From S2P Require Import Prelude UserLink FsTypes.

Module Pipe.

Record InnerPipe : Type := mkInner {
  buffer : list Z;
  read_side_available : bool;
  write_side_available : bool
}.
Record Pipe : Type := mkPipe {
  inner : InnerPipe;
  read_clones : Z;
  write_clones : Z
}.

Definition create_pipe_pair : Pipe := mkPipe (mkInner [] true true) 1 1.

Definition clones (is_read_side : bool) (p : Pipe) : Z :=
  if is_read_side then read_clones p else write_clones p.
Definition set_clones (is_read_side : bool) (n : Z) (p : Pipe) : Pipe :=
  if is_read_side then mkPipe (inner p) n (write_clones p) else mkPipe (inner p) (read_clones p) n.
Definition set_inner (i : InnerPipe) (p : Pipe) : Pipe := mkPipe i (read_clones p) (write_clones p).
Definition set_buffer (b : list Z) (i : InnerPipe) : InnerPipe :=
  mkInner b (read_side_available i) (write_side_available i).

(** [VecDeque::pop_back] *)
Definition pop_back (l : list Z) : option (Z * list Z) :=
  match reverse l with [] => None | b :: r => Some (b, reverse r) end.

(** The loop over the destination buffer: fills the first [n] bytes while
    the pipe has some; returns the bytes stored and the rest of the pipe. *)
Fixpoint read_loop (n : nat) (buf : list Z) : list Z * list Z :=
  match n with
  | O => ([], buf)
  | S n =>
      match pop_back buf with
      | Some (b, buf') => let '(out, rest) := read_loop n buf' in (b :: out, rest)
      | None => ([], buf)
      end
  end.

(** [PipeSide::read] into a buffer of [n] bytes *)
Definition read (is_read_side : bool) (n : nat) (p : Pipe) : result (list Z) FileSystemError * Pipe :=
  if negb is_read_side then (Err ReadNotSupported, p)
  else
    let pipe := inner p in
    if negb (write_side_available pipe) && bool_decide (buffer pipe = []) then (Err EndOfFile, p)
    else
      let '(out, rest) := read_loop n (buffer pipe) in
      (Ok out, set_inner (set_buffer rest pipe) p).

Fixpoint push_front_all (bs buf : list Z) : list Z :=
  match bs with [] => buf | b :: bs => push_front_all bs (b :: buf) end.

(** [PipeSide::write] *)
Definition write (is_read_side : bool) (bs : list Z) (p : Pipe) : result Z FileSystemError * Pipe :=
  if is_read_side then (Err WriteNotSupported, p)
  else
    let pipe := inner p in
    if negb (read_side_available pipe) then (Err EndOfFile, p)
    else (Ok (Z.of_nat (length bs)), set_inner (set_buffer (push_front_all bs (buffer pipe)) pipe) p).

(** [PipeSide::close]; [fetch_sub] wraps around at zero *)
Definition close (is_read_side : bool) (p : Pipe) : Pipe :=
  let old := clones is_read_side p in
  let p := set_clones is_read_side (wrap 64 (old - 1)) p in
  if negb (old =? 1) then p
  else
    let pipe := inner p in
    set_inner (if is_read_side then mkInner (buffer pipe) false (write_side_available pipe)
               else mkInner (buffer pipe) (read_side_available pipe) false) p.

(** [PipeSide::clone_device] *)
Definition clone_device (is_read_side : bool) (p : Pipe) : Pipe :=
  set_clones is_read_side (wrap 64 (clones is_read_side p + 1)) p.

(** ** The byte stream a pipe implements *)

(** The unread bytes, oldest first. *)
Definition pending (p : Pipe) : list Z := reverse (buffer (inner p)).

Lemma push_front_all_eq bs buf : push_front_all bs buf = reverse bs ++ buf.
Proof.
  revert buf. induction bs as [|b bs IH]; intros buf; [done|]. simpl.
  by rewrite IH, reverse_cons, <-app_assoc.
Qed.

Lemma read_loop_eq n buf :
  read_loop n buf = (take n (reverse buf), reverse (drop n (reverse buf))).
Proof.
  revert buf. induction n as [|n IH]; intros buf; simpl.
  { by rewrite take_0, drop_0, reverse_involutive. }
  unfold pop_back. destruct (reverse buf) as [|b r] eqn:E; simpl.
  { by rewrite <-(reverse_involutive buf), E. }
  rewrite IH, reverse_involutive. done.
Qed.

Lemma write_spec bs p :
  write false bs p =
    if read_side_available (inner p)
    then (Ok (Z.of_nat (length bs)),
          set_inner (set_buffer (reverse bs ++ buffer (inner p)) (inner p)) p)
    else (Err EndOfFile, p).
Proof.
  unfold write. rewrite push_front_all_eq. by destruct (read_side_available (inner p)).
Qed.

(** *** Runs: the events the holders of the two ends can cause.  [PWrite]
    and [PRead] record what was transferred. *)
Inductive event : Type :=
| PWrite (bs : list Z)
| PRead (n : nat) (bs : list Z)
| PReadEof
| PWriteEof (bs : list Z)
| PClone (is_read_side : bool)
| PClose (is_read_side : bool).

(** A side can be cloned or closed only while somebody holds it. *)
Inductive step : Pipe -> event -> Pipe -> Prop :=
| step_write bs p p' :
    write false bs p = (Ok (Z.of_nat (length bs)), p') -> step p (PWrite bs) p'
| step_write_eof bs p :
    write false bs p = (Err EndOfFile, p) -> step p (PWriteEof bs) p
| step_read n bs p p' :
    read true n p = (Ok bs, p') -> step p (PRead n bs) p'
| step_read_eof n p :
    read true n p = (Err EndOfFile, p) -> step p PReadEof p
| step_clone side p :
    0 < clones side p < 2 ^ 64 - 1 -> step p (PClone side) (clone_device side p)
| step_close side p :
    0 < clones side p -> step p (PClose side) (close side p).

Inductive steps : Pipe -> list event -> Pipe -> Prop :=
| steps_nil p : steps p [] p
| steps_snoc p tr p' e p'' : steps p tr p' -> step p' e p'' -> steps p (tr ++ [e]) p''.

Fixpoint written (tr : list event) : list Z :=
  match tr with
  | [] => []
  | PWrite bs :: tr => bs ++ written tr
  | _ :: tr => written tr
  end.
Fixpoint received (tr : list event) : list Z :=
  match tr with
  | [] => []
  | PRead _ bs :: tr => bs ++ received tr
  | _ :: tr => received tr
  end.
(** clones minus closes of a side *)
Fixpoint holders (side : bool) (tr : list event) : Z :=
  match tr with
  | [] => 1
  | PClone s :: tr => holders side tr + (if Bool.eqb s side then 1 else 0)
  | PClose s :: tr => holders side tr - (if Bool.eqb s side then 1 else 0)
  | _ :: tr => holders side tr
  end.

Lemma written_app tr tr' : written (tr ++ tr') = written tr ++ written tr'.
Proof.
  induction tr as [|e tr IH]; [done|]. simpl. rewrite IH.
  destruct e; try done. by rewrite app_assoc.
Qed.
Lemma received_app tr tr' : received (tr ++ tr') = received tr ++ received tr'.
Proof.
  induction tr as [|e tr IH]; [done|]. simpl. rewrite IH.
  destruct e; try done. by rewrite app_assoc.
Qed.
Lemma holders_snoc side tr e :
  holders side (tr ++ [e]) = holders side tr + holders side [e] - 1.
Proof.
  induction tr as [|e' tr IH]; simpl; [lia|]. destruct e'; simpl in *; lia.
Qed.

Lemma step_stream p e p' :
  step p e p' -> pending p ++ written [e] = received [e] ++ pending p'.
Proof.
  unfold pending. destruct 1 as [bs p p' H|bs p H|n bs p p' H|n p H|side p _|side p _]; simpl.
  - rewrite write_spec in H. destruct (read_side_available (inner p)); [|done].
    injection H as <-. unfold set_inner, set_buffer. cbn [inner buffer].
    by rewrite app_nil_r, reverse_app, reverse_involutive.
  - by rewrite app_nil_r.
  - unfold read in H. simpl in H. case_match; [done|]. rewrite read_loop_eq in H.
    injection H as <- <-. unfold set_inner, set_buffer. cbn [inner buffer].
    by rewrite !app_nil_r, reverse_involutive, take_drop.
  - by rewrite app_nil_r.
  - rewrite app_nil_r. by destruct side.
  - rewrite app_nil_r. unfold close. by destruct side; case_match.
Qed.

(** C19: The bytes the readers received, followed by the bytes still in the
    pipe, are exactly the bytes the writers sent: a pipe never loses,
    duplicates or reorders data, whatever the interleaving of reads,
    writes, clones and closes. *)
Theorem pipe_is_a_stream tr p :
  steps create_pipe_pair tr p -> written tr = received tr ++ pending p.
Proof.
  intros H. remember create_pipe_pair as p0 eqn:E. induction H as [p|p tr p' e p'' H IH Hs].
  - by subst.
  - rewrite written_app, received_app, IH, <-!app_assoc by done.
    f_equal. by apply step_stream.
Qed.

(** Availability flags follow the reference counts. *)
Definition inv (p : Pipe) : Prop :=
  0 <= read_clones p < 2 ^ 64 /\ 0 <= write_clones p < 2 ^ 64 /\
  read_side_available (inner p) = (0 <? read_clones p) /\
  write_side_available (inner p) = (0 <? write_clones p).

Lemma step_inv p e p' :
  step p e p' -> inv p ->
  inv p' /\ forall side, clones side p' = clones side p + holders side [e] - 1.
Proof.
  intros H (Hr & Hw & Hra & Hwa).
  destruct H as [bs p p' H|bs p H|n bs p p' H|n p H|side p Hc|side p Hc]; simpl.
  - rewrite write_spec in H. destruct (read_side_available (inner p)) eqn:E; [|done].
    injection H as <-. split; [unfold inv; cbn; rewrite <-Hwa; by rewrite <-Hra|].
    intros []; simpl; lia.
  - split; [done|]. intros; lia.
  - unfold read in H. simpl in H. case_match; [done|]. rewrite read_loop_eq in H.
    injection H as <- <-. split; [done|]. intros []; simpl; lia.
  - split; [done|]. intros; lia.
  - unfold clone_device, clones, set_clones in *. destruct side; simpl in *.
    all: unfold wrap; rewrite Z.mod_small by lia.
    all: split; [|intros []; simpl; lia].
    all: unfold inv; cbn; rewrite ?Hra, ?Hwa; split_and!; try lia; done.
  - unfold close, clones, set_clones in *. destruct side; simpl in *.
    all: unfold wrap; rewrite !Z.mod_small by lia.
    all: case_match; bool_hyps; (split; [|intros []; simpl; lia]).
    all: unfold inv; cbn; rewrite ?Hra, ?Hwa; split_and!; try lia.
Qed.

Lemma steps_inv tr p :
  steps create_pipe_pair tr p ->
  inv p /\ forall side, clones side p = holders side tr.
Proof.
  intros H. remember create_pipe_pair as p0 eqn:E.
  induction H as [p|p tr p' e p'' H IH Hs].
  - subst. split; [vm_compute; done|]. by intros [].
  - destruct IH as [Hi Hc]; [done|]. destruct (step_inv _ _ _ Hs Hi) as [Hi' Hc'].
    split; [done|]. intros side. rewrite Hc', Hc, holders_snoc. lia.
Qed.

(** End of file is reported exactly when it must be: a read fails if and
    only if every write end is closed and the pipe is drained, a write
    fails if and only if every read end is closed. *)
Theorem pipe_eof_iff_closed tr p n bs :
  steps create_pipe_pair tr p ->
  ((read true n p).1 = Err EndOfFile <-> holders false tr = 0 /\ pending p = []) /\
  ((write false bs p).1 = Err EndOfFile <-> holders true tr = 0).
Proof.
  intros H. apply steps_inv in H as [(Hr & Hw & Hra & Hwa) Hc].
  rewrite <-!Hc. unfold clones, pending. split.
  - unfold read. cbn [negb].
    destruct (write_side_available (inner p)) eqn:E; simpl.
    + rewrite read_loop_eq. simpl. split; [done|]. intros [H0 _]. lia.
    + destruct (bool_decide_reflect (buffer (inner p) = [])) as [Hb|Hb]; simpl.
      * rewrite Hb. split; [|done]. intros _. split; [lia|done].
      * rewrite read_loop_eq. simpl. split; [done|]. intros [_ Hn]. destruct Hb.
        rewrite <-(reverse_involutive (buffer (inner p))), Hn. done.
  - rewrite write_spec. destruct (read_side_available (inner p)); simpl.
    + split; [done|]. lia.
    + split; [lia|done].
Qed.

(** *** Witnesses *)
Definition demo_trace : list event :=
  [PWrite [1; 2; 3]; PRead 2 [1; 2]; PClose false; PRead 5 [3]].

Lemma demo_steps :
  exists p, steps create_pipe_pair demo_trace p.
Proof.
  eexists. change demo_trace with (((([] ++ [PWrite [1; 2; 3]]) ++ [PRead 2 [1; 2]]) ++ [PClose false]) ++ [PRead 5 [3]]).
  eapply steps_snoc; [eapply steps_snoc; [eapply steps_snoc; [eapply steps_snoc; [constructor|]|]|]|].
  - apply step_write. reflexivity.
  - apply step_read. reflexivity.
  - apply step_close. done.
  - apply step_read. reflexivity.
Defined.

Lemma pipe_is_a_stream_witness :
  exists p, steps create_pipe_pair demo_trace p /\ [1; 2; 3] = [1; 2; 3] ++ pending p.
Proof.
  destruct demo_steps as [p Hp]. exists p. split; [exact Hp|].
  exact (pipe_is_a_stream demo_trace p Hp).
Defined.

Lemma pipe_eof_iff_closed_witness :
  exists p, ((read true 1 p).1 = Err EndOfFile <-> holders false demo_trace = 0 /\ pending p = []) /\
    ((write false [] p).1 = Err EndOfFile <-> holders true demo_trace = 0).
Proof. destruct demo_steps as [p Hp]. exists p. exact (pipe_eof_iff_closed demo_trace p 1 [] Hp). Defined.

End Pipe.
