(* ===== verification/Locks.v ===== *)
(** * Spin locks

    Models [kernel/src/sync/spin/lock.rs] (the lock word), [mutex.rs],
    [rwlock.rs], the interrupt nesting of [cpu/mod.rs] they rely on, and
    [remutex.rs].  [Mutex] and [RwLock] are step relations: any number of
    CPUs and read guards, interleaved at every atomic access.  The memory is
    sequentially consistent; a weak compare-exchange may fail at any time. *)
From S2P Require Import Prelude.

(** ** Interrupt nesting of a CPU *)
Module Cpu.
Record Cpu : Type := mkCpu {
  n_cli : Z;
  old_interrupt_enable : bool;
  interrupts : bool  (* the IF flag *)
}.

Definition push_cli (c : Cpu) : outcome Cpu :=
  let c := if n_cli c =? 0 then mkCpu (n_cli c) (interrupts c) false else c in
  _ ← assert_that (n_cli c <? 2 ^ 64 - 1);
  _ ← assert_that (negb (interrupts c));
  Ret (mkCpu (n_cli c + 1) (old_interrupt_enable c) (interrupts c)).

Definition pop_cli (c : Cpu) : outcome Cpu :=
  _ ← assert_that (0 <? n_cli c);
  _ ← assert_that (negb (interrupts c));
  let n := n_cli c - 1 in
  Ret (mkCpu n (old_interrupt_enable c) (if (n =? 0) && old_interrupt_enable c then true else interrupts c)).

(** The CPU [depth] pushes away from [c0]. *)
Definition nested (c0 : Cpu) (depth : Z) (c : Cpu) : Prop :=
  n_cli c = n_cli c0 + depth /\
  (depth = 0 -> interrupts c = interrupts c0) /\
  (0 < depth -> interrupts c = false /\ (n_cli c0 = 0 -> old_interrupt_enable c = interrupts c0)).

Definition cpu_ok (c0 : Cpu) : Prop :=
  0 <= n_cli c0 < 2 ^ 64 - 3 /\ (0 < n_cli c0 -> interrupts c0 = false).

Lemma push_nested c0 d c :
  cpu_ok c0 -> nested c0 d c -> 0 <= d <= 1 -> exists c', push_cli c = Ret c' /\ nested c0 (d + 1) c'.
Proof.
  intros [Hb Hi] (N1 & N2 & N3) Hd. unfold push_cli. destruct c as [n o i], c0 as [n0 o0 i0]. simpl in *.
  destruct (Z.eqb_spec n 0) as [->|Hn]; simpl.
  - eexists. split; [done|]. assert (d = 0) as -> by lia.
    unfold nested. simpl. split; [lia|]. split; [lia|]. intros _. split; [done|]. intros _. by apply N2.
  - rewrite (proj2 (Z.ltb_lt n _)) by lia. simpl.
    assert (i = false) as ->. { destruct (decide (d = 0)) as [->|]; [rewrite N2 by done; apply Hi; lia|apply N3; lia]. }
    simpl. eexists. split; [done|]. unfold nested. simpl. split; [lia|]. split; [lia|]. intros _. split; [done|].
    intros ->. apply N3; lia.
Qed.

Lemma pop_nested c0 d c :
  cpu_ok c0 -> nested c0 d c -> 0 < d -> exists c', pop_cli c = Ret c' /\ nested c0 (d - 1) c'.
Proof.
  intros [Hb Hi] (N1 & N2 & N3) Hd. destruct (N3 Hd) as [Hf Ho]. unfold pop_cli.
  destruct c as [n o i], c0 as [n0 o0 i0]. simpl in *. subst i n.
  rewrite (proj2 (Z.ltb_lt 0 _)) by lia. simpl. eexists. split; [done|]. unfold nested. simpl. split; [lia|]. split.
  - intros Hd1. destruct (Z.eqb_spec (n0 + d - 1) 0).
    + rewrite Ho by lia. simpl. by destruct i0.
    + simpl. symmetry. apply Hi. lia.
  - intros Hd1. rewrite (proj2 (Z.eqb_neq _ 0)) by lia. simpl. split; [done|]. intros ->. by apply Ho.
Qed.
End Cpu.

(** ** The lock word *)
Module Lock.
Definition UNLOCKED : Z := 0.
Definition READ_LOCKED : Z := 1.
Definition MASK : Z := Z.shiftl 1 30 - 1.
Definition WRITE_LOCKED : Z := MASK.
Definition MAX_READERS : Z := MASK - 1.

Definition is_read_lockable (state : Z) : bool := Z.land state MASK <? MAX_READERS.
Definition try_read_lock (state : Z) : option Z :=
  if is_read_lockable state then Some (state + READ_LOCKED) else None.
Definition read_unlock (state : Z) : Z := wrap 64 (state - READ_LOCKED).
(** the successful compare-exchange *)
Definition try_write_lock (state : Z) : option Z :=
  if state =? UNLOCKED then Some WRITE_LOCKED else None.
Definition write_unlock (state : Z) : outcome Z :=
  state ← csub state WRITE_LOCKED;
  _ ← assert_that (state =? UNLOCKED);
  Ret state.
End Lock.

(** ** [Mutex] and [RwLock] as step relations *)
Module SpinLocks.
Import Cpu Lock.

(** Where a CPU is in its use of the lock.  [WBroken] is a failed
    assertion or the panic of [lock]; [WReentered] is that panic when the
    CPU holds the lock already; [WDeadlock] is a CPU that waits for itself. *)
Inductive wpc : Type :=
| WIdle
| WCheck | WSpin | WWait | WStore | WHeld | WUnlock | WPop   (* lock / write, drop *)
| TCheck | TTry | TFail                                      (* try_lock / try_write *)
| WAgain | WReentered | WDeadlock | WBroken.
(** Where a reader is: in [read] or [try_read], before and after the store of
    [owner_cpu], and when it has no guard any more. *)
Inductive rpc : Type := RSpin | RTry | RStore | RHeld | RDone.

#[global] Instance wpc_eq_dec : EqDecision wpc.
Proof. solve_decision. Defined.
#[global] Instance rpc_eq_dec : EqDecision rpc.
Proof. solve_decision. Defined.

Inductive kind : Type := KMutex | KRwLock.

Record sys : Type := mkSys {
  word : Z;
  owner_cpu : Z;
  cpus : list (wpc * Cpu);
  readers : list (nat * rpc)  (* with the CPU each runs on *)
}.
Definition set_cpu (i : nat) (p : wpc) (c : Cpu) (s : sys) : sys :=
  mkSys (word s) (owner_cpu s) (<[i := (p, c)]> (cpus s)) (readers s).
Definition set_word (w : Z) (s : sys) : sys := mkSys w (owner_cpu s) (cpus s) (readers s).
Definition set_owner (o : Z) (s : sys) : sys := mkSys (word s) o (cpus s) (readers s).
Definition set_readers (r : list (nat * rpc)) (s : sys) : sys := mkSys (word s) (owner_cpu s) (cpus s) r.

(** [push_cli] / [pop_cli] of CPU [i], then on to [p]; a failed assertion
    breaks. *)
Definition cli (f : Cpu -> outcome Cpu) (i : nat) (c : Cpu) (p : wpc) (s : sys) : sys :=
  match f c with Ret c' => set_cpu i p c' s | _ => set_cpu i WBroken c s end.

(** [Mutex::lock], [RwLock::write] *)
Inductive lock_step (i : nat) (s : sys) : sys -> Prop :=
| ls_enter c : cpus s !! i = Some (WIdle, c) -> lock_step i s (cli push_cli i c WCheck s)
| ls_owned c : cpus s !! i = Some (WCheck, c) -> owner_cpu s = Z.of_nat i -> lock_step i s (set_cpu i WBroken c s)
| ls_free c : cpus s !! i = Some (WCheck, c) -> owner_cpu s <> Z.of_nat i -> lock_step i s (set_cpu i WSpin c s)
| ls_cas c w : cpus s !! i = Some (WSpin, c) -> try_write_lock (word s) = Some w ->
    lock_step i s (set_cpu i WStore c (set_word w s))
| ls_fail c : cpus s !! i = Some (WSpin, c) -> lock_step i s (set_cpu i WWait c s)
| ls_retry c : cpus s !! i = Some (WWait, c) -> word s = UNLOCKED -> lock_step i s (set_cpu i WSpin c s)
| ls_store c : cpus s !! i = Some (WStore, c) -> lock_step i s (set_cpu i WHeld c (set_owner (Z.of_nat i) s))
| ls_again c : cpus s !! i = Some (WHeld, c) -> lock_step i s (cli push_cli i c WAgain s)
| ls_again_owned c : cpus s !! i = Some (WAgain, c) -> owner_cpu s = Z.of_nat i ->
    lock_step i s (set_cpu i WReentered c s)
| ls_again_free c : cpus s !! i = Some (WAgain, c) -> owner_cpu s <> Z.of_nat i ->
    lock_step i s (set_cpu i WDeadlock c s).

(** [Mutex::try_lock], [RwLock::try_write] *)
Inductive try_step (i : nat) (s : sys) : sys -> Prop :=
| ts_enter c : cpus s !! i = Some (WIdle, c) -> try_step i s (cli push_cli i c TCheck s)
| ts_owned c : cpus s !! i = Some (TCheck, c) -> owner_cpu s = Z.of_nat i -> try_step i s (set_cpu i TFail c s)
| ts_free c : cpus s !! i = Some (TCheck, c) -> owner_cpu s <> Z.of_nat i -> try_step i s (set_cpu i TTry c s)
| ts_cas c w : cpus s !! i = Some (TTry, c) -> try_write_lock (word s) = Some w ->
    try_step i s (set_cpu i WStore c (set_word w s))
| ts_fail c : cpus s !! i = Some (TTry, c) -> try_step i s (set_cpu i TFail c s)
| ts_pop c : cpus s !! i = Some (TFail, c) -> try_step i s (cli pop_cli i c WIdle s).

(** Dropping the write guard; [RwLock] asserts that there is an owner. *)
Inductive drop_step (k : kind) (i : nat) (s : sys) : sys -> Prop :=
| ds_owner c : cpus s !! i = Some (WHeld, c) -> (k = KRwLock -> owner_cpu s <> -1) ->
    drop_step k i s (set_cpu i WUnlock c (set_owner (-1) s))
| ds_assert c : cpus s !! i = Some (WHeld, c) -> k = KRwLock -> owner_cpu s = -1 ->
    drop_step k i s (set_cpu i WBroken c s)
| ds_unlock c : cpus s !! i = Some (WUnlock, c) ->
    drop_step k i s (match write_unlock (word s) with
                     | Ret w => set_cpu i WPop c (set_word w s)
                     | _ => set_cpu i WBroken c s
                     end)
| ds_pop c : cpus s !! i = Some (WPop, c) -> drop_step k i s (cli pop_cli i c WIdle s).

(** [RwLock::read], [try_read] and dropping a read guard, on CPU [i] *)
Inductive read_step (i : nat) (s : sys) : sys -> Prop :=
| rs_enter : (i < length (cpus s))%nat -> read_step i s (set_readers (readers s ++ [(i, RSpin)]) s)
| rs_try : (i < length (cpus s))%nat -> read_step i s (set_readers (readers s ++ [(i, RTry)]) s)
| rs_lock j r w : readers s !! j = Some (i, r) -> r = RSpin \/ r = RTry -> try_read_lock (word s) = Some w ->
    read_step i s (set_readers (<[j := (i, RStore)]> (readers s)) (set_word w s))
| rs_fail j : readers s !! j = Some (i, RTry) -> read_step i s (set_readers (<[j := (i, RDone)]> (readers s)) s)
| rs_store j : readers s !! j = Some (i, RStore) ->
    read_step i s (set_readers (<[j := (i, RHeld)]> (readers s)) (set_owner (-1) s))
| rs_drop j : readers s !! j = Some (i, RHeld) ->
    read_step i s (set_readers (<[j := (i, RDone)]> (readers s)) (set_word (read_unlock (word s)) s)).

Inductive step (k : kind) (s s' : sys) : Prop :=
| st_lock i : lock_step i s s' -> step k s s'
| st_try i : try_step i s s' -> step k s s'
| st_drop i : drop_step k i s s' -> step k s s'
| st_read i : k = KRwLock -> read_step i s s' -> step k s s'.

(** A fresh lock, used by CPUs in the states [cs]. *)
Definition init (cs : list Cpu) : sys := mkSys UNLOCKED (-1) ((WIdle,.) <$> cs) [].
Definition reachable (k : kind) (cs : list Cpu) (s : sys) : Prop := rtc (step k) (init cs) s.

(** ** The invariant *)

(** The CPU has the lock word. *)
Definition crit (p : wpc) : bool :=
  match p with WStore | WHeld | WUnlock | WAgain | WReentered => true | _ => false end.
(** The CPU is the owner. *)
Definition owns (p : wpc) : bool := match p with WHeld | WAgain | WReentered => true | _ => false end.
Definition depth (p : wpc) : Z := match p with WIdle => 0 | WAgain | WReentered => 2 | _ => 1 end.
Definition broken (p : wpc) : bool := match p with WBroken | WDeadlock => true | _ => false end.
Definition has_read (r : nat * rpc) : bool := match r.2 with RStore | RHeld => true | _ => false end.

Fixpoint count {A} (f : A -> bool) (l : list A) : Z :=
  match l with [] => 0 | x :: l => (if f x then 1 else 0) + count f l end.

Lemma count_nonneg {A} (f : A -> bool) l : 0 <= count f l.
Proof. induction l as [|x l IH]; simpl; [lia|]. destruct (f x); lia. Qed.
Lemma count_app {A} (f : A -> bool) l1 l2 : count f (l1 ++ l2) = count f l1 + count f l2.
Proof. induction l1 as [|x l IH]; simpl; [lia|]. rewrite IH. lia. Qed.
Lemma count_split {A} (f : A -> bool) l i x : l !! i = Some x ->
  count f l = (if f x then 1 else 0) + count f (delete i l).
Proof.
  revert i. induction l as [|y l IH]; intros [|i] Hi; simplify_eq/=; [done|]. rewrite (IH _ Hi). lia.
Qed.
Lemma count_insert {A} (f : A -> bool) l i x y : l !! i = Some x ->
  count f (<[i := y]> l) = count f l - (if f x then 1 else 0) + (if f y then 1 else 0).
Proof.
  revert i. induction l as [|z l IH]; intros [|i] Hi; simplify_eq/=; [lia|]. rewrite (IH _ Hi). lia.
Qed.
Lemma count_zero {A} (f : A -> bool) l i x : count f l = 0 -> l !! i = Some x -> f x = false.
Proof.
  intros Hc Hi. rewrite (count_split _ _ _ _ Hi) in Hc. pose proof (count_nonneg f (delete i l)).
  destruct (f x); [lia|done].
Qed.
Lemma count_one {A} (f : A -> bool) l i j x y :
  count f l = 1 -> l !! i = Some x -> l !! j = Some y -> f x = true -> f y = true -> i = j.
Proof.
  revert i j. induction l as [|z l IH]; intros i j Hc Hi Hj Fx Fy; [done|]. simpl in Hc. pose proof (count_nonneg f l).
  destruct i as [|i], j as [|j]; simplify_eq/=; [done| | |f_equal; apply (IH i j); try done].
  - rewrite Fx in Hc. assert (count f l = 0) as E by lia. rewrite (count_zero _ _ _ _ E Hj) in Fy. done.
  - rewrite Fy in Hc. assert (count f l = 0) as E by lia. rewrite (count_zero _ _ _ _ E Hi) in Fx. done.
  - destruct (f z); [|lia]. assert (count f l = 0) as E by lia. by rewrite (count_zero _ _ _ _ E Hi) in Fx.
Qed.

(** The lock word counts the read guards, or marks the one writer. *)
Definition word_ok (w writers readers : Z) : Prop :=
  writers = 0 /\ w = readers /\ readers <= MAX_READERS \/ writers = 1 /\ readers = 0 /\ w = WRITE_LOCKED.

Lemma refused_reader w writers n : 0 <= n -> word_ok w writers n -> try_read_lock w = None -> writers = 1 \/ n = MAX_READERS.
Proof.
  intros Hn Hw. unfold try_read_lock, is_read_lockable. destruct Hw as [(-> & -> & H)|(-> & _)]; [|by left].
  change MASK with (2 ^ 30 - 1). rewrite land_mask by done. change MAX_READERS with (2 ^ 30 - 2) in *.
  rewrite Z.mod_small by lia. destruct (Z.ltb_spec n (2 ^ 30 - 2)); [done|]. right. lia.
Qed.
Lemma count_some {A} (f : A -> bool) l : count f l = 1 -> exists i x, l !! i = Some x /\ f x = true.
Proof.
  induction l as [|x l IH]; [done|]. cbn [count]. destruct (f x) eqn:Ef.
  - intros _. by exists 0%nat, x.
  - intros Hc. destruct IH as (i & y & Hi & Hy); [lia|]. by exists (S i), y.
Qed.

Record inv (cs : list Cpu) (s : sys) : Prop := {
  in_word_ok : word_ok (word s) (count (crit ∘ fst) (cpus s)) (count has_read (readers s));
  in_cpu : forall i p c, cpus s !! i = Some (p, c) ->
    broken p = false /\ exists c0, cs !! i = Some c0 /\ nested c0 (depth p) c;
  in_owner : forall i p c, cpus s !! i = Some (p, c) -> (owns p = true <-> owner_cpu s = Z.of_nat i)
}.

Lemma inv_init cs : inv cs (init cs).
Proof.
  assert (forall l : list Cpu, count (crit ∘ fst) ((WIdle,.) <$> l) = 0) as Hc.
  { induction l as [|x l IH]; [done|]. change (0 + count (crit ∘ fst) ((WIdle,.) <$> l) = 0). lia. }
  split; simpl.
  - left. rewrite Hc. by split_and!.
  - intros i p c. rewrite list_lookup_fmap. destruct (cs !! i) as [c0|] eqn:E; [|done]. intros [= <- <-].
    split; [done|]. exists c0. split; [done|]. unfold nested. simpl. split; [lia|]. split; [done|lia].
  - intros i p c. rewrite list_lookup_fmap. destruct (cs !! i) as [c0|] eqn:E; [|done]. intros [= <- <-].
    simpl. split; [done|lia].
Qed.

(** A step of CPU [i] that leaves [owner_cpu] alone. *)
Lemma inv_set cs s i p c p' c' w :
  inv cs s -> cpus s !! i = Some (p, c) -> broken p' = false -> owns p' = owns p ->
  (forall c0, cs !! i = Some c0 -> nested c0 (depth p) c -> nested c0 (depth p') c') ->
  (let b (p : wpc) := if crit p then 1 else 0 in
   forall n, word_ok (word s) (b p + n) (count has_read (readers s)) -> 0 <= n ->
             word_ok w (b p' + n) (count has_read (readers s))) ->
  inv cs (set_cpu i p' c' (set_word w s)).
Proof.
  intros [I1 I2 I3] Hi Hb Ho Hc Hw. split; cbn [set_cpu set_word word owner_cpu cpus readers].
  - rewrite (count_insert _ _ _ _ _ Hi). rewrite (count_split _ _ _ _ Hi) in I1 |- *. cbn [compose fst] in *.
    unfold compose in *. cbn [fst] in *. pose proof (count_nonneg (fun x : wpc * Cpu => crit x.1) (delete i (cpus s))).
    specialize (Hw _ I1 ltac:(lia)). eapply (eq_ind _ (fun n => word_ok w n _)); [exact Hw|]. lia.
  - intros j q d Hj. destruct (decide (j = i)) as [->|Hne].
    + rewrite list_lookup_insert_eq in Hj by (by eapply lookup_lt_Some). injection Hj as <- <-. split; [done|].
      destruct (I2 _ _ _ Hi) as (_ & c0 & E0 & N0). exists c0. split; [done|]. by apply Hc.
    + rewrite list_lookup_insert_ne in Hj by done. by apply I2.
  - intros j q d Hj. destruct (decide (j = i)) as [->|Hne].
    + rewrite list_lookup_insert_eq in Hj by (by eapply lookup_lt_Some). injection Hj as <- <-.
      rewrite Ho. by eapply I3.
    + rewrite list_lookup_insert_ne in Hj by done. by eapply I3.
Qed.

(** A step that does not touch the word either. *)
Lemma inv_pc cs s i p c p' c' :
  inv cs s -> cpus s !! i = Some (p, c) -> broken p' = false -> owns p' = owns p -> crit p' = crit p ->
  (forall c0, cs !! i = Some c0 -> nested c0 (depth p) c -> nested c0 (depth p') c') ->
  inv cs (set_cpu i p' c' s).
Proof.
  intros I Hi Hb Ho Hcr Hc. replace s with (set_word (word s) s) by (by destruct s).
  eapply inv_set; try done. intros b n Hw _. unfold b in *. by rewrite Hcr.
Qed.

(** Taking and giving back ownership. *)
Lemma inv_take cs s i c :
  inv cs s -> cpus s !! i = Some (WStore, c) -> inv cs (set_cpu i WHeld c (set_owner (Z.of_nat i) s)).
Proof.
  intros [I1 I2 I3] Hi.
  assert (forall j q d, cpus s !! j = Some (q, d) -> j <> i -> crit q = false) as Hothers.
  { intros j q d Hj Hne. destruct (crit q) eqn:Eq; [|done]. exfalso. apply Hne.
    destruct I1 as [(E & _)|(E & _)]; [pose proof (count_zero _ _ _ _ E Hi) as X; discriminate X|].
    by eapply (count_one (crit ∘ fst) (cpus s)). }
  split; cbn [set_cpu set_owner word owner_cpu cpus readers].
  - rewrite (count_insert _ _ _ _ _ Hi). simpl. by replace (count (crit ∘ fst) (cpus s) - 1 + 1) with (count (crit ∘ fst) (cpus s)) by lia.
  - intros j q d Hj. destruct (decide (j = i)) as [->|Hne].
    + rewrite list_lookup_insert_eq in Hj by (by eapply lookup_lt_Some). injection Hj as <- <-. split; [done|].
      by destruct (I2 _ _ _ Hi) as (_ & c0 & E0 & N0); exists c0.
    + rewrite list_lookup_insert_ne in Hj by done. by apply I2.
  - intros j q d Hj. destruct (decide (j = i)) as [->|Hne].
    + rewrite list_lookup_insert_eq in Hj by (by eapply lookup_lt_Some). by injection Hj as <- <-.
    + rewrite list_lookup_insert_ne in Hj by done. specialize (Hothers _ _ _ Hj Hne).
      split; [|lia]. by destruct q.
Qed.

Lemma inv_release cs s i c :
  inv cs s -> cpus s !! i = Some (WHeld, c) -> inv cs (set_cpu i WUnlock c (set_owner (-1) s)).
Proof.
  intros [I1 I2 I3] Hi. pose proof (proj1 (I3 _ _ _ Hi) eq_refl) as Ho.
  split; cbn [set_cpu set_owner word owner_cpu cpus readers].
  - rewrite (count_insert _ _ _ _ _ Hi). simpl. by replace (count (crit ∘ fst) (cpus s) - 1 + 1) with (count (crit ∘ fst) (cpus s)) by lia.
  - intros j q d Hj. destruct (decide (j = i)) as [->|Hne].
    + rewrite list_lookup_insert_eq in Hj by (by eapply lookup_lt_Some). injection Hj as <- <-. split; [done|].
      by destruct (I2 _ _ _ Hi) as (_ & c0 & E0 & N0); exists c0.
    + rewrite list_lookup_insert_ne in Hj by done. by apply I2.
  - intros j q d Hj. destruct (decide (j = i)) as [->|Hne].
    + rewrite list_lookup_insert_eq in Hj by (by eapply lookup_lt_Some). injection Hj as <- <-. simpl. split; [done|lia].
    + rewrite list_lookup_insert_ne in Hj by done. rewrite (I3 _ _ _ Hj). lia.
Qed.

Lemma inv_readers cs s rs w o :
  inv cs s -> word_ok w (count (crit ∘ fst) (cpus s)) (count has_read rs) ->
  o = owner_cpu s \/ (o = -1 /\ count (crit ∘ fst) (cpus s) = 0) ->
  inv cs (mkSys w o (cpus s) rs).
Proof.
  intros [I1 I2 I3] Hw Ho. split; cbn [word owner_cpu cpus readers]; [done|done|].
  intros i p c Hi. destruct Ho as [->|[-> Hz]]; [by eapply I3|].
  pose proof (count_zero _ _ _ _ Hz Hi) as Hc. cbn in Hc. split; [by destruct p|lia].
Qed.

(** ** Preservation *)
Section preservation.
Context (cs : list Cpu) (Hcs : Forall cpu_ok cs).

Lemma initial_ok i c0 : cs !! i = Some c0 -> cpu_ok c0.
Proof. intros Hi. rewrite Forall_lookup in Hcs. by eapply Hcs. Qed.

Lemma inv_push s i p c p' :
  inv cs s -> cpus s !! i = Some (p, c) -> broken p' = false -> owns p' = owns p -> crit p' = crit p ->
  depth p' = depth p + 1 -> 0 <= depth p <= 1 -> inv cs (cli push_cli i c p' s).
Proof.
  intros I Hi Hb Ho Hc Hd Hr. destruct (in_cpu _ _ I _ _ _ Hi) as (_ & c0 & E0 & N0).
  destruct (push_nested c0 (depth p) c) as (c' & E & N'); [by eapply initial_ok|done|done|].
  unfold cli. rewrite E. eapply inv_pc; try done. intros c1 E1 _. rewrite E0 in E1. injection E1 as <-. by rewrite Hd.
Qed.

Lemma inv_pop s i p c :
  inv cs s -> cpus s !! i = Some (p, c) -> owns p = false -> crit p = false -> depth p = 1 ->
  inv cs (cli pop_cli i c WIdle s).
Proof.
  intros I Hi Ho Hc Hd. destruct (in_cpu _ _ I _ _ _ Hi) as (_ & c0 & E0 & N0).
  destruct (pop_nested c0 (depth p) c) as (c' & E & N'); [by eapply initial_ok|done|lia|].
  unfold cli. rewrite E. eapply inv_pc; try done. intros c1 E1 _. rewrite E0 in E1. injection E1 as <-.
  by rewrite Hd in N'.
Qed.

Lemma inv_cas s i p c w :
  inv cs s -> cpus s !! i = Some (p, c) -> owns p = false -> crit p = false -> depth p = 1 ->
  try_write_lock (word s) = Some w -> inv cs (set_cpu i WStore c (set_word w s)).
Proof.
  unfold try_write_lock. intros I Hi Ho Hc Hd Hw. destruct (Z.eqb_spec (word s) UNLOCKED) as [Eu|]; [|done].
  injection Hw as <-. eapply inv_set; try done; [|].
  - intros c0 _ N0. by rewrite Hd in N0.
  - intros b n Hok Hn. unfold b in *. rewrite Hc in Hok. simpl. pose proof (count_nonneg has_read (readers s)).
    destruct Hok as [(A1 & A2 & A3)|(A1 & A2 & A3)]; rewrite Eu in *; [right; unfold UNLOCKED in *; lia|].
    unfold UNLOCKED, WRITE_LOCKED, MASK in A3. done.
Qed.

Lemma lock_step_inv i s s' : inv cs s -> lock_step i s s' -> inv cs s'.
Proof.
  intros I Hs. destruct Hs as [c Hi|c Hi Ho|c Hi Ho|c w Hi Hw|c Hi|c Hi Hw|c Hi|c Hi|c Hi Ho|c Hi Ho].
  - by eapply inv_push.
  - exfalso. apply (in_owner _ _ I _ _ _ Hi) in Ho. done.
  - by eapply inv_pc.
  - by eapply inv_cas.
  - by eapply inv_pc.
  - by eapply inv_pc.
  - by apply inv_take.
  - by eapply inv_push.
  - by eapply inv_pc.
  - exfalso. apply Ho, (in_owner _ _ I _ _ _ Hi). done.
Qed.

Lemma try_step_inv i s s' : inv cs s -> try_step i s s' -> inv cs s'.
Proof.
  intros I Hs. destruct Hs as [c Hi|c Hi Ho|c Hi Ho|c w Hi Hw|c Hi|c Hi].
  - by eapply inv_push.
  - by eapply inv_pc.
  - by eapply inv_pc.
  - by eapply inv_cas.
  - by eapply inv_pc.
  - by eapply inv_pop.
Qed.

Lemma drop_step_inv k i s s' : inv cs s -> drop_step k i s s' -> inv cs s'.
Proof.
  intros I Hs. destruct Hs as [c Hi _|c Hi _ Ho|c Hi|c Hi].
  - by apply inv_release.
  - exfalso. pose proof (proj1 (in_owner _ _ I _ _ _ Hi) eq_refl). lia.
  - assert (word s = WRITE_LOCKED) as Ew.
    { destruct (in_word_ok _ _ I) as [(A & _)|(_ & _ & A)]; [|done]. by pose proof (count_zero _ _ _ _ A Hi). }
    unfold write_unlock. rewrite Ew. rewrite csub_ret by lia. cbn [mbind outcome_bind]. rewrite Z.sub_diag. cbn [assert_that Z.eqb UNLOCKED mbind outcome_bind].
    eapply inv_set; try done. intros b n Hok Hn. unfold b in *. simpl in *.
    destruct Hok as [(A1 & _)|(A1 & A2 & A3)]; [lia|]. left. split; [lia|]. split; [done|]. rewrite A2. done.
  - by eapply inv_pop.
Qed.

Lemma read_step_inv i s s' : inv cs s -> read_step i s s' -> inv cs s'.
Proof using Type.
  intros I Hs. pose proof (in_word_ok _ _ I) as Hw.
  destruct Hs as [Hi|Hi|j r w Hj Hr Hl|j Hj|j Hj|j Hj]; unfold set_readers, set_word, set_owner; cbn [word owner_cpu cpus readers].
  1,2: apply inv_readers; [done| |by left]; rewrite count_app; simpl; by rewrite Z.add_0_r.
  - apply inv_readers; [done| |by left]. rewrite (count_insert _ _ _ _ _ Hj).
    assert (has_read (i, r) = false) as -> by (by destruct Hr as [-> | ->]). cbn [has_read snd].
    unfold try_read_lock in Hl. destruct (is_read_lockable (word s)) eqn:El; [|done]. injection Hl as <-.
    unfold is_read_lockable in El. bool_hyps. pose proof (count_nonneg has_read (readers s)).
    change MASK with (2 ^ 30 - 1) in El at 1. rewrite land_mask in El by done.
    unfold MAX_READERS, WRITE_LOCKED, MASK, READ_LOCKED in *. change (Z.shiftl 1 30) with (2 ^ 30) in *.
    destruct Hw as [(A1 & A2 & A3)|(A1 & A2 & A3)].
    + left. rewrite Z.mod_small in El by (unfold MAX_READERS, MASK in *; change (Z.shiftl 1 30) with (2 ^ 30) in *; lia).
      unfold MAX_READERS, MASK in *. change (Z.shiftl 1 30) with (2 ^ 30) in *. lia.
    + exfalso. rewrite A3 in El. unfold WRITE_LOCKED, MASK in El. change (Z.shiftl 1 30) with (2 ^ 30) in El.
      rewrite Z.mod_small in El by lia. lia.
  - apply inv_readers; [done| |by left]. rewrite (count_insert _ _ _ _ _ Hj). simpl. by rewrite Z.sub_0_r, Z.add_0_r.
  - assert (count (crit ∘ fst) (cpus s) = 0) as Hz.
    { destruct Hw as [(A1 & _)|(_ & A2 & _)]; [done|]. by pose proof (count_zero _ _ _ _ A2 Hj). }
    apply inv_readers; [done| |by right]. rewrite (count_insert _ _ _ _ _ Hj). simpl.
    by replace (count has_read (readers s) - 1 + 1) with (count has_read (readers s)) by lia.
  - apply inv_readers; [done| |by left]. rewrite (count_insert _ _ _ _ _ Hj). rewrite (count_split _ _ _ _ Hj) in Hw |- *. simpl in Hw |- *.
    pose proof (count_nonneg has_read (delete j (readers s))) as Hn. unfold read_unlock, READ_LOCKED, wrap.
    destruct Hw as [(A1 & A2 & A3)|(_ & A2 & _)]; [|lia]. left. rewrite Z.mod_small; [lia|].
    unfold MAX_READERS, MASK in A3. change (Z.shiftl 1 30) with (2 ^ 30) in A3. lia.
Qed.

Lemma reachable_inv k s : reachable k cs s -> inv cs s.
Proof.
  intros Hr. unfold reachable in Hr. revert Hr. apply (rtc_ind_r (inv cs)); [apply inv_init|].
  intros s1 s2 _ Hs I. destruct Hs as [i Hs|i Hs|i Hs|i _ Hs].
  - by eapply lock_step_inv.
  - by eapply try_step_inv.
  - by eapply drop_step_inv.
  - by eapply read_step_inv.
Qed.
End preservation.

(** ** Theorems *)

(** C18: However the CPUs and the readers interleave: at most one CPU has
    the lock for writing, and while one has it there is no read guard; the
    number of read guards never reaches the mark of a writer; no assertion of
    the lock fails, and its panic never strikes a CPU that does not hold the
    lock for writing; a CPU that asks again for writing a lock it holds so
    panics instead of waiting for itself; and a reader is refused only while
    some CPU, possibly its own, has the lock for writing, or the number of
    guards is at its bound (what then becomes of a reader on the CPU of the
    writer is [read_under_own_write_hangs]). *)
Theorem spin_lock_exclusion k cs s :
  Forall cpu_ok cs -> reachable k cs s ->
  (forall i j p q c d, cpus s !! i = Some (p, c) -> cpus s !! j = Some (q, d) ->
     crit p = true -> crit q = true -> i = j) /\
  (forall i p c, cpus s !! i = Some (p, c) -> crit p = true -> count has_read (readers s) = 0) /\
  count has_read (readers s) < WRITE_LOCKED /\
  (forall i p c, cpus s !! i = Some (p, c) -> p <> WBroken /\ p <> WDeadlock) /\
  (try_read_lock (word s) = None ->
     (exists i p c, cpus s !! i = Some (p, c) /\ crit p = true) \/ count has_read (readers s) = MAX_READERS).
Proof.
  intros Hcs Hr. destruct (reachable_inv _ Hcs _ _ Hr) as [I1 I2 I3].
  assert (forall i p c, cpus s !! i = Some (p, c) -> crit p = true ->
            count (crit ∘ fst) (cpus s) = 1 /\ count has_read (readers s) = 0) as Hone.
  { intros i p c Hi Hp. destruct I1 as [(A & _)|(A & B & _)]; [|done].
    pose proof (count_zero _ _ _ _ A Hi) as Hc. cbn in Hc. congruence. }
  split; [|split; [|split; [|split]]].
  - intros i j p q c d Hi Hj Hp Hq. destruct (Hone _ _ _ Hi Hp) as [E _].
    by eapply (count_one (crit ∘ fst) (cpus s)).
  - intros i p c Hi Hp. by eapply Hone.
  - destruct I1 as [(_ & _ & B)|(_ & B & _)]; unfold WRITE_LOCKED, MAX_READERS in *; [lia|].
    rewrite B. done.
  - intros i p c Hi. destruct (I2 _ _ _ Hi) as [Hb _]. by destruct p.
  - intros Ht. destruct (refused_reader _ _ _ (count_nonneg _ _) I1 Ht) as [Hc|Hc]; [left|by right].
    apply count_some in Hc as (i & [p c] & Hi & Hc). by exists i, p, c.
Qed.

(** *** A reader on the CPU of the writer

    [read] neither looks at [owner_cpu] nor turns interrupts off.  A CPU that
    has the lock for writing and reads it waits for itself: whatever the
    other CPUs and readers do, the reader never gets its guard. *)
Inductive step_meanwhile (k : kind) (i : nat) (s s' : sys) : Prop :=
| sm_lock i' : i' <> i -> lock_step i' s s' -> step_meanwhile k i s s'
| sm_try i' : i' <> i -> try_step i' s s' -> step_meanwhile k i s s'
| sm_drop i' : i' <> i -> drop_step k i' s s' -> step_meanwhile k i s s'
| sm_read i' : k = KRwLock -> read_step i' s s' -> step_meanwhile k i s s'.

Lemma meanwhile_step k i s s' : step_meanwhile k i s s' -> step k s s'.
Proof. by intros [i' _ H|i' _ H|i' _ H|i' Hk H]; [eapply st_lock|eapply st_try|eapply st_drop|eapply st_read]. Qed.

Lemma cli_lookup f i i' c p s : i <> i' -> cpus (cli f i' c p s) !! i = cpus s !! i /\ readers (cli f i' c p s) = readers s.
Proof. intros Hi. unfold cli. destruct (f c); cbn; by rewrite list_lookup_insert_ne. Qed.

Lemma meanwhile_keeps k cs i j s s' c : Forall cpu_ok cs -> reachable k cs s -> step_meanwhile k i s s' ->
  cpus s !! i = Some (WHeld, c) -> readers s !! j = Some (i, RSpin) ->
  cpus s' !! i = Some (WHeld, c) /\ readers s' !! j = Some (i, RSpin).
Proof.
  intros Hcs Hr Hs Hi Hj. pose proof (in_word_ok _ _ (reachable_inv _ Hcs _ _ Hr)) as Hw.
  assert (Hfull : try_read_lock (word s) = None).
  { destruct Hw as [(A & _)|(_ & _ & ->)]; [|done]. pose proof (count_zero _ _ _ _ A Hi) as Hc. discriminate Hc. }
  destruct Hs as [i' Hne Hs|i' Hne Hs|i' Hne Hs|i' _ Hs].
  1-3: destruct Hs; try (destruct (write_unlock (word s))); unfold set_cpu, set_word, set_owner; cbn [cpus readers];
       rewrite ?(proj1 (cli_lookup _ i _ _ _ _ ltac:(done))), ?(proj2 (cli_lookup _ i _ _ _ _ ltac:(done))), ?list_lookup_insert_ne by done; done.
  assert (Hins : forall j' (r r' : nat * rpc), readers s !! j' = Some r -> r <> (i, RSpin) -> <[j' := r']> (readers s) !! j = Some (i, RSpin)).
  { intros j' r r' Hj' Hr'. rewrite list_lookup_insert_ne; [done|]. intros ->. congruence. }
  destruct Hs; cbn [set_readers set_word set_owner cpus readers]; (split; [done|]).
  1,2: by apply lookup_app_l_Some.
  - congruence.
  - by eapply Hins.
  - by eapply Hins.
  - by eapply Hins.
Qed.

Theorem read_under_own_write_hangs k cs i j s s' c :
  Forall cpu_ok cs -> reachable k cs s -> cpus s !! i = Some (WHeld, c) -> readers s !! j = Some (i, RSpin) ->
  rtc (step_meanwhile k i) s s' -> readers s' !! j = Some (i, RSpin).
Proof.
  intros Hcs Hr Hi Hj Hs. induction Hs as [s|s s1 s2 Hs _ IH]; [done|].
  destruct (meanwhile_keeps _ _ _ _ _ _ _ Hcs Hr Hs Hi Hj) as [Hi1 Hj1]. apply IH; [|done|done].
  eapply rtc_r; [exact Hr|]. by eapply meanwhile_step.
Qed.

(** From the first instruction of [lock] to the last of the guard's drop
    the CPU runs with interrupts off, so no handler can ask for the lock
    meanwhile; and when the CPU is done its nesting count and its interrupt
    flag are what they were. *)
Theorem spin_lock_interrupts k cs s i p c c0 :
  Forall cpu_ok cs -> reachable k cs s -> cpus s !! i = Some (p, c) -> cs !! i = Some c0 ->
  (p <> WIdle -> interrupts c = false /\ n_cli c0 < n_cli c) /\
  (p = WIdle -> interrupts c = interrupts c0 /\ n_cli c = n_cli c0).
Proof.
  intros Hcs Hr Hi H0. destruct (in_cpu _ _ (reachable_inv _ Hcs _ _ Hr) _ _ _ Hi) as (Hb & c1 & E1 & N1 & N2 & N3).
  rewrite H0 in E1. injection E1 as <-. split.
  - intros Hp. assert (0 < depth p) as Hd by (by destruct p). split; [by apply N3|lia].
  - intros ->. simpl in *. split; [by apply N2|lia].
Qed.

(** *** Witnesses: two CPUs; the first takes the lock, the second spins,
    a reader waits. *)
Definition cpu0 : Cpu := mkCpu 0 false true.
Definition busy : sys :=
  mkSys WRITE_LOCKED 0 [(WHeld, mkCpu 1 true false); (WWait, mkCpu 1 true false)] [(0%nat, RSpin)].

Lemma busy_reachable : reachable KRwLock [cpu0; cpu0] busy.
Proof.
  unfold reachable.
  eapply rtc_l; [eapply (st_lock _ _ _ 0), ls_enter; reflexivity|].
  eapply rtc_l; [eapply (st_lock _ _ _ 0), ls_free; [reflexivity|done]|].
  eapply rtc_l; [eapply (st_lock _ _ _ 0), ls_cas; reflexivity|].
  eapply rtc_l; [eapply (st_lock _ _ _ 1), ls_enter; reflexivity|].
  eapply rtc_l; [eapply (st_lock _ _ _ 0), ls_store; reflexivity|].
  eapply rtc_l; [eapply (st_lock _ _ _ 1), ls_free; [reflexivity|done]|].
  eapply rtc_l; [eapply (st_lock _ _ _ 1), ls_fail; reflexivity|].
  eapply rtc_l; [eapply (st_read _ _ _ 0); [done|apply rs_enter; apply Nat.ltb_lt; reflexivity]|].
  apply rtc_refl.
Qed.

Lemma cpus_ok : Forall cpu_ok [cpu0; cpu0].
Proof. repeat constructor; vm_compute; done. Qed.

Lemma spin_lock_exclusion_witness : count has_read (readers busy) = 0 /\ count has_read (readers busy) < WRITE_LOCKED.
Proof.
  destruct (spin_lock_exclusion KRwLock [cpu0; cpu0] busy cpus_ok busy_reachable) as (_ & H2 & H3 & _).
  split; [|exact H3]. by apply (H2 0%nat WHeld (mkCpu 1 true false)).
Defined.

(** CPU 0 holds the lock and reads it: nothing the other CPU does helps *)
Lemma read_under_own_write_hangs_witness : forall s', rtc (step_meanwhile KRwLock 0) busy s' -> readers s' !! 0%nat = Some (0%nat, RSpin).
Proof.
  intros s'. apply (read_under_own_write_hangs KRwLock [cpu0; cpu0] 0 0 busy s' (mkCpu 1 true false) cpus_ok busy_reachable); reflexivity.
Defined.

Lemma spin_lock_interrupts_witness : interrupts (mkCpu 1 true false) = false /\ n_cli cpu0 < n_cli (mkCpu 1 true false).
Proof.
  destruct (spin_lock_interrupts KRwLock [cpu0; cpu0] busy 0 WHeld (mkCpu 1 true false) cpu0 cpus_ok busy_reachable)
    as [H _]; [done|done|]. by apply H.
Defined.
End SpinLocks.

(** ** [ReMutex]

    The operations as one CPU [id] runs them; a [lock] that has to wait for
    another CPU is [Diverge] here. *)
Module ReMutex.
Import Cpu Lock.
Record ReMutex : Type := mkRe { lock_word : Z; re_owner : Z; lock_count : Z }.
Definition new : ReMutex := mkRe UNLOCKED (-1) 0.

Definition enter_again (m : ReMutex) : outcome ReMutex :=
  _ ← assert_that (0 <? lock_count m);
  n ← cadd 64 (lock_count m) 1;
  Ret (mkRe (lock_word m) (re_owner m) n).

Definition lock (id : Z) (s : ReMutex * Cpu) : outcome (ReMutex * Cpu) :=
  c ← push_cli s.2;
  if re_owner s.1 =? id then
    _ ← assert_that ((0 <? n_cli c) && negb (interrupts c));
    m ← enter_again s.1;
    Ret (m, c)
  else
    match try_write_lock (lock_word s.1) with
    | Some w => Ret (mkRe w id 1, c)
    | None => Diverge
    end.

(** [Some] guard, or [None] *)
Definition try_lock (id : Z) (s : ReMutex * Cpu) : outcome (bool * (ReMutex * Cpu)) :=
  c ← push_cli s.2;
  if re_owner s.1 =? id then
    m ← enter_again s.1;
    Ret (true, (m, c))
  else
    match try_write_lock (lock_word s.1) with
    | Some w => Ret (true, (mkRe w id 1, c))
    | None => Ret (false, (s.1, c))
    end.

Definition drop (s : ReMutex * Cpu) : outcome (ReMutex * Cpu) :=
  n ← csub (lock_count s.1) 1;
  m ← (if n =? 0 then
         w ← write_unlock (lock_word s.1);
         Ret (mkRe w (-1) n)
       else Ret (mkRe (lock_word s.1) (re_owner s.1) n));
  c ← pop_cli s.2;
  Ret (m, c).

(** A failed [try_lock] returns without undoing its [push_cli]: the CPU
    holds nothing, yet its interrupts stay off, however often it tries. *)
Theorem remutex_try_lock_failure_keeps_interrupts_off id m c :
  cpu_ok c -> interrupts c = true -> re_owner m <> id -> lock_word m <> UNLOCKED ->
  exists c', try_lock id (m, c) = Ret (false, (m, c')) /\ n_cli c' = 1 /\ interrupts c' = false.
Proof.
  intros [Hn Hi] Ht Ho Hw. assert (n_cli c = 0) as E0. { destruct (decide (0 < n_cli c)); [rewrite Hi in Ht; done|lia]. }
  unfold try_lock, push_cli, try_write_lock. destruct c as [n o f]. simpl in *. subst n f. simpl.
  rewrite (proj2 (Z.eqb_neq _ _) Ho), (proj2 (Z.eqb_neq _ _) Hw). by eexists.
Qed.

Lemma remutex_try_lock_failure_keeps_interrupts_off_witness :
  exists c', try_lock 1 (mkRe WRITE_LOCKED 0 1, mkCpu 0 false true) = Ret (false, (mkRe WRITE_LOCKED 0 1, c')) /\
    n_cli c' = 1 /\ interrupts c' = false.
Proof.
  apply (remutex_try_lock_failure_keeps_interrupts_off 1 (mkRe WRITE_LOCKED 0 1) (mkCpu 0 false true)); [|done|done|done].
  split; [vm_compute; done|]. simpl. lia.
Defined.
End ReMutex.
