(* ===== verification/PhysPages.v ===== *)
(** * The physical page allocator

    Models [kernel/src/memory_management/physical_page_allocator.rs]: the
    intrusive free list of 4 KiB pages, whose links live in the free pages
    themselves, and its construction from the boot loader's memory map.

    Memory is a map from 8-byte word addresses to words ([Memory.mem]);
    [Option<NonNull<FreePage>>] is a word, with 0 for [None]. *)
From S2P Require Import Prelude MemLayout.

Module Memory.

Definition mem : Type := Z -> Z.

Definition load (m : mem) (a : Z) : Z := m a.
Definition store (m : mem) (a v : Z) : mem := fun x => if x =? a then v else m x.
(** [ptr::write_bytes(a, b, n)], seen through aligned words *)
Definition fill (m : mem) (a b n : Z) : mem :=
  fun x => if (a <=? x) && (x <? a + n) then b * 0x0101010101010101 else m x.

Lemma load_store_eq m a v : load (store m a v) a = v.
Proof. unfold load, store. by rewrite Z.eqb_refl. Qed.
Lemma load_store_ne m a b v : b <> a -> load (store m a v) b = load m b.
Proof. intros H. unfold load, store. by rewrite (proj2 (Z.eqb_neq _ _) H). Qed.
Lemma load_fill_in m a b n x : a <= x < a + n -> load (fill m a b n) x = b * 0x0101010101010101.
Proof.
  intros H. unfold load, fill.
  by rewrite (proj2 (Z.leb_le _ _)), (proj2 (Z.ltb_lt _ _)) by lia.
Qed.
Lemma load_fill_out m a b n x : ~ (a <= x < a + n) -> load (fill m a b n) x = load m x.
Proof.
  intros H. unfold load, fill.
  destruct (Z.leb_spec a x); [|done]. destruct (Z.ltb_spec x (a + n)); [lia|done].
Qed.
End Memory.

Module PhysPages.
Import Memory.

Record PhysicalPageAllocator : Type := mkAlloc {
  low_mem_free_list_head : option Z;
  high_mem_start : Z;
  start : Z;
  end_ : Z;
  free_count : Z;
  used_count : Z
}.

(** The allocator and the memory the pages live in. *)
Record Phys : Type := mkPhys { allocator : PhysicalPageAllocator; memory : mem }.

(** ** [FreePage::next] *)
Definition next (m : mem) (page : Z) : option Z :=
  if load m page =? 0 then None else Some (load m page).
Definition ptr_word (p : option Z) : Z := match p with Some a => a | None => 0 end.

(** ** [PhysicalPageAllocator::alloc] *)
Definition alloc : ST Phys Z :=
  s ← get;
  let a := allocator s in
  match low_mem_free_list_head a with
  | None => panic
  | Some page =>
      let head := next (memory s) page in
      let m := fill (memory s) page 1 PAGE_4K in
      used ← lift (cadd 64 (used_count a) 1);
      _ ← put (mkPhys (mkAlloc head (high_mem_start a) (start a) (end_ a) (free_count a) used) m);
      mret page
  end.

(** ** [PhysicalPageAllocator::free] *)
Definition free (page : Z) : ST Phys (option unit) :=
  s ← get;
  let a := allocator s in
  aligned ← lift (is_aligned page PAGE_4K);
  if (page =? 0) || negb aligned || (end_ a <=? page) || (page <? start a) then mret None
  else
    let m := fill (memory s) page 2 PAGE_4K in
    _ ← lift (assert_that ((high_mem_start a =? 0) || (page <? high_mem_start a)));
    let m := store m page (ptr_word (low_mem_free_list_head a)) in
    count ← lift (cadd 64 (free_count a) 1);
    _ ← put (mkPhys (mkAlloc (Some page) (high_mem_start a) (start a) (end_ a) count (used_count a)) m);
    mret (Some tt).

(** ** The module-level functions *)
Definition alloc_zeroed : ST Phys Z :=
  page ← alloc;
  _ ← modify (fun s => mkPhys (allocator s) (fill (memory s) page 0 PAGE_4K));
  mret page.

Definition free_page (page : Z) : ST Phys unit :=
  r ← free page;
  lift (unwrap r).

Definition stats (s : Phys) : Z * Z := (free_count (allocator s), used_count (allocator s)).

(** ** [PhysicalPageAllocator::init_range] *)
Fixpoint init_loop (fuel : nat) (page end_page : Z) : ST Phys unit :=
  match fuel with
  | O => diverge
  | S fuel =>
      if page <? end_page then
        r ← free page;
        _ ← lift (unwrap r);
        init_loop fuel (page + PAGE_4K) end_page
      else mret tt
  end.

Definition init_range (start_ end_page : Z) : ST Phys unit :=
  start_ ← lift (align_up start_ PAGE_4K);
  end_page ← lift (align_down end_page PAGE_4K);
  _ ← lift (assert_that (start_ <? end_page));
  init_loop (Z.to_nat ((end_page - start_) / PAGE_4K + 1)) start_ end_page.

(** ** [PhysicalPageAllocator::new] *)
Inductive MemoryMapType : Type :=
| Available | Reserved | ACPIReclaimable | ACPINonVolatile | BadMemory | Undefined (v : Z).
#[global] Instance MemoryMapType_eq_dec : EqDecision MemoryMapType.
Proof. solve_decision. Defined.

Record MemoryMap : Type := mkMap { base_addr : Z; length_ : Z; mem_type : MemoryMapType }.

Definition set_start (v : Z) (a : PhysicalPageAllocator) : PhysicalPageAllocator :=
  mkAlloc (low_mem_free_list_head a) (high_mem_start a) v (end_ a) (free_count a) (used_count a).
Definition set_end (v : Z) (a : PhysicalPageAllocator) : PhysicalPageAllocator :=
  mkAlloc (low_mem_free_list_head a) (high_mem_start a) (start a) v (free_count a) (used_count a).
Definition set_high (v : Z) (a : PhysicalPageAllocator) : PhysicalPageAllocator :=
  mkAlloc (low_mem_free_list_head a) v (start a) (end_ a) (free_count a) (used_count a).
Definition update (f : PhysicalPageAllocator -> PhysicalPageAllocator) : ST Phys unit :=
  modify (fun s => mkPhys (f (allocator s)) (memory s)).

(** The bounds of one range: [(start_physical, end_physical)], after
    [s.start] was set when the range holds the kernel. *)
Definition range_bounds (kernel_start kernel_end : Z) (memory : MemoryMap) : ST Phys (Z * Z) :=
  mem_end ← lift (cadd 64 (base_addr memory) (length_ memory));
  if (base_addr memory <=? kernel_start) && (kernel_end <=? mem_end) then
    end_physical ← lift (align_down mem_end PAGE_4K);
    v ← lift (physical2virtual kernel_end);
    _ ← update (set_start v);
    mret (kernel_end, end_physical)
  else
    _ ← lift (assert_that (kernel_end <=? base_addr memory));
    start_physical ← lift (align_up (base_addr memory) PAGE_4K);
    end_physical ← lift (align_down mem_end PAGE_4K);
    mret (start_physical, end_physical).

Fixpoint new_loop (kernel_start kernel_end : Z) (maps : list MemoryMap) : ST Phys unit :=
  match maps with
  | [] => mret tt
  | memory :: maps =>
      mem_end ← lift (cadd 64 (base_addr memory) (length_ memory));
      if mem_end <? EXTENDED_OFFSET then new_loop kernel_start kernel_end maps
      else if negb (bool_decide (mem_type memory = Available)) then new_loop kernel_start kernel_end maps
      else
        bounds ← range_bounds kernel_start kernel_end memory;
        let '(start_physical, end_physical) := bounds in
        kend ← lift (virtual2physical KERNEL_END);
        ends ← (if kend <=? end_physical then mret (KERNEL_END, KERNEL_END)
                else v ← lift (physical2virtual end_physical); mret (v, 0));
        let '(end_virtual, high) := ends in
        start_virtual ← lift (physical2virtual start_physical);
        if start_virtual <? end_virtual then
          _ ← update (set_end end_virtual);
          _ ← init_range start_virtual end_virtual;
          if negb (high =? 0) then update (set_high high)
          else new_loop kernel_start kernel_end maps
        else new_loop kernel_start kernel_end maps
  end.

(** The end of the memory the kernel image and the boot information use. *)
Definition reserved_end (kernel_elf_end end_address : Z) : outcome Z :=
  e ← align_up kernel_elf_end PAGE_4K;
  physical_kernel_end ← virtual2physical e;
  e ← virtual2physical end_address;
  multiboot_end ← align_up e PAGE_4K;
  if physical_kernel_end <? multiboot_end then
    d ← csub multiboot_end physical_kernel_end;
    _ ← assert_that (d <? PAGE_4K * 5);
    Ret multiboot_end
  else Ret physical_kernel_end.

(** [kernel_elf_end] is the linker's symbol, [end_address] and
    [memory_maps] come from the boot information. *)
Definition new (kernel_elf_end end_address : Z) (memory_maps : option (list MemoryMap)) : ST Phys unit :=
  physical_kernel_start ← lift (virtual2physical KERNEL_LINK);
  physical_kernel_end ← lift (reserved_end kernel_elf_end end_address);
  _ ← update (fun _ => mkAlloc None 0 0 0 0 0);
  maps ← lift (unwrap memory_maps);
  new_loop physical_kernel_start physical_kernel_end maps.

(** ** The free list as a list of pages *)
Fixpoint chain (m : mem) (head : option Z) (pages : list Z) : Prop :=
  match pages with
  | [] => head = None
  | p :: pages => head = Some p /\ chain m (next m p) pages
  end.

Definition page_ok (a : PhysicalPageAllocator) (p : Z) : Prop :=
  0 < p < 2 ^ 64 /\ p mod PAGE_4K = 0 /\ start a <= p < end_ a /\
  (high_mem_start a = 0 \/ p < high_mem_start a).

(** [pages] are the free pages of the allocator, in list order. *)
Record inv (s : Phys) (pages : list Z) : Prop := {
  inv_chain : chain (memory s) (low_mem_free_list_head (allocator s)) pages;
  inv_nodup : NoDup pages;
  inv_pages : Forall (page_ok (allocator s)) pages
}.

(** The words of a page. *)
Definition in_page (p x : Z) : Prop := p <= x < p + PAGE_4K.

Lemma in_page_disjoint p q x :
  p mod PAGE_4K = 0 -> q mod PAGE_4K = 0 -> in_page p x -> in_page q x -> p = q.
Proof.
  unfold in_page, PAGE_4K. intros Hp Hq H1 H2.
  apply Z.mod_divide in Hp as [k ->]; [|done]. apply Z.mod_divide in Hq as [j ->]; [|done]. nia.
Qed.

Lemma in_page_self p : in_page p p.
Proof. unfold in_page, PAGE_4K. lia. Qed.

(** The list is determined by the words at the start of its pages. *)
Lemma chain_frame m m' head pages :
  (forall p, p ∈ pages -> m' p = m p) -> chain m head pages -> chain m' head pages.
Proof.
  revert head. induction pages as [|p pages IH]; intros head Hm; simpl; [done|].
  intros [-> Hc]. split; [done|].
  assert (next m' p = next m p) as ->. { unfold next, load. rewrite Hm; [done|]. set_solver. }
  apply IH; [|done]. intros q Hq. apply Hm. set_solver.
Qed.

Lemma next_store m p head :
  (forall q, head = Some q -> q <> 0) -> next (store m p (ptr_word head)) p = head.
Proof.
  intros H. unfold next. rewrite load_store_eq. destruct head as [q|]; simpl; [|done].
  destruct (Z.eqb_spec q 0); [|done]. by destruct (H q).
Qed.

Lemma inv_page s pages p : inv s pages -> p ∈ pages -> page_ok (allocator s) p.
Proof. intros H. apply Forall_forall. by destruct H. Qed.

Lemma inv_frame s m pages :
  (forall p, p ∈ pages -> m p = memory s p) -> inv s pages -> inv (mkPhys (allocator s) m) pages.
Proof. intros Hm [Hc Hn Hp]. split; simpl; [by eapply chain_frame|done|done]. Qed.

Lemma alloc_spec P s p pages :
  inv s (p :: pages) -> used_count (allocator s) + 1 < 2 ^ 64 ->
  wp P alloc s (fun r s' =>
    r = p /\ inv s' pages /\ page_ok (allocator s') p /\
    start (allocator s') = start (allocator s) /\ end_ (allocator s') = end_ (allocator s) /\
    high_mem_start (allocator s') = high_mem_start (allocator s) /\
    (forall x, in_page p x -> memory s' x = 0x0101010101010101) /\
    (forall x, ~ in_page p x -> memory s' x = memory s x) /\
    used_count (allocator s') = used_count (allocator s) + 1).
Proof.
  intros Hinv Hu. destruct Hinv as [[Hh Hc] Hn Hp].
  apply NoDup_cons in Hn as [Hnp Hn]. apply Forall_cons in Hp as [Hp0 Hp].
  unfold alloc. wp_steps. rewrite Hh. wp_steps. split_and!; try done.
  - split; simpl; [|done|done]. eapply chain_frame; [|done].
    intros q Hq. apply load_fill_out. intros Hx. apply Hnp.
    apply (Forall_forall _ _ ) with (x := q) in Hp; [|done].
    rewrite (in_page_disjoint p q q); [done|apply Hp0|apply Hp|done|apply in_page_self].
  - intros x Hx. by apply load_fill_in.
  - intros x Hx. by apply load_fill_out.
Qed.

Lemma alloc_empty s : inv s [] -> alloc s = Panic.
Proof. intros [Hc _ _]. simpl in Hc. unfold alloc, mbind, ST_bind, get. by rewrite Hc. Qed.

Lemma free_spec P s p pages :
  inv s pages -> page_ok (allocator s) p -> p ∉ pages ->
  free_count (allocator s) + 1 < 2 ^ 64 ->
  wp P (free p) s (fun r s' =>
    r = Some tt /\ inv s' (p :: pages) /\
    allocator s' = mkAlloc (Some p) (high_mem_start (allocator s)) (start (allocator s))
      (end_ (allocator s)) (free_count (allocator s) + 1) (used_count (allocator s)) /\
    (forall x, ~ in_page p x -> memory s' x = memory s x)).
Proof.
  intros Hinv Hok Hnp Hu. pose proof Hok as (Hp & Ha & Hr & Hh).
  unfold free. wp_steps. apply (wp_lift_ret _ true).
  { rewrite is_aligned_eq by apply pow2_PAGE_4K. by rewrite Ha. }
  destruct (_ || _) eqn:E. { exfalso. lia. }
  wp_steps. split_and!; try done.
  - split; simpl.
    + split; [done|]. rewrite next_store.
      * eapply chain_frame; [|apply Hinv]. intros q Hq.
        assert (q <> p) by congruence.
        etransitivity; [by apply load_store_ne|]. apply load_fill_out. intros Hx. apply Hnp. pose proof (inv_page _ _ _ Hinv Hq) as Hqo.
        rewrite (in_page_disjoint p q q); [done|done|apply Hqo|done|apply in_page_self].
      * intros q Hq. destruct Hinv as [Hc _ Hps]. rewrite Hq in Hc. destruct pages as [|q' ?]; [done|].
        destruct Hc as [Hq' _]. injection Hq' as <-. apply Forall_cons in Hps as [Hps _].
        destruct Hps. lia.
    + apply NoDup_cons. split; [done|]. apply Hinv.
    + apply Forall_cons. split; [done|]. apply Hinv.
  - intros x Hx. simpl. etransitivity; [apply load_store_ne|by apply load_fill_out].
    intros ->. apply Hx. apply in_page_self.
Qed.

(** ** Runs: what the rest of the kernel can do with pages

    A client allocates pages, writes to the pages it holds, and gives back
    pages it holds. *)
Inductive run (s0 : Phys) : list Z -> Phys -> Prop :=
| run_start : run s0 [] s0
| run_alloc owned s p s' :
    run s0 owned s -> alloc s = Ret (p, s') -> run s0 (p :: owned) s'
| run_alloc_zeroed owned s p s' :
    run s0 owned s -> alloc_zeroed s = Ret (p, s') -> run s0 (p :: owned) s'
| run_write owned s p x v :
    run s0 owned s -> p ∈ owned -> in_page p x ->
    run s0 owned (mkPhys (allocator s) (store (memory s) x v))
| run_free l1 p l2 s s' :
    run s0 (l1 ++ p :: l2) s -> free_page p s = Ret (tt, s') -> run s0 (l1 ++ l2) s'.

(** What holds between two operations of such a client. *)
Record owns (pool owned : list Z) (s : Phys) : Prop := {
  owns_split : exists pages, inv s pages /\ pages ++ owned ≡ₚ pool;
  owns_nodup : NoDup pool;
  owns_pool : Forall (page_ok (allocator s)) pool
}.

Lemma owned_frame pool owned pages s m p :
  NoDup pool -> Forall (page_ok (allocator s)) pool -> pages ++ owned ≡ₚ pool ->
  inv s pages -> p ∈ owned -> (forall x, ~ in_page p x -> m x = memory s x) ->
  inv (mkPhys (allocator s) m) pages.
Proof.
  intros Hn Hp Hs Hi Ho Hm. apply inv_frame; [|done]. intros q Hq. apply Hm.
  rewrite <-Hs in Hn. apply NoDup_app in Hn as (_ & Hd & _).
  rewrite Forall_forall in Hp. intros Hx. apply (Hd q Hq).
  assert (p ∈ pool /\ q ∈ pool) as [Hpp Hqp] by (rewrite <-Hs; set_solver).
  rewrite <-(in_page_disjoint p q q); [done|by apply Hp..|done|apply in_page_self].
Qed.

Lemma alloc_owns pool owned s p s' :
  owns pool owned s -> alloc s = Ret (p, s') -> owns pool (p :: owned) s'.
Proof.
  intros [(pages & Hi & Hs) Hn Hp] Ha. destruct pages as [|q pages].
  { by rewrite alloc_empty in Ha. }
  assert (used_count (allocator s) + 1 < 2 ^ 64).
  { destruct (Z.ltb_spec (used_count (allocator s) + 1) (2 ^ 64)) as [|Hge]; [done|].
    unfold alloc, mbind, ST_bind, get in Ha. destruct Hi as [[Hh _] _ _].
    rewrite Hh in Ha. unfold lift, cadd in Ha. by rewrite (proj2 (Z.ltb_ge _ _) Hge) in Ha. }
  pose proof (wp_elim True _ _ _ _ _ (alloc_spec _ _ _ _ Hi ltac:(done)) Ha)
    as (-> & Hi' & _ & E1 & E2 & E3 & _).
  split; [|done|].
  - exists pages. split; [done|]. rewrite <-Hs. symmetry. apply Permutation_middle.
  - unfold page_ok in *. by rewrite E1, E2, E3.
Qed.

Lemma free_owns pool l1 p l2 s s' :
  owns pool (l1 ++ p :: l2) s -> free_page p s = Ret (tt, s') -> owns pool (l1 ++ l2) s'.
Proof.
  intros [(pages & Hi & Hs) Hn Hp] Hf.
  assert (p ∈ pool) as Hin by (rewrite <-Hs; set_solver).
  assert (p ∉ pages) as Hnp.
  { rewrite <-Hs in Hn. apply NoDup_app in Hn as (_ & Hd & _). intros H. apply (Hd p H). set_solver. }
  rewrite Forall_forall in Hp. pose proof (Hp p Hin) as Hok.
  assert (free_count (allocator s) + 1 < 2 ^ 64).
  { destruct (Z.ltb_spec (free_count (allocator s) + 1) (2 ^ 64)) as [|Hge]; [done|].
    unfold free_page, free, mbind, ST_bind, get in Hf.
    rewrite is_aligned_eq in Hf by apply pow2_PAGE_4K.
    unfold cadd in Hf. rewrite (proj2 (Z.ltb_ge _ _) Hge) in Hf. cbn in Hf.
    unfold mret, ST_ret in Hf. by repeat case_match; simplify_eq/=. }
  assert (wp True (free_page p) s (fun _ s' => owns pool (l1 ++ l2) s')) as W.
  { unfold free_page. wp_steps. eapply wp_mono; [by apply free_spec|].
    intros r s1 (-> & Hi' & E & _). simpl. split; [|done|].
    - exists (p :: pages). split; [done|]. rewrite <-Hs. simpl.
      rewrite <-Permutation_middle. by rewrite Permutation_middle.
    - apply Forall_forall. intros q Hq. unfold page_ok. rewrite E. by apply Hp. }
  by apply (wp_elim True _ _ _ _ _ W Hf).
Qed.

Lemma run_owns pool s0 owned s :
  inv s0 pool -> run s0 owned s -> owns pool owned s.
Proof.
  intros Hi Hr. induction Hr as [|owned s p s' Hr IH Ha|owned s p s' Hr IH Ha
    |owned s p x v Hr IH Ho Hx|l1 p l2 s s' Hr IH Hf].
  - split; [exists pool; split; [done|by rewrite app_nil_r]|apply Hi|apply Hi].
  - by eapply alloc_owns.
  - unfold alloc_zeroed, mbind, ST_bind in Ha. destruct (alloc s) as [[p' s1]| |] eqn:E; try done.
    injection Ha as -> <-. eapply alloc_owns in E; [|done].
    destruct E as [(pages & Hi' & Hs) Hn Hp]. split; [|done|done].
    exists pages. split; [|done]. eapply (owned_frame _ _ _ _ _ p); try done; [set_solver|].
    intros x Hx. by apply load_fill_out.
  - destruct IH as [(pages & Hi' & Hs) Hn Hp]. split; [|done|done].
    exists pages. split; [|done]. eapply owned_frame; try done.
    intros y Hy. apply load_store_ne. by intros ->.
  - by eapply free_owns.
Qed.

(** C16: However the kernel interleaves allocations, frees of pages it holds and
    writes to pages it holds, no page is ever handed out twice: the pages
    held are distinct members of the pool, the next allocation succeeds
    exactly while some page is left (it panics when none is), returns a
    page nobody holds, filled with ones, and leaves every held page's
    contents alone. *)
Theorem pages_never_shared pool s0 owned s :
  inv s0 pool -> run s0 owned s -> used_count (allocator s) + 1 < 2 ^ 64 ->
  NoDup owned /\ owned ⊆ pool /\
  (length owned = length pool -> alloc s = Panic) /\
  ((length owned < length pool)%nat -> exists p s', alloc s = Ret (p, s') /\
     p ∈ pool /\ (p ∉ owned) /\ run s0 (p :: owned) s' /\
     (forall x, in_page p x -> memory s' x = 0x0101010101010101) /\
     (forall q x, q ∈ owned -> in_page q x -> memory s' x = memory s x)).
Proof.
  intros Hi Hr Hu. pose proof (run_owns _ _ _ _ Hi Hr) as [(pages & Hi' & Hs) Hn Hp].
  pose proof Hn as Hn'. rewrite <-Hs in Hn'. apply NoDup_app in Hn' as (Hnp & Hd & Hno).
  pose proof (Permutation_length Hs) as Hl. rewrite length_app in Hl.
  split_and!; [done|intros q Hq; rewrite <-Hs; set_solver| |].
  - intros E. destruct pages; [by apply alloc_empty|simpl in Hl; lia].
  - intros E. destruct pages as [|p pages]; [simpl in Hl; lia|].
    destruct (wp_total _ _ _ (alloc_spec _ _ _ _ Hi' Hu))
      as (r & s' & Ha & -> & Hi'' & Hok & _ & _ & _ & Hones & Hout & _).
    exists p, s'. split_and!; try done.
    + rewrite <-Hs. set_solver.
    + apply Hd. set_solver.
    + by eapply run_alloc.
    + intros q x Hq Hx. apply Hout. intros Hx'. apply (Hd p); [set_solver|].
      rewrite Forall_forall in Hp.
      rewrite (in_page_disjoint p q x); [done|apply Hok|apply Hp; rewrite <-Hs; set_solver|done..].
Qed.

(** ** Construction from the memory map *)

(** The pages of [[a, b)], highest first. *)
Fixpoint pages_down (n : nat) (a : Z) : list Z :=
  match n with O => [] | S n => pages_down n (a + PAGE_4K) ++ [a] end.

Definition mem_end (m : MemoryMap) : Z := base_addr m + length_ m.

(** The memory maps [new] accepts: every usable range above 1 MiB either
    contains the whole kernel or lies above it, and starts inside the
    direct map; ranges after the first that reaches its end are not read. *)
Fixpoint supported (kernel_end : Z) (maps : list MemoryMap) : Prop :=
  match maps with
  | [] => True
  | m :: maps =>
      0 <= base_addr m /\ 0 <= length_ m /\ mem_end m + PAGE_4K < 2 ^ 64 /\
      if (mem_end m <? EXTENDED_OFFSET) || negb (bool_decide (mem_type m = Available))
      then supported kernel_end maps
      else
        ((base_addr m <= EXTENDED_OFFSET /\ kernel_end <= mem_end m) \/
         (kernel_end <= base_addr m /\ round_up (base_addr m) PAGE_4K < KERNEL_MAPPED_SIZE)) /\
        (mem_end m < KERNEL_MAPPED_SIZE -> supported kernel_end maps)
  end.

(** Usable ranges are listed in ascending order and do not overlap. *)
Fixpoint ascending (maps : list MemoryMap) : Prop :=
  match maps with
  | [] => True
  | m :: maps =>
      0 <= base_addr m /\
      (mem_type m = Available ->
       Forall (fun m' => mem_type m' = Available -> mem_end m <= base_addr m') maps) /\
      ascending maps
  end.

(** A page that may be handed out: it lies in a usable range, above the
    kernel image and the boot information, inside the direct map. *)
Definition usable_in (kernel_end p : Z) (m : MemoryMap) : Prop :=
  KERNEL_BASE + kernel_end <= p /\ p + PAGE_4K <= KERNEL_END /\ p mod PAGE_4K = 0 /\
  mem_type m = Available /\
  base_addr m <= p - KERNEL_BASE /\ p - KERNEL_BASE + PAGE_4K <= mem_end m.
Definition usable_page (kernel_end : Z) (maps : list MemoryMap) (p : Z) : Prop :=
  Exists (usable_in kernel_end p) maps.

(** The state of [new]'s loop when the pages below [lo] were collected. *)
Record boot (kernel_end lo : Z) (s : Phys) (pages : list Z) : Prop := {
  boot_inv : inv s pages;
  boot_lo : Forall (fun p => KERNEL_BASE + kernel_end <= p < lo) pages;
  boot_high : high_mem_start (allocator s) = 0;
  boot_start : start (allocator s) <= KERNEL_BASE + kernel_end;
  boot_count : KERNEL_BASE + PAGE_4K * free_count (allocator s) <= lo;
  boot_used : used_count (allocator s) = 0
}.

Lemma init_loop_spec kernel_end n fuel page e s pages :
  (n < fuel)%nat -> e = page + PAGE_4K * Z.of_nat n -> page mod PAGE_4K = 0 ->
  boot kernel_end page s pages -> KERNEL_BASE + kernel_end <= page -> 0 <= kernel_end ->
  e <= end_ (allocator s) <= KERNEL_END ->
  wp False (init_loop fuel page e) s (fun _ s' =>
    boot kernel_end e s' (pages_down n page ++ pages) /\ end_ (allocator s') = end_ (allocator s)).
Proof.
  revert fuel page s pages. induction n as [|n IH]; intros fuel page s pages Hf He Ha Hb Hk Hk0 Hend.
  all: destruct fuel as [|fuel]; [lia|]; simpl.
  - rewrite Z.add_0_r in He. subst e. rewrite Z.ltb_irrefl. by wp_steps.
  - assert (page < e). { subst e. unfold PAGE_4K. lia. }
    rewrite (proj2 (Z.ltb_lt _ _)) by done. wp_steps.
    destruct Hb as [Hi Hlo Hh Hs Hc Hu].
    assert (page_ok (allocator s) page).
    { unfold page_ok. unfold KERNEL_END, KERNEL_BASE, KERNEL_MAPPED_SIZE in *. lia. }
    eapply wp_mono; [apply (free_spec _ _ _ pages); try done|].
    + intros Hin. rewrite Forall_forall in Hlo. specialize (Hlo _ Hin). simpl in Hlo. lia.
    + unfold PAGE_4K, KERNEL_END, KERNEL_BASE, KERNEL_MAPPED_SIZE in *. lia.
    + intros r s' (-> & Hi' & E & _). wp_steps. apply (wp_lift_ret _ tt); [done|].
      assert (0 < PAGE_4K) by done.
      eapply wp_mono; [eapply (IH _ _ s' (page :: pages)); try lia|].
      * unfold PAGE_4K in *. rewrite Z.add_mod, Ha by done. done.
      * split; [done| |by rewrite E|by rewrite E| |by rewrite E].
        -- apply Forall_cons. unfold PAGE_4K in *. split; [lia|].
           eapply Forall_impl; [done|]. simpl. lia.
        -- rewrite E. simpl. lia.
      * rewrite E. simpl. lia.
      * intros [] s2. rewrite E. simpl. by rewrite <-app_assoc.
Qed.

Lemma pages_down_elem n a p :
  p ∈ pages_down n a <-> exists k, 0 <= k < Z.of_nat n /\ p = a + PAGE_4K * k.
Proof.
  revert a. induction n as [|n IH]; intros a; simpl.
  { split; [set_solver|]. intros (k & Hk & _). lia. }
  rewrite elem_of_app, list_elem_of_singleton, IH. split.
  - intros [(k & Hk & ->)| ->]; [exists (k + 1)|exists 0]; unfold PAGE_4K; lia.
  - intros (k & Hk & ->). destruct (decide (k = 0)) as [->|]; [right; lia|].
    left. exists (k - 1). unfold PAGE_4K. lia.
Qed.

Lemma mod_add_PAGE a k : a mod PAGE_4K = 0 -> (a + PAGE_4K * k) mod PAGE_4K = 0.
Proof. intros H. by rewrite Z.mul_comm, Z.mod_add. Qed.

(** Aligned bounds: [init_range] collects exactly the pages between them. *)
Lemma init_range_spec kernel_end a n s pages :
  (0 < n)%nat -> a mod PAGE_4K = 0 -> boot kernel_end a s pages ->
  KERNEL_BASE + kernel_end <= a -> 0 <= kernel_end ->
  a + PAGE_4K * Z.of_nat n = end_ (allocator s) -> end_ (allocator s) <= KERNEL_END ->
  wp False (init_range a (end_ (allocator s))) s (fun _ s' =>
    boot kernel_end (end_ (allocator s)) s' (pages_down n a ++ pages) /\
    end_ (allocator s') = end_ (allocator s)).
Proof.
  intros Hn Ha Hb Hk Hk0 He Hend. unfold init_range.
  assert (0 <= a /\ end_ (allocator s) < 2 ^ 64 - PAGE_4K /\ a < end_ (allocator s)) as (H0 & H1 & H2).
  { unfold PAGE_4K, KERNEL_END, KERNEL_BASE, KERNEL_MAPPED_SIZE in *. lia. }
  pose proof (mod_add_PAGE a (Z.of_nat n) Ha) as Hea. rewrite He in Hea.
  wp_steps. eapply wp_lift_ret.
  { rewrite align_up_eq by (apply pow2_PAGE_4K || lia). by rewrite round_up_id. }
  wp_steps. eapply wp_lift_ret.
  { rewrite align_down_eq by (apply pow2_PAGE_4K || unfold in_word, PAGE_4K in *; lia).
    by rewrite round_down_id. }
  wp_steps. apply init_loop_spec with (n := n); try done; try lia.
  replace (end_ (allocator s) - a) with (Z.of_nat n * PAGE_4K) by lia.
  rewrite Z.div_mul by done. lia.
Qed.


Lemma boot_set_start kernel_end lo s pages :
  boot kernel_end lo s pages ->
  boot kernel_end lo (mkPhys (set_start (kernel_end + KERNEL_BASE) (allocator s)) (memory s)) pages.
Proof.
  intros [[Hc Hn Hp] Hlo Hh Hs Hct Hu]. split; simpl; try done; [|lia].
  split; simpl; try done. rewrite Forall_forall in *. intros p Hin.
  pose proof (Hp p Hin). pose proof (Hlo p Hin). unfold page_ok in *. simpl in *. lia.
Qed.

Lemma boot_set_end kernel_end lo e s pages :
  lo <= e -> boot kernel_end lo s pages ->
  boot kernel_end lo (mkPhys (set_end e (allocator s)) (memory s)) pages.
Proof.
  intros He [[Hc Hn Hp] Hlo Hh Hs Hct Hu]. split; simpl; try done.
  split; simpl; try done. rewrite Forall_forall in *. intros p Hin.
  pose proof (Hp p Hin). pose proof (Hlo p Hin). unfold page_ok in *. simpl in *. lia.
Qed.

(** The accepted shapes of a usable range. *)
Definition range_ok (kernel_end : Z) (m : MemoryMap) : Prop :=
  0 <= base_addr m /\ 0 <= length_ m /\ mem_end m + PAGE_4K < 2 ^ 64 /\
  ((base_addr m <= EXTENDED_OFFSET /\ kernel_end <= mem_end m) \/
   (kernel_end <= base_addr m /\ round_up (base_addr m) PAGE_4K < KERNEL_MAPPED_SIZE)).

Lemma range_bounds_spec kernel_end lo m s pages :
  EXTENDED_OFFSET <= kernel_end < KERNEL_MAPPED_SIZE -> kernel_end mod PAGE_4K = 0 ->
  range_ok kernel_end m -> boot kernel_end lo s pages ->
  wp False (range_bounds EXTENDED_OFFSET kernel_end m) s (fun r s' =>
    boot kernel_end lo s' pages /\ r.2 = round_down (mem_end m) PAGE_4K /\
    kernel_end <= r.1 < KERNEL_MAPPED_SIZE /\ base_addr m <= r.1 /\ r.1 mod PAGE_4K = 0 /\
    (forall x, x mod PAGE_4K = 0 -> base_addr m <= x -> kernel_end <= x -> r.1 <= x)).
Proof.
  unfold mem_end. intros Hk Hka (H0 & H1 & H2 & Hr) Hb. unfold mem_end in *. unfold range_bounds.
  assert (in_word 64 (base_addr m + length_ m)) by (unfold in_word, PAGE_4K in *; lia).
  wp_steps. { unfold PAGE_4K in *; lia. }
  destruct ((base_addr m <=? EXTENDED_OFFSET) && (kernel_end <=? base_addr m + length_ m)) eqn:E.
  - bool_hyps. wp_steps. eapply wp_lift_ret; [by apply align_down_eq, H; apply pow2_PAGE_4K|].
    wp_steps. eapply wp_lift_ret; [apply physical2virtual_eq; lia|]. wp_steps.
    split; [by apply boot_set_start|]. split_and!; simpl; try done || lia.
  - assert (kernel_end <= base_addr m /\ round_up (base_addr m) PAGE_4K < KERNEL_MAPPED_SIZE)
      as [Hkb Hru] by (apply andb_false_iff in E; destruct E; bool_hyps; lia).
    destruct (round_up_spec (base_addr m) PAGE_4K) as [? ?]; [done|].
    wp_steps. eapply wp_lift_ret; [apply align_up_eq; [apply pow2_PAGE_4K|lia..]|].
    wp_steps. eapply wp_lift_ret; [by apply align_down_eq, H; apply pow2_PAGE_4K|].
    wp_steps. split_and!; simpl; try done || lia.
    intros x Hx Hbx _. by apply round_up_least.
Qed.

Lemma collected_exact kernel_end m a e n p :
  mem_type m = Available -> kernel_end <= a -> base_addr m <= a -> a mod PAGE_4K = 0 ->
  (forall x, x mod PAGE_4K = 0 -> base_addr m <= x -> kernel_end <= x -> a <= x) ->
  e = Z.min (round_down (mem_end m) PAGE_4K) KERNEL_MAPPED_SIZE ->
  a + PAGE_4K * Z.of_nat n = e ->
  p ∈ pages_down n (a + KERNEL_BASE) <-> usable_in kernel_end p m.
Proof.
  intros Hav Hk Hb Ha Hleast He Hn. rewrite pages_down_elem. unfold usable_in.
  destruct (round_down_spec (mem_end m) PAGE_4K) as [? Hrd]; [done|].
  assert (KERNEL_BASE mod PAGE_4K = 0) as HKB by done.
  assert (KERNEL_END = KERNEL_BASE + KERNEL_MAPPED_SIZE) as HKE by done.
  split.
  - intros (k & Hkn & ->). split_and!; try done; try (unfold PAGE_4K in *; lia).
    apply mod_add_PAGE. by rewrite Z.add_mod, Ha, HKB.
  - intros (H1 & H2 & H3 & _ & H4 & H5).
    assert ((p - KERNEL_BASE) mod PAGE_4K = 0) as Hp by (by rewrite Zminus_mod, H3, HKB).
    specialize (Hleast _ Hp H4 ltac:(lia)).
    assert (p - KERNEL_BASE + PAGE_4K <= e).
    { subst e. apply Z.min_glb; [|lia]. apply round_down_greatest; [done| |done].
      rewrite <-(Z.mul_1_r PAGE_4K) at 1. by apply mod_add_PAGE. }
    exists ((p - KERNEL_BASE - a) / PAGE_4K).
    assert ((p - KERNEL_BASE - a) mod PAGE_4K = 0) as Hd by (by rewrite Zminus_mod, Hp, Ha).
    pose proof (Z.div_mod (p - KERNEL_BASE - a) PAGE_4K ltac:(done)). unfold PAGE_4K in *. lia.
Qed.

(** What the loop leaves when it started with [pages] and saw [maps]. *)
Definition collected (kernel_end : Z) (maps : list MemoryMap) (pages : list Z) (s' : Phys) : Prop :=
  exists pages', inv s' pages' /\ used_count (allocator s') = 0 /\
    forall p, p ∈ pages' <-> p ∈ pages \/ usable_page kernel_end maps p.

Lemma collected_done kernel_end lo s pages maps :
  boot kernel_end lo s pages -> (forall p, ~ usable_page kernel_end maps p) ->
  collected kernel_end maps pages s.
Proof. intros Hb Hn. exists pages. split; [apply Hb|]. split; [apply Hb|]. naive_solver. Qed.

Lemma collected_skip kernel_end m maps pages s :
  (forall p, ~ usable_in kernel_end p m) ->
  collected kernel_end maps pages s -> collected kernel_end (m :: maps) pages s.
Proof.
  intros Hn (pages' & Hi & Hu & Hp). exists pages'. split_and!; [done|done|].
  intros p. rewrite Hp. unfold usable_page. rewrite Exists_cons. naive_solver.
Qed.

Lemma collected_range kernel_end m maps ps pages s :
  (forall p, p ∈ ps <-> usable_in kernel_end p m) ->
  collected kernel_end maps (ps ++ pages) s -> collected kernel_end (m :: maps) pages s.
Proof.
  intros Hps (pages' & Hi & Hu & Hp). exists pages'. split_and!; [done|done|].
  intros p. rewrite Hp, elem_of_app, Hps. unfold usable_page. rewrite Exists_cons. naive_solver.
Qed.

Lemma boot_set_high kernel_end s pages :
  boot kernel_end KERNEL_END s pages ->
  inv (mkPhys (set_high KERNEL_END (allocator s)) (memory s)) pages.
Proof.
  intros [[Hc Hn Hp] Hlo Hh Hs Hct Hu]. split; simpl; try done.
  rewrite Forall_forall in *. intros p Hin.
  pose proof (Hp p Hin). pose proof (Hlo p Hin). unfold page_ok in *. simpl in *. lia.
Qed.

(** No usable page lies in a range above the direct map. *)
Lemma no_usable_above kernel_end x maps :
  KERNEL_MAPPED_SIZE <= x ->
  Forall (fun m => mem_type m = Available -> x <= base_addr m) maps ->
  forall p, ~ usable_page kernel_end maps p.
Proof.
  intros Hx Hall p Hp. unfold usable_page in Hp. rewrite Exists_exists in Hp.
  destruct Hp as (m & Hm & (_ & H2 & _ & H4 & H5 & _)).
  rewrite Forall_forall in Hall. specialize (Hall m Hm H4).
  assert (0 < PAGE_4K) by done. unfold KERNEL_END in *. lia.
Qed.

Lemma boot_mono kernel_end lo lo' s pages :
  lo <= lo' -> boot kernel_end lo s pages -> boot kernel_end lo' s pages.
Proof.
  intros Hle [Hi Hlo Hh Hs Hct Hu]. split; try done; [|lia].
  eapply Forall_impl; [done|]. simpl. lia.
Qed.

Lemma ascending_nonneg maps :
  ascending maps -> Forall (fun m => mem_type m = Available -> 0 <= base_addr m) maps.
Proof.
  induction maps as [|m maps IH]; simpl; [by constructor|].
  intros (H & _ & Ha). constructor; auto.
Qed.

(** The part of an iteration that collects the pages of [[a, e)]. *)
Lemma init_range_step kernel_end a e x s pages (Q : unit -> Phys -> Prop) :
  EXTENDED_OFFSET <= kernel_end <= a -> x <= a < e -> e <= KERNEL_MAPPED_SIZE ->
  a mod PAGE_4K = 0 -> e mod PAGE_4K = 0 ->
  boot kernel_end (KERNEL_BASE + x) s pages ->
  (forall s' n, a + PAGE_4K * Z.of_nat n = e ->
     boot kernel_end (KERNEL_BASE + e) s' (pages_down n (a + KERNEL_BASE) ++ pages) ->
     forall u, Q u s') ->
  wp False (init_range (a + KERNEL_BASE) (e + KERNEL_BASE))
    (mkPhys (set_end (e + KERNEL_BASE) (allocator s)) (memory s)) Q.
Proof.
  intros Hk Hx He Ha Hea Hb Hwp.
  assert ((e - a) mod PAGE_4K = 0) as Hd by (by rewrite Zminus_mod, Ha, Hea).
  pose proof (Z.div_mod (e - a) PAGE_4K ltac:(done)) as Hdm.
  assert (0 < (e - a) / PAGE_4K) by (unfold PAGE_4K in *; lia).
  pose proof (init_range_spec kernel_end (a + KERNEL_BASE) (Z.to_nat ((e - a) / PAGE_4K))
    (mkPhys (set_end (e + KERNEL_BASE) (allocator s)) (memory s)) pages) as HI.
  simpl in HI. eapply wp_mono; [apply HI|].
  - lia.
  - by rewrite Z.add_mod, Ha.
  - eapply boot_mono; [|eapply boot_set_end; [|done]]; lia.
  - lia.
  - unfold EXTENDED_OFFSET in *. lia.
  - rewrite Z2Nat.id; lia.
  - unfold KERNEL_END. lia.
  - intros ? s' [Hb' _]. eapply (Hwp _ (Z.to_nat ((e - a) / PAGE_4K))).
    + rewrite Z2Nat.id; lia.
    + by rewrite (Z.add_comm KERNEL_BASE e).
Qed.

Lemma new_loop_spec kernel_end x maps s pages :
  EXTENDED_OFFSET <= kernel_end < KERNEL_MAPPED_SIZE -> kernel_end mod PAGE_4K = 0 ->
  supported kernel_end maps -> ascending maps ->
  Forall (fun m => mem_type m = Available -> x <= base_addr m) maps ->
  boot kernel_end (KERNEL_BASE + x) s pages ->
  wp False (new_loop EXTENDED_OFFSET kernel_end maps) s (fun _ s' =>
    collected kernel_end maps pages s').
Proof.
  intros Hk Hka. revert x s pages. induction maps as [|m maps IH]; intros x s pages Hsup Hasc Hx Hb.
  { simpl. wp_steps. eapply collected_done; [done|]. intros p Hp. by apply Exists_nil in Hp. }
  simpl in Hsup. destruct Hsup as (H0 & H1 & H2 & Hsup). destruct Hasc as (_ & Hasc1 & Hasc).
  apply Forall_cons in Hx as [Hxm Hx]. assert (0 < PAGE_4K) as HP by done.
  simpl. wp_steps. { unfold mem_end in H2. lia. }
  change (base_addr m + length_ m) with (mem_end m).
  destruct (mem_end m <? EXTENDED_OFFSET) eqn:Elow.
  { eapply wp_mono; [by eapply IH|]. intros ? s'. apply collected_skip.
    intros p (Hp1 & _ & _ & _ & _ & Hp2). bool_hyps. lia. }
  destruct (bool_decide (mem_type m = Available)) eqn:Eav; simpl in Hsup |- *.
  2: { eapply wp_mono; [by eapply IH|]. intros ? s'. apply collected_skip.
       intros p (_ & _ & _ & Hp & _). bool_hyps. done. }
  bool_hyps. destruct Hsup as [Hr Hsup]. specialize (Hxm Eav). specialize (Hasc1 Eav).
  wp_steps. eapply wp_mono; [eapply range_bounds_spec; done|].
  intros [a e] s1 (Hb1 & He & Ha1 & Ha2 & Ha3 & Hleast). cbn [fst snd] in *.
  destruct (round_down_spec (mem_end m) PAGE_4K) as [Hrd1 Hrd2]; [done|]. rewrite <-He in Hrd1, Hrd2.
  wp_steps. eapply wp_lift_ret; [apply virtual2physical_eq; done|].
  replace (KERNEL_END - KERNEL_BASE) with KERNEL_MAPPED_SIZE by done.
  assert (KERNEL_MAPPED_SIZE mod PAGE_4K = 0) as HM by done.
  destruct (Z.leb_spec KERNEL_MAPPED_SIZE e).
  - wp_steps. eapply wp_lift_ret; [apply physical2virtual_eq; lia|].
    rewrite (proj2 (Z.ltb_lt _ _)) by (unfold KERNEL_END; lia). unfold update. wp_steps.
    eapply (init_range_step kernel_end a KERNEL_MAPPED_SIZE x); try done; try lia.
    intros s' n Hn Hb' u. simpl. wp_steps.
    apply (collected_range _ _ _ (pages_down n (a + KERNEL_BASE))).
    { intros p. apply (collected_exact _ _ a KERNEL_MAPPED_SIZE); try done; lia. }
    eexists. split; [by eapply (boot_set_high kernel_end)|]. split; [apply Hb'|].
    intros p. pose proof (no_usable_above kernel_end (mem_end m) maps ltac:(lia) Hasc1 p). naive_solver.
  - assert (mem_end m < KERNEL_MAPPED_SIZE) as Hlt.
    { destruct (Z.ltb_spec (mem_end m) KERNEL_MAPPED_SIZE) as [|Hge]; [done|].
      pose proof (round_down_greatest _ _ PAGE_4K ltac:(done) HM Hge). lia. }
    wp_steps. eapply wp_lift_ret; [apply physical2virtual_eq; lia|].
    wp_steps. eapply wp_lift_ret; [apply physical2virtual_eq; lia|].
    destruct (Z.ltb_spec (a + KERNEL_BASE) (e + KERNEL_BASE)).
    + unfold update. wp_steps. eapply (init_range_step kernel_end a e x); try done; try lia.
      intros s' n Hn Hb' u. simpl.
      eapply wp_mono; [eapply (IH e); [by apply Hsup|done| |exact Hb']|].
      * eapply Forall_impl; [exact Hasc1|]. simpl. intros m' Hm' Hav. specialize (Hm' Hav). lia.
      * intros ? s2. apply collected_range. intros p. apply (collected_exact _ _ a e); try done; lia.
    + eapply wp_mono; [apply (IH x _ _ (Hsup Hlt) Hasc Hx Hb1)|].
      intros ? s2. apply collected_skip. intros p (Hp1 & Hp2 & Hp3 & _ & Hp4 & Hp5).
      assert ((p - KERNEL_BASE) mod PAGE_4K = 0) as Hp by (by rewrite Zminus_mod, Hp3).
      specialize (Hleast _ Hp Hp4 ltac:(lia)).
      assert (p - KERNEL_BASE + PAGE_4K <= e).
      { subst e. apply round_down_greatest; [done| |done].
        rewrite <-(Z.mul_1_r PAGE_4K) at 1. by apply mod_add_PAGE. }
      lia.
Qed.

(** The end of the reserved memory is page aligned and covers both the
    kernel image and the boot information. *)
Lemma reserved_end_spec kernel_elf_end end_address :
  KERNEL_LINK <= kernel_elf_end -> kernel_elf_end + PAGE_4K < KERNEL_END ->
  KERNEL_BASE <= end_address -> end_address <= kernel_elf_end + 4 * PAGE_4K ->
  end_address + PAGE_4K < KERNEL_END ->
  exists e, reserved_end kernel_elf_end end_address = Ret e /\
    e mod PAGE_4K = 0 /\ EXTENDED_OFFSET <= e < KERNEL_MAPPED_SIZE /\
    kernel_elf_end <= KERNEL_BASE + e /\ end_address <= KERNEL_BASE + e.
Proof.
  intros H1 H2 H3 H4 H5. unfold reserved_end.
  destruct (round_up_spec kernel_elf_end PAGE_4K) as [R1 R2]; [done|].
  destruct (round_up_spec (end_address - KERNEL_BASE) PAGE_4K) as [R3 R4]; [done|].
  assert (KERNEL_BASE mod PAGE_4K = 0) as HB by done.
  assert (KERNEL_END = KERNEL_BASE + KERNEL_MAPPED_SIZE) as HE by done.
  assert (KERNEL_LINK = KERNEL_BASE + EXTENDED_OFFSET) as HL by done.
  assert (0 < EXTENDED_OFFSET) by done. assert (0 <= KERNEL_BASE) by done.
  assert (KERNEL_END + PAGE_4K < 2 ^ 64) by done. assert (0 < PAGE_4K) by done.
  rewrite align_up_eq by (apply pow2_PAGE_4K || lia). cbn [mbind outcome_bind].
  rewrite virtual2physical_eq by lia. cbn [mbind outcome_bind].
  rewrite virtual2physical_eq by lia. cbn [mbind outcome_bind].
  rewrite align_up_eq by (apply pow2_PAGE_4K || lia). cbn [mbind outcome_bind].
  destruct (Z.ltb_spec (round_up kernel_elf_end PAGE_4K - KERNEL_BASE)
              (round_up (end_address - KERNEL_BASE) PAGE_4K)).
  - rewrite csub_ret by lia. cbn [mbind outcome_bind]. rewrite assert_ret by lia. cbn [mbind outcome_bind].
    eexists. split; [done|]. split; [done|]. lia.
  - eexists. split; [done|]. split; [by rewrite Zminus_mod, R2, HB|]. lia.
Qed.

(** Booting: on every memory map of a supported shape, [new] succeeds and
    the free list holds exactly the usable pages: page-aligned, wholly
    inside a range the firmware reports as available, above the kernel
    image and the boot information, inside the direct map.  No page of the
    kernel is ever given away, and no usable page is lost. *)
Theorem new_collects_usable_pages kernel_elf_end end_address maps s0 kernel_end :
  KERNEL_LINK <= kernel_elf_end -> kernel_elf_end + PAGE_4K < KERNEL_END ->
  KERNEL_BASE <= end_address -> end_address <= kernel_elf_end + 4 * PAGE_4K ->
  end_address + PAGE_4K < KERNEL_END ->
  reserved_end kernel_elf_end end_address = Ret kernel_end ->
  supported kernel_end maps -> ascending maps ->
  exists s pages, new kernel_elf_end end_address (Some maps) s0 = Ret (tt, s) /\
    inv s pages /\ run s [] s /\
    (forall p, p ∈ pages <-> usable_page kernel_end maps p) /\
    (forall p, p ∈ pages -> kernel_elf_end <= p /\ end_address <= p).
Proof.
  intros H1 H2 H3 H4 H5 Hr Hsup Hasc.
  destruct (reserved_end_spec kernel_elf_end end_address) as (e & He & Hea & Heb & Hek & Hee); try done.
  rewrite Hr in He. injection He as <-.
  assert (wp False (new kernel_elf_end end_address (Some maps)) s0 (fun _ s' => collected kernel_end maps [] s')) as W.
  { unfold new. wp_steps. eapply wp_lift_ret; [apply virtual2physical_eq; done|].
    wp_steps. eapply wp_lift_ret; [done|]. unfold update. wp_steps. eapply wp_lift_ret; [done|].
    apply (new_loop_spec kernel_end 0); try done.
    - by apply ascending_nonneg.
    - assert (0 <= KERNEL_BASE) by done. assert (0 < EXTENDED_OFFSET) by done.
      split; simpl; try done; [split; simpl; [done|by apply NoDup_nil_2|done]|lia]. }
  destruct (wp_total _ _ _ W) as ([] & s & Hs & pages & Hi & Hu & Hp).
  exists s, pages. split_and!; [done|done|constructor| |].
  - intros p. rewrite Hp. set_solver.
  - intros p. rewrite Hp. intros [Hn|Hup]; [set_solver|].
    unfold usable_page in Hup. rewrite Exists_exists in Hup. destruct Hup as (m & _ & Hin).
    destruct Hin. lia.
Qed.

(** *** Witnesses: a machine with 1 MiB of low memory, a reserved hole and
    two usable ranges; the kernel image is 16 KiB long. *)
Definition demo_maps : list MemoryMap :=
  [mkMap 0 0x9fc00 Available; mkMap 0x9fc00 0x60400 Reserved;
   mkMap 0x100000 0x9000 Available; mkMap 0x200000 0x2800 Available].

Lemma new_collects_usable_pages_witness :
  exists s pages, new (KERNEL_LINK + 0x3f00) (KERNEL_LINK + 0x4100) (Some demo_maps) (mkPhys (mkAlloc None 0 0 0 0 0) (fun _ => 0)) = Ret (tt, s) /\
    inv s pages /\ run s [] s /\
    (forall p, p ∈ pages <-> usable_page 0x105000 demo_maps p) /\
    (forall p, p ∈ pages -> KERNEL_LINK + 0x3f00 <= p /\ KERNEL_LINK + 0x4100 <= p).
Proof.
  apply new_collects_usable_pages; [vm_compute; done..| |].
  - vm_compute. repeat first [done | split | intros _ | left; split; done | right; split; done].
  - vm_compute. repeat first [done | split | intros _ | constructor].
Defined.

(** Two pages, one of them allocated. *)
Definition two_pages : Phys :=
  mkPhys (mkAlloc (Some 0x2000) 0 0x1000 0x3000 2 0) (store (fun _ => 0) 0x2000 0x1000).
Definition one_page : Phys :=
  mkPhys (mkAlloc (Some 0x1000) 0 0x1000 0x3000 2 1) (fill (store (fun _ => 0) 0x2000 0x1000) 0x2000 1 PAGE_4K).

Lemma pages_never_shared_witness :
  inv two_pages [0x2000; 0x1000] /\ run two_pages [0x2000] one_page /\
  exists p s', alloc one_page = Ret (p, s') /\ p ∈ [0x2000; 0x1000] /\ (p ∉ [0x2000]).
Proof.
  assert (inv two_pages [0x2000; 0x1000]) as Hi.
  { split; [vm_compute; done| |].
    - apply NoDup_cons_2; [set_solver|apply NoDup_singleton].
    - repeat constructor; try done; by left. }
  assert (run two_pages [0x2000] one_page) as Hr.
  { eapply run_alloc; [constructor|reflexivity]. }
  split; [exact Hi|]. split; [exact Hr|].
  destruct (pages_never_shared _ _ _ _ Hi Hr ltac:(vm_compute; reflexivity)) as (_ & _ & _ & H).
  destruct H as (p & s' & Ha & Hp & Hn & _); [simpl; lia|]. by exists p, s'.
Defined.

(** The boot list of [demo_maps], and the state after one allocation. *)
Example demo_boot_list :
  match new (KERNEL_LINK + 0x3f00) (KERNEL_LINK + 0x4100) (Some demo_maps) (mkPhys (mkAlloc None 0 0 0 0 0) (fun _ => 0)) with
  | Ret (_, s) =>
      stats s = (6, 0) /\
      match (alloc ≫= fun p => alloc ≫= fun q => free_page p ≫= fun _ => alloc ≫= fun r => mret (p, q, r)) s with
      | Ret (l, s') => l = (KERNEL_BASE + 0x201000, KERNEL_BASE + 0x200000, KERNEL_BASE + 0x201000) /\ stats s' = (7, 3)
      | _ => False
      end
  | _ => False
  end.
Proof. vm_compute. done. Qed.

End PhysPages.
