(* ===== verification/Heap.v ===== *)
(** * The heap allocator: code

    Models [libraries/increasing_heap_allocator/src/allocator.rs] and
    [lib.rs], the allocator behind both the kernel's and the user
    programs' global allocator: a best-fit allocator over an intrusive,
    address-ordered, doubly linked list of free blocks, with an info header
    in front of every allocated block.

    Memory is a map of 8-byte words ([Memory.mem]).  An access outside
    [heap_start, heap_start + total_heap_size), the memory the allocator
    was given, is a [Panic]; this includes every null dereference.
    [HeapFreeBlock] is three words ([prev], [next], [size]);
    [AllocatedHeapBlockInfo] has its [u32] magic in the low half of word 0,
    then [size] and [pre_padding], padded to 32 bytes.

    Loops over the free list take as fuel the number of 16-byte granules of
    the heap (plus two), which exceeds the length of any list of disjoint
    blocks; the recursion of [get_free_block] takes fuel 3. *)
From S2P Require Import Prelude MemLayout PhysPages.

(** ** [core::alloc::Layout] *)
Record Layout : Type := mkLayout { lsize : Z; lalign : Z }.

Module LayoutOps.
Definition ISIZE_MAX : Z := 2 ^ 63 - 1.
(** [size] rounded up to a multiple of [align] *)
Definition padded (size align : Z) : Z := round_up size align.
(** [Layout::from_size_align], on a power of two *)
Definition from_size_align (size align : Z) : option Layout :=
  if size <=? ISIZE_MAX - (align - 1) then Some (mkLayout size align) else None.
Definition align_to (l : Layout) (align : Z) : option Layout :=
  from_size_align (lsize l) (Z.max (lalign l) align).
Definition extend (l next : Layout) : option (Layout * Z) :=
  let new_align := Z.max (lalign l) (lalign next) in
  let offset := padded (lsize l) (lalign next) in
  match from_size_align (offset + lsize next) new_align with
  | Some layout => Some (layout, offset)
  | None => None
  end.
Definition pad_to_align (l : Layout) : Layout := mkLayout (padded (lsize l) (lalign l)) (lalign l).
End LayoutOps.

(** ** [trait PageAllocatorProvider] *)
Class PageAllocatorProvider (T : Type) : Type :=
  allocate_pages : Z -> T -> outcome (option Z * T).

(** What the allocator relies on: pages come one after the other, in
    ascending order, page aligned, and stay clear of both ends of the
    address space.  [base_page] is where the first page lies; [available n
    t]: a request for [n] pages will be met. *)
Class IncreasingProvider (T : Type) `{PageAllocatorProvider T} : Type := {
  provider_ok : T -> Prop;
  base_page : T -> Z;
  next_page : T -> Z;
  available : Z -> T -> Prop;
  next_page_ok : forall t, provider_ok t ->
    0 < next_page t < 2 ^ 64 - 2 ^ 12 /\ next_page t mod PAGE_4K = 0;
  allocate_pages_some : forall n t a t', provider_ok t -> 0 < n ->
    allocate_pages n t = Ret (Some a, t') ->
    provider_ok t' /\ a = next_page t /\ next_page t' = next_page t + n * PAGE_4K /\
    base_page t' = base_page t;
  allocate_pages_total : forall n t, provider_ok t -> 0 < n ->
    allocate_pages n t <> Diverge;
  allocate_pages_available : forall n t, provider_ok t -> 0 < n -> available n t ->
    exists a t', allocate_pages n t = Ret (Some a, t')
}.

Module Heap.
Import Memory.
Import LayoutOps.

Definition HEAP_MAGIC : Z := 0xF0B0CAFE.
Definition KERNEL_HEAP_BLOCK_INFO_SIZE : Z := 32.
Definition block_info_layout : Layout := mkLayout 32 16.
Definition HEAP_FREE_BLOCK_SIZE : Z := 24.

Section Alloc.
Context {T : Type} {provider : PageAllocatorProvider T}.

Record HeapAllocator : Type := mkHeap {
  heap_start : Z;
  total_heap_size : Z;
  free_list_addr : Z;
  free_size : Z;
  used_size : Z;
  page_allocator : T;
  memory : mem
}.

Definition in_heap (s : HeapAllocator) (a : Z) : bool :=
  (heap_start s <=? a) && (a + 8 <=? heap_start s + total_heap_size s).

Definition set_memory (m : mem) (s : HeapAllocator) : HeapAllocator :=
  mkHeap (heap_start s) (total_heap_size s) (free_list_addr s) (free_size s) (used_size s)
    (page_allocator s) m.
Definition set_free_list (a : Z) (s : HeapAllocator) : HeapAllocator :=
  mkHeap (heap_start s) (total_heap_size s) a (free_size s) (used_size s)
    (page_allocator s) (memory s).
Definition set_sizes (f u : Z) (s : HeapAllocator) : HeapAllocator :=
  mkHeap (heap_start s) (total_heap_size s) (free_list_addr s) f u
    (page_allocator s) (memory s).
Definition set_region (start total : Z) (s : HeapAllocator) : HeapAllocator :=
  mkHeap start total (free_list_addr s) (free_size s) (used_size s)
    (page_allocator s) (memory s).
Definition set_pages (t : T) (s : HeapAllocator) : HeapAllocator :=
  mkHeap (heap_start s) (total_heap_size s) (free_list_addr s) (free_size s) (used_size s)
    t (memory s).

Abbreviation M := (ST HeapAllocator).

Definition load_word (a : Z) : M Z :=
  s ← get;
  if in_heap s a then mret (load (memory s) a) else panic.
Definition store_word (a v : Z) : M unit :=
  s ← get;
  if in_heap s a then put (set_memory (store (memory s) a v) s) else panic.

(** Fields of a [HeapFreeBlock]. *)
Definition get_prev (b : Z) : M Z := load_word b.
Definition get_next (b : Z) : M Z := load_word (b + 8).
Definition get_size (b : Z) : M Z := load_word (b + 16).
Definition set_prev (b v : Z) : M unit := store_word b v.
Definition set_next (b v : Z) : M unit := store_word (b + 8) v.
Definition set_size (b v : Z) : M unit := store_word (b + 16) v.

(** Fields of an [AllocatedHeapBlockInfo]; the magic is 32 bits wide. *)
Definition get_magic (i : Z) : M Z := w ← load_word i; mret (w mod 2 ^ 32).
Definition set_magic (i v : Z) : M unit :=
  w ← load_word i; store_word i (w - w mod 2 ^ 32 + v).
Definition get_info_size (i : Z) : M Z := load_word (i + 8).
Definition set_info_size (i v : Z) : M unit := store_word (i + 8) v.
Definition get_pre_padding (i : Z) : M Z := load_word (i + 16).
Definition set_pre_padding (i v : Z) : M unit := store_word (i + 16) v.

Definition list_fuel (s : HeapAllocator) : nat := Z.to_nat (total_heap_size s / 16 + 2).

(** ** Consistency checks *)

(** The Floyd loop of [is_free_blocks_in_cycle]. *)
Fixpoint cycle_loop (fuel : nat) (slow fast : Z) : M bool :=
  match fuel with
  | O => diverge
  | S fuel =>
      if fast =? slow then mret true
      else if fast =? 0 then mret false
      else
        fast ← get_next fast;
        if fast =? 0 then mret false
        else
          fast ← get_next fast;
          if slow =? 0 then mret false
          else
            slow ← get_next slow;
            cycle_loop fuel slow fast
  end.

Definition is_free_blocks_in_cycle : M bool :=
  s ← get;
  let slow := free_list_addr s in
  if slow =? 0 then mret false
  else
    fast ← get_next slow;
    cycle_loop (list_fuel s) slow fast.

(** A [for] loop over [iter_free_blocks]: the iterator reads [next] before
    it yields the block. *)
Fixpoint for_each {A} (fuel : nat) (current : Z) (body : A -> Z -> M A) (acc : A) : M A :=
  match fuel with
  | O => diverge
  | S fuel =>
      if current =? 0 then mret acc
      else
        next ← get_next current;
        acc ← body acc current;
        for_each fuel next body acc
  end.
Definition iter_free_blocks {A} (body : A -> Z -> M A) (acc : A) : M A :=
  s ← get;
  for_each (list_fuel s) (free_list_addr s) body acc.

Fixpoint back_loop (fuel : nat) (last count : Z) : M Z :=
  match fuel with
  | O => diverge
  | S fuel =>
      if last =? 0 then mret count
      else
        prev ← get_prev last;
        back_loop fuel prev (count + 1)
  end.

Definition check_free_blocks : M bool :=
  r ← iter_free_blocks (fun acc block => mret (acc.1 + 1, block)) (0, 0);
  let '(forward_count, last) := r in
  s ← get;
  backward_count ← back_loop (list_fuel s) last 0;
  mret (negb (forward_count =? backward_count)).

Definition check_issues : M bool :=
  c ← is_free_blocks_in_cycle;
  if c : bool then mret true else check_free_blocks.

(** ** [free_block] *)

(** One iteration of the search loop. *)
Definition scan_body (start end_ : Z) (acc : Z * Z * Z) (block : Z) : M (Z * Z * Z) :=
  let '(prev_block, next_block, closest) := acc in
  size ← get_size block;
  block_end ← lift (cadd 64 block size);
  if block =? start then panic
  else
    _ ← lift (assert_that ((end_ <=? block) || (block_end <=? start)));
    let prev_block' := if block_end =? start then block else prev_block in
    let next_block' := if block_end =? start then next_block
                       else if end_ =? block then block else next_block in
    let closest' := if (block <? start) && ((closest =? 0) || (closest <? block))
                    then block else closest in
    mret (prev_block', next_block', closest').

(** [if !n.is_null() { n->prev = v }] *)
Definition update_prev (n v : Z) : M unit := if n =? 0 then mret tt else set_prev n v.
(** [if !p.is_null() { p->next = v } else { self.free_list_addr = v }] *)
Definition update_next (p v : Z) : M unit :=
  if p =? 0 then modify (set_free_list v) else set_next p v.

(** The four ways a freed block joins the list: between two neighbours it
    touches, after one, before one, or on its own. *)
Definition merge_both (prev_block next_block size : Z) : M unit :=
  prev_size ← get_size prev_block;
  next_size ← get_size next_block;
  sum ← lift (cadd 64 size next_size);
  sum ← lift (cadd 64 prev_size sum);
  _ ← set_size prev_block sum;
  nn ← get_next next_block;
  _ ← update_prev nn prev_block;
  np ← get_prev next_block;
  _ ← update_next np prev_block;
  nn ← get_next next_block;
  set_next prev_block nn.

Definition merge_prev (prev_block size : Z) : M unit :=
  prev_size ← get_size prev_block;
  sum ← lift (cadd 64 prev_size size);
  set_size prev_block sum.

Definition merge_next (freeing_block next_block size : Z) : M unit :=
  next_size ← get_size next_block;
  sum ← lift (cadd 64 next_size size);
  _ ← set_size freeing_block sum;
  np ← get_prev next_block;
  _ ← set_prev freeing_block np;
  nn ← get_next next_block;
  _ ← set_next freeing_block nn;
  nn ← get_next next_block;
  _ ← update_prev nn freeing_block;
  np ← get_prev next_block;
  update_next np freeing_block.

Definition insert_alone (freeing_block closest_prev_block size : Z) : M unit :=
  if closest_prev_block =? 0 then
    _ ← set_prev freeing_block 0;
    s ← get;
    _ ← set_next freeing_block (free_list_addr s);
    _ ← set_size freeing_block size;
    nn ← get_next freeing_block;
    _ ← update_prev nn freeing_block;
    modify (set_free_list freeing_block)
  else
    closest_next_block ← get_next closest_prev_block;
    _ ← set_prev freeing_block closest_prev_block;
    _ ← set_next freeing_block closest_next_block;
    _ ← set_size freeing_block size;
    _ ← set_next closest_prev_block freeing_block;
    update_prev closest_next_block freeing_block.

Definition free_block (freeing_block size : Z) : M unit :=
  s ← get;
  heap_end ← lift (cadd 64 (heap_start s) (total_heap_size s));
  _ ← lift (assert_that (freeing_block <=? heap_end));
  freeing_block_end ← lift (cadd 64 freeing_block size);
  _ ← lift (assert_that (freeing_block_end <=? heap_end));
  r ← iter_free_blocks (scan_body freeing_block freeing_block_end) (0, 0, 0);
  let '(prev_block, next_block, closest_prev_block) := r in
  if negb (prev_block =? 0) && negb (next_block =? 0) then merge_both prev_block next_block size
  else if negb (prev_block =? 0) then merge_prev prev_block size
  else if negb (next_block =? 0) then merge_next freeing_block next_block size
  else insert_alone freeing_block closest_prev_block size.

(** ** Growing the heap *)
Definition provider_pages (pages : Z) : M Z :=
  s ← get;
  r ← lift (allocate_pages pages (page_allocator s));
  let '(addr, t) := r in
  _ ← put (set_pages t s);
  lift (unwrap addr).

Definition allocate_more_pages (pages : Z) : M unit :=
  _ ← lift (assert_that (0 <? pages));
  s ← get;
  new_heap_start ← provider_pages pages;
  _ ← when (total_heap_size s =? 0) (modify (fun s => set_region new_heap_start (total_heap_size s) s));
  bytes ← lift (cmul 64 pages PAGE_4K);
  s ← get;
  total ← lift (cadd 64 (total_heap_size s) bytes);
  _ ← put (set_region (heap_start s) total s);
  s ← get;
  _ ← (if free_list_addr s =? 0 then
         _ ← set_prev new_heap_start 0;
         _ ← set_next new_heap_start 0;
         _ ← set_size new_heap_start bytes;
         modify (set_free_list new_heap_start)
       else free_block new_heap_start bytes);
  s ← get;
  free ← lift (cadd 64 (free_size s) bytes);
  put (set_sizes free (used_size s) s).

(** One iteration of the best-fit search. *)
Definition best_body (size best_block block : Z) : M Z :=
  block_size ← get_size block;
  if size <=? block_size then
    if best_block =? 0 then mret block
    else
      best_size ← get_size best_block;
      mret (if block_size <? best_size then block else best_block)
  else mret best_block.

Fixpoint get_free_block (fuel : nat) (size : Z) : M Z :=
  match fuel with
  | O => diverge
  | S fuel =>
      s ← get;
      let grow :=
        size ← lift (align_up size PAGE_4K);
        _ ← allocate_more_pages (size / PAGE_4K);
        get_free_block fuel size in
      if total_heap_size s =? 0 then grow
      else
        best_block ← iter_free_blocks (best_body size) 0;
        if best_block =? 0 then grow else mret best_block
  end.

(** ** The public interface *)
Definition new (page_allocator : T) (m : mem) : HeapAllocator := mkHeap 0 0 0 0 0 page_allocator m.

Record HeapStats : Type := mkStats { allocated : Z; stat_free_size : Z; heap_size : Z }.
Definition stats (s : HeapAllocator) : HeapStats :=
  mkStats (used_size s) (free_size s) (total_heap_size s).

Definition debug_free_blocks : M (list (Z * Z)) :=
  iter_free_blocks (fun acc b => size ← get_size b; mret (acc ++ [(b, size)])) [].

(** [(allocation_size, block_offset_from_header)] of a layout *)
Definition whole_size (layout : Layout) (align : Z) : outcome (Z * Z) :=
  l ← unwrap (align_to layout align);
  w ← unwrap (extend block_info_layout l);
  let '(whole_layout, offset) := w in
  Ret (lsize (pad_to_align whole_layout), offset).

(** Take the first [allocation_size] bytes of a free block, or all of it
    when the rest could not hold a free block; the size taken. *)
Definition take_from (free_block free_block_size allocation_size : Z) : M Z :=
  new_free_block ← lift (cadd 64 free_block allocation_size);
  required_safe_size ← lift (cadd 64 allocation_size HEAP_FREE_BLOCK_SIZE);
  if required_safe_size <? free_block_size then
    p ← get_prev free_block;
    _ ← set_prev new_free_block p;
    n ← get_next free_block;
    _ ← set_next new_free_block n;
    rest ← lift (csub free_block_size allocation_size);
    _ ← set_size new_free_block rest;
    n ← get_next new_free_block;
    _ ← update_prev n new_free_block;
    p ← get_prev new_free_block;
    _ ← update_next p new_free_block;
    mret allocation_size
  else
    p ← get_prev free_block;
    n ← get_next free_block;
    _ ← update_next p n;
    n ← get_next free_block;
    _ ← (if n =? 0 then mret tt else p ← get_prev free_block; set_prev n p);
    mret free_block_size.

(** The offset of the returned pointer in the block at [base]. *)
Definition block_offset (base align : Z) : outcome Z :=
  b ← is_aligned base (lalign block_info_layout);
  _ ← assert_that b;
  up ← align_up base align;
  possible_next_offset ← csub up base;
  off ← (if possible_next_offset <? KERNEL_HEAP_BLOCK_INFO_SIZE
         then cadd 64 possible_next_offset (Z.max KERNEL_HEAP_BLOCK_INFO_SIZE align)
         else Ret possible_next_offset);
  _ ← assert_that (KERNEL_HEAP_BLOCK_INFO_SIZE <=? off);
  Ret off.

(** The offset of the pointer in the block, the final [allocation_size],
    the pointer and the address of its info header. *)
Definition placement (base align allocation_size block_offset_from_header : Z)
    : outcome (Z * Z * Z * Z) :=
  allocated_block_offset ← block_offset base align;
  allocation_size ← (if block_offset_from_header <? allocated_block_offset
                     then cadd 64 allocation_size (allocated_block_offset - block_offset_from_header)
                     else Ret allocation_size);
  allocated_ptr ← cadd 64 base allocated_block_offset;
  allocated_block_info ← csub allocated_ptr KERNEL_HEAP_BLOCK_INFO_SIZE;
  Ret (allocated_block_offset, allocation_size, allocated_ptr, allocated_block_info).

(** Write the info header. *)
Definition write_info (info size pre_padding : Z) : M unit :=
  _ ← set_magic info HEAP_MAGIC;
  _ ← set_info_size info size;
  set_pre_padding info pre_padding.

(** Account for the taken bytes and run the consistency check. *)
Definition account_alloc (size : Z) : M unit :=
  s ← get;
  f ← lift (csub (free_size s) size);
  u ← lift (cadd 64 (used_size s) size);
  _ ← put (set_sizes f u s);
  issues ← check_issues;
  if issues : bool then panic else mret tt.

Definition alloc (layout : Layout) : M Z :=
  w ← lift (whole_size layout (lalign block_info_layout));
  let '(allocation_size, block_offset_from_header) := w in
  free_block ← get_free_block 3 allocation_size;
  if free_block =? 0 then mret 0
  else
    p ← lift (placement free_block (lalign layout) allocation_size block_offset_from_header);
    let '(allocated_block_offset, allocation_size, allocated_ptr, allocated_block_info) := p in
    free_block_size ← get_size free_block;
    _ ← lift (assert_that (allocation_size <=? free_block_size));
    this_allocation_size ← take_from free_block free_block_size allocation_size;
    _ ← account_alloc this_allocation_size;
    b ← lift (is_aligned allocated_ptr (lalign layout));
    _ ← lift (assert_that b);
    _ ← write_info allocated_block_info this_allocation_size allocated_block_offset;
    mret allocated_ptr.

Definition dealloc (ptr : Z) (layout : Layout) : M unit :=
  _ ← lift (assert_that (negb (ptr =? 0)));
  w ← lift (whole_size layout 16);
  let '(size_to_free_from_layout, _) := w in
  allocated_block_info ← lift (csub ptr KERNEL_HEAP_BLOCK_INFO_SIZE);
  magic ← get_magic allocated_block_info;
  _ ← lift (assert_that (magic =? HEAP_MAGIC));
  size ← get_info_size allocated_block_info;
  _ ← lift (assert_that (size_to_free_from_layout <=? size));
  pre_padding ← get_pre_padding allocated_block_info;
  _ ← lift (assert_that (KERNEL_HEAP_BLOCK_INFO_SIZE <=? pre_padding));
  freeing_block ← lift (csub ptr pre_padding);
  _ ← free_block freeing_block size;
  s ← get;
  u ← lift (csub (used_size s) size);
  f ← lift (cadd 64 (free_size s) size);
  _ ← put (set_sizes f u s);
  issues ← check_issues;
  if issues : bool then panic else mret tt.

End Alloc.
End Heap.
