(* ===== verification/HeapList.v ===== *)
(** * The heap allocator: the free list

    The address-ordered doubly linked free list of [Heap] as a list of
    blocks: the segment predicate that ties it to memory, how the two ways
    of updating a link change it, and the specifications of the loops that
    read it. *)
From S2P Require Import Prelude MemLayout PhysPages Heap.

(** ** Blocks *)
Definition blk : Type := Z * Z.
Definition blk_end (b : blk) : Z := b.1 + b.2.
Definition in_blk (b : blk) (x : Z) : Prop := b.1 <= x < blk_end b.
Definition disj (b c : blk) : Prop := blk_end b <= c.1 \/ blk_end c <= b.1.

(** Pairwise disjoint. *)
Fixpoint apart (l : list blk) : Prop :=
  match l with [] => True | b :: l => Forall (disj b) l /\ apart l end.

(** Address order with a gap between neighbours: fully coalesced. *)
Fixpoint coalesced (l : list blk) : Prop :=
  match l with [] => True | b :: l => Forall (fun c => blk_end b < c.1) l /\ coalesced l end.

Definition good_blk (lo hi : Z) (b : blk) : Prop :=
  b.1 mod 16 = 0 /\ b.2 mod 16 = 0 /\ 32 <= b.2 /\ lo <= b.1 /\ blk_end b <= hi.

Fixpoint total (l : list blk) : Z := match l with [] => 0 | b :: l => b.2 + total l end.

#[global] Instance disj_sym : Symmetric disj.
Proof. intros b c [H|H]; [right|left]; done. Qed.

Lemma apart_cons b l : apart (b :: l) <-> Forall (disj b) l /\ apart l.
Proof. done. Qed.

Lemma apart_app l1 l2 :
  apart (l1 ++ l2) <-> apart l1 /\ apart l2 /\ (forall b c, b ∈ l1 -> c ∈ l2 -> disj b c).
Proof.
  induction l1 as [|b l1 IH]; simpl.
  - split; [intros; split_and!; try done; set_solver|naive_solver].
  - rewrite IH, Forall_app, !Forall_forall. split.
    + intros ((H1 & H2) & H3 & H4 & H5). split_and!; try done.
      intros b' c Hb Hc. apply elem_of_cons in Hb as [->|Hb]; auto.
    + intros ((H1 & H2) & H3 & H4). split_and!; try done.
      * intros c Hc. apply H4; set_solver.
      * intros b' c Hb Hc. apply H4; set_solver.
Qed.

#[global] Instance apart_perm : Proper ((≡ₚ) ==> iff) apart.
Proof.
  intros l1 l2 H. induction H as [|b l1 l2 H IH|b c l|l1 l2 l3 H1 IH1 H2 IH2]; simpl; try done.
  - assert (Forall (disj b) l1 <-> Forall (disj b) l2) as ->; [|by rewrite IH].
    rewrite !Forall_forall. split; intros F x Hx; apply F; [by rewrite H|by rewrite <-H].
  - rewrite !Forall_cons. split; intros ((H1 & H2) & H3 & H4); split_and!; try done; by symmetry.
  - by rewrite IH1.
Qed.

#[global] Instance total_perm : Proper ((≡ₚ) ==> (=)) total.
Proof. intros l1 l2 H. induction H; simpl; lia. Qed.

Lemma total_app l1 l2 : total (l1 ++ l2) = total l1 + total l2.
Proof. induction l1; simpl; lia. Qed.

(** Splitting a block in two, or joining two neighbours, changes neither
    disjointness nor the total. *)
Lemma disj_join a s t b :
  0 <= s -> 0 <= t -> 0 < b.2 -> disj (a, s + t) b <-> disj (a, s) b /\ disj (a + s, t) b.
Proof. unfold disj, blk_end. simpl. lia. Qed.

Lemma apart_join a s t l :
  0 <= s -> 0 <= t -> Forall (fun b => 0 < b.2) l ->
  apart ((a, s + t) :: l) <-> apart ((a, s) :: (a + s, t) :: l).
Proof.
  intros Hs Ht Hl. simpl. rewrite Forall_cons, !Forall_forall. rewrite Forall_forall in Hl.
  assert (disj (a, s) (a + s, t)) by (left; unfold blk_end; simpl; lia).
  split.
  - intros [H1 H2]. split_and!; try done; intros b Hb; specialize (H1 b Hb); apply disj_join in H1; auto; by destruct H1.
  - intros ((_ & H1) & H2 & H3). split; [|done]. intros b Hb. apply disj_join; auto.
Qed.

Lemma coalesced_app l1 l2 :
  coalesced (l1 ++ l2) <->
  coalesced l1 /\ coalesced l2 /\ (forall b c, b ∈ l1 -> c ∈ l2 -> blk_end b < c.1).
Proof.
  induction l1 as [|b l1 IH]; simpl.
  - split; [intros; split_and!; try done; set_solver|naive_solver].
  - rewrite IH, Forall_app, !Forall_forall. split.
    + intros ((H1 & H2) & H3 & H4 & H5). split_and!; try done.
      intros b' c Hb Hc. apply elem_of_cons in Hb as [->|Hb]; auto.
    + intros ((H1 & H2) & H3 & H4). split_and!; try done.
      * intros c Hc. apply H4; set_solver.
      * intros b' c Hb Hc. apply H4; set_solver.
Qed.

Lemma coalesced_apart l : coalesced l -> apart l.
Proof.
  induction l as [|b l IH]; [done|]. intros [H1 H2]. split; [|auto].
  eapply Forall_impl; [done|]. intros c Hc. left. simpl in Hc. lia.
Qed.

(** The fuel of the list loops is enough. *)
Lemma coalesced_length lo hi l :
  coalesced l -> Forall (good_blk lo hi) l -> lo <= hi -> 16 * Z.of_nat (length l) <= hi - lo.
Proof.
  revert lo. induction l as [|b l IH]; intros lo Hc Hg Hle; simpl; [lia|].
  destruct Hc as [Hb Hc]. apply Forall_cons in Hg as [Hgb Hg].
  destruct Hgb as (_ & _ & Hs & Hlo & Hhi).
  assert (16 * Z.of_nat (length l) <= hi - blk_end b); [|unfold blk_end in *; lia].
  apply IH; [done| |done]. rewrite Forall_forall in *. intros c Hc'.
  specialize (Hg c Hc'). specialize (Hb c Hc'). unfold good_blk in *. simpl in Hb. lia.
Qed.

(** ** The list in memory

    [seg m p h l e]: starting at [h], whose [prev] is [p], memory holds the
    headers of the blocks [l], the last of which has [next] = [e]. *)
Section Segments.
Import Memory.

Fixpoint seg (m : mem) (p h : Z) (l : list blk) (e : Z) : Prop :=
  match l with
  | [] => h = e
  | b :: l => h = b.1 /\ load m b.1 = p /\ load m (b.1 + 16) = b.2 /\ seg m b.1 (load m (b.1 + 8)) l e
  end.

Fixpoint last_addr (p : Z) (l : list blk) : Z :=
  match l with [] => p | b :: l => last_addr b.1 l end.
Definition head_addr (l : list blk) (e : Z) : Z :=
  match l with [] => e | b :: _ => b.1 end.

Lemma last_addr_app p l1 l2 : last_addr p (l1 ++ l2) = last_addr (last_addr p l1) l2.
Proof. revert p. induction l1; intros p; simpl; auto. Qed.

Lemma last_addr_snoc p l b : last_addr p (l ++ [b]) = b.1.
Proof. by rewrite last_addr_app. Qed.

Lemma seg_head m p h l e : seg m p h l e -> h = head_addr l e.
Proof. destruct l; simpl; naive_solver. Qed.

Lemma seg_app m p h l1 l2 e :
  seg m p h (l1 ++ l2) e <->
  seg m p h l1 (head_addr l2 e) /\ seg m (last_addr p l1) (head_addr l2 e) l2 e.
Proof.
  revert p h. induction l1 as [|b l1 IH]; intros p h; simpl.
  - split; [|naive_solver]. intros H. pose proof (seg_head _ _ _ _ _ H) as ->. done.
  - rewrite IH. naive_solver.
Qed.

Lemma seg_elem_size m p h l e b : seg m p h l e -> b ∈ l -> load m (b.1 + 16) = b.2.
Proof.
  revert p h. induction l as [|c l IH]; intros p h; simpl; [set_solver|].
  intros (-> & _ & Hsz & Hs) Hb. apply elem_of_cons in Hb as [->|Hb]; eauto.
Qed.

Definition big (b : blk) : Prop := 24 <= b.2.

Lemma seg_frame m m' p h l e :
  Forall big l -> (forall b x, b ∈ l -> in_blk b x -> m' x = m x) ->
  seg m p h l e -> seg m' p h l e.
Proof.
  revert p h. induction l as [|b l IH]; intros p h Hbig Hm; simpl; [done|].
  apply Forall_cons in Hbig as [Hb Hbig]. unfold big in Hb. intros (-> & H1 & H2 & H3).
  assert (forall k, 0 <= k < 24 -> load m' (b.1 + k) = load m (b.1 + k)) as E.
  { intros k Hk. apply (Hm b); [set_solver|]. unfold in_blk, blk_end. lia. }
  pose proof (E 0 ltac:(lia)) as E0. rewrite Z.add_0_r in E0.
  rewrite E0, (E 8), (E 16) by lia. split_and!; try done.
  apply IH; [done| |done]. intros c x Hc. apply Hm. set_solver.
Qed.

Lemma seg_store m p h l e x v :
  Forall big l -> (forall b, b ∈ l -> ~ in_blk b x) ->
  seg m p h l e -> seg (store m x v) p h l e.
Proof.
  intros Hb Hx. apply seg_frame; [done|]. intros b y Hbl Hy.
  apply load_store_ne. intros ->. by apply (Hx b).
Qed.

(** Setting the [prev] of the first block. *)
Lemma seg_set_prev m p q h b l e :
  apart (b :: l) -> Forall big (b :: l) ->
  seg m p h (b :: l) e -> seg (store m b.1 q) q h (b :: l) e.
Proof.
  intros [Hd Ha] Hbig. apply Forall_cons in Hbig as [Hb Hbig]. unfold big in Hb.
  simpl. intros (-> & H1 & H2 & H3).
  rewrite load_store_eq, !load_store_ne by lia. split_and!; try done.
  apply seg_store; [done| |done]. intros c Hc. rewrite Forall_forall in Hd, Hbig.
  specialize (Hd c Hc). specialize (Hbig c Hc). unfold disj, in_blk, blk_end, big in *. lia.
Qed.

(** Setting the [next] of the last block. *)
Lemma seg_set_next m p h l b e e' :
  apart (l ++ [b]) -> Forall big (l ++ [b]) ->
  seg m p h (l ++ [b]) e -> seg (store m (b.1 + 8) e') p h (l ++ [b]) e'.
Proof.
  intros Ha Hbig. apply apart_app in Ha as (_ & _ & Hd). apply Forall_app in Hbig as [Hbig Hb].
  apply Forall_cons in Hb as [Hb _]. unfold big in Hb.
  rewrite !seg_app. simpl. intros (H1 & _ & H2 & H3 & _).
  rewrite load_store_eq, !load_store_ne by lia. split_and!; try done.
  apply seg_store; [done| |done]. intros c Hc. rewrite Forall_forall in Hbig.
  specialize (Hd c b Hc ltac:(set_solver)). specialize (Hbig c Hc).
  unfold disj, in_blk, blk_end, big in *. lia.
Qed.
End Segments.

(** ** The loops *)
Section Loops.
Import Memory Heap.
Context {T : Type} {provider : PageAllocatorProvider T}.
Implicit Types s : @HeapAllocator T.

(** The block lies in the heap and can hold a header. *)
Definition in_region s (b : blk) : Prop :=
  0 < heap_start s <= b.1 /\ blk_end b <= heap_start s + total_heap_size s /\ big b.

Lemma wp_load_word P s a (Q : Z -> HeapAllocator -> Prop) :
  heap_start s <= a -> a + 8 <= heap_start s + total_heap_size s ->
  Q (load (memory s) a) s -> wp P (load_word a) s Q.
Proof.
  intros H1 H2 HQ. unfold load_word. wp_steps. unfold in_heap.
  rewrite (proj2 (Z.leb_le _ _) H1), (proj2 (Z.leb_le _ _) H2). by apply wp_ret.
Qed.

Lemma wp_store_word P s a v (Q : unit -> HeapAllocator -> Prop) :
  heap_start s <= a -> a + 8 <= heap_start s + total_heap_size s ->
  Q tt (set_memory (store (memory s) a v) s) -> wp P (store_word a v) s Q.
Proof.
  intros H1 H2 HQ. unfold store_word. wp_steps. unfold in_heap.
  rewrite (proj2 (Z.leb_le _ _) H1), (proj2 (Z.leb_le _ _) H2). by apply wp_put.
Qed.

(** Loop rule for [for_each]: [I done acc] holds after the blocks [done]. *)
Lemma wp_for_each P {A} (I : list blk -> A -> Prop) (body : A -> Z -> ST HeapAllocator A)
    s p h done l fuel acc :
  seg (memory s) p h l 0 -> Forall (in_region s) l -> (length l < fuel)%nat -> I done acc ->
  (forall d b r acc, done ++ l = d ++ b :: r -> b ∈ l -> I d acc ->
     load (memory s) (b.1 + 16) = b.2 ->
     wp P (body acc b.1) s (fun acc' s' => s' = s /\ I (d ++ [b]) acc')) ->
  wp P (for_each fuel h body acc) s (fun acc' s' => s' = s /\ I (done ++ l) acc').
Proof.
  revert p h done fuel acc. induction l as [|b l IH]; intros p h dn fuel acc Hs Hr Hf HI Hbody.
  all: destruct fuel as [|fuel]; [simpl in Hf; lia|]; simpl.
  - simpl in Hs. subst h. simpl. apply wp_ret. by rewrite app_nil_r.
  - destruct Hs as (-> & Hp & Hsz & Hs). apply Forall_cons in Hr as [(Hb1 & Hb2 & Hb3) Hr].
    unfold big, blk_end in *. rewrite (proj2 (Z.eqb_neq b.1 0)) by lia. unfold get_next.
    apply wp_bind, wp_load_word; [lia..|]. apply wp_bind.
    eapply wp_mono; [apply (Hbody dn b l acc); [done|set_solver|done|done]|].
    intros acc' s' [-> HI']. eapply wp_mono; [apply (IH b.1 _ (dn ++ [b])); try done|].
    + simpl in Hf. lia.
    + intros d c r acc2. rewrite <-app_assoc. intros Hd Hc. apply (Hbody d c r); [done|set_solver].
    + intros acc2 s2. by rewrite <-app_assoc.
Qed.

Lemma list_fuel_enough s l :
  coalesced l -> Forall (good_blk (heap_start s) (heap_start s + total_heap_size s)) l ->
  0 <= total_heap_size s -> (length l + 1 < list_fuel s)%nat.
Proof.
  intros Hc Hg Ht. unfold list_fuel.
  pose proof (coalesced_length _ _ _ Hc Hg ltac:(lia)).
  assert (Z.of_nat (length l) <= total_heap_size s / 16) by (apply Z.div_le_lower_bound; lia). lia.
Qed.

Lemma good_region s b :
  0 < heap_start s -> good_blk (heap_start s) (heap_start s + total_heap_size s) b -> in_region s b.
Proof. unfold good_blk, in_region, big. lia. Qed.

(** The list is sound in [s]: what every loop needs. *)
Record free_list s (l : list blk) : Prop := {
  fl_start : 0 < heap_start s;
  fl_total : 0 <= total_heap_size s;
  fl_end : heap_start s + total_heap_size s < 2 ^ 64 - 2 ^ 12;
  fl_seg : seg (memory s) 0 (free_list_addr s) l 0;
  fl_sorted : coalesced l;
  fl_good : Forall (good_blk (heap_start s) (heap_start s + total_heap_size s)) l
}.

Lemma fl_region s l : free_list s l -> Forall (in_region s) l.
Proof. intros H. eapply Forall_impl; [apply H|]. intros b. apply good_region. apply H. Qed.

Lemma wp_iter P {A} (I : list blk -> A -> Prop) (body : A -> Z -> ST HeapAllocator A) s l acc
    (Q : A -> HeapAllocator -> Prop) :
  free_list s l -> I [] acc ->
  (forall d b r acc, l = d ++ b :: r -> I d acc ->
     in_region s b -> load (memory s) (b.1 + 16) = b.2 ->
     wp P (body acc b.1) s (fun acc' s' => s' = s /\ I (d ++ [b]) acc')) ->
  (forall acc', I l acc' -> Q acc' s) ->
  wp P (iter_free_blocks body acc) s Q.
Proof.
  intros Hl HI Hb HQ. unfold iter_free_blocks. wp_steps.
  pose proof (fl_region _ _ Hl) as Hr. rewrite Forall_forall in Hr.
  eapply wp_mono; [apply (wp_for_each P I _ _ 0 _ [] l); try done|].
  - apply Hl.
  - by apply fl_region.
  - pose proof (list_fuel_enough s l (fl_sorted _ _ Hl) (fl_good _ _ Hl) (fl_total _ _ Hl)). lia.
  - intros d b r acc' E Hin HI' Hld. apply (Hb d b r); auto.
  - simpl. intros acc' s' [-> H]. auto.
Qed.

(** *** The consistency checks find nothing on a sound list *)

Lemma seg_not_null s p h l :
  seg (memory s) p h l 0 -> Forall (in_region s) l -> h = 0 <-> l = [].
Proof.
  destruct l as [|b l]; simpl; [done|]. intros (-> & _) Hr. apply Forall_cons in Hr as [Hr _].
  unfold in_region in Hr. split; [lia|done].
Qed.

Lemma wp_get_next P s b (Q : Z -> HeapAllocator -> Prop) :
  in_region s b -> Q (load (memory s) (b.1 + 8)) s -> wp P (get_next b.1) s Q.
Proof. unfold in_region, big, blk_end. intros H HQ. apply wp_load_word; [lia..|done]. Qed.

(** The hare stays strictly ahead of the tortoise: [l1] separates them. *)
Lemma wp_cycle_loop P s fuel slow l1 l2 :
  (exists p, seg (memory s) p slow (l1 ++ l2) 0) -> Forall (in_region s) (l1 ++ l2) ->
  apart (l1 ++ l2) -> l1 <> [] -> (length l2 < fuel)%nat ->
  wp P (cycle_loop fuel slow (head_addr l2 0)) s (fun r s' => s' = s /\ r = false).
Proof.
  revert slow l1 l2. induction fuel as [|fuel IH]; intros slow l1 l2 [p Hs] Hr Ha Hne Hf; [lia|].
  destruct l1 as [|a l1]; [done|]. clear Hne. simpl in Hs. destruct Hs as (-> & _ & _ & Hs).
  pose proof Hr as Hr'. rewrite Forall_forall in Hr'. cbn [cycle_loop].
  assert (in_region s a) as Hra by (apply Hr'; set_solver).
  assert (forall c, c ∈ l1 ++ l2 -> c.1 <> a.1) as Hne.
  { intros c Hc. destruct Ha as [Hd _]. rewrite Forall_forall in Hd. specialize (Hd c Hc).
    pose proof (Hr' c ltac:(set_solver)). unfold disj, in_region, big, blk_end in *. lia. }
  destruct l2 as [|b l2]; cbn [head_addr].
  { rewrite (proj2 (Z.eqb_neq 0 a.1)) by (unfold in_region in Hra; lia). by apply wp_ret. }
  assert (in_region s b) as Hrb by (apply Hr'; set_solver).
  rewrite (proj2 (Z.eqb_neq b.1 a.1)) by (apply Hne; set_solver).
  rewrite (proj2 (Z.eqb_neq b.1 0)) by (unfold in_region in Hrb; lia).
  apply wp_bind, wp_get_next; [done|].
  pose proof Hs as Hs0. apply seg_app in Hs as [Hs1 Hs2]. simpl in Hs2. destruct Hs2 as (_ & _ & _ & Hs2).
  pose proof (seg_head _ _ _ _ _ Hs2) as Hh. rewrite Hh.
  destruct l2 as [|c l2]; cbn [head_addr]; [by apply wp_ret|].
  assert (in_region s c) as Hrc by (apply Hr'; set_solver).
  rewrite (proj2 (Z.eqb_neq c.1 0)) by (unfold in_region in Hrc; lia).
  apply wp_bind, wp_get_next; [done|].
  rewrite (proj2 (Z.eqb_neq a.1 0)) by (unfold in_region in Hra; lia).
  apply wp_bind, wp_get_next; [done|]. simpl in Hs2. destruct Hs2 as (_ & _ & _ & Hs3).
  rewrite (seg_head _ _ _ _ _ Hs3).
  assert (l1 ++ b :: c :: l2 = (l1 ++ [b; c]) ++ l2) as E by (by rewrite <-app_assoc).
  apply IH with (l1 := l1 ++ [b; c]).
  - exists a.1. by rewrite <-E.
  - rewrite <-E. by apply Forall_cons in Hr as [_ Hr].
  - rewrite <-E. apply Ha.
  - by destruct l1.
  - simpl in Hf. lia.
Qed.

Lemma wp_in_cycle P s l :
  free_list s l -> wp P is_free_blocks_in_cycle s (fun r s' => s' = s /\ r = false).
Proof.
  intros Hl. unfold is_free_blocks_in_cycle. wp_steps.
  pose proof (fl_region _ _ Hl) as Hr. pose proof (fl_seg _ _ Hl) as Hs.
  destruct l as [|a l]. { simpl in Hs. rewrite Hs. simpl. by apply wp_ret. }
  pose proof Hs as (Hh & _ & _ & Hs2). apply Forall_cons in Hr as [Ha Hr]. rewrite Hh.
  rewrite (proj2 (Z.eqb_neq a.1 0)) by (unfold in_region in Ha; lia).
  apply wp_bind, wp_get_next; [done|]. rewrite (seg_head _ _ _ _ _ Hs2).
  apply wp_cycle_loop with (l1 := [a]); [|by constructor| |done|].
  - exists 0. by rewrite Hh in Hs.
  - apply coalesced_apart, Hl.
  - pose proof (list_fuel_enough s (a :: l) (fl_sorted _ _ Hl) (fl_good _ _ Hl) (fl_total _ _ Hl)) as H.
    simpl in H. lia.
Qed.

(** Walking back from the last block counts the blocks. *)
Lemma wp_back_loop P s h l fuel n :
  seg (memory s) 0 h l 0 -> Forall (in_region s) l -> (length l < fuel)%nat ->
  wp P (back_loop fuel (last_addr 0 l) n) s (fun r s' => s' = s /\ r = n + Z.of_nat (length l)).
Proof.
  revert n. generalize 0 at 2 as e. revert fuel. induction l as [|b l IH] using rev_ind; intros fuel e n Hs Hr Hf.
  - destruct fuel; [lia|]. simpl. apply wp_ret. split; [done|lia].
  - rewrite length_app in Hf. simpl in Hf. destruct fuel as [|fuel]; [lia|].
    apply seg_app in Hs as [Hs1 Hs2]. apply Forall_app in Hr as [Hr Hb]. apply Forall_cons in Hb as [Hb _].
    rewrite last_addr_snoc. cbn [back_loop]. simpl in Hs2. destruct Hs2 as (_ & Hp & _).
    unfold in_region, big, blk_end in Hb. rewrite (proj2 (Z.eqb_neq b.1 0)) by lia.
    apply wp_bind. unfold get_prev. apply wp_load_word; [lia..|]. rewrite Hp.
    eapply wp_mono; [eapply IH; [done|done|lia]|].
    intros r s' [-> ->]. split; [done|]. rewrite length_app. simpl. lia.
Qed.

Lemma wp_check_issues P s l (Q : bool -> HeapAllocator -> Prop) :
  free_list s l -> Q false s -> wp P check_issues s Q.
Proof.
  intros Hl HQ. unfold check_issues. apply wp_bind.
  eapply wp_mono; [by eapply wp_in_cycle|]. intros c s' [-> ->].
  unfold check_free_blocks. apply wp_bind.
  apply (wp_iter P (fun d acc => acc = (Z.of_nat (length d), last_addr 0 d)) _ _ l); [done|done| |].
  - intros d b r acc E -> Hb _. apply wp_ret. split; [done|].
    rewrite length_app, last_addr_snoc. simpl. f_equal. lia.
  - intros acc ->. wp_steps. eapply wp_mono.
    + eapply (wp_back_loop P s); [apply Hl|by apply fl_region|].
      pose proof (list_fuel_enough s l (fl_sorted _ _ Hl) (fl_good _ _ Hl) (fl_total _ _ Hl)). lia.
    + intros r s' [-> ->]. wp_steps. by rewrite Z.eqb_refl.
Qed.

(** *** Best fit *)
Lemma wp_best_fit P s l size (Q : Z -> HeapAllocator -> Prop) :
  free_list s l -> 0 <= size ->
  (Forall (fun b => b.2 < size) l -> Q 0 s) ->
  (forall b, b ∈ l -> size <= b.2 -> (forall c, c ∈ l -> size <= c.2 -> b.2 <= c.2) -> Q b.1 s) ->
  wp P (iter_free_blocks (best_body size) 0) s Q.
Proof.
  intros Hl Hsize Hnone Hsome.
  apply (wp_iter P (fun d acc => (acc = 0 /\ Forall (fun b => b.2 < size) d) \/
    exists b, b ∈ d /\ acc = b.1 /\ size <= b.2 /\ forall c, c ∈ d -> size <= c.2 -> b.2 <= c.2) _ _ l);
    [done|by left| |naive_solver].
  pose proof (fl_region _ _ Hl) as Hr. rewrite Forall_forall in Hr.
  intros d b r acc E HI Hb Hsz. unfold best_body, get_size. wp_steps.
  pose proof Hb as (? & ? & ?). unfold big, blk_end in *.
  apply wp_load_word; [lia..|]. rewrite Hsz.
  destruct (Z.leb_spec size b.2) as [Hle|Hlt].
  2: { wp_steps. split; [done|]. destruct HI as [[-> HI]|(b' & Hb' & -> & Hs' & HI)].
       - left. split; [done|]. apply Forall_app. split; [done|]. by constructor.
       - right. exists b'. split_and!; [set_solver|done|done|].
         intros c Hc Hsc. apply elem_of_app in Hc as [Hc| ->%list_elem_of_singleton]; [auto|lia]. }
  destruct HI as [[-> HI]|(b' & Hb' & -> & Hs' & HI)].
  - simpl. wp_steps. split; [done|]. right. exists b. split_and!; [set_solver|done|done|].
    intros c Hc Hsc. rewrite Forall_forall in HI.
    apply elem_of_app in Hc as [Hc| ->%list_elem_of_singleton]; [specialize (HI c Hc); simpl in HI; lia|lia].
  - assert (b' ∈ l) as Hbl by (subst l; set_solver).
    pose proof (Hr b' Hbl) as (? & ? & ?). unfold big, blk_end in *.
    rewrite (proj2 (Z.eqb_neq b'.1 0)) by lia. apply wp_bind, wp_load_word; [lia..|].
    rewrite (seg_elem_size _ _ _ _ _ _ (fl_seg _ _ Hl) Hbl). wp_steps. split; [done|]. right.
    destruct (Z.ltb_spec b.2 b'.2); [exists b|exists b']; (split_and!; [set_solver|done|done|]).
    all: intros c Hc Hsc; apply elem_of_app in Hc as [Hc| ->%list_elem_of_singleton];
      [specialize (HI c Hc Hsc); lia|lia].
Qed.

(** *** The search of [free_block]

    When the freed block fits between [L] and [R], the search ends with the
    touching neighbours and the last block before it. *)
Definition touch_prev (L : list blk) (start : Z) : Z :=
  match last L with Some b => if blk_end b =? start then b.1 else 0 | None => 0 end.
Definition touch_next (R : list blk) (end_ : Z) : Z :=
  match R with b :: _ => if end_ =? b.1 then b.1 else 0 | [] => 0 end.

(** [scan_body] as a function of the block. *)
Definition scan_step (start end_ : Z) (acc : Z * Z * Z) (b : blk) : Z * Z * Z :=
  let '(p, n, c) := acc in
  (if blk_end b =? start then b.1 else p,
   if blk_end b =? start then n else if end_ =? b.1 then b.1 else n,
   if (b.1 <? start) && ((c =? 0) || (c <? b.1)) then b.1 else c).

Lemma last_addr_cases l : last_addr 0 l = 0 /\ l = [] \/ exists l' b, l = l' ++ [b] /\ last_addr 0 l = b.1.
Proof.
  destruct l as [|b l _] using rev_ind; [by left|]. right. exists l, b. by rewrite last_addr_snoc.
Qed.

Lemma scan_before start end_ L :
  start < end_ -> coalesced L -> Forall (fun b => 24 <= b.2 /\ blk_end b <= start) L ->
  foldl (scan_step start end_) (0, 0, 0) L = (touch_prev L start, 0, last_addr 0 L).
Proof.
  intros Hse. induction L as [|b L IH] using rev_ind; intros Hc Hf; [done|].
  apply coalesced_app in Hc as (Hc & _ & Hlt). apply Forall_app in Hf as [Hf Hb].
  apply Forall_cons in Hb as [[Hb1 Hb2] _]. rewrite foldl_snoc, IH by done.
  rewrite last_addr_snoc. unfold touch_prev at 2. rewrite last_snoc.
  assert (touch_prev L start = 0) as ->.
  { unfold touch_prev. destruct (last L) as [c|] eqn:El; [|done].
    apply last_Some_elem_of in El. specialize (Hlt c b El ltac:(set_solver)).
    rewrite (proj2 (Z.eqb_neq _ _)); [done|]. unfold blk_end in *. lia. }
  unfold scan_step. f_equal; [f_equal|].
  - unfold blk_end in *. destruct (Z.eqb_spec end_ b.1); [lia|]. by destruct (_ =? _).
  - rewrite (proj2 (Z.ltb_lt b.1 start)) by (unfold blk_end in *; lia). simpl.
    destruct (last_addr_cases L) as [[-> _]|(L' & c & -> & E)]; [done|]. rewrite E.
    specialize (Hlt c b ltac:(set_solver) ltac:(set_solver)).
    apply Forall_app in Hf as [_ Hf]. apply Forall_cons in Hf as [[Hc1 _] _].
    rewrite (proj2 (Z.ltb_lt c.1 b.1)) by (unfold blk_end in *; lia). by rewrite orb_true_r.
Qed.

Lemma scan_skip start end_ acc R :
  start < end_ -> Forall (fun b => 24 <= b.2 /\ end_ < b.1) R ->
  foldl (scan_step start end_) acc R = acc.
Proof.
  intros Hse HR. revert acc. induction HR as [|b R [Hb1 Hb2] HR IH]; intros [[p n] c]; [done|].
  simpl. unfold blk_end. rewrite IH. rewrite (proj2 (Z.eqb_neq (b.1 + b.2) start)) by lia.
  rewrite (proj2 (Z.eqb_neq end_ b.1)) by lia. by rewrite (proj2 (Z.ltb_ge b.1 start)) by lia.
Qed.

Lemma scan_after start end_ p c R :
  start < end_ -> coalesced R -> Forall (fun b => 24 <= b.2 /\ end_ <= b.1) R ->
  foldl (scan_step start end_) (p, 0, c) R = (p, touch_next R end_, c).
Proof.
  intros Hse Hc Hf. destruct R as [|b R]; [done|]. cbn [foldl].
  destruct Hc as [Hb Hc]. apply Forall_cons in Hf as [[Hb1 Hb2] Hf]. rewrite scan_skip; [|done|].
  - unfold scan_step, touch_next. unfold blk_end.
    rewrite (proj2 (Z.eqb_neq (b.1 + b.2) start)) by lia.
    by rewrite (proj2 (Z.ltb_ge b.1 start)) by lia.
  - rewrite Forall_forall in *. intros d Hd. specialize (Hb d Hd). specialize (Hf d Hd).
    unfold blk_end in *. simpl in *. lia.
Qed.

Lemma wp_scan P s L R start size (Q : Z * Z * Z -> HeapAllocator -> Prop) :
  free_list s (L ++ R) -> 0 < size ->
  Forall (fun b => blk_end b <= start) L -> Forall (fun b => start + size <= b.1) R ->
  Q (touch_prev L start, touch_next R (start + size), last_addr 0 L) s ->
  wp P (iter_free_blocks (scan_body start (start + size)) (0, 0, 0)) s Q.
Proof.
  intros Hl Hsz HL HR HQ. pose proof (fl_region _ _ Hl) as Hr. apply Forall_app in Hr as [HrL HrR].
  pose proof (fl_sorted _ _ Hl) as Hs. apply coalesced_app in Hs as (HsL & HsR & _).
  apply (wp_iter P (fun d acc => acc = foldl (scan_step start (start + size)) (0, 0, 0) d) _ _ (L ++ R));
    [done|done| |].
  - intros d b r acc E -> Hb Hld. rewrite foldl_snoc. pose proof Hb as (? & ? & ?). unfold big in *.
    destruct (foldl _ _ _) as [[p n] c]. unfold scan_body, get_size.
    apply wp_bind. apply wp_load_word; [unfold blk_end in *; lia..|]. rewrite Hld.
    pose proof (fl_end _ _ Hl). apply wp_bind, wp_cadd; [unfold blk_end in *; lia|].
    assert (blk_end b <= start \/ start + size <= b.1) as Hpos.
    { assert (b ∈ L ++ R) as Hin by (rewrite E; set_solver). rewrite Forall_forall in HL, HR.
      apply elem_of_app in Hin as [Hin|Hin]; [left; by apply HL|right; by apply HR]. }
    unfold blk_end in *. rewrite (proj2 (Z.eqb_neq b.1 start)) by lia.
    apply wp_bind, wp_assert; [lia|]. by apply wp_ret.
  - intros acc ->. rewrite foldl_app, scan_before, scan_after; try done; try lia.
    + rewrite Forall_forall in *. intros b Hb. split; [by apply HrR|by apply HR].
    + rewrite Forall_forall in *. intros b Hb. split; [by apply HrL|by apply HL].
Qed.
End Loops.
