(* ===== verification/HeapFree.v ===== *)
(** * The heap allocator: freeing a block

    [free_block] puts a block back into the free list, joining it with the
    neighbours it touches: the list stays sound, and covers exactly the
    bytes it covered before plus those of the block. *)
From S2P Require Import Prelude MemLayout PhysPages Heap HeapList.

Import Memory Heap.

(** ** The bytes a list of blocks covers *)
Definition covers (l : list blk) (x : Z) : Prop := Exists (fun b => in_blk b x) l.

Lemma covers_app l1 l2 x : covers (l1 ++ l2) x <-> covers l1 x \/ covers l2 x.
Proof. apply Exists_app. Qed.
Lemma covers_cons b l x : covers (b :: l) x <-> in_blk b x \/ covers l x.
Proof. apply Exists_cons. Qed.
Lemma covers_nil x : covers [] x <-> False.
Proof. apply Exists_nil. Qed.
Lemma covers_elem l b x : b ∈ l -> in_blk b x -> covers l x.
Proof. intros Hb Hx. apply Exists_exists. by exists b. Qed.

Create Rewrite HintDb covers.
#[global] Hint Rewrite covers_app covers_cons covers_nil : covers.

(** Two nonempty blocks without a common byte are disjoint. *)
Lemma disj_bytes b c :
  0 < b.2 -> 0 < c.2 -> (forall x, in_blk b x -> ~ in_blk c x) -> disj b c.
Proof.
  intros Hb Hc H. unfold disj, in_blk, blk_end in *.
  destruct (decide (b.1 + b.2 <= c.1)); [by left|]. destruct (decide (c.1 + c.2 <= b.1)); [by right|].
  destruct (H (Z.max b.1 c.1)); lia.
Qed.

Lemma disj_no_byte b c x : disj b c -> in_blk b x -> ~ in_blk c x.
Proof. unfold disj, in_blk. lia. Qed.

Lemma apart_covers l1 l2 x : apart (l1 ++ l2) -> covers l1 x -> ~ covers l2 x.
Proof.
  intros (_ & _ & H)%apart_app. unfold covers. rewrite !Exists_exists.
  intros (b & Hb & Hx) (c & Hc & Hx'). by apply (disj_no_byte b c x); [apply H|..].
Qed.

(** Disjointness only depends on the bytes covered. *)
Lemma apart_same_bytes l l' u :
  apart (l ++ u) -> apart l' -> Forall (fun b => 0 < b.2) l' -> Forall (fun b => 0 < b.2) u ->
  (forall x, covers l' x -> covers l x) -> apart (l' ++ u).
Proof.
  intros Ha Hl' Hp Hu Hc. apply apart_app. pose proof Ha as (_ & Hau & _)%apart_app.
  split_and!; try done. rewrite Forall_forall in Hp, Hu. intros b c Hb Hcu.
  apply disj_bytes; auto. intros x Hx Hx'.
  apply (apart_covers l u x Ha); [|by eapply covers_elem]. apply Hc. by eapply covers_elem.
Qed.

(** ** Addresses and words of a header *)
Lemma mod16_add a b : a mod 16 = 0 -> b mod 16 = 0 -> (a + b) mod 16 = 0.
Proof. intros Ha Hb. by rewrite Z.add_mod, Ha, Hb. Qed.

Lemma in_hdr b k : big b -> 0 <= k < 24 -> in_blk b (b.1 + k).
Proof. unfold big, in_blk, blk_end. lia. Qed.
Lemma in_hdr0 b : big b -> in_blk b b.1.
Proof. unfold big, in_blk, blk_end. lia. Qed.

(** Stores to the header of [b] are invisible outside [b]. *)
Lemma store_out b m a v x : in_blk b a -> ~ in_blk b x -> load (store m a v) x = load m x.
Proof. intros Ha Hx. apply load_store_ne. by intros ->. Qed.

Ltac hdr := first [apply in_hdr0; done | apply in_hdr; [done|lia]].
Ltac mem_out b := rewrite ?(store_out b) by first [hdr | done | solve [auto]].
Ltac mem_in := rewrite ?load_store_eq; repeat (rewrite load_store_ne by lia); rewrite ?load_store_eq.

Section Free.
Context {T : Type} {provider : PageAllocatorProvider T}.
Implicit Types s : @HeapAllocator T.

(** ** Access to the header of a block of the heap *)
Lemma wp_get_prev P s b (Q : Z -> HeapAllocator -> Prop) :
  in_region s b -> Q (load (memory s) b.1) s -> wp P (get_prev b.1) s Q.
Proof. unfold in_region, big, blk_end. intros H HQ. apply wp_load_word; [lia..|done]. Qed.
Lemma wp_get_size P s b (Q : Z -> HeapAllocator -> Prop) :
  in_region s b -> Q (load (memory s) (b.1 + 16)) s -> wp P (get_size b.1) s Q.
Proof. unfold in_region, big, blk_end. intros H HQ. apply wp_load_word; [lia..|done]. Qed.
Lemma wp_set_prev P s b v (Q : unit -> HeapAllocator -> Prop) :
  in_region s b -> Q tt (set_memory (store (memory s) b.1 v) s) -> wp P (set_prev b.1 v) s Q.
Proof. unfold in_region, big, blk_end. intros H HQ. apply wp_store_word; [lia..|done]. Qed.
Lemma wp_set_next P s b v (Q : unit -> HeapAllocator -> Prop) :
  in_region s b -> Q tt (set_memory (store (memory s) (b.1 + 8) v) s) -> wp P (set_next b.1 v) s Q.
Proof. unfold in_region, big, blk_end. intros H HQ. apply wp_store_word; [lia..|done]. Qed.
Lemma wp_set_size P s b v (Q : unit -> HeapAllocator -> Prop) :
  in_region s b -> Q tt (set_memory (store (memory s) (b.1 + 16) v) s) -> wp P (set_size b.1 v) s Q.
Proof. unfold in_region, big, blk_end. intros H HQ. apply wp_store_word; [lia..|done]. Qed.

(** ** The two link updates *)
Lemma wp_update_prev P s p h R v (Q : unit -> HeapAllocator -> Prop) :
  seg (memory s) p h R 0 -> Forall (in_region s) R -> apart R ->
  (forall m', seg m' v h R 0 -> (forall x, ~ covers R x -> load m' x = load (memory s) x) -> Q tt (set_memory m' s)) ->
  wp P (update_prev h v) s Q.
Proof.
  intros Hs Hr Ha HQ. unfold update_prev. destruct R as [|b R].
  - simpl in Hs. subst h. simpl. apply wp_ret. destruct s. by apply HQ.
  - pose proof Hs as (-> & _). pose proof Hr as Hr'. apply Forall_cons in Hr' as [Hb _].
    rewrite (proj2 (Z.eqb_neq b.1 0)) by (unfold in_region in Hb; lia).
    apply wp_set_prev; [done|]. apply HQ.
    + eapply seg_set_prev; [done| |done]. eapply Forall_impl; [done|]. intros c Hc. apply Hc.
    + intros x Hx. apply load_store_ne. intros ->. apply Hx. apply covers_cons. left.
      unfold in_region, big, in_blk, blk_end in *. lia.
Qed.

Lemma wp_update_next P s L e v (Q : unit -> HeapAllocator -> Prop) :
  seg (memory s) 0 (free_list_addr s) L e -> Forall (in_region s) L -> apart L ->
  (forall m' h', seg m' 0 h' L v -> (forall x, ~ covers L x -> load m' x = load (memory s) x) ->
     Q tt (set_free_list h' (set_memory m' s))) ->
  wp P (update_next (last_addr 0 L) v) s Q.
Proof.
  intros Hs Hr Ha HQ. unfold update_next.
  destruct (last_addr_cases L) as [[-> ->]|(L' & b & -> & ->)].
  - simpl. apply wp_modify. by apply (HQ (memory s) v).
  - pose proof Hr as Hr'. apply Forall_app in Hr' as [_ Hr']. apply Forall_cons in Hr' as [Hb _].
    rewrite (proj2 (Z.eqb_neq b.1 0)) by (unfold in_region in Hb; lia).
    apply wp_set_next; [done|]. destruct s as [h0 t0 f0 a0 b0 c0 m0]. simpl in *.
    apply (HQ (store m0 (b.1 + 8) v) f0).
    + eapply seg_set_next; [done| |done]. eapply Forall_impl; [done|]. intros c Hc. apply Hc.
    + intros x Hx. apply load_store_ne. intros ->. apply Hx. rewrite covers_app, covers_cons. right. left.
      unfold in_region, big, in_blk, blk_end in *. simpl in *. lia.
Qed.

(** ** What freeing achieves *)
Definition same_rest s s' : Prop :=
  heap_start s' = heap_start s /\ total_heap_size s' = total_heap_size s /\
  free_size s' = free_size s /\ used_size s' = used_size s /\ page_allocator s' = page_allocator s.

Record freed s (l : list blk) (f : blk) s' (l' : list blk) : Prop := {
  freed_list : free_list s' l';
  freed_bytes : forall x, covers l' x <-> in_blk f x \/ covers l x;
  freed_total : total l' = total l + f.2;
  freed_fit : exists b, b ∈ l' /\ f.2 <= b.2;
  freed_frame : forall x, ~ in_blk f x -> ~ covers l x -> load (memory s') x = load (memory s) x;
  freed_rest : same_rest s s'
}.

(** The freed block [f] lies between [L] and [R]. *)
Record between s (L : list blk) (f : blk) (R : list blk) : Prop := {
  bt_list : free_list s (L ++ R);
  bt_good : good_blk (heap_start s) (heap_start s + total_heap_size s) f;
  bt_before : Forall (fun b => blk_end b <= f.1) L;
  bt_after : Forall (fun b => blk_end f <= b.1) R
}.

Lemma split_around f l :
  coalesced l -> Forall (disj f) l -> Forall (fun b => 0 < b.2) l -> 0 < f.2 ->
  exists L R, l = L ++ R /\ Forall (fun b => blk_end b <= f.1) L /\ Forall (fun b => blk_end f <= b.1) R.
Proof.
  intros Hc Hd Hp Hf. induction l as [|b l IH]; [by exists [], []|].
  destruct Hc as [Hb Hc]. apply Forall_cons in Hd as [Hdb Hd]. apply Forall_cons in Hp as [Hpb Hp].
  destruct Hdb as [Hdb|Hdb].
  - exists [], (b :: l). split_and!; [done|constructor|]. constructor; [done|].
    eapply Forall_impl; [exact Hb|]. intros c Hc'. unfold blk_end in *. simpl in *. lia.
  - destruct (IH Hc Hd Hp) as (L & R & -> & HL & HR). exists (b :: L), R.
    split_and!; [done|by constructor|done].
Qed.

(** Rebuilding a sound list around a changed middle. *)
Lemma free_list_middle s s' L M R M' :
  free_list s (L ++ M ++ R) -> same_rest s s' ->
  seg (memory s') 0 (free_list_addr s') L (head_addr (M' ++ R) 0) ->
  seg (memory s') (last_addr 0 L) (head_addr (M' ++ R) 0) (M' ++ R) 0 ->
  coalesced M' -> Forall (good_blk (heap_start s) (heap_start s + total_heap_size s)) M' ->
  (forall b c, b ∈ L -> c ∈ M' -> blk_end b < c.1) ->
  (forall b c, b ∈ M' -> c ∈ R -> blk_end b < c.1) ->
  free_list s' (L ++ M' ++ R).
Proof.
  intros [H1 H2 H3 _ H5 H6] (E1 & E2 & _) HsL HsR Hc Hg HL HR.
  apply coalesced_app in H5 as (H5L & H5 & H5LR). apply coalesced_app in H5 as (_ & H5R & _).
  apply Forall_app in H6 as [H6L H6]. apply Forall_app in H6 as [_ H6R].
  split; rewrite ?E1, ?E2; try done.
  - by apply seg_app.
  - apply coalesced_app. split_and!; [done| |].
    + apply coalesced_app. split_and!; done.
    + intros b c Hb Hc'. apply elem_of_app in Hc' as [Hc'|Hc']; [by apply HL|]. apply H5LR; set_solver.
  - rewrite !Forall_app. done.
Qed.

(** The bytes of [L], [f] and [R] are apart. *)
Lemma between_bytes s L f R :
  between s L f R ->
  (forall x, in_blk f x -> ~ covers L x) /\ (forall x, in_blk f x -> ~ covers R x) /\
  (forall x, covers L x -> ~ covers R x) /\ (forall x, covers L x -> ~ in_blk f x) /\
  (forall x, covers R x -> ~ in_blk f x) /\ (forall x, covers R x -> ~ covers L x).
Proof.
  intros Hbt. cut (forall x, (in_blk f x -> ~ covers L x /\ ~ covers R x) /\
    (covers L x -> ~ covers R x /\ ~ in_blk f x)).
  { intros H. split_and!; intros x H1 H2; destruct (H x); tauto. }
  destruct Hbt as [Hl Hg HL HR]. intros x. pose proof (coalesced_apart _ (fl_sorted _ _ Hl)) as Ha.
  pose proof (apart_covers L R x Ha) as HLR. rewrite Forall_forall in HL, HR.
  unfold covers in *. rewrite !Exists_exists in *.
  assert (forall b, b ∈ L -> in_blk b x -> in_blk f x -> False) as H1.
  { intros b Hb Hx Hx'. specialize (HL b Hb). unfold in_blk, blk_end in *. simpl in *. lia. }
  assert (forall b, b ∈ R -> in_blk b x -> in_blk f x -> False) as H2.
  { intros b Hb Hx Hx'. specialize (HR b Hb). unfold in_blk, blk_end in *. simpl in *. lia. }
  naive_solver.
Qed.

Lemma between_region s L f R :
  between s L f R -> in_region s f /\ Forall (in_region s) L /\ Forall (in_region s) R /\
  apart L /\ apart R /\ Forall big L /\ Forall big R.
Proof.
  intros [Hl Hg HL HR]. pose proof (fl_region _ _ Hl) as Hr. apply Forall_app in Hr as [HrL HrR].
  pose proof (coalesced_apart _ (fl_sorted _ _ Hl)) as (HaL & HaR & _)%apart_app.
  split_and!; try done.
  - apply good_region; [apply Hl|done].
  - eapply Forall_impl; [done|]. intros b Hb. apply Hb.
  - eapply Forall_impl; [done|]. intros b Hb. apply Hb.
Qed.

(** A segment survives stores that miss its blocks. *)
Lemma seg_frame_bytes m m' p h l e :
  Forall big l -> (forall x, covers l x -> load m' x = load m x) -> seg m p h l e -> seg m' p h l e.
Proof. intros Hb Hm. apply seg_frame; [done|]. intros b x Hbl Hx. apply Hm. by eapply covers_elem. Qed.

(** [freed] from the state in which the block [b], made of [f] and the
    neighbours [M], is linked on both sides. *)
Lemma freed_middle s s' L M R b f :
  free_list s (L ++ M ++ R) ->
  good_blk (heap_start s) (heap_start s + total_heap_size s) b ->
  Forall (fun c => blk_end c < b.1) L -> Forall (fun c => blk_end b < c.1) R ->
  (forall x, in_blk b x <-> in_blk f x \/ covers M x) -> b.2 = total M + f.2 -> 0 <= total M ->
  same_rest s s' ->
  seg (memory s') 0 (free_list_addr s') L b.1 -> seg (memory s') b.1 (head_addr R 0) R 0 ->
  load (memory s') b.1 = last_addr 0 L -> load (memory s') (b.1 + 8) = head_addr R 0 ->
  load (memory s') (b.1 + 16) = b.2 ->
  (forall x, ~ in_blk b x -> ~ covers L x -> ~ covers R x -> load (memory s') x = load (memory s) x) ->
  freed s (L ++ M ++ R) f s' (L ++ [b] ++ R).
Proof.
  intros Hl Hg HL HR Hbytes Htot Hpos Hrest H1 H2 H3 H4 H5 Hfr. rewrite Forall_forall in HL, HR.
  split; try done.
  - eapply (free_list_middle s s' L M R [b]); simpl; try done.
    + by rewrite H4.
    + by constructor.
    + intros c d Hc ->%list_elem_of_singleton. by apply HL.
    + intros c d ->%list_elem_of_singleton Hc. by apply HR.
  - intros x. autorewrite with covers. rewrite Hbytes. tauto.
  - rewrite !total_app. simpl. lia.
  - exists b. split; [set_solver|lia].
  - intros x Hx. autorewrite with covers. intros Hc. apply Hfr; [rewrite Hbytes|..]; tauto.
Qed.

(** A block that touches no neighbour becomes a list entry of its own. *)
Lemma wp_insert_first P s f R (Q : unit -> HeapAllocator -> Prop) :
  between s [] f R -> Forall (fun b => blk_end f < b.1) R ->
  (forall s', freed s R f s' (f :: R) -> Q tt s') ->
  wp P (insert_alone f.1 0 f.2) s Q.
Proof.
  intros Hbt HR HQ. destruct (between_bytes _ _ _ _ Hbt) as (HfL & HfR & HLR & HLf & HRf & HRL).
  destruct (between_region _ _ _ _ Hbt) as (Hf & HrL & HrR & HaL & HaR & HbL & HbR).
  pose proof (fl_seg _ _ (bt_list _ _ _ _ Hbt)) as Hs. simpl in Hs.
  assert (big f) as Hbf by apply Hf.
  unfold insert_alone. simpl (0 =? 0). cbn match.
  apply wp_bind, wp_set_prev; [done|]. apply wp_bind, wp_get.
  apply wp_bind, wp_set_next; [done|]. apply wp_bind, wp_set_size; [done|].
  apply wp_bind, wp_get_next; [done|]. cbn [memory set_memory free_list_addr]. mem_in.
  apply wp_bind. eapply (wp_update_prev _ _ 0 _ R); [|done|done|].
  - eapply seg_frame_bytes; [done| |exact Hs]. intros x Hx. simpl. apply HRf in Hx. by mem_out f.
  - intros m' Hm' Hfr. apply wp_modify. apply HQ. simpl in Hfr.
    pose proof (seg_head _ _ _ _ _ Hs) as Hh.
    apply (freed_middle s _ [] [] R f f); try done; simpl.
    + apply Hbt.
    + apply Hbt.
    + intros x. autorewrite with covers. tauto.
    + by rewrite <-Hh.
    + rewrite Hfr by (apply HfR; hdr). mem_in. done.
    + rewrite Hfr by (apply HfR; hdr). mem_in. done.
    + rewrite Hfr by (apply HfR; hdr). mem_in. done.
    + intros x Hx _ Hc. rewrite Hfr by done. mem_out f. done.
Qed.

(** The header of a block in the middle of the list. *)
Lemma seg_middle m p h L b R e :
  seg m p h (L ++ b :: R) e ->
  seg m p h L b.1 /\ load m b.1 = last_addr p L /\ load m (b.1 + 16) = b.2 /\
  load m (b.1 + 8) = head_addr R e /\ seg m b.1 (head_addr R e) R e.
Proof.
  rewrite seg_app. simpl. intros (H1 & _ & H2 & H3 & H4). split_and!; try done.
  - by apply (seg_head _ _ _ _ _ H4).
  - by rewrite <-(seg_head _ _ _ _ _ H4).
Qed.

Lemma between_snoc s L c f R :
  between s (L ++ [c]) f R -> free_list s (L ++ [c] ++ R) /\ blk_end c <= f.1 /\
  Forall (fun b => blk_end b < c.1) L /\ in_region s c /\ big c /\
  good_blk (heap_start s) (heap_start s + total_heap_size s) c /\
  (forall x, covers L x -> ~ in_blk c x) /\ (forall x, covers R x -> ~ in_blk c x) /\
  (forall x, in_blk f x -> ~ in_blk c x).
Proof.
  intros Hbt. pose proof Hbt as [Hl Hg HL HR]. destruct (between_bytes _ _ _ _ Hbt) as (_ & _ & HLR & HLf & _).
  destruct (between_region _ _ _ _ Hbt) as (_ & HrL & _ & HaL & _ & HbL & _).
  apply Forall_app in HL as [_ HL]. apply Forall_cons in HL as [HL _].
  apply Forall_app in HrL as [_ HrL]. apply Forall_cons in HrL as [HrL _].
  pose proof (fl_sorted _ _ Hl) as Hs. rewrite <-app_assoc in Hl, Hs.
  apply coalesced_app in Hs as (_ & _ & Hs). split_and!; try done.
  - apply Forall_forall. intros b Hb. apply Hs; [done|set_solver].
  - apply HrL.
  - pose proof (fl_good _ _ Hl) as Hgl. apply Forall_app in Hgl as [_ Hgl].
    by apply Forall_cons in Hgl as [Hgl _].
  - intros x Hx' Hx. apply apart_app in HaL as (_ & _ & HaL).
    unfold covers in Hx'. rewrite Exists_exists in Hx'. destruct Hx' as (b & Hb & Hbx).
    by apply (disj_no_byte b c x); [apply HaL; set_solver|..].
  - intros x Hx' Hx. apply (HLR x); [|done]. autorewrite with covers. tauto.
  - intros x Hx' Hx. apply (HLf x); [|done]. autorewrite with covers. tauto.
Qed.

Lemma wp_merge_prev P s L c f R (Q : unit -> HeapAllocator -> Prop) :
  between s (L ++ [c]) f R -> blk_end c = f.1 -> Forall (fun b => blk_end f < b.1) R ->
  (forall s', freed s ((L ++ [c]) ++ R) f s' (L ++ [(c.1, c.2 + f.2)] ++ R) -> Q tt s') ->
  wp P (merge_prev c.1 f.2) s Q.
Proof.
  intros Hbt Htouch HR HQ. destruct (between_snoc _ _ _ _ _ Hbt) as (Hl & _ & HLc & Hc & Hbc & Hgc & HLc' & HRc & Hfc).
  destruct (between_region _ _ _ _ Hbt) as (Hf & HrL & HrR & HaL & HaR & HbL & HbR).
  apply Forall_app in HbL as [HbL _]. pose proof (fl_end _ _ Hl). pose proof (fl_start _ _ Hl).
  pose proof (bt_good _ _ _ _ Hbt) as Hgf. unfold good_blk, blk_end in Hgf, Hgc, Htouch.
  destruct (seg_middle _ _ _ _ _ _ _ (fl_seg _ _ Hl)) as (H1 & H2 & H3 & H4 & H5).
  unfold merge_prev. apply wp_bind, wp_get_size; [done|]. rewrite H3.
  apply wp_bind, wp_cadd; [lia|]. apply wp_set_size; [done|]. apply HQ. rewrite <-app_assoc.
  assert (forall x, in_blk (c.1, c.2 + f.2) x <-> in_blk f x \/ covers [c] x) as Hbytes.
  { intros x. autorewrite with covers. unfold in_blk, blk_end. simpl. lia. }
  apply freed_middle; try done; simpl; mem_in; try done.
  - unfold good_blk, blk_end; simpl. assert ((c.2 + f.2) mod 16 = 0) by (apply mod16_add; lia). lia.
  - unfold blk_end in *. simpl. eapply Forall_impl; [exact HR|]. simpl. lia.
  - lia.
  - lia.
  - eapply seg_frame_bytes; [done| |done]. intros x Hx. mem_out c. done.
  - eapply seg_frame_bytes; [done| |done]. intros x Hx. mem_out c. done.
  - intros x Hx _ _. rewrite Hbytes in Hx. autorewrite with covers in Hx.
    assert (~ in_blk c x) by tauto. mem_out c. done.
Qed.

Lemma wp_insert_after P s L c f R (Q : unit -> HeapAllocator -> Prop) :
  between s (L ++ [c]) f R -> blk_end c < f.1 -> Forall (fun b => blk_end f < b.1) R ->
  (forall s', freed s ((L ++ [c]) ++ R) f s' ((L ++ [c]) ++ [f] ++ R) -> Q tt s') ->
  wp P (insert_alone f.1 c.1 f.2) s Q.
Proof.
  intros Hbt Hgap HR HQ. destruct (between_snoc _ _ _ _ _ Hbt) as (Hl & _ & HLc & Hc & Hbc & Hgc & HLc' & HRc & Hfc).
  destruct (between_bytes _ _ _ _ Hbt) as (HfL & HfR & HLR & HLf & HRf & HRL).
  destruct (between_region _ _ _ _ Hbt) as (Hf & HrL & HrR & HaL & HaR & HbL & HbR).
  assert (big f) as Hbf by apply Hf. pose proof (fl_seg _ _ (bt_list _ _ _ _ Hbt)) as Hs.
  destruct (seg_middle _ _ _ _ _ _ _ (fl_seg _ _ Hl)) as (_ & _ & _ & H4 & H5).
  apply seg_app in Hs as [Hs1 Hs2]. rewrite last_addr_snoc in Hs2.
  unfold insert_alone. rewrite (proj2 (Z.eqb_neq c.1 0)) by (unfold in_region in Hc; lia).
  apply wp_bind, wp_get_next; [done|]. rewrite H4. apply wp_bind, wp_set_prev; [done|].
  apply wp_bind, wp_set_next; [done|]. apply wp_bind, wp_set_size; [done|].
  apply wp_bind, wp_set_next; [done|]. cbn [memory set_memory].
  assert (forall x, covers R x -> ~ in_blk f x /\ ~ in_blk c x) as HRfc by auto.
  eapply (wp_update_prev _ _ c.1 _ R); [|done|done|].
  { eapply seg_frame_bytes; [done| |exact Hs2]. intros x [Hx1 Hx2]%HRfc. simpl. mem_out c. mem_out f. done. }
  intros m' Hm' Hfr. cbn [memory set_memory] in Hfr. apply HQ.
  assert (f.1 <> c.1 + 8 /\ f.1 + 8 <> c.1 + 8 /\ f.1 + 16 <> c.1 + 8) as (N1 & N2 & N3).
  { unfold big, blk_end in *. lia. }
  apply (freed_middle s _ (L ++ [c]) [] R f f); try done; simpl.
  - apply Hbt.
  - apply Hbt.
  - apply Forall_app. split; [|by constructor]. eapply Forall_impl; [exact HLc|].
    intros b Hb. unfold big, blk_end in *. simpl in *. lia.
  - intros x. autorewrite with covers. tauto.
  - apply (seg_frame_bytes (store (memory s) (c.1 + 8) f.1)); [done| |].
    + intros x Hx. rewrite Hfr by auto. assert (~ in_blk f x) by auto.
      destruct (decide (x = c.1 + 8)) as [->|]; [by rewrite !load_store_eq|].
      rewrite (load_store_ne _ _ x) by done. mem_out f. by rewrite load_store_ne.
    + eapply seg_set_next; done.
  - rewrite Hfr by (apply HfR; hdr). mem_in. by rewrite last_addr_snoc.
  - rewrite Hfr by (apply HfR; hdr). mem_in. done.
  - rewrite Hfr by (apply HfR; hdr). mem_in. done.
  - intros x Hx Hx1 Hx2. autorewrite with covers in Hx1. rewrite Hfr by done.
    assert (~ in_blk c x) by tauto. mem_out c. mem_out f. done.
Qed.

Lemma between_cons s L f n R :
  between s L f (n :: R) -> free_list s (L ++ [n] ++ R) /\ blk_end f <= n.1 /\
  Forall (fun b => blk_end n < b.1) R /\ in_region s n /\ big n /\
  good_blk (heap_start s) (heap_start s + total_heap_size s) n /\
  (forall x, covers L x -> ~ in_blk n x) /\ (forall x, covers R x -> ~ in_blk n x) /\
  (forall x, in_blk f x -> ~ in_blk n x).
Proof.
  intros Hbt. pose proof Hbt as [Hl Hg HL HR]. destruct (between_bytes _ _ _ _ Hbt) as (_ & HfR & HLR & _).
  destruct (between_region _ _ _ _ Hbt) as (_ & _ & HrR & _ & HaR & _ & HbR).
  apply Forall_cons in HR as [HR _]. apply Forall_cons in HrR as [HrR _]. apply Forall_cons in HbR as [HbR _].
  pose proof (fl_sorted _ _ Hl) as Hs. apply coalesced_app in Hs as (_ & [Hs _] & _).
  split_and!; try done.
  - pose proof (fl_good _ _ Hl) as Hgl. apply Forall_app in Hgl as [_ Hgl].
    by apply Forall_cons in Hgl as [Hgl _].
  - intros x Hx' Hx. apply (HLR x); [done|]. autorewrite with covers. tauto.
  - intros x Hx' Hx. apply (apart_covers [n] R x HaR); [|done]. autorewrite with covers. tauto.
  - intros x Hx' Hx. apply (HfR x); [done|]. autorewrite with covers. tauto.
Qed.

Lemma wp_merge_next P s L f n R (Q : unit -> HeapAllocator -> Prop) :
  between s L f (n :: R) -> blk_end f = n.1 -> Forall (fun b => blk_end b < f.1) L ->
  (forall s', freed s (L ++ n :: R) f s' (L ++ [(f.1, n.2 + f.2)] ++ R) -> Q tt s') ->
  wp P (merge_next f.1 n.1 f.2) s Q.
Proof.
  intros Hbt Htouch HL HQ. destruct (between_cons _ _ _ _ _ Hbt) as (Hl & _ & HRn & Hn & Hbn & Hgn & HLn & HRn' & Hfn).
  destruct (between_bytes _ _ _ _ Hbt) as (HfL & HfR & HLR & HLf & HRf & HRL).
  destruct (between_region _ _ _ _ Hbt) as (Hf & HrL & HrR & HaL & HaR & HbL & HbR).
  apply Forall_cons in HrR as [_ HrR]. apply Forall_cons in HbR as [_ HbR]. destruct HaR as [_ HaR].
  assert (big f) as Hbf by apply Hf. pose proof (fl_end _ _ Hl). pose proof (fl_start _ _ Hl).
  pose proof (bt_good _ _ _ _ Hbt) as Hgf. unfold good_blk, blk_end in Hgf, Hgn, Htouch.
  destruct (seg_middle _ _ _ _ _ _ _ (fl_seg _ _ Hl)) as (H1 & H2 & H3 & H4 & H5).
  assert (forall x, covers R x -> covers (n :: R) x) as Hsub by (intros; autorewrite with covers; tauto).
  assert (forall x, in_blk n x -> ~ in_blk f x) as Hnf by (intros x ? ?; by apply (Hfn x)).
  assert (forall k, 0 <= k < 24 -> ~ in_blk f (n.1 + k)) as Hnk by (intros; apply Hnf; hdr).
  assert (~ in_blk f n.1) as Hn0 by (apply Hnf; hdr).
  unfold merge_next. apply wp_bind, wp_get_size; [done|]. rewrite H3.
  apply wp_bind, wp_cadd; [lia|]. apply wp_bind, wp_set_size; [done|]. cbn [memory set_memory].
  apply wp_bind, wp_get_prev; [done|]. cbn [memory set_memory]. mem_out f. rewrite H2.
  apply wp_bind, wp_set_prev; [done|]. apply wp_bind, wp_get_next; [done|]. cbn [memory set_memory].
  assert (~ in_blk f (n.1 + 8)) by (apply Hnk; lia). mem_out f. rewrite H4.
  apply wp_bind, wp_set_next; [done|]. apply wp_bind, wp_get_next; [done|]. cbn [memory set_memory].
  mem_out f. rewrite H4. apply wp_bind.
  eapply (wp_update_prev _ _ n.1 _ R); [|done|done|].
  { eapply seg_frame_bytes; [done| |exact H5]. intros x Hx. simpl. assert (~ in_blk f x) by auto. by mem_out f. }
  intros m' Hm' Hfr. cbn [memory set_memory] in Hfr. apply wp_bind, wp_get_prev; [done|].
  cbn [memory set_memory]. rewrite Hfr by (intros Hx; apply (HRn' _ Hx); hdr). mem_out f. rewrite H2.
  eapply (wp_update_next _ _ L n.1); [|done|done|].
  { cbn. eapply seg_frame_bytes; [done| |exact H1]. intros x Hx.
    assert (~ in_blk f x) by auto. rewrite Hfr by (intros ?; apply (HLR x); auto). by mem_out f. }
  intros m2 h2 Hm2 Hfr2. cbn [memory set_memory] in Hfr2. apply HQ.
  assert (forall x, in_blk (f.1, n.2 + f.2) x <-> in_blk f x \/ covers [n] x) as Hbytes.
  { intros x. autorewrite with covers. unfold in_blk, blk_end. simpl. lia. }
  apply (freed_middle s _ L [n] R); try done; simpl.
  - unfold good_blk, blk_end; simpl. assert ((n.2 + f.2) mod 16 = 0) by (apply mod16_add; lia). lia.
  - unfold blk_end in *. simpl. eapply Forall_impl; [exact HRn|]. simpl. lia.
  - lia.
  - lia.
  - eapply seg_frame_bytes; [done| |exact Hm']. intros x Hx. apply Hfr2. auto.
  - rewrite Hfr2, Hfr by first [apply HfL; hdr|intros ?%Hsub; eapply HfR; [|done]; hdr]. by mem_in.
  - rewrite Hfr2, Hfr by first [apply HfL; hdr|intros ?%Hsub; eapply HfR; [|done]; hdr]. by mem_in.
  - rewrite Hfr2, Hfr by first [apply HfL; hdr|intros ?%Hsub; eapply HfR; [|done]; hdr]. by mem_in.
  - intros x Hx Hx1 Hx2. rewrite Hbytes in Hx. autorewrite with covers in Hx.
    assert (~ in_blk f x) by tauto. rewrite Hfr2, Hfr by done. by mem_out f.
Qed.

Lemma wp_merge_both P s L c f n R (Q : unit -> HeapAllocator -> Prop) :
  between s (L ++ [c]) f (n :: R) -> blk_end c = f.1 -> blk_end f = n.1 ->
  (forall s', freed s ((L ++ [c]) ++ n :: R) f s' (L ++ [(c.1, c.2 + (f.2 + n.2))] ++ R) -> Q tt s') ->
  wp P (merge_both c.1 n.1 f.2) s Q.
Proof.
  intros Hbt Htc Htn HQ. destruct (between_snoc _ _ _ _ _ Hbt) as (Hl & _ & HLc & Hc & Hbc & Hgc & HLc' & HRc & Hfc).
  destruct (between_cons _ _ _ _ _ Hbt) as (Hl' & _ & HRn & Hn & Hbn & Hgn & HLn & HRn' & Hfn).
  destruct (between_bytes _ _ _ _ Hbt) as (HfL & HfR & HLR & HLf & HRf & HRL).
  destruct (between_region _ _ _ _ Hbt) as (Hf & HrL & HrR & HaL & HaR & HbL & HbR).
  apply Forall_cons in HrR as [_ HrR]. apply Forall_cons in HbR as [_ HbR]. destruct HaR as [_ HaR].
  pose proof (fl_end _ _ Hl). pose proof (fl_start _ _ Hl).
  pose proof (bt_good _ _ _ _ Hbt) as Hgf. unfold good_blk, blk_end in Hgf, Hgn, Hgc, Htc, Htn.
  assert (forall x, covers R x -> covers (n :: R) x) as Hsub by (intros; autorewrite with covers; tauto).
  destruct (seg_middle _ _ _ _ _ _ _ (fl_seg _ _ Hl)) as (Hc1 & Hc2 & Hc3 & Hc4 & _).
  destruct (seg_middle _ _ _ _ _ _ _ (fl_seg _ _ Hl')) as (Hn1 & Hn2 & Hn3 & Hn4 & Hn5).
  rewrite last_addr_snoc in Hn2.
  assert (forall k, 0 <= k < 24 -> ~ in_blk c (n.1 + k)) as Hnc.
  { intros k Hk. unfold in_blk, blk_end. lia. }
  assert (forall k, 0 <= k < 24 -> ~ covers R (n.1 + k)) as HnR.
  { intros k Hk Hx. apply (HRn' _ Hx). hdr. }
  assert (forall k, 0 <= k < 24 -> ~ covers R (c.1 + k)) as HcR.
  { intros k Hk Hx%Hsub. apply (HRc _ Hx). hdr. }
  pose proof (Hnc 0 ltac:(lia)) as Hnc0. pose proof (HnR 0 ltac:(lia)) as HnR0.
  pose proof (HcR 0 ltac:(lia)) as HcR0. rewrite Z.add_0_r in Hnc0, HnR0, HcR0.
  unfold merge_both. apply wp_bind, wp_get_size; [done|]. rewrite Hc3.
  apply wp_bind, wp_get_size; [done|]. rewrite Hn3.
  apply wp_bind, wp_cadd; [lia|]. apply wp_bind, wp_cadd; [lia|].
  apply wp_bind, wp_set_size; [done|]. apply wp_bind, wp_get_next; [done|]. cbn [memory set_memory].
  rewrite (store_out c) by first [hdr|apply Hnc; lia]. rewrite Hn4.
  apply wp_bind. eapply (wp_update_prev _ _ n.1 _ R); [|done|done|].
  { eapply seg_frame_bytes; [done| |exact Hn5]. intros x Hx%Hsub. simpl. by mem_out c. }
  intros m' Hm' Hfr. cbn [memory set_memory] in Hfr. apply wp_bind, wp_get_prev; [done|].
  cbn [memory set_memory]. rewrite Hfr by done. mem_out c. rewrite Hn2.
  apply wp_bind. unfold update_next. rewrite (proj2 (Z.eqb_neq c.1 0)) by (unfold in_region in Hc; lia).
  apply wp_set_next; [done|]. apply wp_bind, wp_get_next; [done|]. cbn [memory set_memory].
  rewrite (store_out c) by first [hdr|apply Hnc; lia]. rewrite Hfr by (apply HnR; lia).
  rewrite (store_out c) by first [hdr|apply Hnc; lia]. rewrite Hn4.
  apply wp_set_next; [done|]. apply HQ. rewrite <-app_assoc.
  assert (forall x, in_blk (c.1, c.2 + (f.2 + n.2)) x <-> in_blk f x \/ covers [c; n] x) as Hbytes.
  { intros x. autorewrite with covers. unfold in_blk, blk_end. simpl. lia. }
  apply (freed_middle s _ L [c; n] R); try done; simpl; mem_in; try done.
  - unfold good_blk, blk_end; simpl.
    assert ((c.2 + (f.2 + n.2)) mod 16 = 0) by (repeat apply mod16_add; lia). lia.
  - unfold blk_end in *. simpl. eapply Forall_impl; [exact HRn|]. simpl. lia.
  - lia.
  - lia.
  - eapply seg_frame_bytes; [by apply Forall_app in HbL as [HbL _]| |exact Hc1]. intros x Hx. mem_out c.
    assert (covers (L ++ [c]) x) by (autorewrite with covers; tauto).
    rewrite Hfr by (intros ?%Hsub; by apply (HLR x)). by mem_out c.
  - eapply seg_frame_bytes; [done| |exact Hm']. intros x Hx%Hsub. by mem_out c.
  - rewrite Hfr by done. by mem_in.
  - rewrite Hfr by (apply HcR; lia). by mem_in.
  - intros x Hx Hx1 Hx2. rewrite Hbytes in Hx. autorewrite with covers in Hx.
    assert (~ in_blk c x) by tauto. mem_out c. rewrite Hfr by done. by mem_out c.
Qed.

(** ** [free_block] *)
Lemma touch_prev_cases L start :
  Forall (fun b => blk_end b <= start) L -> coalesced L -> Forall (fun b => b.1 <> 0) L -> Forall big L ->
  (exists L' c, L = L' ++ [c] /\ touch_prev L start = c.1 /\ c.1 <> 0 /\ blk_end c = start) \/
  (touch_prev L start = 0 /\ Forall (fun b => blk_end b < start) L).
Proof.
  intros HL Hc Hnz Hb. destruct L as [|c L' _] using rev_ind; [by right|].
  unfold touch_prev. rewrite last_snoc. apply Forall_app in HL as [HL HLc].
  apply Forall_cons in HLc as [HLc _]. apply Forall_app in Hnz as [_ Hnz]. apply Forall_cons in Hnz as [Hnz _].
  apply Forall_app in Hb as [_ Hb]. apply Forall_cons in Hb as [Hb _].
  destruct (Z.eqb_spec (blk_end c) start) as [E|E]; [left; by exists L', c|right].
  split; [done|]. apply coalesced_app in Hc as (_ & _ & Hc). apply Forall_app. split.
  - apply Forall_forall. intros b Hb'. specialize (Hc b c Hb' ltac:(set_solver)).
    unfold big, blk_end in *. lia.
  - constructor; [lia|done].
Qed.

Lemma touch_next_cases R end_ :
  Forall (fun b => end_ <= b.1) R -> coalesced R -> Forall (fun b => b.1 <> 0) R -> Forall big R ->
  (exists n R', R = n :: R' /\ touch_next R end_ = n.1 /\ n.1 <> 0 /\ end_ = n.1) \/
  (touch_next R end_ = 0 /\ Forall (fun b => end_ < b.1) R).
Proof.
  intros HR Hc Hnz Hb. destruct R as [|n R']; [by right|]. simpl.
  destruct Hc as [Hc _]. apply Forall_cons in HR as [HR _]. apply Forall_cons in Hnz as [Hnz _].
  apply Forall_cons in Hb as [Hb _].
  destruct (Z.eqb_spec end_ n.1) as [E|E]; [left; by exists n, R'|right].
  split; [done|]. constructor; [lia|]. eapply Forall_impl; [exact Hc|].
  intros b Hb'. unfold big, blk_end in *. simpl in *. lia.
Qed.

(** Freeing a block of the heap that is disjoint from the free list never
    panics, and puts exactly its bytes back. *)
Lemma wp_free_block P s l f (Q : unit -> HeapAllocator -> Prop) :
  free_list s l -> good_blk (heap_start s) (heap_start s + total_heap_size s) f ->
  Forall (disj f) l -> (forall s' l', freed s l f s' l' -> Q tt s') ->
  wp P (free_block f.1 f.2) s Q.
Proof.
  intros Hl Hg Hd HQ. pose proof (fl_region _ _ Hl) as Hr.
  assert (Forall (fun b => 0 < b.2) l) as Hpos.
  { eapply Forall_impl; [exact Hr|]. intros b (_ & _ & Hb). unfold big in Hb. lia. }
  pose proof Hg as (_ & _ & Hf & Hf1 & Hf2). pose proof (fl_end _ _ Hl). unfold blk_end in Hf2.
  destruct (split_around f l (fl_sorted _ _ Hl) Hd Hpos ltac:(lia)) as (L & R & -> & HL & HR).
  assert (between s L f R) as Hbt by done.
  destruct (between_region _ _ _ _ Hbt) as (_ & HrL & HrR & _ & _ & HbL & HbR).
  pose proof (fl_sorted _ _ Hl) as (HsL & HsR & _)%coalesced_app.
  assert (forall b, in_region s b -> b.1 <> 0) as Hnz by (unfold in_region; lia).
  assert (Forall (fun b => b.1 <> 0) L) as HzL by (eapply Forall_impl; [exact HrL|exact Hnz]).
  assert (Forall (fun b => b.1 <> 0) R) as HzR by (eapply Forall_impl; [exact HrR|exact Hnz]).
  unfold free_block. apply wp_bind, wp_get. apply wp_bind, wp_cadd; [lia|].
  apply wp_bind, wp_assert; [lia|]. apply wp_bind, wp_cadd; [lia|]. apply wp_bind, wp_assert; [lia|].
  apply wp_bind. apply (wp_scan P s L R f.1 f.2); [done|lia|done|done|]. fold (blk_end f).
  destruct (touch_prev_cases L f.1) as [(L' & c & -> & -> & Hcz & Ec)|(-> & HL')];
    [done|done|done|done|..];
  (destruct (touch_next_cases R (blk_end f)) as [(n & R' & -> & -> & Hnz' & En)|(-> & HR')];
    [done|done|done|done|..]);
  rewrite ?(proj2 (Z.eqb_neq _ _) Hcz), ?(proj2 (Z.eqb_neq _ _) Hnz'), ?Z.eqb_refl; cbn [negb andb].
  - eapply wp_merge_both; eauto.
  - eapply wp_merge_prev; eauto.
  - eapply wp_merge_next; eauto.
  - destruct (last_addr_cases L) as [[-> ->]|(L' & c & -> & ->)].
    + eapply wp_insert_first; eauto.
    + apply Forall_app in HL' as [_ HL']. apply Forall_cons in HL' as [HL' _].
      eapply wp_insert_after; eauto.
Qed.
End Free.

(** * The heap allocator: invariant, growing and searching

    The state of the allocator as a set of live (allocated) blocks and the
    free list: together they are disjoint and account for every byte of the
    heap.  Growing the heap and finding a block preserve this. *)
Import Memory Heap.

(** ** Allocated blocks *)
Record Used : Type := mkUsed { ubase : Z; usize : Z; uoff : Z; ulayout : Layout }.
Definition ublk (u : Used) : blk := (ubase u, usize u).
Definition uptr (u : Used) : Z := ubase u + uoff u.

(** The info header the allocator wrote in front of the pointer. *)
Definition header (m : mem) (u : Used) : Prop :=
  load m (uptr u - 32) mod 2 ^ 32 = HEAP_MAGIC /\
  load m (uptr u - 24) = usize u /\ load m (uptr u - 16) = uoff u.

(** The block meets its layout. *)
Definition fits (u : Used) : Prop :=
  32 <= uoff u /\ uoff u mod 16 = 0 /\ uptr u mod lalign (ulayout u) = 0 /\
  0 <= lsize (ulayout u) /\ uoff u + lsize (ulayout u) <= usize u /\
  exists w o, whole_size (ulayout u) 16 = Ret (w, o) /\ w <= usize u.

Section Inv.
Context {T : Type} {provider : PageAllocatorProvider T} {laws : IncreasingProvider T}.
Implicit Types s : @HeapAllocator T.

Definition region_blk s : blk -> Prop := good_blk (heap_start s) (heap_start s + total_heap_size s).

(** A heap that has been given memory. *)
Record live s (l : list blk) (U : list Used) : Prop := {
  lv_list : free_list s l;
  lv_pos : 0 < total_heap_size s;
  lv_provider : provider_ok (page_allocator s);
  lv_base : base_page (page_allocator s) = heap_start s;
  lv_next : next_page (page_allocator s) = heap_start s + total_heap_size s;
  lv_good : Forall (region_blk s) (map ublk U);
  lv_apart : apart (l ++ map ublk U);
  lv_free : free_size s = total l;
  lv_used : used_size s = total (map ublk U);
  lv_sum : free_size s + used_size s = total_heap_size s;
  lv_header : Forall (header (memory s)) U;
  lv_fits : Forall fits U
}.

(** A heap that has no memory yet. *)
Definition fresh s : Prop :=
  total_heap_size s = 0 /\ free_list_addr s = 0 /\ free_size s = 0 /\ used_size s = 0 /\
  next_page (page_allocator s) = base_page (page_allocator s) /\ provider_ok (page_allocator s).

Definition Inv s (l : list blk) (U : list Used) : Prop :=
  (fresh s /\ l = [] /\ U = []) \/ live s l U.

Lemma new_inv t m : provider_ok t -> next_page t = base_page t -> Inv (new t m) [] [].
Proof. intros H Hb. left. done. Qed.

(** ** Provider calls *)
Lemma wp_provider_pages P s n (Q : Z -> HeapAllocator -> Prop) :
  provider_ok (page_allocator s) -> 0 < n ->
  (P \/ available n (page_allocator s)) ->
  (forall t, provider_ok t -> next_page t = next_page (page_allocator s) + n * PAGE_4K ->
     base_page t = base_page (page_allocator s) ->
     Q (next_page (page_allocator s)) (set_pages t s)) ->
  wp P (provider_pages n) s Q.
Proof.
  intros Hok Hn HP HQ. unfold provider_pages. apply wp_bind, wp_get.
  unfold wp, mbind, ST_bind, lift.
  destruct (allocate_pages n (page_allocator s)) as [[[a|] t]| |] eqn:E; simpl.
  - destruct (allocate_pages_some _ _ _ _ Hok Hn E) as (Ht & -> & Hnext & Hbase). by apply HQ.
  - destruct HP as [HP|Hav]; [done|].
    destruct (allocate_pages_available _ _ Hok Hn Hav) as (a & t' & E'). congruence.
  - destruct HP as [HP|Hav]; [done|].
    destruct (allocate_pages_available _ _ Hok Hn Hav) as (a & t' & E'). congruence.
  - by apply (allocate_pages_total _ _ Hok Hn).
Qed.

(** ** Growing *)
Lemma good_mono lo hi hi' b : hi <= hi' -> good_blk lo hi b -> good_blk lo hi' b.
Proof. unfold good_blk. lia. Qed.

Lemma header_frame m m' u :
  32 <= uoff u <= usize u -> (forall x, in_blk (ublk u) x -> load m' x = load m x) ->
  header m u -> header m' u.
Proof.
  intros Hu Hm. unfold header, uptr.
  assert (forall k, 0 < k <= 32 -> load m' (ubase u + uoff u - k) = load m (ubase u + uoff u - k)) as E.
  { intros k Hk. apply Hm. unfold in_blk, blk_end, ublk. simpl. lia. }
  by rewrite !E by lia.
Qed.

(** What every operation keeps of the live blocks. *)
Definition keeps s s' (U : list Used) : Prop :=
  forall x, covers (map ublk U) x -> load (memory s') x = load (memory s) x.

Lemma fits_bounds u : fits u -> 32 <= uoff u <= usize u.
Proof. unfold fits. lia. Qed.

Lemma headers_keep s s' U :
  Forall fits U -> keeps s s' U -> Forall (header (memory s)) U -> Forall (header (memory s')) U.
Proof.
  intros Hf Hk Hh. rewrite Forall_forall in *. intros u Hu.
  eapply header_frame; [by apply fits_bounds, Hf| |by apply Hh].
  intros x Hx. apply Hk. eapply covers_elem; [|done]. by apply list_elem_of_fmap_2.
Qed.

Lemma total_nonneg l : Forall (fun b => 0 < b.2) l -> 0 <= total l.
Proof. induction 1; simpl; lia. Qed.

Lemma good_pos lo hi l : Forall (good_blk lo hi) l -> Forall (fun b => 0 < b.2) l.
Proof. intros H. eapply Forall_impl; [exact H|]. unfold good_blk. lia. Qed.

(** The first block of an empty list, without a search. *)
Lemma wp_first_block P s f (Q : unit -> HeapAllocator -> Prop) :
  free_list s [] -> region_blk s f -> (forall s', freed s [] f s' [f] -> Q tt s') ->
  wp P (_ ← set_prev f.1 0; _ ← set_next f.1 0; _ ← set_size f.1 f.2;
        modify (set_free_list f.1)) s Q.
Proof.
  intros Hl Hg HQ. assert (in_region s f) as Hf by (apply good_region; [apply Hl|done]).
  assert (big f) as Hb by apply Hf. pose proof Hl as [H1 H2 H3 H4 H5 H6]. simpl in H4.
  apply wp_bind, wp_set_prev; [done|]. apply wp_bind, wp_set_next; [done|].
  apply wp_bind, wp_set_size; [done|]. apply wp_modify. apply HQ.
  apply (freed_middle s _ [] [] [] f f); try done; simpl.
  - intros x. autorewrite with covers. tauto.
  - by mem_in.
  - by mem_in.
  - by mem_in.
  - intros x Hx _ _. by mem_out f.
Qed.

Lemma wp_add_free P s l f (Q : unit -> HeapAllocator -> Prop) :
  free_list s l -> region_blk s f -> Forall (disj f) l ->
  (forall s' l', freed s l f s' l' -> Q tt s') ->
  wp P (if free_list_addr s =? 0
        then _ ← set_prev f.1 0; _ ← set_next f.1 0; _ ← set_size f.1 f.2; modify (set_free_list f.1)
        else free_block f.1 f.2) s Q.
Proof.
  intros Hl Hg Hd HQ. destruct (Z.eqb_spec (free_list_addr s) 0) as [E|E].
  - assert (l = []) as ->. { eapply seg_not_null; [apply Hl|by apply fl_region|done]. }
    apply wp_first_block; eauto.
  - eapply wp_free_block; eauto.
Qed.

(** Accounting after the pages were added to the list. *)
Lemma live_after_growth s l U f s1 l1 :
  region_blk s f -> freed s l f s1 l1 -> 0 < total_heap_size s ->
  provider_ok (page_allocator s) -> base_page (page_allocator s) = heap_start s ->
  next_page (page_allocator s) = heap_start s + total_heap_size s ->
  Forall (region_blk s) (map ublk U) -> apart (f :: l ++ map ublk U) -> Forall fits U ->
  Forall (header (memory s)) U ->
  free_size s = total l -> used_size s = total (map ublk U) ->
  total l + f.2 + used_size s = total_heap_size s ->
  live (set_sizes (free_size s1 + f.2) (used_size s1) s1) l1 U /\ keeps s s1 U.
Proof.
  intros Hg Hfr Hpos Hok Hbase Hnext HU Ha Hfits Hh Hfree Hused Hsum.
  destruct Hfr as [Hl Hby Htot _ Hframe (E1 & E2 & E3 & E4 & E5)].
  assert (keeps s s1 U) as Hk.
  { intros x Hx. change (f :: l ++ map ublk U) with ((f :: l) ++ map ublk U) in Ha.
    assert (~ covers (f :: l) x) as Hn by (intros ?; by apply (apart_covers _ _ x Ha)).
    autorewrite with covers in Hn. apply Hframe; tauto. }
  split; [|done]. split; simpl; try done; try lia.
  - destruct Hl. split; done.
  - by rewrite E5.
  - by rewrite E5, E1.
  - by rewrite E5, E1, E2.
  - unfold region_blk in *. simpl. by rewrite E1, E2.
  - apply (apart_same_bytes (f :: l)); try done.
    + apply coalesced_apart, Hl.
    + eapply good_pos, (fl_good _ _ Hl).
    + by eapply good_pos.
    + intros x Hx%Hby. autorewrite with covers. done.
  - by eapply headers_keep.
Qed.

Lemma free_list_grow s l hs tot t :
  free_list s l -> hs = heap_start s -> total_heap_size s <= tot -> hs + tot < 2 ^ 64 - 2 ^ 12 ->
  free_list (set_region hs tot (set_pages t s)) l.
Proof.
  intros [H1 H2 H3 H4 H5 H6] -> Htot Hend. split; simpl; try done; try lia.
  eapply Forall_impl; [exact H6|]. intros b. apply good_mono. lia.
Qed.

(** The state between the provider's answer and the list update. *)
Lemma grow_prepare s l U n t :
  Inv s l U -> 0 < n -> provider_ok t ->
  next_page t = next_page (page_allocator s) + n * PAGE_4K -> base_page t = base_page (page_allocator s) ->
  let a := next_page (page_allocator s) in
  let hs := if total_heap_size s =? 0 then a else heap_start s in
  let s1 := set_region hs (total_heap_size s + n * PAGE_4K) (set_pages t s) in
  free_list s1 l /\ region_blk s1 (a, n * PAGE_4K) /\ 0 < total_heap_size s1 /\
  base_page t = heap_start s1 /\ next_page t = heap_start s1 + total_heap_size s1 /\
  Forall (region_blk s1) (map ublk U) /\ apart ((a, n * PAGE_4K) :: l ++ map ublk U) /\
  Forall (header (memory s1)) U /\ Forall fits U /\
  free_size s1 = total l /\ used_size s1 = total (map ublk U) /\
  total l + n * PAGE_4K + used_size s1 = total_heap_size s1.
Proof.
  intros HI Hn Ht Hnext Hbase a hs s1.
  destruct (next_page_ok t Ht) as [Hb _]. rewrite Hnext in Hb.
  assert (provider_ok (page_allocator s)) as Hok.
  { destruct HI as [[(_ & _ & _ & _ & _ & H) _]|H]; [done|apply H]. }
  destruct (next_page_ok _ Hok) as [Hb0 Hal]. fold a in Hb, Hb0, Hal, Hnext.
  assert (a mod 16 = 0) as Ha16.
  { apply Z.mod_divide; [done|]. apply Z.mod_divide in Hal; [|done]. etransitivity; [|exact Hal]. by exists 256. }
  assert ((n * PAGE_4K) mod 16 = 0) as Hn16.
  { apply Z.mod_divide; [done|]. exists (n * 256). unfold PAGE_4K. lia. }
  destruct HI as [((E1 & E2 & E3 & E4 & E5 & _) & -> & ->)|[L1 L2 L3 Lb L4 L5 L6 L7 L8 L9 L10 L11]].
  - subst hs. unfold s1, region_blk, good_blk, blk_end. rewrite E1 in *. simpl.
    unfold PAGE_4K in *. split_and!; try done; try lia. split; simpl; try done; lia.
  - fold a in L4. subst hs. unfold s1. rewrite (proj2 (Z.eqb_neq _ 0)) by lia. simpl.
    unfold PAGE_4K in *. unfold region_blk in *. simpl.
    assert (forall b, good_blk (heap_start s) (heap_start s + total_heap_size s) b ->
      disj (a, n * 4096) b) as Hd.
    { intros b Hb'. right. unfold good_blk in Hb'. simpl. lia. }
    split_and!; try done; try lia.
    + apply free_list_grow; [done|done|lia|lia].
    + unfold good_blk, blk_end. simpl. pose proof (fl_total _ _ L1). lia.
    + eapply Forall_impl; [exact L5|]. intros b. apply good_mono. lia.
    + apply Forall_app. split; (eapply Forall_impl; [|exact Hd]); [apply L1|exact L5].
Qed.

(** Growing by [n] pages keeps the live blocks and leaves a free block of
    at least that size. *)
Lemma wp_allocate_more P s l U n (Q : unit -> HeapAllocator -> Prop) :
  Inv s l U -> 0 < n -> (P \/ available n (page_allocator s)) ->
  (forall s' l', live s' l' U -> keeps s s' U -> (exists b, b ∈ l' /\ n * PAGE_4K <= b.2) -> Q tt s') ->
  wp P (allocate_more_pages n) s Q.
Proof.
  intros HI Hn HP HQ.
  assert (provider_ok (page_allocator s)) as Hok.
  { destruct HI as [[(_ & _ & _ & _ & _ & H) _]|H]; [done|apply H]. }
  unfold allocate_more_pages. apply wp_bind, wp_assert; [lia|]. apply wp_bind, wp_get.
  apply wp_bind, wp_provider_pages; [done|done|done|]. intros t Ht Hnext Hbase.
  destruct (grow_prepare s l U n t HI Hn Ht Hnext Hbase) as (G1 & G2 & G3 & Gb & G4 & G5 & G6 & G7 & G8 & G9 & G10 & G11).
  destruct (next_page_ok _ Hok) as [Hb0 _]. destruct (next_page_ok _ Ht) as [Hb1 _].
  assert (0 <= total_heap_size s) as Htot0.
  { destruct HI as [[(H & _) _]|H]; [lia|]. destruct H. lia. }
  set (s1 := set_region (if total_heap_size s =? 0 then next_page (page_allocator s) else heap_start s)
    (total_heap_size s + n * PAGE_4K) (set_pages t s)) in *.
  apply wp_bind. unfold when.
  eapply (wp_mono _ _ _ (fun _ s' => s' = set_region (heap_start s1) (total_heap_size s) (set_pages t s))).
  { destruct (Z.eqb_spec (total_heap_size s) 0); [by apply wp_modify|]. apply wp_ret. by destruct s. }
  intros [] ? ->. pose proof (fl_end _ _ G1). pose proof (fl_start _ _ G1).
  apply wp_bind, wp_cmul; [lia|]. apply wp_bind, wp_get.
  apply wp_bind, wp_cadd; [simpl in *; lia|]. apply wp_bind, wp_put. apply wp_bind, wp_get.
  apply wp_bind. change (set_region _ _ _) with s1.
  apply (wp_add_free P s1 l (next_page (page_allocator s), n * PAGE_4K)); [done|done| |].
  { apply apart_cons in G6 as [G6 _]. by apply Forall_app in G6 as [G6 _]. }
  intros s2 l2 Hfr. destruct (live_after_growth s1 l U _ s2 l2 G2 Hfr) as [Hlive Hk]; try done.
  pose proof (freed_rest _ _ _ _ _ Hfr) as (_ & _ & E3 & _).
  apply wp_bind, wp_get. apply wp_bind, wp_cadd.
  { rewrite E3, G9. simpl in G10, G11 |- *. pose proof (lv_used _ _ _ Hlive).
    pose proof (total_nonneg _ (good_pos _ _ _ G5)). simpl in *. lia. }
  apply wp_put. eapply HQ; [exact Hlive|exact Hk|apply Hfr].
Qed.

(** ** Searching *)

(** Best fit: when some free block is large enough, the search returns the
    smallest such block and changes nothing. *)
Lemma wp_get_free_live P fuel s l U size (Q : Z -> HeapAllocator -> Prop) :
  live s l U -> 0 <= size -> (exists b, b ∈ l /\ size <= b.2) ->
  (forall b, b ∈ l -> size <= b.2 -> (forall c, c ∈ l -> size <= c.2 -> b.2 <= c.2) -> Q b.1 s) ->
  wp P (get_free_block (S fuel) size) s Q.
Proof.
  intros Hlv Hsz (b0 & Hb0 & Hs0) HQ. simpl. apply wp_bind, wp_get.
  pose proof (lv_pos _ _ _ Hlv). rewrite (proj2 (Z.eqb_neq _ 0)) by lia.
  pose proof (fl_region _ _ (lv_list _ _ _ Hlv)) as Hr. rewrite Forall_forall in Hr.
  apply wp_bind, (wp_best_fit P s l size); [apply Hlv|done| |].
  - intros Hn. rewrite Forall_forall in Hn. specialize (Hn b0 Hb0). simpl in Hn. lia.
  - intros b Hb Hs Hmin. rewrite (proj2 (Z.eqb_neq b.1 0)).
    + apply wp_ret. auto.
    + specialize (Hr b Hb). unfold in_region in Hr. lia.
Qed.

(** The pages a request of [size] bytes may need. *)
Definition pages_for (size : Z) : Z := round_up size PAGE_4K / PAGE_4K.

Lemma pages_for_spec size : 0 < size ->
  0 < pages_for size /\ pages_for size * PAGE_4K = round_up size PAGE_4K /\ size <= round_up size PAGE_4K.
Proof.
  intros H. destruct (round_up_spec size PAGE_4K) as [Hb Hm]; [done|]. unfold pages_for.
  pose proof (Z.div_mod (round_up size PAGE_4K) PAGE_4K ltac:(done)) as Hd. rewrite Hm in Hd.
  unfold PAGE_4K in *. lia.
Qed.

(** In every other case the heap grows once and the search succeeds. *)
Lemma wp_get_free P fuel s l U size (Q : Z -> HeapAllocator -> Prop) :
  Inv s l U -> 0 < size -> size + PAGE_4K < 2 ^ 64 ->
  (P \/ available (pages_for size) (page_allocator s)) ->
  (forall s' l' b, live s' l' U -> keeps s s' U -> b ∈ l' -> size <= b.2 -> Q b.1 s') ->
  wp P (get_free_block (S (S fuel)) size) s Q.
Proof.
  intros HI Hsz Hbig HP HQ. destruct (pages_for_spec size Hsz) as (Hp1 & Hp2 & Hp3).
  assert (wp P (size0 ← lift (align_up size PAGE_4K);
                _ ← allocate_more_pages (size0 / PAGE_4K); get_free_block (S fuel) size0) s Q) as Hgrow.
  { apply wp_bind. eapply wp_lift_ret; [apply align_up_eq; [apply pow2_PAGE_4K|lia|lia]|].
    apply wp_bind, (wp_allocate_more P s l U); [done|done|done|].
    intros s' l' Hlv Hk Hfit. fold (pages_for size) in Hfit. rewrite Hp2 in Hfit.
    eapply wp_get_free_live; [done|lia|done|]. intros b Hb Hs _. eapply HQ; [done|done|done|lia]. }
  destruct HI as [((E & _) & _)|Hlv].
  - cbn [get_free_block]. apply wp_bind, wp_get. by rewrite E.
  - destruct (decide (Exists (fun b => size <= b.2) l)) as [Hex|Hnex].
    + apply Exists_exists in Hex. eapply wp_get_free_live; [done|lia|done|].
      intros b Hb Hs _. eapply HQ; done.
    + remember (S fuel) as fuel' eqn:Ef. cbn [get_free_block]. apply wp_bind, wp_get.
      pose proof (lv_pos _ _ _ Hlv). rewrite (proj2 (Z.eqb_neq _ 0)) by lia.
      apply wp_bind, (wp_best_fit P s l size); [apply Hlv|lia|done|].
      intros b Hb Hs _. destruct Hnex. apply Exists_exists. by exists b.
Qed.
End Inv.
