(* ===== verification/HeapAlloc.v ===== *)
(** * The heap allocator: allocation and deallocation

    The specifications of [alloc] and [dealloc], and what they mean for
    every program that uses the allocator. *)
From S2P Require Import Prelude MemLayout PhysPages Heap HeapList HeapFree.
Import Memory Heap LayoutOps.

Section Take.
Context {T : Type} {provider : PageAllocatorProvider T}.
Implicit Types s : @HeapAllocator T.

(** ** Taking the front of a free block *)
Record taken s (l : list blk) (f : blk) s' (l' : list blk) : Prop := {
  tk_list : free_list s' l';
  tk_bytes : forall x, covers l' x -> covers l x;
  tk_apart : forall x, in_blk f x -> covers l x /\ ~ covers l' x;
  tk_total : total l = f.2 + total l';
  tk_frame : forall x, ~ covers l x -> load (memory s') x = load (memory s) x;
  tk_rest : same_rest s s'
}.

(** A block inside a sound list. *)
Record inside s (L : list blk) (b : blk) (R : list blk) : Prop := {
  is_list : free_list s (L ++ [b] ++ R);
  is_region : in_region s b;
  is_big : big b;
  is_good : good_blk (heap_start s) (heap_start s + total_heap_size s) b;
  is_before : Forall (fun c => blk_end c < b.1) L;
  is_after : Forall (fun c => blk_end b < c.1) R;
  is_L : Forall (in_region s) L /\ apart L /\ Forall big L;
  is_R : Forall (in_region s) R /\ apart R /\ Forall big R;
  is_bL : forall x, covers L x -> ~ in_blk b x;
  is_bR : forall x, covers R x -> ~ in_blk b x;
  is_LR : forall x, covers L x -> ~ covers R x
}.

Lemma list_inside s l b : free_list s l -> b ∈ l -> exists L R, l = L ++ [b] ++ R /\ inside s L b R.
Proof.
  intros Hl (L & R & ->)%list_elem_of_split. exists L, R. split; [done|].
  pose proof (fl_region _ _ Hl) as Hr. apply Forall_app in Hr as [HrL Hr]. apply Forall_cons in Hr as [Hrb HrR].
  pose proof (fl_good _ _ Hl) as Hg. apply Forall_app in Hg as [_ Hg]. apply Forall_cons in Hg as [Hg _].
  pose proof (coalesced_apart _ (fl_sorted _ _ Hl)) as Ha.
  pose proof Ha as (HaL & HabR & HLb)%apart_app. pose proof HabR as [HbR HaR].
  pose proof (fl_sorted _ _ Hl) as (_ & [HsR _] & HsL)%coalesced_app.
  assert (forall l, Forall (in_region s) l -> Forall big l) as Hbig.
  { intros l Hl'. eapply Forall_impl; [exact Hl'|]. intros c Hc. apply Hc. }
  split; try done; auto.
  - apply Hrb.
  - apply Forall_forall. intros c Hc. apply HsL; set_solver.
  - intros x Hx Hx'. apply (apart_covers L (b :: R) x Ha Hx). autorewrite with covers. tauto.
  - intros x Hx Hx'. apply (apart_covers [b] R x HabR); [autorewrite with covers; tauto|done].
  - intros x Hx Hx'. apply (apart_covers L (b :: R) x Ha Hx). autorewrite with covers. tauto.
Qed.

(** The whole block leaves the list. *)
Lemma wp_take_all P s L b R (k : Z) :
  inside s L b R ->
  wp P (p ← get_prev b.1; n ← get_next b.1; _ ← update_next p n; n ← get_next b.1;
        _ ← (if n =? 0 then mret tt else p ← get_prev b.1; set_prev n p); mret k) s
    (fun r s' => r = k /\ taken s (L ++ [b] ++ R) b s' (L ++ R)).
Proof.
  intros [Hl Hb Hbig Hg HL HR (HrL & HaL & HbL) (HrR & HaR & HbR) HLb HRb HLR].
  destruct (seg_middle _ _ _ _ _ _ _ (fl_seg _ _ Hl)) as (H1 & H2 & H3 & H4 & H5).
  apply wp_bind, wp_get_prev; [done|]. rewrite H2. apply wp_bind, wp_get_next; [done|]. rewrite H4.
  apply wp_bind. eapply (wp_update_next _ _ L); [done|done|done|]. intros m1 h1 Hm1 Hfr1.
  assert (forall x, in_blk b x -> load m1 x = load (memory s) x) as Hb1.
  { intros x Hx. apply Hfr1. intros Hc. by apply (HLb x). }
  apply wp_bind, wp_get_next; [done|]. simpl. rewrite Hb1, H4 by hdr.
  assert (seg m1 b.1 (head_addr R 0) R 0) as H5'.
  { eapply seg_frame_bytes; [done| |exact H5]. intros x Hx. apply Hfr1. intros Hc. by apply (HLR x). }
  apply wp_bind.
  assert (wp P (update_prev (head_addr R 0) (last_addr 0 L)) (set_free_list h1 (set_memory m1 s))
    (fun _ s' => taken s (L ++ [b] ++ R) b s' (L ++ R))) as Hup.
  { eapply (wp_update_prev _ _ b.1); [done|done|done|]. simpl. intros m2 Hm2 Hfr2. split.
    - apply (free_list_middle s _ L [b] R []); try done; simpl.
      2,3: by intros c d Hc Hd; first [apply elem_of_nil in Hc | apply elem_of_nil in Hd].
      eapply seg_frame_bytes; [done| |exact Hm1]. intros x Hx. apply Hfr2. auto.
    - intros x. autorewrite with covers. tauto.
    - intros x Hx. autorewrite with covers. split; [tauto|]. intros [Hc|Hc]; [by apply (HLb x)|by apply (HRb x)].
    - rewrite !total_app. simpl. lia.
    - intros x Hx. autorewrite with covers in Hx. simpl. rewrite Hfr2, Hfr1; tauto.
    - done. }
  unfold update_prev in Hup. destruct (Z.eqb_spec (head_addr R 0) 0) as [E|E].
  - apply wp_ret, wp_ret. split; [done|]. exact Hup.
  - apply wp_bind, wp_get_prev; [done|]. simpl. rewrite Hb1, H2 by hdr.
    eapply wp_mono; [exact Hup|]. intros [] s' Htk. by apply wp_ret.
Qed.

(** The back of the block stays in the list. *)
Lemma wp_take_front P s L b R k (Q : Z -> HeapAllocator -> Prop) :
  inside s L b R -> k mod 16 = 0 -> 32 <= k -> k + 24 < b.2 ->
  (forall s', taken s (L ++ [b] ++ R) (b.1, k) s' (L ++ [(b.1 + k, b.2 - k)] ++ R) -> Q k s') ->
  wp P (p ← get_prev b.1; _ ← set_prev (b.1 + k) p; n ← get_next b.1; _ ← set_next (b.1 + k) n;
        rest ← lift (csub b.2 k); _ ← set_size (b.1 + k) rest; n ← get_next (b.1 + k);
        _ ← update_prev n (b.1 + k); p ← get_prev (b.1 + k); _ ← update_next p (b.1 + k); mret k) s Q.
Proof.
  intros [Hl Hb Hbig Hg HL HR (HrL & HaL & HbL) (HrR & HaR & HbR) HLb HRb HLR] Hk16 Hk Hlt HQ.
  destruct (seg_middle _ _ _ _ _ _ _ (fl_seg _ _ Hl)) as (H1 & H2 & H3 & H4 & H5).
  set (n := (b.1 + k, b.2 - k) : blk). change (b.1 + k) with n.1.
  assert (good_blk (heap_start s) (heap_start s + total_heap_size s) n) as Hgn.
  { pose proof Hg as (G1 & G2 & G3 & G4 & G5). unfold good_blk, blk_end in *. simpl.
    assert ((b.1 + k) mod 16 = 0) by (by apply mod16_add).
    assert ((b.2 - k) mod 16 = 0) as Hm by (by rewrite Zminus_mod, G2, Hk16).
    pose proof Hm as Hm'. apply Z.mod_divide in Hm' as [q Hq]; [|done]. lia. }
  assert (in_region s n) as Hn by (apply good_region; [apply Hl|done]).
  assert (big n) as Hbign by apply Hn. assert (n.1 = b.1 + k) as Hn1 by done.
  assert (forall x, in_blk n x -> in_blk b x) as Hnb by (unfold in_blk, blk_end; simpl; lia).
  assert (forall x, covers L x -> ~ in_blk n x) as HLn by (intros x Hx Hx'; by apply (HLb x); auto).
  assert (forall x, covers R x -> ~ in_blk n x) as HRn by (intros x Hx Hx'; by apply (HRb x); auto).
  assert (forall x, in_blk n x -> ~ covers R x) as HnR by (intros x Hx Hx'; by apply (HRn x); auto).
  assert (forall x, in_blk n x -> ~ covers L x) as HnL by (intros x Hx Hx'; by apply (HLn x); auto).
  apply wp_bind, wp_get_prev; [done|]. rewrite H2. apply wp_bind, wp_set_prev; [done|].
  apply wp_bind, wp_get_next; [done|]. cbn [memory set_memory]. rewrite load_store_ne, H4 by lia.
  apply wp_bind, wp_set_next; [done|]. apply wp_bind, wp_csub; [lia|].
  apply wp_bind, wp_set_size; [done|]. apply wp_bind, wp_get_next; [done|]. cbn [memory set_memory]. mem_in.
  apply wp_bind. eapply (wp_update_prev _ _ b.1 _ R); [|done|done|].
  { eapply seg_frame_bytes; [done| |exact H5]. intros x Hx. simpl. by mem_out n. }
  intros m1 Hm1 Hfr1. cbn [memory set_memory] in Hfr1. apply wp_bind, wp_get_prev; [done|].
  cbn [memory set_memory]. rewrite Hfr1 by (apply HnR; hdr). mem_in.
  apply wp_bind. eapply (wp_update_next _ _ L b.1); [|done|done|].
  { simpl. eapply seg_frame_bytes; [done| |exact H1]. intros x Hx. rewrite Hfr1 by auto. by mem_out n. }
  intros m2 h2 Hm2 Hfr2. cbn [memory set_memory] in Hfr2. apply wp_ret, HQ.
  assert (forall j, 0 <= j < 24 -> ~ covers L (n.1 + j) /\ ~ covers R (n.1 + j)) as Hj.
  { intros j Hj. assert (in_blk n (n.1 + j)) by hdr. auto. }
  pose proof (Hj 0 ltac:(lia)) as [HjL HjR]. rewrite Z.add_0_r in HjL, HjR.
  split; try done.
  - apply (free_list_middle s _ L [b] R [n]); try done; simpl.
    + split; [done|]. rewrite Hfr2, Hfr1 by done. mem_in. split; [done|].
      rewrite (Hfr2 (b.1 + k + 16)), (Hfr1 (b.1 + k + 16)) by (apply Hj; lia).
      rewrite (Hfr2 (b.1 + k + 8)), (Hfr1 (b.1 + k + 8)) by (apply Hj; lia). simpl. mem_in.
      split; [done|]. eapply seg_frame_bytes; [done| |exact Hm1]. intros x Hx. apply Hfr2. intros Hx'. by apply (HLR x).
    + by constructor.
    + intros c d Hc ->%list_elem_of_singleton. rewrite Forall_forall in HL. specialize (HL c Hc). simpl in *. lia.
    + intros c d ->%list_elem_of_singleton Hc. rewrite Forall_forall in HR. specialize (HR d Hc).
      unfold blk_end in *. simpl in *. lia.
  - intros x. autorewrite with covers. intros [?|[[?%Hnb|[]]|?]]; auto.
  - intros x Hx. assert (in_blk b x /\ ~ in_blk n x) as [Hx1 Hx2].
    { unfold in_blk, blk_end in *. simpl in *. lia. }
    autorewrite with covers. split; [tauto|]. intros [?|[[?|[]]|?]]; [by apply (HLb x)|done|by apply (HRb x)].
  - rewrite !total_app. simpl. lia.
  - intros x Hx. autorewrite with covers in Hx. assert (~ in_blk n x) by (intros ?%Hnb; tauto).
    simpl. rewrite Hfr2, Hfr1 by tauto. by mem_out n.
Qed.

(** [take_from] hands out [allocation_size] bytes, or up to 16 more. *)
Lemma wp_take_from P s L b R k (Q : Z -> HeapAllocator -> Prop) :
  inside s L b R -> k mod 16 = 0 -> 32 <= k <= b.2 ->
  (forall r s' l', r mod 16 = 0 -> k <= r <= k + 16 -> r <= b.2 ->
     taken s (L ++ [b] ++ R) (b.1, r) s' l' -> Q r s') ->
  wp P (take_from b.1 b.2 k) s Q.
Proof.
  intros Hin Hk16 Hk HQ. pose proof (is_good _ _ _ _ Hin) as (G1 & G2 & G3 & G4 & G5). unfold blk_end in G5.
  pose proof (fl_end _ _ (is_list _ _ _ _ Hin)). pose proof (fl_start _ _ (is_list _ _ _ _ Hin)).
  unfold take_from. apply wp_bind, wp_cadd; [lia|]. unfold HEAP_FREE_BLOCK_SIZE.
  apply wp_bind, wp_cadd; [lia|]. destruct (Z.ltb_spec (k + 24) b.2) as [Hlt|Hge].
  - apply (wp_take_front P s L b R); [done|done|lia|done|]. intros s' Htk. eapply HQ; [done|lia|lia|done].
  - eapply wp_mono; [by apply wp_take_all|]. intros r s' [-> Htk].
    eapply (HQ _ _ (L ++ R)); [done| |lia|by destruct b].
    assert ((b.2 - k) mod 16 = 0) as Hm by (by rewrite Zminus_mod, G2, Hk16).
    apply Z.mod_divide in Hm as [q Hq]; [|done]. lia.
Qed.
End Take.

(** ** Sizes and offsets *)
Definition valid_layout (l : Layout) : Prop := pow2_align (lalign l) /\ 0 <= lsize l.

Lemma pow2_max16 al : pow2_align al -> pow2_align (Z.max al 16) /\ (16 | Z.max al 16) /\ (al | Z.max al 16).
Proof.
  intros H. assert (pow2_align 16) as H16 by (by exists 4).
  destruct (Z.max_spec al 16) as [[Hle ->]|[Hle ->]].
  - split_and!; [done|apply Z.divide_refl|]. apply pow2_divide_le; [done|done|lia].
  - split_and!; [done| |apply Z.divide_refl]. by apply pow2_divide_le.
Qed.

Lemma mod_of_divide a b x : (a | b) -> 0 < a -> 0 < b -> x mod b = 0 -> x mod a = 0.
Proof.
  intros Hab Ha Hb Hx. apply Z.mod_divide; [lia|]. apply Z.mod_divide in Hx; [|lia]. by etransitivity.
Qed.

Lemma whole_size_spec l w o :
  valid_layout l -> whole_size l 16 = Ret (w, o) ->
  32 <= o /\ o mod 16 = 0 /\ o + lsize l <= w /\ w mod 16 = 0 /\ w < 2 ^ 63.
Proof.
  intros [Hp Hs] H. destruct (pow2_max16 _ Hp) as (Hal & H16 & _).
  pose proof (pow2_align_pos _ Hal) as [Hpos _].
  unfold whole_size, align_to, from_size_align in H. destruct (Z.leb _ _) eqn:E1 in H; [|done].
  simpl in H. unfold extend, from_size_align in H. simpl in H. destruct (Z.leb _ _) eqn:E2 in H; [|done].
  simpl in H. injection H as <- <-. bool_hyps. unfold padded, ISIZE_MAX in *.
  assert (Z.max 16 (Z.max (lalign l) 16) = Z.max (lalign l) 16) as Em by lia. rewrite Em in *.
  destruct (round_up_spec 32 (Z.max (lalign l) 16) Hpos) as [A1 A2].
  destruct (round_up_spec (round_up 32 (Z.max (lalign l) 16) + lsize l) (Z.max (lalign l) 16) Hpos) as [B1 B2].
  split_and!; try lia.
  - by eapply mod_of_divide.
  - by eapply mod_of_divide.
Qed.

Lemma whole_size_not_diverge l al : whole_size l al <> Diverge.
Proof.
  unfold whole_size, unwrap. destruct (align_to _ _); [|done]. simpl. by destruct (extend _ _) as [[]|].
Qed.

(** Every layout of reasonable size has a whole size. *)
Lemma whole_size_small l :
  valid_layout l -> lalign l <= 16 -> lsize l <= 2 ^ 62 ->
  whole_size l 16 = Ret (round_up (32 + lsize l) 16, 32).
Proof.
  intros [Hp Hs] Ha Hsz. unfold whole_size, align_to, from_size_align, ISIZE_MAX.
  replace (Z.max (lalign l) 16) with 16 by lia. rewrite (proj2 (Z.leb_le _ _)) by lia. simpl.
  unfold extend, from_size_align, ISIZE_MAX. simpl. change (padded 32 16) with 32.
  rewrite (proj2 (Z.leb_le _ _)) by lia. done.
Qed.

Lemma block_offset_spec base al off :
  pow2_align al -> 0 <= base -> base mod 16 = 0 -> block_offset base al = Ret off ->
  32 <= off /\ off mod 16 = 0 /\ (base + off) mod al = 0.
Proof.
  intros Hal Hb Hb16 H. destruct (pow2_align_pos _ Hal) as [Hpos _].
  unfold block_offset in H. rewrite is_aligned_eq in H by (by exists 4). simpl in H. rewrite Hb16 in H. simpl in H.
  destruct (align_up base al) as [up| |] eqn:Eup; try done. simpl in H.
  assert (up = round_up base al) as ->.
  { destruct (decide (base + al < 2 ^ 64)) as [Hlt|Hge].
    - rewrite align_up_eq in Eup by done. by injection Eup.
    - unfold align_up, cadd in Eup. by rewrite (proj2 (Z.ltb_ge _ _)) in Eup by lia. }
  clear Eup. destruct (round_up_spec base al Hpos) as [Hu1 Hu2]. rewrite csub_ret in H by lia. simpl in H.
  assert ((round_up base al - base) mod 16 = 0) as Hpno.
  { destruct (Z.leb_spec 16 al) as [Hge|Hlt].
    - assert (16 | al) as Hd by (apply pow2_divide_le; [by exists 4|done|done]).
      pose proof (mod_of_divide 16 al _ Hd ltac:(done) Hpos Hu2) as Hu16.
      by rewrite Zminus_mod, Hb16, Hu16.
    - rewrite round_up_id, Z.sub_diag; [done|done|].
      apply (mod_of_divide al 16); [|done|done|done]. apply pow2_divide_le; [done|by exists 4|lia]. }
  unfold KERNEL_HEAP_BLOCK_INFO_SIZE, cadd in H.
  assert ((Z.max 32 al) mod 16 = 0 /\ (Z.max 32 al) mod al = 0) as [Hm1 Hm2].
  { assert (pow2_align 32) as H32 by (by exists 5). destruct (Z.max_spec 32 al) as [[? ->]|[? ->]].
    - split; [|by apply Z.mod_same; lia]. apply Z.mod_divide; [done|].
      apply pow2_divide_le; [by exists 4|done|lia].
    - split; [done|]. apply Z.mod_divide; [lia|]. by apply pow2_divide_le. }
  destruct (Z.ltb_spec (round_up base al - base) 32).
  - destruct (Z.ltb _ _) eqn:E2 in H; [|done]. simpl in H. destruct (Z.leb _ _) eqn:E3 in H; [|done].
    simpl in H. injection H as <-. bool_hyps. split_and!; [lia|by apply mod16_add|].
    replace (base + (round_up base al - base + Z.max 32 al)) with (round_up base al + Z.max 32 al) by lia.
    by rewrite Z.add_mod, Hu2, Hm2 by lia.
  - simpl in H. destruct (Z.leb _ _) eqn:E3 in H; [|done]. simpl in H. injection H as <-. bool_hyps.
    split_and!; [lia|done|]. by replace (base + (round_up base al - base)) with (round_up base al) by lia.
Qed.

Lemma block_offset_small base al :
  pow2_align al -> al <= 16 -> 0 <= base < 2 ^ 64 - 2 ^ 12 -> base mod 16 = 0 ->
  block_offset base al = Ret 32.
Proof.
  intros Hal Hle Hb Hb16. destruct (pow2_align_pos _ Hal) as [Hpos _].
  unfold block_offset. rewrite is_aligned_eq by (by exists 4). simpl. rewrite Hb16. simpl.
  rewrite align_up_eq by (done || lia). simpl. rewrite round_up_id; [|done|].
  - rewrite csub_ret by lia. simpl. rewrite Z.sub_diag. unfold KERNEL_HEAP_BLOCK_INFO_SIZE. simpl (0 <? 32).
    cbn match. rewrite cadd_ret by lia. simpl. by replace (Z.max 32 al) with 32 by lia.
  - apply (mod_of_divide al 16); [|done|done|done]. apply pow2_divide_le; [done|by exists 4|lia].
Qed.

Section AllocSpec.
Context {T : Type} {provider : PageAllocatorProvider T} {laws : IncreasingProvider T}.
Implicit Types s : @HeapAllocator T.

(** An operation that may panic only when [P] accepts it. *)
Lemma wp_lift_or {S A} P (o : outcome A) (s : S) (Q : A -> S -> Prop) :
  (P \/ exists a, o = Ret a) -> o <> Diverge -> (forall a, o = Ret a -> Q a s) -> wp P (lift o) s Q.
Proof. intros HP Hd HQ. unfold wp, lift. destruct o; naive_solver. Qed.

Lemma wp_set_header P s u (Q : unit -> HeapAllocator -> Prop) :
  in_region s (ublk u) -> 32 <= uoff u <= usize u -> 0 <= heap_start s ->
  (forall m', header m' u -> (forall x, ~ in_blk (ublk u) x -> load m' x = load (memory s) x) ->
     Q tt (set_memory m' s)) ->
  wp P (write_info (uptr u - 32) (usize u) (uoff u)) s Q.
Proof.
  intros (H1 & H2 & H3) Hu H0 HQ. unfold blk_end, ublk, uptr in *. simpl in *.
  unfold write_info, set_magic, set_info_size, set_pre_padding.
  apply wp_bind, wp_bind, wp_load_word; [lia..|]. apply wp_store_word; [lia..|].
  apply wp_bind, wp_store_word; [simpl; lia..|]. apply wp_store_word; [simpl; lia..|]. simpl.
  change (Q tt (set_memory (store (store (store (memory s) (ubase u + uoff u - 32)
    (load (memory s) (ubase u + uoff u - 32) - load (memory s) (ubase u + uoff u - 32) mod 2 ^ 32 + HEAP_MAGIC))
    (ubase u + uoff u - 32 + 8) (usize u)) (ubase u + uoff u - 32 + 16) (uoff u)) s)).
  apply HQ.
  - unfold header, uptr.
    replace (ubase u + uoff u - 24) with (ubase u + uoff u - 32 + 8) by lia.
    replace (ubase u + uoff u - 16) with (ubase u + uoff u - 32 + 16) by lia.
    split_and!; mem_in; try done.
    set (w := load _ _). pose proof (Z.div_mod w (2 ^ 32) ltac:(done)) as Hd.
    replace (w - w mod 2 ^ 32 + HEAP_MAGIC) with (HEAP_MAGIC + w / 2 ^ 32 * 2 ^ 32) by lia.
    rewrite Z.mod_add by done. done.
  - intros x Hx. unfold in_blk, blk_end in Hx. simpl in Hx. by rewrite !load_store_ne by lia.
Qed.

(** Moving the front of a free block to the live blocks. *)
Lemma live_after_alloc s1 l1 U u s2 l2 m' :
  live s1 l1 U -> taken s1 l1 (ublk u) s2 l2 -> region_blk s1 (ublk u) -> fits u ->
  header m' u -> (forall x, ~ in_blk (ublk u) x -> load m' x = load (memory s2) x) ->
  live (set_memory m' (set_sizes (free_size s2 - usize u) (used_size s2 + usize u) s2)) l2 (u :: U) /\
  (forall x, covers (map ublk U) x -> load m' x = load (memory s1) x).
Proof.
  intros [L1 L2 L3 Lb L4 L5 L6 L7 L8 L9 L10 L11] [K1 K2 K3 K4 K5 (E1 & E2 & E3 & E4 & E5)] Hg Hfit Hh Hm.
  assert (forall x, covers (map ublk U) x -> load m' x = load (memory s1) x) as Hk.
  { intros x Hx. assert (~ covers l1 x) as Hn by (intros ?; by apply (apart_covers _ _ x L6)).
    rewrite Hm; [by apply K5|]. intros Hx'. destruct (K3 x Hx'). done. }
  split; [|done]. unfold region_blk in *.
  assert (forall x, covers (l2 ++ [ublk u]) x -> covers l1 x) as Hsub.
  { intros x. autorewrite with covers. intros [?|[Hx|[]]]; [auto|]. by destruct (K3 x Hx). }
  assert (apart (l2 ++ [ublk u])) as Ha2.
  { apply apart_app. split_and!; [apply coalesced_apart, K1|done|].
    intros c d Hc ->%list_elem_of_singleton. pose proof (good_pos _ _ _ (fl_good _ _ K1)) as Hp.
    rewrite Forall_forall in Hp. apply disj_bytes; [by apply Hp|unfold good_blk in Hg; lia|].
    intros x Hx Hx'. destruct (K3 x Hx') as [_ Hn]. apply Hn. by eapply covers_elem. }
  simpl in K4. split; simpl; try done; try lia.
  - destruct K1 as [F1 F2 F3 F4 F5 F6]. split; simpl; try done.
    eapply seg_frame_bytes; [|intros x Hx; apply Hm|exact F4].
    + eapply Forall_impl; [exact F6|]. unfold good_blk, big. lia.
    + intros Hx'. by destruct (K3 x Hx').
  - by rewrite E5.
  - by rewrite E5, E1.
  - by rewrite E5, E1, E2.
  - unfold region_blk. simpl. rewrite E1, E2. by constructor.
  - change (ublk u :: map ublk U) with ([ublk u] ++ map ublk U). rewrite app_assoc.
    apply (apart_same_bytes l1); try done.
    + apply Forall_app. split; [apply (good_pos _ _ _ (fl_good _ _ K1))|].
      constructor; [unfold good_blk in Hg; simpl in *; lia|done].
    + by eapply good_pos.
  - constructor; [done|]. rewrite Forall_forall in *. intros v Hv.
    eapply header_frame; [by apply fits_bounds, L11| |by apply L10].
    intros x Hx. apply Hk. eapply covers_elem; [|done]. by apply list_elem_of_fmap_2.
  - by constructor.
Qed.

(** When a request cannot fail: its alignment is at most that of the
    header, its size is sane, and the provider can supply the pages that a
    fresh block of this size needs. *)
Definition servable (layout : Layout) s : Prop :=
  lalign layout <= 16 /\ lsize layout <= 2 ^ 62 /\
  available (pages_for (round_up (32 + lsize layout) 16)) (page_allocator s).

Lemma placement_not_diverge base al w o : placement base al w o <> Diverge.
Proof.
  unfold placement, block_offset, is_aligned, align_up, cadd, csub, assert_that.
  repeat (case_match; simpl; try done).
Qed.

(** What [alloc] computes before it touches the list. *)
Lemma placement_spec base layout w o off asz ptr info :
  valid_layout layout -> whole_size layout 16 = Ret (w, o) -> 0 <= base -> base mod 16 = 0 ->
  placement base (lalign layout) w o = Ret (off, asz, ptr, info) ->
  32 <= off /\ off mod 16 = 0 /\ (base + off) mod lalign layout = 0 /\
  w <= asz /\ off + lsize layout <= asz /\ asz mod 16 = 0 /\ ptr = base + off /\ info = base + off - 32.
Proof.
  intros Hv Hw Hb Hb16 H. destruct (whole_size_spec layout w o Hv Hw) as (W1 & W2 & W3 & W4 & W5).
  destruct Hv as [Hal Hsz]. unfold placement in H.
  destruct (block_offset base (lalign layout)) as [off'| |] eqn:Eo; try done. simpl in H.
  destruct (block_offset_spec _ _ _ Hal Hb Hb16 Eo) as (O1 & O2 & O3).
  destruct (if o <? off' then _ else _) as [asz'| |] eqn:Ea; try done. simpl in H.
  destruct (cadd 64 base off') as [ptr'| |] eqn:Ep; try done. simpl in H.
  unfold cadd in Ep. destruct (Z.ltb _ _) in Ep; [|done]. injection Ep as <-.
  unfold KERNEL_HEAP_BLOCK_INFO_SIZE in H. rewrite csub_ret in H by lia. injection H as <- <- <- <-.
  assert (w <= asz' /\ off' + lsize layout <= asz' /\ asz' mod 16 = 0) as (A1 & A2 & A3).
  { destruct (Z.ltb_spec o off') in Ea; [|injection Ea as <-; lia]. unfold cadd in Ea.
    destruct (Z.ltb _ _) in Ea; [|done]. injection Ea as <-. split_and!; [lia|lia|].
    apply mod16_add; [done|]. by rewrite Zminus_mod, O2, W2. }
  done.
Qed.

Lemma placement_small base layout w :
  valid_layout layout -> lalign layout <= 16 -> 0 <= base < 2 ^ 64 - 2 ^ 12 -> base mod 16 = 0 ->
  placement base (lalign layout) w 32 = Ret (32, w, base + 32, base).
Proof.
  intros [Hal _] Hle Hb Hb16. unfold placement. rewrite block_offset_small by done. simpl.
  rewrite cadd_ret by lia. simpl. unfold KERNEL_HEAP_BLOCK_INFO_SIZE. rewrite csub_ret by lia. simpl.
  by replace (base + 32 - 32) with base by lia.
Qed.

(** The accounting step never panics on a sound heap. *)
Lemma wp_account_alloc P s1 l1 U s l f (Q : unit -> HeapAllocator -> Prop) :
  live s1 l1 U -> taken s1 l1 f s l -> 0 <= f.2 ->
  Q tt (set_sizes (free_size s - f.2) (used_size s + f.2) s) -> wp P (account_alloc f.2) s Q.
Proof.
  intros Hlv Htk Hf HQ. pose proof Htk as [K1 _ _ K4 _ (E1 & E2 & E3 & E4 & E5)].
  pose proof (lv_free _ _ _ Hlv). pose proof (lv_sum _ _ _ Hlv). pose proof (lv_used _ _ _ Hlv).
  pose proof (total_nonneg _ (good_pos _ _ _ (fl_good _ _ K1))).
  pose proof (total_nonneg _ (good_pos _ _ _ (lv_good _ _ _ Hlv))).
  pose proof (fl_end _ _ K1). pose proof (fl_start _ _ K1).
  unfold account_alloc. apply wp_bind, wp_get. apply wp_bind, wp_csub; [lia|].
  apply wp_bind, wp_cadd; [lia|]. apply wp_bind, wp_put. apply wp_bind.
  apply (wp_check_issues P _ l). { destruct K1. by split. }
  by apply wp_ret.
Qed.

Lemma wp_alloc P s l U layout (Q : Z -> HeapAllocator -> Prop) :
  Inv s l U -> valid_layout layout -> (P \/ servable layout s) ->
  (forall s' l' u, live s' l' (u :: U) -> keeps s s' U -> ulayout u = layout -> Q (uptr u) s') ->
  wp P (alloc layout) s Q.
Proof.
  intros HI Hv HP HQ. unfold alloc. apply wp_bind, wp_lift_or.
  { destruct HP as [?|(Ha & Hs & _)]; [by left|right]. eexists. by apply whole_size_small. }
  { apply whole_size_not_diverge. }
  intros [w o] Hw. destruct (whole_size_spec layout w o Hv Hw) as (W1 & W2 & W3 & W4 & W5).
  destruct Hv as [Hal Hsz]. apply wp_bind, (wp_get_free P 1 s l U); [done|lia|unfold PAGE_4K; lia| |].
  { destruct HP as [?|(Ha & Hs & Hav)]; [by left|right]. rewrite whole_size_small in Hw by done.
    by injection Hw as <- _. }
  intros s1 l1 b Hlv Hk Hb Hwb. pose proof (lv_list _ _ _ Hlv) as Hl.
  destruct (list_inside _ _ _ Hl Hb) as (L & R & -> & Hin).
  pose proof (is_good _ _ _ _ Hin) as (G1 & G2 & G3 & G4 & G5). unfold blk_end in G5.
  pose proof (fl_end _ _ Hl). pose proof (fl_start _ _ Hl).
  assert (P \/ placement b.1 (lalign layout) w o = Ret (32, w, b.1 + 32, b.1)) as HP'.
  { destruct HP as [?|(Ha & Hs & _)]; [by left|right]. rewrite whole_size_small in Hw by done.
    injection Hw as _ <-. apply placement_small; done || lia. }
  rewrite (proj2 (Z.eqb_neq b.1 0)) by lia. apply wp_bind, wp_lift_or.
  { destruct HP' as [?|?]; [by left|right; by eexists]. }
  { apply placement_not_diverge. }
  intros [[[off asz] ptr] info] Hpl.
  destruct (placement_spec b.1 layout w o off asz ptr info) as (O1 & O2 & O3 & A1 & A2 & A3 & -> & ->);
    [done|done|lia|done|done|].
  apply wp_bind, wp_get_size; [apply Hin|]. rewrite (seg_elem_size _ _ _ _ _ _ (fl_seg _ _ Hl) Hb).
  apply wp_bind, wp_lift_or.
  { destruct HP' as [?|HP']; [by left|right]. rewrite HP' in Hpl. injection Hpl as _ <- _ _.
    eexists. apply assert_ret. lia. }
  { unfold assert_that. by case_match. }
  intros [] Has. unfold assert_that in Has. destruct (Z.leb_spec asz b.2) as [Hle|]; [|done]. clear Has HP HP'.
  apply wp_bind, (wp_take_from P s1 L b R); [done|done|lia|]. intros r s2 l2 R1 R2 R3 Htk.
  set (u := mkUsed b.1 r off layout).
  assert (region_blk s1 (ublk u)) as Hgu. { unfold region_blk, good_blk, blk_end. simpl. lia. }
  assert (fits u) as Hfit.
  { unfold fits. simpl. split_and!; try done; try lia. exists w, o. split; [done|lia]. }
  apply wp_bind, (wp_account_alloc P s1 _ U s2 l2 (ublk u) _ Hlv Htk); [simpl; lia|].
  apply wp_bind. eapply (wp_lift_ret _ true). { rewrite is_aligned_eq by done. by rewrite O3. }
  apply wp_bind, wp_assert; [done|]. destruct (tk_rest _ _ _ _ _ Htk) as (E1 & E2 & _).
  apply wp_bind, (wp_set_header P _ u); [unfold in_region, big, blk_end; simpl; lia|simpl; lia|simpl; lia|].
  intros m' Hh Hm. simpl in Hm.
  destruct (live_after_alloc _ _ _ u _ _ m' Hlv Htk Hgu Hfit Hh Hm) as [Hlv' Hk'].
  apply wp_ret. change (b.1 + off) with (uptr u). eapply HQ; [exact Hlv'| |done].
  intros x Hx. simpl. rewrite Hk' by done. by apply Hk.
Qed.

(** ** Deallocation *)
Lemma live_perm s l U U' : U ≡ₚ U' -> live s l U -> live s l U'.
Proof.
  intros HU [L1 L2 L3 Lb L4 L5 L6 L7 L8 L9 L10 L11].
  pose proof (fmap_Permutation ublk _ _ HU) as Hm. change (ublk <$> U) with (map ublk U) in Hm.
  change (ublk <$> U') with (map ublk U') in Hm.
  split; try done; try (by rewrite <-HU); try (by rewrite <-Hm).
Qed.

Lemma live_after_free s l U u s' l' :
  live s l (u :: U) -> freed s l (ublk u) s' l' ->
  live (set_sizes (free_size s' + usize u) (used_size s' - usize u) s') l' U /\ keeps s s' U.
Proof.
  intros [L1 L2 L3 Lb L4 L5 L6 L7 L8 L9 L10 L11] [K1 K2 K3 K4 K5 (E1 & E2 & E3 & E4 & E5)].
  apply Forall_cons in L5 as [Lu L5]. apply Forall_cons in L10 as [_ L10]. apply Forall_cons in L11 as [_ L11].
  simpl in L6, L8, K3.
  assert (apart ((ublk u :: l) ++ map ublk U)) as Ha.
  { simpl. change (apart (ublk u :: (l ++ map ublk U))). by rewrite Permutation_middle. }
  assert (keeps s s' U) as Hk.
  { intros x Hx. assert (~ covers (ublk u :: l) x) as Hn by (intros ?; by apply (apart_covers _ _ x Ha)).
    autorewrite with covers in Hn. apply K5; tauto. }
  split; [|done]. split; simpl; try done; try lia.
  - destruct K1. by split.
  - by rewrite E5.
  - by rewrite E5, E1.
  - by rewrite E5, E1, E2.
  - unfold region_blk in *. simpl. by rewrite E1, E2.
  - apply (apart_same_bytes (ublk u :: l)); try done.
    + apply coalesced_apart, K1.
    + eapply good_pos, (fl_good _ _ K1).
    + by eapply good_pos.
    + intros x Hx%K2. autorewrite with covers. done.
  - by eapply headers_keep.
Qed.

(** Giving back a live block with its layout never panics. *)
Lemma wp_dealloc P s l U u (Q : unit -> HeapAllocator -> Prop) :
  live s l (u :: U) ->
  (forall s' l', live s' l' U -> keeps s s' U ->
     (forall x, covers l' x <-> in_blk (ublk u) x \/ covers l x) -> Q tt s') ->
  wp P (dealloc (uptr u) (ulayout u)) s Q.
Proof.
  intros Hlv HQ. pose proof Hlv as [L1 L2 L3 Lb L4 L5 L6 L7 L8 L9 L10 L11].
  apply Forall_cons in L5 as [Lu L5']. apply Forall_cons in L10 as [(Hh1 & Hh2 & Hh3) _].
  apply Forall_cons in L11 as [(F1 & F2 & F3 & F4 & F5 & w & o & Hw & F6) _].
  pose proof (fl_start _ _ L1). pose proof (fl_end _ _ L1).
  unfold region_blk, good_blk, blk_end, ublk in Lu. simpl in Lu. unfold uptr in *.
  unfold dealloc. apply wp_bind, wp_assert; [lia|]. apply wp_bind. eapply wp_lift_ret; [exact Hw|].
  apply wp_bind. unfold KERNEL_HEAP_BLOCK_INFO_SIZE. apply wp_csub; [lia|].
  apply wp_bind. unfold get_magic. apply wp_bind, wp_load_word; [lia|lia|]. apply wp_ret. rewrite Hh1.
  apply wp_bind, wp_assert; [done|]. apply wp_bind. unfold get_info_size. apply wp_load_word; [lia|lia|].
  replace (ubase u + uoff u - 32 + 8) with (ubase u + uoff u - 24) by lia. rewrite Hh2.
  apply wp_bind, wp_assert; [lia|]. apply wp_bind. unfold get_pre_padding. apply wp_load_word; [lia|lia|].
  replace (ubase u + uoff u - 32 + 16) with (ubase u + uoff u - 16) by lia. rewrite Hh3.
  apply wp_bind, wp_assert; [lia|]. apply wp_bind, wp_csub; [lia|].
  replace (ubase u + uoff u - uoff u) with (ublk u).1 by (simpl; lia).
  apply wp_bind, (wp_free_block P s l (ublk u)); [done|done| |].
  { simpl in L6. rewrite <-Permutation_middle in L6. apply apart_cons in L6 as [L6 _].
    by apply Forall_app in L6 as [L6 _]. }
  intros s' l' Hfr. destruct (live_after_free _ _ _ _ _ _ Hlv Hfr) as [Hlv' Hk].
  pose proof (freed_rest _ _ _ _ _ Hfr) as (E1 & E2 & E3 & E4 & E5).
  assert (0 <= total (map ublk U)) as Hnn by exact (total_nonneg _ (good_pos _ _ _ L5')). pose proof L8 as L8'. simpl in L8'.
  apply wp_bind, wp_get. apply wp_bind, wp_csub; [lia|]. apply wp_bind, wp_cadd; [lia|].
  apply wp_bind, wp_put. apply wp_bind, (wp_check_issues P _ l'); [apply Hlv'|].
  apply wp_ret. eapply HQ; [exact Hlv'|exact Hk|apply Hfr].
Qed.
End AllocSpec.
