(* ===== verification/HeapSpec.v ===== *)
(** * The heap allocator: what its users can rely on

    Programs that allocate, write to what they allocated and give it back,
    in any order: the theorems of this file hold in every state such a
    program can reach, for every page provider that hands out ascending
    pages. *)
From S2P Require Import Prelude MemLayout PhysPages Heap HeapList HeapFree HeapAlloc.
Import Memory Heap.

(** An allocation, as its owner knows it: the pointer and the layout. *)
Definition allocation : Type := Z * Layout.
(** The bytes the owner may use. *)
Definition payload (a : allocation) : blk := (a.1, lsize a.2).

Section Runs.
Context {T : Type} {provider : PageAllocatorProvider T} {laws : IncreasingProvider T}.
Implicit Types s : @HeapAllocator T.

(** [run s A]: a program has reached state [s] and holds the allocations
    [A].  It may allocate any valid layout, write inside its allocations,
    and give an allocation back with the layout it was made with. *)
Inductive run : @HeapAllocator T -> list allocation -> Prop :=
| run_new t m : provider_ok t -> next_page t = base_page t -> run (new t m) []
| run_alloc s A layout p s' :
    run s A -> valid_layout layout -> alloc layout s = Ret (p, s') -> run s' ((p, layout) :: A)
| run_dealloc s A1 p layout A2 s' :
    run s (A1 ++ (p, layout) :: A2) -> dealloc p layout s = Ret (tt, s') -> run s' (A1 ++ A2)
| run_write s A a x v :
    run s A -> a ∈ A -> in_blk (payload a) x -> run (set_memory (store (memory s) x v) s) A.

Definition view (u : Used) : allocation := (uptr u, ulayout u).

Lemma payload_in u x : fits u -> in_blk (payload (view u)) x -> in_blk (ublk u) x.
Proof. unfold fits, in_blk, blk_end, payload, view, ublk, uptr. simpl. lia. Qed.

(** Writing inside a payload touches neither the free list nor a header. *)
Lemma live_write s l U u x v :
  live s l U -> u ∈ U -> in_blk (payload (view u)) x -> live (set_memory (store (memory s) x v) s) l U.
Proof.
  intros [L1 L2 L3 Lb L4 L5 L6 L7 L8 L9 L10 L11] Hu Hx.
  pose proof L11 as Hfits. rewrite Forall_forall in Hfits. pose proof (Hfits u Hu) as Hfu.
  pose proof (payload_in u x Hfu Hx) as Hxu.
  assert (covers (map ublk U) x) as Hcx by (eapply covers_elem; [by apply list_elem_of_fmap_2|done]).
  split; try done.
  - destruct L1 as [F1 F2 F3 F4 F5 F6]. split; try done. simpl.
    eapply seg_frame_bytes; [eapply Forall_impl; [exact F6|unfold good_blk, big; lia]| |exact F4].
    intros y Hy. apply load_store_ne. intros ->. by apply (apart_covers _ _ _ L6 Hy).
  - simpl. rewrite Forall_forall in *. intros v' Hv'. destruct (decide (uptr v' - 32 <= x < uptr v')) as [Hin|Hout].
    + exfalso. pose proof (Hfits v' Hv') as Hfv.
      assert (in_blk (ublk v') x) as Hxv by (unfold fits, in_blk, blk_end, ublk, uptr in *; simpl; lia).
      apply list_elem_of_split in Hu as (U1 & U2 & ->). apply apart_app in L6 as (_ & L6 & _).
      rewrite map_app in L6. simpl in L6. change (apart (map ublk U1 ++ [ublk u] ++ map ublk U2)) in L6.
      assert (v' = u \/ v' ∈ U1 ++ U2) as [->|Hv2] by set_solver.
      { unfold in_blk, payload, view in Hx. simpl in Hx. lia. }
      assert (apart ([ublk u] ++ map ublk (U1 ++ U2))) as L6'.
      { rewrite map_app. change (apart (ublk u :: (map ublk U1 ++ map ublk U2))).
        by rewrite Permutation_middle. }
      apply (apart_covers _ _ x L6'); [autorewrite with covers; tauto|].
      eapply covers_elem; [by apply list_elem_of_fmap_2|done].
    + destruct (L10 v' Hv') as (H1 & H2 & H3). unfold header. by rewrite !load_store_ne by lia.
Qed.

(** Every reachable state satisfies the invariant. *)
Lemma run_inv s A : run s A -> exists l U, Inv s l U /\ A = map view U.
Proof.
  intros Hr. induction Hr as [t m Ht Hb|s A layout p s' Hr (l & U & HI & ->) Hv Ha
    |s A1 p layout A2 s' Hr (l & U & HI & E) Hd|s A a x v Hr (l & U & HI & ->) Ha Hx].
  - exists [], []. split; [by apply new_inv|done].
  - pose proof (wp_alloc True s l U layout (fun p s' => exists l' U', Inv s' l' U' /\ (p, layout) :: map view U = map view U')
      HI Hv (or_introl I)) as W.
    refine (wp_elim True _ _ _ _ _ (W _) Ha). intros s1 l1 u Hlv _ Hlay. exists l1, (u :: U).
    split; [by right|]. simpl. unfold view at 2. by rewrite Hlay.
  - symmetry in E. apply map_eq_app in E as (U1 & U2' & -> & <- & E).
    apply map_eq_cons in E as (u & U2 & -> & Eu & <-). unfold view in Eu. injection Eu as <- <-.
    destruct HI as [(_ & _ & HU)|Hlv]; [by destruct U1|].
    apply (live_perm _ _ _ (u :: U1 ++ U2)) in Hlv; [|by rewrite Permutation_middle].
    refine (wp_elim True _ _ (fun _ s' => exists l U, Inv s' l U /\ map view U1 ++ map view U2 = map view U)
      _ _ (wp_dealloc True _ _ _ _ _ Hlv _) Hd).
    intros s1 l1 Hlv' _ _. exists l1, (U1 ++ U2). split; [by right|]. by rewrite map_app.
  - apply list_elem_of_fmap in Ha as (u & -> & Hu).
    destruct HI as [(_ & _ & HU)|Hlv]; [subst; by apply elem_of_nil in Hu|].
    exists l, U. split; [right|done]. by eapply live_write.
Qed.

(** The heap is the range of pages the provider handed out. *)
Lemma run_region s A :
  run s A -> total_heap_size s <> 0 ->
  provider_ok (page_allocator s) /\ base_page (page_allocator s) = heap_start s /\
  next_page (page_allocator s) = heap_start s + total_heap_size s.
Proof.
  intros Hr Ht. destruct (run_inv s A Hr) as (l & U & HI & _).
  destruct HI as [((E & _) & _)|Hlv]; [done|]. by destruct Hlv.
Qed.

Lemma run_nonempty s a A : run s (a :: A) -> total_heap_size s <> 0.
Proof.
  intros Hr. destruct (run_inv s _ Hr) as (l & U & HI & E).
  destruct HI as [(_ & _ & ->)|Hlv]; [done|]. pose proof (lv_pos _ _ _ Hlv). lia.
Qed.

(** ** Theorems *)
Lemma view_bounds s l U u :
  live s l U -> u ∈ U ->
  uptr u mod lalign (ulayout u) = 0 /\ heap_start s <= uptr u /\ 0 < uptr u /\
  uptr u + lsize (ulayout u) <= heap_start s + total_heap_size s.
Proof.
  intros Hlv Hu. pose proof (lv_fits _ _ _ Hlv) as Hf. pose proof (lv_good _ _ _ Hlv) as Hg.
  rewrite Forall_forall in Hf. rewrite Forall_forall in Hg. specialize (Hf u Hu). specialize (Hg (ublk u) (list_elem_of_fmap_2 _ _ _ Hu)).
  pose proof (fl_start _ _ (lv_list _ _ _ Hlv)).
  unfold fits, region_blk, good_blk, blk_end, uptr in *. simpl in *. lia.
Qed.

Lemma payloads_apart U : Forall fits U -> apart (map ublk U) -> apart (map payload (map view U)).
Proof.
  induction U as [|u U IH]; [done|]. intros Hf [Hd Ha]. apply Forall_cons in Hf as [Hfu Hf].
  split; [|by apply IH]. apply Forall_forall. intros b Hb.
  apply list_elem_of_fmap in Hb as (a & -> & Ha'). apply list_elem_of_fmap in Ha' as (v & -> & Hv).
  rewrite Forall_forall in Hd. rewrite Forall_forall in Hf. specialize (Hd _ (list_elem_of_fmap_2 ublk _ _ Hv)). specialize (Hf v Hv).
  unfold disj, blk_end, payload, view, ublk, uptr, fits in *. simpl in *. lia.
Qed.

Lemma heap_allocations_ok s A :
  run s A ->
  Forall (fun a => a.1 mod lalign a.2 = 0 /\ 0 < a.1 /\ heap_start s <= a.1 /\
                   a.1 + lsize a.2 <= heap_start s + total_heap_size s) A /\
  apart (map payload A).
Proof.
  intros Hr. destruct (run_inv s A Hr) as (l & U & HI & ->).
  destruct HI as [(_ & _ & ->)|Hlv]; [by split|]. split.
  - apply Forall_forall. intros a Ha. apply list_elem_of_fmap in Ha as (u & -> & Hu).
    destruct (view_bounds _ _ _ _ Hlv Hu) as (H1 & H2 & H3 & H4). done.
  - apply payloads_apart; [apply Hlv|]. pose proof (lv_apart _ _ _ Hlv) as Ha.
    by apply apart_app in Ha as (_ & Ha & _).
Qed.

(** C1: Safety of allocation: in every reachable state, each allocation a
    program holds is aligned as its layout asks, lies inside the heap with
    its full size, and no two allocations overlap. *)
Theorem heap_allocations_disjoint s A :
  run s A ->
  Forall (fun a => a.1 mod lalign a.2 = 0 /\ 0 < a.1 /\ heap_start s <= a.1 /\
                   a.1 + lsize a.2 <= heap_start s + total_heap_size s) A /\
  apart (map payload A).
Proof. apply heap_allocations_ok. Qed.

(** C2: Allocation never fails on a servable request: it returns a fresh
    pointer, and every allocation already held keeps its contents. *)
Theorem heap_alloc_succeeds s A layout :
  run s A -> valid_layout layout -> servable layout s ->
  exists p s', alloc layout s = Ret (p, s') /\ run s' ((p, layout) :: A) /\
    forall a x, a ∈ A -> in_blk (payload a) x -> load (memory s') x = load (memory s) x.
Proof.
  intros Hr Hv Hs. destruct (run_inv s A Hr) as (l & U & HI & ->).
  assert (wp False (alloc layout) s (fun p s' => keeps s s' U /\ Forall fits U)) as W.
  { apply (wp_alloc False s l U); [done|done|by right|]. intros s' l' u Hlv Hk _. split; [done|].
    pose proof (lv_fits _ _ _ Hlv) as Hf. by apply Forall_cons in Hf as [_ Hf]. }
  apply wp_total in W as (p & s' & E & Hk & Hf). exists p, s'. split_and!; [done|by eapply run_alloc|].
  intros a x Ha Hx. apply list_elem_of_fmap in Ha as (u & -> & Hu). apply Hk.
  rewrite Forall_forall in Hf. eapply covers_elem; [by apply list_elem_of_fmap_2|].
  by apply payload_in; [apply Hf|].
Qed.

(** C3: Deallocation never fails on an allocation the program holds, and every
    other allocation keeps its contents. *)
Theorem heap_dealloc_succeeds s A1 p layout A2 :
  run s (A1 ++ (p, layout) :: A2) ->
  exists s', dealloc p layout s = Ret (tt, s') /\ run s' (A1 ++ A2) /\
    forall a x, a ∈ A1 ++ A2 -> in_blk (payload a) x -> load (memory s') x = load (memory s) x.
Proof.
  intros Hr. destruct (run_inv s _ Hr) as (l & U & HI & E).
  symmetry in E. apply map_eq_app in E as (U1 & U2' & -> & <- & E).
  apply map_eq_cons in E as (u & U2 & -> & Eu & <-). unfold view in Eu. injection Eu as <- <-.
  destruct HI as [(_ & _ & HU)|Hlv]; [by destruct U1|].
  apply (live_perm _ _ _ (u :: U1 ++ U2)) in Hlv; [|by rewrite Permutation_middle].
  assert (wp False (dealloc (uptr u) (ulayout u)) s (fun _ s' => keeps s s' (U1 ++ U2))) as W.
  { apply (wp_dealloc False _ _ _ _ _ Hlv). done. }
  apply wp_total in W as ([] & s' & E & Hk). exists s'. split_and!; [done|by eapply run_dealloc|].
  intros a x Ha Hx. rewrite <-map_app in Ha. apply list_elem_of_fmap in Ha as (v & -> & Hv). apply Hk.
  pose proof (lv_fits _ _ _ Hlv) as Hf. apply Forall_cons in Hf as [_ Hf]. rewrite Forall_forall in Hf.
  eapply covers_elem; [by apply list_elem_of_fmap_2|]. by apply payload_in; [apply Hf|].
Qed.

(** A coalesced list that accounts for all of an interval is one block. *)
Lemma coalesced_full lo hi l :
  coalesced l -> Forall (good_blk lo hi) l -> lo < hi -> total l = hi - lo -> l = [(lo, hi - lo)].
Proof.
  assert (forall l lo, coalesced l -> Forall (good_blk lo hi) l -> lo <= hi -> total l <= hi - lo) as Hle.
  { clear. induction l as [|b l IH]; intros lo Hc Hg Hlo; simpl; [lia|].
    destruct Hc as [Hb Hc]. apply Forall_cons in Hg as [Hgb Hg]. unfold good_blk in Hgb.
    assert (total l <= hi - blk_end b); [|unfold blk_end in *; lia].
    apply IH; [done| |lia]. rewrite Forall_forall in *. intros c Hc'.
    specialize (Hg c Hc'). specialize (Hb c Hc'). unfold good_blk in *. simpl in Hb. lia. }
  intros Hc Hg Hlt Ht. destruct l as [|[a z] l]; simpl in Ht; [lia|].
  destruct Hc as [Hb Hc]. apply Forall_cons in Hg as [Hgb Hg]. unfold good_blk, blk_end in Hgb. simpl in Hgb.
  destruct l as [|c l]; [simpl in Ht; f_equal; f_equal; lia|]. exfalso.
  assert (total (c :: l) <= hi - (a + z + 1)); [|lia]. apply Hle; [done| |].
  - rewrite Forall_forall in *. intros d Hd. specialize (Hg d Hd). specialize (Hb d Hd).
    unfold good_blk, blk_end in *. simpl in Hb. lia.
  - apply Forall_cons in Hb as [Hb _]. apply Forall_cons in Hg as [Hg _].
    unfold good_blk, blk_end in *. simpl in Hb. lia.
Qed.

Lemma wp_debug P s l (Q : list (Z * Z) -> HeapAllocator -> Prop) :
  free_list s l -> Q l s -> wp P debug_free_blocks s Q.
Proof.
  intros Hl HQ. unfold debug_free_blocks.
  apply (wp_iter P (fun d acc => acc = d) _ _ l); [done|done| |by intros ? ->].
  intros d b r acc E -> Hb Hsz. apply wp_bind, wp_get_size; [done|]. rewrite Hsz. apply wp_ret.
  split; [done|]. by destruct b.
Qed.

(** C4: Accounting: the statistics always add up to the heap size, and when
    everything was given back the heap is again one free block: nothing
    leaks and nothing stays fragmented. *)
Theorem heap_no_leak s A :
  run s A ->
  allocated (stats s) + stat_free_size (stats s) = heap_size (stats s) /\
  (A = [] -> allocated (stats s) = 0 /\
     (heap_size (stats s) <> 0 ->
        debug_free_blocks s = Ret ([(heap_start s, heap_size (stats s))], s))).
Proof.
  intros Hr. destruct (run_inv s A Hr) as (l & U & HI & ->). simpl.
  destruct HI as [((E1 & E2 & E3 & E4 & _) & -> & ->)|Hlv]; [split; [lia|]; intros _; split; [lia|done]|].
  pose proof Hlv as [L1 L2 L3 Lb L4 L5 L6 L7 L8 L9 L10 L11]. split; [lia|]. intros HU.
  apply map_eq_nil in HU. subst U. simpl in L8. split; [done|]. intros _.
  assert (l = [(heap_start s, total_heap_size s)]) as ->.
  { rewrite (coalesced_full (heap_start s) (heap_start s + total_heap_size s) l); [|apply L1|apply L1|lia|lia].
    f_equal. f_equal. lia. }
  assert (wp False debug_free_blocks s (fun r s' => r = [(heap_start s, total_heap_size s)] /\ s' = s)) as W.
  { by eapply wp_debug. }
  by apply wp_total in W as (r & s' & -> & -> & ->).
Qed.
End Runs.
