(* ===== verification/HeapUse.v ===== *)
(** * The two users of the heap allocator

    [kernel/src/memory_management/kernel_heap_allocator.rs]: the kernel's
    global allocator, whose pages are mapped at [KERNEL_HEAP_BASE].
    [libraries/emerald_std/src/alloc.rs]: the user programs' allocator,
    whose pages come from the [SYS_INC_HEAP] system call.

    Both keep the allocator in a [OnceLock<Mutex<_>>]: [get_or_init] creates
    it at the first call; the lock is held during a call, so calls are
    sequential.  [map_kernel] and the system call are arguments here. *)
From S2P Require Import Prelude MemLayout PhysPages Heap HeapList HeapFree HeapAlloc HeapSpec.
Import Memory.

(** ** The lock around the allocator *)
Module Locked.
Section Locked.
Context {T : Type} {provider : PageAllocatorProvider T} (new_page_allocator : outcome T).

(** [inner] is the [OnceLock]; [ram] the memory before the first call. *)
Record Locked : Type := mkLocked { inner : option (@Heap.HeapAllocator T); ram : mem }.

Definition empty (m : mem) : Locked := mkLocked None m.

Definition get_or_init : ST Locked (@Heap.HeapAllocator T) :=
  s ← get;
  match inner s with
  | Some h => mret h
  | None => t ← lift new_page_allocator; mret (Heap.new t (ram s))
  end.

(** Run an operation on the locked allocator. *)
Definition with_lock {A} (op : ST (@Heap.HeapAllocator T) A) : ST Locked A :=
  h ← get_or_init;
  r ← lift (op h);
  let '(a, h') := r in
  _ ← modify (fun s => mkLocked (Some h') (ram s));
  mret a.

Definition alloc (layout : Layout) : ST Locked Z := with_lock (Heap.alloc layout).
Definition dealloc (ptr : Z) (layout : Layout) : ST Locked unit := with_lock (Heap.dealloc ptr layout).
Definition stats : ST Locked Heap.HeapStats := with_lock (fun h => Ret (Heap.stats h, h)).
End Locked.
End Locked.

(** ** The kernel's page provider *)
Module KernelHeap.
Section KernelHeap.
(** The page tables, and [map_kernel] for a fresh writable range of
    [size] bytes at [virtual_address]. *)
Context {PT : Type} (map_kernel : Z -> Z -> PT -> outcome PT).

Record PageAllocator : Type := mkPages { heap_start : Z; mapped_pages : Z; tables : PT }.
Definition new (pt : PT) : PageAllocator := mkPages KERNEL_HEAP_BASE 0 pt.

Definition allocate_pages (pages : Z) (t : PageAllocator) : outcome (option Z * PageAllocator) :=
  _ ← assert_that (0 <? pages);
  off ← cmul 64 (mapped_pages t) PAGE_4K;
  last_heap_base ← cadd 64 (heap_start t) off;
  n ← cadd 64 (mapped_pages t) pages;
  bytes ← cmul 64 n PAGE_4K;
  if KERNEL_HEAP_SIZE <? bytes then Ret (None, t)
  else
    size ← cmul 64 PAGE_4K pages;
    pt ← map_kernel last_heap_base size (tables t);
    Ret (Some last_heap_base, mkPages (heap_start t) n pt).

#[global] Instance provider : PageAllocatorProvider PageAllocator := allocate_pages.

(** The pages of the kernel heap ascend from [KERNEL_HEAP_BASE] and never
    leave the window reserved for them. *)
Context (map_kernel_returns : forall v n pt, map_kernel v n pt <> Diverge).

Definition ok (t : PageAllocator) : Prop :=
  heap_start t = KERNEL_HEAP_BASE /\ 0 <= mapped_pages t /\ mapped_pages t * PAGE_4K <= KERNEL_HEAP_SIZE.
Definition next (t : PageAllocator) : Z := heap_start t + mapped_pages t * PAGE_4K.
Definition can_map (n : Z) (t : PageAllocator) : Prop :=
  (mapped_pages t + n) * PAGE_4K <= KERNEL_HEAP_SIZE /\
  exists pt, map_kernel (next t) (PAGE_4K * n) (tables t) = Ret pt.

Lemma allocate_pages_eq n t :
  ok t -> 0 < n ->
  allocate_pages n t =
    if KERNEL_HEAP_SIZE <? (mapped_pages t + n) * PAGE_4K then
      (if (mapped_pages t + n) * PAGE_4K <? 2 ^ 64
       then if mapped_pages t + n <? 2 ^ 64 then Ret (None, t) else Panic else Panic)
    else pt ← map_kernel (next t) (PAGE_4K * n) (tables t);
         Ret (Some (next t), mkPages (heap_start t) (mapped_pages t + n) pt).
Proof.
  intros (Hs & H0 & Hm) Hn. unfold allocate_pages, next.
  rewrite assert_ret by lia. cbn [mbind outcome_bind].
  rewrite (cmul_ret 64 (mapped_pages t) PAGE_4K) by (unfold KERNEL_HEAP_SIZE in *; lia). cbn [mbind outcome_bind].
  rewrite (cadd_ret 64 (heap_start t)) by (rewrite Hs; unfold KERNEL_HEAP_BASE, KERNEL_END, KERNEL_BASE, KERNEL_MAPPED_SIZE, KERNEL_HEAP_SIZE in *; lia).
  cbn [mbind outcome_bind]. unfold cadd, cmul.
  destruct (Z.ltb_spec KERNEL_HEAP_SIZE ((mapped_pages t + n) * PAGE_4K)) as [Hbig|Hsmall].
  - destruct (Z.ltb_spec (mapped_pages t + n) (2 ^ 64)); cbn [mbind outcome_bind].
    + destruct (Z.ltb_spec ((mapped_pages t + n) * PAGE_4K) (2 ^ 64)); [|done].
      cbn [mbind outcome_bind]. by rewrite (proj2 (Z.ltb_lt _ _) Hbig).
    + by destruct (Z.ltb_spec ((mapped_pages t + n) * PAGE_4K) (2 ^ 64)).
  - assert (mapped_pages t + n < 2 ^ 64 /\ (mapped_pages t + n) * PAGE_4K < 2 ^ 64 /\ PAGE_4K * n < 2 ^ 64)
      as (B1 & B2 & B3) by (unfold KERNEL_HEAP_SIZE, PAGE_4K in *; lia).
    rewrite (proj2 (Z.ltb_lt _ _) B1). cbn [mbind outcome_bind].
    rewrite (proj2 (Z.ltb_lt _ _) B2). cbn [mbind outcome_bind].
    rewrite (proj2 (Z.ltb_ge _ _) Hsmall), (proj2 (Z.ltb_lt _ _) B3). done.
Qed.

#[global, refine] Instance provider_laws : IncreasingProvider PageAllocator :=
  {| provider_ok := ok; base_page := heap_start; next_page := next; available := can_map |}.
Proof.
  - intros t (Hs & H0 & Hm). unfold next. rewrite Hs. split.
    + unfold KERNEL_HEAP_BASE, KERNEL_END, KERNEL_BASE, KERNEL_MAPPED_SIZE, KERNEL_HEAP_SIZE, PAGE_4K in *. lia.
    + rewrite Z.mod_add by done. done.
  - intros n t a t' Hok Hn E. change (allocate_pages n t = Ret (Some a, t')) in E.
    rewrite allocate_pages_eq in E by done. destruct (Z.ltb_spec KERNEL_HEAP_SIZE ((mapped_pages t + n) * PAGE_4K)).
    + by repeat case_match.
    + destruct (map_kernel _ _ _) as [pt| |]; try done. simpl in E. injection E as <- <-.
      destruct Hok as (Hs & H0 & Hm). unfold ok, next. simpl. split_and!; try done; lia.
  - intros n t Hok Hn E. change (allocate_pages n t = Diverge) in E. rewrite allocate_pages_eq in E by done.
    destruct (KERNEL_HEAP_SIZE <? _); [by repeat case_match|].
    destruct (map_kernel _ _ _) as [pt| |] eqn:Em; try done. by apply map_kernel_returns in Em.
  - intros n t Hok Hn [Hav [pt Hpt]]. exists (next t), (mkPages (heap_start t) (mapped_pages t + n) pt).
    change (allocate_pages n t = Ret (Some (next t), mkPages (heap_start t) (mapped_pages t + n) pt)).
    rewrite allocate_pages_eq by done. rewrite (proj2 (Z.ltb_ge _ _)) by lia. by rewrite Hpt.
Defined.

(** Every allocation of the kernel lies inside the window the memory
    layout reserves for the kernel heap. *)
Theorem kernel_heap_in_window s A :
  @run PageAllocator provider provider_laws s A ->
  Forall (fun a => KERNEL_HEAP_BASE <= a.1 /\ a.1 + lsize a.2 <= KERNEL_HEAP_BASE + KERNEL_HEAP_SIZE) A.
Proof.
  intros Hr. destruct A as [|a A]; [constructor|].
  destruct (run_region s _ Hr (run_nonempty _ _ _ Hr)) as ((H1 & H2 & H3) & H4 & H5).
  unfold next_page, base_page in H4, H5. simpl in H4, H5. unfold next in H5.
  destruct (heap_allocations_ok s _ Hr) as [Hall _].
  eapply Forall_impl; [exact Hall|]. simpl. intros b Hb. lia.
Qed.
End KernelHeap.
End KernelHeap.

(** ** The user programs' page provider *)
Module UserHeap.
Section UserHeap.
(** The kernel seen from the program: the state [K] behind the system call
    and [SYS_INC_HEAP], which returns the end of the heap before it grew. *)
Context {K E : Type} (sys_inc_heap : Z -> K -> outcome (result Z E * K)).

Definition inc_dec_heap (increment : Z) (k : K) : outcome (result Z E * K) :=
  sys_inc_heap (wrap 64 increment) k.

Record PageAllocator : Type := mkPages { heap_start : Z; mapped_pages : Z; kernel : K }.

Definition new (k : K) : outcome PageAllocator :=
  r ← inc_dec_heap 0 k;
  match r with
  | (Ok a, k) => Ret (mkPages a 0 k)
  | (Err _, _) => Panic
  end.

Definition allocate_pages (pages : Z) (t : PageAllocator) : outcome (option Z * PageAllocator) :=
  _ ← assert_that (0 <? pages);
  off ← cmul 64 (mapped_pages t) PAGE_4K;
  last_heap_base ← cadd 64 (heap_start t) off;
  bytes ← cmul 64 pages PAGE_4K;
  r ← inc_dec_heap bytes (kernel t);
  match r with
  | (Err _, k) => Ret (None, mkPages (heap_start t) (mapped_pages t) k)
  | (Ok new_addr, k) =>
      _ ← assert_that (new_addr =? last_heap_base);
      n ← cadd 64 (mapped_pages t) pages;
      Ret (Some new_addr, mkPages (heap_start t) n k)
  end.

#[global] Instance provider : PageAllocatorProvider PageAllocator := allocate_pages.

Lemma allocate_pages_inv n t a t' :
  allocate_pages n t = Ret (Some a, t') -> exists k,
    n * PAGE_4K < 2 ^ 64 /\ sys_inc_heap (wrap 64 (n * PAGE_4K)) (kernel t) = Ret (Ok a, k) /\
    a = heap_start t + mapped_pages t * PAGE_4K /\ t' = mkPages (heap_start t) (mapped_pages t + n) k.
Proof.
  intros H. unfold allocate_pages, assert_that, cmul, cadd, inc_dec_heap in H.
  destruct (0 <? n); [|done]. simpl in H.
  destruct (mapped_pages t * PAGE_4K <? 2 ^ 64); [|done]. simpl in H.
  destruct (heap_start t + mapped_pages t * PAGE_4K <? 2 ^ 64); [|done]. simpl in H. destruct (Z.ltb_spec (n * PAGE_4K) (2 ^ 64)); [|done]. simpl in H.
  destruct (sys_inc_heap _ _) as [[[a'|e] k]| |] eqn:Es; try done; simpl in H.
  destruct (Z.eqb_spec a' (heap_start t + mapped_pages t * PAGE_4K)); [|done]. simpl in H.
  destruct (_ <? 2 ^ 64); [|done]. injection H as <- <-. by exists k.
Qed.

(** What the program relies on: the call returns, and the kernel never
    grows a heap beyond [limit]. *)
Context (limit : Z) (limit_ok : limit < 2 ^ 64 - 2 ^ 12).
Context (sys_returns : forall n k, sys_inc_heap n k <> Diverge).
Context (sys_bounded : forall n k a k', 0 <= n -> sys_inc_heap n k = Ret (Ok a, k') -> a + n <= limit).

Definition ok (t : PageAllocator) : Prop :=
  0 < heap_start t /\ heap_start t mod PAGE_4K = 0 /\ 0 <= mapped_pages t /\
  heap_start t + mapped_pages t * PAGE_4K <= limit.
Definition next (t : PageAllocator) : Z := heap_start t + mapped_pages t * PAGE_4K.

#[global, refine] Instance provider_laws : IncreasingProvider PageAllocator :=
  {| provider_ok := ok; base_page := heap_start; next_page := next;
     available := fun n t => exists a t', allocate_pages n t = Ret (Some a, t') |}.
Proof.
  - intros t (Hs & Ha & H0 & Hm). unfold next. split; [unfold PAGE_4K in *; lia|].
    by rewrite Z.mod_add by done.
  - intros n t a t' (Hs & Ha & H0 & Hm) Hn H. change (allocate_pages n t = Ret (Some a, t')) in H.
    apply allocate_pages_inv in H as (k & Hb & Hsys & -> & ->).
    unfold wrap in Hsys. rewrite Z.mod_small in Hsys by (unfold PAGE_4K in *; lia).
    apply sys_bounded in Hsys; [|unfold PAGE_4K in *; lia].
    unfold ok, next in *. simpl. unfold PAGE_4K in *. split_and!; try done; lia.
  - intros n t Hok Hn H. change (allocate_pages n t = Diverge) in H.
    unfold allocate_pages, assert_that, cmul, cadd, inc_dec_heap in H.
    destruct (0 <? n); [|done]. simpl in H.
  destruct (mapped_pages t * PAGE_4K <? 2 ^ 64); [|done]. simpl in H.
    destruct (heap_start t + mapped_pages t * PAGE_4K <? 2 ^ 64); [|done]. simpl in H. destruct (n * PAGE_4K <? 2 ^ 64); [|done]. simpl in H.
    destruct (sys_inc_heap _ _) as [[[a|e] k]| |] eqn:Es; try done; simpl in H; [|by apply sys_returns in Es].
    destruct (_ =? _); [|done]. simpl in H. by destruct (_ <? 2 ^ 64).
  - intros n t Hok Hn H. exact H.
Defined.
End UserHeap.
End UserHeap.

(** ** Concrete runs: a kernel heap whose pages can always be mapped *)
Module HeapDemo.
Definition map_always : Z -> Z -> unit -> outcome unit := fun _ _ _ => Ret tt.
Lemma map_always_returns v n pt : map_always v n pt <> Diverge.
Proof. done. Qed.

Definition T : Type := @KernelHeap.PageAllocator unit.
#[local] Instance demo_provider : PageAllocatorProvider T := KernelHeap.provider map_always.
#[local] Instance demo_laws : IncreasingProvider T :=
  KernelHeap.provider_laws map_always map_always_returns.

Definition s0 : @Heap.HeapAllocator T := Heap.new (KernelHeap.new tt) (fun _ => 0).
Definition after {A} (m : ST (@Heap.HeapAllocator T) A) (s : @Heap.HeapAllocator T) : @Heap.HeapAllocator T :=
  match m s with Ret (_, s') => s' | _ => s end.

Definition small : Layout := mkLayout 16 8.
Definition B : Z := KERNEL_HEAP_BASE.
Definition s1 : @Heap.HeapAllocator T := after (Heap.alloc small) s0.
Definition s2 : @Heap.HeapAllocator T := after (Heap.alloc small) s1.
Definition s3 : @Heap.HeapAllocator T := after (Heap.dealloc (B + 32) small) s2.
Definition s4 : @Heap.HeapAllocator T := after (Heap.dealloc (B + 80) small) s3.

Lemma small_valid : valid_layout small.
Proof. split; [by exists 3|done]. Qed.

Lemma step1 : Heap.alloc small s0 = Ret (B + 32, s1).
Proof. vm_compute. reflexivity. Qed.
Lemma step2 : Heap.alloc small s1 = Ret (B + 80, s2).
Proof. vm_compute. reflexivity. Qed.
Lemma step3 : Heap.dealloc (B + 32) small s2 = Ret (tt, s3).
Proof. vm_compute. reflexivity. Qed.
Lemma step4 : Heap.dealloc (B + 80) small s3 = Ret (tt, s4).
Proof. vm_compute. reflexivity. Qed.

Lemma run0 : run s0 [].
Proof. constructor; [split_and!; done|done]. Qed.
Lemma run2 : run s2 [(B + 80, small); (B + 32, small)].
Proof.
  apply (run_alloc s1 _ small); [|apply small_valid|apply step2].
  apply (run_alloc s0 _ small); [apply run0|apply small_valid|apply step1].
Qed.
Lemma run4 : run s4 [].
Proof.
  apply (run_dealloc s3 [] (B + 80) small []); [|apply step4].
  apply (run_dealloc s2 [(B + 80, small)] (B + 32) small []); [apply run2|apply step3].
Qed.

Lemma heap_allocations_disjoint_witness :
  run s2 [(B + 80, small); (B + 32, small)] /\ apart (map payload [(B + 80, small); (B + 32, small)]).
Proof. split; [apply run2|]. exact (proj2 (heap_allocations_disjoint s2 _ run2)). Defined.

Lemma servable_s2 : servable small s2.
Proof. split_and!; [done|done|]. split; [vm_compute; done|]. exists tt. reflexivity. Qed.

Lemma heap_alloc_succeeds_witness :
  exists p s', Heap.alloc small s2 = Ret (p, s') /\ run s' ((p, small) :: [(B + 80, small); (B + 32, small)]) /\
    forall a x, a ∈ [(B + 80, small); (B + 32, small)] -> in_blk (payload a) x ->
      load (Heap.memory s') x = load (Heap.memory s2) x.
Proof. apply (heap_alloc_succeeds s2 _ small run2 small_valid servable_s2). Defined.

Lemma heap_dealloc_succeeds_witness :
  exists s', Heap.dealloc (B + 32) small s2 = Ret (tt, s') /\ run s' ([(B + 80, small)] ++ []) /\
    forall a x, a ∈ [(B + 80, small)] ++ [] -> in_blk (payload a) x ->
      load (Heap.memory s') x = load (Heap.memory s2) x.
Proof. apply (heap_dealloc_succeeds s2 [(B + 80, small)] (B + 32) small [] run2). Defined.

Lemma heap_no_leak_witness :
  run s4 [] /\ Heap.stats s4 = Heap.mkStats 0 4096 4096 /\ Heap.debug_free_blocks s4 = Ret ([(B, 4096)], s4).
Proof.
  split; [apply run4|]. split; [vm_compute; reflexivity|].
  destruct (heap_no_leak s4 [] run4) as [_ H]. destruct (H eq_refl) as [_ H']. apply H'. vm_compute. done.
Defined.

Lemma kernel_heap_in_window_witness :
  Forall (fun a => KERNEL_HEAP_BASE <= a.1 /\ a.1 + lsize a.2 <= KERNEL_HEAP_BASE + KERNEL_HEAP_SIZE)
    [(B + 80, small); (B + 32, small)].
Proof. exact (KernelHeap.kernel_heap_in_window map_always map_always_returns s2 _ run2). Defined.

(** *** Where the allocator gives up

    A hole of 64 bytes at an address that is 16 modulo 32. *)
Definition hole : Layout := mkLayout 32 8.
Definition h1 : @Heap.HeapAllocator T := after (Heap.alloc hole) s1.
Definition h2 : @Heap.HeapAllocator T := after (Heap.alloc small) h1.
Definition h3 : @Heap.HeapAllocator T := after (Heap.dealloc (B + 80) hole) h2.
Definition aligned32 : Layout := mkLayout 32 32.

(** Requests aligned to more than 16 bytes can panic while most of the heap
    is free: the search looks for the size computed from the layout, the
    padding that the chosen block needs is only known afterwards, and a
    block that is then too small is not replaced by another. *)
Theorem heap_large_alignment_panics :
  run h3 [(B + 144, small); (B + 32, small)] /\ valid_layout aligned32 /\
  Heap.debug_free_blocks h3 = Ret ([(B + 48, 64); (B + 160, 3936)], h3) /\
  Heap.alloc aligned32 h3 = Panic.
Proof.
  split_and!; [|split; [by exists 5|done]|vm_compute; reflexivity..].
  apply (run_dealloc h2 [(B + 144, small)] (B + 80) hole [(B + 32, small)]); [|vm_compute; reflexivity].
  apply (run_alloc h1 _ small); [|apply small_valid|vm_compute; reflexivity].
  apply (run_alloc s1 _ hole); [|split; [by exists 3|done]|vm_compute; reflexivity].
  apply (run_alloc s0 _ small); [apply run0|apply small_valid|apply step1].
Qed.

(** When the page provider is exhausted the allocator panics; it does not
    return the null pointer a global allocator reports failure with. *)
Theorem heap_exhaustion_panics :
  run s2 [(B + 80, small); (B + 32, small)] /\
  KernelHeap.allocate_pages map_always 4096 (Heap.page_allocator s2) = Ret (None, Heap.page_allocator s2) /\
  Heap.alloc (mkLayout (4096 * PAGE_4K - 32) 8) s2 = Panic.
Proof. split_and!; [apply run2|vm_compute; reflexivity..]. Qed.
End HeapDemo.
