(* ===== verification/PageTables.v ===== *)
(** * The page-table mapper

    Models [kernel/src/memory_management/virtual_memory_mapper.rs]: the
    four-level x86-64 page tables, which live in pages of the physical page
    allocator ([PhysPages]) and are accessed through the direct map.  A
    table is the physical address of its page; entry [i] is the word at
    offset [8 * i].  TLB invalidation, tracing and the load of [cr3] have no
    effect on this state. *)
From S2P Require Import Prelude MemLayout PhysPages.

Module PageTables.
Import Memory PhysPages.

(** ** Constants *)
Definition PTE_PRESENT : Z := Z.shiftl 1 0.
Definition PTE_WRITABLE : Z := Z.shiftl 1 1.
Definition PTE_USER : Z := Z.shiftl 1 2.
Definition PTE_WRITETHROUGH : Z := Z.shiftl 1 3.
Definition PTE_NOT_CACHEABLE : Z := Z.shiftl 1 4.
Definition PTE_HUGE_PAGE : Z := Z.shiftl 1 7.
Definition ADDR_MASK : Z := 0x00000000FFFFF000.
Definition KERNEL_L4_INDEX : Z := 0x1FF.
Definition KERNEL_L3_INDEX_START : Z := 0x1FE.
Definition KERNEL_L3_PROCESS_INDEX_START : Z := 0.
Definition KERNEL_L3_PROCESS_INDEX_END : Z := KERNEL_L3_INDEX_START - 1.
Definition KERNEL_PROCESS_VIRTUAL_ADDRESS_START : Z :=
  Z.lor (Z.lor 0xFFFF000000000000 (Z.shiftl KERNEL_L4_INDEX 39)) (Z.shiftl KERNEL_L3_PROCESS_INDEX_START 30).
Definition NUM_USER_L4_INDEXES : Z := KERNEL_L4_INDEX.
Definition MAX_USER_VIRTUAL_ADDRESS : Z :=
  Z.lor (Z.lor (Z.lor (Z.lor 0xFFFF000000000000 (Z.shiftl (KERNEL_L4_INDEX - 1) 39))
    (Z.shiftl 0x1FF 30)) (Z.shiftl 0x1FF 21)) (Z.shiftl 0x1FF 12).
Definition PROCESS_KERNEL_STACK_BASE : Z := KERNEL_PROCESS_VIRTUAL_ADDRESS_START + PAGE_4K.
Definition PROCESS_KERNEL_STACK_SIZE : Z := PAGE_4K * 64.

(** ** Indices *)
Definition get_l4 (addr : Z) : Z := Z.land (Z.shiftr addr 39) 0x1FF.
Definition get_l3 (addr : Z) : Z := Z.land (Z.shiftr addr 30) 0x1FF.
Definition get_l2 (addr : Z) : Z := Z.land (Z.shiftr addr 21) 0x1FF.
Definition get_l1 (addr : Z) : Z := Z.land (Z.shiftr addr 12) 0x1FF.

Record VirtualMemoryMapEntry : Type := mkMapEntry {
  virtual_address : Z;
  physical_address : option Z;
  size : Z;
  flags : Z
}.

(** ** [PageDirectoryTablePtr] *)
Definition from_entry (entry : Z) : Z := Z.land entry ADDR_MASK.
Definition as_virtual (t : Z) : outcome Z :=
  _ ← assert_that (t <? KERNEL_END);
  physical2virtual t.
Definition alloc_new : ST Phys Z :=
  page ← alloc_zeroed;
  lift (virtual2physical page).
Definition free_table (t : Z) : ST Phys unit :=
  v ← lift (as_virtual t);
  free_page v.

(** Entry [i] of a table. *)
Definition read_entry (t i : Z) : ST Phys Z :=
  v ← lift (as_virtual t);
  s ← get;
  mret (load (memory s) (v + 8 * i)).
Definition write_entry (t i e : Z) : ST Phys unit :=
  v ← lift (as_virtual t);
  modify (fun s => mkPhys (allocator s) (store (memory s) (v + 8 * i) e)).

Definition present (e : Z) : bool := negb (Z.land e PTE_PRESENT =? 0).

Record VirtualMemoryMapper : Type := mkVM { page_map_l4 : Z; is_user : bool }.
Definition new : ST Phys VirtualMemoryMapper :=
  t ← alloc_new;
  mret (mkVM t false).

(** One level of the walk of [map]: create the next table if needed, add
    the flags, return the next table. *)
Definition descend (t i fl : Z) : ST Phys Z :=
  e ← read_entry t i;
  _ ← when (negb (present e))
        (next ← alloc_new;
         write_entry t i (Z.lor (Z.land next ADDR_MASK) PTE_PRESENT));
  e ← read_entry t i;
  _ ← write_entry t i (Z.lor e fl);
  mret (from_entry (Z.lor e fl)).

(** The body of [map]'s loop: one 4 KiB page. *)
Definition map_page (l4 va pa fl : Z) : ST Phys unit :=
  l3 ← descend l4 (get_l4 va) fl;
  l2 ← descend l3 (get_l3 va) fl;
  l1 ← descend l2 (get_l2 va) fl;
  write_entry l1 (get_l1 va) (Z.lor (Z.lor (Z.land pa ADDR_MASK) fl) PTE_PRESENT).

Fixpoint map_loop (fuel : nat) (l4 va : Z) (pa : option Z) (sz fl : Z) : ST Phys unit :=
  match fuel with
  | O => diverge
  | S fuel =>
      if 0 <? sz then
        cur ← (match pa with
               | Some p => mret p
               | None => page ← alloc_zeroed; lift (virtual2physical page)
               end);
        _ ← map_page l4 va cur fl;
        let sz := sz - PAGE_4K in
        if sz =? 0 then mret tt
        else
          va ← lift (cadd 64 va PAGE_4K);
          pa ← (match pa with
                | Some p => p ← lift (cadd 64 p PAGE_4K); mret (Some p)
                | None => mret None
                end);
          map_loop fuel l4 va pa sz fl
      else mret tt
  end.

Definition map (vm : VirtualMemoryMapper) (entry : VirtualMemoryMapEntry) : ST Phys unit :=
  v ← lift (as_virtual (page_map_l4 vm));
  _ ← lift (assert_that (negb (v =? 0)));
  al ← lift (is_aligned v PAGE_4K);
  _ ← lift (assert_that al);
  r ← lift (align_range (virtual_address entry) (size entry) PAGE_4K);
  let '(va, sz, _) := r in
  _ ← when (is_user vm)
        (_ ← lift (assert_that (negb (Z.land (flags entry) PTE_USER =? 0)));
         _ ← lift (assert_that (negb (get_l4 va =? KERNEL_L4_INDEX)));
         e ← lift (cadd 64 va sz);
         lift (assert_that (e <=? MAX_USER_VIRTUAL_ADDRESS)));
  pa ← (match physical_address entry with
        | None => mret None
        | Some p =>
            r ← lift (align_range p (size entry) PAGE_4K);
            let '(start, psize, _) := r in
            _ ← lift (assert_that (psize =? sz));
            mret (Some start)
        end);
  _ ← lift (assert_that (0 <? sz));
  map_loop (Z.to_nat (sz / PAGE_4K + 1)) (page_map_l4 vm) va pa sz (flags entry).

(** ** [unmap] *)
Definition strip (t i fl : Z) : ST Phys Z :=
  e ← read_entry t i;
  if negb (present e) then panic
  else
    let e := Z.land e (unot 64 fl) in
    _ ← write_entry t i e;
    mret (from_entry e).

Definition unmap_page (l4 va fl : Z) (is_allocated : bool) : ST Phys unit :=
  l3 ← strip l4 (get_l4 va) fl;
  l2 ← strip l3 (get_l3 va) fl;
  l1 ← strip l2 (get_l2 va) fl;
  e ← read_entry l1 (get_l1 va);
  if negb (present e) then panic
  else
    _ ← when is_allocated (free_table (from_entry e));
    write_entry l1 (get_l1 va) 0.

Fixpoint unmap_loop (fuel : nat) (l4 va sz fl : Z) (is_allocated : bool) : ST Phys unit :=
  match fuel with
  | O => diverge
  | S fuel =>
      if 0 <? sz then
        _ ← unmap_page l4 va fl is_allocated;
        let sz := sz - PAGE_4K in
        if sz =? 0 then mret tt
        else
          va ← lift (cadd 64 va PAGE_4K);
          unmap_loop fuel l4 va sz fl is_allocated
      else mret tt
  end.

Definition unmap (vm : VirtualMemoryMapper) (entry : VirtualMemoryMapEntry) (is_allocated : bool) : ST Phys unit :=
  _ ← lift (assert_that (match physical_address entry with None => true | Some _ => false end));
  r ← lift (align_range (virtual_address entry) (size entry) PAGE_4K);
  let '(va, sz, _) := r in
  _ ← lift (assert_that (0 <? sz));
  unmap_loop (Z.to_nat (sz / PAGE_4K + 1)) (page_map_l4 vm) va sz (flags entry) is_allocated.

Definition is_address_mapped (vm : VirtualMemoryMapper) (addr : Z) : ST Phys bool :=
  e4 ← read_entry (page_map_l4 vm) (get_l4 addr);
  if negb (present e4) then mret false else
  e3 ← read_entry (from_entry e4) (get_l3 addr);
  if negb (present e3) then mret false else
  e2 ← read_entry (from_entry e3) (get_l2 addr);
  if negb (present e2) then mret false else
  if negb (Z.land e2 PTE_HUGE_PAGE =? 0) then mret true else
  e1 ← read_entry (from_entry e2) (get_l1 addr);
  mret (present e1).

(** ** Address spaces *)
Fixpoint copy_entries (n : nat) (i from to : Z) : ST Phys unit :=
  match n with
  | O => mret tt
  | S n =>
      e ← read_entry from i;
      _ ← write_entry to i e;
      copy_entries n (i + 1) from to
  end.

Definition clone_kernel_mem (vm : VirtualMemoryMapper) : ST Phys VirtualMemoryMapper :=
  e ← read_entry (page_map_l4 vm) KERNEL_L4_INDEX;
  let this_kernel_l4 := from_entry e in
  new_vm ← new;
  new_kernel_l4 ← alloc_new;
  _ ← copy_entries 512 0 this_kernel_l4 new_kernel_l4;
  _ ← write_entry (page_map_l4 new_vm) KERNEL_L4_INDEX
        (Z.lor (Z.lor new_kernel_l4 PTE_PRESENT) PTE_WRITABLE);
  mret new_vm.

Fixpoint clear_entries (n : nat) (i t : Z) : ST Phys unit :=
  match n with
  | O => mret tt
  | S n => _ ← write_entry t i 0; clear_entries n (i + 1) t
  end.

Definition add_process_specific_mappings (vm : VirtualMemoryMapper) : ST Phys VirtualMemoryMapper :=
  e ← read_entry (page_map_l4 vm) KERNEL_L4_INDEX;
  _ ← clear_entries (Z.to_nat (KERNEL_L3_PROCESS_INDEX_END - KERNEL_L3_PROCESS_INDEX_START + 1))
        KERNEL_L3_PROCESS_INDEX_START (from_entry e);
  _ ← map (mkVM (page_map_l4 vm) false)
        (mkMapEntry PROCESS_KERNEL_STACK_BASE None PROCESS_KERNEL_STACK_SIZE PTE_WRITABLE);
  mret (mkVM (page_map_l4 vm) true).

(** [new_kernel_vm]; the linker symbols are arguments. *)
Definition new_kernel_vm (kernel_elf_rodata_end stack_guard_page : Z) : ST Phys VirtualMemoryMapper :=
  data_start ← lift (align_up kernel_elf_rodata_end PAGE_4K);
  link ← lift (virtual2physical KERNEL_LINK);
  data ← lift (virtual2physical data_start);
  text_size ← lift (csub data link);
  data_size ← lift (csub KERNEL_MAPPED_SIZE data);
  s ← new;
  _ ← map s (mkMapEntry KERNEL_BASE (Some 0) EXTENDED_OFFSET PTE_WRITABLE);
  _ ← map s (mkMapEntry KERNEL_LINK (Some link) text_size 0);
  _ ← map s (mkMapEntry data_start (Some data) data_size PTE_WRITABLE);
  _ ← unmap s (mkMapEntry stack_guard_page None PAGE_4K 0) false;
  mret s.

(** The kernel's own address space. *)
Definition map_kernel (kernel : VirtualMemoryMapper) (entry : VirtualMemoryMapEntry) : ST Phys unit :=
  _ ← lift (assert_that (KERNEL_BASE <=? virtual_address entry));
  map kernel entry.
Definition unmap_kernel (kernel : VirtualMemoryMapper) (entry : VirtualMemoryMapEntry) (is_allocated : bool)
    : ST Phys unit :=
  _ ← lift (assert_that (KERNEL_BASE <=? virtual_address entry));
  unmap kernel entry is_allocated.

(** ** [do_for_ranges_entries]

    The iterator chain is lazy: an entry is read when the chain reaches it,
    after the handler ran on the entries before it, and nothing is read
    once [take] has yielded its last element.  A [slot] is a place: a table
    and an index. *)
Definition slot : Type := Z * Z.
Definition slots_of (t : Z) : list slot := (fun i => (t, Z.of_nat i)) <$> seq 0 512.

(** [.filter(present).for_each(f)] *)
Fixpoint for_present (f : Z -> Z -> ST Phys unit) (slots : list slot) : ST Phys unit :=
  match slots with
  | [] => mret tt
  | (t, i) :: slots =>
      e ← read_entry t i;
      _ ← when (present e) (f t i);
      for_present f slots
  end.

(** [as_page_directory_table_flat]: the entries of the table a slot points
    to, whether the slot is present or not. *)
Definition table_flat (t i : Z) : ST Phys (list slot) :=
  e ← read_entry t i;
  _ ← lift (physical2virtual (from_entry e));
  mret (slots_of (from_entry e)).

Definition handle_2mb_pages (f : Z -> Z -> ST Phys unit) (t i : Z) : ST Phys unit :=
  e ← read_entry t i;
  if negb (Z.land e PTE_HUGE_PAGE =? 0) then f t i
  else l1 ← table_flat t i; for_present f l1.

(** What the chain does with one level-3 slot after [skip] and [take]. *)
Definition handle_l3 (f : Z -> Z -> ST Phys unit) (t i : Z) : ST Phys unit :=
  e ← read_entry t i;
  when (present e) (l2 ← table_flat t i; for_present (handle_2mb_pages f) l2).

(** [.skip(skip).take(take)] over the slots of one level-3 table; returns
    what is left to skip and to take. *)
Fixpoint l3_loop (f : Z -> Z -> ST Phys unit) (slots : list slot) (skip take : nat) : ST Phys (nat * nat) :=
  match slots, take, skip with
  | [], _, _ => mret (skip, take)
  | _, O, _ => mret (skip, take)
  | _ :: slots, _, S skip => l3_loop f slots skip take
  | (t, i) :: slots, S take, O => _ ← handle_l3 f t i; l3_loop f slots O take
  end.

Fixpoint l4_loop (f : Z -> Z -> ST Phys unit) (slots : list slot) (skip take : nat) : ST Phys unit :=
  match slots, take with
  | [], _ => mret tt
  | _, O => mret tt
  | (t, i) :: slots, _ =>
      l3 ← table_flat t i;
      r ← l3_loop f l3 skip take;
      l4_loop f slots r.1 r.2
  end.

(** Ranges are inclusive bounds, as the source normalises them. *)
Definition do_for_ranges_entries (vm : VirtualMemoryMapper) (l4_start l4_end l3_start l3_end : nat)
    (f : Z -> Z -> ST Phys unit) : ST Phys unit :=
  let l4_take := (l4_end - l4_start + 1)%nat in
  let l3_take := (l3_end - l3_start + 1)%nat in
  l4_loop f (take l4_take (drop l4_start (slots_of (page_map_l4 vm)))) l3_start l3_take.

Definition free_slot (t i : Z) : ST Phys unit :=
  e ← read_entry t i;
  _ ← lift (assert_that (Z.land e PTE_HUGE_PAGE =? 0));
  _ ← free_table (from_entry e);
  write_entry t i 0.

Definition unmap_process_memory (vm : VirtualMemoryMapper) : ST Phys unit :=
  _ ← do_for_ranges_entries vm 0 (Z.to_nat NUM_USER_L4_INDEXES - 1) 0 0x1FF free_slot;
  do_for_ranges_entries vm (Z.to_nat KERNEL_L4_INDEX) (Z.to_nat KERNEL_L4_INDEX)
    (Z.to_nat KERNEL_L3_PROCESS_INDEX_START) (Z.to_nat KERNEL_L3_PROCESS_INDEX_END) free_slot.
End PageTables.
