(* ===== verification/PageTablesSpec.v ===== *)
(** * The page-table mapper: correctness

    Page tables as a tree, and what [map] and [unmap] do to the translation
    of every virtual address. *)
From S2P Require Import Prelude MemLayout PhysPages PageTables.
Import Memory PhysPages PageTables.

(** ** Tables in memory *)
Definition entry (m : mem) (t i : Z) : Z := load m (t + KERNEL_BASE + 8 * i).
Definition table_ok (t : Z) : Prop := 0 <= t /\ t + PAGE_4K <= KERNEL_MAPPED_SIZE /\ t mod PAGE_4K = 0.
Definition idx_ok (i : Z) : Prop := 0 <= i < 512.

Lemma as_virtual_ret t : table_ok t -> as_virtual t = Ret (t + KERNEL_BASE).
Proof.
  intros (H0 & H1 & _). unfold as_virtual.
  rewrite assert_ret by (unfold KERNEL_END, KERNEL_BASE, KERNEL_MAPPED_SIZE, PAGE_4K in *; lia).
  cbn [mbind outcome_bind]. apply physical2virtual_eq. unfold PAGE_4K in *. lia.
Qed.

Lemma wp_read_entry P s t i (Q : Z -> Phys -> Prop) :
  table_ok t -> Q (entry (memory s) t i) s -> wp P (read_entry t i) s Q.
Proof.
  intros Ht HQ. unfold read_entry. apply wp_bind. eapply wp_lift_ret; [by apply as_virtual_ret|].
  apply wp_bind, wp_get. by apply wp_ret.
Qed.

Lemma wp_write_entry P s t i e (Q : unit -> Phys -> Prop) :
  table_ok t -> Q tt (mkPhys (allocator s) (store (memory s) (t + KERNEL_BASE + 8 * i) e)) ->
  wp P (write_entry t i e) s Q.
Proof.
  intros Ht HQ. unfold write_entry. apply wp_bind. eapply wp_lift_ret; [by apply as_virtual_ret|].
  by apply wp_modify.
Qed.

(** Different places are different words. *)
Lemma slot_inj t i t' i' :
  table_ok t -> table_ok t' -> idx_ok i -> idx_ok i' ->
  t + KERNEL_BASE + 8 * i = t' + KERNEL_BASE + 8 * i' -> t = t' /\ i = i'.
Proof.
  intros (_ & _ & Ht) (_ & _ & Ht') Hi Hi' E. unfold idx_ok, PAGE_4K in *.
  apply Z.mod_divide in Ht as [k ->]; [|done]. apply Z.mod_divide in Ht' as [k' ->]; [|done]. lia.
Qed.

Lemma entry_store m t i e t' i' :
  table_ok t -> table_ok t' -> idx_ok i -> idx_ok i' ->
  entry (store m (t + KERNEL_BASE + 8 * i) e) t' i' =
    if decide (t' = t /\ i' = i) then e else entry m t' i'.
Proof.
  intros Ht Ht' Hi Hi'. unfold entry. case_decide as E.
  - destruct E as [-> ->]. apply load_store_eq.
  - apply load_store_ne. intros Heq. apply E. by apply slot_inj.
Qed.

(** ** Entries as bits *)
Lemma present_testbit e : present e = Z.testbit e 0.
Proof.
  unfold present, PTE_PRESENT. change (Z.shiftl 1 0) with (2 ^ 1 - 1). rewrite land_mask by done.
  rewrite <-Z.bit0_mod. by destruct (Z.testbit e 0).
Qed.

(** Flags leave the address field alone. *)
Definition flags_ok (fl : Z) : Prop := 0 <= fl < 2 ^ 64 /\ Z.land fl ADDR_MASK = 0.

Lemma from_entry_lor e fl : flags_ok fl -> from_entry (Z.lor e fl) = from_entry e.
Proof. intros [_ H]. unfold from_entry. by rewrite Z.land_lor_distr_l, H, Z.lor_0_r. Qed.

Lemma present_lor e fl : present e = true -> present (Z.lor e fl) = true.
Proof. rewrite !present_testbit, Z.lor_spec. by intros ->. Qed.

Lemma from_entry_strip e fl : flags_ok fl -> from_entry (Z.land e (unot 64 fl)) = from_entry e.
Proof.
  intros [_ H]. unfold from_entry, unot. apply Z.bits_inj'. intros i Hi.
  rewrite !Z.land_spec, Z.lxor_spec, testbit_ones by lia.
  assert (Z.testbit fl i && Z.testbit ADDR_MASK i = false) as Hf.
  { rewrite <-Z.land_spec, H. apply Z.testbit_0_l. }
  destruct (Z.testbit ADDR_MASK i) eqn:Em; [|by rewrite !andb_false_r].
  rewrite andb_true_r in Hf. rewrite Hf. destruct (Z.ltb_spec i 64); [by rewrite !andb_true_r|].
  exfalso. assert (Z.testbit ADDR_MASK i = false) by (apply (testbit_small 64); [done|lia]). congruence.
Qed.

Lemma land_strip e fl : 0 <= fl < 2 ^ 64 -> Z.land (Z.land e (unot 64 fl)) fl = 0.
Proof.
  intros H. apply Z.bits_inj'. intros i Hi. unfold unot.
  rewrite !Z.land_spec, Z.lxor_spec, testbit_ones, Z.testbit_0_l by lia.
  destruct (Z.testbit fl i) eqn:E; [|by rewrite andb_false_r].
  destruct (Z.ltb_spec i 64); simpl; [by rewrite andb_false_r|].
  rewrite (testbit_small 64 fl i) in E; done || lia.
Qed.

Lemma present_strip e fl :
  Z.testbit fl 0 = false -> present (Z.land e (unot 64 fl)) = present e.
Proof.
  intros H. rewrite !present_testbit. unfold unot.
  rewrite Z.land_spec, Z.lxor_spec, testbit_ones by lia. rewrite H. simpl. apply andb_true_r.
Qed.

Lemma mask_table t : table_ok t -> Z.land t ADDR_MASK = t.
Proof.
  intros (H0 & H1 & Hm). assert (in_word 27 t) as Hw by (unfold in_word, KERNEL_MAPPED_SIZE, PAGE_4K in *; lia).
  unfold PAGE_4K in Hm. change 4096 with (2 ^ 12) in Hm.
  apply Z.bits_inj'. intros i Hi. rewrite Z.land_spec.
  change ADDR_MASK with (Z.land (Z.ones 32) (Z.lnot (Z.ones 12))).
  rewrite Z.land_spec, Z.lnot_spec, !testbit_ones by lia.
  destruct (Z.ltb_spec i 12).
  - assert (Z.testbit t i = false) as ->.
    { rewrite <-(Z.mod_pow2_bits_low t 12 i) by lia. rewrite Hm. apply Z.testbit_0_l. }
    done.
  - destruct (Z.ltb_spec i 32); [by rewrite !andb_true_r|]. rewrite (testbit_small 27 t i); [done|done|lia].
Qed.

(** ** The tree of tables

    A table is named by the path of indices that leads to it from the root;
    [G] gives the physical address of the table at a path. *)
Definition path : Type := list Z.
Definition shape : Type := path -> option Z.

Record tree (m : mem) (l4 : Z) (G : shape) : Prop := {
  tr_root : G [] = Some l4;
  tr_table : forall p t, G p = Some t -> table_ok t;
  tr_inj : forall p q t, G p = Some t -> G q = Some t -> p = q;
  tr_orphan : forall p i, G p = None -> G (p ++ [i]) = None;
  tr_child : forall p t i, G p = Some t -> (length p < 3)%nat -> idx_ok i ->
    G (p ++ [i]) = if present (entry m t i) then Some (from_entry (entry m t i)) else None;
  tr_depth : forall p t, G p = Some t -> (length p <= 3)%nat;
  tr_idx : forall p i t, G (p ++ [i]) = Some t -> idx_ok i
}.

(** The mapper's state: the tables, and the free pages [pages] of the
    allocator, all inside the direct map and distinct from the tables. *)
Record vm_inv (s : Phys) (l4 : Z) (G : shape) (pages : list Z) : Prop := {
  vi_tree : tree (memory s) l4 G;
  vi_alloc : inv s pages;
  vi_window : Forall (fun p => KERNEL_BASE <= p /\ p + PAGE_4K <= KERNEL_END) pages;
  vi_sep : forall p t, G p = Some t -> t + KERNEL_BASE ∉ pages;
  vi_used : used_count (allocator s) + Z.of_nat (length pages) < 2 ^ 64
}.

(** The leaf entry a walk of the tables finds. *)
Definition walk (m : mem) (l4 va : Z) : option Z :=
  let e4 := entry m l4 (get_l4 va) in
  if negb (present e4) then None else
  let e3 := entry m (from_entry e4) (get_l3 va) in
  if negb (present e3) then None else
  let e2 := entry m (from_entry e3) (get_l2 va) in
  if negb (present e2) then None else
  let e1 := entry m (from_entry e2) (get_l1 va) in
  if present e1 then Some e1 else None.

Lemma get_idx a k : idx_ok (Z.land (Z.shiftr a k) 0x1FF).
Proof.
  change 0x1FF with (2 ^ 9 - 1). rewrite land_mask by done. apply Z.mod_pos_bound. done.
Qed.
Lemma l4_idx va : idx_ok (get_l4 va). Proof. apply get_idx. Qed.
Lemma l3_idx va : idx_ok (get_l3 va). Proof. apply get_idx. Qed.
Lemma l2_idx va : idx_ok (get_l2 va). Proof. apply get_idx. Qed.
Lemma l1_idx va : idx_ok (get_l1 va). Proof. apply get_idx. Qed.
#[global] Hint Resolve l4_idx l3_idx l2_idx l1_idx : core.

Definition leaf_path (va : Z) : path := [get_l4 va; get_l3 va; get_l2 va].

(** The walk, read off the tree. *)
Lemma walk_tree m l4 G va :
  tree m l4 G ->
  walk m l4 va = match G (leaf_path va) with
                 | Some t => if present (entry m t (get_l1 va)) then Some (entry m t (get_l1 va)) else None
                 | None => None
                 end.
Proof.
  intros Ht. unfold walk, leaf_path.
  pose proof (tr_child _ _ _ Ht [] l4 (get_l4 va) (tr_root _ _ _ Ht) ltac:(simpl; lia) ltac:(done)) as H4.
  simpl in H4. destruct (present (entry m l4 (get_l4 va))) eqn:P4; simpl.
  2: { pose proof (tr_orphan _ _ _ Ht _ (get_l2 va) (tr_orphan _ _ _ Ht _ (get_l3 va) H4)) as H.
       simpl in H. by rewrite H. }
  pose proof (tr_child _ _ _ Ht _ _ (get_l3 va) H4 ltac:(simpl; lia) ltac:(done)) as H3.
  simpl in H3. destruct (present (entry m _ (get_l3 va))) eqn:P3; simpl.
  2: { pose proof (tr_orphan _ _ _ Ht _ (get_l2 va) H3) as H. simpl in H. by rewrite H. }
  pose proof (tr_child _ _ _ Ht _ _ (get_l2 va) H3 ltac:(simpl; lia) ltac:(done)) as H2.
  simpl in H2. destruct (present (entry m _ (get_l2 va))) eqn:P2; simpl; by rewrite H2.
Qed.

(** Writing an upper entry without changing where it points keeps the tree. *)
Lemma tree_same_target m l4 G p t i e :
  tree m l4 G -> G p = Some t -> idx_ok i ->
  ((length p < 3)%nat -> present e = present (entry m t i) /\ from_entry e = from_entry (entry m t i)) ->
  tree (store m (t + KERNEL_BASE + 8 * i) e) l4 G.
Proof.
  intros Ht Hp Hi He. destruct Ht as [T1 T2 T3 T4 T5 T6 T7]. split; try done.
  intros q u j Hq Hlen Hj. rewrite entry_store by eauto. case_decide as E; [|by apply T5].
  destruct E as [-> ->]. assert (q = p) as -> by eauto. destruct (He Hlen) as [-> ->]. by apply T5.
Qed.

(** Hanging a fresh, empty table below an absent entry. *)
Lemma tree_new_table m l4 G p t i n e :
  tree m l4 G -> G p = Some t -> (length p < 3)%nat -> idx_ok i -> present (entry m t i) = false ->
  table_ok n -> (forall q, G q <> Some n) -> (forall j, idx_ok j -> entry m n j = 0) ->
  present e = true -> from_entry e = n ->
  tree (store m (t + KERNEL_BASE + 8 * i) e) l4 (fun q => if decide (q = p ++ [i]) then Some n else G q).
Proof.
  intros Ht Hp Hlen Hi Habs Hn Hfresh Hz Hpe Hfe. destruct Ht as [T1 T2 T3 T4 T5 T6 T7].
  assert (G (p ++ [i]) = None) as Hnone by (rewrite (T5 p t i Hp Hlen Hi); by rewrite Habs).
  assert (table_ok t) as Htok by eauto.
  split.
  - rewrite decide_False; [done|]. by destruct p.
  - intros q u. case_decide; [by intros [= <-]|apply T2].
  - intros q r u. case_decide as E1; case_decide as E2; intros H1 H2; simplify_eq; try done.
    + by destruct (Hfresh r).
    + by destruct (Hfresh q).
    + eauto.
  - intros q j. case_decide as E1; [done|]. intros Hq. case_decide as E2; [|by apply T4].
    apply app_inj_tail in E2 as [-> ->]. congruence.
  - intros q u j Hq Hql Hj. case_decide as E1.
    + injection Hq as <-. rewrite decide_False by (subst q; intros E2; apply (f_equal length) in E2; rewrite !length_app in E2; simpl in E2; lia).
      rewrite entry_store by done. rewrite decide_False by (intros [-> _]; by apply (Hfresh p)).
      rewrite (Hz j Hj). subst q. by rewrite T4.
    + rewrite entry_store by eauto. case_decide as E2.
      * apply app_inj_tail in E2 as [-> ->]. rewrite Hp in Hq. injection Hq as <-.
        rewrite decide_True by done. by rewrite Hpe, Hfe.
      * rewrite decide_False; [by apply T5|]. intros [-> ->]. assert (q = p) as -> by eauto. done.
  - intros q u. case_decide as E1; [|apply T6]. intros _. subst q. rewrite length_app. simpl. lia.
  - intros q j u. case_decide as E1; [|apply T7]. intros _. apply app_inj_tail in E1 as [_ ->]. done.
Qed.

(** ** Allocating a table *)
Lemma wp_alloc_page P s l4 G pg pages (Q : Z -> Phys -> Prop) :
  vm_inv s l4 G (pg :: pages) ->
  (forall s', vm_inv s' l4 G pages -> (forall x, in_page pg x -> load (memory s') x = 0) ->
     (forall x, ~ in_page pg x -> load (memory s') x = load (memory s) x) -> Q pg s') ->
  wp P alloc_zeroed s Q.
Proof.
  intros [V1 V2 V3 V4 V5] HQ. simpl in V5. unfold alloc_zeroed. apply wp_bind.
  eapply wp_mono; [apply (alloc_spec _ _ _ _ V2); lia|].
  intros r s' (-> & Hi & Hok & _ & _ & _ & _ & Hout & Hused). apply wp_bind, wp_modify, wp_ret.
  apply Forall_cons in V3 as [Vp V3]. pose proof (inv_nodup _ _ V2) as Hnd. apply NoDup_cons in Hnd as [Hnin _].
  pose proof (inv_page _ _ pg V2 ltac:(set_solver)) as Hpg.
  assert (forall x, ~ in_page pg x -> load (fill (memory s') pg 0 PAGE_4K) x = load (memory s) x) as Hfr.
  { intros x Hx. rewrite load_fill_out by done. by apply Hout. }
  apply HQ; [|intros x Hx; by apply load_fill_in|exact Hfr].
  split; simpl; try done.
  - destruct V1 as [T1 T2 T3 T4 T5 T6 T7]. split; try done. intros p t i Hp Hl Hi'.
    assert (entry (fill (memory s') pg 0 PAGE_4K) t i = entry (memory s) t i) as ->; [|by apply T5].
    apply Hfr. intros Hx. apply (V4 p t Hp). destruct (T2 p t Hp) as (_ & _ & Ht).
    assert (t + KERNEL_BASE = pg) as ->; [|set_solver]. symmetry. apply (in_page_disjoint _ _ _) with (3 := Hx).
    + apply Hpg.
    + by rewrite Z.add_mod, Ht.
    + unfold in_page, idx_ok, PAGE_4K in *. lia.
  - apply inv_frame; [|done]. intros q Hq. apply load_fill_out. intros Hx. apply Hnin.
    pose proof (inv_page _ _ q V2 ltac:(set_solver)) as Hqo.
    rewrite (in_page_disjoint pg q q); [done|apply Hpg|apply Hqo|done|apply in_page_self].
  - intros p t Hp Hin. apply (V4 p t Hp). set_solver.
  - lia.
Qed.

Lemma wp_alloc_new P s l4 G pg pages (Q : Z -> Phys -> Prop) :
  vm_inv s l4 G (pg :: pages) ->
  (forall t s', vm_inv s' l4 G pages -> table_ok t -> t + KERNEL_BASE ∉ pages -> (forall p, G p <> Some t) ->
     (forall j, idx_ok j -> entry (memory s') t j = 0) ->
     (forall x, ~ in_page (t + KERNEL_BASE) x -> load (memory s') x = load (memory s) x) -> Q t s') ->
  wp P alloc_new s Q.
Proof.
  intros Hvm HQ. pose proof Hvm as [V1 V2 V3 V4 V5]. apply Forall_cons in V3 as [Vp V3].
  pose proof (inv_page _ _ pg V2 ltac:(set_solver)) as (_ & Hal & _).
  unfold alloc_new. apply wp_bind. eapply wp_alloc_page; [done|]. intros s' Hvm' Hz Hfr.
  eapply wp_lift_ret; [apply virtual2physical_eq; unfold PAGE_4K in *; lia|].
  assert (pg - KERNEL_BASE + KERNEL_BASE = pg) as Epg by lia. apply HQ; rewrite ?Epg; try done.
  - assert ((pg - KERNEL_BASE) mod PAGE_4K = 0) by (by rewrite Zminus_mod, Hal).
    unfold table_ok, KERNEL_END in *. lia.
  - pose proof (inv_nodup _ _ V2) as Hnd. by apply NoDup_cons in Hnd as [Hnd _].
  - intros p Hp. apply (V4 p _ Hp). rewrite Epg. set_solver.
  - intros j Hj. unfold entry. rewrite Epg. apply Hz. unfold in_page, idx_ok, PAGE_4K in *. lia.
Qed.

(** What the walk of [map] does to the tables above the leaves. *)
Record extends (m : mem) (G : shape) (m' : mem) (G' : shape) : Prop := {
  ex_keep : forall p t, G p = Some t -> G' p = Some t;
  ex_leaf : forall p t i, G p = Some t -> length p = 3%nat -> idx_ok i -> entry m' t i = entry m t i;
  ex_new : forall p t i, G' p = Some t -> G p = None -> length p = 3%nat -> idx_ok i -> entry m' t i = 0
}.

Lemma extends_refl m G : extends m G m G.
Proof. split; try done. intros; congruence. Qed.

Lemma extends_trans m1 G1 m2 G2 m3 G3 :
  extends m1 G1 m2 G2 -> extends m2 G2 m3 G3 -> extends m1 G1 m3 G3.
Proof.
  intros [A1 A2 A3] [B1 B2 B3]. split; [auto| |].
  - intros p t i Hp Hl Hi. rewrite (B2 p t i (A1 _ _ Hp) Hl Hi). by apply (A2 p).
  - intros p t i Hp Hn Hl Hi. destruct (G2 p) as [u|] eqn:E2; [|by apply (B3 p)].
    assert (G3 p = Some u) as E3 by auto. rewrite E3 in Hp. injection Hp as ->.
    rewrite (B2 p t i) by done. by apply (A3 p).
Qed.

Lemma walk_extends m G m' G' l4 va :
  tree m l4 G -> tree m' l4 G' -> extends m G m' G' -> walk m' l4 va = walk m l4 va.
Proof.
  intros Ht Ht' [E1 E2 E3]. rewrite (walk_tree _ _ _ _ Ht), (walk_tree _ _ _ _ Ht').
  destruct (G (leaf_path va)) as [t|] eqn:EG.
  - rewrite (E1 _ _ EG). by rewrite (E2 _ _ _ EG) by done.
  - destruct (G' (leaf_path va)) as [t|] eqn:EG'; [|done]. by rewrite (E3 _ _ _ EG' EG).
Qed.

(** A write to an upper table or a flag change keeps the state. *)
Lemma inv_store s pages t i e :
  inv s pages -> table_ok t -> t + KERNEL_BASE ∉ pages -> idx_ok i ->
  inv (mkPhys (allocator s) (store (memory s) (t + KERNEL_BASE + 8 * i) e)) pages.
Proof.
  intros Hinv (_ & _ & Htm) Hnin Hi. apply inv_frame; [|done].
  intros q Hq. apply load_store_ne. intros ->. apply Hnin.
  pose proof (inv_page _ _ _ Hinv Hq) as (_ & Hqm & _).
  assert (t + KERNEL_BASE = t + KERNEL_BASE + 8 * i) as ->; [|done].
  apply (in_page_disjoint _ _ (t + KERNEL_BASE + 8 * i)).
  - by rewrite Z.add_mod, Htm.
  - done.
  - unfold in_page, idx_ok, PAGE_4K in *. lia.
  - apply in_page_self.
Qed.

Lemma vm_store s l4 G pages t p i e :
  vm_inv s l4 G pages -> G p = Some t -> idx_ok i ->
  tree (store (memory s) (t + KERNEL_BASE + 8 * i) e) l4 G ->
  vm_inv (mkPhys (allocator s) (store (memory s) (t + KERNEL_BASE + 8 * i) e)) l4 G pages.
Proof.
  intros [V1 V2 V3 V4 V5] Hp Hi Ht. split; try done.
  apply inv_store; [done|by eapply (tr_table _ _ _ V1)|by eapply V4|done].
Qed.

Lemma extends_store m l4 G p t i e :
  tree m l4 G -> G p = Some t -> (length p < 3)%nat -> idx_ok i ->
  extends m G (store m (t + KERNEL_BASE + 8 * i) e) G.
Proof.
  intros Ht Hp Hl Hi. split; [done| |congruence]. intros q u j Hq Hql Hj.
  rewrite entry_store by (try done; eapply (tr_table _ _ _ Ht); done).
  rewrite decide_False; [done|]. intros [-> _]. assert (q = p) as -> by (eapply (tr_inj _ _ _ Ht); done). lia.
Qed.

(** The second half of [descend]: the entry is present, flags are added. *)
Lemma wp_add_flags P s l4 G pages p t i fl (Q : Z -> Phys -> Prop) :
  vm_inv s l4 G pages -> G p = Some t -> (length p < 3)%nat -> idx_ok i -> flags_ok fl ->
  present (entry (memory s) t i) = true ->
  (forall t' s', vm_inv s' l4 G pages -> G (p ++ [i]) = Some t' -> extends (memory s) G (memory s') G -> Q t' s') ->
  wp P (e ← read_entry t i; _ ← write_entry t i (Z.lor e fl); mret (from_entry (Z.lor e fl))) s Q.
Proof.
  intros Hvm Hp Hl Hi Hfl Hpres HQ. pose proof (vi_tree _ _ _ _ Hvm) as Ht.
  assert (table_ok t) as Htok by (eapply (tr_table _ _ _ Ht); done).
  apply wp_bind, wp_read_entry; [done|]. apply wp_bind, wp_write_entry; [done|]. apply wp_ret. apply HQ.
  - eapply vm_store; [done|done|done|]. apply (tree_same_target _ _ _ p); try done.
    intros _. split; [by rewrite present_lor|by apply from_entry_lor].
  - rewrite from_entry_lor by done. rewrite (tr_child _ _ _ Ht p t i) by done. by rewrite Hpres.
  - by apply (extends_store _ l4 _ p).
Qed.

Lemma wp_descend P s l4 G pages p t i fl (Q : Z -> Phys -> Prop) :
  vm_inv s l4 G pages -> G p = Some t -> (length p < 3)%nat -> idx_ok i -> flags_ok fl -> pages <> [] ->
  (forall t' s' G' pages', vm_inv s' l4 G' pages' -> G' (p ++ [i]) = Some t' ->
     extends (memory s) G (memory s') G' -> (length pages <= S (length pages'))%nat -> Q t' s') ->
  wp P (descend t i fl) s Q.
Proof.
  intros Hvm Hp Hl Hi Hfl Hne HQ. pose proof (vi_tree _ _ _ _ Hvm) as Ht.
  assert (table_ok t) as Htok by (eapply (tr_table _ _ _ Ht); done).
  unfold descend. apply wp_bind, wp_read_entry; [done|].
  destruct (present (entry (memory s) t i)) eqn:Epres; simpl.
  { apply wp_bind, wp_ret. eapply wp_add_flags; [done..|].
    intros t' s' Hvm' HG Hex. eapply HQ; [done|done|done|lia]. }
  destruct pages as [|pg pages]; [done|]. apply wp_bind, wp_bind. eapply wp_alloc_new; [done|].
  intros n s1 Hvm1 Hn Hnin Hfresh Hz Hfr. apply wp_write_entry; [done|].
  set (e := Z.lor (Z.land n ADDR_MASK) PTE_PRESENT).
  set (G' := fun q => if decide (q = p ++ [i]) then Some n else G q).
  assert (forall q u j, G q = Some u -> idx_ok j -> entry (memory s1) u j = entry (memory s) u j) as Hsame.
  { intros q u j Hq Hj. apply Hfr. intros Hx. apply (Hfresh q).
    destruct (tr_table _ _ _ Ht _ _ Hq) as (_ & _ & Hum). destruct Hn as (_ & _ & Hnm).
    assert (u + KERNEL_BASE = n + KERNEL_BASE); [|rewrite Hq; f_equal; lia].
    apply (in_page_disjoint _ _ (u + KERNEL_BASE + 8 * j)); [by rewrite Z.add_mod, Hum|by rewrite Z.add_mod, Hnm| |done].
    unfold in_page, idx_ok, PAGE_4K in *. lia. }
  assert (present e = true /\ from_entry e = n) as [He1 He2].
  { split; [rewrite present_testbit; unfold e; rewrite Z.lor_spec; apply orb_true_r|].
    unfold e. rewrite from_entry_lor by done. unfold from_entry. by rewrite !(mask_table n Hn). }
  pose proof (vi_tree _ _ _ _ Hvm1) as Ht1.
  assert (tree (store (memory s1) (t + KERNEL_BASE + 8 * i) e) l4 G') as Ht2.
  { apply tree_new_table; try done. by rewrite (Hsame p t i). }
  assert (vm_inv (mkPhys (allocator s1) (store (memory s1) (t + KERNEL_BASE + 8 * i) e)) l4 G' pages) as Hvm2.
  { destruct Hvm1 as [_ W2 W3 W4 W5]. split; try done.
    - apply inv_store; [done|done|by eapply W4|done].
    - intros q u. unfold G'. case_decide; [by intros [= <-]|apply W4]. }
  eapply (wp_add_flags _ _ l4 G' pages p); [done| |done|done|done| |].
  - unfold G'. rewrite decide_False; [done|]. intros E. apply (f_equal length) in E. rewrite length_app in E. simpl in E. lia.
  - simpl. rewrite entry_store by done. by rewrite decide_True.
  - intros t' s' Hvm' HG Hex. eapply HQ; [done|done| |simpl; lia].
    eapply extends_trans; [|exact Hex]. simpl.
    assert (G (p ++ [i]) = None) as Hnone by (rewrite (tr_child _ _ _ Ht p t i) by done; by rewrite Epres).
    split.
    + intros q u Hq. unfold G'. case_decide; [congruence|done].
    + intros q u j Hq Hql Hj. assert (table_ok u) by (by eapply (tr_table _ _ _ Ht)).
      rewrite entry_store by done. rewrite decide_False; [by eapply Hsame|].
      intros [-> _]. assert (q = p) as -> by (eapply (tr_inj _ _ _ Ht); done). lia.
    + intros q u j Hq Hnq Hql Hj. unfold G' in Hq. case_decide; [|congruence]. injection Hq as <-.
      rewrite entry_store by done. rewrite decide_False; [by apply Hz|]. intros [-> _]. by apply (Hfresh p).
Qed.

(** ** One page *)
Definition same_page (va va' : Z) : Prop :=
  get_l4 va = get_l4 va' /\ get_l3 va = get_l3 va' /\ get_l2 va = get_l2 va' /\ get_l1 va = get_l1 va'.
#[global] Instance same_page_dec va va' : Decision (same_page va va').
Proof. unfold same_page. apply _. Defined.

(** Writing a leaf changes the translation of one page. *)
Lemma walk_leaf_store m l4 G t va e :
  tree m l4 G -> G (leaf_path va) = Some t ->
  let m' := store m (t + KERNEL_BASE + 8 * get_l1 va) e in
  tree m' l4 G /\
  forall va', walk m' l4 va' =
    if decide (same_page va va') then (if present e then Some e else None) else walk m l4 va'.
Proof.
  intros Ht HG m'. assert (tree m' l4 G) as Ht'.
  { eapply tree_same_target; [done|done|done|]. simpl. lia. }
  split; [done|]. intros va'. rewrite (walk_tree _ _ _ _ Ht'), (walk_tree _ _ _ _ Ht).
  assert (table_ok t) as Htok by (by eapply (tr_table _ _ _ Ht)).
  case_decide as Hsp.
  - destruct Hsp as (E4 & E3 & E2 & E1). unfold leaf_path in *. rewrite <-E4, <-E3, <-E2, HG, <-E1.
    unfold m'. rewrite entry_store by done. by rewrite decide_True.
  - destruct (G (leaf_path va')) as [t'|] eqn:EG'; [|done].
    assert (table_ok t') by (by eapply (tr_table _ _ _ Ht)).
    assert (entry m' t' (get_l1 va') = entry m t' (get_l1 va')) as ->; [|done].
    unfold m'. rewrite entry_store by done. rewrite decide_False; [done|]. intros [-> E1].
    apply Hsp. assert (leaf_path va = leaf_path va') as Ep by (eapply (tr_inj _ _ _ Ht); done).
    unfold leaf_path in Ep. injection Ep as E4 E3 E2. by split_and!.
Qed.

(** The leaf entry [map] writes. *)
Definition leaf_entry (pa fl : Z) : Z := Z.lor (Z.lor (Z.land pa ADDR_MASK) fl) PTE_PRESENT.

Lemma leaf_entry_present pa fl : present (leaf_entry pa fl) = true.
Proof. rewrite present_testbit. unfold leaf_entry. rewrite Z.lor_spec. apply orb_true_r. Qed.

Lemma wp_map_page P s l4 G pages va pa fl (Q : unit -> Phys -> Prop) :
  vm_inv s l4 G pages -> flags_ok fl -> (3 <= length pages)%nat ->
  (forall s' G' pages', vm_inv s' l4 G' pages' -> (length pages <= 3 + length pages')%nat ->
     (forall va', walk (memory s') l4 va' =
        if decide (same_page va va') then Some (leaf_entry pa fl) else walk (memory s) l4 va') -> Q tt s') ->
  wp P (map_page l4 va pa fl) s Q.
Proof.
  intros Hvm Hfl Hlen HQ. unfold map_page. apply wp_bind.
  pose proof (tr_root _ _ _ (vi_tree _ _ _ _ Hvm)) as Hroot.
  apply (wp_descend P s l4 G pages [] l4); [exact Hvm|exact Hroot|simpl; lia|done|exact Hfl|intros ->; simpl in Hlen; lia|].
  intros l3 s1 G1 p1 V1 HG1 X1 L1. apply wp_bind.
  apply (wp_descend P s1 l4 G1 p1 [get_l4 va] l3); [exact V1|exact HG1|simpl; lia|done|exact Hfl|intros ->; clear -Hlen L1; simpl in L1; lia|].
  intros l2 s2 G2 p2 V2 HG2 X2 L2. apply wp_bind.
  apply (wp_descend P s2 l4 G2 p2 [get_l4 va; get_l3 va] l2); [exact V2|exact HG2|simpl; lia|done|exact Hfl|intros ->; clear -Hlen L1 L2; simpl in L2; lia|].
  intros l1 s3 G3 p3 V3 HG3 X3 L3. pose proof (vi_tree _ _ _ _ V3) as T3.
  assert (G3 (leaf_path va) = Some l1) as HG3' by exact HG3.
  destruct (walk_leaf_store _ _ _ l1 va (leaf_entry pa fl) T3 HG3') as [T4 W4].
  apply wp_write_entry; [by eapply (tr_table _ _ _ T3)|].
  eapply (HQ _ G3 p3); [by eapply vm_store|lia|]. intros va'. rewrite W4, leaf_entry_present.
  case_decide; [done|]. eapply (walk_extends _ _ _ _ _ _ (vi_tree _ _ _ _ Hvm) T3).
  eapply extends_trans; [exact X1|]. by eapply extends_trans.
Qed.

(** ** [unmap] of one page *)
Lemma wp_strip P s l4 G pages p t i fl t' (Q : Z -> Phys -> Prop) :
  vm_inv s l4 G pages -> G p = Some t -> (length p < 3)%nat -> idx_ok i -> flags_ok fl ->
  Z.testbit fl 0 = false -> G (p ++ [i]) = Some t' ->
  (forall s', vm_inv s' l4 G pages -> extends (memory s) G (memory s') G ->
     Z.land (entry (memory s') t i) fl = 0 ->
     (forall q u j, G q = Some u -> q <> p -> idx_ok j -> entry (memory s') u j = entry (memory s) u j) ->
     Q t' s') ->
  wp P (strip t i fl) s Q.
Proof.
  intros Hvm Hp Hl Hi Hfl Hfl0 Hc HQ. pose proof (vi_tree _ _ _ _ Hvm) as Ht.
  assert (table_ok t) as Htok by (by eapply (tr_table _ _ _ Ht)).
  rewrite (tr_child _ _ _ Ht p t i Hp Hl Hi) in Hc. destruct (present _) eqn:Epres; [|done]. injection Hc as <-.
  unfold strip. apply wp_bind, wp_read_entry; [done|]. rewrite Epres. simpl.
  apply wp_bind, wp_write_entry; [done|]. apply wp_ret. rewrite from_entry_strip by done. apply HQ; simpl.
  - eapply vm_store; [done|done|done|]. eapply tree_same_target; [done|done|done|].
    intros _. split; [by apply present_strip|by apply from_entry_strip].
  - by eapply extends_store.
  - rewrite entry_store by done. rewrite decide_True by done. apply land_strip, Hfl.
  - intros q u j Hq Hne Hj. assert (table_ok u) by (by eapply (tr_table _ _ _ Ht)).
    rewrite entry_store by done. rewrite decide_False; [done|]. intros [-> _].
    apply Hne. by eapply (tr_inj _ _ _ Ht).
Qed.

(** Unmapping a mapped page removes its translation and no other. *)
Lemma wp_unmap_page P s l4 G pages va fl t (Q : unit -> Phys -> Prop) :
  vm_inv s l4 G pages -> flags_ok fl -> Z.testbit fl 0 = false ->
  G (leaf_path va) = Some t -> present (entry (memory s) t (get_l1 va)) = true ->
  (forall s', vm_inv s' l4 G pages ->
     (forall va', walk (memory s') l4 va' =
        if decide (same_page va va') then None else walk (memory s) l4 va') ->
     Z.land (entry (memory s') l4 (get_l4 va)) fl = 0 -> Q tt s') ->
  wp P (unmap_page l4 va fl false) s Q.
Proof.
  intros Hvm Hfl Hfl0 HG Hpres HQ. pose proof (vi_tree _ _ _ _ Hvm) as Ht.
  assert (exists l3, G [get_l4 va] = Some l3) as [l3 H3].
  { destruct (G [get_l4 va]) as [l3|] eqn:E; [by exists l3|].
    pose proof (tr_orphan _ _ _ Ht _ (get_l2 va) (tr_orphan _ _ _ Ht _ (get_l3 va) E)) as N.
    change (G (leaf_path va) = None) in N. rewrite HG in N. discriminate N. }
  assert (exists l2, G [get_l4 va; get_l3 va] = Some l2) as [l2 H2].
  { destruct (G [get_l4 va; get_l3 va]) as [l2|] eqn:E; [by exists l2|].
    pose proof (tr_orphan _ _ _ Ht _ (get_l2 va) E) as N.
    change (G (leaf_path va) = None) in N. rewrite HG in N. discriminate N. }
  unfold unmap_page. apply wp_bind.
  pose proof (tr_root _ _ _ Ht) as Hroot.
  apply (wp_strip P s l4 G pages [] l4 _ _ l3); [exact Hvm|exact Hroot|simpl; lia|done|exact Hfl|exact Hfl0|exact H3|]. intros s1 V1 X1 Z1 F1.
  apply wp_bind. apply (wp_strip P s1 l4 G pages [get_l4 va] l3 _ _ l2); [exact V1|exact H3|simpl; lia|done|exact Hfl|exact Hfl0|exact H2|]. intros s2 V2 X2 _ F2.
  apply wp_bind. apply (wp_strip P s2 l4 G pages [get_l4 va; get_l3 va] l2 _ _ t); [exact V2|exact H2|simpl; lia|done|exact Hfl|exact Hfl0|exact HG|]. intros s3 V3 X3 _ F3.
  assert (extends (memory s) G (memory s3) G) as X by (eapply extends_trans; [exact X1|]; by eapply extends_trans).
  pose proof (vi_tree _ _ _ _ V3) as T3. assert (table_ok t) as Htok by (by eapply (tr_table _ _ _ Ht)).
  apply wp_bind, wp_read_entry; [done|]. rewrite (ex_leaf _ _ _ _ X _ _ _ HG) by done. rewrite Hpres. simpl.
  apply wp_bind, wp_ret, wp_write_entry; [done|].
  destruct (walk_leaf_store _ _ _ t va 0 T3 HG) as [T4 W4]. apply HQ.
  - by eapply vm_store.
  - intros va'. cbn [memory]. rewrite W4. case_decide; [done|]. by eapply (walk_extends _ G _ G).
  - cbn [memory]. pose proof (tr_table _ _ _ Ht _ _ Hroot) as Hl4.
    rewrite (entry_store _ _ _ _ _ _ Htok Hl4) by done. rewrite decide_False.
    + rewrite (F3 [] l4 _ Hroot), (F2 [] l4 _ Hroot) by done. exact Z1.
    + intros [E _]. rewrite <-E in HG. pose proof (tr_inj _ _ _ Ht _ _ _ Hroot HG) as E'. discriminate E'.
Qed.
