(* ===== verification/PageTablesMap.v ===== *)
(** * The page-table mapper: ranges

    What [map] and [unmap] of a whole range do to the translation of every
    virtual address, the flags [unmap] takes from its neighbours, and the
    slots [do_for_ranges_entries] visits. *)
From S2P Require Import Prelude MemLayout PhysPages PageTables PageTablesSpec.
Import Memory PhysPages PageTables.

(** ** Virtual page numbers

    The walk looks at bits 12 to 47 of an address. *)
Definition vpn (va : Z) : Z := (va / PAGE_4K) mod 2 ^ 36.

Lemma vpn_indices va :
  vpn va = ((get_l4 va * 512 + get_l3 va) * 512 + get_l2 va) * 512 + get_l1 va.
Proof.
  unfold vpn, get_l4, get_l3, get_l2, get_l1, PAGE_4K.
  change 0x1FF with (2 ^ 9 - 1). rewrite !land_mask, !Z.shiftr_div_pow2 by done.
  change (2 ^ 39) with (4096 * 512 * 512 * 512). change (2 ^ 30) with (4096 * 512 * 512).
  change (2 ^ 21) with (4096 * 512). change (2 ^ 12) with 4096. change (2 ^ 9) with 512.
  change (2 ^ 36) with (512 * 512 * 512 * 512).
  rewrite <-!Z.div_div by done. set (a := va / 4096). clearbody a.
  assert (a = (a / 512) * 512 + a mod 512) as E1 by (pose proof (Z.div_mod a 512); lia).
  set (b := a / 512) in *. assert (b = (b / 512) * 512 + b mod 512) as E2 by (pose proof (Z.div_mod b 512); lia).
  set (c := b / 512) in *. assert (c = (c / 512) * 512 + c mod 512) as E3 by (pose proof (Z.div_mod c 512); lia).
  set (d := c / 512) in *. assert (d = (d / 512) * 512 + d mod 512) as E4 by (pose proof (Z.div_mod d 512); lia).
  pose proof (Z.mod_pos_bound a 512). pose proof (Z.mod_pos_bound b 512).
  pose proof (Z.mod_pos_bound c 512). pose proof (Z.mod_pos_bound d 512).
  symmetry. apply (Z.mod_unique _ _ (d / 512)); lia.
Qed.

Lemma same_page_vpn va va' : same_page va va' <-> vpn va = vpn va'.
Proof.
  unfold same_page. rewrite !vpn_indices.
  pose proof (l3_idx va). pose proof (l3_idx va'). pose proof (l2_idx va). pose proof (l2_idx va').
  pose proof (l1_idx va). pose proof (l1_idx va'). unfold idx_ok in *. lia.
Qed.

(** The next page. *)
Lemma vpn_next va : vpn va + 1 < 2 ^ 36 -> vpn (va + PAGE_4K) = vpn va + 1.
Proof.
  unfold vpn, PAGE_4K. intros H. replace (va + 4096) with (va + 1 * 4096) by lia. rewrite Z.div_add by done.
  pose proof (Z.mod_pos_bound (va / 4096) (2 ^ 36) ltac:(done)).
  symmetry. apply (Z.mod_unique _ _ (va / 4096 / 2 ^ 36)); [lia|].
  pose proof (Z.div_mod (va / 4096) (2 ^ 36) ltac:(done)). lia.
Qed.

Lemma vpn_bound va : 0 <= vpn va < 2 ^ 36.
Proof. apply Z.mod_pos_bound. done. Qed.

(** A page number inside a range of [n + 1] pages is the first or one of the
    [n] pages that follow. *)
Definition in_pages (va n va' : Z) : Prop := vpn va <= vpn va' < vpn va + n.
#[global] Instance in_pages_dec va n va' : Decision (in_pages va n va').
Proof. unfold in_pages. apply _. Defined.

Lemma in_pages_S va n va' :
  0 <= n -> vpn va + n < 2 ^ 36 -> 0 < n ->
  (in_pages va (n + 1) va' <-> same_page va va' \/ in_pages (va + PAGE_4K) n va').
Proof. intros. rewrite same_page_vpn. unfold in_pages. rewrite vpn_next by lia. lia. Qed.

Lemma in_pages_1 va va' : in_pages va 1 va' <-> same_page va va'.
Proof. rewrite same_page_vpn. unfold in_pages. lia. Qed.

(** ** [map] of a range *)

(** Bits 12 to 51 of an entry are the frame (Intel SDM, table 4-20). *)
Definition ENTRY_FRAME : Z := 0x000FFFFFFFFFF000.
Definition page_entry (frame fl : Z) : Z := frame + Z.lor fl 1.
Lemma leaf_entry_low pa fl : Z.land fl ENTRY_FRAME = 0 -> 0 <= fl < 2 ^ 64 -> 0 <= pa < 2 ^ 32 -> pa mod PAGE_4K = 0 -> leaf_entry pa fl = page_entry pa fl.
Proof.
  intros Hf Hfl Hpa Hm. unfold leaf_entry, page_entry. change PTE_PRESENT with 1.
  assert (Z.land pa ADDR_MASK = pa) as ->.
  { apply Z.bits_inj'. intros i Hi. rewrite Z.land_spec. change ADDR_MASK with (Z.land (Z.ones 32) (Z.lnot (Z.ones 12))).
    rewrite Z.land_spec, Z.lnot_spec, !testbit_ones by lia. destruct (Z.ltb_spec i 12).
    - unfold PAGE_4K in Hm. rewrite <-(Z.mod_pow2_bits_low pa 12 i) by lia. change (2 ^ 12) with 4096. by rewrite Hm, Z.testbit_0_l.
    - destruct (Z.ltb_spec i 32); [by rewrite !andb_true_r|]. by rewrite (testbit_small 32 pa i). }
  rewrite <-Z.lor_assoc. symmetry. apply Z.add_nocarry_lor. apply Z.bits_inj'. intros i Hi. rewrite Z.land_spec, Z.lor_spec, Z.testbit_0_l.
  destruct (Z.testbit pa i) eqn:Ep; [|done]. cbn [andb].
  assert (12 <= i < 32) as Hi2.
  { split.
    - destruct (Z.ltb_spec i 12); [|done]. unfold PAGE_4K in Hm. rewrite <-(Z.mod_pow2_bits_low pa 12 i) in Ep by lia. change (2 ^ 12) with 4096 in Ep. by rewrite Hm, Z.testbit_0_l in Ep.
    - destruct (Z.ltb_spec i 32); [done|]. by rewrite (testbit_small 32 pa i) in Ep. }
  assert (Z.testbit (Z.land fl ENTRY_FRAME) i = false) as Hfi by (by rewrite Hf, Z.testbit_0_l).
  rewrite Z.land_spec in Hfi. change ENTRY_FRAME with (Z.land (Z.ones 52) (Z.lnot (Z.ones 12))) in Hfi.
  rewrite Z.land_spec, Z.lnot_spec, !testbit_ones in Hfi by lia. rewrite (proj2 (Z.ltb_lt i 52)), (proj2 (Z.ltb_ge i 12)) in Hfi by lia.
  cbn in Hfi. rewrite andb_true_r in Hfi. rewrite Hfi. change 1 with (2 ^ 0). rewrite Z.pow2_bits_false by lia. done.
Qed.

(** The leaf entry page [va'] gets when the range at [va] is mapped to the
    frames at [pa]. *)
Definition range_leaf (va pa fl va' : Z) : Z := leaf_entry (pa + (vpn va' - vpn va) * PAGE_4K) fl.

Lemma wp_map_loop P fl l4 n : forall fuel s G pages va pa (Q : unit -> Phys -> Prop),
  vm_inv s l4 G pages -> flags_ok fl -> (0 < n < fuel)%nat -> (3 * n <= length pages)%nat ->
  vpn va + Z.of_nat n <= 2 ^ 36 ->
  va + Z.of_nat n * PAGE_4K <= 2 ^ 64 -> pa + Z.of_nat n * PAGE_4K <= 2 ^ 64 ->
  (forall s' G' pages', vm_inv s' l4 G' pages' -> (length pages <= 3 * n + length pages')%nat ->
     (forall va', walk (memory s') l4 va' =
        if decide (in_pages va (Z.of_nat n) va') then Some (range_leaf va pa fl va') else walk (memory s) l4 va') ->
     Q tt s') ->
  wp P (map_loop fuel l4 va (Some pa) (Z.of_nat n * PAGE_4K) fl) s Q.
Proof.
  induction n as [|n IH]; intros fuel s G pages va pa Q Hvm Hfl Hn Hlen Hv Hva Hpa HQ; [lia|].
  destruct fuel as [|fuel]; [lia|]. cbn [map_loop].
  assert (0 < PAGE_4K) as HP by done. rewrite (proj2 (Z.ltb_lt 0 _)) by lia.
  apply wp_bind, wp_ret, wp_bind. eapply wp_map_page; [exact Hvm|exact Hfl|lia|]. intros s1 G1 p1 V1 L1 W1.
  destruct (decide (n = 0%nat)) as [->|Hn0].
  - rewrite (proj2 (Z.eqb_eq _ 0)) by lia. apply wp_ret. eapply HQ; [exact V1|lia|].
    intros va'. rewrite W1. change (Z.of_nat 1) with 1.
    destruct (decide (same_page va va')) as [Hs|Hs].
    + rewrite decide_True by (by apply in_pages_1). unfold range_leaf.
      apply same_page_vpn in Hs. rewrite Hs, Z.sub_diag, Z.mul_0_l, Z.add_0_r. done.
    + rewrite decide_False by (by rewrite in_pages_1). done.
  - rewrite (proj2 (Z.eqb_neq _ 0)) by lia. apply wp_bind, wp_cadd; [lia|].
    apply wp_bind, wp_bind, wp_cadd; [lia|]. apply wp_ret.
    replace (Z.of_nat (S n) * PAGE_4K - PAGE_4K) with (Z.of_nat n * PAGE_4K) by lia.
    eapply IH; [exact V1|exact Hfl|lia|lia|rewrite vpn_next by lia; lia|lia|lia|].
    intros s2 G2 p2 V2 L2 W2. eapply HQ; [exact V2|lia|]. intros va'. rewrite W2, W1.
    replace (Z.of_nat (S n)) with (Z.of_nat n + 1) by lia.
    pose proof (in_pages_S va (Z.of_nat n) va' ltac:(lia) ltac:(lia) ltac:(lia)) as HS.
    destruct (decide (in_pages (va + PAGE_4K) (Z.of_nat n) va')) as [Hin|Hout].
    + rewrite decide_True by tauto. unfold range_leaf. rewrite vpn_next by lia. do 2 f_equal. lia.
    + destruct (decide (same_page va va')) as [Hs|Hs].
      * rewrite decide_True by tauto. unfold range_leaf. apply same_page_vpn in Hs. rewrite Hs. do 2 f_equal. lia.
      * rewrite decide_False by tauto. done.
Qed.

(** The guards of [map]. *)
Definition user_guard (vm : VirtualMemoryMapper) (fl va sz : Z) : Prop :=
  is_user vm = true ->
  Z.land fl PTE_USER <> 0 /\ get_l4 va <> KERNEL_L4_INDEX /\ va + sz <= MAX_USER_VIRTUAL_ADDRESS.

(** The page-aligned window around a request. *)
Definition win_start (va : Z) : Z := round_down va PAGE_4K.
Definition win_pages (va sz : Z) : Z := (round_up (va + sz) PAGE_4K - round_down va PAGE_4K) / PAGE_4K.

Lemma win_pages_size va sz :
  0 < sz -> 0 < win_pages va sz /\
  win_pages va sz * PAGE_4K = round_up (va + sz) PAGE_4K - round_down va PAGE_4K.
Proof.
  intros Hs. destruct (round_range_size va sz PAGE_4K) as [Hp Hm]; [done..|].
  unfold win_pages. apply Z.mod_divide in Hm as [k Hk]; [|done]. rewrite Hk, Z.div_mul by done.
  unfold PAGE_4K in *. lia.
Qed.

Lemma vpn_win va : vpn (win_start va) = vpn va.
Proof.
  unfold win_start, round_down, vpn, PAGE_4K. f_equal.
  pose proof (Z.div_mod va 4096 ltac:(done)).
  replace (va - va mod 4096) with (va / 4096 * 4096) by lia. by rewrite Z.div_mul.
Qed.

(** A range and its physical range with the same page offset have windows
    of the same size. *)
Lemma win_same va pa sz :
  va mod PAGE_4K = pa mod PAGE_4K ->
  round_up (pa + sz) PAGE_4K - round_down pa PAGE_4K = round_up (va + sz) PAGE_4K - round_down va PAGE_4K.
Proof.
  intros E. unfold round_up, round_down.
  assert ((pa + sz + PAGE_4K - 1) mod PAGE_4K = (va + sz + PAGE_4K - 1) mod PAGE_4K) as ->; [|lia].
  replace (pa + sz + PAGE_4K - 1) with (pa + (sz + PAGE_4K - 1)) by lia.
  replace (va + sz + PAGE_4K - 1) with (va + (sz + PAGE_4K - 1)) by lia.
  by rewrite (Z.add_mod pa), (Z.add_mod va), E by done.
Qed.

(** ... and the window of a range below an aligned limit stays below it. *)
Lemma win_below va pa sz lim : 0 < sz -> 0 <= pa -> va mod PAGE_4K = pa mod PAGE_4K -> pa + sz <= lim -> lim mod PAGE_4K = 0 ->
  0 <= win_start pa /\ win_start pa mod PAGE_4K = 0 /\ win_start pa + win_pages va sz * PAGE_4K <= lim.
Proof.
  intros Hsz Hpa Hoff Hl Hm. destruct (round_down_spec pa PAGE_4K) as [H1 H2]; [done|]. destruct (win_pages_size va sz Hsz) as [_ ->].
  rewrite <-(win_same va pa sz Hoff). unfold win_start. split_and!; [|done|].
  - apply round_down_greatest; done.
  - destruct (round_up_spec (pa + sz) PAGE_4K) as [H3 H4]; [done|]. unfold PAGE_4K in *.
    apply Z.mod_divide in Hm as [k ->]; [|done]. apply Z.mod_divide in H4 as [j Hj]; [|done]. lia.
Qed.

Lemma in_pages_win va n va' : in_pages (win_start va) n va' <-> in_pages va n va'.
Proof. unfold in_pages. by rewrite vpn_win. Qed.

(** The opening assertion on the root table. *)
Lemma wp_root P s t {A} (k : ST Phys A) (Q : A -> Phys -> Prop) :
  table_ok t -> wp P k s Q ->
  wp P (v ← lift (as_virtual t); _ ← lift (assert_that (negb (v =? 0)));
        al ← lift (is_aligned v PAGE_4K); _ ← lift (assert_that al); k) s Q.
Proof.
  intros Ht Hk. destruct Ht as (H0 & H1 & Hm) eqn:Et.
  apply wp_bind. eapply wp_lift_ret; [by apply as_virtual_ret|].
  assert (0 < KERNEL_BASE) by done.
  apply wp_bind, wp_assert; [rewrite (proj2 (Z.eqb_neq _ 0)) by lia; done|].
  apply wp_bind. eapply wp_lift_ret; [apply is_aligned_eq, pow2_PAGE_4K|].
  apply wp_bind, wp_assert; [|done]. apply Z.eqb_eq. rewrite Z.add_mod, Hm by done. done.
Qed.

(** The body of [map], from its assertions to its loop. *)
Lemma wp_map P vm s G pages va pa sz fl (Q : unit -> Phys -> Prop) :
  let n := win_pages va sz in
  vm_inv s (page_map_l4 vm) G pages -> flags_ok fl ->
  0 <= va -> 0 <= pa -> 0 < sz -> va mod PAGE_4K = pa mod PAGE_4K ->
  va + sz + PAGE_4K < 2 ^ 64 -> pa + sz + PAGE_4K < 2 ^ 64 -> vpn va + n <= 2 ^ 36 ->
  3 * n <= Z.of_nat (length pages) ->
  user_guard vm fl (win_start va) (n * PAGE_4K) ->
  (forall s' G' pages', vm_inv s' (page_map_l4 vm) G' pages' ->
    (forall va', walk (memory s') (page_map_l4 vm) va' =
      if decide (in_pages va n va') then Some (range_leaf va (win_start pa) fl va')
      else walk (memory s) (page_map_l4 vm) va') -> Q tt s') ->
  wp P (map vm (mkMapEntry va (Some pa) sz fl)) s Q.
Proof.
  intros n Hvm Hfl Hva Hpa Hsz Hoff Hvb Hpb Hvpn Hlen Hug HQ.
  destruct (win_pages_size va sz Hsz) as [Hn Hns]. fold n in Hn, Hns.
  pose proof (round_down_spec va PAGE_4K ltac:(done)) as [[? ?] ?].
  pose proof (round_down_spec pa PAGE_4K ltac:(done)) as [[? ?] ?].
  pose proof (round_up_spec (va + sz) PAGE_4K ltac:(done)) as [[? ?] ?].
  pose proof (tr_table _ _ _ (vi_tree _ _ _ _ Hvm) _ _ (tr_root _ _ _ (vi_tree _ _ _ _ Hvm))) as Htok.
  assert (0 < PAGE_4K) as HP by done.
  apply wp_root; [exact Htok|]. cbn [virtual_address physical_address size flags].
  apply wp_bind. eapply wp_lift_ret; [apply align_range_eq; [apply pow2_PAGE_4K|lia..]|]. cbv beta iota.
  rewrite <-Hns. fold (win_start va). apply wp_bind.
  apply (wp_mono _ _ _ (fun _ s' => s' = s)).
  { destruct (is_user vm) eqn:Eu; [|by apply wp_ret]. destruct (Hug Eu) as (U1 & U2 & U3).
    assert (MAX_USER_VIRTUAL_ADDRESS < 2 ^ 64) by done.
    cbn [when]. apply wp_bind, wp_assert; [by apply negb_true_iff, Z.eqb_neq|].
    apply wp_bind, wp_assert; [by apply negb_true_iff, Z.eqb_neq|].
    apply wp_bind, wp_cadd; [lia|]. apply wp_assert; [by apply Z.leb_le|done]. }
  intros _ s1 ->. apply wp_bind, wp_bind.
  eapply wp_lift_ret; [apply align_range_eq; [apply pow2_PAGE_4K|lia..]|]. cbv beta iota.
  rewrite (win_same va pa sz Hoff), <-Hns. fold (win_start pa).
  apply wp_bind, wp_assert; [apply Z.eqb_refl|]. apply wp_ret. apply wp_bind, wp_assert; [apply Z.ltb_lt; lia|].
  rewrite Z.div_mul by done. replace n with (Z.of_nat (Z.to_nat n)) by lia.
  eapply wp_map_loop; [exact Hvm|exact Hfl|lia|lia| | | |].
  - rewrite vpn_win. lia.
  - unfold win_start in *. lia.
  - pose proof (win_same va pa sz Hoff). pose proof (round_up_spec (pa + sz) PAGE_4K ltac:(done)) as [[? ?] ?].
    unfold win_start in *. lia.
  - intros s' G' p' V' _ W'. eapply HQ; [exact V'|]. intros va'. rewrite W'.
    replace (Z.of_nat (Z.to_nat n)) with n by lia.
    rewrite (decide_ext _ _ _ _ (in_pages_win va _ va')). unfold range_leaf. by rewrite vpn_win.
Qed.

(** ** [unmap] of a range *)
Lemma walk_mapped m l4 G va :
  tree m l4 G -> is_Some (walk m l4 va) ->
  exists t, G (leaf_path va) = Some t /\ present (entry m t (get_l1 va)) = true.
Proof.
  intros Ht [e He]. rewrite (walk_tree _ _ _ _ Ht) in He. destruct (G (leaf_path va)) as [t|]; [|done].
  exists t. split; [done|]. by destruct (present _).
Qed.

Lemma wp_unmap_loop P fl l4 n : forall fuel s G pages va (Q : unit -> Phys -> Prop),
  vm_inv s l4 G pages -> flags_ok fl -> Z.testbit fl 0 = false -> (0 < n < fuel)%nat ->
  vpn va + Z.of_nat n <= 2 ^ 36 -> va + Z.of_nat n * PAGE_4K <= 2 ^ 64 ->
  (forall va', in_pages va (Z.of_nat n) va' -> is_Some (walk (memory s) l4 va')) ->
  (forall s', vm_inv s' l4 G pages ->
     (forall va', walk (memory s') l4 va' =
        if decide (in_pages va (Z.of_nat n) va') then None else walk (memory s) l4 va') ->
     (n = 1%nat -> Z.land (entry (memory s') l4 (get_l4 va)) fl = 0) -> Q tt s') ->
  wp P (unmap_loop fuel l4 va (Z.of_nat n * PAGE_4K) fl false) s Q.
Proof.
  induction n as [|n IH]; intros fuel s G pages va Q Hvm Hfl Hfl0 Hn Hv Hva Hmap HQ; [lia|].
  destruct fuel as [|fuel]; [lia|]. cbn [unmap_loop].
  assert (0 < PAGE_4K) as HP by done. rewrite (proj2 (Z.ltb_lt 0 _)) by lia.
  destruct (walk_mapped _ _ _ va (vi_tree _ _ _ _ Hvm)) as (t & HG & Hpres).
  { apply Hmap. unfold in_pages. lia. }
  apply wp_bind. eapply wp_unmap_page; [exact Hvm|exact Hfl|exact Hfl0|exact HG|exact Hpres|]. intros s1 V1 W1 Z1.
  destruct (decide (n = 0%nat)) as [->|Hn0].
  - rewrite (proj2 (Z.eqb_eq _ 0)) by lia. apply wp_ret. eapply HQ; [exact V1| |done].
    intros va'. rewrite W1. change (Z.of_nat 1) with 1. by rewrite (decide_ext _ _ _ _ (in_pages_1 va va')).
  - rewrite (proj2 (Z.eqb_neq _ 0)) by lia. apply wp_bind, wp_cadd; [lia|].
    replace (Z.of_nat (S n) * PAGE_4K - PAGE_4K) with (Z.of_nat n * PAGE_4K) by lia.
    assert (forall va', in_pages va (Z.of_nat (S n)) va' <-> same_page va va' \/ in_pages (va + PAGE_4K) (Z.of_nat n) va') as HS.
    { intros va'. replace (Z.of_nat (S n)) with (Z.of_nat n + 1) by lia. apply in_pages_S; lia. }
    eapply IH; [exact V1|exact Hfl|exact Hfl0|lia|rewrite vpn_next by lia; lia|lia| |].
    + intros va' Hin. rewrite W1, decide_False; [apply Hmap, HS; tauto|].
      rewrite same_page_vpn. unfold in_pages in Hin. rewrite vpn_next in Hin by lia. lia.
    + intros s2 V2 W2 _. eapply HQ; [exact V2| |lia]. intros va'. rewrite W2, W1.
      pose proof (HS va') as HSv.
      destruct (decide (in_pages (va + PAGE_4K) _ va')); destruct (decide (same_page va va'));
        (rewrite decide_True by tauto; done) || (rewrite decide_False by tauto; done).
Qed.

Lemma wp_unmap P vm s G pages va sz fl (Q : unit -> Phys -> Prop) :
  let n := win_pages va sz in
  vm_inv s (page_map_l4 vm) G pages -> flags_ok fl -> Z.testbit fl 0 = false ->
  0 <= va -> 0 < sz -> va + sz + PAGE_4K < 2 ^ 64 -> vpn va + n <= 2 ^ 36 ->
  (forall va', in_pages va n va' -> is_Some (walk (memory s) (page_map_l4 vm) va')) ->
  (forall s', vm_inv s' (page_map_l4 vm) G pages ->
    (forall va', walk (memory s') (page_map_l4 vm) va' =
      if decide (in_pages va n va') then None else walk (memory s) (page_map_l4 vm) va') ->
    (n = 1 -> Z.land (entry (memory s') (page_map_l4 vm) (get_l4 (win_start va))) fl = 0) -> Q tt s') ->
  wp P (unmap vm (mkMapEntry va None sz fl) false) s Q.
Proof.
  intros n Hvm Hfl Hfl0 Hva Hsz Hvb Hvpn Hmap HQ.
  destruct (win_pages_size va sz Hsz) as [Hn Hns]. fold n in Hn, Hns.
  pose proof (round_down_spec va PAGE_4K ltac:(done)) as [[? ?] ?].
  pose proof (round_up_spec (va + sz) PAGE_4K ltac:(done)) as [[? ?] ?].
  assert (0 < PAGE_4K) as HP by done.
  unfold unmap. cbn [virtual_address physical_address size flags]. apply wp_bind, wp_assert; [done|].
  apply wp_bind. eapply wp_lift_ret; [apply align_range_eq; [apply pow2_PAGE_4K|lia..]|]. cbv beta iota.
  rewrite <-Hns. fold (win_start va). apply wp_bind, wp_assert; [apply Z.ltb_lt; lia|].
  rewrite Z.div_mul by done. replace n with (Z.of_nat (Z.to_nat n)) by lia.
  eapply wp_unmap_loop; [exact Hvm|exact Hfl|exact Hfl0|lia|rewrite vpn_win; lia|unfold win_start in *; lia| |].
  - intros va' Hin. apply Hmap. rewrite <-in_pages_win. by replace n with (Z.of_nat (Z.to_nat n)) by lia.
  - intros s' V' W' Z'. apply HQ; [exact V'| |intros Hone; apply Z'; lia]. intros va'. rewrite W'.
    replace (Z.of_nat (Z.to_nat n)) with n by lia. by rewrite (decide_ext _ _ _ _ (in_pages_win va _ va')).
Qed.

(** ** The theorems *)
Section address_space.
Context (vm : VirtualMemoryMapper) (s : Phys) (G : shape) (pages : list Z).
Context (Hvm : vm_inv s (page_map_l4 vm) G pages).
Context (va sz fl : Z).
Context (Hfl : flags_ok fl) (Hva : 0 <= va) (Hsz : 0 < sz) (Hend : va + sz + PAGE_4K < 2 ^ 64).
Context (Hvpn : vpn va + win_pages va sz <= 2 ^ 36).

(** C5: [map] of an explicit physical range below 4 GiB: with three free pages
    per mapped page (for the tables) the call succeeds, the entry of every page
    that the window of the request touches is its frame plus the requested
    flags and the present bit, as the architecture lays an entry out, and the
    entry of every other address is what it was. *)
Theorem map_range_translates pa :
  0 <= pa -> va mod PAGE_4K = pa mod PAGE_4K -> pa + sz <= 2 ^ 32 ->
  Z.land fl ENTRY_FRAME = 0 ->
  3 * win_pages va sz <= Z.of_nat (length pages) ->
  user_guard vm fl (win_start va) (win_pages va sz * PAGE_4K) ->
  exists s', map vm (mkMapEntry va (Some pa) sz fl) s = Ret (tt, s') /\
    (exists G' pages', vm_inv s' (page_map_l4 vm) G' pages') /\
    forall va', walk (memory s') (page_map_l4 vm) va' =
      if decide (in_pages va (win_pages va sz) va') then Some (page_entry (win_start pa + (vpn va' - vpn va) * PAGE_4K) fl)
      else walk (memory s) (page_map_l4 vm) va'.
Proof.
  intros Hpa Hoff Hlow Hfl2 Hpages Hguard. destruct (win_below va pa sz (2 ^ 32) Hsz Hpa Hoff) as (Hs0 & Hs1 & Hs2); [done..|].
  apply wp_run. eapply wp_map; try done; [unfold PAGE_4K; lia|]. intros s' G' p' V' W'. split; [by exists G', p'|].
  intros va'. rewrite W'. case_decide as Hin; [|done]. unfold range_leaf. f_equal. unfold in_pages in Hin.
  apply leaf_entry_low; [done|apply Hfl| |].
  - unfold PAGE_4K in *. nia.
  - by rewrite Z_mod_plus_full.
Qed.

(** [unmap] of a mapped range: the call succeeds and removes exactly the
    translations of the window. *)
Theorem unmap_range_removes :
  Z.testbit fl 0 = false ->
  (forall va', in_pages va (win_pages va sz) va' -> is_Some (walk (memory s) (page_map_l4 vm) va')) ->
  exists s', unmap vm (mkMapEntry va None sz fl) false s = Ret (tt, s') /\
    vm_inv s' (page_map_l4 vm) G pages /\
    forall va', walk (memory s') (page_map_l4 vm) va' =
      if decide (in_pages va (win_pages va sz) va') then None else walk (memory s) (page_map_l4 vm) va'.
Proof.
  intros. apply wp_run. by eapply wp_unmap.
Qed.

(** Mapping a free range and unmapping it again restores the translation
    of every address. *)
Theorem map_unmap_roundtrip pa fl' :
  0 <= pa -> va mod PAGE_4K = pa mod PAGE_4K -> pa + sz + PAGE_4K < 2 ^ 64 ->
  3 * win_pages va sz <= Z.of_nat (length pages) ->
  user_guard vm fl (win_start va) (win_pages va sz * PAGE_4K) ->
  flags_ok fl' -> Z.testbit fl' 0 = false ->
  (forall va', in_pages va (win_pages va sz) va' -> walk (memory s) (page_map_l4 vm) va' = None) ->
  exists s', (_ ← map vm (mkMapEntry va (Some pa) sz fl); unmap vm (mkMapEntry va None sz fl') false) s = Ret (tt, s') /\
    forall va', walk (memory s') (page_map_l4 vm) va' = walk (memory s) (page_map_l4 vm) va'.
Proof.
  intros Hpa Hoff Hpe Hlen Hug Hfl' Hfl0 Hfree.
  apply wp_run. apply wp_bind. eapply wp_map; try done. intros s1 G1 p1 V1 W1.
  eapply wp_unmap; [exact V1|done|done|done|done|done|done| |].
  { intros va' Hin. rewrite W1, decide_True by done. done. }
  intros s2 _ W2 _ va'. rewrite W2, W1. case_decide; [|done]. symmetry. by apply Hfree.
Qed.

(** The permission the hardware enforces is the conjunction of the levels;
    this is its level-4 part. *)
Definition l4_allows (m : mem) (l4 va bits : Z) : bool := Z.land (entry m l4 (get_l4 va)) bits =? bits.

(** [unmap] clears the flags it is given from the upper-level entries too,
    and those are shared: after unmapping one page with [PTE_USER] among
    the flags, no page below the same level-4 entry is accessible to user
    code any more, whatever its own leaf entry says. *)
Theorem unmap_strips_shared_user_flag va' :
  Z.testbit fl 0 = false -> Z.land fl PTE_USER = PTE_USER -> win_pages va sz = 1 ->
  is_Some (walk (memory s) (page_map_l4 vm) va) -> get_l4 va' = get_l4 va ->
  exists s', unmap vm (mkMapEntry va None sz fl) false s = Ret (tt, s') /\
    l4_allows (memory s') (page_map_l4 vm) va' PTE_USER = false.
Proof.
  intros Hfl0 Hu Hone Hm E4. apply wp_run. eapply wp_unmap; try done.
  - intros va1. rewrite Hone, in_pages_1. intros Hs. destruct Hs as (E1 & E2 & E3 & E0). unfold walk in *. by rewrite <-E1, <-E2, <-E3, <-E0.
  - intros s' _ _ Hz. specialize (Hz Hone). unfold l4_allows. rewrite E4.
    assert (same_page (win_start va) va) as (Ew & _) by (apply same_page_vpn, vpn_win). rewrite Ew in Hz.
    apply Z.eqb_neq. intros Hl. apply (f_equal (fun x => Z.land x PTE_USER)) in Hz.
    by rewrite <-Z.land_assoc, Hu, Hl in Hz.
Qed.
End address_space.

(** ** What [do_for_ranges_entries] visits *)
Lemma l3_loop_all f slots k s :
  l3_loop f slots 0 (length slots + k) s =
    match l3_loop f slots 0 (length slots + k) s with
    | Ret (_, s') => Ret ((0%nat, k), s')
    | Panic => Panic
    | Diverge => Diverge
    end.
Proof.
  revert s. induction slots as [|[t i] slots IH]; intros s; [done|].
  cbn [l3_loop length Nat.add]. unfold mbind, ST_bind.
  destruct (handle_l3 f t i s) as [[[] s']| |]; [apply IH|done|done].
Qed.

Lemma l4_loop_first f t i slots s :
  l4_loop f ((t, i) :: slots) 0 512 s = l4_loop f [(t, i)] 0 512 s.
Proof.
  cbn [l4_loop]. unfold mbind, ST_bind.
  destruct (table_flat t i s) as [[l3 s']| |] eqn:E; [|done..].
  assert (length l3 = 512%nat) as Hl.
  { unfold table_flat, mbind, ST_bind in E. destruct (read_entry t i s) as [[e s1]| |]; [|done..].
    unfold lift in E. destruct (physical2virtual (from_entry e)); [|done..]. injection E as <- _.
    unfold slots_of. by rewrite length_fmap, length_seq. }
  pose proof (l3_loop_all f l3 0 s') as H3. rewrite Nat.add_0_r, Hl in H3. rewrite H3.
  destruct (l3_loop f l3 0 512 s') as [[r s2]| |]; [|done..]. by destruct slots as [|[] ?].
Qed.

(** Tearing down a process walks all 511 user level-4 slots in intent, but
    the [take] of 512 level-3 entries applies to the flattened sequence:
    only the first level-4 slot (the lowest 512 GiB) is ever visited. *)
Theorem unmap_process_memory_first_slot_only vm s :
  unmap_process_memory vm s =
    (_ ← do_for_ranges_entries vm 0 0 0 0x1FF free_slot;
     do_for_ranges_entries vm (Z.to_nat KERNEL_L4_INDEX) (Z.to_nat KERNEL_L4_INDEX)
       (Z.to_nat KERNEL_L3_PROCESS_INDEX_START) (Z.to_nat KERNEL_L3_PROCESS_INDEX_END) free_slot) s.
Proof.
  unfold unmap_process_memory.
  change (do_for_ranges_entries vm 0 0 0 0x1FF free_slot)
    with (l4_loop free_slot [(page_map_l4 vm, 0)] 0 512).
  change (do_for_ranges_entries vm 0 (Z.to_nat NUM_USER_L4_INDEXES - 1) 0 0x1FF free_slot)
    with (l4_loop free_slot ((page_map_l4 vm, 0) :: take 510 (drop 1 (slots_of (page_map_l4 vm)))) 0 512).
  unfold mbind at 1, ST_bind at 1. rewrite l4_loop_first. done.
Qed.

(** ** Witnesses *)
Definition empty_shape (l4 : Z) : shape := fun p => if decide (p = []) then Some l4 else None.

(** A zeroed root table is an address space without translations. *)
Lemma vm_inv_empty s l4 pages :
  inv s pages -> table_ok l4 -> l4 + KERNEL_BASE ∉ pages ->
  (forall i, idx_ok i -> entry (memory s) l4 i = 0) ->
  Forall (fun p => KERNEL_BASE <= p /\ p + PAGE_4K <= KERNEL_END) pages ->
  used_count (allocator s) + Z.of_nat (length pages) < 2 ^ 64 ->
  vm_inv s l4 (empty_shape l4) pages.
Proof.
  intros Hi Ht Hn Hz Hw Hu. unfold empty_shape. split; [|done|done| |done].
  2: { intros p t. case_decide; [|done]. by intros [= <-]. }
  split.
  - by rewrite decide_True.
  - intros p t. case_decide; [|done]. by intros [= <-].
  - intros p q t. case_decide; case_decide; [congruence|done..].
  - intros p i _. rewrite decide_False; [done|]. by destruct p.
  - intros p t i. case_decide; [|done]. intros [= <-] _ Hi'. subst p. rewrite (Hz _ Hi'). by rewrite decide_False.
  - intros p t. case_decide; [|done]. subst p. simpl. lia.
  - intros p i t. rewrite decide_False; [done|]. by destruct p.
Qed.

Module MapDemo.
(** Physical memory with an empty root table at 0x1000 and six free pages. *)
Definition free_pages : list Z := (fun i => KERNEL_BASE + 0x2000 + 0x1000 * i) <$> [0; 1; 2; 3; 4; 5].
Definition demo : Phys :=
  mkPhys (mkAlloc (Some (KERNEL_BASE + 0x2000)) 0 KERNEL_BASE (KERNEL_BASE + 0x100000) 6 0)
    (store (store (store (store (store (fun _ => 0)
      (KERNEL_BASE + 0x2000) (KERNEL_BASE + 0x3000)) (KERNEL_BASE + 0x3000) (KERNEL_BASE + 0x4000))
      (KERNEL_BASE + 0x4000) (KERNEL_BASE + 0x5000)) (KERNEL_BASE + 0x5000) (KERNEL_BASE + 0x6000))
      (KERNEL_BASE + 0x6000) (KERNEL_BASE + 0x7000)).
Definition demo_vm : VirtualMemoryMapper := mkVM 0x1000 false.

Lemma demo_inv : vm_inv demo 0x1000 (empty_shape 0x1000) free_pages.
Proof.
  apply vm_inv_empty; [|vm_compute; split_and!; done| | | |done].
  - split; [vm_compute; done|apply (bool_decide_unpack _); vm_compute; done|].
    repeat constructor; try done; by left.
  - apply (bool_decide_unpack _). vm_compute. done.
  - intros i Hi. unfold entry, demo, load, store, memory. unfold idx_ok in Hi.
    repeat (rewrite (proj2 (Z.eqb_neq _ _)) by (unfold KERNEL_BASE; lia)). done.
  - repeat constructor; vm_compute; done.
Qed.

Definition demo_entry : VirtualMemoryMapEntry := mkMapEntry 0x400010 (Some 0x10010) 0x1800 PTE_WRITABLE.
Definition RW_USER : Z := Z.lor PTE_WRITABLE PTE_USER.

Ltac demo_side := first [ exact demo_inv | vm_compute; done | vm_compute; split_and!; done | done ].

Lemma map_range_translates_witness :
  exists s', map demo_vm demo_entry demo = Ret (tt, s') /\
    (exists G' pages', vm_inv s' 0x1000 G' pages') /\
    forall va', walk (memory s') 0x1000 va' =
      if decide (in_pages 0x400010 2 va') then Some (page_entry (0x10000 + (vpn va' - vpn 0x400010) * 4096) PTE_WRITABLE)
      else walk (memory demo) 0x1000 va'.
Proof.
  apply (map_range_translates demo_vm demo (empty_shape 0x1000) free_pages demo_inv 0x400010 0x1800 PTE_WRITABLE);
    demo_side.
Defined.

(** One user page at 4 MiB. *)
Lemma demo_mapped :
  exists s G pages, vm_inv s 0x1000 G pages /\ is_Some (walk (memory s) 0x1000 0x400000).
Proof.
  destruct (wp_run (map demo_vm (mkMapEntry 0x400000 (Some 0x10000) 0x1000 RW_USER)) demo
    (fun s => exists G pages, vm_inv s 0x1000 G pages /\ is_Some (walk (memory s) 0x1000 0x400000)))
    as (s & _ & G & pages & H); [|by exists s, G, pages].
  eapply wp_map; [exact demo_inv|demo_side..|]. intros s G pages V W. exists G, pages. split; [exact V|].
  rewrite W. rewrite decide_True by (vm_compute; done). done.
Qed.

Lemma unmap_range_removes_witness :
  exists s s' G pages, vm_inv s 0x1000 G pages /\
    unmap demo_vm (mkMapEntry 0x400000 None 0x1000 PTE_WRITABLE) false s = Ret (tt, s') /\
    forall va', walk (memory s') 0x1000 va' =
      if decide (in_pages 0x400000 1 va') then None else walk (memory s) 0x1000 va'.
Proof.
  destruct demo_mapped as (s & G & pages & V & Hm).
  destruct (unmap_range_removes demo_vm s G pages V 0x400000 0x1000 PTE_WRITABLE)
    as (s' & E & V' & W); [demo_side..| |].
  - intros va' Hin. apply in_pages_1 in Hin as (E1 & E2 & E3 & E0). unfold walk in *. by rewrite <-E1, <-E2, <-E3, <-E0.
  - exists s, s', G, pages. split; [exact V|]. split; [exact E|exact W].
Defined.

Lemma map_unmap_roundtrip_witness :
  exists s', (_ ← map demo_vm (mkMapEntry 0x400000 (Some 0x10000) 0x2000 PTE_WRITABLE);
              unmap demo_vm (mkMapEntry 0x400000 None 0x2000 0) false) demo = Ret (tt, s') /\
    forall va', walk (memory s') 0x1000 va' = walk (memory demo) 0x1000 va'.
Proof.
  apply (map_unmap_roundtrip demo_vm demo (empty_shape 0x1000) free_pages demo_inv 0x400000 0x2000 PTE_WRITABLE);
    [demo_side..|].
  intros va' _. rewrite (walk_tree _ _ _ _ (vi_tree _ _ _ _ demo_inv)). done.
Defined.

(** Shrinking by the page at 4 MiB cuts off the page at 8 GiB. *)
Lemma unmap_strips_shared_user_flag_witness :
  exists s s' G pages, vm_inv s 0x1000 G pages /\
    unmap demo_vm (mkMapEntry 0x400000 None 0x1000 RW_USER) false s = Ret (tt, s') /\
    l4_allows (memory s') 0x1000 0x200000000 PTE_USER = false.
Proof.
  destruct demo_mapped as (s & G & pages & V & Hm).
  destruct (unmap_strips_shared_user_flag demo_vm s G pages V 0x400000 0x1000 RW_USER) with (va' := 0x200000000)
    as (s' & E & H); [demo_side..|exact Hm|demo_side|].
  exists s, s', G, pages. split; [exact V|]. split; [exact E|exact H].
Defined.
End MapDemo.
