(* ===== verification/VirtualSpace.v ===== *)
(** * The allocator of kernel virtual space

    Models [kernel/src/memory_management/virtual_space.rs]: the list of
    entries that cuts the kernel's extra-memory window into mapped and free
    ranges, and the mapping of physical ranges through it.  The
    [LinkedList] is a list; a cursor is the position in a recursion over
    it.  [map_kernel] and [unmap_kernel] are arguments. *)
From S2P Require Import Prelude MemLayout.

Module VirtualSpace.

Inductive VirtualSpaceError : Type := OutOfSpace | AlreadyMapped | NotFullRange | EntryNotFound.

Record VirtualSpaceEntry : Type := mkEntry {
  physical_start : option Z;
  virtual_start : Z;
  size : Z
}.

Definition is_free (e : VirtualSpaceEntry) : bool :=
  match physical_start e with None => true | Some _ => false end.

Definition virtual_for_physical (e : VirtualSpaceEntry) (phy : Z) : outcome (option Z) :=
  match physical_start e with
  | None => Ret None
  | Some cur =>
      if cur <=? phy then
        cur_end ← cadd 64 cur (size e);
        if phy <? cur_end then v ← cadd 64 (virtual_start e) (phy - cur); Ret (Some v)
        else Ret None
      else Ret None
  end.

(** The checks at the head of each operation. *)
Definition check_request (addr sz : Z) : outcome unit :=
  _ ← assert_that (0 <? sz);
  a ← is_aligned addr PAGE_4K;
  _ ← assert_that a;
  b ← is_aligned sz PAGE_4K;
  assert_that b.

(** The loop of [get_entry_containing]. *)
Fixpoint containing_loop (entries : list VirtualSpaceEntry) (req_phy_start req_size : Z)
    : outcome (option (VirtualSpaceEntry * bool)) :=
  match entries with
  | [] => Ret None
  | entry :: rest =>
      match physical_start entry with
      | None => containing_loop rest req_phy_start req_size
      | Some cur =>
          if cur <=? req_phy_start then
            cur_end ← cadd 64 cur (size entry);
            if req_phy_start <? cur_end then
              req_end ← cadd 64 req_phy_start req_size;
              Ret (Some (entry, req_end <=? cur_end))
            else containing_loop rest req_phy_start req_size
          else containing_loop rest req_phy_start req_size
      end
  end.

Definition get_entry_containing (entries : list VirtualSpaceEntry) (req_phy_start req_size : Z)
    : outcome (option (VirtualSpaceEntry * bool)) :=
  _ ← check_request req_phy_start req_size;
  containing_loop entries req_phy_start req_size.

(** The loop of [allocate]: the first free entry that is large enough is
    cut in two. *)
Fixpoint fit_loop (entries : list VirtualSpaceEntry) (phy_start sz : Z)
    : outcome (option (Z * list VirtualSpaceEntry)) :=
  match entries with
  | [] => Ret None
  | entry :: rest =>
      if is_free entry && (sz <=? size entry) then
        v ← cadd 64 (virtual_start entry) sz;
        Ret (Some (virtual_start entry,
                   mkEntry (Some phy_start) (virtual_start entry) sz ::
                   mkEntry None v (size entry - sz) :: rest))
      else
        r ← fit_loop rest phy_start sz;
        Ret (match r with Some (v, rest') => Some (v, entry :: rest') | None => None end)
  end.

(** [allocate]; the recursion happens at most once, on the fresh list. *)
Fixpoint allocate (fuel : nat) (phy_start sz : Z)
    : ST (list VirtualSpaceEntry) (result Z VirtualSpaceError) :=
  match fuel with
  | O => diverge
  | S fuel =>
      _ ← lift (check_request phy_start sz);
      entries ← get;
      c ← lift (get_entry_containing entries phy_start sz);
      match c with
      | Some _ => mret (Err AlreadyMapped)
      | None =>
          f ← lift (fit_loop entries phy_start sz);
          match f with
          | Some (v, entries') => _ ← put entries'; mret (Ok v)
          | None =>
              match entries with
              | [] =>
                  a ← lift (is_aligned KERNEL_EXTRA_MEMORY_SIZE PAGE_4K);
                  _ ← lift (assert_that a);
                  _ ← put [mkEntry None KERNEL_EXTRA_MEMORY_BASE KERNEL_EXTRA_MEMORY_SIZE];
                  allocate fuel phy_start sz
              | _ => mret (Err OutOfSpace)
              end
          end
      end
  end.

(** What happens at the entry to deallocate.  [before] is the part of the
    list already passed, nearest entry first; [rest] follows the entry.
    [current] absorbs a free [rest] head; a free entry before it grows by
    [current]'s size; [current] is then inserted after it. *)
Definition merge_with_next (entry : VirtualSpaceEntry) (rest : list VirtualSpaceEntry)
    : outcome (Z * list VirtualSpaceEntry) :=
  match rest with
  | next :: rest' =>
      if is_free next then s ← cadd 64 (size entry) (size next); Ret (s, rest')
      else Ret (size entry, rest)
  | [] => Ret (size entry, rest)
  end.
Definition merge_with_prev (before : list VirtualSpaceEntry) (cur_size : Z)
    : outcome (list VirtualSpaceEntry) :=
  match before with
  | prev :: before' =>
      if is_free prev then
        s ← cadd 64 (size prev) cur_size;
        Ret (mkEntry None (virtual_start prev) s :: before')
      else Ret before
  | [] => Ret before
  end.
Definition release (before : list VirtualSpaceEntry) (entry : VirtualSpaceEntry)
    (rest : list VirtualSpaceEntry) : outcome (list VirtualSpaceEntry) :=
  merged ← merge_with_next entry rest;
  let '(cur_size, rest) := merged in
  before ← merge_with_prev before cur_size;
  Ret (reverse before ++ mkEntry None (virtual_start entry) cur_size :: rest).

Fixpoint dealloc_loop (before entries : list VirtualSpaceEntry) (req_virtual_start req_size : Z)
    : outcome (result (list VirtualSpaceEntry) VirtualSpaceError) :=
  match entries with
  | [] => Ret (Err EntryNotFound)
  | entry :: rest =>
      if virtual_start entry <=? req_virtual_start then
        entry_end ← cadd 64 (virtual_start entry) (size entry);
        if req_virtual_start <? entry_end then
          if negb (req_virtual_start =? virtual_start entry) || negb (req_size =? size entry)
          then Ret (Err NotFullRange)
          else
            _ ← assert_that (negb (is_free entry));
            entries' ← release before entry rest;
            Ret (Ok entries')
        else dealloc_loop (entry :: before) rest req_virtual_start req_size
      else dealloc_loop (entry :: before) rest req_virtual_start req_size
  end.

Definition deallocate (req_virtual_start req_size : Z)
    : ST (list VirtualSpaceEntry) (result unit VirtualSpaceError) :=
  _ ← lift (check_request req_virtual_start req_size);
  entries ← get;
  r ← lift (dealloc_loop [] entries req_virtual_start req_size);
  match r with
  | Ok entries' => _ ← put entries'; mret (Ok tt)
  | Err e => mret (Err e)
  end.

(** ** Mapping through the allocator *)
Section Mapping.
(** The kernel page tables; [map_kernel virtual physical size],
    [unmap_kernel virtual size]. *)
Context {PT : Type} (map_kernel : Z -> Z -> Z -> PT -> outcome PT) (unmap_kernel : Z -> Z -> PT -> outcome PT).

Definition allocate_and_map_virtual_space (phy_start sz : Z)
    : ST (list VirtualSpaceEntry * PT) (result Z VirtualSpaceError) :=
  r ← lift (align_range phy_start sz PAGE_4K);
  let '(aligned_start, sz, offset) := r in
  st ← get;
  a ← lift (allocate 2 aligned_start sz st.1);
  let '(v, entries') := a in
  match v with
  | Err e => _ ← put (entries', st.2); mret (Err e)
  | Ok virtual_addr =>
      pt ← lift (map_kernel virtual_addr aligned_start sz st.2);
      _ ← put (entries', pt);
      res ← lift (cadd 64 virtual_addr offset);
      mret (Ok res)
  end.

Definition deallocate_virtual_space (v sz : Z)
    : ST (list VirtualSpaceEntry * PT) (result unit VirtualSpaceError) :=
  r ← lift (align_range v sz PAGE_4K);
  let '(aligned_start, sz, _) := r in
  st ← get;
  d ← lift (deallocate aligned_start sz st.1);
  let '(res, entries') := d in
  match res with
  | Err e => _ ← put (entries', st.2); mret (Err e)
  | Ok _ =>
      pt ← lift (unmap_kernel aligned_start sz st.2);
      _ ← put (entries', pt);
      mret (Ok tt)
  end.
End Mapping.

(** ** The window as a sequence of ranges *)
Definition WINDOW_END : Z := KERNEL_EXTRA_MEMORY_BASE + KERNEL_EXTRA_MEMORY_SIZE.

(** The entries cover [lo, hi) one after the other. *)
Fixpoint tiled (lo hi : Z) (es : list VirtualSpaceEntry) : Prop :=
  match es with
  | [] => lo = hi
  | e :: es => virtual_start e = lo /\ 0 <= size e /\ size e mod PAGE_4K = 0 /\ tiled (lo + size e) hi es
  end.

Definition phys_ok (e : VirtualSpaceEntry) : Prop :=
  match physical_start e with None => True | Some p => 0 <= p /\ p + size e < 2 ^ 64 end.

(** The list is still empty, or covers the window exactly. *)
Definition inv (es : list VirtualSpaceEntry) : Prop :=
  (es = [] \/ tiled KERNEL_EXTRA_MEMORY_BASE WINDOW_END es) /\ Forall phys_ok es.

(** The mapped ranges: physical start, virtual start, size. *)
Definition mapped (es : list VirtualSpaceEntry) : list (Z * Z * Z) :=
  flat_map (fun e => match physical_start e with
                     | Some p => [(p, virtual_start e, size e)]
                     | None => []
                     end) es.

Lemma mapped_app es1 es2 : mapped (es1 ++ es2) = mapped es1 ++ mapped es2.
Proof. apply flat_map_app. Qed.

Lemma tiled_app lo hi es1 es2 :
  tiled lo hi (es1 ++ es2) <-> exists mid, tiled lo mid es1 /\ tiled mid hi es2.
Proof.
  revert lo. induction es1 as [|e es1 IH]; intros lo; simpl.
  - split; [intros H; by exists lo|]. by intros (mid & -> & H).
  - setoid_rewrite IH. naive_solver.
Qed.

Lemma tiled_le lo hi es : tiled lo hi es -> lo <= hi.
Proof.
  revert lo. induction es as [|e es IH]; intros lo; simpl; [lia|].
  intros (_ & H0 & _ & H). apply IH in H. lia.
Qed.

Lemma tiled_bounds lo hi es e :
  tiled lo hi es -> e ∈ es -> lo <= virtual_start e /\ virtual_start e + size e <= hi /\ 0 <= size e.
Proof.
  revert lo. induction es as [|e' es IH]; intros lo; simpl; [set_solver|].
  intros (Hs & H0 & _ & H) Hin. pose proof (tiled_le _ _ _ H).
  apply elem_of_cons in Hin as [->|Hin]; [lia|]. apply IH in H; [lia|done].
Qed.

(** Tiling means that mapped ranges never overlap. *)
Lemma tiled_disjoint lo hi es1 e es2 e' :
  tiled lo hi (es1 ++ e :: es2) -> e' ∈ es1 ++ es2 ->
  virtual_start e' + size e' <= virtual_start e \/ virtual_start e + size e <= virtual_start e'.
Proof.
  intros (mid & H1 & H2)%tiled_app [Hin|Hin]%elem_of_app; simpl in H2; destruct H2 as (Hs & H0 & _ & H2).
  - left. destruct (tiled_bounds _ _ _ _ H1 Hin). lia.
  - right. destruct (tiled_bounds _ _ _ _ H2 Hin). lia.
Qed.

Lemma window_small : 0 < KERNEL_EXTRA_MEMORY_BASE /\ WINDOW_END < 2 ^ 64 /\
  KERNEL_EXTRA_MEMORY_SIZE mod PAGE_4K = 0 /\ 0 <= KERNEL_EXTRA_MEMORY_SIZE.
Proof. vm_compute. done. Qed.

Lemma check_request_ret a n :
  0 < n -> a mod PAGE_4K = 0 -> n mod PAGE_4K = 0 -> check_request a n = Ret tt.
Proof.
  intros Hn Ha Hs. unfold check_request. rewrite assert_ret by lia. cbn [mbind outcome_bind].
  rewrite !is_aligned_eq by apply pow2_PAGE_4K. by rewrite Ha, Hs.
Qed.

(** [containing_loop] is total, and finds the first entry that holds the
    start of the request. *)
Definition holds (phy : Z) (e : VirtualSpaceEntry) : bool :=
  match physical_start e with Some p => (p <=? phy) && (phy <? p + size e) | None => false end.

Lemma containing_loop_eq es phy n :
  Forall phys_ok es -> phy + n < 2 ^ 64 ->
  containing_loop es phy n =
    Ret (match find (holds phy) es with
         | Some e => Some (e, phy + n <=? match physical_start e with Some p => p + size e | None => 0 end)
         | None => None
         end).
Proof.
  intros Hes Hn. induction Hes as [|e es He Hes IH]; [done|]. cbn [containing_loop find].
  change (holds phy e) with (match physical_start e with Some p => (p <=? phy) && (phy <? p + size e) | None => false end).
  unfold phys_ok in He.
  destruct (physical_start e) as [p|] eqn:Ep; [|exact IH].
  destruct (Z.leb_spec p phy); cbn [andb]; [|exact IH].
  rewrite (cadd_ret 64 p) by lia. cbn [mbind outcome_bind].
  destruct (Z.ltb_spec phy (p + size e)); [|exact IH].
  rewrite cadd_ret by lia. simpl. by rewrite Ep.
Qed.

(** The entry [fit_loop] takes. *)
Definition fit (n : Z) (e : VirtualSpaceEntry) : bool := is_free e && (n <=? size e).

Lemma fit_loop_some es1 e es2 lo hi phy n :
  tiled lo hi (es1 ++ e :: es2) -> hi < 2 ^ 64 -> Forall (fun e => fit n e = false) es1 -> fit n e = true ->
  fit_loop (es1 ++ e :: es2) phy n =
    Ret (Some (virtual_start e, es1 ++ mkEntry (Some phy) (virtual_start e) n ::
                                mkEntry None (virtual_start e + n) (size e - n) :: es2)).
Proof.
  intros Ht Hhi H1 He. pose proof (tiled_bounds _ _ _ e Ht ltac:(set_solver)) as Hb.
  clear Ht. induction H1 as [|e' es1 He' H1 IH]; simpl.
  - unfold fit in He. rewrite He. bool_hyps. by rewrite cadd_ret by lia.
  - unfold fit in He'. rewrite He', IH. done.
Qed.

Lemma fit_loop_none es phy n : Forall (fun e => fit n e = false) es -> fit_loop es phy n = Ret None.
Proof. induction 1 as [|e es He Hes IH]; simpl; [done|]. unfold fit in He. by rewrite He, IH. Qed.

(** The first fitting entry, if any. *)
Lemma first_fit n es :
  Forall (fun e => fit n e = false) es \/
  exists es1 e es2, es = es1 ++ e :: es2 /\ Forall (fun e => fit n e = false) es1 /\ fit n e = true.
Proof.
  induction es as [|e es IH]; [by left|]. destruct (fit n e) eqn:E; [right; by exists [], e, es|].
  destruct IH as [H|(es1 & e' & es2 & -> & H & He)]; [left; by constructor|].
  right. exists (e :: es1), e', es2. split_and!; [done|by constructor|done].
Qed.

Lemma tiled_cut lo hi es1 e es2 phy n :
  tiled lo hi (es1 ++ e :: es2) -> 0 <= n <= size e -> n mod PAGE_4K = 0 ->
  tiled lo hi (es1 ++ mkEntry (Some phy) (virtual_start e) n ::
               mkEntry None (virtual_start e + n) (size e - n) :: es2).
Proof.
  rewrite !tiled_app. intros (mid & H1 & Hs & H0 & Hm & H2) Hn Hnm. exists mid. split; [done|]. simpl.
  rewrite Zminus_mod, Hm, Hnm. split_and!; try done; try lia.
  by replace (mid + n + (size e - n)) with (mid + size e) by lia.
Qed.

(** What a successful allocation does to the list. *)
Definition allocated (es : list VirtualSpaceEntry) (phy n v : Z) (es' : list VirtualSpaceEntry) : Prop :=
  inv es' /\ es' <> [] /\ mapped es' ≡ₚ (phy, v, n) :: mapped es /\
  KERNEL_EXTRA_MEMORY_BASE <= v /\ v + n <= WINDOW_END.

Lemma allocated_fit es1 e es2 phy n :
  inv (es1 ++ e :: es2) -> fit n e = true -> 0 < n -> n mod PAGE_4K = 0 -> 0 <= phy -> phy + n < 2 ^ 64 ->
  allocated (es1 ++ e :: es2) phy n (virtual_start e)
    (es1 ++ mkEntry (Some phy) (virtual_start e) n :: mkEntry None (virtual_start e + n) (size e - n) :: es2).
Proof.
  intros [[Hnil|Ht] Hp] Hf Hn Hnm Hphy Hend; [by destruct es1|]. unfold fit, is_free in Hf. bool_hyps.
  destruct (physical_start e) eqn:Ee; [done|].
  pose proof (tiled_bounds _ _ _ e Ht ltac:(set_solver)).
  unfold allocated. split_and!; try lia.
  - split; [right; apply tiled_cut; done || lia|].
    apply Forall_app in Hp as [Hp1 Hp2]. apply Forall_cons in Hp2 as [_ Hp2].
    apply Forall_app. split; [done|]. repeat constructor; done.
  - by destruct es1.
  - rewrite !mapped_app. simpl. rewrite Ee. simpl. by rewrite Permutation_middle.
Qed.

(** One call of [allocate] on a nonempty or empty list. *)
Lemma allocate_step fuel es phy n :
  inv es -> 0 < n -> phy mod PAGE_4K = 0 -> n mod PAGE_4K = 0 -> 0 <= phy -> phy + n < 2 ^ 64 ->
  allocate (S fuel) phy n es =
    if existsb (holds phy) es then Ret (Err AlreadyMapped, es)
    else match fit_loop es phy n with
         | Ret (Some (v, es')) => Ret (Ok v, es')
         | Ret None =>
             match es with
             | [] => allocate fuel phy n [mkEntry None KERNEL_EXTRA_MEMORY_BASE KERNEL_EXTRA_MEMORY_SIZE]
             | _ => Ret (Err OutOfSpace, es)
             end
         | Panic => Panic
         | Diverge => Diverge
         end.
Proof.
  intros [_ Hp] Hn Ha Hs H0 Hend. cbn [allocate]. unfold mbind at 1, ST_bind at 1, lift at 1.
  rewrite check_request_ret by done. unfold mbind at 1, ST_bind at 1, get at 1.
  unfold mbind at 1, ST_bind at 1, lift at 1. unfold get_entry_containing.
  rewrite check_request_ret by done. cbn [mbind outcome_bind]. rewrite containing_loop_eq by done.
  assert (existsb (holds phy) es = match find (holds phy) es with Some _ => true | None => false end) as ->.
  { clear. induction es as [|e es IH]; [done|]. simpl. by destruct (holds phy e). }
  destruct (find (holds phy) es) as [e|]; [done|].
  unfold mbind at 1, ST_bind at 1, lift at 1. destruct (fit_loop es phy n) as [[[v es']|]| |]; try done.
  destruct es; [|done]. unfold mbind, ST_bind, lift, put. rewrite is_aligned_eq by apply pow2_PAGE_4K.
  destruct window_small as (_ & _ & Hm & _). by rewrite Hm.
Qed.

(** physical address [phy] is mapped already *)
Definition taken (phy : Z) (es : list VirtualSpaceEntry) : Prop :=
  exists p v n, (p, v, n) ∈ mapped es /\ p <= phy < p + n.
Lemma taken_iff phy es : existsb (holds phy) es = true <-> taken phy es.
Proof.
  unfold taken. induction es as [|[p v n] es IH]; cbn [existsb mapped].
  { split; [done|]. by intros (? & ? & ? & ?%elem_of_nil & _). }
  rewrite orb_true_iff, IH. clear IH. unfold holds. cbn [physical_start size]. destruct p as [p|]; cbn [physical_start virtual_start size].
  - rewrite andb_true_iff, Z.leb_le, Z.ltb_lt. setoid_rewrite elem_of_cons. split.
    + intros [H|(p' & v' & n' & H & H')]; [exists p, v, n; split; [by left|done]|exists p', v', n'; split; [by right|done]].
    + intros (p' & v' & n' & [[= -> -> ->]|H] & H'); [by left|right; by exists p', v', n'].
  - split; [by intros [H|H]|by right].
Qed.

(** C17: Allocation of virtual space, of an aligned range that the window
    could hold: on a sound list it always returns, and each answer is given
    exactly when it is the case: that the range is mapped already when its
    first page is; exhaustion when it is not, and no free entry is large
    enough; and otherwise exactly the requested mapping is added, inside the
    window, leaving a sound list, in which no two ranges overlap. *)
Theorem allocate_virtual_space_correct es phy n :
  inv es -> 0 < n -> phy mod PAGE_4K = 0 -> n mod PAGE_4K = 0 -> 0 <= phy -> phy + n < 2 ^ 64 ->
  n <= KERNEL_EXTRA_MEMORY_SIZE ->
  exists r es', allocate 2 phy n es = Ret (r, es') /\
    match r with
    | Ok v => ~ taken phy es /\ allocated es phy n v es'
    | Err AlreadyMapped => es' = es /\ taken phy es
    | Err OutOfSpace => es' = es /\ ~ taken phy es /\ es <> [] /\ forall e, e ∈ es -> physical_start e = None -> size e < n
    | Err _ => False
    end.
Proof.
  intros Hi Hn Ha Hs H0 Hend Hsz. rewrite allocate_step by done.
  destruct (existsb (holds phy) es) eqn:Eh; [eexists _, _; split; [done|]; split; [done|]; by apply taken_iff|].
  assert (~ taken phy es) as Hnt by (rewrite <-taken_iff; congruence).
  destruct (first_fit n es) as [Hnone|(es1 & e & es2 & -> & H1 & He)].
  - rewrite fit_loop_none by done. destruct es as [|e es].
    2: { eexists _, _. split; [done|]. split_and!; [done|done|done|]. intros x Hx Hf. rewrite Forall_forall in Hnone. specialize (Hnone x Hx).
         unfold fit, is_free in Hnone. rewrite Hf in Hnone. cbn in Hnone. lia. }
    set (e := mkEntry None KERNEL_EXTRA_MEMORY_BASE KERNEL_EXTRA_MEMORY_SIZE).
    destruct window_small as (W1 & W2 & W3 & W4).
    assert (inv ([] ++ e :: [])) as Hi'.
    { split; [right; simpl; split_and!; done|]. by constructor. }
    assert (fit n e = true) as Hf by (unfold fit; simpl; lia).
    rewrite allocate_step by done. change ([e]) with ([] ++ e :: []).
    rewrite (fit_loop_some [] e [] KERNEL_EXTRA_MEMORY_BASE WINDOW_END) by (done || apply Hi' || destruct Hi' as [[?|?] _]; done).
    eexists _, _. split; [done|]. split; [done|]. by apply (allocated_fit [] e []).
  - destruct Hi as [[Hnil|Ht] Hp]; [by destruct es1|]. destruct window_small as (_ & W2 & _).
    rewrite (fit_loop_some es1 e es2 KERNEL_EXTRA_MEMORY_BASE WINDOW_END) by done.
    eexists _, _. split; [done|]. split; [done|]. apply allocated_fit; try done. split; [by right|done].
Qed.

(** *** Deallocation *)
Lemma dealloc_loop_skip before es1 es2 v n lo hi :
  tiled lo hi (es1 ++ es2) -> hi < 2 ^ 64 -> (forall e, e ∈ es1 -> virtual_start e + size e <= v) ->
  dealloc_loop before (es1 ++ es2) v n = dealloc_loop (reverse es1 ++ before) es2 v n.
Proof.
  intros Ht Hhi Hv. revert before lo Ht. induction es1 as [|e es1 IH]; intros before lo Ht; [done|].
  simpl in Ht |- *. destruct Ht as (Hs & H0 & _ & Ht). pose proof (tiled_le _ _ _ Ht).
  specialize (Hv e ltac:(set_solver)) as Hve.
  assert (dealloc_loop (e :: before) (es1 ++ es2) v n =
          dealloc_loop (reverse (e :: es1) ++ before) es2 v n) as Hrec.
  { erewrite IH; [|intros e' He'; apply Hv; set_solver|exact Ht]. by rewrite reverse_cons, <-app_assoc. }
  destruct (Z.leb_spec (virtual_start e) v); [|done]. rewrite cadd_ret by lia. cbn [mbind outcome_bind].
  by rewrite (proj2 (Z.ltb_ge _ _)) by lia.
Qed.

(** The list after the release, when the entry before is in use. *)
Lemma merge_with_prev_used pre k :
  (forall prev, last pre = Some prev -> is_free prev = false) ->
  merge_with_prev (reverse pre) k = Ret (reverse pre).
Proof.
  intros Hprev. unfold merge_with_prev. destruct (reverse pre) as [|prev b] eqn:Er; [done|].
  rewrite (Hprev prev); [done|].
  rewrite <-(reverse_involutive pre), Er, reverse_cons. apply last_snoc.
Qed.

Lemma release_used lo hi pre e post :
  tiled lo hi (pre ++ e :: post) -> 0 <= lo -> hi < 2 ^ 64 ->
  (forall prev, last pre = Some prev -> is_free prev = false) ->
  exists es', release (reverse pre) e post = Ret es' /\ tiled lo hi es' /\
    (Forall phys_ok (pre ++ e :: post) -> Forall phys_ok es') /\ mapped es' = mapped (pre ++ post).
Proof.
  intros Ht Hlo Hhi Hprev. apply tiled_app in Ht as (mid & H1 & Hs & H0 & Hm & H2).
  pose proof (tiled_le _ _ _ H1). pose proof (tiled_le _ _ _ H2).
  assert (exists k rest, merge_with_next e post = Ret (k, rest) /\ 0 <= k /\ k mod PAGE_4K = 0 /\
    tiled (mid + k) hi rest /\ (Forall phys_ok post -> Forall phys_ok rest) /\ mapped rest = mapped post)
    as (k & rest & Hn & Hk0 & Hkm & Hkt & Hkp & Hkmap).
  { destruct post as [|next post]; [by exists (size e), []|]. unfold merge_with_next.
    destruct (is_free next) eqn:Ef; [|by exists (size e), (next :: post)].
    simpl in H2. destruct H2 as (Hns & Hn0 & Hnm & H2). pose proof (tiled_le _ _ _ H2).
    exists (size e + size next), post. rewrite cadd_ret by lia. rewrite Z.add_mod, Hm, Hnm by done.
    split_and!; try done; [lia|by replace (mid + (size e + size next)) with (mid + size e + size next) by lia| |].
    - by intros [_ ?]%Forall_cons.
    - simpl. unfold is_free in Ef. by destruct (physical_start next). }
  unfold release. rewrite Hn. cbn [mbind outcome_bind]. rewrite merge_with_prev_used by done.
  cbn [mbind outcome_bind]. rewrite reverse_involutive. eexists. split; [done|]. split_and!.
  - apply tiled_app. exists mid. by split.
  - rewrite !Forall_app, !Forall_cons. naive_solver.
  - rewrite !mapped_app. simpl. by rewrite Hkmap.
Qed.

(** Deallocation of a mapped range whose left neighbour is in use removes
    exactly that mapping and leaves a sound list. *)
Theorem deallocate_virtual_space_correct pre e post p :
  inv (pre ++ e :: post) -> physical_start e = Some p -> 0 < size e ->
  virtual_start e mod PAGE_4K = 0 ->
  (forall prev, last pre = Some prev -> is_free prev = false) ->
  exists es', deallocate (virtual_start e) (size e) (pre ++ e :: post) = Ret (Ok tt, es') /\
    inv es' /\ mapped es' = mapped (pre ++ post).
Proof.
  intros [[Hnil|Ht] Hp] He Hsz Hva Hprev; [by destruct pre|]. destruct window_small as (W1 & W2 & _).
  pose proof Ht as Ht'. apply tiled_app in Ht' as (mid & H1 & Hs & H0 & Hm & H2).
  destruct (release_used _ _ pre e post Ht ltac:(lia) W2 Hprev) as (es' & Hr & Ht'' & Hp' & Hmap).
  exists es'. split; [|split; [split; [by right|by apply Hp']|done]].
  unfold deallocate, mbind, ST_bind, lift, get, put. rewrite check_request_ret by done.
  rewrite (dealloc_loop_skip [] pre (e :: post) _ _ _ _ Ht W2).
  2: { intros e' He'. destruct (tiled_bounds _ _ _ _ H1 He'). lia. }
  rewrite app_nil_r. simpl. rewrite Z.leb_refl. pose proof (tiled_le _ _ _ H2).
  rewrite cadd_ret by lia. simpl. rewrite (proj2 (Z.ltb_lt _ _)) by lia. rewrite !Z.eqb_refl. simpl.
  unfold is_free. rewrite He. simpl. by rewrite Hr.
Qed.

(** *** When the left neighbour is free

    Two ranges are mapped side by side and released from the left; the
    second release extends the free entry on its left and also keeps the
    released entry.  From then on the allocator hands out the same virtual
    page to two different physical pages. *)
Definition run_ops : ST (list VirtualSpaceEntry) (Z * Z) :=
  a ← allocate 2 0x1000 0x1000;
  b ← allocate 2 0x2000 0x1000;
  _ ← allocate 2 0x3000 0x1000;
  match a, b with
  | Ok va, Ok vb =>
      _ ← deallocate va 0x1000;
      _ ← deallocate vb 0x1000;
      c ← allocate 2 0x4000 0x2000;
      d ← allocate 2 0x6000 0x1000;
      match c, d with Ok vc, Ok vd => mret (vc, vd) | _, _ => panic end
  | _, _ => panic
  end.

(** After those operations one virtual page is mapped to two different
    physical pages. *)
Theorem deallocate_free_left_overlaps :
  exists v es, run_ops [] = Ret ((v, v + 0x1000), es) /\
    (0x4000, v, 0x2000) ∈ mapped es /\ (0x6000, v + 0x1000, 0x1000) ∈ mapped es.
Proof.
  exists KERNEL_EXTRA_MEMORY_BASE. eexists. split; [vm_compute; reflexivity|].
  split; apply list_elem_of_In; vm_compute; tauto.
Qed.

(** *** Witnesses *)
Lemma inv_nil : inv [].
Proof. split; [by left|constructor]. Qed.

Lemma allocate_virtual_space_correct_witness :
  exists r es', allocate 2 0xB8000 0x1000 [] = Ret (r, es') /\
    match r with
    | Ok v => ~ taken 0xB8000 [] /\ allocated [] 0xB8000 0x1000 v es'
    | Err AlreadyMapped => es' = [] /\ taken 0xB8000 []
    | Err OutOfSpace => es' = [] /\ ~ taken 0xB8000 [] /\ ([] : list VirtualSpaceEntry) <> [] /\
        forall e, e ∈ ([] : list VirtualSpaceEntry) -> physical_start e = None -> size e < 0x1000
    | Err _ => False
    end.
Proof. apply (allocate_virtual_space_correct [] 0xB8000 0x1000); [exact inv_nil|vm_compute; done..]. Defined.

Definition demo_entry : VirtualSpaceEntry := mkEntry (Some 0xB8000) KERNEL_EXTRA_MEMORY_BASE 0x1000.
Definition demo_rest : VirtualSpaceEntry :=
  mkEntry None (KERNEL_EXTRA_MEMORY_BASE + 0x1000) (KERNEL_EXTRA_MEMORY_SIZE - 0x1000).

Lemma deallocate_virtual_space_correct_witness :
  exists es', deallocate KERNEL_EXTRA_MEMORY_BASE 0x1000 [demo_entry; demo_rest] = Ret (Ok tt, es') /\
    inv es' /\ mapped es' = [].
Proof.
  apply (deallocate_virtual_space_correct [] demo_entry [demo_rest] 0xB8000); try done.
  split; [right; vm_compute; done|]. repeat constructor; done.
Defined.
End VirtualSpace.
