(* ===== verification/FatTable.v ===== *)
(** * The file allocation table

    Models [FatType], [FatEntry] and [struct Fat] of
    [kernel/src/fs/fat.rs]: the table is kept in memory as bytes, entries
    are 12, 16 or 32 bits wide, and every write marks the sectors it touches
    in a bitmap.  A read or write through the raw pointer that would leave
    the buffer is a panic of the model; the theorems show it never happens. *)
From S2P Require Import Prelude FsTypes.

Module FatTable.

(** ** Entries *)
Inductive FatType : Type := Fat12 | Fat16 | Fat32.
#[global] Instance FatType_eq_dec : EqDecision FatType.
Proof. solve_decision. Defined.

Inductive FatEntry : Type :=
| Free
| Next (cluster : Z)
| EndOfChain
| Bad
| Reserved.
#[global] Instance FatEntry_eq_dec : EqDecision FatEntry.
Proof. solve_decision. Defined.

Definition in_incl (lo hi x : Z) : bool := (lo <=? x) && (x <=? hi).

Definition from_u32 (ty : FatType) (entry : Z) : FatEntry :=
  match ty with
  | Fat12 =>
      if entry =? 0 then Free
      else if 0xFF8 <=? entry then EndOfChain
      else if entry =? 0xFF7 then Bad
      else if in_incl 0x002 0xFF6 entry then Next entry
      else Reserved
  | Fat16 =>
      if entry =? 0 then Free
      else if 0xFFF8 <=? entry then EndOfChain
      else if entry =? 0xFFF7 then Bad
      else if in_incl 0x002 0xFFF6 entry then Next entry
      else Reserved
  | Fat32 =>
      if entry =? 0 then Free
      else if 0x0FFFFFF8 <=? entry then EndOfChain
      else if entry =? 0x0FFFFFF7 then Bad
      else if in_incl 0x002 0x0FFFFFF6 entry then Next entry
      else Reserved
  end.

Definition to_u32 (self : FatEntry) (ty : FatType) : option Z :=
  match self with
  | Free => Some 0
  | EndOfChain =>
      match ty with Fat12 => Some 0xFF8 | Fat16 => Some 0xFFF8 | Fat32 => Some 0x0FFFFFF8 end
  | Bad =>
      match ty with Fat12 => Some 0xFF7 | Fat16 => Some 0xFFF7 | Fat32 => Some 0x0FFFFFF7 end
  | Next entry =>
      match ty with
      | Fat12 => if in_incl 0x002 0xFF6 entry then Some entry else None
      | Fat16 => if in_incl 0x002 0xFFF6 entry then Some entry else None
      | Fat32 => if in_incl 0x002 0x0FFFFFF6 entry then Some entry else None
      end
  | Reserved => None
  end.

(** ** The table *)
Record Fat : Type := mkFat {
  buffer : bytes;
  sector_size : Z;
  fat_type : FatType;
  dirty : bool;
  dirty_bitmap : list Z
}.

Definition new : Fat := mkFat [] 0 Fat12 false [].

Definition len (b : bytes) : Z := Z.of_nat (length b).
Definition byte_at (b : bytes) (i : Z) : outcome Z := unwrap (b !! Z.to_nat i).
Definition set_byte (i v : Z) (b : bytes) : outcome bytes :=
  if i <? len b then Ret (<[Z.to_nat i := v]> b) else Panic.

Definition entry_offset (ty : FatType) (entry : Z) : outcome Z :=
  match ty with
  | Fat12 => x ← cmul 32 entry 3; Ret (x / 2)
  | Fat16 => cmul 32 entry 2
  | Fat32 => cmul 32 entry 4
  end.

Definition read_fat_entry (self : Fat) (entry : Z) : outcome FatEntry :=
  fat_offset ← entry_offset (fat_type self) entry;
  _ ← assert_that (fat_offset <? len (buffer self));
  e ← (match fat_type self with
       | Fat12 =>
           byte1 ← byte_at (buffer self) fat_offset;
           byte2 ← byte_at (buffer self) (fat_offset + 1);
           Ret (if Z.land entry 1 =? 1
                then Z.lor (Z.shiftl byte2 4) (Z.shiftr byte1 4)
                else Z.lor (Z.shiftl (Z.land byte2 0xF) 8) byte1)
       | Fat16 =>
           byte0 ← byte_at (buffer self) fat_offset;
           byte1 ← byte_at (buffer self) (fat_offset + 1);
           Ret (Z.lor byte0 (Z.shiftl byte1 8))
       | Fat32 =>
           byte0 ← byte_at (buffer self) fat_offset;
           byte1 ← byte_at (buffer self) (fat_offset + 1);
           byte2 ← byte_at (buffer self) (fat_offset + 2);
           byte3 ← byte_at (buffer self) (fat_offset + 3);
           Ret (Z.land (Z.lor (Z.lor byte0 (Z.shiftl byte1 8)) (Z.lor (Z.shiftl byte2 16) (Z.shiftl byte3 24)))
                  0x0FFFFFFF)
       end);
  Ret (from_u32 (fat_type self) e).

Definition mark_sector_dirty (self : Fat) (sector : Z) : outcome Fat :=
  let index := Z.to_nat (sector / 64) in
  w ← unwrap (dirty_bitmap self !! index);
  Ret (mkFat (buffer self) (sector_size self) (fat_type self) (dirty self)
         (<[index := Z.lor w (Z.shiftl 1 (sector mod 64))]> (dirty_bitmap self))).

(** The bytes [write_fat_entry] stores. *)
Definition store_entry (ty : FatType) (b : bytes) (entry fat_offset new_entry : Z) : outcome bytes :=
  match ty with
  | Fat12 =>
      byte1 ← byte_at b fat_offset;
      if Z.land entry 1 =? 1 then
        b ← set_byte fat_offset (Z.lor (Z.land byte1 0x0F) (wrap 8 (Z.shiftl new_entry 4))) b;
        set_byte (fat_offset + 1) (wrap 8 (Z.shiftr new_entry 4)) b
      else
        b ← set_byte fat_offset (wrap 8 new_entry) b;
        byte2 ← byte_at b (fat_offset + 1);
        set_byte (fat_offset + 1) (Z.lor (Z.land byte2 0xF0) (wrap 8 (Z.shiftr new_entry 8))) b
  | Fat16 =>
      b ← set_byte fat_offset (wrap 8 new_entry) b;
      set_byte (fat_offset + 1) (wrap 8 (Z.shiftr new_entry 8)) b
  | Fat32 =>
      b ← set_byte fat_offset (wrap 8 new_entry) b;
      b ← set_byte (fat_offset + 1) (wrap 8 (Z.shiftr new_entry 8)) b;
      b ← set_byte (fat_offset + 2) (wrap 8 (Z.shiftr new_entry 16)) b;
      set_byte (fat_offset + 3) (wrap 8 (Z.shiftr new_entry 24)) b
  end.

Definition write_fat_entry (self : Fat) (entry : Z) (fat_entry : FatEntry) : outcome Fat :=
  fat_offset ← entry_offset (fat_type self) entry;
  _ ← assert_that (fat_offset <? len (buffer self));
  new_entry ← unwrap (to_u32 fat_entry (fat_type self));
  b ← store_entry (fat_type self) (buffer self) entry fat_offset new_entry;
  let self := mkFat b (sector_size self) (fat_type self) (dirty self) (dirty_bitmap self) in
  sector ← cdiv fat_offset (sector_size self);
  self ← mark_sector_dirty self sector;
  self ← (if decide (fat_type self = Fat12) then
            sector ← cdiv (fat_offset + 1) (sector_size self);
            mark_sector_dirty self sector
          else Ret self);
  Ret (mkFat (buffer self) (sector_size self) (fat_type self) true (dirty_bitmap self)).

Definition number_of_fat_entries (ty : FatType) (fat_size : Z) : Z :=
  wrap 32 (match ty with Fat12 => fat_size * 2 / 3 | Fat16 => fat_size / 2 | Fat32 => fat_size / 4 end).

(** [(i..i + n).find(free)] *)
Fixpoint find_free (self : Fat) (n : nat) (i : Z) : outcome (option Z) :=
  match n with
  | O => Ret None
  | S n =>
      e ← read_fat_entry self i;
      if decide (e = Free) then Ret (Some i) else find_free self n (i + 1)
  end.
Definition find_free_cluster (self : Fat) : outcome (option Z) :=
  find_free self (Z.to_nat (number_of_fat_entries (fat_type self) (len (buffer self)) - 2)) 2.

Definition next_cluster (self : Fat) (cluster : Z) : outcome (result (option Z) FileSystemError) :=
  e ← read_fat_entry self cluster;
  Ret (match e with
       | Next n => Ok (Some n)
       | EndOfChain => Ok None
       | Bad => Err (FatErr UnexpectedFatEntry)
       | Reserved => Err (FatErr UnexpectedFatEntry)
       | Free => Err (FatErr UnexpectedFatEntry)
       end).

(** ** Dirty sectors

    The iterator yields the set bits of each word, from the lowest. *)
Fixpoint word_sectors (fuel : nat) (dirty sector : Z) : outcome (list Z) :=
  match fuel with
  | O => Diverge
  | S fuel =>
      if dirty =? 0 then Ret []
      else
        rest ← word_sectors fuel (Z.shiftr dirty 1) (sector + 1);
        Ret (if negb (Z.land dirty 1 =? 0) then wrap 32 sector :: rest else rest)
  end.

Fixpoint bitmap_sectors (i : Z) (bitmap : list Z) : outcome (list Z) :=
  match bitmap with
  | [] => Ret []
  | w :: bitmap =>
      l ← word_sectors 65 w (i * 64);
      rest ← bitmap_sectors (i + 1) bitmap;
      Ret (l ++ rest)
  end.

Definition dirty_sectors (self : Fat) : outcome (option (list Z)) :=
  if dirty self then l ← bitmap_sectors 0 (dirty_bitmap self); Ret (Some l) else Ret None.

(** The data the iterator pairs with a sector. *)
Definition sector_data (self : Fat) (sector : Z) : outcome bytes :=
  sector_start ← cmul 32 sector (sector_size self);
  sector_end ← cadd 32 sector_start (sector_size self);
  _ ← assert_that (sector_end <=? len (buffer self));
  Ret (take (Z.to_nat (sector_size self)) (drop (Z.to_nat sector_start) (buffer self))).

Definition clear_dirty (self : Fat) : Fat :=
  if dirty self then
    mkFat (buffer self) (sector_size self) (fat_type self) false ((fun _ => 0) <$> dirty_bitmap self)
  else self.

End FatTable.

(** * The file allocation table: correctness

    The table is an array of entries whatever the width: writing entry [n]
    changes what is read at [n] and nowhere else (also for the 12-bit
    entries that share bytes), the search finds the first free cluster, and
    the dirty bitmap covers every byte that changed. *)
Import FatTable.

(** ** Codec *)
Lemma entry_range ty e v : to_u32 e ty = Some v ->
  0 <= v < match ty with Fat12 => 2 ^ 12 | Fat16 => 2 ^ 16 | Fat32 => 2 ^ 28 end.
Proof.
  destruct ty, e; simpl; intros H; unfold in_incl in *; repeat case_match; simplify_eq; bool_hyps; lia.
Qed.

Lemma from_to_u32 ty e v : to_u32 e ty = Some v -> from_u32 ty v = e.
Proof.
  destruct ty, e as [|c| | |]; simpl; intros H; simplify_eq; try done;
    unfold in_incl in *; repeat case_match; simplify_eq; bool_hyps; try done; lia.
Qed.

Lemma to_from_u32 ty v :
  0 <= v -> from_u32 ty v <> Reserved -> from_u32 ty v <> EndOfChain -> to_u32 (from_u32 ty v) ty = Some v.
Proof.
  intros Hv. destruct ty; unfold from_u32, in_incl; repeat case_match; intros; simplify_eq;
    simpl; bool_hyps; unfold in_incl; repeat case_match; bool_hyps; try done; try congruence; try lia.
  all: destruct (Z.leb_spec 2 v); try lia; bool_hyps; try done.
Qed.

(** ** Bytes *)
Definition byte (b : bytes) (i : Z) : Z := default 0 (b !! Z.to_nat i).

Lemma byte_at_ret b i : 0 <= i < len b -> byte_at b i = Ret (byte b i).
Proof.
  intros H. unfold byte_at, byte, unwrap, len in *. destruct (b !! Z.to_nat i) eqn:E; [done|].
  apply lookup_ge_None in E. lia.
Qed.

Lemma set_byte_ret b i v : 0 <= i < len b -> set_byte i v b = Ret (<[Z.to_nat i := v]> b).
Proof. intros H. unfold set_byte. by rewrite (proj2 (Z.ltb_lt i (len b))) by lia. Qed.

Lemma byte_insert b i v j : 0 <= i < len b -> 0 <= j ->
  byte (<[Z.to_nat i := v]> b) j = if decide (j = i) then v else byte b j.
Proof.
  intros Hi Hj. unfold byte, len in *. case_decide as E.
  - subst j. by rewrite list_lookup_insert_eq by lia.
  - by rewrite list_lookup_insert_ne by lia.
Qed.

Lemma len_insert b i v : len (<[i := v]> b) = len b.
Proof. unfold len. by rewrite length_insert. Qed.

(** [a + b * 2^k] as an [or] of disjoint fields *)
Lemma lor_fields a b k : 0 <= k -> 0 <= a < 2 ^ k -> Z.lor a (Z.shiftl b k) = a + b * 2 ^ k.
Proof.
  intros Hk Ha. pose proof (Z.add_lor_land a (Z.shiftl b k)) as E.
  assert (Z.land a (Z.shiftl b k) = 0) as E0.
  { apply Z.bits_inj'. intros i Hi. rewrite Z.land_spec, Z.testbit_0_l.
    destruct (Z.ltb_spec i k).
    - rewrite (Z.shiftl_spec b k i) by lia. rewrite (Z.testbit_neg_r b) by lia. apply andb_false_r.
    - rewrite (testbit_small k a i) by (done || lia). done. }
  rewrite Z.shiftl_mul_pow2 in * by done. lia.
Qed.

(** The raw value stored for entry [n]. *)
Definition raw_offset (ty : FatType) (n : Z) : Z :=
  match ty with Fat12 => n * 3 / 2 | Fat16 => n * 2 | Fat32 => n * 4 end.
Definition raw (ty : FatType) (b : bytes) (n : Z) : Z :=
  let o := raw_offset ty n in
  match ty with
  | Fat12 => if decide (n mod 2 = 1) then byte b (o + 1) * 16 + byte b o / 16
             else (byte b (o + 1) mod 16) * 256 + byte b o
  | Fat16 => byte b o + byte b (o + 1) * 256
  | Fat32 => (byte b o + byte b (o + 1) * 256 + byte b (o + 2) * 65536 + byte b (o + 3) * 16777216) mod 2 ^ 28
  end.
Definition width (ty : FatType) : Z := match ty with Fat12 | Fat16 => 2 | Fat32 => 4 end.

Definition wf_bytes (b : bytes) : Prop := forall i, 0 <= i < len b -> 0 <= byte b i < 256.

(** The number of entries that fit in the buffer. *)
Definition entries (f : Fat) : Z :=
  match fat_type f with
  | Fat12 => len (buffer f) * 2 / 3 | Fat16 => len (buffer f) / 2 | Fat32 => len (buffer f) / 4
  end.

(** Is sector [s] of the table marked? *)
Definition bitmap_bit (bm : list Z) (s : Z) : bool := Z.testbit (default 0 (bm !! Z.to_nat (s / 64))) (s mod 64).
Definition sector_dirty (f : Fat) (s : Z) : bool := bitmap_bit (dirty_bitmap f) s.

(** The table is a whole number of sectors (of a size divisible by four, as
    every sector size is), there is a bit for every sector, and only sectors
    of the table are marked. *)
Record wf (f : Fat) : Prop := {
  wf_buffer : wf_bytes (buffer f);
  wf_len : len (buffer f) < 2 ^ 31;
  wf_sector : 0 < sector_size f /\ sector_size f mod 4 = 0;
  wf_whole : len (buffer f) mod sector_size f = 0;
  wf_bitmap : len (buffer f) <= Z.of_nat (length (dirty_bitmap f)) * 64 * sector_size f;
  wf_bits : Z.of_nat (length (dirty_bitmap f)) * 64 < 2 ^ 32;
  wf_words : Forall (in_word 64) (dirty_bitmap f);
  wf_marks : forall s, 0 <= s -> sector_dirty f s = true -> (s + 1) * sector_size f <= len (buffer f)
}.

Lemma entries_number f : wf f -> number_of_fat_entries (fat_type f) (len (buffer f)) = entries f.
Proof.
  intros [_ H _ _ _ _ _ _]. unfold number_of_fat_entries, entries, wrap.
  assert (0 <= len (buffer f)) by (unfold len; lia).
  set (L := len (buffer f)) in *. clearbody L.
  destruct (fat_type f); apply Z.mod_small; dlia.
Qed.

(** Every entry lies inside the buffer. *)
Lemma entry_fits f n : wf f -> 0 <= n < entries f ->
  0 <= raw_offset (fat_type f) n /\ raw_offset (fat_type f) n + width (fat_type f) <= len (buffer f).
Proof.
  unfold entries, raw_offset, width. intros _ H. destruct (fat_type f); dlia.
Qed.

Lemma entry_offset_ret f n : wf f -> 0 <= n < entries f ->
  entry_offset (fat_type f) n = Ret (raw_offset (fat_type f) n).
Proof.
  intros [_ Hl _ _ _ _ _ _] H. unfold entry_offset, raw_offset, entries in *.
  destruct (fat_type f); rewrite cmul_ret by (dlia); done.
Qed.

Definition fat_get (f : Fat) (n : Z) : FatEntry := from_u32 (fat_type f) (raw (fat_type f) (buffer f) n).

Lemma odd_land n : (Z.land n 1 =? 1) = bool_decide (n mod 2 = 1).
Proof. change 1 with (2 ^ 1 - 1) at 1. rewrite land_mask by done. change (2 ^ 1) with 2. by destruct (Z.eqb_spec (n mod 2) 1), (bool_decide_reflect (n mod 2 = 1)). Qed.

(** Reading an entry never fails and returns the entry at its place. *)
Lemma read_fat_entry_ret f n : wf f -> 0 <= n < entries f -> read_fat_entry f n = Ret (fat_get f n).
Proof.
  intros Hwf Hn. pose proof (entry_fits f n Hwf Hn) as [Ho Hw]. pose proof (wf_buffer _ Hwf) as Hb.
  unfold read_fat_entry. rewrite entry_offset_ret by done. cbn [mbind outcome_bind].
  set (o := raw_offset (fat_type f) n) in *. assert (1 < width (fat_type f)) by (by destruct (fat_type f)).
  rewrite assert_ret by lia. cbn [mbind outcome_bind]. unfold fat_get, raw. fold o.
  destruct (fat_type f) eqn:Ety; unfold width in *; rewrite !byte_at_ret by lia; cbn [mbind outcome_bind].
  - rewrite odd_land. pose proof (Hb o ltac:(lia)). pose proof (Hb (o + 1) ltac:(lia)).
    do 2 f_equal. case_bool_decide; [rewrite decide_True by done|rewrite decide_False by done].
    + rewrite Z.shiftr_div_pow2 by lia. change (2 ^ 4) with 16.
      rewrite Z.lor_comm, lor_fields by (change (2 ^ 4) with 16; dlia). change (2 ^ 4) with 16. lia.
    + change 0xF with (2 ^ 4 - 1). rewrite land_mask, Z.lor_comm, lor_fields by lia. change (2 ^ 4) with 16. change (2 ^ 8) with 256. lia.
  - pose proof (Hb o ltac:(lia)). rewrite lor_fields by lia. done.
  - pose proof (Hb o ltac:(lia)). pose proof (Hb (o + 1) ltac:(lia)).
    pose proof (Hb (o + 2) ltac:(lia)). pose proof (Hb (o + 3) ltac:(lia)).
    do 2 f_equal. change 0x0FFFFFFF with (2 ^ 28 - 1). rewrite land_mask by done. f_equal.
    rewrite (lor_fields _ _ 8) by lia. rewrite (Z.shiftl_mul_pow2 _ 24), (Z.shiftl_mul_pow2 _ 16) by lia.
    replace (byte (buffer f) (o + 3) * 2 ^ 24) with (Z.shiftl (byte (buffer f) (o + 3)) 24) by (rewrite Z.shiftl_mul_pow2; lia).
    rewrite (lor_fields _ _ 24) by lia.
    replace (byte (buffer f) (o + 2) * 2 ^ 16 + byte (buffer f) (o + 3) * 2 ^ 24)
      with (Z.shiftl (byte (buffer f) (o + 2) + byte (buffer f) (o + 3) * 256) 16) by (rewrite Z.shiftl_mul_pow2; lia).
    rewrite (lor_fields _ _ 16) by lia. lia.
Qed.

(** ** Writing an entry *)

(** Overwriting the bytes from [o]. *)
Fixpoint poke (b : bytes) (o : Z) (xs : list Z) : bytes :=
  match xs with [] => b | x :: xs => poke (<[Z.to_nat o := x]> b) (o + 1) xs end.

Lemma len_poke xs : forall b o, len (poke b o xs) = len b.
Proof. induction xs as [|x xs IH]; intros b o; [done|]. simpl. by rewrite IH, len_insert. Qed.

Lemma byte_poke xs : forall b o i, 0 <= o -> o + Z.of_nat (length xs) <= len b -> 0 <= i ->
  byte (poke b o xs) i = if decide (o <= i < o + Z.of_nat (length xs)) then byte xs (i - o) else byte b i.
Proof.
  induction xs as [|x xs IH]; intros b o i Ho Hl Hi; cbn [poke length] in *.
  - rewrite decide_False by lia. done.
  - rewrite IH by (rewrite ?len_insert; lia). rewrite byte_insert by lia.
    destruct (decide (i = o)) as [->|Hne].
    + rewrite decide_False by lia. rewrite decide_True by lia. unfold byte. by rewrite Z.sub_diag.
    + destruct (decide (o + 1 <= i < o + 1 + Z.of_nat (length xs))).
      * rewrite decide_True by lia. unfold byte.
        replace (Z.to_nat (i - o)) with (S (Z.to_nat (i - (o + 1)))) by lia. done.
      * rewrite decide_False by lia. done.
Qed.

(** The bytes each width stores. *)
Definition cells (ty : FatType) (b : bytes) (n v : Z) : list Z :=
  let o := raw_offset ty n in
  match ty with
  | Fat12 => if decide (n mod 2 = 1) then [byte b o mod 16 + (v mod 16) * 16; v / 16]
             else [v mod 256; byte b (o + 1) / 16 * 16 + v / 256]
  | Fat16 => [v mod 256; v / 256]
  | Fat32 => [v mod 256; v / 256 mod 256; v / 65536 mod 256; v / 16777216]
  end.

Lemma length_cells ty b n v : Z.of_nat (length (cells ty b n v)) = width ty.
Proof. destruct ty; simpl; try done. by case_decide. Qed.

Lemma store_entry_ret ty b n v :
  wf_bytes b -> 0 <= raw_offset ty n -> raw_offset ty n + width ty <= len b ->
  0 <= v < match ty with Fat12 => 2 ^ 12 | Fat16 => 2 ^ 16 | Fat32 => 2 ^ 28 end ->
  store_entry ty b n (raw_offset ty n) v = Ret (poke b (raw_offset ty n) (cells ty b n v)).
Proof.
  intros Hb Ho Hw Hv. unfold store_entry, cells. set (o := raw_offset ty n) in *.
  destruct ty; unfold width in *; unfold wrap; cbn [poke].
  - rewrite (byte_at_ret b o) by lia. cbn [mbind outcome_bind]. rewrite odd_land.
    pose proof (Hb o ltac:(lia)). pose proof (Hb (o + 1) ltac:(lia)).
    case_bool_decide; [rewrite decide_True by done|rewrite decide_False by done]; cbn [poke].
    + rewrite set_byte_ret by lia. cbn [mbind outcome_bind]. rewrite set_byte_ret by (rewrite len_insert; lia).
      change 0x0F with (2 ^ 4 - 1). rewrite land_mask by done. rewrite Z.shiftl_mul_pow2, Z.shiftr_div_pow2 by lia.
      replace (v * 2 ^ 4 mod 2 ^ 8) with (Z.shiftl (v mod 16) 4) by (rewrite Z.shiftl_mul_pow2 by lia; dlia).
      rewrite lor_fields by dlia. change (2 ^ 4) with 16.
      by replace (v / 16 mod 2 ^ 8) with (v / 16) by dlia.
    + rewrite set_byte_ret by lia. cbn [mbind outcome_bind]. rewrite byte_at_ret by (rewrite len_insert; lia).
      cbn [mbind outcome_bind]. rewrite set_byte_ret by (rewrite len_insert; lia).
      rewrite byte_insert, decide_False by lia. rewrite Z.shiftr_div_pow2 by lia.
      change 0xF0 with (unot 8 (2 ^ 4 - 1)). rewrite land_unot_mask by (unfold in_word; lia).
      replace (byte b (o + 1) - byte b (o + 1) mod 2 ^ 4) with (Z.shiftl (byte b (o + 1) / 16) 4)
        by (rewrite Z.shiftl_mul_pow2 by lia; dlia).
      rewrite Z.lor_comm, lor_fields by dlia. change (2 ^ 4) with 16. change (2 ^ 8) with 256.
      replace (v / 256 mod 256) with (v / 256) by dlia. by rewrite (Z.add_comm (v / 256)).
  - rewrite set_byte_ret by lia. cbn [mbind outcome_bind]. rewrite set_byte_ret by (rewrite len_insert; lia).
    rewrite Z.shiftr_div_pow2 by lia.
    change (2 ^ 8) with 256. by replace (v / 256 mod 256) with (v / 256) by dlia.
  - rewrite !Z.shiftr_div_pow2 by lia.
    repeat (rewrite set_byte_ret by (rewrite ?len_insert; lia); cbn [mbind outcome_bind]).
    replace (o + 1 + 1) with (o + 2) by lia. replace (o + 2 + 1) with (o + 3) by lia.
    change (2 ^ 8) with 256. change (2 ^ 16) with 65536. change (2 ^ 24) with 16777216.
    by replace (v / 16777216 mod 256) with (v / 16777216) by dlia.
Qed.

(** Reading back, and reading every other entry: two 12-bit entries share
    the middle byte of their three, each keeps its own half. *)
Lemma halves (n : Z) : exists m, n = 2 * m /\ n mod 2 = 0 /\ n * 3 / 2 = 3 * m \/
                             n = 2 * m + 1 /\ n mod 2 = 1 /\ n * 3 / 2 = 3 * m + 1.
Proof. exists (n / 2). dlia. Qed.

Lemma raw12_poke b b' n v k x0 x1 :
  let o := n * 3 / 2 in
  wf_bytes b -> 0 <= n -> o + 2 <= len b -> 0 <= k -> k * 3 / 2 + 2 <= len b -> 0 <= v < 2 ^ 12 ->
  cells Fat12 b n v = [x0; x1] -> byte b' o = x0 -> byte b' (o + 1) = x1 ->
  (forall i, 0 <= i -> i <> o -> i <> o + 1 -> byte b' i = byte b i) ->
  raw Fat12 b' k = if decide (k = n) then v else raw Fat12 b k.
Proof.
  intros o Hb Hn Hw Hk Hwk Hv Hc H0 H1 Hr. unfold raw, cells, raw_offset in *. subst o.
  pose proof (Hb (n * 3 / 2) ltac:(dlia)) as B0. pose proof (Hb (n * 3 / 2 + 1) ltac:(dlia)) as B1.
  pose proof (Hb (k * 3 / 2) ltac:(dlia)) as C0. pose proof (Hb (k * 3 / 2 + 1) ltac:(dlia)) as C1.
  destruct (halves n) as (m & [(En & Mn & On)|(En & Mn & On)]); rewrite ?Mn, On in *;
  [rewrite decide_False in Hc by lia|rewrite decide_True in Hc by lia]; injection Hc as E0 E1;
  destruct (halves k) as (j & [(Ek & Mk & Ok)|(Ek & Mk & Ok)]); rewrite ?Mk, Ok in *;
  [rewrite !(decide_False (P := 0 = 1)) by lia|rewrite !(decide_True (P := 1 = 1)) by lia
  |rewrite !(decide_False (P := 0 = 1)) by lia|rewrite !(decide_True (P := 1 = 1)) by lia];
  (destruct (decide (j = m)) as [->|Hjm]; [|rewrite !Hr by lia; rewrite decide_False by lia; done]).
  - rewrite decide_True by lia. rewrite H0, H1, <-E0, <-E1. dlia.
  - rewrite decide_False by lia. rewrite H1, Hr, <-E1 by lia. dlia.
  - rewrite decide_False by lia. rewrite H0, Hr, <-E0 by lia. dlia.
  - rewrite decide_True by lia. rewrite H0, H1, <-E0, <-E1. dlia.
Qed.

Lemma raw_poke ty b n v k :
  wf_bytes b -> 0 <= n -> raw_offset ty n + width ty <= len b -> 0 <= k -> raw_offset ty k + width ty <= len b ->
  0 <= v < match ty with Fat12 => 2 ^ 12 | Fat16 => 2 ^ 16 | Fat32 => 2 ^ 28 end ->
  raw ty (poke b (raw_offset ty n) (cells ty b n v)) k = if decide (k = n) then v else raw ty b k.
Proof.
  intros Hb Hn Hw Hk Hwk Hv. assert (0 <= raw_offset ty n) as Ho by (destruct ty; simpl; dlia).
  assert (forall i, 0 <= i -> byte (poke b (raw_offset ty n) (cells ty b n v)) i =
    if decide (raw_offset ty n <= i < raw_offset ty n + width ty) then byte (cells ty b n v) (i - raw_offset ty n)
    else byte b i) as HB.
  { intros i Hi. rewrite byte_poke, length_cells; [done|done| |done]. by rewrite length_cells. }
  set (b' := poke b _ _) in *. clearbody b'. destruct ty.
  - destruct (cells Fat12 b n v) as [|x0 [|x1 [|? ?]]] eqn:Ec;
      try (exfalso; pose proof (length_cells Fat12 b n v) as Hl; rewrite Ec in Hl; simpl in Hl; lia).
    cbn [raw_offset width] in *. eapply (raw12_poke b b' n v k x0 x1); try done.
    + rewrite HB, decide_True by lia. by rewrite Z.sub_diag.
    + rewrite HB, decide_True by lia. by replace (n * 3 / 2 + 1 - n * 3 / 2) with 1 by lia.
    + intros i Hi N0 N1. rewrite HB, decide_False by lia. done.
  - unfold raw. cbn [raw_offset width] in *. case_decide as Ekn.
    + subst k. rewrite !HB by lia. rewrite !decide_True by lia.
      rewrite Z.sub_diag. replace (n * 2 + 1 - n * 2) with 1 by lia. unfold cells, byte. simpl. dlia.
    + rewrite !HB by lia. by rewrite !decide_False by lia.
  - unfold raw. cbn [raw_offset width] in *. case_decide as Ekn.
    + subst k. rewrite !HB by lia. rewrite !decide_True by lia.
      rewrite Z.sub_diag. replace (n * 4 + 1 - n * 4) with 1 by lia. replace (n * 4 + 2 - n * 4) with 2 by lia.
      replace (n * 4 + 3 - n * 4) with 3 by lia. unfold cells, byte. simpl. dlia.
    + rewrite !HB by lia. by rewrite !decide_False by lia.
Qed.

Lemma wf_poke ty b n v :
  wf_bytes b -> 0 <= raw_offset ty n -> raw_offset ty n + width ty <= len b ->
  0 <= v < match ty with Fat12 => 2 ^ 12 | Fat16 => 2 ^ 16 | Fat32 => 2 ^ 28 end ->
  wf_bytes (poke b (raw_offset ty n) (cells ty b n v)).
Proof.
  intros Hb Ho Hw Hv i Hi. rewrite len_poke in Hi. rewrite byte_poke, length_cells; rewrite ?length_cells; try lia.
  case_decide as Hin; [|by apply Hb].
  assert (Forall (fun x => 0 <= x < 256) (cells ty b n v)) as HF.
  { pose proof (Hb (raw_offset ty n)) as B0. pose proof (Hb (raw_offset ty n + 1)) as B1.
    unfold cells. destruct ty; unfold width in *; repeat case_decide; repeat constructor; simpl in *; dlia. }
  unfold byte. rewrite Forall_lookup in HF.
  destruct (cells ty b n v !! Z.to_nat (i - raw_offset ty n)) as [x|] eqn:E; [by eapply HF|simpl; lia].
Qed.

(** ** The dirty bitmap *)
Lemma bitmap_bit_set bm s s' w :
  0 <= s -> 0 <= s' -> bm !! Z.to_nat (s / 64) = Some w ->
  bitmap_bit (<[Z.to_nat (s / 64) := Z.lor w (Z.shiftl 1 (s mod 64))]> bm) s' = (s' =? s) || bitmap_bit bm s'.
Proof.
  intros Hs Hs' Hw. unfold bitmap_bit.
  destruct (decide (s' / 64 = s / 64)) as [E|E].
  - rewrite E, list_lookup_insert_eq by (by eapply lookup_lt_Some). rewrite Hw. simpl.
    rewrite Z.lor_spec, Z.shiftl_spec by dlia. rewrite orb_comm. f_equal.
    destruct (Z.eqb_spec s' s) as [->|Hne]; [by rewrite Z.sub_diag|].
    destruct (Z.ltb_spec (s' mod 64 - s mod 64) 0); [by rewrite Z.testbit_neg_r|].
    rewrite (testbit_small 1); [done|unfold in_word; lia|]. dlia.
  - rewrite list_lookup_insert_ne by dlia. destruct (Z.eqb_spec s' s); [congruence|done].
Qed.

Lemma mark_sector_dirty_spec f s :
  0 <= s < Z.of_nat (length (dirty_bitmap f)) * 64 -> Forall (in_word 64) (dirty_bitmap f) ->
  exists bm, mark_sector_dirty f s = Ret (mkFat (buffer f) (sector_size f) (fat_type f) (dirty f) bm) /\
    length bm = length (dirty_bitmap f) /\ Forall (in_word 64) bm /\
    forall s', 0 <= s' -> bitmap_bit bm s' = (s' =? s) || sector_dirty f s'.
Proof.
  intros Hs Hw. unfold mark_sector_dirty.
  destruct (lookup_lt_is_Some_2 (dirty_bitmap f) (Z.to_nat (s / 64))) as [w Hlk]; [dlia|].
  rewrite Hlk. cbn [unwrap mbind outcome_bind]. eexists. split; [done|]. split_and!.
  - by rewrite length_insert.
  - apply Forall_insert; [done|]. apply in_word_lor; [done| |].
    + rewrite Forall_lookup in Hw. by eapply Hw.
    + unfold in_word. rewrite Z.shiftl_mul_pow2 by dlia. rewrite Z.mul_1_l.
      split; [apply Z.pow_nonneg; lia|]. apply Z.pow_lt_mono_r; dlia.
  - intros s' Hs'. apply bitmap_bit_set; [lia|done|done].
Qed.

(** What a write does: one entry changes, and every byte that changes is
    in a marked sector. *)
Record written (f : Fat) (n : Z) (e : FatEntry) (f' : Fat) : Prop := {
  wr_wf : wf f';
  wr_type : fat_type f' = fat_type f;
  wr_sector : sector_size f' = sector_size f;
  wr_len : len (buffer f') = len (buffer f);
  wr_bm : length (dirty_bitmap f') = length (dirty_bitmap f);
  wr_get : forall k, 0 <= k < entries f -> fat_get f' k = if decide (k = n) then e else fat_get f k;
  wr_flag : dirty f' = true;
  wr_keep : forall s, 0 <= s -> sector_dirty f s = true -> sector_dirty f' s = true;
  wr_cover : forall i, 0 <= i -> byte (buffer f') i <> byte (buffer f) i ->
    sector_dirty f' (i / sector_size f) = true
}.

Lemma sector_in_table f i : wf f -> 0 <= i < len (buffer f) ->
  0 <= i / sector_size f < Z.of_nat (length (dirty_bitmap f)) * 64 /\
  (i / sector_size f + 1) * sector_size f <= len (buffer f).
Proof.
  intros Hf Hi. destruct (wf_sector _ Hf) as [Hs _]. pose proof (wf_bitmap _ Hf). pose proof (wf_whole _ Hf) as Hw.
  apply Z.mod_divide in Hw as [q Hq]; [|lia]. rewrite Hq in *.
  assert (i / sector_size f < q) by (apply Z.div_lt_upper_bound; lia).
  split; [split; [apply Z.div_pos; lia|]|nia].
  apply Z.div_lt_upper_bound; [done|]. nia.
Qed.

Lemma write_fat_entry_ret f n e v :
  wf f -> 0 <= n < entries f -> to_u32 e (fat_type f) = Some v ->
  let o := raw_offset (fat_type f) n in
  exists bm, write_fat_entry f n e =
      Ret (mkFat (poke (buffer f) o (cells (fat_type f) (buffer f) n v)) (sector_size f) (fat_type f) true bm) /\
    length bm = length (dirty_bitmap f) /\ Forall (in_word 64) bm /\
    forall s, 0 <= s -> bitmap_bit bm s = true <->
      s = o / sector_size f \/ fat_type f = Fat12 /\ s = (o + 1) / sector_size f \/ sector_dirty f s = true.
Proof.
  intros Hf Hn Hv o. pose proof (entry_fits f n Hf Hn) as [Ho Hw]. fold o in Ho, Hw.
  assert (1 < width (fat_type f)) by (by destruct (fat_type f)).
  destruct (wf_sector _ Hf) as [Hs _].
  unfold write_fat_entry. rewrite entry_offset_ret by done. cbn [mbind outcome_bind]. fold o.
  rewrite assert_ret by lia. cbn [mbind outcome_bind]. rewrite Hv. cbn [unwrap mbind outcome_bind].
  unfold o at 1. rewrite store_entry_ret by (try apply Hf; try done; by eapply entry_range).
  cbn [mbind outcome_bind]. fold o. set (b' := poke _ _ _). cbn [sector_size fat_type buffer dirty].
  rewrite cdiv_ret by lia. cbn [mbind outcome_bind].
  destruct (mark_sector_dirty_spec (mkFat b' (sector_size f) (fat_type f) (dirty f) (dirty_bitmap f)) (o / sector_size f))
    as (bm1 & -> & L1 & W1 & B1); [cbn [dirty_bitmap]; by apply sector_in_table; [|lia]|apply Hf|].
  cbn [mbind outcome_bind sector_size fat_type buffer dirty dirty_bitmap] in *.
  assert (forall s, 0 <= s -> bitmap_bit bm1 s = true <-> s = o / sector_size f \/ sector_dirty f s = true) as B1'.
  { intros s Hs'. rewrite B1 by done. rewrite orb_true_iff, Z.eqb_eq. done. }
  destruct (decide (fat_type f = Fat12)) as [E12|N12]; cbn [mbind outcome_bind].
  - rewrite cdiv_ret by lia. cbn [mbind outcome_bind].
    destruct (mark_sector_dirty_spec (mkFat b' (sector_size f) (fat_type f) (dirty f) bm1) ((o + 1) / sector_size f))
      as (bm2 & -> & L2 & W2 & B2); [cbn [dirty_bitmap]; rewrite L1; by apply sector_in_table; [|lia]|done|].
    cbn [mbind outcome_bind sector_size fat_type buffer dirty dirty_bitmap] in *.
    exists bm2. split; [done|]. split; [congruence|]. split; [done|]. intros s Hs'.
    rewrite B2 by done. rewrite orb_true_iff, Z.eqb_eq. unfold sector_dirty at 1. cbn [dirty_bitmap].
    rewrite B1' by done. tauto.
  - exists bm1. split; [done|]. split; [done|]. split; [done|]. intros s Hs'. rewrite B1' by done. tauto.
Qed.

Lemma write_fat_entry_spec f n e v :
  wf f -> 0 <= n < entries f -> to_u32 e (fat_type f) = Some v ->
  exists f', write_fat_entry f n e = Ret f' /\ written f n e f'.
Proof.
  intros Hf Hn Hv. destruct (write_fat_entry_ret f n e v Hf Hn Hv) as (bm & E & L & W & B).
  eexists. split; [exact E|]. clear E. pose proof (entry_fits f n Hf Hn) as [Ho Hw].
  pose proof (entry_range _ _ _ Hv) as Hr. destruct (wf_sector _ Hf) as [Hs H4].
  set (o := raw_offset (fat_type f) n) in *. assert (1 < width (fat_type f)) by (by destruct (fat_type f)).
  split; cbn [buffer sector_size fat_type dirty dirty_bitmap]; try done.
  - split; cbn [buffer sector_size fat_type dirty dirty_bitmap]; rewrite ?len_poke, ?L; try apply Hf.
    + apply wf_poke; try done. apply Hf.
    + done.
    + intros s Hs' Hd. unfold sector_dirty in Hd. cbn [dirty_bitmap] in Hd. apply B in Hd; [|done]. destruct Hd as [->|[[_ ->]|Hd]]; [| |by apply Hf].
      * by apply sector_in_table; [|lia].
      * by apply sector_in_table; [|lia].
  - by rewrite len_poke.
  - intros k Hk. unfold fat_get. cbn [buffer fat_type]. pose proof (entry_fits f k Hf Hk) as [? ?]. unfold o.
    rewrite raw_poke by (try apply Hf; try done; lia). case_decide; [by apply from_to_u32|done].
  - intros s Hs' Hd. apply B; [done|]. tauto.
  - intros i Hi Hne. unfold sector_dirty. cbn [dirty_bitmap]. apply B; [by apply Z.div_pos|].
    rewrite byte_poke in Hne; rewrite ?length_cells in *; try done.
    destruct (decide (o <= i < o + width (fat_type f))) as [Hin|]; [|done].
    destruct (fat_type f) eqn:Ety; unfold width in *.
    + assert (i = o \/ i = o + 1) as [-> | ->] by lia; [by left|by right; left].
    + left. subst o. cbn [raw_offset] in *. apply Z.mod_divide in H4 as [q Hq]; [|done].
      rewrite Hq in *. assert (i = n * 2 \/ i = n * 2 + 1) as [-> | ->] by lia; [done|].
      replace (q * 4) with (2 * (2 * q)) by lia. rewrite <-!Z.div_div by lia. f_equal. dlia.
    + left. subst o. cbn [raw_offset] in *. apply Z.mod_divide in H4 as [q Hq]; [|done].
      rewrite Hq, (Z.mul_comm q 4) in *. rewrite <-!Z.div_div by lia. f_equal. dlia.
Qed.

(** ** Looking for a free cluster *)
Lemma find_free_spec f n : forall i, wf f -> 0 <= i -> i + Z.of_nat n <= entries f ->
  exists r, find_free f n i = Ret r /\
    match r with
    | Some c => i <= c < i + Z.of_nat n /\ fat_get f c = Free /\ forall k, i <= k < c -> fat_get f k <> Free
    | None => forall k, i <= k < i + Z.of_nat n -> fat_get f k <> Free
    end.
Proof.
  induction n as [|n IH]; intros i Hf Hi Hn; cbn [find_free].
  - eexists. split; [done|]. simpl. lia.
  - rewrite read_fat_entry_ret by (done || lia). cbn [mbind outcome_bind].
    destruct (decide (fat_get f i = Free)) as [E|E].
    + eexists. split; [done|]. simpl. split; [lia|]. split; [done|lia].
    + destruct (IH (i + 1) Hf ltac:(lia) ltac:(lia)) as (r & -> & Hr). eexists. split; [done|].
      destruct r as [c|].
      * destruct Hr as (Hc & Hg & Hk). split; [lia|]. split; [done|]. intros k Hik.
        destruct (decide (k = i)) as [->|]; [done|]. apply Hk. lia.
      * intros k Hik. destruct (decide (k = i)) as [->|]; [done|]. apply Hr. lia.
Qed.

(** The first free cluster, or [None] when every cluster is taken. *)
Lemma find_free_cluster_spec f :
  wf f -> 2 <= entries f ->
  exists r, find_free_cluster f = Ret r /\
    match r with
    | Some c => 2 <= c < entries f /\ fat_get f c = Free /\ forall k, 2 <= k < c -> fat_get f k <> Free
    | None => forall k, 2 <= k < entries f -> fat_get f k <> Free
    end.
Proof.
  intros Hf He. unfold find_free_cluster. rewrite entries_number by done.
  destruct (find_free_spec f (Z.to_nat (entries f - 2)) 2) as (r & -> & Hr); [done|lia|lia|].
  exists r. split; [done|]. by replace (2 + Z.of_nat (Z.to_nat (entries f - 2))) with (entries f) in Hr by lia.
Qed.

(** ** Flushing: the list of marked sectors *)
Lemma word_sectors_spec fuel : forall d s,
  0 <= d -> d < 2 ^ Z.of_nat fuel -> 0 <= s -> s + Z.of_nat fuel <= 2 ^ 32 ->
  exists l, word_sectors (S fuel) d s = Ret l /\
    forall x, x ∈ l <-> s <= x /\ Z.testbit d (x - s) = true.
Proof.
  induction fuel as [|fuel IH]; intros d s Hd Hlt Hs Hb.
  - change (2 ^ Z.of_nat 0) with 1 in Hlt. assert (d = 0) as -> by lia. exists []. split; [done|].
    intros x. rewrite Z.testbit_0_l. set_solver.
  - change (exists l, (if d =? 0 then Ret [] else
        rest ← word_sectors (S fuel) (Z.shiftr d 1) (s + 1);
        Ret (if negb (Z.land d 1 =? 0) then wrap 32 s :: rest else rest)) = Ret l /\
      forall x, x ∈ l <-> s <= x /\ Z.testbit d (x - s) = true).
    destruct (Z.eqb_spec d 0) as [->|Hne].
    { exists []. split; [done|]. intros x. rewrite Z.testbit_0_l. set_solver. }
    destruct (IH (Z.shiftr d 1) (s + 1)) as (l & -> & Hl).
    + by apply Z.shiftr_nonneg.
    + rewrite Z.shiftr_div_pow2 by lia. apply Z.div_lt_upper_bound; [lia|].
      rewrite Nat2Z.inj_succ, Z.pow_succ_r in Hlt by lia. lia.
    + lia.
    + lia.
    + cbn [mbind outcome_bind]. eexists. split; [done|]. intros x.
      assert (negb (Z.land d 1 =? 0) = Z.testbit d 0) as ->.
      { change 1 with (2 ^ 1 - 1). rewrite land_mask by done. rewrite <-Z.bit0_mod. by destruct (Z.testbit d 0). }
      assert (wrap 32 s = s) as -> by (apply Z.mod_small; lia).
      assert (x ∈ l <-> s + 1 <= x /\ Z.testbit d (x - s) = true) as Hl'.
      { rewrite Hl. split; intros [H1 H2]; (split; [done|]); rewrite Z.shiftr_spec in * by lia;
          by replace (x - (s + 1) + 1) with (x - s) in * by lia. }
      destruct (Z.testbit d 0) eqn:E0.
      * rewrite elem_of_cons, Hl'. split; [|intros [H1 H2]].
        -- intros [->|[H1 H2]]; [rewrite Z.sub_diag; by split|split; [lia|done]].
        -- destruct (decide (x = s)); [by left|right; split; [lia|done]].
      * rewrite Hl'. split; intros [H1 H2]; (split; [|done]); [lia|].
        destruct (decide (x = s)) as [->|]; [rewrite Z.sub_diag in H2; congruence|lia].
Qed.

Lemma bitmap_sectors_spec bm : forall i,
  0 <= i -> (i + Z.of_nat (length bm)) * 64 < 2 ^ 32 -> Forall (in_word 64) bm ->
  exists l, bitmap_sectors i bm = Ret l /\
    forall x, x ∈ l <-> i * 64 <= x /\ bitmap_bit bm (x - i * 64) = true.
Proof.
  induction bm as [|w bm IH]; intros i Hi Hb Hw.
  { exists []. split; [done|]. intros x. unfold bitmap_bit. rewrite lookup_nil. simpl. rewrite Z.testbit_0_l. set_solver. }
  apply Forall_cons in Hw as [Hw0 Hw]. cbn [bitmap_sectors length] in *.
  destruct (word_sectors_spec 64 w (i * 64)) as (l1 & -> & H1); [apply Hw0|apply Hw0|lia|lia|].
  destruct (IH (i + 1)) as (l2 & -> & H2); [lia|lia|done|]. cbn [mbind outcome_bind].
  eexists. split; [done|]. intros x. rewrite elem_of_app, H1, H2. unfold bitmap_bit.
  destruct (decide (i * 64 <= x)) as [Hx|]; [|split; intros; lia].
  destruct (decide (x < (i + 1) * 64)) as [Hlt|Hge].
  - assert ((x - i * 64) / 64 = 0) as -> by dlia. assert ((x - i * 64) mod 64 = x - i * 64) as -> by (apply Z.mod_small; lia).
    simpl. split; [intros [?|[? _]]; [done|lia]|by left].
  - assert (Z.testbit w (x - i * 64) = false) as -> by (apply (testbit_small 64); [done|lia]).
    replace ((x - (i + 1) * 64) mod 64) with ((x - i * 64) mod 64) by dlia.
    replace (Z.to_nat ((x - i * 64) / 64)) with (S (Z.to_nat ((x - (i + 1) * 64) / 64))) by dlia.
    simpl. split; [intros [[_ ?]|[_ ?]]; done|intros [_ ?]; right; split; [lia|done]].
Qed.

Lemma bitmap_sectors_marked f : wf f ->
  exists l, bitmap_sectors 0 (dirty_bitmap f) = Ret l /\
    forall x, x ∈ l <-> 0 <= x /\ sector_dirty f x = true.
Proof.
  intros Hf. destruct (bitmap_sectors_spec (dirty_bitmap f) 0) as (l & E & Hl); [lia| |apply Hf|].
  - pose proof (wf_bits _ Hf). lia.
  - exists l. split; [done|]. intros x. rewrite Hl. by rewrite Z.mul_0_l, Z.sub_0_r.
Qed.
