(* ===== verification/BlockDev.v ===== *)
(** * The block layer of the IDE driver

    Models [IdeDevice::read_sync] and [write_sync] of
    [kernel/src/devices/ide.rs].  The command transfers below them are port
    I/O; they are the interface [AtaDrive], and [DriveLaws] is what a
    fault-free drive promises. *)
From S2P Require Import Prelude FsTypes.

(** One [AtaCommand] / [AtapiPacketCommand] transfer: [Err] carries the
    error register. *)
Class AtaDrive (H : Type) : Type := {
  execute_read : Z -> Z -> ST H (result bytes Z);
  execute_write : Z -> Z -> bytes -> ST H (result unit Z);
  execute_packet_read : Z -> Z -> ST H (result bytes Z)
}.

Module Ide.
Section ide.
Context {H : Type} `{AtaDrive H}.

Inductive IdeDeviceType : Type := Ata | Atapi.

Record IdeDevice : Type := mkIde {
  device_type : IdeDeviceType;
  number_of_sectors : Z;
  sector_size : Z;
  drive : H
}.

Definition on_drive {A} (m : ST H A) : ST IdeDevice A := fun d =>
  match m (drive d) with
  | Ret (a, h) => Ret (a, mkIde (device_type d) (number_of_sectors d) (sector_size d) h)
  | Panic => Panic
  | Diverge => Diverge
  end.

Definition read_sync_ata (start_sector len_sectors : Z) : ST IdeDevice (result bytes Z) :=
  _ ← lift (assert_that (len_sectors <=? 0xFF));
  on_drive (execute_read start_sector len_sectors).

Definition read_sync_atapi (start_sector len_sectors : Z) : ST IdeDevice (result bytes Z) :=
  _ ← lift (assert_that (len_sectors <=? 0xFFFF));
  _ ← lift (assert_that (start_sector <=? 0xFFFFFFFF));
  on_drive (execute_packet_read start_sector len_sectors).

Definition write_sync_ata (start_sector len_sectors : Z) (data : bytes) : ST IdeDevice (result unit Z) :=
  _ ← lift (assert_that (len_sectors <=? 0xFF));
  on_drive (execute_write start_sector len_sectors data).

(** The check both transfers start with: the number of sectors, or the
    error. *)
Definition check_request (d : IdeDevice) (start_sector buffer_len : Z) : outcome (result Z IdeError) :=
  rest ← cmod buffer_len (sector_size d);
  if negb (rest =? 0) then Ret (Err UnalignedSize)
  else
    let n := buffer_len / sector_size d in
    if negb (start_sector + n <? 2 ^ 64) then Ret (Err BoundsExceeded)
    else if number_of_sectors d <=? start_sector + n then Ret (Err BoundsExceeded)
    else Ret (Ok n).

Fixpoint read_loop (fuel : nat) (start_sector n : Z) (acc : bytes) : ST IdeDevice (result bytes IdeError) :=
  match fuel with
  | O => diverge
  | S fuel =>
      if n =? 0 then mret (Ok acc)
      else
        let num_now := n `min` 255 in
        _ ← lift (assert_that (num_now <=? n));
        r ← read_sync_ata start_sector num_now;
        match r with
        | Err c => mret (Err (DeviceError c))
        | Ok data =>
            start_sector ← lift (cadd 64 start_sector num_now);
            read_loop fuel start_sector (n - num_now) (acc ++ data)
        end
  end.

Definition read_sync (start_sector buffer_len : Z) : ST IdeDevice (result bytes IdeError) :=
  d ← get;
  r ← lift (check_request d start_sector buffer_len);
  match r with
  | Err e => mret (Err e)
  | Ok n =>
      match device_type d with
      | Ata => read_loop (Z.to_nat (n + 1)) start_sector n []
      | Atapi =>
          r ← read_sync_atapi start_sector n;
          mret (match r with Ok data => Ok data | Err c => Err (DeviceError c) end)
      end
  end.

Fixpoint write_loop (fuel : nat) (start_sector n : Z) (data : bytes) : ST IdeDevice (result unit IdeError) :=
  match fuel with
  | O => diverge
  | S fuel =>
      if n =? 0 then mret (Ok tt)
      else
        let num_now := n `min` 255 in
        _ ← lift (assert_that (num_now <=? n));
        d ← get;
        let mid := num_now * sector_size d in
        _ ← lift (assert_that (mid <=? Z.of_nat (length data)));
        r ← write_sync_ata start_sector num_now (take (Z.to_nat mid) data);
        match r with
        | Err c => mret (Err (DeviceError c))
        | Ok _ =>
            start_sector ← lift (cadd 64 start_sector num_now);
            write_loop fuel start_sector (n - num_now) (drop (Z.to_nat mid) data)
        end
  end.

(** Writing to an ATAPI device is a [todo!]. *)
Definition write_sync (start_sector : Z) (data : bytes) : ST IdeDevice (result unit IdeError) :=
  d ← get;
  r ← lift (check_request d start_sector (Z.of_nat (length data)));
  match r with
  | Err e => mret (Err e)
  | Ok n =>
      match device_type d with
      | Ata => write_loop (Z.to_nat (n + 1)) start_sector n data
      | Atapi => panic
      end
  end.
End ide.
Arguments IdeDevice H : clear implicits.
End Ide.

(** ** A fault-free drive *)

(** Sectors [lba .. lba + n). *)
Fixpoint span (view : Z -> bytes) (lba : Z) (n : nat) : bytes :=
  match n with O => [] | S n => view lba ++ span view (lba + 1) n end.
(** The [i]-th block of [sz] bytes. *)
Definition block (sz : Z) (data : bytes) (i : Z) : bytes :=
  take (Z.to_nat sz) (drop (Z.to_nat (i * sz)) data).

(** A drive with sectors of [sz] bytes, [cap] of them: [view] is what it
    holds.  A read returns the sectors, a write replaces them. *)
Class DriveLaws (H : Type) `{AtaDrive H} (sz cap : Z) : Type := {
  view : H -> Z -> bytes;
  view_size : forall h s, 0 <= s < cap -> Z.of_nat (length (view h s)) = sz;
  read_law : forall h lba n, 0 <= lba -> 0 < n <= 255 -> lba + n <= cap ->
    execute_read lba n h = Ret (Ok (span (view h) lba (Z.to_nat n)), h);
  write_law : forall h lba n data, 0 <= lba -> 0 < n <= 255 -> lba + n <= cap ->
    Z.of_nat (length data) = n * sz ->
    exists h', execute_write lba n data h = Ret (Ok tt, h') /\
      forall s, view h' s = if decide (lba <= s < lba + n) then block sz data (s - lba) else view h s
}.

Lemma span_app v n m : forall lba, span v lba (n + m) = span v lba n ++ span v (lba + Z.of_nat n) m.
Proof.
  induction n as [|n IH]; intros lba; cbn [span Nat.add].
  - by rewrite Z.add_0_r.
  - rewrite IH, <-app_assoc. do 3 f_equal. lia.
Qed.

Lemma span_ext v v' n : forall lba,
  (forall s, lba <= s < lba + Z.of_nat n -> v s = v' s) -> span v lba n = span v' lba n.
Proof.
  induction n as [|n IH]; intros lba Hv; [done|]. cbn [span]. rewrite Hv by lia. f_equal. apply IH.
  intros s Hs. apply Hv. lia.
Qed.

Lemma span_shift v a m : forall k, span (fun s => v (s - a)) (a + k) m = span v k m.
Proof.
  induction m as [|m IH]; intros k; [done|]. cbn [span]. rewrite <-IH. f_equal; [f_equal; lia|f_equal; lia].
Qed.

Lemma length_span v sz n : forall lba,
  (forall s, lba <= s < lba + Z.of_nat n -> Z.of_nat (length (v s)) = sz) ->
  Z.of_nat (length (span v lba n)) = Z.of_nat n * sz.
Proof.
  induction n as [|n IH]; intros lba Hv; [done|]. cbn [span]. rewrite length_app, Nat2Z.inj_add, Hv by lia.
  rewrite IH; [lia|]. intros s Hs. apply Hv. lia.
Qed.

Lemma block_drop sz k data i :
  0 <= sz -> 0 <= k -> 0 <= i -> block sz (drop (Z.to_nat (k * sz)) data) i = block sz data (k + i).
Proof.
  intros. unfold block. rewrite drop_drop. do 2 f_equal. rewrite <-Z2Nat.inj_add by nia. f_equal. lia.
Qed.

Lemma block_take sz k data i :
  0 <= sz -> 0 <= i < k -> block sz (take (Z.to_nat (k * sz)) data) i = block sz data i.
Proof.
  intros Hs Hi. unfold block. rewrite skipn_firstn_comm, take_take. f_equal. nia.
Qed.

(** Reassembling the blocks gives the data back. *)
Lemma span_block sz data n : forall k, 0 <= sz -> 0 <= k -> (k + Z.of_nat n) * sz = Z.of_nat (length data) ->
  span (block sz data) k n = drop (Z.to_nat (k * sz)) data.
Proof.
  induction n as [|n IH]; intros k Hs Hk Hl; cbn [span].
  - rewrite drop_ge; [done|]. nia.
  - rewrite IH by nia. unfold block. replace (Z.to_nat ((k + 1) * sz)) with (Z.to_nat (k * sz) + Z.to_nat sz)%nat by nia.
    by rewrite <-drop_drop, take_drop.
Qed.

(** ** What the commands of a drive promise

    A drive with sectors of [sz] bytes, [cap] of them, in a state in which it
    takes commands: a read returns the sectors and changes none ([same] is all
    it may do to the rest of the state), and a write of [sendable] bytes
    replaces them.  A fault-free drive in memory satisfies it, and so does the
    port protocol of the driver. *)
Class TransferLaws (H : Type) `{AtaDrive H} (sz cap : Z) : Type := {
  sectors_of : H -> Z -> bytes;
  takes_commands : H -> Prop;
  sendable : Z -> Prop;
  same : H -> H -> Prop;
  same_refl : forall h, same h h;
  same_trans : forall h1 h2 h3, same h1 h2 -> same h2 h3 -> same h1 h3;
  same_sectors : forall h h' s, same h h' -> sectors_of h' s = sectors_of h s;
  read_transfers : forall h lba n, takes_commands h -> 0 <= lba -> 0 < n <= 255 -> lba + n <= cap ->
    exists h', execute_read lba n h = Ret (Ok (span (sectors_of h) lba (Z.to_nat n)), h') /\ takes_commands h' /\ same h h';
  write_transfers : forall h lba n data, takes_commands h -> 0 <= lba -> 0 < n <= 255 -> lba + n <= cap ->
    Z.of_nat (length data) = n * sz -> Forall sendable data ->
    exists h', execute_write lba n data h = Ret (Ok tt, h') /\ takes_commands h' /\
      forall s, sectors_of h' s = if decide (lba <= s < lba + n) then block sz data (s - lba) else sectors_of h s
}.

#[export] Program Instance drive_transfers (H : Type) `{DriveLaws H sz cap} : TransferLaws H sz cap := {
  sectors_of := view; takes_commands := fun _ => True; sendable := fun _ => True; same := eq
}.
Next Obligation. done. Qed.
Next Obligation. intros H ? sz cap ? h1 h2 h3. apply eq_trans. Qed.
Next Obligation. by intros H ? sz cap ? h h' s ->. Qed.
Next Obligation. intros H ? sz cap ? h lba n _ H0 Hn Hc. exists h. by rewrite read_law. Qed.
Next Obligation. intros H ? sz cap ? h lba n data _ H0 Hn Hc Hl _. destruct (write_law h lba n data) as (h' & E & Hv); [done..|]. by exists h'. Qed.

(** The device is an ATA drive of that geometry. *)
Record ready {H : Type} {sz cap : Z} (d : Ide.IdeDevice H) : Prop := {
  rd_type : Ide.device_type d = Ide.Ata;
  rd_size : Ide.sector_size d = sz;
  rd_cap : Ide.number_of_sectors d <= cap /\ cap < 2 ^ 64
}.

Lemma check_request_ok {H : Type} {sz cap : Z} (Hsz : 0 < sz) (d : Ide.IdeDevice H) start n :
  ready (sz := sz) (cap := cap) d -> 0 <= start -> 0 <= n -> start + n < Ide.number_of_sectors d ->
  Ide.check_request d start (n * sz) = Ret (Ok n).
Proof.
  intros [D1 D2 [D3 D4]] Hs Hn Hb. unfold Ide.check_request. rewrite D2, cmod_ret by lia. cbn [mbind outcome_bind].
  rewrite Z.mod_mul, Z.div_mul by lia. simpl.
  rewrite (proj2 (Z.ltb_lt _ _)) by lia. rewrite (proj2 (Z.leb_gt _ _)) by lia. done.
Qed.

Section transfers.
Context {H : Type} `{TransferLaws H sz cap} (Hsz : 0 < sz).
Import Ide.
Notation sectors d := (sectors_of (drive d)).
Notation ready := (ready (sz := sz) (cap := cap)).

Definition with_drive (d : IdeDevice H) (h : H) : IdeDevice H := mkIde (device_type d) (number_of_sectors d) (sector_size d) h.

Lemma wp_read_loop P n : forall fuel d start acc (Q : result bytes IdeError -> IdeDevice H -> Prop),
  ready d -> takes_commands (drive d) -> 0 <= start -> (n < fuel)%nat -> start + Z.of_nat n <= number_of_sectors d ->
  (forall h, takes_commands h -> same (drive d) h -> Q (Ok (acc ++ span (sectors d) start n)) (with_drive d h)) ->
  wp P (read_loop fuel start (Z.of_nat n) acc) d Q.
Proof.
  induction n as [n IH] using (well_founded_induction lt_wf).
  intros fuel d start acc Q Hd Ht Hs Hf Hb HQ. destruct fuel as [|fuel]; [lia|]. cbn [read_loop].
  pose proof Hd as [D1 D2 [D3 D4]].
  destruct (Z.eqb_spec (Z.of_nat n) 0) as [E0|E0].
  { apply wp_ret. assert (n = 0%nat) as -> by lia. specialize (HQ (drive d) Ht (same_refl _)). rewrite app_nil_r in HQ. by destruct d. }
  set (m := Z.of_nat n `min` 255). assert (0 < m <= 255) by lia.
  apply wp_bind, wp_assert; [lia|]. apply wp_bind. unfold read_sync_ata. apply wp_bind, wp_assert; [lia|].
  destruct (read_transfers (drive d) start m) as (h' & Er & Ht' & Hsm); [done|lia..|].
  unfold wp at 1, on_drive. rewrite Er. apply wp_bind, wp_cadd; [lia|].
  replace (Z.of_nat n - m) with (Z.of_nat (n - Z.to_nat m)) by lia.
  apply IH; [lia|by split|done|lia|lia|cbn [number_of_sectors]; lia|]. intros h Hth Hsh. cbn [drive] in *.
  rewrite <-app_assoc. replace (start + m) with (start + Z.of_nat (Z.to_nat m)) by lia.
  rewrite (span_ext (sectors_of h') (sectors d)) by (intros s _; by apply same_sectors).
  rewrite <-span_app. replace (Z.to_nat m + (n - Z.to_nat m))%nat with n by lia. apply HQ; [done|by eapply same_trans].
Qed.

(** The device after sectors from [start] were replaced by [data]. *)
Definition replaced_in (d : IdeDevice H) (start n : Z) (data : bytes) (d' : IdeDevice H) : Prop :=
  ready d' /\ takes_commands (drive d') /\ number_of_sectors d' = number_of_sectors d /\
  forall s, sectors d' s = if decide (start <= s < start + n) then block sz data (s - start) else sectors d s.

Lemma wp_write_loop P n : forall fuel d start data (Q : result unit IdeError -> IdeDevice H -> Prop),
  ready d -> takes_commands (drive d) -> 0 <= start -> (n < fuel)%nat -> start + Z.of_nat n <= number_of_sectors d ->
  Z.of_nat (length data) = Z.of_nat n * sz -> Forall sendable data ->
  (forall d', replaced_in d start (Z.of_nat n) data d' -> Q (Ok tt) d') ->
  wp P (write_loop fuel start (Z.of_nat n) data) d Q.
Proof.
  induction n as [n IH] using (well_founded_induction lt_wf).
  intros fuel d start data Q Hd Ht Hs Hf Hb Hl Hsd HQ. destruct fuel as [|fuel]; [lia|]. cbn [write_loop].
  pose proof Hd as [D1 D2 [D3 D4]].
  destruct (Z.eqb_spec (Z.of_nat n) 0) as [E0|E0].
  { apply wp_ret, HQ. split_and!; [done..|]. intros s. rewrite decide_False by lia. done. }
  set (m := Z.of_nat n `min` 255). assert (0 < m <= 255) by lia.
  apply wp_bind, wp_assert; [lia|]. apply wp_bind, wp_get. rewrite D2.
  apply wp_bind, wp_assert; [nia|]. apply wp_bind. unfold write_sync_ata. apply wp_bind, wp_assert; [lia|].
  destruct (write_transfers (drive d) start m (take (Z.to_nat (m * sz)) data)) as (h' & Hw & Ht' & Hv); [done|lia|lia|lia| |by apply Forall_take|].
  { rewrite length_take. nia. }
  unfold wp at 1, on_drive. rewrite Hw. apply wp_bind, wp_cadd; [lia|].
  replace (Z.of_nat n - m) with (Z.of_nat (n - Z.to_nat m)) by lia.
  apply IH; [lia|by split|done|lia|lia|cbn [number_of_sectors]; lia|rewrite length_drop; nia|by apply Forall_drop|].
  intros d' (R1 & R2 & R3 & R4). apply HQ. split_and!; [done..|]. intros s. rewrite R4. cbn [drive].
  rewrite Hv. destruct (decide (start + m <= s < start + m + Z.of_nat (n - Z.to_nat m))) as [Hin|Hout].
  - rewrite decide_True by lia. rewrite block_drop by lia. f_equal. lia.
  - destruct (decide (start <= s < start + m)) as [Hin|Hout'].
    + rewrite decide_True by lia. apply block_take; lia.
    + rewrite decide_False by lia. done.
Qed.

Lemma wp_read_transfer P d start n (Q : result bytes IdeError -> IdeDevice H -> Prop) :
  ready d -> takes_commands (drive d) -> 0 <= start -> 0 <= n -> start + n < number_of_sectors d ->
  (forall h, takes_commands h -> same (drive d) h -> Q (Ok (span (sectors d) start (Z.to_nat n))) (with_drive d h)) ->
  wp P (read_sync start (n * sz)) d Q.
Proof.
  intros Hd Ht Hs Hn Hb HQ. unfold read_sync. apply wp_bind, wp_get. apply wp_bind.
  eapply wp_lift_ret; [by eapply check_request_ok|]. rewrite (rd_type _ Hd).
  replace n with (Z.of_nat (Z.to_nat n)) at 2 by lia. apply wp_read_loop; try done; lia.
Qed.

Lemma wp_write_transfer P d start data n (Q : result unit IdeError -> IdeDevice H -> Prop) :
  ready d -> takes_commands (drive d) -> 0 <= start -> 0 <= n -> start + n < number_of_sectors d ->
  Z.of_nat (length data) = n * sz -> Forall sendable data ->
  (forall d', replaced_in d start n data d' -> Q (Ok tt) d') -> wp P (write_sync start data) d Q.
Proof.
  intros Hd Ht Hs Hn Hb Hl Hsd HQ. unfold write_sync. apply wp_bind, wp_get. apply wp_bind. rewrite Hl.
  eapply wp_lift_ret; [by eapply check_request_ok|]. rewrite (rd_type _ Hd).
  replace n with (Z.of_nat (Z.to_nat n)) at 2 by lia. apply wp_write_loop; try done; try lia.
  intros d'. replace (Z.of_nat (Z.to_nat n)) with n by lia. apply HQ.
Qed.

(** Whatever its length, a transfer is cut into commands of at most 255
    sectors, and the cut is invisible: what is read back after a write is
    the data that was written, on a device where no other sector changed. *)
Lemma write_then_read d start n data :
  ready d -> takes_commands (drive d) -> 0 <= start -> 0 <= n -> start + n < number_of_sectors d ->
  Z.of_nat (length data) = n * sz -> Forall sendable data ->
  exists d' d'', write_sync start data d = Ret (Ok tt, d') /\ read_sync start (n * sz) d' = Ret (Ok data, d'') /\
    takes_commands (drive d'') /\ same (drive d') (drive d'') /\
    forall s, s < start \/ start + n <= s -> sectors d'' s = sectors d s.
Proof.
  intros Hd Ht Hs Hn Hb Hl Hsd.
  destruct (wp_total (write_sync start data) d (fun r d' => r = Ok tt /\ replaced_in d start n data d'))
    as (r & d' & E & -> & R1 & R2 & R3 & R4); [by apply (wp_write_transfer _ _ _ _ n)|].
  destruct (wp_total (read_sync start (n * sz)) d' (fun r d'' => r = Ok data /\ takes_commands (drive d'') /\ same (drive d') (drive d''))) as (r & d'' & E' & -> & Ht'' & Hs'').
  - apply wp_read_transfer; [done|done|done|done|lia|]. intros h Hth Hsh. split; [|by split]. f_equal.
    rewrite (span_ext _ (fun s => block sz data (s - start))).
    + pose proof (span_shift (block sz data) start (Z.to_nat n) 0) as Es. rewrite Z.add_0_r in Es. rewrite Es.
      rewrite span_block; [done|lia|lia|nia].
    + intros s Hs'. rewrite R4, decide_True by lia. done.
  - exists d', d''. split_and!; [done..|]. intros s Hs'. rewrite (same_sectors _ _ s Hs''), R4, decide_False by lia. done.
Qed.
End transfers.

(** ** On a fault-free drive *)
Section laws.
Context {H : Type} `{DriveLaws H sz cap} (Hsz : 0 < sz).
Import Ide.
Notation sectors d := (view (drive d)).
Notation ready := (ready (sz := sz) (cap := cap)).

Definition replaced (d : IdeDevice H) (start n : Z) (data : bytes) (d' : IdeDevice H) : Prop :=
  ready d' /\ number_of_sectors d' = number_of_sectors d /\
  forall s, sectors d' s = if decide (start <= s < start + n) then block sz data (s - start) else sectors d s.

Lemma wp_read_sync P d start n (Q : result bytes IdeError -> IdeDevice H -> Prop) :
  ready d -> 0 <= start -> 0 <= n -> start + n < number_of_sectors d ->
  Q (Ok (span (sectors d) start (Z.to_nat n))) d -> wp P (read_sync start (n * sz)) d Q.
Proof. intros Hd Hs Hn Hb HQ. apply (wp_read_transfer Hsz); try done. intros h _ <-. by destruct d. Qed.

Lemma wp_write_sync P d start data n (Q : result unit IdeError -> IdeDevice H -> Prop) :
  ready d -> 0 <= start -> 0 <= n -> start + n < number_of_sectors d -> Z.of_nat (length data) = n * sz ->
  (forall d', replaced d start n data d' -> Q (Ok tt) d') -> wp P (write_sync start data) d Q.
Proof.
  intros Hd Hs Hn Hb Hl HQ. apply (wp_write_transfer Hsz _ _ _ _ n); try done; [by apply Forall_true|].
  intros d' (R1 & _ & R3 & R4). by apply HQ.
Qed.

Theorem ide_write_read d start n data :
  ready d -> 0 <= start -> 0 <= n -> start + n < number_of_sectors d -> Z.of_nat (length data) = n * sz ->
  exists d', write_sync start data d = Ret (Ok tt, d') /\
    read_sync start (n * sz) d' = Ret (Ok data, d') /\
    forall s, s < start \/ start + n <= s -> sectors d' s = sectors d s.
Proof.
  intros Hd Hs Hn Hb Hl.
  destruct (write_then_read Hsz d start n data) as (d' & d'' & E1 & E2 & _ & Hsm & Hv); [done..|by apply Forall_true|].
  assert (d'' = d') as ->.
  { destruct (wp_total (write_sync start data) d (fun _ d' => replaced d start n data d')) as (r & d1 & E1' & R1 & R2 & _);
      [by apply (wp_write_sync _ _ _ _ n)|]. rewrite E1 in E1'. injection E1' as _ <-.
    destruct (wp_total (read_sync start (n * sz)) d' (fun _ d2 => d2 = d')) as (r2 & d2 & E2' & ->); [apply wp_read_sync; [done|done|done|lia|done]|].
    rewrite E2 in E2'. by injection E2' as _ ->. }
  by exists d'.
Qed.
End laws.

(** The bounds check compares with [>=], so the last sector of a disk can
    be neither read nor written, although it is inside the device. *)
Theorem ide_last_sector_refused {H : Type} `{AtaDrive H} (d : Ide.IdeDevice H) (data : bytes) :
  0 < Ide.sector_size d -> 0 < Ide.number_of_sectors d < 2 ^ 64 ->
  Z.of_nat (length data) = Ide.sector_size d ->
  Ide.read_sync (Ide.number_of_sectors d - 1) (Ide.sector_size d) d = Ret (Err BoundsExceeded, d) /\
  Ide.write_sync (Ide.number_of_sectors d - 1) data d = Ret (Err BoundsExceeded, d).
Proof.
  intros Hs Hn Hl.
  assert (Ide.check_request d (Ide.number_of_sectors d - 1) (Ide.sector_size d) = Ret (Err BoundsExceeded)) as E.
  { unfold Ide.check_request. rewrite cmod_ret by lia. cbn [mbind outcome_bind].
    rewrite Z.mod_same, Z.div_same by lia. simpl.
    rewrite (proj2 (Z.ltb_lt _ _)) by lia. rewrite (proj2 (Z.leb_le _ _)) by lia. done. }
  unfold Ide.read_sync, Ide.write_sync, mbind, ST_bind, get, lift. by rewrite Hl, E.
Qed.

(** ** A drive in memory: an instance of the interface *)
Module MemDrive.
Record t : Type := mk { content : Z -> bytes }.

(** Every sector holds 512 bytes. *)
Definition sector (h : t) (s : Z) : bytes := resize 512 0 (content h s).

#[global] Instance drive : AtaDrive t := {
  execute_read lba n := fun h => Ret (Ok (span (sector h) lba (Z.to_nat n)), h);
  execute_write lba n data := fun h =>
    Ret (Ok tt, mk (fun s => if decide (lba <= s < lba + n) then block 512 data (s - lba) else content h s));
  execute_packet_read lba n := fun h => Ret (Err 4, h)
}.

#[global] Program Instance laws cap : DriveLaws t 512 cap := { view := sector }.
Next Obligation. intros cap h s _. unfold sector. by rewrite length_resize. Qed.
Next Obligation. done. Qed.
Next Obligation.
  intros cap h lba n data H0 Hn Hc Hl. eexists. split; [done|]. intros s. unfold sector. cbn [content].
  case_decide as Hin; [|done]. apply resize_all_alt. unfold block. rewrite length_take, length_drop. lia.
Qed.

Definition blank : t := mk (fun s => [s mod 256]).
End MemDrive.

Lemma ide_write_read_witness :
  let d := Ide.mkIde Ide.Ata 1000 512 MemDrive.blank in
  exists d', Ide.write_sync 7 (repeat 5 (Z.to_nat (300 * 512))) d = Ret (Ok tt, d') /\
    Ide.read_sync 7 (300 * 512) d' = Ret (Ok (repeat 5 (Z.to_nat (300 * 512))), d') /\
    forall s, s < 7 \/ 7 + 300 <= s -> MemDrive.sector (Ide.drive d') s = MemDrive.sector MemDrive.blank s.
Proof.
  intros d. apply (ide_write_read (H1 := MemDrive.laws 1000)); [done| |done|done|done|].
  - split; [done|done|]. simpl. lia.
  - rewrite repeat_length. lia.
Defined.

Lemma ide_last_sector_refused_witness :
  let d := Ide.mkIde Ide.Ata 1000 512 MemDrive.blank in
  Ide.read_sync 999 512 d = Ret (Err BoundsExceeded, d) /\
  Ide.write_sync 999 (repeat 0 512) d = Ret (Err BoundsExceeded, d).
Proof. intros d. apply (ide_last_sector_refused d); simpl; lia. Defined.
