(* ===== verification/FatFs.v ===== *)
(** * The FAT file system: volume geometry, directory entries, files

    Models [FatBootSector], [DirectoryEntryNormal], [ClusterCache] and
    [FatFilesystem] of [kernel/src/fs/fat.rs] on top of the in-memory table
    ([FatTable]) and the IDE block layer ([BlockDev]). *)
From stdpp Require Import sorting.
From S2P Require Import Prelude MemLayout FsTypes FatTable BlockDev.

(** ** Little-endian fields of packed structures *)
Definition u8_at (b : bytes) (i : nat) : Z := default 0 (b !! i).
Definition u16_at (b : bytes) (i : nat) : Z := u8_at b i + 256 * u8_at b (i + 1).
Definition u32_at (b : bytes) (i : nat) : Z := u16_at b i + 65536 * u16_at b (i + 2).
Definition le16 (v : Z) : bytes := [v mod 256; v / 256 mod 256].
Definition le32 (v : Z) : bytes := le16 (v mod 65536) ++ le16 (v / 65536).

Module FatFs.
Import FatTable.

(** ** The boot sector *)
Record FatBootSectorRaw : Type := mkRaw {
  bytes_per_sector : Z;
  sectors_per_cluster : Z;
  reserved_sectors_count : Z;
  raw_number_of_fats : Z;
  root_entry_count : Z;
  total_sectors_16 : Z;
  fat_size_16 : Z;
  total_sectors_32 : Z;
  (* the FAT32 view of the extended part *)
  fat_size_32 : Z;
  root_cluster : Z;
  boot_signature_2 : Z
}.

(** The packed structure over the bytes of the sector. *)
Definition decode_boot_sector (b : bytes) : FatBootSectorRaw :=
  mkRaw (u16_at b 11) (u8_at b 13) (u16_at b 14) (u8_at b 16) (u16_at b 17) (u16_at b 19)
    (u16_at b 22) (u32_at b 32) (u32_at b 36) (u32_at b 44) (u16_at b 510).

Record FatBootSector : Type := mkBoot { ty : FatType; boot_sector : FatBootSectorRaw }.

Definition boot_new (raw : FatBootSectorRaw) (size_in_sectors : Z) : outcome (result FatBootSector FatError) :=
  if negb (boot_signature_2 raw =? 0xAA55) then Ret (Err InvalidBootSector)
  else
    count_of_clusters ← cdiv size_in_sectors (sectors_per_cluster raw);
    let fat_type :=
      if fat_size_16 raw =? 0 then Fat32
      else if count_of_clusters <=? 4084 then Fat12
      else if count_of_clusters <=? 65524 then Fat16
      else Fat32 in
    Ret (Ok (mkBoot fat_type raw)).

Section geometry.
Variable self : FatBootSector.
Definition bytes_per_cluster : outcome Z :=
  cmul 32 (sectors_per_cluster (boot_sector self)) (bytes_per_sector (boot_sector self)).
Definition fat_size_in_sectors : Z :=
  if decide (ty self = Fat32) then fat_size_32 (boot_sector self) else fat_size_16 (boot_sector self).
Definition number_of_fats : Z := raw_number_of_fats (boot_sector self).
Definition fat_start_sector : Z := reserved_sectors_count (boot_sector self).
Definition total_sectors : Z :=
  if negb (total_sectors_16 (boot_sector self) =? 0) then total_sectors_16 (boot_sector self)
  else total_sectors_32 (boot_sector self).
Definition root_dir_sectors : outcome Z :=
  a ← cmul 32 (root_entry_count (boot_sector self)) 32;
  b ← csub (bytes_per_sector (boot_sector self)) 1;
  c ← cadd 32 a b;
  cdiv c (bytes_per_sector (boot_sector self)).
Definition root_dir_start_sector : outcome Z :=
  a ← cmul 32 number_of_fats fat_size_in_sectors;
  cadd 32 fat_start_sector a.
Definition data_start_sector : outcome Z :=
  a ← root_dir_start_sector;
  b ← root_dir_sectors;
  cadd 32 a b.
Definition data_sectors : outcome Z :=
  d ← data_start_sector;
  csub total_sectors d.
(** [FatFilesystem::first_sector_of_cluster] *)
Definition first_sector_of_cluster (cluster : Z) : outcome Z :=
  d ← data_start_sector;
  c ← csub cluster 2;
  o ← cmul 32 c (sectors_per_cluster (boot_sector self));
  cadd 32 d o.
End geometry.

(** ** Attributes *)
Definition LONG_NAME : Z := 0x0F.

(** [if attributes & from == from { acc |= to }] *)
Definition attr_step (attributes : Z) (acc : FileAttributes) (p : Z * FileAttributes) : FileAttributes :=
  if Z.land attributes p.1 =? p.1 then Z.lor acc p.2 else acc.
Definition file_attribute_from_fat (attributes : Z) : FileAttributes :=
  foldl (attr_step attributes) ATTR_EMPTY
    [(0x01, ATTR_READ_ONLY); (0x02, ATTR_HIDDEN); (0x04, ATTR_SYSTEM); (0x08, ATTR_VOLUME_LABEL);
     (0x10, ATTR_DIRECTORY); (0x20, ATTR_ARCHIVE)].
(** [if attributes.contains(from) { acc |= to }] *)
Definition attr_step_back (attributes : FileAttributes) (acc : Z) (p : FileAttributes * Z) : Z :=
  if attr_contains attributes p.1 then Z.lor acc p.2 else acc.
Definition file_attribute_to_fat (attributes : FileAttributes) : Z :=
  foldl (attr_step_back attributes) 0
    [(ATTR_READ_ONLY, 0x01); (ATTR_HIDDEN, 0x02); (ATTR_SYSTEM, 0x04); (ATTR_VOLUME_LABEL, 0x08);
     (ATTR_DIRECTORY, 0x10); (ATTR_ARCHIVE, 0x20)].

(** ** Directory entries *)
Record DirectoryEntryNormal : Type := mkNormal {
  short_name : bytes;
  attributes : Z;
  nt_reserved : Z;
  creation_time_tenths_of_seconds : Z;
  creation_time : Z;
  creation_date : Z;
  last_access_date : Z;
  first_cluster_hi : Z;
  last_modification_time : Z;
  last_modification_date : Z;
  first_cluster_lo : Z;
  file_size : Z
}.

#[global] Instance DirectoryEntryNormal_eq_dec : EqDecision DirectoryEntryNormal.
Proof. solve_decision. Defined.

Definition decode_normal (b : bytes) : DirectoryEntryNormal :=
  mkNormal (take 11 b) (u8_at b 11) (u8_at b 12) (u8_at b 13) (u16_at b 14) (u16_at b 16) (u16_at b 18)
    (u16_at b 20) (u16_at b 22) (u16_at b 24) (u16_at b 26) (u32_at b 28).
Definition encode_normal (e : DirectoryEntryNormal) : bytes :=
  short_name e ++ [attributes e; nt_reserved e; creation_time_tenths_of_seconds e] ++
  le16 (creation_time e) ++ le16 (creation_date e) ++ le16 (last_access_date e) ++ le16 (first_cluster_hi e) ++
  le16 (last_modification_time e) ++ le16 (last_modification_date e) ++ le16 (first_cluster_lo e) ++
  le32 (file_size e).

Definition first_cluster (e : DirectoryEntryNormal) : Z :=
  Z.lor (Z.shiftl (first_cluster_hi e) 16) (first_cluster_lo e).

Definition is_long (raw : bytes) : bool := Z.land (u8_at raw 11) LONG_NAME =? LONG_NAME.

Inductive DirectoryEntryState : Type := EFree | EFreeAndLast | EUsed.
#[global] Instance DirectoryEntryState_eq_dec : EqDecision DirectoryEntryState.
Proof. solve_decision. Defined.
Definition entry_state (raw : bytes) : DirectoryEntryState :=
  let first_byte := u8_at raw 0 in
  if first_byte =? 0 then EFreeAndLast else if first_byte =? 0xE5 then EFree else EUsed.

Definition set_entry_file_size (size : Z) (e : DirectoryEntryNormal) : DirectoryEntryNormal :=
  mkNormal (short_name e) (attributes e) (nt_reserved e) (creation_time_tenths_of_seconds e) (creation_time e)
    (creation_date e) (last_access_date e) (first_cluster_hi e) (last_modification_time e)
    (last_modification_date e) (first_cluster_lo e) size.

(** ** The cluster cache *)
Record ClusterCacheEntry : Type := mkCached {
  ce_cluster : Z;
  reference_count : Z;
  dirty_range : option (Z * Z);
  data : bytes
}.
Notation ClusterCache := (gmap Z ClusterCacheEntry) (only parsing).

Definition insert_cluster (cache : ClusterCache) (cluster : Z) (d : bytes) : ClusterCache :=
  match cache !! cluster with
  | Some _ => cache
  | None => <[cluster := mkCached cluster 1 None d]> cache
  end.
Definition try_get_cluster_locked (cache : ClusterCache) (cluster : Z) : outcome (option ClusterCache) :=
  match cache !! cluster with
  | Some e =>
      n ← cadd 32 (reference_count e) 1;
      Ret (Some (<[cluster := mkCached (ce_cluster e) n (dirty_range e) (data e)]> cache))
  | None => Ret None
  end.
(** [ClusterCache::release_cluster]: the entry, when its last user left. *)
Definition cache_release (cache : ClusterCache) (cluster : Z) : outcome (option ClusterCacheEntry * ClusterCache) :=
  match cache !! cluster with
  | None => Ret (None, cache)
  | Some e =>
      n ← csub (reference_count e) 1;
      let e := mkCached (ce_cluster e) n (dirty_range e) (data e) in
      if n =? 0 then Ret (Some e, delete cluster cache) else Ret (None, <[cluster := e]> cache)
  end.

(** ** The file system *)
Section fs.
Context {H : Type} `{AtaDrive H}.

Record FatFilesystem : Type := mkFs {
  start_lba : Z;
  boot : FatBootSector;
  fat : Fat;
  device : Ide.IdeDevice H;
  cluster_cache : ClusterCache
}.
Definition set_fat (f : Fat) (s : FatFilesystem) : FatFilesystem :=
  mkFs (start_lba s) (boot s) f (device s) (cluster_cache s).
Definition set_device (d : Ide.IdeDevice H) (s : FatFilesystem) : FatFilesystem :=
  mkFs (start_lba s) (boot s) (fat s) d (cluster_cache s).
Definition set_cache (c : ClusterCache) (s : FatFilesystem) : FatFilesystem :=
  mkFs (start_lba s) (boot s) (fat s) (device s) c.

Notation M A := (ST FatFilesystem (result A FileSystemError)).

Definition bps (s : FatFilesystem) : Z := bytes_per_sector (boot_sector (boot s)).

Definition on_device {A} (m : ST (Ide.IdeDevice H) A) : ST FatFilesystem A := fun s =>
  match m (device s) with
  | Ret (a, d) => Ret (a, set_device d s)
  | Panic => Panic
  | Diverge => Diverge
  end.

Definition disk_error {A} (lba : Z) (r : result A IdeError) : result A FileSystemError :=
  match r with Ok a => Ok a | Err e => Err (DiskReadError lba e) end.

Definition read_sectors_no_cache (start_sector count : Z) : M bytes :=
  if count =? 0 then mret (Ok [])
  else
    s ← get;
    lba ← lift (cadd 32 (start_lba s) start_sector);
    r ← on_device (Ide.read_sync lba (bps s * count));
    mret (disk_error lba r).

Definition write_sectors (start_sector : Z) (d : bytes) : M unit :=
  if len d =? 0 then mret (Ok tt)
  else
    s ← get;
    rest ← lift (cmod (len d) (bps s));
    _ ← lift (assert_that (rest =? 0));
    lba ← lift (cadd 32 (start_lba s) start_sector);
    r ← on_device (Ide.write_sync lba d);
    mret (disk_error lba r).

(** [Fat::load] *)
Definition load : M Fat :=
  s ← get;
  n ← lift (cmul 32 (fat_size_in_sectors (boot s)) (number_of_fats (boot s)));
  b ←? read_sectors_no_cache (fat_start_sector (boot s)) n;
  mret (Ok (mkFat b (bps s) (ty (boot s)) false (repeat 0 (Z.to_nat ((n + 63) / 64))))).

(** [FatFilesystem::new] *)
Definition fs_new (lba : Z) (b : FatBootSector) (d : Ide.IdeDevice H) : outcome (result FatFilesystem FileSystemError) :=
  let s := mkFs lba b FatTable.new d ∅ in
  match load s with
  | Ret (Ok f, s) => Ret (Ok (set_fat f s))
  | Ret (Err e, _) => Ret (Err e)
  | Panic => Panic
  | Diverge => Diverge
  end.

(** [load_fat_filesystem] *)
Definition load_fat_filesystem (d : Ide.IdeDevice H) (lba size_in_sectors : Z)
    : outcome (result FatFilesystem FileSystemError) :=
  size ← align_up 512 (Ide.sector_size d);
  match Ide.read_sync lba size d with
  | Ret (Ok sectors, d) =>
      r ← boot_new (decode_boot_sector sectors) size_in_sectors;
      match r with
      | Ok b => fs_new lba b d
      | Err e => Ret (Err (FatErr e))
      end
  | Ret (Err e, _) => Ret (Err (DiskReadError lba e))
  | Panic => Panic
  | Diverge => Diverge
  end.

Definition fat_next (cluster : Z) : M (option Z) := s ← get; lift (next_cluster (fat s) cluster).
Definition fat_write (cluster : Z) (e : FatEntry) : ST FatFilesystem unit :=
  s ← get;
  f ← lift (write_fat_entry (fat s) cluster e);
  modify (set_fat f).
Definition fat_find_free : M Z :=
  s ← get;
  r ← lift (find_free_cluster (fat s));
  mret (match r with Some c => Ok c | None => Err (FatErr NotEnoughSpace) end).

Fixpoint write_dirty (sectors : list Z) : M unit :=
  match sectors with
  | [] => mret (Ok tt)
  | sector :: sectors =>
      s ← get;
      d ← lift (sector_data (fat s) sector);
      at_ ← lift (cadd 32 (fat_start_sector (boot s)) sector);
      _ ←? write_sectors at_ d;
      write_dirty sectors
  end.

Definition flush_fat : M unit :=
  s ← get;
  r ← lift (dirty_sectors (fat s));
  _ ←? (match r with Some l => write_dirty l | None => mret (Ok tt) end);
  _ ← modify (fun s => set_fat (clear_dirty (fat s)) s);
  mret (Ok tt).

Definition update_directory_entry (inode : BaseNode) (update : DirectoryEntryNormal -> DirectoryEntryNormal) : M unit :=
  let at_ := wrap 32 (parent_dir_sector inode) in
  sector ←? read_sectors_no_cache at_ 1;
  let start := Z.to_nat (parent_dir_index inode * 32) in
  _ ← lift (assert_that (parent_dir_index inode * 32 + 32 <=? len sector));
  let raw := take 32 (drop start sector) in
  _ ← lift (assert_that (bool_decide (entry_state raw = EUsed)));
  _ ← lift (assert_that (negb (is_long raw)));
  let current := decode_normal raw in
  let entry := update current in
  if decide (current = entry) then mret (Ok tt)
  else write_sectors at_ (take start sector ++ encode_normal entry ++ drop (start + 32) sector).

Definition lock_cluster (cluster : Z) : M unit :=
  s ← get;
  match cluster_cache s !! cluster with
  | None =>
      first ← lift (first_sector_of_cluster (boot s) cluster);
      d ←? read_sectors_no_cache first (sectors_per_cluster (boot_sector (boot s)));
      _ ← modify (fun s => set_cache (insert_cluster (cluster_cache s) cluster d) s);
      mret (Ok tt)
  | Some _ =>
      r ← lift (try_get_cluster_locked (cluster_cache s) cluster);
      c ← lift (unwrap r);
      _ ← modify (set_cache c);
      mret (Ok tt)
  end.

Definition flush_cluster_dirty_range (cluster_data : bytes) (cluster_num : Z) (range : Z * Z) : M unit :=
  s ← get;
  start_byte_offset ← lift (align_down range.1 (bps s));
  end_byte_offset ← lift (align_up range.2 (bps s));
  bpc ← lift (bytes_per_cluster (boot s));
  _ ← lift (assert_that (start_byte_offset <? bpc));
  _ ← lift (assert_that (end_byte_offset <=? bpc));
  _ ← lift (assert_that (start_byte_offset <? end_byte_offset));
  first ← lift (first_sector_of_cluster (boot s) cluster_num);
  start_sector ← lift (cadd 32 first (start_byte_offset / bps s));
  _ ← lift (assert_that (end_byte_offset <=? len cluster_data));
  write_sectors start_sector
    (take (Z.to_nat (end_byte_offset - start_byte_offset)) (drop (Z.to_nat start_byte_offset) cluster_data)).

Definition flush_cluster_dirty_range_file (inode : FileNode) (cluster_data : bytes) (cluster_num : Z)
    (range : Z * Z) : M unit :=
  _ ←? flush_fat;
  _ ←? update_directory_entry (fn_base inode) (set_entry_file_size (wrap 32 (fn_size inode)));
  flush_cluster_dirty_range cluster_data cluster_num range.

Definition release_cluster (inode : FileNode) (cluster : Z) : M unit :=
  s ← get;
  r ← lift (cache_release (cluster_cache s) cluster);
  _ ← modify (set_cache r.2);
  match r.1 with
  | Some e =>
      match dirty_range e with
      | Some range => flush_cluster_dirty_range_file inode (data e) (ce_cluster e) range
      | None => mret (Ok tt)
      end
  | None => mret (Ok tt)
  end.

(** [flush_cluster]: the data is swapped out during the flush and swapped
    back after it; an error leaves it swapped out. *)
Definition flush_cluster (inode : FileNode) (cluster : Z) : M unit :=
  s ← get;
  match cluster_cache s !! cluster with
  | Some e =>
      match dirty_range e with
      | Some range =>
          let out := mkCached (ce_cluster e) (reference_count e) None [] in
          _ ← modify (set_cache (<[cluster := out]> (cluster_cache s)));
          _ ←? flush_cluster_dirty_range_file inode (data e) (ce_cluster e) range;
          s ← get;
          _ ← (match cluster_cache s !! cluster with
               | Some e' => modify (set_cache (<[cluster := mkCached (ce_cluster e') (reference_count e')
                              (dirty_range e') (data e)]> (cluster_cache s)))
               | None => mret tt
               end);
          mret (Ok tt)
      | None => mret (Ok tt)
      end
  | None => mret (Ok tt)
  end.

(** ** Files

    The operations on a file change the inode and the access helper that
    the open file holds, also when they fail. *)
Record Handle : Type := mkHandle { inode : FileNode; helper : AccessHelper }.
Notation F A := (ST (FatFilesystem * Handle) (result A FileSystemError)).

Definition on_fs {A} (m : ST FatFilesystem A) : ST (FatFilesystem * Handle) A := fun s =>
  match m s.1 with
  | Ret (a, fs) => Ret (a, (fs, s.2))
  | Panic => Panic
  | Diverge => Diverge
  end.
Definition set_helper (h : AccessHelper) : ST (FatFilesystem * Handle) unit :=
  modify (fun s => (s.1, mkHandle (inode s.2) h)).
(** [FileNode::set_size] *)
Definition set_size (size : Z) : ST (FatFilesystem * Handle) unit :=
  modify (fun s => (s.1, mkHandle (mkFileNode (fn_base (inode s.2)) size (fn_device (inode s.2))) (helper s.2))).

Inductive FileAccessBuffer : Type := BRead (n : Z) | BWrite (d : bytes).
Definition buf_len (b : FileAccessBuffer) : Z := match b with BRead n => n | BWrite d => len d end.

(** [cluster_index] steps along the chain. *)
Fixpoint follow (n : nat) (cluster : Z) : M Z :=
  match n with
  | O => mret (Ok cluster)
  | S n =>
      r ←? fat_next cluster;
      match r with
      | Some c => follow n c
      | None => mret (Err (FatErr UnexpectedFatEntry))
      end
  end.

Definition merge_range (r : option (Z * Z)) (lo hi : Z) : Z * Z :=
  match r with Some (a, b) => (a `min` lo, b `max` hi) | None => (lo, hi) end.

(** One pass over the locked cluster: returns the bytes read. *)
Definition access_cluster (buf : FileAccessBuffer) (cluster pos accessed to_access : Z) (e : ClusterCacheEntry)
    : ST FatFilesystem bytes :=
  match buf with
  | BRead _ => mret (take (Z.to_nat to_access) (drop (Z.to_nat pos) (data e)))
  | BWrite d =>
      let part := take (Z.to_nat to_access) (drop (Z.to_nat accessed) d) in
      let d' := take (Z.to_nat pos) (data e) ++ part ++ drop (Z.to_nat (pos + to_access)) (data e) in
      _ ← modify (fun s => set_cache (<[cluster := mkCached (ce_cluster e) (reference_count e)
              (Some (merge_range (dirty_range e) pos (pos + to_access))) d']> (cluster_cache s)) s);
      mret []
  end.

Fixpoint access_loop (fuel : nat) (buf : FileAccessBuffer) (max_to_access bpc accessed pos cluster : Z)
    (out : bytes) : F (Z * bytes) :=
  match fuel with
  | O => diverge
  | S fuel =>
      if negb (accessed <? max_to_access) then mret (Ok (accessed, out))
      else
        s ← get;
        e ← lift (unwrap (cluster_cache s.1 !! cluster));
        _ ← lift (assert_that (pos <=? len (data e)));
        let to_access := (len (data e) - pos) `min` (max_to_access - accessed) in
        part ← on_fs (access_cluster buf cluster pos accessed to_access e);
        let out := out ++ part in
        let accessed := accessed + to_access in
        pos ← lift (cadd 32 pos to_access);
        if pos <? bpc then access_loop fuel buf max_to_access bpc accessed pos cluster out
        else
          _ ← lift (assert_that (pos =? bpc));
          r ←? on_fs (fat_next cluster);
          match r with
          | Some next =>
              _ ←? on_fs (release_cluster (inode s.2) cluster);
              _ ←? on_fs (lock_cluster next);
              s ← get;
              _ ← set_helper (mkAccessHelper next (cluster_index (helper s.2) + 1));
              access_loop fuel buf max_to_access bpc accessed 0 next out
          | None => mret (Ok (accessed, out))
          end
  end.

Definition read_write_file (position : Z) (buf : FileAccessBuffer) : F (Z * bytes) :=
  s ← get;
  let size := wrap 32 (fn_size (inode s.2)) in
  if size <=? position then mret (Ok (0, []))
  else
    let max_to_access := wrap 32 (buf_len buf) `min` (size - position) in
    bpc ← lift (bytes_per_cluster (boot s.1));
    pos ← lift (cmod position bpc);
    index ← lift (cdiv position bpc);
    _ ←? (if negb (cluster_index (helper s.2) =? index) then
            _ ←? (if negb (current_cluster (helper s.2) =? 0)
                  then on_fs (release_cluster (inode s.2) (wrap 32 (current_cluster (helper s.2))))
                  else mret (Ok tt));
            _ ← set_helper (mkAccessHelper 0 (cluster_index (helper s.2)));
            mret (Ok tt)
          else mret (Ok tt));
    s ← get;
    _ ←? (if current_cluster (helper s.2) =? 0 then
            let start := wrap 32 (start_cluster (fn_base (inode s.2))) in
            _ ← lift (assert_that (negb (start =? 0)));
            cluster ←? on_fs (follow (Z.to_nat index) start);
            _ ← set_helper (mkAccessHelper cluster index);
            on_fs (lock_cluster cluster)
          else
            _ ← lift (unwrap (cluster_cache s.1 !! wrap 32 (current_cluster (helper s.2))));
            mret (Ok tt));
    s ← get;
    access_loop (Z.to_nat (max_to_access + 1)) buf max_to_access bpc 0 pos
      (wrap 32 (current_cluster (helper s.2))) [].

(** ** Resizing *)

(** [n] steps along the chain, collecting the clusters; the end of the
    chain is a panic ([expect]). *)
Fixpoint collect_chain (n : nat) (cluster : Z) : M (list Z) :=
  match n with
  | O => mret (Ok [])
  | S n =>
      r ←? fat_next cluster;
      c ← lift (unwrap r);
      l ←? collect_chain n c;
      mret (Ok (c :: l))
  end.
Definition free_all (clusters : list Z) : ST FatFilesystem unit :=
  foldr (fun c m => _ ← fat_write c Free; m) (mret tt) (reverse clusters).
Fixpoint grow (n : nat) (last_cluster : Z) : M unit :=
  match n with
  | O => mret (Ok tt)
  | S n =>
      new_cluster ←? fat_find_free;
      _ ← fat_write last_cluster (Next new_cluster);
      _ ← fat_write new_cluster EndOfChain;
      grow n new_cluster
  end.

Definition size_in_clusters (bpc size : Z) : outcome Z :=
  a ← cadd 64 size bpc;
  b ← csub a 1;
  c ← cdiv b bpc;
  Ret (c `max` 1).

(** The cluster the walk stops at. *)
Fixpoint chain_end (c : Z) (l : list Z) : Z := match l with [] => c | d :: l => chain_end d l end.

(** The FAT part of [set_file_size]. *)
Definition resize_chain (start current new : Z) : M unit :=
  if new =? current then mret (Ok tt)
  else
    l ←? collect_chain (Z.to_nat (new `min` current - 1)) start;
    let last_cluster := chain_end start l in
    if new <? current then
      clusters ←? collect_chain (Z.to_nat (current - new)) last_cluster;
      _ ← free_all clusters;
      _ ← fat_write last_cluster EndOfChain;
      mret (Ok tt)
    else grow (Z.to_nat (new - current)) last_cluster.

Definition set_file_size (size : Z) : F unit :=
  s ← get;
  bpc ← lift (bytes_per_cluster (boot s.1));
  current ← lift (size_in_clusters bpc (fn_size (inode s.2)));
  new ← lift (size_in_clusters bpc size);
  _ ←? on_fs (resize_chain (wrap 32 (start_cluster (fn_base (inode s.2)))) current new);
  _ ← set_size size;
  mret (Ok tt).

(** ** [impl FileSystem for Mutex<FatFilesystem>] *)
Definition read_file (position n : Z) : F (Z * bytes) :=
  _ ← lift (assert_that (position <=? 0xFFFFFFFF));
  read_write_file position (BRead n).

Fixpoint extend_zeros (fuel : nat) (base written extend_size sector : Z) : F unit :=
  match fuel with
  | O => diverge
  | S fuel =>
      if negb (written <? extend_size) then mret (Ok tt)
      else
        let to_write := sector `min` (extend_size - written) in
        _ ←? read_write_file (wrap 32 (base + written)) (BWrite (repeat 0 (Z.to_nat to_write)));
        extend_zeros fuel base (written + to_write) extend_size sector
  end.

Definition write_file (position : Z) (buf : bytes) : F Z :=
  _ ← lift (assert_that (position <=? 0xFFFFFFFF));
  s ← get;
  let current_size := fn_size (inode s.2) in
  new_size ← lift (cadd 64 position (len buf));
  _ ←? (if current_size <? new_size then
          r ← set_file_size new_size;
          mret (match r with Ok _ => Ok tt | Err _ => Err CouldNotSetFileLength end)
        else mret (Ok tt));
  _ ←? (if current_size <? position then
          extend_zeros (Z.to_nat (position - current_size + 1)) current_size 0 (position - current_size) (bps s.1)
        else mret (Ok tt));
  r ←? read_write_file position (BWrite buf);
  mret (Ok r.1).

Definition flush_file : F unit :=
  s ← get;
  on_fs (flush_cluster (inode s.2) (wrap 32 (current_cluster (helper s.2)))).
Definition close_file : F unit :=
  s ← get;
  on_fs (release_cluster (inode s.2) (wrap 32 (current_cluster (helper s.2)))).

(** [FileSystem::set_file_size] *)
Definition truncate_file (size : Z) : F unit :=
  _ ←? set_file_size size;
  _ ←? on_fs flush_fat;
  s ← get;
  on_fs (update_directory_entry (fn_base (inode s.2)) (set_entry_file_size (wrap 32 (fn_size (inode s.2))))).

Fixpoint flush_all (entries : list (Z * ClusterCacheEntry)) : ST FatFilesystem unit :=
  match entries with
  | [] => mret tt
  | (_, e) :: entries =>
      _ ← (match dirty_range e with
           | Some range =>
               r ← flush_cluster_dirty_range (data e) (ce_cluster e) range;
               lift (assert_that (is_ok r))
           | None => mret tt
           end);
      flush_all entries
  end.
(** The cache is a [BTreeMap]: its values come in key order. *)
Definition by_key (a b : Z * ClusterCacheEntry) : Prop := a.1 <= b.1.
#[global] Instance by_key_dec a b : Decision (by_key a b).
Proof. unfold by_key. apply _. Defined.
Definition unmount : ST FatFilesystem unit :=
  r ← flush_fat;
  _ ← lift (assert_that (is_ok r));
  s ← get;
  _ ← modify (set_cache ∅);
  flush_all (merge_sort by_key (map_to_list (cluster_cache s))).
End fs.
Arguments FatFilesystem H : clear implicits.
End FatFs.
