(* ===== verification/FatChain.v ===== *)
(** * The FAT file system: cluster chains

    A file is a chain of clusters in the table.  Resizing a file rewrites
    its own chain and takes from or returns to the free clusters; every
    other chain is left as it is. *)
From S2P Require Import Prelude MemLayout FsTypes FatTable BlockDev FatFs.
Import FatTable FatFs.

Section chains.
Context {H : Type} `{AtaDrive H}.
Notation FS := (FatFilesystem H).

(** The clusters that follow [c] are [l]. *)
Fixpoint chain (f : Fat) (c : Z) (l : list Z) : Prop :=
  match l with
  | [] => fat_get f c = EndOfChain
  | d :: l => fat_get f c = Next d /\ chain f d l
  end.

(** Clusters of the volume; every one of them can be named by an entry. *)
Definition valid (f : Fat) (c : Z) : Prop := 2 <= c < entries f.
Definition linkable (f : Fat) : Prop :=
  entries f <= match fat_type f with Fat12 => 0xFF7 | Fat16 => 0xFFF7 | Fat32 => 0x0FFFFFF7 end.

(** The same table up to its contents. *)
Record like (f f' : Fat) : Prop := {
  lk_wf : wf f';
  lk_entries : entries f' = entries f;
  lk_type : fat_type f' = fat_type f
}.

Lemma like_refl f : wf f -> like f f.
Proof. done. Qed.
Lemma like_trans f1 f2 f3 : like f1 f2 -> like f2 f3 -> like f1 f3.
Proof. intros [A1 A2 A3] [B1 B2 B3]. split; congruence. Qed.
Lemma like_valid f f' c : like f f' -> valid f c -> valid f' c.
Proof. intros [_ E _]. unfold valid. by rewrite E. Qed.
Lemma like_valid_back f f' c : like f f' -> valid f' c -> valid f c.
Proof. intros [_ E _]. unfold valid. by rewrite E. Qed.
Lemma like_linkable f f' : like f f' -> linkable f -> linkable f'.
Proof. intros [_ E T]. unfold linkable. by rewrite E, T. Qed.

Lemma written_like f n e f' : written f n e f' -> like f f'.
Proof. intros W. split; [apply W| |apply W]. unfold entries. by rewrite (wr_type _ _ _ _ W), (wr_len _ _ _ _ W). Qed.

(** Entries a chain consists of can be stored. *)
Definition storable (f : Fat) (e : FatEntry) : Prop :=
  match e with Free | EndOfChain => True | Next c => valid f c | _ => False end.
Lemma storable_u32 f e : linkable f -> storable f e -> exists v, to_u32 e (fat_type f) = Some v.
Proof.
  unfold linkable, storable, valid. intros HL HS. destruct e as [|c| | |]; try done; [by eexists| |].
  - destruct (fat_type f); simpl; unfold in_incl;
      rewrite (proj2 (Z.leb_le 2 c)) by lia; rewrite (proj2 (Z.leb_le c _)) by lia; by eexists.
  - by destruct (fat_type f); eexists.
Qed.

(** ** Table operations inside the file system *)
Lemma wp_fat_next P (s : FS) c (Q : result (option Z) FileSystemError -> FS -> Prop) :
  wf (fat s) -> valid (fat s) c ->
  Q (match fat_get (fat s) c with
     | Next n => Ok (Some n) | EndOfChain => Ok None | _ => Err (FatErr UnexpectedFatEntry)
     end) s -> wp P (fat_next c) s Q.
Proof.
  intros Hwf Hc HQ. unfold fat_next. apply wp_bind, wp_get. unfold next_cluster.
  rewrite read_fat_entry_ret by (done || unfold valid in *; lia). cbn [mbind outcome_bind].
  eapply wp_lift_ret; [done|]. by destruct (fat_get (fat s) c).
Qed.

Lemma wp_fat_write P (s : FS) c e (Q : unit -> FS -> Prop) :
  wf (fat s) -> linkable (fat s) -> valid (fat s) c -> storable (fat s) e ->
  (forall f', like (fat s) f' ->
     (forall k, valid (fat s) k -> fat_get f' k = if decide (k = c) then e else fat_get (fat s) k) ->
     Q tt (set_fat f' s)) -> wp P (fat_write c e) s Q.
Proof.
  intros Hwf HL Hc He HQ. unfold fat_write. apply wp_bind, wp_get. apply wp_bind.
  destruct (storable_u32 _ _ HL He) as [v Hv].
  destruct (write_fat_entry_spec (fat s) c e v) as (f' & E & W); [done|unfold valid in *; lia|done|].
  eapply wp_lift_ret; [exact E|]. apply wp_modify, HQ; [by eapply written_like|].
  intros k Hk. apply (wr_get _ _ _ _ W). unfold valid in *. lia.
Qed.

(** [n] steps along a chain visit its clusters. *)
Lemma wp_collect_chain P n : forall (s : FS) c l (Q : result (list Z) FileSystemError -> FS -> Prop),
  wf (fat s) -> chain (fat s) c l -> Forall (valid (fat s)) (c :: l) -> (n <= length l)%nat ->
  Q (Ok (take n l)) s -> wp P (collect_chain n c) s Q.
Proof.
  induction n as [|n IH]; intros s c l Q Hwf Hch Hv Hn HQ; cbn [collect_chain].
  - by apply wp_ret.
  - apply Forall_cons in Hv as [Hc Hv]. destruct l as [|d l]; [simpl in Hn; lia|]. destruct Hch as [Hd Hch].
    apply wp_ebind, wp_fat_next; [done|done|]. rewrite Hd. apply wp_bind. eapply wp_lift_ret; [done|].
    apply wp_ebind. eapply (IH _ d l); [done|done|done|simpl in Hn; lia|]. by apply wp_ret.
Qed.

(** ** Growing a chain *)
Lemma wp_grow P n : forall (s : FS) z (Q : result unit FileSystemError -> FS -> Prop),
  wf (fat s) -> linkable (fat s) -> valid (fat s) z -> fat_get (fat s) z = EndOfChain ->
  (forall r f' add, like (fat s) f' -> chain f' z add -> NoDup add -> z ∉ add ->
     Forall (fun x => valid (fat s) x /\ fat_get (fat s) x = Free) add ->
     (forall k, valid (fat s) k -> k ∉ z :: add -> fat_get f' k = fat_get (fat s) k) ->
     (r = Ok tt /\ length add = n \/
      r = Err (FatErr NotEnoughSpace) /\ (length add < n)%nat /\ forall k, valid f' k -> fat_get f' k <> Free) ->
     Q r (set_fat f' s)) -> wp P (grow n z) s Q.
Proof.
  induction n as [|n IH]; intros s z Q Hwf HL Hz Hend HQ; cbn [grow].
  { apply wp_ret. replace s with (set_fat (fat s) s) by (by destruct s).
    apply (HQ _ _ []); try done; [by apply NoDup_nil_2|set_solver|by left]. }
  apply wp_ebind. unfold fat_find_free. apply wp_bind, wp_get. apply wp_bind.
  destruct (find_free_cluster_spec (fat s)) as (r & Er & Hr); [done|unfold valid in *; lia|].
  eapply wp_lift_ret; [exact Er|]. apply wp_ret. destruct r as [x|].
  2: { change (Q (Err (FatErr NotEnoughSpace)) s). replace s with (set_fat (fat s) s) by (by destruct s).
       apply (HQ _ _ []); try done; [by apply NoDup_nil_2|set_solver|]. right. split; [done|]. split; [simpl; lia|done]. }
  destruct Hr as (Hx & Hfree & _).
  assert (x <> z) as Hxz by congruence.
  apply wp_bind, wp_fat_write; [done|done|done|done|]. intros f1 L1 G1.
  assert (valid (fat s) x) as Hvx by done.
  apply wp_bind, wp_fat_write; cbn [fat set_fat]; [apply L1|by eapply like_linkable|by eapply like_valid|done|].
  intros f2 L2 G2. pose proof (like_trans _ _ _ L1 L2) as L12.
  assert (forall k, valid (fat s) k -> fat_get f2 k = if decide (k = x) then EndOfChain else
            if decide (k = z) then Next x else fat_get (fat s) k) as G12.
  { intros k Hk. rewrite G2 by (by eapply like_valid). rewrite G1 by done. done. }
  apply IH; cbn [fat set_fat]; [apply L12|by eapply like_linkable|by eapply like_valid| |].
  { rewrite G12, decide_True by done. done. }
  intros r f3 add L3 Hch Hnd Hnin Hadd Hfr Hres.
  assert (Forall (fun y => y <> z /\ valid (fat s) y /\ fat_get (fat s) y = Free) add) as Hadd'.
  { eapply Forall_impl; [exact Hadd|]. intros y [Vy Fy]. pose proof (like_valid_back _ _ _ L12 Vy) as Vy'.
    rewrite G12 in Fy by done. repeat case_decide; done. }
  assert (z ∉ x :: add) as Hzn.
  { rewrite elem_of_cons. intros [->|Hin]; [done|]. rewrite Forall_forall in Hadd'. by destruct (Hadd' z Hin). }
  replace (set_fat f3 (set_fat f2 (set_fat f1 s))) with (set_fat f3 s) by done.
  apply (HQ r f3 (x :: add)).
  - by eapply like_trans.
  - split; [|done]. rewrite Hfr; [|by eapply like_valid|done]. rewrite G12, decide_False, decide_True by done. done.
  - by constructor.
  - done.
  - constructor; [done|]. eapply Forall_impl; [exact Hadd'|]. naive_solver.
  - intros k Hk Hkn. rewrite Hfr; [|by eapply like_valid|set_solver].
    rewrite G12, !decide_False by set_solver. done.
  - destruct Hres as [[-> E]|(-> & Hlt & Hno)]; [left; simpl; by rewrite E|right; simpl; split; [done|]; split; [lia|done]].
Qed.

(** ** Shrinking a chain *)
Lemma wp_free_all P l : forall (s : FS) (Q : unit -> FS -> Prop),
  wf (fat s) -> linkable (fat s) -> Forall (valid (fat s)) l ->
  (forall f', like (fat s) f' ->
     (forall k, valid (fat s) k -> fat_get f' k = if decide (k ∈ l) then Free else fat_get (fat s) k) ->
     Q tt (set_fat f' s)) -> wp P (free_all l) s Q.
Proof.
  unfold free_all. intros s Q Hwf HL Hv HQ.
  assert (Forall (valid (fat s)) (reverse l)) as Hv'.
  { rewrite Forall_forall in Hv |- *. intros x Hx. apply Hv. by apply elem_of_reverse. }
  assert (forall f', like (fat s) f' ->
     (forall k, valid (fat s) k -> fat_get f' k = if decide (k ∈ reverse l) then Free else fat_get (fat s) k) ->
     Q tt (set_fat f' s)) as HQ'.
  { intros f' L' G'. apply HQ; [done|]. intros k Hk. rewrite G' by done. apply decide_ext, elem_of_reverse. }
  clear HQ Hv. generalize dependent (reverse l). clear l. intros l.
  revert s Hwf HL. induction l as [|c l IH]; intros s Hwf HL Hv HQ; cbn [foldr].
  { apply wp_ret. replace s with (set_fat (fat s) s) by (by destruct s). by apply HQ. }
  apply Forall_cons in Hv as [Hc Hv]. apply wp_bind, wp_fat_write; [done|done|done|done|]. intros f1 L1 G1.
  apply IH; cbn [fat set_fat]; [apply L1|by eapply like_linkable| |].
  { eapply Forall_impl; [exact Hv|]. intros x. by apply like_valid. }
  intros f2 L2 G2. replace (set_fat f2 (set_fat f1 s)) with (set_fat f2 s) by done. apply HQ; [by eapply like_trans|].
  intros k Hk. rewrite G2, G1 by (done || by eapply like_valid).
  destruct (decide (k ∈ l)); [by rewrite decide_True by set_solver|].
  destruct (decide (k = c)); [by rewrite decide_True by set_solver|by rewrite decide_False by set_solver].
Qed.

Lemma fat_chain_frame f f' l : forall c,
  chain f c l -> (forall k, k ∈ c :: l -> fat_get f' k = fat_get f k) -> chain f' c l.
Proof.
  induction l as [|d l IH]; intros c Hch Hk; cbn [chain] in *.
  - rewrite Hk by set_solver. done.
  - destruct Hch as [Hc Hch]. split; [rewrite Hk by set_solver; done|]. apply IH; [done|]. intros k Hin. apply Hk. set_solver.
Qed.

(** Cutting a chain after some of its clusters. *)
Lemma chain_suffix f l1 l2 : forall c, chain f c (l1 ++ l2) -> chain f (chain_end c l1) l2.
Proof. induction l1 as [|d l1 IH]; intros c Hch; [done|]. destruct Hch as [_ Hch]. by apply IH. Qed.

Lemma chain_end_in l : forall c, chain_end c l ∈ c :: l.
Proof. induction l as [|d l IH]; intros c; cbn [chain_end]; [set_solver|]. pose proof (IH d). set_solver. Qed.

Lemma chain_cut f f' l1 l2 : forall c,
  chain f c (l1 ++ l2) -> NoDup (c :: l1) -> fat_get f' (chain_end c l1) = EndOfChain ->
  (forall k, k ∈ c :: l1 -> k <> chain_end c l1 -> fat_get f' k = fat_get f k) -> chain f' c l1.
Proof.
  induction l1 as [|d l1 IH]; intros c Hch Hnd He Hk; [done|]. destruct Hch as [Hc Hch]. cbn [chain chain_end] in *.
  apply NoDup_cons in Hnd as [Hn Hnd]. split.
  - rewrite Hk; [done|set_solver|]. intros E. pose proof (chain_end_in l1 d). congruence.
  - apply IH; [done|done|done|]. intros k Hin. apply Hk. set_solver.
Qed.

(** Extending it. *)
Lemma chain_extend f f' l1 add : forall c,
  chain f c l1 -> NoDup (c :: l1) -> chain f' (chain_end c l1) add ->
  (forall k, k ∈ c :: l1 -> k <> chain_end c l1 -> fat_get f' k = fat_get f k) -> chain f' c (l1 ++ add).
Proof.
  induction l1 as [|d l1 IH]; intros c Hch Hnd He Hk; [done|]. destruct Hch as [Hc Hch]. cbn [chain chain_end app] in *.
  apply NoDup_cons in Hnd as [Hn Hnd]. split.
  - rewrite Hk; [done|set_solver|]. intros E. pose proof (chain_end_in l1 d). congruence.
  - apply IH; [done|done|done|]. intros k Hin. apply Hk. set_solver.
Qed.

(** ** Resizing *)
Record resized (f : Fat) (c : Z) (l : list Z) (f' : Fat) (l' : list Z) : Prop := {
  rs_like : like f f';
  rs_chain : chain f' c l';
  rs_nodup : NoDup (c :: l');
  rs_valid : Forall (valid f) (c :: l');
  rs_new : forall k, k ∈ l' -> k ∉ l -> fat_get f k = Free;
  rs_freed : forall k, k ∈ l -> k ∉ l' -> fat_get f' k = Free;
  rs_frame : forall k, valid f k -> k ∉ c :: l -> k ∉ c :: l' -> fat_get f' k = fat_get f k;
  rs_prefix : l `prefix_of` l' \/ l' `prefix_of` l
}.

Lemma chain_end_eoc f l : forall c, chain f c l -> fat_get f (chain_end c l) = EndOfChain.
Proof. induction l as [|d l IH]; intros c Hch; [done|]. destruct Hch as [_ Hch]. by apply IH. Qed.

Lemma chain_not_free f l : forall c k, chain f c l -> k ∈ c :: l -> fat_get f k <> Free.
Proof.
  induction l as [|d l IH]; intros c k Hch Hin; cbn [chain] in Hch.
  - assert (k = c) as -> by set_solver. congruence.
  - destruct Hch as [Hc Hch]. apply elem_of_cons in Hin as [->|Hin]; [congruence|by eapply IH].
Qed.

Section resize.
Context (s : FS) (c : Z) (l : list Z).
Context (Hwf : wf (fat s)) (HL : linkable (fat s)).
Context (Hch : chain (fat s) c l) (Hnd : NoDup (c :: l)) (Hv : Forall (valid (fat s)) (c :: l)).

Lemma resized_refl : resized (fat s) c l (fat s) l.
Proof. split; try done. left. reflexivity. Qed.

(** Cutting the clusters [l2] off the chain. *)
Lemma resized_cut l1 l2 f' :
  l = l1 ++ l2 -> like (fat s) f' ->
  (forall k, valid (fat s) k -> fat_get f' k =
     if decide (k = chain_end c l1) then EndOfChain else if decide (k ∈ l2) then Free else fat_get (fat s) k) ->
  resized (fat s) c l f' l1.
Proof.
  intros -> L' G'. rewrite app_comm_cons in Hnd, Hv. apply NoDup_app in Hnd as (Hn1 & Hdis & Hn2).
  apply Forall_app in Hv as [Hv1 Hv2]. pose proof (chain_end_in l1 c) as Hend.
  assert (forall k, k ∈ c :: l1 -> valid (fat s) k) as V1 by (by apply Forall_forall).
  assert (forall k, k ∈ l2 -> valid (fat s) k) as V2 by (by apply Forall_forall).
  split; try done.
  - eapply chain_cut; [exact Hch|done| |].
    + rewrite G', decide_True; [done|done|by apply V1].
    + intros k Hk Hne. rewrite G', decide_False, decide_False; [done|by apply Hdis|done|by apply V1].
  - intros k Hk Hn. set_solver.
  - intros k Hk Hn. assert (k ∈ l2) as Hk2 by set_solver. rewrite G' by (by apply V2).
    rewrite decide_False, decide_True; [done|done|]. intros ->. by apply (Hdis (chain_end c l1)).
  - intros k Hvk Hk1 Hk2. rewrite G' by done. rewrite decide_False, decide_False; [done|set_solver|].
    intros ->. by apply Hk2.
  - right. by apply prefix_app_r.
Qed.

(** Hanging the clusters [add] at its end. *)
Lemma resized_grow f' add :
  like (fat s) f' -> chain f' (chain_end c l) add -> NoDup add ->
  Forall (fun x => valid (fat s) x /\ fat_get (fat s) x = Free) add ->
  (forall k, valid (fat s) k -> k ∉ chain_end c l :: add -> fat_get f' k = fat_get (fat s) k) ->
  resized (fat s) c l f' (l ++ add).
Proof.
  intros L' Hadd Hna Ha Hfr. rewrite Forall_forall in Ha.
  assert (forall k, k ∈ c :: l -> k ∉ add) as Hdis.
  { intros k Hk Hin. destruct (Ha k Hin) as [_ Hf]. exact (chain_not_free _ _ _ _ Hch Hk Hf). }
  assert (forall k, k ∈ c :: l -> valid (fat s) k) as V1 by (by apply Forall_forall).
  pose proof (chain_end_in l c) as Hend. split; try done.
  - eapply chain_extend; [exact Hch|done|done|]. intros k Hk Hne. apply Hfr; [by apply V1|].
    pose proof (Hdis k Hk). set_solver.
  - rewrite app_comm_cons. apply NoDup_app. split; [done|]. split; [|done]. intros k Hk. by apply Hdis.
  - rewrite app_comm_cons. apply Forall_app. split; [done|]. apply Forall_forall. intros x Hx. by apply Ha.
  - intros k Hk Hn. apply Ha. set_solver.
  - intros k Hk Hn. set_solver.
  - intros k Hvk H1 H2. apply Hfr; [done|]. set_solver.
  - left. by apply prefix_app_r.
Qed.

Lemma wp_resize_chain P new (Q : result unit FileSystemError -> FS -> Prop) :
  1 <= new ->
  (forall r f' l', resized (fat s) c l f' l' ->
     (r = Ok tt /\ Z.of_nat (length (c :: l')) = new \/
      r = Err (FatErr NotEnoughSpace) /\ forall k, valid f' k -> fat_get f' k <> Free) -> Q r (set_fat f' s)) ->
  wp P (resize_chain c (Z.of_nat (length (c :: l))) new) s Q.
Proof.
  intros Hnew HQ. unfold resize_chain. set (cur := Z.of_nat (length (c :: l))).
  assert (cur = Z.of_nat (length l) + 1) as Hcur by (unfold cur; simpl; lia).
  destruct (Z.eqb_spec new cur) as [->|Hne].
  { apply wp_ret. replace s with (set_fat (fat s) s) by (by destruct s). apply (HQ _ _ l); [apply resized_refl|by left]. }
  apply wp_ebind. eapply wp_collect_chain; [done|exact Hch|done|lia|].
  destruct (Z.ltb_spec new cur) as [Hlt|Hge].
  - set (l1 := take (Z.to_nat (new `min` cur - 1)) l). set (l2 := drop (Z.to_nat (new `min` cur - 1)) l).
    assert (l = l1 ++ l2) as El by (unfold l1, l2; by rewrite take_drop).
    assert (Forall (valid (fat s)) (chain_end c l1 :: l2)) as Hv2.
    { apply Forall_cons. pose proof Hv as Hv'. rewrite Forall_forall in Hv'. rewrite El in Hv'. pose proof (chain_end_in l1 c).
      split; [apply Hv'; set_solver|]. apply Forall_forall. intros x Hx. apply Hv'. set_solver. }
    assert (length l2 = Z.to_nat (cur - new)) as Hl2 by (unfold l2; rewrite length_drop; lia).
    apply wp_ebind. eapply (wp_collect_chain _ _ _ _ l2); [done| |done|lia|].
    { apply chain_suffix. by rewrite <-El. }
    rewrite take_ge by lia. apply wp_bind, wp_free_all; [done|done|by apply Forall_cons in Hv2 as [_ ?]|].
    intros f1 L1 G1. apply Forall_cons in Hv2 as [Hve _].
    apply wp_bind, wp_fat_write; cbn [fat set_fat]; [apply L1|by eapply like_linkable|by eapply like_valid|done|].
    intros f2 L2 G2. apply wp_ret. apply (HQ _ _ l1).
    + eapply (resized_cut l1 l2); [done|by eapply like_trans|]. intros k Hk. rewrite G2, G1 by (done || by eapply like_valid). done.
    + left. split; [done|]. unfold l1. simpl. rewrite length_take. lia.
  - rewrite take_ge by lia. apply wp_grow; [done|done| |by apply chain_end_eoc|].
    { pose proof Hv as Hv'. rewrite Forall_forall in Hv'. apply Hv', chain_end_in. }
    intros r f' add L' Ha Hna _ HF Hfr Hres. apply (HQ _ _ (l ++ add)); [by apply resized_grow|].
    destruct Hres as [[-> E]|(-> & _ & Hno)]; [left|right; done]. split; [done|]. simpl. rewrite length_app. lia.
Qed.
End resize.

(** Another file's chain is still there, and still its own. *)
Lemma resized_other f c l f' l' c2 l2 :
  resized f c l f' l' -> chain f c2 l2 -> Forall (valid f) (c2 :: l2) ->
  (forall k, k ∈ c2 :: l2 -> k ∉ c :: l) ->
  chain f' c2 l2 /\ forall k, k ∈ c2 :: l2 -> k ∉ c :: l'.
Proof.
  intros R Hch2 Hv2 Hdis. rewrite Forall_forall in Hv2.
  assert (forall k, k ∈ c2 :: l2 -> k ∉ c :: l') as Hdis'.
  { intros k Hk Hin. apply elem_of_cons in Hin as [->|Hin]; [by apply (Hdis c Hk); set_solver|].
    apply (chain_not_free _ _ _ _ Hch2 Hk). apply (rs_new _ _ _ _ _ R); [done|]. specialize (Hdis k Hk). set_solver. }
  split; [|done]. eapply fat_chain_frame; [exact Hch2|]. intros k Hk. apply (rs_frame _ _ _ _ _ R); auto.
Qed.
End chains.
