(* ===== verification/FatSpec.v ===== *)
(** * The FAT file system: theorems

    The table as an array, resizing files, and the table on disk. *)
From S2P Require Import Prelude MemLayout FsTypes FatTable BlockDev FatFs FatChain.
Import FatTable FatFs.

(** ** The table *)

(** Writing an entry changes what is read at its cluster and at no other,
    for every width; the 12-bit entries that share a byte included. *)
Theorem fat_entry_write_read f n e :
  wf f -> 0 <= n < entries f -> to_u32 e (fat_type f) <> None ->
  exists f', write_fat_entry f n e = Ret f' /\ wf f' /\ entries f' = entries f /\
    forall k, 0 <= k < entries f ->
      read_fat_entry f' k = if decide (k = n) then Ret e else read_fat_entry f k.
Proof.
  intros Hf Hn He. destruct (to_u32 e (fat_type f)) as [v|] eqn:Ev; [|done].
  destruct (write_fat_entry_spec f n e v Hf Hn Ev) as (f' & E & W). pose proof (written_like _ _ _ _ W) as L.
  exists f'. split; [done|]. split; [apply L|]. split; [apply L|]. intros k Hk.
  rewrite (read_fat_entry_ret f') by (apply L || by rewrite (lk_entries _ _ L)).
  rewrite (wr_get _ _ _ _ W k Hk), (read_fat_entry_ret f k Hf Hk). by case_decide.
Qed.

(** [find_free_cluster] returns the first free cluster, and [None] only
    when no cluster is free. *)
Theorem fat_find_free_first f :
  wf f -> 2 <= entries f ->
  exists r, find_free_cluster f = Ret r /\
    match r with
    | Some c => 2 <= c < entries f /\ read_fat_entry f c = Ret Free /\
                forall k, 2 <= k < c -> read_fat_entry f k <> Ret Free
    | None => forall k, 2 <= k < entries f -> read_fat_entry f k <> Ret Free
    end.
Proof.
  intros Hf He. destruct (find_free_cluster_spec f Hf He) as (r & E & Hr). exists r. split; [done|].
  destruct r as [c|].
  - destruct Hr as (Hc & Hg & Hk). rewrite read_fat_entry_ret by (done || lia). split; [done|]. split; [by rewrite Hg|].
    intros k Hk'. rewrite read_fat_entry_ret by (done || lia). intros [= E']. by apply (Hk k).
  - intros k Hk. rewrite read_fat_entry_ret by (done || lia). intros [= E']. by apply (Hr k).
Qed.

(** ** Resizing a file *)
Definition clusters_for (bpc size : Z) : Z := ((size + bpc - 1) / bpc) `max` 1.

Lemma size_in_clusters_ret bpc size :
  0 < bpc -> 0 <= size -> size + bpc < 2 ^ 64 -> size_in_clusters bpc size = Ret (clusters_for bpc size).
Proof.
  intros Hb Hs Hlt. unfold size_in_clusters. rewrite cadd_ret by done. cbn [mbind outcome_bind].
  rewrite csub_ret by lia. cbn [mbind outcome_bind]. by rewrite cdiv_ret by lia.
Qed.

Section files.
Context {H : Type} `{AtaDrive H}.
Notation FS := (FatFilesystem H).

Lemma wp_on_fs P {A} (m : ST FS A) s h (Q : A -> FS * Handle -> Prop) :
  wp P m s (fun a s' => Q a (s', h)) -> wp P (on_fs m) (s, h) Q.
Proof. unfold wp, on_fs. simpl. by destruct (m s) as [[a s']| |]. Qed.

(** An open file whose clusters are [c :: l]: as many as its size needs. *)
Record file_ok (s : FS) (h : Handle) (bpc c : Z) (l : list Z) : Prop := {
  fo_wf : wf (fat s);
  fo_linkable : linkable (fat s);
  fo_start : wrap 32 (start_cluster (fn_base (inode h))) = c;
  fo_chain : chain (fat s) c l;
  fo_nodup : NoDup (c :: l);
  fo_valid : Forall (valid (fat s)) (c :: l);
  fo_size : 0 <= fn_size (inode h) /\ fn_size (inode h) + bpc < 2 ^ 64;
  fo_len : Z.of_nat (length (c :: l)) = clusters_for bpc (fn_size (inode h));
  fo_bpc : bytes_per_cluster (boot s) = Ret bpc /\ 0 < bpc
}.

End files.

(** ** The table on disk *)
Lemma block_ext sz b b' i :
  0 < sz -> 0 <= i -> len b = len b' -> (i + 1) * sz <= len b ->
  (forall j, i * sz <= j < (i + 1) * sz -> byte b j = byte b' j) -> block sz b i = block sz b' i.
Proof.
  intros Hs Hi Hl Hb Hj. unfold block, len in *. apply list_eq. intros k.
  destruct (decide (k < Z.to_nat sz)%nat) as [Hk|Hk].
  - rewrite !lookup_take_lt, !lookup_drop by done. specialize (Hj (i * sz + Z.of_nat k) ltac:(nia)).
    unfold byte in Hj. replace (Z.to_nat (i * sz + Z.of_nat k)) with (Z.to_nat (i * sz) + k)%nat in Hj by nia.
    destruct (lookup_lt_is_Some_2 b (Z.to_nat (i * sz) + k)) as [x Hx]; [nia|].
    destruct (lookup_lt_is_Some_2 b' (Z.to_nat (i * sz) + k)) as [y Hy]; [nia|].
    rewrite Hx, Hy in *. simpl in Hj. by rewrite Hj.
  - rewrite !lookup_take_ge by lia. done.
Qed.

Section disk.
Context {H : Type} `{DriveLaws H sz cap} (Hsz : 0 < sz).
Notation FS := (FatFilesystem H).

(** Sector [i] of the table, on the disk. *)
Definition on_disk (s : FS) (i : Z) : bytes :=
  view (Ide.drive (device s)) (start_lba s + fat_start_sector (boot s) + i).
Definition table_sectors (s : FS) : Z := len (buffer (fat s)) / sz.

(** The table fits on the device, and every sector that is not marked is
    on the disk already. *)
Record synced (s : FS) : Prop := {
  sy_wf : wf (fat s);
  sy_sector : sector_size (fat s) = sz /\ bps s = sz;
  sy_ready : ready (sz := sz) (cap := cap) (device s);
  sy_lba : 0 <= start_lba s /\ 0 <= fat_start_sector (boot s);
  sy_fits : start_lba s + fat_start_sector (boot s) + table_sectors s < Ide.number_of_sectors (device s);
  sy_u32 : start_lba s + fat_start_sector (boot s) + table_sectors s < 2 ^ 32;
  sy_flag : forall i, 0 <= i -> sector_dirty (fat s) i = true -> dirty (fat s) = true;
  sy_clean : forall i, 0 <= i < table_sectors s -> sector_dirty (fat s) i = false ->
    on_disk s i = block sz (buffer (fat s)) i
}.

Lemma table_sectors_len s : synced s -> len (buffer (fat s)) = table_sectors s * sz.
Proof.
  intros [W [E _] _ _ _ _ _ _]. pose proof (wf_whole _ W) as Hm. rewrite E in Hm. unfold table_sectors.
  pose proof (Z.div_mod (len (buffer (fat s))) sz ltac:(lia)). lia.
Qed.

Lemma wp_write_sectors P s start d n (Q : result unit FileSystemError -> FS -> Prop) :
  ready (sz := sz) (cap := cap) (device s) -> bps s = sz ->
  0 <= start_lba s -> 0 <= start -> 0 < n -> start_lba s + start + n < Ide.number_of_sectors (device s) ->
  start_lba s + start < 2 ^ 32 -> len d = n * sz ->
  (forall dev, replaced (device s) (start_lba s + start) n d dev -> Q (Ok tt) (set_device dev s)) ->
  wp P (write_sectors start d) s Q.
Proof.
  intros Hr Hb H0' H1' Hn Hfit Hu Hl HQ. unfold write_sectors. rewrite (proj2 (Z.eqb_neq (len d) 0)) by nia.
  apply wp_bind, wp_get. apply wp_bind. eapply wp_lift_ret; [apply cmod_ret; lia|].
  apply wp_bind, wp_assert; [rewrite Hl, Hb, Z.mod_mul by lia; done|].
  apply wp_bind, wp_cadd; [done|]. apply wp_bind.
  destruct (wp_total (Ide.write_sync (start_lba s + start) d) (device s)
    (fun r dev => r = Ok tt /\ replaced (device s) (start_lba s + start) n d dev)) as (r & dev & E & -> & R).
  { apply (wp_write_sync Hsz _ _ _ _ n); [done|lia|lia|lia|done|]. done. }
  unfold wp at 1, on_device. rewrite E. apply wp_ret. simpl. by apply HQ.
Qed.

(** Writing out a list of sectors of the table. *)
Definition flushed (s : FS) (l : list Z) (dev : Ide.IdeDevice H) : Prop :=
  ready (sz := sz) (cap := cap) dev /\ Ide.number_of_sectors dev = Ide.number_of_sectors (device s) /\
  forall x, view (Ide.drive dev) x =
    if decide (x - (start_lba s + fat_start_sector (boot s)) ∈ l)
    then block sz (buffer (fat s)) (x - (start_lba s + fat_start_sector (boot s)))
    else view (Ide.drive (device s)) x.

Lemma wp_write_dirty P l : forall s (Q : result unit FileSystemError -> FS -> Prop),
  synced s -> (forall i, i ∈ l -> 0 <= i < table_sectors s) ->
  (forall dev, flushed s l dev -> Q (Ok tt) (set_device dev s)) -> wp P (write_dirty l) s Q.
Proof.
  intros s Q Hs Hl. pose proof (table_sectors_len s Hs) as Hlen. pose proof Hs as [W [E1 E2] R [A1 A2] Fi U _ _].
  pose proof (wf_len _ W) as Hlt. clear Hs.
  remember (device s) as dev0 eqn:Ed. revert Q.
  assert (forall dev, ready (sz := sz) (cap := cap) dev -> Ide.number_of_sectors dev = Ide.number_of_sectors dev0 ->
    forall Q : result unit FileSystemError -> FS -> Prop,
    (forall dev', flushed (set_device dev s) l dev' -> Q (Ok tt) (set_device dev' s)) ->
    wp P (write_dirty l) (set_device dev s) Q) as Hgen.
  2: { intros Q HQ. specialize (Hgen dev0 R eq_refl Q). replace (set_device dev0 s) with s in Hgen by (subst; by destruct s).
       apply Hgen. intros dev' (F1 & F2 & F3). apply HQ. by subst. }
  clear R. induction l as [|i l IH]; intros dev R En Q HQ; cbn [write_dirty].
  { apply wp_ret, HQ. split; [done|]. split; [done|]. intros x. rewrite decide_False by set_solver. done. }
  assert (0 <= i < table_sectors s) as Hi by (apply Hl; set_solver).
  apply wp_bind, wp_get. cbn [set_device fat boot].
  apply wp_bind. eapply wp_lift_ret.
  { unfold sector_data. rewrite E1, cmul_ret by nia. cbn [mbind outcome_bind]. rewrite cadd_ret by nia.
    cbn [mbind outcome_bind]. rewrite assert_ret by nia. cbn [mbind outcome_bind]. done. }
  apply wp_bind, wp_cadd; [lia|].
  apply wp_ebind, (wp_write_sectors _ _ _ _ 1); cbn [set_device device start_lba]; [done|done|done|lia|done|lia|lia| |].
  { unfold len. rewrite length_take, length_drop. unfold len in Hlen. nia. }
  intros dev1 (R1 & N1 & V1). cbn [set_device device] in N1. change (set_device dev1 (set_device dev s)) with (set_device dev1 s).
  apply IH; [intros j Hj; apply Hl; set_solver|done|congruence|].
  intros dev2 (R2 & N2 & V2). cbn [set_device device] in N2. apply HQ. split; [done|].
  split; [cbn [set_device device]; congruence|]. intros x. rewrite V2.
  cbn [set_device start_lba boot fat device] in *. rewrite V1.
  set (y := x - (start_lba s + fat_start_sector (boot s))) in *.
  destruct (decide (y ∈ l)) as [Hyl|Hyl]; [rewrite decide_True by (apply elem_of_cons; by right); done|].
  destruct (decide (y = i)) as [Ey|Ey].
  - rewrite decide_True by lia. rewrite decide_True by (apply elem_of_cons; by left). replace (x - (start_lba s + (fat_start_sector (boot s) + i))) with 0 by lia.
    subst i. unfold block at 1. rewrite Z.mul_0_l, drop_0. unfold block. rewrite take_take. f_equal. lia.
  - rewrite decide_False by lia. rewrite decide_False by (rewrite elem_of_cons; tauto). done.
Qed.

(** [flush_fat] on a synced state: afterwards the whole table is on the
    disk, nothing else on the disk changed, and nothing is marked. *)
Lemma wp_flush_fat P s (Q : result unit FileSystemError -> FS -> Prop) :
  synced s ->
  (forall s', synced s' -> buffer (fat s') = buffer (fat s) -> fat_type (fat s') = fat_type (fat s) -> dirty (fat s') = false ->
     (forall i, 0 <= i < table_sectors s -> on_disk s' i = block sz (buffer (fat s)) i) ->
     (forall x, x < start_lba s + fat_start_sector (boot s) \/
                start_lba s + fat_start_sector (boot s) + table_sectors s <= x ->
        view (Ide.drive (device s')) x = view (Ide.drive (device s)) x) ->
     start_lba s' = start_lba s -> boot s' = boot s -> cluster_cache s' = cluster_cache s ->
     Ide.number_of_sectors (device s') = Ide.number_of_sectors (device s) -> Q (Ok tt) s') -> wp P flush_fat s Q.
Proof.
  intros Hs HQ. pose proof (table_sectors_len s Hs) as Hlen. pose proof Hs as [W [E1 E2] R [A1 A2] Fi U Fl Cl].
  destruct (bitmap_sectors_marked (fat s) W) as (l & El & Hl).
  assert (forall i, i ∈ l -> 0 <= i < table_sectors s) as Hin.
  { intros i Hi. apply Hl in Hi as [Hi Hd]. split; [done|]. pose proof (wf_marks _ W i Hi Hd) as Hm. rewrite E1 in Hm. nia. }
  unfold flush_fat. apply wp_bind, wp_get. apply wp_bind. unfold dirty_sectors.
  destruct (dirty (fat s)) eqn:Edirty.
  - rewrite El. cbn [mbind outcome_bind]. eapply wp_lift_ret; [done|].
    apply wp_ebind, wp_write_dirty; [done|done|]. intros dev (R' & N' & V'). apply wp_bind, wp_modify, wp_ret.
    assert (forall i, 0 <= i < table_sectors s -> view (Ide.drive dev) (start_lba s + fat_start_sector (boot s) + i) =
              block sz (buffer (fat s)) i) as Hall.
    { intros i Hi. rewrite V'. replace (_ + i - _) with i by lia. case_decide as Hd; [done|]. apply Cl; [done|].
      destruct (sector_dirty (fat s) i) eqn:Ed; [|done]. exfalso. apply Hd, Hl. split; [lia|done]. }
    assert (forall i, bitmap_bit ((fun _ => 0) <$> dirty_bitmap (fat s)) i = false) as Hz.
    { intros i. unfold bitmap_bit. rewrite list_lookup_fmap. destruct (_ !! _); simpl; apply Z.testbit_0_l. }
    unfold clear_dirty. cbn [set_device fat]. rewrite Edirty. apply HQ; try done.
    + split; unfold table_sectors, on_disk, bps in *; cbn [set_fat set_device fat device start_lba boot buffer sector_size dirty] in *; try done.
      * destruct W as [W1 W2 W3 W4 W5 W6 W7 W8]. split; cbn [buffer sector_size dirty_bitmap fat_type] in *; rewrite ?length_fmap; try done.
        -- apply Forall_fmap, Forall_true. intros x. unfold compose, in_word. lia.
        -- intros i _ Hd. unfold sector_dirty in Hd. cbn [dirty_bitmap] in Hd. by rewrite Hz in Hd.
      * lia.
      * intros i _ Hd. unfold sector_dirty in Hd. cbn [dirty_bitmap] in Hd. by rewrite Hz in Hd.
      * intros i Hi _. by apply Hall.
    + intros x Hx. cbn [set_fat set_device device]. rewrite V'. rewrite decide_False; [done|]. intros Hd. apply Hin in Hd. lia.
  - eapply wp_lift_ret; [done|]. apply wp_ebind, wp_ret. apply wp_bind, wp_modify, wp_ret.
    unfold clear_dirty. rewrite Edirty. replace (set_fat (fat s) s) with s by (by destruct s).
    apply HQ; try done. intros i Hi. apply Cl; [done|].
    destruct (sector_dirty (fat s) i) eqn:Ed; [|done]. pose proof (Fl i ltac:(lia) Ed). congruence.
Qed.

(** A table write keeps the state synced. *)
Lemma written_synced s n e f' : synced s -> written (fat s) n e f' -> synced (set_fat f' s).
Proof.
  intros Hs Wr. pose proof (table_sectors_len s Hs) as Hlen. destruct Hs as [W [E1 E2] R [A1 A2] Fi U Fl Cl].
  destruct Wr as [W' T' S' L' B' G' D' K' C'].
  split; unfold table_sectors, on_disk, bps in *; cbn [set_fat fat device start_lba boot] in *; rewrite ?L'; try done.
  - by rewrite S'.
  - intros i Hi Hd. rewrite Cl; [|done|].
    + symmetry. apply block_ext; [done|lia|done|rewrite L'; nia|]. intros j Hj.
      destruct (decide (byte (buffer f') j = byte (buffer (fat s)) j)) as [|Hne]; [done|].
      exfalso. rewrite E1 in C'. specialize (C' j ltac:(nia) Hne).
      assert (j / sz = i) as Ej by (symmetry; apply (Z.div_unique _ _ _ (j - i * sz)); lia). congruence.
    + destruct (sector_dirty (fat s) i) eqn:Ed; [|done]. rewrite K' in Hd; [done|lia|done].
Qed.

(** A run of table updates, as the file operations make them. *)
Definition updates (ops : list (Z * FatEntry)) : ST FS unit :=
  foldr (fun op m => _ ← fat_write op.1 op.2; m) (mret tt) ops.

Definition after_updates (ops : list (Z * FatEntry)) (n : Z) (e : FatEntry) : FatEntry :=
  foldl (fun e op => if decide (op.1 = n) then op.2 else e) e ops.

Lemma wp_updates P ops : forall s (Q : unit -> FS -> Prop),
  synced s -> linkable (fat s) -> Forall (fun op => valid (fat s) op.1 /\ storable (fat s) op.2) ops ->
  (forall f', synced (set_fat f' s) -> like (fat s) f' -> len (buffer f') = len (buffer (fat s)) ->
     (forall n, valid (fat s) n -> fat_get f' n = after_updates ops n (fat_get (fat s) n)) ->
     Q tt (set_fat f' s)) -> wp P (updates ops) s Q.
Proof.
  induction ops as [|[c e] ops IH]; intros s Q Hs HL Hops HQ; unfold updates; cbn [foldr].
  { apply wp_ret. replace s with (set_fat (fat s) s) by (by destruct s). apply HQ; try done.
    - by destruct s.
    - apply like_refl, Hs. }
  apply Forall_cons in Hops as [[Hc He] Hops]. cbn [fst snd] in *. apply wp_bind.
  unfold fat_write. apply wp_bind, wp_get. apply wp_bind.
  destruct (storable_u32 _ _ HL He) as [v Hv].
  destruct (write_fat_entry_spec (fat s) c e v) as (f1 & E & W); [apply Hs|unfold valid in *; lia|done|].
  eapply wp_lift_ret; [exact E|]. apply wp_modify. pose proof (written_like _ _ _ _ W) as L1.
  apply (IH (set_fat f1 s)); cbn [set_fat fat].
  - by eapply written_synced.
  - by eapply like_linkable.
  - eapply Forall_impl; [exact Hops|]. intros [c' e'] [Hc' He']. split; [by eapply like_valid|].
    destruct e'; try done. by eapply like_valid.
  - intros f2 Hs2 L2 Hl2 G2. change (set_fat f2 (set_fat f1 s)) with (set_fat f2 s) in *. apply HQ; [done|by eapply like_trans| |].
    + by rewrite Hl2, (wr_len _ _ _ _ W).
    + intros n Hn. rewrite G2 by (by eapply like_valid). unfold after_updates. cbn [foldl fst snd].
      rewrite (wr_get _ _ _ _ W) by (unfold valid in *; lia). f_equal.
      destruct (decide (n = c)), (decide (c = n)); congruence.
Qed.

(** After any sequence of table updates a flush succeeds and leaves on the
    disk exactly the table that is in memory: every update is there, none
    is lost, and no sector outside the table was written. *)
Theorem flush_fat_writes_table s ops :
  synced s -> linkable (fat s) ->
  Forall (fun op => valid (fat s) op.1 /\ storable (fat s) op.2) ops ->
  exists s', (_ ← updates ops; flush_fat) s = Ret (Ok tt, s') /\
    (forall i, 0 <= i < table_sectors s -> on_disk s' i = block sz (buffer (fat s')) i) /\
    (forall n, valid (fat s) n -> read_fat_entry (fat s') n = Ret (after_updates ops n (fat_get (fat s) n))) /\
    (forall x, x < start_lba s + fat_start_sector (boot s) \/
               start_lba s + fat_start_sector (boot s) + table_sectors s <= x ->
       view (Ide.drive (device s')) x = view (Ide.drive (device s)) x).
Proof.
  intros Hs HL Hops.
  destruct (wp_total (_ ← updates ops; flush_fat) s (fun r s' => r = Ok tt /\
    (forall i, 0 <= i < table_sectors s -> on_disk s' i = block sz (buffer (fat s')) i) /\
    (forall n, valid (fat s) n -> read_fat_entry (fat s') n = Ret (after_updates ops n (fat_get (fat s) n))) /\
    (forall x, x < start_lba s + fat_start_sector (boot s) \/
               start_lba s + fat_start_sector (boot s) + table_sectors s <= x ->
       view (Ide.drive (device s')) x = view (Ide.drive (device s)) x))) as (r & s' & E & -> & HR); [|by exists s'].
  apply wp_bind, wp_updates; [done|done|done|]. intros f1 S1 L1 Hl1 G1.
  apply wp_flush_fat; [done|]. intros s2 S2 B2 T2 D2 O2 X2 A2 K2 _ _. split; [done|].
  unfold table_sectors in *. cbn [set_fat fat start_lba boot device] in *. rewrite Hl1 in *. split; [|split; [|done]].
  - intros i Hi. rewrite B2. by apply O2.
  - intros n Hn. rewrite read_fat_entry_ret; [|apply S2|].
    + rewrite <-G1 by done. unfold fat_get. by rewrite B2, T2.
    + unfold entries. rewrite B2, T2. apply (like_valid _ _ _ L1) in Hn. unfold valid, entries in Hn. lia.
Qed.
End disk.

(** ** Volume geometry *)

(** Clusters are laid out after the reserved sectors, the tables and the
    root directory, and two clusters share no sector. *)
Theorem cluster_sectors_disjoint b c1 c2 s1 s2 :
  first_sector_of_cluster b c1 = Ret s1 -> first_sector_of_cluster b c2 = Ret s2 -> c1 < c2 ->
  0 <= sectors_per_cluster (boot_sector b) -> 0 < bytes_per_sector (boot_sector b) ->
  0 <= root_entry_count (boot_sector b) ->
  fat_start_sector b + number_of_fats b * fat_size_in_sectors b <= s1 /\
  root_entry_count (boot_sector b) * 32 <=
    (s1 - (fat_start_sector b + number_of_fats b * fat_size_in_sectors b)) * bytes_per_sector (boot_sector b) /\
  s1 + sectors_per_cluster (boot_sector b) <= s2.
Proof.
  unfold first_sector_of_cluster, data_start_sector, root_dir_start_sector, root_dir_sectors.
  intros H1 H2 Hc Hspc Hbps Hroot. out_inv.
  set (B := bytes_per_sector (boot_sector b)) in *. set (R := root_entry_count (boot_sector b)) in *.
  pose proof (Z.div_mod (R * 32 + (B - 1)) B ltac:(lia)). pose proof (Z.mod_pos_bound (R * 32 + (B - 1)) B ltac:(lia)).
  set (D := (R * 32 + (B - 1)) / B) in *. assert (0 <= D) by (apply Z.div_pos; lia).
  set (p := sectors_per_cluster (boot_sector b)) in *.
  assert (0 <= (c1 - 2) * p) by nia. assert ((c1 - 2) * p + p <= (c2 - 2) * p) by nia.
  split; [lia|]. split; [nia|lia].
Qed.

(** ** Directory entries *)
Record normal_ok (e : DirectoryEntryNormal) : Prop := {
  no_name : length (short_name e) = 11%nat;
  no_u8 : Forall (in_word 8) [attributes e; nt_reserved e; creation_time_tenths_of_seconds e];
  no_u16 : Forall (in_word 16) [creation_time e; creation_date e; last_access_date e; first_cluster_hi e;
             last_modification_time e; last_modification_date e; first_cluster_lo e];
  no_u32 : in_word 32 (file_size e)
}.

Lemma u16_le v : 0 <= v < 2 ^ 16 -> v mod 256 + 256 * (v / 256 mod 256) = v.
Proof. intros. dlia. Qed.
Lemma u32_le v : 0 <= v < 2 ^ 32 ->
  v mod 65536 mod 256 + 256 * (v mod 65536 / 256 mod 256) +
  65536 * (v / 65536 mod 256 + 256 * (v / 65536 / 256 mod 256)) = v.
Proof. intros. dlia. Qed.

(** [encode_normal] and [decode_normal] are inverse *)
Lemma normal_codec e : normal_ok e -> length (encode_normal e) = 32%nat /\ decode_normal (encode_normal e) = e.
Proof.
  intros Hok. split; [unfold encode_normal, le32, le16; rewrite !length_app, (no_name _ Hok); done|].
  destruct Hok as [Hn H8 H16 H32]. destruct e as [nm a nt ct t d la hi mt md lo sz]. cbn [short_name] in *.
  do 11 (destruct nm as [|? nm]; [done|]). destruct nm; [|done]. simpl in *.
  repeat match goal with Hf : Forall _ (_ :: _) |- _ => apply Forall_cons in Hf as [? Hf] end. unfold in_word in *.
  unfold decode_normal, encode_normal, u32_at, u16_at, u8_at, le32, le16. cbn -[Z.div Z.modulo Z.mul Z.add].
  rewrite !u16_le, u32_le by done. done.
Qed.

(** A directory entry survives the trip to its 32 bytes and back, and the
    cluster number is reassembled from its two halves. *)
Theorem directory_entry_roundtrip e cluster :
  normal_ok e -> in_word 32 cluster ->
  first_cluster_hi e = wrap 16 (Z.shiftr cluster 16) -> first_cluster_lo e = Z.land cluster 0xFFFF ->
  length (encode_normal e) = 32%nat /\ decode_normal (encode_normal e) = e /\
  first_cluster (decode_normal (encode_normal e)) = cluster.
Proof.
  intros Hok Hcl Hhi Hlo. destruct (normal_codec e Hok) as [Hl E]. split; [done|]. split; [done|].
  rewrite E. unfold first_cluster, wrap in *. rewrite Hhi, Hlo. change 0xFFFF with (2 ^ 16 - 1).
  rewrite land_mask, Z.lor_comm, Z.shiftr_div_pow2 by done. unfold in_word in Hcl.
  rewrite lor_fields by dlia. dlia.
Qed.

(** Attributes are translated without loss in both directions. *)
Theorem file_attributes_roundtrip a :
  0 <= a < 64 ->
  file_attribute_from_fat (file_attribute_to_fat a) = a /\ file_attribute_to_fat (file_attribute_from_fat a) = a.
Proof.
  intros Ha. assert (a ∈ seqZ 0 64) as Hin by (apply elem_of_seqZ; lia). revert a Ha Hin.
  assert (Forall (fun a => file_attribute_from_fat (file_attribute_to_fat a) = a /\
                           file_attribute_to_fat (file_attribute_from_fat a) = a) (seqZ 0 64)) as HF.
  { apply (bool_decide_unpack _). vm_compute. done. }
  rewrite Forall_forall in HF. auto.
Qed.

(** ** Witnesses: a small FAT12 volume

    One table sector; the file at cluster 2 continues at cluster 5. *)
Module FatDemo.
Definition table : bytes := resize 512 0 [0xF8; 0xFF; 0xFF; 0x05; 0; 0; 0; 0x80; 0xFF].
Definition demo_fat : Fat := mkFat table 512 Fat12 false [0].
Definition demo_boot : FatBootSector := mkBoot Fat12 (mkRaw 512 1 1 1 16 400 1 0 0 0 0xAA55).
Definition demo_drive : MemDrive.t := MemDrive.mk (fun s => if s =? 64 then table else []).
Definition demo_fs : FatFilesystem MemDrive.t :=
  mkFs 63 demo_boot demo_fat (Ide.mkIde Ide.Ata 1000 512 demo_drive) ∅.
Definition demo_handle (size : Z) : Handle :=
  mkHandle (mkFileNode (mkBaseNode [97] 32 2 70 0) size None) access_default.

Lemma wf_bytes_all b : Forall (in_word 8) b -> wf_bytes b.
Proof.
  intros HF i Hi. unfold byte, len in *. rewrite Forall_lookup in HF.
  destruct (b !! Z.to_nat i) as [x|] eqn:E; [apply (HF _ _ E)|simpl; lia].
Qed.

Lemma demo_unmarked i : sector_dirty demo_fat i = false.
Proof.
  unfold sector_dirty, bitmap_bit. cbn [demo_fat dirty_bitmap].
  destruct (Z.to_nat (i / 64)) as [|n]; simpl; rewrite ?lookup_nil; simpl; by rewrite Z.testbit_0_l.
Qed.

Lemma demo_wf : wf demo_fat.
Proof.
  split.
  - apply wf_bytes_all. cbn [demo_fat buffer]. unfold table. apply Forall_resize; [|repeat constructor]; vm_compute; done.
  - vm_compute. done.
  - split; vm_compute; done.
  - vm_compute. done.
  - vm_compute. done.
  - vm_compute. done.
  - cbn [demo_fat dirty_bitmap]. repeat constructor; vm_compute; done.
  - intros s _ Hd. rewrite demo_unmarked in Hd. done.
Qed.

Lemma demo_file : file_ok demo_fs (demo_handle 700) 512 2 [5].
Proof.
  split.
  - exact demo_wf.
  - vm_compute. done.
  - vm_compute. done.
  - split; vm_compute; done.
  - apply NoDup_cons_2; [set_solver|apply NoDup_singleton].
  - repeat constructor; vm_compute; done.
  - split; vm_compute; done.
  - vm_compute. done.
  - split; vm_compute; done.
Qed.

Lemma demo_synced : synced (sz := 512) (cap := 1000) demo_fs.
Proof.
  split.
  - exact demo_wf.
  - split; vm_compute; done.
  - split; [done|done|split; vm_compute; done].
  - split; vm_compute; done.
  - vm_compute. done.
  - vm_compute. done.
  - intros i _ Hd. cbn [demo_fs fat] in Hd. rewrite demo_unmarked in Hd. done.
  - intros i Hi _. change (table_sectors (sz := 512) demo_fs) with 1 in Hi. assert (i = 0) as -> by lia. vm_compute. done.
Qed.

Lemma fat_entry_write_read_witness :
  exists f', write_fat_entry demo_fat 4 (Next 7) = Ret f' /\ wf f' /\ entries f' = entries demo_fat /\
    forall k, 0 <= k < entries demo_fat ->
      read_fat_entry f' k = if decide (k = 4) then Ret (Next 7) else read_fat_entry demo_fat k.
Proof. apply fat_entry_write_read; [exact demo_wf|vm_compute; done|vm_compute; done]. Defined.

Lemma fat_find_free_first_witness :
  exists r, find_free_cluster demo_fat = Ret r /\
    match r with
    | Some c => 2 <= c < entries demo_fat /\ read_fat_entry demo_fat c = Ret Free /\
                forall k, 2 <= k < c -> read_fat_entry demo_fat k <> Ret Free
    | None => forall k, 2 <= k < entries demo_fat -> read_fat_entry demo_fat k <> Ret Free
    end.
Proof. apply fat_find_free_first; [exact demo_wf|vm_compute; done]. Defined.


Lemma flush_fat_writes_table_witness :
  exists s', (_ ← updates [(5, Next 6); (6, EndOfChain)]; flush_fat) demo_fs = Ret (Ok tt, s') /\
    forall i, 0 <= i < table_sectors (sz := 512) demo_fs -> on_disk (sz := 512) (cap := 1000) s' i = block 512 (buffer (fat s')) i.
Proof.
  destruct (flush_fat_writes_table (sz := 512) (cap := 1000) ltac:(done) demo_fs [(5, Next 6); (6, EndOfChain)] demo_synced)
    as (s' & E & D & _); [vm_compute; done|repeat constructor; vm_compute; done|]. exists s'. split; [exact E|exact D].
Defined.

Lemma cluster_sectors_disjoint_witness :
  fat_start_sector demo_boot + number_of_fats demo_boot * fat_size_in_sectors demo_boot <= 3 /\
  root_entry_count (boot_sector demo_boot) * 32 <=
    (3 - (fat_start_sector demo_boot + number_of_fats demo_boot * fat_size_in_sectors demo_boot)) *
      bytes_per_sector (boot_sector demo_boot) /\
  3 + sectors_per_cluster (boot_sector demo_boot) <= 6.
Proof. apply (cluster_sectors_disjoint demo_boot 2 5 3 6); vm_compute; done. Defined.

Definition demo_entry : DirectoryEntryNormal :=
  mkNormal [65; 66; 67; 32; 32; 32; 32; 32; 84; 88; 84] 0x20 0 0 0 0 0 0x12 0 0 0x3456 700.
Lemma directory_entry_roundtrip_witness :
  length (encode_normal demo_entry) = 32%nat /\ decode_normal (encode_normal demo_entry) = demo_entry /\
  first_cluster (decode_normal (encode_normal demo_entry)) = 0x123456.
Proof.
  apply directory_entry_roundtrip; [|vm_compute; done|vm_compute; done|vm_compute; done].
  split; [done|repeat constructor; vm_compute; done|repeat constructor; vm_compute; done|vm_compute; done].
Defined.

Lemma file_attributes_roundtrip_witness :
  file_attribute_from_fat (file_attribute_to_fat 0x31) = 0x31 /\ file_attribute_to_fat (file_attribute_from_fat 0x31) = 0x31.
Proof. apply file_attributes_roundtrip. lia. Defined.
End FatDemo.
