(* ===== verification/Path.v ===== *)
(** * Paths

    Models [kernel/src/fs/path.rs]: the double-ended state machine that
    splits a path into components, the queries on [Path] that are built from
    it, and the mutations of [PathBuf].  A [str] is its UTF-8 bytes; slicing
    panics off a character boundary as in Rust.  The theorems are in
    [PathSpec] and [PathUse]. *)
From S2P Require Import Prelude UserLink FsTypes.

(** ** What the source uses of [str] *)
Module Str.
(** a byte that continues a multi-byte character *)
Definition is_continuation (b : Z) : bool := (128 <=? b) && (b <? 192).

(** [str::is_char_boundary] *)
Definition is_char_boundary (s : bytes) (i : nat) : bool :=
  (i =? 0)%nat || (i =? length s)%nat ||
  match s !! i with Some b => negb (is_continuation b) | None => false end.

(** [&s[i..]] and [&s[..i]] *)
Definition slice_from (s : bytes) (i : nat) : outcome bytes :=
  if is_char_boundary s i then Ret (drop i s) else Panic.
Definition slice_to (s : bytes) (i : nat) : outcome bytes :=
  if is_char_boundary s i then Ret (take i s) else Panic.

(** [str::chars], a character being its encoding *)
Fixpoint chars (s : bytes) : list (list Z) :=
  match s with
  | [] => []
  | b :: s' =>
      match chars s' with
      | (b' :: g) :: gs => if is_continuation b' then (b :: b' :: g) :: gs else [b] :: (b' :: g) :: gs
      | _ => [[b]]
      end
  end.

(** [Iterator::position] and [rposition] *)
Fixpoint position {A} (f : A -> bool) (l : list A) : option nat :=
  match l with
  | [] => None
  | x :: l => if f x then Some 0%nat else S <$> position f l
  end.
Fixpoint rposition {A} (f : A -> bool) (l : list A) : option nat :=
  match l with
  | [] => None
  | x :: l =>
      match rposition f l with
      | Some i => Some (S i)
      | None => if f x then Some 0%nat else None
      end
  end.

(** the order of [str]: lexicographic on bytes *)
Fixpoint str_cmp (a b : bytes) : comparison :=
  match a, b with
  | [], [] => Eq
  | [], _ :: _ => Lt
  | _ :: _, [] => Gt
  | x :: a, y :: b => match x ?= y with Eq => str_cmp a b | c => c end
  end.
End Str.
Import Str.

(** ** Iterators

    [Iterator::next] of a type; what a client may rely on is that an iterator
    stands for a list of items, consumed from its head. *)
Class Iterator (I Item : Type) : Type := inext : ST I (option Item).

Class IteratorSpec (I Item : Type) `{Iterator I Item} : Type := {
  it_wf : I -> Prop;
  it_items : I -> list Item;
  it_next : forall i, it_wf i ->
    exists i', inext i = Ret (head (it_items i), i') /\ it_wf i' /\ it_items i' = tail (it_items i)
}.

Module Path.

Definition SEPARATOR : Z := 47.
Definition is_separator (c : list Z) : bool := bool_decide (c = [SEPARATOR]).
Definition is_separator_byte (c : Z) : bool := c =? SEPARATOR.

(** [fn iter_after]; the fuel bounds the items of [prefix] *)
Fixpoint iter_after {I J Item} `{Iterator I Item} `{Iterator J Item} `{EqDecision Item}
    (fuel : nat) (iter : I) (prefix : J) : outcome (option I) :=
  match fuel with
  | O => Diverge
  | S fuel =>
      '(x, iter_next) ← inext iter;
      '(y, prefix') ← inext prefix;
      match x, y with
      | Some x, Some y => if decide (x = y) then iter_after fuel iter_next prefix' else Ret None
      | Some _, None => Ret (Some iter)
      | None, None => Ret (Some iter)
      | None, Some _ => Ret None
      end
  end.

Definition has_root_str (path : bytes) : bool :=
  match path with [] => false | b :: _ => b =? SEPARATOR end.

Inductive State : Type := Prefix | StartDir | Body | Done.
#[global] Instance State_eq_dec : EqDecision State.
Proof. solve_decision. Defined.
(** the discriminants of [State], which order it *)
Definition rank (s : State) : nat :=
  match s with Prefix => 0 | StartDir => 1 | Body => 2 | Done => 3 end.
Definition state_eqb (a b : State) : bool := (rank a =? rank b)%nat.
Definition state_le (a b : State) : bool := (rank a <=? rank b)%nat.
Definition state_lt (a b : State) : bool := (rank a <? rank b)%nat.

Inductive Component : Type :=
| RootDir
| CurDir
| ParentDir
| Normal (s : bytes).
#[global] Instance Component_eq_dec : EqDecision Component.
Proof. solve_decision. Defined.

Definition DOT : Z := 46.
(** [Component::as_str] *)
Definition as_str (self : Component) : bytes :=
  match self with
  | RootDir => [SEPARATOR]
  | CurDir => [DOT]
  | ParentDir => [DOT; DOT]
  | Normal path => path
  end.

(** the derived order of [Component]: by variant, then by name *)
Definition component_cmp (a b : Component) : comparison :=
  let tag c := match c with RootDir => 0 | CurDir => 1 | ParentDir => 2 | Normal _ => 3 end in
  match a, b with
  | Normal x, Normal y => str_cmp x y
  | _, _ => tag a ?= tag b
  end.

Record Components : Type := mkComponents {
  path : bytes;
  has_root : bool;
  front : State;
  back : State
}.
Definition set_path (p : bytes) (c : Components) : Components := mkComponents p (has_root c) (front c) (back c).
Definition set_front (s : State) (c : Components) : Components := mkComponents (path c) (has_root c) s (back c).
Definition set_back (s : State) (c : Components) : Components := mkComponents (path c) (has_root c) (front c) s.

(** [Path::components] *)
Definition components (p : bytes) : Components := mkComponents p (has_root_str p) Prefix Body.

Definition include_cur_dir (self : Components) : bool :=
  if has_root self then false
  else match chars (path self) with
       | [c] => bool_decide (c = [DOT])
       | c :: c2 :: _ => bool_decide (c = [DOT]) && is_separator c2
       | [] => false
       end.

Definition len_before_body (self : Components) : nat :=
  (if state_le (front self) StartDir && has_root self then 1 else 0) +
  (if state_le (front self) StartDir && include_cur_dir self then 1 else 0).

Definition finished (self : Components) : bool :=
  state_eqb (front self) Done || state_eqb (back self) Done || state_lt (back self) (front self).

Definition parse_single_component (comp : bytes) : option Component :=
  if bool_decide (comp = [DOT]) then None
  else if bool_decide (comp = [DOT; DOT]) then Some ParentDir
  else if bool_decide (comp = []) then None
  else Some (Normal comp).

(** [position] counts characters and the slice is taken in bytes, as in the
    source. *)
Definition parse_next_component (self : Components) : outcome (nat * option Component) :=
  _ ← assert_that (state_eqb (front self) Body);
  '(extra, comp) ← match position is_separator (chars (path self)) with
                   | None => Ret (0%nat, path self)
                   | Some i => comp ← slice_to (path self) i; Ret (1%nat, comp)
                   end;
  Ret ((length comp + extra)%nat, parse_single_component comp).

Definition parse_next_component_back (self : Components) : outcome (nat * option Component) :=
  _ ← assert_that (state_eqb (back self) Body);
  let start := len_before_body self in
  tail ← slice_from (path self) start;
  '(extra, comp) ← match rposition is_separator_byte tail with
                   | None => Ret (0%nat, tail)
                   | Some i => comp ← slice_from (path self) (start + i + 1); Ret (1%nat, comp)
                   end;
  Ret ((length comp + extra)%nat, parse_single_component comp).

(** [&self.path[size..]] and [&self.path[..self.path.len() - size]] *)
Definition drop_front (size : nat) : ST Components unit :=
  self ← get; p ← lift (slice_from (path self) size); modify (set_path p).
Definition drop_back (size : nat) : ST Components unit :=
  self ← get;
  if (size <=? length (path self))%nat
  then p ← lift (slice_to (path self) (length (path self) - size)); modify (set_path p)
  else panic.

Definition is_some {A} (o : option A) : bool := match o with Some _ => true | None => false end.

Fixpoint trim_left_loop (fuel : nat) : ST Components unit :=
  match fuel with
  | O => diverge
  | S fuel =>
      self ← get;
      match path self with
      | [] => mret tt
      | _ =>
          '(size, comp) ← lift (parse_next_component self);
          if is_some comp then mret tt
          else _ ← drop_front size; trim_left_loop fuel
      end
  end.
Definition trim_left : ST Components unit := self ← get; trim_left_loop (S (length (path self))).

Fixpoint trim_right_loop (fuel : nat) : ST Components unit :=
  match fuel with
  | O => diverge
  | S fuel =>
      self ← get;
      if (len_before_body self <? length (path self))%nat then
        '(size, comp) ← lift (parse_next_component_back self);
        if is_some comp then mret tt
        else _ ← drop_back size; trim_right_loop fuel
      else mret tt
  end.
Definition trim_right : ST Components unit := self ← get; trim_right_loop (S (length (path self))).

(** [Components::as_path]: trims a clone *)
Definition as_path (self : Components) : outcome bytes :=
  '(_, comps) ← (if state_eqb (front self) Body then trim_left else mret tt) self;
  '(_, comps) ← (if state_eqb (back comps) Body then trim_right else mret tt) comps;
  Ret (path comps).

(** [<Components as Iterator>::next] *)
Fixpoint next_loop (fuel : nat) : ST Components (option Component) :=
  match fuel with
  | O => diverge
  | S fuel =>
      self ← get;
      if finished self then mret None
      else match front self with
      | Prefix => _ ← modify (set_front StartDir); next_loop fuel
      | StartDir =>
          _ ← modify (set_front Body);
          if has_root self then
            _ ← lift (assert_that (negb (bool_decide (path self = []))));
            _ ← drop_front 1; mret (Some RootDir)
          else if include_cur_dir self then
            _ ← lift (assert_that (negb (bool_decide (path self = []))));
            _ ← drop_front 1; mret (Some CurDir)
          else next_loop fuel
      | Body =>
          if negb (bool_decide (path self = [])) then
            '(size, comp) ← lift (parse_next_component self);
            _ ← drop_front size;
            if is_some comp then mret comp else next_loop fuel
          else _ ← modify (set_front Done); next_loop fuel
      | Done => panic
      end
  end.
(** every round consumes a byte or advances [front] *)
Definition next : ST Components (option Component) := self ← get; next_loop (length (path self) + 5).

(** [<Components as DoubleEndedIterator>::next_back] *)
Fixpoint next_back_loop (fuel : nat) : ST Components (option Component) :=
  match fuel with
  | O => diverge
  | S fuel =>
      self ← get;
      if finished self then mret None
      else match back self with
      | Body =>
          if (len_before_body self <? length (path self))%nat then
            '(size, comp) ← lift (parse_next_component_back self);
            _ ← drop_back size;
            if is_some comp then mret comp else next_back_loop fuel
          else _ ← modify (set_back StartDir); next_back_loop fuel
      | StartDir =>
          _ ← modify (set_back Prefix);
          if has_root self then _ ← drop_back 1; mret (Some RootDir)
          else if include_cur_dir self then _ ← drop_back 1; mret (Some CurDir)
          else next_back_loop fuel
      | Prefix => _ ← modify (set_back Done); mret None
      | Done => panic
      end
  end.
Definition next_back : ST Components (option Component) := self ← get; next_back_loop (length (path self) + 5).

(** [Components::peek]: [next] on a clone *)
Definition peek (self : Components) : outcome (option Component) :=
  '(c, _) ← next self; Ret c.

(** [Iterator::rev] *)
Record Rev : Type := mkRev { unrev : Components }.
#[global] Instance components_iterator : Iterator Components Component := next.
#[global] Instance rev_iterator : Iterator Rev Component := fun r =>
  '(c, s) ← next_back (unrev r); Ret (c, mkRev s).

(** [Iterator::collect] into a vector, [eq] and [cmp] of two iterators *)
Fixpoint collect_loop {I Item} `{Iterator I Item} (fuel : nat) (i : I) : outcome (list Item) :=
  match fuel with
  | O => Diverge
  | S fuel =>
      '(x, i) ← inext i;
      match x with
      | None => Ret []
      | Some x => l ← collect_loop fuel i; Ret (x :: l)
      end
  end.
Definition collect (c : Components) : outcome (list Component) := collect_loop (length (path c) + 3) c.
Definition collect_rev (c : Components) : outcome (list Component) := collect_loop (length (path c) + 3) (mkRev c).

Fixpoint eq_loop (fuel : nat) (a b : Components) : outcome bool :=
  match fuel with
  | O => Diverge
  | S fuel =>
      '(x, a) ← next a;
      match x with
      | None => '(y, _) ← next b; Ret (negb (is_some y))
      | Some x =>
          '(y, b) ← next b;
          match y with
          | None => Ret false
          | Some y => if decide (x = y) then eq_loop fuel a b else Ret false
          end
      end
  end.
(** [<Path as PartialEq>::eq], to which the other implementations forward *)
Definition path_eq (p q : bytes) : outcome bool := eq_loop (length p + 3) (components p) (components q).

Fixpoint cmp_loop (fuel : nat) (a b : Components) : outcome comparison :=
  match fuel with
  | O => Diverge
  | S fuel =>
      '(x, a) ← next a;
      match x with
      | None => '(y, _) ← next b; Ret (if is_some y then Lt else Eq)
      | Some x =>
          '(y, b) ← next b;
          match y with
          | None => Ret Gt
          | Some y => match component_cmp x y with Eq => cmp_loop fuel a b | c => Ret c end
          end
      end
  end.
(** [<Path as Ord>::cmp] *)
Definition path_cmp (p q : bytes) : outcome comparison := cmp_loop (length p + 3) (components p) (components q).

(** ** [impl Path] *)
Definition is_absolute (self : bytes) : bool := has_root (components self).
Definition is_relative (self : bytes) : bool := negb (is_absolute self).
Definition has_last_separator (self : bytes) : bool :=
  match last (chars self) with Some c => is_separator c | None => false end.
Definition is_root (self : bytes) : bool := bool_decide (self = [SEPARATOR]).
Definition is_empty (self : bytes) : bool := bool_decide (self = []).

Definition parent (self : bytes) : outcome (option bytes) :=
  '(comp, comps) ← next_back (components self);
  match comp with
  | Some (Normal _) | Some CurDir | Some ParentDir => p ← as_path comps; Ret (Some p)
  | _ => Ret None
  end.

Definition file_name (self : bytes) : outcome (option bytes) :=
  '(comp, _) ← next_back (components self);
  Ret (match comp with Some (Normal p) => Some p | _ => None end).

Definition strip_prefix (self base : bytes) : outcome (option bytes) :=
  r ← iter_after (length base + 3) (components self) (components base);
  match r with Some c => p ← as_path c; Ret (Some p) | None => Ret None end.

Definition starts_with (self base : bytes) : outcome bool :=
  r ← iter_after (length base + 3) (components self) (components base);
  Ret (is_some r).

Definition ends_with (self child : bytes) : outcome bool :=
  r ← iter_after (length child + 3) (mkRev (components self)) (mkRev (components child));
  Ret (is_some r).

(** ** [impl PathBuf], the state being its string *)
Definition push (path : bytes) : ST bytes unit :=
  self ← get;
  let need_sep := match last (chars self) with Some c => negb (is_separator c) | None => false end in
  let inner :=
    if is_absolute path || has_root (components path) then []
    else if need_sep then self ++ [SEPARATOR] else self in
  put (inner ++ path).

(** [String::truncate]: no effect beyond the length, panics off a boundary *)
Definition truncate (n : nat) : ST bytes unit :=
  self ← get;
  if (n <=? length self)%nat then s ← lift (slice_to self n); put s else mret tt.

Definition pop : ST bytes bool :=
  self ← get;
  p ← lift (parent self);
  match p with
  | Some p => _ ← truncate (length p); mret true
  | None => mret false
  end.

Definition set_file_name (file_name' : bytes) : ST bytes unit :=
  self ← get;
  n ← lift (file_name self);
  _ ← when (is_some n) (popped ← pop; lift (assert_that popped));
  push file_name'.

(** [Path::join] and [with_file_name] work on a copy *)
Definition join (self path : bytes) : outcome bytes := '(_, buf) ← push path self; Ret buf.
Definition with_file_name (self name : bytes) : outcome bytes := '(_, buf) ← set_file_name name self; Ret buf.

(** [FromIterator] / [Extend] *)
Fixpoint extend (l : list bytes) : ST bytes unit :=
  match l with [] => mret tt | p :: l => _ ← push p; extend l end.
Definition from_iter (l : list bytes) : outcome bytes := '(_, buf) ← extend l []; Ret buf.

(** [Ancestors::next] *)
Definition ancestors_next : ST (option bytes) (option bytes) :=
  n ← get;
  n' ← match n with Some p => lift (parent p) | None => mret None end;
  _ ← put n';
  mret n.
Fixpoint ancestors_loop (fuel : nat) (s : option bytes) : outcome (list bytes) :=
  match fuel with
  | O => Diverge
  | S fuel =>
      '(x, s) ← ancestors_next s;
      match x with None => Ret [] | Some p => l ← ancestors_loop fuel s; Ret (p :: l) end
  end.
(** all items of [Path::ancestors] *)
Definition ancestors (self : bytes) : outcome (list bytes) := ancestors_loop (length self + 5) (Some self).

End Path.
