(* ===== verification/PathSpec.v ===== *)
(** * The path iterator against a list of components

    A path has a reference list of components, [comps]: the pieces between
    separators, with empty and [.] pieces dropped.  A state of the
    double-ended iterator of [Path] stands for the list [remaining]; [next]
    takes its head and [next_back] its last element, in any order. *)
From S2P Require Import Prelude UserLink FsTypes Path.
Import Str Path.

Definition ascii (b : Z) : Prop := 0 <= b < 128.

(** ** Strings of ASCII bytes *)
Lemma ascii_boundary s i : Forall ascii s -> (i <= length s)%nat -> is_char_boundary s i = true.
Proof.
  intros Hs Hi. unfold is_char_boundary. destruct (s !! i) as [b|] eqn:Hb.
  - assert (ascii b) as Ha by (eapply Forall_lookup_1; eauto). unfold ascii in Ha.
    unfold is_continuation. rewrite (proj2 (Z.leb_gt 128 b)) by lia. by rewrite orb_true_r.
  - apply lookup_ge_None in Hb. rewrite (proj2 (Nat.eqb_eq i (length s))) by lia. by rewrite orb_true_r.
Qed.

Lemma slice_from_ascii s i : Forall ascii s -> (i <= length s)%nat -> slice_from s i = Ret (drop i s).
Proof. intros. unfold slice_from. by rewrite ascii_boundary. Qed.
Lemma slice_to_ascii s i : Forall ascii s -> (i <= length s)%nat -> slice_to s i = Ret (take i s).
Proof. intros. unfold slice_to. by rewrite ascii_boundary. Qed.

Lemma chars_ascii s : Forall ascii s -> chars s = (fun b => [b]) <$> s.
Proof.
  induction 1 as [|b s Hb Hs IH]; [done|]. cbn [chars]. rewrite IH.
  destruct Hs as [|b' s Hb' Hs]; [done|]. cbn. unfold ascii in Hb'. unfold is_continuation.
  by rewrite (proj2 (Z.leb_gt 128 b')) by lia.
Qed.

Lemma position_map {A B} (f : B -> bool) (g : A -> B) l :
  position f (g <$> l) = position (fun x => f (g x)) l.
Proof. induction l as [|x l IH]; [done|]. cbn. by rewrite IH. Qed.

Lemma is_separator_single b : is_separator [b] = is_separator_byte b.
Proof.
  unfold is_separator, is_separator_byte. case_bool_decide as Hb.
  - injection Hb as ->. done.
  - symmetry. apply Z.eqb_neq. congruence.
Qed.

Lemma position_ext {A} (f g : A -> bool) l : (forall x, f x = g x) -> position f l = position g l.
Proof. intros H. induction l as [|x l IH]; [done|]. cbn. by rewrite H, IH. Qed.

Lemma position_chars s : Forall ascii s -> position is_separator (chars s) = position is_separator_byte s.
Proof.
  intros Hs. rewrite chars_ascii, position_map by done. apply position_ext, is_separator_single.
Qed.

(** ** Where the separators are *)
Definition sep_free (w : bytes) : Prop := SEPARATOR ∉ w.

Lemma sep_free_cons b w : sep_free (b :: w) <-> b <> SEPARATOR /\ sep_free w.
Proof. unfold sep_free. rewrite elem_of_cons. naive_solver. Qed.

Lemma sep_byte_true b : is_separator_byte b = true -> b = SEPARATOR.
Proof. apply Z.eqb_eq. Qed.
Lemma sep_byte_false b : is_separator_byte b = false -> b <> SEPARATOR.
Proof. apply Z.eqb_neq. Qed.

Lemma position_sep s :
  match position is_separator_byte s with
  | None => sep_free s
  | Some i => exists rest, s = take i s ++ SEPARATOR :: rest /\ drop (S i) s = rest /\
              sep_free (take i s) /\ (i < length s)%nat
  end.
Proof.
  induction s as [|b s IH]; [by intros ?%elem_of_nil|]. cbn. destruct (is_separator_byte b) eqn:Hb.
  - apply sep_byte_true in Hb as ->. exists s. repeat split; [by intros ?%elem_of_nil|lia].
  - apply sep_byte_false in Hb. destruct (position is_separator_byte s) as [i|]; cbn.
    + destruct IH as (rest & Hs & Hd & Hf & Hi). exists rest. rewrite sep_free_cons.
      repeat split; [by rewrite Hs at 1|done..|lia].
    + by apply sep_free_cons.
Qed.

Lemma rposition_sep s :
  match rposition is_separator_byte s with
  | None => sep_free s
  | Some i => exists w, s = take i s ++ SEPARATOR :: w /\ drop (S i) s = w /\
              sep_free w /\ (i < length s)%nat
  end.
Proof.
  induction s as [|b s IH]; [by intros ?%elem_of_nil|]. cbn.
  destruct (rposition is_separator_byte s) as [i|] eqn:Hr.
  - destruct IH as (w & Hs & Hd & Hf & Hi). exists w. cbn. repeat split; [by rewrite Hs at 1|done..|lia].
  - destruct (is_separator_byte b) eqn:Hb.
    + apply sep_byte_true in Hb as ->. exists s. cbn. rewrite drop_0. repeat split; [done|lia].
    + apply sep_byte_false in Hb. by apply sep_free_cons.
Qed.

(** ** The reference: pieces between separators *)
Fixpoint split_sep (s : bytes) : list bytes :=
  match s with
  | [] => [[]]
  | b :: s' =>
      if is_separator_byte b then [] :: split_sep s'
      else match split_sep s' with p :: ps => (b :: p) :: ps | [] => [[b]] end
  end.

Definition body (s : bytes) : list Component := omap parse_single_component (split_sep s).
Definition opt {A} (o : option A) : list A := match o with Some x => [x] | None => [] end.

(** a relative path whose first piece is [.] *)
Definition dot_start (s : bytes) : bool := bool_decide (head (split_sep s) = Some [DOT]).

(** the components of a path *)
Definition comps (p : bytes) : list Component :=
  if has_root_str p then RootDir :: body (drop 1 p)
  else if dot_start p then CurDir :: body (drop 1 p)
  else body p.

Lemma split_sep_free w : sep_free w -> split_sep w = [w].
Proof.
  induction w as [|b w IH]; [done|]. intros [Hb Hw]%sep_free_cons. cbn.
  unfold is_separator_byte. rewrite (proj2 (Z.eqb_neq _ _) Hb). by rewrite IH.
Qed.

Lemma split_sep_app a b : split_sep (a ++ SEPARATOR :: b) = split_sep a ++ split_sep b.
Proof.
  induction a as [|x a IH]; [done|]. cbn [app split_sep]. rewrite IH.
  destruct (is_separator_byte x); [done|].
  by destruct (split_sep a) as [|p ps] eqn:Ha; [destruct a as [|y a]; [|cbn in Ha; repeat case_match]|].
Qed.

Lemma body_free w : sep_free w -> body w = opt (parse_single_component w).
Proof. intros Hw. unfold body. rewrite split_sep_free by done. cbn. by case_match. Qed.

Lemma body_app a b : body (a ++ SEPARATOR :: b) = body a ++ body b.
Proof. unfold body. by rewrite split_sep_app, omap_app. Qed.

Lemma body_nil : body [] = [].
Proof. done. Qed.

Lemma body_sep s : body (SEPARATOR :: s) = body s.
Proof. exact (body_app [] s). Qed.

Lemma dot_start_true s : dot_start s = true <-> s = [DOT] \/ exists r, s = DOT :: SEPARATOR :: r.
Proof.
  unfold dot_start. rewrite bool_decide_eq_true. split.
  - destruct s as [|b [|b' s]]; cbn; [done| |].
    + destruct (is_separator_byte b); [done|]. intros [= ->]. by left.
    + destruct (is_separator_byte b) eqn:Hb; [done|]. destruct (is_separator_byte b') eqn:Hb'.
      * intros [= ->]. apply sep_byte_true in Hb' as ->. right. by exists s.
      * by destruct (split_sep s).
  - by intros [-> | [r ->]].
Qed.

Lemma include_cur_dir_ascii c :
  Forall ascii (path c) -> include_cur_dir c = negb (has_root c) && dot_start (path c).
Proof.
  intros Hs. unfold include_cur_dir. destruct (has_root c); [done|]. cbn [negb andb].
  rewrite chars_ascii by done. apply eq_bool_prop_intro. rewrite !Is_true_true, dot_start_true.
  destruct (path c) as [|b [|b' s]]; cbn.
  - naive_solver.
  - rewrite bool_decide_eq_true. naive_solver.
  - rewrite andb_true_iff, bool_decide_eq_true, is_separator_single. unfold is_separator_byte.
    rewrite Z.eqb_eq. naive_solver.
Qed.

(** ** What a state of the iterator stands for *)
Definition start_part (c : Components) : list Component :=
  if state_le (front c) StartDir then
    if has_root c then [RootDir] else if dot_start (path c) then [CurDir] else []
  else [].

Definition remaining (c : Components) : list Component :=
  if finished c then []
  else match back c with
       | Body => start_part c ++ body (drop (length (start_part c)) (path c))
       | StartDir => start_part c
       | Prefix | Done => []
       end.

(** the start of the path can still be taken from the back *)
Definition back_live (b : State) : bool := match b with StartDir | Body => true | _ => false end.

Record wf (c : Components) : Prop := {
  wf_ascii : Forall ascii (path c);
  wf_root : state_le (front c) StartDir = true -> back_live (back c) = true ->
            has_root c = true -> head (path c) = Some SEPARATOR;
  wf_back : back c = StartDir -> state_le (front c) StartDir = true ->
            length (path c) = length (start_part c)
}.

Lemma wf_components p : Forall ascii p -> wf (components p).
Proof.
  intros Hp. constructor; [done| |done]. intros _ _. cbn. destruct p as [|b p]; [done|]. cbn.
  by intros ->%Z.eqb_eq.
Qed.

Lemma remaining_components p : remaining (components p) = comps p.
Proof. unfold remaining, comps, start_part. cbn. by repeat case_match. Qed.

Lemma len_before_body_start c : Forall ascii (path c) -> len_before_body c = length (start_part c).
Proof.
  intros Hs. unfold len_before_body, start_part. rewrite include_cur_dir_ascii by done.
  destruct (state_le (front c) StartDir), (has_root c), (dot_start (path c)); done.
Qed.

Lemma start_part_length c : wf c -> back_live (back c) = true ->
  (length (start_part c) <= length (path c))%nat.
Proof.
  intros [_ Hr _] Hb. unfold start_part. destruct (state_le (front c) StartDir) eqn:Hf; [|cbn; lia].
  destruct (has_root c) eqn:Hroot.
  - specialize (Hr eq_refl Hb eq_refl). destruct (path c); [done|]. cbn; lia.
  - destruct (dot_start (path c)) eqn:Hd; [|cbn; lia].
    apply dot_start_true in Hd as [-> | [r ->]]; cbn; lia.
Qed.

(** ** Parsing one component from either end *)
Lemma parse_next_spec c : Forall ascii (path c) -> front c = Body ->
  exists size comp, parse_next_component c = Ret (size, comp) /\ (size <= length (path c))%nat /\
    (path c <> [] -> (0 < size)%nat) /\ body (path c) = opt comp ++ body (drop size (path c)) /\
    head (split_sep (path c)) ≫= parse_single_component = comp.
Proof.
  intros Hs Hf. unfold parse_next_component. rewrite Hf. cbn [mbind outcome_bind assert_that state_eqb rank Nat.eqb].
  rewrite position_chars by done. pose proof (position_sep (path c)) as Hp.
  destruct (position is_separator_byte (path c)) as [i|].
  - destruct Hp as (rest & Hpath & Hd & Hfree & Hi). rewrite slice_to_ascii by (done || lia). cbn.
    eexists _, _. split; [done|]. rewrite length_take. split; [lia|]. split; [lia|].
    replace (i `min` length (path c) + 1)%nat with (S i) by lia. rewrite Hd.
    rewrite Hpath at 1 3. rewrite split_sep_app, body_app, body_free, split_sep_free by done. done.
  - eexists _, _. split; [done|]. split; [lia|]. split; [destruct (path c); cbn; [done|lia]|].
    rewrite drop_ge, body_nil, app_nil_r, split_sep_free by (done || lia). split; [|done]. by apply body_free.
Qed.

Lemma parse_back_spec c : wf c -> back c = Body -> 
  let n := length (start_part c) in (n < length (path c))%nat ->
  exists size comp, parse_next_component_back c = Ret (size, comp) /\ (0 < size)%nat /\
    (n + size <= length (path c))%nat /\
    body (drop n (path c)) = body (drop n (take (length (path c) - size) (path c))) ++ opt comp /\
    (take (length (path c) - size) (path c) = take n (path c) \/
     exists w, path c = take (length (path c) - size) (path c) ++ SEPARATOR :: w).
Proof.
  intros Hwf Hb n Hn. pose proof (wf_ascii _ Hwf) as Hs. unfold parse_next_component_back. rewrite Hb.
  cbn [mbind outcome_bind assert_that state_eqb rank Nat.eqb].
  rewrite len_before_body_start by done. fold n. rewrite slice_from_ascii by (done || lia). cbn [mbind outcome_bind].
  pose proof (rposition_sep (drop n (path c))) as Hp.
  destruct (rposition is_separator_byte (drop n (path c))) as [i|].
  - destruct Hp as (w & Hpath & Hd & Hfree & Hi). rewrite length_drop in Hi.
    rewrite drop_drop in Hd. replace (n + i + 1)%nat with (n + S i)%nat by lia.
    rewrite slice_from_ascii by (done || lia). cbn [mbind outcome_bind].
    eexists _, _. split; [done|]. rewrite length_drop. split; [lia|]. split; [lia|].
    replace (length (path c) - (length (path c) - (n + S i) + 1))%nat with (n + i)%nat by lia.
    split.
    + rewrite <- (take_drop_commute (path c) i n), Hd, Hpath at 1. by rewrite body_app, (body_free w).
    + right. exists w. rewrite <- (take_take_drop (path c) n i), <- app_assoc, <- Hpath.
      by rewrite take_drop.
  - eexists _, _. split; [done|]. rewrite length_drop. split; [lia|]. split; [lia|].
    replace (length (path c) - (length (path c) - n + 0))%nat with n by lia. split; [|by left].
    rewrite (drop_ge (take n (path c))) by (rewrite length_take; lia).
    rewrite body_nil. cbn [app]. by apply body_free.
Qed.

(** ** [next] takes the first component *)
Lemma ascii_drop n s : Forall ascii s -> Forall ascii (drop n s).
Proof. apply Forall_drop. Qed.
Lemma ascii_take n s : Forall ascii s -> Forall ascii (take n s).
Proof. apply Forall_take. Qed.
#[export] Hint Resolve ascii_drop ascii_take wf_ascii : path.

Lemma drop_front_ascii n c : Forall ascii (path c) -> (n <= length (path c))%nat ->
  drop_front n c = Ret (tt, set_path (drop n (path c)) c).
Proof. intros. unfold drop_front, mbind, ST_bind, get, lift. by rewrite slice_from_ascii. Qed.
Lemma drop_back_ascii n c : Forall ascii (path c) -> (n <= length (path c))%nat ->
  drop_back n c = Ret (tt, set_path (take (length (path c) - n) (path c)) c).
Proof.
  intros Hc Hn. unfold drop_back, mbind, ST_bind, get, lift. rewrite (proj2 (Nat.leb_le _ _) Hn).
  rewrite slice_to_ascii by (done || lia). done.
Qed.

(** [c'] is [c] after its first component was taken *)
Definition advanced (c c' : Components) : Prop :=
  wf c' /\ remaining c' = tail (remaining c) /\ back c' = back c /\
  (length (path c') <= length (path c))%nat /\
  (remaining c <> [] -> front c' = Body).

Lemma advanced_mid c d c' : remaining d = remaining c -> back d = back c ->
  (length (path d) <= length (path c))%nat -> advanced d c' -> advanced c c'.
Proof. intros Hr Hb Hl (Hw & H1 & H2 & H3 & H4). rewrite Hr in H1, H4. split_and!; [done..|congruence|lia|done]. Qed.

Lemma next_startdir fuel p r b : let c := mkComponents p r StartDir b in
  wf c -> finished c = false ->
  next_loop (S fuel) c =
    (if r || dot_start p then Ret (head (remaining c), mkComponents (drop 1 p) r Body b)
     else next_loop fuel (set_front Body c)) /\
  (if r || dot_start p then advanced c (mkComponents (drop 1 p) r Body b)
   else wf (set_front Body c) /\ remaining (set_front Body c) = remaining c).
Proof.
  intros c Hwf Hfin. pose proof (wf_ascii _ Hwf) as Hs. cbn in Hs.
  assert (Hnext : forall q, Forall ascii q -> wf (mkComponents q r Body b)) by (intros; by constructor).
  cbn [next_loop]. unfold mbind, ST_bind, get. rewrite Hfin. cbn [front c].
  rewrite include_cur_dir_ascii by done. cbn [has_root path c modify].
  destruct r; cbn [orb negb andb].
  - assert (head p = Some SEPARATOR) as Hp.
    { apply (wf_root _ Hwf); [done| |done]. by destruct b. }
    destruct p as [|x p]; [done|]. cbn in Hp. injection Hp as ->.
    rewrite bool_decide_eq_false_2 by done. cbn [negb assert_that lift].
    rewrite drop_front_ascii by (done || (cbn; lia)). split; [by destruct b|].
    split_and!; [by apply Hnext, ascii_drop|by destruct b|done|subst c; cbn; rewrite ?drop_0; lia|done].
  - destruct (dot_start p) eqn:Hd; cbn [orb negb andb].
    + destruct p as [|x p]; [done|].
      rewrite bool_decide_eq_false_2 by done. cbn [negb assert_that lift].
    rewrite drop_front_ascii by (done || (cbn; lia)).
      split; [destruct b; [done| | |done]; unfold remaining, start_part; cbn; by rewrite Hd|].
      split_and!; [by apply Hnext, ascii_drop| |done|subst c; cbn; rewrite ?drop_0; lia|done].
      unfold remaining, start_part; cbn; rewrite Hd. by destruct b.
    + split; [done|]. split; [by apply Hnext|]. unfold remaining, start_part. cbn. rewrite Hd.
      by destruct b.
Qed.

Lemma next_loop_spec fuel c : wf c -> (length (path c) + (3 - rank (front c)) < fuel)%nat ->
  exists c', next_loop fuel c = Ret (head (remaining c), c') /\ advanced c c'.
Proof.
  revert c. induction fuel as [|fuel IH]; intros c Hwf Hfuel; [lia|].
  destruct (finished c) eqn:Hfin.
  { cbn [next_loop]. unfold mbind, ST_bind, get. rewrite Hfin.
    assert (remaining c = []) as Hr by (unfold remaining; by rewrite Hfin).
    exists c. unfold advanced. rewrite Hr. by split_and!. }
  destruct c as [p r [| | |] b]; cbn [front rank path] in Hfuel.
  - set (c := mkComponents p r Prefix b) in *.
    assert (wf (set_front StartDir c) /\ remaining (set_front StartDir c) = remaining c) as [Hw Hr].
    { split; [constructor; apply Hwf|]. by destruct b. }
    destruct (IH (set_front StartDir c) Hw ltac:(cbn; lia)) as (c' & Hn & Ha).
    exists c'. cbn [next_loop]. unfold mbind, ST_bind, get. rewrite Hfin. cbn [front c modify].
    rewrite <- Hr. split; [exact Hn|]. by eapply advanced_mid.
  - destruct (next_startdir fuel p r b Hwf Hfin) as [-> Ha].
    destruct (r || dot_start p); [by eexists|]. destruct Ha as [Hw Hr].
    destruct (IH _ Hw ltac:(cbn; lia)) as (c' & Hn & Ha). exists c'. rewrite <- Hr.
    split; [exact Hn|]. by eapply advanced_mid.
  - destruct b; [done|done| |done]. set (c := mkComponents p r Body Body) in *.
    assert (remaining c = body p) as Hrem by (unfold remaining; cbn; by rewrite drop_0).
    pose proof (wf_ascii _ Hwf) as Hs. cbn in Hs.
    assert (Hnext : forall q, Forall ascii q -> wf (set_path q c)) by (intros; by constructor).
    cbn [next_loop]. unfold mbind, ST_bind, get. rewrite Hfin. cbn [front path c].
    case_bool_decide as Hp; cbn [negb].
    + subst p. destruct (IH (set_front Done c)) as (c' & Hn & Ha); [by constructor|cbn; lia|].
      exists c'. rewrite Hrem. cbn. by split.
    + destruct (parse_next_spec c Hs eq_refl) as (size & comp & Hpn & Hle & Hpos & Hbody & _).
      cbn [path c] in *. specialize (Hpos Hp).
      rewrite Hpn. cbn [lift]. rewrite drop_front_ascii by done. cbn [path c].
      assert (remaining (set_path (drop size p) c) = body (drop size p)) as Hrem'
        by (unfold remaining; cbn; by rewrite drop_0).
      destruct comp as [x|]; cbn [is_some opt app] in *.
      * eexists. rewrite Hrem, Hbody. split; [done|]. split; [by apply Hnext, ascii_drop|].
        rewrite Hrem', Hrem, Hbody. cbn. rewrite length_drop. split_and!; done || lia.
      * destruct (IH (set_path (drop size p) c)) as (c' & Hn & Ha);
          [by apply Hnext, ascii_drop|cbn; rewrite length_drop; lia|].
        exists c'. rewrite Hrem, Hbody, <- Hrem'. split; [exact Hn|].
        apply (advanced_mid _ (set_path (drop size p) c)); [by rewrite Hrem, Hbody, Hrem'|done| |exact Ha].
        cbn. rewrite length_drop. lia.
  - by destruct b.
Qed.

Lemma next_spec c : wf c -> exists c', next c = Ret (head (remaining c), c') /\ advanced c c'.
Proof. intros Hwf. apply next_loop_spec; [done|]. cbn. lia. Qed.

(** ** [next_back] takes the last component *)
Lemma dot_start_cut p m : 
  (length (if dot_start p then [CurDir] else []) <= m)%nat ->
  (take m p = take (length (if dot_start p then [CurDir] else [])) p \/ exists w, p = take m p ++ SEPARATOR :: w) ->
  dot_start (take m p) = dot_start p.
Proof.
  intros Hm Hcut. destruct (dot_start p) eqn:Hd; cbn in Hm.
  - apply dot_start_true. apply dot_start_true in Hd as [-> | [r ->]].
    + left. by rewrite take_ge.
    + destruct m as [|[|m]]; [lia|by left|right; cbn; eauto].
  - apply not_true_is_false. intros Ht. apply dot_start_true in Ht.
    assert (dot_start p = true); [|congruence]. apply dot_start_true.
    destruct Hcut as [Hc | [w Hc]].
    + cbn in Hc. rewrite Hc in Ht. naive_solver.
    + rewrite Hc. destruct Ht as [-> | [r ->]]; right; cbn; eauto.
Qed.

Lemma cut_spec c m : wf c -> (length (start_part c) <= m)%nat ->
  (take m (path c) = take (length (start_part c)) (path c) \/
   exists w, path c = take m (path c) ++ SEPARATOR :: w) ->
  back c = Body -> let c1 := set_path (take m (path c)) c in wf c1 /\ start_part c1 = start_part c.
Proof.
  intros Hwf Hm Hcut Hb c1. assert (start_part c1 = start_part c) as Hstart.
  { unfold start_part in *. subst c1. cbn. destruct (state_le (front c) StartDir); [|done].
    destruct (has_root c); [done|]. by rewrite dot_start_cut. }
  split; [|done]. constructor; subst c1; cbn [set_path path front back has_root] in *.
  - apply ascii_take, Hwf.
  - intros Hf _ Hr. unfold start_part in Hm. rewrite Hf, Hr in Hm. cbn in Hm.
    pose proof (wf_root _ Hwf Hf) as Hh. rewrite Hb in Hh. specialize (Hh eq_refl Hr).
    destruct m; [lia|]. by destruct (path c).
  - by rewrite Hb.
Qed.

(** [c'] is [c] after [x] was taken from its end *)
Record retreated (c : Components) (x : option Component) (c' : Components) : Prop := {
  re_wf : wf c';
  re_items : remaining c = remaining c' ++ opt x;
  re_none : x = None -> remaining c = [];
  re_front : front c' = front c;
  re_root : has_root c' = has_root c;
  re_path : exists w, path c = path c' ++ w;
  re_back : back c' = Body \/ back c' <> Body /\ remaining c' = [] /\ (x <> None -> path c' = [])
}.

Lemma retreated_mid c d x c' : remaining d = remaining c -> front d = front c -> has_root d = has_root c ->
  (exists w, path c = path d ++ w) -> retreated d x c' -> retreated c x c'.
Proof.
  intros Hr Hf Hh [w Hp] [? ? ? ? ? [w' Hp'] ?]. constructor; [done|congruence|rewrite <- Hr; done|congruence..| |done].
  exists (w' ++ w). by rewrite Hp, Hp', app_assoc.
Qed.

Lemma next_back_startdir fuel c : wf c -> back c = StartDir -> finished c = false ->
  exists x c', next_back_loop (S (S fuel)) c = Ret (x, c') /\ retreated c x c'.
Proof.
  destruct c as [p r f b]. intros Hwf Hb Hfin. cbn in Hb. subst b.
  pose proof (wf_ascii _ Hwf) as Hs. cbn in Hs.
  assert (state_le f StartDir = true) as Hf by (by destruct f).
  pose proof (wf_back _ Hwf eq_refl Hf) as Hlen.
  assert (Hrem : remaining (mkComponents p r f StartDir) = start_part (mkComponents p r f StartDir))
    by (unfold remaining; by rewrite Hfin).
  assert (Hnil : forall q s, s = Prefix \/ s = Done ->
    remaining (mkComponents q r f s) = [] /\ (Forall ascii q -> wf (mkComponents q r f s))).
  { intros q s Hs'. split; [unfold remaining; destruct Hs' as [-> | ->]; by case_match|].
    intros Hq. destruct Hs' as [-> | ->]; by constructor. }
  assert (Hre : forall q s x w, s = Prefix \/ s = Done -> p = q ++ w -> start_part (mkComponents p r f StartDir) = opt x ->
    (x <> None -> q = []) -> retreated (mkComponents p r f StartDir) x (mkComponents q r f s)).
  { intros q s x w Hs' -> Hx Hq. destruct (Hnil q s Hs') as [Hn Hw].
    assert (Forall ascii q) by (by apply Forall_app in Hs as [??]).
    constructor; [by apply Hw|by rewrite Hrem, Hn, Hx|intros ->; by rewrite Hrem, Hx|done|done|by exists w|right].
    split; [by destruct Hs' as [-> | ->]|done]. }
  cbn [next_back_loop]. unfold mbind, ST_bind, get, modify. rewrite Hfin.
  unfold start_part in Hlen, Hre. cbn [front has_root path back] in *. rewrite Hf in Hlen, Hre.
  rewrite include_cur_dir_ascii by done. cbn [has_root path].
  destruct r; [|destruct (dot_start p) eqn:Hd]; cbn [negb andb length] in *.
  1,2: rewrite drop_back_ascii by (done || (cbn; lia)); eexists _, _; split; [done|];
    cbn [set_back set_path path]; rewrite Hlen; eapply (Hre [] Prefix); [by left|done..].
  destruct (finished (set_back Prefix _)) eqn:Hfin2; eexists _, _; (split; [done|]).
  - apply (Hre p Prefix None []); [by left|by rewrite app_nil_r|done..].
  - apply (Hre p Done None []); [by right|by rewrite app_nil_r|done..].
Qed.

Lemma next_back_loop_spec fuel c : wf c -> (length (path c) + rank (back c) < fuel)%nat ->
  exists x c', next_back_loop fuel c = Ret (x, c') /\ retreated c x c'.
Proof.
  revert c. induction fuel as [|fuel IH]; intros c Hwf Hfuel; [lia|].
  destruct (finished c) eqn:Hfin.
  { cbn [next_back_loop]. unfold mbind, ST_bind, get. rewrite Hfin.
    assert (remaining c = []) as Hr by (unfold remaining; by rewrite Hfin).
    eexists _, _. split; [done|]. constructor; rewrite ?Hr; [done..|exists []; by rewrite app_nil_r|].
    destruct (back c) eqn:Hb; [right..|by left|right]; done. }
  destruct (back c) eqn:Hb; cbn [rank] in Hfuel.
  - cbn [next_back_loop]. unfold mbind, ST_bind, get. rewrite Hfin, Hb. eexists _, _. split; [done|].
    assert (remaining c = []) as Hr by (unfold remaining; by rewrite Hfin, Hb).
    assert (remaining (set_back Done c) = []) as Hr' by (unfold remaining; by case_match).
    constructor; rewrite ?Hr, ?Hr'; [|done..|exists []; by rewrite app_nil_r|by right].
    by constructor; [apply Hwf|..].
  - destruct fuel as [|fuel]; [lia|]. by apply next_back_startdir.
  - pose proof (start_part_length c Hwf ltac:(by rewrite Hb)) as Hle.
    cbn [next_back_loop]. unfold mbind, ST_bind, get. rewrite Hfin, Hb, len_before_body_start by apply Hwf.
    destruct (Nat.ltb_spec (length (start_part c)) (length (path c))) as [Hlt|Hge].
    + destruct (parse_back_spec c Hwf Hb Hlt) as (size & comp & Hpb & Hpos & Hsz & Hbody & Hcut).
      rewrite Hpb. cbn [lift]. rewrite drop_back_ascii by (apply Hwf || lia).
      destruct (cut_spec c (length (path c) - size) Hwf ltac:(lia) Hcut Hb) as [Hw1 Hst].
      set (c1 := set_path (take (length (path c) - size) (path c)) c) in *.
      assert (remaining c = remaining c1 ++ opt comp) as Hrem.
      { unfold remaining. change (finished c1) with (finished c). change (back c1) with (back c).
        rewrite Hfin, Hb, Hst, Hbody. by rewrite app_assoc. }
      assert (exists w, path c = path c1 ++ w) as Hpre.
      { exists (drop (length (path c) - size) (path c)). cbn. by rewrite take_drop. }
      destruct comp as [x|]; cbn [is_some].
      * eexists _, _. split; [done|]. constructor; [done..|by left].
      * destruct (IH c1 Hw1) as (x & c' & Hn & Hre).
        { subst c1. cbn. rewrite Hb, length_take. cbn. lia. }
        exists x, c'. split; [exact Hn|]. eapply retreated_mid; [| | | |exact Hre]; [|done..].
        by rewrite Hrem, app_nil_r.
    + assert (wf (set_back StartDir c)) as Hw.
      { constructor; [apply Hwf| |]; cbn; intros; [apply (wf_root _ Hwf); [done| |done]; by rewrite Hb|].
        change (start_part (set_back StartDir c)) with (start_part c). lia. }
      destruct (IH (set_back StartDir c) Hw ltac:(cbn; lia)) as (x & c' & Hn & Hre).
      exists x, c'. split; [exact Hn|]. eapply retreated_mid; [| | | |exact Hre]; [|done..|].
      * unfold remaining. rewrite Hfin, Hb. change (start_part (set_back StartDir c)) with (start_part c).
        cbn [back set_back]. rewrite (drop_ge (path c)), body_nil, app_nil_r by lia.
        destruct (finished (set_back StartDir c)) eqn:Hf'; [|done].
        unfold start_part. unfold finished in Hfin, Hf'. rewrite Hb in Hfin. cbn in Hf'.
        by destruct (front c).
      * exists []. by rewrite app_nil_r.
  - unfold finished in Hfin. rewrite Hb in Hfin. by destruct (front c).
Qed.

Lemma next_back_spec c : wf c -> exists x c', next_back c = Ret (x, c') /\ retreated c x c'.
Proof. intros Hwf. apply next_back_loop_spec; [done|]. destruct (back c); cbn; lia. Qed.

(** ** The iterator as a double-ended queue *)
Inductive DqOp : Type := Next | NextBack.

(** the results of a sequence of calls on one iterator *)
Fixpoint run_ops (ops : list DqOp) (c : Components) : outcome (list (option Component)) :=
  match ops with
  | [] => Ret []
  | op :: ops =>
      '(x, c) ← (match op with Next => next | NextBack => next_back end) c;
      l ← run_ops ops c; Ret (x :: l)
  end.

(** ... and of the same calls on the list of components *)
Fixpoint deque_ops (ops : list DqOp) (l : list Component) : list (option Component) :=
  match ops with
  | [] => []
  | Next :: ops => head l :: deque_ops ops (tail l)
  | NextBack :: ops => last l :: deque_ops ops (removelast l)
  end.

Lemma retreated_last c x c' : retreated c x c' -> x = last (remaining c) /\ remaining c' = removelast (remaining c).
Proof.
  intros [_ Hi Hn _ _ _ _]. destruct x as [x|]; cbn in Hi.
  - rewrite Hi. by rewrite last_snoc, removelast_last.
  - rewrite app_nil_r in Hi. rewrite <- Hi, (Hn eq_refl). done.
Qed.

Lemma run_ops_spec ops c : wf c -> run_ops ops c = Ret (deque_ops ops (remaining c)).
Proof.
  revert c. induction ops as [|[|] ops IH]; intros c Hwf; [done|..].
  - destruct (next_spec c Hwf) as (c' & Hn & Hw & Hr & _). cbn. rewrite Hn. cbn [mbind outcome_bind].
    by rewrite IH, Hr.
  - destruct (next_back_spec c Hwf) as (x & c' & Hn & Hre). cbn. rewrite Hn. cbn [mbind outcome_bind].
    destruct (retreated_last _ _ _ Hre) as [-> Hr]. by rewrite IH, Hr by apply Hre.
Qed.

(** C14: Going through an ASCII path from both ends, in any interleaving, gives
    its components from both ends: every component once, in order, and [None]
    when none is left; no assertion fails and no slice is out of range. (On a
    path of other characters a slice can fall inside of one.) *)
Theorem components_double_ended (p : bytes) (ops : list DqOp) :
  Forall ascii p -> run_ops ops (components p) = Ret (deque_ops ops (comps p)).
Proof. intros Hp. by rewrite run_ops_spec, remaining_components by by apply wf_components. Qed.

(** ** [as_path]: the rest of the iteration is a path again *)
Lemma trim_left_spec fuel c : Forall ascii (path c) -> front c = Body -> (length (path c) < fuel)%nat ->
  exists k, let q := drop k (path c) in
  trim_left_loop fuel c = Ret (tt, set_path q c) /\ body q = body (path c) /\
  has_root_str q = false /\ dot_start q = false.
Proof.
  revert c. induction fuel as [|fuel IH]; intros c Hs Hf Hfuel; [lia|].
  cbn [trim_left_loop]. unfold mbind, ST_bind, get. destruct (path c) as [|b p] eqn:Hp.
  { exists 0%nat. split; [|done]. cbn. rewrite <- Hp. by destruct c. }
  rewrite <- Hp in *. destruct (parse_next_spec c Hs Hf) as (size & comp & Hpn & Hle & Hpos & Hbody & Hhead).
  specialize (Hpos ltac:(by rewrite Hp)). rewrite Hpn. cbn [lift]. destruct comp as [x|]; cbn [is_some].
  - exists 0%nat. rewrite drop_0. split; [by destruct c|]. split; [done|]. unfold dot_start.
    split.
    + destruct (path c) as [|b' p'] eqn:Hp'; [done|]. cbn in Hhead |- *.
      apply not_true_is_false. intros Hb. unfold is_separator_byte in Hhead. by rewrite Hb in Hhead.
    + apply bool_decide_eq_false. intros Hd. by rewrite Hd in Hhead.
  - rewrite drop_front_ascii by done.
    destruct (IH (set_path (drop size (path c)) c)) as (k & Ht & Hb & Hr & Hd);
      [by apply ascii_drop|done|cbn; rewrite length_drop; lia|].
    exists (size + k)%nat. cbn [path set_path] in *. rewrite drop_drop in *. split; [exact Ht|].
    by rewrite Hb, Hbody.
Qed.

Lemma trim_right_spec fuel c : wf c -> back c = Body -> finished c = false -> (length (path c) < fuel)%nat ->
  exists m, let c' := set_path (take m (path c)) c in
  trim_right_loop fuel c = Ret (tt, c') /\ wf c' /\ remaining c' = remaining c /\
  (start_part c = [] -> dot_start (path c) = false -> dot_start (path c') = false).
Proof.
  revert c. induction fuel as [|fuel IH]; intros c Hwf Hb Hfin Hfuel; [lia|].
  cbn [trim_right_loop]. unfold mbind, ST_bind, get. rewrite len_before_body_start by apply Hwf.
  assert (Hstop : exists m, let c' := set_path (take m (path c)) c in
    (mret tt : ST Components unit) c = Ret (tt, c') /\ wf c' /\ remaining c' = remaining c /\
    (start_part c = [] -> dot_start (path c) = false -> dot_start (path c') = false)).
  { exists (length (path c)). rewrite firstn_all. by destruct c. }
  destruct (Nat.ltb_spec (length (start_part c)) (length (path c))) as [Hlt|Hge]; [|exact Hstop].
  destruct (parse_back_spec c Hwf Hb Hlt) as (size & comp & Hpb & Hpos & Hsz & Hbody & Hcut).
  rewrite Hpb. cbn [lift]. destruct comp as [x|]; cbn [is_some]; [exact Hstop|clear Hstop].
  rewrite drop_back_ascii by (apply Hwf || lia).
  destruct (cut_spec c (length (path c) - size) Hwf ltac:(lia) Hcut Hb) as [Hw1 Hst].
  set (p1 := take (length (path c) - size) (path c)) in *.
  destruct (IH (set_path p1 c) Hw1 Hb Hfin) as (m & Ht & Hw & Hr & Hd).
  { cbn. unfold p1. rewrite length_take. lia. }
  exists (m `min` (length (path c) - size))%nat. cbn [path set_path] in *.
  unfold p1 in Ht, Hw, Hr, Hd. rewrite take_take in Ht, Hw, Hr, Hd.
  split; [exact Ht|]. split; [exact Hw|]. split.
  - etrans; [exact Hr|]. fold p1. unfold remaining. change (finished (set_path p1 c)) with (finished c).
    cbn [back set_path path]. rewrite Hfin, Hb, Hst, Hbody. cbn. by rewrite app_nil_r.
  - intros Hs0 Hd0. apply Hd; [unfold p1 in Hst; by rewrite Hst|].
    rewrite <- Hd0. apply dot_start_cut; rewrite Hd0; cbn; [lia|]. by rewrite Hs0 in Hcut.
Qed.

Lemma trim_left_unfold c : trim_left c = trim_left_loop (S (length (path c))) c.
Proof. done. Qed.
Lemma trim_right_unfold c : trim_right c = trim_right_loop (S (length (path c))) c.
Proof. done. Qed.

Lemma has_root_app p w : has_root_str p = false -> p <> [] -> has_root_str (p ++ w) = false.
Proof. by destruct p. Qed.
Lemma has_root_take m p : has_root_str p = false -> has_root_str (take m p) = false.
Proof. by destruct p, m. Qed.

Lemma comps_no_start p : has_root_str p = false -> dot_start p = false -> comps p = body p.
Proof. intros Hr Hd. unfold comps. by rewrite Hr, Hd. Qed.

Lemma as_path_body c : wf c -> front c = Body -> back c = Body ->
  exists q, as_path c = Ret q /\ comps q = remaining c /\ Forall ascii q /\ has_root_str q = false.
Proof.
  destruct c as [p r f b]. cbn. intros Hwf -> ->. pose proof (wf_ascii _ Hwf) as Hs. cbn in Hs.
  unfold as_path. cbn [front state_eqb rank Nat.eqb]. rewrite trim_left_unfold.
  destruct (trim_left_spec (S (length p)) (mkComponents p r Body Body) Hs eq_refl ltac:(cbn; lia)) as (k & Ht & Hbody & Hroot & Hdot).
  cbn [path] in *. rewrite Ht. cbn [mbind outcome_bind set_path back path state_eqb rank Nat.eqb has_root front].
  rewrite trim_right_unfold.
  assert (Hw1 : wf (mkComponents (drop k p) r Body Body)) by (by constructor; [apply ascii_drop|..]).
  destruct (trim_right_spec (S (length (drop k p))) _ Hw1 eq_refl eq_refl ltac:(cbn; lia)) as (m & Hm & Hw2 & Hrem & Hd2).
  unfold set_path in *. cbn [path has_root front back] in *. rewrite Hm.
  eexists. split; [done|]. unfold remaining in *. cbn [set_path finished state_eqb state_lt front back rank Nat.eqb Nat.ltb Nat.leb orb
    start_part state_le length app path] in *. rewrite !drop_0 in *.
  rewrite comps_no_start by (auto using has_root_take). rewrite Hrem. split; [done|].
  split; [apply Hw2|]. by apply has_root_take.
Qed.

Lemma as_path_prefix c : wf c -> front c = Prefix -> back c = Body -> has_root c = has_root_str (path c) ->
  exists q, as_path c = Ret q /\ comps q = remaining c /\ Forall ascii q /\
    exists w, path c = q ++ w.
Proof.
  destruct c as [p r f b]. cbn. intros Hwf -> -> ->. unfold as_path. cbn [front state_eqb rank Nat.eqb].
  cbn [mret ST_ret mbind outcome_bind back state_eqb rank Nat.eqb]. rewrite trim_right_unfold.
  destruct (trim_right_spec (S (length p)) (mkComponents p (has_root_str p) Prefix Body) Hwf eq_refl eq_refl ltac:(cbn; lia)) as (m & Hm & Hw2 & Hrem & _).
  unfold set_path in *. cbn [path has_root front back] in *. rewrite Hm.
  eexists. split; [done|]. split; [|split; [apply (wf_ascii _ Hw2)|]].
  - rewrite <- Hrem, <- remaining_components. unfold components. do 2 f_equal. clear Hm Hrem.
    destruct (has_root_str p) eqn:Hroot; [|by apply has_root_take].
    pose proof (wf_root _ Hw2 eq_refl eq_refl eq_refl) as Hh. cbn in Hh. by destruct (take m p); [|injection Hh as ->].
  - exists (drop m p). cbn [path]. by rewrite take_drop.
Qed.
