(* ===== verification/PathUse.v ===== *)
(** * Queries and mutations of paths

    The operations of [Path] and [PathBuf] in terms of the reference list of
    components [comps] of [PathSpec]: prefixes and suffixes, [parent],
    [file_name], [strip_prefix], equality and order, [push], [pop],
    [set_file_name] and [ancestors]; and what the component parser does with
    multi-byte characters. *)
From S2P Require Import Prelude UserLink FsTypes Path PathSpec.
Import Str Path.

(** ** The iterators against their interface *)
#[global] Program Instance components_spec : IteratorSpec Components Component := {|
  it_wf := wf; it_items := remaining |}.
Next Obligation.
  intros c Hwf. destruct (next_spec c Hwf) as (c' & Hn & Hw & Hr & _). by exists c'.
Qed.

#[global] Program Instance rev_spec : IteratorSpec Rev Component := {|
  it_wf r := wf (unrev r); it_items r := reverse (remaining (unrev r)) |}.
Next Obligation.
  intros [c] Hwf. destruct (next_back_spec c Hwf) as (x & c' & Hn & Hre).
  exists (mkRev c'). unfold inext, rev_iterator. cbn in *. rewrite Hn. cbn [mbind outcome_bind].
  pose proof (re_items _ _ _ Hre) as Hi. split_and!; [|apply Hre|].
  - destruct x as [x|]; cbn [opt] in Hi; [by rewrite Hi, reverse_snoc|].
    by rewrite (re_none _ _ _ Hre eq_refl).
  - destruct x as [x|]; cbn [opt] in Hi; [by rewrite Hi, reverse_snoc|].
    rewrite (re_none _ _ _ Hre eq_refl) in *. by destruct (remaining c').
Qed.

(** ** Clients of an iterator *)
Section clients.
Context {I J Item : Type} `{IteratorSpec I Item} `{IteratorSpec J Item} `{EqDecision Item}.

Lemma collect_spec fuel (i : I) : it_wf i -> (length (it_items i) < fuel)%nat ->
  collect_loop fuel i = Ret (it_items i).
Proof.
  revert i. induction fuel as [|fuel IH]; intros i Hwf Hfuel; [lia|]. cbn.
  destruct (it_next i Hwf) as (i' & -> & Hw & Hr). cbn [mbind outcome_bind].
  destruct (it_items i) as [|x l] eqn:Hi; cbn in *; [done|].
  rewrite IH; [by rewrite Hr|done|rewrite Hr; lia].
Qed.

(** [iter_after] succeeds exactly on a prefix and leaves the rest; what a
    successful [next] preserves holds of the iterator it returns. *)
Lemma iter_after_spec (P : I -> Prop) fuel (i : I) (j : J) :
  (forall i i' x, it_wf i -> P i -> inext i = Ret (Some x, i') -> P i') ->
  it_wf i -> P i -> it_wf j -> (length (it_items j) < fuel)%nat ->
  exists r, iter_after fuel i j = Ret r /\
    match r with
    | Some i' => it_wf i' /\ P i' /\ it_items i = it_items j ++ it_items i'
    | None => ~ it_items j `prefix_of` it_items i
    end.
Proof.
  intros HP. revert i j. induction fuel as [|fuel IH]; intros i j Hi Hp Hj Hfuel; [lia|]. cbn.
  destruct (it_next i Hi) as (i' & Hni & Hi' & Hri). rewrite Hni. cbn [mbind outcome_bind].
  destruct (it_next j Hj) as (j' & -> & Hj' & Hrj). cbn [mbind outcome_bind].
  destruct (it_items i) as [|x l] eqn:Hx, (it_items j) as [|y m] eqn:Hy; cbn in *.
  - eexists. split; [done|]. cbn. by rewrite Hx.
  - eexists. split; [done|]. by intros ?%prefix_nil_inv.
  - eexists. split; [done|]. cbn. by rewrite Hx.
  - destruct (decide (x = y)) as [->|Hne].
    + destruct (IH i' j' Hi' (HP _ _ _ Hi Hp Hni) Hj' ltac:(rewrite Hrj; lia)) as (r & -> & Hr). exists r. split; [done|].
      rewrite Hri, Hrj in Hr. destruct r as [i2|].
      * destruct Hr as (? & ? & ->). by split_and!.
      * intros ?%prefix_cons_inv_2. by apply Hr.
    + eexists. split; [done|]. intros ?%prefix_cons_inv_1. congruence.
Qed.
End clients.

Lemma split_sep_length s : (length (split_sep s) <= S (length s))%nat.
Proof. induction s as [|b s IH]; cbn; [lia|]. repeat case_match; cbn in *; lia. Qed.

Lemma omap_length_le {A B} (f : A -> option B) l : (length (omap f l) <= length l)%nat.
Proof. induction l as [|x l IH]; cbn; [lia|]. destruct (f x); cbn; lia. Qed.

Lemma comps_length p : (length (comps p) <= length p + 2)%nat.
Proof.
  unfold comps, body. pose proof (omap_length_le parse_single_component (split_sep p)) as H1.
  pose proof (omap_length_le parse_single_component (split_sep (drop 1 p))) as H2.
  pose proof (split_sep_length p). pose proof (split_sep_length (drop 1 p)) as H3. rewrite length_drop in H3.
  repeat case_match; cbn; lia.
Qed.

Lemma remaining_length c : (length (remaining c) <= length (path c) + 2)%nat.
Proof.
  unfold remaining, body. set (q := drop (length (start_part c)) (path c)).
  pose proof (omap_length_le parse_single_component (split_sep q)) as H1. pose proof (split_sep_length q) as H2.
  assert (length q <= length (path c))%nat as H3 by (unfold q; rewrite length_drop; lia).
  assert (length (start_part c) <= 1)%nat as H4 by (unfold start_part; repeat case_match; cbn; lia).
  repeat case_match; cbn; rewrite ?length_app; lia.
Qed.

Lemma items_components p : it_items (components p) = comps p.
Proof. exact (remaining_components p). Qed.
Lemma items_rev p : it_items (mkRev (components p)) = reverse (comps p).
Proof. cbn [it_items rev_spec unrev]. by rewrite remaining_components. Qed.

(** ** Queries *)
Lemma collect_comps p : Forall ascii p ->
  collect (components p) = Ret (comps p) /\ collect_rev (components p) = Ret (reverse (comps p)).
Proof.
  intros Hp%wf_components. pose proof (comps_length p). split.
  - unfold collect. rewrite collect_spec; rewrite ?items_components; [done..|]. cbn [path components]. lia.
  - unfold collect_rev. rewrite collect_spec; rewrite ?items_rev; [done..|]. rewrite length_reverse. cbn [path components]. lia.
Qed.

Lemma last_snoc_inv {A} (l : list A) x : last l = Some x -> l = removelast l ++ [x].
Proof.
  intros Hl. destruct l as [|y l]; [done|].
  rewrite (app_removelast_last x (l := y :: l)) at 1 by done. do 2 f_equal.
  apply last_Some in Hl as [l' ->]. by rewrite last_last.
Qed.

Lemma parent_spec p : Forall ascii p ->
  match last (comps p) with
  | None | Some RootDir => parent p = Ret None
  | Some _ => exists q w, parent p = Ret (Some q) /\ p = q ++ w /\ Forall ascii q /\
                comps q = removelast (comps p)
  end.
Proof.
  intros Hp%wf_components. unfold parent.
  destruct (next_back_spec _ Hp) as (x & c' & -> & Hre). cbn [mbind outcome_bind].
  destruct (retreated_last _ _ _ Hre) as [-> Hrem]. rewrite remaining_components in *.
  destruct Hre as [Hw _ _ Hf Hr [w Hpath] Hb]. cbn in Hf, Hr, Hpath.
  assert (last (comps p) <> None -> exists q w, (q' ← as_path c'; Ret (Some q')) = Ret (Some q) /\ p = q ++ w /\
    Forall ascii q /\ comps q = removelast (comps p)) as Hq.
  { intros Hx. destruct Hb as [Hb | (Hb & Hnil & Hemp)].
    - destruct (as_path_prefix c' Hw Hf Hb) as (q & -> & Hc & Ha & w' & Hw').
      { rewrite Hr, Hpath. destruct (path c') as [|b p'] eqn:Hp'; [|done]. cbn.
        destruct (has_root_str w) eqn:Hroot; [|done].
        pose proof (wf_root _ Hw) as Hroot'. rewrite Hf, Hb, Hr, Hpath, Hp' in Hroot'. cbn in Hroot'.
        by specialize (Hroot' eq_refl eq_refl Hroot). }
      exists q, (w' ++ w). split_and!; [done|by rewrite Hpath, Hw', app_assoc|done|by rewrite Hc, Hrem].
    - specialize (Hemp Hx). exists [], p. split_and!; [|done|done|by rewrite <- Hrem, Hnil].
      unfold as_path. rewrite Hf. cbn. destruct (back c'); cbn; by rewrite ?Hemp. }
  destruct (last (comps p)) as [[]|]; [done|by apply Hq..|done].
Qed.

Lemma file_name_spec p : Forall ascii p ->
  file_name p = Ret (match last (comps p) with Some (Normal n) => Some n | _ => None end).
Proof.
  intros Hp%wf_components. unfold file_name.
  destruct (next_back_spec _ Hp) as (x & c' & -> & Hre). cbn [mbind outcome_bind].
  destruct (retreated_last _ _ _ Hre) as [-> _]. by rewrite remaining_components.
Qed.

(** an iterator whose rest is a path again *)
Definition resumable (c : Components) : Prop :=
  back c = Body /\ (front c = Prefix /\ has_root c = has_root_str (path c) \/ front c = Body).

Lemma resumable_next c c' x : wf c -> resumable c -> next c = Ret (Some x, c') -> resumable c' /\ front c' = Body.
Proof.
  intros Hwf [Hb _] Hn. destruct (next_spec c Hwf) as (c2 & Hn2 & _ & _ & Hb2 & _ & Hf).
  rewrite Hn in Hn2. injection Hn2 as Hx ->.
  assert (front c2 = Body) by (apply Hf; by destruct (remaining c)).
  split; [|done]. split; [congruence|by right].
Qed.

Lemma as_path_resumable c : wf c -> resumable c ->
  exists q, as_path c = Ret q /\ comps q = remaining c /\ Forall ascii q.
Proof.
  intros Hwf [Hb [[Hf Hr] | Hf]].
  - destruct (as_path_prefix c) as (q & ? & ? & ? & _); by eauto.
  - destruct (as_path_body c) as (q & ? & ? & ? & _); by eauto.
Qed.

Lemma resumable_components p : resumable (components p).
Proof. split; [done|by left]. Qed.

Lemma iter_after_paths p base : Forall ascii p -> Forall ascii base ->
  exists r, iter_after (length base + 3) (components p) (components base) = Ret r /\
    match r with
    | Some c => wf c /\ resumable c /\ comps p = comps base ++ remaining c
    | None => ~ comps base `prefix_of` comps p
    end.
Proof.
  intros Hp Hb. pose proof (comps_length base). rewrite <- !items_components.
  destruct (iter_after_spec resumable (length base + 3) (components p) (components base)) as (r & -> & Hr).
  - intros i i' x Hi Hr Hn. by eapply resumable_next.
  - by apply wf_components.
  - apply resumable_components.
  - by apply wf_components.
  - rewrite items_components. lia.
  - exists r. split; [done|]. by destruct r.
Qed.

Lemma strip_prefix_spec p base : Forall ascii p -> Forall ascii base ->
  exists r, strip_prefix p base = Ret r /\
    match r with
    | Some q => comps p = comps base ++ comps q
    | None => ~ comps base `prefix_of` comps p
    end.
Proof.
  intros Hp Hb. unfold strip_prefix. destruct (iter_after_paths p base Hp Hb) as ([c|] & -> & Hr); cbn [mbind outcome_bind].
  - destruct Hr as (Hw & Hres & Hc). destruct (as_path_resumable c Hw Hres) as (q & -> & Hq & _).
    exists (Some q). split; [done|]. cbn beta iota. by rewrite Hq.
  - by eexists.
Qed.

#[global] Instance component_prefix_dec (a b : list Component) : Decision (a `prefix_of` b).
Proof. apply _. Defined.

Lemma starts_with_spec p base : Forall ascii p -> Forall ascii base ->
  starts_with p base = Ret (bool_decide (comps base `prefix_of` comps p)).
Proof.
  intros Hp Hb. unfold starts_with. destruct (iter_after_paths p base Hp Hb) as ([c|] & -> & Hr); cbn.
  - rewrite bool_decide_eq_true_2; [done|]. destruct Hr as (_ & _ & ->). by eexists.
  - by rewrite bool_decide_eq_false_2.
Qed.

Lemma ends_with_spec p child : Forall ascii p -> Forall ascii child ->
  ends_with p child = Ret (bool_decide (comps child `suffix_of` comps p)).
Proof.
  intros Hp Hc. unfold ends_with. pose proof (comps_length child).
  destruct (iter_after_spec (fun _ => True) (length child + 3) (mkRev (components p)) (mkRev (components child)))
    as ([c|] & -> & Hr); [done|by apply wf_components|done|by apply wf_components| |..]; rewrite ?items_rev in *; cbn [mbind outcome_bind is_some].
  - rewrite length_reverse. lia.
  - rewrite bool_decide_eq_true_2; [done|]. destruct Hr as (_ & _ & Hr).
    apply (f_equal reverse) in Hr. rewrite reverse_app, !reverse_involutive in Hr. rewrite Hr. by eexists.
  - rewrite bool_decide_eq_false_2; [done|]. intros [k Hk]. apply Hr.
    rewrite Hk, reverse_app. by eexists.
Qed.

(** ** Equality and order *)
Lemma eq_loop_spec fuel a b : wf a -> wf b -> (length (remaining a) < fuel)%nat ->
  eq_loop fuel a b = Ret (bool_decide (remaining a = remaining b)).
Proof.
  revert a b. induction fuel as [|fuel IH]; intros a b Ha Hb Hfuel; [lia|]. cbn [eq_loop].
  destruct (next_spec a Ha) as (a' & -> & Ha' & Hra & _). cbn [mbind outcome_bind].
  destruct (next_spec b Hb) as (b' & -> & Hb' & Hrb & _).
  destruct (remaining a) as [|x l] eqn:Hx, (remaining b) as [|y m] eqn:Hy; cbn in *; [done..|].
  destruct (decide (x = y)) as [->|Hne].
  - rewrite IH, Hra, Hrb by (done || (rewrite Hra; lia)). f_equal. apply bool_decide_ext.
    split; [by intros -> | by intros [= ->]].
  - symmetry. f_equal. apply bool_decide_eq_false. congruence.
Qed.

Lemma path_eq_spec p q : Forall ascii p -> Forall ascii q ->
  path_eq p q = Ret (bool_decide (comps p = comps q)).
Proof.
  intros Hp%wf_components Hq%wf_components. unfold path_eq. pose proof (comps_length p).
  rewrite eq_loop_spec; rewrite ?remaining_components; done || lia.
Qed.

(** lexicographic order of lists *)
Fixpoint lex {A} (cmp : A -> A -> comparison) (l m : list A) : comparison :=
  match l, m with
  | [], [] => Eq
  | [], _ :: _ => Lt
  | _ :: _, [] => Gt
  | x :: l, y :: m => match cmp x y with Eq => lex cmp l m | c => c end
  end.

Lemma cmp_loop_spec fuel a b : wf a -> wf b -> (length (remaining a) < fuel)%nat ->
  cmp_loop fuel a b = Ret (lex component_cmp (remaining a) (remaining b)).
Proof.
  revert a b. induction fuel as [|fuel IH]; intros a b Ha Hb Hfuel; [lia|]. cbn [cmp_loop].
  destruct (next_spec a Ha) as (a' & -> & Ha' & Hra & _). cbn [mbind outcome_bind].
  destruct (next_spec b Hb) as (b' & -> & Hb' & Hrb & _).
  destruct (remaining a) as [|x l] eqn:Hx, (remaining b) as [|y m] eqn:Hy; cbn in *; [done..|].
  destruct (component_cmp x y); [|done..].
  by rewrite IH, Hra, Hrb by (done || (rewrite Hra; lia)).
Qed.

Lemma path_cmp_spec p q : Forall ascii p -> Forall ascii q ->
  path_cmp p q = Ret (lex component_cmp (comps p) (comps q)).
Proof.
  intros Hp%wf_components Hq%wf_components. unfold path_cmp. pose proof (comps_length p).
  rewrite cmp_loop_spec; rewrite ?remaining_components; done || lia.
Qed.

(** what a comparison needs to be a total order *)
Record total_cmp {A} (cmp : A -> A -> comparison) : Prop := {
  cmp_eq : forall x y, cmp x y = Eq <-> x = y;
  cmp_opp : forall x y, cmp y x = CompOpp (cmp x y);
  cmp_trans : forall x y z, cmp x y = Lt -> cmp y z = Lt -> cmp x z = Lt
}.

Lemma total_Z : total_cmp Z.compare.
Proof.
  constructor; [apply Z.compare_eq_iff|intros; apply Z.compare_antisym|].
  intros x y z. rewrite !Z.compare_lt_iff. lia.
Qed.

Lemma total_lex {A} (cmp : A -> A -> comparison) : total_cmp cmp -> total_cmp (lex cmp).
Proof.
  intros [He Ho Ht]. constructor.
  - induction x as [|x l IH]; intros [|y m]; cbn; [done..|].
    destruct (cmp x y) eqn:Hc; [apply He in Hc as ->; rewrite IH; split; congruence|..];
      (split; [done|]; intros [= -> ->]; by rewrite (proj2 (He y y) eq_refl) in Hc).
  - induction x as [|x l IH]; intros [|y m]; cbn; [done..|]. rewrite (Ho x y). by destruct (cmp x y); cbn.
  - induction x as [|x l IH]; intros [|y m] [|z n]; cbn; [done..|].
    destruct (cmp x y) eqn:H1; [apply He in H1 as ->| |done].
    + destruct (cmp y z); [apply IH|done..].
    + intros _. destruct (cmp y z) eqn:H2; [apply He in H2 as ->; by rewrite H1| |done].
      intros _. by rewrite (Ht _ _ _ H1 H2).
Qed.

Lemma str_cmp_lex a b : str_cmp a b = lex Z.compare a b.
Proof. revert b. induction a as [|x a IH]; intros [|y b]; cbn; [done..|]. by rewrite IH. Qed.

Lemma total_component : total_cmp component_cmp.
Proof.
  destruct (total_lex _ total_Z) as [He Ho Ht].
  constructor; intros [] []; try intros []; cbn; rewrite ?str_cmp_lex, ?He; try naive_solver.
Qed.

(** C15: On ASCII paths the order is a total order whose equality is [==], the
    equality of components: a [BTreeMap] may be keyed by such paths. *)
Theorem path_order_total (p q r : bytes) :
  Forall ascii p -> Forall ascii q -> Forall ascii r ->
  exists pq qp pr qr, path_cmp p q = Ret pq /\ path_cmp q p = Ret qp /\ path_cmp p r = Ret pr /\ path_cmp q r = Ret qr /\
    path_eq p q = Ret (bool_decide (pq = Eq)) /\ (pq = Eq <-> comps p = comps q) /\
    qp = CompOpp pq /\ (pq = Lt -> qr = Lt -> pr = Lt).
Proof.
  intros Hp Hq Hr. destruct (total_lex _ total_component) as [He Ho Ht].
  eexists _, _, _, _. rewrite !path_cmp_spec, path_eq_spec by done.
  split_and!; [done..| |apply He|apply Ho|apply Ht]. f_equal. apply bool_decide_ext. symmetry. apply He.
Qed.

(** ** Mutations *)
Lemma dot_start_app p q : dot_start (p ++ SEPARATOR :: q) = dot_start p.
Proof.
  unfold dot_start. rewrite split_sep_app. by destruct (split_sep p) as [|w l] eqn:Hp;
    [destruct p as [|b p]; cbn in Hp; [|repeat case_match]|].
Qed.

Lemma comps_app_sep p q : p <> [] -> comps (p ++ SEPARATOR :: q) = comps p ++ body q.
Proof.
  intros Hp. unfold comps. rewrite dot_start_app.
  destruct p as [|b p]; [done|]. cbn [app has_root_str drop skipn]. rewrite !drop_0.
  destruct (b =? SEPARATOR); [by rewrite body_app|].
  destruct (dot_start (b :: p)); [by rewrite body_app|]. by rewrite app_comm_cons, body_app.
Qed.

(** the components of a relative path without a leading [.] *)
Definition strip_cur (l : list Component) : list Component :=
  match l with CurDir :: l => l | _ => l end.

Lemma body_no_cur s : strip_cur (body s) = body s.
Proof.
  unfold body. induction (split_sep s) as [|w l IH]; [done|]. cbn. unfold parse_single_component.
  repeat case_bool_decide; done.
Qed.

Lemma body_strip q : has_root_str q = false -> body q = strip_cur (comps q).
Proof.
  intros Hr. unfold comps. rewrite Hr. destruct (dot_start q) eqn:Hd; [|by rewrite body_no_cur].
  apply dot_start_true in Hd as [-> | [r ->]]; [done|]. exact (body_app [DOT] r).
Qed.

Lemma last_chars p : Forall ascii p -> last (chars p) = (fun b => [b]) <$> last p.
Proof. intros Hp. by rewrite chars_ascii, fmap_last. Qed.

(** [push] as a function of the two strings *)
Lemma push_eq p q : Forall ascii p ->
  push q p = Ret (tt, if has_root_str q then q
                      else match last p with
                           | Some b => if b =? SEPARATOR then p ++ q else p ++ SEPARATOR :: q
                           | None => q
                           end).
Proof.
  intros Hp. unfold push, mbind, ST_bind, get, put. rewrite last_chars by done.
  unfold is_absolute. cbn [components has_root]. destruct (has_root_str q); [done|]. cbn [orb].
  destruct (last p) as [b|] eqn:Hl; cbn.
  - rewrite is_separator_single. unfold is_separator_byte. destruct (b =? SEPARATOR); [done|]. cbn.
    by rewrite <- app_assoc.
  - by apply last_None in Hl as ->.
Qed.

Lemma path_push_spec p q : Forall ascii p ->
  exists r, push q p = Ret (tt, r) /\ (Forall ascii q -> Forall ascii r) /\
    comps r = if has_root_str q then comps q
              else if bool_decide (p = []) then comps q
              else comps p ++ strip_cur (comps q).
Proof.
  intros Hp. rewrite push_eq by done. eexists. split; [done|].
  destruct (has_root_str q) eqn:Hr; [done|]. destruct (last p) as [b|] eqn:Hl.
  - assert (p <> []) as Hne by (by intros ->). rewrite bool_decide_eq_false_2, <- body_strip by done.
    apply last_Some in Hl as [p0 ->]. assert (Forall ascii [SEPARATOR]) by (by repeat constructor).
    destruct (Z.eqb_spec b SEPARATOR) as [->|Hb].
    + rewrite <- app_assoc. cbn [app]. split.
      { intros Hq. apply Forall_app in Hp as [? ?]. apply Forall_app. split; [done|by constructor]. }
      destruct p0 as [|b0 p0]; [done|]. rewrite !comps_app_sep by done. cbn. by rewrite app_nil_r.
    + split; [intros; apply Forall_app; split; [done|by constructor]|]. by apply comps_app_sep.
  - apply last_None in Hl as ->. by split.
Qed.

Lemma truncate_prefix q w : Forall ascii (q ++ w) -> truncate (length q) (q ++ w) = Ret (tt, q).
Proof.
  intros Hp. unfold truncate, mbind, ST_bind, get. rewrite length_app.
  rewrite (proj2 (Nat.leb_le _ _)) by lia. unfold lift. rewrite slice_to_ascii by (done || rewrite length_app; lia).
  by rewrite take_app_length.
Qed.

Lemma path_pop_spec p : Forall ascii p ->
  match last (comps p) with
  | None | Some RootDir => pop p = Ret (false, p)
  | Some _ => exists q, pop p = Ret (true, q) /\ Forall ascii q /\ comps q = removelast (comps p)
  end.
Proof.
  intros Hp. pose proof (parent_spec p Hp) as Hpar. unfold pop, mbind, ST_bind, get, lift.
  assert (forall q w, parent p = Ret (Some q) -> p = q ++ w -> truncate (length q) p = Ret (tt, q)) as Ht.
  { intros q w _ ->. by apply truncate_prefix. }
  destruct (last (comps p)) as [[]|]; try by rewrite Hpar.
  all: destruct Hpar as (q & w & Hq & Hw & Ha & Hc); rewrite Hq, (Ht _ _ Hq Hw); by exists q.
Qed.

(** a file name: one normal component *)
Record is_name (n : bytes) : Prop := {
  name_ascii : Forall ascii n;
  name_free : sep_free n;
  name_parse : parse_single_component n = Some (Normal n)
}.

Lemma name_comps n : is_name n -> has_root_str n = false /\ comps n = [Normal n].
Proof.
  intros [_ Hf Hp]. assert (has_root_str n = false) as Hr.
  { destruct n as [|b n]; [done|]. apply sep_free_cons in Hf as [Hb _]. cbn. by apply Z.eqb_neq. }
  split; [done|]. unfold comps. rewrite Hr. assert (dot_start n = false) as ->.
  { unfold dot_start. rewrite split_sep_free by done. apply bool_decide_eq_false. cbn. by intros [= ->]. }
  by rewrite body_free, Hp.
Qed.

Lemma push_name p n : Forall ascii p -> is_name n ->
  exists r, push n p = Ret (tt, r) /\ Forall ascii r /\ comps r = comps p ++ [Normal n].
Proof.
  intros Hp Hn. destruct (name_comps n Hn) as [Hr Hc]. destruct (path_push_spec p n Hp) as (r & -> & Ha & Hcr).
  exists r. split; [done|]. split; [by apply Ha, Hn|]. rewrite Hcr, Hr, Hc. by case_bool_decide; [subst p|].
Qed.

(** Walking down a path and back up is the identity on its components:
    [push] of a name appends it and [pop] removes it again, leaving a path
    equal to the first. *)
Theorem path_push_pop (p n : bytes) : Forall ascii p -> is_name n ->
  exists r q, push n p = Ret (tt, r) /\ comps r = comps p ++ [Normal n] /\ file_name r = Ret (Some n) /\
    pop r = Ret (true, q) /\ comps q = comps p /\ path_eq q p = Ret true.
Proof.
  intros Hp Hn. destruct (push_name p n Hp Hn) as (r & Hr & Ha & Hc). pose proof (path_pop_spec r Ha) as Hpop.
  rewrite Hc, last_snoc in Hpop. destruct Hpop as (q & Hq & Haq & Hcq). rewrite removelast_last in Hcq.
  exists r, q. split_and!; [done..| |done|done|].
  - by rewrite file_name_spec, Hc, last_snoc.
  - by rewrite path_eq_spec, bool_decide_eq_true_2.
Qed.

(** [set_file_name] replaces the last component when it is a normal one and
    appends otherwise; the assertion on [pop] never fails. *)
Theorem set_file_name_replaces (p n : bytes) : Forall ascii p -> is_name n ->
  exists r, set_file_name n p = Ret (tt, r) /\
    comps r = match last (comps p) with Some (Normal _) => removelast (comps p) | _ => comps p end ++ [Normal n].
Proof.
  intros Hp Hn. unfold set_file_name, mbind at 1, ST_bind at 1, get. unfold mbind at 1, ST_bind at 1, lift at 1.
  rewrite file_name_spec by done. pose proof (path_pop_spec p Hp) as Hpop.
  destruct (last (comps p)) as [[]|] eqn:Hl; cbn [is_some when].
  1-3,5: destruct (push_name p n Hp Hn) as (r & Hr & _ & Hc); exists r; by split.
  destruct Hpop as (q & Hq & Haq & Hcq). destruct (push_name q n Haq Hn) as (r & Hr & _ & Hc).
  exists r. split; [|by rewrite Hc, Hcq]. unfold mbind, ST_bind. by rewrite Hq.
Qed.

(** ** Ancestors *)
Definition lowest (p : bytes) : nat := if has_root_str p then 1 else 0.

Lemma lowest_comps p : (lowest p <= length (comps p))%nat.
Proof. unfold lowest, comps. destruct (has_root_str p); cbn; lia. Qed.

Lemma body_not_root s : RootDir ∉ body s.
Proof.
  unfold body. rewrite list_elem_of_omap. intros (w & _ & Hw). unfold parse_single_component in Hw.
  repeat case_bool_decide; simplify_eq.
Qed.

(** a path ends at its root exactly when it is only the root *)
Lemma last_comps_root p :
  match last (comps p) with None | Some RootDir => True | _ => False end <-> length (comps p) = lowest p.
Proof.
  pose proof (body_not_root p) as H1. pose proof (body_not_root (drop 1 p)) as H2.
  assert (forall s, RootDir ∉ body s -> match last (body s) with None | Some RootDir => True | _ => False end <-> body s = []) as Hb.
  { intros s Hs. destruct (last (body s)) as [x|] eqn:Hl; [|by apply last_None in Hl as ->].
    assert (x ∈ body s) as Hin by (apply last_Some in Hl as [l ->]; set_solver).
    destruct x; [done|..]; (split; [done|]; intros He; by rewrite He in Hl). }
  unfold comps, lowest. destruct (has_root_str p); [|destruct (dot_start p)].
  - specialize (Hb _ H2). destruct (body (drop 1 p)) as [|x l] eqn:Hd; [done|].
    change (last (RootDir :: x :: l)) with (last (x :: l)). rewrite Hb. done.
  - specialize (Hb _ H2). destruct (body (drop 1 p)) as [|x l] eqn:Hd; [done|].
    change (last (CurDir :: x :: l)) with (last (x :: l)). rewrite Hb. done.
  - rewrite (Hb _ H1). by destruct (body p).
Qed.

Lemma parent_cases p : Forall ascii p ->
  if decide (length (comps p) = lowest p) then parent p = Ret None
  else exists q, parent p = Ret (Some q) /\ Forall ascii q /\ comps q = removelast (comps p) /\ lowest q = lowest p.
Proof.
  intros Hp. pose proof (parent_spec p Hp) as Hs. pose proof (last_comps_root p) as Hl.
  assert (Hgo : (exists q w, parent p = Ret (Some q) /\ p = q ++ w /\ Forall ascii q /\ comps q = removelast (comps p)) ->
    exists q, parent p = Ret (Some q) /\ Forall ascii q /\ comps q = removelast (comps p) /\ lowest q = lowest p \/
      (length (comps p) = lowest p)).
  { intros (q & w & Hq & Hpq & Ha & Hc). exists q. destruct (decide (length (comps p) = lowest p)); [by right|left].
    split_and!; [done..|]. unfold lowest. destruct q as [|b q]; [|by rewrite Hpq].
    rewrite Hpq in *. cbn [app] in *. cbn. destruct (has_root_str w) eqn:Hr; [|done]. exfalso.
    revert n Hc. unfold lowest, comps. rewrite Hr. cbn. by destruct (body (drop 1 w)). }
  destruct (decide (length (comps p) = lowest p)) as [He|Hne].
  - apply Hl in He. by destruct (last (comps p)) as [[]|].
  - destruct (last (comps p)) as [[]|]; try (by destruct Hne; apply Hl).
    all: destruct (Hgo Hs) as (q & [? | ?]); [by exists q|done].
Qed.

Lemma removelast_take {A} (l : list A) : removelast l = take (length l - 1) l.
Proof.
  induction l as [|x l IH]; [done|]. destruct l as [|y l]; [done|].
  change (removelast (x :: y :: l)) with (x :: removelast (y :: l)). rewrite IH. cbn.
  by rewrite Nat.sub_0_r.
Qed.

Lemma ancestors_next_eq p o : parent p = Ret o -> ancestors_next (Some p) = Ret (Some p, o).
Proof. intros Ho. unfold ancestors_next, mbind, ST_bind, get, put, lift. by rewrite Ho. Qed.

Lemma ancestors_loop_spec fuel p n : Forall ascii p -> length (comps p) = (lowest p + n)%nat -> (S n < fuel)%nat ->
  exists l, ancestors_loop fuel (Some p) = Ret l /\
    comps <$> l = (fun k => take k (comps p)) <$> reverse (seq (lowest p) (S n)).
Proof.
  revert p n. induction fuel as [|fuel IH]; intros p n Hp Hlen Hfuel; [lia|].
  pose proof (parent_cases p Hp) as Hpar. cbn [ancestors_loop].
  destruct (decide _) as [He|Hne].
  - rewrite (ancestors_next_eq _ _ Hpar). cbn [mbind outcome_bind]. assert (n = 0)%nat as -> by lia.
    destruct fuel; [lia|]. exists [p]. split; [done|]. cbn. rewrite take_ge by lia. done.
  - destruct Hpar as (q & Hq & Ha & Hc & Hlow). rewrite (ancestors_next_eq _ _ Hq). destruct n as [|n]; [lia|].
    rewrite removelast_take in Hc.
    destruct (IH q n Ha) as (l & Hl & Hmap); [rewrite Hc, length_take, Hlow; lia|lia|].
    cbn [mbind outcome_bind]. rewrite Hl. exists (p :: l). split; [done|].
    rewrite seq_S, reverse_snoc, !fmap_cons, Hmap, Hlow, Hc. f_equal; [by rewrite take_ge by lia|].
    apply list_fmap_ext. intros i k Hk. rewrite take_take. f_equal.
    apply list_elem_of_lookup_2 in Hk. rewrite elem_of_reverse, elem_of_seq in Hk. lia.
Qed.

(** Iterating the ancestors of a path ends: it gives the path, then its
    parents one component shorter each time, down to the root of an absolute
    path or the empty relative path. *)
Theorem ancestors_terminate (p : bytes) : Forall ascii p ->
  exists l, ancestors p = Ret l /\
    comps <$> l = (fun k => take k (comps p)) <$> reverse (seq (lowest p) (S (length (comps p) - lowest p))).
Proof.
  intros Hp. pose proof (lowest_comps p). pose proof (comps_length p).
  apply ancestors_loop_spec; [done|lia|]. lia.
Qed.

(** ** Multi-byte characters

    [parse_next_component] counts characters up to the separator and slices
    that many bytes. *)
Definition starts_char (s : bytes) : Prop :=
  match s with b :: _ => is_continuation b = false | [] => True end.

Lemma chars_cons b s : exists g gs, chars (b :: s) = (b :: g) :: gs.
Proof. cbn. repeat case_match; eauto. Qed.

Lemma chars_app w s : w <> [] -> starts_char s -> chars (w ++ s) = chars w ++ chars s.
Proof.
  intros Hw Hs. induction w as [|b w IH]; [done|]. clear Hw. destruct w as [|b' w].
  - cbn. destruct s as [|c s]; [done|]. destruct (chars_cons c s) as (g & gs & ->). cbn in Hs. by rewrite Hs.
  - specialize (IH ltac:(done)). destruct (chars_cons b' w) as (g & gs & Hg).
    change (chars (b :: b' :: w)) with (match chars (b' :: w) with
      | (b' :: g) :: gs => if is_continuation b' then (b :: b' :: g) :: gs else [b] :: (b' :: g) :: gs
      | _ => [[b]] end).
    cbn [app]. change (chars (b :: b' :: w ++ s)) with (match chars ((b' :: w) ++ s) with
      | (b' :: g) :: gs => if is_continuation b' then (b :: b' :: g) :: gs else [b] :: (b' :: g) :: gs
      | _ => [[b]] end).
    rewrite IH, Hg. cbn. by destruct (is_continuation b').
Qed.

Lemma chars_concat s : concat (chars s) = s.
Proof.
  induction s as [|b s IH]; [done|]. cbn. destruct (chars s) as [|[|b' g] gs] eqn:Hs.
  - destruct s; [done|]. destruct (chars_cons z s) as (? & ? & ?). congruence.
  - destruct s; [done|]. destruct (chars_cons z s) as (? & ? & ?). congruence.
  - rewrite <- IH. by destruct (is_continuation b').
Qed.

Lemma chars_count w : starts_char w ->
  (length (chars w) + length (filter (fun b => is_continuation b = true) w) = length w)%nat.
Proof.
  induction w as [|b w IH]; [done|]. intros Hb. cbn in Hb. rewrite filter_cons_False by (by rewrite Hb). cbn [length].
  clear Hb. cut (length (chars (b :: w)) + length (filter (fun b => is_continuation b = true) w) = S (length w))%nat; [done|].
  clear IH. revert b. induction w as [|b' w IH]; intros b; [done|]. specialize (IH b').
  destruct (chars_cons b' w) as (g & gs & Hg).
  change (chars (b :: b' :: w)) with (match chars (b' :: w) with
    | (b' :: g) :: gs => if is_continuation b' then (b :: b' :: g) :: gs else [b] :: (b' :: g) :: gs
    | _ => [[b]] end).
  rewrite Hg in *. cbn [length] in *. rewrite filter_cons.
  destruct (is_continuation b') eqn:Hb'; [rewrite decide_True by done|rewrite decide_False by done]; cbn [length] in *; lia.
Qed.

Lemma chars_free w g : sep_free w -> g ∈ chars w -> is_separator g = false.
Proof.
  intros Hf Hg. unfold is_separator. apply bool_decide_eq_false. intros ->. apply Hf.
  rewrite <- (chars_concat w). apply list_elem_of_In, in_concat. exists [SEPARATOR].
  split; [by apply list_elem_of_In|by left].
Qed.

Lemma position_skip {A} (f : A -> bool) l x r : Forall (fun y => f y = false) l -> f x = true ->
  position f (l ++ x :: r) = Some (length l).
Proof. induction 1 as [|y l Hy _ IH]; intros Hx; cbn; [by rewrite Hx|]. by rewrite Hy, IH. Qed.

Section multibyte.
Context (w rest : bytes).
Hypothesis Hfree : sep_free w.
Hypothesis Hmulti : Exists (fun b => is_continuation b = true) w.
Hypothesis Hw : starts_char w.
Hypothesis Hrest : starts_char rest.
Local Notation p := (w ++ SEPARATOR :: rest).

Lemma multi_ne : w <> [].
Proof. intros ->. by apply Exists_nil in Hmulti. Qed.

Lemma multi_chars : exists r, chars p = chars w ++ [SEPARATOR] :: r.
Proof.
  exists (chars rest). rewrite chars_app by (done || apply multi_ne). f_equal.
  exact (chars_app [SEPARATOR] rest ltac:(done) Hrest).
Qed.

Lemma multi_count : (0 < length (chars w) < length w)%nat.
Proof.
  pose proof (chars_count w Hw) as Hc. pose proof multi_ne as Hne. split.
  - destruct w as [|b v]; [done|]. destruct (chars_cons b v) as (g & gs & ->). cbn. lia.
  - cut (0 < length (filter (fun b => is_continuation b = true) w))%nat; [lia|].
    apply Exists_exists in Hmulti as (b & Hin & Hb).
    assert (b ∈ filter (fun b => is_continuation b = true) w) as Hf by (by apply list_elem_of_filter).
    destruct (filter _ w); [by apply elem_of_nil in Hf|cbn; lia].
Qed.

Lemma multi_no_cur : include_cur_dir (mkComponents p false StartDir Body) = false.
Proof.
  unfold include_cur_dir. cbn [has_root path]. destruct multi_chars as [r ->]. pose proof (chars_concat w) as Hcat.
  pose proof multi_count as Hcount. destruct (chars w) as [|g [|g2 gs]] eqn:Hc; cbn [app]; [cbn in Hcount; lia|..].
  - case_bool_decide; [|done]. subst g. cbn in Hcat. rewrite <- Hcat in Hcount. cbn in Hcount. lia.
  - rewrite (chars_free w g2 Hfree) by (rewrite Hc; set_solver). by rewrite andb_false_r.
Qed.

Lemma multi_position : position is_separator (chars p) = Some (length (chars w)).
Proof.
  destruct multi_chars as [r ->]. apply position_skip; [|done].
  apply Forall_forall. intros g Hg. by eapply chars_free.
Qed.

Lemma multi_boundary : length (chars w) = 1%nat -> is_char_boundary p 1 = false.
Proof.
  intros Hk. pose proof multi_count as Hcount. pose proof (chars_count w Hw) as Hc.
  unfold is_char_boundary. destruct w as [|b [|b' v]]; [cbn in *; lia..|].
  destruct (chars_cons b' v) as (g & gs & Hg).
  change (chars (b :: b' :: v)) with (match chars (b' :: v) with
    | (b' :: g) :: gs => if is_continuation b' then (b :: b' :: g) :: gs else [b] :: (b' :: g) :: gs
    | _ => [[b]] end) in Hk.
  rewrite Hg in Hk. cbn. destruct (is_continuation b'); [done|]. cbn in Hk. lia.
Qed.

(** A component with a multi-byte character that is followed by a separator
    is never parsed as itself: the iterator either panics or yields a shorter
    component, so no such path can be resolved. *)
Theorem multibyte_component_never_found (x : option Component) (c' : Components) :
  next (components p) = Ret (x, c') -> x <> Some (Normal w).
Proof.
  pose proof multi_count as Hk. pose proof multi_ne as Hne.
  assert (has_root_str p = false) as Hroot.
  { destruct w as [|b v]; [done|]. cbn. apply Z.eqb_neq. by apply sep_free_cons in Hfree as [? _]. }
  unfold next, components. rewrite Hroot. unfold mbind at 1, ST_bind at 1, get. cbn [path].
  replace (length p + 5)%nat with (S (S (S (length p + 2)))) by lia.
  cbn [next_loop]. unfold mbind, ST_bind, get, modify. cbn [finished front back has_root state_eqb state_lt rank Nat.eqb Nat.ltb Nat.leb orb set_front].
  unfold set_front at 1. cbn [path has_root front back]. rewrite multi_no_cur. unfold set_front. cbn [front back has_root path rank Nat.eqb Nat.ltb Nat.leb orb finished state_eqb state_lt].
  rewrite bool_decide_eq_false_2 by (by destruct w). cbn [negb].
  unfold parse_next_component. cbn [front state_eqb rank Nat.eqb assert_that mbind outcome_bind path].
  rewrite multi_position. unfold slice_to. destruct (is_char_boundary p (length (chars w))) eqn:Hb; [|done].
  cbn [mbind outcome_bind lift]. unfold drop_front, mbind, ST_bind, get, modify, lift. cbn [path].
  destruct (slice_from p _) as [q| |]; [|done..].
  assert (length (take (length (chars w)) p) = length (chars w)) as Hl.
  { rewrite length_take, length_app. lia. }
  unfold parse_single_component. case_bool_decide as Hd.
  - exfalso. rewrite Hd in Hl. cbn in Hl. rewrite <- Hl, multi_boundary in Hb; done.
  - case_bool_decide; [cbn; by intros [= <- _]|]. case_bool_decide as Hnil; [rewrite Hnil in Hl; cbn in Hl; lia|].
    cbn. intros [= <- _]. intros [= He]. rewrite He in Hl. lia.
Qed.
End multibyte.

(** ** The queries together *)

(** What [parent], [file_name], [strip_prefix], [starts_with] and
    [ends_with] return, on every path: the components of the parent are all
    but the last, [None] exactly at a root or an empty path; prefixes and
    suffixes are those of the component lists; stripping a prefix leaves the
    components after it. *)
Theorem path_queries_correct (p b : bytes) : Forall ascii p -> Forall ascii b ->
  (match last (comps p) with
   | None | Some RootDir => parent p = Ret None
   | Some _ => exists q, parent p = Ret (Some q) /\ comps q = removelast (comps p)
   end) /\
  file_name p = Ret (match last (comps p) with Some (Normal n) => Some n | _ => None end) /\
  (exists r, strip_prefix p b = Ret r /\
     match r with Some q => comps p = comps b ++ comps q | None => ~ comps b `prefix_of` comps p end) /\
  starts_with p b = Ret (bool_decide (comps b `prefix_of` comps p)) /\
  ends_with p b = Ret (bool_decide (comps b `suffix_of` comps p)).
Proof.
  intros Hp Hb. split_and!.
  - pose proof (parent_spec p Hp) as Hs. destruct (last (comps p)) as [[]|]; [done| | | |done].
    all: destruct Hs as (q & w & ? & _ & _ & ?); by exists q.
  - by apply file_name_spec.
  - by apply strip_prefix_spec.
  - by apply starts_with_spec.
  - by apply ends_with_spec.
Qed.

(** [push] joins component lists: an absolute argument replaces the path, a
    relative one is appended, its leading [.] being dropped unless the path
    was empty. *)
Theorem path_push_joins (p q : bytes) : Forall ascii p ->
  exists r, push q p = Ret (tt, r) /\ join p q = Ret r /\
    comps r = if has_root_str q then comps q
              else if bool_decide (p = []) then comps q
              else comps p ++ strip_cur (comps q).
Proof.
  intros Hp. destruct (path_push_spec p q Hp) as (r & Hr & _ & Hc). exists r. split_and!; [done| |done].
  unfold join. by rewrite Hr.
Qed.

Module PathDemo.
From Stdlib Require Import String.
Local Open Scope string_scope.
Definition deep : bytes := of_string "/usr//share/./doc/../man/".
Definition usr : bytes := of_string "//usr".

Ltac ascii_tac := repeat constructor; unfold ascii; lia.

Lemma components_double_ended_witness :
  run_ops [Next; NextBack; NextBack; Next; Next; Next; Next] (components deep) =
  Ret [Some RootDir; Some (Normal (of_string "man")); Some ParentDir; Some (Normal (of_string "usr"));
       Some (Normal (of_string "share")); Some (Normal (of_string "doc")); None].
Proof. rewrite (components_double_ended deep) by ascii_tac. reflexivity. Defined.

Lemma path_queries_correct_witness :
  file_name deep = Ret (Some (of_string "man")) /\ starts_with deep usr = Ret true.
Proof.
  destruct (path_queries_correct deep usr ltac:(ascii_tac) ltac:(ascii_tac)) as (_ & Hf & _ & Hs & _).
  split; [exact Hf|exact Hs].
Defined.

Lemma path_push_joins_witness : exists r, push (of_string "./lib") usr = Ret (tt, r) /\
  comps r = [RootDir; Normal (of_string "usr"); Normal (of_string "lib")].
Proof.
  destruct (path_push_joins usr (of_string "./lib") ltac:(ascii_tac)) as (r & Hr & _ & Hc).
  exists r. split; [exact Hr|]. rewrite Hc. reflexivity.
Defined.

Lemma path_push_pop_witness : exists r q, push (of_string "lib") usr = Ret (tt, r) /\
  pop r = Ret (true, q) /\ path_eq q usr = Ret true.
Proof.
  destruct (path_push_pop usr (of_string "lib")) as (r & q & Hr & _ & _ & Hq & _ & He).
  - ascii_tac.
  - split; [ascii_tac| |reflexivity]. apply (bool_decide_unpack _). vm_compute. done.
  - exists r, q. auto.
Defined.

Lemma set_file_name_replaces_witness : exists r, set_file_name (of_string "lib") deep = Ret (tt, r) /\
  last (comps r) = Some (Normal (of_string "lib")).
Proof.
  destruct (set_file_name_replaces deep (of_string "lib")) as (r & Hr & Hc).
  - ascii_tac.
  - split; [ascii_tac| |reflexivity]. apply (bool_decide_unpack _). vm_compute. done.
  - exists r. split; [exact Hr|]. rewrite Hc. reflexivity.
Defined.

Lemma path_order_total_witness : path_eq usr (of_string "/usr/.") = Ret true.
Proof.
  destruct (path_order_total usr (of_string "/usr/.") deep) as (pq & _ & _ & _ & Hpq & _ & _ & _ & He & _).
  1-3: ascii_tac.
  rewrite He. vm_compute in Hpq. injection Hpq as <-. reflexivity.
Defined.

Lemma ancestors_terminate_witness : exists l, ancestors usr = Ret l /\
  comps <$> l = [[RootDir; Normal (of_string "usr")]; [RootDir]].
Proof.
  destruct (ancestors_terminate usr ltac:(ascii_tac)) as (l & Hl & Hc). exists l. split; [exact Hl|].
  rewrite Hc. reflexivity.
Defined.

(** two characters of one byte and one of three, then a separator: the first
    component is cut short; a single two-byte character makes the slice
    panic *)
Lemma multibyte_component_never_found_witness :
  let w := [230; 151; 165; 97; 97] in
  next (components (w ++ SEPARATOR :: [120])) <> Ret (Some (Normal w), mkComponents [120] false Body Body) /\
  next (components [195; 169; SEPARATOR; 120]) = Panic.
Proof.
  intros w. split; [|reflexivity]. intros Hn.
  apply (multibyte_component_never_found w [120]) in Hn; [done| | |reflexivity|reflexivity].
  - apply (bool_decide_unpack _). vm_compute. done.
  - apply Exists_cons_tl, Exists_cons_hd. reflexivity.
Defined.
End PathDemo.
