(* ===== verification/Mount.v ===== *)
(** * The mount table

    Models [kernel/src/fs/mapping.rs].  The nodes of the mapping tree are
    shared ([Arc]) and point back to their parents ([Weak]), so they live in a
    store and are named by identifiers; the operations thread the store
    together with the state [W] of the mounted file systems, which are reached
    through the [FileSystem] trait of [fs/mod.rs]. *)
From S2P Require Import Prelude UserLink FsTypes Path PathSpec PathUse.
Import Str Path.

(** ** [BTreeMap<Box<str>, V>]: entries in the order of their keys *)
Module BTree.
Section btree.
Context {V : Type}.
Implicit Types (m : list (bytes * V)).

Fixpoint get (k : bytes) m : option V :=
  match m with
  | [] => None
  | (k', v) :: m => if decide (k = k') then Some v else get k m
  end.
(** insertion of an absent key *)
Fixpoint insert (k : bytes) (v : V) m : list (bytes * V) :=
  match m with
  | [] => [(k, v)]
  | (k', v') :: m' =>
      match str_cmp k k' with
      | Lt => (k, v) :: m
      | Eq => (k, v) :: m'
      | Gt => (k', v') :: insert k v m'
      end
  end.
End btree.
End BTree.

(** ** The [FileSystem] trait

    [F] names a file system ([Arc<dyn FileSystem>]) and [W] is the state of
    all of them and of the devices; a handler given to [read_dir] is a
    function on the state [A] it captures. *)
Inductive DirTreverse : Type := Continue | Stop.

Class FileSystem (F W : Type) : Type := {
  fs_open_root : F -> ST W (result DirectoryNode FileSystemError);
  fs_read_dir : F -> DirectoryNode -> forall A : Type, (Node -> A -> outcome (A * DirTreverse)) -> A ->
    ST W (result unit FileSystemError * A);
  fs_treverse_dir : F -> DirectoryNode -> bytes -> ST W (result Node FileSystemError);
  fs_create_node : F -> DirectoryNode -> bytes -> FileAttributes -> ST W (result Node FileSystemError);
  (** the bytes read, and the new access helper *)
  fs_read_file : F -> FileNode -> Z -> Z -> AccessHelper -> ST W (result bytes FileSystemError * AccessHelper);
  (** the count written; the node and the helper are updated in place *)
  fs_write_file : F -> FileNode -> Z -> bytes -> AccessHelper ->
    ST W (result Z FileSystemError * FileNode * AccessHelper);
  fs_flush_file : F -> FileNode -> AccessHelper -> ST W (result unit FileSystemError * FileNode * AccessHelper);
  fs_close_file : F -> FileNode -> AccessHelper -> ST W (result unit FileSystemError);
  fs_set_file_size : F -> FileNode -> Z -> ST W (result unit FileSystemError * FileNode);
  fs_number_global_refs : F -> Z;
  fs_unmount : F -> ST W unit;
  (** [Arc::strong_count] of the handle *)
  fs_strong_count : F -> ST W Z;
  (** the [Device] trait, for the devices nodes refer to *)
  dev_read : nat -> Z -> Z -> ST W (result bytes FileSystemError);
  dev_write : nat -> Z -> bytes -> ST W (result Z FileSystemError);
  dev_set_size : nat -> Z -> ST W (result unit FileSystemError);
  dev_try_create : nat -> ST W (option (result nat FileSystemError));
  dev_clone_device : nat -> ST W (result unit FileSystemError)
}.

(** the default [treverse_dir], through [read_dir] *)
Definition treverse_dir_default {F W} `{FileSystem F W} (fs : F) (inode : DirectoryNode) (matcher : bytes)
    : ST W (result Node FileSystemError) :=
  '(r, entry) ← fs_read_dir fs inode (option Node)
      (fun inode entry => if bool_decide (node_name inode = matcher) then Ret (Some inode, Stop) else Ret (entry, Continue))
      None;
  mret (match r with
        | Err e => Err e
        | Ok _ => match entry with Some n => Ok n | None => Err FileNotFound end
        end).

Module Mount.
Section mount.
Context {F W : Type} `{FileSystem F W}.

(** what a node holds: [EmptyFileSystem] or another file system *)
Inductive dynfs : Type :=
| EmptyFileSystem
| Dyn (f : F).

Definition open_root (fs : dynfs) : ST W (result DirectoryNode FileSystemError) :=
  match fs with
  | EmptyFileSystem => mret (Err FileNotFound)
  | Dyn f => fs_open_root f
  end.

(** ** Nodes and the store *)
Record MappingNode : Type := mkNode {
  mn_filesystem : dynfs;
  mn_parent : option nat;
  mn_children : list (bytes * nat)
}.
Record FileSystemMapping : Type := mkMapping {
  nodes : gmap nat MappingNode;
  next_id : nat;
  root : nat
}.

(** the mapping, initialised on the first mount, and the file systems *)
Record Vfs : Type := mkVfs { vmapping : option FileSystemMapping; world : W }.
Definition on_world {A} (m : ST W A) : ST Vfs A := fun s =>
  match m (world s) with
  | Ret (a, w) => Ret (a, mkVfs (vmapping s) w)
  | Panic => Panic
  | Diverge => Diverge
  end.
Definition set_mapping (m : FileSystemMapping) (s : Vfs) : Vfs := mkVfs (Some m) (world s).

(** dereferencing an [Arc<MappingNode>] *)
Definition node (m : FileSystemMapping) (id : nat) : outcome MappingNode := unwrap (nodes m !! id).
Definition set_node (id : nat) (n : MappingNode) (m : FileSystemMapping) : FileSystemMapping :=
  mkMapping (<[id := n]> (nodes m)) (next_id m) (root m).

Definition try_find_child (m : FileSystemMapping) (id : nat) (name : bytes) : outcome (option nat) :=
  n ← node m id; Ret (BTree.get name (mn_children n)).
Definition filesystem (m : FileSystemMapping) (id : nat) : outcome dynfs := n ← node m id; Ret (mn_filesystem n).
(** [Weak::upgrade] *)
Definition parent (m : FileSystemMapping) (id : nat) : outcome (option nat) :=
  n ← node m id;
  Ret (match mn_parent n with
       | Some p => match nodes m !! p with Some _ => Some p | None => None end
       | None => None
       end).

(** [FileSystemMapping::empty_root] *)
Definition empty_root : FileSystemMapping := mkMapping {[ 0%nat := mkNode EmptyFileSystem None [] ]} 1 0.

(** [OnceLock::get]: panics before the first mount *)
Definition get_mapping_lock : ST Vfs FileSystemMapping := s ← get; lift (unwrap (vmapping s)).
(** [OnceLock::get_or_init] *)
Definition get_or_init : ST Vfs FileSystemMapping :=
  s ← get;
  match vmapping s with
  | Some m => mret m
  | None => _ ← put (set_mapping empty_root s); mret empty_root
  end.

Definition set_root (m : FileSystemMapping) (fs : dynfs) : ST Vfs (result unit MappingError) :=
  n ← lift (node m (root m));
  r ← on_world (open_root (mn_filesystem n));
  match r with
  | Err FileNotFound =>
      _ ← modify (set_mapping (set_node (root m) (mkNode fs (mn_parent n) (mn_children n)) m));
      mret (Ok tt)
  | _ => mret (Err AlreadyMounted)
  end.

(** ** [get_mapping]: walk down while a child is mounted *)
Fixpoint get_mapping_loop (fuel : nat) (m : FileSystemMapping) (current : nat) (mapping_path : bytes)
    (comps : Components) : outcome (bytes * bytes * nat) :=
  match fuel with
  | O => Diverge
  | S fuel =>
      let stop := rest ← as_path comps; Ret (mapping_path, rest, current) in
      component ← peek comps;
      match component with
      | Some (Normal name) =>
          child ← try_find_child m current name;
          match child with
          | Some child =>
              '(_, mapping_path) ← push name mapping_path;
              '(_, comps) ← next comps;
              get_mapping_loop fuel m child mapping_path comps
          | None => stop
          end
      | _ => stop
      end
  end.

Definition get_mapping (m : FileSystemMapping) (path : bytes) : outcome (result (bytes * bytes * nat) FileSystemError) :=
  '(c, comps) ← next (components path);
  if decide (c = Some RootDir) then
    r ← get_mapping_loop (length path + 3) m (root m) [SEPARATOR] comps;
    Ret (Ok r)
  else Ret (Err MustBeAbsolute).

(** ** [mount] *)
Definition is_normal (c : Component) : bool := match c with Normal _ => true | _ => false end.

(** the loop over the enumerated components; [size] counts them *)
Fixpoint mount_loop (size i : nat) (l : list Component) (current : nat) (fs : dynfs) (m : FileSystemMapping)
    : outcome (result unit MappingError * FileSystemMapping) :=
  match l with
  | [] => Panic
  | Normal name :: l =>
      let is_last := (i =? size - 1)%nat in
      n ← node m current;
      match BTree.get name (mn_children n) with
      | None =>
          if is_last then
            let id := next_id m in
            let m := mkMapping (<[id := mkNode fs (Some current) []]> (nodes m)) (S id) (root m) in
            Ret (Ok tt, set_node current (mkNode (mn_filesystem n) (mn_parent n) (BTree.insert name id (mn_children n))) m)
          else Ret (Err PartOfParentNotMounted, m)
      | Some child =>
          if is_last then Ret (Err AlreadyMounted, m)
          else mount_loop size (S i) l child fs m
      end
  | _ :: _ => Panic
  end.

(** [FileSystemMapping::mount] *)
Definition mount_at (arg : bytes) (fs : dynfs) (m : FileSystemMapping)
    : outcome (result unit MappingError * FileSystemMapping) :=
  '(c, comps) ← next (components arg);
  if decide (c = Some RootDir) then
    l ← collect comps;
    if existsb (fun c => negb (is_normal c)) l then Ret (Err MapInvalidPath, m)
    else mount_loop (length l) 0 l (root m) fs m
  else Ret (Err MapMustBeAbsolute, m).

(** [mapping::mount] *)
Definition mount (arg : bytes) (fs : dynfs) : ST Vfs (result unit MappingError) :=
  m ← get_or_init;
  if bool_decide (arg = [SEPARATOR]) then set_root m fs
  else '(r, m) ← lift (mount_at arg fs m);
       _ ← modify (set_mapping m);
       mret r.

(** ** Visiting the tree; fuel bounds its depth *)
Fixpoint treverse (fuel : nat) (m : FileSystemMapping) (id : nat) (current_path : bytes)
    : outcome (list (bytes * dynfs)) :=
  match fuel with
  | O => Diverge
  | S fuel =>
      n ← node m id;
      rest ← foldr (fun (c : bytes * nat) (k : outcome (list (bytes * dynfs))) =>
                      p ← join current_path c.1;
                      l ← treverse fuel m c.2 p; l' ← k; Ret (l ++ l'))
                   (Ret []) (mn_children n);
      Ret ((current_path, mn_filesystem n) :: rest)
  end.

Fixpoint check_and_treverse (fuel : nat) (m : FileSystemMapping) (id : nat) (target : bytes) (this_component : Component)
    : outcome (list (bytes * dynfs)) :=
  match fuel with
  | O => Diverge
  | S fuel =>
      '(c, comps) ← next (components target);
      if decide (c = Some this_component) then
        p ← peek comps;
        n ← node m id;
        match p with
        | None =>
            foldr (fun (c : bytes * nat) (k : outcome (list (bytes * dynfs))) =>
                     l ← treverse fuel m c.2 c.1; l' ← k; Ret (l ++ l'))
                  (Ret []) (mn_children n)
        | Some _ =>
            foldr (fun (c : bytes * nat) (k : outcome (list (bytes * dynfs))) =>
                     rest ← as_path comps;
                     l ← check_and_treverse fuel m c.2 rest (Normal c.1); l' ← k; Ret (l ++ l'))
                  (Ret []) (mn_children n)
        end
      else Ret []
  end.

(** the calls of the handler, in order *)
Definition on_all_matching_mappings (m : FileSystemMapping) (path : bytes) : outcome (list (bytes * dynfs)) :=
  check_and_treverse (S (size (nodes m))) m (root m) path RootDir.

(** ** [unmount_all]: children first, then the node itself *)
Definition unmount_fs (fs : dynfs) : ST Vfs unit :=
  match fs with
  | EmptyFileSystem => mret tt
  | Dyn f =>
      n ← on_world (fs_strong_count f);
      _ ← lift (assert_that (n =? fs_number_global_refs f + 1));
      on_world (fs_unmount f)
  end.

Definition with_node (id : nat) (f : MappingNode -> MappingNode) : ST Vfs unit :=
  m ← get_mapping_lock;
  n ← lift (node m id);
  modify (set_mapping (set_node id (f n) m)).

Fixpoint unmount_node (fuel : nat) (id : nat) : ST Vfs unit :=
  match fuel with
  | O => diverge
  | S fuel =>
      m ← get_mapping_lock;
      n ← lift (node m id);
      (* [while let Some((name, node)) = children.pop_first()] *)
      _ ← (fix children (l : list (bytes * nat)) : ST Vfs unit :=
             match l with
             | [] => mret tt
             | (name, child) :: l =>
                 _ ← with_node id (fun n => mkNode (mn_filesystem n) (mn_parent n) l);
                 _ ← unmount_node fuel child;
                 children l
             end) (mn_children n);
      m ← get_mapping_lock;
      n ← lift (node m id);
      _ ← modify (set_mapping (set_node id (mkNode EmptyFileSystem (mn_parent n) (mn_children n)) m));
      unmount_fs (mn_filesystem n)
  end.
Definition unmount_all : ST Vfs unit :=
  m ← get_mapping_lock; unmount_node (S (size (nodes m))) (root m).

End mount.
End Mount.
