(* ===== verification/MountSpec.v ===== *)
(** * The mount table against a map of mount points

    The abstract state of the mount table is a partial map from lists of
    names to file systems, [view]; [mount] is its update at one point,
    [get_mapping] finds the longest mounted prefix of a path, and [parent]
    goes back one name. *)
From S2P Require Import Prelude UserLink FsTypes Path PathSpec PathUse Mount.
Import Str Path.

(** ** Names in paths *)
Lemma split_sep_pieces s w : w ∈ split_sep s -> sep_free w /\ (Forall ascii s -> Forall ascii w).
Proof.
  revert w. induction s as [|b s IH]; intros w; cbn.
  - rewrite list_elem_of_singleton. intros ->. split; [by intros ?%elem_of_nil|done].
  - destruct (is_separator_byte b) eqn:Hb.
    + rewrite elem_of_cons. intros [-> | Hw]; [split; [by intros ?%elem_of_nil|done]|].
      destruct (IH w Hw) as [Hf Ha]. split; [done|]. intros [_ ?]%Forall_cons; auto.
    + apply sep_byte_false in Hb. destruct (split_sep s) as [|p ps] eqn:Hs.
      * rewrite list_elem_of_singleton. intros ->. split; [by apply sep_free_cons; split; [|intros ?%elem_of_nil]|].
        intros [? _]%Forall_cons. by constructor.
      * rewrite elem_of_cons. intros [-> | Hw].
        -- destruct (IH p (list_elem_of_here _ _)) as [Hf Ha]. split; [by apply sep_free_cons|].
           intros [? ?]%Forall_cons. constructor; auto.
        -- destruct (IH w (list_elem_of_further _ _ _ Hw)) as [Hf Ha]. split; [done|]. intros [_ ?]%Forall_cons; auto.
Qed.

Lemma body_normal s n : Forall ascii s -> Normal n ∈ body s -> is_name n.
Proof.
  intros Hs. unfold body. rewrite list_elem_of_omap. intros (w & Hw & Hp).
  destruct (split_sep_pieces s w Hw) as [Hf Ha].
  assert (w = n) as ->. { unfold parse_single_component in Hp. repeat case_bool_decide; by simplify_eq. }
  constructor; [by apply Ha|done|done].
Qed.

Lemma comps_normal p n : Forall ascii p -> Normal n ∈ comps p -> is_name n.
Proof.
  intros Hp. unfold comps. repeat case_match; rewrite ?elem_of_cons.
  - intros [?|Hn]; [done|]. eapply body_normal; [|exact Hn]. by apply ascii_drop.
  - intros [?|Hn]; [done|]. eapply body_normal; [|exact Hn]. by apply ascii_drop.
  - by apply body_normal.
Qed.

(** a path that starts at the root *)
Lemma head_root p : head (comps p) = Some RootDir <-> has_root_str p = true.
Proof.
  unfold comps. pose proof (body_not_root p) as Hb.
  destruct (has_root_str p); [done|]. destruct (dot_start p); [done|].
  split; [|done]. destruct (body p) as [|x l]; [done|]. cbn. intros [= ->]. destruct Hb. by left.
Qed.

(** ** Sorted children *)
Module BTreeLaws.
Import BTree.
Section laws.
Context {V : Type}.
Implicit Types (m : list (bytes * V)).

Inductive sorted : list (bytes * V) -> Prop :=
| sorted_nil : sorted []
| sorted_cons k v m : Forall (fun e => str_cmp k e.1 = Lt) m -> sorted m -> sorted ((k, v) :: m).

Lemma cmp_laws : total_cmp str_cmp.
Proof.
  destruct (total_lex _ total_Z) as [He Ho Ht]. constructor; intros *; rewrite !str_cmp_lex; [apply He|apply Ho|apply Ht].
Qed.

Lemma get_above k m : Forall (fun e => str_cmp k e.1 = Lt) m -> get k m = None.
Proof.
  induction 1 as [|[k' v] m Hk _ IH]; [done|]. cbn in *. case_decide; [|done]. subst.
  by rewrite (proj2 (cmp_eq _ cmp_laws k' k') eq_refl) in Hk.
Qed.

Lemma get_insert k v m k' : sorted m -> get k' (insert k v m) = if decide (k' = k) then Some v else get k' m.
Proof.
  induction 1 as [|k0 v0 m Hall Hm IH]; cbn; [done|].
  destruct (str_cmp k k0) eqn:Hc; cbn.
  - apply (cmp_eq _ cmp_laws) in Hc as ->. repeat case_decide; by simplify_eq.
  - repeat case_decide; by simplify_eq.
  - rewrite IH. repeat case_decide; simplify_eq; [|done..].
    by rewrite (proj2 (cmp_eq _ cmp_laws k0 k0) eq_refl) in Hc.
Qed.

Lemma insert_sorted k v m : sorted m -> get k m = None -> sorted (insert k v m).
Proof.
  destruct cmp_laws as [He Ho Ht].
  induction 1 as [|k0 v0 m Hall Hm IH]; cbn; [by repeat constructor|].
  case_decide as Hk; [done|]. intros Hg. destruct (str_cmp k k0) eqn:Hc.
  - by apply He in Hc.
  - constructor; [|by constructor]. constructor; [done|]. eapply Forall_impl; [exact Hall|].
    intros e. by apply Ht.
  - constructor; [|by apply IH]. clear IH Hm Hg.
    assert (str_cmp k0 k = Lt) as Hlt by (by rewrite (Ho k k0), Hc).
    induction Hall as [|[k1 v1] m H1 Hm1 IH]; cbn; [by repeat constructor|].
    destruct (str_cmp k k1); by repeat constructor.
Qed.
End laws.
End BTreeLaws.
Import BTreeLaws.

Module MountSpec.
Import Mount.
Section spec.
Context {F W : Type} `{FileSystem F W}.
Implicit Types (m : FileSystemMapping (F := F)) (id : nat) (ns : list bytes).

(** the child of a node, and the node under a list of names *)
Definition child m id k : option nat := n ← nodes m !! id; BTree.get k (mn_children n).
Fixpoint walk m id ns : option nat :=
  match ns with [] => Some id | k :: ns => c ← child m id k; walk m c ns end.

Record wf_map m : Prop := {
  wm_root : exists n, nodes m !! root m = Some n /\ mn_parent n = None;
  wm_fresh : forall id n, nodes m !! id = Some n -> (id < next_id m)%nat;
  wm_sorted : forall id n, nodes m !! id = Some n -> sorted (mn_children n);
  wm_child : forall id k c, child m id k = Some c -> exists n, nodes m !! c = Some n /\ mn_parent n = Some id;
  wm_inj : forall id k1 k2 c, child m id k1 = Some c -> child m id k2 = Some c -> k1 = k2
}.

(** the mount points *)
Definition view m ns : option (dynfs (F := F)) := id ← walk m (root m) ns; n ← nodes m !! id; Some (mn_filesystem n).

Lemma walk_snoc m id ns k : walk m id (ns ++ [k]) = c ← walk m id ns; child m c k.
Proof.
  revert id. induction ns as [|k0 ns IH]; intros id; cbn; [by destruct (child m id k)|].
  destruct (child m id k0); cbn; [apply IH|done].
Qed.

Lemma walk_node m ns id : wf_map m -> walk m (root m) ns = Some id -> exists n, nodes m !! id = Some n.
Proof.
  intros Hwf. destruct ns as [|k ns _] using rev_ind; [intros [= <-]; destruct (wm_root m Hwf) as (n & ? & _); by exists n|].
  rewrite walk_snoc. destruct (walk m (root m) ns) as [c|]; [|done]. cbn. intros (n & ? & _)%(wm_child m Hwf). by exists n.
Qed.

Lemma walk_inj m ns1 ns2 id : wf_map m ->
  walk m (root m) ns1 = Some id -> walk m (root m) ns2 = Some id -> ns1 = ns2.
Proof.
  intros Hwf. destruct (wm_root m Hwf) as (nr & Hnr & Hpr).
  assert (Hroot : forall ns k, walk m (root m) (ns ++ [k]) <> Some (root m)).
  { intros ns k. rewrite walk_snoc. destruct (walk m (root m) ns) as [c|]; [|done]. cbn.
    intros (n & ? & ?)%(wm_child m Hwf). congruence. }
  revert ns2 id. induction ns1 as [|k1 ns1 IH] using rev_ind; intros ns2 id.
  - intros [= <-]. destruct ns2 as [|k2 ns2 _] using rev_ind; [done|]. by intros ?%Hroot.
  - destruct ns2 as [|k2 ns2 _] using rev_ind; [intros H1 [= <-]; by apply Hroot in H1|].
    rewrite !walk_snoc. destruct (walk m (root m) ns1) as [c1|] eqn:H1; [|done].
    destruct (walk m (root m) ns2) as [c2|] eqn:H2; [|done]. cbn. intros Hc1 Hc2.
    destruct (wm_child m Hwf _ _ _ Hc1) as (n & Hn & Hp1). destruct (wm_child m Hwf _ _ _ Hc2) as (n' & Hn' & Hp2).
    assert (c1 = c2) as -> by congruence.
    rewrite (IH ns2 c2 eq_refl H2). by rewrite (wm_inj m Hwf _ _ _ _ Hc1 Hc2).
Qed.

Lemma parent_walk m ns k id : wf_map m -> walk m (root m) (ns ++ [k]) = Some id ->
  exists p, walk m (root m) ns = Some p /\ parent m id = Ret (Some p).
Proof.
  intros Hwf. rewrite walk_snoc. destruct (walk m (root m) ns) as [p|] eqn:Hp; [|done]. cbn. intros Hc.
  exists p. split; [done|]. destruct (wm_child m Hwf _ _ _ Hc) as (n & Hn & Hpar).
  destruct (walk_node m ns p Hwf Hp) as (np & Hnp).
  unfold parent, node. rewrite Hn. cbn. by rewrite Hpar, Hnp.
Qed.

Lemma parent_root m : wf_map m -> parent m (root m) = Ret None.
Proof. intros Hwf. destruct (wm_root m Hwf) as (n & Hn & Hp). unfold parent, node. rewrite Hn. cbn. by rewrite Hp. Qed.

Lemma try_find_child_eq m id k n : nodes m !! id = Some n -> try_find_child m id k = Ret (child m id k).
Proof. intros Hn. unfold try_find_child, node, child. by rewrite Hn. Qed.

(** ** [get_mapping] *)
(** the result of a lookup: the longest mounted prefix and what is left *)
Record resolved m (l : list Component) ns (mp rest : bytes) (id : nat) : Prop := {
  rs_rest : l = (Normal <$> ns) ++ comps rest;
  rs_ascii : Forall ascii rest;
  rs_relative : has_root_str rest = false;
  rs_mpath : comps mp = RootDir :: (Normal <$> ns);
  rs_mascii : Forall ascii mp;
  rs_walk : walk m (root m) ns = Some id;
  rs_longest : forall k, head (comps rest) = Some (Normal k) -> walk m (root m) (ns ++ [k]) = None
}.

Lemma get_mapping_loop_spec fuel m current ns mp c l :
  wf_map m -> wf c -> front c = Body -> back c = Body ->
  Forall ascii mp -> comps mp = RootDir :: (Normal <$> ns) -> walk m (root m) ns = Some current ->
  l = (Normal <$> ns) ++ remaining c -> (forall n, Normal n ∈ remaining c -> is_name n) ->
  (length (remaining c) < fuel)%nat ->
  exists ns' mp' rest id, get_mapping_loop fuel m current mp c = Ret (mp', rest, id) /\ resolved m l ns' mp' rest id.
Proof.
  intros Hwm. revert current ns mp c. induction fuel as [|fuel IH]; intros current ns mp c Hwf Hf Hb Hmp Hcomps Hwalk Hl Hnames Hfuel; [lia|].
  destruct (as_path_body c Hwf Hf Hb) as (rest & Hrest & Hcr & Har & Hrr).
  assert (Hstop : (forall k, head (remaining c) = Some (Normal k) -> child m current k = None) ->
    exists ns' mp' rest' id, (rest ← as_path c; Ret (mp, rest, current)) = Ret (mp', rest', id) /\ resolved m l ns' mp' rest' id).
  { intros Hlong. rewrite Hrest. eexists _, _, _, _. split; [done|]. constructor; [by rewrite Hcr|done..|].
    intros k. rewrite Hcr. intros Hk. rewrite walk_snoc, Hwalk. cbn. by apply Hlong. }
  cbn [get_mapping_loop]. unfold peek.
  destruct (next_spec c Hwf) as (c' & Hn & Hw' & Hr' & Hb' & _ & Hf'). rewrite Hn. cbn [mbind outcome_bind].
  destruct (remaining c) as [|x r] eqn:Hrem; cbn [head]; [by apply Hstop|].
  destruct x as [| | |name]; [by apply Hstop..|].
  destruct (walk_node m ns current Hwm Hwalk) as (nd & Hnd). rewrite (try_find_child_eq _ _ _ _ Hnd). cbn [mbind outcome_bind].
  destruct (child m current name) as [ch|] eqn:Hch; [|apply Hstop; by intros k [= <-]].
  assert (is_name name) as Hname by (apply Hnames; by left).
  destruct (push_name mp name Hmp Hname) as (mp2 & -> & Ha2 & Hc2). cbn [mbind outcome_bind].
  apply (IH ch (ns ++ [name]) mp2 c'); [done|by apply Hf'|congruence|done| | | | |].
  - rewrite Hc2, Hcomps, fmap_app. done.
  - by rewrite walk_snoc, Hwalk.
  - rewrite Hl, Hr', fmap_app, <- app_assoc. done.
  - intros n Hn'. apply Hnames. rewrite Hr' in Hn'. by right.
  - rewrite Hr'. cbn in *. lia.
Qed.

Lemma get_mapping_spec m p : wf_map m -> Forall ascii p ->
  match comps p with
  | RootDir :: l => exists ns mp rest id, get_mapping m p = Ret (Ok (mp, rest, id)) /\ resolved m l ns mp rest id
  | _ => get_mapping m p = Ret (Err MustBeAbsolute)
  end.
Proof.
  intros Hwm Hp. pose proof (wf_components p Hp) as Hwf. unfold get_mapping.
  destruct (next_spec _ Hwf) as (c' & -> & Hw' & Hr' & Hb' & _ & Hf'). cbn [mbind outcome_bind].
  rewrite remaining_components in *. pose proof (comps_length p) as Hlen.
  destruct (comps p) as [|x l] eqn:Hc; cbn [head]; [done|].
  case_decide as Hx; [injection Hx as -> | by destruct x].
  destruct (get_mapping_loop_spec (length p + 3) m (root m) [] [SEPARATOR] c' l) as (ns & mp & rest & id & -> & Hres);
    [done|done|by apply Hf'|done|by repeat constructor|done|done|by rewrite Hr'| |rewrite Hr'; cbn in *; lia|].
  - intros n Hn. rewrite Hr' in Hn. apply (comps_normal p n Hp). rewrite Hc. by right.
  - by exists ns, mp, rest, id.
Qed.

(** ** [mount] *)
(** the table with one more node under [par] *)
Definition added m (par : nat) (np : MappingNode) (k : bytes) (fs : dynfs (F := F)) : FileSystemMapping :=
  set_node par (mkNode (mn_filesystem np) (mn_parent np) (BTree.insert k (next_id m) (mn_children np)))
    (mkMapping (<[next_id m := mkNode fs (Some par) []]> (nodes m)) (S (next_id m)) (root m)).

Section adding.
Context m (pns : list bytes) (par : nat) (np : MappingNode (F := F)) (k : bytes) (fs : dynfs (F := F)).
Hypothesis Hwf : wf_map m.
Hypothesis Hpar : walk m (root m) pns = Some par.
Hypothesis Hnp : nodes m !! par = Some np.
Hypothesis Hfree : child m par k = None.
Local Notation m' := (added m par np k fs).
Local Notation new := (next_id m).

Lemma added_fresh : nodes m !! new = None /\ par <> new.
Proof.
  assert (nodes m !! new = None) as Hn.
  { destruct (nodes m !! new) eqn:Hn; [|done]. apply (wm_fresh m Hwf) in Hn. lia. }
  split; [done|]. intros ->. congruence.
Qed.

Lemma added_nodes id : nodes m' !! id =
  if decide (id = par) then Some (mkNode (mn_filesystem np) (mn_parent np) (BTree.insert k new (mn_children np)))
  else if decide (id = new) then Some (mkNode fs (Some par) []) else nodes m !! id.
Proof.
  unfold added, set_node. cbn [nodes]. repeat case_decide; subst; by simplify_map_eq.
Qed.

Lemma added_child id j : child m' id j =
  if decide (id = par) then (if decide (j = k) then Some new else child m par j)
  else if decide (id = new) then None else child m id j.
Proof.
  destruct added_fresh as [Hnew Hne]. unfold child. rewrite added_nodes. repeat case_decide; subst; cbn; try done.
  - rewrite get_insert by (by eapply wm_sorted). by rewrite decide_True.
  - rewrite get_insert by (by eapply wm_sorted). rewrite decide_False by done. by rewrite Hnp.
Qed.

Lemma added_walk ns : walk m' (root m) ns = if decide (ns = pns ++ [k]) then Some new else walk m (root m) ns.
Proof.
  destruct added_fresh as [Hnew Hne].
  assert (walk m (root m) (pns ++ [k]) = None) as Hnone by (by rewrite walk_snoc, Hpar).
  induction ns as [|j ns IH] using rev_ind.
  { case_decide as Hd; [by destruct pns|done]. }
  rewrite !walk_snoc, IH. case_decide as Hns.
  - subst ns. cbn. rewrite added_child, decide_False, decide_True by done. rewrite decide_False; [by rewrite Hnone|].
    intros Hd. apply (f_equal length) in Hd. rewrite !length_app in Hd. cbn in Hd. lia.
  - destruct (walk m (root m) ns) as [y|] eqn:Hy; cbn.
    + rewrite added_child. destruct (decide (y = par)) as [->|Hyp].
      * pose proof (walk_inj m ns pns par Hwf Hy Hpar) as ->. destruct (decide (j = k)) as [->|Hjk]; [by rewrite decide_True|].
        rewrite decide_False; [done|]. by intros [_ ?]%app_inj_tail.
      * rewrite (decide_False (P := y = new)).
        2: { intros ->. destruct (walk_node m ns new Hwf Hy) as (? & ?). congruence. }
        case_decide as Hd; [|done]. apply app_inj_tail in Hd as [-> _]. congruence.
    + case_decide as Hd; [|done]. apply app_inj_tail in Hd as [-> _]. congruence.
Qed.

Lemma added_wf : wf_map m'.
Proof.
  destruct added_fresh as [Hnew Hne]. constructor.
  - destruct (wm_root m Hwf) as (n & Hn & Hp). change (root m') with (root m). rewrite added_nodes.
    repeat case_decide; subst; [|congruence|by exists n]. eexists. split; [done|]. cbn. congruence.
  - intros id n. rewrite added_nodes. change (next_id m') with (S new).
    repeat case_decide; subst; [intros _; by apply Nat.lt_lt_succ_r, (wm_fresh m Hwf par np)|lia|].
    intros Hn%(wm_fresh m Hwf). lia.
  - intros id n. rewrite added_nodes. repeat case_decide; subst; [intros [= <-]|intros [= <-]|apply (wm_sorted m Hwf)]; cbn.
    + apply insert_sorted; [by eapply wm_sorted|]. revert Hfree. unfold child. by rewrite Hnp.
    + constructor.
  - intros id j c. rewrite added_child. repeat case_decide; subst; [intros [= <-]| |done|].
    + exists (mkNode fs (Some par) []). by rewrite added_nodes, decide_False, decide_True.
    + intros Hc. destruct (wm_child m Hwf _ _ _ Hc) as (n & Hn & Hp). rewrite added_nodes.
      repeat case_decide; subst; [|congruence|by exists n]. eexists. split; [done|]. cbn. congruence.
    + intros Hc. destruct (wm_child m Hwf _ _ _ Hc) as (n & Hn & Hp). rewrite added_nodes.
      repeat case_decide; subst; [|congruence|by exists n]. eexists. split; [done|]. cbn. congruence.
  - intros id k1 k2 c. rewrite !added_child.
    assert (forall i j, child m i j <> Some new) as Hno.
    { intros i j (n & ? & _)%(wm_child m Hwf). congruence. }
    repeat case_decide; subst; try done; try (intros [= <-]; by intros ?%Hno); try (by intros ?%Hno [= <-]).
    + intros Hc [= <-]. by apply Hno in Hc.
    + apply (wm_inj m Hwf).
    + apply (wm_inj m Hwf).
Qed.

Lemma added_view ns : view m' ns = if decide (ns = pns ++ [k]) then Some fs else view m ns.
Proof.
  destruct added_fresh as [Hnew Hne]. unfold view. change (root m') with (root m). rewrite added_walk.
  case_decide; cbn.
  - rewrite added_nodes, decide_False, decide_True by done. done.
  - destruct (walk m (root m) ns) as [id|] eqn:Hid; [|done]. cbn. rewrite added_nodes.
    repeat case_decide; subst; cbn; [by rewrite Hnp| |done].
    destruct (walk_node m ns new Hwf Hid) as (? & ?). congruence.
Qed.
End adding.

Lemma view_walk m ns : wf_map m -> is_Some (view m ns) <-> is_Some (walk m (root m) ns).
Proof.
  intros Hwf. unfold view. destruct (walk m (root m) ns) as [id|] eqn:Hid; cbn; [|done].
  destruct (walk_node m ns id Hwf Hid) as (n & ->). by split.
Qed.

Lemma view_None m ns : wf_map m -> view m ns = None <-> walk m (root m) ns = None.
Proof. intros Hwf. rewrite !eq_None_not_Some, view_walk; done. Qed.

Lemma walk_app m id ns1 ns2 : walk m id (ns1 ++ ns2) = c ← walk m id ns1; walk m c ns2.
Proof. revert id. induction ns1 as [|k ns1 IH]; intros id; cbn; [done|]. by destruct (child m id k); cbn. Qed.

(** What [mount] answers, and the table it leaves. *)
Definition mount_result m names (fs : dynfs (F := F)) (r : result unit MappingError) (m' : FileSystemMapping) : Prop :=
  match view m names, view m (removelast names) with
  | Some _, _ => r = Err AlreadyMounted /\ m' = m
  | None, None => r = Err PartOfParentNotMounted /\ m' = m
  | None, Some _ => r = Ok tt /\ wf_map m' /\ root m' = root m /\
      forall ns, view m' ns = if decide (ns = names) then Some fs else view m ns
  end.

Lemma removelast_app_cons {A} (l : list A) x y l' : removelast (l ++ x :: y :: l') = (l ++ [x]) ++ removelast (y :: l').
Proof. rewrite removelast_app by done. by rewrite <- app_assoc. Qed.

Lemma mount_loop_spec todo m before current fs : wf_map m -> todo <> [] ->
  walk m (root m) before = Some current ->
  exists r m', mount_loop (length before + length todo) (length before) (Normal <$> todo) current fs m = Ret (r, m') /\
    mount_result m (before ++ todo) fs r m'.
Proof.
  intros Hwf. revert before current. induction todo as [|k todo IH]; intros before current Hne Hwalk; [done|]. clear Hne.
  cbn [fmap list_fmap mount_loop]. destruct (walk_node m before current Hwf Hwalk) as (n & Hn).
  unfold node. rewrite Hn. cbn [unwrap mbind outcome_bind].
  assert (child m current k = BTree.get k (mn_children n)) as Hch by (unfold child; by rewrite Hn).
  rewrite <- Hch. unfold mount_result.
  assert (walk m (root m) (before ++ [k]) = child m current k) as Hk by (by rewrite walk_snoc, Hwalk).
  destruct todo as [|k2 todo].
  - rewrite (proj2 (Nat.eqb_eq _ _)) by (cbn; lia). rewrite removelast_last.
    assert (exists f, view m before = Some f) as [f Hf] by (apply view_walk; [done|by rewrite Hwalk]).
    destruct (child m current k) as [c|] eqn:Hc.
    + assert (exists f, view m (before ++ [k]) = Some f) as [f' ->] by (apply view_walk; [done|by rewrite Hk]).
      by eexists _, _.
    + rewrite (proj2 (view_None m (before ++ [k]) Hwf) Hk), Hf. eexists _, _. split; [done|].
      split; [done|]. split; [exact (added_wf m before current n k fs Hwf Hwalk Hn Hc)|]. split; [done|].
      exact (added_view m before current n k fs Hwf Hwalk Hn Hc).
  - rewrite (proj2 (Nat.eqb_neq _ _)) by (cbn; lia). rewrite removelast_app_cons.
    destruct (child m current k) as [c|] eqn:Hc.
    + specialize (IH (before ++ [k]) c ltac:(done) Hk). rewrite length_app in IH. cbn [length] in IH.
      cbn [length]. replace (length before + S (S (length todo)))%nat with (length before + 1 + S (length todo))%nat by lia.
      replace (S (length before)) with (length before + 1)%nat by lia.
      destruct IH as (r & m' & -> & Hr). exists r, m'. split; [done|]. unfold mount_result in Hr.
      rewrite removelast_app in Hr by done. by rewrite <- (app_assoc before [k] (k2 :: todo)) in Hr.
    + assert (forall l, view m ((before ++ [k]) ++ l) = None) as Hnone.
      { intros l. apply view_None; [done|]. by rewrite walk_app, Hk. }
      pose proof (Hnone (k2 :: todo)) as H1. rewrite <- app_assoc in H1. cbn [app] in H1. rewrite H1, Hnone.
      by eexists _, _.
Qed.

Lemma normals l : existsb (fun c => negb (is_normal c)) l = false <-> exists ns, l = Normal <$> ns.
Proof.
  split.
  - induction l as [|c l IH]; cbn; [by exists []|]. intros [Hc Hl]%orb_false_iff.
    destruct (IH Hl) as [ns ->]. destruct c as [| | |n]; [done..|]. by exists (n :: ns).
  - intros [ns ->]. induction ns as [|n ns IH]; [done|]. exact IH.
Qed.

Lemma mount_at_spec m arg fs : wf_map m -> Forall ascii arg ->
  match comps arg with
  | RootDir :: l =>
      if existsb (fun c => negb (is_normal c)) l then mount_at arg fs m = Ret (Err MapInvalidPath, m)
      else forall names, l = Normal <$> names -> names <> [] ->
        exists r m', mount_at arg fs m = Ret (r, m') /\ mount_result m names fs r m'
  | _ => mount_at arg fs m = Ret (Err MapMustBeAbsolute, m)
  end.
Proof.
  intros Hwm Ha. pose proof (wf_components arg Ha) as Hwf. unfold mount_at.
  destruct (next_spec _ Hwf) as (c' & -> & Hw' & Hr' & Hb' & Hl' & Hf'). cbn [mbind outcome_bind].
  rewrite remaining_components in *. pose proof (comps_length arg) as Hlen.
  destruct (comps arg) as [|x l] eqn:Hc; cbn [head]; [done|].
  case_decide as Hx; [injection Hx as -> | by destruct x]. cbn [tail] in Hr'.
  assert (collect c' = Ret l) as ->.
  { unfold collect. pose proof (remaining_length c') as Hrl. rewrite collect_spec; [by cbn; rewrite Hr'|done|].
    change (it_items c') with (remaining c'). lia. }
  cbn [mbind outcome_bind]. destruct (existsb (fun c => negb (is_normal c)) l); [done|].
  intros names -> Hne. destruct (mount_loop_spec names m [] (root m) fs Hwm Hne eq_refl) as (r & m' & Hm & Hr).
  exists r, m'. split; [|exact Hr]. rewrite length_fmap. exact Hm.
Qed.

(** ** Replacing the root file system *)
Section rooted.
Context m (n : MappingNode (F := F)) (fs : dynfs (F := F)).
Hypothesis Hwf : wf_map m.
Hypothesis Hn : nodes m !! root m = Some n.
Local Notation m' := (set_node (root m) (mkNode fs (mn_parent n) (mn_children n)) m).

Lemma rooted_nodes id : nodes m' !! id =
  if decide (id = root m) then Some (mkNode fs (mn_parent n) (mn_children n)) else nodes m !! id.
Proof. unfold set_node. cbn [nodes]. case_decide; subst; by simplify_map_eq. Qed.

Lemma rooted_child id k : child m' id k = child m id k.
Proof. unfold child. rewrite rooted_nodes. case_decide; subst; [by rewrite Hn|done]. Qed.

Lemma rooted_walk id ns : walk m' id ns = walk m id ns.
Proof.
  revert id. induction ns as [|k ns IH]; intros id; [done|]. cbn [walk]. rewrite rooted_child.
  destruct (child m id k); [apply IH|done].
Qed.

Lemma rooted_wf : wf_map m'.
Proof.
  assert (Hsame : forall id n', nodes m' !! id = Some n' -> exists n0, nodes m !! id = Some n0 /\
    mn_parent n0 = mn_parent n' /\ mn_children n0 = mn_children n').
  { intros id n'. rewrite rooted_nodes. case_decide; subst; [intros [= <-]; by exists n|intros ?; by exists n']. }
  assert (Hback : forall id n0, nodes m !! id = Some n0 -> exists n', nodes m' !! id = Some n' /\ mn_parent n' = mn_parent n0).
  { intros id n0 Hid. rewrite rooted_nodes. case_decide; subst; [|by exists n0]. eexists. split; [done|]. cbn. congruence. }
  constructor.
  - destruct (wm_root m Hwf) as (n0 & Hn0 & Hp). destruct (Hback _ _ Hn0) as (n' & ? & ?). exists n'. split; [done|congruence].
  - intros id n' (n0 & ? & _)%Hsame. by eapply (wm_fresh m Hwf).
  - intros id n' (n0 & Hn0 & _ & <-)%Hsame. by eapply (wm_sorted m Hwf).
  - intros id k c. rewrite rooted_child. intros (n0 & Hn0 & Hp)%(wm_child m Hwf).
    destruct (Hback _ _ Hn0) as (n' & ? & ?). exists n'. split; [done|congruence].
  - intros id k1 k2 c. rewrite !rooted_child. apply (wm_inj m Hwf).
Qed.

Lemma rooted_view ns : view m' ns = if decide (ns = []) then Some fs else view m ns.
Proof.
  unfold view. change (root m') with (root m). rewrite rooted_walk. case_decide as Hns.
  - subst ns. cbn [walk mbind option_bind]. by rewrite rooted_nodes, decide_True.
  - destruct (walk m (root m) ns) as [id|] eqn:Hid; [|done]. cbn. rewrite rooted_nodes, decide_False; [done|].
    intros ->. by apply Hns, (walk_inj m ns [] (root m) Hwf).
Qed.
End rooted.

(** ** The table as the rest of the kernel uses it *)
Definition table (s : Vfs (F := F) (W := W)) : FileSystemMapping := default empty_root (vmapping s).

Lemma wf_empty_root : wf_map (empty_root (F := F)).
Proof.
  assert (forall id k c, child (empty_root (F := F)) id k <> Some c) as Hno.
  { intros id k c. unfold child, empty_root. cbn [nodes]. destruct (decide (id = 0%nat)) as [->|Hid]; by simplify_map_eq. }
  constructor.
  - exists (mkNode EmptyFileSystem None []). by cbn; simplify_map_eq.
  - intros id n. cbn. rewrite lookup_singleton_Some. intros [<- _]. lia.
  - intros id n. cbn. rewrite lookup_singleton_Some. intros [_ <-]. constructor.
  - by intros id k c ?%Hno.
  - by intros id k1 k2 c ?%Hno.
Qed.

Lemma get_or_init_eq s : get_or_init s = Ret (table s, mkVfs (Some (table s)) (world s)).
Proof. destruct s as [[m|] w]; done. Qed.

(** Longest prefix: an absolute path resolves to the deepest mounted
    ancestor, with the path of its mount point and the remaining relative
    path; a path that is not absolute is refused. *)
Lemma get_mapping_view m (p : bytes) : wf_map m -> Forall ascii p ->
  match comps p with
  | RootDir :: l => exists ns mp rest id f, get_mapping m p = Ret (Ok (mp, rest, id)) /\
      l = (Normal <$> ns) ++ comps rest /\ comps mp = RootDir :: (Normal <$> ns) /\
      view m ns = Some f /\ filesystem m id = Ret f /\
      forall ns', (Normal <$> ns') `prefix_of` l -> view m ns' <> None -> (length ns' <= length ns)%nat
  | _ => get_mapping m p = Ret (Err MustBeAbsolute)
  end.
Proof.
  intros Hwf Hp. pose proof (get_mapping_spec m p Hwf Hp) as Hg.
  destruct (comps p) as [|[| | |] l]; [done| |done..].
  destruct Hg as (ns & mp & rest & id & Hg & Hres). destruct (walk_node m ns id Hwf (rs_walk _ _ _ _ _ _ Hres)) as (n & Hn).
  exists ns, mp, rest, id, (mn_filesystem n). split_and!; [done|apply Hres|apply Hres| | |].
  - unfold view. rewrite (rs_walk _ _ _ _ _ _ Hres). cbn. by rewrite Hn.
  - unfold filesystem, node. by rewrite Hn.
  - intros ns' [l' Hpre] Hview. destruct (decide (length ns' <= length ns)%nat) as [|Hlt]; [done|exfalso].
    rewrite (rs_rest _ _ _ _ _ _ Hres) in Hpre.
    assert (ns = take (length ns) ns') as Hns.
    { apply (f_equal (take (length ns))) in Hpre. rewrite take_app_le, take_app_le in Hpre by (rewrite length_fmap; lia).
      rewrite take_ge, <- fmap_take in Hpre by (rewrite length_fmap; lia). by apply list_fmap_eq_inj in Hpre; [|intros ?? [=]]. }
    destruct (drop (length ns) ns') as [|k ns2] eqn:Hd.
    { apply (f_equal length) in Hd. rewrite length_drop in Hd. cbn in Hd. lia. }
    rewrite <- (take_drop (length ns) ns'), Hd, <- Hns in Hpre, Hview.
    rewrite fmap_app, <- app_assoc in Hpre. apply app_inv_head in Hpre. cbn in Hpre.
    apply Hview, view_None; [done|]. rewrite (cons_middle k ns ns2), app_assoc, walk_app.
    by rewrite (rs_longest _ _ _ _ _ _ Hres k) by (by rewrite Hpre).
Qed.

(** Mounting at a path of plain names: refused when the point is mounted
    already or when its parent is not; otherwise the new table has exactly one
    mount point more.  Nothing else changes. *)
Lemma mount_spec s (arg : bytes) names fs : wf_map (table s) -> Forall ascii arg ->
  comps arg = RootDir :: (Normal <$> names) -> names <> [] ->
  exists r s', mount arg fs s = Ret (r, s') /\ world s' = world s /\ mount_result (table s) names fs r (table s').
Proof.
  intros Hwf Ha Hc Hne. pose proof (mount_at_spec (table s) arg fs Hwf Ha) as Hm. rewrite Hc in Hm.
  rewrite (proj2 (normals _)) in Hm by (by exists names). destruct (Hm names eq_refl Hne) as (r & m' & Hr & Hres).
  assert (arg <> [SEPARATOR]) as Hns by (intros ->; by destruct names).
  unfold mount, mbind, ST_bind. rewrite get_or_init_eq, bool_decide_eq_false_2 by done. cbn.
  unfold lift. rewrite Hr. by eexists _, _.
Qed.

(** Mounting and looking up: after a successful mount, every path at or below
    the mount point resolves to the new file system, with the rest of the
    path relative to it. *)
Theorem mount_then_resolve s s' (arg p : bytes) names fs l : wf_map (table s) -> Forall ascii arg -> Forall ascii p ->
  comps arg = RootDir :: (Normal <$> names) -> names <> [] -> mount arg fs s = Ret (Ok tt, s') ->
  comps p = RootDir :: (Normal <$> names) ++ l ->
  exists mp rest id, get_mapping (table s') p = Ret (Ok (mp, rest, id)) /\ filesystem (table s') id = Ret fs /\
    comps rest = l /\ comps mp = comps arg.
Proof.
  intros Hwf Ha Hp Hc Hne Hm Hcp.
  destruct (mount_spec s arg names fs Hwf Ha Hc Hne) as (r & s2 & Hm2 & _ & Hres).
  rewrite Hm in Hm2. injection Hm2 as <- <-. unfold mount_result in Hres.
  destruct (view (table s) names) as [f0|] eqn:Hv; [by destruct Hres|].
  destruct (view (table s) (removelast names)); [|by destruct Hres]. destruct Hres as (_ & Hwf' & Hroot & Hview).
  pose proof (get_mapping_view (table s') p Hwf' Hp) as Hg. rewrite Hcp in Hg.
  destruct Hg as (ns & mp & rest & id & f & Hg & Hl & Hmp & Hf & Hfs & Hlong).
  assert (ns = names) as ->.
  { assert (length names <= length ns)%nat as Hle.
    { apply Hlong; [by eexists|]. by rewrite Hview, decide_True. }
    assert (names = take (length names) ns) as Hpre.
    { apply (f_equal (take (length names))) in Hl. rewrite !take_app_le in Hl by (rewrite length_fmap; lia).
      rewrite take_ge, <- fmap_take in Hl by (rewrite length_fmap; lia). by apply list_fmap_eq_inj in Hl; [|intros ?? [=]]. }
    destruct (drop (length names) ns) as [|k ns2] eqn:Hd.
    { rewrite <- (take_drop (length names) ns), Hd, app_nil_r. done. }
    exfalso. assert (ns = names ++ k :: ns2) as -> by (rewrite Hpre, <- Hd; by rewrite take_drop).
    rewrite Hview, decide_False in Hf.
    2: { intros He. apply (f_equal length) in He. rewrite length_app in He. cbn in He. lia. }
    assert (view (table s) (names ++ k :: ns2) = None); [|congruence].
    apply view_None; [done|]. rewrite walk_app. by rewrite (proj1 (view_None _ names Hwf) Hv). }
  exists mp, rest, id. split_and!; [done| | |by rewrite Hmp, Hc].
  - rewrite Hview, decide_True in Hf by done. congruence.
  - by apply app_inv_head in Hl.
Qed.

Lemma mount_root_empty s fs : wf_map (table s) -> view (table s) [] = Some EmptyFileSystem ->
  exists s', mount [SEPARATOR] fs s = Ret (Ok tt, s') /\ world s' = world s /\ wf_map (table s') /\
    forall ns, view (table s') ns = if decide (ns = []) then Some fs else view (table s) ns.
Proof.
  intros Hwf Hv. destruct (wm_root _ Hwf) as (n & Hn & Hp).
  assert (mn_filesystem n = EmptyFileSystem) as Hfs.
  { revert Hv. unfold view. cbn [walk mbind option_bind]. rewrite Hn. cbn. by intros [= ->]. }
  unfold mount, mbind, ST_bind. rewrite get_or_init_eq, bool_decide_eq_true_2 by done.
  unfold set_root, mbind, ST_bind, lift, node. rewrite Hn. cbn [unwrap]. rewrite Hfs. cbn.
  eexists. split; [done|]. split; [done|]. split; [by apply rooted_wf|]. by apply rooted_view.
Qed.

(** Longest prefix: an absolute path resolves to its deepest mounted ancestor
    - no mount point that is a prefix of the path is longer - with the path of
    the mount point, the rest of the path relative to it and its file system;
    a path that is not absolute is refused. *)
Theorem get_mapping_longest_prefix m (p : bytes) : wf_map m -> Forall ascii p ->
  match comps p with
  | RootDir :: l => exists ns mp rest id f, get_mapping m p = Ret (Ok (mp, rest, id)) /\
      l = (Normal <$> ns) ++ comps rest /\ comps mp = RootDir :: (Normal <$> ns) /\
      view m ns = Some f /\ filesystem m id = Ret f /\
      forall ns', (Normal <$> ns') `prefix_of` l -> view m ns' <> None -> (length ns' <= length ns)%nat
  | _ => get_mapping m p = Ret (Err MustBeAbsolute)
  end.
Proof. exact (get_mapping_view m p). Qed.

End spec.
End MountSpec.
