(* ===== verification/Vfs.v ===== *)
(** * Opening and using files

    Models the part of [kernel/src/fs/mod.rs] above the mount table:
    [open_inode], and the handles [File] and [Directory].  File systems are
    reached through the interface of [Mount].  A buffer filled by a read is
    the list of the bytes read; loops that wait for a device take fuel. *)
From S2P Require Import Prelude UserLink FsTypes Path PathSpec PathUse Mount.
Import Str Path FileLink.

Module Vfs.
Import Mount.
Section vfs.
Context {F W : Type} `{FileSystem F W}.
Local Notation E := FileSystemError.
Local Notation V := (Vfs (F := F) (W := W)).

(** ** The trait's methods on a mounted file system.  [EmptyFileSystem] has
    only the defaults of the trait. *)
Definition assert_device (inode : FileNode) : outcome unit :=
  assert_that (start_cluster (fn_base inode) =? DEVICES_FILESYSTEM_CLUSTER_MAGIC).

Definition read_file_default (inode : FileNode) (position n : Z) : ST W (result bytes E) :=
  match fn_device inode with
  | Some d => _ ← lift (assert_device inode); dev_read d position n
  | None => mret (Err ReadNotSupported)
  end.
Definition write_file_default (inode : FileNode) (position : Z) (buf : bytes) : ST W (result Z E) :=
  match fn_device inode with
  | Some d => _ ← lift (assert_device inode); dev_write d position buf
  | None => mret (Err WriteNotSupported)
  end.
Definition set_file_size_default (inode : FileNode) (size : Z) : ST W (result unit E) :=
  match fn_device inode with
  | Some d => _ ← lift (assert_device inode); dev_set_size d size
  | None => mret (Err WriteNotSupported)
  end.

Definition treverse_dir (fs : dynfs (F := F)) (dir : DirectoryNode) (name : bytes) : ST W (result Node E) :=
  match fs with EmptyFileSystem => mret (Err FileNotFound) | Dyn f => fs_treverse_dir f dir name end.
Definition read_dir (fs : dynfs (F := F)) (dir : DirectoryNode) (A : Type) (h : Node -> A -> outcome (A * DirTreverse)) (a : A)
    : ST W (result unit E * A) :=
  match fs with EmptyFileSystem => mret (Err FileNotFound, a) | Dyn f => fs_read_dir f dir A h a end.
Definition create_node (fs : dynfs (F := F)) (dir : DirectoryNode) (name : bytes) (a : FileAttributes) : ST W (result Node E) :=
  match fs with EmptyFileSystem => mret (Err OperationNotSupported) | Dyn f => fs_create_node f dir name a end.
Definition read_file (fs : dynfs (F := F)) (inode : FileNode) (position n : Z) (h : AccessHelper)
    : ST W (result bytes E * AccessHelper) :=
  match fs with
  | EmptyFileSystem => r ← read_file_default inode position n; mret (r, h)
  | Dyn f => fs_read_file f inode position n h
  end.
Definition write_file (fs : dynfs (F := F)) (inode : FileNode) (position : Z) (buf : bytes) (h : AccessHelper)
    : ST W (result Z E * FileNode * AccessHelper) :=
  match fs with
  | EmptyFileSystem => r ← write_file_default inode position buf; mret (r, inode, h)
  | Dyn f => fs_write_file f inode position buf h
  end.
Definition flush_file (fs : dynfs (F := F)) (inode : FileNode) (h : AccessHelper)
    : ST W (result unit E * FileNode * AccessHelper) :=
  match fs with
  | EmptyFileSystem => mret (Err WriteNotSupported, inode, h)
  | Dyn f => fs_flush_file f inode h
  end.
Definition close_file (fs : dynfs (F := F)) (inode : FileNode) (h : AccessHelper) : ST W (result unit E) :=
  match fs with EmptyFileSystem => mret (Ok tt) | Dyn f => fs_close_file f inode h end.
Definition set_file_size (fs : dynfs (F := F)) (inode : FileNode) (size : Z) : ST W (result unit E * FileNode) :=
  match fs with
  | EmptyFileSystem => r ← set_file_size_default inode size; mret (r, inode)
  | Dyn f => fs_set_file_size f inode size
  end.

(** [FileNode::try_open_device] and [Node::try_open_device] *)
Definition file_try_open_device (f : FileNode) : ST W (result FileNode E) :=
  match fn_device f with
  | Some d =>
      r ← dev_try_create d;
      mret (match r with
            | None => Ok f
            | Some (Ok d') => Ok (mkFileNode (fn_base f) (fn_size f) (Some d'))
            | Some (Err e) => Err e
            end)
  | None => mret (Ok f)
  end.
Definition try_open_device (n : Node) : ST W (result Node E) :=
  match n with
  | NFile f => r ← file_try_open_device f; mret (match r with Ok f => Ok (NFile f) | Err e => Err e end)
  | NDirectory _ => mret (Ok n)
  end.

(** [Option::is_some] of [peekable().peek()] *)
Definition more (c : Components) : outcome bool := x ← peek c; Ret (is_some x).

Definition opened : Type := bytes * dynfs (F := F) * Node.

(** [canonical_path.pop()] under [assert!] *)
Definition pop_path (p : bytes) : outcome bytes :=
  '(popped, p) ← pop p; _ ← assert_that popped; Ret p.
Definition push_path (p name : bytes) : outcome bytes := '(_, p) ← push name p; Ret p.

(** The loop of [open_inode] over the remaining components. *)
Fixpoint open_loop (fuel : nat) (m : FileSystemMapping (F := F)) (opening_dir : bool) (comps : Components) (canonical_path : bytes)
    (mapping_node : nat) (filesystem' : dynfs (F := F)) (dir : DirectoryNode) (children_after_mapping : Z)
    : ST W (result opened E) :=
  match fuel with
  | O => diverge
  | S fuel =>
      '(component, comps) ← lift (next comps);
      let enter (name : bytes) : ST W (result opened E) :=
        canonical_path ← lift (push_path canonical_path name);
        r ← treverse_dir filesystem' dir name;
        match r with
        | Err e => mret (Err e)
        | Ok entry =>
            b ← lift (more comps);
            if (b : bool) then
              match entry with
              | NDirectory dir =>
                  open_loop fuel m opening_dir comps canonical_path mapping_node filesystem' dir (children_after_mapping + 1)
              | NFile _ => mret (Err IsNotDirectory)
              end
            else if opening_dir then
              (if is_dir entry then mret (Ok (canonical_path, filesystem', entry)) else mret (Err IsNotDirectory))
            else
              r ← try_open_device entry;
              mret (match r with Ok entry => Ok (canonical_path, filesystem', entry) | Err e => Err e end)
        end in
      match component with
      | None => mret (Ok (canonical_path, filesystem', NDirectory dir))
      | Some RootDir | Some CurDir =>
          open_loop fuel m opening_dir comps canonical_path mapping_node filesystem' dir children_after_mapping
      | Some ParentDir =>
          if children_after_mapping =? 0 then
            par ← lift (Mount.parent m mapping_node);
            match par with
            | Some par =>
                canonical_path ← lift (pop_path canonical_path);
                filesystem' ← lift (filesystem m par);
                r ← open_root filesystem';
                match r with
                | Ok dir => open_loop fuel m opening_dir comps canonical_path par filesystem' dir children_after_mapping
                | Err e => mret (Err e)
                end
            | None => open_loop fuel m opening_dir comps canonical_path mapping_node filesystem' dir children_after_mapping
            end
          else
            canonical_path ← lift (pop_path canonical_path);
            open_loop fuel m opening_dir comps canonical_path mapping_node filesystem' dir (children_after_mapping - 1)
      | Some (Normal []) =>
          open_loop fuel m opening_dir comps canonical_path mapping_node filesystem' dir children_after_mapping
      | Some (Normal name) =>
          if children_after_mapping =? 0 then
            c ← lift (try_find_child m mapping_node name);
            match c with
            | Some child =>
                canonical_path ← lift (push_path canonical_path name);
                filesystem' ← lift (filesystem m child);
                r ← open_root filesystem';
                match r with
                | Ok dir => open_loop fuel m opening_dir comps canonical_path child filesystem' dir 0
                | Err e => mret (Err e)
                end
            | None => enter name
            end
          else enter name
      end
  end.

(** [open_inode] *)
Definition open_inode (path : bytes) : ST V (result opened E) :=
  if is_absolute path then
    m ← get_mapping_lock;
    r ← lift (get_mapping m path);
    match r with
    | Err e => mret (Err e)
    | Ok (canonical_path, remaining, mapping_node) =>
        fs ← lift (filesystem m mapping_node);
        let opening_dir := has_last_separator path in
        on_world (
          r ← open_root fs;
          match r with
          | Err e => mret (Err e)
          | Ok dir =>
              if is_root remaining || is_empty remaining then mret (Ok (canonical_path, fs, NDirectory dir))
              else open_loop (length remaining + 3) m opening_dir (components remaining) canonical_path mapping_node fs dir 0
          end)
    end
  else mret (Err MustBeAbsolute).

(** ** [struct File] *)
Record File : Type := mkFile {
  f_filesystem : dynfs (F := F);
  f_path : bytes;
  f_inode : FileNode;
  f_position : Z;
  f_is_terminal : bool;
  f_blocking_mode : BlockingMode;
  f_access_helper : AccessHelper;
  f_access : FileAccess
}.

Definition file_from_inode (inode : FileNode) (path : bytes) (fs : dynfs (F := F)) (position : Z) (b : BlockingMode)
    (a : FileAccess) : File :=
  mkFile fs path inode position false b access_default a.

(** the node to open, created on demand *)
Definition open_or_create (path : bytes) (o : OpenOptions) : ST V (result (bytes * FileNode * dynfs (F := F)) E) :=
  r ← open_inode path;
  match r with
  | Ok (canonical_path, fs, inode) =>
      if is_create_new o then mret (Err AlreadyExists)
      else mret (match into_file inode with Ok f => Ok (canonical_path, f, fs) | Err e => Err e end)
  | Err FileNotFound =>
      if is_create o || is_create_new o then
        par ← lift (Path.parent path);
        par ← lift (unwrap par);
        r ← open_inode par;
        match r with
        | Err e => mret (Err e)
        | Ok (canonical_path, fs, parent_inode) =>
            name ← lift (Path.file_name path);
            name ← lift (unwrap name);
            if bool_decide (name = [DOT]) || bool_decide (name = [DOT; DOT]) || bool_decide (name = [SEPARATOR])
            then mret (Err InvalidPath)
            else match into_dir parent_inode with
                 | Err e => mret (Err e)
                 | Ok dir =>
                     r ← on_world (create_node fs dir name ATTR_EMPTY);
                     match r with
                     | Err e => mret (Err e)
                     | Ok node =>
                         f ← lift (match into_file node with Ok f => Ret f | Err _ => Panic end);
                         mret (Ok (canonical_path, f, fs))
                     end
                 end
        end
      else mret (Err FileNotFound)
  | Err e => mret (Err e)
  end.

(** [File::open_blocking] *)
Definition open_blocking (path : bytes) (b : BlockingMode) (o : OpenOptions) : ST V (result File E) :=
  r ← open_or_create path o;
  match r with
  | Err e => mret (Err e)
  | Ok (canonical_path, node, fs) =>
      '(r, node) ← (if is_truncate o then
                      if is_write o then on_world (set_file_size fs node 0)
                      else mret (Err WriteNotSupported, node)
                    else mret (Ok tt, node));
      match r with
      | Err e => mret (Err e)
      | Ok _ =>
          let pos := if is_append o then fn_size node else 0 in
          let access := mkFileAccess (is_read o) (is_write o) in
          mret (Ok (file_from_inode node canonical_path fs pos b access))
      end
  end.

(** ** Operations on a handle.  The state is the world and the handle. *)
Definition FS : Type := W * File.
Definition with_helper (h : AccessHelper) (f : File) : File :=
  mkFile (f_filesystem f) (f_path f) (f_inode f) (f_position f) (f_is_terminal f) (f_blocking_mode f) h (f_access f).
Definition with_position (p : Z) (f : File) : File :=
  mkFile (f_filesystem f) (f_path f) (f_inode f) p (f_is_terminal f) (f_blocking_mode f) (f_access_helper f) (f_access f).
Definition with_inode (n : FileNode) (f : File) : File :=
  mkFile (f_filesystem f) (f_path f) n (f_position f) (f_is_terminal f) (f_blocking_mode f) (f_access_helper f) (f_access f).

(** [self.filesystem.read_file(&self.inode, self.position, buf, &mut self.access_helper)] *)
Definition fs_read (n : Z) : ST FS (result bytes E) := fun '(w, f) =>
  match read_file (f_filesystem f) (f_inode f) (f_position f) n (f_access_helper f) w with
  | Ret ((r, h), w) => Ret (r, (w, with_helper h f))
  | Panic => Panic
  | Diverge => Diverge
  end.

(** reading a line: byte by byte, at the same position *)
Fixpoint read_line (fuel : nat) (n : Z) (acc : bytes) : ST FS (result (bytes * bool) E) :=
  match fuel with
  | O => diverge
  | S fuel =>
      r ← fs_read 1;
      match r with
      | Err FsTypes.EndOfFile => mret (Ok (acc, false))
      | Err e => mret (Err e)
      | Ok [c] =>
          let acc := if Z.of_nat (length acc) <? n then acc ++ [c] else acc in
          if (c =? 10) || (c =? 0) then mret (Ok (acc, true)) else read_line fuel n acc
      | Ok _ => read_line fuel n acc
      end
  end.

Fixpoint read_block (fuel : nat) (n : Z) : ST FS (result bytes E) :=
  match fuel with
  | O => diverge
  | S fuel =>
      r ← fs_read n;
      match r with
      | Err FsTypes.EndOfFile => mret (Ok [])
      | Err e => mret (Err e)
      | Ok [] => read_block fuel n
      | Ok l => mret (Ok l)
      end
  end.

(** advance the position by what was read *)
Definition advance (l : bytes) : ST FS (result bytes E) :=
  '(w, f) ← get;
  p ← lift (cadd 64 (f_position f) (Z.of_nat (length l)));
  _ ← put (w, with_position p f);
  mret (Ok l).

(** [File::read] into a buffer of [n] bytes; a line that meets the end of the
    file returns early, without moving the position *)
Definition read (fuel : nat) (n : Z) : ST FS (result bytes E) :=
  '(_, f) ← get;
  if fa_read (f_access f) then
    match f_blocking_mode f with
    | BmNone => r ← fs_read n; match r with Ok l => advance l | Err e => mret (Err e) end
    | BmLine =>
        r ← read_line fuel n [];
        match r with
        | Ok (l, true) => advance l
        | Ok (l, false) => mret (Ok l)
        | Err e => mret (Err e)
        end
    | BmBlock size =>
        _ ← lift (assert_that (size =? 1));
        r ← read_block fuel n;
        match r with Ok l => advance l | Err e => mret (Err e) end
    end
  else mret (Err ReadNotSupported).

(** [File::write] *)
Definition write (buf : bytes) : ST FS (result Z E) := fun '(w, f) =>
  if fa_write (f_access f) then
    match write_file (f_filesystem f) (f_inode f) (f_position f) buf (f_access_helper f) w with
    | Ret ((r, n, h), w) =>
        let f := with_helper h (with_inode n f) in
        match r with
        | Ok written => match cadd 64 (f_position f) written with
                        | Ret p => Ret (Ok written, (w, with_position p f))
                        | _ => Panic
                        end
        | Err e => Ret (Err e, (w, f))
        end
    | Panic => Panic
    | Diverge => Diverge
    end
  else Ret (Err WriteNotSupported, (w, f)).

(** [File::flush] *)
Definition flush : ST FS (result unit E) := fun '(w, f) =>
  if fa_write (f_access f) then
    match flush_file (f_filesystem f) (f_inode f) (f_access_helper f) w with
    | Ret ((r, n, h), w) => Ret (r, (w, with_helper h (with_inode n f)))
    | Panic => Panic
    | Diverge => Diverge
    end
  else Ret (Err WriteNotSupported, (w, f)).

Definition seek (position : Z) : ST FS (result unit E) := fun '(w, f) => Ret (Ok tt, (w, with_position position f)).

(** [File::set_size] *)
Definition set_size (size : Z) : ST FS (result unit E) := fun '(w, f) =>
  if fa_write (f_access f) then
    match set_file_size (f_filesystem f) (f_inode f) size w with
    | Ret ((r, n), w) => Ret (r, (w, with_inode n f))
    | Panic => Panic
    | Diverge => Diverge
    end
  else Ret (Err WriteNotSupported, (w, f)).

(** [File::read_to_end]: the buffer has the size of the file *)
Fixpoint read_to_end_loop (fuel rfuel : nat) (buf : bytes) (position : Z) : ST FS (result bytes E) :=
  match fuel with
  | O => diverge
  | S fuel =>
      r ← read rfuel (Z.of_nat (length buf) - position);
      match r with
      | Err e => mret (Err e)
      | Ok [] => mret (Ok buf)
      | Ok l =>
          let p := Z.to_nat position in
          read_to_end_loop fuel rfuel (take p buf ++ l ++ drop (p + length l) buf) (position + Z.of_nat (length l))
      end
  end.
Definition read_to_end (rfuel : nat) : ST FS (result bytes E) :=
  '(_, f) ← get;
  let n := Z.to_nat (fn_size (f_inode f)) in
  read_to_end_loop (n + 2) rfuel (replicate n 0) 0.

(** [File::clone_inherit]: a new handle at the start of the same file *)
Definition clone_inherit (f : File) : ST W File :=
  let s := mkFile (f_filesystem f) (f_path f) (f_inode f) 0 (f_is_terminal f) (f_blocking_mode f) access_default (f_access f) in
  _ ← match fn_device (f_inode s) with
      | Some d => r ← dev_clone_device d; lift (match r with Ok _ => Ret tt | Err _ => Panic end)
      | None => mret tt
      end;
  mret s.

(** [<File as Drop>::drop] *)
Definition drop_file (f : File) : ST W unit :=
  r ← close_file (f_filesystem f) (f_inode f) (f_access_helper f);
  lift (match r with Ok _ => Ret tt | Err _ => Panic end).

(** ** [struct Directory] *)
Record Directory : Type := mkDirectory {
  d_inode : DirectoryNode;
  d_path : bytes;
  d_position : Z;
  d_entries : option (list Node);
  d_filesystem : dynfs (F := F)
}.

Definition dir_from_inode (inode : DirectoryNode) (path : bytes) (fs : dynfs (F := F)) (position : Z) : Directory :=
  mkDirectory inode path position None fs.

(** [Directory::open] *)
Definition dir_open (path : bytes) : ST V (result Directory E) :=
  r ← open_inode path;
  mret (match r with
        | Ok (canonical_path, fs, inode) =>
            match into_dir inode with Ok d => Ok (dir_from_inode d canonical_path fs 0) | Err e => Err e end
        | Err e => Err e
        end).

(** the entries of the mount points one level below [path] *)
Fixpoint mapping_entries (l : list (bytes * dynfs (F := F))) : outcome (list Node) :=
  match l with
  | [] => Ret []
  | (p, _) :: l =>
      cs ← collect (components p);
      rest ← mapping_entries l;
      match cs with
      | [c] =>
          d ← without_parent (as_str c) ATTR_DIRECTORY ANOTHER_FILESYSTEM_MAPPING_INODE_MAGIC;
          Ret (NDirectory d :: rest)
      | _ => Ret rest
      end
  end.

(** [Directory::fetch_entries] *)
Definition fetch_entries (d : Directory) : ST V (result Directory E) :=
  match d_entries d with
  | Some _ => mret (Ok d)
  | None =>
      '(r, entries) ← on_world (read_dir (d_filesystem d) (d_inode d) (list Node)
                                  (fun entry acc => Ret (acc ++ [entry], Continue)) []);
      match r with
      | Err e => mret (Err e)
      | Ok _ =>
          m ← get_mapping_lock;
          calls ← lift (on_all_matching_mappings m (d_path d));
          extra ← lift (mapping_entries calls);
          mret (Ok (mkDirectory (d_inode d) (d_path d) (d_position d) (Some (entries ++ extra)) (d_filesystem d)))
      end
  end.

(** [struct DirEntry] of the system-call interface *)
Record DirEntry : Type := mkDirEntry { de_stat : FileStat; de_name : bytes }.

(** [while i < entries.len()] *)
Fixpoint dir_read_loop (n : nat) (dir_entries : list Node) (position : Z) : outcome (list DirEntry * Z) :=
  match n with
  | O => Ret ([], position)
  | S n =>
      if Z.of_nat (length dir_entries) <=? position then Ret ([], position)
      else
        entry ← unwrap (dir_entries !! Z.to_nat position);
        name ← dir_filename_from (node_name entry);
        '(l, position) ← dir_read_loop n dir_entries (position + 1);
        Ret (mkDirEntry (as_file_stat entry) name :: l, position)
  end.

(** [Directory::read] into a buffer of [n] entries *)
Definition dir_read (n : nat) (d : Directory) : ST V (result (list DirEntry) E * Directory) :=
  r ← fetch_entries d;
  match r with
  | Err e => mret (Err e, d)
  | Ok d =>
      entries ← lift (unwrap (d_entries d));
      '(out, position) ← lift (dir_read_loop n entries (d_position d));
      mret (Ok out, mkDirectory (d_inode d) (d_path d) position (d_entries d) (d_filesystem d))
  end.

(** [<Directory as Clone>::clone] *)
Definition dir_clone (d : Directory) : Directory :=
  mkDirectory (d_inode d) (d_path d) 0 None (d_filesystem d).

(** [enum FilesystemNode] and [Directory::create_node] *)
Inductive FilesystemNode : Type :=
| FsnFile (f : File)
| FsnDirectory (d : Directory).

Definition dir_create_node (d : Directory) (name : bytes) (a : FileAttributes) : ST V (result FilesystemNode E) :=
  r ← on_world (create_node (d_filesystem d) (d_inode d) name a);
  match r with
  | Err e => mret (Err e)
  | Ok node =>
      path ← lift (join (d_path d) name);
      mret (Ok (match node with
                | NFile f => FsnFile (file_from_inode f path (d_filesystem d) 0 BmNone (fa_bitor FA_READ FA_WRITE))
                | NDirectory dir => FsnDirectory (dir_from_inode dir path (d_filesystem d) 0)
                end))
  end.

Definition fsn_as_file (n : FilesystemNode) : result File E :=
  match n with FsnFile f => Ok f | FsnDirectory _ => Err IsDirectory end.
Definition fsn_as_dir (n : FilesystemNode) : result Directory E :=
  match n with FsnDirectory d => Ok d | FsnFile _ => Err IsNotDirectory end.
End vfs.
End Vfs.
