(* ===== verification/VfsSpec.v ===== *)
(** * Path resolution and file handles: what they do

    [open_inode] is compared with a reference resolution over file systems
    that answer lookups without changing ([StaticFs], of which [TreeFs] is an
    instance); [read_to_end] with the contents of a file, for any file system
    whose reads make progress ([ReadsContent]). *)
From S2P Require Import Prelude UserLink FsTypes Path PathSpec PathUse Mount MountSpec Vfs.
Import Str Path FileLink Mount MountSpec Vfs.

Local Notation E := FileSystemError.

(** ** Running a computation step by step *)
Lemma st_bind {S A B} (m : ST S A) (k : A -> ST S B) s a s' : m s = Ret (a, s') -> (m ≫= k) s = k a s'.
Proof. intros Hm. unfold mbind, ST_bind. by rewrite Hm. Qed.
Lemma st_lift {S A} (o : outcome A) (a : A) (s : S) : o = Ret a -> lift o s = Ret (a, s).
Proof. by intros ->. Qed.

(** ** What resolution relies on *)
Class StaticFs (F W : Type) `{FileSystem F W} : Type := {
  sf_root : F -> DirectoryNode;
  (** the directories it has *)
  sf_dir : F -> DirectoryNode -> Prop;
  sf_lookup : W -> F -> DirectoryNode -> bytes -> result Node E;
  sf_open_root : forall f w, fs_open_root f w = Ret (Ok (sf_root f), w);
  sf_root_dir : forall f, sf_dir f (sf_root f);
  sf_lookup_dir : forall w f d n d', sf_dir f d -> sf_lookup w f d n = Ok (NDirectory d') -> sf_dir f d';
  sf_treverse : forall f d n w, sf_dir f d -> fs_treverse_dir f d n w = Ret (sf_lookup w f d n, w);
  sf_try_create : forall d w, dev_try_create d w = Ret (None, w)
}.

Section resolution.
Context {F W : Type} `{StaticFs F W}.
Implicit Types (m : FileSystemMapping (F := F)) (f : F) (w : W).

(** the reference: names one after the other, every one but the last a
    directory *)
Fixpoint resolve w f (d : DirectoryNode) (names : list bytes) : result Node E :=
  match names with
  | [] => Ok (NDirectory d)
  | [n] => sf_lookup w f d n
  | n :: names =>
      match sf_lookup w f d n with
      | Ok (NDirectory d') => resolve w f d' names
      | Ok (NFile _) => Err IsNotDirectory
      | Err e => Err e
      end
  end.

(** a trailing separator asks for a directory *)
Definition finish (opening_dir : bool) (canonical : bytes) f (r : result Node E) : result opened E :=
  match r with
  | Err e => Err e
  | Ok n => if opening_dir && negb (is_dir n) then Err IsNotDirectory else Ok (canonical, Dyn f, n)
  end.

Lemma try_open_device_static (n : Node) w : try_open_device n w = Ret (Ok n, w).
Proof.
  destruct n as [fl|d]; [|done]. cbn. unfold file_try_open_device, mbind, ST_bind.
  destruct (fn_device fl) as [dv|]; [|done]. by rewrite sf_try_create.
Qed.

Lemma more_spec c : wf c -> more c = Ret (negb (bool_decide (remaining c = []))).
Proof.
  intros Hwf. unfold more, peek. destruct (next_spec c Hwf) as (c' & -> & _). cbn.
  by destruct (remaining c).
Qed.

Lemma push_path_spec p n : Forall ascii p -> is_name n ->
  exists r, push_path p n = Ret r /\ Forall ascii r /\ comps r = comps p ++ [Normal n].
Proof. intros Hp Hn. destruct (push_name p n Hp Hn) as (r & Hr & ?). exists r. unfold push_path. by rewrite Hr. Qed.

Lemma name_not_nil n : is_name n -> n <> [].
Proof. intros Hn ->. by pose proof (name_parse _ Hn). Qed.

Lemma push_names p names : Forall ascii p -> (forall n, n ∈ names -> is_name n) ->
  exists r, Forall ascii r /\ comps r = comps p ++ (Normal <$> names).
Proof.
  intros Hp. revert p Hp. induction names as [|n names IH]; intros p Hp Hn; [exists p; by rewrite app_nil_r|].
  destruct (push_name p n Hp ltac:(apply Hn; by left)) as (r & _ & Ha & Hc).
  destruct (IH r Ha) as (r' & Ha' & Hc'); [intros; apply Hn; by right|]. exists r'. split; [done|].
  by rewrite Hc', Hc, <- app_assoc.
Qed.

(** names below a mount point *)
Lemma open_loop_names fuel m od c canon mn f dir k w names :
  sf_dir f dir -> wf c -> remaining c = Normal <$> names -> names <> [] -> (forall n, n ∈ names -> is_name n) ->
  0 <= k -> (k = 0 -> exists n0, nodes m !! mn = Some n0 /\ forall n, head names = Some n -> child m mn n = None) ->
  Forall ascii canon -> (length names < fuel)%nat ->
  exists canon', Forall ascii canon' /\ comps canon' = comps canon ++ (Normal <$> names) /\
    open_loop fuel m od c canon mn (Dyn f) dir k w = Ret (finish od canon' f (resolve w f dir names), w).
Proof.
  revert c canon dir k names. induction fuel as [|fuel IH]; intros c canon dir k names Hdir Hwf Hrem Hne Hnames Hk Hch Ha Hfuel; [lia|].
  destruct names as [|n names]; [done|]. clear Hne.
  assert (is_name n) as Hn by (apply Hnames; by left). pose proof (name_not_nil n Hn) as Hnil.
  destruct (next_spec c Hwf) as (c' & Hnext & Hw' & Hr' & _). rewrite Hrem in Hnext, Hr'. cbn [fmap list_fmap head tail] in Hnext, Hr'.
  destruct (push_path_spec canon n Ha Hn) as (canon1 & Hpush & Ha1 & Hc1).
  assert (Hfin : exists canon', Forall ascii canon' /\ comps canon' = comps canon ++ (Normal <$> n :: names) /\
    (canonical_path ← lift (push_path canon n);
        r ← treverse_dir (Dyn f) dir n;
        match r with
        | Err e => mret (Err e)
        | Ok entry =>
            b ← lift (more c');
            if (b : bool) then
              match entry with
              | NDirectory dir => open_loop fuel m od c' canonical_path mn (Dyn f) dir (k + 1)
              | NFile _ => mret (Err IsNotDirectory)
              end
            else if od then
              (if is_dir entry then mret (Ok (canonical_path, Dyn f, entry)) else mret (Err IsNotDirectory))
            else
              r ← try_open_device entry;
              mret (match r with Ok entry => Ok (canonical_path, Dyn f, entry) | Err e => Err e end)
        end) w = Ret (finish od canon' f (resolve w f dir (n :: names)), w)).
  { unfold mbind, ST_bind. rewrite Hpush. cbn [lift treverse_dir]. rewrite sf_treverse by done.
    destruct names as [|n2 names].
    - exists canon1. split; [done|]. split; [done|]. cbn [resolve]. destruct (sf_lookup w f dir n) as [entry|e]; [|done].
      rewrite more_spec by done. rewrite Hr'. cbn [fmap list_fmap]. rewrite bool_decide_eq_true_2 by done. cbn [negb lift].
      unfold finish. destruct od; cbn [andb]; [by destruct entry|]. by rewrite try_open_device_static.
    - cbn [resolve]. destruct (sf_lookup w f dir n) as [entry|e] eqn:Hl.
      + rewrite more_spec by done. rewrite Hr', bool_decide_eq_false_2 by done. cbn [negb lift].
        destruct entry as [fl|d'].
        * destruct (IH c' canon1 dir (k + 1) (n2 :: names)) as (canon2 & Ha2 & Hc2 & _);
            [done..|intros; apply Hnames; by right|lia|lia|done|cbn in *; lia|].
          exists canon2. split; [done|]. split; [by rewrite Hc2, Hc1, <- app_assoc|done].
        * pose proof (sf_lookup_dir _ _ _ _ _ Hdir Hl) as Hdir'. destruct (IH c' canon1 d' (k + 1) (n2 :: names)) as (canon2 & Ha2 & Hc2 & He);
            [done..|intros; apply Hnames; by right|lia|lia|done|cbn in *; lia|].
          exists canon2. split; [done|]. split; [by rewrite Hc2, Hc1, <- app_assoc|exact He].
      + destruct (IH c' canon1 dir (k + 1) (n2 :: names)) as (canon2 & Ha2 & Hc2 & _);
          [done..|intros; apply Hnames; by right|lia|lia|done|cbn in *; lia|].
        exists canon2. split; [done|]. split; [by rewrite Hc2, Hc1, <- app_assoc|done]. }
  destruct Hfin as (canon' & Ha' & Hc' & He). exists canon'. split; [done|]. split; [done|].
  cbn [open_loop]. unfold mbind at 1, ST_bind at 1, lift at 1. rewrite Hnext.
  destruct n as [|b n]; [done|]. destruct (Z.eqb_spec k 0) as [-> | Hk0]; [|exact He].
  destruct (Hch eq_refl) as (n0 & Hn0 & Hnone). unfold mbind at 1, ST_bind at 1, lift at 1.
  rewrite (try_find_child_eq _ _ _ _ Hn0), (Hnone (b :: n) eq_refl). exact He.
Qed.

Lemma open_loop_done fuel m od c canon mn (fs : dynfs (F := F)) dir k w : wf c -> remaining c = [] ->
  open_loop (S fuel) m od c canon mn fs dir k w = Ret (Ok (canon, fs, NDirectory dir), w).
Proof.
  intros Hwf Hrem. cbn [open_loop]. unfold mbind at 1, ST_bind at 1, lift at 1.
  destruct (next_spec c Hwf) as (c' & -> & _). by rewrite Hrem.
Qed.

(** [open_inode] once the mount point is known *)
Lemma open_inode_eq s m p mp rest id (fs : dynfs (F := F)) :
  vmapping s = Some m -> is_absolute p = true -> get_mapping m p = Ret (Ok (mp, rest, id)) -> filesystem m id = Ret fs ->
  open_inode p s = on_world (r ← open_root fs;
          match r with
          | Err e => mret (Err e)
          | Ok dir =>
              if is_root rest || is_empty rest then mret (Ok (mp, fs, NDirectory dir))
              else open_loop (length rest + 3) m (has_last_separator p) (components rest) mp id fs dir 0
          end) s.
Proof.
  intros Hm Hp Hg Hfs. unfold open_inode. rewrite Hp.
  rewrite (st_bind get_mapping_lock _ s m s) by (unfold get_mapping_lock, mbind, ST_bind, get; by rewrite Hm).
  rewrite (st_bind _ _ s _ s (st_lift _ _ _ Hg)). by rewrite (st_bind _ _ s _ s (st_lift _ _ _ Hfs)).
Qed.

Lemma names_of_comps p names l : Forall ascii p -> comps p = RootDir :: (Normal <$> names) ++ l ->
  forall n, n ∈ names -> is_name n.
Proof.
  intros Hp Hc n Hn. apply (comps_normal p n Hp). rewrite Hc. right. apply elem_of_app. left.
  apply list_elem_of_fmap. by exists n.
Qed.

Lemma absolute_comps p l : comps p = RootDir :: l -> is_absolute p = true.
Proof. intros Hc. apply (proj1 (head_root p)). by rewrite Hc. Qed.

(** Absolute paths of plain names resolve as the reference says: the deepest
    mount point on the way, then lookup by lookup from the root of its file
    system; a trailing separator demands a directory; the canonical path has
    the components of the path. *)
Lemma open_inode_spec s m p names :
  vmapping s = Some m -> wf_map m -> Forall ascii p -> comps p = RootDir :: (Normal <$> names) ->
  exists ns tl canon fs, names = ns ++ tl /\ view m ns = Some fs /\
    (forall k, head tl = Some k -> view m (ns ++ [k]) = None) /\ comps canon = comps p /\
    open_inode p s = Ret (match fs with
                          | EmptyFileSystem => Err FsTypes.FileNotFound
                          | Dyn f => finish (has_last_separator p) canon f (resolve (world s) f (sf_root f) tl)
                          end, s).
Proof.
  intros Hm Hwf Hp Hc. pose proof (get_mapping_spec m p Hwf Hp) as Hg. rewrite Hc in Hg.
  destruct Hg as (ns & mp & rest & id & Hg & Hres). destruct Hres as [Hl Har Hrel Hmp Hmpa Hwalk Hlong].
  destruct (walk_node m ns id Hwf Hwalk) as (nd & Hnd).
  assert (exists tl, names = ns ++ tl /\ comps rest = Normal <$> tl) as (tl & Hnames & Hrest).
  { apply fmap_app_inv in Hl as (ns2 & tl & Hns & Htl & ->).
    apply list_fmap_eq_inj in Hns; [|by intros ?? [=]]. subst ns2. by exists tl. }
  pose proof (names_of_comps p names [] Hp ltac:(by rewrite app_nil_r)) as Hall.
  assert (filesystem m id = Ret (mn_filesystem nd)) as Hfsid by (unfold filesystem, node; by rewrite Hnd).
  rewrite (open_inode_eq s m p mp rest id _ Hm (absolute_comps _ _ Hc) Hg Hfsid).
  assert (view m ns = Some (mn_filesystem nd)) as Hview by (unfold view; rewrite Hwalk; cbn; by rewrite Hnd).
  destruct (mn_filesystem nd) as [|f] eqn:Hfs.
  { destruct (push_names mp tl Hmpa) as (canon & Hac & Hcc); [intros; apply Hall; rewrite Hnames; set_solver|].
    exists ns, tl, canon, EmptyFileSystem. split_and!; [done|done| | |].
    - intros k Hk. apply view_None; [done|]. apply Hlong. rewrite Hrest. by destruct tl; [|injection Hk as ->].
    - by rewrite Hcc, Hmp, Hc, Hnames, fmap_app.
    - by destruct s. }
  destruct (decide (tl = [])) as [->|Htl].
  - exists ns, [], mp, (Dyn f). rewrite app_nil_r in Hnames. subst ns. split_and!; [by rewrite app_nil_r|done|done|by rewrite Hmp, Hc|].
    unfold on_world, mbind, ST_bind. cbn [open_root]. rewrite sf_open_root.
    unfold finish. cbn [resolve is_dir negb]. rewrite andb_false_r.
    destruct (is_root rest || is_empty rest); [by destruct s|].
    replace (length rest + 3)%nat with (S (length rest + 2)) by lia.
    rewrite open_loop_done; [by destruct s|by apply wf_components|]. by rewrite remaining_components, Hrest.
  - destruct (open_loop_names (length rest + 3) m (has_last_separator p) (components rest) mp id f (sf_root f) 0 (world s) tl)
      as (canon & Hac & Hcc & He).
    + apply sf_root_dir.
    + by apply wf_components.
    + by rewrite remaining_components.
    + done.
    + intros n Hn. apply Hall. rewrite Hnames. set_solver.
    + lia.
    + intros _. exists nd. split; [done|]. intros n Hn.
      assert (walk m (root m) (ns ++ [n]) = None) as Hno by (apply Hlong; rewrite Hrest; by destruct tl; [|injection Hn as ->]).
      by rewrite walk_snoc, Hwalk in Hno.
    + done.
    + pose proof (comps_length rest) as Hlen. rewrite Hrest, length_fmap in Hlen. lia.
    + exists ns, tl, canon, (Dyn f). split_and!; [done|done| | |].
      * intros k Hk. apply view_None; [done|]. apply Hlong. rewrite Hrest. by destruct tl; [|injection Hk as ->].
      * by rewrite Hcc, Hmp, Hc, Hnames, fmap_app.
      * unfold on_world, mbind, ST_bind. cbn [open_root]. rewrite sf_open_root.
        assert (is_root rest || is_empty rest = false) as ->.
        { unfold is_root, is_empty. rewrite !bool_decide_eq_false_2; [done|..]; intros ->; destruct tl; done. }
        rewrite He. by destruct s.
Qed.

(** ** Single steps of the loop *)
Lemma open_loop_enter fuel m od c canon mn f dir k w n x l d' :
  sf_dir f dir -> wf c -> remaining c = Normal n :: x :: l -> is_name n -> Forall ascii canon -> 0 <= k ->
  (k = 0 -> exists n0, nodes m !! mn = Some n0 /\ child m mn n = None) -> sf_lookup w f dir n = Ok (NDirectory d') ->
  exists c' canon', wf c' /\ remaining c' = x :: l /\ Forall ascii canon' /\ comps canon' = comps canon ++ [Normal n] /\
    open_loop (S fuel) m od c canon mn (Dyn f) dir k w = open_loop fuel m od c' canon' mn (Dyn f) d' (k + 1) w.
Proof.
  intros Hdir Hwf Hrem Hn Ha Hk Hch Hl. destruct (next_spec c Hwf) as (c' & Hnext & Hw' & Hr' & _).
  rewrite Hrem in Hnext, Hr'. cbn [head tail] in Hnext, Hr'.
  destruct (push_path_spec canon n Ha Hn) as (canon1 & Hpush & Ha1 & Hc1). exists c', canon1. split_and!; [done..|].
  cbn [open_loop]. rewrite (st_bind _ _ w _ w (st_lift _ _ _ Hnext)). pose proof (name_not_nil n Hn) as Hnil.
  assert (He : forall k1 : bytes -> dynfs (F := F) -> Node -> ST W (result opened E),
    (canonical_path ← lift (push_path canon n);
     r ← treverse_dir (Dyn f) dir n;
     match r with
     | Err e => mret (Err e)
     | Ok entry =>
         b ← lift (more c');
         if (b : bool) then
           match entry with
           | NDirectory dir => open_loop fuel m od c' canonical_path mn (Dyn f) dir (k + 1)
           | NFile _ => mret (Err IsNotDirectory)
           end
         else k1 canonical_path (Dyn f) entry
     end) w = open_loop fuel m od c' canon1 mn (Dyn f) d' (k + 1) w).
  { intros k1. rewrite (st_bind _ _ w _ w (st_lift _ _ _ Hpush)). rewrite (st_bind _ _ w (Ok (NDirectory d')) w) by (cbn [treverse_dir]; by rewrite sf_treverse, Hl by done).
    rewrite (st_bind _ _ w true w); [done|]. apply st_lift. rewrite more_spec, Hr', bool_decide_eq_false_2 by done. done. }
  destruct n as [|b n]; [done|]. destruct (Z.eqb_spec k 0) as [-> | Hk0].
  - destruct (Hch eq_refl) as (n0 & Hn0 & Hnone).
    rewrite (st_bind _ _ w None w) by (apply st_lift; by rewrite (try_find_child_eq _ _ _ _ Hn0), Hnone).
    exact (He (fun canonical_path fs entry => if od then _ else _)).
  - exact (He (fun canonical_path fs entry => if od then _ else _)).
Qed.

Lemma pop_path_spec p l n : Forall ascii p -> comps p = l ++ [Normal n] ->
  exists q, pop_path p = Ret q /\ Forall ascii q /\ comps q = l.
Proof.
  intros Hp Hc. pose proof (path_pop_spec p Hp) as Hpop. rewrite Hc, last_snoc in Hpop.
  destruct Hpop as (q & Hq & Ha & Hcq). exists q. unfold pop_path. rewrite Hq. by rewrite removelast_last in Hcq.
Qed.

(** going up inside a file system: the canonical path shrinks, the directory
    stays *)
Lemma open_loop_up fuel m od c canon mn (fs : dynfs (F := F)) dir k w l cl n :
  wf c -> remaining c = ParentDir :: l -> 0 < k -> Forall ascii canon -> comps canon = cl ++ [Normal n] ->
  exists c' canon', wf c' /\ remaining c' = l /\ Forall ascii canon' /\ comps canon' = cl /\
    open_loop (S fuel) m od c canon mn fs dir k w = open_loop fuel m od c' canon' mn fs dir (k - 1) w.
Proof.
  intros Hwf Hrem Hk Ha Hc. destruct (next_spec c Hwf) as (c' & Hnext & Hw' & Hr' & _).
  rewrite Hrem in Hnext, Hr'. destruct (pop_path_spec canon cl n Ha Hc) as (canon1 & Hpop & Ha1 & Hc1).
  exists c', canon1. split_and!; [done..|]. cbn [open_loop]. rewrite (st_bind _ _ w _ w (st_lift _ _ _ Hnext)).
  cbn [head]. rewrite (proj2 (Z.eqb_neq k 0)) by lia. by rewrite (st_bind _ _ w _ w (st_lift _ _ _ Hpop)).
Qed.

(** [..] below a mount point does not leave the directory it is meant to
    leave: [/a/../b] is looked up as [/a/b], while the canonical path says
    [/b]. *)
Theorem open_inode_dotdot_stays s m p a b f da :
  vmapping s = Some m -> wf_map m -> Forall ascii p -> comps p = [RootDir; Normal a; ParentDir; Normal b] ->
  view m [] = Some (Dyn f) -> view m [a] = None -> view m [b] = None -> sf_lookup (world s) f (sf_root f) a = Ok (NDirectory da) ->
  exists canon, comps canon = [RootDir; Normal b] /\
    open_inode p s = Ret (finish (has_last_separator p) canon f (sf_lookup (world s) f da b), s).
Proof.
  intros Hm Hwf Hp Hc Hroot Hva Hvb Hl. pose proof (get_mapping_spec m p Hwf Hp) as Hg. rewrite Hc in Hg.
  destruct Hg as (ns & mp & rest & id & Hg & Hres). destruct Hres as [Hrest Har Hrel Hmp Hmpa Hwalk Hlong].
  assert (ns = [] /\ comps rest = [Normal a; ParentDir; Normal b]) as [-> Hrc].
  { destruct ns as [|k [|k2 ns]]; [done| |done]. injection Hrest as -> _. exfalso.
    apply (view_None m [k] Hwf) in Hva. congruence. }
  injection Hwalk as <-. destruct (wm_root m Hwf) as (nd & Hnd & _).
  assert (filesystem m (root m) = Ret (Dyn f)) as Hfs.
  { revert Hroot. unfold view, filesystem, node. cbn. rewrite Hnd. cbn. by intros [= ->]. }
  assert (is_name a /\ is_name b) as [Hna Hnb].
  { split; apply (comps_normal p _ Hp); rewrite Hc; set_solver. }
  assert (Hno : forall k, view m [k] = None -> child m (root m) k = None).
  { intros k Hk. apply (view_None m [k] Hwf) in Hk. cbn in Hk. by destruct (child m (root m) k). }
  rewrite (open_inode_eq s m p mp rest (root m) _ Hm (absolute_comps _ _ Hc) Hg Hfs).
  assert (is_root rest || is_empty rest = false) as Hne.
  { unfold is_root, is_empty. rewrite !bool_decide_eq_false_2; [done|..]; intros ->; done. }
  pose proof (comps_length rest) as Hlen. rewrite Hrc in Hlen. cbn in Hlen.
  replace (length rest + 3)%nat with (S (S (S (length rest)))) by lia.
  destruct (open_loop_enter (S (S (length rest))) m (has_last_separator p) (components rest) mp (root m) f (sf_root f) 0 (world s)
    a ParentDir [Normal b] da) as (c1 & canon1 & Hw1 & Hr1 & Ha1 & Hc1 & He1);
    [apply sf_root_dir|by apply wf_components|by rewrite remaining_components|done|done|lia|by exists nd; auto|done|].
  destruct (open_loop_up (S (length rest)) m (has_last_separator p) c1 canon1 (root m) (Dyn f) da 1 (world s) [Normal b] [RootDir] a)
    as (c2 & canon2 & Hw2 & Hr2 & Ha2 & Hc2 & He2); [done|done|lia|done|by rewrite Hc1, Hmp|].
  destruct (open_loop_names (S (length rest)) m (has_last_separator p) c2 canon2 (root m) f da 0 (world s) [b])
    as (canon3 & Ha3 & Hc3 & He3); [by eapply sf_lookup_dir; [apply sf_root_dir|exact Hl]|done|done|done|by intros n ->%list_elem_of_singleton|lia| |done|cbn; lia|].
  { intros _. exists nd. split; [done|]. intros n [= <-]. by apply Hno. }
  exists canon3. split; [by rewrite Hc3, Hc2|]. unfold on_world, mbind at 1, ST_bind at 1. cbn [open_root].
  change (0 + 1) with 1 in He1. change (1 - 1) with 0 in He2. rewrite sf_open_root, Hne, He1, He2, He3. by destruct s.
Qed.

(** C13: Absolute ASCII paths without [..] resolve as the reference says, over
    file systems that can be looked up without changing: the deepest mount point
    on the way, then lookup by lookup from the root of its file system; a
    trailing separator demands a directory; the canonical path has the
    components of the path. *)
Theorem open_inode_resolves s m p names :
  vmapping s = Some m -> wf_map m -> Forall ascii p -> comps p = RootDir :: (Normal <$> names) ->
  exists ns tl canon fs, names = ns ++ tl /\ view m ns = Some fs /\
    (forall k, head tl = Some k -> view m (ns ++ [k]) = None) /\ comps canon = comps p /\
    open_inode p s = Ret (match fs with
                          | EmptyFileSystem => Err FsTypes.FileNotFound
                          | Dyn f => finish (has_last_separator p) canon f (resolve (world s) f (sf_root f) tl)
                          end, s).
Proof. apply open_inode_spec. Qed.

(** A file that [open_blocking] creates gets a handle whose path is the path
    of its directory, not its own. *)
Theorem created_file_has_parent_path s m p names n f d fn w' (b : BlockingMode) :
  vmapping s = Some m -> wf_map m -> Forall ascii p -> comps p = RootDir :: (Normal <$> names) ++ [Normal n] ->
  view m [] = Some (Dyn f) -> (forall k ns, view m (k :: ns) = None) ->
  resolve (world s) f (sf_root f) (names ++ [n]) = Err FsTypes.FileNotFound ->
  resolve (world s) f (sf_root f) names = Ok (NDirectory d) ->
  fs_create_node f d n ATTR_EMPTY (world s) = Ret (Ok (NFile fn), w') ->
  let o := Z.lor OO_WRITE OO_CREATE in
  exists fl s', open_blocking p b o s = Ret (Ok fl, s') /\ world s' = w' /\
    f_inode fl = fn /\ comps (f_path fl) = RootDir :: (Normal <$> names).
Proof.
  intros Hm Hwf Hp Hc Hroot Hflat Hmiss Hdir Hcreate o.
  assert (comps p = RootDir :: (Normal <$> names ++ [n])) as Hc' by (by rewrite Hc, fmap_app).
  assert (Hone : forall q names r, Forall ascii q -> comps q = RootDir :: (Normal <$> names) ->
    resolve (world s) f (sf_root f) names = r -> exists canon, comps canon = comps q /\
    open_inode q s = Ret (finish (has_last_separator q) canon f r, s)).
  { intros q names' r Hq Hcq Hr. destruct (open_inode_spec s m q names' Hm Hwf Hq Hcq) as (ns & tl & canon & fs & Hn & Hv & _ & Hcan & Ho).
    exists canon. split; [done|]. destruct ns as [|k ns]; [|by rewrite Hflat in Hv]. cbn in Hn. subst tl.
    rewrite Hroot in Hv. injection Hv as <-. by rewrite Ho, Hr. }
  pose proof (parent_spec p Hp) as Hpar. rewrite Hc in Hpar.
  change (RootDir :: (Normal <$> names) ++ [Normal n]) with ((RootDir :: (Normal <$> names)) ++ [Normal n]) in Hpar.
  rewrite last_snoc, removelast_last in Hpar. destruct Hpar as (q & w0 & Hq & _ & Haq & Hcq).
  destruct (Hone p _ _ Hp Hc' Hmiss) as (canon1 & _ & Ho1). destruct (Hone q _ _ Haq Hcq Hdir) as (canon2 & Hcan2 & Ho2).
  assert (file_name p = Ret (Some n)) as Hfn.
  { rewrite file_name_spec, Hc by done.
    change (RootDir :: (Normal <$> names) ++ [Normal n]) with ((RootDir :: (Normal <$> names)) ++ [Normal n]). by rewrite last_snoc. }
  assert (is_name n) as Hname by (apply (comps_normal p n Hp); rewrite Hc; set_solver).
  unfold open_blocking, open_or_create. unfold mbind at 1, ST_bind at 1.
  rewrite (st_bind _ _ s _ s Ho1). cbn [finish]. change (is_create o || is_create_new o) with true. cbn iota.
  rewrite (st_bind _ _ s _ s (st_lift _ _ _ Hq)). rewrite (st_bind _ _ s q s) by done.
  rewrite (st_bind _ _ s _ s Ho2). unfold finish. cbn [is_dir negb]. rewrite andb_false_r.
  rewrite (st_bind _ _ s _ s (st_lift _ _ _ Hfn)). rewrite (st_bind _ _ s n s) by done.
  rewrite !bool_decide_eq_false_2.
  2: { intros ->. pose proof (name_free _ Hname) as Hf. apply Hf. by left. }
  2-3: intros ->; by pose proof (name_parse _ Hname).
  cbn [orb into_dir]. rewrite (st_bind _ _ s (Ok (NFile fn)) (mkVfs (vmapping s) w')).
  2: { unfold on_world, create_node. by rewrite Hcreate. }
  eexists _, _. split; [done|]. split; [done|]. split; [done|]. cbn. by rewrite Hcan2.
Qed.
End resolution.

(** ** File handles *)
Section handles.
Context {F W : Type} `{FileSystem F W}.

(** What reading relies on: as long as [inv] holds, a read at any position
    returns bytes of [content] from there on, at least one if there is one
    and room for it, and keeps [inv]. *)
Record reads_content (fs : dynfs (F := F)) (inode : FileNode) (content : bytes) (inv : W -> AccessHelper -> Prop) : Prop :=
  { rc_read : forall w h pos n, inv w h -> 0 <= pos -> 0 <= n ->
      exists l w' h', read_file fs inode pos n h w = Ret ((Ok l, h'), w') /\ inv w' h' /\
        l `prefix_of` drop (Z.to_nat pos) content /\ Z.of_nat (length l) <= n /\
        (pos < Z.of_nat (length content) -> 0 < n -> l <> []) }.

(** a handle in the simple mode, opened for reading *)
Record plain_reader (fs : dynfs (F := F)) (inode : FileNode) (f : File (F := F)) : Prop := {
  pr_fs : f_filesystem f = fs;
  pr_inode : f_inode f = inode;
  pr_mode : f_blocking_mode f = BmNone;
  pr_access : fa_read (f_access f) = true
}.

Lemma read_plain fuel fs inode content inv n w f :
  reads_content fs inode content inv -> plain_reader fs inode f -> inv w (f_access_helper f) ->
  0 <= f_position f -> f_position f <= Z.of_nat (length content) < 2 ^ 63 -> 0 <= n ->
  exists l w' f', read fuel n (w, f) = Ret (Ok l, (w', f')) /\ inv w' (f_access_helper f') /\ plain_reader fs inode f' /\
    l `prefix_of` drop (Z.to_nat (f_position f)) content /\ Z.of_nat (length l) <= n /\
    (f_position f < Z.of_nat (length content) -> 0 < n -> l <> []) /\
    f_position f' = f_position f + Z.of_nat (length l) /\ f_position f' <= Z.of_nat (length content).
Proof.
  intros Hrc [Hfs Hin Hmode Hacc] Hinv Hpos Hlen Hn.
  destruct (rc_read _ _ _ _ Hrc w (f_access_helper f) (f_position f) n Hinv Hpos Hn) as (l & w' & h' & Hr & Hinv' & Hpre & Hl & Hprog).
  assert (Z.of_nat (length l) <= Z.of_nat (length content) - f_position f) as Hll.
  { apply prefix_length in Hpre. rewrite length_drop in Hpre. lia. }
  exists l, w', (with_position (f_position f + Z.of_nat (length l)) (with_helper h' f)).
  split_and!; [|done|done|done|done|done|done|cbn; lia].
  unfold read. unfold mbind at 1, ST_bind at 1, get at 1. rewrite Hacc, Hmode.
  rewrite (st_bind (fs_read n) _ (w, f) (Ok l) (w', with_helper h' f)) by (unfold fs_read; by rewrite Hfs, Hin, Hr).
  unfold advance, mbind, ST_bind, get. cbn [with_helper f_position]. rewrite cadd_ret by lia. done.
Qed.

Lemma read_to_end_loop_spec fuel rfuel fs inode content inv w f buf :
  reads_content fs inode content inv -> plain_reader fs inode f -> inv w (f_access_helper f) ->
  length buf = length content -> Z.of_nat (length content) < 2 ^ 63 ->
  0 <= f_position f <= Z.of_nat (length content) ->
  take (Z.to_nat (f_position f)) buf = take (Z.to_nat (f_position f)) content ->
  (length content - Z.to_nat (f_position f) + 1 < fuel)%nat ->
  exists w' f', read_to_end_loop fuel rfuel buf (f_position f) (w, f) = Ret (Ok content, (w', f')) /\
    plain_reader fs inode f' /\ f_position f' = Z.of_nat (length content).
Proof.
  intros Hrc. revert w f buf. induction fuel as [|fuel IH]; intros w f buf Hpr Hinv Hbuf Hsz Hpos Htake Hfuel; [lia|].
  destruct (read_plain rfuel fs inode content inv (Z.of_nat (length buf) - f_position f) w f) as
    (l & w' & f' & Hr & Hinv' & Hpr' & Hpre & Hl & Hprog & Hpos' & Hle); [done|done|done|lia|lia|lia|].
  cbn [read_to_end_loop]. rewrite (st_bind _ _ (w, f) _ _ Hr).
  destruct l as [|x l].
  - assert (f_position f = Z.of_nat (length content)) as Heq.
    { destruct (Z.ltb_spec (f_position f) (Z.of_nat (length content))) as [Hlt|]; [|lia].
      exfalso. by apply Hprog; [done|lia|]. }
    exists w', f'. rewrite Heq, Nat2Z.id in Htake. rewrite !take_ge in Htake by lia. subst buf. split; [done|].
    split; [done|]. cbn in Hpos'. lia.
  - remember (x :: l) as k eqn:Hk. set (p := Z.to_nat (f_position f)) in *.
    assert (p + length k <= length content)%nat as Hpk.
    { apply prefix_length in Hpre. rewrite length_drop in Hpre. lia. }
    destruct Hpre as [tl Htl].
    rewrite <- Hpos'. destruct (IH w' f' (take p buf ++ k ++ drop (p + length k) buf)) as (w2 & f2 & He & Hp2 & Hpos2); [done|done| |done| | | |].
    + rewrite !length_app, length_take, length_drop. lia.
    + lia.
    + replace (Z.to_nat (f_position f')) with (p + length k)%nat by lia.
      rewrite app_assoc, take_app_le by (rewrite length_app, length_take; lia).
      rewrite take_ge by (rewrite length_app, length_take; lia). rewrite Htake.
      rewrite <- (take_drop p content) at 2. rewrite Htl, take_app_ge by (rewrite length_take; lia).
      f_equal. rewrite length_take, Nat.min_l by lia. replace (p + length k - p)%nat with (length k) by lia.
      by rewrite take_app_length.
    + assert (0 < length k)%nat by (subst k; cbn; lia). lia.
    + exists w2, f2. split; [|done]. rewrite Hk in *. exact He.
Qed.

(** [read_to_end] returns the whole file, whatever sizes the reads of the
    file system return, and leaves the handle at its end. *)
Theorem read_to_end_reads_all rfuel fs inode content inv w f :
  reads_content fs inode content inv -> plain_reader fs inode f -> inv w (f_access_helper f) ->
  f_position f = 0 -> fn_size inode = Z.of_nat (length content) -> Z.of_nat (length content) < 2 ^ 63 ->
  exists w' f', read_to_end rfuel (w, f) = Ret (Ok content, (w', f')) /\ f_position f' = Z.of_nat (length content).
Proof.
  intros Hrc Hpr Hinv Hpos Hsize Hlen. unfold read_to_end. rewrite (st_bind get _ (w, f) (w, f) (w, f)) by done.
  rewrite (pr_inode _ _ _ Hpr), Hsize, Nat2Z.id.
  destruct (read_to_end_loop_spec (length content + 2) rfuel fs inode content inv w f (replicate (length content) 0))
    as (w' & f' & He & _ & Hp); [done|done|done|by rewrite length_replicate|lia|lia|by rewrite Hpos| |].
  - rewrite Hpos. cbn. lia.
  - rewrite Hpos in He. by exists w', f'.
Qed.

(** Reading a line from a regular file never returns when the byte at the
    current position is neither a newline nor NUL: the loop reads that byte
    again and again. *)
Theorem read_line_regular_file_hangs fuel n w f c :
  f_blocking_mode f = BmLine -> fa_read (f_access f) = true ->
  (forall h, exists h', read_file (f_filesystem f) (f_inode f) (f_position f) 1 h w = Ret ((Ok [c], h'), w)) ->
  c <> 10 -> c <> 0 -> read fuel n (w, f) = Diverge.
Proof.
  intros Hmode Hacc Hread H10 H0. unfold read. rewrite (st_bind get _ (w, f) (w, f) (w, f)) by done.
  rewrite Hacc, Hmode.
  assert (Hloop : forall fuel acc h, read_line fuel n acc (w, with_helper h f) = Diverge).
  { intros k. induction k as [|k IH]; intros acc h; [done|]. cbn [read_line]. destruct (Hread h) as [h' Hh].
    rewrite (st_bind (fs_read 1) _ _ (Ok [c]) (w, with_helper h' f)) by (unfold fs_read; cbn; by rewrite Hh).
    rewrite (proj2 (Z.eqb_neq c 10)), (proj2 (Z.eqb_neq c 0)) by done. cbn [orb]. apply IH. }
  unfold mbind, ST_bind. specialize (Hloop fuel [] (f_access_helper f)).
  replace (with_helper (f_access_helper f) f) with f in Hloop by (by destruct f). by rewrite Hloop.
Qed.

(** Access rights: a handle that was not opened for reading or writing
    refuses, without touching the file system or itself. *)
Theorem file_access_respected fuel n buf size w (f : File (F := F)) :
  (fa_read (f_access f) = false -> read fuel n (w, f) = Ret (Err ReadNotSupported, (w, f))) /\
  (fa_write (f_access f) = false ->
     write buf (w, f) = Ret (Err WriteNotSupported, (w, f)) /\
     flush (w, f) = Ret (Err WriteNotSupported, (w, f)) /\
     set_size size (w, f) = Ret (Err WriteNotSupported, (w, f))).
Proof.
  split; [intros Hr|intros Hw].
  - unfold read. rewrite (st_bind get _ (w, f) (w, f) (w, f)) by done. by rewrite Hr.
  - unfold write, flush, set_size. by rewrite Hw.
Qed.
End handles.

(** ** A small file system: a fixed tree whose reads return two bytes at most *)
Module TreeFs.
From Stdlib Require String.
Import Stdlib.Strings.String.StringSyntax.

Definition dir (name : bytes) (c : Z) : DirectoryNode := mkDirectoryNode (mkBaseNode name ATTR_DIRECTORY c 0 0).
Definition file (name : bytes) (c size : Z) : FileNode := mkFileNode (mkBaseNode name ATTR_EMPTY c 0 0) size None.
Definition A := of_string "a".
Definition B := of_string "b".
Definition listing (c : Z) : list Node :=
  if c =? 1 then [NDirectory (dir A 2); NFile (file B 10 3)]
  else if c =? 2 then [NFile (file B 11 5)] else [].
Definition content (c : Z) : bytes := if c =? 11 then of_string "hello" else of_string "abc".
Definition lookup (d : DirectoryNode) (n : bytes) : result Node E :=
  match list_find (fun e => node_name e = n) (listing (start_cluster (dn_base d))) with
  | Some (_, e) => Ok e
  | None => Err FsTypes.FileNotFound
  end.
Definition chunk (c pos n : Z) : bytes := take (Z.to_nat (n `min` 2)) (drop (Z.to_nat pos) (content c)).

#[global] Instance tree_fs : FileSystem unit unit := {|
  fs_open_root _ := mret (Ok (dir (of_string "/") 1));
  fs_read_dir _ d A h a := fun w =>
    '(a, _) ← foldl (fun (acc : outcome (A * bool)) e =>
        '(a, stopped) ← acc;
        if stopped : bool then Ret (a, true) else
        '(a, t) ← h e a; Ret (a, match t with Stop => true | Continue => false end))
      (Ret (a, false)) (listing (start_cluster (dn_base d)));
    Ret ((Ok tt, a), w);
  fs_treverse_dir _ d n := mret (lookup d n);
  fs_create_node _ d n a := mret (Ok (NFile (file n 99 0)));
  fs_read_file _ i pos n h := mret (Ok (chunk (start_cluster (fn_base i)) pos n), h);
  fs_write_file _ i pos buf h := mret (Err WriteNotSupported, i, h);
  fs_flush_file _ i h := mret (Ok tt, i, h);
  fs_close_file _ i h := mret (Ok tt);
  fs_set_file_size _ i n := mret (Err WriteNotSupported, i);
  fs_number_global_refs _ := 0;
  fs_unmount _ := mret tt;
  fs_strong_count _ := mret 1;
  dev_read _ _ _ := mret (Err ReadNotSupported);
  dev_write _ _ _ := mret (Err WriteNotSupported);
  dev_set_size _ _ := mret (Err WriteNotSupported);
  dev_try_create _ := mret None;
  dev_clone_device _ := mret (Ok tt)
|}.
#[global] Instance tree_static : StaticFs unit unit := {|
  sf_root _ := dir (of_string "/") 1; sf_dir _ _ := True; sf_lookup _ _ := lookup; sf_root_dir _ := I; sf_lookup_dir _ _ _ _ _ _ _ := I;
  sf_open_root _ _ := eq_refl; sf_treverse _ _ _ _ _ := eq_refl; sf_try_create _ _ := eq_refl
|}.

(** the tree mounted at the root *)
Definition booted : Vfs (F := unit) (W := unit) :=
  match mount [SEPARATOR] (Dyn tt) (mkVfs None tt) with Ret (_, s) => s | _ => mkVfs None tt end.
Definition mapping : FileSystemMapping (F := unit) := table booted.

Lemma mapping_wf : wf_map mapping.
Proof.
  destruct (mount_root_empty (mkVfs None tt) (Dyn tt) wf_empty_root eq_refl) as (s' & Hs & _ & Hwf & _).
  unfold mapping, booted. by rewrite Hs.
Qed.

Ltac ascii_tac := repeat constructor; unfold ascii; lia.

Lemma view_flat k ns : view mapping (k :: ns) = None.
Proof. apply view_None; [apply mapping_wf|]. reflexivity. Qed.

Lemma open_inode_resolves_witness : exists canon,
  comps canon = [RootDir; Normal A; Normal B] /\
  open_inode (of_string "/a//b") booted = Ret (Ok (canon, Dyn tt, NFile (file B 11 5)), booted).
Proof.
  destruct (open_inode_resolves booted mapping (of_string "/a//b") [A; B]) as (ns & tl & canon & fs & Hn & Hv & _ & Hc & Ho);
    [reflexivity|apply mapping_wf|ascii_tac|reflexivity|].
  exists canon. split; [exact Hc|]. destruct ns as [|k ns]; [|by rewrite view_flat in Hv].
  cbn in Hn. subst tl. vm_compute in Hv. injection Hv as <-. rewrite Ho. vm_compute. reflexivity.
Defined.

Lemma open_inode_dotdot_stays_witness : exists canon,
  comps canon = [RootDir; Normal B] /\
  open_inode (of_string "/a/../b") booted = Ret (Ok (canon, Dyn tt, NFile (file B 11 5)), booted).
Proof.
  destruct (open_inode_dotdot_stays booted mapping (of_string "/a/../b") A B tt (dir A 2)) as (canon & Hc & Ho);
    [reflexivity|apply mapping_wf|ascii_tac|reflexivity|reflexivity|apply view_flat|apply view_flat|reflexivity|].
  exists canon. split; [exact Hc|]. rewrite Ho. vm_compute. reflexivity.
Defined.

Lemma created_file_has_parent_path_witness : exists fl s',
  open_blocking (of_string "/a/new") BmNone (Z.lor OO_WRITE OO_CREATE) booted = Ret (Ok fl, s') /\
  comps (f_path fl) = [RootDir; Normal A].
Proof.
  destruct (created_file_has_parent_path booted mapping (of_string "/a/new") [A] (of_string "new") tt (dir A 2)
    (file (of_string "new") 99 0) tt BmNone) as (fl & s' & Ho & _ & _ & Hc);
    [reflexivity|apply mapping_wf|ascii_tac|reflexivity|reflexivity|apply view_flat|reflexivity|reflexivity|reflexivity|].
  exists fl, s'. split; [exact Ho|exact Hc].
Defined.

Definition reader (mode : BlockingMode) : File (F := unit) :=
  mkFile (Dyn tt) (of_string "/a/b") (file B 11 5) 0 false mode access_default FA_READ.

Lemma chunk_progress c pos n : 0 <= pos -> 0 <= n ->
  chunk c pos n `prefix_of` drop (Z.to_nat pos) (content c) /\ Z.of_nat (length (chunk c pos n)) <= n /\
  (pos < Z.of_nat (length (content c)) -> 0 < n -> chunk c pos n <> []).
Proof.
  intros Hp Hn. unfold chunk. split; [|split].
  - exists (drop (Z.to_nat (n `min` 2)) (drop (Z.to_nat pos) (content c))). by rewrite take_drop.
  - rewrite length_take. lia.
  - intros Hlt Hn0 He. apply (f_equal length) in He. rewrite length_take, length_drop in He. cbn in He. lia.
Qed.

Lemma read_to_end_reads_all_witness : exists w' f',
  read_to_end 5 (tt, reader BmNone) = Ret (Ok (of_string "hello"), (w', f')) /\ f_position f' = 5.
Proof.
  destruct (read_to_end_reads_all 5 (Dyn tt) (file B 11 5) (content 11) (fun _ _ => True) tt (reader BmNone))
    as (w' & f' & Hr & Hp); [|by constructor|done|reflexivity|reflexivity|reflexivity|by exists w', f'].
  constructor. intros w h pos n _ Hpos Hn. destruct (chunk_progress 11 pos n Hpos Hn) as (H1 & H2 & H3).
  exists (chunk 11 pos n), w, h. auto.
Defined.

Lemma read_line_regular_file_hangs_witness : read 1000 80 (tt, reader BmLine) = Diverge.
Proof.
  apply (read_line_regular_file_hangs 1000 80 tt (reader BmLine) 104); [reflexivity|reflexivity| |lia|lia].
  intros h. exists h. reflexivity.
Defined.

(** a second file system at [/mnt] *)
Definition MNT : bytes := of_string "/mnt".
Definition mounted : Vfs (F := unit) (W := unit) :=
  match mount MNT (Dyn tt) booted with Ret (_, s) => s | _ => booted end.


(** single dots do not make a path invalid: they are dropped before it is checked *)
Lemma dot_component_mounts : match mount (of_string "/./mnt") (Dyn tt) booted with Ret (Ok _, s) => view (table s) [of_string "mnt"] = Some (Dyn tt) | _ => False end.
Proof. vm_compute. reflexivity. Qed.

Lemma mount_then_resolve_witness : exists mp rest id,
  get_mapping (table mounted) (of_string "/mnt/a/b") = Ret (Ok (mp, rest, id)) /\
  filesystem (table mounted) id = Ret (Dyn tt) /\ comps rest = [Normal A; Normal B].
Proof.
  destruct (mount_then_resolve booted mounted MNT (of_string "/mnt/a/b") [of_string "mnt"] (Dyn tt) [Normal A; Normal B])
    as (mp & rest & id & Hg & Hf & Hr & _);
    [apply mapping_wf|ascii_tac|ascii_tac|reflexivity|done|vm_compute; reflexivity|reflexivity|].
  by exists mp, rest, id.
Defined.

Lemma get_mapping_longest_prefix_witness : exists ns mp rest id f,
  get_mapping mapping (of_string "/a/b") = Ret (Ok (mp, rest, id)) /\
  [Normal A; Normal B] = (Normal <$> ns) ++ comps rest /\ view mapping ns = Some f.
Proof.
  destruct (get_mapping_longest_prefix mapping (of_string "/a/b") mapping_wf ltac:(ascii_tac))
    as (ns & mp & rest & id & f & Hg & Hl & _ & Hv & _).
  by exists ns, mp, rest, id, f.
Defined.

End TreeFs.
