(* ===== verification/FatDir.v ===== *)
(** * The FAT file system: names, directories, creation of entries

    Models the directory code of [kernel/src/fs/fat.rs]: short and long
    names, [DirectoryIterator] over the sectors of a directory, [add_entry],
    [add_directory_entry] and the directory methods of the [FileSystem]
    implementation.  The iterator holds one sector; an entry is a slot of 32
    bytes of it, named by its offset. *)
From S2P Require Import Prelude MemLayout UserLink FsTypes Path FatTable BlockDev FatFs.

(** ** What the source uses of [char] and UTF-16 *)
Module Text.
(** the code point of a character given by its UTF-8 bytes *)
Definition char_code (g : list Z) : Z :=
  match g with
  | [b] => b
  | [b0; b1] => Z.land b0 31 * 64 + Z.land b1 63
  | [b0; b1; b2] => Z.land b0 15 * 4096 + Z.land b1 63 * 64 + Z.land b2 63
  | [b0; b1; b2; b3] => Z.land b0 7 * 262144 + Z.land b1 63 * 4096 + Z.land b2 63 * 64 + Z.land b3 63
  | _ => 0
  end.
(** [String::push] *)
Definition encode_char (c : Z) : bytes :=
  if c <? 0x80 then [c]
  else if c <? 0x800 then [0xC0 + c / 64; 0x80 + c mod 64]
  else if c <? 0x10000 then [0xE0 + c / 4096; 0x80 + c / 64 mod 64; 0x80 + c mod 64]
  else [0xF0 + c / 262144; 0x80 + c / 4096 mod 64; 0x80 + c / 64 mod 64; 0x80 + c mod 64].
Definition string_of (l : list Z) : bytes := concat (encode_char <$> l).

Definition REPLACEMENT_CHARACTER : Z := 0xFFFD.
(** [char::decode_utf16] with errors replaced *)
Fixpoint decode_utf16 (l : list Z) : list Z :=
  match l with
  | [] => []
  | u :: l' =>
      if (u <? 0xD800) || (0xDFFF <? u) then u :: decode_utf16 l'
      else if 0xDC00 <=? u then REPLACEMENT_CHARACTER :: decode_utf16 l'
      else match l' with
           | u2 :: l'' =>
               if (0xDC00 <=? u2) && (u2 <=? 0xDFFF)
               then (u - 0xD800) * 1024 + (u2 - 0xDC00) + 0x10000 :: decode_utf16 l''
               else REPLACEMENT_CHARACTER :: decode_utf16 l'
           | [] => [REPLACEMENT_CHARACTER]
           end
  end.

Definition to_ascii_uppercase (b : Z) : Z := if (97 <=? b) && (b <=? 122) then b - 32 else b.
Definition to_ascii_lowercase (b : Z) : Z := if (65 <=? b) && (b <=? 90) then b + 32 else b.
Definition eq_ignore_ascii_case (a b : bytes) : bool :=
  bool_decide ((to_ascii_lowercase <$> a) = (to_ascii_lowercase <$> b)).

(** [format!("{}", n)], at most [fuel] digits *)
Fixpoint digits (fuel : nat) (n : Z) (acc : bytes) : bytes :=
  match fuel with
  | O => acc
  | S fuel => let acc := 48 + n mod 10 :: acc in if n <? 10 then acc else digits fuel (n / 10) acc
  end.
Definition format_u32 (n : Z) : bytes := digits 10 n [].
End Text.
Import Str Text.

Module FatDir.
Import FatTable FatFs.

(** ** Names of entries *)
Definition SPACE : Z := 0x20.
Definition TILDE : Z := 126.

(** [DirectoryEntryNormal::name] *)
Fixpoint until_space (l : bytes) : bytes :=
  match l with [] => [] | b :: l => if b =? SPACE then [] else b :: until_space l end.
Definition short_display_name (e : DirectoryEntryNormal) : outcome bytes :=
  let base_name := take 8 (short_name e) in
  trailing ← unwrap (position (fun c => negb (c =? SPACE)) (reverse base_name));
  let base_name_end := (8 - trailing)%nat in
  let extension := take 3 (drop 8 (short_name e)) in
  let base := string_of (take base_name_end base_name) in
  Ret (if negb (u8_at extension 0 =? SPACE)
       then base ++ [Path.DOT] ++ string_of (until_space extension)
       else base).

(** [DirectoryEntryNormal::name_checksum] *)
Definition name_checksum (e : DirectoryEntryNormal) : Z :=
  foldl (fun checksum c => wrap 8 (wrap 8 (Z.shiftl (Z.land checksum 1) 7 + Z.shiftr checksum 1) + c)) 0 (short_name e).

(** [struct DirectoryEntryLong], packed *)
Record DirectoryEntryLong : Type := mkLong {
  sequence_number : Z;
  name1 : list Z;
  long_attributes : Z;
  long_name_type : Z;
  checksum : Z;
  name2 : list Z;
  zero_ : Z;
  name3 : list Z
}.
Definition u16s_at (b : bytes) (start n : nat) : list Z := (fun i => u16_at b (start + 2 * i)) <$> seq 0 n.
Definition decode_long (b : bytes) : DirectoryEntryLong :=
  mkLong (u8_at b 0) (u16s_at b 1 5) (u8_at b 11) (u8_at b 12) (u8_at b 13) (u16s_at b 14 6) (u16_at b 26) (u16s_at b 28 2).
Definition encode_long (e : DirectoryEntryLong) : bytes :=
  [sequence_number e] ++ concat (le16 <$> name1 e) ++ [long_attributes e; long_name_type e; checksum e] ++
  concat (le16 <$> name2 e) ++ le16 (zero_ e) ++ concat (le16 <$> name3 e).

Fixpoint until_nul (l : list Z) : list Z :=
  match l with [] => [] | u :: l => if u =? 0 then [] else u :: until_nul l end.
(** [DirectoryEntryLong::name] *)
Definition long_part (e : DirectoryEntryLong) : bytes :=
  string_of (decode_utf16 (until_nul (name1 e ++ name2 e ++ name3 e))).

(** the parts are concatenated last to first *)
Definition long_entries_name_merge (entries : list bytes) : bytes := concat (reverse entries).

(** ** [create_dir_entries] *)
Definition pad (n : nat) (s : bytes) : bytes :=
  (fun i => match s !! i with Some b => to_ascii_uppercase b | None => SPACE end) <$> seq 0 n.

(** the short name: base name and extension split at the first dot *)
Definition make_short_name (name : bytes) : outcome bytes :=
  '(filename, extension) ← match position (fun b => b =? Path.DOT) name with
                           | Some i => Ret (take i name, drop (S i) name)
                           | None => Ret (name, [])
                           end;
  let more_than_8 := (8 <? length filename)%nat in
  filename ← (if more_than_8 then slice_to filename 6 else Ret filename);
  let base := pad 8 filename in
  let base := if more_than_8 then take 6 base ++ [TILDE; 49] else base in
  Ret (base ++ pad 3 extension).

(** one long entry; missing characters are NUL *)
Definition make_long (seq_no sum : Z) (part : list Z) : DirectoryEntryLong :=
  let c i := wrap 16 (default 0 (part !! i)) in
  mkLong seq_no (c <$> seq 0 5) LONG_NAME 0 sum (c <$> seq 5 6) 0 (c <$> seq 11 2).

Fixpoint make_long_entries (fuel : nat) (sequence_number sum : Z) (long_name : bytes) : outcome (list DirectoryEntryLong) :=
  match fuel with
  | O => Diverge
  | S fuel =>
      match long_name with
      | [] => Ret []
      | _ =>
          let n := (length long_name `min` 13)%nat in
          part ← slice_to long_name n;
          rest ← slice_from long_name n;
          next_number ← cadd 8 sequence_number 1;
          let seq_no := match rest with [] => Z.lor sequence_number 0x40 | _ => sequence_number end in
          l ← make_long_entries fuel next_number sum rest;
          Ret (make_long seq_no sum (char_code <$> chars part) :: l)
      end
  end.

Definition create_dir_entries (name : bytes) (a : FileAttributes) : outcome (DirectoryEntryNormal * list DirectoryEntryLong) :=
  short ← make_short_name name;
  let normal := mkNormal short (file_attribute_to_fat a) 0 0 0 0 0 0 0 0 0 0 in
  l ← make_long_entries (S (length name)) 1 (name_checksum normal) name;
  Ret (normal, l).

(** ** [increment_short_name] *)
Definition increment_short_name (short : bytes) : outcome bytes :=
  let base_name := take 8 short in
  telda_pos ← unwrap (position (fun c => c =? TILDE) base_name);
  _ ← assert_that (telda_pos <=? 6)%nat;
  let current_num_size := (8 - telda_pos - 1)%nat in
  current_num ← foldl (fun acc x =>
                         acc ← acc;
                         _ ← assert_that ((48 <=? x) && (x <=? 57));
                         m ← cmul 32 acc 10;
                         cadd 32 m (x - 48)) (Ret 0) (drop (S telda_pos) base_name);
  new_num ← cadd 32 current_num 1;
  _ ← assert_that (negb (999999 <? new_num));
  let s := format_u32 new_num in
  telda_pos ← (if (current_num_size <? length s)%nat
               then if (1 <=? telda_pos)%nat then Ret (telda_pos - 1)%nat else Panic
               else Ret telda_pos);
  _ ← assert_that (bool_decide (length (drop (S telda_pos) base_name) = length s));
  Ret (take (S telda_pos) base_name ++ s ++ drop 8 short).

(** ** Directories *)
Inductive Directory : Type :=
| RootFat12_16 (start_sector size_in_sectors : Z)
| NormalDir (inode : DirectoryNode).

Record DirectoryIterator : Type := mkIter {
  it_dir : Directory;
  current_sector : bytes;
  current_sector_index : Z;
  current_cluster : Z;
  current_sector_dirty : bool;
  entry_index_in_sector : Z
}.
Definition set_sector (b : bytes) (i : DirectoryIterator) : DirectoryIterator :=
  mkIter (it_dir i) b (current_sector_index i) (current_cluster i) (current_sector_dirty i) (entry_index_in_sector i).
Definition set_dirty (b : bool) (i : DirectoryIterator) : DirectoryIterator :=
  mkIter (it_dir i) (current_sector i) (current_sector_index i) (current_cluster i) b (entry_index_in_sector i).
Definition set_entry (n : Z) (i : DirectoryIterator) : DirectoryIterator :=
  mkIter (it_dir i) (current_sector i) (current_sector_index i) (current_cluster i) (current_sector_dirty i) n.

Record DirectoryIterSavedPosition : Type := mkSaved { saved_cluster : Z; saved_sector : Z; saved_entry : Z }.

Section dir.
Context {H : Type} `{AtaDrive H}.
Local Notation E := FileSystemError.
Local Notation Fs := (FatFilesystem H).
Local Notation M A := (ST Fs (result A E)).
Local Notation St := (Fs * DirectoryIterator)%type.
Local Notation D A := (ST St (result A E)).

Definition on_fs {A} (m : ST Fs A) : ST St A := fun s =>
  match m s.1 with
  | Ret (a, f) => Ret (a, (f, s.2))
  | Panic => Panic
  | Diverge => Diverge
  end.
Definition upd (f : DirectoryIterator -> DirectoryIterator) : ST St unit := modify (fun s => (s.1, f s.2)).

(** [open_root_dir] and [open_root_dir_inode] *)
Definition root_inode (cluster : Z) : outcome DirectoryNode :=
  without_parent [Path.SEPARATOR] (file_attribute_from_fat 0x10) cluster.
Definition open_root_dir : ST Fs Directory :=
  s ← get;
  if decide (ty (boot s) = Fat32) then
    d ← lift (root_inode (root_cluster (boot_sector (boot s)))); mret (NormalDir d)
  else
    start ← lift (root_dir_start_sector (boot s));
    n ← lift (root_dir_sectors (boot s));
    mret (RootFat12_16 start n).
Definition open_root_dir_inode : M DirectoryNode :=
  s ← get;
  d ← lift (root_inode (if decide (ty (boot s) = Fat32) then root_cluster (boot_sector (boot s)) else 0));
  mret (Ok d).

(** [DirectoryIterator::new] *)
Definition iter_root (start_sector size_in_sectors : Z) : M DirectoryIterator :=
  b ←? read_sectors_no_cache start_sector 1;
  mret (Ok (mkIter (RootFat12_16 start_sector size_in_sectors) b start_sector 0 false 0)).
Definition iter_normal (inode : DirectoryNode) : M DirectoryIterator :=
  s ← get;
  let cluster := wrap 32 (start_cluster (dn_base inode)) in
  start_sector ← lift (first_sector_of_cluster (boot s) cluster);
  b ←? read_sectors_no_cache start_sector 1;
  mret (Ok (mkIter (NormalDir inode) b start_sector cluster false 0)).
Definition iter_new (dir : Directory) : M DirectoryIterator :=
  match dir with
  | RootFat12_16 start n => iter_root start n
  | NormalDir inode =>
      s ← get;
      if negb (bool_decide (ty (boot s) = Fat32)) && (start_cluster (dn_base inode) =? 0) then
        d ← open_root_dir;
        match d with
        | RootFat12_16 start n => iter_root start n
        | NormalDir inode => iter_normal inode
        end
      else iter_normal inode
  end.

(** [open_dir_inode] *)
Definition open_dir_inode (inode : DirectoryNode) : M DirectoryIterator :=
  s ← get;
  dir ← (if decide (ty (boot s) = Fat32) then mret (NormalDir inode)
         else if start_cluster (dn_base inode) =? 0 then open_root_dir
         else mret (NormalDir inode));
  iter_new dir.

(** [flush_current_sector]: a failed write panics *)
Definition flush_current_sector : ST St unit :=
  s ← get;
  if current_sector_dirty s.2 then
    r ← on_fs (write_sectors (current_sector_index s.2) (current_sector s.2));
    _ ← lift (match r with Ok _ => Ret tt | Err _ => Panic end);
    upd (set_dirty false)
  else mret tt.

(** [next_sector] *)
Definition next_sector : D bool :=
  _ ← flush_current_sector;
  s ← get;
  next_sector_index ← lift (cadd 32 (current_sector_index s.2) 1);
  let load next_sector_index cluster : D bool :=
    b ←? on_fs (read_sectors_no_cache next_sector_index 1);
    _ ← upd (fun i => mkIter (it_dir i) b next_sector_index cluster (current_sector_dirty i) 0);
    mret (Ok true) in
  match it_dir s.2 with
  | RootFat12_16 start_sector size_in_sectors =>
      last ← lift (cadd 32 start_sector size_in_sectors);
      if last <=? next_sector_index then mret (Ok false)
      else load next_sector_index (current_cluster s.2)
  | NormalDir _ =>
      let spc := sectors_per_cluster (boot_sector (boot s.1)) in
      r ← lift (cmod next_sector_index spc);
      if r =? 0 then
        n ← on_fs (fat_next (current_cluster s.2));
        match n with
        | Ok (Some cluster) =>
            i ← lift (cmul 32 cluster spc);
            (* the new cluster is kept even if the read then fails *)
            _ ← upd (fun it => mkIter (it_dir it) (current_sector it) (current_sector_index it) cluster
                                 (current_sector_dirty it) (entry_index_in_sector it));
            load i cluster
        | Ok None => mret (Ok false)
        | Err _ => mret (Err FileNotFound)
        end
      else load next_sector_index (current_cluster s.2)
  end.

(** [get_next_entry]: the offset of the entry in the current sector and its
    bytes.  The recursion is at most one level deep as a sector holds at least
    one entry. *)
Definition entry_here (k : D (nat * bytes)) : D (nat * bytes) :=
  s ← get;
  let entry_start := entry_index_in_sector s.2 * 32 in
  if len (current_sector s.2) <? entry_start + 32 then k
  else
    n ← lift (cadd 16 (entry_index_in_sector s.2) 1);
    _ ← upd (set_entry n);
    let start := Z.to_nat entry_start in
    mret (Ok (start, take 32 (drop start (current_sector s.2)))).
Definition get_next_entry : D (nat * bytes) :=
  entry_here (more ←? next_sector;
              if more : bool then entry_here diverge else mret (Err FileNotFound)).

(** writes through the entry, marking the sector dirty *)
Definition write_entry (start : nat) (b : bytes) : ST St unit :=
  _ ← upd (fun i => set_sector (take start (current_sector i) ++ b ++ drop (start + 32) (current_sector i)) i);
  upd (set_dirty true).

(** [write_long] *)
Definition write_long (start : nat) (e : DirectoryEntryLong) : ST St unit :=
  _ ← lift (assert_that (Z.land (long_attributes e) LONG_NAME =? LONG_NAME));
  write_entry start (encode_long e).
(** [write_normal]: on a slot that still looks like a long entry the source
    writes through a pointer to the reference instead of the slot, which is
    undefined behaviour; the model stops. *)
Definition write_normal (start : nat) (raw : bytes) (e : DirectoryEntryNormal) : ST St unit :=
  _ ← lift (assert_that (negb (Z.land (attributes e) LONG_NAME =? LONG_NAME)));
  if is_long raw then panic else write_entry start (encode_normal e).

(** [save_current] and [restore_at] *)
Definition save_current (i : DirectoryIterator) : DirectoryIterSavedPosition :=
  mkSaved (current_cluster i) (current_sector_index i) (Z.max 0 (entry_index_in_sector i - 1)).
Definition restore_at (p : DirectoryIterSavedPosition) : D unit :=
  _ ← upd (fun i => mkIter (it_dir i) (current_sector i) (current_sector_index i) (saved_cluster p) (current_sector_dirty i) (saved_entry p));
  s ← get;
  if current_sector_index s.2 =? saved_sector p then mret (Ok tt)
  else
    _ ← flush_current_sector;
    _ ← upd (fun i => mkIter (it_dir i) (current_sector i) (saved_sector p) (current_cluster i) (current_sector_dirty i) (entry_index_in_sector i));
    b ←? on_fs (read_sectors_no_cache (saved_sector p) 1);
    _ ← upd (set_sector b);
    mret (Ok tt).

(** ** Iteration *)
Record FatNode : Type := mkFatNode {
  normal_entry : DirectoryEntryNormal;
  long_name : option bytes;
  fat_parent_dir_sector : Z;
  fat_parent_dir_index : Z
}.

(** [FatNode::matches] *)
Definition matches (self : FatNode) (matcher : bytes) : outcome bool :=
  if match long_name self with Some n => eq_ignore_ascii_case n matcher | None => false end then Ret true
  else n ← short_display_name (normal_entry self); Ret (eq_ignore_ascii_case n matcher).

(** [From<FatNode> for Node]; [unwrap_or] evaluates the short name always *)
Definition node_of (v : FatNode) : outcome Node :=
  short ← short_display_name (normal_entry v);
  new_node (default short (long_name v)) (file_attribute_from_fat (attributes (normal_entry v)))
    (first_cluster (normal_entry v)) (file_size (normal_entry v)) (fat_parent_dir_sector v) (fat_parent_dir_index v).

(** skip free entries; [None] at the end of the directory or on an error *)
Fixpoint skip_free (fuel : nat) : ST St (option bytes) :=
  match fuel with
  | O => diverge
  | S fuel =>
      r ← get_next_entry;
      match r with
      | Err _ => mret None
      | Ok (_, raw) =>
          match entry_state raw with
          | EFreeAndLast => mret None
          | EFree => skip_free fuel
          | EUsed => mret (Some raw)
          end
      end
  end.

(** the long entries of a name: [n] parts, the first already in hand *)
Fixpoint collect_long (n : nat) (raw : bytes) (acc : list bytes) : ST St (option (bytes * list bytes)) :=
  match n with
  | O => mret (Some (raw, acc))
  | S n =>
      let part := long_part (decode_long raw) in
      r ← get_next_entry;
      match r with
      | Err _ => mret None
      | Ok (_, raw) =>
          (* [as_long] of the next entry, unless it is the last *)
          _ ← lift (assert_that (match n with O => true | _ => is_long raw end));
          collect_long n raw (acc ++ [part])
      end
  end.

(** the node whose first used entry is [raw] *)
Definition iter_from (raw : bytes) : ST St (option FatNode) :=
  r ← (if is_long raw then
         let seq_no := u8_at raw 0 in
         _ ← lift (assert_that (Z.land seq_no 0x40 =? 0x40));
         r ← collect_long (Z.to_nat (Z.land seq_no 0x3F)) raw [];
         mret (match r with
               | Some (raw, parts) => Some (raw, Some (long_entries_name_merge parts))
               | None => None
               end)
       else mret (Some (raw, None)));
  match r with
  | None => mret None
  | Some (raw, name) =>
      _ ← lift (assert_that (negb (is_long raw)));
      s ← get;
      _ ← lift (assert_that (0 <? entry_index_in_sector s.2));
      mret (Some (mkFatNode (decode_normal raw) name (current_sector_index s.2) (entry_index_in_sector s.2 - 1)))
  end.

(** [<DirectoryIterator as Iterator>::next] *)
Definition iter_next (fuel : nat) : ST St (option FatNode) :=
  r ← skip_free fuel;
  match r with
  | None => mret None
  | Some raw => iter_from raw
  end.

(** ** [add_entry] *)
(** the state the closure [is_already_exists] captures *)
Record Seen : Type := mkSeen { seen_short : bytes; seen_parts : list bytes; require_free : bool }.

Definition is_already_exists (new_long : bytes) (raw : bytes) (s : Seen) : outcome (bool * Seen) :=
  if is_long raw then
    let parts := if require_free s then [] else seen_parts s in
    Ret (false, mkSeen (seen_short s) (parts ++ [long_part (decode_long raw)]) false)
  else
    let name := long_entries_name_merge (seen_parts s) in
    if eq_ignore_ascii_case name new_long then Ret (true, mkSeen (seen_short s) [] (require_free s))
    else if bool_decide (take 11 raw = seen_short s) then
      short ← increment_short_name (seen_short s);
      Ret (false, mkSeen short [] (require_free s))
    else Ret (false, mkSeen (seen_short s) [] (require_free s)).

(** the first loop: look for free entries; [running] of them so far, the first
    at [first_free] *)
Fixpoint find_room (fuel : nat) (needed : nat) (new_long : bytes) (first_free : option DirectoryIterSavedPosition)
    (running : nat) (seen : Seen) : D (bool * option DirectoryIterSavedPosition * Seen) :=
  match fuel with
  | O => diverge
  | S fuel =>
      e ←? get_next_entry;
      s ← get;
      let here := match first_free with Some p => Some p | None => Some (save_current s.2) end in
      match entry_state e.2 with
      | EFreeAndLast => mret (Ok (true, here, mkSeen (seen_short seen) (seen_parts seen) true))
      | EFree =>
          let seen := mkSeen (seen_short seen) (seen_parts seen) true in
          if (S running =? needed)%nat then mret (Ok (false, here, seen))
          else find_room fuel needed new_long here (S running) seen
      | EUsed =>
          '(b, seen) ← lift (is_already_exists new_long e.2 seen);
          if b : bool then mret (Err AlreadyExists) else find_room fuel needed new_long None 0 seen
      end
  end.

(** the second loop: the rest of the directory *)
Fixpoint check_rest (fuel : nat) (new_long : bytes) (seen : Seen) : D Seen :=
  match fuel with
  | O => diverge
  | S fuel =>
      e ←? get_next_entry;
      match entry_state e.2 with
      | EFreeAndLast => mret (Ok seen)
      | EUsed =>
          '(b, seen) ← lift (is_already_exists new_long e.2 seen);
          if b : bool then mret (Err AlreadyExists) else check_rest fuel new_long seen
      | EFree => check_rest fuel new_long seen
      end
  end.

Fixpoint write_longs (l : list DirectoryEntryLong) (e : nat * bytes) : D (nat * bytes) :=
  match l with
  | [] => mret (Ok e)
  | x :: l =>
      _ ← write_long e.1 x;
      e ←? get_next_entry;
      write_longs l e
  end.

Definition set_short_name (s : bytes) (e : DirectoryEntryNormal) : DirectoryEntryNormal :=
  mkNormal s (attributes e) (nt_reserved e) (creation_time_tenths_of_seconds e) (creation_time e)
    (creation_date e) (last_access_date e) (first_cluster_hi e) (last_modification_time e)
    (last_modification_date e) (first_cluster_lo e) (file_size e).

Definition add_entry (fuel : nat) (entry : DirectoryEntryNormal) (long_entries : list DirectoryEntryLong) : D Node :=
  let new_long := long_entries_name_merge (long_part <$> long_entries) in
  let needed := S (length long_entries) in
  r ←? find_room fuel needed new_long None 0 (mkSeen (short_name entry) [] false);
  let '(is_last, first_free, seen) := r in
  seen ←? (if is_last : bool then mret (Ok seen) else check_rest fuel new_long seen);
  let entry := set_short_name (seen_short seen) entry in
  first_free ← lift (unwrap first_free);
  _ ←? restore_at first_free;
  e ←? get_next_entry;
  e ←? write_longs (reverse long_entries) e;
  _ ← write_normal e.1 e.2 entry;
  _ ←? restore_at first_free;
  node ← iter_next fuel;
  _ ←? (if is_last then
          s ← get;
          let pos := save_current s.2 in
          e ←? get_next_entry;
          _ ← lift (assert_that (negb (is_long e.2)));
          _ ← write_entry e.1 (0 :: drop 1 e.2);
          restore_at pos
        else mret (Ok tt));
  node ← lift (unwrap node);
  n ← lift (node_of node);
  mret (Ok n).

(** run on an open directory; dropping the iterator flushes its sector *)
Definition with_dir {A} (inode : DirectoryNode) (m : D A) : M A :=
  it ←? open_dir_inode inode;
  fun f => match (r ← m; _ ← flush_current_sector; mret r) (f, it) with
           | Ret (r, (f, _)) => Ret (r, f)
           | Panic => Panic
           | Diverge => Diverge
           end.

(** the number of entries a volume can hold *)
Definition dir_fuel (s : Fs) : nat := Z.to_nat (total_sectors (boot s) * (bps s / 32) + 1).

(** [add_directory_entry] *)
Definition with_cluster (cluster : Z) (e : DirectoryEntryNormal) : DirectoryEntryNormal :=
  mkNormal (short_name e) (attributes e) (nt_reserved e) (creation_time_tenths_of_seconds e) (creation_time e)
    (creation_date e) (last_access_date e) (Z.shiftr cluster 16) (last_modification_time e)
    (last_modification_date e) (Z.land cluster 0xFFFF) (file_size e).

Definition dot_name (n : nat) : bytes := replicate n Path.DOT ++ replicate (11 - n) SPACE.

Definition add_dot_entries (parent_inode dir_node : DirectoryNode) (entry : DirectoryEntryNormal) : M unit :=
  s ← get;
  let fuel := dir_fuel s in
  let dot := mkNormal (dot_name 1) (attributes entry) 0 (creation_time_tenths_of_seconds entry) (creation_time entry)
    (creation_date entry) (last_access_date entry) (first_cluster_hi entry) (last_modification_time entry)
    (last_modification_date entry) (first_cluster_lo entry) (file_size entry) in
  let parent_cluster := wrap 32 (start_cluster (dn_base parent_inode)) in
  let dot_dot := mkNormal (dot_name 2) (file_attribute_to_fat (bn_attributes (dn_base parent_inode))) 0 0 0 0 0
    (Z.shiftr parent_cluster 16) 0 0 (Z.land parent_cluster 0xFFFF) 0 in
  with_dir dir_node (
    dot_node ←? add_entry fuel dot [];
    dot_dot_node ←? add_entry fuel dot_dot [];
    _ ← lift (assert_that (bool_decide (node_name dot_node = [Path.DOT])));
    _ ← lift (assert_that (bool_decide (node_name dot_dot_node = [Path.DOT; Path.DOT])));
    mret (Ok tt)).

Definition add_directory_entry (parent_inode : DirectoryNode) (name : bytes) (a : FileAttributes) : M Node :=
  '(normal, longs) ← lift (create_dir_entries name a);
  cluster ←? fat_find_free;
  _ ← fat_write cluster EndOfChain;
  _ ←? flush_fat;
  s ← get;
  first ← lift (first_sector_of_cluster (boot s) cluster);
  _ ←? write_sectors first (replicate (Z.to_nat (bps s)) 0);
  let normal := with_cluster cluster normal in
  r ← with_dir parent_inode (add_entry (dir_fuel s) normal longs);
  match r with
  | Err e =>
      _ ← fat_write cluster Free;
      _ ←? flush_fat;
      mret (Err e)
  | Ok node =>
      _ ← lift (assert_that (bool_decide (node_name node = name)));
      _ ←? (if attr_directory a then
              _ ← lift (assert_that (start_cluster (node_base node) =? cluster));
              match node with
              | NDirectory dir => add_dot_entries parent_inode dir normal
              | NFile _ => panic
              end
            else mret (Ok tt));
      mret (Ok node)
  end.

(** ** The directory methods of [impl FileSystem for Mutex<FatFilesystem>] *)
Fixpoint read_dir_loop {A} (fuel : nat) (fuel' : nat) (handler : Node -> A -> outcome (A * bool)) (a : A) : D A :=
  match fuel with
  | O => diverge
  | S fuel =>
      n ← iter_next fuel';
      match n with
      | None => mret (Ok a)
      | Some n =>
          n ← lift (node_of n);
          '(a, stop) ← lift (handler n a);
          if stop : bool then mret (Ok a) else read_dir_loop fuel fuel' handler a
      end
  end.
(** [read_dir]; the handler says whether to stop *)
Definition read_dir {A} (inode : DirectoryNode) (handler : Node -> A -> outcome (A * bool)) (a : A) : M A :=
  s ← get; with_dir inode (read_dir_loop (dir_fuel s) (dir_fuel s) handler a).

Fixpoint treverse_loop (fuel fuel' : nat) (matcher : bytes) : D Node :=
  match fuel with
  | O => diverge
  | S fuel =>
      n ← iter_next fuel';
      match n with
      | None => mret (Err FileNotFound)
      | Some n =>
          b ← lift (matches n matcher);
          if b : bool then n ← lift (node_of n); mret (Ok n) else treverse_loop fuel fuel' matcher
      end
  end.
Definition treverse_dir (inode : DirectoryNode) (matcher : bytes) : M Node :=
  s ← get; with_dir inode (treverse_loop (dir_fuel s) (dir_fuel s) matcher).

Definition create_node (parent : DirectoryNode) (name : bytes) (a : FileAttributes) : M Node :=
  add_directory_entry parent name a.
End dir.
End FatDir.
