(* ===== verification/FatNames.v ===== *)
(** * FAT names: what [create_dir_entries] writes is what the iterator reads

    The long entries of a name, their 32 bytes on the disk, and the name the
    directory iterator puts together from them again. *)
From S2P Require Import Prelude MemLayout UserLink FsTypes Path PathSpec FatTable BlockDev FatFs FatSpec FatDir.
Import Str Text FatTable FatFs FatDir.

(** a character of a name: ASCII, not NUL *)
Definition name_char (b : Z) : Prop := 0 < b < 128.
#[global] Instance name_char_dec b : Decision (name_char b).
Proof. unfold name_char. apply _. Defined.

Lemma name_ascii s : Forall name_char s -> Forall ascii s.
Proof. intros Hs. eapply Forall_impl; [exact Hs|]. unfold name_char, ascii. lia. Qed.

Lemma string_of_ascii s : Forall name_char s -> string_of s = s.
Proof.
  unfold string_of. induction 1 as [|b s Hb _ IH]; [done|]. cbn. rewrite IH. unfold name_char in Hb.
  unfold encode_char. by rewrite (proj2 (Z.ltb_lt _ _)) by lia.
Qed.
Lemma decode_utf16_ascii s : Forall name_char s -> decode_utf16 s = s.
Proof.
  induction 1 as [|b s Hb _ IH]; [done|]. cbn [decode_utf16]. unfold name_char in Hb.
  by rewrite (proj2 (Z.ltb_lt _ _)), IH by lia.
Qed.
Lemma until_nul_app s z : Forall name_char s -> until_nul (s ++ replicate z 0) = s.
Proof.
  induction 1 as [|b s Hb _ IH]; cbn; [by destruct z|]. unfold name_char in Hb.
  by rewrite (proj2 (Z.eqb_neq _ _)), IH by lia.
Qed.
Lemma char_codes_ascii s : Forall ascii s -> char_code <$> chars s = s.
Proof. intros Hs. rewrite (chars_ascii s Hs), <- list_fmap_compose. by apply list_fmap_id. Qed.

(** ** One long entry *)
Definition units (e : DirectoryEntryLong) : list Z := name1 e ++ name2 e ++ name3 e.

Lemma make_long_units n sum part : (length part <= 13)%nat -> Forall name_char part ->
  units (make_long n sum part) = part ++ replicate (13 - length part) 0.
Proof.
  intros Hl Hp. unfold units, make_long. cbn [name1 name2 name3]. rewrite <- !fmap_app. change (seq 0 5 ++ seq 5 6 ++ seq 11 2) with (seq 0 13).
  apply list_eq. intros i. rewrite list_lookup_fmap. destruct (decide (i < 13)%nat) as [Hi|Hi].
  - rewrite lookup_seq_lt by done. cbn. destruct (part !! i) as [b|] eqn:Hb; cbn.
    + rewrite (lookup_app_l_Some _ _ _ _ Hb). f_equal. unfold wrap. apply Z.mod_small.
      eapply Forall_lookup_1 in Hp; [|exact Hb]. unfold name_char in Hp. lia.
    + apply lookup_ge_None in Hb. rewrite lookup_app_r, lookup_replicate_2 by lia. done.
  - rewrite lookup_seq_ge by lia. symmetry. apply lookup_ge_None. rewrite length_app, length_replicate. lia.
Qed.

Lemma long_part_make n sum part : (length part <= 13)%nat -> Forall name_char part -> long_part (make_long n sum part) = part.
Proof.
  intros Hl Hp. unfold long_part. change (name1 ?e ++ name2 ?e ++ name3 ?e) with (units e).
  by rewrite make_long_units, until_nul_app, decode_utf16_ascii, string_of_ascii.
Qed.

Record long_ok (e : DirectoryEntryLong) : Prop := {
  lo_name1 : length (name1 e) = 5%nat;
  lo_name2 : length (name2 e) = 6%nat;
  lo_name3 : length (name3 e) = 2%nat;
  lo_units : Forall (in_word 16) (units e);
  lo_zero : in_word 16 (zero_ e)
}.

Lemma make_long_ok n sum part : long_ok (make_long n sum part).
Proof.
  split; [done..| |unfold in_word; cbn; lia]. apply Forall_forall. intros u Hu.
  unfold units, make_long in Hu. cbn [name1 name2 name3] in Hu. rewrite <- !fmap_app in Hu.
  apply list_elem_of_fmap in Hu as (i & -> & _). unfold wrap, in_word. dlia.
Qed.

(** the 32 bytes of a long entry *)
Lemma long_codec e : long_ok e -> length (encode_long e) = 32%nat /\ decode_long (encode_long e) = e.
Proof.
  destruct e as [n n1 a t c n2 z n3]. intros [L1 L2 L3 HF Hz]. unfold units in HF. cbn [name1 name2 name3 zero_] in *.
  do 5 (destruct n1 as [|? n1]; [done|]). destruct n1; [|done].
  do 6 (destruct n2 as [|? n2]; [done|]). destruct n2; [|done].
  do 2 (destruct n3 as [|? n3]; [done|]). destruct n3; [|done]. cbn [app] in HF.
  repeat match goal with Hf : Forall _ (_ :: _) |- _ => apply Forall_cons in Hf as [? Hf] end. unfold in_word in *.
  split; [done|]. unfold decode_long, encode_long, u16s_at, u16_at, u8_at, le16. cbn -[Z.div Z.modulo Z.mul Z.add].
  by rewrite !u16_le by done.
Qed.

(** ** The long entries of a name *)
Definition parts_of (name : bytes) : nat := ((length name + 12) / 13)%nat.

(** entry [i] of [n]: its number, with the mark of the last part *)
Definition numbered (first : Z) (l : list DirectoryEntryLong) : Prop := forall i e, l !! i = Some e ->
  sequence_number e = if (S i =? length l)%nat then Z.lor (first + Z.of_nat i) 0x40 else first + Z.of_nat i.

Lemma make_long_entries_spec fuel : forall first sum name, (length name < fuel)%nat -> Forall name_char name ->
  0 <= first -> first + Z.of_nat (length name) < 256 ->
  exists l, make_long_entries fuel first sum name = Ret l /\ length l = parts_of name /\
    concat (long_part <$> l) = name /\ numbered first l /\ Forall long_ok l /\ Forall (fun e => long_attributes e = LONG_NAME) l.
Proof.
  induction fuel as [|fuel IH]; intros first sum name Hf Hn H0 Hb; [lia|]. cbn [make_long_entries].
  destruct name as [|b name'] eqn:En; [by exists []; split_and!|]. rewrite <- En in *.
  assert (length name <> 0)%nat by (by rewrite En). clear b name' En.
  set (n := (length name `min` 13)%nat).
  rewrite slice_to_ascii, slice_from_ascii by (apply name_ascii, Hn || lia). cbn [mbind outcome_bind].
  rewrite cadd_ret by lia. cbn [mbind outcome_bind].
  destruct (IH (first + 1) sum (drop n name)) as (l & -> & Hl & Hc & Hnum & Hok & Hat);
    [rewrite length_drop; lia|by apply Forall_drop|lia|rewrite length_drop; lia|].
  cbn [mbind outcome_bind]. eexists. split; [done|].
  assert (length l = 0%nat <-> drop n name = []) as Hnil.
  { rewrite Hl. unfold parts_of. rewrite <- length_zero_iff_nil, length_drop. split; [|intros ->; done].
    intros E. apply Nat.div_small_iff in E; lia. }
  rewrite char_codes_ascii by (apply Forall_take, name_ascii, Hn).
  split_and!.
  - cbn [length]. rewrite Hl. unfold parts_of. rewrite length_drop. subst n.
    destruct (decide (length name <= 13)%nat).
    + replace (length name - length name `min` 13)%nat with 0%nat by lia. change ((0 + 12) / 13)%nat with 0%nat.
      apply Nat.div_unique with (length name - 1)%nat; lia.
    + rewrite Nat.min_r by lia. replace (length name + 12)%nat with ((length name - 13 + 12) + 1 * 13)%nat by lia.
      rewrite Nat.div_add by lia. lia.
  - rewrite fmap_cons, long_part_make by (apply Forall_take, Hn || (rewrite length_take; lia)).
    change (take n name ++ concat (long_part <$> l) = name). by rewrite Hc, take_drop.
  - intros [|i] e; cbn [lookup list_lookup length].
    + intros [= <-]. cbn [make_long sequence_number]. replace (first + Z.of_nat 0) with first by lia.
      destruct (drop n name) as [|b0 r] eqn:Ed; [by rewrite (proj2 Hnil eq_refl)|].
      destruct (Nat.eqb_spec 1 (S (length l))) as [E|E]; [|done]. by assert (b0 :: r = []) by (apply Hnil; lia).
    + intros He. rewrite (Hnum i e He). cbn [Nat.eqb]. replace (first + Z.of_nat (S i)) with (first + 1 + Z.of_nat i) by lia. done.
  - constructor; [apply make_long_ok|done].
  - by constructor.
Qed.

(** ** The entries of one file, as they lie in a directory *)
Record group : Type := mkGroup { g_longs : list bytes; g_normal : bytes }.
Definition slots (g : group) : list bytes := g_longs g ++ [g_normal g].
(** the name the long entries spell *)
Definition spelled (g : group) : bytes := long_entries_name_merge ((fun b => long_part (decode_long b)) <$> g_longs g).
Definition group_name (g : group) : option bytes := match g_longs g with [] => None | _ => Some (spelled g) end.

Record group_ok (g : group) : Prop := {
  go_size : Forall (fun b => length b = 32%nat) (slots g);
  go_used : Forall (fun b => entry_state b = EUsed) (slots g);
  go_long : Forall (fun b => is_long b = true) (g_longs g);
  go_normal : is_long (g_normal g) = false;
  go_count : forall b, head (g_longs g) = Some b ->
    Z.land (u8_at b 0) 0x40 = 0x40 /\ Z.to_nat (Z.land (u8_at b 0) 0x3F) = length (g_longs g);
  go_short : exists n, short_display_name (decode_normal (g_normal g)) = Ret n
}.

Lemma marked n : 0 < n < 64 -> Z.lor n 0x40 = n + 64 /\ Z.land (n + 64) 0x40 = 0x40 /\ Z.land (n + 64) 0x3F = n.
Proof.
  intros Hn. assert (n ∈ seqZ 1 63) as Hin by (apply elem_of_seqZ; lia). revert n Hin Hn.
  assert (Forall (fun n => Z.lor n 0x40 = n + 64 /\ Z.land (n + 64) 0x40 = 0x40 /\ Z.land (n + 64) 0x3F = n) (seqZ 1 63)) as HF
    by (by apply (bool_decide_unpack _); vm_compute).
  intros n Hin _. by apply (proj1 (Forall_forall _ _) HF).
Qed.

(** the first two fields of an encoded entry *)
Lemma encode_long_bytes e : long_ok e ->
  u8_at (encode_long e) 0 = sequence_number e /\ u8_at (encode_long e) 11 = long_attributes e.
Proof.
  destruct e as [n n1 a t c n2 z n3]. intros [L1 _ _ _ _]. cbn [name1] in *.
  do 5 (destruct n1 as [|? n1]; [done|]). by destruct n1.
Qed.
Lemma encode_normal_bytes e : length (short_name e) = 11%nat ->
  u8_at (encode_normal e) 0 = u8_at (short_name e) 0 /\ u8_at (encode_normal e) 11 = attributes e /\
  take 11 (encode_normal e) = short_name e.
Proof.
  destruct e as [nm a nt ct t d la hi mt md lo sz]. cbn [short_name]. intros L.
  do 11 (destruct nm as [|? nm]; [done|]). by destruct nm.
Qed.

(** ** The short name *)
Lemma position_found {A} (f : A -> bool) l x : x ∈ l -> f x = true -> exists i, position f l = Some i.
Proof.
  induction l as [|y l IH]; [by intros ?%elem_of_nil|]. rewrite elem_of_cons. intros Hx Hf. cbn.
  destruct (f y) eqn:Hy; [by exists 0%nat|]. destruct Hx as [-> | Hx]; [congruence|].
  destruct (IH Hx Hf) as [i ->]. by exists (S i).
Qed.

Lemma length_pad n s : length (pad n s) = n.
Proof. unfold pad. by rewrite length_fmap, length_seq. Qed.
Lemma pad_head n b s : pad (S n) (b :: s) = to_ascii_uppercase b :: drop 1 (pad (S n) (b :: s)).
Proof. done. Qed.

(** names whose first character is neither a dot nor a space *)
Definition starts_plain (name : bytes) : Prop := exists b l, name = b :: l /\ b <> Path.DOT /\ b <> SPACE.

Lemma make_short_name_spec name : Forall name_char name -> starts_plain name ->
  exists b s, make_short_name name = Ret (to_ascii_uppercase b :: s) /\ name_char b /\ b <> SPACE /\ length s = 10%nat.
Proof.
  intros Hn (b & l & -> & Hd & Hs). exists b. pose proof (Forall_inv Hn) as Hb.
  unfold make_short_name. cbn [position]. rewrite (proj2 (Z.eqb_neq b Path.DOT) Hd).
  set (o := S <$> _). destruct (match o with Some i => _ | None => _ end) as [[fn ext]| |] eqn:E.
  2, 3: by destruct o.
  assert (exists fl, fn = b :: fl /\ Forall ascii fn) as (fl & -> & Hf).
  { subst o. apply name_ascii in Hn. destruct (position _ l) as [i|]; cbn in E; simplify_eq; eexists; split; try done.
    apply Forall_cons in Hn as [??]. constructor; [done|]. by apply Forall_take. }
  cbn [mbind outcome_bind]. destruct (8 <? length (b :: fl))%nat eqn:Hm.
  - apply Nat.ltb_lt in Hm. rewrite slice_to_ascii by (done || lia). cbn [mbind outcome_bind take]. rewrite pad_head. cbn [take app].
    eexists. split; [done|]. split; [done|]. split; [done|].
    repeat rewrite ?length_app, ?length_take, ?length_drop, ?length_pad. done.
  - cbn [mbind outcome_bind]. rewrite pad_head. cbn [app]. eexists. split; [done|]. split; [done|]. split; [done|].
    repeat rewrite ?length_app, ?length_take, ?length_drop, ?length_pad. done.
Qed.

Lemma short_display_name_plain b s e : name_char b -> b <> SPACE -> length s = 10%nat ->
  short_name e = to_ascii_uppercase b :: s -> exists n, short_display_name e = Ret n.
Proof.
  intros Hb Hs Hl He. unfold short_display_name. rewrite He.
  destruct (position_found (fun c => negb (c =? SPACE)) (reverse (take 8 (to_ascii_uppercase b :: s))) (to_ascii_uppercase b))
    as [i ->].
  - apply elem_of_reverse. by left.
  - unfold to_ascii_uppercase, SPACE in *. destruct (_ && _) eqn:E; bool_hyps; apply negb_true_iff, Z.eqb_neq; lia.
  - by eexists.
Qed.

(** the state of an encoded normal entry *)
Lemma uppercase_used b : name_char b -> to_ascii_uppercase b <> 0 /\ to_ascii_uppercase b <> 0xE5.
Proof. unfold name_char, to_ascii_uppercase. destruct (_ && _) eqn:E; bool_hyps; lia. Qed.

Lemma used_first raw : u8_at raw 0 <> 0 -> u8_at raw 0 <> 0xE5 -> entry_state raw = EUsed.
Proof. intros H0 H1. unfold entry_state. by rewrite !(proj2 (Z.eqb_neq _ _)). Qed.

(** ** The group [create_dir_entries] describes *)
Definition created (l : list DirectoryEntryLong) (e : DirectoryEntryNormal) : group :=
  mkGroup (encode_long <$> reverse l) (encode_normal e).

Lemma spelled_created l e : Forall long_ok l -> spelled (created l e) = concat (long_part <$> l).
Proof.
  intros Hl. unfold spelled, created, long_entries_name_merge. cbn [g_longs].
  rewrite <- list_fmap_compose, fmap_reverse, reverse_involutive. f_equal. apply list_fmap_ext.
  intros i x Hx. eapply Forall_lookup_1 in Hl; [|exact Hx]. unfold compose. by rewrite (proj2 (long_codec x Hl)).
Qed.

(** a slot of a long entry of a short enough name *)
Lemma numbered_bounds l i x : numbered 1 l -> (length l <= 63)%nat -> l !! i = Some x ->
  0 < sequence_number x < 128 /\
  (S i = length l -> Z.land (sequence_number x) 0x40 = 0x40 /\ Z.to_nat (Z.land (sequence_number x) 0x3F) = length l).
Proof.
  intros Hn Hl Hx. pose proof (lookup_lt_Some _ _ _ Hx) as Hi. rewrite (Hn i x Hx).
  destruct (marked (1 + Z.of_nat i)) as (-> & M1 & M2); [lia|].
  destruct (Nat.eqb_spec (S i) (length l)) as [E|E]; (split; [lia|]); [|done]. intros _. rewrite M1, M2. split; [done|lia].
Qed.

Lemma created_ok l e b s : numbered 1 l -> (length l <= 63)%nat -> Forall long_ok l ->
  Forall (fun e => long_attributes e = LONG_NAME) l -> normal_ok e ->
  name_char b -> b <> SPACE -> short_name e = to_ascii_uppercase b :: s ->
  Z.land (attributes e) LONG_NAME <> LONG_NAME -> group_ok (created l e).
Proof.
  intros Hnum Hlen Hok Hat He Hb Hs Hsn Ha. destruct (normal_codec e He) as [Hel Hed].
  destruct (encode_normal_bytes e (no_name _ He)) as (B0 & B11 & _).
  assert (forall r, r ∈ encode_long <$> reverse l -> exists i x, l !! i = Some x /\ r = encode_long x /\ long_ok x /\ long_attributes x = LONG_NAME) as Hin.
  { intros r (x & -> & Hx)%list_elem_of_fmap. rewrite elem_of_reverse in Hx. apply list_elem_of_lookup_1 in Hx as [i Hx].
    exists i, x. rewrite Forall_lookup in Hok, Hat. split_and!; eauto. }
  constructor; unfold slots, created; cbn [g_longs g_normal].
  - apply Forall_app. split; [|by constructor]. apply Forall_forall. intros r (i & x & _ & -> & Hx & _)%Hin. by apply long_codec.
  - apply Forall_app. split.
    + apply Forall_forall. intros r (i & x & Hi & -> & Hx & _)%Hin. destruct (encode_long_bytes x Hx) as [S0 _].
      destruct (numbered_bounds l i x Hnum Hlen Hi) as [? _]. apply used_first; lia.
    + constructor; [|done]. destruct (uppercase_used b Hb) as [? ?]. apply used_first; by rewrite B0, Hsn.
  - apply Forall_forall. intros r (i & x & _ & -> & Hx & Hxa)%Hin. destruct (encode_long_bytes x Hx) as [_ S1].
    unfold is_long. by rewrite S1, Hxa.
  - unfold is_long. rewrite B11. by apply Z.eqb_neq.
  - intros r Hr. destruct l as [|x l _] using rev_ind; [done|]. rewrite reverse_snoc, fmap_cons in Hr. injection Hr as <-.
    assert ((l ++ [x]) !! length l = Some x) as Hx by (by rewrite lookup_app_r, Nat.sub_diag).
    destruct (numbered_bounds _ _ _ Hnum Hlen Hx) as [_ Hlast]. rewrite length_fmap, length_reverse.
    destruct (encode_long_bytes x) as [-> _]; [by apply Forall_app in Hok as [_ ?%Forall_inv]|].
    apply Hlast. rewrite length_app. cbn. lia.
  - rewrite Hed. eapply short_display_name_plain; try done. pose proof (no_name _ He) as HL. rewrite Hsn in HL. cbn in HL. lia.
Qed.

(** any normal entry that keeps the short name and the attributes *)
Lemma create_dir_entries_spec name a : Forall name_char name -> starts_plain name -> (length name <= 253)%nat ->
  Z.land (file_attribute_to_fat a) LONG_NAME <> LONG_NAME ->
  exists e l, create_dir_entries name a = Ret (e, l) /\ l <> [] /\ long_entries_name_merge (long_part <$> reverse l) = name /\
    e = mkNormal (short_name e) (file_attribute_to_fat a) 0 0 0 0 0 0 0 0 0 0 /\ length (short_name e) = 11%nat /\
    length l = parts_of name /\ Forall long_ok l /\ Forall (fun x => long_attributes x = LONG_NAME) l /\
    (forall e', normal_ok e' -> short_name e' = short_name e -> attributes e' = attributes e ->
       group_ok (created l e') /\ group_name (created l e') = Some name).
Proof.
  intros Hn Hp Hl Ha. destruct (make_short_name_spec name Hn Hp) as (b & s & Hs & Hb & Hsp & Hs10).
  unfold create_dir_entries. rewrite Hs. cbn [mbind outcome_bind]. set (e := mkNormal _ _ _ _ _ _ _ _ _ _ _ _).
  destruct (make_long_entries_spec (S (length name)) 1 (name_checksum e) name) as (l & -> & Hlen & Hc & Hnum & Hok & Hat);
    [lia|done|lia|lia|]. cbn [mbind outcome_bind]. exists e, l.
  assert (l <> []) as Hne. { intros ->. cbn in Hc. destruct Hp as (? & ? & ? & _). by subst. }
  assert (length l <= 63)%nat as Hsmall.
  { rewrite Hlen. unfold parts_of. apply Nat.lt_succ_r, Nat.Div0.div_lt_upper_bound. lia. }
  split_and!; [done|done| |done|cbn; by rewrite Hs10|done|done|done|].
  - unfold long_entries_name_merge. by rewrite fmap_reverse, reverse_involutive.
  - intros e' He' Es Ea. split; [by eapply (created_ok l e' b s); rewrite ?Ea; try done; rewrite Es|].
    unfold group_name. rewrite spelled_created, Hc by done. cbn [created g_longs].
    destruct (encode_long <$> reverse l) as [|x r] eqn:E; [|done]. apply fmap_nil_inv in E.
    by apply (f_equal reverse) in E; rewrite reverse_involutive in E.
Qed.

Lemma to_fat_u8 a : in_word 8 (file_attribute_to_fat a).
Proof.
  unfold file_attribute_to_fat. cbn [foldl]. unfold attr_step_back. cbn [fst snd].
  repeat match goal with |- context [attr_contains ?a ?b] => destruct (attr_contains a b) end; vm_compute; done.
Qed.

Lemma first_cluster_with c e : in_word 32 c -> first_cluster (with_cluster c e) = c.
Proof.
  intros Hc. unfold first_cluster, with_cluster. cbn [first_cluster_hi first_cluster_lo]. change 0xFFFF with (Z.ones 16).
  apply Z.bits_inj'. intros i Hi. rewrite Z.lor_spec, Z.land_spec, Z.shiftl_spec, testbit_ones by lia.
  destruct (Z.ltb_spec i 16).
  - rewrite Z.testbit_neg_r by lia. by rewrite andb_true_r.
  - rewrite Z.shiftr_spec by lia. rewrite andb_false_r, orb_false_r. f_equal. lia.
Qed.

Lemma with_cluster_ok c s a : in_word 32 c -> length s = 11%nat -> normal_ok (with_cluster c (mkNormal s (file_attribute_to_fat a) 0 0 0 0 0 0 0 0 0 0)).
Proof.
  intros Hc Hs. assert (in_word 16 (Z.shiftr c 16) /\ in_word 16 (Z.land c 0xFFFF)) as [H1 H2].
  { change 0xFFFF with (2 ^ 16 - 1). rewrite land_mask, Z.shiftr_div_pow2 by lia. unfold in_word in *. split; dlia. }
  split; unfold with_cluster; cbn; [done| | |unfold in_word; lia].
  - repeat (constructor; [first [apply to_fat_u8|unfold in_word; lia]|]); constructor.
  - repeat (constructor; [first [exact H1|exact H2|unfold in_word; lia]|]); constructor.
Qed.
