(* ===== verification/FatDirSpec.v ===== *)
(** * The directory iterator as a cursor over slots

    The root directory of a FAT12/16 volume is a sequence of 32-byte slots
    spread over sectors, of which the iterator holds one, possibly newer than
    the disk.  [cursor C j e] hides that: the directory holds the slots [C],
    the iterator stands in sector [j] at entry [e]. *)
From S2P Require Import Prelude MemLayout UserLink FsTypes FatTable BlockDev FatFs FatSpec Path PathSpec FatDir FatNames.

Import FatTable FatFs FatDir.

(** ** Slots of a sector *)
Section slots.
Implicit Types (C : Z -> bytes).
Definition sized C : Prop := forall k, length (C k) = 32%nat.
Definition updated C (k : Z) (b : bytes) : Z -> bytes := fun i => if decide (i = k) then b else C i.

Lemma updated_sized C k b : sized C -> length b = 32%nat -> sized (updated C k b).
Proof. intros HC Hb i. unfold updated. by case_decide. Qed.

Lemma length_slots C a n : sized C -> length (span C a n) = (32 * n)%nat.
Proof. intros HC. revert a. induction n as [|n IH]; intros a; [done|]. cbn [span]. rewrite length_app, HC, IH. lia. Qed.

Lemma span_split C a n e : (e < n)%nat ->
  span C a n = span C a e ++ C (a + Z.of_nat e) ++ span C (a + Z.of_nat e + 1) (n - S e).
Proof.
  intros He. replace n with (e + S (n - S e))%nat at 1 by lia. by rewrite span_app.
Qed.

Lemma slot_read C a n e : sized C -> (e < n)%nat -> take 32 (drop (32 * e) (span C a n)) = C (a + Z.of_nat e).
Proof.
  intros HC He. rewrite (span_split C a n e He), drop_app_length' by (by rewrite length_slots).
  by rewrite take_app_length' by (by rewrite HC).
Qed.

Lemma slot_write C a n e b : sized C -> (e < n)%nat -> length b = 32%nat ->
  take (32 * e) (span C a n) ++ b ++ drop (32 * e + 32) (span C a n) = span (updated C (a + Z.of_nat e) b) a n.
Proof.
  intros HC He Hb. rewrite (span_split C a n e He), take_app_length' by (by rewrite length_slots).
  rewrite <- drop_drop, drop_app_length' by (by rewrite length_slots). rewrite drop_app_length' by (by rewrite HC).
  rewrite (span_split (updated _ _ _) a n e He). unfold updated at 2. rewrite decide_True by done.
  f_equal; [|f_equal]; apply span_ext; intros s Hs; unfold updated; rewrite decide_False by lia; done.
Qed.
End slots.

Section cursor.
Context {H : Type} `{DriveLaws H sz cap} (Hsz : 0 < sz).
Notation FS := (FatFilesystem H).
Notation St := (FS * DirectoryIterator)%type.

(** a root directory: [epe] slots per sector, [n] sectors from [start] *)
Context (f0 : FS) (start n : Z) (epe : nat).
Record geometry : Prop := {
  ge_epe : (0 < epe)%nat /\ sz = 32 * Z.of_nat epe /\ sz < 2 ^ 16;
  ge_bps : bps f0 = sz;
  ge_range : 0 <= start_lba f0 /\ 0 <= start /\ 0 < n;
  ge_fits : start_lba f0 + start + n < Ide.number_of_sectors (device f0);
  ge_u32 : start_lba f0 + start + n < 2 ^ 32
}.
Context (G : geometry).
Implicit Types (C : Z -> bytes) (j e k : Z).

Notation total := (n * Z.of_nat epe).
Definition sector_of C j : bytes := span C (j * Z.of_nat epe) epe.
(** sector [j] of the directory on the disk *)
Definition dir_sector (f : FS) j : bytes := view (Ide.drive (device f)) (start_lba f0 + start + j).

(** nothing but the directory differs from [f0] *)
Record same_volume (f : FS) : Prop := {
  sv_eq : f = set_device (device f) f0;
  sv_ready : ready (sz := sz) (cap := cap) (device f);
  sv_size : Ide.number_of_sectors (device f) = Ide.number_of_sectors (device f0);
  sv_other : forall s, s < start_lba f0 + start \/ start_lba f0 + start + n <= s ->
    view (Ide.drive (device f)) s = view (Ide.drive (device f0)) s
}.

Record cursor C j e (st : St) : Prop := {
  cu_volume : same_volume st.1;
  cu_dir : it_dir st.2 = RootFat12_16 start n;
  cu_sized : sized C;
  cu_j : 0 <= j < n;
  cu_e : 0 <= e <= Z.of_nat epe;
  cu_index : current_sector_index st.2 = start + j;
  cu_entry : entry_index_in_sector st.2 = e;
  cu_sector : current_sector st.2 = sector_of C j;
  cu_disk : forall i, 0 <= i < n -> (i = j -> current_sector_dirty st.2 = false) -> dir_sector st.1 i = sector_of C i
}.
(** before slot [k] *)
Definition before C k (st : St) : Prop := exists j e, k = j * Z.of_nat epe + e /\ cursor C j e st.
(** just after slot [k] was read *)
Definition after C k (st : St) : Prop := 0 <= k /\ cursor C (k / Z.of_nat epe) (k mod Z.of_nat epe + 1) st.

Lemma after_before C k st : after C k st -> before C (k + 1) st.
Proof. intros [Hk Hc]. eexists _, _. split; [|exact Hc]. destruct G as [[? _] _ _ _ _]. dlia. Qed.
Lemma cursor_after C j e st : 0 < e -> cursor C j e st -> after C (j * Z.of_nat epe + e - 1) st.
Proof.
  intros He Hc. pose proof (cu_e _ _ _ _ Hc). pose proof (cu_j _ _ _ _ Hc).
  assert ((j * Z.of_nat epe + e - 1) / Z.of_nat epe = j) as E1 by (symmetry; apply Z.div_unique with (e - 1); lia).
  assert ((j * Z.of_nat epe + e - 1) mod Z.of_nat epe = e - 1) as E2 by (symmetry; apply Z.mod_unique with j; lia).
  split; [nia|]. rewrite E1, E2. by replace (e - 1 + 1) with e by lia.
Qed.

Lemma length_sector C j : sized C -> len (sector_of C j) = sz.
Proof. intros HC. unfold sector_of, len. rewrite length_slots by done. destruct G as [[? [? _]] _ _ _ _]. lia. Qed.

(** ** The disk operations *)
Lemma wp_read_sector P f i (Q : result bytes FileSystemError -> FS -> Prop) :
  same_volume f -> 0 <= i < n -> Q (Ok (dir_sector f i)) f -> wp P (read_sectors_no_cache (start + i) 1) f Q.
Proof.
  intros [He Hr Hs _] Hi HQ. destruct G as [_ Gb (G1 & G2 & G3) Gf Gu]. unfold read_sectors_no_cache. cbn [Z.eqb].
  apply wp_bind, wp_get. assert (start_lba f = start_lba f0) as El by (by rewrite He). rewrite El.
  apply wp_bind, wp_cadd; [lia|]. apply wp_bind.
  assert (bps f = sz) as -> by (rewrite He; exact Gb). replace (sz * 1) with (1 * sz) by lia.
  destruct (wp_total (Ide.read_sync (start_lba f0 + (start + i)) (1 * sz)) (device f)
    (fun r dev => r = Ok (dir_sector f i) /\ dev = device f)) as (r & dev & E & -> & ->).
  { apply (wp_read_sync Hsz); [done|lia|lia|lia|]. split; [|done]. change (Z.to_nat 1) with 1%nat. cbn [span].
    rewrite app_nil_r. unfold dir_sector. do 2 f_equal. lia. }
  unfold wp at 1, on_device. rewrite E. apply wp_ret. cbn [disk_error].
  replace (set_device (device f) f) with f by (by destruct f). done.
Qed.

Lemma cursor_volume C j e st f' : cursor C j e st -> same_volume f' ->
  (forall i, 0 <= i < n -> (i = j -> current_sector_dirty st.2 = false) -> dir_sector f' i = sector_of C i) -> cursor C j e (f', st.2).
Proof. intros [] Hf Hd. by split. Qed.

(** flushing changes the disk and not the slots *)
Lemma wp_flush_current_sector P C j e st (Q : unit -> St -> Prop) : cursor C j e st ->
  (forall st', cursor C j e st' -> current_sector_dirty st'.2 = false -> Q tt st') -> wp P flush_current_sector st Q.
Proof.
  intros Hc HQ. unfold flush_current_sector. apply wp_bind, wp_get.
  destruct (current_sector_dirty st.2) eqn:Hd; [|apply wp_ret; by apply HQ].
  destruct Hc as [Hv Hdir HC Hj He Hi Hen Hse Hdisk]. destruct st as [f it]. cbn [fst snd] in *.
  pose proof Hv as [Ev Rv Sv Ov]. destruct G as [_ Gb (G1 & G2 & G3) Gf Gu].
  assert (start_lba f = start_lba f0) as El by (by rewrite Ev).
  assert (bps f = sz) as Eb by (rewrite Ev; exact Gb).
  apply wp_bind. unfold wp at 1, on_fs. cbn [fst snd]. rewrite Hi, Hse.
  destruct (wp_total (write_sectors (start + j) (sector_of C j)) f (fun r f' => r = Ok tt /\ exists dev, f' = set_device dev f /\
      replaced (device f) (start_lba f + (start + j)) 1 (sector_of C j) dev)) as (r & f' & Ew & -> & dev & -> & R1 & R2 & R3).
  { apply (wp_write_sectors Hsz _ _ _ _ 1); try done; try lia.
    - rewrite (length_sector C j HC). lia.
    - intros dev Hrep. eauto. }
  rewrite Ew. apply wp_bind, (wp_lift_ret _ tt); [done|]. apply wp_modify, HQ; [|done]. cbn [fst snd].
  assert (forall i, dir_sector (set_device dev f) i = if decide (i = j) then sector_of C j else dir_sector f i) as Hsec.
  { intros i. unfold dir_sector. cbn [set_device device]. rewrite R3, El. destruct (decide (i = j)) as [->|Hne].
    - rewrite decide_True by lia. replace (start_lba f0 + start + j - (start_lba f0 + (start + j))) with 0 by lia.
      unfold block. change (Z.to_nat (0 * sz)) with 0%nat. rewrite drop_0, take_ge; [done|].
      pose proof (length_sector C j HC) as HL. unfold len in HL. lia.
    - rewrite decide_False by lia. done. }
  split; cbn [fst snd set_dirty it_dir current_sector_index entry_index_in_sector current_sector current_sector_dirty]; try done.
  - split; cbn [set_device device]; [by rewrite Ev|done|congruence|].
    intros s Hs. rewrite R3, El, decide_False by lia. by apply Ov.
  - intros i Hin _. rewrite Hsec. case_decide as Eij; [by rewrite Eij|]. by apply Hdisk.
Qed.

(** ** Reading the next slot *)
Lemma wp_entry_here P C j e st kk (Q : result (nat * bytes) FileSystemError -> St -> Prop) : cursor C j e st ->
  (e < Z.of_nat epe -> forall st', cursor C j (e + 1) st' ->
     Q (Ok ((32 * Z.to_nat e)%nat, C (j * Z.of_nat epe + e))) st') ->
  (e = Z.of_nat epe -> wp P kk st Q) -> wp P (entry_here kk) st Q.
Proof.
  intros Hc Hlt Hge. unfold entry_here. apply wp_bind, wp_get.
  destruct Hc as [Hv Hdir HC Hj He Hi Hen Hse Hdisk] eqn:Ec. clear Ec. rewrite Hen, Hse, (length_sector C j HC).
  destruct G as [(G1 & G2 & G3) _ _ _ _]. destruct (Z.ltb_spec sz (e * 32 + 32)) as [Hs|Hs]; [apply Hge; lia|].
  apply wp_bind, wp_cadd; [lia|]. apply wp_bind, wp_modify, wp_ret.
  replace (Z.to_nat (e * 32)) with (32 * Z.to_nat e)%nat by lia. unfold sector_of at 1.
  rewrite slot_read by (done || lia). rewrite Z2Nat.id by lia. apply Hlt; [lia|].
  destruct st as [f it]. split; cbn [fst snd set_entry it_dir current_sector_index entry_index_in_sector current_sector current_sector_dirty] in *; try done. lia.
Qed.

Lemma wp_next_sector P C j st (Q : result bool FileSystemError -> St -> Prop) e : cursor C j e st ->
  (j + 1 < n -> forall st', cursor C (j + 1) 0 st' -> Q (Ok true) st') ->
  (j + 1 = n -> forall st', cursor C j e st' -> Q (Ok false) st') -> wp P next_sector st Q.
Proof.
  intros Hc Hlt Hge. unfold next_sector. apply wp_bind. eapply wp_flush_current_sector; [exact Hc|]. clear Hc st.
  intros [f it] Hc Hclean. apply wp_bind, wp_get. pose proof Hc as [Hv Hdir HC Hj He Hi Hen Hse Hdisk]. cbn [fst snd] in *.
  destruct G as [(G1 & G2 & G3) _ (G4 & G5 & G6) _ G7]. rewrite Hi, Hdir. apply wp_bind, wp_cadd; [lia|].
  apply wp_bind, wp_cadd; [lia|]. destruct (Z.leb_spec (start + n) (start + j + 1)) as [Hs|Hs]; [apply wp_ret, Hge; [lia|done]|].
  replace (start + j + 1) with (start + (j + 1)) by lia.
  apply wp_ebind. unfold wp at 1, on_fs. cbn [fst snd].
  destruct (wp_total (read_sectors_no_cache (start + (j + 1)) 1) f (fun r f' => r = Ok (dir_sector f (j + 1)) /\ f' = f))
    as (r & f' & -> & -> & ->); [apply wp_read_sector; [done|lia|done]|].
  apply wp_bind, wp_modify, wp_ret, Hlt; [lia|].
  split; cbn [fst snd it_dir current_sector_index entry_index_in_sector current_sector current_sector_dirty]; try done; try lia.
  - apply Hdisk; [lia|done].
  - intros i Hin _. by apply Hdisk.
Qed.

Lemma wp_get_next_entry P C k st (Q : result (nat * bytes) FileSystemError -> St -> Prop) : before C k st ->
  (0 <= k < total -> forall st', after C k st' -> Q (Ok ((32 * Z.to_nat (k mod Z.of_nat epe))%nat, C k)) st') ->
  (k = total -> forall st', before C k st' -> Q (Err FileNotFound) st') -> wp P get_next_entry st Q.
Proof.
  intros (j & e & -> & Hc) Hlt Hge. destruct G as [(G1 & _) _ _ _ _].
  assert (forall j e st', 0 <= j < n -> 0 <= e < Z.of_nat epe -> cursor C j (e + 1) st' ->
    after C (j * Z.of_nat epe + e) st' /\ (j * Z.of_nat epe + e) mod Z.of_nat epe = e /\ 0 <= j * Z.of_nat epe + e < total) as Hafter.
  { intros j' e' st' Hj He Hc'. apply (cursor_after C j' (e' + 1)) in Hc'; [|lia].
    replace (j' * Z.of_nat epe + (e' + 1) - 1) with (j' * Z.of_nat epe + e') in Hc' by lia.
    split; [done|]. split; [symmetry; apply Z.mod_unique with j'; lia|nia]. }
  pose proof (cu_j _ _ _ _ Hc) as Hj. pose proof (cu_e _ _ _ _ Hc) as He.
  unfold get_next_entry. eapply wp_entry_here; [exact Hc| |].
  - intros Hep st' Hc'. destruct (Hafter j e st') as (A1 & A2 & A3); [lia|lia|done|]. rewrite <- A2 at 1. by apply Hlt.
  - intros ->. apply wp_ebind. eapply wp_next_sector; [exact Hc| |].
    + intros Hjn st' Hc'. eapply wp_entry_here; [exact Hc'| |intros; lia]. intros _ st2 Hc2.
      destruct (Hafter (j + 1) 0 st2) as (A1 & A2 & A3); [lia|lia|done|]. rewrite <- A2 at 1.
      replace ((j + 1) * Z.of_nat epe + 0) with (j * Z.of_nat epe + Z.of_nat epe) in * by lia. by apply Hlt.
    + intros <- st' Hc'. apply wp_ret, Hge; [lia|]. by exists j, (Z.of_nat epe).
Qed.

(** ** Writing, saving and restoring *)
Lemma wp_write_slot P C k st b (Q : unit -> St -> Prop) : after C k st -> length b = 32%nat ->
  (forall st', after (updated C k b) k st' -> Q tt st') ->
  wp P (write_entry (32 * Z.to_nat (k mod Z.of_nat epe)) b) st Q.
Proof.
  intros [Hk Hc] Hb HQ. unfold write_entry. apply wp_bind, wp_modify, wp_modify, HQ. split; [done|].
  destruct G as [(G1 & _) _ _ _ _]. pose proof Hc as [Hv Hdir HC Hj He Hi Hen Hse Hdisk]. destruct st as [f it]. cbn [fst snd] in *.
  split; cbn [fst snd set_sector set_dirty it_dir current_sector_index entry_index_in_sector current_sector current_sector_dirty]; try done.
  - by apply updated_sized.
  - rewrite Hse. unfold sector_of. rewrite slot_write by (done || dlia). f_equal. f_equal. rewrite Z2Nat.id by dlia. dlia.
  - intros i Hin Hd. assert (i <> k / Z.of_nat epe) as Hne by (intros E; by specialize (Hd E)).
    rewrite Hdisk by (done || by intros ?). apply span_ext. intros s Hs. unfold updated. rewrite decide_False; [done|].
    intros ->. apply Hne. apply Z.div_unique with (k - i * Z.of_nat epe); lia.
Qed.

Definition saved_at k (p : DirectoryIterSavedPosition) : Prop :=
  0 <= k /\ saved_sector p = start + k / Z.of_nat epe /\ saved_entry p = k mod Z.of_nat epe.

Lemma save_current_at C k st : after C k st -> saved_at k (save_current st.2).
Proof.
  intros [Hk [_ _ _ _ He Hi Hen _ _]]. destruct G as [(G1 & _) _ _ _ _]. split; [done|].
  unfold save_current. cbn [saved_sector saved_entry]. split; [done|]. rewrite Hen. dlia.
Qed.

Lemma wp_restore_at P C k' j e st p (Q : result unit FileSystemError -> St -> Prop) : cursor C j e st -> saved_at k' p -> k' < total ->
  (forall st', before C k' st' -> Q (Ok tt) st') -> wp P (restore_at p) st Q.
Proof.
  intros Hc (Hk & Hps & Hpe) Hkt HQ. destruct (ge_epe G) as (G1 & _). unfold restore_at.
  apply wp_bind, wp_modify, wp_bind, wp_get. cbn [fst snd current_sector_index].
  assert (0 <= k' / Z.of_nat epe < n) as Hj' by (split; [apply Z.div_pos; lia|apply Z.div_lt_upper_bound; lia]).
  assert (0 <= k' mod Z.of_nat epe < Z.of_nat epe) as He' by (apply Z.mod_pos_bound; lia).
  assert (k' = k' / Z.of_nat epe * Z.of_nat epe + k' mod Z.of_nat epe) as Ek by (rewrite Z.mul_comm; apply Z.div_mod; lia).
  set (j' := k' / Z.of_nat epe) in *. set (e' := k' mod Z.of_nat epe) in *. rewrite Hps, Hpe.
  pose proof Hc as [Hv Hdir HC Hj He Hi Hen Hse Hdisk].
  set (st1 := (st.1, mkIter _ _ _ _ _ _) : St).
  assert (cursor C j e' st1) as Hc1.
  { split; subst st1; cbn [fst snd it_dir current_sector_index entry_index_in_sector current_sector current_sector_dirty]; try done. lia. }
  destruct (Z.eqb_spec (current_sector_index st.2) (start + j')) as [E|E].
  { apply wp_ret, HQ. exists j', e'. split; [done|]. by assert (j = j') as <- by lia. }
  apply wp_bind. eapply wp_flush_current_sector; [exact Hc1|]. intros [f it] Hc2 Hclean. cbn [snd] in Hclean.
  pose proof Hc2 as [Hv2 Hdir2 _ _ _ Hi2 Hen2 Hse2 Hdisk2]. cbn [fst snd] in *.
  apply wp_bind, wp_modify. cbn [fst snd]. apply wp_ebind. unfold wp at 1, on_fs. cbn [fst snd].
  destruct (wp_total (read_sectors_no_cache (start + j') 1) f (fun r f' => r = Ok (dir_sector f j') /\ f' = f))
    as (r & f' & -> & -> & ->); [apply wp_read_sector; done|].
  apply wp_bind, wp_modify, wp_ret, HQ. exists j', e'. split; [done|].
  split; cbn [fst snd set_sector it_dir current_sector_index entry_index_in_sector current_sector current_sector_dirty]; try done; try lia.
  - by apply Hdisk2.
  - intros i Hin _. by apply Hdisk2.
Qed.
End cursor.

(** * The FAT root directory: listing, look-up and creation

    A directory is described by its items - deleted slots and the groups of
    entries of its files - followed by a free slot or by the end of the
    directory.  Reading enumerates the items, and [add_entry] appends a
    group. *)
Import Text FatTable FatFs FatDir.

Inductive item : Type := Deleted (raw : bytes) | Stored (g : group).
Definition item_slots (i : item) : list bytes := match i with Deleted raw => [raw] | Stored g => slots g end.
Definition all_slots (l : list item) : list bytes := concat (item_slots <$> l).
Definition item_ok (i : item) : Prop :=
  match i with Deleted raw => entry_state raw = EFree | Stored g => group_ok g end.

Section reading.
Context {H : Type} `{DriveLaws H sz cap} (Hsz : 0 < sz).
Notation FS := (FatFilesystem H).
Notation St := (FS * DirectoryIterator)%type.
Context (f0 : FS) (start n : Z) (epe : nat) (G : geometry (sz := sz) f0 start n epe).
Implicit Types (C : Z -> bytes) (k : Z) (g : group) (st : St).
Notation total := (n * Z.of_nat epe).
Notation before := (before (cap := cap) f0 start n epe).
Notation after := (after (cap := cap) f0 start n epe).

(** the directory holds the slots [l] from [k] on *)
Record holds C k (l : list bytes) : Prop := {
  ho_range : 0 <= k /\ k + Z.of_nat (length l) <= total;
  ho_slot : forall i s, l !! i = Some s -> C (k + Z.of_nat i) = s
}.

Lemma holds_app C k l l' : holds C k (l ++ l') <-> holds C k l /\ holds C (k + Z.of_nat (length l)) l'.
Proof.
  split.
  - intros [Hr Hs]. rewrite length_app in Hr. split; split; try lia.
    + intros i s Hi. apply Hs. by apply lookup_app_l_Some.
    + intros i s Hi. rewrite <- (Hs (length l + i)%nat s); [f_equal; lia|]. by rewrite lookup_app_r, Nat.add_comm, Nat.add_sub by lia.
  - intros [[Hr Hs] [Hr' Hs']]. split; [rewrite length_app; lia|]. intros i s Hi.
    apply lookup_app_Some in Hi as [Hi|[Hi1 Hi2]]; [by apply Hs|]. rewrite <- (Hs' _ _ Hi2). f_equal. lia.
Qed.
Lemma holds_head C k s l : holds C k (s :: l) -> C k = s /\ 0 <= k < total /\ holds C (k + 1) l.
Proof.
  change (s :: l) with ([s] ++ l). rewrite holds_app. intros [[Hr Hs] Hl]. cbn in Hr. split; [|split; [lia|exact Hl]].
  rewrite <- (Hs 0%nat s eq_refl). f_equal. lia.
Qed.
Lemma holds_nil C k : 0 <= k <= total -> holds C k [].
Proof. intros Hk. split; [cbn; lia|done]. Qed.
Lemma holds_update C k l j b : holds C k l -> j < k \/ k + Z.of_nat (length l) <= j -> holds (updated C j b) k l.
Proof.
  intros [Hr Hs] Hj. split; [done|]. intros i s Hi. apply lookup_lt_Some in Hi as Hlt. unfold updated.
  rewrite decide_False by lia. by apply Hs.
Qed.

(** ** One step of the iterator *)
Lemma wp_collect_long P C l nrm : forall k st acc (Q : option (bytes * list bytes) -> St -> Prop),
  holds C k (l ++ [nrm]) -> Forall (fun b => is_long b = true) l -> after C k st ->
  (forall st', after C (k + Z.of_nat (length l)) st' ->
     Q (Some (nrm, acc ++ ((fun b => long_part (decode_long b)) <$> l))) st') ->
  wp P (collect_long (length l) (C k) acc) st Q.
Proof.
  induction l as [|b l IH]; intros k st acc Q Hh Hl Ha HQ; cbn [collect_long length].
  - apply wp_ret. cbn in Hh. apply holds_head in Hh as (-> & _). rewrite app_nil_r in HQ. apply HQ.
    cbn [length]. by replace (k + Z.of_nat 0) with k by lia.
  - cbn [app] in Hh. apply holds_head in Hh as (-> & Hk & Hh). apply Forall_cons in Hl as [_ Hl].
    apply wp_bind. eapply (wp_get_next_entry Hsz f0 start n epe G); [by apply after_before|intros _ st' Ha'|].
    2: { intros E. destruct Hh as [Hr _]. rewrite length_app in Hr. cbn in Hr. lia. }
    assert (match length l with O => true | S _ => is_long (C (k + 1)) end = true) as Hlong.
    { destruct l as [|b' l]; [done|]. cbn [app] in Hh. apply holds_head in Hh as (-> & _). by apply Forall_inv in Hl. }
    apply wp_bind, wp_assert; [exact Hlong|]. apply IH; [done|done|done|]. intros st2 Ha2. rewrite <- app_assoc. apply HQ.
    cbn [length]. by replace (k + Z.of_nat (S (length l))) with (k + 1 + Z.of_nat (length l)) by lia.
Qed.

(** what the iterator makes of a group whose normal entry is slot [p] *)
Definition node_at g (p : Z) : FatNode :=
  mkFatNode (decode_normal (g_normal g)) (group_name g) (start + p / Z.of_nat epe) (p mod Z.of_nat epe).

(** the next file: how many slots are skipped, its group, the items left *)
Fixpoint next_file (l : list item) : option (Z * group * list item) :=
  match l with
  | [] => None
  | Deleted _ :: l => '(d, g, r) ← next_file l; Some (d + 1, g, r)
  | Stored g :: l => Some (0, g, l)
  end.

(** the end of the items *)
Definition ends C k : Prop := k = total \/ 0 <= k < total /\ entry_state (C k) = EFreeAndLast.
Record described C k (l : list item) : Prop := {
  de_holds : holds C k (all_slots l);
  de_ok : Forall item_ok l;
  de_end : ends C (k + Z.of_nat (length (all_slots l)))
}.

Lemma described_cons C k i l : described C k (i :: l) ->
  item_ok i /\ holds C k (item_slots i) /\ described C (k + Z.of_nat (length (item_slots i))) l.
Proof.
  intros [Hh [Ho Ho']%Forall_cons He]. unfold all_slots in *. cbn [fmap list_fmap concat] in *.
  apply holds_app in Hh as [Hh1 Hh2]. split; [done|]. split; [done|]. split; [done|done|].
  unfold all_slots. by rewrite length_app, Nat2Z.inj_add, Z.add_assoc in He.
Qed.

Lemma wp_skip_free P C l : forall fuel k st (Q : option bytes -> St -> Prop), (length l < fuel)%nat -> described C k l -> before C k st ->
  (next_file l = None -> forall st', before C (k + Z.of_nat (length (all_slots l))) st' \/ after C (k + Z.of_nat (length (all_slots l))) st' -> Q None st') ->
  (forall d g r, next_file l = Some (d, g, r) -> group_ok g -> 0 <= d -> holds C (k + d) (slots g) ->
     described C (k + d + Z.of_nat (length (slots g))) r -> (length r < length l)%nat ->
     forall st', after C (k + d) st' -> Q (Some (C (k + d))) st') ->
  wp P (skip_free fuel) st Q.
Proof.
  induction l as [|i l IH]; intros fuel k st Q Hf Hd Hb Hno Hyes; (destruct fuel as [|fuel]; [lia|]); cbn [skip_free].
  - destruct Hd as [_ _ He]. unfold all_slots in *. cbn in He, Hno. replace (k + Z.of_nat 0) with k in * by lia. apply wp_bind.
    eapply (wp_get_next_entry Hsz f0 start n epe G); [exact Hb| |].
    + intros Hk st' Ha. destruct He as [->|[_ ->]]; [lia|]. apply wp_ret. apply Hno; auto.
    + intros Hk st' Hb'. apply wp_ret. apply Hno; auto.
  - apply described_cons in Hd as (Ho & Hh & Hd). apply wp_bind.
    assert (exists s r, item_slots i = s :: r) as (s & r & Hs).
    { destruct i as [raw|g]; cbn; [by eexists _, _|]. unfold slots. destruct (g_longs g); by eexists _, _. }
    assert (C k = s /\ 0 <= k < total) as [HCk Hk] by (rewrite Hs in Hh; apply holds_head in Hh as (? & ? & _); done).
    eapply (wp_get_next_entry Hsz f0 start n epe G); [exact Hb|intros _ st' Ha|lia].
    destruct i as [raw|g]; cbn [item_ok item_slots] in *.
    + injection Hs as <- _. rewrite HCk, Ho. eapply IH; [cbn in Hf; lia|exact Hd|by apply after_before| |].
      * intros Hnone st2 Hst2. apply Hno; [cbn; by rewrite Hnone|]. unfold all_slots in *. cbn [fmap list_fmap concat item_slots app length].
        by replace (k + Z.of_nat (S (length (concat (item_slots <$> l))))) with (k + Z.of_nat (length [raw]) + Z.of_nat (length (concat (item_slots <$> l)))) by (cbn; lia).
      * intros d g r0 Hn Hg Hd0 Hhg Hdr Hlr st2 Ha2. cbn [length] in *.
        replace (k + Z.of_nat 1 + d) with (k + (d + 1)) in * by lia.
        apply (Hyes (d + 1) g r0); [cbn; by rewrite Hn|done|lia|done|done|lia|done].
    + rewrite HCk. pose proof (go_used g Ho) as Hu. rewrite Hs in Hu. rewrite (Forall_inv Hu), <- HCk. apply wp_ret.
      replace k with (k + 0) at 1 by lia. eapply (Hyes 0 g l); replace (k + 0) with k by lia; try done. cbn. lia.
Qed.

Lemma wp_iter_from P C g k st (Q : option FatNode -> St -> Prop) : group_ok g -> holds C k (slots g) -> after C k st ->
  let p := k + Z.of_nat (length (g_longs g)) in
  (forall st', after C p st' -> Q (Some (node_at g p)) st') -> wp P (iter_from (C k)) st Q.
Proof.
  intros Hg Hh Ha p HQ. pose proof Hg as [_ Hu Hl Hnl Hc _]. unfold slots in Hh. unfold iter_from. apply wp_bind.
  assert (forall st2, after C p st2 -> wp P
    (_ ← lift (assert_that (negb (is_long (g_normal g)))); s ← get;
     _ ← lift (assert_that (0 <? entry_index_in_sector s.2));
     mret (Some (mkFatNode (decode_normal (g_normal g)) (group_name g) (current_sector_index s.2) (entry_index_in_sector s.2 - 1)))) st2 Q) as Hend.
  { intros st2 Ha2. apply wp_bind, wp_assert; [by rewrite Hnl|]. apply wp_bind, wp_get.
    pose proof Ha2 as [Hp0 [_ _ _ _ _ Hi Hen _ _]]. destruct (ge_epe f0 start n epe G) as (G1 & _).
    rewrite Hi, Hen. apply wp_bind, wp_assert; [apply Z.ltb_lt; dlia|]. apply wp_ret.
    replace (p mod Z.of_nat epe + 1 - 1) with (p mod Z.of_nat epe) by lia. by apply HQ. }
  destruct (g_longs g) as [|b l'] eqn:El.
  - cbn [app length] in *. replace k with p in * by (cbn in p; lia). apply holds_head in Hh as (-> & _). rewrite Hnl. apply wp_ret.
    assert (group_name g = None) as Egn by (unfold group_name; by rewrite El). rewrite <- Egn. by apply Hend.
  - assert (C k = b) as HCb by (cbn [app] in Hh; by apply holds_head in Hh as (? & _)).
    rewrite HCb. rewrite (Forall_inv Hl). destruct (Hc b) as [C1 C2]; [by rewrite ?El|].
    apply wp_bind, wp_assert; [by apply Z.eqb_eq|]. rewrite C2. apply wp_bind.
    pose proof (wp_collect_long P C (b :: l') (g_normal g) k st []) as Hcl. rewrite HCb in Hcl.
    apply Hcl; [exact Hh|done|done|]. intros st2 Ha2. apply wp_ret.
    assert (group_name g = Some (long_entries_name_merge ([] ++ ((fun b => long_part (decode_long b)) <$> b :: l')))) as Egn
      by (unfold group_name, spelled; by rewrite El).
    rewrite <- Egn. by apply Hend.
Qed.

Lemma wp_iter_next P C l fuel k st (Q : option FatNode -> St -> Prop) : (length l < fuel)%nat -> described C k l -> before C k st ->
  (next_file l = None -> forall j e st', cursor (cap := cap) f0 start n epe C j e st' -> Q None st') ->
  (forall d g r, next_file l = Some (d, g, r) -> group_ok g -> 0 <= d ->
     let p := k + d + Z.of_nat (length (g_longs g)) in
     described C (p + 1) r -> (length r < length l)%nat -> forall st', after C p st' -> Q (Some (node_at g p)) st') ->
  wp P (iter_next fuel) st Q.
Proof.
  intros Hf Hd Hb Hno Hyes. unfold iter_next. apply wp_bind. eapply (wp_skip_free P C l); [exact Hf|exact Hd|exact Hb| |].
  - intros Hn st' Hst. apply wp_ret. destruct Hst as [(j & e & _ & Hc)|[_ Hc]]; by eapply Hno.
  - intros d g r Hn Hg Hd0 Hh Hdr Hlr st' Ha. eapply wp_iter_from; [exact Hg|exact Hh|exact Ha|]. intros st2 Ha2.
    eapply (Hyes d g r); try done. unfold slots in Hdr. rewrite length_app in Hdr. cbn [length] in Hdr.
    by replace (k + d + Z.of_nat (length (g_longs g)) + 1) with (k + d + Z.of_nat (length (g_longs g) + 1)) by lia.
Qed.

(** the group at hand, whatever follows it *)
Lemma wp_iter_next_group P C g fuel k st (Q : option FatNode -> St -> Prop) : group_ok g -> holds C k (slots g) -> before C k st ->
  let p := k + Z.of_nat (length (g_longs g)) in
  (forall st', after C p st' -> Q (Some (node_at g p)) st') -> wp P (iter_next (S fuel)) st Q.
Proof.
  intros Hg Hh Hb p HQ. unfold iter_next. apply wp_bind. cbn [skip_free]. apply wp_bind.
  assert (exists s r, slots g = s :: r) as (s & r & Hs) by (unfold slots; destruct (g_longs g); by eexists _, _).
  assert (C k = s /\ 0 <= k < total) as [HCk Hk] by (rewrite Hs in Hh; apply holds_head in Hh as (? & ? & _); done).
  eapply (wp_get_next_entry Hsz f0 start n epe G); [exact Hb|intros _ st1 Ha1|lia].
  pose proof (go_used g Hg) as Hu. rewrite Hs in Hu. rewrite HCk, (Forall_inv Hu), <- HCk. apply wp_ret.
  by eapply wp_iter_from.
Qed.

(** ** Listing and look-up *)
Fixpoint listing k (l : list item) : list FatNode :=
  match l with
  | [] => []
  | Deleted _ :: l => listing (k + 1) l
  | Stored g :: l => let p := k + Z.of_nat (length (g_longs g)) in node_at g p :: listing (p + 1) l
  end.
Lemma listing_next l : forall k, listing k l =
  match next_file l with
  | None => []
  | Some (d, g, r) => let p := k + d + Z.of_nat (length (g_longs g)) in node_at g p :: listing (p + 1) r
  end.
Proof.
  induction l as [|[raw|g] l IH]; intros k; [done| |cbn; by rewrite Z.add_0_r]. cbn [listing next_file].
  rewrite IH. destruct (next_file l) as [[[d g] r]|]; [|done]. cbn. by replace (k + 1 + d) with (k + (d + 1)) by lia.
Qed.

Lemma node_of_at g p : group_ok g -> exists nd, node_of (node_at g p) = Ret nd.
Proof.
  intros Hg. destruct (go_short g Hg) as [s Hs]. unfold node_of, node_at. cbn [normal_entry long_name]. rewrite Hs.
  cbn [mbind outcome_bind]. destruct (new_node_spec (default s (group_name g))
    (file_attribute_from_fat (attributes (decode_normal (g_normal g)))) (first_cluster (decode_normal (g_normal g)))
    (file_size (decode_normal (g_normal g))) (start + p / Z.of_nat epe) (p mod Z.of_nat epe)) as (nd & Hnd & _). by exists nd.
Qed.

Lemma node_base_at g p nd : node_of (node_at g p) = Ret nd -> group_ok g ->
  let e := decode_normal (g_normal g) in
  match group_name g with
  | Some name => node_base nd = mkBaseNode name (file_attribute_from_fat (attributes e)) (first_cluster e) (start + p / Z.of_nat epe) (p mod Z.of_nat epe)
  | None => True
  end.
Proof.
  intros Hn Hg e. destruct (go_short g Hg) as [s Hs]. unfold node_of, node_at in Hn. cbn [normal_entry long_name] in Hn. rewrite Hs in Hn.
  cbn [mbind outcome_bind] in Hn. destruct (group_name g) as [name|]; [|done].
  destruct (new_node_spec name (file_attribute_from_fat (attributes e)) (first_cluster e) (file_size e)
    (start + p / Z.of_nat epe) (p mod Z.of_nat epe)) as (nd' & Hnd & _ & Hb & _).
  cbn [default from_option fat_parent_dir_sector fat_parent_dir_index] in Hn. unfold id in Hn. fold e in Hn. congruence.
Qed.

(** a handler that never panics, and the fold that stops when it says so *)
Fixpoint fold_until {A} (h : Node -> A -> A * bool) (l : list Node) (a : A) : A :=
  match l with
  | [] => a
  | x :: l => let '(a, stop) := h x a in if stop then a else fold_until h l a
  end.

Definition nodes_of (l : list FatNode) (nodes : list Node) : Prop := Forall2 (fun v nd => node_of v = Ret nd) l nodes.

Lemma nodes_exist l : Forall item_ok l -> forall k, exists nodes, nodes_of (listing k l) nodes.
Proof.
  induction 1 as [|[raw|g] l Hi _ IH]; intros k; cbn [listing]; [by exists []; constructor|apply IH|].
  destruct (IH (k + Z.of_nat (length (g_longs g)) + 1)) as [ns ?].
  destruct (node_of_at g (k + Z.of_nat (length (g_longs g))) Hi) as [x ?]. exists (x :: ns). by constructor.
Qed.

Lemma wp_read_dir_loop P C {A} (h : Node -> A -> A * bool) l : forall fuel fuel' k st a (Q : result A FileSystemError -> St -> Prop),
  (length l < fuel)%nat -> (length l < fuel')%nat -> described C k l -> before C k st ->
  (forall nodes, nodes_of (listing k l) nodes -> forall j e st', cursor (cap := cap) f0 start n epe C j e st' -> Q (Ok (fold_until h nodes a)) st') ->
  wp P (read_dir_loop fuel fuel' (fun x a => Ret (h x a)) a) st Q.
Proof.
  induction l as [l IH] using (induction_ltof1 _ (@length item)). unfold ltof in IH.
  intros fuel fuel' k st a Q Hf Hf' Hd Hb HQ. destruct fuel as [|fuel]; [lia|]. cbn [read_dir_loop].
  apply wp_bind. eapply wp_iter_next; [exact Hf'|exact Hd|exact Hb| |].
  - intros Hn j e st' Hc. apply wp_ret. eapply (HQ []); [|exact Hc]. rewrite listing_next, Hn. constructor.
  - intros d g r Hn Hg Hd0 p Hdr Hlr st' Ha. destruct (node_of_at g p Hg) as [nd Hnd].
    apply wp_bind, (wp_lift_ret _ nd); [done|]. apply wp_bind. destruct (h nd a) as [a' stop] eqn:Eh.
    eapply wp_lift_ret; [done|]. destruct stop.
    + apply wp_ret.
      assert (exists nodes, nodes_of (listing (p + 1) r) nodes) as [nodes Hnodes].
      { apply nodes_exist, Hdr. }
      assert (fold_until h (nd :: nodes) a = a') as <- by (cbn; by rewrite Eh).
      destruct Ha as [_ Hc]. eapply HQ; [|exact Hc]. rewrite listing_next, Hn. by constructor.
    + eapply (IH r); [done|lia|lia|exact Hdr|by apply after_before|]. intros nodes Hnodes j e st2 Hc.
      assert (fold_until h nodes a' = fold_until h (nd :: nodes) a) as -> by (cbn; by rewrite Eh).
      eapply HQ; [|exact Hc]. rewrite listing_next, Hn. by constructor.
Qed.

Lemma matches_total g p m : group_ok g -> exists b, matches (node_at g p) m = Ret b.
Proof.
  intros Hg. destruct (go_short g Hg) as [s Hs]. unfold matches, node_at. cbn [normal_entry long_name]. rewrite Hs.
  case_match; by eexists.
Qed.
(** the first listed file a name matches *)
Definition first_match (l : list FatNode) (m : bytes) : option FatNode := snd <$> list_find (fun v => matches v m = Ret true) l.

Lemma wp_treverse_loop P C m l : forall fuel fuel' k st (Q : result Node FileSystemError -> St -> Prop),
  (length l < fuel)%nat -> (length l < fuel')%nat -> described C k l -> before C k st ->
  (forall j e st', cursor (cap := cap) f0 start n epe C j e st' ->
    match first_match (listing k l) m with
    | Some v => forall nd, node_of v = Ret nd -> Q (Ok nd) st'
    | None => Q (Err FileNotFound) st'
    end) ->
  wp P (treverse_loop fuel fuel' m) st Q.
Proof.
  induction l as [l IH] using (induction_ltof1 _ (@length item)). unfold ltof in IH.
  intros fuel fuel' k st Q Hf Hf' Hd Hb HQ. destruct fuel as [|fuel]; [lia|]. cbn [treverse_loop].
  unfold first_match in HQ. rewrite listing_next in HQ.
  apply wp_bind. eapply wp_iter_next; [exact Hf'|exact Hd|exact Hb| |].
  - intros Hn j e st' Hc. apply wp_ret. rewrite Hn in HQ. by eapply HQ.
  - intros d g r Hn Hg Hd0 p Hdr Hlr st' Ha. rewrite Hn in HQ. cbn zeta in HQ. fold p in HQ.
    destruct (matches_total g p m Hg) as [b Hm]. apply wp_bind, (wp_lift_ret _ b); [done|].
    cbn [list_find] in HQ. destruct b.
    + destruct (node_of_at g p Hg) as [nd Hnd]. apply wp_bind, (wp_lift_ret _ nd); [done|]. apply wp_ret.
      destruct Ha as [_ Hc]. specialize (HQ _ _ _ Hc). rewrite decide_True in HQ by done. by apply HQ.
    + eapply (IH r); [done|lia|lia|exact Hdr|by apply after_before|]. intros j e st2 Hc. specialize (HQ _ _ _ Hc).
      rewrite decide_False in HQ by congruence. unfold first_match.
      destruct (list_find (fun v => matches v m = Ret true) (listing (p + 1) r)) as [[i v]|]; done.
Qed.

(** ** The root directory of the volume *)
Definition root_node (d : DirectoryNode) : Prop := start_cluster (dn_base d) = 0.
(** the directory on the disk holds the slots [C] *)
Definition on_root (f : FS) C : Prop := sized C /\ forall i, 0 <= i < n -> dir_sector f0 start f i = sector_of epe C i.

Record root_volume : Prop := {
  rv_type : ty (boot f0) <> Fat32;
  rv_start : root_dir_start_sector (boot f0) = Ret start;
  rv_sectors : root_dir_sectors (boot f0) = Ret n;
  rv_ready : ready (sz := sz) (cap := cap) (device f0);
  rv_total : n <= total_sectors (boot f0)
}.
Context (V : root_volume).

Lemma same_volume_refl : same_volume (sz := sz) (cap := cap) f0 start n f0.
Proof. split; [by destruct f0|apply V|done|done]. Qed.

Lemma dir_fuel_enough : (Z.to_nat total < dir_fuel f0)%nat.
Proof.
  unfold dir_fuel. destruct G as [(G1 & G2 & _) Gb (_ & _ & G3) _ _]. pose proof (rv_total V). rewrite Gb, G2.
  replace (32 * Z.of_nat epe / 32) with (Z.of_nat epe) by (rewrite Z.mul_comm, Z.div_mul; lia). nia.
Qed.

Lemma wp_with_root P d C {A} (m : ST St (result A FileSystemError)) (Q : result A FileSystemError -> FS -> Prop) : root_node d -> on_root f0 C ->
  (forall st, before C 0 st -> wp P m st (fun r st' => exists C' j e, cursor (cap := cap) f0 start n epe C' j e st' /\
     forall f', same_volume (sz := sz) (cap := cap) f0 start n f' -> on_root f' C' -> Q r f')) ->
  wp P (with_dir d m) f0 Q.
Proof.
  intros Hd [HC Hroot] Hm. unfold with_dir. destruct (ge_range f0 start n epe G) as (_ & _ & Hn).
  apply wp_ebind. unfold open_dir_inode. apply wp_bind, wp_get. apply wp_bind.
  rewrite decide_False by apply V. rewrite Hd. cbn [Z.eqb]. unfold open_root_dir. apply wp_bind, wp_get.
  rewrite decide_False by apply V. apply wp_bind, (wp_lift_ret _ start); [apply V|].
  apply wp_bind, (wp_lift_ret _ n); [apply V|]. apply wp_ret. cbn [iter_new]. unfold iter_root. apply wp_ebind.
  replace start with (start + 0) at 1 by lia.
  eapply (wp_read_sector Hsz f0 start n epe G); [apply same_volume_refl|lia|]. rewrite Hroot by lia. apply wp_ret.
  set (it := mkIter _ _ _ _ _ _).
  assert (before C 0 (f0, it)) as Hb.
  { exists 0, 0. split; [lia|]. split; subst it; cbn; try done; try lia; [apply same_volume_refl|auto]. }
  specialize (Hm _ Hb). unfold wp in Hm. unfold wp, mbind, ST_bind.
  destruct (m (f0, it)) as [[r st']| |]; [|done..]. destruct Hm as (C' & j & e & Hc & HQ).
  destruct (wp_total (flush_current_sector (H := H)) st' (fun _ st2 => cursor (cap := cap) f0 start n epe C' j e st2 /\ current_sector_dirty st2.2 = false))
    as ([] & [f2 it2] & Hf & Hc2 & Hclean).
  { eapply (wp_flush_current_sector Hsz f0 start n epe G); [exact Hc|done]. }
  rewrite Hf. cbn. apply HQ; [apply Hc2|]. split; [apply Hc2|]. intros i Hi. by apply (cu_disk _ _ _ _ _ _ _ _ Hc2).
Qed.

Lemma all_slots_length l : (length l <= length (all_slots l))%nat.
Proof.
  unfold all_slots. induction l as [|i l IH]; [done|]. cbn. rewrite length_app.
  assert (1 <= length (item_slots i))%nat; [|lia]. destruct i; cbn; [lia|]. unfold slots. rewrite length_app. cbn. lia.
Qed.
Lemma items_fuel C l : described C 0 l -> (length l < dir_fuel f0)%nat.
Proof. intros [[Hr _] _ _]. pose proof (all_slots_length l). pose proof dir_fuel_enough. lia. Qed.

(** Listing a root directory: whatever the handler does, [read_dir] gives it
    the files of the directory in order, each with the name its entries
    spell and the place of its entry on the disk, until it asks to stop; the
    disk is left as it was. *)
Lemma read_dir_spec d C l {A} (h : Node -> A -> A * bool) a : root_node d -> on_root f0 C -> described C 0 l ->
  exists nodes f', nodes_of (listing 0 l) nodes /\
    read_dir d (fun x a => Ret (h x a)) a f0 = Ret (Ok (fold_until h nodes a), f') /\
    same_volume (sz := sz) (cap := cap) f0 start n f' /\ on_root f' C.
Proof.
  intros Hd Hr Hl.
  destruct (wp_total (read_dir d (fun x a => Ret (h x a)) a) f0 (fun r f' => exists nodes, nodes_of (listing 0 l) nodes /\
    r = Ok (fold_until h nodes a) /\ same_volume (sz := sz) (cap := cap) f0 start n f' /\ on_root f' C)) as (r & f' & E & nodes & Hn & -> & Hv & Ho).
  - unfold read_dir. apply wp_bind, wp_get. eapply wp_with_root; [done|exact Hr|]. intros st Hb.
    pose proof (items_fuel C l Hl) as Hfuel.
    eapply wp_read_dir_loop; [exact Hfuel|exact Hfuel|exact Hl|exact Hb|]. intros nodes Hn j e st' Hc.
    exists C, j, e. split; [done|]. eauto.
  - by exists nodes, f'.
Qed.

Lemma treverse_dir_spec d C l m : root_node d -> on_root f0 C -> described C 0 l ->
  exists r f', treverse_dir d m f0 = Ret (r, f') /\
    match first_match (listing 0 l) m with
    | Some v => exists nd, node_of v = Ret nd /\ r = Ok nd
    | None => r = Err FileNotFound
    end /\ same_volume (sz := sz) (cap := cap) f0 start n f' /\ on_root f' C.
Proof.
  intros Hd Hr Hl. apply (wp_total (treverse_dir d m) f0 (fun r f' => _ /\ _)).
  unfold treverse_dir. apply wp_bind, wp_get. eapply wp_with_root; [done|exact Hr|]. intros st Hb.
  pose proof (items_fuel C l Hl) as Hfuel.
  eapply wp_treverse_loop; [exact Hfuel|exact Hfuel|exact Hl|exact Hb|]. intros j e st' Hc.
  destruct (first_match (listing 0 l) m) as [v|] eqn:E; [intros nd Hnd|]; exists C, j, e; (split; [done|]); intros f' ? ?; eauto.
Qed.
End reading.
