(* ===== verification/FatVolume.v ===== *)
(** * Adding a file to a FAT root directory

    [add_entry] on a directory that holds the groups [gs] and then free slots:
    a name that is there already is refused, any other is appended, the
    directory stays well formed, and no other sector changes. *)
From S2P Require Import Prelude MemLayout UserLink FsTypes FatTable BlockDev FatFs FatChain FatSpec Path PathSpec FatDir FatNames FatDirSpec.

Import Text FatTable FatFs FatDir.

Section creating.
Context {H : Type} `{DriveLaws H sz cap} (Hsz : 0 < sz).
Notation FS := (FatFilesystem H).
Notation St := (FS * DirectoryIterator)%type.
Context (f0 : FS) (start n : Z) (epe : nat) (G : geometry (sz := sz) f0 start n epe).
Implicit Types (C : Z -> bytes) (k : Z) (g : group) (st : St).
Notation total := (n * Z.of_nat epe).
Notation before := (before (cap := cap) f0 start n epe).
Notation after := (after (cap := cap) f0 start n epe).
Notation cursor := (cursor (cap := cap) f0 start n epe).
Notation holds := (holds n epe).
Notation parts l := ((fun b => long_part (decode_long b)) <$> l).

Lemma wp_next P C k st (Q : result (nat * bytes) FileSystemError -> St -> Prop) : before C k st -> k < total ->
  (forall st', after C k st' -> Q (Ok ((32 * Z.to_nat (k mod Z.of_nat epe))%nat, C k)) st') -> wp P get_next_entry st Q.
Proof.
  intros Hb Hk HQ. eapply (wp_get_next_entry Hsz f0 start n epe G); [exact Hb|intros _; exact HQ|lia].
Qed.

(** ** Looking for room *)
Section room.
Context (P : Prop) (C : Z -> bytes) (needed : nat) (new_long short : bytes).
Notation search fuel parts := (find_room fuel needed new_long None 0 (mkSeen short parts false)).

Lemma wp_find_room_longs l : forall fuel k st acc Q, holds C k l ->
  Forall (fun b => is_long b = true) l -> Forall (fun b => entry_state b = EUsed) l -> before C k st ->
  (forall st', before C (k + Z.of_nat (length l)) st' -> wp P (search fuel (acc ++ parts l)) st' Q) ->
  wp P (search (length l + fuel) acc) st Q.
Proof.
  induction l as [|b l IH]; intros fuel k st acc Q Hh Hl Hu Hb HQ.
  - cbn in *. rewrite app_nil_r in HQ. apply HQ. by replace (k + Z.of_nat 0) with k by lia.
  - apply holds_head in Hh as (HC & Hk & Hh). apply Forall_cons in Hl as [Hl1 Hl]. apply Forall_cons in Hu as [Hu1 Hu].
    cbn [Nat.add length find_room]. apply wp_ebind. eapply wp_next; [exact Hb|lia|]. intros st' Ha. apply wp_bind, wp_get.
    cbn [snd]. rewrite HC, Hu1. apply wp_bind. unfold is_already_exists. rewrite Hl1. cbn [require_free seen_parts seen_short].
    eapply wp_lift_ret; [done|]. eapply IH; [exact Hh|done|done|by apply after_before|]. intros st2 Hb2.
    rewrite <- app_assoc. apply HQ. cbn [length]. by replace (k + Z.of_nat (S (length l))) with (k + 1 + Z.of_nat (length l)) by lia.
Qed.

Definition clash g : Prop := eq_ignore_ascii_case (spelled g) new_long = true.
Definition no_clash g : Prop := ~ clash g /\ take 11 (g_normal g) <> short.

Lemma wp_find_room_group fuel k st g Q : holds C k (slots g) -> group_ok g -> before C k st ->
  (clash g -> forall st', after C (k + Z.of_nat (length (g_longs g))) st' -> Q (Err AlreadyExists) st') ->
  (no_clash g -> forall st', before C (k + Z.of_nat (length (slots g))) st' -> wp P (search fuel []) st' Q) ->
  clash g \/ no_clash g -> wp P (search (length (slots g) + fuel) []) st Q.
Proof.
  intros Hh Hg Hb Hyes Hno Hcl. pose proof Hg as [_ Hu Hl Hnl _ _]. unfold slots in Hh, Hu.
  apply holds_app in Hh as [Hh1 Hh2]. apply Forall_app in Hu as [Hu1 Hu2]. apply holds_head in Hh2 as (HC & Hk & _).
  assert (length (slots g) + fuel = length (g_longs g) + S fuel)%nat as -> by (unfold slots; rewrite length_app; cbn; lia).
  eapply wp_find_room_longs; [exact Hh1|done|done|exact Hb|]. intros st1 Hb1. cbn [find_room app].
  apply wp_ebind. eapply wp_next; [exact Hb1|lia|]. intros st2 Ha2. apply wp_bind, wp_get. cbn [snd].
  rewrite HC, (Forall_inv Hu2). apply wp_bind. unfold is_already_exists. rewrite Hnl. cbn [seen_parts seen_short require_free].
  fold (spelled g). destruct (eq_ignore_ascii_case (spelled g) new_long) eqn:E.
  - eapply wp_lift_ret; [done|]. cbn iota. apply wp_ret. by apply Hyes.
  - destruct Hcl as [Hcl|[_ Hs]]; [by rewrite Hcl in E|]. rewrite bool_decide_eq_false_2 by done.
    eapply wp_lift_ret; [done|]. cbn iota. apply Hno; [split; [unfold clash; congruence|done]|].
    unfold slots. rewrite length_app. cbn [length]. apply after_before in Ha2.
    + by replace (k + Z.of_nat (length (g_longs g) + 1)) with (k + Z.of_nat (length (g_longs g)) + 1) by lia.
    + done.
Qed.

Lemma wp_find_room_groups gs : forall fuel k st Q, holds C k (all_slots (Stored <$> gs)) -> Forall group_ok gs -> before C k st ->
  Forall no_clash gs ->
  (forall st', before C (k + Z.of_nat (length (all_slots (Stored <$> gs)))) st' -> wp P (search fuel []) st' Q) ->
  wp P (search (length (all_slots (Stored <$> gs)) + fuel) []) st Q.
Proof.
  induction gs as [|g gs IH]; intros fuel k st Q Hh Hg Hb Hn HQ; unfold all_slots in *; cbn [fmap list_fmap concat item_slots] in *.
  - cbn in *. apply HQ. by replace (k + Z.of_nat 0) with k by lia.
  - apply holds_app in Hh as [Hh1 Hh2]. apply Forall_cons in Hg as [Hg1 Hg]. apply Forall_cons in Hn as [Hn1 Hn].
    rewrite length_app, <- Nat.add_assoc. eapply wp_find_room_group; [exact Hh1|done|exact Hb|by intros ?; destruct Hn1| |by right].
    intros _ st1 Hb1. eapply IH; [exact Hh2|done|exact Hb1|done|]. intros st2 Hb2. apply HQ.
    by rewrite length_app, Nat2Z.inj_add, Z.add_assoc.
Qed.

Lemma wp_find_room_last fuel k st Q : before C k st -> 0 <= k < total -> entry_state (C k) = EFreeAndLast ->
  (forall st' p, after C k st' -> saved_at start epe k p -> Q (Ok (true, Some p, mkSeen short [] true)) st') ->
  wp P (search (S fuel) []) st Q.
Proof.
  intros Hb Hk He HQ. cbn [find_room]. apply wp_ebind. eapply wp_next; [exact Hb|lia|]. intros st1 Ha. apply wp_bind, wp_get.
  cbn [snd]. rewrite He. apply wp_ret. apply HQ; [done|]. by eapply (save_current_at f0 start n epe G).
Qed.
End room.

(** ** Writing the group *)
Fixpoint stored C k (l : list bytes) : Z -> bytes :=
  match l with [] => C | b :: l => stored (updated C k b) (k + 1) l end.

Lemma stored_eq l : forall C k i, stored C k l i = if decide (k <= i < k + Z.of_nat (length l)) then default [] (l !! Z.to_nat (i - k)) else C i.
Proof.
  induction l as [|b l IH]; intros C k i; cbn [stored length]; [by rewrite decide_False by lia|].
  rewrite IH. unfold updated. destruct (decide (i = k)) as [->|Hne].
  - rewrite decide_False, decide_True by lia. by rewrite Z.sub_diag.
  - destruct (decide (k + 1 <= i < k + 1 + Z.of_nat (length l))) as [Hi|Hi].
    + rewrite decide_True by lia. replace (Z.to_nat (i - k)) with (S (Z.to_nat (i - (k + 1)))) by lia. done.
    + rewrite decide_False by lia. done.
Qed.
Lemma stored_snoc l : forall C k b, stored C k (l ++ [b]) = updated (stored C k l) (k + Z.of_nat (length l)) b.
Proof.
  induction l as [|x l IH]; intros C k b; cbn [stored app length]; [by replace (k + Z.of_nat 0) with k by lia|].
  rewrite IH. f_equal. lia.
Qed.

Lemma wp_write_longs P xs : forall C k st Q, Forall long_ok xs -> Forall (fun x => long_attributes x = LONG_NAME) xs ->
  0 <= k -> k + Z.of_nat (length xs) < total -> after C k st ->
  (forall st', after (stored C k (encode_long <$> xs)) (k + Z.of_nat (length xs)) st' ->
     Q (Ok ((32 * Z.to_nat ((k + Z.of_nat (length xs)) mod Z.of_nat epe))%nat, C (k + Z.of_nat (length xs)))) st') ->
  wp P (write_longs xs ((32 * Z.to_nat (k mod Z.of_nat epe))%nat, C k)) st Q.
Proof.
  induction xs as [|x xs IH]; intros C k st Q Hok Hat Hk Hlt Ha HQ; cbn [write_longs fmap list_fmap stored length fst] in *.
  - apply wp_ret. replace (k + Z.of_nat 0) with k in HQ by lia. by apply HQ.
  - apply Forall_cons in Hok as [Ho Hok]. apply Forall_cons in Hat as [Hx Hat]. apply wp_bind. unfold write_long.
    apply wp_bind, wp_assert; [by rewrite Hx|]. eapply (wp_write_slot f0 start n epe G); [exact Ha|by apply long_codec|].
    intros st1 Ha1. apply wp_ebind. apply (after_before f0 start n epe G) in Ha1. eapply wp_next; [exact Ha1|lia|]. intros st2 Ha2.
    replace (k + Z.of_nat (S (length xs))) with (k + 1 + Z.of_nat (length xs)) in * by lia.
    eapply IH; [done|done|lia|lia|exact Ha2|]. intros st3 Ha3. unfold updated at 1. rewrite decide_False by lia. by apply HQ.
Qed.

(** ** The whole of [add_entry] *)
Notation here gs := (Z.of_nat (length (all_slots (Stored <$> gs)))).

(** the groups [gs], then free slots: the first marks the end, and none looks
    like a part of a long name *)
Record free_tail C (gs : list group) : Prop := {
  ft_described : described n epe C 0 (Stored <$> gs);
  ft_last : here gs < total -> entry_state (C (here gs)) = EFreeAndLast;
  ft_plain : forall k, here gs <= k < total -> is_long (C k) = false
}.

Record addable C gs (entry : DirectoryEntryNormal) (l : list DirectoryEntryLong) : Prop := {
  ad_longs : Forall long_ok l /\ Forall (fun x => long_attributes x = LONG_NAME) l;
  ad_group : group_ok (created l entry);
  ad_normal : length (encode_normal entry) = 32%nat /\ (Z.land (attributes entry) LONG_NAME =? LONG_NAME) = false;
  ad_room : here gs + Z.of_nat (length l) + 1 < total
}.

Lemma holds_groups C gs : described n epe C 0 (Stored <$> gs) -> holds C 0 (all_slots (Stored <$> gs)) /\ Forall group_ok gs.
Proof. intros [Hh Ho _]. split; [done|]. exact (proj1 (Forall_fmap _ _ _) Ho). Qed.

Lemma holds_stored C k l : 0 <= k -> k + Z.of_nat (length l) <= total -> holds (stored C k l) k l.
Proof.
  intros Hk Hl. split; [lia|]. intros i b Hi. apply lookup_lt_Some in Hi as Hlt. rewrite stored_eq, decide_True by lia.
  replace (Z.to_nat (k + Z.of_nat i - k)) with i by lia. by rewrite Hi.
Qed.
Lemma holds_stored_below C k l k' l' : holds C k' l' -> k' + Z.of_nat (length l') <= k -> holds (stored C k l) k' l'.
Proof.
  intros [Hr Hs] Hk. split; [done|]. intros i b Hi. apply lookup_lt_Some in Hi as Hlt. rewrite stored_eq, decide_False by lia. by apply Hs.
Qed.

(** the directory after the new group and its end mark were written *)
Definition appended C gs (g : group) : Z -> bytes :=
  let q := here gs + Z.of_nat (length (slots g)) in
  let C1 := stored C (here gs) (slots g) in updated C1 q (0 :: drop 1 (C1 q)).

Lemma appended_free_tail C gs g : free_tail C gs -> group_ok g -> sized C -> here gs + Z.of_nat (length (slots g)) < total ->
  free_tail (appended C gs g) (gs ++ [g]) /\ sized (appended C gs g).
Proof.
  intros [Hd Hla Hp] Hg HC Hr. destruct (holds_groups C gs Hd) as [Hh Hgs].
  assert (all_slots (Stored <$> gs ++ [g]) = all_slots (Stored <$> gs) ++ slots g) as Eall
    by (unfold all_slots; rewrite !fmap_app, concat_app; cbn; by rewrite app_nil_r).
  set (q := here gs + Z.of_nat (length (slots g))) in *.
  assert (here (gs ++ [g]) = q) as Eq by (rewrite Eall, length_app; lia).
  assert (entry_state (appended C gs g q) = EFreeAndLast) as Hend.
  { unfold appended. fold q. unfold updated. by rewrite decide_True. }
  split; [split|].
  - split.
    + rewrite Eall. apply holds_app. split.
      * apply holds_update; [apply holds_stored_below; [done|lia]|cbn; right; fold q; lia].
      * apply holds_update; [apply holds_stored; lia|right; lia].
    + rewrite fmap_app. apply Forall_app. split; [exact (proj2 (Forall_fmap Stored item_ok gs) Hgs)|constructor; [exact Hg|constructor]].
    + right. rewrite Z.add_0_l, Eq. split; [lia|done].
  - intros _. by rewrite Eq.
  - intros k Hk. rewrite Eq in Hk. unfold appended. fold q. unfold updated.
    assert (forall j, q <= j < total -> stored C (here gs) (slots g) j = C j) as Hs
      by (intros j Hj; rewrite stored_eq, decide_False by lia; done).
    case_decide; [|rewrite Hs by lia; apply Hp; lia]. subst k. rewrite Hs by lia. unfold is_long.
    pose proof (Hp q ltac:(lia)) as Hpq. unfold is_long, u8_at in *. by destruct (C q).
  - apply updated_sized.
    + intros j. rewrite stored_eq. case_decide as Hj; [|apply HC].
      destruct (lookup_lt_is_Some_2 (slots g) (Z.to_nat (j - here gs))) as [b Hb]; [lia|]. rewrite Hb. cbn.
      pose proof (go_size g Hg) as Hs. by eapply Forall_lookup_1 in Hs.
    + cbn [length]. rewrite length_drop, stored_eq, decide_False, HC by lia. done.
Qed.

Lemma wp_add_entry P C gs entry l fuel st (Q : result Node FileSystemError -> St -> Prop) : free_tail C gs -> addable C gs entry l -> before C 0 st ->
  sized C -> Forall (no_clash (long_entries_name_merge (long_part <$> l)) (short_name entry)) gs ->
  (length (all_slots (Stored <$> gs)) < fuel)%nat ->
  (forall nd j e st', node_of (node_at start epe (created l entry) (here gs + Z.of_nat (length l))) = Ret nd ->
     cursor (appended C gs (created l entry)) j e st' -> Q (Ok nd) st') ->
  wp P (add_entry fuel entry l) st Q.
Proof.
  intros HF [[Hlo Hla] Hg [Hne Hna] Hr] Hb HC Hcl Hf HQ. pose proof HF as [Hd Hlast Hplain].
  destruct (holds_groups C gs Hd) as [Hh Hgs]. set (L := here gs) in *. set (g := created l entry) in *.
  assert (length (slots g) = S (length l)) as Esl
    by (unfold slots, g, created; cbn [g_longs g_normal]; rewrite length_app, length_fmap, length_reverse; cbn; lia).
  assert (length (g_longs g) = length l) as Egl by (unfold g, created; cbn [g_longs]; by rewrite length_fmap, length_reverse).
  unfold add_entry. apply wp_ebind.
  replace fuel with (length (all_slots (Stored <$> gs)) + S (fuel - S (length (all_slots (Stored <$> gs)))))%nat at 1 by lia.
  eapply wp_find_room_groups; [exact Hh|done|exact Hb|exact Hcl|]. rewrite Z.add_0_l. fold L. intros st1 Hb1.
  eapply wp_find_room_last; [exact Hb1|lia|apply Hlast; lia|]. intros st2 p [_ Hc2] Hp. cbn iota beta.
  apply wp_ebind, wp_ret. cbn [seen_short]. apply wp_bind, (wp_lift_ret _ p); [done|].
  assert (set_short_name (short_name entry) entry = entry) as -> by (by destruct entry).
  apply wp_ebind. eapply (wp_restore_at Hsz f0 start n epe G); [exact Hc2|exact Hp|lia|]. intros st3 Hb3.
  apply wp_ebind. eapply wp_next; [exact Hb3|lia|]. intros st4 Ha4.
  apply wp_ebind. eapply wp_write_longs; [by apply Forall_reverse|by apply Forall_reverse|lia|rewrite length_reverse; lia|exact Ha4|].
  rewrite length_reverse. intros st5 Ha5. cbn [fst snd]. apply wp_bind. unfold write_normal.
  apply wp_bind, wp_assert; [by rewrite Hna|]. rewrite Hplain by lia.
  eapply (wp_write_slot f0 start n epe G); [exact Ha5|done|]. intros st6 Ha6.
  assert (updated (stored C L (encode_long <$> reverse l)) (L + Z.of_nat (length l)) (encode_normal entry) = stored C L (slots g)) as EC
    by (unfold slots, g, created; cbn [g_longs g_normal]; rewrite stored_snoc, length_fmap, length_reverse; done).
  rewrite EC in Ha6. set (C1 := stored C L (slots g)) in *.
  assert (holds C1 L (slots g)) as Hhg by (apply holds_stored; lia).
  apply wp_ebind. destruct Ha6 as [_ Hc6]. eapply (wp_restore_at Hsz f0 start n epe G); [exact Hc6|exact Hp|lia|]. intros st7 Hb7.
  apply wp_bind. destruct fuel as [|fuel]; [lia|].
  eapply (wp_iter_next_group Hsz f0 start n epe G); [exact Hg|exact Hhg|exact Hb7|]. rewrite Egl. intros st8 Ha8.
  apply wp_ebind. apply wp_bind, wp_get. pose proof (save_current_at f0 start n epe G _ _ _ Ha8) as Hp8.
  apply wp_ebind. apply (after_before f0 start n epe G) in Ha8 as Hb8. eapply wp_next; [exact Hb8|lia|]. intros st9 Ha9. cbn [fst snd].
  assert (C1 (L + Z.of_nat (length l) + 1) = C (L + Z.of_nat (length l) + 1)) as Eq by (unfold C1; rewrite stored_eq, decide_False by lia; done).
  apply wp_bind, wp_assert; [rewrite Eq, Hplain by lia; done|].
  apply wp_bind. eapply (wp_write_slot f0 start n epe G); [exact Ha9|rewrite Eq; cbn [length]; by rewrite length_drop, HC|].
  intros st10 [_ Hc10]. eapply (wp_restore_at Hsz f0 start n epe G); [exact Hc10|exact Hp8|lia|]. intros st11 (j & e & _ & Hc11).
  apply wp_bind, (wp_lift_ret _ (node_at start epe g (L + Z.of_nat (length l)))); [done|].
  destruct (node_of_at start epe g (L + Z.of_nat (length l)) Hg) as [nd Hnd]. apply wp_bind, (wp_lift_ret _ nd); [done|].
  apply wp_ret. eapply HQ; [exact Hnd|]. unfold appended. fold L. rewrite Esl. fold C1.
  replace (L + Z.of_nat (S (length l))) with (L + Z.of_nat (length l) + 1) by lia. exact Hc11.
Qed.
End creating.

(** * Creating and finding files on a FAT12/16 volume

    [create_node], [treverse_dir] and [read_dir] on the root directory of a
    volume whose tables, root directory and clusters are laid out one after
    the other. *)
Import Text FatTable FatFs FatDir.

Section volume.
Context {H : Type} `{DriveLaws H sz cap} (Hsz : 0 < sz).
Notation FS := (FatFilesystem H).
Context (start n : Z) (epe : nat).
Implicit Types (f : FS) (C : Z -> bytes) (gs : list group).
Notation here gs := (Z.of_nat (length (all_slots (Stored <$> gs)))).

Record volume f : Prop := {
  vo_geometry : geometry (sz := sz) f start n epe;
  vo_root : root_volume (sz := sz) (cap := cap) f start n;
  vo_synced : synced (sz := sz) (cap := cap) f;
  vo_link : linkable (fat f) /\ 2 <= entries (fat f) <= 2 ^ 28;
  vo_order : fat_start_sector (boot f) + table_sectors (sz := sz) f <= start
}.

(** the root directory of [f] holds the groups [gs] *)
Definition root_holds f C gs : Prop := on_root f start n epe f C /\ free_tail n epe C gs.

Lemma same_shape f f' : volume f -> start_lba f' = start_lba f -> boot f' = boot f ->
  Ide.number_of_sectors (device f') = Ide.number_of_sectors (device f) -> ready (sz := sz) (cap := cap) (device f') ->
  geometry (sz := sz) f' start n epe /\ root_volume (sz := sz) (cap := cap) f' start n.
Proof.
  intros [[G1 G2 G3 G4 G5] [R1 R2 R3 R4 R5] _ _ _] El Eb En Hr.
  split; split; unfold bps in *; rewrite ?El, ?Eb, ?En; done.
Qed.

Lemma on_root_ext f f' C : start_lba f' = start_lba f ->
  (forall x, start_lba f + start <= x < start_lba f + start + n ->
     view (Ide.drive (device f')) x = view (Ide.drive (device f)) x) ->
  on_root f start n epe f C -> on_root f' start n epe f' C.
Proof.
  intros El Hx [HC Hr]. split; [done|]. intros i Hi. unfold dir_sector. rewrite El, Hx by lia. by apply Hr.
Qed.

(** ** [add_entry] through an open directory *)
Lemma wp_add_to_root P f d C gs entry l (Q : result Node FileSystemError -> FS -> Prop) :
  geometry (sz := sz) f start n epe -> root_volume (sz := sz) (cap := cap) f start n ->
  root_node d -> root_holds f C gs -> addable n epe C gs entry l ->
  Forall (no_clash (long_entries_name_merge (long_part <$> l)) (short_name entry)) gs ->
  (forall nd f', node_of (node_at start epe (created l entry) (here gs + Z.of_nat (length l))) = Ret nd ->
     same_volume (sz := sz) (cap := cap) f start n f' -> root_holds f' (appended C gs (created l entry)) (gs ++ [created l entry]) -> Q (Ok nd) f') ->
  wp P (with_dir d (add_entry (dir_fuel f) entry l)) f Q.
Proof.
  intros G V Hd [Hr Hft] Hadd Hcl HQ. eapply (wp_with_root Hsz f start n epe G V); [done|exact Hr|]. intros st Hb.
  assert (Z.to_nat (n * Z.of_nat epe) < dir_fuel f)%nat as Hfuel by (eapply (dir_fuel_enough Hsz f start n epe G V)).
  pose proof (ad_room _ _ _ _ _ _ Hadd) as Hroom.
  eapply (wp_add_entry Hsz f start n epe G); [exact Hft|exact Hadd|exact Hb|apply Hr|exact Hcl|lia|].
  intros nd j e st' Hnd Hc. eexists _, j, e. split; [exact Hc|]. intros f' Hv Ho. apply HQ; [exact Hnd|exact Hv|]. split.
  - destruct Ho as [HC Ho]. split; [done|]. intros i Hi. rewrite <- Ho by done. unfold dir_sector. by rewrite (sv_eq _ _ _ _ Hv).
  - apply appended_free_tail; [done|apply Hadd|apply Hr|]. unfold slots, created. cbn [g_longs g_normal].
    rewrite length_app, length_fmap, length_reverse. cbn. lia.
Qed.

(** ** [create_node] *)
(** the table after one entry was written *)
Definition fat_updated f f' (c : Z) (e : FatEntry) : Prop := forall k, valid (fat f) k ->
  read_fat_entry (fat f') k = if decide (k = c) then Ret e else read_fat_entry (fat f) k.

Lemma fat_updated_written f (s2 : FS) (fat1 : Fat) cl e : synced (sz := sz) (cap := cap) f -> written (fat f) cl e fat1 ->
  synced (sz := sz) (cap := cap) s2 -> buffer (fat s2) = buffer fat1 -> fat_type (fat s2) = fat_type fat1 ->
  valid (fat f) cl -> fat_updated f s2 cl e.
Proof.
  intros Hs W1 S2 B2 T2 Hc i Hi. pose proof (written_like _ _ _ _ W1) as Lk. pose proof (like_valid _ _ _ Lk Hi) as Hi'. unfold valid in Hi, Hi', Hc.
  rewrite (read_fat_entry_ret (fat f)) by (apply Hs || lia).
  rewrite (read_fat_entry_ret (fat s2)); [|apply S2|unfold entries in *; rewrite B2, T2; lia].
  assert (fat_get (fat s2) i = fat_get fat1 i) as -> by (unfold fat_get; by rewrite B2, T2).
  rewrite (wr_get _ _ _ _ W1) by lia. by case_decide.
Qed.

Lemma synced_device s dev : synced (sz := sz) (cap := cap) s -> ready (sz := sz) (cap := cap) dev ->
  Ide.number_of_sectors dev = Ide.number_of_sectors (device s) ->
  (forall x, start_lba s + fat_start_sector (boot s) <= x < start_lba s + fat_start_sector (boot s) + table_sectors (sz := sz) s ->
     view (Ide.drive dev) x = view (Ide.drive (device s)) x) -> synced (sz := sz) (cap := cap) (set_device dev s).
Proof.
  intros [W S1 R L F U Fl Cl] Hr Hn Hx. split; unfold table_sectors, on_disk, bps in *; cbn [set_device fat device start_lba boot] in *; try done; [by rewrite Hn|].
  intros i Hi Hd. rewrite Hx by lia. by apply Cl.
Qed.

(** the sectors that are not in the tables, and those not in the root directory *)
Definition off_tables f (x : Z) : Prop :=
  x < start_lba f + fat_start_sector (boot f) \/ start_lba f + fat_start_sector (boot f) + table_sectors (sz := sz) f <= x.
Definition off_root f (x : Z) : Prop := x < start_lba f + start \/ start_lba f + start + n <= x.
(** taking a free cluster: marked as the end of a chain, on the disk, and its
    first sector zeroed; then [k] goes on *)
Lemma wp_take_cluster P f cl first {A} (k : FS -> ST FS (result A FileSystemError)) (Q : result A FileSystemError -> FS -> Prop) :
  volume f -> valid (fat f) cl -> first_sector_of_cluster (boot f) cl = Ret first -> start + n <= first ->
  start_lba f + first + 1 < Ide.number_of_sectors (device f) -> start_lba f + first < 2 ^ 32 ->
  (forall s f', geometry (sz := sz) f' start n epe -> root_volume (sz := sz) (cap := cap) f' start n ->
     boot s = boot f -> start_lba f' = start_lba f -> boot f' = boot f -> fat_updated f f' cl EndOfChain ->
     synced (sz := sz) (cap := cap) f' -> like (fat f) (fat f') -> table_sectors (sz := sz) f' = table_sectors (sz := sz) f ->
     (forall x, off_tables f x -> x <> start_lba f + first ->
        view (Ide.drive (device f')) x = view (Ide.drive (device f)) x) -> wp P (k s) f' Q) ->
  wp P (_ ← fat_write cl EndOfChain; _ ←? flush_fat; s ← get; first ← lift (first_sector_of_cluster (boot s) cl);
        _ ←? write_sectors first (replicate (Z.to_nat (bps s)) 0); k s) f Q.
Proof.
  intros Hv Hc Hfs Hfirst Hfit Hu HQ. pose proof Hv as [G V Hs [HL _] Hord]. unfold fat_write.
  apply wp_bind, wp_bind, wp_get. apply wp_bind.
  destruct (storable_u32 (fat f) EndOfChain HL I) as [v Hval].
  destruct (write_fat_entry_spec (fat f) cl EndOfChain v) as (f1 & E1 & W1); [apply Hs|unfold valid in Hc; lia|done|].
  eapply wp_lift_ret; [exact E1|]. apply wp_modify. pose proof (written_synced Hsz _ _ _ _ Hs W1) as S1.
  apply wp_ebind. eapply (wp_flush_fat Hsz); [exact S1|]. intros s2 S2 B2 T2 _ _ X2 L2 K2 _ N2.
  cbn [set_fat fat device start_lba boot] in *. apply wp_bind, wp_get. rewrite K2. apply wp_bind, (wp_lift_ret _ first); [done|].
  assert (table_sectors (sz := sz) (set_fat f1 f) = table_sectors (sz := sz) f) as Et
    by (unfold table_sectors; cbn [set_fat fat]; by rewrite (wr_len _ _ _ _ W1)).
  rewrite Et in X2. pose proof (ge_range _ _ _ _ G) as (Hl0 & Hst0 & Hn0).
  assert (bps s2 = sz) as Eb by (unfold bps; rewrite K2; apply (ge_bps _ _ _ _ G)). apply wp_ebind.
  eapply (wp_write_sectors Hsz _ _ _ _ 1); rewrite ?L2, ?N2, ?Eb; try done; try lia; [apply S2|unfold len; rewrite length_replicate; lia|].
  intros dev (R1 & R2 & R3). rewrite ?L2, ?N2 in *.
  assert (forall x, off_tables f x -> x <> start_lba f + first -> view (Ide.drive dev) x = view (Ide.drive (device f)) x) as Hx.
  { intros x Hx1 Hx2. rewrite R3, decide_False by lia. apply X2. exact Hx1. }
  destruct (same_shape f (set_device dev s2) Hv) as [G' V']; cbn [set_device start_lba boot device]; [done|done|congruence|done|].
  pose proof (written_like _ _ _ _ W1) as Lk.
  assert (table_sectors (sz := sz) s2 = table_sectors (sz := sz) f) as Et2 by (unfold table_sectors in *; rewrite B2; done).
  apply HQ; cbn [set_device start_lba boot device fat]; try done.
  2: { apply synced_device; [done|done|congruence|]. intros x Hxr. rewrite R3, decide_False; [done|]. rewrite L2, K2, Et2 in Hxr. lia. }
  2: { destruct Lk as [A1 A2 A3]. split; [apply S2| |by rewrite T2]. unfold entries in *. by rewrite B2, T2. }
  eapply (fat_updated_written f s2 f1); done.
Qed.

(** what a new file needs *)
Record creatable f C gs (name : bytes) (a : FileAttributes) (cl first : Z) : Prop := {
  cr_name : Forall name_char name /\ starts_plain name /\ (length name <= 253)%nat;
  cr_file : attr_directory a = false /\ Z.land (file_attribute_to_fat a) LONG_NAME <> LONG_NAME;
  cr_free : find_free_cluster (fat f) = Ret (Some cl);
  cr_sector : first_sector_of_cluster (boot f) cl = Ret first /\ start + n <= first /\
    start_lba f + first + 1 < Ide.number_of_sectors (device f) /\ start_lba f + first < 2 ^ 32;
  cr_room : here gs + Z.of_nat (parts_of name) + 1 < n * Z.of_nat epe;
  cr_new : forall e l, create_dir_entries name a = Ret (e, l) ->
    Forall (no_clash (long_entries_name_merge (long_part <$> l)) (short_name e)) gs
}.

Lemma wp_create_node P f d C gs name a cl first (Q : result Node FileSystemError -> FS -> Prop) :
  volume f -> root_node d -> root_holds f C gs -> creatable f C gs name a cl first ->
  (forall nd f' g C' p, node_of (node_at start epe g p) = Ret nd -> group_ok g -> group_name g = Some name ->
     node_base nd = mkBaseNode name (file_attribute_from_fat (file_attribute_to_fat a)) cl (start + p / Z.of_nat epe) (p mod Z.of_nat epe) ->
     p = here gs + Z.of_nat (length (g_longs g)) ->
     root_holds f' C' (gs ++ [g]) -> fat_updated f f' cl EndOfChain ->
     geometry (sz := sz) f' start n epe -> root_volume (sz := sz) (cap := cap) f' start n -> synced (sz := sz) (cap := cap) f' ->
     (forall x, off_tables f x -> off_root f x -> x <> start_lba f + first ->
        view (Ide.drive (device f')) x = view (Ide.drive (device f)) x) -> Q (Ok nd) f') ->
  wp P (create_node d name a) f Q.
Proof.
  intros Hv Hd Hr [(Hn & Hpl & Hlen) [Hnd Hat] Hfree (Hfirst & Hafter & Hfit & Hu) Hroom Hnew] HQ.
  pose proof Hv as [G V Hs [HL He] Hord].
  destruct (create_dir_entries_spec name a Hn Hpl Hlen Hat) as (e & l & Ecd & Hl0 & _ & Ee & Hs11 & Hll & Hlo & Hla & Hgroup).
  assert (valid (fat f) cl) as Hc.
  { destruct (find_free_cluster_spec (fat f)) as (r & Er & Hrr); [apply Hs|lia|]. rewrite Hfree in Er. injection Er as <-. unfold valid. lia. }
  assert (in_word 32 cl) as Hcl by (unfold valid, in_word in *; lia).
  set (entry := with_cluster cl e).
  assert (normal_ok entry) as Hok by (unfold entry; rewrite Ee; by apply with_cluster_ok).
  assert (short_name entry = short_name e) as Esn by done.
  destruct (Hgroup entry Hok Esn eq_refl) as [Hg Hgn]. set (g := created l entry) in *.
  unfold create_node, add_directory_entry. apply wp_bind, (wp_lift_ret _ (e, l)); [done|].
  apply wp_ebind. unfold fat_find_free. apply wp_bind, wp_get. apply wp_bind, (wp_lift_ret _ (Some cl)); [done|]. apply wp_ret.
  eapply (wp_take_cluster P f cl first); try done. intros s f2 G2 V2 Eb2 El2 Ebf2 Hfat Hs2 _ Ht2 Hx.
  assert (dir_fuel s = dir_fuel f2) as -> by (unfold dir_fuel, bps; by rewrite Eb2, Ebf2). apply wp_bind. fold entry.
  assert (root_holds f2 C gs) as Hr2.
  { destruct Hr as [Ho Hft]. split; [|done]. eapply on_root_ext; [exact El2| |exact Ho]. intros x Hxr. apply Hx; unfold off_tables; lia. }
  eapply (wp_add_to_root P f2 d C gs entry l); try done.
  - split; [done|done| |].
    + split; [by apply normal_codec|]. apply Z.eqb_neq. unfold entry. rewrite Ee. exact Hat.
    + rewrite Hll. exact Hroom.
  - rewrite Esn. by apply Hnew.
  - intros nd f' Hnode Hsv Hrf'. pose proof (node_base_at start epe g (here gs + Z.of_nat (length l)) nd Hnode) as Hbase.
    rewrite Hgn in Hbase. destruct (normal_codec entry Hok) as [_ Edec].
    assert (node_base nd = mkBaseNode name (file_attribute_from_fat (file_attribute_to_fat a)) cl
      (start + (here gs + Z.of_nat (length l)) / Z.of_nat epe) ((here gs + Z.of_nat (length l)) mod Z.of_nat epe)) as Hb.
    { rewrite Hbase; [|done]. unfold g, created. cbn [g_normal]. rewrite Edec. unfold entry. rewrite first_cluster_with by done.
      rewrite Ee. done. }
    unfold node_name. rewrite Hb. apply wp_bind, wp_assert; [by apply bool_decide_eq_true|]. rewrite Hnd. apply wp_ebind, wp_ret, wp_ret.
    assert (length (g_longs g) = length l) as Egl by (unfold g, created; cbn [g_longs]; by rewrite length_fmap, length_reverse).
    assert (start_lba f' = start_lba f2 /\ boot f' = boot f2 /\ fat f' = fat f2) as (Q1 & Q2 & Q3) by (by rewrite (sv_eq _ _ _ _ Hsv)).
    eapply (HQ nd f' g (appended C gs g) (here gs + Z.of_nat (length l))); try done; [by rewrite Egl| | | | |].
    + intros c Hcv. rewrite Q3. by apply Hfat.
    + destruct G2 as [A1 A2 A3 A4 A5]. split; unfold bps in *; rewrite ?Q1, ?Q2, ?(sv_size _ _ _ _ Hsv); done.
    + destruct V2 as [A1 A2 A3 A4 A5]. split; rewrite ?Q2; try done. apply Hsv.
    + rewrite (sv_eq _ _ _ _ Hsv). apply synced_device; [done|apply Hsv|apply Hsv|]. intros x Hxr. apply Hsv. left. rewrite Ebf2, Ht2 in Hxr. lia.
    + intros x Hx1 Hx2 Hx3. rewrite (sv_other _ _ _ _ Hsv) by (unfold off_root in Hx2; lia). by apply Hx.
Qed.

(** ** A name that is there already *)
Lemma wp_add_refused P f d C gs1 g gs2 entry l (Q : result Node FileSystemError -> FS -> Prop) :
  geometry (sz := sz) f start n epe -> root_volume (sz := sz) (cap := cap) f start n ->
  root_node d -> root_holds f C (gs1 ++ g :: gs2) ->
  Forall (no_clash (long_entries_name_merge (long_part <$> l)) (short_name entry)) gs1 ->
  clash (long_entries_name_merge (long_part <$> l)) g ->
  (forall f', same_volume (sz := sz) (cap := cap) f start n f' -> on_root f start n epe f' C -> Q (Err AlreadyExists) f') ->
  wp P (with_dir d (add_entry (dir_fuel f) entry l)) f Q.
Proof.
  intros G V Hd [Hr Hft] Hn Hc HQ. eapply (wp_with_root Hsz f start n epe G V); [done|exact Hr|]. intros st Hb.
  pose proof (dir_fuel_enough Hsz f start n epe G V) as Hfuel.
  destruct (holds_groups n epe C _ (ft_described _ _ _ _ Hft)) as [Hh Hok]. apply Forall_app in Hok as [Hok1 Hok2].
  apply Forall_cons in Hok2 as [Hok2 _].
  assert (all_slots (Stored <$> gs1 ++ g :: gs2) = all_slots (Stored <$> gs1) ++ slots g ++ all_slots (Stored <$> gs2)) as Eall
    by (unfold all_slots; rewrite fmap_app, fmap_app, concat_app; done).
  rewrite Eall in Hh. apply holds_app in Hh as [Hh1 Hh2]. apply holds_app in Hh2 as [Hh2 Hh3].
  pose proof (ho_range _ _ _ _ _ Hh3) as Hrange.
  unfold add_entry. apply wp_ebind. cbn [length].
  set (A := length (all_slots (Stored <$> gs1))) in *.
  replace (dir_fuel f) with (A + (length (slots g) + (dir_fuel f - A - length (slots g))))%nat at 1 by lia.
  eapply (wp_find_room_groups Hsz f start n epe G); [exact Hh1|done|exact Hb|done|]. fold A. intros st1 Hb1.
  eapply (wp_find_room_group Hsz f start n epe G); [exact Hh2|done|exact Hb1| |by intros [? _]|by left].
  intros _ st2 [_ Hc2]. exists C. eexists _, _. split; [exact Hc2|]. exact HQ.
Qed.

(** giving the cluster back *)
Lemma wp_release_cluster P f cl {A} (k : ST FS (result A FileSystemError)) (Q : result A FileSystemError -> FS -> Prop) : synced (sz := sz) (cap := cap) f -> linkable (fat f) -> valid (fat f) cl ->
  (forall f', fat_updated f f' cl Free -> start_lba f' = start_lba f ->
     (forall x, start_lba f + fat_start_sector (boot f) + table_sectors (sz := sz) f <= x ->
       view (Ide.drive (device f')) x = view (Ide.drive (device f)) x) -> wp P k f' Q) ->
  wp P (_ ← fat_write cl Free; _ ←? flush_fat; k) f Q.
Proof.
  intros Hs HL Hc HQ. unfold fat_write. apply wp_bind, wp_bind, wp_get. apply wp_bind.
  destruct (storable_u32 (fat f) Free HL I) as [v Hval].
  destruct (write_fat_entry_spec (fat f) cl Free v) as (f1 & E1 & W1); [apply Hs|unfold valid in Hc; lia|done|].
  eapply wp_lift_ret; [exact E1|]. apply wp_modify. pose proof (written_synced Hsz _ _ _ _ Hs W1) as S1.
  apply wp_ebind. eapply (wp_flush_fat Hsz); [exact S1|]. intros s2 S2 B2 T2 _ _ X2 L2 K2 _ N2. cbn [set_fat fat device start_lba boot] in *.
  assert (table_sectors (sz := sz) (set_fat f1 f) = table_sectors (sz := sz) f) as Et
    by (unfold table_sectors; cbn [set_fat fat]; by rewrite (wr_len _ _ _ _ W1)).
  rewrite Et in X2. apply HQ; [|done|intros x Hx; apply X2; lia]. by eapply fat_updated_written.
Qed.

(** ** Look-up *)
Lemma listing_app l1 l2 : forall k, listing start epe k (l1 ++ l2) =
  listing start epe k l1 ++ listing start epe (k + Z.of_nat (length (all_slots l1))) l2.
Proof.
  unfold all_slots. induction l1 as [|[raw|g] l1 IH]; intros k; cbn [listing app fmap list_fmap concat item_slots length].
  - by replace (k + Z.of_nat 0) with k by lia.
  - rewrite IH. do 2 f_equal. cbn [app length]. lia.
  - rewrite IH. cbn [app]. do 2 f_equal. f_equal. unfold slots. rewrite !length_app. cbn [length]. lia.
Qed.

Lemma first_match_last l v m : (forall x, x ∈ l -> matches x m <> Ret true) -> matches v m = Ret true ->
  first_match (l ++ [v]) m = Some v.
Proof.
  intros Hl Hv. unfold first_match. rewrite list_find_app_r.
  - cbn. by rewrite decide_True.
  - apply list_find_None, Forall_forall. exact Hl.
Qed.

Lemma matches_own g p name m : group_name g = Some name -> eq_ignore_ascii_case name m = true ->
  matches (node_at start epe g p) m = Ret true.
Proof. intros Hg Hm. unfold matches, node_at. cbn [long_name]. by rewrite Hg, Hm. Qed.

(** ** Theorems *)


(** Looking a name up in the root directory finds the first file whose long or
    short name is that name in any letter case, and reports [FileNotFound]
    exactly when there is none; nothing on the disk changes. *)
Theorem treverse_dir_first_match f d C l m : volume f -> root_node d -> on_root f start n epe f C -> described n epe C 0 l ->
  exists r f', treverse_dir d m f = Ret (r, f') /\
    match first_match (listing start epe 0 l) m with
    | Some v => exists nd, node_of v = Ret nd /\ r = Ok nd
    | None => r = Err FileNotFound
    end /\ same_volume (sz := sz) (cap := cap) f start n f' /\ on_root f start n epe f' C.
Proof. intros [G V _ _ _] Hd Hr Hl. by apply (treverse_dir_spec Hsz f start n epe G V). Qed.


(** Creating a file whose name is in the directory already is refused with
    [AlreadyExists]; the cluster that was taken for it is given back, and the
    table and the directory are as they were. *)
Theorem create_node_refuses_duplicate f d C gs1 g gs2 name a cl first : volume f -> root_node d -> root_holds f C (gs1 ++ g :: gs2) ->
  Forall name_char name -> starts_plain name -> (length name <= 253)%nat ->
  Z.land (file_attribute_to_fat a) LONG_NAME <> LONG_NAME ->
  find_free_cluster (fat f) = Ret (Some cl) ->
  first_sector_of_cluster (boot f) cl = Ret first -> start + n <= first ->
  start_lba f + first + 1 < Ide.number_of_sectors (device f) -> start_lba f + first < 2 ^ 32 ->
  (forall e l, create_dir_entries name a = Ret (e, l) ->
     Forall (no_clash (long_entries_name_merge (long_part <$> l)) (short_name e)) gs1 /\
     clash (long_entries_name_merge (long_part <$> l)) g) ->
  exists f', create_node d name a f = Ret (Err AlreadyExists, f') /\ on_root f' start n epe f' C /\
    forall k, valid (fat f) k -> read_fat_entry (fat f') k = read_fat_entry (fat f) k.
Proof.
  intros Hv Hd Hr Hn Hpl Hlen Hat Hfree Hfirst Hafter Hfit Hu Hcl. pose proof Hv as [G V Hs [HL He] Hord].
  destruct (create_dir_entries_spec name a Hn Hpl Hlen Hat) as (e & l & Ecd & _). destruct (Hcl e l Ecd) as [Hn1 Hc1].
  destruct (find_free_cluster_spec (fat f)) as (r & Er & Hrr); [apply Hs|lia|]. rewrite Hfree in Er. injection Er as <-.
  destruct Hrr as (Hc2 & Hgf & _).
  destruct (wp_total (create_node d name a) f (fun r f' => r = Err AlreadyExists /\ on_root f' start n epe f' C /\
    forall k, valid (fat f) k -> read_fat_entry (fat f') k = read_fat_entry (fat f) k)) as (r & f' & E & -> & HR); [|by exists f'].
  unfold create_node, add_directory_entry. apply wp_bind, (wp_lift_ret _ (e, l)); [done|].
  apply wp_ebind. unfold fat_find_free. apply wp_bind, wp_get. apply wp_bind, (wp_lift_ret _ (Some cl)); [done|]. apply wp_ret.
  eapply (wp_take_cluster _ f cl first); try done. intros s f2 G2 V2 Eb2 El2 Ebf2 Hfat Hs2 Hlike Ht2 Hx.
  assert (dir_fuel s = dir_fuel f2) as -> by (unfold dir_fuel, bps; by rewrite Eb2, Ebf2). apply wp_bind.
  pose proof (ge_range _ _ _ _ G) as (Hl0 & Hst0 & Hn0).
  assert (root_holds f2 C (gs1 ++ g :: gs2)) as Hr2.
  { destruct Hr as [Ho Hft]. split; [|done]. eapply on_root_ext; [exact El2| |exact Ho]. intros x Hxr. apply Hx; unfold off_tables; lia. }
  eapply (wp_add_refused _ f2 d C gs1 g gs2 (with_cluster cl e) l); try done.
  intros f3 Hsv Ho3. assert (start_lba f3 = start_lba f2 /\ boot f3 = boot f2 /\ fat f3 = fat f2) as (Q1 & Q2 & Q3) by (by rewrite (sv_eq _ _ _ _ Hsv)).
  assert (table_sectors (sz := sz) f3 = table_sectors (sz := sz) f) as Ht3 by (rewrite <- Ht2; unfold table_sectors; by rewrite Q3).
  assert (synced (sz := sz) (cap := cap) f3) as Hs3.
  { rewrite (sv_eq _ _ _ _ Hsv). apply synced_device; [done|apply Hsv|apply Hsv|]. intros x Hxr. apply Hsv. left. rewrite Ebf2, Ht2 in Hxr. lia. }
  eapply wp_release_cluster; rewrite ?Q3; [exact Hs3|by eapply like_linkable|by eapply like_valid|].
  intros f4 Hfat4 El4 Hx4. apply wp_ret. split; [done|]. split.
  - destruct Ho3 as [HC Ho3]. split; [done|]. intros i Hi. rewrite <- Ho3 by done. unfold dir_sector. rewrite El4, Q1, Hx4; [done|].
    rewrite Q1, Q2, El2, Ebf2, Ht3. lia.
  - intros k Hk. rewrite Hfat4, Q3 by (rewrite Q3; by eapply like_valid). case_decide as Ek.
    + subst k. rewrite read_fat_entry_ret by (apply Hs || unfold valid in Hk; lia). by rewrite Hgf.
    + rewrite Hfat by done. by rewrite decide_False.
Qed.
End volume.

(** * FAT directories on a concrete volume

    A FAT12 volume in memory with one sector of root directory: the theorems
    on directories at work, and the inputs on which creation goes wrong. *)
Import Text FatTable FatFs FatDir.

Module DirDemo.
From Stdlib Require String.
Import Stdlib.Strings.String.StringSyntax.
Import FatDemo.
Notation str s := (of_string s).

(** the demo volume with the given slots in its root directory *)
Definition drive_with (dirs : list bytes) : MemDrive.t :=
  MemDrive.mk (fun s => if s =? 64 then table else if s =? 65 then concat dirs else []).
Definition volume_with (dirs : list bytes) : FatFilesystem MemDrive.t :=
  mkFs 63 demo_boot demo_fat (Ide.mkIde Ide.Ata 1000 512 (drive_with dirs)) ∅.
Definition zeros : bytes := replicate 32 0.
Definition slots_with (dirs : list bytes) (k : Z) : bytes :=
  if k <? 0 then zeros else default zeros (dirs !! Z.to_nat k).
Definition root : DirectoryNode := mkDirectoryNode (mkBaseNode [Path.SEPARATOR] ATTR_DIRECTORY 0 0 0).

Lemma volume_ok dirs : volume (sz := 512) (cap := 1000) 2 1 16 (volume_with dirs).
Proof.
  split.
  - split; vm_compute; split_and?; done || lia.
  - split; vm_compute; done.
  - destruct demo_synced as [S1 S2 S3 S4 S5 S6 S7 S8]. split; try done.
    intros i Hi _. change (table_sectors (sz := 512) (volume_with dirs)) with 1 in Hi. assert (i = 0) as -> by lia. vm_compute. done.
  - split; vm_compute; done.
  - vm_compute. done.
Qed.

Definition attr : FileAttributes := ATTR_ARCHIVE.
Definition entries_of (name : bytes) (cl : Z) : group :=
  match create_dir_entries name attr with Ret (e, l) => created l (with_cluster cl e) | _ => mkGroup [] [] end.
Definition HELLO : bytes := str "hello world.txt".
Definition one : group := entries_of HELLO 5.

Ltac name_tac := repeat constructor; unfold name_char; lia.
Ltac plain_tac := eexists _, _; split; [reflexivity|split; vm_compute; done].

Lemma one_ok : group_ok one /\ group_name one = Some HELLO.
Proof.
  destruct (create_dir_entries_spec HELLO attr) as (e & l & E & _ & _ & Ee & L & _ & _ & _ & Hg); [name_tac|plain_tac|vm_compute; lia|vm_compute; done|].
  unfold one, entries_of. rewrite E. apply Hg; [|done|done]. rewrite Ee. apply with_cluster_ok; [vm_compute; done|done].
Qed.

Lemma root_with dirs : Forall (fun b => length b = 32%nat) dirs -> (length dirs < 16)%nat ->
  on_root (sz := 512) (cap := 1000) (volume_with dirs) 2 1 16 (volume_with dirs) (slots_with dirs) /\ sized (slots_with dirs).
Proof.
  intros Hd Hl. assert (sized (slots_with dirs)) as HC.
  { intros k. unfold slots_with. destruct (k <? 0); [done|]. destruct (dirs !! Z.to_nat k) eqn:E; [|done]. by eapply Forall_lookup_1 in Hd. }
  split; [|done]. split; [done|]. intros i Hi. assert (i = 0) as -> by lia. unfold dir_sector, volume_with, drive_with.
  cbn [device Ide.drive start_lba view MemDrive.laws]. unfold MemDrive.sector. cbn [MemDrive.content].
  change (63 + 2 + 0 =? 64) with false. change (63 + 2 + 0 =? 65) with true. cbn iota.
  assert (forall m k, 0 <= k -> (length (drop (Z.to_nat k) dirs) <= m)%nat ->
    span (slots_with dirs) k m = resize (32 * m) 0 (concat (drop (Z.to_nat k) dirs))) as Hspan.
  { intros m. induction m as [|m IH]; intros k Hk Hm.
    - cbn. by destruct (concat _).
    - cbn [span]. rewrite IH by (rewrite length_drop in *; lia). unfold slots_with at 1. rewrite (proj2 (Z.ltb_ge k 0)) by lia.
      destruct (drop (Z.to_nat k) dirs) as [|b r] eqn:Ed.
      + assert (length dirs <= Z.to_nat k)%nat as Hge by (apply (f_equal length) in Ed; rewrite length_drop in Ed; cbn in Ed; lia).
        rewrite lookup_ge_None_2, drop_ge by lia. cbn [default concat]. rewrite !resize_nil. unfold zeros.
        rewrite <- replicate_add. f_equal. lia.
      + assert (dirs !! Z.to_nat k = Some b) as Hb by (rewrite <- (Nat.add_0_r (Z.to_nat k)), <- lookup_drop, Ed; done).
        assert (length b = 32%nat) as Lb by (by eapply Forall_lookup_1 in Hd).
        replace (Z.to_nat (k + 1)) with (Z.to_nat k + 1)%nat by lia. rewrite <- drop_drop, Ed, Hb. cbn [drop default concat].
        replace (32 * S m)%nat with (length b + 32 * m)%nat by lia. rewrite resize_add. rewrite resize_app_le, resize_all by lia. rewrite drop_app_length. done. }
  unfold sector_of. change (0 * Z.of_nat 16) with 0. rewrite Hspan; [done|done|]. change (Z.to_nat 0) with 0%nat. rewrite drop_0. lia.
Qed.

Lemma holds_with dirs : (length dirs < 16)%nat -> holds 1 16 (slots_with dirs) 0 dirs.
Proof.
  intros Hl. split; [cbn; lia|]. intros i b Hi. unfold slots_with. rewrite (proj2 (Z.ltb_ge _ 0)) by lia.
  replace (Z.to_nat (0 + Z.of_nat i)) with i by lia. by rewrite Hi.
Qed.
Lemma past_with dirs k : Z.of_nat (length dirs) <= k -> slots_with dirs k = zeros.
Proof. intros Hk. unfold slots_with. by rewrite (proj2 (Z.ltb_ge _ 0)), lookup_ge_None_2 by lia. Qed.

Lemma free_tail_with gs : let dirs := all_slots (Stored <$> gs) in (length dirs < 16)%nat -> Forall group_ok gs ->
  free_tail 1 16 (slots_with dirs) gs.
Proof.
  intros dirs Hl Hg. split.
  - split; [by apply holds_with|exact (proj2 (Forall_fmap Stored item_ok gs) Hg)|]. right. split; [subst dirs; lia|].
    rewrite past_with by (subst dirs; lia). done.
  - intros _. rewrite past_with by (subst dirs; lia). done.
  - intros k Hk. rewrite past_with by (subst dirs; lia). done.
Qed.

(** ** The theorems at work *)
Definition dirs1 : list bytes := all_slots (Stored <$> [one]).
Definition vol1 : FatFilesystem MemDrive.t := volume_with dirs1.

Lemma root1 : root_holds (sz := 512) (cap := 1000) 2 1 16 vol1 (slots_with dirs1) [one].
Proof.
  destruct one_ok as [H1 _]. split.
  - apply (root_with dirs1); [|vm_compute; lia]. unfold dirs1, all_slots. cbn. rewrite app_nil_r. apply H1.
  - apply (free_tail_with [one]); [vm_compute; lia|by constructor].
Qed.
Definition names (x : Node) (acc : list bytes) : list bytes * bool := (acc ++ [node_name x], false).


Lemma treverse_dir_first_match_witness : exists nd f',
  treverse_dir root (str "Hello World.TXT") vol1 = Ret (Ok nd, f') /\ start_cluster (node_base nd) = 5.
Proof.
  destruct (treverse_dir_first_match (sz := 512) (cap := 1000) ltac:(done) 2 1 16 vol1 root (slots_with dirs1) (Stored <$> [one]) (str "Hello World.TXT"))
    as (r & f' & E & Hm & _); [apply volume_ok|done|apply root1|apply root1|].
  vm_compute in Hm. destruct Hm as (nd & Hnd & ->). exists nd, f'. split; [exact E|]. injection Hnd as <-. reflexivity.
Defined.

Lemma created_files name e l : create_dir_entries name attr = Ret (e, l) -> forall e' l', create_dir_entries name attr = Ret (e', l') -> e' = e /\ l' = l.
Proof. intros E e' l' E'. rewrite E in E'. by injection E' as <- <-. Qed.


Lemma create_node_refuses_duplicate_witness : exists f',
  create_node root (str "hi.txt") attr (volume_with (all_slots (Stored <$> [one; entries_of (str "HI.txt") 7]))) = Ret (Err AlreadyExists, f').
Proof.
  destruct (create_node_refuses_duplicate (sz := 512) (cap := 1000) ltac:(done) 2 1 16 (volume_with (all_slots (Stored <$> [one; entries_of (str "HI.txt") 7])))
    root (slots_with (all_slots (Stored <$> [one; entries_of (str "HI.txt") 7]))) [one] (entries_of (str "HI.txt") 7) [] (str "hi.txt") attr 3 4) as (f' & E & _);
    [apply volume_ok|done| |name_tac|plain_tac|vm_compute; lia|vm_compute; done|vm_compute; reflexivity|vm_compute; reflexivity|lia|vm_compute; done|vm_compute; done| |exists f'; exact E].
  - destruct one_ok as [H1 _].
    assert (group_ok (entries_of (str "HI.txt") 7)) as H2.
    { destruct (create_dir_entries_spec (str "HI.txt") attr) as (e & l & E & _ & _ & Ee & L & _ & _ & _ & Hg); [name_tac|plain_tac|vm_compute; lia|vm_compute; done|].
      unfold entries_of. rewrite E. apply Hg; [|done|done]. rewrite Ee. apply with_cluster_ok; [vm_compute; done|done]. }
    split.
    + apply (root_with (all_slots (Stored <$> [one; entries_of (str "HI.txt") 7]))); [|vm_compute; lia]. unfold all_slots. cbn [fmap list_fmap concat item_slots].
      rewrite app_nil_r. apply Forall_app. split; [apply H1|apply H2].
    + apply (free_tail_with [one; entries_of (str "HI.txt") 7]); [vm_compute; lia|by repeat (constructor; [done|])].
  - intros e l E. vm_compute in E. injection E as <- <-. split; [constructor; [|constructor]; split; vm_compute; done|vm_compute; done].
Defined.

(** ** Where creation goes wrong *)
Definition results {A} (o : outcome (A * FatFilesystem MemDrive.t)) : outcome A := '(a, _) ← o; Ret a.
Definition is_okb {A E} (r : result A E) : bool := match r with Ok _ => true | Err _ => false end.

(** A directory is never created successfully: the cursor is put back on the
    entry [.] it has just written, and adding [..] takes the missing long name
    of [.] for the missing long name of [..]; the caller is told
    [AlreadyExists] while the new directory stays in its parent. *)
Lemma create_directory_reports_exists :
  results ((r ← create_node root (str "d") ATTR_DIRECTORY; x ← treverse_dir root (str "d"); mret (r, is_okb x)) (volume_with [])) =
  Ret (Err AlreadyExists, true).
Proof. vm_compute. reflexivity. Qed.

(** A name of more than 13 characters is compared with its parts in the wrong
    order, so the same name is created twice. *)
Lemma long_duplicate_accepted :
  results ((_ ← create_node root (str "a_long_file_name") attr; _ ← create_node root (str "a_long_file_name") attr;
            read_dir root (fun x a => Ret (names x a)) []) (volume_with [])) =
  Ret (Ok [str "a_long_file_name"; str "a_long_file_name"]).
Proof. vm_compute. reflexivity. Qed.

(** Two names with the same short name and no [~] in it stop the kernel. *)
Lemma short_name_clash_panics :
  results ((_ ← create_node root (str "foo.html") attr; create_node root (str "foo.htm") attr) (volume_with [])) = Panic.
Proof. vm_compute. reflexivity. Qed.

(** So does a name that begins with a dot, whose base name is blank. *)
Lemma dot_file_panics : results (create_node root (str ".profile") attr (volume_with [])) = Panic.
Proof. vm_compute. reflexivity. Qed.

(** From 9 to 10 the number overwrites the tilde, and the next increment
    panics. *)
Lemma increment_short_name_loses_tilde :
  increment_short_name (str "LONGNA~9TXT") = Ret (str "LONGNA10TXT") /\ increment_short_name (str "LONGNA10TXT") = Panic.
Proof. vm_compute. split; reflexivity. Qed.

(** An entry that fills the directory is written and then reported as an
    error: its cluster is free again while the entry still names it. *)
Definition seven : list group := (fun b => entries_of [b] 5) <$> seqZ 97 7.
Lemma last_slot_entry_dangles :
  results ((r ← create_node root (str "x") attr; x ← treverse_dir root (str "x"); s ← get;
            mret (r, match x with Ok nd => read_fat_entry (fat s) (start_cluster (node_base nd)) | Err _ => Panic end))
           (volume_with (all_slots (Stored <$> seven)))) = Ret (Err FileNotFound, Ret Free).
Proof. vm_compute. reflexivity. Qed.
End DirDemo.
