(* ===== verification/Context.v ===== *)
(** * Context switch

    Models [swap_context] of [kernel/src/process/scheduler.rs] on the
    registers an interrupt saves ([kernel/src/cpu/idt.rs]) and the ones a
    process keeps ([ProcessContext], [kernel/src/process/mod.rs]), and the
    time arithmetic of [kernel/src/devices/clock/mod.rs] the scheduler uses. *)
From S2P Require Import Prelude.

Module Context.
(** [FxSave]: the saved floating point state, 32 words *)
Definition FxSave : Type := list Z.
Definition fxsave_default : FxSave := replicate 32 0.

Record ProcessContext : Type := mkContext {
  c_rflags : Z; c_rip : Z; c_cs : Z; c_ds : Z; c_es : Z; c_fs : Z; c_gs : Z; c_ss : Z; c_dr0 : Z;
  c_dr1 : Z; c_dr2 : Z; c_dr3 : Z; c_dr6 : Z; c_dr7 : Z; c_rax : Z; c_rbx : Z; c_rcx : Z;
  c_rdx : Z; c_rsi : Z; c_rdi : Z; c_rsp : Z; c_rbp : Z; c_r8 : Z; c_r9 : Z; c_r10 : Z; c_r11 : Z;
  c_r12 : Z; c_r13 : Z; c_r14 : Z; c_r15 : Z;
  c_fxsave : FxSave
}.
Definition context_default : ProcessContext :=
  mkContext 0 0 0 0 0 0 0 0 0 0 0 0 0 0 0 0 0 0 0 0 0 0 0 0 0 0 0 0 0 0 fxsave_default.

(** the code and stack segments are bytes here *)
Record InterruptStackFrame64 : Type := mkFrame { f_rip : Z; f_cs : Z; f_rflags : Z; f_rsp : Z; f_ss : Z }.

Record RestSavedRegisters : Type := mkRest {
  g_ds : Z; g_es : Z; g_fs : Z; g_gs : Z; g_dr0 : Z; g_dr1 : Z; g_dr2 : Z; g_dr3 : Z; g_dr6 : Z;
  g_dr7 : Z; g_rax : Z; g_rbx : Z; g_rcx : Z; g_rdx : Z; g_rsi : Z; g_rdi : Z; g_rbp : Z; g_r8 : Z;
  g_r9 : Z; g_r10 : Z; g_r11 : Z; g_r12 : Z; g_r13 : Z; g_r14 : Z; g_r15 : Z
}.
Definition set_rax (v : Z) (r : RestSavedRegisters) : RestSavedRegisters :=
  mkRest
    (g_ds r) (g_es r) (g_fs r) (g_gs r) (g_dr0 r) (g_dr1 r) (g_dr2 r) (g_dr3 r) (g_dr6 r) (g_dr7 r) v
    (g_rbx r) (g_rcx r) (g_rdx r) (g_rsi r) (g_rdi r) (g_rbp r) (g_r8 r) (g_r9 r) (g_r10 r) (g_r11 r)
    (g_r12 r) (g_r13 r) (g_r14 r) (g_r15 r).
Definition context_set_rax (v : Z) (c : ProcessContext) : ProcessContext :=
  mkContext
    (c_rflags c) (c_rip c) (c_cs c) (c_ds c) (c_es c) (c_fs c) (c_gs c) (c_ss c) (c_dr0 c) (c_dr1 c)
    (c_dr2 c) (c_dr3 c) (c_dr6 c) (c_dr7 c) v (c_rbx c) (c_rcx c) (c_rdx c) (c_rsi c) (c_rdi c) (c_rsp c)
    (c_rbp c) (c_r8 c) (c_r9 c) (c_r10 c) (c_r11 c) (c_r12 c) (c_r13 c) (c_r14 c) (c_r15 c) (c_fxsave c).

Record InterruptAllSavedState : Type := mkAllState {
  rest : RestSavedRegisters;
  number : Z;
  error : Z;
  frame : InterruptStackFrame64
}.
Definition with_rax (v : Z) (s : InterruptAllSavedState) : InterruptAllSavedState :=
  mkAllState (set_rax v (rest s)) (number s) (error s) (frame s).

(** [swap_context]: the process side, the interrupt side and the floating
    point registers of the CPU change places.  The segments of the frame are
    stored as bytes. *)
Definition swap_context (context : ProcessContext) (all_state : InterruptAllSavedState) (fpu : FxSave)
    : ProcessContext * InterruptAllSavedState * FxSave :=
  let r := rest all_state in
  let f := frame all_state in
  (mkContext
    (f_rflags f) (f_rip f) (f_cs f) (g_ds r) (g_es r) (g_fs r) (g_gs r) (f_ss f) (g_dr0 r) (g_dr1 r)
    (g_dr2 r) (g_dr3 r) (g_dr6 r) (g_dr7 r) (g_rax r) (g_rbx r) (g_rcx r) (g_rdx r) (g_rsi r) (g_rdi r)
    (f_rsp f) (g_rbp r) (g_r8 r) (g_r9 r) (g_r10 r) (g_r11 r) (g_r12 r) (g_r13 r) (g_r14 r) (g_r15 r) fpu,
   mkAllState (mkRest
    (c_ds context) (c_es context) (c_fs context) (c_gs context) (c_dr0 context) (c_dr1 context)
    (c_dr2 context) (c_dr3 context) (c_dr6 context) (c_dr7 context) (c_rax context) (c_rbx context)
    (c_rcx context) (c_rdx context) (c_rsi context) (c_rdi context) (c_rbp context) (c_r8 context)
    (c_r9 context) (c_r10 context) (c_r11 context) (c_r12 context) (c_r13 context) (c_r14 context)
    (c_r15 context))
     (number all_state) (error all_state)
     (mkFrame (c_rip context) (wrap 8 (c_cs context)) (c_rflags context) (c_rsp context) (wrap 8 (c_ss context))),
   c_fxsave context).

(** what a program sees of the machine when it runs with the saved state [s]
    and the floating point registers [fpu]: every register by its name *)
Definition registers (s : InterruptAllSavedState) (fpu : FxSave) : ProcessContext :=
  let r := rest s in
  let f := frame s in
  {| c_rflags := f_rflags f; c_rip := f_rip f; c_rsp := f_rsp f; c_cs := f_cs f; c_ss := f_ss f;
     c_ds := g_ds r; c_es := g_es r; c_fs := g_fs r; c_gs := g_gs r;
     c_dr0 := g_dr0 r; c_dr1 := g_dr1 r; c_dr2 := g_dr2 r; c_dr3 := g_dr3 r; c_dr6 := g_dr6 r; c_dr7 := g_dr7 r;
     c_rax := g_rax r; c_rbx := g_rbx r; c_rcx := g_rcx r; c_rdx := g_rdx r; c_rsi := g_rsi r; c_rdi := g_rdi r; c_rbp := g_rbp r;
     c_r8 := g_r8 r; c_r9 := g_r9 r; c_r10 := g_r10 r; c_r11 := g_r11 r; c_r12 := g_r12 r; c_r13 := g_r13 r; c_r14 := g_r14 r;
     c_r15 := g_r15 r; c_fxsave := fpu |}.

Definition segments_ok (c : ProcessContext) : Prop := in_word 8 (c_cs c) /\ in_word 8 (c_ss c).

(** what is loaded is the context, and what is saved is the interrupted state *)
Lemma swap_loads c s fpu : segments_ok c ->
  let '(c', s', fpu') := swap_context c s fpu in registers s' fpu' = c /\ c' = registers s fpu.
Proof.
  intros [Hcs Hss]. destruct c, s as [[] ? ? []]. unfold registers, swap_context. cbn in *.
  unfold wrap. rewrite !Z.mod_small by done. done.
Qed.

(** Switching away from a process and back again is invisible: if the kernel
    side did not touch the context in between, swapping twice gives back the
    context, the interrupted registers and the floating point state, all of
    them. *)
Theorem swap_context_involutive c s fpu : segments_ok c -> in_word 8 (f_cs (frame s)) -> in_word 8 (f_ss (frame s)) ->
  let '(c', s', fpu') := swap_context c s fpu in swap_context c' s' fpu' = (c, s, fpu).
Proof.
  intros [Hcs Hss] Hfc Hfs. destruct c, s as [[] ? ? []]. unfold swap_context. cbn in *.
  unfold wrap. by rewrite !Z.mod_small by done.
Qed.

Definition user_state : InterruptAllSavedState :=
  mkAllState (mkRest 1 2 3 4 5 6 7 8 9 10 11 12 13 14 15 16 17 18 19 20 21 22 23 24 25) 0x80 0 (mkFrame 0x400000 0x1B 0x202 0x7000 0x23).
Lemma swap_context_involutive_witness :
  let '(c', s', fpu') := swap_context context_default user_state [7] in
  swap_context c' s' fpu' = (context_default, user_state, [7]).
Proof.
  apply (swap_context_involutive context_default user_state [7]); [split; vm_compute; done|vm_compute; done|vm_compute; done].
Defined.
End Context.

(** ** Time *)
Module Clock.
Record ClockTime : Type := mkTime { nanoseconds : Z; seconds : Z }.
#[global] Instance ClockTime_eq_dec : EqDecision ClockTime.
Proof. solve_decision. Defined.
Definition NANOS_PER_SEC : Z := 1000000000.

(** [Ord for ClockTime] *)
Definition time_cmp (a b : ClockTime) : comparison :=
  match seconds a ?= seconds b with Eq => nanoseconds a ?= nanoseconds b | c => c end.
Definition time_le (a b : ClockTime) : bool := match time_cmp a b with Gt => false | _ => true end.

(** [Add] and [Sub], with the overflow checks of the operators *)
Definition time_add (a b : ClockTime) : outcome ClockTime :=
  n ← cadd 64 (nanoseconds a) (nanoseconds b);
  s ← cadd 64 (seconds a) (seconds b);
  s ← cadd 64 s (n / 1000000000);
  Ret (mkTime (n mod 1000000000) s).
Definition time_sub (a b : ClockTime) : outcome ClockTime :=
  n ← (if nanoseconds a <? nanoseconds b
       then x ← cadd 64 (nanoseconds a) 1000000000; csub x (nanoseconds b)
       else csub (nanoseconds a) (nanoseconds b));
  s ← csub (seconds a) (seconds b);
  s ← csub s (if nanoseconds a <? nanoseconds b then 1 else 0);
  Ret (mkTime n s).
Definition as_nanos (a : ClockTime) : outcome Z :=
  s ← cmul 64 (seconds a) NANOS_PER_SEC; cadd 64 s (nanoseconds a).

(** the sum of two times does not fit the clock *)
Definition time_overflows (a b : ClockTime) : Prop :=
  2 ^ 64 <= nanoseconds a + nanoseconds b \/ 2 ^ 64 <= seconds a + seconds b \/
  2 ^ 64 <= seconds a + seconds b + (nanoseconds a + nanoseconds b) / 1000000000.
Lemma time_add_cases a b :
  (time_overflows a b /\ time_add a b = Panic) \/ (~ time_overflows a b /\ exists d, time_add a b = Ret d).
Proof.
  unfold time_overflows, time_add, cadd. destruct (Z.ltb_spec (nanoseconds a + nanoseconds b) (2 ^ 64)); cbn [mbind outcome_bind]; [|left; split; [lia|done]].
  destruct (Z.ltb_spec (seconds a + seconds b) (2 ^ 64)); cbn [mbind outcome_bind]; [|left; split; [lia|done]].
  destruct (Z.ltb_spec (seconds a + seconds b + (nanoseconds a + nanoseconds b) / 1000000000) (2 ^ 64)); cbn [mbind outcome_bind].
  - right. split; [lia|by eexists].
  - left. split; [lia|done].
Qed.

(** a normalised time, and the instant it stands for *)
Definition time_ok (a : ClockTime) : Prop := 0 <= nanoseconds a < NANOS_PER_SEC /\ in_word 64 (seconds a).
Definition instant (a : ClockTime) : Z := seconds a * NANOS_PER_SEC + nanoseconds a.

Lemma time_le_instant a b : time_ok a -> time_ok b -> time_le a b = true <-> instant a <= instant b.
Proof.
  intros [Ha _] [Hb _]. unfold time_le, time_cmp, instant, NANOS_PER_SEC in *.
  destruct (Z.compare_spec (seconds a) (seconds b)); [destruct (Z.compare_spec (nanoseconds a) (nanoseconds b))|..]; split; (done || lia).
Qed.

Lemma time_add_spec a b : time_ok a -> time_ok b -> seconds a + seconds b + 1 < 2 ^ 64 ->
  exists c, time_add a b = Ret c /\ time_ok c /\ instant c = instant a + instant b.
Proof.
  intros [Ha Ha'] [Hb Hb'] Hs. unfold time_add, instant, time_ok, in_word, NANOS_PER_SEC in *.
  rewrite !cadd_ret by lia. cbn [mbind outcome_bind]. rewrite cadd_ret by dlia. cbn [mbind outcome_bind].
  eexists. split; [done|]. cbn. split; [split; dlia|dlia].
Qed.
Lemma time_sub_spec a b : time_ok a -> time_ok b -> instant b <= instant a ->
  exists c, time_sub a b = Ret c /\ time_ok c /\ instant c = instant a - instant b.
Proof.
  intros [Ha Ha'] [Hb Hb'] Hs. unfold time_sub, instant, time_ok, in_word, NANOS_PER_SEC in *.
  destruct (Z.ltb_spec (nanoseconds a) (nanoseconds b)).
  - repeat (first [rewrite cadd_ret by lia|rewrite csub_ret by lia]; cbn [mbind outcome_bind]).
    eexists. split; [done|]. cbn. split; [split; lia|lia].
  - repeat (rewrite csub_ret by lia; cbn [mbind outcome_bind]). eexists. split; [done|]. cbn. split; [split; lia|lia].
Qed.
End Clock.
