(* ===== verification/Process.v ===== *)
(** * Processes

    Models [Process] of [kernel/src/process/mod.rs]: identifiers, the table
    of open files, children that exited, the heap of the process and the
    stack its [main] starts on.  The address space is a parameter with the
    operations the process uses; what a file handle is does not matter
    here. *)
From S2P Require Import Prelude MemLayout UserLink FsTypes Context.
Import ProcessLink Context.

(** ** [GoingUpAllocator] *)
Notation GoingUpAllocator := Z (only parsing).
(** [fetch_add] wraps *)
Definition allocate (a : GoingUpAllocator) : Z * GoingUpAllocator := (a, wrap 64 (a + 1)).

(** ** The address space of a process *)
Class UserVm (V : Type) : Type := {
  (** map and unmap a range with the flags of user data *)
  vm_map : Z -> Z -> V -> outcome V;
  vm_unmap : Z -> Z -> V -> outcome V;
  vm_is_mapped : V -> Z -> bool
}.

(** What a process relies on: in the sound state [vm_ok] a free range of user
    pages can be mapped, a mapped one unmapped, and nothing else changes. *)
Class UserVmLaws (V : Type) `{UserVm V} : Type := {
  vm_ok : V -> Prop;
  vm_user : Z -> Prop;
  vm_map_law : forall v a n, vm_ok v -> a mod PAGE_4K = 0 -> n mod PAGE_4K = 0 -> 0 < n ->
    (forall x, a <= x < a + n -> vm_user x /\ vm_is_mapped v x = false) ->
    exists v', vm_map a n v = Ret v' /\ vm_ok v' /\
      forall x, vm_is_mapped v' x = if decide (a <= x < a + n) then true else vm_is_mapped v x;
  vm_unmap_law : forall v a n, vm_ok v -> a mod PAGE_4K = 0 -> n mod PAGE_4K = 0 -> 0 < n ->
    (forall x, a <= x < a + n -> vm_user x /\ vm_is_mapped v x = true) ->
    exists v', vm_unmap a n v = Ret v' /\ vm_ok v' /\
      forall x, vm_is_mapped v' x = if decide (a <= x < a + n) then false else vm_is_mapped v x
}.

Module Process.
Section process.
Context {V N : Type} `{UserVm V}.

Record Process : Type := mkProcess {
  vm : V;
  context : ProcessContext;
  id : Z;
  parent_id : Z;
  open_filesystem_nodes : gmap Z N;
  file_index_allocator : GoingUpAllocator;
  argv : list bytes;
  file_path : bytes;
  current_dir : bytes;
  stack_ptr_end : Z;
  stack_size : Z;
  heap_start : Z;
  heap_size : Z;
  heap_max : Z;
  priority : PriorityLevel;
  exit_code : Z;
  children_exits : gmap Z Z
}.
Implicit Types (p : Process).

Definition set_vm (v : V) p : Process :=
  mkProcess v (context p) (id p) (parent_id p) (open_filesystem_nodes p) (file_index_allocator p) (argv p) (file_path p)
    (current_dir p) (stack_ptr_end p) (stack_size p) (heap_start p) (heap_size p) (heap_max p) (priority p) (exit_code p) (children_exits p).
Definition set_context (c : ProcessContext) p : Process :=
  mkProcess (vm p) c (id p) (parent_id p) (open_filesystem_nodes p) (file_index_allocator p) (argv p) (file_path p)
    (current_dir p) (stack_ptr_end p) (stack_size p) (heap_start p) (heap_size p) (heap_max p) (priority p) (exit_code p) (children_exits p).
Definition set_files (m : gmap Z N) (a : GoingUpAllocator) p : Process :=
  mkProcess (vm p) (context p) (id p) (parent_id p) m a (argv p) (file_path p)
    (current_dir p) (stack_ptr_end p) (stack_size p) (heap_start p) (heap_size p) (heap_max p) (priority p) (exit_code p) (children_exits p).
Definition set_heap (v : V) (n : Z) p : Process :=
  mkProcess v (context p) (id p) (parent_id p) (open_filesystem_nodes p) (file_index_allocator p) (argv p) (file_path p)
    (current_dir p) (stack_ptr_end p) (stack_size p) (heap_start p) n (heap_max p) (priority p) (exit_code p) (children_exits p).
Definition set_current_dir (d : bytes) p : Process :=
  mkProcess (vm p) (context p) (id p) (parent_id p) (open_filesystem_nodes p) (file_index_allocator p) (argv p) (file_path p)
    d (stack_ptr_end p) (stack_size p) (heap_start p) (heap_size p) (heap_max p) (priority p) (exit_code p) (children_exits p).
Definition set_priority (l : PriorityLevel) p : Process :=
  mkProcess (vm p) (context p) (id p) (parent_id p) (open_filesystem_nodes p) (file_index_allocator p) (argv p) (file_path p)
    (current_dir p) (stack_ptr_end p) (stack_size p) (heap_start p) (heap_size p) (heap_max p) l (exit_code p) (children_exits p).
Definition set_exit (code : Z) p : Process :=
  mkProcess (vm p) (context p) (id p) (parent_id p) (open_filesystem_nodes p) (file_index_allocator p) (argv p) (file_path p)
    (current_dir p) (stack_ptr_end p) (stack_size p) (heap_start p) (heap_size p) (heap_max p) (priority p) code (children_exits p).
Definition set_children (m : gmap Z Z) p : Process :=
  mkProcess (vm p) (context p) (id p) (parent_id p) (open_filesystem_nodes p) (file_index_allocator p) (argv p) (file_path p)
    (current_dir p) (stack_ptr_end p) (stack_size p) (heap_start p) (heap_size p) (heap_max p) (priority p) (exit_code p) m.

Definition is_user_address_mapped p (address : Z) : bool := vm_is_mapped (vm p) address.

(** ** Open files *)
Definition finish_stdio p : outcome Process :=
  _ ← assert_that (3 <=? Z.of_nat (size (open_filesystem_nodes p)));
  Ret (if file_index_allocator p <? 3 then set_files (open_filesystem_nodes p) 3 p else p).

Definition push_fs_node (file : N) p : outcome (Z * Process) :=
  let '(fd, a) := allocate (file_index_allocator p) in
  _ ← assert_that (match open_filesystem_nodes p !! fd with None => true | Some _ => false end);
  Ret (fd, set_files (<[fd := file]> (open_filesystem_nodes p)) a p).

Definition attach_fs_node_to_fd (fd : Z) (file : N) p : outcome (bool * Process) :=
  match open_filesystem_nodes p !! fd with
  | Some _ => Ret (false, p)
  | None =>
      next ← cadd 64 fd 1;
      Ret (true, set_files (<[fd := file]> (open_filesystem_nodes p)) next p)
  end.

Definition get_fs_node p (fd : Z) : option N := open_filesystem_nodes p !! fd.
Definition take_fs_node (fd : Z) p : option N * Process :=
  (open_filesystem_nodes p !! fd, set_files (delete fd (open_filesystem_nodes p)) (file_index_allocator p) p).
Definition put_fs_node (fd : Z) (file : N) p : outcome Process :=
  _ ← assert_that (match open_filesystem_nodes p !! fd with None => true | Some _ => false end);
  Ret (set_files (<[fd := file]> (open_filesystem_nodes p)) (file_index_allocator p) p).

(** ** Children *)
Definition add_child_exit (pid code : Z) p : outcome Process :=
  _ ← assert_that (match children_exits p !! pid with None => true | Some _ => false end);
  Ret (set_children (<[pid := code]> (children_exits p)) p).
Definition get_child_exit (pid : Z) p : option Z * Process :=
  (children_exits p !! pid, set_children (delete pid (children_exits p)) p).

(** ** The heap: [add_to_heap] *)
Definition add_to_heap (increment : Z) p : outcome (option Z * Process) :=
  if increment =? 0 then e ← cadd 64 (heap_start p) (heap_size p); Ret (Some e, p)
  else
    al ← is_aligned (Z.abs increment) PAGE_4K;
    _ ← assert_that al;
    let new_size := heap_size p + increment in
    _ ← assert_that ((- 2 ^ 63 <=? new_size) && (new_size <? 2 ^ 63));
    if (new_size <? 0) || (heap_max p <? new_size) then Ret (None, p)
    else
      old_end ← cadd 64 (heap_start p) (heap_size p);
      if 0 <? increment then
        v ← vm_map old_end increment (vm p); Ret (Some old_end, set_heap v new_size p)
      else
        new_end ← csub old_end (Z.abs increment);
        v ← vm_unmap new_end (Z.abs increment) (vm p); Ret (Some old_end, set_heap v new_size p).
End process.
Arguments Process V N : clear implicits.

(** ** [prepare_stack] *)
(** memory as bytes; a word is stored with its low byte first *)
Definition Mem : Type := Z -> Z.
Definition store (m : Mem) (a : Z) (b : bytes) : Mem :=
  fun x => if decide (a <= x < a + Z.of_nat (length b)) then default 0 (b !! Z.to_nat (x - a)) else m x.
Definition word (w : Z) : bytes := (fun i => Z.shiftr w (8 * Z.of_nat i) mod 256) <$> seq 0 8.
Definition load (m : Mem) (a : Z) (n : nat) : bytes := (fun i => m (a + Z.of_nat i)) <$> seq 0 n.
Definition load_word (m : Mem) (a : Z) : Z := foldr (fun b w => b + 256 * w) 0 (load m a 8).

Record Stack : Type := mkStack { mem : Mem; rsp : Z; argv_ptrs : list Z }.

Definition align8 (stack_top : Z) (r : Z) : outcome Z :=
  r ← csub r (r mod 8); _ ← assert_that (stack_top <=? r); Ret r.

(** one argument *)
Definition push_arg (stack_top : Z) (arg : bytes) (s : Stack) : outcome Stack :=
  a ← csub (rsp s) (Z.of_nat (length arg));
  arg_ptr ← csub a 1;
  r ← align8 stack_top arg_ptr;
  Ret (mkStack (store (mem s) arg_ptr (arg ++ [0])) r (argv_ptrs s ++ [arg_ptr])).

Fixpoint push_args (stack_top : Z) (argv : list bytes) (s : Stack) : outcome Stack :=
  match argv with
  | [] => Ret s
  | arg :: argv => s ← push_arg stack_top arg s; push_args stack_top argv s
  end.

Definition push_word (stack_top : Z) (w : Z) (r : Z) (m : Mem) : outcome (Z * Mem) :=
  r ← csub r 8;
  _ ← assert_that (stack_top <=? r);
  Ret (r, store m r (word w)).

Definition prepare_stack (argv : list bytes) (r stack_top : Z) (m : Mem) : outcome (Z * Z * Z * Mem) :=
  let argc := Z.of_nat (length argv) in
  s ← push_args stack_top argv (mkStack m r []);
  r ← align8 stack_top (rsp s);
  null_ptr ← csub r 1;
  let m := store (mem s) null_ptr [0] in
  let ptrs := argv_ptrs s ++ [null_ptr] in
  r ← align8 stack_top null_ptr;
  argv_array_ptr ← csub r (Z.of_nat (length ptrs) * 8);
  let m := store m argv_array_ptr (concat (word <$> ptrs)) in
  '(r, m) ← push_word stack_top argv_array_ptr argv_array_ptr m;
  '(r, m) ← push_word stack_top argc r m;
  r ← align_down r 16;
  r ← csub r 8;
  Ret (r, argc, argv_array_ptr, m).
End Process.
