(* ===== verification/ProcessSpec.v ===== *)
(** * Processes: heap, descriptors and initial stack

    The heap of a process is exactly the mapped part of its window, a new
    descriptor is always fresh, and the arguments [prepare_stack] lays out are
    the ones [main] reads. *)
From S2P Require Import Prelude MemLayout UserLink FsTypes Context Process.
Import ProcessLink Context Process.

(** ** The heap *)
Section heap.
Context {V N : Type} `{UserVmLaws V}.
Implicit Types (p : Process V N).

Definition heap_end p : Z := heap_start p + heap_size p.
Record heap_ok p : Prop := {
  ho_vm : vm_ok (vm p);
  ho_aligned : heap_start p mod PAGE_4K = 0 /\ heap_size p mod PAGE_4K = 0;
  ho_bounds : 0 <= heap_start p /\ 0 <= heap_size p <= heap_max p /\ heap_start p + heap_max p < 2 ^ 62;
  ho_user : forall x, heap_start p <= x < heap_start p + heap_max p -> vm_user x;
  ho_mapped : forall x, heap_start p <= x < heap_start p + heap_max p ->
    vm_is_mapped (vm p) x = bool_decide (x < heap_end p)
}.

Lemma is_aligned_4k a : 0 <= a -> is_aligned a PAGE_4K = Ret (a mod PAGE_4K =? 0).
Proof.
  intros Ha. unfold is_aligned. rewrite csub_ret by (vm_compute; done). cbn [mbind outcome_bind].
  change (PAGE_4K - 1) with (2 ^ 12 - 1). by rewrite land_mask.
Qed.

(** [add_to_heap] by a multiple of the page size: it is refused, without any
    change, exactly when the new size would leave [0, heap_max]; otherwise it
    returns the old end, the mapped part of the window is exactly the new heap,
    and no other address changes. *)
Theorem add_to_heap_correct p increment : heap_ok p -> increment mod PAGE_4K = 0 -> - 2 ^ 62 <= increment < 2 ^ 62 ->
  if decide (0 <= heap_size p + increment <= heap_max p) then
    exists p', add_to_heap increment p = Ret (Some (heap_end p), p') /\ heap_ok p' /\
      heap_size p' = heap_size p + increment /\ heap_start p' = heap_start p /\ heap_max p' = heap_max p /\
      forall x, x < heap_start p \/ heap_start p + heap_max p <= x -> vm_is_mapped (vm p') x = vm_is_mapped (vm p) x
  else add_to_heap increment p = Ret (None, p).
Proof.
  intros Hok Hi Hb. pose proof Hok as [Hvm [Ha1 Ha2] (B1 & B2 & B3) Hu Hm]. unfold add_to_heap, heap_end in *.
  destruct (Z.eqb_spec increment 0) as [->|Hne].
  { rewrite decide_True by lia. rewrite cadd_ret by lia. cbn [mbind outcome_bind]. exists p. split_and!; try done. lia. }
  rewrite is_aligned_4k by lia. cbn [mbind outcome_bind].
  assert (Z.abs increment mod PAGE_4K = 0) as Habs.
  { destruct (Z.abs_spec increment) as [[_ ->]|[_ ->]]; [done|]. by apply Z_mod_zero_opp_full. }
  rewrite Habs. cbn [Z.eqb]. rewrite (assert_ret true) by done. cbn [mbind outcome_bind].
  rewrite assert_ret by lia. cbn [mbind outcome_bind]. change PAGE_4K with 4096 in *.
  case_decide as Hd.
  2: { destruct (Z.ltb_spec (heap_size p + increment) 0); [done|]. by rewrite (proj2 (Z.ltb_lt _ _)) by lia. }
  rewrite !(proj2 (Z.ltb_ge _ _)) by lia. cbn [orb]. rewrite cadd_ret by lia. cbn [mbind outcome_bind].
  destruct (Z.ltb_spec 0 increment) as [Hpos|Hneg].
  - destruct (vm_map_law (vm p) (heap_start p + heap_size p) increment) as (v & -> & Hv & Hx);
      [done|change PAGE_4K with 4096; dlia|done|done| |].
    { intros x Hxr. split; [apply Hu; lia|]. rewrite Hm by lia. apply bool_decide_eq_false. lia. }
    cbn [mbind outcome_bind]. eexists. split; [done|]. split.
    + split; unfold heap_end; cbn; [done|change PAGE_4K with 4096; split; [done|dlia]|lia|done|]. intros x Hxr. rewrite Hx. case_decide.
      * symmetry. apply bool_decide_eq_true. lia.
      * rewrite Hm by lia. apply bool_decide_ext. lia.
    + cbn. split_and!; try done. intros x Hxr. rewrite Hx, decide_False by lia. done.
  - rewrite csub_ret by lia. cbn [mbind outcome_bind].
    destruct (vm_unmap_law (vm p) (heap_start p + heap_size p - Z.abs increment) (Z.abs increment)) as (v & -> & Hv & Hx);
      [done|change PAGE_4K with 4096; dlia|done|lia| |].
    { intros x Hxr. split; [apply Hu; lia|]. rewrite Hm by lia. apply bool_decide_eq_true. lia. }
    cbn [mbind outcome_bind]. eexists. split; [done|]. split.
    + split; unfold heap_end; cbn; [done|change PAGE_4K with 4096; split; [done|dlia]|lia|done|]. intros x Hxr. rewrite Hx. case_decide.
      * symmetry. apply bool_decide_eq_false. lia.
      * rewrite Hm by lia. apply bool_decide_ext. lia.
    + cbn. split_and!; try done. intros x Hxr. rewrite Hx, decide_False by lia. done.
Qed.
End heap.

(** ** File descriptors *)
Section fds.
Context {V N : Type} `{UserVm V}.
Implicit Types (p : Process V N).

(** every open descriptor is below the allocator *)
Definition fds_ok p : Prop := 0 <= file_index_allocator p /\ forall fd, is_Some (open_filesystem_nodes p !! fd) -> fd < file_index_allocator p.

Lemma push_fs_node_spec f p : fds_ok p -> file_index_allocator p < 2 ^ 64 - 1 ->
  exists p', push_fs_node f p = Ret (file_index_allocator p, p') /\ fds_ok p' /\
    open_filesystem_nodes p !! file_index_allocator p = None /\ file_index_allocator p' = file_index_allocator p + 1 /\
    open_filesystem_nodes p' = <[file_index_allocator p := f]> (open_filesystem_nodes p).
Proof.
  intros [H0 Hok] Hlt. assert (open_filesystem_nodes p !! file_index_allocator p = None) as E.
  { apply eq_None_not_Some. intros Hs%Hok. lia. }
  unfold push_fs_node, allocate. cbv beta iota zeta. rewrite E. cbn [mbind outcome_bind assert_that]. eexists. split; [done|].
  unfold fds_ok. cbn. unfold wrap. rewrite Z.mod_small by lia. split; [|done]. split; [lia|].
  intros fd [x Hx]. rewrite lookup_insert_Some in Hx. destruct Hx as [[<- _]|[_ Hx]]; [lia|].
  assert (fd < file_index_allocator p) by (apply Hok; by eexists). lia.
Qed.

Lemma take_fs_node_ok fd p : fds_ok p -> fds_ok (take_fs_node fd p).2.
Proof.
  intros [H0 Hok]. split; [done|]. cbn. intros k [x Hx]. apply lookup_delete_Some in Hx as [_ Hx]. apply Hok. by eexists.
Qed.
(** what [sys_read] does: take the file out, put it back *)
Lemma take_put_fs_node fd f p : open_filesystem_nodes p !! fd = Some f ->
  put_fs_node fd f (take_fs_node fd p).2 = Ret p.
Proof.
  intros Hf. unfold put_fs_node, take_fs_node. cbn. rewrite lookup_delete_eq. cbn. f_equal. destruct p as [].
  unfold set_files. cbn in *. f_equal. rewrite insert_delete_eq. by apply insert_id.
Qed.

(** attaching descriptors in increasing order, as [sys_spawn] does for the
    standard ones, keeps the table sound *)
Lemma attach_fs_node_spec fd f p : fds_ok p -> file_index_allocator p <= fd < 2 ^ 64 - 1 ->
  exists p', attach_fs_node_to_fd fd f p = Ret (true, p') /\ fds_ok p' /\ file_index_allocator p' = fd + 1.
Proof.
  intros [H0 Hok] Hfd. assert (open_filesystem_nodes p !! fd = None) as E.
  { apply eq_None_not_Some. intros Hs%Hok. lia. }
  unfold attach_fs_node_to_fd. rewrite E, cadd_ret by lia. cbn [mbind outcome_bind]. eexists. split; [done|].
  split; [|done]. split; cbn; [lia|]. intros k [x Hx]. rewrite lookup_insert_Some in Hx. destruct Hx as [[<- _]|[_ Hx]]; [lia|].
  assert (k < file_index_allocator p) by (apply Hok; by eexists). lia.
Qed.

(** descriptors opened one after the other *)
Fixpoint push_all (l : list N) p : outcome (list Z * Process V N) :=
  match l with
  | [] => Ret ([], p)
  | f :: l => '(fd, p) ← push_fs_node f p; '(fds, p) ← push_all l p; Ret (fd :: fds, p)
  end.

(** New descriptors never collide: on a sound table any number of files can be
    opened, each gets a descriptor of its own that was not in use, and every
    file already open keeps its descriptor. *)
Theorem descriptors_fresh l p : fds_ok p -> file_index_allocator p + Z.of_nat (length l) < 2 ^ 64 ->
  exists fds p', push_all l p = Ret (fds, p') /\ fds_ok p' /\ NoDup fds /\ length fds = length l /\
    (forall fd, fd ∈ fds -> open_filesystem_nodes p !! fd = None) /\
    (forall fd, is_Some (open_filesystem_nodes p !! fd) -> open_filesystem_nodes p' !! fd = open_filesystem_nodes p !! fd) /\
    forall i fd f, fds !! i = Some fd -> l !! i = Some f -> open_filesystem_nodes p' !! fd = Some f.
Proof.
  revert p. induction l as [|f l IH]; intros p Hok Hb; cbn [push_all length] in *.
  { exists [], p. split_and!; try done; [constructor|set_solver]. }
  destruct (push_fs_node_spec f p Hok) as (p1 & -> & Hok1 & Hnone & Hnext & Hfiles); [lia|]. cbn [mbind outcome_bind].
  destruct (IH p1 Hok1) as (fds & p' & -> & Hok' & Hnd & Hlen & Hf & Hkeep & Hget); [lia|]. cbn [mbind outcome_bind].
  assert (open_filesystem_nodes p1 !! file_index_allocator p = Some f) as Hself by (rewrite Hfiles; apply lookup_insert_eq).
  exists (file_index_allocator p :: fds), p'. split_and!; [done|done| |cbn; by rewrite Hlen| | |].
  - constructor; [|done]. intros Hin%Hf. congruence.
  - intros fd [->|Hin]%elem_of_cons; [done|]. apply Hf in Hin. rewrite Hfiles in Hin. by apply lookup_insert_None in Hin as [? _].
  - intros fd Hs. assert (fd <> file_index_allocator p) as Hne by (intros ->; rewrite Hnone in Hs; by destruct Hs).
    assert (open_filesystem_nodes p1 !! fd = open_filesystem_nodes p !! fd) as E by (rewrite Hfiles; by apply lookup_insert_ne).
    rewrite Hkeep by (by rewrite E). exact E.
  - intros [|i] fd g; cbn; [|apply Hget]. intros [= <-] [= <-]. rewrite Hkeep; [done|by rewrite Hself].
Qed.
End fds.

(** ** The initial stack *)
Section memory.
Implicit Types (m : Mem) (b : bytes).

Lemma length_load m a n : length (load m a n) = n.
Proof. unfold load. by rewrite length_fmap, length_seq. Qed.
Lemma load_lookup m a n i : (i < n)%nat -> load m a n !! i = Some (m (a + Z.of_nat i)).
Proof. intros Hi. unfold load. rewrite list_lookup_fmap, lookup_seq_lt by done. done. Qed.

Lemma load_ext m m' a n : (forall x, a <= x < a + Z.of_nat n -> m x = m' x) -> load m a n = load m' a n.
Proof.
  intros He. unfold load. apply list_fmap_ext. intros i k Hk. apply lookup_seq in Hk as [-> Hi]. apply He. lia.
Qed.
Lemma load_store m a b : load (store m a b) a (length b) = b.
Proof.
  apply list_eq. intros i. destruct (decide (i < length b)%nat) as [Hi|Hi].
  - rewrite load_lookup by done. unfold store. rewrite decide_True by lia.
    replace (Z.to_nat (a + Z.of_nat i - a)) with i by lia. by destruct (lookup_lt_is_Some_2 b i Hi) as [x ->].
  - rewrite !lookup_ge_None_2; [done|lia|rewrite length_load; lia].
Qed.
Lemma store_other m a b x : x < a \/ a + Z.of_nat (length b) <= x -> store m a b x = m x.
Proof. intros Hx. unfold store. by rewrite decide_False by lia. Qed.
Lemma load_store_other m a b a' n : a' + Z.of_nat n <= a \/ a + Z.of_nat (length b) <= a' -> load (store m a b) a' n = load m a' n.
Proof. intros Hd. apply load_ext. intros x Hx. apply store_other. lia. Qed.
(** part of what was stored *)
Lemma load_store_part m a b1 b2 b3 : load (store m a (b1 ++ b2 ++ b3)) (a + Z.of_nat (length b1)) (length b2) = b2.
Proof.
  apply list_eq. intros i. destruct (decide (i < length b2)%nat) as [Hi|Hi].
  - rewrite load_lookup by done. unfold store. rewrite decide_True by (rewrite !length_app; lia).
    replace (Z.to_nat (a + Z.of_nat (length b1) + Z.of_nat i - a)) with (length b1 + i)%nat by lia.
    rewrite lookup_app_r, Nat.add_comm, Nat.add_sub, lookup_app_l by lia. by destruct (lookup_lt_is_Some_2 b2 i Hi) as [x ->].
  - rewrite !lookup_ge_None_2; [done|lia|rewrite length_load; lia].
Qed.

Lemma length_word w : length (word w) = 8%nat.
Proof. done. Qed.
Lemma word_value w : 0 <= w < 2 ^ 64 -> foldr (fun c v => c + 256 * v) 0 (word w) = w.
Proof.
  intros Hw. unfold word. cbn [seq fmap list_fmap foldr]. rewrite !Z.shiftr_div_pow2 by lia.
  change (8 * Z.of_nat 0) with 0. change (8 * Z.of_nat 1) with 8. change (8 * Z.of_nat 2) with 16. change (8 * Z.of_nat 3) with 24.
  change (8 * Z.of_nat 4) with 32. change (8 * Z.of_nat 5) with 40. change (8 * Z.of_nat 6) with 48. change (8 * Z.of_nat 7) with 56.
  dlia.
Qed.
Lemma load_store_word m a w : 0 <= w < 2 ^ 64 -> load_word (store m a (word w)) a = w.
Proof. intros Hw. unfold load_word. rewrite <- (length_word w), load_store. by apply word_value. Qed.

Lemma length_words l : length (concat (word <$> l)) = (8 * length l)%nat.
Proof. induction l as [|w l IH]; [done|]. cbn [fmap list_fmap concat length]. rewrite length_app, IH, length_word. lia. Qed.
Lemma load_store_words m a l i w : l !! i = Some w -> 0 <= w < 2 ^ 64 ->
  load_word (store m a (concat (word <$> l))) (a + 8 * Z.of_nat i) = w.
Proof.
  intros Hi Hw. rewrite <- (take_drop_middle l i w Hi). rewrite fmap_app, fmap_cons, concat_app. cbn [concat].
  assert (8 * Z.of_nat i = Z.of_nat (length (concat (word <$> take i l)))) as ->.
  { rewrite length_words, length_take. apply lookup_lt_Some in Hi. lia. }
  unfold load_word. rewrite <- (length_word w), load_store_part. by apply word_value.
Qed.
End memory.

(** the room the arguments need at most *)
Definition arg_room (argv : list bytes) : Z := foldr (fun a n => Z.of_nat (length a) + 8 + n) 0 argv.
Lemma arg_room_pos argv : 0 <= arg_room argv.
Proof. induction argv as [|a argv IH]; [done|]. cbn [arg_room foldr]. fold (arg_room argv). lia. Qed.

(** the strings written so far lie above the stack pointer *)
Record laid (top r0 : Z) (m0 : Mem) (argv : list bytes) (s : Stack) : Prop := {
  la_len : length (argv_ptrs s) = length argv;
  la_rsp : rsp s mod 8 = 0 /\ top <= rsp s <= r0;
  la_strings : forall i a p, argv !! i = Some a -> argv_ptrs s !! i = Some p ->
    rsp s <= p < r0 /\ p + Z.of_nat (length a) + 1 <= r0 /\ load (mem s) p (length a + 1) = a ++ [0];
  la_above : forall x, x < rsp s \/ r0 <= x -> mem s x = m0 x
}.

Lemma align8_spec top r : 0 <= r -> top <= r - r mod 8 -> align8 top r = Ret (r - r mod 8).
Proof. intros Hr Ht. unfold align8. rewrite csub_ret by dlia. cbn [mbind outcome_bind]. by rewrite assert_ret by lia. Qed.

Lemma push_arg_laid top r0 m0 argv a s : laid top r0 m0 argv s -> 0 <= top -> top + Z.of_nat (length a) + 8 <= rsp s ->
  exists s', push_arg top a s = Ret s' /\ laid top r0 m0 (argv ++ [a]) s' /\ rsp s - Z.of_nat (length a) - 8 <= rsp s'.
Proof.
  intros [Hl [Hr8 Hr] Hs Ha] Ht Hroom. unfold push_arg. rewrite !csub_ret by lia. cbn [mbind outcome_bind].
  set (p := rsp s - Z.of_nat (length a) - 1). rewrite csub_ret by lia. fold p. cbn [mbind outcome_bind].
  rewrite align8_spec by (subst p; dlia). cbn [mbind outcome_bind]. eexists. split; [done|]. split; [|cbn [rsp]; subst p; dlia].
  split; cbn [rsp mem argv_ptrs].
  - rewrite !length_app, Hl. done.
  - subst p. dlia.
  - intros i b q Hb Hq. apply lookup_app_Some in Hb as [Hb|[Hge Hb]].
    + assert (argv_ptrs s !! i = Some q) as Hq'.
      { rewrite lookup_app_l in Hq; [done|]. rewrite Hl. by eapply lookup_lt_Some. }
      destruct (Hs i b q Hb Hq') as (Q1 & Q2 & Q3). split; [subst p; dlia|]. split; [done|].
      rewrite load_store_other; [done|]. rewrite length_app. cbn. subst p. lia.
    + apply list_lookup_singleton_Some in Hb as [Hi <-]. assert (i = length argv) as -> by lia.
      rewrite lookup_app_r, Hl, Nat.sub_diag in Hq by lia. injection Hq as <-.
      split; [subst p; dlia|]. split; [subst p; lia|].
      replace (length a + 1)%nat with (length (a ++ [0])) by (by rewrite length_app). apply load_store.
  - intros x Hx. rewrite store_other; [apply Ha; subst p; dlia|]. rewrite length_app. cbn. subst p. dlia.
Qed.

Lemma push_args_laid top r0 m0 todo : forall argv s, laid top r0 m0 argv s -> 0 <= top -> top + arg_room todo <= rsp s ->
  exists s', push_args top todo s = Ret s' /\ laid top r0 m0 (argv ++ todo) s' /\ rsp s - arg_room todo <= rsp s'.
Proof.
  induction todo as [|a todo IH]; intros argv s Hs Ht Hroom; cbn [push_args arg_room foldr] in *.
  - exists s. rewrite app_nil_r. split; [done|]. split; [done|lia].
  - fold (arg_room todo) in *. pose proof (arg_room_pos todo).
    destruct (push_arg_laid top r0 m0 argv a s Hs Ht) as (s1 & -> & Hs1 & Hr1); [lia|]. cbn [mbind outcome_bind].
    destruct (IH (argv ++ [a]) s1 Hs1 Ht) as (s2 & -> & Hs2 & Hr2); [lia|]. exists s2. split; [done|].
    rewrite <- app_assoc in Hs2. split; [done|lia].
Qed.

(** what [main] is started with: [argc] and an array of [argc] pointers to
    NUL-terminated strings, the arguments, followed by a pointer to an empty
    one *)
Record main_sees (argv : list bytes) (argc ptr : Z) (m : Mem) : Prop := {
  ms_argc : argc = Z.of_nat (length argv);
  ms_argv : forall i a, argv !! i = Some a ->
    load m (load_word m (ptr + 8 * Z.of_nat i)) (length a + 1) = a ++ [0];
  ms_end : load m (load_word m (ptr + 8 * argc)) 1 = [0]
}.

(** [prepare_stack]: when the arguments fit, it returns; the new process finds
    its arguments, the stack pointer is 8 below a multiple of 16 as after a
    call, and nothing outside the stack is written. *)
Theorem prepare_stack_arguments argv r top m : 0 <= top -> r mod 8 = 0 -> r < 2 ^ 64 ->
  top + arg_room argv + 8 * Z.of_nat (length argv) + 64 <= r ->
  exists rsp' ptr m', prepare_stack argv r top m = Ret (rsp', Z.of_nat (length argv), ptr, m') /\
    main_sees argv (Z.of_nat (length argv)) ptr m' /\ rsp' mod 16 = 8 /\ top <= rsp' < ptr /\ ptr mod 8 = 0 /\
    forall x, x < top \/ r <= x -> m' x = m x.
Proof.
  intros Ht Hr8 Hr Hroom. pose proof (arg_room_pos argv) as Hpos.
  assert (laid top r m [] (mkStack m r [])) as H0 by (split; cbn; [done|split; [done|lia]|done|done]).
  unfold prepare_stack. destruct (push_args_laid top r m argv [] _ H0 Ht) as (s & -> & [Hl [R8 R] Hs Ha] & Hlow); [cbn; lia|].
  cbn [mbind outcome_bind app rsp] in *. rewrite align8_spec by lia. cbn [mbind outcome_bind]. rewrite R8, Z.sub_0_r.
  rewrite csub_ret by lia. cbn [mbind outcome_bind]. set (null := rsp s - 1).
  assert (null mod 8 = 7) as N8 by (subst null; dlia). rewrite align8_spec by (subst null; lia). rewrite N8. cbn [mbind outcome_bind].
  assert (Z.of_nat (length (argv_ptrs s ++ [null])) = Z.of_nat (length argv) + 1) as El by (rewrite length_app, Hl; cbn; lia).
  rewrite El, csub_ret by (subst null; lia). cbn [mbind outcome_bind].
  set (ptr := null - 7 - (Z.of_nat (length argv) + 1) * 8). assert (ptr mod 8 = 0) as P8 by (subst ptr null; dlia).
  set (m1 := store (mem s) null [0]). set (m2 := store m1 ptr (concat (word <$> argv_ptrs s ++ [null]))).
  unfold push_word. rewrite csub_ret by (subst ptr null; lia). cbn [mbind outcome_bind].
  rewrite assert_ret by (subst ptr null; lia). cbn [mbind outcome_bind]. rewrite csub_ret by (subst ptr null; lia). cbn [mbind outcome_bind].
  rewrite assert_ret by (subst ptr null; lia). cbn [mbind outcome_bind]. set (m3 := store (store m2 _ _) _ _).
  unfold align_down. rewrite csub_ret by lia. cbn [mbind outcome_bind]. change (16 - 1) with (2 ^ 4 - 1).
  rewrite land_unot_mask by (subst ptr null; unfold in_word; lia). change (2 ^ 4) with 16.
  rewrite csub_ret by (subst ptr null; dlia). cbn [mbind outcome_bind]. eexists _, ptr, m3. split; [done|].
  assert (forall x, ptr <= x -> m3 x = m2 x) as E3.
  { intros x Hx. unfold m3. rewrite !store_other by (rewrite length_word; lia). done. }
  assert (length (concat (word <$> argv_ptrs s ++ [null])) = (8 * (length argv + 1))%nat) as Ew by (rewrite length_words, length_app, Hl; done).
  assert (forall x, null - 7 <= x -> m2 x = m1 x) as E2 by (intros x Hx; unfold m2; apply store_other; rewrite Ew; subst ptr; lia).
  assert (forall i p, (argv_ptrs s ++ [null]) !! i = Some p -> 0 <= p < 2 ^ 64 -> load_word m3 (ptr + 8 * Z.of_nat i) = p) as Hword.
  { intros i p Hi Hp. apply lookup_lt_Some in Hi as Hlt. rewrite length_app, Hl in Hlt. cbn in Hlt.
    transitivity (load_word m2 (ptr + 8 * Z.of_nat i)).
    - unfold load_word. f_equal. apply load_ext. intros x Hx. apply E3. lia.
    - unfold m2. by apply load_store_words. }
  split_and!; [split; [done| |]|subst ptr null; dlia|subst ptr null; dlia|subst ptr null; dlia|done|].
  - intros i a Hi. assert (i < length argv)%nat as Hlt by (by eapply lookup_lt_Some).
    destruct (lookup_lt_is_Some_2 (argv_ptrs s) i) as [p Hp]; [lia|]. destruct (Hs i a p Hi Hp) as (Q1 & Q2 & Q3).
    rewrite (Hword i p); [|by apply lookup_app_l_Some|lia]. rewrite <- Q3. apply load_ext. intros x Hx.
    rewrite E3, E2 by (subst ptr null; lia). unfold m1. apply store_other. cbn. subst null. lia.
  - rewrite (Hword (length argv) null); [|by rewrite lookup_app_r, Hl, Nat.sub_diag by lia|subst null; lia].
    change 1%nat with (length [0]). rewrite <- (load_store (mem s) null [0]) at 2. apply load_ext. intros x Hx. cbn in Hx.
    rewrite E3, E2 by (subst ptr null; lia). done.
  - intros x Hx. rewrite <- Ha by lia. unfold m3, m2, m1.
    rewrite !store_other; [done|..]; rewrite ?length_word, ?Ew; cbn [length]; subst ptr null; lia.
Qed.

(** ** Demonstrations *)
Module ProcDemo.
From Stdlib Require String.
Import Stdlib.Strings.String.StringSyntax.

(** an address space that only records which addresses are mapped *)
Definition FlatVm : Type := Z -> bool.
#[global] Instance flat_vm : UserVm FlatVm := {
  vm_map a n v := Ret (fun x => if decide (a <= x < a + n) then true else v x);
  vm_unmap a n v := Ret (fun x => if decide (a <= x < a + n) then false else v x);
  vm_is_mapped v x := v x
}.
#[global] Program Instance flat_laws : UserVmLaws FlatVm := { vm_ok _ := True; vm_user x := 0 <= x < 2 ^ 47 }.
Next Obligation. intros v a n _ _ _ _ _. by eexists. Qed.
Next Obligation. intros v a n _ _ _ _ _. by eexists. Qed.

Definition HEAP : Z := 0x600000.
Definition proc (files : gmap Z nat) (next : Z) : Process FlatVm nat :=
  mkProcess (fun x => bool_decide (HEAP <= x < HEAP + 0x2000)) context_default 7 1 files next [] [] [] 0x7000 0x1000
    HEAP 0x2000 0x100000 Normal 0 ∅.

Lemma proc_heap_ok : heap_ok (proc ∅ 3).
Proof.
  split; unfold heap_end; cbn; [done|split; vm_compute; done|vm_compute; split_and?; done| |].
  - unfold HEAP. lia.
  - intros x Hx. apply bool_decide_ext. unfold HEAP in *. lia.
Qed.

Lemma add_to_heap_correct_witness :
  (exists p', add_to_heap 0x3000 (proc ∅ 3) = Ret (Some (HEAP + 0x2000), p') /\ heap_ok p' /\ heap_size p' = 0x5000) /\
  add_to_heap (-0x3000) (proc ∅ 3) = Ret (None, proc ∅ 3).
Proof.
  split.
  - pose proof (add_to_heap_correct (proc ∅ 3) 0x3000 proc_heap_ok ltac:(vm_compute; done) ltac:(lia)) as Hh.
    rewrite decide_True in Hh by (vm_compute; split; done). destruct Hh as (p' & E & Hok & Hsz & _).
    exists p'. split; [exact E|]. split; [exact Hok|exact Hsz].
  - pose proof (add_to_heap_correct (proc ∅ 3) (-0x3000) proc_heap_ok ltac:(vm_compute; done) ltac:(lia)) as Hh.
    rewrite decide_False in Hh by (vm_compute; intros [? ?]; done). exact Hh.
Defined.

Definition std : gmap Z nat := <[0 := 10%nat]> (<[1 := 11%nat]> (<[2 := 12%nat]> ∅)).
Lemma std_ok : fds_ok (proc std 3).
Proof.
  split; [cbn; lia|]. cbn [proc open_filesystem_nodes file_index_allocator]. intros fd [x Hx]. unfold std in Hx.
  repeat (apply lookup_insert_Some in Hx as [[<- _]|[_ Hx]]; [lia|]). by rewrite lookup_empty in Hx.
Qed.
Lemma descriptors_fresh_witness : exists fds p', push_all [20; 21]%nat (proc std 3) = Ret (fds, p') /\ NoDup fds /\ fds_ok p'.
Proof.
  destruct (descriptors_fresh [20; 21]%nat (proc std 3) std_ok) as (fds & p' & E & Hok & Hnd & _); [cbn; lia|].
  exists fds, p'. split; [exact E|split; [exact Hnd|exact Hok]].
Defined.

(** Attaching the descriptors in another order than increasing moves the
    allocator back: a program that gets descriptor 5 from its parent, and then
    the standard ones, stops the kernel at the third file it opens. *)
Definition inherited : outcome (Process FlatVm nat) :=
  '(_, p) ← attach_fs_node_to_fd 5 50%nat (proc ∅ 0);
  '(_, p) ← attach_fs_node_to_fd 0 10%nat p;
  '(_, p) ← attach_fs_node_to_fd 1 11%nat p;
  '(_, p) ← attach_fs_node_to_fd 2 12%nat p;
  finish_stdio p.
Lemma attach_moves_allocator_back : (p ← inherited; push_all [20; 21; 22]%nat p) = Panic.
Proof. vm_compute. reflexivity. Qed.

Lemma prepare_stack_arguments_witness : exists rsp' ptr m',
  prepare_stack [of_string "ls"; of_string "-l"] 0x10000 0x8000 (fun _ => 0) = Ret (rsp', 2, ptr, m') /\
  main_sees [of_string "ls"; of_string "-l"] 2 ptr m'.
Proof.
  destruct (prepare_stack_arguments [of_string "ls"; of_string "-l"] 0x10000 0x8000 (fun _ => 0)) as (r & ptr & m' & E & Hm & _);
    [lia|done|lia|vm_compute; done|]. exists r, ptr, m'. split; [exact E|exact Hm].
Defined.
End ProcDemo.
