(* ===== verification/Scheduler.v ===== *)
(** * The scheduler

    Models [kernel/src/process/scheduler.rs]: the queue of scheduled
    processes, the map of running and waiting ones, exits and wake-ups, one
    iteration of the loop of [schedule], the scheduler and timer interrupts,
    and the calls that put the current process to sleep, to wait or to exit.
    The kernel runs on one CPU ([cpu::cpu] is [CPUS[0]]). *)
From S2P Require Import Prelude MemLayout UserLink FsTypes Locks Context Process.
Import ProcessLink Context Clock Process.

(** ** What the source uses of [BTreeMap] and [BinaryHeap] *)
Module ZMap.
Section zmap.
Context {A : Type}.
Implicit Types (m : list (Z * A)) (k : Z).

(** a map, in the order of its keys *)
Fixpoint get k m : option A :=
  match m with
  | [] => None
  | (k', v) :: m => if k =? k' then Some v else get k m
  end.
Fixpoint insert k (v : A) m : list (Z * A) :=
  match m with
  | [] => [(k, v)]
  | (k', v') :: m' => if k <? k' then (k, v) :: m else if k =? k' then (k, v) :: m' else (k', v') :: insert k v m'
  end.
Definition remove k m : list (Z * A) := base.filter (fun e : Z * A => e.1 <> k) m.
End zmap.
End ZMap.

(** a binary heap is the multiset of its elements; which of several greatest
    elements comes first is not specified *)
Class BinaryHeap (A : Type) (key : A -> Z) : Type := {
  heap_pop : list A -> option (A * list A);
  heap_pop_max : forall l,
    match heap_pop l with
    | None => l = []
    | Some (x, r) => l ≡ₚ x :: r /\ forall y, y ∈ r -> key y <= key x
    end
}.

Module Scheduler.
Section scheduler.
Context {V N : Type}.

Definition MIN_PRIORITY_VALUE : Z := 100.
Definition U64_MAX : Z := 2 ^ 64 - 1.

Inductive ProcessState : Type :=
| Running
| Scheduled
| WaitingForPid (pid : Z)
| WaitingForTime (t : ClockTime).
#[global] Instance ProcessState_eq_dec : EqDecision ProcessState.
Proof. solve_decision. Defined.

Record SchedulerProcess : Type := mkSP {
  process : Process V N;
  state : ProcessState;
  priority_counter : Z
}.
Definition sp_id (p : SchedulerProcess) : Z := id (process p).
Context `{BinaryHeap SchedulerProcess priority_counter}.

Record Scheduler : Type := mkSched {
  scheduled_processes : list SchedulerProcess;
  running_waiting_procs : list (Z * SchedulerProcess);
  exited_processes : list (Process V N);
  max_priority : Z
}.
Definition new : Scheduler := mkSched [] [] [] U64_MAX.

(** the scheduler, its lock, and the parts of the machine it works on: the
    CPU ([context], [process_id], [scheduling] and the nesting of [cli]), the
    address space in use, the clock, the owner of the display, the floating
    point registers *)
Record World : Type := mkWorld {
  sched : Scheduler;
  locked : bool;
  shutdown : bool;
  cli : Cpu.Cpu;
  cpu_context : option ProcessContext;
  process_id : Z;
  scheduling : bool;
  active_vm : option Z;
  now : ClockTime;
  vga_owner : option Z;
  fpu : FxSave
}.
Implicit Types (w : World) (s : Scheduler) (p : SchedulerProcess) (pr : Process V N).

Definition set_sched s w : World :=
  mkWorld s (locked w) (shutdown w) (cli w) (cpu_context w) (process_id w) (scheduling w) (active_vm w) (now w) (vga_owner w) (fpu w).
Definition set_locked (b : bool) w : World :=
  mkWorld (sched w) b (shutdown w) (cli w) (cpu_context w) (process_id w) (scheduling w) (active_vm w) (now w) (vga_owner w) (fpu w).
Definition set_shutdown (b : bool) w : World :=
  mkWorld (sched w) (locked w) b (cli w) (cpu_context w) (process_id w) (scheduling w) (active_vm w) (now w) (vga_owner w) (fpu w).
Definition set_cli (c : Cpu.Cpu) w : World :=
  mkWorld (sched w) (locked w) (shutdown w) c (cpu_context w) (process_id w) (scheduling w) (active_vm w) (now w) (vga_owner w) (fpu w).
Definition set_cpu (c : option ProcessContext) (pid : Z) (b : bool) w : World :=
  mkWorld (sched w) (locked w) (shutdown w) (cli w) c pid b (active_vm w) (now w) (vga_owner w) (fpu w).
Definition set_active (v : option Z) w : World :=
  mkWorld (sched w) (locked w) (shutdown w) (cli w) (cpu_context w) (process_id w) (scheduling w) v (now w) (vga_owner w) (fpu w).
Definition set_now (t : ClockTime) w : World :=
  mkWorld (sched w) (locked w) (shutdown w) (cli w) (cpu_context w) (process_id w) (scheduling w) (active_vm w) t (vga_owner w) (fpu w).
Definition set_vga (o : option Z) w : World :=
  mkWorld (sched w) (locked w) (shutdown w) (cli w) (cpu_context w) (process_id w) (scheduling w) (active_vm w) (now w) o (fpu w).
Definition set_fpu (f : FxSave) w : World :=
  mkWorld (sched w) (locked w) (shutdown w) (cli w) (cpu_context w) (process_id w) (scheduling w) (active_vm w) (now w) (vga_owner w) f.

Definition set_queue (l : list SchedulerProcess) s : Scheduler := mkSched l (running_waiting_procs s) (exited_processes s) (max_priority s).
Definition set_procs (m : list (Z * SchedulerProcess)) s : Scheduler := mkSched (scheduled_processes s) m (exited_processes s) (max_priority s).
Definition set_exited (l : list (Process V N)) s : Scheduler := mkSched (scheduled_processes s) (running_waiting_procs s) l (max_priority s).
Definition set_max (n : Z) s : Scheduler := mkSched (scheduled_processes s) (running_waiting_procs s) (exited_processes s) n.
Definition on_sched (f : Scheduler -> Scheduler) : ST World unit := modify (fun w => set_sched (f (sched w)) w).

(** ** Interrupt nesting and the lock of [SCHEDULER] *)
Definition on_cli (f : Cpu.Cpu -> outcome Cpu.Cpu) : ST World unit :=
  w ← get; c ← lift (f (cli w)); modify (set_cli c).
Definition push_cli : ST World unit := on_cli Cpu.push_cli.
Definition pop_cli : ST World unit := on_cli Cpu.pop_cli.
(** taking a lock this CPU holds is a panic of the lock *)
Definition lock : ST World unit :=
  _ ← push_cli; w ← get; _ ← lift (assert_that (negb (locked w))); modify (set_locked true).
Definition unlock : ST World unit := _ ← modify (set_locked false); pop_cli.
Definition with_lock {A} (m : ST World A) : ST World A := _ ← lock; a ← m; _ ← unlock; mret a.

(** ** [Process::exit] and [Drop for Process] *)
Definition exit_process (code : Z) pr : ST World (Process V N) :=
  w ← get;
  _ ← (match vga_owner w with
       | None => mret tt
       | Some owner =>
           _ ← lift (assert_that (id pr <? 2 ^ 63 - 1));
           if owner =? id pr then modify (set_vga (Some (-1))) else mret tt
       end);
  mret (set_exit code pr).
(** the assertion of [Drop for Process] while the address space [vm] is in use *)
Definition unused (vm : option Z) pr : outcome unit := assert_that (negb (bool_decide (vm = Some (id pr)))).
Definition drop_process pr : ST World unit :=
  w ← get; lift (unused (active_vm w) pr).
Fixpoint drop_all (l : list (Process V N)) : ST World unit :=
  match l with [] => mret tt | pr :: l => _ ← drop_process pr; drop_all l end.

(** ** [impl Scheduler] *)
Definition reschedule_process p : ST World unit :=
  w ← get;
  if shutdown w then
    pr ← exit_process 0xFF (process p);
    on_sched (fun s => set_exited (exited_processes s ++ [pr]) s)
  else
    on_sched (fun s => set_queue (scheduled_processes s ++ [mkSP (process p) Scheduled (max_priority s)]) s).

Definition push_process_sched pr : ST World unit :=
  w ← get; reschedule_process (mkSP pr Scheduled (max_priority (sched w))).

Definition reset_scheduled_processes_counters s : Scheduler :=
  set_queue ((fun p => mkSP (process p) (state p) U64_MAX) <$> scheduled_processes s) s.

(** one process against the list of exited ones: is it woken, the process,
    the exited processes that stay; the others are dropped on the way *)
Definition user_mode (c : ProcessContext) : bool := Z.land (c_cs c) 3 =? 3.
Fixpoint check_exited (vm : option Z) (st : ProcessState) pr (remove : bool) (exited : list (Process V N))
    : outcome (bool * Process V N * list (Process V N)) :=
  match exited with
  | [] => Ret (remove, pr, [])
  | e :: exited =>
      let found_parent := parent_id e =? id pr in
      pr ← (if found_parent then add_child_exit (id e) (exit_code e) pr else Ret pr);
      '(remove, pr) ← (if bool_decide (st = WaitingForPid (id e)) then
                         _ ← assert_that (user_mode (context pr));
                         Ret (true, set_context (context_set_rax (wrap 64 (exit_code e)) (context pr)) pr)
                       else Ret (remove, pr));
      _ ← (if found_parent then unused vm e else Ret tt);
      '(remove, pr, l) ← check_exited vm st pr remove exited;
      Ret (remove, pr, if found_parent then l else e :: l)
  end.

(** the closure of [extract_if] *)
Definition wake_one (vm : option Z) (time_now : ClockTime) p (exited : list (Process V N))
    : outcome (bool * SchedulerProcess * list (Process V N)) :=
  match state p with
  | WaitingForPid _ | Running =>
      '(remove, pr, exited) ← check_exited vm (state p) (process p) false exited;
      Ret (remove, mkSP pr (state p) (priority_counter p), exited)
  | WaitingForTime t => Ret (time_le t time_now, p, exited)
  | Scheduled => Panic
  end.
Fixpoint extract_if (vm : option Z) (time_now : ClockTime) (m : list (Z * SchedulerProcess)) (exited : list (Process V N))
    : outcome (list SchedulerProcess * list (Z * SchedulerProcess) * list (Process V N)) :=
  match m with
  | [] => Ret ([], [], exited)
  | (k, p) :: m =>
      '(remove, p, exited) ← wake_one vm time_now p exited;
      '(out, kept, exited) ← extract_if vm time_now m exited;
      Ret (if remove : bool then (p :: out, kept, exited) else (out, (k, p) :: kept, exited))
  end.

Fixpoint reschedule_all (l : list SchedulerProcess) : ST World unit :=
  match l with [] => mret tt | p :: l => _ ← reschedule_process p; reschedule_all l end.

(** an exited process whose parent is scheduled *)
Fixpoint tell_parents (e : Process V N) (l : list SchedulerProcess) : outcome (list SchedulerProcess) :=
  match l with
  | [] => Ret []
  | p :: l =>
      pr ← (if sp_id p =? parent_id e then add_child_exit (id e) (exit_code e) (process p) else Ret (process p));
      l ← tell_parents e l;
      Ret (mkSP pr (state p) (priority_counter p) :: l)
  end.
Fixpoint tell_all (exited : list (Process V N)) (l : list SchedulerProcess) : outcome (list SchedulerProcess) :=
  match exited with [] => Ret l | e :: exited => l ← tell_parents e l; tell_all exited l end.

Definition try_wake_waiting_processes : ST World unit :=
  w ← get;
  '(out, kept, exited) ← lift (extract_if (active_vm w) (now w) (running_waiting_procs (sched w)) (exited_processes (sched w)));
  _ ← on_sched (fun s => set_exited exited (set_procs kept s));
  _ ← reschedule_all out;
  w ← get;
  l ← lift (tell_all (exited_processes (sched w)) (scheduled_processes (sched w)));
  _ ← on_sched (fun s => set_exited [] (set_queue l s));
  drop_all (exited_processes (sched w)).

Fixpoint stop_queue (l : list SchedulerProcess) : ST World unit :=
  match l with
  | [] => mret tt
  | p :: l => pr ← exit_process 0 (process p); _ ← drop_process pr; stop_queue l
  end.
Fixpoint retain_running (m : list (Z * SchedulerProcess)) : ST World (list (Z * SchedulerProcess)) :=
  match m with
  | [] => mret []
  | (k, p) :: m =>
      match state p with
      | Running => m ← retain_running m; mret ((k, p) :: m)
      | _ => pr ← exit_process 0 (process p); _ ← drop_process pr; retain_running m
      end
  end.
Definition exit_idle_processes : ST World unit :=
  w ← get;
  _ ← on_sched (set_queue []);
  _ ← stop_queue (scheduled_processes (sched w));
  m ← retain_running (running_waiting_procs (sched w));
  on_sched (set_procs m).

(** ** [schedule]: one iteration of its loop *)
Inductive Next : Type := Break | Run | Halt.

Definition priority_decrement pr : outcome Z := csub 6 (priority_to_u64 (priority pr)).

Definition take_top (stopping : bool) p : ST World unit :=
  _ ← lift (assert_that (bool_decide (state p = Scheduled)));
  if stopping then drop_process (process p)
  else
    let pr := process p in
    decrement ← lift (priority_decrement pr);
    counter ← lift (csub (priority_counter p) decrement);
    _ ← on_sched (set_max counter);
    _ ← modify (set_active (Some (id pr)));
    _ ← modify (set_cpu (Some (context pr)) (id pr) true);
    on_sched (fun s => set_procs (ZMap.insert (id pr) (mkSP pr Running counter) (running_waiting_procs s)) s).

Definition is_nil {A} (l : list A) : bool := match l with [] => true | _ => false end.

Definition schedule_iteration : ST World Next :=
  w ← get;
  _ ← lift (assert_that (bool_decide (cpu_context w = None)));
  _ ← lock;
  let stopping := shutdown w in
  _ ← (if stopping then exit_idle_processes else mret tt);
  _ ← push_cli;
  _ ← try_wake_waiting_processes;
  w ← get;
  _ ← (match heap_pop (scheduled_processes (sched w)) with
       | Some (top, _) =>
           if priority_counter top <? MIN_PRIORITY_VALUE then on_sched reset_scheduled_processes_counters else mret tt
       | None => mret tt
       end);
  w ← get;
  _ ← (match heap_pop (scheduled_processes (sched w)) with
       | Some (top, rest) => _ ← on_sched (set_queue rest); _ ← take_top stopping top; pop_cli
       | None => mret tt
       end);
  w ← get;
  let stop := stopping && is_nil (scheduled_processes (sched w)) && is_nil (running_waiting_procs (sched w)) &&
              bool_decide (cpu_context w = None) in
  _ ← unlock;
  mret (if stop then Break else if bool_decide (cpu_context w = None) then Halt else Run).

(** ** The current process *)
Definition get_current : ST World SchedulerProcess :=
  w ← get;
  p ← lift (unwrap (ZMap.get (process_id w) (running_waiting_procs (sched w))));
  _ ← lift (assert_that (bool_decide (state p = Running)));
  mret p.
Definition with_current_process_and_state {A} (f : SchedulerProcess -> ST World (A * SchedulerProcess)) : ST World A :=
  with_lock (p ← get_current; '(a, p) ← f p;
             w ← get; _ ← on_sched (fun s => set_procs (ZMap.insert (process_id w) p (running_waiting_procs s)) s); mret a).
Definition with_current_process {A} (f : Process V N -> outcome (A * Process V N)) : ST World A :=
  with_current_process_and_state (fun p => '(a, pr) ← lift (f (process p)); mret (a, mkSP pr (state p) (priority_counter p))).

Definition take_current_process : ST World SchedulerProcess :=
  w ← get;
  p ← with_lock (
    s ← get;
    p ← lift (unwrap (ZMap.get (process_id w) (running_waiting_procs (sched s))));
    _ ← on_sched (fun s => set_procs (ZMap.remove (process_id w) (running_waiting_procs s)) s);
    mret p);
  _ ← lift (assert_that (bool_decide (state p = Running)));
  mret p.

(** [swap_context] with the context of the CPU; the context is left there *)
Definition swap_cpu (all_state : InterruptAllSavedState) : ST World InterruptAllSavedState :=
  w ← get;
  c ← lift (unwrap (cpu_context w));
  let '(c, all_state, f) := swap_context c all_state (fpu w) in
  _ ← modify (fun w => set_fpu f (set_cpu (Some c) (process_id w) (scheduling w) w));
  mret all_state.
(** [current_cpu.context.take().unwrap()] *)
Definition take_context : ST World ProcessContext :=
  w ← get;
  c ← lift (unwrap (cpu_context w));
  _ ← modify (set_cpu None (process_id w) (scheduling w));
  mret c.

Definition exit_current_process (code : Z) (all_state : InterruptAllSavedState) : ST World InterruptAllSavedState :=
  w ← get;
  _ ← lift (assert_that (negb (bool_decide (cpu_context w = None))));
  _ ← push_cli;
  p ← take_current_process;
  all_state ← swap_cpu all_state;
  c ← take_context;
  pr ← exit_process code (set_context c (process p));
  _ ← with_lock (on_sched (fun s => set_exited (exited_processes s ++ [pr]) s));
  _ ← pop_cli;
  mret all_state.

(** put the current process into a waiting state *)
Definition stash_current (st : ProcessState) (all_state : InterruptAllSavedState) : ST World InterruptAllSavedState :=
  all_state ← with_current_process_and_state (fun p =>
    _ ← push_cli;
    all_state ← swap_cpu all_state;
    c ← take_context;
    mret (all_state, mkSP (set_context c (process p)) st (priority_counter p)));
  _ ← pop_cli;
  mret all_state.

Definition sleep_current_process (time : ClockTime) (all_state : InterruptAllSavedState) : ST World InterruptAllSavedState :=
  w ← get;
  _ ← lift (assert_that (negb (bool_decide (cpu_context w = None))));
  deadline ← lift (time_add (now w) time);
  stash_current (WaitingForTime deadline) all_state.

Definition yield_current_if_any (all_state : InterruptAllSavedState) : ST World InterruptAllSavedState :=
  w ← get;
  if bool_decide (cpu_context w = None) || scheduling w then mret all_state
  else
    _ ← push_cli;
    p ← take_current_process;
    all_state ← swap_cpu all_state;
    c ← take_context;
    _ ← with_lock (reschedule_process (mkSP (set_context c (process p)) (state p) (priority_counter p)));
    _ ← pop_cli;
    mret all_state.

Definition known (pid : Z) s : bool :=
  existsb (fun e => e.1 =? pid) (running_waiting_procs s) || existsb (fun p => sp_id p =? pid) (scheduled_processes s).
Definition is_process_running (pid : Z) : ST World bool := with_lock (w ← get; mret (known pid (sched w))).

Definition wait_for_pid (all_state : InterruptAllSavedState) (pid : Z) : ST World (bool * InterruptAllSavedState) :=
  w ← get;
  _ ← lift (assert_that (negb (bool_decide (cpu_context w = None))));
  process_found ← is_process_running pid;
  if negb process_found then mret (false, all_state)
  else all_state ← stash_current (WaitingForPid pid) all_state; mret (true, all_state).

(** [with_process] *)
Definition update_queued (pid : Z) (f : Process V N -> Process V N) (l : list SchedulerProcess) : list SchedulerProcess :=
  (fun p => if sp_id p =? pid then mkSP (f (process p)) (state p) (priority_counter p) else p) <$> l.
Definition with_process {A} (pid : Z) (f : Process V N -> A * Process V N) : ST World A :=
  with_lock (
    w ← get;
    match ZMap.get pid (running_waiting_procs (sched w)) with
    | Some p =>
        let '(a, pr) := f (process p) in
        _ ← on_sched (fun s => set_procs (ZMap.insert pid (mkSP pr (state p) (priority_counter p)) (running_waiting_procs s)) s);
        mret a
    | None =>
        p ← lift (unwrap (List.find (fun p => sp_id p =? pid) (scheduled_processes (sched w))));
        _ ← on_sched (fun s => set_queue (update_queued pid (fun pr => (f pr).2) (scheduled_processes s)) s);
        mret (f (process p)).1
    end).

Definition push_process pr : ST World unit := with_lock (push_process_sched pr).
Definition stop_scheduler : ST World unit := modify (set_shutdown true).

(** ** Interrupts *)
(** entering an interrupt turns interrupts off; returning loads the flags of
    the frame *)
Definition set_if (b : bool) : ST World unit :=
  modify (fun w => set_cli (Cpu.mkCpu (Cpu.n_cli (cli w)) (Cpu.old_interrupt_enable (cli w)) b) w).
Definition in_interrupt {A} (m : ST World (A * InterruptAllSavedState)) : ST World (A * InterruptAllSavedState) :=
  _ ← set_if false;
  '(a, all_state) ← m;
  _ ← set_if (Z.testbit (f_rflags (frame all_state)) 9);
  mret (a, all_state).

Definition scheduler_interrupt_handler (all_state : InterruptAllSavedState) : ST World InterruptAllSavedState :=
  _ ← lift (assert_that (Z.land (f_cs (frame all_state)) 3 =? 0));
  w ← get;
  _ ← lift (assert_that (negb (bool_decide (cpu_context w = None))));
  _ ← lift (assert_that (scheduling w));
  _ ← lift (assert_that (negb (Cpu.interrupts (cli w))));
  _ ← modify (set_cpu (cpu_context w) (process_id w) false);
  swap_cpu all_state.

(** the end of an iteration that runs a process: [int 0xff], and back in the
    kernel the switch to its address space *)
Definition switch_to_kernel : ST World unit := modify (set_active None).
End scheduler.
End Scheduler.
