(* ===== verification/SchedInv.v ===== *)
(** * The invariant of the scheduler

    Identifiers are never shared, a queue holds scheduled processes with
    their counters in range, a map holds the others under their own
    identifiers, and an exit is reported to a parent once.  The lemmas here
    are about the parts of [try_wake_waiting_processes] and about the
    operations on the lock; [SchedulerSpec] has the steps and the theorems. *)
From Stdlib Require Import Sorting.Sorted.
From S2P Require Import Prelude MemLayout UserLink FsTypes Locks Context Process Scheduler.
Import ProcessLink Context Clock Process Scheduler.

(** ** Ordered maps *)
Section zmap.
Context {A : Type}.
Implicit Types (m : list (Z * A)).

Definition sorted_keys m : Prop := StronglySorted Z.lt m.*1.

Lemma zmap_get_elem k v m : ZMap.get k m = Some v -> (k, v) ∈ m.
Proof.
  induction m as [|[k' v'] m IH]; simpl; [done|]. destruct (Z.eqb_spec k k') as [->|]; intros E.
  - injection E as ->. left.
  - right. auto.
Qed.

Lemma zmap_elem_get k v m : sorted_keys m -> (k, v) ∈ m -> ZMap.get k m = Some v.
Proof.
  intros Hs. induction m as [|[k' v'] m IH]; simpl; intros Hin; [by apply elem_of_nil in Hin|].
  inversion Hs as [|? ? Hs' Hf]; subst. apply elem_of_cons in Hin as [E|Hin].
  - injection E as -> ->. by rewrite Z.eqb_refl.
  - rewrite Forall_forall in Hf. assert (k' < k) by (apply Hf; apply list_elem_of_fmap; by exists (k, v)).
    destruct (Z.eqb_spec k k'); [lia|]. by apply IH.
Qed.

Lemma zmap_remove_fresh k m : k ∉ m.*1 -> ZMap.remove k m = m.
Proof.
  induction m as [|[k' v'] m IH]; [done|]. cbn [fmap list_fmap fst]. intros Hk.
  apply not_elem_of_cons in Hk as [Hk Hk']. unfold ZMap.remove in *. rewrite filter_cons_True by done. by rewrite IH.
Qed.

Lemma zmap_remove_cons k k' v m :
  ZMap.remove k ((k', v) :: m) = if k =? k' then ZMap.remove k m else (k', v) :: ZMap.remove k m.
Proof.
  unfold ZMap.remove. destruct (Z.eqb_spec k k') as [->|].
  - by rewrite filter_cons_False by naive_solver.
  - by rewrite filter_cons_True by (simpl; done).
Qed.

Lemma sorted_fresh k v m : sorted_keys ((k, v) :: m) -> k ∉ m.*1.
Proof.
  intros Hs Hk. inversion Hs as [|? ? _ Hf]; subst. rewrite Forall_forall in Hf. specialize (Hf k Hk). simpl in Hf. lia.
Qed.

Lemma zmap_get_perm k v m : sorted_keys m -> ZMap.get k m = Some v -> m ≡ₚ (k, v) :: ZMap.remove k m.
Proof.
  induction m as [|[k' v'] m IH]; intros Hs; simpl; [done|]. rewrite zmap_remove_cons.
  destruct (Z.eqb_spec k k') as [->|]; intros E.
  - injection E as ->. by rewrite zmap_remove_fresh by (by eapply sorted_fresh).
  - rewrite Permutation_swap. constructor. apply IH; [by inversion Hs|done].
Qed.

Lemma zmap_insert_elem k v m x : x ∈ (ZMap.insert k v m).*1 <-> x = k \/ x ∈ m.*1.
Proof.
  induction m as [|[k' v'] m IH]; simpl; [rewrite !elem_of_cons; naive_solver|].
  destruct (Z.ltb_spec k k'); [simpl; rewrite !elem_of_cons; naive_solver|].
  destruct (Z.eqb_spec k k') as [->|]; simpl; rewrite !elem_of_cons; [naive_solver|]. rewrite IH. naive_solver.
Qed.

Lemma zmap_insert_sorted k v m : sorted_keys m -> sorted_keys (ZMap.insert k v m).
Proof.
  unfold sorted_keys. induction m as [|[k' v'] m IH]; simpl; intros Hs; [by repeat constructor|].
  inversion Hs as [|? ? Hs' Hf]; subst. destruct (Z.ltb_spec k k'); [|destruct (Z.eqb_spec k k') as [->|]].
  - simpl. constructor; [done|]. constructor; [done|]. eapply Forall_impl; [exact Hf|]. simpl. intros. lia.
  - done.
  - simpl. constructor; [by apply IH|]. apply Forall_forall. intros x Hx. apply zmap_insert_elem in Hx as [->|Hx]; [lia|].
    rewrite Forall_forall in Hf. by apply Hf.
Qed.

Lemma zmap_insert_perm k v m : sorted_keys m -> ZMap.insert k v m ≡ₚ (k, v) :: ZMap.remove k m.
Proof.
  induction m as [|[k' v'] m IH]; intros Hs; [done|]. cbn [ZMap.insert].
  assert (Hr : ZMap.remove k m ≡ₚ ZMap.remove k m) by done.
  pose proof (sorted_fresh _ _ _ Hs) as Hf'. inversion Hs as [|? ? Hs' Hf]; subst. rewrite zmap_remove_cons.
  destruct (Z.ltb_spec k k').
  - destruct (Z.eqb_spec k k'); [lia|]. rewrite zmap_remove_fresh; [done|].
    intros Hx. rewrite Forall_forall in Hf. specialize (Hf k Hx). simpl in Hf. lia.
  - destruct (Z.eqb_spec k k') as [->|]; [by rewrite zmap_remove_fresh|]. rewrite Permutation_swap. constructor. by apply IH.
Qed.

Lemma zmap_remove_sorted k m : sorted_keys m -> sorted_keys (ZMap.remove k m).
Proof.
  unfold sorted_keys. induction m as [|[k' v'] m IH]; intros Hs; [done|]. inversion Hs as [|? ? Hs' Hf]; subst.
  rewrite zmap_remove_cons. destruct (Z.eqb_spec k k'); [by apply IH|]. simpl. constructor; [by apply IH|].
  apply Forall_forall. intros x Hx. rewrite Forall_forall in Hf. apply Hf.
  apply list_elem_of_fmap in Hx as (e & -> & He). apply list_elem_of_filter in He as [_ He]. apply list_elem_of_fmap. by exists e.
Qed.

Lemma sorted_sublist (l l' : list Z) : l `sublist_of` l' -> StronglySorted Z.lt l' -> StronglySorted Z.lt l.
Proof.
  induction 1 as [|x l l' Hl IH|x l l' Hl IH]; intros Hs; inversion Hs as [|? ? Hs' Hf]; subst; [done| |auto].
  constructor; [auto|]. apply Forall_forall. intros y Hy. rewrite Forall_forall in Hf. apply Hf. by eapply elem_of_sublist.
Qed.
End zmap.

(** ** Processes that exist, and exits already reported *)
Section pool.
Implicit Types (l : list (Z * gmap Z Z)).

(** the identifiers are distinct and were handed out, and the exits a process
    was told of belong to processes that are gone *)
Definition pool (pids : Z) l : Prop :=
  NoDup l.*1 /\ forall x, x ∈ l -> 0 <= x.1 < pids /\ forall k, is_Some (x.2 !! k) -> k < pids /\ k ∉ l.*1.

#[global] Instance pool_perm pids : Proper ((≡ₚ) ==> iff) (pool pids).
Proof.
  assert (forall l l', l ≡ₚ l' -> pool pids l -> pool pids l') as Hgo.
  { intros l l' Hl [Hn Hp]. split; [by rewrite <- Hl|]. intros x Hx. rewrite <- Hl in Hx. destruct (Hp x Hx) as [H1 H2].
    split; [done|]. intros k Hk. rewrite <- Hl. by apply H2. }
  intros l l' Hl. split; apply Hgo; [done|by symmetry].
Qed.

Lemma pool_sub pids l l' : l' ⊆+ l -> pool pids l -> pool pids l'.
Proof.
  intros Hs [Hn Hp]. assert (Hs1 : l'.*1 ⊆+ l.*1) by by apply fmap_submseteq.
  split.
  { apply submseteq_Permutation in Hs1 as [k Hk]. rewrite Hk in Hn. by apply NoDup_app in Hn as [? _]. }
  intros x Hx.
  destruct (Hp x) as [H1 H2]; [by eapply elem_of_submseteq|]. split; [done|]. intros k Hk. destruct (H2 k Hk) as [H3 H4].
  split; [done|]. intros Hin. apply H4. by eapply elem_of_submseteq.
Qed.

(** a child leaves, and its parent is told *)
Lemma pool_tell pids p ch e che (code : Z) l :
  pool pids ((p, ch) :: (e, che) :: l) -> ch !! e = None /\ pool pids ((p, <[e := code]> ch) :: l).
Proof.
  intros [Hn Hp]. cbn in Hn.
  assert (He : ch !! e = None).
  { destruct (ch !! e) eqn:E; [|done]. destruct (Hp (p, ch)) as [_ H2]; [by left|]. destruct (H2 e) as [_ H3]; [by exists z|].
    exfalso. apply H3. cbn. right. left. }
  split; [done|]. apply NoDup_cons in Hn as [Hn1 Hn]. apply NoDup_cons in Hn as [Hn2 Hn]. split.
  { cbn. apply NoDup_cons. split; [|done]. intros Hin. apply Hn1. by right. }
  intros x Hx. apply elem_of_cons in Hx as [->|Hx]; cbn.
  - destruct (Hp (p, ch)) as [H1 H2]; [by left|]. split; [done|]. intros k Hk. destruct (decide (k = e)) as [->|Hke].
    + destruct (Hp (e, che)) as [H3 _]; [right; by left|]. cbn in H3. split; [lia|].
      rewrite not_elem_of_cons. split; [|done]. intros ->. apply Hn1. by left.
    + rewrite lookup_insert_ne in Hk by done. destruct (H2 k Hk) as [H3 H4]. split; [done|]. cbn in H4.
      rewrite !not_elem_of_cons in H4. rewrite not_elem_of_cons. naive_solver.
  - destruct (Hp x) as [H1 H2]; [right; by right|]. split; [done|]. intros k Hk. destruct (H2 k Hk) as [H3 H4].
    split; [done|]. cbn in H4. rewrite !not_elem_of_cons in H4. rewrite not_elem_of_cons. naive_solver.
Qed.

Lemma pool_forget pids p ch k l : pool pids ((p, ch) :: l) -> pool pids ((p, delete k ch) :: l).
Proof.
  intros [Hn Hp]. split; [done|]. intros x Hx. apply elem_of_cons in Hx as [->|Hx].
  - destruct (Hp (p, ch)) as [H1 H2]; [by left|]. split; [done|]. cbn. intros k' Hk'. apply H2. cbn.
    destruct Hk' as [y Hy]. apply lookup_delete_Some in Hy as [_ Hy]. by exists y.
  - destruct (Hp x) as [H1 H2]; [by right|]. by split.
Qed.

Lemma pool_new pids l : 0 <= pids -> pool pids l -> pool (pids + 1) ((pids, ∅) :: l).
Proof.
  intros H0 [Hn Hp].
  assert (Hf : pids ∉ l.*1).
  { intros Hin. apply list_elem_of_fmap in Hin as (x & -> & Hx). destruct (Hp x Hx) as [H1 _]. lia. }
  split; [by apply NoDup_cons|]. intros x Hx. apply elem_of_cons in Hx as [->|Hx]; cbn.
  - split; [lia|]. intros k Hk. rewrite lookup_empty in Hk. by destruct Hk.
  - destruct (Hp x Hx) as [H1 H2]. split; [lia|]. intros k Hk. destruct (H2 k Hk) as [H3 H4]. split; [lia|].
    rewrite not_elem_of_cons. split; [lia|done].
Qed.
End pool.

(** ** The scheduler *)
Section invariant.
Context {V N : Type} `{BinaryHeap (@SchedulerProcess V N) priority_counter}.
Implicit Types (p : @SchedulerProcess V N) (pr : Process V N) (s : @Scheduler V N) (ex : list (Process V N)).
Implicit Types (m : list (Z * @SchedulerProcess V N)) (q : list (@SchedulerProcess V N)) (L : list (Z * gmap Z Z)).

Definition tag pr : Z * gmap Z Z := (id pr, children_exits pr).
Definition ptag p : Z * gmap Z Z := tag (process p).
Definition mtag (e : Z * @SchedulerProcess V N) : Z * gmap Z Z := ptag e.2.
Definition tags s : list (Z * gmap Z Z) :=
  (ptag <$> scheduled_processes s) ++ (mtag <$> running_waiting_procs s) ++ (tag <$> exited_processes s).

Definition counter_ok (c : Z) : Prop := 94 <= c <= U64_MAX.
Definition queued_ok p : Prop := state p = Scheduled /\ counter_ok (priority_counter p).
(** a process that waits for another one came from user mode *)
Definition held_ok (e : Z * @SchedulerProcess V N) : Prop :=
  e.1 = sp_id e.2 /\
  match state e.2 with
  | Scheduled => False
  | WaitingForPid _ => user_mode (context (process e.2)) = true
  | _ => True
  end.
Definition waiting (e : Z * @SchedulerProcess V N) : Prop := state e.2 <> Running.

Record sched_ok (pids : Z) s : Prop := {
  so_pool : pool pids (tags s);
  so_queue : Forall queued_ok (scheduled_processes s);
  so_held : Forall held_ok (running_waiting_procs s);
  so_sorted : sorted_keys (running_waiting_procs s);
  so_max : counter_ok (max_priority s)
}.

(** [pr'] is [pr], told of some exits *)
Definition told pr pr' : Prop := exists ch, pr' = set_children ch pr.
(** ... and woken with an exit code *)
Definition answered pr pr' : Prop := exists ch v, pr' = set_children ch (set_context (context_set_rax v (context pr)) pr).

Lemma told_refl pr : told pr pr.
Proof. exists (children_exits pr). by destruct pr. Qed.
Lemma told_trans pr pr' pr'' : told pr pr' -> told pr' pr'' -> told pr pr''.
Proof. intros [ch ->] [ch' ->]. by exists ch'. Qed.
Lemma told_id pr pr' : told pr pr' -> id pr' = id pr /\ context pr' = context pr /\ priority pr' = priority pr.
Proof. by intros [ch ->]. Qed.
Lemma answered_id pr pr' : answered pr pr' -> id pr' = id pr /\ priority pr' = priority pr.
Proof. by intros (ch & v & ->). Qed.
Lemma told_answered pr pr' pr'' : answered pr pr' -> told pr' pr'' -> answered pr pr''.
Proof. intros (ch & v & ->) [ch' ->]. by exists ch', v. Qed.
Lemma answered_told pr pr' pr'' : told pr pr' -> answered pr' pr'' -> answered pr pr''.
Proof. intros [ch' ->] (ch & v & ->). by exists ch, v. Qed.
Lemma answered_answered pr pr' pr'' : answered pr pr' -> answered pr' pr'' -> answered pr pr''.
Proof. intros (ch' & v' & ->) (ch & v & ->). by exists ch, v. Qed.

(** what the list of exited processes is to the process [pr] waiting in [st] *)
Lemma check_exited_spec pids st ex : forall pr r L,
  pool pids (tag pr :: (tag <$> ex) ++ L) ->
  (match st with WaitingForPid _ => user_mode (context pr) = true | _ => True end) ->
  exists r' pr' ex', check_exited None st pr r ex = Ret (r', pr', ex') /\
    pool pids (tag pr' :: (tag <$> ex') ++ L) /\ ex' `sublist_of` ex /\
    ((r' = r /\ told pr pr') \/ (r' = true /\ (exists pid, st = WaitingForPid pid) /\ answered pr pr')).
Proof.
  induction ex as [|e ex IH]; intros pr r L Hp Hst.
  { exists r, pr, []. split_and!; [done|done|done|left; split; [done|apply told_refl]]. }
  cbn [check_exited].
  (* the parent is told *)
  assert (exists pr1 L1, (if parent_id e =? id pr then add_child_exit (id e) (exit_code e) pr else Ret pr) = Ret pr1 /\
            told pr pr1 /\ pool pids (tag pr1 :: (tag <$> ex) ++ L1 ++ L) /\
            L1 = (if parent_id e =? id pr then [] else [tag e])) as (pr1 & L1 & E1 & Ht & Hp1 & HL1).
  { cbn [fmap list_fmap app] in Hp. destruct (parent_id e =? id pr).
    - destruct (pool_tell _ _ _ _ _ (exit_code e) _ Hp) as [Hnone Hp1]. unfold add_child_exit. rewrite Hnone. cbn.
      eexists _, []. split_and!; [done|by eexists|done|done].
    - exists pr, [tag e]. split_and!; [done|apply told_refl| |done].
      revert Hp. apply pool_perm. constructor. cbn. by rewrite Permutation_middle. }
  rewrite E1. cbn [mbind outcome_bind].
  (* a waiter is answered *)
  set (w := bool_decide (st = WaitingForPid (id e))).
  assert (exists pr2, (if w then _ ← assert_that (user_mode (context pr1));
                         Ret (true, set_context (context_set_rax (wrap 64 (exit_code e)) (context pr1)) pr1) else Ret (r, pr1))
            = Ret (if w then true else r, pr2) /\
            tag pr2 = tag pr1 /\ id pr2 = id pr1 /\ (if w then answered pr pr2 else told pr pr2) /\
            (match st with WaitingForPid _ => user_mode (context pr2) = true | _ => True end))
    as (pr2 & E2 & Htag & Hid2 & Hw & Hst2).
  { destruct (told_id _ _ Ht) as (Hid1 & Hc1 & _). destruct w eqn:Ew.
    - apply bool_decide_eq_true in Ew. subst st. rewrite Hc1, Hst. cbn. eexists. split_and!; [done|done|done| |done].
      eapply answered_told; [exact Ht|]. exists (children_exits pr1), (wrap 64 (exit_code e)). rewrite <- Hc1. by destruct pr1.
    - exists pr1. split_and!; [done|done|done|done|]. destruct st; try done. by rewrite Hc1. }
  rewrite E2. cbn [mbind outcome_bind].
  destruct (IH pr2 (if w then true else r) (L1 ++ L)) as (r' & pr' & ex' & E3 & Hp3 & Hsub & Hr); [by rewrite Htag|done|].
  assert ((if parent_id e =? id pr then unused None e else Ret tt) = Ret tt) as -> by (by destruct (parent_id e =? id pr)).
  cbn [mbind outcome_bind]. rewrite E3. cbn [mbind outcome_bind]. eexists _, _, _. split; [reflexivity|]. split; [|split].
  - revert Hp3. apply pool_perm. constructor. subst L1. destruct (parent_id e =? id pr); [done|].
    cbn. by rewrite Permutation_middle.
  - destruct (parent_id e =? id pr); [by apply sublist_cons|by apply sublist_skip].
  - destruct w eqn:Ew.
    + right. assert (exists pid, st = WaitingForPid pid) as Hpid by (eexists; by eapply bool_decide_eq_true).
      destruct Hr as [[-> Hr]|(-> & _ & Hr)]; split_and!; try done; [by eapply told_answered|by eapply answered_answered].
    + destruct Hr as [[-> Hr]|(-> & Hpid & Hr)]; [left; split; [done|by eapply told_trans]|right; split_and!; try done].
      by eapply answered_told.
Qed.

(** a process stays in the list until its parent is found *)
Lemma check_exited_keeps st ex : forall pr r r' pr' ex' e,
  check_exited None st pr r ex = Ret (r', pr', ex') -> e ∈ ex -> parent_id e <> id pr -> e ∈ ex'.
Proof.
  induction ex as [|x ex IH]; intros pr r r' pr' ex' e E Hin Hne; [by apply elem_of_nil in Hin|]. cbn [check_exited] in E.
  destruct (if parent_id x =? id pr then add_child_exit _ _ _ else _) as [pr1| |] eqn:E1; try done. cbn [mbind outcome_bind] in E.
  assert (Hid1 : id pr1 = id pr).
  { destruct (parent_id x =? id pr); [|congruence]. unfold add_child_exit in E1. destruct (children_exits pr !! id x); [done|].
    injection E1 as <-. done. }
  destruct (if bool_decide _ then _ else _) as [[r2 pr2]| |] eqn:E2; try done. cbn [mbind outcome_bind] in E.
  assert (Hid2 : id pr2 = id pr).
  { destruct (bool_decide _); [destruct (user_mode (context pr1)); [|done]|]; cbn in E2; injection E2 as <- <-; done. }
  destruct (if parent_id x =? id pr then unused None x else Ret tt) as [[]| |]; try done. cbn [mbind outcome_bind] in E.
  destruct (check_exited None st pr2 r2 ex) as [[[r3 pr3] ex3]| |] eqn:E3; try done. cbn in E. injection E as <- <- <-.
  apply elem_of_cons in Hin as [->|Hin].
  - destruct (Z.eqb_spec (parent_id x) (id pr)); [done|left].
  - assert (e ∈ ex3) by (eapply IH; [exact E3|done|congruence]). destruct (parent_id x =? id pr); [done|by right].
Qed.

(** the exit code of the process that is waited for ends up in [rax] *)
Lemma check_exited_rax st ex : forall pr r r' pr' ex',
  check_exited None st pr r ex = Ret (r', pr', ex') -> NoDup (id <$> ex) ->
  ((forall e, e ∈ ex -> st <> WaitingForPid (id e)) -> r' = r /\ context pr' = context pr) /\
  (forall e, e ∈ ex -> st = WaitingForPid (id e) -> r' = true /\ c_rax (context pr') = wrap 64 (exit_code e)).
Proof.
  induction ex as [|x ex IH]; intros pr r r' pr' ex' E Hn.
  { cbn in E. injection E as <- <- <-. split; [done|]. by intros e ?%elem_of_nil. }
  cbn [check_exited] in E. destruct (if parent_id x =? id pr then add_child_exit _ _ _ else _) as [pr1| |] eqn:E1; try done. cbn [mbind outcome_bind] in E.
  assert (Hc1 : context pr1 = context pr).
  { destruct (parent_id x =? id pr); [|congruence]. unfold add_child_exit in E1. destruct (children_exits pr !! id x); [done|].
    injection E1 as <-. done. }
  destruct (if bool_decide _ then _ else _) as [[r2 pr2]| |] eqn:E2; try done. cbn [mbind outcome_bind] in E.
  destruct (if parent_id x =? id pr then unused None x else Ret tt) as [[]| |]; try done. cbn [mbind outcome_bind] in E.
  destruct (check_exited None st pr2 r2 ex) as [[[r3 pr3] ex3]| |] eqn:E3; try done. cbn in E. injection E as <- <- <-.
  cbn in Hn. apply NoDup_cons in Hn as [Hx Hn]. destruct (IH _ _ _ _ _ E3 Hn) as [IH1 IH2].
  destruct (bool_decide_reflect (st = WaitingForPid (id x))) as [Hst|Hst].
  - destruct (user_mode (context pr1)); [|done]. cbn in E2. injection E2 as <- <-.
    destruct IH1 as [-> Hc3]. { intros e He Heq. apply Hx. apply list_elem_of_fmap. exists e. split; [congruence|done]. }
    split; [intros Hall; by destruct (Hall x); [left|]|].
    intros e He Heq. assert (e = x) as ->; [|by rewrite Hc3].
    apply elem_of_cons in He as [->|He]; [done|]. exfalso. apply Hx, list_elem_of_fmap. exists e. split; [congruence|done].
  - injection E2 as <- <-. split.
    + intros Hall. destruct IH1 as [-> ->]; [|done]. intros e He. apply Hall. by right.
    + intros e He Heq. apply elem_of_cons in He as [->|He]; [done|]. by apply IH2.
Qed.

(** the same entry, told of some exits *)
Definition told_sp p p' : Prop :=
  told (process p) (process p') /\ state p' = state p /\ priority_counter p' = priority_counter p.
Lemma told_sp_refl p : told_sp p p.
Proof. split; [apply told_refl|done]. Qed.
Lemma told_sp_id p p' : told_sp p p' -> sp_id p' = sp_id p.
Proof. intros [Ht _]. unfold sp_id. by destruct (told_id _ _ Ht). Qed.
Lemma told_list_refl q : Forall2 told_sp q q.
Proof. apply Forall_Forall2_diag, Forall_forall. intros. apply told_sp_refl. Qed.
#[local] Instance told_sp_transitive : Transitive told_sp.
Proof. intros p p' p'' (H1 & H2 & H3) (H4 & H5 & H6). split_and!; [by eapply told_trans|congruence|congruence]. Qed.

(** [p'] is the entry [e], taken out of the map to be scheduled again *)
Definition woken (e : Z * @SchedulerProcess V N) p' : Prop :=
  waiting e /\ (told (process e.2) (process p') \/ answered (process e.2) (process p')).

Lemma wake_one_spec pids t k p ex L :
  held_ok (k, p) -> pool pids (ptag p :: (tag <$> ex) ++ L) ->
  exists (r : bool) p' ex', wake_one None t p ex = Ret (r, p', ex') /\ pool pids (ptag p' :: (tag <$> ex') ++ L) /\
    ex' `sublist_of` ex /\ (if r then woken (k, p) p' else told_sp p p') /\
    (forall e, e ∈ ex -> parent_id e <> id (process p) -> e ∈ ex') /\
    (forall e, e ∈ ex -> state p = WaitingForPid (id e) -> r = true /\ c_rax (context (process p')) = wrap 64 (exit_code e)).
Proof.
  intros [Hk Hst] Hp. unfold wake_one. cbn [snd] in Hst. destruct p as [pr st c]. cbn in Hst, Hp |- *.
  assert (Hcheck : (match st with WaitingForPid _ => user_mode (context pr) = true | _ => True end) ->
    (match st with WaitingForTime _ => False | _ => True end) ->
    exists r p' ex', ('(remove, pr0, exited) ← check_exited None st pr false ex;
                      Ret (remove, mkSP pr0 st c, exited)) = Ret (r, p', ex') /\
      pool pids (ptag p' :: (tag <$> ex') ++ L) /\ ex' `sublist_of` ex /\ (if r : bool then woken (k, mkSP pr st c) p' else told_sp (mkSP pr st c) p') /\
      (forall e, e ∈ ex -> parent_id e <> id pr -> e ∈ ex') /\
      (forall e, e ∈ ex -> st = WaitingForPid (id e) -> r = true /\ c_rax (context (process p')) = wrap 64 (exit_code e))).
  { intros Hu Ht. destruct (check_exited_spec pids st ex pr false L Hp Hu) as (r & pr' & ex' & E & Hp' & Hsub & Hr).
    assert (Hn : NoDup (id <$> ex)).
    { destruct Hp as [Hn _]. cbn in Hn. apply NoDup_cons in Hn as [_ Hn]. rewrite fmap_app in Hn. apply NoDup_app in Hn as [Hn _].
      rewrite <- list_fmap_compose in Hn. exact Hn. }
    destruct (check_exited_rax _ _ _ _ _ _ _ E Hn) as [_ Hrax]. rewrite E.
    cbn. eexists _, _, _. split; [reflexivity|]. split_and!; [done|done| | |exact Hrax].
    - destruct Hr as [[-> Hr]|(-> & [pid ->] & Hr)]; [done|]. split; [done|]. by right.
    - intros e. by eapply check_exited_keeps. }
  destruct st; [by apply Hcheck|done|by apply Hcheck|].
  eexists _, _, _. split; [reflexivity|]. split_and!; [done|done| |done|done].
  destruct (time_le t0 t); [|apply told_sp_refl]. split; [done|]. left. apply told_refl.
Qed.

Lemma extract_if_spec pids t m : forall ex L,
  Forall held_ok m -> pool pids ((mtag <$> m) ++ (tag <$> ex) ++ L) ->
  exists out kept ex', extract_if None t m ex = Ret (out, kept, ex') /\
    pool pids ((ptag <$> out) ++ (mtag <$> kept) ++ (tag <$> ex') ++ L) /\
    ex' `sublist_of` ex /\ kept.*1 `sublist_of` m.*1 /\ (length out + length kept = length m)%nat /\
    (forall e', e' ∈ kept -> exists e, e ∈ m /\ e.1 = e'.1 /\ told_sp e.2 e'.2) /\
    (forall p', p' ∈ out -> exists e, e ∈ m /\ woken e p') /\
    (forall e w, e ∈ ex -> w ∈ m -> state w.2 = WaitingForPid (id e) -> parent_id e = sp_id w.2 ->
      exists p', p' ∈ out /\ sp_id p' = sp_id w.2 /\ c_rax (context (process p')) = wrap 64 (exit_code e)).
Proof.
  induction m as [|[k p] m IH]; intros ex L Hm Hp.
  { exists [], [], ex. split_and!; try done; [by intros ? ?%elem_of_nil..|]. by intros ? ? ? ?%elem_of_nil. }
  apply Forall_cons in Hm as [Hkp Hm]. cbn [extract_if].
  destruct (wake_one_spec pids t k p ex ((mtag <$> m) ++ L) Hkp) as (r & p' & ex1 & -> & Hp1 & Hsub1 & Hr & Hkeep & Hrax).
  { revert Hp. apply pool_perm. cbn. constructor. rewrite !app_assoc. by rewrite (Permutation_app_comm (tag <$> ex)). }
  cbn [mbind outcome_bind].
  destruct (IH ex1 (ptag p' :: L)) as (out & kept & ex2 & -> & Hp2 & Hsub2 & Hk2 & Hl2 & Hkept & Hout & Hdel); [done| |].
  { revert Hp1. apply pool_perm. rewrite !app_assoc. rewrite (Permutation_app_comm (mtag <$> m)).
    by rewrite Permutation_middle. }
  cbn [mbind outcome_bind]. exists (if r then p' :: out else out), (if r then kept else (k, p') :: kept), ex2.
  split; [by destruct r|]. split; [|split_and!].
  - revert Hp2. apply pool_perm. unfold mtag at 1. destruct r; cbn; solve_Permutation.
  - by etrans.
  - destruct r; cbn; [by apply sublist_cons|by apply sublist_skip].
  - destruct r; cbn; lia.
  - intros e' He'. destruct r; [|apply elem_of_cons in He' as [->|He']].
    + destruct (Hkept e' He') as (e & He & ?). exists e. split; [by right|done].
    + exists (k, p). split_and!; [by left|done|done].
    + destruct (Hkept e' He') as (e & He & ?). exists e. split; [by right|done].
  - intros x Hx. destruct r; [apply elem_of_cons in Hx as [->|Hx]|].
    + exists (k, p). split; [by left|done].
    + destruct (Hout x Hx) as (e & He & ?). exists e. split; [by right|done].
    + destruct (Hout x Hx) as (e & He & ?). exists e. split; [by right|done].
  - intros e w He Hw Hst Hpar. apply elem_of_cons in Hw as [->|Hw].
    + destruct (Hrax e He Hst) as [-> Hx]. exists p'. split_and!; [left| |done]. destruct Hr as (_ & [Ht|Ha]).
      * by destruct (told_id _ _ Ht).
      * by destruct (answered_id _ _ Ha).
    + destruct (Hdel e w) as (x & Hx & ? & ?); [|done|done|done|exists x; split; [destruct r; [by right|done]|done]].
      apply Hkeep; [done|]. rewrite Hpar. intros Heq. destruct Hp as [Hn _]. cbn in Hn. apply NoDup_cons in Hn as [Hn _]. apply Hn.
      rewrite fmap_app. apply elem_of_app. left. rewrite <- list_fmap_compose. apply list_elem_of_fmap. exists w. by split.
Qed.

Lemma tell_parents_none e q : parent_id e ∉ sp_id <$> q -> tell_parents e q = Ret q.
Proof.
  induction q as [|p q IH]; [done|]. cbn [fmap list_fmap]. rewrite not_elem_of_cons. intros [Hp Hq].
  cbn [tell_parents]. destruct (Z.eqb_spec (sp_id p) (parent_id e)); [congruence|]. cbn [mbind outcome_bind].
  rewrite IH by done. cbn. by destruct p.
Qed.

Lemma ids_of_tags q : (ptag <$> q).*1 = sp_id <$> q.
Proof. by rewrite <- list_fmap_compose. Qed.

Lemma tell_parents_spec pids e q : forall L,
  pool pids ((ptag <$> q) ++ tag e :: L) ->
  exists q', tell_parents e q = Ret q' /\ pool pids ((ptag <$> q') ++ L) /\ Forall2 told_sp q q'.
Proof.
  induction q as [|p q IH]; intros L Hp.
  { exists []. split_and!; [done| |done]. eapply pool_sub; [|exact Hp]. cbn. by apply submseteq_cons. }
  cbn [tell_parents]. destruct (Z.eqb_spec (sp_id p) (parent_id e)) as [Hid|Hid].
  - assert (Hp' : pool pids (ptag p :: tag e :: (ptag <$> q) ++ L)).
    { revert Hp. apply pool_perm. cbn. constructor. by rewrite Permutation_middle. }
    destruct (pool_tell _ _ _ _ _ (exit_code e) _ Hp') as [Hnone Hp1]. unfold add_child_exit. rewrite Hnone. cbn [assert_that mbind outcome_bind].
    rewrite tell_parents_none.
    + eexists. split; [reflexivity|]. split; [done|]. constructor; [|apply told_list_refl].
      split_and!; [by eexists|done|done].
    + rewrite <- Hid, <- ids_of_tags. destruct Hp' as [Hn _]. cbn in Hn. apply NoDup_cons in Hn as [Hn _].
      rewrite fmap_app in Hn. intros Hin. apply Hn. right. apply elem_of_app. by left.
  - cbn [mbind outcome_bind]. destruct (IH (ptag p :: L)) as (q' & -> & Hp' & Hq).
    { revert Hp. apply pool_perm. cbn. rewrite Permutation_swap. by rewrite <- !Permutation_middle. }
    cbn. eexists. split; [reflexivity|]. split.
    + revert Hp'. apply pool_perm. cbn. by rewrite Permutation_middle.
    + constructor; [|done]. destruct p. apply told_sp_refl.
Qed.

Lemma tell_all_spec pids ex : forall q L,
  pool pids ((ptag <$> q) ++ (tag <$> ex) ++ L) ->
  exists q', tell_all ex q = Ret q' /\ pool pids ((ptag <$> q') ++ L) /\ Forall2 told_sp q q'.
Proof.
  induction ex as [|e ex IH]; intros q L Hp.
  { exists q. split_and!; [done|done|apply told_list_refl]. }
  cbn [tell_all]. destruct (tell_parents_spec pids e q ((tag <$> ex) ++ L)) as (q1 & -> & Hp1 & Hq1); [done|].
  cbn. destruct (IH q1 L Hp1) as (q2 & -> & Hp2 & Hq2). exists q2. split_and!; [done|done|].
  by etrans.
Qed.

(** ** Interrupt nesting and the lock *)
Implicit Types (w : @World V N).
Definition cli_at (n : Z) w : Prop := Cpu.n_cli (cli w) = n /\ (0 < n -> Cpu.interrupts (cli w) = false).

Lemma wp_push_cli n w (Q : unit -> @World V N -> Prop) :
  cli_at n w -> 0 <= n < 100 ->
  (forall c, Cpu.n_cli c = n + 1 -> Cpu.interrupts c = false -> Q tt (set_cli c w)) -> wp False push_cli w Q.
Proof.
  intros [Hn Hi] Hb HQ. unfold push_cli, on_cli. wp_steps. unfold Cpu.push_cli. destruct (cli w) as [k o i] eqn:E. cbn in Hn, Hi |- *.
  destruct (Z.eqb_spec k 0) as [Hk|Hk]; cbn [Cpu.n_cli Cpu.interrupts Cpu.old_interrupt_enable].
  - eapply wp_lift_ret; [rewrite (proj2 (Z.ltb_lt k _)) by lia; cbn; reflexivity|]. wp_steps. by apply HQ; cbn; [lia|].
  - eapply wp_lift_ret; [rewrite (proj2 (Z.ltb_lt k _)) by lia; rewrite Hi by lia; cbn; reflexivity|]. wp_steps.
    apply HQ; cbn; [lia|apply Hi; lia].
Qed.

Lemma wp_pop_cli n w (Q : unit -> @World V N -> Prop) :
  cli_at n w -> 0 < n ->
  (forall c, Cpu.n_cli c = n - 1 -> (0 < n - 1 -> Cpu.interrupts c = false) -> Q tt (set_cli c w)) -> wp False pop_cli w Q.
Proof.
  intros [Hn Hi] Hb HQ. unfold pop_cli, on_cli. wp_steps. unfold Cpu.pop_cli. destruct (cli w) as [k o i] eqn:E. cbn in Hn, Hi |- *.
  eapply wp_lift_ret; [rewrite (proj2 (Z.ltb_lt 0 k)) by lia; rewrite Hi by lia; cbn; reflexivity|]. wp_steps.
  apply HQ; cbn; [lia|]. intros H1. destruct (Z.eqb_spec (k - 1) 0); [lia|apply Hi; lia].
Qed.

Lemma wp_lock n w (Q : unit -> @World V N -> Prop) :
  cli_at n w -> 0 <= n < 100 -> locked w = false ->
  (forall c, Cpu.n_cli c = n + 1 -> Cpu.interrupts c = false -> Q tt (set_locked true (set_cli c w))) -> wp False lock w Q.
Proof.
  intros Hn Hb Hl HQ. unfold lock. wp_step. eapply wp_push_cli; [exact Hn|done|]. intros c Hc Hi. wp_steps; [cbn; by rewrite Hl|by apply HQ].
Qed.

Lemma wp_unlock n w (Q : unit -> @World V N -> Prop) :
  cli_at n w -> 0 < n ->
  (forall c, Cpu.n_cli c = n - 1 -> (0 < n - 1 -> Cpu.interrupts c = false) -> Q tt (set_cli c (set_locked false w))) ->
  wp False unlock w Q.
Proof. intros Hn Hb HQ. unfold unlock. wp_steps. eapply wp_pop_cli; [exact Hn|done|]. done. Qed.

Lemma wp_with_lock {A} (body : ST (@World V N) A) n w (Q : A -> @World V N -> Prop) :
  cli_at n w -> 0 <= n < 100 -> locked w = false ->
  (forall c, Cpu.n_cli c = n + 1 -> Cpu.interrupts c = false ->
    wp False body (set_locked true (set_cli c w)) (fun a w' => exists n', cli_at n' w' /\ 0 < n' /\
      forall c', Cpu.n_cli c' = n' - 1 -> (0 < n' - 1 -> Cpu.interrupts c' = false) -> Q a (set_cli c' (set_locked false w')))) ->
  wp False (with_lock body) w Q.
Proof.
  intros Hn Hb Hl Hbody. unfold with_lock. wp_step. eapply wp_lock; [done..|]. intros c Hc Hi. wp_step.
  eapply wp_mono; [by apply Hbody|]. cbn. intros a w' (n' & Hn' & Hb' & HQ). wp_step. eapply wp_unlock; [done..|].
  intros c' Hc' Hi'. wp_steps. by apply HQ.
Qed.

(** ** Exits *)
Lemma wp_exit_process code pr w (Q : Process V N -> @World V N -> Prop) :
  id pr < 2 ^ 63 - 1 -> (forall o, Q (set_exit code pr) (set_vga o w)) -> wp False (exit_process code pr) w Q.
Proof.
  intros Hid HQ. unfold exit_process. wp_steps. destruct (vga_owner w) as [owner|] eqn:E.
  - wp_step. apply wp_assert; [by apply Z.ltb_lt|]. destruct (owner =? id pr); wp_steps; [apply HQ|].
    specialize (HQ (Some owner)). unfold set_vga in HQ. rewrite <- E in HQ. by destruct w.
  - wp_steps. specialize (HQ None). unfold set_vga in HQ. rewrite <- E in HQ. by destruct w.
Qed.

Lemma wp_drop_process pr w (Q : unit -> @World V N -> Prop) :
  active_vm w = None -> Q tt w -> wp False (drop_process pr) w Q.
Proof. intros Ha HQ. unfold drop_process, unused. wp_steps; [by rewrite Ha|done]. Qed.

Lemma wp_drop_all ex w (Q : unit -> @World V N -> Prop) :
  active_vm w = None -> Q tt w -> wp False (drop_all ex) w Q.
Proof.
  intros Ha HQ. induction ex as [|e ex IH]; cbn [drop_all]; wp_steps; [done|]. by apply wp_drop_process.
Qed.

Lemma wp_reschedule_all out : forall w (Q : unit -> @World V N -> Prop),
  shutdown w = false ->
  Q tt (set_sched (set_queue (scheduled_processes (sched w) ++
          ((fun p => mkSP (process p) Scheduled (max_priority (sched w))) <$> out)) (sched w)) w) ->
  wp False (reschedule_all out) w Q.
Proof.
  induction out as [|p out IH]; intros w Q Hs HQ; cbn [reschedule_all].
  - wp_steps. cbn in HQ. rewrite app_nil_r in HQ. by destruct w as [[] ? ? ? ? ? ? ? ? ? ?].
  - wp_step. unfold reschedule_process. wp_steps. rewrite Hs. unfold on_sched. wp_steps. apply IH; [done|].
    revert HQ. cbn. by rewrite <- app_assoc.
Qed.

(** what waking processes up does to the scheduler *)
Definition woke s s' : Prop :=
  max_priority s' = max_priority s /\ exited_processes s' = [] /\
  exists out, (length out + length (running_waiting_procs s') = length (running_waiting_procs s))%nat /\
    (forall p', p' ∈ out -> exists e, e ∈ running_waiting_procs s /\ woken e p') /\
    (forall e (w : Z * SchedulerProcess), e ∈ exited_processes s -> w ∈ running_waiting_procs s -> state w.2 = WaitingForPid (id e) -> parent_id e = sp_id w.2 ->
      exists p', p' ∈ out /\ sp_id p' = sp_id w.2 /\ c_rax (context (process p')) = wrap 64 (exit_code e)) /\
    (forall e', e' ∈ running_waiting_procs s' -> exists e, e ∈ running_waiting_procs s /\ e.1 = e'.1 /\ told_sp e.2 e'.2) /\
    Forall2 told_sp (scheduled_processes s ++ ((fun p => mkSP (process p) Scheduled (max_priority s)) <$> out)) (scheduled_processes s').

Lemma told_queued q q' : Forall2 told_sp q q' -> Forall queued_ok q -> Forall queued_ok q'.
Proof.
  induction 1 as [|p p' q q' (_ & Hs & Hc) Hq IH]; intros Hf; [done|]. apply Forall_cons in Hf as [[H1 H2] Hf].
  constructor; [|by apply IH]. split; congruence.
Qed.

Lemma wp_try_wake pids w (Q : unit -> @World V N -> Prop) :
  sched_ok pids (sched w) -> active_vm w = None ->
  shutdown w = false \/ running_waiting_procs (sched w) = [] ->
  (forall s', woke (sched w) s' -> sched_ok pids s' -> Q tt (set_sched s' w)) ->
  wp False try_wake_waiting_processes w Q.
Proof.
  intros [Hpool Hq Hm Hsorted Hmax] Ha Hshut HQ. set (s := sched w) in *. unfold try_wake_waiting_processes. wp_steps.
  destruct (extract_if_spec pids (now w) (running_waiting_procs s) (exited_processes s) (ptag <$> scheduled_processes s))
    as (out & kept & ex & Eex & Hp1 & Hsub & Hk & Hlen & Hkept & Hout & Hdel); [done| |].
  { revert Hpool. apply pool_perm. unfold tags. solve_Permutation. }
  eapply wp_lift_ret; [rewrite Ha; exact Eex|]. unfold on_sched. wp_steps. fold s.
  set (out' := (fun p => mkSP (process p) Scheduled (max_priority s)) <$> out).
  assert (Hresched : forall w1 Q1, w1 = set_sched (set_exited ex (set_procs kept s)) w ->
    Q1 tt (set_sched (set_queue (scheduled_processes s ++ out') (set_exited ex (set_procs kept s))) w) -> wp False (reschedule_all out) w1 Q1).
  { intros w1 Q1 -> HQ1. destruct Hshut as [Hs|Hs]; [by apply wp_reschedule_all|].
    assert (out = []) as ->. { destruct out; [done|]. rewrite Hs in Hlen. cbn in Hlen. lia. }
    cbn [reschedule_all]. wp_steps. revert HQ1. subst out'. cbn. rewrite app_nil_r. done. }
  apply Hresched; [done|]. clear Hresched. wp_steps. cbn [sched set_sched exited_processes set_queue set_exited set_procs scheduled_processes running_waiting_procs].
  destruct (tell_all_spec pids ex (scheduled_processes s ++ out') (mtag <$> kept)) as (q' & Eq & Hp2 & Hq').
  { revert Hp1. apply pool_perm. subst out'. rewrite fmap_app, <- list_fmap_compose.
    change ((ptag ∘ (fun p => mkSP (process p) Scheduled (max_priority s))) <$> out) with (ptag <$> out). solve_Permutation. }
  eapply wp_lift_ret; [exact Eq|]. wp_steps. apply wp_drop_all; [done|].
  apply HQ.
  - split_and!; [done|done|]. exists out. split_and!; [done|done|exact Hdel|done|done].
  - split; cbn.
    + unfold tags. cbn. by rewrite app_nil_r.
    + eapply told_queued; [exact Hq'|]. apply Forall_app. split; [done|]. subst out'. apply Forall_fmap, Forall_forall. by split.
    + apply Forall_forall. intros e' He'. destruct (Hkept e' He') as (e & He & Hke & Ht & Hst & _).
      rewrite Forall_forall in Hm. destruct (Hm e He) as [H1 H2]. destruct (told_id _ _ Ht) as (Hid & Hc & _).
      split; [unfold sp_id in *; congruence|]. by rewrite Hst, Hc.
    + by eapply sorted_sublist.
    + done.
Qed.
End invariant.
