(* ===== verification/SchedulerSpec.v ===== *)
(** * One iteration of the scheduler

    What the loop body of [schedule] does to the queue, the map and the CPU:
    force stopping, waking, resetting the counters and taking the process
    with the greatest counter.  No assertion on the way fails. *)
From Stdlib Require Import Sorting.Sorted.
From S2P Require Import Prelude MemLayout UserLink FsTypes Locks Context Process Scheduler SchedInv.

Import ProcessLink Context Clock Process Scheduler.

Section iteration.
Context {V N : Type} `{BinaryHeap (@SchedulerProcess V N) priority_counter}.
Implicit Types (p : @SchedulerProcess V N) (pr : Process V N) (s : @Scheduler V N) (w : @World V N).
Implicit Types (m : list (Z * @SchedulerProcess V N)) (q : list (@SchedulerProcess V N)).

(** the queue [schedule] takes the next process from *)
Definition refreshed s : Scheduler :=
  match heap_pop (scheduled_processes s) with
  | Some (top, _) => if priority_counter top <? MIN_PRIORITY_VALUE then reset_scheduled_processes_counters s else s
  | None => s
  end.

Definition decrement pr : Z := 6 - priority_to_u64 (priority pr).
Lemma decrement_bounds pr : 1 <= decrement pr <= 5.
Proof. unfold decrement. destruct (priority pr); cbn; lia. Qed.

(** the process [p] leaves the queue and runs *)
Definition picked s1 p s' : Prop :=
  exists rest, heap_pop (scheduled_processes (refreshed s1)) = Some (p, rest) /\
    let c := priority_counter p - decrement (process p) in
    s' = mkSched rest (ZMap.insert (sp_id p) (mkSP (process p) Running c) (running_waiting_procs s1)) (exited_processes s1) c.

Lemma pop_split q p rest : heap_pop q = Some (p, rest) -> q ≡ₚ p :: rest /\ forall y, y ∈ rest -> priority_counter y <= priority_counter p.
Proof. intros E. pose proof (heap_pop_max q) as Hmax. by rewrite E in Hmax. Qed.
Lemma pop_none q : heap_pop q = None -> q = [].
Proof. intros E. pose proof (heap_pop_max q) as Hmax. by rewrite E in Hmax. Qed.

Lemma refreshed_cases s :
  refreshed s = s \/
  (refreshed s = reset_scheduled_processes_counters s /\ Forall (fun p => priority_counter p < MIN_PRIORITY_VALUE) (scheduled_processes s)).
Proof.
  unfold refreshed. destruct (heap_pop _) as [[top rest]|] eqn:E; [|by left].
  destruct (Z.ltb_spec (priority_counter top) MIN_PRIORITY_VALUE); [|by left]. right. split; [done|].
  destruct (pop_split _ _ _ E) as [Hperm Hle]. rewrite Hperm. constructor; [done|]. apply Forall_forall. intros y Hy. specialize (Hle y Hy). lia.
Qed.

Lemma refreshed_tags s : tags (refreshed s) = tags s.
Proof.
  destruct (refreshed_cases s) as [->|[-> _]]; [done|]. unfold tags. cbn. rewrite <- list_fmap_compose. done.
Qed.
Lemma refreshed_ids s : sp_id <$> scheduled_processes (refreshed s) = sp_id <$> scheduled_processes s.
Proof. destruct (refreshed_cases s) as [->|[-> _]]; [done|]. cbn. by rewrite <- list_fmap_compose. Qed.
Lemma refreshed_rest s :
  running_waiting_procs (refreshed s) = running_waiting_procs s /\ exited_processes (refreshed s) = exited_processes s /\
  max_priority (refreshed s) = max_priority s.
Proof. by destruct (refreshed_cases s) as [->|[-> _]]. Qed.

Lemma refreshed_top s p rest :
  Forall queued_ok (scheduled_processes s) -> heap_pop (scheduled_processes (refreshed s)) = Some (p, rest) ->
  state p = Scheduled /\ MIN_PRIORITY_VALUE <= priority_counter p <= U64_MAX /\ Forall queued_ok rest.
Proof.
  intros Hq E. destruct (pop_split _ _ _ E) as [Hperm _].
  assert (Hok : Forall queued_ok (p :: rest)).
  { rewrite <- Hperm. destruct (refreshed_cases s) as [->|[-> _]]; [done|]. cbn. apply Forall_fmap. eapply Forall_impl; [exact Hq|].
    intros x [H1 H2]. split; [done|]. unfold counter_ok in *. cbn. unfold U64_MAX. lia. }
  apply Forall_cons in Hok as [[Hs Hc] Hrest]. split; [done|]. split; [|done]. split; [|apply Hc].
  unfold refreshed in E. destruct (heap_pop (scheduled_processes s)) as [[top rest']|] eqn:E'; [|congruence].
  destruct (Z.ltb_spec (priority_counter top) MIN_PRIORITY_VALUE); [|congruence].
  destruct (pop_split _ _ _ E) as [Hperm' _].
  assert (Hin : p ∈ scheduled_processes (reset_scheduled_processes_counters s)) by (rewrite Hperm'; left).
  cbn in Hin. apply list_elem_of_fmap in Hin as (x & -> & _). cbn. unfold MIN_PRIORITY_VALUE, U64_MAX. lia.
Qed.

(** the identifiers of the map are those of its processes *)
Lemma held_ids m : Forall held_ok m -> (mtag <$> m).*1 = m.*1.
Proof.
  induction 1 as [|[k p] m [Hk _] Hm IH]; [done|]. cbn in *. f_equal; [|done]. by rewrite Hk.
Qed.

Lemma queue_not_held pids s p : sched_ok pids s -> p ∈ scheduled_processes s -> sp_id p ∉ (running_waiting_procs s).*1.
Proof.
  intros Hok Hp. destruct (so_pool _ _ Hok) as [Hn _]. unfold tags in Hn. rewrite !fmap_app in Hn.
  apply NoDup_app in Hn as (_ & Hn & _). rewrite <- (held_ids _ (so_held _ _ Hok)). intros Hin.
  apply (Hn (sp_id p)); [rewrite ids_of_tags; apply list_elem_of_fmap; by exists p|]. apply elem_of_app. by left.
Qed.

Lemma picked_ok pids s1 p s' : sched_ok pids s1 -> picked s1 p s' ->
  sched_ok pids s' /\
  ZMap.get (sp_id p) (running_waiting_procs s') = Some (mkSP (process p) Running (max_priority s')) /\
  running_waiting_procs s' ≡ₚ (sp_id p, mkSP (process p) Running (max_priority s')) :: running_waiting_procs s1.
Proof.
  intros Hok (rest & E & ->). cbn. destruct (pop_split _ _ _ E) as [Hperm _].
  destruct (refreshed_top s1 p rest (so_queue _ _ Hok) E) as (Hs & Hc & Hrest).
  destruct (refreshed_rest s1) as (Hm & Hex & Hmx). set (c := priority_counter p - decrement (process p)).
  pose proof (decrement_bounds (process p)).
  assert (Hids : sp_id p ∈ sp_id <$> scheduled_processes s1).
  { rewrite <- refreshed_ids, Hperm. left. }
  assert (Hfresh : sp_id p ∉ (running_waiting_procs s1).*1).
  { apply list_elem_of_fmap in Hids as (x & -> & Hx). by eapply queue_not_held. }
  assert (Hins : ZMap.insert (sp_id p) (mkSP (process p) Running c) (running_waiting_procs s1) ≡ₚ
                 (sp_id p, mkSP (process p) Running c) :: running_waiting_procs s1).
  { rewrite zmap_insert_perm by apply Hok. by rewrite zmap_remove_fresh. }
  assert (Hsort : sorted_keys (ZMap.insert (sp_id p) (mkSP (process p) Running c) (running_waiting_procs s1))) by (apply zmap_insert_sorted, Hok).
  split_and!; [|by apply zmap_elem_get; [|rewrite Hins; left]|done].
  split; cbn.
  - generalize (so_pool _ _ Hok). rewrite <- refreshed_tags. apply pool_perm. unfold tags. cbn. rewrite Hm, Hex, Hperm, Hins. cbn. solve_Permutation.
  - done.
  - rewrite Hins. constructor; [done|apply Hok].
  - done.
  - unfold counter_ok. unfold MIN_PRIORITY_VALUE in Hc. lia.
Qed.

(** ** Force stopping *)
Definition below (pids : Z) pr : Prop := id pr < pids.

Lemma pool_below pids l pr : pool pids l -> tag pr ∈ l -> below pids pr.
Proof. intros [_ Hp] Hin. destruct (Hp _ Hin) as [Hr _]. unfold below. cbn in Hr. lia. Qed.

Lemma wp_stop_queue pids q : forall w (Q : unit -> @World V N -> Prop),
  Forall (fun p => below pids (process p)) q -> pids <= 2 ^ 63 - 1 -> active_vm w = None ->
  (forall o, Q tt (set_vga o w)) -> wp False (stop_queue q) w Q.
Proof.
  induction q as [|p q IH]; intros w Q Hb Hp Ha HQ; cbn [stop_queue].
  { wp_steps. specialize (HQ (vga_owner w)). by destruct w. }
  apply Forall_cons in Hb as [Hb1 Hb]. unfold below in Hb1. wp_step. apply wp_exit_process; [lia|]. intros o. wp_step.
  apply wp_drop_process; [done|]. apply IH; [done..|]. intros o'. apply (HQ o').
Qed.

Lemma wp_retain_running pids m : forall w (Q : list (Z * SchedulerProcess) -> @World V N -> Prop),
  Forall (fun e => below pids (process e.2)) m -> Forall waiting m -> pids <= 2 ^ 63 - 1 -> active_vm w = None ->
  (forall o, Q [] (set_vga o w)) -> wp False (retain_running m) w Q.
Proof.
  induction m as [|[k p] m IH]; intros w Q Hb Hw Hp Ha HQ; cbn [retain_running].
  { wp_steps. specialize (HQ (vga_owner w)). by destruct w. }
  apply Forall_cons in Hb as [Hb1 Hb]. apply Forall_cons in Hw as [Hw1 Hw]. unfold below in Hb1. unfold waiting in Hw1. cbn in Hb1, Hw1.
  destruct (state p) eqn:E; [done|..]; (wp_step; apply wp_exit_process; [lia|]; intros o; wp_step;
    apply wp_drop_process; [done|]; apply IH; [done..|]; intros o'; apply (HQ o')).
Qed.

Lemma tags_below pids s : pool pids (tags s) ->
  Forall (fun p => below pids (process p)) (scheduled_processes s) /\ Forall (fun e => below pids (process e.2)) (running_waiting_procs s).
Proof.
  intros Hp. split; apply Forall_forall; intros x Hx; eapply pool_below; try exact Hp; unfold tags; rewrite !elem_of_app.
  - left. apply list_elem_of_fmap. by exists x.
  - right. left. apply list_elem_of_fmap. by exists x.
Qed.

Definition emptied s : @Scheduler V N := mkSched [] [] (exited_processes s) (max_priority s).
Lemma wp_exit_idle pids w (Q : unit -> @World V N -> Prop) :
  pool pids (tags (sched w)) -> Forall waiting (running_waiting_procs (sched w)) -> pids <= 2 ^ 63 - 1 -> active_vm w = None ->
  (forall o, Q tt (set_sched (emptied (sched w)) (set_vga o w))) -> wp False exit_idle_processes w Q.
Proof.
  intros Hp Hw Hb Ha HQ. destruct (tags_below _ _ Hp) as [Hb1 Hb2]. unfold exit_idle_processes, on_sched. wp_steps.
  eapply wp_stop_queue; [exact Hb1|done|done|]. intros o. wp_step. eapply wp_retain_running; [exact Hb2|done|done|done|].
  intros o'. wp_steps. apply (HQ o').
Qed.

(** ** One iteration *)
Definition at_kernel w : Prop :=
  cpu_context w = None /\ active_vm w = None /\ locked w = false /\ cli_at 0 w /\ Forall waiting (running_waiting_procs (sched w)).

Definition iteration_post pids w (n : Next) w' : Prop :=
  locked w' = false /\ now w' = now w /\ shutdown w' = shutdown w /\
  match n with
  | Run => shutdown w = false /\
      exists s1 p, woke (sched w) s1 /\ sched_ok pids s1 /\ picked s1 p (sched w') /\
        cpu_context w' = Some (context (process p)) /\ process_id w' = sp_id p /\ scheduling w' = true /\ active_vm w' = Some (sp_id p) /\
        cli_at 0 w'
  | Halt => shutdown w = false /\ scheduled_processes (sched w') = [] /\ cli_at 1 w' /\
      exists s1, woke (sched w) s1 /\ scheduled_processes s1 = []
  | Break => shutdown w = true /\ scheduled_processes (sched w') = [] /\ running_waiting_procs (sched w') = [] /\ exited_processes (sched w') = []
  end.

Lemma wp_take_top p w (Q : unit -> @World V N -> Prop) :
  state p = Scheduled -> MIN_PRIORITY_VALUE <= priority_counter p ->
  (let c := priority_counter p - decrement (process p) in
   forall w', w' = set_sched (set_procs (ZMap.insert (sp_id p) (mkSP (process p) Running c) (running_waiting_procs (sched w))) (set_max c (sched w)))
               (set_cpu (Some (context (process p))) (sp_id p) true (set_active (Some (sp_id p)) w)) -> Q tt w') ->
  wp False (take_top false p) w Q.
Proof.
  intros Hs Hc HQ. unfold take_top, on_sched. pose proof (decrement_bounds (process p)) as Hd. unfold decrement in Hd.
  wp_step. apply wp_assert; [by apply bool_decide_eq_true|]. cbn zeta. wp_step.
  eapply wp_lift_ret; [unfold priority_decrement; apply csub_ret; lia|]. wp_step.
  eapply wp_lift_ret; [apply csub_ret; unfold MIN_PRIORITY_VALUE in Hc; lia|]. wp_steps. by apply HQ.
Qed.

Lemma wp_schedule_iteration pids w :
  sched_ok pids (sched w) -> at_kernel w -> pids <= 2 ^ 63 - 1 -> wp False schedule_iteration w (iteration_post pids w).
Proof.
  intros Hok (Hctx & Ha & Hl & Hcli & Hw) Hb. unfold schedule_iteration, on_sched. wp_step. wp_step. wp_step.
  apply wp_assert; [by rewrite Hctx|]. wp_step. eapply wp_lock; [exact Hcli|lia|done|]. intros c1 Hc1 Hi1. wp_step.
  (* stopping *)
  assert (exists s0 (w0 : @World V N) , sched_ok pids s0 /\ (if shutdown w then s0 = emptied (sched w) else s0 = sched w) /\
    wp False (if shutdown w then exit_idle_processes else mret tt) (set_locked true (set_cli c1 w))
      (fun _ w1 => exists o, w1 = set_sched s0 (set_vga o (set_locked true (set_cli c1 w))))) as (s0 & _ & Hok0 & Hs0 & Hstop).
  { destruct (shutdown w) eqn:Es.
    - exists (emptied (sched w)), w. split_and!; [|done|].
      + destruct Hok as [Hp Hq Hm Hsrt Hmx]. split; cbn; try done; [|by constructor]. eapply pool_sub; [|exact Hp]. unfold tags. cbn. solve_submseteq.
      + eapply wp_exit_idle; [apply Hok|done|exact Hb|done|]. intros o. by exists o.
    - exists (sched w), w. split_and!; [done|done|]. wp_steps. exists (vga_owner w). by destruct w. }
  eapply wp_mono; [exact Hstop|]. cbn beta. intros _ w1 (o & ->). wp_step. set (w1 := set_sched s0 _).
  eapply (wp_push_cli 1); [split; [cbn; lia|done]|lia|]. intros c2 Hc2 Hi2. wp_step.
  assert (Hwait0 : shutdown w = false \/ running_waiting_procs s0 = []).
  { destruct (shutdown w); [right; by rewrite Hs0|by left]. }
  eapply wp_try_wake; [exact Hok0|done|exact Hwait0|]. cbn [sched w1 set_sched set_cli].
  intros s1 Hwoke Hok1. wp_steps. cbn [sched set_sched set_cli].
  (* the counters *)
  assert (Hrefresh : forall w2 (Q2 : unit -> @World V N -> Prop), sched w2 = s1 -> Q2 tt (set_sched (refreshed s1) w2) ->
    wp False (match heap_pop (scheduled_processes s1) with
       | Some (top, _) => if priority_counter top <? MIN_PRIORITY_VALUE then modify (fun w => set_sched (reset_scheduled_processes_counters (sched w)) w) else mret tt
       | None => mret tt end) w2 Q2).
  { intros w2 Q2 E2 HQ2. assert (Hid : set_sched s1 w2 = w2) by (rewrite <- E2; by destruct w2). unfold refreshed in HQ2.
    destruct (heap_pop _) as [[top rest]|]; [destruct (priority_counter top <? MIN_PRIORITY_VALUE)|]; wp_steps; rewrite ?E2; try done; by rewrite Hid in HQ2. }
  apply Hrefresh; [done|]. clear Hrefresh. wp_steps. cbn [sched set_sched].
  destruct (heap_pop (scheduled_processes (refreshed s1))) as [[top rest]|] eqn:Epop.
  - (* a process to run *)
    assert (Hns : shutdown w = false).
    { destruct (shutdown w) eqn:Es; [|done]. exfalso. destruct Hwoke as (_ & _ & out & Hlen & _ & _ & _ & Hq2). subst s0. cbn in Hlen, Hq2.
      destruct out; [|cbn in Hlen; lia]. cbn in Hq2. assert (Hq1 : scheduled_processes s1 = []) by by inversion Hq2.
      pose proof (refreshed_ids s1) as Hids. rewrite Hq1 in Hids. destruct (pop_split _ _ _ Epop) as [Hperm _].
      apply fmap_nil_inv in Hids. rewrite Hids in Hperm. by apply Permutation_nil_cons in Hperm. }
    rewrite Hns in Hs0 |- *. destruct (refreshed_top s1 top rest (so_queue _ _ Hok1) Epop) as (Hst & Hcnt & _).
    wp_steps. apply wp_take_top; [done|apply Hcnt|]. cbn zeta. intros w3 ->.
    eapply (wp_pop_cli 2); [split; [cbn; lia|done]|lia|]. intros c3 Hc3 Hi3. wp_steps. cbn [andb sched].
    eapply (wp_unlock 1); [split; [cbn; lia|cbn; intros; apply Hi3; lia]|lia|]. intros c4 Hc4 Hi4. wp_steps. cbn.
    split_and!; try done. cbn. exists s1, top. subst s0. destruct (refreshed_rest s1) as (Hr1 & Hr2 & Hr3).
    split; [done|]. split; [done|]. split; [|by split_and!].
    exists rest. split; [done|]. cbn. by rewrite Hr1, <- Hr2.
  - (* nothing to run *)
    apply pop_none in Epop. wp_steps. destruct (refreshed_rest s1) as (Hr1 & Hr2 & Hr3).
    eapply (wp_unlock 2); [split; [cbn; lia|done]|lia|]. intros c4 Hc4 Hi4. wp_steps. cbn -[refreshed].
    rewrite Epop, Hctx, Hr1. cbn -[refreshed]. assert (Hwoke' := Hwoke). destruct Hwoke as (_ & Hex & out & Hlen & _).
    destruct (shutdown w) eqn:Es; cbn -[refreshed].
    + subst s0. cbn in Hlen. destruct (running_waiting_procs s1) eqn:Erw; [|cbn in Hlen; lia]. cbn -[refreshed].
      split_and!; try done; cbn -[refreshed]; congruence.
    + split_and!; try done. exists s1. subst s0. split; [done|]. pose proof (refreshed_ids s1) as Hids. rewrite Epop in Hids.
      symmetry in Hids. by apply fmap_nil_inv in Hids.
Qed.
End iteration.

(** * The scheduler at work

    The kernel as a transition system: iterations of [schedule], the
    scheduler interrupt, timer interrupts, the system calls that put the
    current process to sleep, to wait or to exit, spawning, and shutdown.  In
    every reachable state the scheduler panics on two requests of a process
    only, and on those always; a process that
    is preempted resumes with the registers it had; a scheduled process is
    chosen after a bounded number of choices; shutdown ends. *)
Import ProcessLink Context Clock Process Scheduler.

Section current.
Context {V N : Type} `{BinaryHeap (@SchedulerProcess V N) priority_counter}.
Implicit Types (p : @SchedulerProcess V N) (pr : Process V N) (s : @Scheduler V N) (w : @World V N).
Implicit Types (m : list (Z * @SchedulerProcess V N)) (q : list (@SchedulerProcess V N)) (st : InterruptAllSavedState).

(** [pid] is the one running process of the map *)
Definition runs s (pid : Z) p : Prop :=
  ZMap.get pid (running_waiting_procs s) = Some p /\ state p = Running /\
  forall e, e ∈ running_waiting_procs s -> state e.2 = Running -> e.1 = pid.

Section leaving.
Context (pids : Z) (s : @Scheduler V N) (pid : Z) (p : @SchedulerProcess V N) (Hok : sched_ok pids s) (Hruns : runs s pid p).

Lemma runs_perm : running_waiting_procs s ≡ₚ (pid, p) :: ZMap.remove pid (running_waiting_procs s).
Proof using Hok Hruns. apply zmap_get_perm; [apply Hok|apply Hruns]. Qed.

Lemma runs_tags : mtag <$> running_waiting_procs s ≡ₚ ptag p :: (mtag <$> ZMap.remove pid (running_waiting_procs s)).
Proof using Hok Hruns. etrans; [apply fmap_Permutation, runs_perm|done]. Qed.

Lemma runs_id : pid = sp_id p.
Proof using Hok Hruns.
  pose proof (so_held _ _ Hok) as Hm. rewrite Forall_forall in Hm. destruct (Hm (pid, p)) as [Hk _]; [|exact Hk].
  apply zmap_get_elem, Hruns.
Qed.

Lemma runs_below : id (process p) < pids.
Proof using Hok Hruns.
  destruct (tags_below _ _ (so_pool _ _ Hok)) as [_ Hb]. rewrite Forall_forall in Hb. exact (Hb _ (zmap_get_elem _ _ _ (proj1 Hruns))).
Qed.

Lemma rest_held : Forall held_ok (ZMap.remove pid (running_waiting_procs s)).
Proof using Hok Hruns. apply Forall_forall. intros e He. apply list_elem_of_filter in He as [_ He]. by eapply Forall_forall, He; apply Hok. Qed.

Lemma rest_waiting : Forall waiting (ZMap.remove pid (running_waiting_procs s)).
Proof using Hok Hruns.
  apply Forall_forall. intros e He Hr. apply list_elem_of_filter in He as [Hne He]. apply Hne. by apply Hruns.
Qed.

Lemma rest_fresh : pid ∉ (ZMap.remove pid (running_waiting_procs s)).*1.
Proof using. intros Hin. apply list_elem_of_fmap in Hin as (e & He & Hin). apply list_elem_of_filter in Hin as [Hne _]. congruence. Qed.

(** the running process goes back to the queue *)
Lemma requeued_ok pr' c : tag pr' = ptag p -> counter_ok c ->
  sched_ok pids (mkSched (scheduled_processes s ++ [mkSP pr' Scheduled c])
                   (ZMap.remove pid (running_waiting_procs s)) (exited_processes s) (max_priority s)).
Proof using Hok Hruns.
  intros Ht Hc. split; cbn.
  - generalize (so_pool _ _ Hok). apply pool_perm. unfold tags. cbn. rewrite runs_tags, fmap_app. cbn.
    change (ptag (mkSP pr' Scheduled c)) with (tag pr'). rewrite Ht. solve_Permutation.
  - apply Forall_app. split; [apply Hok|]. constructor; [by split|constructor].
  - apply rest_held.
  - by apply zmap_remove_sorted, Hok.
  - apply Hok.
Qed.

(** ... or exits *)
Lemma exited_ok pr' : tag pr' = ptag p ->
  sched_ok pids (mkSched (scheduled_processes s) (ZMap.remove pid (running_waiting_procs s)) (exited_processes s ++ [pr']) (max_priority s)).
Proof using Hok Hruns.
  intros Ht. split; cbn; [|apply Hok|apply rest_held|by apply zmap_remove_sorted, Hok|apply Hok].
  generalize (so_pool _ _ Hok). apply pool_perm. unfold tags. cbn. rewrite runs_tags, fmap_app. cbn.
  rewrite Ht. solve_Permutation.
Qed.

(** ... or stays in the map with another state *)
Lemma stashed_perm v : ZMap.insert pid v (running_waiting_procs s) ≡ₚ (pid, v) :: ZMap.remove pid (running_waiting_procs s).
Proof using Hok. apply zmap_insert_perm, Hok. Qed.

Lemma stashed_ok pr' x c : (forall L, pool pids (ptag p :: L) -> pool pids (tag pr' :: L)) -> held_ok (pid, mkSP pr' x c) ->
  sched_ok pids (set_procs (ZMap.insert pid (mkSP pr' x c) (running_waiting_procs s)) s).
Proof using Hok Hruns.
  intros Ht Hh. split; cbn; [|apply Hok| |by apply zmap_insert_sorted, Hok|apply Hok].
  - pose proof (so_pool _ _ Hok) as Hp. unfold tags in Hp |- *. cbn. rewrite runs_tags in Hp. rewrite stashed_perm. cbn in Hp |- *.
    rewrite <- Permutation_middle in Hp. rewrite <- Permutation_middle. by apply Ht.
  - rewrite stashed_perm. constructor; [done|apply rest_held].
Qed.

Lemma stashed_waiting pr' x c : x <> Running -> Forall waiting (ZMap.insert pid (mkSP pr' x c) (running_waiting_procs s)).
Proof using Hok Hruns. intros Hx. rewrite stashed_perm. constructor; [done|apply rest_waiting]. Qed.

Lemma stashed_runs pr' c : runs (set_procs (ZMap.insert pid (mkSP pr' Running c) (running_waiting_procs s)) s) pid (mkSP pr' Running c).
Proof using Hok Hruns.
  split_and!; [|done|].
  - apply zmap_elem_get; [by apply zmap_insert_sorted, Hok|]. cbn. rewrite stashed_perm. left.
  - cbn. intros e. rewrite stashed_perm. intros He Hr. apply elem_of_cons in He as [->|He]; [done|].
    pose proof rest_waiting as Hw. rewrite Forall_forall in Hw. by destruct (Hw e He).
Qed.
End leaving.

(** ** The operations on the current process *)
Definition in_user pids w p (k : ProcessContext) : Prop :=
  sched_ok pids (sched w) /\ runs (sched w) (process_id w) p /\ cpu_context w = Some k /\ locked w = false /\ cli_at 0 w.

(** what the interrupt returns to *)
Definition loaded (k : ProcessContext) st : InterruptAllSavedState := (swap_context k st []).1.2.

(** back in the kernel, with the scheduler [s'] *)
Definition back w k s' w' : Prop :=
  sched w' = s' /\ cpu_context w' = None /\ locked w' = false /\ cli_at 0 w' /\ shutdown w' = shutdown w /\ now w' = now w /\
  fpu w' = c_fxsave k /\ process_id w' = process_id w /\ active_vm w' = active_vm w.

Lemma wp_take_current n w p pids (Q : SchedulerProcess -> @World V N -> Prop) :
  sched_ok pids (sched w) -> runs (sched w) (process_id w) p -> locked w = false -> cli_at n w -> 0 <= n < 100 ->
  (forall c, Cpu.n_cli c = n -> (0 < n -> Cpu.interrupts c = false) ->
    Q p (set_cli c (set_sched (set_procs (ZMap.remove (process_id w) (running_waiting_procs (sched w))) (sched w)) w))) ->
  wp False take_current_process w Q.
Proof.
  intros Hok Hr Hl Hcli Hn HQ. unfold take_current_process, on_sched. destruct Hr as (Hget & Hst & _). wp_step. wp_step. wp_step.
  eapply wp_with_lock; [exact Hcli|done|done|]. intros c Hc Hi. wp_steps. cbn [sched set_locked set_cli]. rewrite Hget.
  eapply wp_lift_ret; [reflexivity|]. wp_steps. exists (n + 1). split; [split; [done|done]|]. split; [lia|].
  intros c' Hc' Hi'. wp_steps; [by rewrite Hst|].
  assert (HQ' := HQ c' ltac:(lia) ltac:(intros; apply Hi'; lia)). destruct w. cbn in Hl. subst. exact HQ'.
Qed.

Lemma wp_swap_cpu st w k (Q : InterruptAllSavedState -> @World V N -> Prop) :
  cpu_context w = Some k ->
  Q (loaded k st) (set_fpu (c_fxsave k) (set_cpu (Some (registers st (fpu w))) (process_id w) (scheduling w) w)) ->
  wp False (swap_cpu st) w Q.
Proof.
  intros Hk HQ. unfold swap_cpu. wp_step. wp_step. wp_step. eapply wp_lift_ret; [by rewrite Hk|]. cbn. wp_steps. exact HQ.
Qed.

(** swap with the CPU and take what was saved *)
Lemma wp_swap_take {A} st w k (f : InterruptAllSavedState -> ProcessContext -> ST (@World V N) A) (Q : A -> @World V N -> Prop) :
  cpu_context w = Some k ->
  wp False (f (loaded k st) (registers st (fpu w))) (set_fpu (c_fxsave k) (set_cpu None (process_id w) (scheduling w) w)) Q ->
  wp False (st' ← swap_cpu st; c ← take_context; f st' c) w Q.
Proof.
  intros Hk HQ. wp_step. eapply wp_swap_cpu; [exact Hk|]. unfold take_context.
  wp_steps. eapply wp_lift_ret; [reflexivity|]. wp_steps. exact HQ.
Qed.

Lemma wp_exit_current pids code st w p k :
  in_user pids w p k -> pids <= 2 ^ 63 - 1 ->
  wp False (exit_current_process code st) w (fun st' w' => st' = loaded k st /\
    back w k (mkSched (scheduled_processes (sched w)) (ZMap.remove (process_id w) (running_waiting_procs (sched w)))
                (exited_processes (sched w) ++ [set_exit code (set_context (registers st (fpu w)) (process p))]) (max_priority (sched w))) w').
Proof.
  intros (Hok & Hr & Hk & Hl & Hcli) Hb. unfold exit_current_process. wp_step. wp_step. wp_step. apply wp_assert; [by rewrite Hk|]. wp_step.
  eapply wp_push_cli; [exact Hcli|lia|]. intros c1 Hc1 Hi1. wp_step.
  eapply (wp_take_current 1); [exact Hok|exact Hr|done|split; [done|done]|lia|]. intros c2 Hc2 Hi2.
  eapply wp_swap_take; [exact Hk|]. wp_step. apply wp_exit_process.
  { pose proof (runs_below _ _ _ _ Hok Hr). cbn. lia. }
  intros o. wp_step. eapply (wp_with_lock _ 1); [split; [done|cbn; intros; apply Hi2; lia]|lia|done|]. intros c3 Hc3 Hi3.
  unfold on_sched. wp_steps. exists 2. split; [split; [cbn; lia|done]|]. split; [lia|]. intros c4 Hc4 Hi4.
  wp_step. eapply (wp_pop_cli 1); [split; [cbn; lia|cbn; intros; apply Hi4; lia]|lia|]. intros c5 Hc5 Hi5. wp_steps.
  split; [done|]. by split_and!.
Qed.

Lemma wp_yield pids st w p k :
  in_user pids w p k -> scheduling w = false -> pids <= 2 ^ 63 - 1 ->
  wp False (yield_current_if_any st) w (fun st' w' => st' = loaded k st /\
    let m := ZMap.remove (process_id w) (running_waiting_procs (sched w)) in
    let pr := set_context (registers st (fpu w)) (process p) in
    back w k (if shutdown w
              then mkSched (scheduled_processes (sched w)) m (exited_processes (sched w) ++ [set_exit 0xFF pr]) (max_priority (sched w))
              else mkSched (scheduled_processes (sched w) ++ [mkSP pr Scheduled (max_priority (sched w))]) m
                     (exited_processes (sched w)) (max_priority (sched w))) w').
Proof.
  intros (Hok & Hr & Hk & Hl & Hcli) Hs Hb. unfold yield_current_if_any. wp_step. wp_step. rewrite Hk, Hs. cbn [bool_decide orb]. 
  rewrite bool_decide_eq_false_2 by done. cbn [orb]. wp_step.
  eapply wp_push_cli; [exact Hcli|lia|]. intros c1 Hc1 Hi1. wp_step.
  eapply (wp_take_current 1); [exact Hok|exact Hr|done|split; [done|done]|lia|]. intros c2 Hc2 Hi2.
  eapply wp_swap_take; [exact Hk|]. wp_step.
  eapply (wp_with_lock _ 1); [split; [done|cbn; intros; apply Hi2; lia]|lia|done|]. intros c3 Hc3 Hi3.
  unfold reschedule_process, on_sched. wp_steps. cbn [shutdown set_locked set_cli set_fpu set_cpu set_sched]. destruct (shutdown w) eqn:Es.
  - wp_step. apply wp_exit_process.
    { pose proof (runs_below _ _ _ _ Hok Hr). cbn. lia. }
    intros o. wp_steps. exists 2. split; [split; [cbn; lia|done]|]. split; [lia|]. intros c4 Hc4 Hi4.
    wp_step. eapply (wp_pop_cli 1); [split; [cbn; lia|cbn; intros; apply Hi4; lia]|lia|]. intros c5 Hc5 Hi5. wp_steps.
    split; [done|]. by split_and!.
  - wp_steps. exists 2. split; [split; [cbn; lia|done]|]. split; [lia|]. intros c4 Hc4 Hi4.
    wp_step. eapply (wp_pop_cli 1); [split; [cbn; lia|cbn; intros; apply Hi4; lia]|lia|]. intros c5 Hc5 Hi5. wp_steps.
    split; [done|]. by split_and!.
Qed.

Lemma wp_with_current {A} pids (f : SchedulerProcess -> ST (@World V N) (A * SchedulerProcess)) n w p (Q : A -> @World V N -> Prop) :
  sched_ok pids (sched w) -> runs (sched w) (process_id w) p -> locked w = false -> cli_at n w -> 0 <= n < 99 ->
  (forall c, Cpu.n_cli c = n + 1 -> Cpu.interrupts c = false -> wp False (f p) (set_locked true (set_cli c w)) (fun r w' =>
    exists n', cli_at n' w' /\ 0 < n' /\
    forall c', Cpu.n_cli c' = n' - 1 -> (0 < n' - 1 -> Cpu.interrupts c' = false) ->
      Q r.1 (set_cli c' (set_locked false (set_sched (set_procs (ZMap.insert (process_id w') r.2 (running_waiting_procs (sched w'))) (sched w')) w'))))) ->
  wp False (with_current_process_and_state f) w Q.
Proof.
  intros Hok (Hget & Hst & _) Hl Hcli Hn Hf. unfold with_current_process_and_state.
  eapply wp_with_lock; [exact Hcli|lia|done|]. intros c Hc Hi. unfold get_current. wp_steps. cbn [sched set_locked set_cli process_id]. rewrite Hget.
  eapply wp_lift_ret; [reflexivity|]. wp_steps; [by rewrite Hst|]. eapply wp_mono; [by apply Hf|]. cbn beta.
  intros [a p'] w' (n' & Hn' & Hb' & HQ). unfold on_sched. wp_steps. by exists n'.
Qed.

Lemma wp_stash pids x st w p k :
  in_user pids w p k ->
  wp False (stash_current x st) w (fun st' w' => st' = loaded k st /\
    back w k (set_procs (ZMap.insert (process_id w) (mkSP (set_context (registers st (fpu w)) (process p)) x (priority_counter p))
                (running_waiting_procs (sched w))) (sched w)) w').
Proof.
  intros (Hok & Hr & Hk & Hl & Hcli). unfold stash_current. wp_step. eapply wp_with_current; [exact Hok|exact Hr|done|exact Hcli|lia|].
  intros c1 Hc1 Hi1. wp_step. eapply (wp_push_cli 1); [split; [done|done]|lia|]. intros c2 Hc2 Hi2.
  eapply wp_swap_take; [exact Hk|]. wp_steps. exists 2. split; [split; [cbn; lia|done]|]. split; [lia|]. intros c3 Hc3 Hi3.
  wp_step. eapply (wp_pop_cli 1); [split; [cbn; lia|cbn; intros; apply Hi3; lia]|lia|]. intros c4 Hc4 Hi4. wp_steps.
  split; [done|]. by split_and!.
Qed.
End current.

(** ** The kernel as a transition system *)
Module Kernel.
Section kernel.
Context {V N : Type} `{BinaryHeap (@SchedulerProcess V N) priority_counter}.
Implicit Types (p : @SchedulerProcess V N) (pr : Process V N) (s : @Scheduler V N) (w : @World V N) (st : InterruptAllSavedState).

(** where the CPU is: at the top of the loop of [schedule], before its
    [int 0xff], in a process (with the registers it was resumed with), in
    [hlt], or out of the loop *)
Inductive Mode : Type := InLoop | Chosen | InProcess (st : InterruptAllSavedState) | Halted | Stopped.

Record Conf : Type := mkConf { mode : Mode; pids : Z; world : @World V N }.

Inductive Event : Type :=
| Iterate
| Enter (st : InterruptAllSavedState)
| KernelTick (st : InterruptAllSavedState)
| Time (t : ClockTime)
| Yield (st : InterruptAllSavedState)
| Exit (code : Z) (st : InterruptAllSavedState)
| Sleep (t : ClockTime) (st : InterruptAllSavedState)
| Wait (pid : Z) (st : InterruptAllSavedState)
| Collect (pid : Z)
| SetPriority (pid : Z) (l : PriorityLevel)
| Spawn (pr : Process V N)
| Stop.

Definition from_user st : Prop := Z.land (f_cs (frame st)) 3 = 3 /\ in_word 8 (f_cs (frame st)) /\ in_word 8 (f_ss (frame st)).
Definition from_kernel st : Prop := Z.land (f_cs (frame st)) 3 = 0.

Definition mode_of (n : Next) : Mode := match n with Break => Stopped | Run => Chosen | Halt => Halted end.

(** an interrupt that ends in the kernel again, and the switch of [schedule]
    to the kernel's address space *)
Definition leave (op : InterruptAllSavedState -> ST (@World V N) InterruptAllSavedState) st : ST (@World V N) unit :=
  _ ← in_interrupt (st' ← op st; mret (tt, st')); switch_to_kernel.

(** a wait for a process that is not there returns to the caller *)
Definition wait_or_return (pid : Z) st : ST (@World V N) Mode :=
  '(found, st') ← in_interrupt (wait_for_pid st pid);
  if found : bool then _ ← switch_to_kernel; mret InLoop else mret (InProcess st').

Definition conf_of (n : Z) (o : outcome (Mode * @World V N)) : outcome Conf := '(md, w) ← o; Ret (mkConf md n w).
Definition to {A} (md : Mode) (m : ST (@World V N) A) : ST (@World V N) Mode := _ ← m; mret md.

Inductive step : Conf -> Event -> outcome Conf -> Prop :=
| step_iterate n w : step (mkConf InLoop n w) Iterate (conf_of n ((x ← schedule_iteration; mret (mode_of x)) w))
| step_enter n w st : from_kernel st ->
    step (mkConf Chosen n w) (Enter st)
      (conf_of n (('(_, st') ← in_interrupt (st' ← scheduler_interrupt_handler st; mret (tt, st')); mret (InProcess st')) w))
| step_kernel_tick md n w st : md = InLoop \/ md = Chosen -> from_kernel st ->
    step (mkConf md n w) (KernelTick st) (conf_of n (to md (in_interrupt (st' ← yield_current_if_any st; mret (tt, st'))) w))
| step_time md n w t : step (mkConf md n w) (Time t) (Ret (mkConf md n (set_now t w)))
| step_yield st0 n w st : from_user st -> step (mkConf (InProcess st0) n w) (Yield st) (conf_of n (to InLoop (leave yield_current_if_any st) w))
| step_exit st0 n w code st : from_user st ->
    step (mkConf (InProcess st0) n w) (Exit code st) (conf_of n (to InLoop (leave (exit_current_process code) st) w))
| step_sleep st0 n w t st : from_user st ->
    step (mkConf (InProcess st0) n w) (Sleep t st) (conf_of n (to InLoop (leave (sleep_current_process t) st) w))
| step_wait st0 n w pid st : from_user st ->
    step (mkConf (InProcess st0) n w) (Wait pid st) (conf_of n (wait_or_return pid st w))
| step_collect st0 n w pid :
    step (mkConf (InProcess st0) n w) (Collect pid)
      (conf_of n (to (InProcess st0) (with_current_process (fun pr => Ret (get_child_exit pid pr))) w))
| step_priority st0 n w pid l :
    step (mkConf (InProcess st0) n w) (SetPriority pid l)
      (conf_of n (to (InProcess st0) (with_process pid (fun pr => (priority pr, set_priority l pr))) w))
| step_spawn md n w pr : (md = InLoop \/ exists st0, md = InProcess st0) -> n < 2 ^ 63 - 1 -> id pr = n -> children_exits pr = ∅ ->
    step (mkConf md n w) (Spawn pr) (conf_of (n + 1) (to md (push_process pr) w))
| step_stop md n w : step (mkConf md n w) Stop (conf_of n (to md stop_scheduler w)).

(** the requests of a process that the scheduler answers by a panic: a sleep
    whose end does not fit the clock, and a priority for a process that does
    not exist *)
Definition fatal (c : Conf) (ev : Event) : Prop :=
  match ev with
  | Sleep t _ => time_overflows (now (world c)) t
  | SetPriority pid _ => pid ∉ (running_waiting_procs (sched (world c))).*1 /\ pid ∉ sp_id <$> scheduled_processes (sched (world c))
  | _ => False
  end.

(** ** The invariant *)
Definition conf_ok (c : Conf) : Prop :=
  let w := world c in
  match mode c with
  | InLoop => sched_ok (pids c) (sched w) /\ at_kernel w
  | Chosen => exists p, in_user (pids c) w p (context (process p)) /\ scheduling w = true
  | InProcess _ => exists p k, in_user (pids c) w p k /\ scheduling w = false
  | Halted => scheduled_processes (sched w) = [] /\ cli_at 1 w
  | Stopped => True
  end /\ 0 <= pids c <= 2 ^ 63 - 1.

(** an entry of the queue whose priority may have been changed *)
Definition same_sp p p' : Prop :=
  sp_id p' = sp_id p /\ context (process p') = context (process p) /\ state p' = state p /\ priority_counter p' = priority_counter p.
Lemma same_sp_refl p : same_sp p p.
Proof. by split_and!. Qed.
Lemma same_list_refl (q : list (@SchedulerProcess V N)) : Forall2 same_sp q q.
Proof. apply Forall_Forall2_diag, Forall_forall. intros. apply same_sp_refl. Qed.
Lemma told_same p p' : told_sp p p' -> same_sp p p'.
Proof. intros (Ht & Hs & Hc). destruct (told_id _ _ Ht) as (Hi & Hx & _). by split_and!. Qed.

(** nothing leaves the queue; what joins it has the counter of the last
    choice and left the map, except for [extra] new processes *)
Definition calm (extra : nat) s s' : Prop :=
  max_priority s' = max_priority s /\
  exists added, Forall2 same_sp (scheduled_processes s ++ added) (scheduled_processes s') /\
    Forall (fun p => priority_counter p = max_priority s) added /\
    (length added + length (running_waiting_procs s') <= length (running_waiting_procs s) + extra)%nat.

Lemma woke_calm s s' : woke s s' -> calm 0 s s'.
Proof.
  intros (Hm & _ & out & Hlen & _ & _ & _ & Hq). split; [done|]. exists ((fun p => mkSP (process p) Scheduled (max_priority s)) <$> out).
  split_and!; [|by apply Forall_fmap, Forall_forall|rewrite length_fmap; lia].
  eapply Forall2_impl; [exact Hq|]. apply told_same.
Qed.

Lemma calm_map s m' : (length m' <= length (running_waiting_procs s))%nat -> forall ex, calm 0 s (mkSched (scheduled_processes s) m' ex (max_priority s)).
Proof. intros Hl ex. split; [done|]. exists []. rewrite app_nil_r. split_and!; [apply same_list_refl|done|cbn; lia]. Qed.

Lemma calm_refl s : calm 0 s s.
Proof. destruct s as [q m ex mx]. by apply (calm_map (mkSched q m ex mx) m). Qed.

Definition effect (c : Conf) (ev : Event) (c' : Conf) : Prop :=
  let w := world c in let w' := world c' in
  (ev <> Stop -> shutdown w' = shutdown w) /\
  match ev with
  | Iterate =>
      match mode c' with
      | Chosen => exists s1 p, woke (sched w) s1 /\ sched_ok (pids c) s1 /\ picked s1 p (sched w') /\
          cpu_context w' = Some (context (process p)) /\ process_id w' = sp_id p
      | Halted => exists s1, woke (sched w) s1 /\ scheduled_processes s1 = []
      | _ => shutdown w = true
      end
  | Enter st =>
      sched w' = sched w /\ process_id w' = process_id w /\
      exists k, cpu_context w = Some k /\ mode c' = InProcess (loaded k st) /\ fpu w' = c_fxsave k
  | _ =>
      calm (match ev with Spawn _ => 1 | _ => 0 end) (sched w) (sched w') /\
      (mode c = Chosen -> mode c' = Chosen /\ cpu_context w' = cpu_context w /\ process_id w' = process_id w)
  end.

Lemma wp_in_interrupt {A} (op : ST (@World V N) (A * InterruptAllSavedState)) w (Q : A * InterruptAllSavedState -> @World V N -> Prop) :
  (forall c, Cpu.n_cli c = Cpu.n_cli (cli w) -> Cpu.interrupts c = false -> wp False op (set_cli c w) (fun r w' =>
    forall c', Cpu.n_cli c' = Cpu.n_cli (cli w') -> Q r (set_cli c' w'))) ->
  wp False (in_interrupt op) w Q.
Proof.
  intros Hop. unfold in_interrupt, set_if. wp_steps. eapply wp_mono; [apply Hop; done|]. cbn beta. intros [a st'] w' HQ. wp_steps. by apply HQ.
Qed.

Lemma in_user_cli n w p k c : in_user n w p k -> Cpu.n_cli c = Cpu.n_cli (cli w) -> in_user n (set_cli c w) p k.
Proof. intros (H1 & H2 & H3 & H4 & H5 & _) Hc. split; [done|]. split; [done|]. split_and!; try done. split; [cbn; lia|done]. Qed.

Lemma conf_of_total n (m : ST (@World V N) Mode) w (R : Conf -> Prop) :
  wp False m w (fun md w' => R (mkConf md n w')) -> exists c', conf_of n (m w) = Ret c' /\ R c'.
Proof.
  intros Hm. destruct (wp_total _ _ _ Hm) as (md & w' & -> & HR). by exists (mkConf md n w').
Qed.

(** leaving for the kernel with the scheduler [s'] *)
Lemma wp_leave op n st w p k s' :
  (forall c, Cpu.n_cli c = Cpu.n_cli (cli w) -> wp False (op st) (set_cli c w) (fun _ w' => back (set_cli c w) k s' w')) ->
  sched_ok n s' -> Forall waiting (running_waiting_procs s') -> in_user n w p k -> 0 <= n <= 2 ^ 63 - 1 ->
  wp False (to InLoop (leave op st)) w (fun md w' => md = InLoop /\ conf_ok (mkConf InLoop n w') /\ shutdown w' = shutdown w /\ sched w' = s').
Proof.
  intros Hop Hok Hw Hu Hn. unfold to, leave. wp_step. wp_step. apply wp_in_interrupt. intros c Hc Hi. wp_step. eapply wp_mono; [by apply Hop|].
  cbn beta. intros st' w' (Hs & Hctx & Hl & Hcli & Hsd & Hnow & Hf & Hp & Ha). wp_steps. intros c' Hc'. unfold switch_to_kernel. wp_steps.
  split_and!; [done| |done|done]. split; [|done]. cbn. split; [by rewrite Hs|]. unfold at_kernel. cbn. rewrite Hs. split_and!; try done.
  destruct Hcli as [H0 _]. split; [cbn; lia|done].
Qed.

(** ** Every event *)
Definition good c ev (o : outcome Conf) : Prop := exists c', o = Ret c' /\ conf_ok c' /\ effect c ev c'.

Lemma iterate_good n w : conf_ok (mkConf InLoop n w) ->
  good (mkConf InLoop n w) Iterate (conf_of n ((x ← schedule_iteration; mret (mode_of x)) w)).
Proof.
  intros [[Hok Hk] Hn]. cbn in Hok, Hk, Hn. apply conf_of_total. wp_step. eapply wp_mono; [apply (wp_schedule_iteration n); [done|done|lia]|].
  cbn beta. intros x w' (Hl & Hnow & Hsd' & Hx). wp_step. destruct x; cbn.
  - destruct Hx as (Hsd & Hq & Hm & He). split; [by split|]. by split.
  - destruct Hx as (Hsd & s1 & p & Hwoke & Hok1 & Hpick & Hctx & Hpid & Hsch & Hact & Hcli).
    destruct (picked_ok _ _ _ _ Hok1 Hpick) as (Hok' & Hget & Hperm). split.
    + split; [|done]. exists (mkSP (process p) Running (max_priority (sched w'))). split; [|exact Hsch]. split; [exact Hok'|]. split; [|split_and!; [exact Hctx|done|apply Hcli..]].
      cbn. rewrite Hpid. split_and!; [exact Hget|done|]. intros e He Hr. rewrite Hperm in He. apply elem_of_cons in He as [->|He]; [done|].
      destruct Hwoke as (_ & _ & out & _ & _ & _ & Hkept & _). destruct (Hkept e He) as (e0 & He0 & Hk0 & _ & Hst & _).
      destruct Hk as (_ & _ & _ & _ & Hw). rewrite Forall_forall in Hw. destruct (Hw e0 He0). congruence.
    + split; [done|]. exists s1, p. by split_and!.
  - destruct Hx as (Hsd & Hq & Hcli & s1 & Hwoke & Hq1). split; [by split|]. split; [done|]. by exists s1.
Qed.

Lemma enter_good n w st : from_kernel st -> conf_ok (mkConf Chosen n w) ->
  good (mkConf Chosen n w) (Enter st)
    (conf_of n (('(_, st') ← in_interrupt (st' ← scheduler_interrupt_handler st; mret (tt, st')); mret (InProcess st')) w)).
Proof.
  intros Hst [[p [Hu Hs]] Hn]. cbn in Hu, Hs, Hn. apply conf_of_total. wp_step. apply wp_in_interrupt. intros c Hc Hi. wp_step.
  destruct (in_user_cli _ _ _ _ c Hu Hc) as (Hok & Hr & Hk & Hl & Hcli).
  unfold scheduler_interrupt_handler. wp_step. apply wp_assert; [by apply Z.eqb_eq|]. wp_step. wp_step. wp_step.
  apply wp_assert; [by rewrite Hk|]. wp_step. apply wp_assert; [done|]. wp_step. apply wp_assert; [cbn; by rewrite Hi|].
  wp_steps. eapply wp_swap_cpu; [exact Hk|]. wp_steps. intros c' Hc'. wp_steps. destruct Hu as (_ & _ & Hk' & _). split.
  - split; [|done]. exists p. eexists. split; [|reflexivity]. split; [exact Hok|]. split; [exact Hr|].
    split; [reflexivity|]. split; [exact Hl|]. split; [|done]. destruct Hcli as [H0 _]. cbn in Hc', H0 |- *. lia.
  - split; [done|]. split; [done|]. split; [done|]. eexists. split; [exact Hk'|]. by split.
Qed.

Lemma kernel_tick_good md n w st : md = InLoop \/ md = Chosen -> conf_ok (mkConf md n w) ->
  good (mkConf md n w) (KernelTick st) (conf_of n (to md (in_interrupt (st' ← yield_current_if_any st; mret (tt, st'))) w)).
Proof.
  intros Hmd Hok. apply conf_of_total. unfold to. wp_step. apply wp_in_interrupt. intros c Hc Hi. wp_step.
  assert (bool_decide (cpu_context w = None) || scheduling w = true) as E.
  { destruct Hmd as [->| ->]; [destruct Hok as [(_ & Hctx & _) _]; cbn in Hctx; by rewrite Hctx|]. destruct Hok as [(p & _ & Hs) _]. cbn in Hs. rewrite Hs. apply orb_true_r. }
  unfold yield_current_if_any. wp_step. wp_step. cbn [cpu_context scheduling set_cli]. rewrite E. wp_steps. intros c' Hc'. wp_steps. cbn in Hc'.
  rewrite Hc in Hc'. split.
  - destruct Hmd as [->| ->]; destruct Hok as [Hok Hn]; split; try done.
    + destruct Hok as (Hok & H1 & H2 & H3 & (H4 & _) & H5). cbn in *. split; [done|]. unfold at_kernel. cbn. split_and!; try done. split; [cbn; lia|done].
    + destruct Hok as (p & Hu & Hs). exists p. split; [|done]. cbn. exact (in_user_cli _ _ _ _ c' Hu Hc').
  - split; [done|]. cbn. split; [apply calm_refl|done].
Qed.

(** the map after the running process left it *)
Lemma removed_length n s pid p : sched_ok n s -> runs s pid p ->
  length (running_waiting_procs s) = S (length (ZMap.remove pid (running_waiting_procs s))).
Proof. intros Hok Hr. pose proof (Permutation_length (runs_perm _ _ _ _ Hok Hr)) as E. by rewrite E. Qed.
Lemma stashed_length n s pid p v : sched_ok n s -> runs s pid p ->
  length (ZMap.insert pid v (running_waiting_procs s)) = length (running_waiting_procs s).
Proof.
  intros Hok Hr. rewrite (removed_length n s pid p Hok Hr). pose proof (Permutation_length (stashed_perm n s pid Hok v)) as E. by rewrite E.
Qed.

Lemma requeue_calm n s pid p pr' : sched_ok n s -> runs s pid p ->
  calm 0 s (mkSched (scheduled_processes s ++ [mkSP pr' Scheduled (max_priority s)]) (ZMap.remove pid (running_waiting_procs s))
              (exited_processes s) (max_priority s)).
Proof.
  intros Hok Hr. split; [done|]. exists [mkSP pr' Scheduled (max_priority s)].
  split_and!; [apply same_list_refl|by constructor|cbn; rewrite (removed_length n s pid p); [lia|done..]].
Qed.

Lemma leave_good n st0 w ev (m : ST (@World V N) Mode) s' :
  wp False m w (fun md w' => md = InLoop /\ conf_ok (mkConf InLoop n w') /\ shutdown w' = shutdown w /\ sched w' = s') ->
  (forall c', shutdown (world c') = shutdown w -> sched (world c') = s' -> effect (mkConf (InProcess st0) n w) ev c') ->
  good (mkConf (InProcess st0) n w) ev (conf_of n (m w)).
Proof.
  intros Hm He. apply conf_of_total. eapply wp_mono; [exact Hm|]. cbn beta. intros md w' (-> & Hok & Hs & Hsc). split; [done|]. by apply He.
Qed.

Lemma yield_good st0 n w st : conf_ok (mkConf (InProcess st0) n w) ->
  good (mkConf (InProcess st0) n w) (Yield st) (conf_of n (to InLoop (leave yield_current_if_any st) w)).
Proof.
  intros [(p & k & Hu & Hs) Hn]. cbn in Hu, Hs, Hn. assert (Hu' := Hu). destruct Hu' as (Hok & Hr & _).
  set (m := ZMap.remove (process_id w) (running_waiting_procs (sched w))). set (pr := set_context (registers st (fpu w)) (process p)).
  eapply leave_good; [eapply (wp_leave _ _ _ _ p k (if shutdown w
    then mkSched (scheduled_processes (sched w)) m (exited_processes (sched w) ++ [set_exit 0xFF pr]) (max_priority (sched w))
    else mkSched (scheduled_processes (sched w) ++ [mkSP pr Scheduled (max_priority (sched w))]) m
                     (exited_processes (sched w)) (max_priority (sched w))))|].
  - intros c Hc. eapply wp_mono; [eapply (wp_yield n); [by apply in_user_cli|done|lia]|]. cbn beta. intros st' w' [_ Hb]. exact Hb.
  - destruct (shutdown w); [by eapply exited_ok|eapply requeued_ok; try done; apply Hok].
  - pose proof (rest_waiting n _ _ _ Hok Hr). by destruct (shutdown w).
  - exact Hu.
  - exact Hn.
  - intros c' Hsd Hsc. split; [done|]. cbn. rewrite Hsc. split; [|done]. destruct (shutdown w).
    + apply calm_map. subst m. rewrite (removed_length n _ _ p Hok Hr). lia.
    + by eapply requeue_calm.
Qed.

Lemma exit_good st0 n w code st : conf_ok (mkConf (InProcess st0) n w) ->
  good (mkConf (InProcess st0) n w) (Exit code st) (conf_of n (to InLoop (leave (exit_current_process code) st) w)).
Proof.
  intros [(p & k & Hu & Hs) Hn]. cbn in Hu, Hs, Hn. assert (Hu' := Hu). destruct Hu' as (Hok & Hr & _).
  eapply leave_good; [eapply (wp_leave _ _ _ _ p k (mkSched (scheduled_processes (sched w))
    (ZMap.remove (process_id w) (running_waiting_procs (sched w)))
    (exited_processes (sched w) ++ [set_exit code (set_context (registers st (fpu w)) (process p))]) (max_priority (sched w))))|].
  - intros c Hc. eapply wp_mono; [eapply (wp_exit_current n); [by apply in_user_cli|lia]|]. cbn beta. intros st' w' [_ Hb]. exact Hb.
  - by eapply exited_ok.
  - by eapply rest_waiting.
  - exact Hu.
  - exact Hn.
  - intros c' Hsd Hsc. split; [done|]. cbn. rewrite Hsc. split; [|done]. apply calm_map. cbn.
    rewrite (removed_length n _ _ p Hok Hr). lia.
Qed.

Lemma stash_good st0 n w x st op ev : conf_ok (mkConf (InProcess st0) n w) -> x <> Running -> x <> Scheduled -> from_user st ->
  (forall c, op st (set_cli c w) = stash_current x st (set_cli c w)) ->
  (forall c', effect (mkConf (InProcess st0) n w) ev c' <->
     shutdown (world c') = shutdown w /\ calm 0 (sched w) (sched (world c'))) ->
  good (mkConf (InProcess st0) n w) ev (conf_of n (to InLoop (leave op st) w)).
Proof.
  intros [(p & k & Hu & Hs) Hn] Hx1 Hx2 Hst Hop Heff. cbn in Hu, Hs, Hn. assert (Hu' := Hu). destruct Hu' as (Hok & Hr & _).
  set (s' := set_procs (ZMap.insert (process_id w) (mkSP (set_context (registers st (fpu w)) (process p)) x (priority_counter p))
                (running_waiting_procs (sched w))) (sched w)).
  eapply leave_good; [eapply (wp_leave _ _ _ _ p k s')|].
  - intros c Hc. unfold wp. rewrite Hop. change (wp False (stash_current x st) (set_cli c w) (fun _ => back (set_cli c w) k s')).
    eapply wp_mono; [eapply (wp_stash n); by apply in_user_cli|]. cbn beta. intros st' w' [_ Hb]. exact Hb.
  - eapply stashed_ok; [done|done|done|]. split; [exact (runs_id _ _ _ _ Hok Hr)|]. cbn. destruct Hst as (Hcs & _). destruct x; try done.
    unfold user_mode. by apply Z.eqb_eq.
  - cbn. by eapply stashed_waiting.
  - exact Hu.
  - exact Hn.
  - intros c' Hsd Hsc. apply Heff. split; [done|]. rewrite Hsc. apply calm_map. by rewrite (stashed_length n _ _ p _ Hok Hr).
Qed.

Lemma sleep_good st0 n w t st d : from_user st -> time_add (now w) t = Ret d -> conf_ok (mkConf (InProcess st0) n w) ->
  good (mkConf (InProcess st0) n w) (Sleep t st) (conf_of n (to InLoop (leave (sleep_current_process t) st) w)).
Proof.
  intros Hst Hd Hok. apply (stash_good st0 n w (WaitingForTime d)); [done|done|done|done| |].
  - destruct Hok as [(p & k & (_ & _ & Hk & _) & _) _]. cbn in Hk. intros c. unfold sleep_current_process, mbind, ST_bind, get, lift. cbn.
    by rewrite Hk, Hd.
  - intros c'. unfold effect. cbn. split; [intros (H1 & H2 & _); split; [by apply H1|done]|intros [H1 H2]; by split_and!].
Qed.

Lemma wait_good st0 n w pid st : from_user st -> conf_ok (mkConf (InProcess st0) n w) ->
  good (mkConf (InProcess st0) n w) (Wait pid st) (conf_of n (wait_or_return pid st w)).
Proof.
  intros Hst Hok. assert (Hok0 := Hok). destruct Hok0 as [(p & k & Hu & Hs) Hn]. cbn in Hu, Hs, Hn. assert (Hu' := Hu).
  destruct Hu' as (Hsok & Hr & Hk & Hl & Hcli).
  set (s' := set_procs (ZMap.insert (process_id w) (mkSP (set_context (registers st (fpu w)) (process p)) (WaitingForPid pid) (priority_counter p))
                (running_waiting_procs (sched w))) (sched w)).
  apply conf_of_total. unfold wait_or_return. wp_step. apply wp_in_interrupt. intros c Hc Hi.
  assert (Hu' := in_user_cli _ _ _ _ c Hu Hc). unfold wait_for_pid. wp_step. wp_step. wp_step. apply wp_assert; [cbn; by rewrite Hk|].
  wp_step. unfold is_process_running. eapply (wp_with_lock _ 0); [apply Hu'|lia|done|]. intros c1 Hc1 Hi1. wp_steps. exists 1.
  split; [by split|]. split; [lia|]. intros c2 Hc2 Hi2. cbn [sched set_locked set_cli].
  assert (Hu2 : in_user n (set_cli c2 (set_locked false (set_locked true (set_cli c1 (set_cli c w))))) p k).
  { split; [done|]. split; [done|]. split; [done|]. split; [done|]. split; [done|done]. }
  destruct (known pid (sched w)); cbn [negb].
  - wp_step. eapply wp_mono; [eapply (wp_stash n); exact Hu2|]. cbn beta. intros st' w' [_ (Hsc & Hctx & Hl' & Hcli' & Hsd & _)].
    wp_steps. intros c3 Hc3. unfold switch_to_kernel. wp_steps. cbn in Hsc. split.
    + split; [|done]. cbn. rewrite Hsc. split.
      * eapply stashed_ok; [done|done|done|]. split; [exact (runs_id _ _ _ _ Hsok Hr)|]. cbn. destruct Hst as (Hcs & _).
        unfold user_mode. by apply Z.eqb_eq.
      * split; [done|]. split; [done|]. split; [done|]. split; [split; [destruct Hcli' as [H0 _]; cbn; lia|done]|]. cbn. rewrite Hsc. by eapply stashed_waiting.
    + split; [done|]. cbn. rewrite Hsc. split; [|done]. apply calm_map. by rewrite (stashed_length n _ _ p _ Hsok Hr).
  - wp_steps. intros c3 Hc3. wp_steps. split.
    + split; [|done]. exists p, k. split; [|done]. split; [done|]. split; [done|]. split; [done|]. split; [done|]. split; [cbn in *; lia|done].
    + split; [done|]. cbn. split; [apply calm_refl|done].
Qed.

Lemma collect_good st0 n w pid : conf_ok (mkConf (InProcess st0) n w) ->
  good (mkConf (InProcess st0) n w) (Collect pid)
    (conf_of n (to (InProcess st0) (with_current_process (fun pr => Ret (get_child_exit pid pr))) w)).
Proof.
  intros [(p & k & Hu & Hs) Hn]. cbn in Hu, Hs, Hn. destruct Hu as (Hok & Hr & Hk & Hl & Hcli).
  apply conf_of_total. unfold to. wp_step. unfold with_current_process. eapply (wp_with_current n _ 0); [done|exact Hr|done|done|lia|].
  intros c Hc Hi. wp_step. eapply wp_lift_ret; [reflexivity|]. cbn. wp_steps. exists 1. split; [by split|]. split; [lia|]. intros c1 Hc1 Hi1. wp_steps. cbn.
  set (pr' := set_children (delete pid (children_exits (process p))) (process p)).
  assert (Hst : state p = Running) by apply Hr. rewrite Hst.
  split.
  - split; [|done]. eexists _, k. split; [|done]. split; [|split].
    + cbn. eapply stashed_ok; [done|exact Hr| |]; [intros L; apply pool_forget|]. split; [exact (runs_id _ _ _ _ Hok Hr)|done].
    + cbn. eapply stashed_runs; [done|exact Hr].
    + split; [done|]. split; [done|]. by split.
  - split; [done|]. cbn. split; [|done]. apply calm_map. by rewrite (stashed_length n _ _ p _ Hok Hr).
Qed.

(** an entry of the map changes, but not its state *)
Lemma held_update n s pid p0 pr' :
  sched_ok n s -> ZMap.get pid (running_waiting_procs s) = Some p0 -> tag pr' = ptag p0 -> context pr' = context (process p0) ->
  let s' := set_procs (ZMap.insert pid (mkSP pr' (state p0) (priority_counter p0)) (running_waiting_procs s)) s in
  sched_ok n s' /\ calm 0 s s' /\ (forall cur pc, runs s cur pc -> exists pc', runs s' cur pc' /\ context (process pc') = context (process pc)).
Proof.
  intros Hok Hget Htag Hctx s'. pose proof (zmap_get_perm _ _ _ (so_sorted _ _ Hok) Hget) as Hp.
  pose proof (zmap_insert_perm pid (mkSP pr' (state p0) (priority_counter p0)) _ (so_sorted _ _ Hok)) as Hp'.
  set (rest := ZMap.remove pid (running_waiting_procs s)) in *. set (v := mkSP pr' _ _) in *.
  assert (Hheld0 : held_ok (pid, p0)) by (eapply Forall_forall; [apply (so_held _ _ Hok)|by apply zmap_get_elem]).
  assert (Hheld : held_ok (pid, v)).
  { destruct Hheld0 as [H1 H2]. cbn in H1, H2. split; [cbn; rewrite H1; by injection Htag|]. cbn. by rewrite Hctx. }
  assert (Hrest : Forall held_ok rest).
  { apply Forall_forall. intros e He. apply list_elem_of_filter in He as [_ He]. by eapply Forall_forall, He; apply Hok. }
  assert (Hsorted : sorted_keys (running_waiting_procs s')) by (cbn; apply zmap_insert_sorted, Hok). split_and!.
  - split; cbn; [|apply Hok|rewrite Hp'; by constructor|done|apply Hok].
    generalize (so_pool _ _ Hok). apply pool_perm. unfold tags. cbn. rewrite Hp'.
    assert (Hm : mtag <$> running_waiting_procs s ≡ₚ ptag p0 :: (mtag <$> rest)) by (etrans; [apply fmap_Permutation, Hp|done]).
    rewrite Hm. cbn. change (mtag (pid, v)) with (tag pr'). by rewrite Htag.
  - apply calm_map. rewrite (Permutation_length Hp), (Permutation_length Hp'). done.
  - intros cur pc (Hg & Hs & Hu).
    assert (Hu' : forall e, e ∈ running_waiting_procs s' -> state e.2 = Running -> e.1 = cur).
    { intros e He Hr. cbn in He. rewrite Hp' in He. apply elem_of_cons in He as [->|He].
      - apply (Hu (pid, p0)); [by apply zmap_get_elem|done].
      - apply Hu; [|done]. by apply list_elem_of_filter in He as [_ He]. }
    destruct (decide (cur = pid)) as [->|Hne].
    + rewrite Hget in Hg. injection Hg as ->. exists v. split; [|done]. split_and!; [|done|done].
      apply zmap_elem_get; [done|]. cbn. rewrite Hp'. left.
    + exists pc. split; [|done]. split_and!; [|done|done]. apply zmap_elem_get; [done|]. cbn. rewrite Hp'. right.
      apply list_elem_of_filter. split; [done|]. by apply zmap_get_elem.
Qed.

(** an entry of the queue changes its priority *)
Lemma queue_update n s pid l : sched_ok n s ->
  let s' := set_queue (update_queued pid (set_priority l) (scheduled_processes s)) s in sched_ok n s' /\ calm 0 s s'.
Proof.
  intros Hok s'.
  assert (Hsame : Forall2 same_sp (scheduled_processes s) (scheduled_processes s')).
  { cbn. unfold update_queued. apply Forall2_fmap_r, Forall_Forall2_diag, Forall_forall. intros p _.
    cbn. destruct (sp_id p =? pid); [by split_and!|apply same_sp_refl]. }
  split.
  - split; cbn; [| |apply Hok..].
    + generalize (so_pool _ _ Hok). apply pool_perm. unfold tags. cbn. f_equiv. unfold update_queued. rewrite <- list_fmap_compose.
      apply reflexive_eq, list_fmap_ext. intros i p _. cbn. by destruct (sp_id p =? pid).
    + apply Forall_fmap. eapply Forall_impl; [apply Hok|]. intros p Hp. cbn. by destruct (sp_id p =? pid).
  - split; [done|]. exists []. rewrite app_nil_r. split_and!; [done|done|cbn; lia].
Qed.

Lemma known_queued pid s : known pid s = true -> ZMap.get pid (running_waiting_procs s) = None ->
  exists p, List.find (fun p => sp_id p =? pid) (scheduled_processes s) = Some p.
Proof.
  unfold known. intros Hk Hnone. apply orb_true_iff in Hk as [Hk|Hk].
  - exfalso. revert Hk Hnone. induction (running_waiting_procs s) as [|[k v] m IH]; [done|]. cbn. rewrite (Z.eqb_sym pid k).
    destruct (k =? pid); [done|]. exact IH.
  - apply existsb_exists in Hk as (p & Hin & Hp). destruct (List.find _ _) eqn:E; [by eexists|].
    pose proof (List.find_none _ _ E p Hin) as Hf. cbn in Hf. congruence.
Qed.

Lemma priority_good st0 n w pid l : known pid (sched w) = true -> conf_ok (mkConf (InProcess st0) n w) ->
  good (mkConf (InProcess st0) n w) (SetPriority pid l)
    (conf_of n (to (InProcess st0) (with_process pid (fun pr => (priority pr, set_priority l pr))) w)).
Proof.
  intros Hknown [(p & k & Hu & Hs) Hn]. cbn in Hu, Hs, Hn. destruct Hu as (Hok & Hr & Hk & Hl & Hcli).
  apply conf_of_total. unfold to. wp_step. unfold with_process. eapply (wp_with_lock _ 0); [done|lia|done|]. intros c Hc Hi. wp_step. wp_step.
  cbn [sched set_locked set_cli]. destruct (ZMap.get pid (running_waiting_procs (sched w))) as [p0|] eqn:E; unfold on_sched.
  - wp_steps. exists 1. split; [by split|]. split; [lia|]. intros c1 Hc1 Hi1. wp_steps. cbn.
    destruct (held_update n (sched w) pid p0 (set_priority l (process p0))) as (Hok' & Hcalm & Hruns); [done..|].
    destruct (Hruns _ _ Hr) as (p' & Hr' & _). split; [|by split_and!]. split; [|done]. exists p', k. by split_and!.
  - destruct (known_queued _ _ Hknown E) as [p0 E0]. wp_step. rewrite E0. eapply wp_lift_ret; [reflexivity|]. wp_steps.
    exists 1. split; [by split|]. split; [lia|]. intros c1 Hc1 Hi1. wp_steps. cbn.
    destruct (queue_update n (sched w) pid l Hok) as [Hok' Hcalm]. split; [|by split_and!]. split; [|done]. exists p, k. by split_and!.
Qed.

Lemma spawn_good md n w pr : (md = InLoop \/ exists st0, md = InProcess st0) -> n < 2 ^ 63 - 1 -> id pr = n -> children_exits pr = ∅ ->
  conf_ok (mkConf md n w) -> good (mkConf md n w) (Spawn pr) (conf_of (n + 1) (to md (push_process pr) w)).
Proof.
  intros Hmd Hlt Hid Hch Hok.
  assert (sched_ok n (sched w) /\ locked w = false /\ cli_at 0 w /\ 0 <= n) as (Hsok & Hl & Hcli & Hn).
  { destruct Hok as [Hok Hn]. cbn in Hn. destruct Hmd as [->|[st0 ->]]; [destruct Hok as (? & ? & ? & ? & ? & ?)|destruct Hok as (? & ? & (? & ? & ? & ? & ?) & ?)];
      split_and!; try done; lia. }
  assert (Hnew : forall s', tags s' ≡ₚ tag pr :: tags (sched w) -> Forall queued_ok (scheduled_processes s') ->
            running_waiting_procs s' = running_waiting_procs (sched w) -> max_priority s' = max_priority (sched w) -> sched_ok (n + 1) s').
  { intros s' Ht Hq Hm Hmx. split; [|done|rewrite Hm; apply Hsok|rewrite Hm; apply Hsok|rewrite Hmx; apply Hsok].
    rewrite Ht. unfold tag. rewrite Hid, Hch. apply pool_new; [lia|apply Hsok]. }
  assert (Hconf : forall w' s', sched w' = s' -> sched_ok (n + 1) s' -> running_waiting_procs s' = running_waiting_procs (sched w) ->
            locked w' = false -> cli_at 0 w' -> cpu_context w' = cpu_context w -> active_vm w' = active_vm w -> process_id w' = process_id w ->
            scheduling w' = scheduling w -> conf_ok (mkConf md (n + 1) w')).
  { intros w' s' Hs' Hok' Hm Hl' Hcli' Hctx Hact Hpid Hsch. destruct Hok as [Hok Hb]. cbn in Hb. split; [|cbn; lia]. destruct Hmd as [->|[st0 ->]]; cbn.
    - rewrite Hs'. split; [done|]. destruct Hok as (_ & H1 & H2 & _ & _ & H5). unfold at_kernel. rewrite Hs', Hm, Hctx, Hact. by split_and!.
    - destruct Hok as (p & k & (_ & Hr & Hk & _) & Hs). cbn in Hs, Hk, Hr. exists p, k. split; [|congruence]. unfold in_user. rewrite Hs', Hctx, Hpid.
      split; [done|]. split; [|done]. unfold runs. by rewrite Hm. }
  apply conf_of_total. unfold to. wp_step. unfold push_process. eapply (wp_with_lock _ 0); [done|lia|done|]. intros c Hc Hi.
  unfold push_process_sched, reschedule_process, on_sched. wp_steps. cbn [shutdown set_locked set_cli]. destruct (shutdown w) eqn:Es.
  - wp_step. apply wp_exit_process; [cbn; lia|]. intros o. wp_steps. exists 1. split; [by split|]. split; [lia|]. intros c1 Hc1 Hi1. wp_steps.
    split; [eapply Hconf; try done|]; cbn.
    + apply Hnew; try done; [|apply Hsok]. unfold tags. cbn. rewrite fmap_app. cbn. change (tag (set_exit 255 pr)) with (tag pr). solve_Permutation.
    + split; [done|]. cbn. split; [|by destruct Hmd as [->|[? ->]]]. split; [done|]. exists []. rewrite app_nil_r. split_and!; [apply same_list_refl|done|cbn; lia].
  - wp_steps. exists 1. split; [by split|]. split; [lia|]. intros c1 Hc1 Hi1. wp_steps.
    split; [eapply Hconf; try done|]; cbn.
    + apply Hnew; try done; [|apply Forall_app; split; [apply Hsok|constructor; [split; [done|apply Hsok]|constructor]]].
      unfold tags. cbn. rewrite fmap_app. cbn. change (ptag (mkSP pr Scheduled (max_priority (sched w)))) with (tag pr). solve_Permutation.
    + split; [done|]. cbn. split; [|by destruct Hmd as [->|[? ->]]]. split; [done|]. exists [mkSP pr Scheduled (max_priority (sched w))].
      split_and!; [apply same_list_refl|by constructor|cbn; lia].
Qed.

Lemma known_in pid s : known pid s = true <-> pid ∈ (running_waiting_procs s).*1 \/ pid ∈ sp_id <$> scheduled_processes s.
Proof.
  unfold known. rewrite orb_true_iff, !existsb_exists, !list_elem_of_fmap. setoid_rewrite list_elem_of_In. setoid_rewrite Z.eqb_eq.
  split; (intros [(x & H1 & H2)|(x & H1 & H2)]; [left|right]; exists x; by split).
Qed.

Lemma sleep_fatal st0 n w t st : time_add (now w) t = Panic -> conf_ok (mkConf (InProcess st0) n w) ->
  conf_of n (to InLoop (leave (sleep_current_process t) st) w) = Panic.
Proof.
  intros Ht [(p & k & (_ & _ & Hk & _) & _) _]. cbn in Hk.
  unfold to, leave, in_interrupt, sleep_current_process, set_if, mbind, ST_bind, get, lift. cbn. by rewrite Hk, Ht.
Qed.

Lemma priority_fatal st0 n w pid l : known pid (sched w) = false -> conf_ok (mkConf (InProcess st0) n w) ->
  conf_of n (to (InProcess st0) (with_process pid (fun pr => (priority pr, set_priority l pr))) w) = Panic.
Proof.
  intros Hk [(p & k & (_ & _ & _ & Hl & Hcli) & _) _]. cbn in Hl, Hcli. unfold known in Hk. apply orb_false_iff in Hk as [Hm Hq].
  assert (Hget : ZMap.get pid (running_waiting_procs (sched w)) = None).
  { revert Hm. induction (running_waiting_procs (sched w)) as [|[i v] m IH]; [done|]. cbn. rewrite (Z.eqb_sym pid i). by destruct (i =? pid). }
  assert (Hfind : List.find (fun p => sp_id p =? pid) (scheduled_processes (sched w)) = None).
  { revert Hq. clear. induction (scheduled_processes (sched w)) as [|x q IH]; [done|]. cbn. by destruct (sp_id x =? pid). }
  assert (wp False lock w (fun _ w' => sched w' = sched w)) as Hlock by (by eapply wp_lock; [exact Hcli|lia|exact Hl|]).
  destruct (wp_total _ _ _ Hlock) as ([] & w' & E & Hs).
  unfold to, with_process, with_lock, mbind, ST_bind, get, lift. rewrite E. cbv beta iota. rewrite Hs, Hget, Hfind. done.
Qed.

(** every event: it is fatal and panics, or it is not and does its work *)
Lemma step_cases c ev o : conf_ok c -> step c ev o -> (fatal c ev /\ o = Panic) \/ (~ fatal c ev /\ good c ev o).
Proof.
  intros Hok Hs. destruct Hs.
  7: { destruct (time_add_cases (now w) t) as [[Ht Hp]|[Ht [d Hd]]]; [left; split; [done|by eapply sleep_fatal]|right; split; [done|by eapply sleep_good]]. }
  9: { destruct (known pid (sched w)) eqn:Ek; [right|left].
       - split; [|by apply priority_good]. apply known_in in Ek. intros [H1 H2]. by destruct Ek.
       - split; [|by eapply priority_fatal]. cbn. split; intros Hin; (assert (known pid (sched w) = true) by (apply known_in; by (left + right)); congruence). }
  all: right; split; [by intros []|].
  - by apply iterate_good.
  - by apply enter_good.
  - by apply kernel_tick_good.
  - eexists. split; [reflexivity|]. split; [|split; [done|]; split; [apply calm_refl|done]]. exact Hok.
  - by apply yield_good.
  - by apply exit_good.
  - by apply wait_good.
  - by apply collect_good.
  - by apply spawn_good.
  - eexists. split; [reflexivity|]. split; [|split; [done|]; split; [apply calm_refl|done]]. exact Hok.
Qed.

Lemma step_good c ev c' : conf_ok c -> step c ev (Ret c') -> good c ev (Ret c').
Proof. intros Hok Hs. by destruct (step_cases _ _ _ Hok Hs) as [[_ ?]|[_ ?]]. Qed.

(** ** Runs *)
Inductive reach : Conf -> list Event -> Conf -> Prop :=
| reach_nil c : reach c [] c
| reach_cons c ev c' evs c'' : step c ev (Ret c') -> reach c' evs c'' -> reach c (ev :: evs) c''.

Lemma reach_ok c evs c' : conf_ok c -> reach c evs c' -> conf_ok c'.
Proof.
  intros Hok Hr. induction Hr as [|c ev c1 evs c2 Hs Hr IH]; [done|]. apply IH.
  destruct (step_good _ _ _ Hok Hs) as (c1' & E & Hok' & _). congruence.
Qed.
End kernel.
End Kernel.
