(* ===== verification/SchedLive.v ===== *)
(** * What the scheduler promises

    The theorems over runs of [SchedulerSpec]: safety, exact resumption of a
    preempted process, a bound on how long a scheduled process waits, and the
    end of a shutdown. *)
From Stdlib Require Import Sorting.Sorted.
From S2P Require Import Prelude MemLayout UserLink FsTypes Locks Context Process Scheduler SchedInv SchedulerSpec.
Import ProcessLink Context Clock Process Scheduler Kernel.

Section runs.
Context {V N : Type} `{BinaryHeap (@SchedulerProcess V N) priority_counter}.
Implicit Types (p : @SchedulerProcess V N) (s : @Scheduler V N) (w : @World V N) (st : InterruptAllSavedState).
Implicit Types (q : list (@SchedulerProcess V N)) (c : @Conf V N) (evs : list (@Event V N)).

(** the state [schedule] is called in *)
Definition booted c : Prop :=
  mode c = InLoop /\ 0 <= pids c <= 2 ^ 63 - 1 /\ sched (world c) = new /\ cpu_context (world c) = None /\ active_vm (world c) = None /\
  locked (world c) = false /\ Cpu.n_cli (cli (world c)) = 0.

Lemma booted_ok c : booted c -> conf_ok c.
Proof.
  destruct c as [md n w]. intros (Hm & Hn & Hs & Hc & Ha & Hl & Hcli). cbn in Hm, Hn, Hs, Hc, Ha, Hl, Hcli. subst md. split; [|done]. cbn. rewrite Hs. split.
  - split; cbn; try done; [|by constructor]. unfold tags. cbn. split; [constructor|]. by intros x Hx%elem_of_nil.
  - unfold at_kernel. rewrite Hs. split_and!; done.
Qed.

Definition identifiers s : list Z :=
  (sp_id <$> scheduled_processes s) ++ (running_waiting_procs s).*1 ++ (id <$> exited_processes s).

Lemma tags_ids n s : sched_ok n s -> (tags s).*1 = identifiers s.
Proof.
  intros Hok. unfold tags, identifiers. rewrite !fmap_app, ids_of_tags, (held_ids _ (so_held _ _ Hok)), <- list_fmap_compose. done.
Qed.

Definition running s : list Z := fst <$> base.filter (fun e : Z * @SchedulerProcess V N => state e.2 = Running) (running_waiting_procs s).

Lemma running_waiting s : Forall waiting (running_waiting_procs s) -> running s = [].
Proof.
  unfold running. induction 1 as [|e m He Hm IH]; [done|]. rewrite filter_cons_False by done. done.
Qed.

Lemma running_current n s pid p : sched_ok n s -> runs s pid p -> running s = [pid].
Proof.
  intros Hok Hr. unfold running.
  assert (Hp : base.filter (fun e : Z * SchedulerProcess => state e.2 = Running) (running_waiting_procs s) ≡ₚ [(pid, p)]).
  { rewrite (runs_perm _ _ _ _ Hok Hr). rewrite filter_cons_True by apply Hr.
    pose proof (rest_waiting _ _ _ _ Hok Hr) as Hw. f_equiv. revert Hw. generalize (ZMap.remove pid (running_waiting_procs s)).
    induction 1 as [|e m He Hm IH]; [done|]. rewrite filter_cons_False by done. done. }
  apply Permutation_singleton_r in Hp. by rewrite Hp.
Qed.

(** C7: In every run of the kernel, from boot on, through any interleaving of
    timer interrupts, exits, sleeps, waits, spawns and priority changes, with
    any registers, the next event panics if and only if it is one of two
    requests of a process: a sleep whose end does not fit the clock, or a
    priority for a process that does not exist.  On every other event no
    assertion of the scheduler, of the locks, of the interrupt nesting or of
    the dropped processes fails and no subtraction of a priority counter
    underflows.  No two processes share an identifier, and a process is
    marked running exactly while the CPU runs it. *)
Theorem scheduler_panics_iff_fatal c0 evs c ev o :
  booted c0 -> reach c0 evs c -> step c ev o ->
  (fatal c ev -> o = Panic) /\ (~ fatal c ev -> exists c', o = Ret c') /\
  match mode c with
  | InLoop => NoDup (identifiers (sched (world c))) /\ running (sched (world c)) = []
  | Chosen | InProcess _ =>
      NoDup (identifiers (sched (world c))) /\ running (sched (world c)) = [process_id (world c)]
  | Halted | Stopped => True
  end.
Proof.
  intros Hb Hr Hs. pose proof (reach_ok _ _ _ (booted_ok _ Hb) Hr) as Hok. split; [|split].
  { intros Hf. by destruct (step_cases _ _ _ Hok Hs) as [[_ ?]|[? _]]. }
  { intros Hf. destruct (step_cases _ _ _ Hok Hs) as [[? _]|[_ (c' & -> & _)]]; [done|by exists c']. }
  destruct c as [md n w]. destruct Hok as [Hok _]. cbn in Hok |- *. destruct md as [| |st| |]; try done.
  - destruct Hok as (Hok & _ & _ & _ & _ & Hw). split; [|by apply running_waiting]. rewrite <- (tags_ids n _ Hok). apply Hok.
  - destruct Hok as (p & (Hok & Hrun & _) & _). split; [|by eapply running_current]. rewrite <- (tags_ids n _ Hok). apply Hok.
  - destruct Hok as (p & k & (Hok & Hrun & _) & _). split; [|by eapply running_current]. rewrite <- (tags_ids n _ Hok). apply Hok.
Qed.

(** ** What happens to a process in the queue *)
(** [f] of the entry of [t] in the queue is [v] *)
Definition queued (t : Z) (P : @SchedulerProcess V N -> Prop) s : Prop :=
  exists p, p ∈ scheduled_processes s /\ sp_id p = t /\ P p.

Lemma same_elem q q' p : Forall2 same_sp q q' -> p ∈ q -> exists p', p' ∈ q' /\ same_sp p p'.
Proof.
  induction 1 as [|x y q q' Hxy Hq IH]; [by intros ?%elem_of_nil|]. intros [->|Hin]%elem_of_cons.
  - exists y. split; [left|done].
  - destruct (IH Hin) as (p' & Hp' & ?). exists p'. split; [by right|done].
Qed.

Lemma calm_queued extra t s s' (P : @SchedulerProcess V N -> Prop) : (forall p p', same_sp p p' -> P p -> P p') ->
  calm extra s s' -> queued t P s -> queued t P s'.
Proof.
  intros HP (_ & added & Hq & _) (p & Hin & Hid & Hp). destruct (same_elem _ _ p Hq) as (p' & Hin' & Hs); [apply elem_of_app; by left|].
  exists p'. split_and!; [done| |by eapply HP]. destruct Hs as (-> & _). done.
Qed.

(** the entry of [t] in the queue that [schedule] chooses from *)
Lemma refreshed_queued t s (P : @SchedulerProcess V N -> Prop) : queued t P s ->
  queued t (fun p => exists p0, P p0 /\ process p = process p0 /\ state p = state p0) (refreshed s).
Proof.
  intros (p & Hin & Hid & Hp). destruct (refreshed_cases s) as [->|[-> _]].
  - exists p. split_and!; [done|done|]. by exists p.
  - exists (mkSP (process p) (state p) U64_MAX). split_and!; [|done|by exists p]. cbn. apply list_elem_of_fmap. by exists p.
Qed.

(** ** Resumption *)
Definition saved (t : Z) (ctx : ProcessContext) c : Prop :=
  shutdown (world c) = false /\
  (queued t (fun p => context (process p) = ctx) (sched (world c)) \/
   (mode c = Chosen /\ process_id (world c) = t /\ cpu_context (world c) = Some ctx)).

Definition entered (t : Z) c : Prop := exists st, mode c = InProcess st /\ process_id (world c) = t.

(** a process that is in the queue after waking stays there or is chosen *)
Lemma iterate_saved t (P : ProcessContext -> Prop) c c' : conf_ok c -> step c Iterate (Ret c') -> shutdown (world c) = false ->
  (forall s1, woke (sched (world c)) s1 -> queued t (fun p => P (context (process p))) s1) ->
  exists ctx, P ctx /\ saved t ctx c'.
Proof.
  intros Hok Hs Hsd Hwq. destruct (step_good _ _ _ Hok Hs) as (c1 & E & _ & Hsd' & Heff). injection E as <-.
  destruct (mode c') eqn:Emd; try congruence.
  - destruct Heff as (s1 & p & Hw & Hok1 & Hpick & Hctx & Hpid). destruct Hpick as (rest & Hpop & Hs').
    specialize (Hwq s1 Hw). apply refreshed_queued in Hwq as (x & Hin & Hid & x0 & Hx0 & Hpx & _).
    exists (context (process x)). rewrite Hpx. split; [done|]. split; [by rewrite Hsd'|].
    destruct (pop_split _ _ _ Hpop) as [Hperm _]. rewrite Hperm in Hin. apply elem_of_cons in Hin as [->|Hin].
    + right. split; [done|]. split; [congruence|]. by rewrite Hctx, Hpx.
    + left. exists x. rewrite Hs'. split_and!; [done|done|]. by rewrite Hpx.
  - destruct Heff as (s1 & Hw & Hq1). exfalso. destruct (Hwq s1 Hw) as (p & Hin & _). rewrite Hq1 in Hin. by apply elem_of_nil in Hin.
Qed.

Lemma step_saved t ctx c ev c' : conf_ok c -> step c ev (Ret c') -> ev <> Stop -> saved t ctx c -> ~ entered t c' -> saved t ctx c'.
Proof.
  intros Hok Hs Hev [Hsd Hsv] Hne. destruct (step_good _ _ _ Hok Hs) as (c1 & E & _ & Hsd' & Heff). injection E as <-.
  split; [by rewrite Hsd'|].
  assert (Hcalm : forall extra, calm extra (sched (world c)) (sched (world c')) /\ (mode c = Chosen -> mode c' = Chosen /\
            cpu_context (world c') = cpu_context (world c) /\ process_id (world c') = process_id (world c)) ->
            queued t (fun p => context (process p) = ctx) (sched (world c')) \/
            (mode c' = Chosen /\ process_id (world c') = t /\ cpu_context (world c') = Some ctx)).
  { intros extra [Hc Hm]. destruct Hsv as [Hq|(Hmd & Hp & Hx)].
    - left. eapply calm_queued; [|exact Hc|exact Hq]. cbn. intros p p' (_ & -> & _). done.
    - right. destruct (Hm Hmd) as (-> & -> & ->). done. }
  destruct ev; try (by eapply Hcalm).
  - (* an iteration *)
    destruct Hsv as [Hq|(Hmd & _)]; [|inversion Hs; subst; done].
    destruct (iterate_saved t (eq ctx) c c' Hok Hs Hsd) as (ctx' & <- & _ & Hsv'); [|done].
    intros s1 Hw. destruct (calm_queued 0 t (sched (world c)) s1 (fun p => context (process p) = ctx)) as (p & Hin & Hid & Hp).
    { cbn. intros x x' (_ & -> & _). done. }
    { by apply woke_calm. }
    { done. }
    by exists p.
  - (* entering another process *)
    destruct Heff as (Hsame & Hpid & k & Hk & Hmd & Hf). left. destruct Hsv as [Hq|(Hmd' & Hp & Hx)]; [by rewrite Hsame|].
    exfalso. apply Hne. exists (loaded k st). split; [done|congruence].
Qed.

(** a run in which [t] is not entered *)
Inductive reach_without (t : Z) : @Conf V N -> list (@Event V N) -> @Conf V N -> Prop :=
| rw_nil c : reach_without t c [] c
| rw_cons c ev c' evs c'' : step c ev (Ret c') -> ~ entered t c' -> reach_without t c' evs c'' -> reach_without t c (ev :: evs) c''.

Lemma reach_saved t ctx c evs c' : reach_without t c evs c' -> conf_ok c -> Stop ∉ evs -> saved t ctx c -> conf_ok c' /\ saved t ctx c'.
Proof.
  induction 1 as [c|c ev c1 evs c2 Hs Hne Hr IH]; intros Hok Hstop Hsv; [done|]. apply not_elem_of_cons in Hstop as [Hs1 Hs2].
  apply IH; [|done|].
  - destruct (step_good _ _ _ Hok Hs) as (c1' & E & Hok' & _). congruence.
  - by eapply step_saved.
Qed.

Lemma registers_segments st f : in_word 8 (f_cs (frame st)) -> in_word 8 (f_ss (frame st)) -> segments_ok (registers st f).
Proof. intros H1 H2. by split. Qed.

Lemma yield_saves n w st0 st c1 : conf_ok (mkConf (InProcess st0) n w) -> shutdown w = false ->
  step (mkConf (InProcess st0) n w) (Yield st) (Ret c1) -> saved (process_id w) (registers st (fpu w)) c1.
Proof.
  intros Hok Hsd Hs. inversion Hs as [ | | | |? ? ? ? Hst E0 E1 E2| | | | | | |]; subst. clear Hs.
  destruct Hok as [(p & k & Hu & Hsch) Hn]. cbn in Hu, Hsch, Hn.
  assert (Hwp : wp False (to InLoop (leave yield_current_if_any st)) w (fun md w' => shutdown w' = false /\
    queued (process_id w) (fun p => context (process p) = registers st (fpu w)) (sched w'))).
  { unfold to, leave. wp_step. wp_step. apply wp_in_interrupt. intros c Hc Hi. wp_step.
    eapply wp_mono; [eapply (wp_yield n); [by apply in_user_cli|done|lia]|]. cbn beta zeta.
    intros st' w' [_ Hb]. change (shutdown (set_cli c w)) with (shutdown w) in Hb. rewrite Hsd in Hb. destruct Hb as (Hsc & _ & _ & _ & Hsd' & _).
    wp_steps. intros c' Hc'. unfold switch_to_kernel. wp_steps. cbn. split; [cbn in Hsd'; congruence|]. rewrite Hsc.
    exists (mkSP (set_context (registers st (fpu w)) (process p)) Scheduled (max_priority (sched w))). cbn.
    split_and!; [apply elem_of_app; right; left| |done]. destruct Hu as (Hok & Hr & _). symmetry. exact (runs_id _ _ _ _ Hok Hr). }
  destruct (wp_total _ _ _ Hwp) as (md & w' & Ew & Hsd' & Hq). unfold conf_of in *. rewrite Ew in *. cbn in *.
  match goal with E : Ret _ = Ret c1 |- _ => injection E as <- end. split; [done|]. by left.
Qed.

(** C8: A process preempted by the timer resumes exactly where it was: whatever
    the kernel and the other processes do in between, the next time it is
    entered every register, every flag and the floating point state are those
    it was interrupted with. *)
Theorem preempted_process_resumes c0 evs0 c st c1 evs c2 k c3 :
  booted c0 -> reach c0 evs0 c -> shutdown (world c) = false ->
  step c (Yield st) (Ret c1) ->
  reach_without (process_id (world c)) c1 evs c2 -> Stop ∉ evs ->
  process_id (world c2) = process_id (world c) -> step c2 (Enter k) (Ret c3) ->
  exists st', mode c3 = InProcess st' /\ registers st' (fpu (world c3)) = registers st (fpu (world c)).
Proof.
  intros Hb Hr0 Hsd Hy Hr Hstop Hpid He. pose proof (reach_ok _ _ _ (booted_ok _ Hb) Hr0) as Hok.
  assert (Hst : from_user st) by by inversion Hy. destruct c as [md n w]. cbn in *.
  assert (exists st0, md = InProcess st0) as [st0 ->] by (inversion Hy; by eexists).
  destruct (step_good _ _ _ Hok Hy) as (c1' & E & Hok1 & _). injection E as <-.
  destruct (reach_saved _ _ _ _ _ Hr Hok1 Hstop (yield_saves _ _ _ _ _ Hok Hsd Hy)) as [Hok2 [_ Hsv]].
  destruct (step_good _ _ _ Hok2 He) as (c3' & E & _ & _ & Hsame & Hp3 & k' & Hk' & Hmd & Hf). injection E as <-.
  exists (loaded k' k). split; [done|]. rewrite Hf.
  assert (Hctx : k' = registers st (fpu w)).
  { destruct Hsv as [(p & Hin & Hid & _)|(_ & _ & Hx)]; [|congruence]. exfalso. destruct c2 as [md2 n2 w2]. cbn in *.
    assert (md2 = Chosen) as -> by by inversion He. destruct Hok2 as [(pc & (Hok2 & Hrun & _) & _) _]. cbn in *.
    apply (queue_not_held _ _ _ Hok2 Hin). rewrite Hid, <- Hpid. apply list_elem_of_fmap. exists (process_id w2, pc).
    split; [done|]. apply zmap_get_elem, Hrun. }
  destruct Hst as (_ & Hcs & Hss). subst k'. pose proof (swap_loads _ k (fpu w) (registers_segments st (fpu w) Hcs Hss)) as Hl.
  exact (proj1 Hl).
Qed.

(** A parent that waits for a child is answered: when the child has exited,
    the next iteration makes the parent ready, and it will resume with the
    exit code of the child in [rax]. *)
Theorem exit_code_reaches_parent c0 evs c c' e k p :
  booted c0 -> reach c0 evs c -> shutdown (world c) = false ->
  e ∈ exited_processes (sched (world c)) -> (k, p) ∈ running_waiting_procs (sched (world c)) ->
  state p = WaitingForPid (id e) -> parent_id e = k ->
  step c Iterate (Ret c') ->
  exists ctx, c_rax ctx = wrap 64 (exit_code e) /\ saved k ctx c'.
Proof.
  intros Hb Hr Hsd He Hp Hst Hpar Hs. pose proof (reach_ok _ _ _ (booted_ok _ Hb) Hr) as Hok.
  assert (Hkp : k = sp_id p).
  { inversion Hs; subst. destruct Hok as [[Hok _] _]. cbn in Hok. pose proof (so_held _ _ Hok) as Hm. rewrite Forall_forall in Hm.
    by destruct (Hm _ Hp). }
  apply (iterate_saved k (fun ctx => c_rax ctx = wrap 64 (exit_code e)) c c' Hok Hs Hsd).
  intros s1 (_ & _ & out & _ & _ & Hdel & _ & Hq). destruct (Hdel e (k, p) He Hp Hst) as (p' & Hp' & Hid & Hrax); [by rewrite Hpar|].
  set (p1 := mkSP (process p') Scheduled (max_priority (sched (world c)))).
  destruct (same_elem _ _ p1 (Forall2_impl _ _ _ _ Hq told_same)) as (p2 & Hp2 & Hid2 & Hctx & _).
  { apply elem_of_app. right. apply list_elem_of_fmap. by exists p'. }
  exists p2. split_and!; [done|rewrite Hid2, Hkp; exact Hid|]. by rewrite Hctx.
Qed.

(** ** Waiting is bounded *)
Definition excess (r : Z) q : Z := foldr (fun p acc => Z.max 0 (priority_counter p - r + 1) + acc) 0 q.

Lemma excess_app r q q' : excess r (q ++ q') = excess r q + excess r q'.
Proof. induction q as [|p q IH]; cbn [app excess foldr]; [done|]. fold (excess r (q ++ q')) (excess r q). lia. Qed.
Lemma excess_perm r q q' : q ≡ₚ q' -> excess r q = excess r q'.
Proof. unfold excess. induction 1 as [|x l l' Hl IH|x y l|l l' l'' H1 IH1 H2 IH2]; cbn [foldr] in *; lia. Qed.
Lemma excess_same r q q' : Forall2 same_sp q q' -> excess r q' = excess r q.
Proof. induction 1 as [|x y q q' (_ & _ & _ & Hc) Hq IH]; [done|]. cbn. fold (excess r q) (excess r q'). lia. Qed.
Lemma excess_nonneg r q : 0 <= excess r q.
Proof. induction q as [|p q IH]; [done|]. cbn. fold (excess r q). lia. Qed.
Lemma excess_le r q b : 0 <= b -> Forall (fun p => priority_counter p - r + 1 <= b) q -> excess r q <= Z.of_nat (length q) * b.
Proof. intros Hb. induction 1 as [|p q Hp Hq IH]; [done|]. cbn [excess foldr length]. fold (excess r q). nia. Qed.
Lemma excess_elem r q p : p ∈ q -> priority_counter p = r -> 1 <= excess r q.
Proof.
  induction q as [|x q IH]; [by intros ?%elem_of_nil|]. intros [->|Hin]%elem_of_cons Hc; cbn; fold (excess r q).
  - pose proof (excess_nonneg r q). lia.
  - specialize (IH Hin Hc). lia.
Qed.

Definition held s : Z := Z.of_nat (length (running_waiting_procs s)).
Definition live s : Z := Z.of_nat (length (scheduled_processes s)) + held s.

(** others can be chosen at most [B] times before the counter [r] is the
    greatest: [T] bounds the counters there are and the ones to come *)
Definition within (r B : Z) s : Prop :=
  exists T, r <= T /\ max_priority s + 1 <= T /\ Forall (fun p => priority_counter p <= T) (scheduled_processes s) /\
    excess r (scheduled_processes s) + held s * (T - r) <= B.

(** ... and the counters are reset at most once *)
Definition fair (t K B : Z) s : Prop :=
  live s <= K /\ exists p b, p ∈ scheduled_processes s /\ sp_id p = t /\ within (priority_counter p) b s /\
    b + (if priority_counter p <? MIN_PRIORITY_VALUE then K else 0) <= B.

Lemma within_calm r B s s' : calm 0 s s' -> within r B s -> within r B s'.
Proof.
  intros (Hm & added & Hq & Ha & Hl) (T & H1 & H2 & H3 & H4). exists T. rewrite Hm. split_and!; [done|done| |].
  - assert (Hall : Forall (fun p => priority_counter p <= T) (scheduled_processes s ++ added)).
    { apply Forall_app. split; [done|]. eapply Forall_impl; [exact Ha|]. cbn. intros x ->. lia. }
    clear -Hall Hq. induction Hq as [|x y q q' (_ & _ & _ & Hc) Hq IH]; [done|]. apply Forall_cons in Hall as [Hx Hall].
    constructor; [lia|by apply IH].
  - rewrite (excess_same _ _ _ Hq), excess_app. unfold held in *.
    assert (excess r added <= Z.of_nat (length added) * (T - r)).
    { apply excess_le; [lia|]. eapply Forall_impl; [exact Ha|]. cbn. intros x ->. lia. }
    nia.
Qed.

Lemma fair_calm t K B s s' : calm 0 s s' -> fair t K B s -> fair t K B s'.
Proof.
  intros Hc (HK & p & b & Hin & Hid & Hw & Hb). assert (Hc' := Hc). destruct Hc' as (_ & added & Hq & _ & Hl). split.
  - unfold live, held in *. rewrite <- (Forall2_length _ _ _ Hq), length_app. lia.
  - destruct (same_elem _ _ p Hq) as (p' & Hin' & Hs & _ & _ & Hcnt); [apply elem_of_app; by left|].
    exists p', b. rewrite Hcnt. split_and!; [done|congruence| |done]. by eapply within_calm.
Qed.

Lemma fair_picked n t K B s1 p s' : sched_ok n s1 -> picked s1 p s' -> fair t K B s1 -> sp_id p = t \/ fair t K (B - 1) s'.
Proof.
  intros Hok Hpick (HK & x & b & Hin & Hid & (T & HT1 & HT2 & HT3 & HT4) & Hb).
  destruct (picked_ok _ _ _ _ Hok Hpick) as (_ & _ & Hm). apply Permutation_length in Hm. cbn [length] in Hm.
  destruct Hpick as (rest & Hpop & ->). cbn in Hm. destruct (pop_split _ _ _ Hpop) as [Hperm Hmax].
  pose proof (decrement_bounds (process p)) as Hd. pose proof (excess_elem (priority_counter x) _ x Hin eq_refl) as Hex1.
  pose proof (excess_nonneg (priority_counter x) (scheduled_processes s1)).
  destruct (refreshed_cases s1) as [Er|[Er Hlow]]; rewrite Er in Hperm.
  - (* the counters as they are *)
    assert (Hin' := Hin). rewrite Hperm in Hin'. apply elem_of_cons in Hin' as [->|Hx]; [by left|right].
    pose proof (Hmax x Hx) as Hle. pose proof (Permutation_length Hperm) as Hlen. cbn in Hlen.
    rewrite (excess_perm _ _ _ Hperm) in HT4. cbn in HT4. fold (excess (priority_counter x) rest) in HT4.
    assert (priority_counter p <= T) by (rewrite Hperm in HT3; by apply Forall_cons in HT3 as [? _]).
    split; [unfold live, held in *; cbn; lia|]. exists x, (b - 1). split_and!; [done|done| |lia].
    exists (priority_counter p). cbn. split_and!; [lia|lia|by apply Forall_forall|]. unfold held in *. cbn.
    fold (excess (priority_counter x) rest). rewrite Hm. nia.
  - (* after a reset *)
    cbn in Hperm. pose proof (Permutation_length Hperm) as Hlen. cbn in Hlen. rewrite length_fmap in Hlen.
    rewrite Forall_forall in Hlow. specialize (Hlow x Hin). rewrite (proj2 (Z.ltb_lt _ _) Hlow) in Hb.
    set (x' := mkSP (process x) (state x) U64_MAX).
    assert (Hall : forall y, y ∈ p :: rest -> priority_counter y = U64_MAX).
    { intros y Hy. rewrite <- Hperm in Hy. apply list_elem_of_fmap in Hy as (z & -> & _). done. }
    assert (Hin' : x' ∈ p :: rest) by (rewrite <- Hperm; apply list_elem_of_fmap; by exists x).
    apply elem_of_cons in Hin' as [<-|Hx]; [by left|right].
    assert (HK' : Z.of_nat (length rest) + (held s1 + 1) <= K) by (unfold live in HK; lia).
    assert (0 <= held s1) by (unfold held; lia).
    split; [unfold live, held in *; cbn; lia|]. exists x', (Z.of_nat (length rest)). split_and!; [done|done| |].
    + exists U64_MAX. cbn [priority_counter x' scheduled_processes max_priority]. split_and!; [done| | |].
      * rewrite (Hall p) by left. lia.
      * apply Forall_forall. intros y Hy. rewrite (Hall y) by by right. done.
      * rewrite Z.sub_diag, Z.mul_0_r, Z.add_0_r. etrans; [apply (excess_le _ _ 1)|lia]; [lia|].
        apply Forall_forall. intros y Hy. rewrite (Hall y) by by right. lia.
    + cbn [priority_counter x']. change (U64_MAX <? MIN_PRIORITY_VALUE) with false. cbn iota.
      assert (0 <= held s1 * (T - priority_counter x)) by nia. lia.
Qed.

Definition is_iterate (ev : @Event V N) : bool := match ev with Iterate => true | _ => false end.
Definition iterations evs : Z := Z.of_nat (length (List.filter is_iterate evs)).
Definition disturbs (ev : @Event V N) : Prop := match ev with Stop | Spawn _ => True | _ => False end.

Lemma fair_step t K B c ev c' : conf_ok c -> step c ev (Ret c') -> shutdown (world c) = false -> ~ disturbs ev ->
  fair t K B (sched (world c)) ->
  (ev = Iterate /\ mode c' = Chosen /\ process_id (world c') = t) \/
  fair t K (if is_iterate ev then B - 1 else B) (sched (world c')).
Proof.
  intros Hok Hs Hsd Hev Hf. destruct (step_good _ _ _ Hok Hs) as (c1 & E & _ & Hsd' & Heff). injection E as <-.
  destruct ev; try done; try (right; cbn; eapply fair_calm; [apply Heff|done]).
  - destruct (mode c') eqn:Emd; try congruence.
    + destruct Heff as (s1 & p & Hw & Hok1 & Hpick & _ & Hpid).
      destruct (fair_picked _ _ _ _ _ _ _ Hok1 Hpick (fair_calm _ _ _ _ _ (woke_calm _ _ Hw) Hf)) as [Ht|Hf']; [left|by right].
      split_and!; [done|done|congruence].
    + destruct Heff as (s1 & Hw & Hq). exfalso. destruct (fair_calm _ _ _ _ _ (woke_calm _ _ Hw) Hf) as (_ & p & b & Hin & _).
      rewrite Hq in Hin. by apply elem_of_nil in Hin.
  - right. cbn. destruct Heff as (-> & _). done.
Qed.

Lemma fair_positive t K B s : 0 <= K -> fair t K B s -> 1 <= B.
Proof.
  intros HK (_ & p & b & Hin & _ & (T & H1 & _ & _ & H4) & Hb). pose proof (excess_elem _ _ p Hin eq_refl).
  assert (0 <= held s * (T - priority_counter p)) by (unfold held; nia). destruct (priority_counter p <? MIN_PRIORITY_VALUE); lia.
Qed.

Lemma fair_run t K c evs c' : reach c evs c' -> forall B, 0 <= K -> conf_ok c -> shutdown (world c) = false -> (forall ev, ev ∈ evs -> ~ disturbs ev) ->
  fair t K B (sched (world c)) -> B <= iterations evs ->
  exists evs1 c1 evs2, evs = evs1 ++ evs2 /\ reach c evs1 c1 /\ mode c1 = Chosen /\ process_id (world c1) = t.
Proof.
  induction 1 as [c|c ev c1 evs c2 Hs Hr IH]; intros B HK Hok Hsd Hd Hf Hle.
  { pose proof (fair_positive _ _ _ _ HK Hf). unfold iterations in Hle. cbn in Hle. lia. }
  assert (Hdev : ~ disturbs ev) by (apply Hd; left).
  destruct (step_good _ _ _ Hok Hs) as (c1' & E & Hok1 & Hsd1 & _). injection E as <-.
  destruct (fair_step _ _ _ _ _ _ Hok Hs Hsd Hdev Hf) as [(-> & Hm & Hp)|Hf'].
  - exists [Iterate], c1, evs. split_and!; [done| |done|done]. eapply reach_cons; [exact Hs|constructor].
  - destruct (IH (if is_iterate ev then B - 1 else B)) as (evs1 & c3 & evs2 & -> & Hr1 & Hm & Hp); try done.
    + rewrite Hsd1; [done|]. intros ->. by apply Hdev.
    + intros e He. apply Hd. by right.
    + unfold iterations in *. cbn in Hle. destruct (is_iterate ev); cbn [length] in Hle; lia.
    + exists (ev :: evs1), c3, evs2. split_and!; [done| |done|done]. by eapply reach_cons.
Qed.

(** how many iterations a scheduled process can have to wait for *)
Definition top_counter s : Z := foldr (fun p acc => Z.max (priority_counter p) acc) (max_priority s + 1) (scheduled_processes s).
Definition patience p s : Z :=
  excess (priority_counter p) (scheduled_processes s) + held s * (top_counter s - priority_counter p) +
  (if priority_counter p <? MIN_PRIORITY_VALUE then live s else 0).

Lemma patience_fair p s : p ∈ scheduled_processes s -> fair (sp_id p) (live s) (patience p s) s.
Proof.
  intros Hin. split; [done|]. exists p, (excess (priority_counter p) (scheduled_processes s) + held s * (top_counter s - priority_counter p)).
  split; [done|]. split; [done|]. split; [|done]. exists (top_counter s).
  assert (Hall : Forall (fun x => priority_counter x <= top_counter s) (scheduled_processes s) /\ max_priority s + 1 <= top_counter s).
  { clear Hin. unfold top_counter. induction (scheduled_processes s) as [|x q [IH1 IH2]]; cbn [foldr]; [split; [done|lia]|].
    split; [|lia]. constructor; [lia|]. eapply Forall_impl; [exact IH1|]. cbn. intros. lia. }
  destruct Hall as [Hall Hmax]. split_and!; [by eapply (proj1 (Forall_forall _ _) Hall)|done|done|done].
Qed.

(** C9: A scheduled process is not starved: in every run without shutdown and
    without new processes, after as many iterations of the scheduler as
    [patience] says it has been chosen to run, whatever the others do, at any
    priorities. *)
Theorem scheduled_process_gets_chosen c0 evs0 c p evs c' :
  booted c0 -> reach c0 evs0 c -> shutdown (world c) = false -> p ∈ scheduled_processes (sched (world c)) ->
  reach c evs c' -> (forall ev, ev ∈ evs -> ~ disturbs ev) -> patience p (sched (world c)) <= iterations evs ->
  exists evs1 c1 evs2, evs = evs1 ++ evs2 /\ reach c evs1 c1 /\ mode c1 = Chosen /\ process_id (world c1) = sp_id p.
Proof.
  intros Hb Hr0 Hsd Hin Hr Hd Hle. eapply fair_run; [exact Hr| |by eapply reach_ok; [apply booted_ok|]|done|done|by apply patience_fair|done].
  unfold live, held. lia.
Qed.

(** Shutdown ends: once it was asked for, the next iteration of the loop of
    [schedule] stops every process that is left and leaves the loop. *)
Theorem shutdown_terminates c0 evs c o :
  booted c0 -> reach c0 evs c -> shutdown (world c) = true -> step c Iterate o ->
  exists c', o = Ret c' /\ mode c' = Stopped /\ identifiers (sched (world c')) = [].
Proof.
  intros Hb Hr Hsd Hs. pose proof (reach_ok _ _ _ (booted_ok _ Hb) Hr) as Hok. inversion Hs as [n w E1 E2 E3| | | | | | | | | | |]. subst.
  destruct Hok as [[Hok Hk] Hn]. cbn in Hok, Hk, Hn, Hsd.
  destruct (wp_total _ _ _ (wp_schedule_iteration n w Hok Hk ltac:(lia))) as (x & w' & Ex & _ & _ & _ & Hx).
  unfold conf_of, mbind, ST_bind. rewrite Ex. cbn. eexists. split; [reflexivity|]. cbn. destruct x; [|destruct Hx as [Hx _]; congruence..].
  destruct Hx as (_ & H1 & H2 & H3). split; [done|]. unfold identifiers. by rewrite H1, H2, H3.
Qed.

(** When no process is ready the iteration has pushed the interrupt nesting
    once more than it pops it: [hlt] is executed with interrupts off, and no
    timer interrupt will wake a sleeping process. *)
Theorem idle_halts_with_interrupts_off c0 evs c c' :
  booted c0 -> reach c0 evs c -> step c Iterate (Ret c') -> mode c' = Halted ->
  Cpu.n_cli (cli (world c')) = 1 /\ Cpu.interrupts (cli (world c')) = false.
Proof.
  intros Hb Hr Hs Hm. pose proof (reach_ok _ _ _ (booted_ok _ Hb) Hr) as Hok.
  destruct (step_good _ _ _ Hok Hs) as (c1 & E & [Hok1 _] & _). injection E as <-. rewrite Hm in Hok1. destruct Hok1 as (_ & H1 & H2).
  split; [done|]. by apply H2.
Qed.
End runs.
