(* ===== verification/SchedDemo.v ===== *)
(** * Runs of the scheduler

    A binary heap for the scheduler, an executable form of the steps, and
    concrete runs: witnesses of the theorems, and the runs on which the code
    does not do what it means to do. *)
From S2P Require Import Prelude MemLayout UserLink FsTypes Locks Context Process Scheduler SchedInv SchedulerSpec SchedLive.
Import ProcessLink Context Clock Process Scheduler Kernel.

(** ** A heap *)
Section pop.
Context {A : Type} (key : A -> Z).
Fixpoint pop_max (l : list A) : option (A * list A) :=
  match l with
  | [] => None
  | x :: l =>
      match pop_max l with
      | None => Some (x, [])
      | Some (y, r) => if key x <? key y then Some (y, x :: r) else Some (x, y :: r)
      end
  end.

Lemma pop_max_spec l :
  match pop_max l with
  | None => l = []
  | Some (x, r) => l ≡ₚ x :: r /\ forall y, y ∈ r -> key y <= key x
  end.
Proof.
  induction l as [|x l IH]; [done|]. cbn [pop_max]. destruct (pop_max l) as [[y r]|].
  - destruct IH as [Hp Hm]. destruct (Z.ltb_spec (key x) (key y)).
    + split; [rewrite Hp; apply Permutation_swap|]. intros z [->|Hz]%elem_of_cons; [lia|by apply Hm].
    + split; [by rewrite Hp|]. intros z [->|Hz]%elem_of_cons; [lia|]. specialize (Hm z Hz). lia.
  - subst l. split; [done|]. by intros y ?%elem_of_nil.
Qed.
End pop.

Module SchedDemo.
#[export] Instance list_heap : BinaryHeap (@SchedulerProcess unit unit) priority_counter :=
  {| heap_pop := pop_max priority_counter; heap_pop_max := pop_max_spec priority_counter |}.

Notation Conf := (@Conf unit unit).
Notation Event := (@Event unit unit).

(** ** Steps as a function *)
Definition from_userb (st : InterruptAllSavedState) : bool :=
  (Z.land (f_cs (frame st)) 3 =? 3) && (0 <=? f_cs (frame st)) && (f_cs (frame st) <? 2 ^ 8) && (0 <=? f_ss (frame st)) && (f_ss (frame st) <? 2 ^ 8).
Definition is_process (md : Mode) : bool := match md with InProcess _ => true | _ => false end.
Definition exec (c : Conf) (ev : Event) : outcome Conf :=
  let n := pids c in let w := world c in
  match ev, mode c with
  | Iterate, InLoop => conf_of n ((x ← schedule_iteration; mret (mode_of x)) w)
  | Enter st, Chosen =>
      if Z.land (f_cs (frame st)) 3 =? 0
      then conf_of n (('(_, st') ← in_interrupt (st' ← scheduler_interrupt_handler st; mret (tt, st')); mret (InProcess st')) w) else Panic
  | Time t, md => Ret (mkConf md n (set_now t w))
  | Yield st, InProcess _ => if from_userb st then conf_of n (to InLoop (leave yield_current_if_any st) w) else Panic
  | Exit code st, InProcess _ => if from_userb st then conf_of n (to InLoop (leave (exit_current_process code) st) w) else Panic
  | Sleep t st, InProcess _ =>
      if from_userb st then conf_of n (to InLoop (leave (sleep_current_process t) st) w) else Panic
  | Wait pid st, InProcess _ => if from_userb st then conf_of n (wait_or_return pid st w) else Panic
  | Spawn pr, md =>
      if (match md with InLoop => true | _ => is_process md end) && (n <? 2 ^ 63 - 1) && (id pr =? n) && bool_decide (children_exits pr = ∅)
      then conf_of (n + 1) (to md (push_process pr) w) else Panic
  | Stop, md => conf_of n (to md stop_scheduler w)
  | _, _ => Panic
  end.

Lemma from_userb_true st : from_userb st = true -> from_user st.
Proof. unfold from_userb, from_user, in_word. intros. bool_hyps. split_and!; lia. Qed.

Lemma exec_step c ev c' : exec c ev = Ret c' -> step c ev (Ret c').
Proof.
  destruct c as [md n w]. unfold exec. cbn [pids world mode]. intros E.
  destruct ev; try (destruct md; try done).
  all: repeat match type of E with context [if ?b then _ else _] => let Hb := fresh "Hb" in destruct b eqn:Hb; [|done] end.
  all: rewrite <- E.
  all: try (econstructor; (by eauto using from_userb_true) || (by apply Z.eqb_eq)); try constructor.
  all: try by apply from_userb_true.
  all: try by apply Z.eqb_eq.
  all: try (by left); try (right; by eexists).
  all: bool_hyps; try lia; done.
Qed.

Fixpoint exec_all (c : Conf) (evs : list Event) : outcome Conf :=
  match evs with [] => Ret c | ev :: evs => c ← exec c ev; exec_all c evs end.
Lemma exec_reach evs : forall c c', exec_all c evs = Ret c' -> reach c evs c'.
Proof.
  induction evs as [|ev evs IH]; intros c c' E; cbn in E.
  - injection E as <-. constructor.
  - destruct (exec c ev) as [c1| |] eqn:E1; try done. eapply reach_cons; [by apply exec_step|]. by apply IH.
Qed.

Definition enteredb (t : Z) (c : Conf) : bool := is_process (mode c) && (process_id (world c) =? t).
Lemma enteredb_false t c : enteredb t c = false -> ~ entered t c.
Proof. unfold enteredb. intros E (st & Hm & Hp). rewrite Hm, Hp, Z.eqb_refl in E. done. Qed.
Fixpoint exec_without (t : Z) (c : Conf) (evs : list Event) : outcome Conf :=
  match evs with [] => Ret c | ev :: evs => c ← exec c ev; _ ← assert_that (negb (enteredb t c)); exec_without t c evs end.
Lemma exec_reach_without t evs : forall c c', exec_without t c evs = Ret c' -> reach_without t c evs c'.
Proof.
  induction evs as [|ev evs IH]; intros c c' E; cbn in E.
  - injection E as <-. constructor.
  - destruct (exec c ev) as [c1| |] eqn:E1; try done. cbn in E. destruct (enteredb t c1) eqn:E2; [done|]. cbn in E.
    eapply rw_cons; [by apply exec_step|by apply enteredb_false|by apply IH].
Qed.

(** ** A small system *)
Definition proc (i parent : Z) : Process unit unit :=
  mkProcess tt (registers user_state []) i parent ∅ 0 [] [] [] 0 0 0 0 0 Normal 0 ∅.
Definition boot : Conf :=
  mkConf InLoop 0 (mkWorld new false false (Cpu.mkCpu 0 false true) None 0 false None (mkTime 0 0) None fxsave_default).
Definition kernel_state : InterruptAllSavedState :=
  mkAllState (mkRest 0 0 0 0 0 0 0 0 0 0 0 0 0 0 0 0 0 0 0 0 0 0 0 0 0) 0xff 0 (mkFrame 0x8000 8 0x202 0x9000 0x10).
(** choose a process and enter it *)
Definition turn : list Event := [Iterate; Enter kernel_state].
Definition run (evs : list Event) : Conf := match exec_all boot evs with Ret c => c | _ => boot end.

Definition two : list Event := [Spawn (proc 0 0); Spawn (proc 1 0)].
Definition running0 : Conf := Eval vm_compute in run (two ++ turn).
Definition yielded0 : Conf := Eval vm_compute in run (two ++ turn ++ [Yield user_state]).
Definition others : list Event := turn ++ [Yield user_state; Iterate].
Definition chosen0 : Conf := Eval vm_compute in run (two ++ turn ++ [Yield user_state] ++ others).
Definition resumed0 : Conf := Eval vm_compute in run (two ++ turn ++ [Yield user_state] ++ others ++ [Enter kernel_state]).
Definition ready2 : Conf := Eval vm_compute in run two.

Lemma boot_booted : booted boot.
Proof. split_and!; (vm_compute; congruence) || done. Qed.

Lemma scheduler_panics_iff_fatal_witness :
  let o := conf_of 2 (to (mode running0) (with_process 9 (fun pr => (priority pr, set_priority High pr))) (world running0)) in
  (fatal running0 (SetPriority 9 High) -> o = Panic) /\ (~ fatal running0 (SetPriority 9 High) -> exists c', o = Ret c') /\
  (NoDup (identifiers (sched (world running0))) /\ SchedLive.running (sched (world running0)) = [0]).
Proof.
  apply (scheduler_panics_iff_fatal boot (two ++ turn) running0 (SetPriority 9 High));
    [apply boot_booted|apply exec_reach; vm_compute; reflexivity|]. apply (step_priority _ 2 (world running0) 9 High).
Defined.
Lemma fatal_priority : fatal running0 (SetPriority 9 High).
Proof. split; vm_compute; intros Hin; by repeat apply elem_of_cons in Hin as [|Hin]; try apply elem_of_nil in Hin. Qed.

Lemma preempted_process_resumes_witness :
  exists st', mode resumed0 = InProcess st' /\ registers st' (fpu (world resumed0)) = registers user_state (fpu (world running0)).
Proof.
  apply (preempted_process_resumes boot (two ++ turn) running0 user_state yielded0 others chosen0 kernel_state resumed0).
  - apply boot_booted.
  - apply exec_reach. vm_compute. reflexivity.
  - reflexivity.
  - apply exec_step. vm_compute. reflexivity.
  - apply exec_reach_without. vm_compute. reflexivity.
  - unfold others, turn. cbn. rewrite !not_elem_of_cons. split_and!; try done. apply not_elem_of_nil.
  - reflexivity.
  - apply exec_step. vm_compute. reflexivity.
Defined.

Definition entry1 : SchedulerProcess := mkSP (proc 1 0) Scheduled U64_MAX.
Lemma scheduled_process_gets_chosen_witness :
  exists evs1 c1 evs2, turn ++ [Yield user_state; Iterate] = evs1 ++ evs2 /\ reach ready2 evs1 c1 /\ mode c1 = Chosen /\ process_id (world c1) = 1.
Proof.
  apply (scheduled_process_gets_chosen boot two ready2 entry1 (turn ++ [Yield user_state; Iterate])
           (run (two ++ turn ++ [Yield user_state; Iterate]))).
  - apply boot_booted.
  - apply exec_reach. vm_compute. reflexivity.
  - reflexivity.
  - right. left.
  - apply exec_reach. vm_compute. reflexivity.
  - intros ev Hev. cbn in Hev. rewrite !elem_of_cons in Hev. destruct Hev as [->|[->|[->|[->|Hev]]]]; try (intros []). by apply elem_of_nil in Hev.
  - vm_compute. congruence.
Defined.

Definition stopping : Conf := Eval vm_compute in run (two ++ [Stop]).
Lemma shutdown_terminates_witness :
  exists c', conf_of 2 ((x ← schedule_iteration; mret (mode_of x)) (world stopping)) = Ret c' /\ mode c' = Stopped /\
    identifiers (sched (world c')) = [].
Proof.
  apply (shutdown_terminates boot (two ++ [Stop]) stopping); [apply boot_booted|apply exec_reach; vm_compute; reflexivity|reflexivity|].
  apply (step_iterate 2 (world stopping)).
Defined.

(** process 0 waits for its child 1, which exits with 7 *)
Definition waited : list Event := two ++ turn ++ [Wait 1 user_state] ++ turn ++ [Exit 7 user_state].
Definition exited1 : Conf := Eval vm_compute in run waited.
Definition answered0 : Conf := Eval vm_compute in run (waited ++ [Iterate]).
Definition child : Process unit unit := Eval vm_compute in default (proc 0 0) (head (exited_processes (sched (world exited1)))).
Definition parent : SchedulerProcess := Eval vm_compute in default entry1 (ZMap.get 0 (running_waiting_procs (sched (world exited1)))).
Lemma exit_code_reaches_parent_witness : exists ctx, c_rax ctx = wrap 64 (exit_code child) /\ saved 0 ctx answered0.
Proof.
  apply (exit_code_reaches_parent boot waited exited1 answered0 child 0 parent).
  - apply boot_booted.
  - apply exec_reach. vm_compute. reflexivity.
  - reflexivity.
  - left.
  - left.
  - reflexivity.
  - reflexivity.
  - apply exec_step. vm_compute. reflexivity.
Defined.

(** ** Where the code does not do what it means to do *)
Definition asleep : Conf := Eval vm_compute in run ([Spawn (proc 0 0)] ++ turn ++ [Sleep (mkTime 0 1) user_state]).
Definition idle : Conf := Eval vm_compute in run ([Spawn (proc 0 0)] ++ turn ++ [Sleep (mkTime 0 1) user_state; Iterate]).
Lemma idle_halts_with_interrupts_off_witness :
  Cpu.n_cli (cli (world idle)) = 1 /\ Cpu.interrupts (cli (world idle)) = false.
Proof.
  apply (idle_halts_with_interrupts_off boot ([Spawn (proc 0 0)] ++ turn ++ [Sleep (mkTime 0 1) user_state]) asleep idle);
    [apply boot_booted|apply exec_reach; vm_compute; reflexivity|apply exec_step; vm_compute; reflexivity|reflexivity].
Defined.

Definition told_of (pid : Z) (c : Conf) : bool :=
  existsb (fun p => bool_decide (is_Some (children_exits (process p) !! pid)))
    (scheduled_processes (sched (world c)) ++ (running_waiting_procs (sched (world c))).*2).

(** A parent that sleeps while its child exits is never told: the exit code
    is dropped, and a later wait finds neither the child nor its code. *)
Lemma sleeping_parent_loses_exit_code :
  exists c, reach boot (two ++ [Spawn (proc 2 0)] ++ turn ++ [Sleep (mkTime 0 1) user_state] ++ turn ++ [Exit 7 user_state] ++ [Iterate]) c /\
    known 0 (sched (world c)) = true /\ known 1 (sched (world c)) = false /\ exited_processes (sched (world c)) = [] /\ told_of 1 c = false.
Proof.
  eexists. split; [apply exec_reach; vm_compute; reflexivity|]. by vm_compute.
Qed.

(** A process that waits for one that is not its child can wait for ever: the
    parent, with the smaller identifier, takes the exited process off the
    list before the waiter is looked at. *)
Lemma waiter_behind_parent_is_stranded :
  exists c p, reach boot ([Spawn (proc 0 0); Spawn (proc 1 0); Spawn (proc 2 0)] ++ turn ++ [Wait 2 user_state] ++ turn ++
                          [Yield user_state] ++ turn ++ [Wait 1 user_state] ++ turn ++ [Exit 7 user_state] ++ [Iterate]) c /\
    known 1 (sched (world c)) = false /\ ZMap.get 2 (running_waiting_procs (sched (world c))) = Some p /\ state p = WaitingForPid 1.
Proof.
  eexists _, _. split; [apply exec_reach; vm_compute; reflexivity|]. vm_compute. done.
Qed.

(** A process that waits for itself is accepted, and never runs again. *)
Lemma waiting_for_oneself_hangs :
  exists c p, reach boot ([Spawn (proc 0 0)] ++ turn ++ [Wait 0 user_state; Iterate]) c /\
    mode c = Halted /\ ZMap.get 0 (running_waiting_procs (sched (world c))) = Some p /\ state p = WaitingForPid 0.
Proof.
  eexists _, _. split; [apply exec_reach; vm_compute; reflexivity|]. vm_compute. done.
Qed.

(** A priority change of a process that does not exist stops the kernel. *)
Lemma priority_of_unknown_process_panics :
  with_process 9 (fun pr => (priority pr, set_priority High pr)) (world running0) = Panic.
Proof. reflexivity. Qed.
End SchedDemo.
