(* ===== verification/Bytes.v ===== *)
(** * Bytes

    What several components use of raw bytes: little-endian integers, packed
    structures as sequences of integer fields, NUL-terminated strings and the
    validity of UTF-8 ([core::str::from_utf8], [core::ffi::CStr]). *)
From S2P Require Import Prelude UserLink FsTypes.

(** ** Little-endian integers *)
Fixpoint le (n : nat) (v : Z) : bytes :=
  match n with O => [] | S n => v mod 256 :: le n (v / 256) end.
Fixpoint from_le (b : bytes) : Z :=
  match b with [] => 0 | x :: b => x + 256 * from_le b end.

Definition is_byte (b : Z) : Prop := in_word 8 b.

Lemma length_le n v : length (le n v) = n.
Proof. revert v. induction n as [|n IH]; intros v; cbn; [done|]. by rewrite IH. Qed.

Lemma le_bytes n v : Forall is_byte (le n v).
Proof.
  revert v. induction n as [|n IH]; intros v; cbn; [done|]. constructor; [|done]. unfold is_byte, in_word.
  pose proof (Z.mod_pos_bound v 256). lia.
Qed.

Lemma pow256_succ n : 256 ^ Z.of_nat (S n) = 256 * 256 ^ Z.of_nat n.
Proof. by rewrite Nat2Z.inj_succ, Z.pow_succ_r by lia. Qed.

Lemma from_le_le n v : 0 <= v < 256 ^ Z.of_nat n -> from_le (le n v) = v.
Proof.
  revert v. induction n as [|n IH]; intros v Hv; [cbn in *; lia|]. rewrite pow256_succ in Hv. cbn [le from_le]. rewrite IH.
  - rewrite Z.add_comm. by rewrite <- (Z.div_mod v 256) by lia.
  - split; [apply Z.div_pos; lia|]. apply Z.div_lt_upper_bound; lia.
Qed.

Lemma from_le_bounds b : Forall is_byte b -> 0 <= from_le b < 256 ^ Z.of_nat (length b).
Proof.
  induction 1 as [|x b Hx Hb IH]; [cbn; lia|]. cbn [length from_le]. rewrite pow256_succ. unfold is_byte, in_word in Hx.
  change (2 ^ 8) with 256 in Hx. nia.
Qed.

Lemma le_from_le b : Forall is_byte b -> le (length b) (from_le b) = b.
Proof.
  induction 1 as [|x b Hx Hb IH]; [done|]. unfold is_byte, in_word in Hx. change (2 ^ 8) with 256 in Hx. cbn [length le from_le].
  rewrite (Z.mul_comm 256), Z_mod_plus_full, Z.mod_small by done. f_equal.
  rewrite Z_div_plus_full by lia. rewrite Z.div_small by done. exact IH.
Qed.

(** ** Packed structures: fields of given widths, one after the other *)
Fixpoint pack (ws : list nat) (vs : list Z) : bytes :=
  match ws, vs with
  | w :: ws, v :: vs => le w v ++ pack ws vs
  | _, _ => []
  end.
Fixpoint unpack (ws : list nat) (b : bytes) : list Z :=
  match ws with [] => [] | w :: ws => from_le (take w b) :: unpack ws (drop w b) end.

Definition fits (w : nat) (v : Z) : Prop := 0 <= v < 256 ^ Z.of_nat w.
Definition width (ws : list nat) : nat := list_sum ws.

Lemma length_pack ws vs : length ws = length vs -> length (pack ws vs) = width ws.
Proof.
  revert vs. induction ws as [|w ws IH]; intros [|v vs]; try done. cbn. intros E. rewrite length_app, length_le, IH by lia. done.
Qed.

Lemma pack_bytes ws vs : Forall is_byte (pack ws vs).
Proof. revert vs. induction ws as [|w ws IH]; intros [|v vs]; try done. cbn. apply Forall_app. split; [apply le_bytes|apply IH]. Qed.

Lemma unpack_pack ws vs rest : Forall2 fits ws vs -> unpack ws (pack ws vs ++ rest) = vs.
Proof.
  induction 1 as [|w v ws vs Hv Hvs IH]; [done|]. cbn. rewrite <- app_assoc, take_app_length', drop_app_length' by (by rewrite length_le).
  by rewrite from_le_le, IH.
Qed.

Lemma pack_unpack ws b : Forall is_byte b -> length b = width ws -> pack ws (unpack ws b) = b.
Proof.
  revert b. induction ws as [|w ws IH]; intros b Hb Hl; cbn in *; [by destruct b|].
  rewrite <- (take_drop w b) at 3. f_equal.
  - assert (Ht : length (take w b) = w) by (rewrite length_take; lia). rewrite <- Ht at 1. apply le_from_le. by apply Forall_take.
  - apply IH; [by apply Forall_drop|]. rewrite length_drop, Hl. unfold width, list_sum. lia.
Qed.

(** ** NUL-terminated strings *)
(** [CStr::from_bytes_until_nul] *)
Fixpoint until_nul (b : bytes) : option bytes :=
  match b with
  | [] => None
  | x :: b => if x =? 0 then Some [] else (x ::.) <$> until_nul b
  end.

Lemma until_nul_found s rest : 0 ∉ s -> until_nul (s ++ 0 :: rest) = Some s.
Proof.
  induction s as [|x s IH]; intros Hs; [done|]. apply not_elem_of_cons in Hs as [H0 Hs]. cbn. rewrite (proj2 (Z.eqb_neq x 0)) by done.
  by rewrite IH.
Qed.

(** ** UTF-8 *)
Definition between (lo hi b : Z) : bool := (lo <=? b) && (b <=? hi).
Definition tail_byte : Z -> bool := between 0x80 0xBF.

(** the well-formed byte sequences of the Unicode standard *)
Fixpoint utf8 (s : bytes) : bool :=
  match s with
  | [] => true
  | b0 :: s1 =>
      if between 0 0x7F b0 then utf8 s1 else
      match s1 with
      | [] => false
      | b1 :: s2 =>
          if between 0xC2 0xDF b0 then tail_byte b1 && utf8 s2 else
          match s2 with
          | [] => false
          | b2 :: s3 =>
              if between 0xE0 0xEF b0 then
                between (if b0 =? 0xE0 then 0xA0 else 0x80) (if b0 =? 0xED then 0x9F else 0xBF) b1 && tail_byte b2 && utf8 s3
              else
              match s3 with
              | [] => false
              | b3 :: s4 =>
                  between 0xF0 0xF4 b0 &&
                  between (if b0 =? 0xF0 then 0x90 else 0x80) (if b0 =? 0xF4 then 0x8F else 0xBF) b1 &&
                  tail_byte b2 && tail_byte b3 && utf8 s4
              end
          end
      end
  end.

Lemma utf8_ascii s : Forall (fun b => 0 <= b < 128) s -> utf8 s = true.
Proof.
  induction 1 as [|b s Hb Hs IH]; [done|]. cbn [utf8]. unfold between at 1.
  rewrite (proj2 (Z.leb_le 0 b)), (proj2 (Z.leb_le b 0x7F)) by lia. exact IH.
Qed.
