(* ===== verification/Elf.v ===== *)
(** * ELF files

    Models [kernel/src/executable/elf.rs] and [load_elf_to_vm] of
    [executable/mod.rs]: the headers as they lie in the file, the checks and
    reads of [Elf::load], and the segments copied into an address space.  The
    file is a handle of [Vfs]; the address space is the interface
    [ImageSpace]. *)
From S2P Require Import Prelude MemLayout UserLink FsTypes Path Mount Vfs Bytes Locks PageTables.
Import Mount.
From Stdlib Require String.
Import Stdlib.Strings.String.StringSyntax.

Module Elf.
Inductive ElfLoadError : Type :=
| InvalidMagic
| FsError (e : FileSystemError)
| InvalidElfOrNotSupported
| UnexpectedEndOfFile.

(** ** Constants *)
Definition ELF_MAGIC : bytes := [0x7f; 69; 76; 70].
Definition ABI_SYSV : Z := 0.
Definition BITS_32 : Z := 1.
Definition BITS_64 : Z := 2.
Definition ENDIANNESS_LITTLE : Z := 1.
Definition ELF_TYPE_EXECUTABLE : Z := 2.
Definition ELF_TYPE_SHARED : Z := 3.
Definition ELF_MACHINE_X86_64 : Z := 62.
Definition PROG_FLAG_EXE : Z := 1.
Definition PROG_FLAG_WRITE : Z := 2.
Definition PROG_FLAG_READ : Z := 4.

Definition to_virtual_memory_flags (flags : Z) : Z :=
  if negb (Z.land flags PROG_FLAG_WRITE =? 0) then PageTables.PTE_WRITABLE else 0.

(** ** The header *)
Record ElfHeaderBase : Type := mkBase {
  magic : Z; bits : Z; endianness : Z; version : Z; abi : Z; abi_version : Z; pad : Z; elf_type : Z; machine : Z; elf_version : Z
}.
Definition base_widths : list nat := [4; 1; 1; 1; 1; 1; 7; 2; 2; 4]%nat.
Definition base_list (h : ElfHeaderBase) : list Z :=
  [magic h; bits h; endianness h; version h; abi h; abi_version h; pad h; elf_type h; machine h; elf_version h].
Definition base_of (l : list Z) : ElfHeaderBase :=
  let f i := nth i l 0 in mkBase (f 0%nat) (f 1%nat) (f 2%nat) (f 3%nat) (f 4%nat) (f 5%nat) (f 6%nat) (f 7%nat) (f 8%nat) (f 9%nat).

(** [ElfHeader32] and [ElfHeader64]: the same fields, the first three of
    another width *)
Record ElfHeaderRest : Type := mkRest {
  entry_ : Z; program_header_offset_ : Z; section_header_offset_ : Z; flags_ : Z; header_size_ : Z;
  program_header_entry_size_ : Z; program_header_entry_count_ : Z;
  section_header_entry_size_ : Z; section_header_entry_count_ : Z; section_header_string_table_index_ : Z
}.
Definition header32_widths : list nat := [4; 4; 4; 4; 2; 2; 2; 2; 2; 2]%nat.
Definition header64_widths : list nat := [8; 8; 8; 4; 2; 2; 2; 2; 2; 2]%nat.
Definition rest_list (h : ElfHeaderRest) : list Z :=
  [entry_ h; program_header_offset_ h; section_header_offset_ h; flags_ h; header_size_ h;
   program_header_entry_size_ h; program_header_entry_count_ h;
   section_header_entry_size_ h; section_header_entry_count_ h; section_header_string_table_index_ h].
Definition rest_of (l : list Z) : ElfHeaderRest :=
  let f i := nth i l 0 in mkRest (f 0%nat) (f 1%nat) (f 2%nat) (f 3%nat) (f 4%nat) (f 5%nat) (f 6%nat) (f 7%nat) (f 8%nat) (f 9%nat).

(** [ElfHeader]: the base, and the union of both headers over the same bytes *)
Record ElfHeader : Type := mkHeader { base : ElfHeaderBase; union : bytes }.
Definition header32 (h : ElfHeader) : ElfHeaderRest := rest_of (unpack header32_widths (union h)).
Definition header64 (h : ElfHeader) : ElfHeaderRest := rest_of (unpack header64_widths (union h)).
Definition HEADER_SIZE : Z := 64.
Definition header_of (b : bytes) : ElfHeader := mkHeader (base_of (unpack base_widths b)) (drop 24 b).

Definition is_valid_and_supported (h : ElfHeader) : bool :=
  let b := base h in
  if (negb (bits b =? BITS_32) && negb (bits b =? BITS_64)) || negb (endianness b =? ENDIANNESS_LITTLE) ||
     negb (version b =? 1) || negb (abi b =? ABI_SYSV) || negb (abi_version b =? 0) ||
     (negb (elf_type b =? ELF_TYPE_EXECUTABLE) && negb (elf_type b =? ELF_TYPE_SHARED)) ||
     negb (machine b =? ELF_MACHINE_X86_64) || negb (elf_version b =? 1)
  then false else true.
Definition is_elf64 (h : ElfHeader) : bool := bits (base h) =? BITS_64.
Definition is_little_endian (h : ElfHeader) : bool := endianness (base h) =? ENDIANNESS_LITTLE.
Definition field (f : ElfHeaderRest -> Z) (h : ElfHeader) : Z := if is_elf64 h then f (header64 h) else f (header32 h).
Definition entry (h : ElfHeader) : Z := field entry_ h.
Definition program_header_offset (h : ElfHeader) : Z := field program_header_offset_ h.
Definition program_header_entry_size (h : ElfHeader) : Z := field program_header_entry_size_ h.
Definition program_header_entry_count (h : ElfHeader) : Z := field program_header_entry_count_ h.
Definition section_header_offset (h : ElfHeader) : Z := field section_header_offset_ h.
Definition section_header_entry_size (h : ElfHeader) : Z := field section_header_entry_size_ h.
Definition section_header_entry_count (h : ElfHeader) : Z := field section_header_entry_count_ h.
Definition section_header_string_table_index (h : ElfHeader) : Z := field section_header_string_table_index_ h.
Definition size_of_header (h : ElfHeader) : Z := field header_size_ h.

(** ** Program headers *)
Inductive ElfProgramType : Type :=
| Null | Load | Dynamic | Interpreter | Note | Shlib | ProgramHeader | ThreadLocalStorage
| OsSpecific (ty : Z) | ProcessorSpecific (ty : Z).
Definition program_type_from_u32 (ty : Z) : ElfProgramType :=
  if ty =? 0 then Null else if ty =? 1 then Load else if ty =? 2 then Dynamic else if ty =? 3 then Interpreter
  else if ty =? 4 then Note else if ty =? 5 then Shlib else if ty =? 6 then ProgramHeader else if ty =? 7 then ThreadLocalStorage
  else if (0x60000000 <=? ty) && (ty <=? 0x6fffffff) then OsSpecific ty
  else if (0x70000000 <=? ty) && (ty <=? 0x7fffffff) then ProcessorSpecific ty
  else Null.

Record ElfProgram32 : Type := mkProgram32 {
  ty32 : Z; offset32 : Z; virtual_address32 : Z; physical_address32 : Z; file_size32 : Z; mem_size32 : Z; flags32 : Z; alignment32 : Z
}.
Record ElfProgram64 : Type := mkProgram64 {
  ty64 : Z; flags64 : Z; offset64 : Z; virtual_address64 : Z; physical_address64 : Z; file_size64 : Z; mem_size64 : Z; alignment64 : Z
}.
Definition program32_widths : list nat := [4; 4; 4; 4; 4; 4; 4; 4]%nat.
Definition program64_widths : list nat := [4; 4; 8; 8; 8; 8; 8; 8]%nat.
Definition program32_of (l : list Z) : ElfProgram32 :=
  let f i := nth i l 0 in mkProgram32 (f 0%nat) (f 1%nat) (f 2%nat) (f 3%nat) (f 4%nat) (f 5%nat) (f 6%nat) (f 7%nat).
Definition program64_of (l : list Z) : ElfProgram64 :=
  let f i := nth i l 0 in mkProgram64 (f 0%nat) (f 1%nat) (f 2%nat) (f 3%nat) (f 4%nat) (f 5%nat) (f 6%nat) (f 7%nat).

Inductive ElfProgram : Type := Program32 (p : ElfProgram32) | Program64 (p : ElfProgram64).
Definition ty (p : ElfProgram) : ElfProgramType :=
  program_type_from_u32 (match p with Program32 p => ty32 p | Program64 p => ty64 p end).
Definition offset (p : ElfProgram) : Z := match p with Program32 p => offset32 p | Program64 p => offset64 p end.
Definition virtual_address (p : ElfProgram) : Z := match p with Program32 p => virtual_address32 p | Program64 p => virtual_address64 p end.
Definition physical_address (p : ElfProgram) : Z := match p with Program32 p => physical_address32 p | Program64 p => physical_address64 p end.
Definition file_size (p : ElfProgram) : Z := match p with Program32 p => file_size32 p | Program64 p => file_size64 p end.
Definition mem_size (p : ElfProgram) : Z := match p with Program32 p => mem_size32 p | Program64 p => mem_size64 p end.
Definition flags (p : ElfProgram) : Z := match p with Program32 p => flags32 p | Program64 p => flags64 p end.
Definition alignment (p : ElfProgram) : Z := match p with Program32 p => alignment32 p | Program64 p => alignment64 p end.

(** ** Section headers *)
Inductive ElfSectionType : Type :=
| SNull | ProgramBits | SymbolTable | StringTable | Rela | Hash | SDynamic | SNote | NoBits | Rel | SShlib | DynamicSymbols
| InitArray | FiniArray | PreInitArray | Group | ExtendedSymbolTableIndices | Num | Other (ty : Z).
Definition section_type_from_u32 (ty : Z) : ElfSectionType :=
  if ty =? 0 then SNull else if ty =? 1 then ProgramBits else if ty =? 2 then SymbolTable else if ty =? 3 then StringTable
  else if ty =? 4 then Rela else if ty =? 5 then Hash else if ty =? 6 then SDynamic else if ty =? 7 then SNote
  else if ty =? 8 then NoBits else if ty =? 9 then Rel else if ty =? 10 then SShlib else if ty =? 11 then DynamicSymbols
  else if ty =? 14 then InitArray else if ty =? 15 then FiniArray else if ty =? 16 then PreInitArray else if ty =? 17 then Group
  else if ty =? 18 then ExtendedSymbolTableIndices else if ty =? 19 then Num
  else if (0x60000000 <=? ty) && (ty <=? 0x6fffffff) then Other ty else SNull.

(** [ElfSection32] and [ElfSection64] have the same fields in the same order *)
Record ElfSectionFields : Type := mkSection {
  s_name : Z; s_ty : Z; s_flags : Z; s_address : Z; s_offset : Z; s_size : Z; s_link : Z; s_info : Z; s_alignment : Z; s_entry_size : Z
}.
Definition section32_widths : list nat := [4; 4; 4; 4; 4; 4; 4; 4; 4; 4]%nat.
Definition section64_widths : list nat := [4; 4; 8; 8; 8; 8; 4; 4; 8; 8]%nat.
Definition section_of (l : list Z) : ElfSectionFields :=
  let f i := nth i l 0 in mkSection (f 0%nat) (f 1%nat) (f 2%nat) (f 3%nat) (f 4%nat) (f 5%nat) (f 6%nat) (f 7%nat) (f 8%nat) (f 9%nat).
Inductive ElfSectionInner : Type := Section32 (s : ElfSectionFields) | Section64 (s : ElfSectionFields).
Definition section_fields (s : ElfSectionInner) : ElfSectionFields := match s with Section32 s | Section64 s => s end.
Definition section_ty (s : ElfSectionInner) : ElfSectionType := section_type_from_u32 (s_ty (section_fields s)).
Record ElfSection : Type := mkElfSection { name : bytes; inner : ElfSectionInner }.
Definition section_address (s : ElfSection) : Z := s_address (section_fields (inner s)).
Definition section_size (s : ElfSection) : Z := s_size (section_fields (inner s)).

(** [ElfSection::new]: the name is cut out of the string table; an index
    outside it, a name without end and one that is not UTF-8 are panics *)
Definition section_new (inner : ElfSectionInner) (string_table : bytes) : outcome ElfSection :=
  let i := s_name (section_fields inner) in
  _ ← assert_that (i <=? Z.of_nat (length string_table));
  s ← unwrap (until_nul (drop (Z.to_nat i) string_table));
  _ ← assert_that (utf8 s);
  Ret (mkElfSection s inner).

Record Elf : Type := mkElf { header : ElfHeader; program_headers : list ElfProgram; sections : list ElfSection }.
Definition entry_point (e : Elf) : Z := entry (header e).

(** ** [Elf::load] *)
Section load.
Context {F W : Type} `{FileSystem F W} (fuel : nat).
Notation FS := (Vfs.FS (F := F) (W := W)).
Notation L A := (ST FS (result A ElfLoadError)) (only parsing).

(** [?] on a file system result *)
Definition fs_try {A} (m : ST FS (result A FileSystemError)) : L A :=
  r ← m; mret (match r with Ok a => Ok a | Err e => Err (FsError e) end).

(** a read that must fill the buffer *)
Definition read_exact (n : Z) : L bytes :=
  b ←? fs_try (Vfs.read fuel n);
  if Z.of_nat (length b) =? n then mret (Ok b) else mret (Err UnexpectedEndOfFile).
Definition seek (position : Z) : L unit := fs_try (Vfs.seek position).

Definition program_load (is64 : bool) (entry_size : Z) : L ElfProgram :=
  if is64 then
    if entry_size =? 56 then b ←? read_exact 56; mret (Ok (Program64 (program64_of (unpack program64_widths b))))
    else mret (Err InvalidElfOrNotSupported)
  else
    if entry_size =? 32 then b ←? read_exact 32; mret (Ok (Program32 (program32_of (unpack program32_widths b))))
    else mret (Err InvalidElfOrNotSupported).

Definition section_load (is64 : bool) (entry_size : Z) : L ElfSectionInner :=
  if is64 then
    if entry_size =? 64 then b ←? read_exact 64; mret (Ok (Section64 (section_of (unpack section64_widths b))))
    else mret (Err InvalidElfOrNotSupported)
  else
    if entry_size =? 40 then b ←? read_exact 40; mret (Ok (Section32 (section_of (unpack section32_widths b))))
    else mret (Err InvalidElfOrNotSupported).

Fixpoint load_programs (n : nat) (is64 : bool) (entry_size : Z) : L (list ElfProgram) :=
  match n with
  | O => mret (Ok [])
  | S n => p ←? program_load is64 entry_size; l ←? load_programs n is64 entry_size; mret (Ok (p :: l))
  end.
Fixpoint load_sections (n : nat) (is64 : bool) (entry_size : Z) (string_table : bytes) : L (list ElfSection) :=
  match n with
  | O => mret (Ok [])
  | S n =>
      i ←? section_load is64 entry_size;
      s ← lift (section_new i string_table);
      l ←? load_sections n is64 entry_size string_table;
      mret (Ok (s :: l))
  end.

(** [vec![0u8; n]], which panics above [isize::MAX], with what was read at
    its start *)
Definition fill (n : Z) (b : bytes) : bytes := b ++ replicate (Z.to_nat n - length b) 0.

Definition load : L Elf :=
  b ←? read_exact HEADER_SIZE;
  let h := header_of b in
  if negb (bool_decide (take 4 b = ELF_MAGIC)) then mret (Err InvalidMagic)
  else if negb (is_valid_and_supported h) then mret (Err InvalidElfOrNotSupported)
  else
    _ ←? seek (program_header_offset h);
    programs ←? load_programs (Z.to_nat (program_header_entry_count h)) (is_elf64 h) (program_header_entry_size h);
    let string_table_index := section_header_string_table_index h in
    _ ← lift (assert_that (string_table_index <? section_header_entry_count h));
    o ← lift (cmul 64 (section_header_entry_size h) string_table_index);
    string_table_position ← lift (cadd 64 (section_header_offset h) o);
    _ ←? seek string_table_position;
    strings ←? section_load (is_elf64 h) (section_header_entry_size h);
    _ ← lift (assert_that (s_size (section_fields strings) <? 2 ^ 63));
    _ ←? seek (s_offset (section_fields strings));
    b ←? fs_try (Vfs.read fuel (s_size (section_fields strings)));
    let string_table := fill (s_size (section_fields strings)) b in
    _ ←? seek (section_header_offset h);
    sections ←? load_sections (Z.to_nat (section_header_entry_count h)) (is_elf64 h) (section_header_entry_size h) string_table;
    mret (Ok (mkElf h programs sections)).
End load.

(** ** Segments in memory *)
(** What the loader uses of an address space while it is the active one:
    mapping fresh pages, and storing bytes at an address. *)
Class ImageSpace (V : Type) : Type := {
  im_map : Z -> Z -> Z -> V -> outcome V;
  im_store : Z -> bytes -> V -> outcome V;
  im_mapped : V -> Z -> bool
}.

Record ProcessMetadata : Type := mkMeta {
  pid : Z; image_base : Z; image_size : Z; program_headers_offset : Z;
  eh_frame_address : Z; eh_frame_size : Z; text_address : Z; text_size : Z
}.
Definition meta_empty : ProcessMetadata := mkMeta 0 0 0 0 0 0 0 0.
Definition meta_words (m : ProcessMetadata) : list Z :=
  [pid m; image_base m; image_size m; program_headers_offset m; eh_frame_address m; eh_frame_size m; text_address m; text_size m].
Definition encode_meta (m : ProcessMetadata) : bytes := pack (replicate 8 8%nat) (meta_words m).

Section image.
Context {F W V : Type} `{FileSystem F W} `{ImageSpace V} (fuel : nat).
Notation FS := (Vfs.FS (F := F) (W := W)).

(** the file, the new address space, the CPU, and whether the new address
    space is the active one *)
Record LoadState : Type := mkLoad { ls_file : FS; ls_vm : V; ls_cpu : Cpu.Cpu; ls_active : bool }.
Definition on_file {A} (m : ST FS A) : ST LoadState A := fun s =>
  match m (ls_file s) with
  | Ret (a, f) => Ret (a, mkLoad f (ls_vm s) (ls_cpu s) (ls_active s))
  | Panic => Panic
  | Diverge => Diverge
  end.
Definition on_vm (f : V -> outcome V) : ST LoadState unit :=
  s ← get; v ← lift (f (ls_vm s)); modify (fun s => mkLoad (ls_file s) v (ls_cpu s) (ls_active s)).
Definition on_cpu (f : Cpu.Cpu -> outcome Cpu.Cpu) : ST LoadState unit :=
  s ← get; c ← lift (f (ls_cpu s)); modify (fun s => mkLoad (ls_file s) (ls_vm s) c (ls_active s)).
Definition switch_to (b : bool) : ST LoadState unit := modify (fun s => mkLoad (ls_file s) (ls_vm s) (ls_cpu s) b).

(** [USIZE_MAX] *)
Definition USIZE_MAX : Z := 2 ^ 64 - 1.
Record Extent : Type := mkExtent { min_address : Z; max_address : Z; phdr_address : Z }.

(** a segment of type [Load] *)
Definition load_segment (p : ElfProgram) (x : Extent) : ST LoadState (result Extent FileSystemError) :=
  let segment_virtual := virtual_address p in
  _ ← lift (assert_that (segment_virtual =? physical_address p));
  let fl := Z.lor (to_virtual_memory_flags (flags p)) PageTables.PTE_USER in
  e ← lift (cadd 64 segment_virtual (mem_size p));
  let x := mkExtent (Z.min (min_address x) segment_virtual) (Z.max (max_address x) e) (phdr_address x) in
  _ ← on_vm (im_map segment_virtual (mem_size p) fl);
  _ ←? on_file (Vfs.seek (offset p));
  b ←? on_file (Vfs.read fuel (file_size p));
  _ ← on_vm (im_store segment_virtual b);
  _ ← lift (assert_that (Z.of_nat (length b) =? file_size p));
  mret (Ok x).

Fixpoint load_segments (l : list ElfProgram) (x : Extent) : ST LoadState (result Extent FileSystemError) :=
  match l with
  | [] => mret (Ok x)
  | p :: l =>
      x ←? (match ty p with
            | Load => load_segment p x
            | ProgramHeader => mret (Ok (mkExtent (min_address x) (max_address x) (virtual_address p)))
            | _ => mret (Ok x)
            end);
      load_segments l x
  end.

Definition scan_section (m : ProcessMetadata) (s : ElfSection) : ProcessMetadata :=
  if bool_decide (name s = of_string ".eh_frame") then
    mkMeta (pid m) (image_base m) (image_size m) (program_headers_offset m) (section_address s) (section_size s) (text_address m) (text_size m)
  else if bool_decide (name s = of_string ".text") then
    mkMeta (pid m) (image_base m) (image_size m) (program_headers_offset m) (eh_frame_address m) (eh_frame_size m) (section_address s) (section_size s)
  else m.

Definition load_elf_to_vm (elf : Elf) (process_meta : ProcessMetadata)
    : ST LoadState (result (Z * Z * ProcessMetadata) FileSystemError) :=
  _ ← on_cpu Cpu.push_cli;
  _ ← switch_to true;
  x ←? load_segments (program_headers elf) (mkExtent USIZE_MAX 0 0);
  let m := foldl scan_section process_meta (sections elf) in
  let lo := min_address x in let hi := max_address x in
  sz ← lift (csub hi lo);
  _ ← lift (assert_that ((lo <=? phdr_address x) && (phdr_address x <? hi)));
  let m := if (eh_frame_address m <? lo) || (hi <=? eh_frame_address m)
           then mkMeta (pid m) lo sz (phdr_address x - lo) 0 0 (text_address m) (text_size m)
           else mkMeta (pid m) lo sz (phdr_address x - lo) (eh_frame_address m) (eh_frame_size m) (text_address m) (text_size m) in
  _ ← switch_to false;
  _ ← on_cpu Cpu.pop_cli;
  mret (Ok (lo, hi, m)).
End image.
End Elf.
