(* ===== verification/ElfSpec.v ===== *)
(** * What [Elf::load] accepts

    A file that holds an ELF image is read back as that image, from wherever
    its tables lie; a file that is too short, has the wrong magic or an
    unsupported header is refused before anything else is read. *)
From S2P Require Import Prelude MemLayout UserLink FsTypes Locks PageTables Path Mount MountSpec Vfs VfsSpec Bytes Elf.

Import Mount Vfs Elf.

(** [b] lies at [o] in [content] *)
Definition slice (content : bytes) (o n : Z) : bytes := take (Z.to_nat n) (drop (Z.to_nat o) content).
Definition at_offset (content : bytes) (o : Z) (b : bytes) : Prop :=
  0 <= o /\ o + Z.of_nat (length b) <= Z.of_nat (length content) /\ slice content o (Z.of_nat (length b)) = b.

Lemma length_slice content o n : 0 <= o -> 0 <= n -> o + n <= Z.of_nat (length content) -> length (slice content o n) = Z.to_nat n.
Proof. intros. unfold slice. rewrite length_take, length_drop. lia. Qed.

Section reader.
Context {F W : Type} `{FileSystem F W} (fuel : nat).
Notation FS := (Vfs.FS (F := F) (W := W)).

(** a file system that reads what is asked for, up to the end of the file *)
Record full_reads (fs : dynfs (F := F)) (inode : FileNode) (content : bytes) (inv : W -> AccessHelper -> Prop) : Prop := {
  fr_read : forall w h pos n, inv w h -> 0 <= pos <= Z.of_nat (length content) -> 0 <= n ->
    exists w' h', Vfs.read_file fs inode pos n h w = Ret ((Ok (slice content pos n), h'), w') /\ inv w' h'
}.

Context (fs : dynfs (F := F)) (inode : FileNode) (content : bytes) (inv : W -> AccessHelper -> Prop).
Context (Hfull : full_reads fs inode content inv) (Hsize : Z.of_nat (length content) < 2 ^ 63).

(** the handle at the position [pos] *)
Definition handle (pos : Z) (s : FS) : Prop :=
  plain_reader fs inode s.2 /\ inv s.1 (f_access_helper s.2) /\ f_position s.2 = pos.

Lemma wp_read pos n s : handle pos s -> 0 <= pos <= Z.of_nat (length content) -> 0 <= n ->
  wp False (Vfs.read fuel n) s (fun r s' => r = Ok (slice content pos n) /\ handle (pos + Z.of_nat (length (slice content pos n))) s').
Proof using Hfull Hsize.
  destruct s as [w f]. intros ([Hfs Hin Hmode Hacc] & Hinv & Hpos) Hb Hn. cbn in Hfs, Hin, Hmode, Hacc, Hinv, Hpos.
  destruct (fr_read _ _ _ _ Hfull w (f_access_helper f) pos n Hinv Hb Hn) as (w' & h' & Hr & Hinv').
  unfold Vfs.read. wp_step. wp_step. rewrite Hacc, Hmode.
  assert (Hl : Z.of_nat (length (slice content pos n)) <= Z.of_nat (length content) - pos).
  { unfold slice. rewrite length_take, length_drop. lia. }
  wp_step. unfold wp, fs_read. rewrite Hfs, Hin, Hpos, Hr.
  change (wp False (advance (slice content pos n)) (w', with_helper h' f)
    (fun r s' => r = Ok (slice content pos n) /\ handle (pos + Z.of_nat (length (slice content pos n))) s')).
  unfold advance. wp_step. wp_step. wp_step. cbn [with_helper f_position]. rewrite Hpos.
  eapply wp_lift_ret; [apply cadd_ret; lia|]. wp_steps. split; [done|]. by split_and!.
Qed.

Lemma wp_fs_try {A} (m : ST FS (result A FileSystemError)) s (Q : result A ElfLoadError -> FS -> Prop) :
  wp False m s (fun r s' => match r with Ok a => Q (Ok a) s' | Err e => Q (Err (FsError e)) s' end) -> wp False (fs_try m) s Q.
Proof. intros Hm. unfold fs_try. wp_step. eapply wp_mono; [exact Hm|]. intros [a|e] s' HQ; wp_steps; done. Qed.

Lemma wp_read_exact pos n s : handle pos s -> 0 <= pos -> 0 <= n -> pos + n <= Z.of_nat (length content) ->
  wp False (read_exact fuel n) s (fun r s' => r = Ok (slice content pos n) /\ handle (pos + n) s').
Proof using Hfull Hsize.
  intros Hh Hp Hn Hb. unfold read_exact. apply wp_ebind, wp_fs_try. eapply wp_mono; [apply (wp_read pos n); [done|lia|done]|].
  cbn beta. intros r s' [-> Hh']. assert (Hl : length (slice content pos n) = Z.to_nat n) by (apply length_slice; lia).
  assert (Hln : Z.of_nat (length (slice content pos n)) = n) by lia. rewrite Hln in Hh' |- *. rewrite Z.eqb_refl. wp_steps. done.
Qed.

Lemma wp_read_short pos n s : handle pos s -> 0 <= pos <= Z.of_nat (length content) -> Z.of_nat (length content) < pos + n -> 0 <= n ->
  wp False (read_exact fuel n) s (fun r s' => r = Err UnexpectedEndOfFile).
Proof using Hfull Hsize.
  intros Hh Hp Hs Hn. unfold read_exact. apply wp_ebind, wp_fs_try. eapply wp_mono; [apply (wp_read pos n); done|].
  cbn beta. intros r s' [-> _]. rewrite (proj2 (Z.eqb_neq _ n)); [by wp_steps|]. unfold slice. rewrite length_take, length_drop. lia.
Qed.

Lemma wp_seek pos p s (Q : result unit ElfLoadError -> FS -> Prop) :
  handle pos s -> (forall s', handle p s' -> Q (Ok tt) s') -> wp False (Elf.seek p) s Q.
Proof. destruct s as [w f]. intros ([H1 H2 H3 H4] & Hinv & _) HQ. unfold Elf.seek. apply wp_fs_try. unfold wp, Vfs.seek. apply HQ. by split_and!. Qed.

(** ** Tables *)
(** [l] encoded one after the other from [o] on *)
Definition table_at (ws : list nat) (o : Z) (l : list (list Z)) : Prop :=
  Forall (fun v => Forall2 fits ws v) l /\ at_offset content o (concat (pack ws <$> l)).

Lemma slice_split o a b : at_offset content o (a ++ b) -> at_offset content o a /\ at_offset content (o + Z.of_nat (length a)) b.
Proof.
  unfold at_offset, slice. rewrite length_app, !Nat2Z.id. intros (H0 & Hl & E). split.
  - split_and!; [done|lia|]. assert (Ha := f_equal (take (length a)) E).
    rewrite take_take, Nat.min_l, take_app_length in Ha by lia. done.
  - split_and!; [lia|lia|]. assert (Hb := f_equal (drop (length a)) E).
    rewrite drop_app_length, skipn_firstn_comm, drop_drop in Hb.
    replace (length a + length b - length a)%nat with (length b) in Hb by lia. rewrite <- Hb at 2. do 2 f_equal. lia.
Qed.

Lemma wp_read_at o b s : at_offset content o b -> handle o s ->
  wp False (read_exact fuel (Z.of_nat (length b))) s (fun r s' => r = Ok b /\ handle (o + Z.of_nat (length b)) s').
Proof using Hfull Hsize.
  intros (H0 & Hl & E) Hh. eapply wp_mono; [apply (wp_read_exact o); [done|done|lia|done]|]. cbn beta. intros r s' [-> Hh']. by rewrite E.
Qed.

Lemma pack_length ws v : Forall2 fits ws v -> length (pack ws v) = width ws.
Proof. intros Hf. apply length_pack. by eapply Forall2_length. Qed.

Lemma unpack_one ws v : Forall2 fits ws v -> unpack ws (pack ws v) = v.
Proof. intros Hf. rewrite <- (app_nil_r (pack ws v)). by apply unpack_pack. Qed.

(** one entry of a table of program headers *)
Lemma wp_program_load o v s : Forall2 fits program64_widths v -> at_offset content o (pack program64_widths v) -> handle o s ->
  wp False (program_load fuel true 56) s (fun r s' => r = Ok (Program64 (program64_of v)) /\ handle (o + 56) s').
Proof using Hfull Hsize.
  intros Hf Ho Hh. unfold program_load. cbn [Z.eqb Pos.eqb]. apply wp_ebind. pose proof (wp_read_at o _ s Ho Hh) as Hr.
  rewrite (pack_length _ _ Hf) in Hr. eapply wp_mono; [exact Hr|]. cbn beta. intros r s' [-> Hh']. wp_steps. split; [|done].
  by rewrite unpack_one.
Qed.

Lemma wp_section_load o v s : Forall2 fits section64_widths v -> at_offset content o (pack section64_widths v) -> handle o s ->
  wp False (section_load fuel true 64) s (fun r s' => r = Ok (Section64 (section_of v)) /\ handle (o + 64) s').
Proof using Hfull Hsize.
  intros Hf Ho Hh. unfold section_load. cbn [Z.eqb Pos.eqb]. apply wp_ebind. pose proof (wp_read_at o _ s Ho Hh) as Hr.
  rewrite (pack_length _ _ Hf) in Hr. eapply wp_mono; [exact Hr|]. cbn beta. intros r s' [-> Hh']. wp_steps. split; [|done].
  by rewrite unpack_one.
Qed.

Lemma table_cons ws o v l : table_at ws o (v :: l) ->
  Forall2 fits ws v /\ at_offset content o (pack ws v) /\ table_at ws (o + Z.of_nat (width ws)) l.
Proof.
  intros [Hf Ho]. apply Forall_cons in Hf as [Hv Hl]. cbn [fmap list_fmap concat] in Ho. apply slice_split in Ho as [H1 H2].
  rewrite (pack_length _ _ Hv) in H2. by split_and!.
Qed.

Lemma wp_load_programs l : forall o s, table_at program64_widths o l -> handle o s ->
  wp False (load_programs fuel (length l) true 56) s (fun r s' => r = Ok ((fun v => Program64 (program64_of v)) <$> l) /\ exists p, handle p s').
Proof using Hfull Hsize.
  induction l as [|v l IH]; intros o s Ht Hh; cbn [length load_programs].
  { wp_steps. split; [done|by exists o]. }
  apply table_cons in Ht as (Hv & Ho & Ht). apply wp_ebind. eapply wp_mono; [by apply (wp_program_load o v)|]. cbn beta.
  intros r s' [-> Hh']. apply wp_ebind. eapply wp_mono; [by apply (IH (o + 56))|]. cbn beta. intros r s'' [-> Hp]. wp_steps. done.
Qed.

(** the string table names the sections *)
Definition names_section (strings : bytes) (v : list Z) (name : bytes) : Prop :=
  exists rest, drop (Z.to_nat (nth 0 v 0)) strings = name ++ 0 :: rest /\ 0 ∉ name /\ utf8 name = true.

Lemma section_new_spec strings v n : Forall2 fits section64_widths v -> names_section strings v n ->
  section_new (Section64 (section_of v)) strings = Ret (mkElfSection n (Section64 (section_of v))).
Proof.
  intros Hf (rest & Hd & H0 & Hu). unfold section_new. cbn [section_fields section_of s_name].
  assert (Hi : 0 <= nth 0 v 0 <= Z.of_nat (length strings)).
  { assert (Hl : length strings <> 0%nat \/ nth 0 v 0 = 0) by (destruct strings; [exfalso; rewrite drop_nil in Hd; by destruct n|by left]).
    assert (0 <= nth 0 v 0) by (inversion Hf as [|? ? ? ? Hx]; subst; cbn; apply Hx).
    split; [done|]. destruct (Z.leb_spec (nth 0 v 0) (Z.of_nat (length strings))); [done|].
    rewrite drop_ge in Hd by lia. by destruct n. }
  rewrite (proj2 (Z.leb_le _ _)) by lia. cbn [assert_that mbind outcome_bind]. rewrite Hd, until_nul_found by done. cbn. by rewrite Hu.
Qed.

Lemma wp_load_sections strings l : forall names o s, table_at section64_widths o l -> Forall2 (names_section strings) l names -> handle o s ->
  wp False (load_sections fuel (length l) true 64 strings) s
    (fun r s' => r = Ok (zip_with (fun n v => mkElfSection n (Section64 (section_of v))) names l) /\ exists p, handle p s').
Proof using Hfull Hsize.
  induction l as [|v l IH]; intros names o s Ht Hn Hh; cbn [length load_sections].
  { inversion Hn; subst. wp_steps. split; [done|by exists o]. }
  inversion Hn as [|? n ? ns Hn1 Hn2]; subst. apply table_cons in Ht as (Hv & Ho & Ht). apply wp_ebind.
  eapply wp_mono; [by apply (wp_section_load o v)|]. cbn beta. intros r s' [-> Hh']. wp_step.
  eapply wp_lift_ret; [by apply section_new_spec|]. apply wp_ebind. eapply wp_mono; [by apply (IH ns (o + 64))|]. cbn beta.
  intros r s'' [-> Hp]. wp_steps. done.
Qed.

Lemma table_nth ws l : forall o (i : nat) v, table_at ws o l -> l !! i = Some v ->
  Forall2 fits ws v /\ at_offset content (o + Z.of_nat (width ws) * Z.of_nat i) (pack ws v).
Proof.
  induction l as [|x l IH]; intros o i v Ht Hi; [done|]. apply table_cons in Ht as (Hv & Ho & Ht). destruct i as [|i]; cbn in Hi.
  - injection Hi as ->. split; [done|]. by rewrite Z.mul_0_r, Z.add_0_r.
  - destruct (IH _ _ _ Ht Hi) as [H1 H2]. split; [done|].
    replace (o + Z.of_nat (width ws) * Z.of_nat (S i)) with (o + Z.of_nat (width ws) + Z.of_nat (width ws) * Z.of_nat i) by lia. done.
Qed.

(** ** An image in a file *)
Definition program64_list (p : ElfProgram64) : list Z :=
  [ty64 p; flags64 p; offset64 p; virtual_address64 p; physical_address64 p; file_size64 p; mem_size64 p; alignment64 p].
Definition section_list (s : ElfSectionFields) : list Z :=
  [s_name s; s_ty s; s_flags s; s_address s; s_offset s; s_size s; s_link s; s_info s; s_alignment s; s_entry_size s].

(** [content] is a 64-bit executable with these headers, segments, sections
    and names, wherever in the file its tables lie *)
Record holds_image (b : ElfHeaderBase) (r : ElfHeaderRest) (programs : list ElfProgram64) (sections : list ElfSectionFields)
    (names : list bytes) (strings : bytes) (strtab : ElfSectionFields) : Prop := {
  hi_base : Forall2 fits base_widths (base_list b);
  hi_rest : Forall2 fits header64_widths (rest_list r);
  hi_header : at_offset content 0 (pack base_widths (base_list b) ++ pack header64_widths (rest_list r));
  hi_magic : le 4 (magic b) = ELF_MAGIC;
  hi_bits : bits b = BITS_64;
  hi_valid : is_valid_and_supported (mkHeader b []) = true;
  hi_psize : program_header_entry_size_ r = 56;
  hi_pcount : program_header_entry_count_ r = Z.of_nat (length programs);
  hi_programs : table_at program64_widths (program_header_offset_ r) (program64_list <$> programs);
  hi_ssize : section_header_entry_size_ r = 64;
  hi_scount : section_header_entry_count_ r = Z.of_nat (length sections);
  hi_sections : table_at section64_widths (section_header_offset_ r) (section_list <$> sections);
  hi_strtab : sections !! Z.to_nat (section_header_string_table_index_ r) = Some strtab;
  hi_strings : at_offset content (s_offset strtab) strings /\ s_size strtab = Z.of_nat (length strings);
  hi_names : Forall2 (names_section strings) (section_list <$> sections) names
}.

Lemma header_roundtrip b r : Forall2 fits base_widths (base_list b) -> Forall2 fits header64_widths (rest_list r) ->
  let h := header_of (pack base_widths (base_list b) ++ pack header64_widths (rest_list r)) in
  base h = b /\ header64 h = r.
Proof.
  intros Hb Hr h. unfold h, header_of, header64. cbn [base union]. rewrite unpack_pack by done. rewrite drop_app_length' by (symmetry; by apply pack_length).
  rewrite unpack_one by done. by destruct b, r.
Qed.

Lemma rest_fits r : Forall2 fits header64_widths (rest_list r) ->
  0 <= section_header_string_table_index_ r < 2 ^ 16 /\ 0 <= section_header_offset_ r.
Proof.
  intros Hf. pose proof (Forall2_lookup_lr _ _ _ 9 2%nat (section_header_string_table_index_ r) Hf eq_refl eq_refl) as [H1 H2].
  pose proof (Forall2_lookup_lr _ _ _ 2 8%nat (section_header_offset_ r) Hf eq_refl eq_refl) as [H3 _]. split; [|done]. split; [done|exact H2].
Qed.

Lemma valid_base h b : base h = b -> is_valid_and_supported h = is_valid_and_supported (mkHeader b []).
Proof. intros <-. done. Qed.

Lemma wp_load_header s (b : ElfHeaderBase) (r : ElfHeaderRest) (Q : result Elf ElfLoadError -> FS -> Prop) :
  Forall2 fits base_widths (base_list b) -> Forall2 fits header64_widths (rest_list r) ->
  let raw := pack base_widths (base_list b) ++ pack header64_widths (rest_list r) in
  at_offset content 0 raw -> handle 0 s ->
  wp False (read_exact fuel HEADER_SIZE) s (fun x s' => x = Ok raw /\ handle 64 s').
Proof using Hfull Hsize.
  intros Hb Hr raw Ho Hh. pose proof (wp_read_at 0 raw s Ho Hh) as Hw. unfold raw in Hw. rewrite length_app, !pack_length in Hw by done. exact Hw.
Qed.

(** C21: A file that holds a 64-bit image is decoded to exactly that image: the
    header, every program header and every section with its name, whatever
    the order of the tables in the file. *)
Theorem elf_load_decodes s b r programs sections names strings strtab :
  handle 0 s -> holds_image b r programs sections names strings strtab ->
  exists h s', base h = b /\ header64 h = r /\
    load fuel s = Ret (Ok (mkElf h (Program64 <$> programs) (zip_with (fun n v => mkElfSection n (Section64 v)) names sections)), s').
Proof using Hfull Hsize.
  intros Hh []. set (raw := pack base_widths (base_list b) ++ pack header64_widths (rest_list r)).
  destruct (header_roundtrip b r) as [Eb Er]; [done|done|]. fold raw in Eb, Er.
  exists (header_of raw). 
  enough (Hwp : wp False (load fuel) s (fun x s' => x = Ok (mkElf (header_of raw) (Program64 <$> programs)
      (zip_with (fun n v => mkElfSection n (Section64 v)) names sections)))).
  { destruct (wp_total _ _ _ Hwp) as (x & s' & E & ->). by exists s'. }
  assert (E64 : is_elf64 (header_of raw) = true) by (unfold is_elf64; rewrite Eb, hi_bits0; done).
  assert (Ef : forall f, field f (header_of raw) = f r) by (intros f; unfold field; by rewrite E64, Er).
  unfold load. apply wp_ebind. eapply wp_mono; [by apply (wp_load_header s b r (fun _ _ => True))|]. cbn beta. fold raw. intros x s1 [-> Hh1].
  assert (Emag : take 4 raw = ELF_MAGIC).
  { unfold raw. cbn [base_widths base_list pack]. rewrite <- app_assoc, take_app_length' by (by rewrite length_le). done. }
  rewrite Emag, bool_decide_eq_true_2 by done. cbn [negb]. rewrite (valid_base _ _ Eb), hi_valid0. cbn [negb].
  unfold program_header_offset, program_header_entry_count, program_header_entry_size, section_header_string_table_index,
    section_header_entry_count, section_header_entry_size, section_header_offset. rewrite !Ef, E64, hi_psize0, hi_pcount0, hi_ssize0, hi_scount0, !Nat2Z.id.
  apply wp_ebind. eapply wp_seek; [exact Hh1|]. intros s2 Hh2. apply wp_ebind.
  pose proof (wp_load_programs _ _ _ hi_programs0 Hh2) as Hlp. rewrite length_fmap in Hlp. eapply wp_mono; [exact Hlp|]. cbn beta. intros x s3 [-> [p3 Hh3]].
  destruct (rest_fits r hi_rest0) as [Hidx Hsoff].
  destruct (table_nth _ _ _ (Z.to_nat (section_header_string_table_index_ r)) (section_list strtab) hi_sections0) as [Hfs Hos].
  { by rewrite list_lookup_fmap, hi_strtab0. }
  pose proof (lookup_lt_Some _ _ _ hi_strtab0) as Hlt. rewrite Z2Nat.id in Hos by lia. change (Z.of_nat (width section64_widths)) with 64 in Hos.
  wp_step. apply wp_assert; [apply Z.ltb_lt; lia|]. wp_step. eapply wp_lift_ret; [apply cmul_ret; lia|]. wp_step.
  eapply wp_lift_ret; [apply cadd_ret; destruct Hos as (_ & Hos & _); rewrite (pack_length _ _ Hfs) in Hos; lia|].
  apply wp_ebind. eapply wp_seek; [exact Hh3|]. intros s4 Hh4. apply wp_ebind. eapply wp_mono; [exact (wp_section_load _ (section_list strtab) _ Hfs Hos Hh4)|].
  cbn beta. intros x s5 [-> Hh5]. cbn [section_fields]. replace (section_of (section_list strtab)) with strtab by by destruct strtab.
  destruct hi_strings0 as [Hstr Hsz]. rewrite Hsz. wp_step. apply wp_assert; [apply Z.ltb_lt; destruct Hstr; lia|].
  apply wp_ebind. eapply wp_seek; [exact Hh5|]. intros s6 Hh6. apply wp_ebind, wp_fs_try. destruct Hstr as (Hs0 & Hs1 & Hs2).
  eapply wp_mono; [apply (wp_read (s_offset strtab)); [exact Hh6|lia|lia]|]. cbn beta. rewrite Hs2. intros x s7 [-> Hh7].
  assert (Hfill : fill (Z.of_nat (length strings)) strings = strings).
  { unfold fill. rewrite Nat2Z.id, Nat.sub_diag. apply app_nil_r. }
  rewrite Hfill. apply wp_ebind. eapply wp_seek; [exact Hh7|]. intros s8 Hh8. apply wp_ebind.
  pose proof (wp_load_sections strings _ names _ _ hi_sections0 hi_names0 Hh8) as Hls. rewrite length_fmap in Hls.
  eapply wp_mono; [exact Hls|]. cbn beta.
  intros x s9 [-> _]. wp_steps. do 2 f_equal.
  - rewrite <- list_fmap_compose. apply list_fmap_ext. intros i p _. by destruct p.
  - rewrite zip_with_fmap_r. apply zip_with_ext; [|done..]. intros n v. by destruct v.
Qed.

(** What is not a complete supported ELF file is refused, in this order: too
    short, wrong magic, unsupported header. *)
Theorem elf_load_rejects s : handle 0 s ->
  (Z.of_nat (length content) < 64 -> exists s', load fuel s = Ret (Err UnexpectedEndOfFile, s')) /\
  (64 <= Z.of_nat (length content) -> take 4 content <> ELF_MAGIC -> exists s', load fuel s = Ret (Err InvalidMagic, s')) /\
  (64 <= Z.of_nat (length content) -> take 4 content = ELF_MAGIC -> is_valid_and_supported (header_of (take 64 content)) = false ->
     exists s', load fuel s = Ret (Err InvalidElfOrNotSupported, s')).
Proof using Hfull Hsize.
  intros Hh.
  assert (Hend : forall e, wp False (load fuel) s (fun r s' => r = Err e) -> exists s', load fuel s = Ret (Err e, s')).
  { intros e Hw. destruct (wp_total _ _ _ Hw) as (r & s' & E & ->). by exists s'. }
  assert (Hread : 64 <= Z.of_nat (length content) -> wp False (read_exact fuel HEADER_SIZE) s (fun r s' => r = Ok (take 64 content))).
  { intros Hl. eapply wp_mono; [apply (wp_read_exact 0); [done|done|unfold HEADER_SIZE; lia|exact Hl]|]. cbn beta. by intros r s' [-> _]. }
  split_and!.
  - intros Hl. apply Hend. unfold load. apply wp_ebind. eapply wp_mono; [apply (wp_read_short 0); [done|lia|unfold HEADER_SIZE; lia|unfold HEADER_SIZE; lia]|].
    cbn beta. by intros r s' ->.
  - intros Hl Hm. apply Hend. unfold load. apply wp_ebind. eapply wp_mono; [by apply Hread|]. cbn beta. intros r s' ->.
    rewrite take_take. change (4 `min` 64)%nat with 4%nat. rewrite bool_decide_eq_false_2 by done. cbn [negb]. by wp_steps.
  - intros Hl Hm Hv. apply Hend. unfold load. apply wp_ebind. eapply wp_mono; [by apply Hread|]. cbn beta. intros r s' ->.
    rewrite take_take. change (4 `min` 64)%nat with 4%nat. rewrite bool_decide_eq_true_2 by done. cbn [negb]. rewrite Hv. cbn [negb]. by wp_steps.
Qed.
End reader.

(** * Loading an image

    [load_elf_to_vm] puts every loadable segment where its header says, with
    the rest of its pages zero, changes nothing else, and leaves the CPU as it
    found it; the metadata describes the image.  Concrete files at the end. *)
Import Mount Vfs Elf.
From Stdlib Require String.
Import Stdlib.Strings.String.StringSyntax.

(** ** What the loader relies on *)
(** the pages that hold the bytes from [a] on *)
Definition page_floor (a : Z) : Z := a / PAGE_4K * PAGE_4K.
Definition page_ceil (a : Z) : Z := (a + PAGE_4K - 1) / PAGE_4K * PAGE_4K.
Definition in_pages (a n x : Z) : bool := (page_floor a <=? x) && (x <? page_ceil (a + n)).
Definition page_count (a n : Z) : Z := (page_ceil (a + n) - page_floor a) / PAGE_4K.

(** [im_ok k v]: the space is sound and [k] more pages can be mapped in it.
    Mapping gives fresh zeroed pages, whether or not something was there. *)
Class ImageLaws (V : Type) `{ImageSpace V} : Type := {
  im_ok : Z -> V -> Prop;
  im_mem : V -> Z -> Z;
  im_map_law : forall k v a n fl, im_ok (k + page_count a n) v -> 0 <= a -> 0 < n ->
    page_ceil (a + n) <= PageTables.MAX_USER_VIRTUAL_ADDRESS -> 0 <= k ->
    exists v', im_map a n (Z.lor fl PageTables.PTE_USER) v = Ret v' /\ im_ok k v' /\
      (forall x, im_mapped v' x = in_pages a n x || im_mapped v x) /\
      (forall x, im_mem v' x = if in_pages a n x then 0 else im_mem v x);
  im_store_law : forall k v a b, im_ok k v -> (forall x, a <= x < a + Z.of_nat (length b) -> im_mapped v x = true) ->
    exists v', im_store a b v = Ret v' /\ im_ok k v' /\ (forall x, im_mapped v' x = im_mapped v x) /\
      (forall x, im_mem v' x = if decide (a <= x < a + Z.of_nat (length b)) then nth (Z.to_nat (x - a)) b 0 else im_mem v x)
}.

Lemma page_floor_le a : page_floor a <= a.
Proof. unfold page_floor, PAGE_4K. dlia. Qed.
Lemma page_ceil_le a : a <= page_ceil a.
Proof. unfold page_ceil, PAGE_4K. dlia. Qed.
Lemma in_pages_inside a n x : a <= x < a + n -> in_pages a n x = true.
Proof.
  intros Hx. unfold in_pages. pose proof (page_floor_le a). pose proof (page_ceil_le (a + n)).
  apply andb_true_iff. split; [apply Z.leb_le; lia|apply Z.ltb_lt; lia].
Qed.
Lemma page_count_pos a n : 0 <= n -> 0 <= page_count a n.
Proof.
  intros Hn. unfold page_count. apply Z.div_pos; [|unfold PAGE_4K; lia]. pose proof (page_floor_le a). pose proof (page_ceil_le (a + n)). lia.
Qed.

Section image.
Context {F W V : Type} `{FileSystem F W} `{Himg : ImageSpace V} `{!ImageLaws V} (fuel : nat).
Context (fs : dynfs (F := F)) (inode : FileNode) (content : bytes) (inv : W -> AccessHelper -> Prop).
Context (Hfull : full_reads fs inode content inv) (Hsize : Z.of_nat (length content) < 2 ^ 63).
Notation handle := (handle fs inode inv).
Notation LS := (@LoadState F W V).

(** ** Segments *)
Definition is_load (p : ElfProgram) : bool := match ty p with Load => true | _ => false end.
Definition loads (l : list ElfProgram) : list ElfProgram := List.filter is_load l.

(** a segment the loader accepts *)
Record segment_ok (p : ElfProgram) : Prop := {
  sg_flat : virtual_address p = physical_address p;
  sg_addr : 0 <= virtual_address p;
  sg_mem : 0 < mem_size p;
  sg_size : 0 <= file_size p <= mem_size p;
  sg_file : 0 <= offset p /\ offset p + file_size p <= Z.of_nat (length content);
  sg_user : page_ceil (virtual_address p + mem_size p) <= PageTables.MAX_USER_VIRTUAL_ADDRESS
}.

(** the byte the file has for the address [x] of a segment; zero behind it *)
Definition segment_byte (p : ElfProgram) (x : Z) : Z :=
  if decide (virtual_address p <= x < virtual_address p + file_size p)
  then nth (Z.to_nat (offset p + (x - virtual_address p))) content 0 else 0.
Definition covers (p : ElfProgram) (x : Z) : bool := in_pages (virtual_address p) (mem_size p) x.
(** memory after the segments, in order: a segment takes whole pages *)
Definition place (m : Z -> Z) (p : ElfProgram) : Z -> Z := fun x => if covers p x then segment_byte p x else m x.
Definition placed (l : list ElfProgram) (m : Z -> Z) : Z -> Z := foldl place m l.
Definition pages_needed (l : list ElfProgram) : Z := foldr (fun p k => page_count (virtual_address p) (mem_size p) + k) 0 l.

Lemma nth_slice o n i : (i < Z.to_nat n)%nat -> nth i (slice content o n) 0 = nth (Z.to_nat o + i) content 0.
Proof. intros Hi. unfold slice. rewrite nth_firstn, nth_skipn. by rewrite (proj2 (Nat.ltb_lt _ _)). Qed.

(** ** One segment *)
Lemma wp_on_file {A} (m : ST (Vfs.FS (F := F) (W := W)) A) (s : LS) Q :
  wp False m (ls_file s) (fun a f => Q a (mkLoad f (ls_vm s) (ls_cpu s) (ls_active s))) -> wp False (on_file m) s Q.
Proof. unfold wp, on_file. by destruct (m (ls_file s)) as [[a f]| |]. Qed.

Lemma wp_on_vm f v' (s : LS) (Q : unit -> LS -> Prop) :
  f (ls_vm s) = Ret v' -> Q tt (mkLoad (ls_file s) v' (ls_cpu s) (ls_active s)) -> wp False (on_vm f) s Q.
Proof. intros Hf HQ. unfold on_vm. wp_step. wp_step. wp_step. eapply wp_lift_ret; [exact Hf|]. by wp_steps. Qed.

Lemma wp_on_cpu f c' (s : LS) (Q : unit -> LS -> Prop) :
  f (ls_cpu s) = Ret c' -> Q tt (mkLoad (ls_file s) (ls_vm s) c' (ls_active s)) -> wp False (on_cpu f) s Q.
Proof. intros Hf HQ. unfold on_cpu. wp_step. wp_step. wp_step. eapply wp_lift_ret; [exact Hf|]. by wp_steps. Qed.

(** what a run of the loader has done to the memory and left alone *)
Record segs_loaded (l : list ElfProgram) (k : Z) (s s' : LS) : Prop := {
  ld_handle : exists pos, handle pos (ls_file s');
  ld_ok : im_ok k (ls_vm s');
  ld_mem : forall x, im_mem (ls_vm s') x = placed l (im_mem (ls_vm s)) x;
  ld_cpu : ls_cpu s' = ls_cpu s;
  ld_active : ls_active s' = ls_active s
}.

Definition widen (x : Extent) (p : ElfProgram) : Extent :=
  match ty p with
  | Load => mkExtent (Z.min (min_address x) (virtual_address p)) (Z.max (max_address x) (virtual_address p + mem_size p)) (phdr_address x)
  | ProgramHeader => mkExtent (min_address x) (max_address x) (virtual_address p)
  | _ => x
  end.
Definition extent_of (l : list ElfProgram) : Extent := foldl widen (mkExtent USIZE_MAX 0 0) l.

Lemma user_limit a : page_ceil a <= PageTables.MAX_USER_VIRTUAL_ADDRESS -> a < 2 ^ 64 - 1.
Proof. pose proof (page_ceil_le a). assert (E : PageTables.MAX_USER_VIRTUAL_ADDRESS = 0xFFFFFF7FFFFFF000) by reflexivity. rewrite E. lia. Qed.

Lemma wp_load_segment k p x (s : LS) pos : ty p = Load -> segment_ok p -> handle pos (ls_file s) -> 0 <= k ->
  im_ok (k + page_count (virtual_address p) (mem_size p)) (ls_vm s) ->
  wp False (load_segment fuel p x) s (fun r s' => r = Ok (widen x p) /\ segs_loaded [p] k s s').
Proof using Hfull Hsize.
  intros Hty [Hflat Ha Hm Hf [Ho Hof] Hu] Hh Hk Hok. pose proof (user_limit _ Hu) as Hlim. unfold load_segment, widen. rewrite Hty.
  wp_step. apply wp_assert; [by apply Z.eqb_eq|]. wp_step. eapply wp_lift_ret; [apply cadd_ret; lia|].
  destruct (im_map_law k (ls_vm s) _ _ (to_virtual_memory_flags (flags p)) Hok Ha Hm Hu Hk) as (v1 & E1 & Hok1 & Hm1 & Hx1).
  wp_step. eapply wp_on_vm; [exact E1|]. cbn [ls_file ls_vm ls_cpu ls_active].
  apply wp_ebind, wp_on_file. cbn [ls_file ls_vm ls_cpu ls_active].
  destruct (ls_file s) as [w f]. destruct Hh as (Hpl & Hinv & _). unfold wp at 1, Vfs.seek.
  assert (Hh1 : handle (offset p) (w, with_position (offset p) f)) by (destruct Hpl; by split_and!).
  apply wp_ebind, wp_on_file. eapply wp_mono; [apply (wp_read fuel fs inode content inv Hfull Hsize (offset p)); [exact Hh1|lia|lia]|].
  cbn beta. intros r f2 [-> Hh2]. cbn [ls_vm ls_cpu ls_active].
  assert (Hl : length (slice content (offset p) (file_size p)) = Z.to_nat (file_size p)) by (apply length_slice; lia).
  destruct (im_store_law k v1 (virtual_address p) (slice content (offset p) (file_size p)) Hok1) as (v2 & E2 & Hok2 & Hm2 & Hx2).
  { intros y Hy. rewrite Hl in Hy. rewrite Hm1, in_pages_inside by lia. done. }
  wp_step. eapply wp_on_vm; [exact E2|]. wp_step. apply wp_assert; [apply Z.eqb_eq; lia|]. wp_steps. split; [done|].
  constructor; cbn [ls_file ls_vm ls_cpu ls_active]; [by eexists|done| |done|done].
  intros y. cbn [placed foldl]. unfold place, covers, segment_byte. rewrite Hx2, Hx1, Hl, Z2Nat.id by lia.
  destruct (decide (virtual_address p <= y < virtual_address p + file_size p)) as [Hy|Hy].
  - rewrite in_pages_inside by lia. rewrite nth_slice by lia. f_equal. lia.
  - done.
Qed.
(** ** All of them *)
Lemma placed_app l1 l2 m : placed (l1 ++ l2) m = placed l2 (placed l1 m).
Proof. apply foldl_app. Qed.

Lemma placed_ext l : forall m m', (forall x, m x = m' x) -> forall x, placed l m x = placed l m' x.
Proof. induction l as [|p l IH]; intros m m' Hm; [done|]. cbn. apply IH. intros x. unfold place. by rewrite Hm. Qed.

Lemma segs_loaded_app l1 l2 k1 k2 (s s1 s2 : LS) : segs_loaded l1 k1 s s1 -> segs_loaded l2 k2 s1 s2 -> segs_loaded (l1 ++ l2) k2 s s2.
Proof.
  intros [H1 _ M1 C1 A1] [H2 O2 M2 C2 A2]. constructor; [done|done| |congruence|congruence].
  intros x. rewrite M2, placed_app. by apply placed_ext.
Qed.

Lemma pages_needed_pos l : Forall segment_ok l -> 0 <= pages_needed l.
Proof.
  induction 1 as [|p l Hp Hl IH]; [done|]. cbn [pages_needed foldr]. fold (pages_needed l). pose proof (page_count_pos (virtual_address p) (mem_size p)). destruct Hp. lia.
Qed.

Lemma not_load p x : is_load p = false ->
  (match ty p with
   | Load => load_segment fuel p x
   | ProgramHeader => mret (Ok (mkExtent (min_address x) (max_address x) (virtual_address p)))
   | _ => mret (Ok x)
   end : ST LS _) = mret (Ok (widen x p)).
Proof. unfold is_load, widen. by destruct (ty p). Qed.

Lemma wp_load_segments l : forall x pos (s : LS), Forall segment_ok (loads l) -> handle pos (ls_file s) -> im_ok (pages_needed (loads l)) (ls_vm s) ->
  wp False (load_segments fuel l x) s (fun r s' => r = Ok (foldl widen x l) /\ segs_loaded (loads l) 0 s s').
Proof using Hfull Hsize.
  induction l as [|p l IH]; intros x pos s Hl Hh Hok; cbn [load_segments].
  { wp_steps. split; [done|]. constructor; [by exists pos|exact Hok|done..]. }
  apply wp_ebind. destruct (is_load p) eqn:Hp.
  - assert (El : loads (p :: l) = p :: loads l) by (unfold loads; cbn [List.filter]; by rewrite Hp).
    rewrite El in *. apply Forall_cons in Hl as [Hp1 Hl]. assert (Hty : ty p = Load) by (unfold is_load in Hp; by destruct (ty p)).
    rewrite Hty. eapply wp_mono; [apply (wp_load_segment (pages_needed (loads l)) p x s pos); try done|].
    { by apply pages_needed_pos. }
    { rewrite Z.add_comm. exact Hok. }
    cbn beta. intros r s1 [-> Hld]. destruct (ld_handle _ _ _ _ Hld) as [pos1 Hh1].
    eapply wp_mono; [apply (IH _ pos1 s1 Hl Hh1); apply Hld|]. cbn beta. intros r s2 [-> Hld2]. split; [done|].
    exact (segs_loaded_app [p] (loads l) _ _ _ _ _ Hld Hld2).
  - assert (El : loads (p :: l) = loads l) by (unfold loads; cbn [List.filter]; by rewrite Hp).
    rewrite El in *. rewrite not_load by done. wp_step. by apply (IH _ pos).
Qed.
(** ** What the memory holds *)
(** no two segments share a page *)
Definition separate (p q : ElfProgram) : Prop := forall x, covers p x = true -> covers q x = false.

Lemma placed_elsewhere l : forall m x, Forall (fun p => covers p x = false) l -> placed l m x = m x.
Proof.
  induction l as [|p l IH]; intros m x Hl; [done|]. apply Forall_cons in Hl as [Hp Hl]. cbn [placed foldl]. fold (placed l (place m p)). rewrite IH by done.
  unfold place. by rewrite Hp.
Qed.

Lemma placed_inside l : forall m x p, ForallOrdPairs separate l -> p ∈ l -> covers p x = true -> placed l m x = segment_byte p x.
Proof.
  induction l as [|q l IH]; intros m x p Hs Hp Hx; [by apply elem_of_nil in Hp|]. inversion Hs as [|? ? Hq Hl]; subst. cbn [placed foldl]. fold (placed l (place m q)).
  apply elem_of_cons in Hp as [->|Hp]; [|by eapply IH].
  rewrite placed_elsewhere; [unfold place; by rewrite Hx|]. eapply Forall_impl; [exact Hq|]. intros r Hr. by apply Hr.
Qed.

Lemma widen_bounds l : forall x, min_address (foldl widen x l) <= min_address x /\ max_address x <= max_address (foldl widen x l) /\
  Forall (fun p => min_address (foldl widen x l) <= virtual_address p /\ virtual_address p + mem_size p <= max_address (foldl widen x l)) (loads l).
Proof.
  induction l as [|p l IH]; intros x; [split_and!; [done|done|constructor]|]. cbn [foldl]. specialize (IH (widen x p)). destruct IH as (H1 & H2 & H3).
  assert (Hw : min_address (widen x p) <= min_address x /\ max_address x <= max_address (widen x p)).
  { unfold widen. destruct (ty p); cbn; lia. }
  split_and!; [lia|lia|]. unfold loads. cbn [List.filter]. destruct (is_load p) eqn:Hp; [|exact H3]. constructor; [|exact H3].
  unfold is_load in Hp. assert (Hty : ty p = Load) by by destruct (ty p).
  assert (Hw2 : min_address (widen x p) <= virtual_address p /\ virtual_address p + mem_size p <= max_address (widen x p)).
  { unfold widen. rewrite Hty. cbn. lia. }
  lia.
Qed.

(** the extent ends where a segment does, or where it began *)
Lemma widen_tight l : forall x,
  (min_address (foldl widen x l) = min_address x \/ exists p, p ∈ loads l /\ min_address (foldl widen x l) = virtual_address p) /\
  (max_address (foldl widen x l) = max_address x \/ exists p, p ∈ loads l /\ max_address (foldl widen x l) = virtual_address p + mem_size p).
Proof.
  induction l as [|p l IH]; intros x; [by split; left|]. cbn [foldl]. destruct (IH (widen x p)) as [H1 H2]. unfold loads in *. cbn [List.filter].
  destruct (is_load p) eqn:Hp.
  - assert (Hw : widen x p = mkExtent (Z.min (min_address x) (virtual_address p)) (Z.max (max_address x) (virtual_address p + mem_size p)) (phdr_address x)).
    { unfold widen, is_load in *. by destruct (ty p). }
    rewrite Hw in *. cbn [min_address max_address] in *. split.
    + destruct H1 as [->|(q & Hq & ->)]; [|right; exists q; split; [by right|done]].
      destruct (Z.min_spec (min_address x) (virtual_address p)) as [[_ ->]|[_ ->]]; [by left|right; exists p; split; [by left|done]].
    + destruct H2 as [->|(q & Hq & ->)]; [|right; exists q; split; [by right|done]].
      destruct (Z.max_spec (max_address x) (virtual_address p + mem_size p)) as [[_ ->]|[_ ->]]; [right; exists p; split; [by left|done]|by left].
  - assert (Hw : min_address (widen x p) = min_address x /\ max_address (widen x p) = max_address x).
    { unfold widen, is_load in *. by destruct (ty p). }
    destruct Hw as [Hw1 Hw2]. rewrite Hw1 in H1. rewrite Hw2 in H2. by split.
Qed.

Definition is_phdr (p : ElfProgram) : bool := match ty p with ProgramHeader => true | _ => false end.
Lemma widen_phdr l : forall x ph, last (List.filter is_phdr l) = Some ph -> phdr_address (foldl widen x l) = virtual_address ph.
Proof.
  induction l as [|p l IH] using rev_ind; intros x ph; [done|]. rewrite List.filter_app, foldl_app. cbn [List.filter foldl]. destruct (is_phdr p) eqn:Hp.
  - rewrite last_snoc. intros [= <-]. unfold is_phdr, widen in *. by destruct (ty p).
  - rewrite app_nil_r. intros Hl. rewrite <- (IH x ph Hl). unfold is_phdr, widen in *. by destruct (ty p).
Qed.

(** C20: Loading an image whose segments lie in user space, inside the file and
    on separate pages, and which names its program headers between the first
    and the last byte of the segments, into an address space with room for
    them (where mapping gives zeroed pages: [ImageLaws]) returns, and then:
    the pages of every loadable segment hold its bytes of the file and zero
    behind them, no other byte changed, the image in the metadata starts
    where the lowest segment starts and ends where the highest ends, the
    program headers are where the image says, the caller's address space is
    active again and the CPU's interrupt state is what it was. *)
Theorem elf_image_loaded (s : LS) elf meta pos ph :
  let l := loads (program_headers elf) in
  handle pos (ls_file s) -> Cpu.cpu_ok (ls_cpu s) -> im_ok (pages_needed l) (ls_vm s) ->
  Forall segment_ok l -> ForallOrdPairs separate l ->
  last (List.filter is_phdr (program_headers elf)) = Some ph ->
  (exists p, p ∈ l /\ virtual_address p <= virtual_address ph) -> (exists p, p ∈ l /\ virtual_address ph < virtual_address p + mem_size p) ->
  exists lo hi m s', load_elf_to_vm fuel elf meta s = Ret (Ok (lo, hi, m), s') /\
    (forall p a, p ∈ l -> covers p a = true -> im_mem (ls_vm s') a = segment_byte p a) /\
    (forall a, Forall (fun p => covers p a = false) l -> im_mem (ls_vm s') a = im_mem (ls_vm s) a) /\
    Forall (fun p => lo <= virtual_address p /\ virtual_address p + mem_size p <= hi) l /\
    (exists p, p ∈ l /\ lo = virtual_address p) /\ (exists p, p ∈ l /\ hi = virtual_address p + mem_size p) /\
    image_base m = lo /\ image_size m = hi - lo /\ image_base m + program_headers_offset m = virtual_address ph /\
    (eh_frame_size m = 0 /\ eh_frame_address m = 0 \/ lo <= eh_frame_address m < hi) /\
    ls_active s' = false /\ Cpu.nested (ls_cpu s) 0 (ls_cpu s').
Proof using Hfull Hsize.
  intros l Hh Hcpu Hok Hl Hsep Hph (pl & Hpl & Hlow) (pu & Hpu & Hupp). set (x := extent_of (program_headers elf)).
  assert (Hxp : phdr_address x = virtual_address ph) by by apply widen_phdr.
  destruct (Cpu.push_nested (ls_cpu s) 0 (ls_cpu s) Hcpu) as (c1 & Ec1 & Hc1); [split_and!; [lia|done|lia]|lia|].
  destruct (Cpu.pop_nested (ls_cpu s) 1 c1 Hcpu Hc1) as (c2 & Ec2 & Hc2); [lia|].
  destruct (widen_bounds (program_headers elf) (mkExtent USIZE_MAX 0 0)) as (_ & _ & Hb). fold (extent_of (program_headers elf)) in Hb. fold x l in Hb.
  assert (Hx : min_address x <= phdr_address x < max_address x).
  { rewrite Forall_forall in Hb. destruct (Hb _ Hpl), (Hb _ Hpu). lia. }
  assert (Htight : (exists p, p ∈ l /\ min_address x = virtual_address p) /\ (exists p, p ∈ l /\ max_address x = virtual_address p + mem_size p)).
  { rewrite Forall_forall in Hb, Hl. destruct (Hl _ Hpu) as [_ Ha Hm _ _ Hu]. pose proof (user_limit _ Hu). destruct (Hb _ Hpu).
    destruct (widen_tight (program_headers elf) (mkExtent USIZE_MAX 0 0)) as [T1 T2]. fold (extent_of (program_headers elf)) in T1, T2.
    fold x l in T1, T2. cbn [min_address max_address] in T1, T2. unfold USIZE_MAX in *.
    split; [destruct T1 as [T1|T1]|destruct T2 as [T2|T2]]; lia || done. }
  destruct Htight as [Htl Hth].
  enough (Hwp : wp False (load_elf_to_vm fuel elf meta) s (fun r s' => exists m, r = Ok (min_address x, max_address x, m) /\
    (forall a, im_mem (ls_vm s') a = placed l (im_mem (ls_vm s)) a) /\ image_base m = min_address x /\ image_size m = max_address x - min_address x /\
    image_base m + program_headers_offset m = phdr_address x /\
    (eh_frame_size m = 0 /\ eh_frame_address m = 0 \/ min_address x <= eh_frame_address m < max_address x) /\
    ls_active s' = false /\ ls_cpu s' = c2)).
  { destruct (wp_total _ _ _ Hwp) as (r & s' & E & m & -> & Hm & H1 & H2 & H3 & H4 & H5 & H6).
    exists (min_address x), (max_address x), m, s'. split_and!; try done; [..|by rewrite <- Hxp|by rewrite H6].
    - intros p a Hp Ha. rewrite Hm. by apply placed_inside.
    - intros a Ha. rewrite Hm. by apply placed_elsewhere. }
  unfold load_elf_to_vm. wp_step. eapply wp_on_cpu; [exact Ec1|]. wp_step. unfold switch_to. wp_step. cbn [ls_file ls_vm ls_cpu ls_active].
  apply wp_ebind. eapply wp_mono; [by apply (wp_load_segments _ _ pos)|]. cbn beta.
  intros r s1 [-> [_ _ Hmem Hc Hact]]. fold (extent_of (program_headers elf)). fold x. fold l in Hmem. cbn [ls_vm ls_cpu ls_active] in *.
  wp_step. wp_step. wp_step. apply wp_assert; [apply andb_true_iff; split; [apply Z.leb_le|apply Z.ltb_lt]; lia|].
  wp_step. wp_step. cbn [ls_file ls_vm ls_cpu ls_active]. wp_step. eapply wp_on_cpu; [cbn; rewrite Hc; exact Ec2|]. wp_step. eexists. split; [done|].
  cbn [ls_vm ls_active ls_cpu]. set (m := foldl scan_section meta (sections elf)).
  destruct ((eh_frame_address m <? min_address x) || (max_address x <=? eh_frame_address m)) eqn:Heh; cbn; split_and!; try done; lia.
Qed.
End image.

(** * A program on disk

    A small executable as bytes, a file system that holds it and an address
    space to load it into: the theorems on ELF files apply to it, and damaged
    copies of it show what the loader does not check. *)
Import Mount Vfs Elf.
From Stdlib Require String.
Import Stdlib.Strings.String.StringSyntax.

Module ElfDemo.
(** ** A file system with one file *)
Definition one_file (content : bytes) : FileSystem unit unit := {|
  fs_open_root _ := mret (Err OperationNotSupported);
  fs_read_dir _ d A h a := mret (Ok tt, a);
  fs_treverse_dir _ d n := mret (Err FsTypes.FileNotFound);
  fs_create_node _ d n a := mret (Err OperationNotSupported);
  fs_read_file _ i pos n h := mret (Ok (slice content pos n), h);
  fs_write_file _ i pos buf h := mret (Err WriteNotSupported, i, h);
  fs_flush_file _ i h := mret (Ok tt, i, h);
  fs_close_file _ i h := mret (Ok tt);
  fs_set_file_size _ i n := mret (Err WriteNotSupported, i);
  fs_number_global_refs _ := 0;
  fs_unmount _ := mret tt;
  fs_strong_count _ := mret 1;
  dev_read _ _ _ := mret (Err ReadNotSupported);
  dev_write _ _ _ := mret (Err WriteNotSupported);
  dev_set_size _ _ := mret (Err WriteNotSupported);
  dev_try_create _ := mret None;
  dev_clone_device _ := mret (Ok tt)
|}.
Definition node (content : bytes) : FileNode :=
  mkFileNode (mkBaseNode (of_string "init") ATTR_EMPTY 2 0 0) (Z.of_nat (length content)) None.
Definition any (w : unit) (h : AccessHelper) : Prop := True.

Lemma one_file_reads content : full_reads (H := one_file content) (Dyn tt) (node content) content any.
Proof. constructor. intros w h pos n _ _ _. by exists w, h. Qed.

Definition opened_file (content : bytes) : Vfs.FS (F := unit) (W := unit) :=
  (tt, mkFile (Dyn tt) (of_string "/init") (node content) 0 false FileLink.BmNone access_default (mkFileAccess true false)).

Lemma opened_handle content : handle (Dyn tt) (node content) any 0 (opened_file content).
Proof. by repeat split. Qed.

(** ** The executable: its headers, one page of code and data at [0x400000],
    two sections and their names *)
Definition code : bytes := [0x90; 0x90; 0xC3; 7].
Definition names : list bytes := [of_string ".text"; of_string ".shstrtab"].
Definition strings : bytes := 0 :: of_string ".text" ++ 0 :: of_string ".shstrtab" ++ [0].
Definition the_base : ElfHeaderBase := mkBase 0x464C457F BITS_64 ENDIANNESS_LITTLE 1 ABI_SYSV 0 0 ELF_TYPE_EXECUTABLE ELF_MACHINE_X86_64 1.
Definition the_rest : ElfHeaderRest := mkRest 0x400100 64 201 0 64 56 2 64 2 1.
Definition the_programs : list ElfProgram64 :=
  [mkProgram64 6 4 64 0x400040 0x400040 112 112 8; mkProgram64 1 7 0 0x400000 0x400000 180 5000 4096].
Definition strtab : ElfSectionFields := mkSection 7 3 0 0 184 17 0 0 1 0.
Definition the_sections : list ElfSectionFields := [mkSection 1 1 6 0x4000B0 176 4 0 0 16 0; strtab].
Definition image_with (r : ElfHeaderRest) (sections : list ElfSectionFields) : bytes :=
  pack base_widths (base_list the_base) ++ pack header64_widths (rest_list r) ++
  concat (pack program64_widths <$> (program64_list <$> the_programs)) ++ code ++ [1; 2; 3; 4] ++ strings ++
  concat (pack section64_widths <$> (section_list <$> sections)).
Definition image : bytes := Eval vm_compute in image_with the_rest the_sections.

Lemma image_held : holds_image image the_base the_rest the_programs the_sections names strings strtab.
Proof.
  assert (Hfits : forall ws v, forallb (fun p => (0 <=? p.2) && (p.2 <? 256 ^ Z.of_nat p.1)) (zip ws v) = true -> length ws = length v -> Forall2 fits ws v).
  { induction ws as [|w ws IH]; intros [|v vs]; try done. cbn [zip zip_with forallb]. intros Hb Hl. apply andb_true_iff in Hb as [H1 H2].
    constructor; [unfold fits; cbn in H1; bool_hyps; lia|]. apply IH; [done|by injection Hl]. }
  assert (Hat : forall o b, 0 <= o -> o + Z.of_nat (length b) <= Z.of_nat (length image) -> slice image o (Z.of_nat (length b)) = b -> at_offset image o b).
  { intros. by split_and!. }
  constructor; try (by vm_compute); try (by apply Hfits; vm_compute); try (by apply Hat; vm_compute).
  - split; [|apply Hat; by vm_compute]. unfold the_programs. cbn [fmap list_fmap]. do 2 (apply Forall_cons_2; [apply Hfits; by vm_compute|]). apply Forall_nil_2.
  - split; [|apply Hat; by vm_compute]. unfold the_sections. cbn [fmap list_fmap]. do 2 (apply Forall_cons_2; [apply Hfits; by vm_compute|]). apply Forall_nil_2.
  - constructor; [|constructor; [|constructor]].
    + eexists. split_and!; [by vm_compute| |by vm_compute]. apply (bool_decide_unpack _). by vm_compute.
    + eexists. split_and!; [by vm_compute| |by vm_compute]. apply (bool_decide_unpack _). by vm_compute.
Qed.

(** ** An address space of its own: every byte is there once mapped *)
Record Flat : Type := mkFlat { fl_mem : Z -> Z; fl_mapped : Z -> bool; fl_pages : Z }.
#[global] Instance flat_image : ImageSpace Flat := {|
  im_map a n _ v :=
    let k := page_count a n in
    if (k <=? fl_pages v) && (page_ceil (a + n) <=? PageTables.MAX_USER_VIRTUAL_ADDRESS) then
      Ret (mkFlat (fun x => if in_pages a n x then 0 else fl_mem v x) (fun x => in_pages a n x || fl_mapped v x) (fl_pages v - k))
    else Panic;
  im_store a b v :=
    if forallb (fun i => fl_mapped v (a + Z.of_nat i)) (seq 0 (length b)) then
      Ret (mkFlat (fun x => if decide (a <= x < a + Z.of_nat (length b)) then nth (Z.to_nat (x - a)) b 0 else fl_mem v x) (fl_mapped v) (fl_pages v))
    else Panic;
  im_mapped := fl_mapped
|}.
#[global, refine] Instance flat_laws : ImageLaws Flat := {| im_ok k v := k <= fl_pages v; im_mem := fl_mem |}.
Proof.
  - intros k v a n fl Hk Ha Hn Hm Hk0. unfold im_map, flat_image. rewrite (proj2 (Z.leb_le _ _)), (proj2 (Z.leb_le _ _)) by lia. cbn [andb].
    eexists. split; [done|]. cbn. split; [lia|done].
  - intros k v a b Hk Hb. unfold im_store, flat_image. rewrite (proj2 (forallb_forall _ _)).
    + eexists. split; [done|]. by cbn.
    + intros i Hi. apply in_seq in Hi. apply Hb. lia.
Defined.
Definition fresh : Flat := mkFlat (fun _ => 0xCC) (fun _ => false) 100.

Definition cpu0 : Cpu.Cpu := Cpu.mkCpu 0 false true.
Definition start (content : bytes) : LoadState (F := unit) (W := unit) (V := Flat) := mkLoad (opened_file content) fresh cpu0 false.
Definition decoded (content : bytes) : option Elf :=
  match load (H := one_file content) 1 (opened_file content) with Ret (Ok e, _) => Some e | _ => None end.
Definition meta7 : ProcessMetadata := mkMeta 7 0 0 0 0 0 0 0.

(** [Elf::load] reads the file above back *)
Lemma elf_load_decodes_witness : exists h s', base h = the_base /\ header64 h = the_rest /\
  load (H := one_file image) 1 (opened_file image) =
    Ret (Ok (mkElf h (Program64 <$> the_programs) (zip_with (fun n v => mkElfSection n (Section64 v)) names the_sections)), s').
Proof.
  exact (elf_load_decodes (H := one_file image) 1 (Dyn tt) (node image) image any (one_file_reads image) eq_refl (opened_file image)
    the_base the_rest the_programs the_sections names strings strtab (opened_handle image) image_held).
Defined.

(** and refuses one without its first byte *)
Lemma elf_load_rejects_witness : exists s', load (H := one_file (0 :: tail image)) 1 (opened_file (0 :: tail image)) = Ret (Err InvalidMagic, s').
Proof.
  refine (proj1 (proj2 (elf_load_rejects (H := one_file (0 :: tail image)) 1 (Dyn tt) (node (0 :: tail image)) (0 :: tail image) any
    (one_file_reads _) eq_refl _ (opened_handle _))) _ _); by vm_compute.
Defined.

Definition the_elf : Elf := Eval vm_compute in match decoded image with Some e => e | None => mkElf (header_of []) [] [] end.
Definition the_phdr : ElfProgram := Program64 (mkProgram64 6 4 64 0x400040 0x400040 112 112 8).
Definition the_load : ElfProgram := Program64 (mkProgram64 1 7 0 0x400000 0x400000 180 5000 4096).

Lemma the_load_ok : segment_ok image the_load.
Proof. constructor; by vm_compute. Qed.

(** the segment's two pages hold the first 180 bytes of the file and zeros *)
Lemma elf_image_loaded_witness : exists lo hi m s',
  load_elf_to_vm (H := one_file image) 1 the_elf meta7 (start image) = Ret (Ok (lo, hi, m), s') /\
  im_mem (ls_vm s') 0x4000B0 = 0x90 /\ im_mem (ls_vm s') 0x401387 = 0 /\ im_mem (ls_vm s') 0x402000 = 0xCC /\
  ls_active s' = false /\ Cpu.nested cpu0 0 (ls_cpu s').
Proof.
  assert (Hl : loads (program_headers the_elf) = [the_load]) by by vm_compute.
  destruct (elf_image_loaded (H := one_file image) 1 (Dyn tt) (node image) image any (one_file_reads image) eq_refl (start image) the_elf meta7 0 the_phdr)
    as (lo & hi & m & s' & E & Hin & Hout & _ & _ & _ & _ & _ & _ & _ & Ha & Hc).
  - apply opened_handle.
  - split; [by vm_compute|done].
  - by vm_compute.
  - rewrite Hl. constructor; [exact the_load_ok|constructor].
  - rewrite Hl. repeat constructor.
  - by vm_compute.
  - exists the_load. rewrite Hl. split; [by apply list_elem_of_singleton|by vm_compute].
  - exists the_load. rewrite Hl. split; [by apply list_elem_of_singleton|by vm_compute].
  - rewrite Hl in Hin, Hout. exists lo, hi, m, s'. split; [exact E|]. split_and!; try done.
    + rewrite (Hin the_load); [by vm_compute|by apply list_elem_of_singleton|by vm_compute].
    + rewrite (Hin the_load); [by vm_compute|by apply list_elem_of_singleton|by vm_compute].
    + rewrite Hout; [done|]. by repeat constructor.
Defined.

(** a run is evaluated up to what is asked of its end *)
Lemma outcome_inv {S A} (m : outcome (A * S)) (P : A -> S -> Prop) :
  match m with Ret (a, s) => P a s | _ => False end -> exists a s, m = Ret (a, s) /\ P a s.
Proof. destruct m as [[a s]| |]; [by exists a, s|done..]. Qed.

(** ** What the loader does not check *)
(** A string table index outside the section table, or a name outside the
    string table, stops the kernel: the file is not refused. *)
Definition bad_index : bytes := image_with (mkRest 0x400100 64 201 0 64 56 2 64 2 2) the_sections.
Definition bad_name : bytes := image_with the_rest [mkSection 18 1 6 0x4000B0 176 4 0 0 16 0; strtab].
Lemma malformed_sections_panic :
  load (H := one_file bad_index) 1 (opened_file bad_index) = Panic /\ load (H := one_file bad_name) 1 (opened_file bad_name) = Panic.
Proof. by vm_compute. Qed.

(** An executable without a program header segment, which is optional in the
    format, fails the assertion on its address. *)
Definition no_phdr : Elf := mkElf (header the_elf) [the_load] (sections the_elf).
Lemma missing_phdr_panics : load_elf_to_vm (H := one_file image) 1 no_phdr meta7 (start image) = Panic.
Proof. by vm_compute. Qed.

(** When a read fails, [?] returns with the new address space still active
    and interrupts still off. *)
Definition broken : FileSystem unit unit :=
  match one_file image with
  | Build_FileSystem _ _ a b c d _ f g h i j k l m n o p q =>
      Build_FileSystem unit unit a b c d (fun _ _ _ _ h => mret (Err FsTypes.FileNotFound, h)) f g h i j k l m n o p q
  end.
Lemma failed_load_keeps_address_space : exists s',
  load_elf_to_vm (H := broken) 1 the_elf meta7 (start image) = Ret (Err FsTypes.FileNotFound, s') /\
  ls_active s' = true /\ Cpu.interrupts (ls_cpu s') = false /\ Cpu.n_cli (ls_cpu s') = 1.
Proof.
  destruct (outcome_inv (load_elf_to_vm (H := broken) 1 the_elf meta7 (start image)) (fun r s => r = Err FsTypes.FileNotFound /\
    ls_active s = true /\ Cpu.interrupts (ls_cpu s) = false /\ Cpu.n_cli (ls_cpu s) = 1)) as (r & s & E & -> & Hs); [by vm_compute|by exists s].
Qed.

(** Two segments on one page: mapping the second gives the page afresh, and
    the bytes of the first are gone. *)
Definition second_load : ElfProgram := Program64 (mkProgram64 1 7 0 0x400800 0x400800 4 4 4096).
Definition sharing : Elf := mkElf (header the_elf) (program_headers the_elf ++ [second_load]) (sections the_elf).
Lemma shared_page_loses_bytes : exists lo hi m s',
  load_elf_to_vm (H := one_file image) 1 sharing meta7 (start image) = Ret (Ok (lo, hi, m), s') /\
  segment_byte image the_load 0x4000B0 = 0x90 /\ im_mem (ls_vm s') 0x4000B0 = 0 /\
  segment_byte image second_load 0x400800 = 0x7F /\ im_mem (ls_vm s') 0x400800 = 0x7F.
Proof.
  destruct (outcome_inv (load_elf_to_vm (H := one_file image) 1 sharing meta7 (start image)) (fun r s => match r with Ok _ => True | _ => False end /\
    fl_mem (ls_vm s) 0x4000B0 = 0 /\ fl_mem (ls_vm s) 0x400800 = 0x7F)) as ([[[lo hi] m]|e] & s & E & Hr & H1 & H2); [by vm_compute| |done].
  exists lo, hi, m, s. split; [exact E|]. split_and!; [by vm_compute|exact H1|by vm_compute|exact H2].
Qed.
End ElfDemo.
