(* ===== verification/Graphics.v ===== *)
(** * The display

    Models [kernel/src/graphics/vga.rs] on the frame buffer description of
    [libraries/kernel_user_link/src/graphics.rs]: ownership of the display,
    reading and writing pixels, copying rectangles from a user's buffer and
    inside the screen, and filling rectangles.  The memory of the screen is a
    list of bytes; an index or a range outside of it is a panic. *)
From S2P Require Import Prelude UserLink FsTypes.

Module Graphics.
(** ** [kernel_user_link::graphics] *)
Inductive GraphicsCommand : Type := TakeOwnership | ReleaseOwnership | GetFrameBufferInfo | Blit.
Definition command_from_u64 (value : Z) : option GraphicsCommand :=
  if value =? 0 then Some TakeOwnership else if value =? 1 then Some ReleaseOwnership
  else if value =? 2 then Some GetFrameBufferInfo else if value =? 3 then Some Blit else None.
Definition command_to_u64 (c : GraphicsCommand) : Z :=
  match c with TakeOwnership => 0 | ReleaseOwnership => 1 | GetFrameBufferInfo => 2 | Blit => 3 end.

Definition triple : Type := Z * Z * Z.
Definition t0 (t : triple) : Z := t.1.1.
Definition t1 (t : triple) : Z := t.1.2.
Definition t2 (t : triple) : Z := t.2.

Record FrameBufferInfo : Type := mkInfo {
  pitch : Z; height : Z; width : Z; field_pos : triple; mask : triple; byte_per_pixel : Z
}.
Record BlitCommand : Type := mkBlit {
  memory : Z; src_framebuffer_info : FrameBufferInfo; src : Z * Z; dst : Z * Z; size : Z * Z
}.

Definition memory_size (i : FrameBufferInfo) : outcome Z := cmul 64 (pitch i) (height i).
Definition get_arr_pos (i : FrameBufferInfo) (pos : Z * Z) : outcome (option Z) :=
  if (width i <=? pos.1) || (height i <=? pos.2) then Ret None
  else
    a ← cmul 64 pos.1 (byte_per_pixel i);
    b ← cmul 64 pos.2 (pitch i);
    s ← cadd 64 a b;
    Ret (Some s).

(** ** Slices: [&memory[i..i + n]] *)
Definition range (memory : bytes) (i n : Z) : outcome bytes :=
  e ← cadd 64 i n;
  _ ← assert_that (e <=? Z.of_nat (length memory));
  Ret (take (Z.to_nat n) (drop (Z.to_nat i) memory)).
Definition store (memory : bytes) (i : Z) (b : bytes) : bytes :=
  take (Z.to_nat i) memory ++ b ++ drop (Z.to_nat i + length b) memory.
(** [memory[i..i + n].copy_from_slice(b)] *)
Definition copy_range (memory : bytes) (i n : Z) (b : bytes) : outcome bytes :=
  _ ← range memory i n;
  _ ← assert_that (Z.of_nat (length b) =? n);
  Ret (store memory i b).
Definition index (b : bytes) (i : Z) : outcome Z := unwrap (b !! Z.to_nat i).
Definition set_index (b : bytes) (i v : Z) : outcome bytes := _ ← index b i; Ret (<[Z.to_nat i := v]> b).

Definition pixel_mem (i : FrameBufferInfo) (memory : bytes) (pos : Z * Z) : outcome (option (Z * bytes)) :=
  p ← get_arr_pos i pos;
  match p with
  | None => Ret None
  | Some p => b ← range memory p (byte_per_pixel i); Ret (Some (p, b))
  end.

(** ** Pixels *)
Record Pixel : Type := mkPixel { r : Z; g : Z; b : Z }.

Definition read_pixel (i : FrameBufferInfo) (memory : bytes) (pos : Z * Z) : outcome (option Pixel) :=
  m ← pixel_mem i memory pos;
  match m with
  | None => Ret None
  | Some (_, m) =>
      r ← index m (t0 (field_pos i));
      g ← index m (t1 (field_pos i));
      b ← index m (t2 (field_pos i));
      Ret (Some (mkPixel r g b))
  end.

Definition write_pixel (i : FrameBufferInfo) (memory : bytes) (pos : Z * Z) (color : Pixel) : outcome (option unit * bytes) :=
  m ← pixel_mem i memory pos;
  match m with
  | None => Ret (None, memory)
  | Some (p, m) =>
      m ← set_index m (t0 (field_pos i)) (Z.land (r color) (t0 (mask i)));
      m ← set_index m (t1 (field_pos i)) (Z.land (g color) (t1 (mask i)));
      m ← set_index m (t2 (field_pos i)) (Z.land (b color) (t2 (mask i)));
      Ret (Some tt, store memory p m)
  end.

(** ** [struct VgaDisplay] *)
Record VgaDisplay : Type := mkDisplay { fb_info : FrameBufferInfo; fb_memory : bytes }.

(** [FramebufferColorInfo::Rgb] *)
Record Rgb : Type := mkRgb {
  red_field_position : Z; red_mask_size : Z; green_field_position : Z; green_mask_size : Z; blue_field_position : Z; blue_mask_size : Z
}.
Record Framebuffer : Type := mkFramebuffer { addr : Z; fb_pitch : Z; fb_width : Z; fb_height : Z; bpp : Z; color_info : option Rgb }.

(** [(1 << size) - 1], an [i32], [as u8] *)
Definition field_mask (size : Z) : outcome Z := if size <? 31 then Ret (wrap 8 (2 ^ size - 1)) else Panic.

(** [VgaDisplay::new]; [map] is the mapping of the frame buffer *)
Definition display_new (map : Z -> Z -> outcome bytes) (f : Framebuffer) : outcome VgaDisplay :=
  c ← unwrap (color_info f);
  _ ← assert_that (bpp f mod 8 =? 0);
  _ ← assert_that ((red_field_position c mod 8 =? 0) && (green_field_position c mod 8 =? 0) && (blue_field_position c mod 8 =? 0));
  n ← cmul 32 (fb_pitch f) (fb_height f);
  memory ← map (addr f) n;
  mr ← field_mask (red_mask_size c);
  mg ← field_mask (green_mask_size c);
  mb ← field_mask (blue_mask_size c);
  bits ← cadd 8 (bpp f) 7;
  Ret (mkDisplay (mkInfo (fb_pitch f) (fb_height f) (fb_width f)
        (red_field_position c / 8, green_field_position c / 8, blue_field_position c / 8) (mr, mg, mb) (bits / 8)) memory).

Definition put_pixel (x y : Z) (color : Pixel) (d : VgaDisplay) : outcome VgaDisplay :=
  '(_, m) ← write_pixel (fb_info d) (fb_memory d) (x, y) color; Ret (mkDisplay (fb_info d) m).
Definition clear (d : VgaDisplay) : VgaDisplay := mkDisplay (fb_info d) (replicate (length (fb_memory d)) 0).

(** [for y in 0..n] over a value that is updated *)
Fixpoint for_range {A} (n : nat) (y : Z) (f : Z -> A -> outcome A) (a : A) : outcome A :=
  match n with O => Ret a | S n => a ← f y a; for_range n (y + 1) f a end.

(** the [assert!]s of a copy: the rectangle lies in the buffer *)
Definition inside (i : FrameBufferInfo) (x y w h : Z) : outcome unit :=
  a ← cadd 64 x w; _ ← assert_that (a <=? width i);
  b ← cadd 64 y h; assert_that (b <=? height i).

Section blit.
Context (src_buffer : bytes) (src_info : FrameBufferInfo) (s d : Z * Z) (w h : Z).

Definition fast_line (i : FrameBufferInfo) (chunk_size y : Z) (m : bytes) : outcome bytes :=
  sp ← get_arr_pos src_info (s.1, s.2 + y);
  src_i ← unwrap sp;
  dp ← get_arr_pos i (d.1, d.2 + y);
  dest_i ← unwrap dp;
  src_line ← range src_buffer src_i chunk_size;
  copy_range m dest_i chunk_size src_line.
Definition blit_fast (disp : VgaDisplay) : outcome VgaDisplay :=
  let i := fb_info disp in
  _ ← inside src_info s.1 s.2 w h;
  _ ← inside i d.1 d.2 w h;
  chunk_size ← cmul 64 w (byte_per_pixel i);
  m ← for_range (Z.to_nat h) 0 (fast_line i chunk_size) (fb_memory disp);
  Ret (mkDisplay i m).

Definition slow_pixel (i : FrameBufferInfo) (y x : Z) (m : bytes) : outcome bytes :=
  p ← read_pixel src_info src_buffer (s.1 + x, s.2 + y);
  src_pixel ← unwrap p;
  '(o, m) ← write_pixel i m (d.1 + x, d.2 + y) src_pixel;
  _ ← unwrap o;
  Ret m.
Definition blit_slow (disp : VgaDisplay) : outcome VgaDisplay :=
  let i := fb_info disp in
  _ ← inside i d.1 d.2 w h;
  _ ← inside src_info s.1 s.2 w h;
  m ← for_range (Z.to_nat h) 0 (fun y => for_range (Z.to_nat w) 0 (slow_pixel i y)) (fb_memory disp);
  Ret (mkDisplay i m).

Definition same_format (i : FrameBufferInfo) : bool :=
  (byte_per_pixel i =? byte_per_pixel src_info) && bool_decide (field_pos i = field_pos src_info) && bool_decide (mask i = mask src_info).
Definition blit (disp : VgaDisplay) : outcome VgaDisplay :=
  if same_format (fb_info disp) then blit_fast disp else blit_slow disp.
End blit.

(** [blit_inner_ranges]: both closures of the source copy from the part
    behind the split into the part before it *)
Definition inner_line (i : FrameBufferInfo) (s d : Z * Z) (chunk_size y : Z) (m : bytes) : outcome bytes :=
  sp ← get_arr_pos i (s.1, s.2 + y);
  src_i ← unwrap sp;
  dp ← get_arr_pos i (d.1, d.2 + y);
  dest_i ← unwrap dp;
  _ ← assert_that (src_i <=? Z.of_nat (length m));
  let before := take (Z.to_nat src_i) m in
  let after := drop (Z.to_nat src_i) m in
  line ← range after 0 chunk_size;
  before ← copy_range before dest_i chunk_size line;
  Ret (before ++ after).
Definition blit_inner_ranges (s d : Z * Z) (w h : Z) (disp : VgaDisplay) : outcome VgaDisplay :=
  let i := fb_info disp in
  _ ← inside i s.1 s.2 w h;
  _ ← inside i d.1 d.2 w h;
  _ ← assert_that ((s.1 + w <=? d.1) || (d.1 + w <=? s.1) || (s.2 + h <=? d.2) || (d.2 + h <=? s.2));
  chunk_size ← cmul 64 w (byte_per_pixel i);
  m ← for_range (Z.to_nat h) 0 (inner_line i s d chunk_size) (fb_memory disp);
  Ret (mkDisplay i m).

(** [clear_rect]: the first line pixel by pixel, the others copied from it *)
Definition clear_line (i : FrameBufferInfo) (dest_x chunk_size : Z) (first_line : bytes) (y : Z) (after : bytes) : outcome bytes :=
  p ← get_arr_pos i (dest_x, y - 1);
  dest_i ← unwrap p;
  copy_range after dest_i chunk_size first_line.
Definition clear_rect (dest_x dest_y w h : Z) (color : Pixel) (disp : VgaDisplay) : outcome VgaDisplay :=
  let i := fb_info disp in let m := fb_memory disp in
  _ ← inside i dest_x dest_y w h;
  if (h =? 0) || (w =? 0) then Ret disp
  else
    chunk ← cmul 64 w (byte_per_pixel i);
    p ← get_arr_pos i (dest_x, dest_y);
    first_start ← unwrap p;
    first ← range m first_start chunk;
    first ← for_range (Z.to_nat w) 0 (fun x l => '(_, l) ← write_pixel i l (x, 0) color; Ret l) first;
    let m := store m first_start first in
    p ← get_arr_pos i (0, dest_y + 1);
    second_start ← unwrap p;
    _ ← assert_that (second_start <=? Z.of_nat (length m));
    let before := take (Z.to_nat second_start) m in
    first_line ← range before first_start chunk;
    after ← for_range (Z.to_nat (h - 1)) 1 (clear_line i dest_x chunk first_line) (drop (Z.to_nat second_start) m);
    Ret (mkDisplay i (before ++ after)).

(** ** [struct VgaDisplayController] *)
Record Controller : Type := mkController { display : VgaDisplay; framebuffer_info : FrameBufferInfo; owner_process : Z }.

Definition controller_new (d : VgaDisplay) : Controller := mkController d (fb_info d) (-1).
(** [pid as i64] *)
Definition as_i64 (v : Z) : Z := if v <? 2 ^ 63 then v else v - 2 ^ 64.
Definition lock_process (pid : Z) (c : Controller) : bool := owner_process c =? as_i64 pid.
Definition lock_kernel (c : Controller) : bool := owner_process c =? -1.
Definition compare_exchange (old new : Z) (c : Controller) : bool * Controller :=
  if owner_process c =? old then (true, mkController (display c) (framebuffer_info c) new) else (false, c).
Definition take_ownership (pid : Z) (c : Controller) : outcome (bool * Controller) :=
  _ ← assert_that (pid <? 2 ^ 63 - 1); Ret (compare_exchange (-1) pid c).
Definition release (pid : Z) (c : Controller) : outcome (bool * Controller) :=
  _ ← assert_that (pid <? 2 ^ 63 - 1); Ret (compare_exchange pid (-1) c).
End Graphics.
