(* ===== verification/GraphicsSpec.v ===== *)
(** * What the display shows

    The optimised copy of lines and the copy of pixels show the same picture,
    a copy changes exactly its rectangle, a filled rectangle has its colour;
    and two operations on the screen that stop the kernel. *)
From S2P Require Import Prelude UserLink FsTypes Graphics.
Import Graphics.

(** ** Pixels in memory *)
Definition byte (m : bytes) (j : Z) : Z := nth (Z.to_nat j) m 0.
Definition idx (i : FrameBufferInfo) (x y : Z) : Z := x * byte_per_pixel i + y * pitch i.
Definition on_screen (i : FrameBufferInfo) (x y : Z) : Prop := 0 <= x < width i /\ 0 <= y < height i.
Definition in_rect (p : Z * Z) (w h x y : Z) : Prop := p.1 <= x < p.1 + w /\ p.2 <= y < p.2 + h.
#[global] Instance in_rect_dec p w h x y : Decision (in_rect p w h x y).
Proof. unfold in_rect. apply _. Defined.

(** a frame buffer: lines of whole pixels, the colours inside a pixel *)
Record fb_ok (i : FrameBufferInfo) (m : bytes) : Prop := {
  fb_bpp : 0 < byte_per_pixel i;
  fb_width : 0 <= width i;
  fb_height : 0 <= height i;
  fb_pitch : width i * byte_per_pixel i <= pitch i < 2 ^ 63;
  fb_size : height i * pitch i <= Z.of_nat (length m);
  fb_word : Z.of_nat (length m) < 2 ^ 63;
  fb_f0 : 0 <= t0 (field_pos i) < byte_per_pixel i;
  fb_f1 : 0 <= t1 (field_pos i) < byte_per_pixel i;
  fb_f2 : 0 <= t2 (field_pos i) < byte_per_pixel i;
  fb_f01 : t0 (field_pos i) <> t1 (field_pos i);
  fb_f02 : t0 (field_pos i) <> t2 (field_pos i);
  fb_f12 : t1 (field_pos i) <> t2 (field_pos i)
}.

(** the colour of a pixel, and what of it a mask lets through *)
Definition colour (i : FrameBufferInfo) (m : bytes) (x y : Z) : Pixel :=
  mkPixel (byte m (idx i x y + t0 (field_pos i))) (byte m (idx i x y + t1 (field_pos i))) (byte m (idx i x y + t2 (field_pos i))).
Definition masked (k : triple) (p : Pixel) : Pixel := mkPixel (Z.land (r p) (t0 k)) (Z.land (g p) (t1 k)) (Z.land (b p) (t2 k)).
Definition shown (d : VgaDisplay) (x y : Z) : Pixel := masked (mask (fb_info d)) (colour (fb_info d) (fb_memory d) x y).

Lemma masked_twice k p : masked k (masked k p) = masked k p.
Proof. destruct p. unfold masked. cbn. by rewrite <- !Z.land_assoc, !Z.land_diag. Qed.

Lemma byte_store m i l j : 0 <= i -> i + Z.of_nat (length l) <= Z.of_nat (length m) -> 0 <= j ->
  byte (store m i l) j = if decide (i <= j < i + Z.of_nat (length l)) then byte l (j - i) else byte m j.
Proof.
  intros Hi Hl Hj. unfold byte, store.
  assert (Ht : length (take (Z.to_nat i) m) = Z.to_nat i) by (rewrite length_take; lia).
  destruct (decide (i <= j < i + Z.of_nat (length l))) as [Hin|Hout].
  - rewrite app_nth2, app_nth1 by lia. f_equal. lia.
  - destruct (Z.ltb_spec j i).
    + rewrite app_nth1 by lia. rewrite nth_firstn, (proj2 (Nat.ltb_lt _ _)) by lia. done.
    + rewrite app_nth2, app_nth2 by lia. rewrite nth_skipn. f_equal. lia.
Qed.

Lemma length_store m i l : 0 <= i -> i + Z.of_nat (length l) <= Z.of_nat (length m) -> length (store m i l) = length m.
Proof. intros Hi Hl. unfold store. rewrite !length_app, length_take, length_drop. lia. Qed.

Lemma range_ret m i n : 0 <= i -> 0 <= n -> i + n <= Z.of_nat (length m) -> Z.of_nat (length m) < 2 ^ 63 ->
  exists l, range m i n = Ret l /\ Z.of_nat (length l) = n /\ (forall j, 0 <= j < n -> byte l j = byte m (i + j)).
Proof.
  intros Hi Hn Hl Hw. unfold range. rewrite cadd_ret by lia. cbn [mbind outcome_bind]. rewrite assert_ret by (apply Z.leb_le; lia).
  cbn [mbind outcome_bind]. eexists. split; [done|]. split; [rewrite length_take, length_drop; lia|].
  intros j Hj. unfold byte. rewrite nth_firstn, nth_skipn, (proj2 (Nat.ltb_lt _ _)) by lia. f_equal. lia.
Qed.

Lemma copy_range_ret m i n l : 0 <= i -> Z.of_nat (length l) = n -> i + n <= Z.of_nat (length m) -> Z.of_nat (length m) < 2 ^ 63 ->
  copy_range m i n l = Ret (store m i l).
Proof.
  intros Hi Hn Hl Hw. unfold copy_range. destruct (range_ret m i n) as (l' & E & _); [lia..|]. rewrite E. cbn [mbind outcome_bind].
  by rewrite assert_ret by (by apply Z.eqb_eq).
Qed.

(** ** Loops *)
Lemma for_range_inv {A} (I : Z -> A -> Prop) (f : Z -> A -> outcome A) (n : nat) : forall y a, I y a ->
  (forall z c, y <= z < y + Z.of_nat n -> I z c -> exists c', f z c = Ret c' /\ I (z + 1) c') ->
  exists a', for_range n y f a = Ret a' /\ I (y + Z.of_nat n) a'.
Proof.
  induction n as [|n IH]; intros y a Ha Hf; cbn [for_range].
  - exists a. split; [done|]. by rewrite Z.add_0_r.
  - destruct (Hf y a) as (a1 & E1 & H1); [lia|done|]. rewrite E1. cbn [mbind outcome_bind].
    destruct (IH (y + 1) a1 H1) as (a2 & E2 & H2). { intros z c Hz. apply Hf. lia. }
    exists a2. split; [done|]. by replace (y + Z.of_nat (S n)) with (y + 1 + Z.of_nat n) by lia.
Qed.

(** offsets below the pitch determine the line *)
Lemma row_between p a c e y y0 : 0 <= a < p -> 0 <= c -> e <= p -> c + y0 * p <= a + y * p -> a + y * p < e + y0 * p -> y = y0.
Proof.
  intros Ha Hc He H1 H2. destruct (Z.lt_trichotomy y y0) as [Hlt|[->|Hlt]]; [exfalso|done|exfalso].
  - assert ((y + 1) * p <= y0 * p) by (apply Z.mul_le_mono_nonneg_r; lia). lia.
  - assert ((y0 + 1) * p <= y * p) by (apply Z.mul_le_mono_nonneg_r; lia). lia.
Qed.

Lemma pixel_in_line b w p x k : 0 < b -> 0 <= x < w -> 0 <= k <= b -> w * b <= p -> 0 <= x * b /\ x * b + k <= p.
Proof. intros. assert ((x + 1) * b <= w * b) by (apply Z.mul_le_mono_nonneg_r; lia). nia. Qed.
Lemma span_le b x w : 0 < b -> x <= w -> x * b <= w * b.
Proof. intros. apply Z.mul_le_mono_nonneg_r; lia. Qed.
Lemma pixel_order b x0 x k : 0 < b -> k < b -> x0 * b <= x * b + k -> x0 <= x.
Proof. intros. destruct (Z.leb_spec x0 x); [done|]. assert ((x + 1) * b <= x0 * b) by (apply Z.mul_le_mono_nonneg_r; lia). lia. Qed.

Section screen.
Context (i : FrameBufferInfo) (m : bytes) (Hok : fb_ok i m).

Lemma line_bounds x y n : on_screen i x y -> 0 <= n -> x + n <= width i -> 0 <= idx i x y /\ idx i x y + n * byte_per_pixel i <= Z.of_nat (length m).
Proof using Hok.
  destruct Hok. unfold on_screen, idx. intros [Hx Hy] Hn Hxn.
  pose proof (span_le (byte_per_pixel i) (x + n) (width i)). pose proof (span_le (byte_per_pixel i) 0 x).
  assert (0 <= pitch i) by lia. assert ((y + 1) * pitch i <= height i * pitch i) by (apply Z.mul_le_mono_nonneg_r; lia).
  assert (0 <= y * pitch i) by (apply Z.mul_nonneg_nonneg; lia). lia.
Qed.

Lemma idx_bounds x y k : on_screen i x y -> 0 <= k <= byte_per_pixel i -> 0 <= idx i x y /\ idx i x y + k <= Z.of_nat (length m).
Proof using Hok. intros Hs Hk. destruct (line_bounds x y 1 Hs) as [H1 H2]; [lia|destruct Hs; lia|]. lia. Qed.

Lemma arr_pos x y : on_screen i x y -> get_arr_pos i (x, y) = Ret (Some (idx i x y)).
Proof using Hok.
  intros Hs. destruct (idx_bounds x y 0 Hs) as [H1 H2]; [destruct Hok; lia|]. unfold get_arr_pos. cbn [fst snd].
  pose proof Hs as [Hx Hy]. rewrite (proj2 (Z.leb_gt _ _)), (proj2 (Z.leb_gt _ _)) by lia. cbn [orb]. destruct Hok.
  assert (0 <= x * byte_per_pixel i /\ 0 <= y * pitch i) by (split; apply Z.mul_nonneg_nonneg; lia). unfold idx in *.
  rewrite cmul_ret by lia. cbn [mbind outcome_bind]. rewrite cmul_ret by lia. cbn [mbind outcome_bind]. by rewrite cadd_ret by lia.
Qed.

(** different pixels have different bytes *)
Lemma idx_inj x y k x' y' k' : on_screen i x y -> on_screen i x' y' -> 0 <= k < byte_per_pixel i -> 0 <= k' < byte_per_pixel i ->
  idx i x y + k = idx i x' y' + k' -> x = x' /\ y = y' /\ k = k'.
Proof using Hok.
  destruct Hok. unfold on_screen, idx. intros [Hx Hy] [Hx' Hy'] Hk Hk' E.
  pose proof (pixel_in_line (byte_per_pixel i) (width i) (pitch i) x (k + 1)).
  pose proof (pixel_in_line (byte_per_pixel i) (width i) (pitch i) x' (k' + 1)).
  assert (y = y').
  { apply (row_between (pitch i) (x * byte_per_pixel i + k) (x' * byte_per_pixel i + k') (x' * byte_per_pixel i + k' + 1)); lia. }
  subst y'. assert (x = x').
  { apply Z.le_antisymm; [apply (pixel_order (byte_per_pixel i) x x' k')|apply (pixel_order (byte_per_pixel i) x' x k)]; lia. }
  subst x'. split_and!; [done|done|lia].
Qed.

(** a line of [n] pixels stored at [(x0, y0)] *)
Lemma line_stored x0 y0 n l x y k : on_screen i x0 y0 -> 0 <= n -> x0 + n <= width i -> Z.of_nat (length l) = n * byte_per_pixel i ->
  on_screen i x y -> 0 <= k < byte_per_pixel i ->
  byte (store m (idx i x0 y0) l) (idx i x y + k) =
    if decide (y = y0 /\ x0 <= x < x0 + n) then byte l ((x - x0) * byte_per_pixel i + k) else byte m (idx i x y + k).
Proof using Hok.
  intros H0 Hn Hx0 Hl Hs Hk. destruct (line_bounds x0 y0 n H0 Hn Hx0) as [B1 B2].
  destruct (idx_bounds x y k Hs) as [B3 B4]; [lia|]. rewrite byte_store by lia. rewrite Hl. destruct Hok. unfold idx, on_screen in *.
  destruct (decide (y = y0 /\ x0 <= x < x0 + n)) as [[-> Hx]|Hout].
  - pose proof (span_le (byte_per_pixel i) 0 (x - x0)). pose proof (span_le (byte_per_pixel i) (x - x0 + 1) n).
    rewrite decide_True by lia. f_equal. lia.
  - rewrite decide_False; [done|]. intros [A1 A2].
    pose proof (pixel_in_line (byte_per_pixel i) (width i) (pitch i) x (k + 1)). pose proof (span_le (byte_per_pixel i) (x0 + n) (width i)).
    pose proof (span_le (byte_per_pixel i) 0 x0).
    assert (y = y0).
    { apply (row_between (pitch i) (x * byte_per_pixel i + k) (x0 * byte_per_pixel i) ((x0 + n) * byte_per_pixel i)); lia. }
    subst y0. apply Hout. split; [done|]. split; [apply (pixel_order (byte_per_pixel i) x0 x k); lia|].
    destruct (Z.ltb_spec x (x0 + n)); [done|]. pose proof (span_le (byte_per_pixel i) (x0 + n) x). lia.
Qed.
End screen.

Lemma fb_ok_length i m m' : fb_ok i m -> length m' = length m -> fb_ok i m'.
Proof. intros [] Hl. constructor; try done; by rewrite Hl. Qed.

(** ** One pixel *)
Lemma index_ret l j : 0 <= j < Z.of_nat (length l) -> index l j = Ret (byte l j).
Proof.
  intros Hj. unfold index, byte. destruct (l !! Z.to_nat j) as [v|] eqn:E.
  - cbn. by rewrite (nth_lookup_Some _ _ _ _ E).
  - apply lookup_ge_None in E. lia.
Qed.
Lemma set_index_ret l j v : 0 <= j < Z.of_nat (length l) -> set_index l j v = Ret (<[Z.to_nat j := v]> l).
Proof. intros Hj. unfold set_index. by rewrite index_ret. Qed.
Lemma fb_byte_insert l j v n : 0 <= j < Z.of_nat (length l) -> 0 <= n ->
  byte (<[Z.to_nat j := v]> l) n = if decide (n = j) then v else byte l n.
Proof.
  intros Hj Hn. unfold byte. rewrite !nth_lookup. destruct (decide (n = j)) as [->|Hne].
  - by rewrite list_lookup_insert_eq by lia.
  - by rewrite list_lookup_insert_ne by lia.
Qed.

Section pixels.
Context (i : FrameBufferInfo).

Lemma pixel_mem_ok m x y : fb_ok i m -> on_screen i x y ->
  exists l, pixel_mem i m (x, y) = Ret (Some (idx i x y, l)) /\ Z.of_nat (length l) = byte_per_pixel i /\
    (forall k, 0 <= k < byte_per_pixel i -> byte l k = byte m (idx i x y + k)).
Proof.
  intros Hok Hs. unfold pixel_mem. rewrite (arr_pos i m Hok) by done. cbn [mbind outcome_bind].
  destruct (idx_bounds i m Hok x y (byte_per_pixel i) Hs) as [H1 H2]; [destruct Hok; lia|].
  destruct (range_ret m (idx i x y) (byte_per_pixel i)) as (l & E & Hl & Hb); [done|destruct Hok; lia|done|apply Hok|].
  rewrite E. cbn [mbind outcome_bind]. by exists l.
Qed.

Lemma read_pixel_ok m x y : fb_ok i m -> on_screen i x y -> read_pixel i m (x, y) = Ret (Some (colour i m x y)).
Proof.
  intros Hok Hs. destruct (pixel_mem_ok m x y Hok Hs) as (l & E & Hl & Hb). unfold read_pixel. rewrite E. cbn [mbind outcome_bind].
  destruct Hok. rewrite !index_ret by lia. cbn [mbind outcome_bind]. rewrite !Hb by lia. done.
Qed.

Lemma write_pixel_ok m x y c : fb_ok i m -> on_screen i x y ->
  exists m', write_pixel i m (x, y) c = Ret (Some tt, m') /\ length m' = length m /\
    (forall x' y', on_screen i x' y' -> colour i m' x' y' = if decide (y' = y /\ x <= x' < x + 1) then masked (mask i) c else colour i m x' y').
Proof.
  intros Hok Hs. destruct (pixel_mem_ok m x y Hok Hs) as (l & E & Hl & Hb). unfold write_pixel. rewrite E. cbn [mbind outcome_bind].
  pose proof Hok as [Hbpp ? ? ? ? ? F0 F1 F2 N01 N02 N12].
  rewrite set_index_ret by lia. cbn [mbind outcome_bind]. rewrite set_index_ret by (rewrite length_insert; lia). cbn [mbind outcome_bind].
  rewrite set_index_ret by (rewrite !length_insert; lia). cbn [mbind outcome_bind]. eexists. split; [done|].
  destruct (idx_bounds i m Hok x y (byte_per_pixel i) Hs) as [B1 B2]; [lia|].
  split; [apply length_store; [done|rewrite !length_insert; lia]|].
  intros x' y' Hs'. unfold colour.
  rewrite !(line_stored i m Hok x y 1) by (try done; rewrite ?length_insert; destruct Hs; lia).
  destruct (decide (y' = y /\ x <= x' < x + 1)) as [[-> Hx]|Hne]; [|done].
  assert (x' = x) as -> by lia. rewrite Z.sub_diag, Z.mul_0_l, !Z.add_0_l.
  rewrite !fb_byte_insert by (rewrite ?length_insert; lia). unfold masked. cbn [r g b].
  repeat case_decide; try lia; done.
Qed.
End pixels.

(** ** Rectangles *)
Lemma inside_ret i x y w h : 0 <= x -> 0 <= y -> 0 <= w -> 0 <= h -> x + w <= width i -> y + h <= height i -> width i < 2 ^ 63 -> height i < 2 ^ 63 ->
  inside i x y w h = Ret tt.
Proof.
  intros. unfold inside. rewrite cadd_ret by lia. cbn [mbind outcome_bind]. rewrite assert_ret by lia. cbn [mbind outcome_bind].
  rewrite cadd_ret by lia. cbn [mbind outcome_bind]. by rewrite assert_ret by lia.
Qed.

(** the rectangle of size [(w, h)] at [p] lies in the frame buffer *)
Record rect_ok (i : FrameBufferInfo) (p : Z * Z) (w h : Z) : Prop := {
  rk_x : 0 <= p.1; rk_y : 0 <= p.2; rk_w : 0 < w; rk_h : 0 <= h;
  rk_xw : p.1 + w <= width i; rk_yh : p.2 + h <= height i;
  rk_ww : width i < 2 ^ 63; rk_hh : height i < 2 ^ 63
}.

Section blit.
Context (buf : bytes) (si : FrameBufferInfo) (s d : Z * Z) (w h : Z) (i : FrameBufferInfo).
Context (Hs : fb_ok si buf) (Rs : rect_ok si s w h) (Rd : rect_ok i d w h).
(** the pixel of the source that belongs to [(x, y)] *)
Definition source (x y : Z) : Pixel := colour si buf (s.1 + (x - d.1)) (s.2 + (y - d.2)).

(** after [n] lines *)
Definition lines_done (m : bytes) (k : Pixel -> Pixel) (n : Z) (m' : bytes) : Prop :=
  length m' = length m /\
  forall x y, on_screen i x y -> colour i m' x y = if decide (in_rect d w n x y) then k (source x y) else colour i m x y.

Lemma fast_line_ok m y m1 : fb_ok i m -> byte_per_pixel i = byte_per_pixel si -> field_pos i = field_pos si -> 0 <= y < h ->
  lines_done m (fun p => p) y m1 -> exists m2, fast_line buf si s d i (w * byte_per_pixel i) y m1 = Ret m2 /\ lines_done m (fun p => p) (y + 1) m2.
Proof using Hs Rs Rd.
  intros Hok Hbpp Hpos Hy [Hl Hc]. destruct Rs, Rd. unfold fast_line. pose proof (fb_ok_length _ _ _ Hok Hl) as Hok1.
  assert (Os : on_screen si s.1 (s.2 + y)) by (split; lia). assert (Od : on_screen i d.1 (d.2 + y)) by (split; lia).
  rewrite (arr_pos si buf Hs) by done. cbn [mbind outcome_bind unwrap]. rewrite (arr_pos i m1 Hok1) by done. cbn [mbind outcome_bind unwrap].
  destruct (line_bounds si buf Hs s.1 (s.2 + y) w Os) as [B1 B2]; [lia|lia|]. rewrite <- Hbpp in B2.
  destruct (line_bounds i m1 Hok1 d.1 (d.2 + y) w Od) as [B3 B4]; [lia|lia|].
  assert (Hw : 0 <= w * byte_per_pixel i) by (apply Z.mul_nonneg_nonneg; [lia|destruct Hok; lia]).
  destruct (range_ret buf (idx si s.1 (s.2 + y)) (w * byte_per_pixel i)) as (l & El & Hll & Hlb); [done|done|done|apply Hs|].
  rewrite El. cbn [mbind outcome_bind]. rewrite copy_range_ret; [|done|done|done|apply Hok1]. eexists. split; [done|].
  split; [rewrite length_store by lia; done|]. intros u v Ho.
  pose proof Hok as [Hb ? ? ? ? ? F0 F1 F2 _ _ _].
  assert (Hbyte : forall k, 0 <= k < byte_per_pixel i -> byte (store m1 (idx i d.1 (d.2 + y)) l) (idx i u v + k) =
    if decide (v = d.2 + y /\ d.1 <= u < d.1 + w) then byte buf (idx si (s.1 + (u - d.1)) (s.2 + y) + k) else byte m1 (idx i u v + k)).
  { intros k Hk. rewrite (line_stored i m1 Hok1 d.1 (d.2 + y) w) by (done || lia). case_decide as Hin; [|done].
    pose proof (pixel_in_line (byte_per_pixel i) w (w * byte_per_pixel i) (u - d.1) (k + 1)).
    rewrite Hlb by lia. f_equal. unfold idx. rewrite <- Hbpp. lia. }
  unfold colour. rewrite !Hbyte by done. specialize (Hc u v Ho). unfold colour in Hc.
  destruct (decide (v = d.2 + y /\ d.1 <= u < d.1 + w)) as [[-> Hu]|Hn].
  - rewrite decide_True by (unfold in_rect; lia). unfold source, colour. rewrite Hpos. by replace (d.2 + y - d.2) with y by lia.
  - rewrite Hc. destruct (decide (in_rect d w y u v)) as [H1|H1], (decide (in_rect d w (y + 1) u v)) as [H2|H2]; try done;
      exfalso; unfold in_rect in *; lia.
Qed.

(** one pixel of a line: [x] of them are done *)
Definition pixels_done (m : bytes) (y x : Z) (m' : bytes) : Prop :=
  length m' = length m /\
  forall u v, on_screen i u v -> colour i m' u v =
    if decide (in_rect d w y u v \/ v = d.2 + y /\ d.1 <= u < d.1 + x) then masked (mask i) (source u v) else colour i m u v.

Lemma slow_pixel_ok m y x m1 : fb_ok i m -> 0 <= y < h -> 0 <= x < w -> pixels_done m y x m1 ->
  exists m2, slow_pixel buf si s d i y x m1 = Ret m2 /\ pixels_done m y (x + 1) m2.
Proof using Hs Rs Rd.
  intros Hok Hy Hx [Hl Hc]. destruct Rs, Rd. unfold slow_pixel. pose proof (fb_ok_length _ _ _ Hok Hl) as Hok1.
  rewrite read_pixel_ok; [|done|split; lia]. cbn [mbind outcome_bind unwrap].
  destruct (write_pixel_ok i m1 (d.1 + x) (d.2 + y) (colour si buf (s.1 + x) (s.2 + y)) Hok1) as (m2 & E & Hl2 & Hc2); [split; lia|].
  rewrite E. cbn [mbind outcome_bind unwrap]. exists m2. split; [done|]. split; [congruence|]. intros u v Ho. rewrite Hc2 by done.
  destruct (decide (v = d.2 + y /\ d.1 + x <= u < d.1 + x + 1)) as [[-> Hu]|Hn].
  - rewrite decide_True by lia. unfold source. do 2 f_equal; lia.
  - rewrite Hc by done. match goal with |- (if decide ?A then _ else _) = (if decide ?B then _ else _) => destruct (decide A), (decide B) end;
      try done; exfalso; unfold in_rect in *; lia.
Qed.

Lemma lines_pixels m y m1 : lines_done m (masked (mask i)) y m1 <-> pixels_done m y 0 m1.
Proof.
  split; intros [Hl Hc]; (split; [done|]); intros u v Ho; rewrite Hc by done;
    match goal with |- (if decide ?A then _ else _) = (if decide ?B then _ else _) => destruct (decide A), (decide B) end; try done; exfalso; unfold in_rect in *; lia.
Qed.
Lemma pixels_lines m y m1 : 0 <= y -> pixels_done m y w m1 -> lines_done m (masked (mask i)) (y + 1) m1.
Proof using Rd.
  destruct Rd. intros Hy [Hl Hc]; (split; [done|]); intros u v Ho; rewrite Hc by done;
    match goal with |- (if decide ?A then _ else _) = (if decide ?B then _ else _) => destruct (decide A), (decide B) end; try done;
    exfalso; unfold in_rect in *; lia.
Qed.

Lemma lines_start m k : lines_done m k 0 m.
Proof. split; [done|]. intros u v Ho. rewrite decide_False; [done|]. unfold in_rect. lia. Qed.

Lemma blit_fast_ok m : fb_ok i m -> byte_per_pixel i = byte_per_pixel si -> field_pos i = field_pos si ->
  exists m', blit_fast buf si s d w h (mkDisplay i m) = Ret (mkDisplay i m') /\ lines_done m (fun p => p) h m'.
Proof using Hs Rs Rd.
  intros Hok Hbpp Hpos. destruct Rs, Rd. unfold blit_fast. cbn [fb_info fb_memory]. rewrite !inside_ret by lia. cbn [mbind outcome_bind].
  pose proof (span_le (byte_per_pixel i) w (width i)) as Hsp. pose proof Hok as [? ? ? ? ? ? _ _ _ _ _ _].
  rewrite cmul_ret; cbn [mbind outcome_bind].
  - destruct (for_range_inv (lines_done m (fun p => p)) (fast_line buf si s d i (w * byte_per_pixel i)) (Z.to_nat h) 0 m) as (m' & E & Hm).
    + apply lines_start.
    + intros y c Hy Hc. apply fast_line_ok; [done..|lia|done].
    + rewrite E. cbn [mbind outcome_bind]. exists m'. split; [done|]. by rewrite Z2Nat.id in Hm by lia.
  - lia.
Qed.

Lemma blit_slow_ok m : fb_ok i m ->
  exists m', blit_slow buf si s d w h (mkDisplay i m) = Ret (mkDisplay i m') /\ lines_done m (masked (mask i)) h m'.
Proof using Hs Rs Rd.
  intros Hok. destruct Rs, Rd. unfold blit_slow. cbn [fb_info fb_memory]. rewrite !inside_ret by lia. cbn [mbind outcome_bind].
  destruct (for_range_inv (lines_done m (masked (mask i))) (fun y => for_range (Z.to_nat w) 0 (slow_pixel buf si s d i y)) (Z.to_nat h) 0 m) as (m' & E & Hm).
  - apply lines_start.
  - intros y c Hy Hc. destruct (for_range_inv (pixels_done m y) (slow_pixel buf si s d i y) (Z.to_nat w) 0 c) as (c' & E & Hc').
    + by apply lines_pixels.
    + intros x c1 Hx H1. apply slow_pixel_ok; [done|lia|lia|done].
    + exists c'. split; [done|]. apply pixels_lines; [lia|]. by rewrite Z2Nat.id in Hc' by lia.
  - rewrite E. cbn [mbind outcome_bind]. exists m'. split; [done|]. by rewrite Z2Nat.id in Hm by lia.
Qed.
End blit.

(** Copying a rectangle, in whichever way: every pixel of the rectangle shows
    the source's colour as far as the screen's masks let it through, and
    every other pixel is unchanged. *)
Theorem blit_copies buf si s d w h disp :
  let i := fb_info disp in
  fb_ok si buf -> fb_ok i (fb_memory disp) -> rect_ok si s w h -> rect_ok i d w h ->
  exists disp', blit buf si s d w h disp = Ret disp' /\ fb_info disp' = i /\ length (fb_memory disp') = length (fb_memory disp) /\
    forall x y, on_screen i x y ->
      shown disp' x y = if decide (in_rect d w h x y) then masked (mask i) (colour si buf (s.1 + (x - d.1)) (s.2 + (y - d.2))) else shown disp x y.
Proof.
  destruct disp as [i m]. cbn [fb_info fb_memory]. intros Hs Hok Rs Rd. unfold blit, same_format. cbn [fb_info fb_memory].
  destruct ((byte_per_pixel i =? byte_per_pixel si) && bool_decide (field_pos i = field_pos si) && bool_decide (mask i = mask si)) eqn:E.
  - bool_hyps. destruct (blit_fast_ok buf si s d w h i Hs Rs Rd m) as (m' & Em & Hl & Hc); [done..|].
    exists (mkDisplay i m'). split_and!; [done..|]. intros x y Ho. unfold shown. cbn [fb_info fb_memory]. rewrite Hc by done. by destruct (decide (in_rect d w h x y)).
  - destruct (blit_slow_ok buf si s d w h i Hs Rs Rd m) as (m' & Em & Hl & Hc); [done..|].
    exists (mkDisplay i m'). split_and!; [done..|]. intros x y Ho. unfold shown. cbn [fb_info fb_memory]. rewrite Hc by done.
    destruct (decide (in_rect d w h x y)); [apply masked_twice|done].
Qed.

(** For buffers of the same format the copy of whole lines and the copy pixel
    by pixel show the same picture. *)
Theorem blit_fast_is_blit_slow buf si s d w h disp :
  let i := fb_info disp in
  fb_ok si buf -> fb_ok i (fb_memory disp) -> rect_ok si s w h -> rect_ok i d w h -> same_format si i = true ->
  exists d1 d2, blit_fast buf si s d w h disp = Ret d1 /\ blit_slow buf si s d w h disp = Ret d2 /\
    forall x y, on_screen i x y -> shown d1 x y = shown d2 x y.
Proof.
  destruct disp as [i m]. cbn [fb_info fb_memory]. intros Hs Hok Rs Rd Hf. unfold same_format in Hf. bool_hyps.
  destruct (blit_fast_ok buf si s d w h i Hs Rs Rd m) as (m1 & E1 & _ & C1); [done..|].
  destruct (blit_slow_ok buf si s d w h i Hs Rs Rd m) as (m2 & E2 & _ & C2); [done..|].
  exists (mkDisplay i m1), (mkDisplay i m2). split_and!; [done..|]. intros x y Ho. unfold shown. cbn [fb_info fb_memory].
  rewrite C1, C2 by done. destruct (decide (in_rect d w h x y)); [by rewrite masked_twice|done].
Qed.

(** ** Filling a rectangle *)
(** the first line of the rectangle as a frame buffer of its own *)
Definition line_info (i : FrameBufferInfo) (w : Z) : FrameBufferInfo :=
  mkInfo (w * byte_per_pixel i) 1 w (field_pos i) (mask i) (byte_per_pixel i).

Lemma write_pixel_line i w l x c : 0 <= x < w -> w <= width i -> 0 < height i ->
  write_pixel i l (x, 0) c = write_pixel (line_info i w) l (x, 0) c.
Proof.
  intros Hx Hw Hh. unfold write_pixel, pixel_mem, get_arr_pos, line_info. cbn [fst snd width height byte_per_pixel pitch field_pos mask].
  rewrite (proj2 (Z.leb_gt _ x)), (proj2 (Z.leb_gt _ 0)), (proj2 (Z.leb_gt _ x)) by lia. done.
Qed.

Lemma fill_line i w c l : fb_ok (line_info i w) l -> 0 < w -> w <= width i -> 0 < height i ->
  exists l', for_range (Z.to_nat w) 0 (fun x l => '(_, l) ← write_pixel i l (x, 0) c; Ret l) l = Ret l' /\ length l' = length l /\
    forall x, 0 <= x < w -> colour (line_info i w) l' x 0 = masked (mask i) c.
Proof.
  intros Hok Hw0 Hw Hh.
  destruct (for_range_inv (fun n l' => length l' = length l /\ forall x, 0 <= x < n -> x < w -> colour (line_info i w) l' x 0 = masked (mask i) c)
    (fun x l => '(_, l) ← write_pixel i l (x, 0) c; Ret l) (Z.to_nat w) 0 l) as (l' & E & Hl & Hc).
  - split; [done|lia].
  - intros x l1 Hx [Hl1 Hc1]. rewrite (write_pixel_line i w) by lia.
    destruct (write_pixel_ok (line_info i w) l1 x 0 c (fb_ok_length _ _ _ Hok Hl1)) as (l2 & E2 & Hl2 & Hc2); [split; cbn; lia|].
    rewrite E2. cbn [mbind outcome_bind]. exists l2. split; [done|]. split; [congruence|]. intros u Hu Huw.
    rewrite Hc2 by (split; cbn; lia). case_decide; [done|]. apply Hc1; lia.
  - exists l'. split_and!; [done..|]. intros x Hx. apply Hc; lia.
Qed.

Lemma store_app before after j l : 0 <= j -> before ++ store after j l = store (before ++ after) (Z.of_nat (length before) + j) l.
Proof.
  intros Hj. unfold store. rewrite Z2Nat.inj_add, Nat2Z.id by lia. rewrite take_app_add, app_assoc. do 2 f_equal.
  rewrite <- Nat.add_assoc, drop_app_add. done.
Qed.

Section clear.
Context (i : FrameBufferInfo) (p : Z * Z) (w h : Z) (c : Pixel) (m : bytes) (Hok : fb_ok i m) (Hr : rect_ok i p w h).

Definition filled (n : Z) (m' : bytes) : Prop :=
  length m' = length m /\
  forall u v, on_screen i u v -> colour i m' u v = if decide (in_rect p w n u v) then masked (mask i) c else colour i m u v.

(** storing a line of the colour *)
Lemma store_line m1 l n : length m1 = length m -> Z.of_nat (length l) = w * byte_per_pixel i ->
  (forall x, 0 <= x < w -> colour (line_info i w) l x 0 = masked (mask i) c) -> 0 <= n < h -> filled n m1 ->
  filled (n + 1) (store m1 (idx i p.1 (p.2 + n)) l).
Proof using Hok Hr.
  intros Hl1 Hl Hc Hn [_ Hf]. destruct Hr. pose proof (fb_ok_length _ _ _ Hok Hl1) as Hok1.
  assert (Ho : on_screen i p.1 (p.2 + n)) by (split; lia). destruct (line_bounds i m1 Hok1 p.1 (p.2 + n) w Ho) as [B1 B2]; [lia|lia|].
  split; [rewrite length_store by lia; done|]. intros u v Huv. pose proof Hok as [? ? ? ? ? ? F0 F1 F2 _ _ _].
  unfold colour. rewrite !(line_stored i m1 Hok1 p.1 (p.2 + n) w) by (done || lia).
  destruct (decide (v = p.2 + n /\ p.1 <= u < p.1 + w)) as [[-> Hu]|Hout].
  - rewrite decide_True by (unfold in_rect; lia). specialize (Hc (u - p.1)). unfold colour, idx, line_info in Hc.
    cbn [byte_per_pixel pitch field_pos] in Hc. rewrite Z.mul_0_l, Z.add_0_r in Hc. rewrite Hc by lia. done.
  - specialize (Hf u v Huv). unfold colour in Hf. rewrite Hf.
    match goal with |- (if decide ?A then _ else _) = (if decide ?B then _ else _) => destruct (decide A), (decide B) end; try done;
      exfalso; unfold in_rect in *; lia.
Qed.

Lemma clear_rect_ok : 0 < h -> p.2 + 1 < height i ->
  exists m', clear_rect p.1 p.2 w h c (mkDisplay i m) = Ret (mkDisplay i m') /\ filled h m'.
Proof using Hok Hr.
  intros Hh Hy. pose proof Hr as [Hx0 Hy0 Hw Hh0 Hxw Hyh Hww Hhh]. pose proof Hok as [Hbpp ? ? Hp Hsz Hlen F0 F1 F2 N01 N02 N12].
  unfold clear_rect. cbn [fb_info fb_memory]. rewrite inside_ret by lia. cbn [mbind outcome_bind].
  rewrite (proj2 (Z.eqb_neq h 0)), (proj2 (Z.eqb_neq w 0)) by lia. cbn [orb].
  pose proof (span_le (byte_per_pixel i) w (width i)) as Hsp. pose proof (span_le (byte_per_pixel i) 1 w) as Hsp1.
  rewrite cmul_ret by lia. cbn [mbind outcome_bind]. assert (Ho : on_screen i p.1 p.2) by (split; lia).
  rewrite (arr_pos i m Hok p.1 p.2 Ho). cbn [mbind outcome_bind unwrap]. destruct (line_bounds i m Hok p.1 p.2 w Ho) as [B1 B2]; [lia|lia|].
  destruct (range_ret m (idx i p.1 p.2) (w * byte_per_pixel i)) as (l & El & Hl & _); [lia|lia|lia|lia|]. rewrite El. cbn [mbind outcome_bind].
  assert (Hlok : fb_ok (line_info i w) l) by (constructor; cbn; lia).
  destruct (fill_line i w c l Hlok) as (l1 & El1 & Hl1 & Hc1); [lia..|]. rewrite El1. cbn [mbind outcome_bind].
  assert (Hl1' : Z.of_nat (length l1) = w * byte_per_pixel i) by lia. set (m1 := store m (idx i p.1 p.2) l1).
  assert (Hm1 : filled 1 m1).
  { change 1 with (0 + 1). unfold m1. rewrite <- (Z.add_0_r p.2). apply store_line; [done..|lia|].
    split; [done|]. intros u v Huv. rewrite decide_False; [done|]. unfold in_rect. lia. }
  pose proof (fb_ok_length _ _ _ Hok (proj1 Hm1)) as Hok1. assert (Ho2 : on_screen i 0 (p.2 + 1)) by (split; lia).
  rewrite (arr_pos i m1 Hok1 _ _ Ho2). cbn [mbind outcome_bind unwrap]. destruct (idx_bounds i m1 Hok1 0 (p.2 + 1) 0 Ho2) as [B3 B4]; [lia|].
  set (k := idx i 0 (p.2 + 1)) in *. rewrite assert_ret by (apply Z.leb_le; lia). cbn [mbind outcome_bind].
  assert (Hbl : length (take (Z.to_nat k) m1) = Z.to_nat k) by (rewrite length_take; lia).
  assert (Hk : idx i p.1 p.2 + w * byte_per_pixel i <= k).
  { unfold k, idx. pose proof (span_le (byte_per_pixel i) (p.1 + w) (width i)). lia. }
  pose proof (proj1 Hm1) as Hlm1.
  destruct (range_ret (take (Z.to_nat k) m1) (idx i p.1 p.2) (w * byte_per_pixel i)) as (l2 & El2 & Hl2 & Hb2); [lia..|].
  rewrite El2. cbn [mbind outcome_bind].
  assert (Hbytes : forall j, 0 <= j < w * byte_per_pixel i -> byte l2 j = byte l1 j).
  { intros j Hj. rewrite Hb2 by done. unfold byte at 1. rewrite nth_firstn, (proj2 (Nat.ltb_lt _ _)) by lia.
    change (byte m1 (idx i p.1 p.2 + j) = byte l1 j). unfold m1. rewrite byte_store by lia. rewrite decide_True by lia. f_equal. lia. }
  assert (Hc2 : forall x, 0 <= x < w -> colour (line_info i w) l2 x 0 = masked (mask i) c).
  { intros x Hx. rewrite <- (Hc1 x Hx). unfold colour, idx, line_info. cbn [byte_per_pixel pitch field_pos].
    pose proof (pixel_in_line (byte_per_pixel i) w (w * byte_per_pixel i) x (byte_per_pixel i)). rewrite !Hbytes by lia. done. }
  destruct (for_range_inv (fun n a => filled n (take (Z.to_nat k) m1 ++ a)) (clear_line i p.1 (w * byte_per_pixel i) l2) (Z.to_nat (h - 1)) 1
    (drop (Z.to_nat k) m1)) as (a & Ea & Ha).
  - by rewrite take_drop.
  - intros y a Hy1 Ha. unfold clear_line. assert (Oy : on_screen i p.1 (y - 1)) by (split; lia). rewrite (arr_pos i m Hok _ _ Oy).
    cbn [mbind outcome_bind unwrap]. assert (Oy2 : on_screen i p.1 (p.2 + y)) by (split; lia).
    pose proof (proj1 Ha) as Hla. rewrite length_app, Hbl in Hla.
    destruct (line_bounds i m Hok p.1 (p.2 + y) w Oy2) as [B5 B6]; [lia|lia|]. destruct (line_bounds i m Hok p.1 (y - 1) w Oy) as [B7 B8]; [lia|lia|].
    assert (Eidx : Z.of_nat (length (take (Z.to_nat k) m1)) + idx i p.1 (y - 1) = idx i p.1 (p.2 + y)) by (rewrite Hbl; unfold k, idx in *; lia).
    rewrite copy_range_ret by lia. eexists. split; [done|]. rewrite store_app by lia. rewrite Eidx.
    apply store_line; [exact (proj1 Ha)|done|done|lia|done].
  - rewrite Ea. cbn [mbind outcome_bind]. eexists. split; [done|]. by replace h with (1 + Z.of_nat (Z.to_nat (h - 1))) by lia.
Qed.
End clear.

(** Filling a rectangle that does not start in the last line of the screen
    gives every pixel of it the colour and changes no other. *)
Theorem clear_rect_fills p w h c disp :
  let i := fb_info disp in
  fb_ok i (fb_memory disp) -> rect_ok i p w h -> 0 < h -> p.2 + 1 < height i ->
  exists disp', clear_rect p.1 p.2 w h c disp = Ret disp' /\ fb_info disp' = i /\
    forall x y, on_screen i x y -> shown disp' x y = if decide (in_rect p w h x y) then masked (mask i) c else shown disp x y.
Proof.
  destruct disp as [i m]. cbn [fb_info fb_memory]. intros Hok Hr Hh Hy. destruct (clear_rect_ok i p w h c m Hok Hr Hh Hy) as (m' & E & _ & Hc).
  exists (mkDisplay i m'). split_and!; [done..|]. intros x y Ho. unfold shown. cbn [fb_info fb_memory]. rewrite Hc by done.
  destruct (decide (in_rect p w h x y)); [apply masked_twice|done].
Qed.

(** ** A small screen *)
Module GraphicsDemo.
(** four by three pixels of four bytes, lines of twenty bytes *)
Definition screen : FrameBufferInfo := mkInfo 20 3 4 (2, 1, 0) (255, 255, 255) 4.
Definition rgb : FrameBufferInfo := mkInfo 6 2 2 (0, 1, 2) (255, 255, 255) 3.
Definition black : VgaDisplay := mkDisplay screen (replicate 60 0).
Definition picture : bytes := [1; 2; 3; 4; 5; 6; 7; 8; 9; 10; 11; 12].
Definition tile : bytes := replicate 40 9.
Definition tile_info : FrameBufferInfo := mkInfo 20 2 4 (2, 1, 0) (255, 255, 255) 4.

Lemma screen_ok : fb_ok screen (fb_memory black).
Proof. constructor; vm_compute; try done; split; done. Qed.
Lemma rgb_ok : fb_ok rgb picture.
Proof. constructor; vm_compute; try done; split; done. Qed.
Lemma tile_ok : fb_ok tile_info tile.
Proof. constructor; vm_compute; try done; split; done. Qed.

(** the picture at (1, 1): its last pixel is shown at (2, 2) *)
Lemma blit_copies_witness : exists d', blit picture rgb (0, 0) (1, 1) 2 2 black = Ret d' /\
  shown d' 2 2 = mkPixel 10 11 12 /\ shown d' 3 2 = mkPixel 0 0 0.
Proof.
  destruct (blit_copies picture rgb (0, 0) (1, 1) 2 2 black rgb_ok screen_ok) as (d' & E & _ & _ & H).
  - constructor; vm_compute; done.
  - constructor; vm_compute; done.
  - exists d'. split; [exact E|]. split.
    + rewrite (H 2 2); [by vm_compute|]. split; vm_compute; split; done.
    + rewrite (H 3 2); [by vm_compute|]. split; vm_compute; split; done.
Defined.

Lemma blit_fast_is_blit_slow_witness : exists d1 d2, blit_fast tile tile_info (1, 0) (2, 1) 2 2 black = Ret d1 /\
  blit_slow tile tile_info (1, 0) (2, 1) 2 2 black = Ret d2 /\ shown d1 3 2 = shown d2 3 2 /\ d1 <> d2.
Proof.
  destruct (blit_fast_is_blit_slow tile tile_info (1, 0) (2, 1) 2 2 black tile_ok screen_ok) as (d1 & d2 & E1 & E2 & H).
  - constructor; vm_compute; done.
  - constructor; vm_compute; done.
  - by vm_compute.
  - exists d1, d2. split_and!; [exact E1|exact E2| |].
    + apply H. split; vm_compute; split; done.
    + revert E1 E2. vm_compute. intros [= <-] [= <-]. done.
Defined.

Lemma clear_rect_fills_witness : exists d', clear_rect 1 1 2 2 (mkPixel 7 8 9) black = Ret d' /\
  shown d' 1 2 = mkPixel 7 8 9 /\ shown d' 0 2 = mkPixel 0 0 0.
Proof.
  destruct (clear_rect_fills (1, 1) 2 2 (mkPixel 7 8 9) black screen_ok) as (d' & E & _ & H).
  - constructor; vm_compute; done.
  - by vm_compute.
  - by vm_compute.
  - exists d'. split; [exact E|]. split.
    + rewrite (H 1 2); [by vm_compute|]. split; vm_compute; split; done.
    + rewrite (H 0 2); [by vm_compute|]. split; vm_compute; split; done.
Defined.

(** A rectangle in the last line of the screen is inside it, and filling it
    panics: the line behind the first one is looked up even when there is
    none to copy to. *)
Lemma clear_last_line_panics : clear_rect 0 2 4 1 (mkPixel 7 8 9) black = Panic /\ inside screen 0 2 4 1 = Ret tt.
Proof. by vm_compute. Qed.

(** Inside the screen only a copy towards the start of the memory works: the
    handler for the other direction copies into the wrong half. *)
Lemma inner_copy_down_panics : blit_inner_ranges (0, 0) (0, 2) 4 1 black = Panic /\ is_ok (match blit_inner_ranges (0, 2) (0, 0) 4 1 black with Ret d => Ok d | _ => Err tt end) = true.
Proof. by vm_compute. Qed.

(** A rectangle outside the screen, or an empty one at its right border,
    stops the kernel. *)
Lemma blit_outside_panics : blit picture rgb (0, 0) (3, 1) 2 2 black = Panic /\ blit tile tile_info (4, 0) (0, 0) 0 1 black = Panic.
Proof. by vm_compute. Qed.
End GraphicsDemo.
