(* ===== verification/Spawn.v ===== *)
(** * Creating a process

    Models [Process::allocate_process] of [kernel/src/process/mod.rs]: the
    address space of a new process is set up with the page of its metadata,
    its stack with the arguments, its image and its kernel stack, and the
    context it starts with is filled in. *)
From S2P Require Import Prelude MemLayout UserLink FsTypes Locks Context Process Path Mount Vfs Bytes PageTables Elf.
Import ProcessLink Context Process.

(** ** What creating a process uses of an address space *)
(** [clone_current_vm_as_user] and [add_process_specific_mappings]; the
    memory of an address space as a function, [um_set] after writes to it *)
Class SpawnVm (V : Type) : Type := {
  vm_clone_as_user : outcome V;
  vm_add_specific : V -> outcome V;
  um_mem : V -> Mem;
  um_set : Mem -> V -> V
}.

Module Spawn.
Definition INITIAL_STACK_SIZE_PAGES : Z := 256.
Definition HEAP_OFFSET_FROM_ELF_END : Z := 1 * MB.
Definition DEFAULT_MAX_HEAP_SIZE : Z := 1 * GB.

(** selectors of the user segments: the second and fourth descriptor, with
    the user's privilege level *)
Definition USER_RING : Z := 3.
Definition from_index (index : Z) : Z := Z.shiftl index 3.
Definition user_code_seg : Z := from_index 2.
Definition user_data_seg : Z := from_index 4.
(** [cpu::flags::IF] *)
Definition IF_FLAG : Z := Z.shiftl 1 9.

Section spawn.
Context {F W V N : Type} `{Mount.FileSystem F W} `{Elf.ImageSpace V} `{SpawnVm V} (fuel : nat).
Notation FS := (Vfs.FS (F := F) (W := W)).

(** the file being loaded, the CPU, the next process id, and whether the
    address space of the new process is the active one *)
Record Alloc : Type := mkAlloc { al_file : FS; al_cpu : Cpu.Cpu; al_next_id : Z; al_active : bool }.

Definition on_al_cpu (f : Cpu.Cpu -> outcome Cpu.Cpu) : ST Alloc unit :=
  s ← get; c ← lift (f (al_cpu s)); modify (fun s => mkAlloc (al_file s) c (al_next_id s) (al_active s)).
Definition set_al_active (b : bool) : ST Alloc unit := modify (fun s => mkAlloc (al_file s) (al_cpu s) (al_next_id s) b).
(** work in the address space [v] with interrupts off *)
Definition in_vm {A} (m : outcome A) : ST Alloc A :=
  _ ← on_al_cpu Cpu.push_cli; _ ← set_al_active true; a ← lift m; _ ← set_al_active false; _ ← on_al_cpu Cpu.pop_cli; mret a.

Definition next_process_id : ST Alloc Z :=
  s ← get; let '(i, n) := allocate (al_next_id s) in
  _ ← put (mkAlloc (al_file s) (al_cpu s) n (al_active s)); mret i.

(** [load_elf_to_vm] on the file and the CPU of this state *)
Definition load_image (elf : Elf.Elf) (meta : Elf.ProcessMetadata) (vm : V)
    : ST Alloc (result (Z * Z * Elf.ProcessMetadata) FileSystemError * V) := fun s =>
  match Elf.load_elf_to_vm fuel elf meta (Elf.mkLoad (al_file s) vm (al_cpu s) (al_active s)) with
  | Ret (r, l) => Ret ((r, Elf.ls_vm l), mkAlloc (Elf.ls_file l) (Elf.ls_cpu l) (al_next_id s) (Elf.ls_active l))
  | Panic => Panic
  | Diverge => Diverge
  end.

Definition set_pid (pid : Z) (m : Elf.ProcessMetadata) : Elf.ProcessMetadata :=
  Elf.mkMeta pid (Elf.image_base m) (Elf.image_size m) (Elf.program_headers_offset m) (Elf.eh_frame_address m) (Elf.eh_frame_size m)
    (Elf.text_address m) (Elf.text_size m).

(** the registers a process starts with *)
Definition initial_context (entry rsp argc argv_ptr : Z) : ProcessContext :=
  let cs := Z.lor user_code_seg USER_RING in
  let ds := Z.lor user_data_seg USER_RING in
  mkContext IF_FLAG entry cs ds 0 0 0 ds 0 0 0 0 0 0 0 0 0 0 argv_ptr argc rsp 0 0 0 0 0 0 0 0 0 fxsave_default.

Definition allocate_process (parent_id : Z) (elf : Elf.Elf) (argv : list bytes) (current_dir : bytes)
    : ST Alloc (result (Process V N) FileSystemError) :=
  id ← next_process_id;
  vm ← lift vm_clone_as_user;
  let process_meta := set_pid id Elf.meta_empty in
  let process_meta_addr := PageTables.MAX_USER_VIRTUAL_ADDRESS - PAGE_4K in
  vm ← lift (Elf.im_map process_meta_addr PAGE_4K PageTables.PTE_USER vm);
  let stack_end := process_meta_addr - PAGE_4K in
  let stack_size := INITIAL_STACK_SIZE_PAGES * PAGE_4K in
  let stack_start := stack_end - stack_size in
  vm ← lift (Elf.im_map stack_start stack_size (Z.lor PageTables.PTE_USER PageTables.PTE_WRITABLE) vm);
  let rsp := stack_end - 8 in
  '(new_rsp, argc, argv_ptr, m) ← in_vm (prepare_stack argv rsp stack_start (um_mem vm));
  let vm := um_set m vm in
  '(r, vm) ← load_image elf process_meta vm;
  match r with
  | Err e => mret (Err e)
  | Ok (_, max_addr, process_meta) =>
      vm ← in_vm (Elf.im_store process_meta_addr (Elf.encode_meta process_meta) vm);
      vm ← lift (vm_add_specific vm);
      h ← lift (cadd 64 max_addr HEAP_OFFSET_FROM_ELF_END);
      heap_start ← lift (align_up h PAGE_2M);
      let entry := Elf.entry_point elf in
      _ ← lift (assert_that (Elf.im_mapped vm entry && (entry <? KERNEL_BASE)));
      s ← get;
      mret (Ok (mkProcess vm (initial_context entry new_rsp argc argv_ptr) id parent_id ∅ 0 argv (Vfs.f_path (al_file s).2) current_dir
                  (stack_end - 8) stack_size heap_start 0 DEFAULT_MAX_HEAP_SIZE Normal 0 ∅))
  end.
End spawn.
Arguments Alloc : clear implicits.
End Spawn.
