(* ===== verification/Syscalls.v ===== *)
(** * System calls

    Models [kernel/src/process/syscalls/mod.rs]: the arguments a process
    passes in registers and in its memory, every handler of [SYSCALLS], and
    [handle_syscall], over the scheduler, the processes, the mounted file
    systems, the display and the clock of the other files.  The saved
    registers of the interrupt are part of the state, because handlers that
    stop the current process exchange them. *)
From S2P Require Import Prelude MemLayout UserLink FsTypes Locks Context Process Scheduler Path PathUse Mount Vfs Bytes Elf Spawn Graphics.
Import ProcessLink Context Clock Process Scheduler.
Import Stdlib.Strings.String.StringSyntax.
Import UserLink.Syscalls.

Module Handlers.
(** ** Errors of the file system, for the user *)
Definition from_fs_error (e : FileSystemError) : outcome SyscallError :=
  match e with
  | FsTypes.InvalidPath => Ret CouldNotOpenFile
  | FsTypes.FileNotFound => Ret FileNotFound
  | FsTypes.ReadNotSupported => Ret CouldNotReadFromFile
  | FsTypes.WriteNotSupported | FsTypes.CouldNotSetFileLength => Ret CouldNotWriteToFile
  | FsTypes.EndOfFile => Ret EndOfFile
  | FsTypes.IsNotDirectory => Ret IsNotDirectory
  | FsTypes.IsDirectory => Ret IsDirectory
  | FsTypes.AlreadyExists => Ret AlreadyExists
  | FsTypes.BufferNotLargeEnough _ => Ret BufferTooSmall
  | FsTypes.OperationNotSupported => Ret OperationNotSupported
  | FsTypes.DiskReadError _ _ | FsTypes.FatErr _ | FsTypes.MappingErr _ | FsTypes.DeviceNotFound
  | FsTypes.MustBeAbsolute | FsTypes.PartitionTableNotFound => Panic
  end.

(** [to_arg_err!] *)
Definition to_arg_err (n : nat) (e : SyscallArgError) : SyscallError :=
  let at_ (i : nat) := if Nat.eqb n i then Some e else None in
  InvalidArgument (at_ 0%nat) (at_ 1%nat) (at_ 2%nat) (at_ 3%nat) (at_ 4%nat) (at_ 5%nat) (at_ 6%nat).

(** [value as i64], [value as i32] *)
Definition as_i64 (v : Z) : Z := if v <? 2 ^ 63 then v else v - 2 ^ 64.
Definition as_i32 (v : Z) : Z := let v := wrap 32 v in if v <? 2 ^ 31 then v else v - 2 ^ 32.

(** the kernel's time as the user's *)
Definition clock_time_into (t : ClockTime) : outcome bytes :=
  _ ← assert_that (nanoseconds t <? NANOS_PER_SEC);
  Ret (le 8 (seconds t) ++ le 4 (nanoseconds t)).

(** a device for each side of a new pipe *)
Class PipeDevices (W : Type) : Type := { new_pipe : ST W (nat * nat) }.

Section handlers.
Context {F W V : Type} `{Mount.FileSystem F W} `{UserVm V} `{Elf.ImageSpace V} `{SpawnVm V} `{PipeDevices W} (fuel : nat).
Notation Node := (Vfs.FilesystemNode (F := F)).
Notation Proc := (Process V Node).
Notation Wld := (World (V := V) (N := Node)).
Notation Disk := (Mount.Vfs (F := F) (W := W)).
Notation FS := (Vfs.FS (F := F) (W := W)).

(** the scheduler and the machine, the file systems, the registers the
    interrupt saved, the next process id, the display, the start time *)
Record Sys : Type := mkSys {
  s_world : Wld; s_disk : Disk; s_regs : InterruptAllSavedState; s_next_id : Z; s_display : option Graphics.VgaDisplay; s_start_unix : ClockTime
}.
Notation R A := (ST Sys (result A SyscallError)) (only parsing).
Notation RA A := (ST Sys (result A SyscallArgError)) (only parsing).

Definition set_world (w : Wld) (s : Sys) : Sys := mkSys w (s_disk s) (s_regs s) (s_next_id s) (s_display s) (s_start_unix s).
Definition set_disk (d : Disk) (s : Sys) : Sys := mkSys (s_world s) d (s_regs s) (s_next_id s) (s_display s) (s_start_unix s).
Definition set_regs (r : InterruptAllSavedState) (s : Sys) : Sys := mkSys (s_world s) (s_disk s) r (s_next_id s) (s_display s) (s_start_unix s).
Definition set_display (d : option Graphics.VgaDisplay) (s : Sys) : Sys := mkSys (s_world s) (s_disk s) (s_regs s) (s_next_id s) d (s_start_unix s).

Definition on_w {A} (m : ST Wld A) : ST Sys A := fun s =>
  match m (s_world s) with Ret (a, w) => Ret (a, set_world w s) | Panic => Panic | Diverge => Diverge end.
Definition on_d {A} (m : ST Disk A) : ST Sys A := fun s =>
  match m (s_disk s) with Ret (a, d) => Ret (a, set_disk d s) | Panic => Panic | Diverge => Diverge end.
(** a call that exchanges the saved registers *)
Definition on_regs {A} (m : InterruptAllSavedState -> ST Wld (A * InterruptAllSavedState)) : ST Sys A :=
  s ← get; '(a, r) ← on_w (m (s_regs s)); _ ← modify (set_regs r); mret a.

(** [?] on a result of the file system, and on an argument *)
Definition fs_q {S A} (m : ST S (result A FileSystemError)) : ST S (result A SyscallError) :=
  r ← m; match r with Ok a => mret (Ok a) | Err e => e ← lift (from_fs_error e); mret (Err e) end.
Definition arg_q {A} (n : nat) (m : RA A) : R A :=
  r ← m; mret (match r with Ok a => Ok a | Err e => Err (to_arg_err n e) end).
Definition ok_or {S A} (o : option A) (e : SyscallError) : ST S (result A SyscallError) :=
  mret (match o with Some a => Ok a | None => Err e end).

(** ** The current process *)
(** the closure passed to [with_current_process] may use the file systems *)
Definition with_current {A} (f : Proc -> ST Disk (A * Proc)) : ST Sys A :=
  _ ← on_w lock;
  p ← on_w get_current;
  '(a, pr) ← on_d (f (process p));
  _ ← on_w (w ← get; on_sched (fun s => set_procs (ZMap.insert (process_id w) (mkSP pr (state p) (priority_counter p)) (running_waiting_procs s)) s));
  _ ← on_w unlock;
  mret a.
Definition with_current_pure {A} (f : Proc -> outcome (A * Proc)) : ST Sys A := on_w (with_current_process f).

(** ** The memory of the process, which is the active one *)
Definition current_vm : ST Sys V :=
  s ← get; p ← lift (unwrap (ZMap.get (process_id (s_world s)) (running_waiting_procs (sched (s_world s))))); mret (vm (process p)).
(** an access to an address that is not mapped is a fault in the kernel *)
Definition mapped_range (v : V) (a n : Z) : bool := forallb (fun i => vm_is_mapped v (a + Z.of_nat i)) (seq 0 (Z.to_nat n)).
Definition load_user (a n : Z) : ST Sys bytes :=
  v ← current_vm; _ ← lift (assert_that (mapped_range v a n)); mret (Process.load (um_mem v) a (Z.to_nat n)).
Definition store_user (a : Z) (b : bytes) : ST Sys unit :=
  v ← current_vm;
  _ ← lift (assert_that (mapped_range v a (Z.of_nat (length b))));
  on_w (modify (fun w => set_sched (let s := sched w in
    match ZMap.get (process_id w) (running_waiting_procs s) with
    | Some p => set_procs (ZMap.insert (process_id w)
        (mkSP (set_vm (um_set (Process.store (um_mem v) a b) v) (process p)) (state p) (priority_counter p)) (running_waiting_procs s)) s
    | None => s
    end) w)).

(** ** Arguments *)
Definition arg (n : nat) : ST Sys Z :=
  s ← get;
  let r := rest (s_regs s) in
  mret (match n with
        | 0 => g_rcx r | 1 => g_rdx r | 2 => g_rsi r | 3 => g_rdi r | 4 => g_r8 r | 5 => g_r9 r | _ => g_r10 r
        end%nat).

Definition check_ptr (a len : Z) : RA unit :=
  if a =? 0 then mret (Err InvalidUserPointer)
  else
    b ← with_current_pure (fun p =>
          if is_user_address_mapped p a then
            e ← cadd 64 a len; e ← csub e 1; Ret (is_user_address_mapped p e, p)
          else Ret (false, p));
    mret (if b : bool then Ok tt else Err InvalidUserPointer).
(** [ptr_as_mut::<T>] and [ptr_as_ref::<T>], [size] the size of [T] *)
Definition ptr_as (size a : Z) : RA Z := _ ←? check_ptr a size; mret (Ok a).

(** [CStr::from_ptr] *)
Fixpoint cstr (fuel : nat) (a : Z) : ST Sys bytes :=
  match fuel with
  | O => diverge
  | S fuel => b ← load_user a 1; match b with [c] => if c =? 0 then mret [] else r ← cstr fuel (a + 1); mret (c :: r) | _ => panic end
  end.
Definition sys_arg_to_str (a : Z) : RA bytes :=
  _ ←? check_ptr a 1;
  s ← cstr fuel a;
  mret (if utf8 s then Ok s else Err NotValidUtf8).
Definition sys_arg_to_path (a : Z) : RA bytes := sys_arg_to_str a.

(** [sys_arg_to_slice::<T>]: the bytes of the slice; [sys_arg_to_mut_slice]
    only checks it *)
Definition check_slice (size a len : Z) : RA unit :=
  if len =? 0 then mret (Ok tt) else n ← lift (cmul 64 len size); check_ptr a n.
Definition sys_arg_to_slice (size a len : Z) : RA bytes :=
  _ ←? check_slice size a len;
  if len =? 0 then mret (Ok []) else b ← load_user a (len * size); mret (Ok b).

(** the array of arguments *)
Fixpoint str_array (n : nat) (a : Z) : RA (list bytes) :=
  match n with
  | O => diverge
  | S n =>
      b ← load_user a 8;
      let ptr := from_le b in
      if ptr =? 0 then mret (Ok [])
      else s ←? sys_arg_to_str ptr;
           match s with [] => mret (Ok []) | _ => r ←? str_array n (a + 8); mret (Ok (s :: r)) end
  end.
Definition sys_arg_to_str_array (a : Z) : RA (list bytes) := a ←? ptr_as 8 a; str_array fuel a.

Record SpawnFileMapping : Type := mkMap { src_fd : Z; dst_fd : Z }.
Fixpoint mappings_of (n : nat) (b : bytes) : list SpawnFileMapping :=
  match n with
  | O => []
  | S n => mkMap (from_le (take 8 b)) (from_le (take 8 (drop 8 b))) :: mappings_of n (drop 16 b)
  end.
(** no two with the same source or the same target *)
Fixpoint no_duplicates (before l : list SpawnFileMapping) : bool :=
  match l with
  | [] => true
  | m :: l => forallb (fun o => negb ((src_fd m =? src_fd o) || (dst_fd m =? dst_fd o))) before && no_duplicates (before ++ [m]) l
  end.
Definition sys_arg_to_file_mappings_array (a size : Z) : RA (list SpawnFileMapping) :=
  b ←? sys_arg_to_slice 16 a size;
  let l := mappings_of (Z.to_nat size) b in
  mret (if no_duplicates [] l then Ok l else Err DuplicateFileMappings).

(** [path_to_proc_absolute_path] *)
Definition path_to_proc_absolute_path (path : bytes) : ST Sys bytes :=
  p ← (if Path.is_absolute path then mret path
       else d ← with_current_pure (fun p => Ret (current_dir p, p)); lift (Path.join d path));
  _ ← lift (assert_that (Path.is_absolute p));
  mret p.

(** ** Files *)
(** [get_fs_node(fd)], [as_file_mut()] and an operation on the file *)
Definition on_file_of {A} (fd : Z) (m : ST FS (result A SyscallError)) (p : Proc) : ST Disk (result A SyscallError * Proc) :=
  match get_fs_node p fd with
  | None => mret (Err InvalidFileIndex, p)
  | Some n =>
      match Vfs.fsn_as_file n with
      | Err e => e ← lift (from_fs_error e); mret (Err e, p)
      | Ok f => fun d =>
          match m (Mount.world d, f) with
          | Ret (r, (w, f)) =>
              Ret ((r, set_files (<[fd := Vfs.FsnFile f]> (open_filesystem_nodes p)) (file_index_allocator p) p), Mount.mkVfs (Mount.vmapping d) w)
          | Panic => Panic
          | Diverge => Diverge
          end
      end
  end.
(** dropping a node closes a file *)
Definition drop_node (n : Node) : ST Disk unit :=
  match n with Vfs.FsnFile f => Mount.on_world (Vfs.drop_file f) | Vfs.FsnDirectory _ => mret tt end.
Definition push_node (n : Node) : ST Sys Z := with_current_pure (push_fs_node n).

Definition sys_open : R Z :=
  a0 ← arg 0; path ←? arg_q 0 (sys_arg_to_path a0);
  a1 ← arg 1; open_options ←? ok_or (FileLink.oo_from_u64 a1) (to_arg_err 1 GeneralInvalid);
  a2 ← arg 2; flags ← lift (FileLink.parse_flags a2);
  blocking_mode ←? ok_or flags (to_arg_err 2 GeneralInvalid);
  absolute_path ← path_to_proc_absolute_path path;
  file ←? fs_q (on_d (Vfs.open_blocking absolute_path blocking_mode open_options));
  fd ← push_node (Vfs.FsnFile file);
  mret (Ok fd).

Definition sys_write : R Z :=
  file_index ← arg 0; a1 ← arg 1; size ← arg 2;
  buf ←? arg_q 0 (sys_arg_to_slice 1 a1 size);
  with_current (on_file_of file_index (fs_q (Vfs.write buf))).

Definition is_blocking (f : Vfs.File (F := F)) : bool := negb (bool_decide (Vfs.f_blocking_mode f = FileLink.BmNone)).
(** a file in a blocking mode is taken out of the table *)
Definition take_or_read (fd n : Z) (p : Proc) : ST Disk (result (bytes * option (Vfs.File (F := F))) SyscallError * Proc) :=
  match get_fs_node p fd with
  | Some (Vfs.FsnFile f) =>
      if is_blocking f then let '(_, p) := take_fs_node fd p in mret (Ok ([], Some f), p)
      else '(r, p) ← on_file_of fd (fs_q (Vfs.read fuel n)) p;
           mret (match r with Ok b => Ok (b, None) | Err e => Err e end, p)
  | Some (Vfs.FsnDirectory _) => e ← lift (from_fs_error FsTypes.IsDirectory); mret (Err e, p)
  | None => mret (Err InvalidFileIndex, p)
  end.
Definition on_taken {A} (f : Vfs.File (F := F)) (m : ST FS A) : ST Disk (A * Vfs.File (F := F)) := fun d =>
  match m (Mount.world d, f) with
  | Ret (a, (w, f)) => Ret ((a, f), Mount.mkVfs (Mount.vmapping d) w)
  | Panic => Panic
  | Diverge => Diverge
  end.
Definition sys_read : R Z :=
  file_index ← arg 0; a1 ← arg 1; size ← arg 2;
  _ ←? arg_q 0 (check_slice 1 a1 size);
  taken ←? with_current (take_or_read file_index size);
  let '(b, file) := taken in
  b ←? (match file with
        | Some f =>
            '(r, f) ← on_d (on_taken f (Vfs.read fuel size));
            match r with
            | Ok b => _ ← with_current_pure (fun p => p ← put_fs_node file_index (Vfs.FsnFile f) p; Ret (tt, p)); mret (Ok b)
            | Err e => e ← lift (from_fs_error e); _ ← on_d (drop_node (Vfs.FsnFile f)); mret (Err e)
            end
        | None => mret (Ok b)
        end);
  _ ← store_user a1 b;
  mret (Ok (Z.of_nat (length b))).

Definition sys_close : R Z :=
  file_index ← arg 0;
  _ ←? with_current (fun p =>
         let '(n, p) := take_fs_node file_index p in
         match n with
         | None => mret (Err InvalidFileIndex, p)
         | Some n => _ ← drop_node n; mret (Ok tt, p)
         end);
  mret (Ok 0).

Definition set_blocking (b : FileLink.BlockingMode) (f : Vfs.File (F := F)) : Vfs.File :=
  Vfs.mkFile (Vfs.f_filesystem f) (Vfs.f_path f) (Vfs.f_inode f) (Vfs.f_position f) (Vfs.f_is_terminal f) b (Vfs.f_access_helper f) (Vfs.f_access f).
Definition set_terminal (b : bool) (f : Vfs.File (F := F)) : Vfs.File :=
  Vfs.mkFile (Vfs.f_filesystem f) (Vfs.f_path f) (Vfs.f_inode f) (Vfs.f_position f) b (Vfs.f_blocking_mode f) (Vfs.f_access_helper f) (Vfs.f_access f).
Definition update_file (g : Vfs.File (F := F) -> Vfs.File) : ST FS (result unit SyscallError) := fun '(w, f) => Ret (Ok tt, (w, g f)).

Definition sys_blocking_mode : R Z :=
  file_index ← arg 0; a1 ← arg 1;
  match FileLink.blocking_try_from a1 with
  | Err _ => mret (Err (to_arg_err 1 GeneralInvalid))
  | Ok b => _ ←? with_current (on_file_of file_index (update_file (set_blocking b))); mret (Ok 0)
  end.

Definition sys_set_file_meta : R Z :=
  file_index ← arg 0; meta_id ← arg 1; meta_data ← arg 2;
  match FileLink.file_meta_try_from meta_id meta_data with
  | Err _ => mret (Err (to_arg_err 1 GeneralInvalid))
  | Ok (FileLink.FmBlockingMode b) => _ ←? with_current (on_file_of file_index (update_file (set_blocking b))); mret (Ok 0)
  | Ok (FileLink.FmIsTerminal t) => _ ←? with_current (on_file_of file_index (update_file (set_terminal t))); mret (Ok 0)
  end.

Definition sys_get_file_meta : R Z :=
  file_index ← arg 0; meta_id ← arg 1; a2 ← arg 2;
  meta_data_ptr ←? arg_q 2 (ptr_as 8 a2);
  match FileLink.file_meta_try_from meta_id 0 with
  | Err _ => mret (Err (to_arg_err 1 GeneralInvalid))
  | Ok op =>
      data ←? with_current (on_file_of file_index (fun '(w, f) =>
        Ret (Ok (match op with
                 | FileLink.FmBlockingMode _ => FileLink.blocking_to_u64 (Vfs.f_blocking_mode f)
                 | FileLink.FmIsTerminal _ => Z.b2z (Vfs.f_is_terminal f)
                 end), (w, f))));
      _ ← store_user meta_data_ptr (le 8 data);
      mret (Ok 0)
  end.

(** [sys_seek]: the new position in the width of an [i64] *)
Definition i64_sum (base offset : Z) : option Z :=
  let n := base + offset in
  if (n <? - 2 ^ 63) || (2 ^ 63 <=? n) || (n <? 0) then None else Some n.
Definition new_location (whence : FileLink.SeekWhence) (offset : Z) (f : Vfs.File (F := F)) : outcome (option Z) :=
  match whence with
  | FileLink.SwStart => Ret (if offset <? 0 then None else Some offset)
  | FileLink.SwCurrent => _ ← assert_that (Vfs.f_position f <? 2 ^ 63); Ret (i64_sum (Vfs.f_position f) offset)
  | FileLink.SwEnd => _ ← assert_that (fn_size (Vfs.f_inode f) <? 2 ^ 63); Ret (i64_sum (fn_size (Vfs.f_inode f)) offset)
  end.
Definition sys_seek : R Z :=
  file_index ← arg 0; a1 ← arg 1; a2 ← arg 2;
  let offset := as_i64 a2 in
  match FileLink.seek_whence_try_from a1 with
  | Err _ => mret (Err (to_arg_err 1 GeneralInvalid))
  | Ok whence =>
      with_current (on_file_of file_index (
        s ← get;
        n ← lift (new_location whence offset s.2);
        match n with
        | None => mret (Err InvalidOffset)
        | Some n => _ ←? fs_q (Vfs.seek n); mret (Ok n)
        end))
  end.

(** ** Directories and paths *)
Definition file_type_u32 (t : FileLink.FileType) : Z := match t with FileLink.FtFile => 0 | FileLink.FtDirectory => 1 end.
(** [FileStat]: eight bytes, four bytes and padding *)
Definition encode_stat (s : FileLink.FileStat) : bytes := le 8 (FileLink.stat_size s) ++ le 4 (file_type_u32 (FileLink.stat_file_type s)).

Definition sys_stat : R Z :=
  a0 ← arg 0; path ←? arg_q 0 (sys_arg_to_path a0);
  a1 ← arg 1; stat_ptr ←? arg_q 1 (ptr_as 16 a1);
  absolute_path ← path_to_proc_absolute_path path;
  opened ←? fs_q (on_d (Vfs.open_inode absolute_path));
  let '(_, _, inode) := opened in
  _ ← store_user stat_ptr (encode_stat (as_file_stat inode));
  mret (Ok 0).

Definition sys_open_dir : R Z :=
  a0 ← arg 0; path ←? arg_q 0 (sys_arg_to_path a0);
  absolute_path ← path_to_proc_absolute_path path;
  dir ←? fs_q (on_d (Vfs.dir_open absolute_path));
  fd ← push_node (Vfs.FsnDirectory dir);
  mret (Ok fd).

(** the entries, 272 bytes each: the stat, then the name *)
Fixpoint store_entries (a : Z) (l : list Vfs.DirEntry) : ST Sys unit :=
  match l with
  | [] => mret tt
  | e :: l =>
      _ ← store_user a (encode_stat (Vfs.de_stat e));
      _ ← store_user (a + 16) (Vfs.de_name e);
      store_entries (a + 272) l
  end.
Definition sys_read_dir : R Z :=
  dir_index ← arg 0; a1 ← arg 1; len ← arg 2;
  _ ←? arg_q 1 (check_slice 272 a1 len);
  l ←? with_current (fun p =>
         match get_fs_node p dir_index with
         | None => mret (Err InvalidFileIndex, p)
         | Some n =>
             match Vfs.fsn_as_dir n with
             | Err e => e ← lift (from_fs_error e); mret (Err e, p)
             | Ok d =>
                 '(r, d) ← Vfs.dir_read (Z.to_nat len) d;
                 let p := set_files (<[dir_index := Vfs.FsnDirectory d]> (open_filesystem_nodes p)) (file_index_allocator p) p in
                 match r with Ok l => mret (Ok l, p) | Err e => e ← lift (from_fs_error e); mret (Err e, p) end
             end
         end);
  _ ← store_entries a1 l;
  mret (Ok (Z.of_nat (length l))).

Definition sys_get_cwd : R Z :=
  a0 ← arg 0; len ← arg 1;
  _ ←? arg_q 0 (check_slice 1 a0 len);
  cwd ←? with_current_pure (fun p =>
           Ret (if len <? Z.of_nat (length (current_dir p)) then Err BufferTooSmall else Ok (current_dir p), p));
  _ ← store_user a0 cwd;
  mret (Ok (Z.of_nat (length cwd))).

Definition sys_chdir : R Z :=
  a0 ← arg 0; path ←? arg_q 0 (sys_arg_to_path a0);
  absolute_path ← path_to_proc_absolute_path path;
  dir ←? fs_q (on_d (Vfs.dir_open absolute_path));
  _ ← with_current_pure (fun p => Ret (tt, set_current_dir (Vfs.d_path dir) p));
  mret (Ok 0).

(** ** Processes *)
Definition sys_exit : R Z :=
  a0 ← arg 0;
  let exit_code := as_i32 a0 in
  _ ← on_regs (fun r => r ← exit_current_process exit_code r; mret (tt, r));
  mret (Ok (wrap 64 exit_code)).

Definition sys_inc_heap : R Z :=
  a0 ← arg 0;
  let increment := as_i64 a0 in
  al ← lift (is_aligned (Z.abs increment) PAGE_4K);
  if negb al then mret (Err (to_arg_err 0 InvalidHeapIncrement))
  else o ← with_current_pure (add_to_heap increment); ok_or o HeapRangesExceeded.

(** [create_pipe_pair] *)
Definition pipe_file (name : bytes) (dev : nat) (b : FileLink.BlockingMode) (a : FileAccess) : outcome (Vfs.File (F := F)) :=
  inode ← new_device name ATTR_EMPTY dev;
  Ret (Vfs.file_from_inode inode name Mount.EmptyFileSystem 0 b a).
Definition create_pipe_pair : ST Disk (Vfs.File * Vfs.File) :=
  '(r, w) ← Mount.on_world new_pipe;
  read_file ← lift (pipe_file (of_string "read_pipe") r (FileLink.BmBlock 1) FA_READ);
  write_file ← lift (pipe_file (of_string "write_pipe") w FileLink.BmNone FA_WRITE);
  mret (read_file, write_file).
Definition sys_create_pipe : R Z :=
  a0 ← arg 0; a1 ← arg 1;
  read_fd_ptr ←? arg_q 0 (ptr_as 8 a0);
  write_fd_ptr ←? arg_q 1 (ptr_as 8 a1);
  '(read_file, write_file) ← on_d create_pipe_pair;
  '(read_fd, write_fd) ← with_current_pure (fun p =>
     '(r, p) ← push_fs_node (Vfs.FsnFile read_file) p;
     '(w, p) ← push_fs_node (Vfs.FsnFile write_file) p;
     Ret ((r, w), p));
  _ ← store_user read_fd_ptr (le 8 read_fd);
  _ ← store_user write_fd_ptr (le 8 write_fd);
  mret (Ok 0).

Definition sys_wait_pid : R Z :=
  pid ← arg 0; a1 ← arg 1;
  let block := negb (a1 =? 0) in
  process_exit ← with_current_pure (fun p => Ret (get_child_exit pid p));
  match process_exit with
  | Some exit_code => mret (Ok (wrap 64 exit_code))
  | None =>
      if negb block then
        running ← on_w (is_process_running pid);
        mret (Err (if running : bool then ProcessStillRunning else PidNotFound))
      else
        found ← on_regs (fun r => wait_for_pid r pid);
        mret (if found : bool then Ok 0 else Err PidNotFound)
  end.

Definition sys_sleep : R Z :=
  secs ← arg 0; nanos ← arg 1;
  if NANOS_PER_SEC <=? nanos then mret (Err (to_arg_err 1 InvalidNanoseconds))
  else
    _ ← modify (fun s => set_regs (with_rax 0 (s_regs s)) s);
    _ ← on_regs (fun r => r ← sleep_current_process (mkTime nanos secs) r; mret (tt, r));
    mret (Ok 0).

Definition sys_get_time : R Z :=
  a0 ← arg 0; a1 ← arg 1;
  time_ptr ←? arg_q 1 (ptr_as 16 a1);
  match clock_type_try_from a0 with
  | Err _ => mret (Err (to_arg_err 0 GeneralInvalid))
  | Ok t =>
      s ← get;
      time ← lift (match t with RealTime => time_add (s_start_unix s) (now (s_world s)) | SystemTime => Ret (now (s_world s)) end);
      b ← lift (clock_time_into time);
      _ ← store_user time_ptr b;
      mret (Ok 0)
  end.

Definition sys_priority : R Z :=
  pid ← arg 0; a1 ← arg 1;
  level ←? (if a1 =? 0 then mret (Ok None)
            else match priority_from_u64 a1 with
                 | Some l => mret (Ok (Some l))
                 | None => mret (Err (to_arg_err 1 GeneralInvalid))
                 end);
  l ← on_w (with_process pid (fun p =>
        let p := match level with Some l => set_priority l p | None => p end in (priority p, p)));
  mret (Ok (priority_to_u64 l)).

(** *** [sys_spawn] *)
Fixpoint check_sources (l : list SpawnFileMapping) (p : Proc) : bool :=
  match l with [] => true | m :: l => match get_fs_node p (src_fd m) with Some _ => check_sources l p | None => false end end.
(** move the mapped files; which of the standard files are still needed *)
Fixpoint move_files (l : list SpawnFileMapping) (needed : list bool) (p child : Proc)
    : outcome (result (list bool) SyscallError * Proc * Proc) :=
  match l with
  | [] => Ret (Ok needed, p, child)
  | m :: l =>
      let '(n, p) := take_fs_node (src_fd m) p in
      match n with
      | None => Ret (Err InvalidFileIndex, p, child)
      | Some n =>
          '(_, child) ← attach_fs_node_to_fd (dst_fd m) n child;
          move_files l (if dst_fd m <=? 2 then <[Z.to_nat (dst_fd m) := false]> needed else needed) p child
      end
  end.
Fixpoint inherit_std (l : list (Z * bool)) (p child : Proc) : ST Disk (result unit SyscallError * Proc) :=
  match l with
  | [] => mret (Ok tt, child)
  | (i, false) :: l => inherit_std l p child
  | (i, true) :: l =>
      match get_fs_node p i with
      | None => mret (Err InvalidFileIndex, child)
      | Some n =>
          match Vfs.fsn_as_file n with
          | Err e => e ← lift (from_fs_error e); mret (Err e, child)
          | Ok f =>
              f ← Mount.on_world (Vfs.clone_inherit f);
              '(_, child) ← lift (attach_fs_node_to_fd i (Vfs.FsnFile f) child);
              inherit_std l p child
          end
      end
  end.
Definition give_files (l : list SpawnFileMapping) (child p : Proc) : ST Disk ((result unit SyscallError * Proc) * Proc) :=
  '(r, p, child) ← lift (move_files l [true; true; true] p child);
  match r with
  | Err e => mret ((Err e, child), p)
  | Ok needed => rc ← inherit_std (zip [0; 1; 2] needed) p child; mret (rc, p)
  end.

(** a [BTreeMap] is visited in the order of its keys *)
Definition in_key_order (m : gmap Z Node) : list (Z * Node) := foldr (fun e l => ZMap.insert e.1 e.2 l) [] (map_to_list m).
(** dropping a process that was never scheduled: its address space, then its
    files *)
Fixpoint drop_nodes (l : list (Z * Node)) : ST Disk unit :=
  match l with [] => mret tt | (_, n) :: l => _ ← drop_node n; drop_nodes l end.
Definition drop_child (p : Proc) : ST Sys unit :=
  _ ← on_w (drop_process p); on_d (drop_nodes (in_key_order (open_filesystem_nodes p))).

(** [Elf::load] and [allocate_process] on the file *)
Definition load_elf (f : Vfs.File (F := F)) : ST Sys (result Elf.Elf SyscallError * Vfs.File) :=
  '(r, f) ← on_d (on_taken f (Elf.load fuel));
  mret (match r with Ok e => Ok e | Err _ => Err CouldNotLoadElf end, f).
Definition allocate_child (parent : Z) (elf : Elf.Elf) (f : Vfs.File (F := F)) (argv : list bytes) (dir : bytes)
    : ST Sys (result Proc SyscallError * Vfs.File) := fun s =>
  let w := s_world s in
  match Spawn.allocate_process fuel parent elf argv dir
          (Spawn.mkAlloc (Mount.world (s_disk s), f) (cli w) (s_next_id s) false) with
  | Ret (r, a) =>
      let w := set_cli (Spawn.al_cpu a) w in
      let w := if Spawn.al_active a then set_active (Some (s_next_id s)) w else w in
      Ret ((match r with Ok p => Ok p | Err _ => Err CouldNotAllocateProcess end, (Spawn.al_file a).2),
           mkSys w (Mount.mkVfs (Mount.vmapping (s_disk s)) (Spawn.al_file a).1) (s_regs s) (Spawn.al_next_id a) (s_display s) (s_start_unix s))
  | Panic => Panic
  | Diverge => Diverge
  end.

(** the opened file is dropped on every way out *)
Definition with_program {A} (f : Vfs.File (F := F)) (m : Vfs.File -> ST Sys (result A SyscallError * Vfs.File)) : R A :=
  '(r, f) ← m f; _ ← on_d (drop_node (Vfs.FsnFile f)); mret r.

Definition sys_spawn : R Z :=
  a0 ← arg 0; path ←? arg_q 0 (sys_arg_to_path a0);
  a1 ← arg 1; a2 ← arg 2; a3 ← arg 3;
  argv ←? arg_q 1 (sys_arg_to_str_array a1);
  file_mappings ←? arg_q 2 (sys_arg_to_file_mappings_array a2 a3);
  _ ←? (match file_mappings with
        | [] => mret (Ok tt)
        | _ => with_current_pure (fun p => Ret (if check_sources file_mappings p then Ok tt else Err InvalidFileIndex, p))
        end);
  absolute_path ← path_to_proc_absolute_path path;
  file ←? fs_q (on_d (Vfs.open_blocking absolute_path FileLink.BmNone FileLink.OO_READ));
  with_program file (fun file =>
    '(r, file) ← load_elf file;
    match r with
    | Err e => mret (Err e, file)
    | Ok elf =>
        '(pid, dir) ← with_current_pure (fun p => Ret ((id p, current_dir p), p));
        '(r, file) ← allocate_child pid elf file argv dir;
        match r with
        | Err e => mret (Err e, file)
        | Ok child =>
            '(r, child) ← with_current (give_files file_mappings child);
            match r with
            | Err e => _ ← drop_child child; mret (Err e, file)
            | Ok _ =>
                let new_pid := id child in
                child ← lift (finish_stdio child);
                _ ← on_w (push_process child);
                mret (Ok new_pid, file)
            end
        end
    end).

(** ** The display *)
(** [graphics::vga::controller()] *)
Definition controller (s : Sys) : option Graphics.Controller :=
  d ← s_display s; o ← vga_owner (s_world s); Some (Graphics.mkController d (Graphics.fb_info d) o).
Definition put_controller (c : Graphics.Controller) : ST Sys unit :=
  modify (fun s => set_display (Some (Graphics.display c)) (set_world (set_vga (Some (Graphics.owner_process c)) (s_world s)) s)).
Definition with_controller {A} (m : Graphics.Controller -> R A) : R A :=
  s ← get; match controller s with None => mret (Err GraphicsNotAvailable) | Some c => m c end.

(** [FrameBufferInfo] and [BlitCommand] in memory *)
Definition triple_bytes (t : Graphics.triple) : bytes := [Graphics.t0 t; Graphics.t1 t; Graphics.t2 t].
Definition encode_info (i : Graphics.FrameBufferInfo) : bytes :=
  le 8 (Graphics.pitch i) ++ le 8 (Graphics.height i) ++ le 8 (Graphics.width i) ++
  triple_bytes (Graphics.field_pos i) ++ triple_bytes (Graphics.mask i) ++ [Graphics.byte_per_pixel i].
Definition info_widths : list nat := [8; 8; 8; 1; 1; 1; 1; 1; 1; 1]%nat.
Definition info_of (l : list Z) : Graphics.FrameBufferInfo :=
  let f i := nth i l 0 in
  Graphics.mkInfo (f 0%nat) (f 1%nat) (f 2%nat) (f 3%nat, f 4%nat, f 5%nat) (f 6%nat, f 7%nat, f 8%nat) (f 9%nat).
Definition blit_of (b : bytes) : Graphics.BlitCommand :=
  let f i := from_le (take 8 (drop i b)) in
  Graphics.mkBlit (f 0%nat) (info_of (unpack info_widths (drop 8 b))) (f 40%nat, f 48%nat) (f 56%nat, f 64%nat) (f 72%nat, f 80%nat).

Definition sys_graphics : R Z :=
  command_id ← arg 0; extra ← arg 1;
  command ←? ok_or (Graphics.command_from_u64 command_id) (to_arg_err 0 GeneralInvalid);
  s ← get;
  let pid := process_id (s_world s) in
  match command with
  | Graphics.TakeOwnership =>
      with_controller (fun c =>
        '(b, c) ← lift (Graphics.take_ownership pid c); _ ← put_controller c;
        mret (if b : bool then Ok 0 else Err GraphicsAlreadyTaken))
  | Graphics.ReleaseOwnership =>
      with_controller (fun c =>
        '(b, c) ← lift (Graphics.release pid c); _ ← put_controller c;
        mret (if b : bool then Ok 0 else Err GraphicsNotOwned))
  | Graphics.GetFrameBufferInfo =>
      with_controller (fun c =>
        info_ptr ←? arg_q 1 (ptr_as 32 extra);
        _ ← store_user info_ptr (encode_info (Graphics.framebuffer_info c));
        mret (Ok 0))
  | Graphics.Blit =>
      p ←? arg_q 1 (ptr_as 88 extra);
      b ← load_user p 88;
      let blit := blit_of b in
      buffer_len ← lift (Graphics.memory_size (Graphics.src_framebuffer_info blit));
      buffer ← sys_arg_to_slice 1 (Graphics.memory blit) buffer_len;
      match buffer with
      | Err _ => mret (Err InvalidGraphicsBuffer)
      | Ok buffer =>
          with_controller (fun c =>
            if Graphics.lock_process pid c then
              d ← lift (Graphics.blit buffer (Graphics.src_framebuffer_info blit) (Graphics.src blit) (Graphics.dst blit)
                          (Graphics.size blit).1 (Graphics.size blit).2 (Graphics.display c));
              _ ← put_controller (Graphics.mkController d (Graphics.framebuffer_info c) (Graphics.owner_process c));
              mret (Ok 0)
            else mret (Err GraphicsNotOwned))
      end
  end.

(** ** [SYSCALLS] and [handle_syscall] *)
Definition SYSCALLS : list (R Z) :=
  [sys_open; sys_write; sys_read; sys_close; sys_blocking_mode; sys_exit; sys_spawn; sys_inc_heap; sys_create_pipe; sys_wait_pid;
   sys_stat; sys_open_dir; sys_read_dir; sys_get_cwd; sys_chdir; sys_set_file_meta; sys_get_file_meta; sys_sleep; sys_get_time;
   sys_graphics; sys_seek; sys_priority].

Definition set_rax (v : Z) : ST Sys unit := modify (fun s => set_regs (with_rax v (s_regs s)) s).
Definition handle_syscall : ST Sys unit :=
  s ← get;
  let syscall_number := g_rax (rest (s_regs s)) in
  v ← (if NUM_SYSCALLS <=? syscall_number then lift (syscall_result_to_u64 (Err SyscallNotFound))
       else
         f ← lift (unwrap (SYSCALLS !! Z.to_nat syscall_number));
         r ← f;
         lift (syscall_result_to_u64 r));
  _ ← set_rax v;
  on_regs (fun r => r ← yield_current_if_any r; mret (tt, r)).
End handlers.
End Handlers.
