(* ===== verification/SyscallsSpec.v ===== *)
(** * What a system call does to its caller

    A handler that returns leaves the process running with only its own
    entry changed; [handle_syscall] then puts it back into the queue with the
    encoded result in its registers.  On top of that, the handlers that move
    data: [sys_seek], [sys_read], [sys_write] and [sys_close]. *)
From Stdlib Require Import Sorting.Sorted.
From S2P Require Import Prelude MemLayout UserLink FsTypes Locks Context Process Scheduler SchedInv SchedulerSpec Path PathUse.
From S2P Require Import Mount Vfs VfsSpec Bytes Elf ElfSpec Spawn Graphics Syscalls.
Import ProcessLink Context Clock Process Scheduler Handlers.
Import UserLink.Syscalls.

(** ** What handlers rely on of an address space *)
Class UserMemLaws (V : Type) `{UserVm V} `{SpawnVm V} : Prop := {
  um_set_mem : forall m v x, um_mem (um_set m v) x = m x;
  um_set_mapped : forall m v x, vm_is_mapped (um_set m v) x = vm_is_mapped v x
}.

Section spec.
Context {F W V : Type} `{Mount.FileSystem F W} `{UserVm V} `{Elf.ImageSpace V} `{SpawnVm V} `{PipeDevices W} (fuel : nat).
Notation Node := (Vfs.FilesystemNode (F := F)).
Notation Proc := (Process V Node).
Notation SP := (@SchedulerProcess V Node).
Notation Disk := (Mount.Vfs (F := F) (W := W)).
Notation FS := (Vfs.FS (F := F) (W := W)).
Notation Sys := (@Sys F W V).
Implicit Types (s : Sys) (p : SP) (pr : Proc) (d : Disk).

(** ** The caller *)
(** [p] made the call; the kernel continues in [k] when it leaves *)
Definition calling (pids : Z) s p (k : ProcessContext) : Prop := in_user pids (s_world s) p k /\ scheduling (s_world s) = false.

(** nothing but the entry of the current process, the disk and the nesting of
    interrupts changed *)
Record same_rest s s' : Prop := {
  sr_regs : s_regs s' = s_regs s;
  sr_next : s_next_id s' = s_next_id s;
  sr_display : s_display s' = s_display s;
  sr_start : s_start_unix s' = s_start_unix s;
  sr_pid : process_id (s_world s') = process_id (s_world s);
  sr_shutdown : shutdown (s_world s') = shutdown (s_world s);
  sr_now : now (s_world s') = now (s_world s);
  sr_vga : vga_owner (s_world s') = vga_owner (s_world s);
  sr_active : active_vm (s_world s') = active_vm (s_world s);
  sr_fpu : fpu (s_world s') = fpu (s_world s);
  sr_queue : scheduled_processes (sched (s_world s')) = scheduled_processes (sched (s_world s));
  sr_exited : exited_processes (sched (s_world s')) = exited_processes (sched (s_world s));
  sr_max : max_priority (sched (s_world s')) = max_priority (sched (s_world s));
  sr_others : ZMap.remove (process_id (s_world s)) (running_waiting_procs (sched (s_world s'))) =
              ZMap.remove (process_id (s_world s)) (running_waiting_procs (sched (s_world s)))
}.

#[global] Instance same_rest_refl : Reflexive same_rest.
Proof. intros s. by constructor. Qed.
#[global] Instance same_rest_trans : Transitive same_rest.
Proof. intros s1 s2 s3 [] []. constructor; try congruence. Qed.

Lemma zmap_remove_insert {A} k (v : A) m : ZMap.remove k (ZMap.insert k v m) = ZMap.remove k m.
Proof.
  induction m as [|[k' v'] m IH]; cbn [ZMap.insert]; [by rewrite zmap_remove_cons, Z.eqb_refl|].
  destruct (Z.ltb_spec k k'); [by rewrite zmap_remove_cons, Z.eqb_refl|].
  destruct (Z.eqb_spec k k') as [->|]; [by rewrite !zmap_remove_cons, Z.eqb_refl|].
  rewrite !zmap_remove_cons. destruct (Z.eqb_spec k k'); [done|]. by rewrite IH.
Qed.

Definition with_process_of p pr : SP := mkSP pr (state p) (priority_counter p).

Lemma wp_on_w {A} (m : ST _ A) s Q : wp False m (s_world s) (fun a w => Q a (set_world w s)) -> wp False (on_w m) s Q.
Proof. unfold wp, on_w. by destruct (m (s_world s)) as [[a w]| |]. Qed.
Lemma wp_on_d {A} (m : ST _ A) s Q : wp False m (s_disk s) (fun a d => Q a (set_disk d s)) -> wp False (on_d m) s Q.
Proof. unfold wp, on_d. by destruct (m (s_disk s)) as [[a d]| |]. Qed.

Lemma calling_runs pids s p k : calling pids s p k -> runs (sched (s_world s)) (process_id (s_world s)) p.
Proof. intros [(_ & Hr & _) _]. exact Hr. Qed.

(** the entry of the current process is replaced *)
Lemma calling_update pids s p k pr d c w : calling pids s p k -> tag pr = tag (process p) ->
  w = set_cli c (set_locked false (set_sched (set_procs (ZMap.insert (process_id (s_world s)) (with_process_of p pr)
        (running_waiting_procs (sched (s_world s)))) (sched (s_world s))) (s_world s))) -> Cpu.n_cli c = 0 ->
  calling pids (set_disk d (set_world w s)) (with_process_of p pr) k /\ same_rest s (set_disk d (set_world w s)).
Proof.
  intros [(Hok & Hr & Hk & Hl & Hcli) Hs] Ht -> Hc. destruct Hr as (Hget & Hst & Hone) eqn:Er. clear Er.
  split.
  - split; [|exact Hs]. split_and!; cbn [set_disk set_world s_world set_cli set_locked set_sched sched process_id cpu_context locked].
    + apply (stashed_ok pids _ _ p Hok (conj Hget (conj Hst Hone))).
      * intros L. unfold ptag. by rewrite Ht.
      * split; [|by rewrite Hst]. cbn. rewrite (runs_id pids _ _ p Hok (conj Hget (conj Hst Hone))). unfold sp_id, tag in *. by injection Ht as <- _.
    + unfold with_process_of. rewrite Hst. by apply (stashed_runs pids _ _ p Hok (conj Hget (conj Hst Hone))).
    + exact Hk.
    + done.
    + split; [done|lia].
  - constructor; cbn; try done. apply zmap_remove_insert.
Qed.

Lemma wp_with_current_h {A} pids (f : Proc -> ST Disk (A * Proc)) s p k Q :
  calling pids s p k ->
  wp False (f (process p)) (s_disk s) (fun r d => tag r.2 = tag (process p) /\
    forall s', calling pids s' (with_process_of p r.2) k -> s_disk s' = d -> same_rest s s' -> Q r.1 s') ->
  wp False (with_current f) s Q.
Proof.
  intros Hc Hf. pose proof Hc as [(Hok & (Hget & Hst & Hone) & Hk & Hl & Hcli) Hs]. unfold with_current.
  wp_step. apply wp_on_w. eapply wp_lock; [exact Hcli|lia|done|]. intros c1 Hc1 Hi1.
  wp_step. apply wp_on_w. unfold get_current. wp_steps. cbn [s_world set_world sched set_locked set_cli process_id]. rewrite Hget.
  eapply wp_lift_ret; [reflexivity|]. wp_steps; [by rewrite Hst|]. apply wp_on_d. cbn [s_disk set_world].
  eapply wp_mono; [exact Hf|]. cbn beta. intros [a pr] d [Ht HQ]. cbn [fst snd] in *.
  wp_step. apply wp_on_w. unfold on_sched. wp_steps. apply wp_on_w.
  eapply (wp_unlock 1); [split; [cbn; lia|done]|lia|]. intros c2 Hc2 Hi2. wp_steps.
  destruct (calling_update pids s p k pr d c2 _ Hc Ht eq_refl ltac:(lia)) as [C1 C2].
  apply HQ; [exact C1|done|exact C2].
Qed.

Lemma wp_with_current_pure {A} pids (f : Proc -> outcome (A * Proc)) s p k a pr Q :
  calling pids s p k -> f (process p) = Ret (a, pr) -> tag pr = tag (process p) ->
  (forall s', calling pids s' (with_process_of p pr) k -> s_disk s' = s_disk s -> same_rest s s' -> Q a s') ->
  wp False (with_current_pure f) s Q.
Proof.
  intros Hc Hf Ht HQ. pose proof Hc as [(Hok & (Hget & Hst & Hone) & Hk & Hl & Hcli) Hs]. unfold with_current_pure, with_current_process.
  apply wp_on_w. eapply wp_with_current; [exact Hok|by split_and!|done|exact Hcli|lia|]. intros c1 Hc1 Hi1.
  wp_step. eapply wp_lift_ret; [exact Hf|]. wp_steps. exists 1. split; [split; [cbn; lia|done]|]. split; [lia|]. intros c2 Hc2 Hi2. cbn [fst snd].
  destruct (calling_update pids s p k pr (s_disk s) c2 _ Hc Ht eq_refl ltac:(lia)) as [C1 C2].
  apply HQ; [|done|]; destruct s; [exact C1|exact C2].
Qed.

(** ** [handle_syscall] *)
Lemma wp_on_regs {A} (m : InterruptAllSavedState -> ST _ (A * InterruptAllSavedState)) s Q :
  wp False (m (s_regs s)) (s_world s) (fun r w => Q r.1 (set_regs r.2 (set_world w s))) -> wp False (on_regs m) s Q.
Proof. intros Hm. unfold on_regs. wp_step. wp_step. wp_step. apply wp_on_w. eapply wp_mono; [exact Hm|]. intros [a r] w HQ. by wp_steps. Qed.

(** the caller goes back into the queue with [v] in its [rax] *)
Definition answered_with (v : Z) s p : SP :=
  mkSP (set_context (registers (with_rax v (s_regs s)) (fpu (s_world s))) (process p)) Scheduled (max_priority (sched (s_world s))).

Lemma wp_answer pids s p k v Q :
  calling pids s p k -> shutdown (s_world s) = false -> pids <= 2 ^ 63 - 1 ->
  (forall s', scheduled_processes (sched (s_world s')) = scheduled_processes (sched (s_world s)) ++ [answered_with v s p] ->
     cpu_context (s_world s') = None -> s_disk s' = s_disk s -> s_regs s' = loaded k (with_rax v (s_regs s)) -> Q tt s') ->
  wp False (_ ← Handlers.set_rax v; on_regs (fun r => r ← yield_current_if_any r; mret (tt, r))) s Q.
Proof.
  intros [Hu Hs] Hsh Hp HQ. unfold Handlers.set_rax. wp_step. wp_step. apply wp_on_regs. wp_step. cbn [s_regs set_regs s_world].
  eapply wp_mono; [apply (wp_yield pids _ _ p k Hu Hs Hp)|]. cbn beta zeta. rewrite Hsh. intros st w' [-> (Es & Ek & _)]. wp_steps.
  apply HQ; cbn; [by rewrite Es|done|done|done].
Qed.

(** C22: A system call whose handler returns to its caller, with a value of at
    most 63 bits or an error other than [InvalidError]: the caller is put back
    into the queue with its own registers and, in [rax], a word that the user
    side decodes as the handler's result. *)
Theorem handle_syscall_answers pids s (f : ST Sys SyscallResult) (r : SyscallResult) s1 p1 k :
  0 <= g_rax (rest (s_regs s)) < NUM_SYSCALLS -> SYSCALLS fuel !! Z.to_nat (g_rax (rest (s_regs s))) = Some f ->
  f s = Ret (r, s1) -> calling pids s1 p1 k -> s_regs s1 = s_regs s -> shutdown (s_world s1) = false -> pids <= 2 ^ 63 - 1 ->
  match r with Ok v => 0 <= v < 2 ^ 63 | Err e => e <> InvalidError end ->
  exists v s2, handle_syscall fuel s = Ret (tt, s2) /\ syscall_result_from_u64 v = received r /\
    scheduled_processes (sched (s_world s2)) = scheduled_processes (sched (s_world s1)) ++ [answered_with v s1 p1] /\
    cpu_context (s_world s2) = None /\ s_disk s2 = s_disk s1.
Proof.
  intros Hn Hf Hr Hc Hregs Hsh Hp Hres.
  assert (exists v, syscall_result_to_u64 r = Ret v) as [v Hv].
  { destruct r as [v|e]; [|destruct e; try (by destruct Hres); by eexists]. exists v. unfold syscall_result_to_u64. change (Z.shiftl 1 63) with (2 ^ 63).
    assert (Hbit : Z.land v (2 ^ 63) = 0).
    { apply Z.bits_inj'. intros i Hi. rewrite Z.land_spec, Z.pow2_bits_eqb, Z.bits_0 by lia. destruct (Z.eqb_spec 63 i) as [<-|]; [|apply andb_false_r].
      rewrite andb_true_r. apply (testbit_small 63); [exact Hres|lia]. }
    by rewrite Hbit. }
  destruct (encoded_result_decodes r v) as [_ Hd]; [destruct r; [unfold in_word; lia|done]|done|].
  enough (Hwp : wp False (handle_syscall fuel) s (fun _ s2 =>
    scheduled_processes (sched (s_world s2)) = scheduled_processes (sched (s_world s1)) ++ [answered_with v s1 p1] /\
    cpu_context (s_world s2) = None /\ s_disk s2 = s_disk s1)).
  { destruct (wp_run _ _ _ Hwp) as (s2 & E & HQ). by exists v, s2. }
  unfold handle_syscall. wp_step. wp_step. rewrite (proj2 (Z.leb_gt _ _)) by lia. wp_step. wp_step. eapply wp_lift_ret; [exact (f_equal unwrap Hf)|].
  wp_step. unfold wp at 1. rewrite Hr. eapply wp_lift_ret; [exact Hv|]. eapply wp_answer; [exact Hc|done|done|].
  intros s2 E1 E2 E3 _. by split_and!.
Qed.

(** ** Files *)
Definition file_put (fd : Z) (f : Vfs.File (F := F)) pr : Proc :=
  set_files (<[fd := Vfs.FsnFile f]> (open_filesystem_nodes pr)) (file_index_allocator pr) pr.
(** the calling process has the file [f] open as [fd] *)
Definition has_file p (fd : Z) (f : Vfs.File (F := F)) : Prop := open_filesystem_nodes (process p) !! fd = Some (Vfs.FsnFile f).

Lemma wp_on_file_of {A} fd (m : ST FS (result A SyscallError)) pr f d Q :
  open_filesystem_nodes pr !! fd = Some (Vfs.FsnFile f) ->
  wp False m (Mount.world d, f) (fun r x => Q (r, file_put fd x.2 pr) (Mount.mkVfs (Mount.vmapping d) x.1)) ->
  wp False (on_file_of fd m pr) d Q.
Proof.
  intros Hf Hm. unfold on_file_of, get_fs_node. rewrite Hf. cbn [Vfs.fsn_as_file]. unfold wp in *.
  by destruct (m (Mount.world d, f)) as [[r [w f']]| |].
Qed.

Lemma wp_file {A} pids fd (m : ST FS (result A SyscallError)) s p k f Q :
  calling pids s p k -> has_file p fd f ->
  wp False m (Mount.world (s_disk s), f) (fun r x => forall s', calling pids s' (with_process_of p (file_put fd x.2 (process p))) k ->
    s_disk s' = Mount.mkVfs (Mount.vmapping (s_disk s)) x.1 -> same_rest s s' -> Q r s') ->
  wp False (with_current (on_file_of fd m)) s Q.
Proof.
  intros Hc Hf Hm. eapply wp_with_current_h; [exact Hc|]. eapply wp_on_file_of; [exact Hf|]. eapply wp_mono; [exact Hm|]. cbn beta.
  intros r [w f'] HQ. cbn. split; [done|]. intros s' C1 C2 C3. by apply HQ.
Qed.

Definition argument s (n : nat) : Z :=
  let r := rest (s_regs s) in
  match n with 0 => g_rcx r | 1 => g_rdx r | 2 => g_rsi r | 3 => g_rdi r | 4 => g_r8 r | 5 => g_r9 r | _ => g_r10 r end%nat.
Lemma wp_arg n s (Q : Z -> Sys -> Prop) : Q (argument s n) s -> wp False (arg n) s Q.
Proof. intros HQ. unfold arg. by wp_steps. Qed.
Ltac arg_step := wp_step; apply wp_arg.

(** *** [sys_seek] *)
Definition seek_base (whence : FileLink.SeekWhence) (f : Vfs.File (F := F)) : Z :=
  match whence with FileLink.SwStart => 0 | FileLink.SwCurrent => Vfs.f_position f | FileLink.SwEnd => fn_size (Vfs.f_inode f) end.

Lemma new_location_spec whence offset f : 0 <= Vfs.f_position f < 2 ^ 63 -> 0 <= fn_size (Vfs.f_inode f) < 2 ^ 63 -> - 2 ^ 63 <= offset < 2 ^ 63 ->
  new_location whence offset f = Ret (if decide (0 <= seek_base whence f + offset < 2 ^ 63) then Some (seek_base whence f + offset) else None).
Proof.
  intros Hp Hs Ho. unfold new_location, seek_base, i64_sum. destruct whence.
  - destruct (Z.ltb_spec offset 0); [rewrite decide_False by lia|rewrite decide_True by lia]; done.
  - rewrite assert_ret by lia. cbn [mbind outcome_bind]. f_equal. case_decide.
    + by rewrite (proj2 (Z.ltb_ge _ (- 2 ^ 63))), (proj2 (Z.leb_gt _ _)), (proj2 (Z.ltb_ge _ 0)) by lia.
    + destruct (Z.ltb_spec (Vfs.f_position f + offset) 0); [by rewrite !orb_true_r|]. rewrite (proj2 (Z.leb_le (2 ^ 63) _)) by lia. by rewrite orb_true_r.
  - rewrite assert_ret by lia. cbn [mbind outcome_bind]. f_equal. case_decide.
    + by rewrite (proj2 (Z.ltb_ge _ (- 2 ^ 63))), (proj2 (Z.leb_gt _ _)), (proj2 (Z.ltb_ge _ 0)) by lia.
    + destruct (Z.ltb_spec (fn_size (Vfs.f_inode f) + offset) 0); [by rewrite !orb_true_r|]. rewrite (proj2 (Z.leb_le (2 ^ 63) _)) by lia. by rewrite orb_true_r.
Qed.

Lemma as_i64_bounds v : in_word 64 v -> - 2 ^ 63 <= as_i64 v < 2 ^ 63.
Proof. unfold in_word, as_i64. intros Hv. destruct (Z.ltb_spec v (2 ^ 63)); lia. Qed.

(** Seeking moves the position of the file to the start, the current position
    or the end plus the signed offset, and of nothing else; a target outside
    the non-negative [i64]s is refused and changes nothing. *)
Theorem sys_seek_moves pids s p k f whence :
  calling pids s p k -> has_file p (argument s 0) f -> FileLink.seek_whence_try_from (argument s 1) = Ok whence -> in_word 64 (argument s 2) ->
  0 <= Vfs.f_position f < 2 ^ 63 -> 0 <= fn_size (Vfs.f_inode f) < 2 ^ 63 ->
  let target := seek_base whence f + as_i64 (argument s 2) in
  exists s', (if decide (0 <= target < 2 ^ 63)
      then sys_seek s = Ret (Ok target, s') /\
           calling pids s' (with_process_of p (file_put (argument s 0) (Vfs.with_position target f) (process p))) k
      else sys_seek s = Ret (Err InvalidOffset, s') /\ calling pids s' (with_process_of p (file_put (argument s 0) f (process p))) k) /\
    s_disk s' = s_disk s /\ same_rest s s'.
Proof.
  intros Hc Hf Hw Ho Hp Hs target. pose proof (new_location_spec whence (as_i64 (argument s 2)) f Hp Hs (as_i64_bounds _ Ho)) as Hn. fold target in Hn.
  enough (Hwp : wp False sys_seek s (fun r s' => (if decide (0 <= target < 2 ^ 63) then r = Ok target /\
      calling pids s' (with_process_of p (file_put (argument s 0) (Vfs.with_position target f) (process p))) k
      else r = Err InvalidOffset /\ calling pids s' (with_process_of p (file_put (argument s 0) f (process p))) k) /\ s_disk s' = s_disk s /\ same_rest s s')).
  { destruct (wp_total _ _ _ Hwp) as (r & s' & E & Hr). exists s'. rewrite E. case_decide; destruct Hr as [[-> ?] ?]; done. }
  unfold sys_seek. arg_step. arg_step. arg_step. rewrite Hw. eapply wp_file; [exact Hc|exact Hf|].
  wp_step. wp_step. wp_step. cbn [snd]. eapply wp_lift_ret; [exact Hn|]. case_decide.
  - apply wp_ebind. unfold fs_q. wp_step. unfold wp at 1, Vfs.seek. wp_steps. intros s' C1 C2 C3. cbn [fst snd] in *.
    rewrite C2. destruct (s_disk s). by split_and!.
  - wp_steps. intros s' C1 C2 C3. cbn [fst snd] in *. rewrite C2. destruct (s_disk s). by split_and!.
Qed.

(** *** Buffers of the user *)
Context `{!UserMemLaws V}.

Lemma mapped_at v a n x : mapped_range v a n = true -> a <= x < a + n -> vm_is_mapped v x = true.
Proof.
  intros Hm Hx. unfold mapped_range in Hm. rewrite forallb_forall in Hm. specialize (Hm (Z.to_nat (x - a))).
  replace x with (a + Z.of_nat (Z.to_nat (x - a))) by lia. apply Hm. apply in_seq. lia.
Qed.
Lemma mapped_sub v a n m : mapped_range v a n = true -> m <= n -> mapped_range v a m = true.
Proof.
  intros Hm Hl. apply forallb_forall. intros i Hi. apply in_seq in Hi. apply (mapped_at v a n); [done|lia].
Qed.

(** the buffer of [n] bytes at [a] belongs to the caller *)
Definition user_buffer p (a n : Z) : Prop := 0 < a /\ 0 <= n /\ a + n < 2 ^ 64 /\ mapped_range (vm (process p)) a n = true.

Lemma with_same p : with_process_of p (process p) = p.
Proof. by destruct p. Qed.

Lemma wp_check_ptr pids s p k a n Q : calling pids s p k -> user_buffer p a n -> 0 < n ->
  (forall s', calling pids s' p k -> s_disk s' = s_disk s -> same_rest s s' -> Q (Ok tt) s') -> wp False (check_ptr a n) s Q.
Proof.
  intros Hc (Ha & Hn & Hw & Hm) Hn0 HQ. unfold check_ptr. rewrite (proj2 (Z.eqb_neq a 0)) by lia. wp_step.
  eapply wp_with_current_pure; [exact Hc| |done|].
  - cbn beta. unfold is_user_address_mapped. rewrite (mapped_at _ a n a Hm) by lia. rewrite cadd_ret by lia. cbn [mbind outcome_bind].
    rewrite csub_ret by lia. cbn [mbind outcome_bind]. rewrite (mapped_at _ a n (a + n - 1) Hm) by lia. reflexivity.
  - rewrite with_same. intros s' C1 C2 C3. wp_steps. by apply HQ.
Qed.

Lemma wp_check_slice pids s p k a n Q : calling pids s p k -> user_buffer p a n ->
  (forall s', calling pids s' p k -> s_disk s' = s_disk s -> same_rest s s' -> Q (Ok tt) s') -> wp False (check_slice 1 a n) s Q.
Proof.
  intros Hc Hb HQ. unfold check_slice. destruct (Z.eqb_spec n 0) as [->|Hn].
  - wp_steps. by apply HQ.
  - destruct Hb as (Ha & Hn0 & Hw & Hm). wp_step. eapply wp_lift_ret; [apply cmul_ret; lia|]. rewrite Z.mul_1_r.
    eapply wp_check_ptr; [exact Hc|by split_and!|lia|done].
Qed.

Lemma wp_current_vm pids s p k (Q : V -> Sys -> Prop) : calling pids s p k -> Q (vm (process p)) s -> wp False current_vm s Q.
Proof.
  intros Hc HQ. destruct (calling_runs _ _ _ _ Hc) as (Hget & _). unfold current_vm. wp_step. wp_step. wp_step.
  eapply wp_lift_ret; [by rewrite Hget|]. by wp_steps.
Qed.

Lemma wp_load_user pids s p k a n Q : calling pids s p k -> mapped_range (vm (process p)) a n = true ->
  Q (Process.load (um_mem (vm (process p))) a (Z.to_nat n)) s -> wp False (load_user a n) s Q.
Proof. intros Hc Hm HQ. unfold load_user. wp_step. eapply wp_current_vm; [exact Hc|]. wp_step. apply wp_assert; [done|]. by wp_steps. Qed.

Definition memory_put (a : Z) (b : bytes) pr : Proc := set_vm (um_set (Process.store (um_mem (vm pr)) a b) (vm pr)) pr.

Lemma wp_store_user pids s p k a b Q : calling pids s p k -> mapped_range (vm (process p)) a (Z.of_nat (length b)) = true ->
  (forall s', calling pids s' (with_process_of p (memory_put a b (process p))) k -> s_disk s' = s_disk s -> same_rest s s' -> Q tt s') ->
  wp False (store_user a b) s Q.
Proof.
  intros Hc Hm HQ. unfold store_user. wp_step. eapply wp_current_vm; [exact Hc|]. wp_step. apply wp_assert; [done|]. apply wp_on_w. wp_step.
  pose proof Hc as [(Hok & (Hget & Hst & Hone) & Hk & Hl & Hcli) Hs]. rewrite Hget.
  destruct (calling_update pids s p k (memory_put a b (process p)) (s_disk s) (cli (s_world s)) _ Hc eq_refl eq_refl (proj1 Hcli)) as [C1 C2].
  apply HQ; [|done|]; destruct s as [w d r n x t], w; cbn in Hl; subst; [exact C1|exact C2].
Qed.

(** *** [sys_read] *)
(** Reading from a file in the simple mode: the caller's buffer holds the
    bytes of the file from its position on, as many as fit and are there, the
    result is their number and the position is behind them.  No other byte of
    the caller and no other descriptor changed. *)
Theorem sys_read_delivers pids s p k f fs inode content (inv : W -> AccessHelper -> Prop) :
  let fd := argument s 0 in let a := argument s 1 in let n := argument s 2 in
  calling pids s p k -> has_file p fd f -> plain_reader fs inode f -> full_reads fs inode content inv -> inv (Mount.world (s_disk s)) (Vfs.f_access_helper f) ->
  user_buffer p a n -> 0 <= Vfs.f_position f <= Z.of_nat (length content) -> Z.of_nat (length content) < 2 ^ 63 ->
  let b := slice content (Vfs.f_position f) n in
  exists s' p', sys_read fuel s = Ret (Ok (Z.of_nat (length b)), s') /\ calling pids s' p' k /\ same_rest s s' /\
    (forall x, um_mem (vm (process p')) x = Process.store (um_mem (vm (process p))) a b x) /\
    (exists h, open_filesystem_nodes (process p') =
       <[fd := Vfs.FsnFile (Vfs.with_position (Vfs.f_position f + Z.of_nat (length b)) (Vfs.with_helper h f))]> (open_filesystem_nodes (process p)) /\
       inv (Mount.world (s_disk s')) h).
Proof.
  intros fd a n Hc Hf [Hfs Hin Hmode Hacc] Hfull Hinv Hb Hpos Hlen b.
  destruct (fr_read _ _ _ _ Hfull _ _ _ n Hinv Hpos ltac:(apply Hb)) as (w' & h' & Hread & Hinv'). fold b in Hread.
  assert (Hbl : Z.of_nat (length b) <= n /\ Z.of_nat (length b) <= Z.of_nat (length content) - Vfs.f_position f).
  { unfold b, slice. rewrite length_take, length_drop. destruct Hb. lia. }
  enough (Hwp : wp False (sys_read fuel) s (fun r s' => r = Ok (Z.of_nat (length b)) /\ exists p', calling pids s' p' k /\ same_rest s s' /\
    (forall x, um_mem (vm (process p')) x = Process.store (um_mem (vm (process p))) a b x) /\
    (exists h, open_filesystem_nodes (process p') =
       <[fd := Vfs.FsnFile (Vfs.with_position (Vfs.f_position f + Z.of_nat (length b)) (Vfs.with_helper h f))]> (open_filesystem_nodes (process p)) /\
       inv (Mount.world (s_disk s')) h))).
  { destruct (wp_total _ _ _ Hwp) as (r & s' & E & -> & p' & HQ). by exists s', p'. }
  unfold sys_read. arg_step. arg_step. arg_step. fold fd a n. apply wp_ebind. unfold arg_q. wp_step.
  eapply wp_check_slice; [exact Hc|exact Hb|]. intros s1 C1 D1 S1. wp_step. apply wp_ebind.
  eapply wp_with_current_h; [exact C1|]. unfold take_or_read, get_fs_node. unfold has_file in Hf. rewrite Hf.
  unfold is_blocking. rewrite Hmode. cbn [bool_decide]. rewrite bool_decide_eq_true_2 by done. cbn [negb]. wp_step.
  eapply wp_on_file_of; [exact Hf|]. unfold fs_q. wp_step. rewrite D1. unfold Vfs.read. wp_step. wp_step. rewrite Hacc, Hmode. wp_step.
  unfold wp at 1, Vfs.fs_read. rewrite Hfs, Hin, Hread. unfold Vfs.advance. wp_steps. { cbn. lia. } split; [done|]. intros s2 C2 D2 S2. cbn [fst snd] in *.
  apply wp_ebind. wp_step. wp_step. eapply wp_store_user; [exact C2| |].
  { apply (mapped_sub _ a n); [apply Hb|apply Hbl]. }
  intros s3 C3 D3 S3. wp_steps. split; [done|]. eexists. split; [exact C3|]. split; [by etrans; [exact S1|etrans; [exact S2|exact S3]]|]. split.
  - intros x. cbn. by rewrite um_set_mem.
  - exists h'. cbn. split; [done|]. by rewrite D3, D2.
Qed.
End spec.
