(* ===== verification/SysDemo.v ===== *)
(** * A process makes system calls

    A machine with one running process, a root directory with two files and
    working pipes.  The theorems on system calls apply to it, and concrete
    calls show where a process can stop the kernel. *)
From Stdlib Require Import Sorting.Sorted.
From S2P Require Import Prelude MemLayout UserLink FsTypes Locks Context Process Scheduler SchedInv SchedulerSpec Pipe Path PathUse Mount Vfs.
From S2P Require Import VfsSpec Bytes PageTables Elf ElfSpec Spawn Graphics GraphicsSpec Syscalls SyscallsSpec.
Import ProcessLink Context Clock Process Scheduler Handlers.
Import UserLink.Syscalls.
Import Stdlib.Strings.String.StringSyntax.

Module SysDemo.
(** ** Files and pipes *)
Definition INIT := of_string "init".
Definition TEXT := of_string "a".
Definition hello := of_string "hello".
Definition content (c : Z) : bytes := if c =? 2 then ElfDemo.image else hello.
Definition root : DirectoryNode := mkDirectoryNode (mkBaseNode (of_string "/") ATTR_DIRECTORY 1 0 0).
Definition file_node (name : bytes) (c : Z) : FileNode := mkFileNode (mkBaseNode name ATTR_EMPTY c 0 0) (Z.of_nat (length (content c))) None.
Definition lookup (n : bytes) : result Node FileSystemError :=
  if bool_decide (n = INIT) then Ok (NFile (file_node INIT 2)) else if bool_decide (n = TEXT) then Ok (NFile (file_node TEXT 3))
  else Err FsTypes.FileNotFound.

(** the device [2 * i] is the read side of the pipe [i], the next one its
    write side *)
Definition Pipes : Type := list Pipe.Pipe.
Definition side (d : nat) : bool := Nat.even d.
Definition on_pipe {A} (d : nat) (f : Pipe.Pipe -> A * Pipe.Pipe) : ST Pipes A := fun w =>
  match w !! Nat.div2 d with Some p => let '(a, p) := f p in Ret (a, <[Nat.div2 d := p]> w) | None => Panic end.

#[global] Instance demo_fs : Mount.FileSystem unit Pipes := {|
  Mount.fs_open_root _ := mret (Ok root);
  Mount.fs_read_dir _ d A h a := mret (Ok tt, a);
  Mount.fs_treverse_dir _ d n := mret (lookup n);
  Mount.fs_create_node _ d n a := mret (Err (FatErr NotEnoughSpace));
  Mount.fs_read_file _ i pos n h := mret (Ok (slice (content (start_cluster (fn_base i))) pos n), h);
  Mount.fs_write_file _ i pos buf h := mret (Err (FatErr NotEnoughSpace), i, h);
  Mount.fs_flush_file _ i h := mret (Ok tt, i, h);
  Mount.fs_close_file _ i h := mret (Ok tt);
  Mount.fs_set_file_size _ i n := mret (Err FsTypes.WriteNotSupported, i);
  Mount.fs_number_global_refs _ := 0;
  Mount.fs_unmount _ := mret tt;
  Mount.fs_strong_count _ := mret 1;
  Mount.dev_read d _ n := on_pipe d (Pipe.read (side d) (Z.to_nat n));
  Mount.dev_write d _ b := on_pipe d (Pipe.write (side d) b);
  Mount.dev_set_size _ _ := mret (Err FsTypes.WriteNotSupported);
  Mount.dev_try_create _ := mret None;
  Mount.dev_clone_device d := on_pipe d (fun p => (Ok tt, Pipe.clone_device (side d) p))
|}.
#[global] Instance demo_pipes : PipeDevices Pipes := {|
  new_pipe := fun w => Ret ((2 * length w, 2 * length w + 1)%nat, w ++ [Pipe.create_pipe_pair])
|}.

(** ** Address spaces *)
Notation Flat := ElfDemo.Flat.
Definition remap (f : Z -> bool -> bool) (v : Flat) : Flat :=
  ElfDemo.mkFlat (ElfDemo.fl_mem v) (fun x => f x (ElfDemo.fl_mapped v x)) (ElfDemo.fl_pages v).
#[global] Instance flat_user : UserVm Flat := {|
  vm_map a n v := Ret (remap (fun x b => if decide (a <= x < a + n) then true else b) v);
  vm_unmap a n v := Ret (remap (fun x b => if decide (a <= x < a + n) then false else b) v);
  vm_is_mapped := ElfDemo.fl_mapped
|}.
#[global] Instance flat_spawn : SpawnVm Flat := {|
  vm_clone_as_user := Ret (ElfDemo.mkFlat (fun _ => 0) (fun _ => false) 1000);
  vm_add_specific v := Ret v;
  um_mem := ElfDemo.fl_mem;
  um_set m v := ElfDemo.mkFlat m (ElfDemo.fl_mapped v) (ElfDemo.fl_pages v)
|}.
#[global] Instance flat_user_laws : UserMemLaws Flat.
Proof. by constructor. Qed.

(** ** The machine *)
Notation Sys := (@Sys unit Pipes Flat).
Notation Node := (Vfs.FilesystemNode (F := unit)).
Definition mounted : Mount.Vfs (F := unit) (W := Pipes) :=
  match Mount.mount [Path.SEPARATOR] (Mount.Dyn tt) (Mount.mkVfs None []) with Ret (_, d) => d | _ => Mount.mkVfs None [] end.
Definition console : Node :=
  Vfs.FsnFile (Vfs.mkFile (Mount.Dyn tt) (of_string "/a") (file_node TEXT 3) 0 true FileLink.BmNone access_default (mkFileAccess true true)).
Definition text_file : Vfs.File (F := unit) :=
  Vfs.mkFile (Mount.Dyn tt) (of_string "/a") (file_node TEXT 3) 1 false FileLink.BmNone access_default (mkFileAccess true true).
(** two pages of memory at [0x1000]: a path, an array with it, another path, a
    file mapping, a command to draw, a text *)
Definition user_bytes : list (Z * bytes) :=
  [(0x1000, of_string "/init" ++ [0]); (0x1010, le 8 0x1000 ++ le 8 0); (0x1020, of_string "/new" ++ [0]); (0x1040, le 8 3 ++ le 8 7);
   (0x1080, le 8 0x2000 ++ encode_info GraphicsDemo.rgb ++ [0] ++ le 8 0 ++ le 8 0 ++ le 8 3 ++ le 8 1 ++ le 8 2 ++ le 8 2); (0x1100, hello)].
Definition memory : Mem := foldr (fun e m => Process.store m e.1 e.2) (fun _ => 0xCC) user_bytes.
Definition space : Flat := ElfDemo.mkFlat memory (fun x => (0x1000 <=? x) && (x <? 0x3000)) 100.
Definition caller : Process Flat Node :=
  mkProcess space context_default 0 0 {[ 0 := console; 1 := console; 2 := console; 3 := Vfs.FsnFile text_file ]} 4 [] (of_string "/init") (of_string "/")
    0x3000 0x1000 0x400000 0 0x40000000 Normal 0 ∅.
Definition entry : @SchedulerProcess Flat Node := mkSP caller Running U64_MAX.
Definition kernel_context : ProcessContext := context_default.
Definition world0 : @World Flat Node :=
  mkWorld (mkSched [] [(0, entry)] [] U64_MAX) false false (Cpu.mkCpu 0 false false) (Some kernel_context) 0 false (Some 0) (mkTime 5 1) (Some (-1)) fxsave_default.
Definition regs (n a b c d : Z) : InterruptAllSavedState :=
  mkAllState (mkRest 0x23 0 0 0 0 0 0 0 0 0 n 0 a b c d 0 0 0 0 0 0 0 0 0) 0xFE 0 (mkFrame 0x400000 0x1B 0x202 0x3000 0x23).
(** system call [n] with four arguments *)
Definition call (n a b c d : Z) : Sys := mkSys world0 mounted (regs n a b c d) 1 (Some GraphicsDemo.black) (mkTime 0 1700000000).

Lemma caller_calls n a b c d : calling 1 (call n a b c d) entry kernel_context.
Proof.
  split; [|done]. split_and!; [| |done|done|by split].
  - split; cbn.
    + split; [repeat constructor; set_solver|]. intros x Hx. apply list_elem_of_singleton in Hx as ->. cbn. split; [lia|].
      intros j Hj. rewrite lookup_empty in Hj. by destruct Hj.
    + constructor.
    + constructor; [by split|constructor].
    + repeat constructor.
    + vm_compute. split; discriminate.
  - split_and!; [done|done|]. cbn. intros e He _. by apply list_elem_of_singleton in He as ->.
Qed.

Lemma text_open n b c d : has_file entry (argument (call n 3 b c d) 0) text_file.
Proof. by vm_compute. Qed.

(** seeking one byte before the end of the file *)
Lemma sys_seek_moves_witness : exists s', sys_seek (call 20 3 2 (2 ^ 64 - 1) 0) = Ret (Ok 4, s') /\ s_disk s' = mounted.
Proof.
  destruct (sys_seek_moves 1 (call 20 3 2 (2 ^ 64 - 1) 0) entry kernel_context text_file FileLink.SwEnd (caller_calls _ _ _ _ _) (text_open _ _ _ _)
    eq_refl) as (s' & [E _] & Hd & _).
  - by vm_compute.
  - by vm_compute.
  - by vm_compute.
  - by exists s'.
Defined.

Definition always (w : Pipes) (h : AccessHelper) : Prop := True.
Lemma text_reads : full_reads (Mount.Dyn tt) (file_node TEXT 3) hello always.
Proof. constructor. intros w h pos n _ _ _. by exists w, h. Qed.

(** reading into the second page *)
Lemma sys_read_delivers_witness : exists s' p', sys_read 1 (call 2 3 0x2000 100 0) = Ret (Ok 4, s') /\ calling 1 s' p' kernel_context /\
  Process.load (um_mem (vm (process p'))) 0x1FFF 6 = [0xCC] ++ of_string "ello" ++ [0xCC].
Proof.
  destruct (sys_read_delivers 1 1 (call 2 3 0x2000 100 0) entry kernel_context text_file (Mount.Dyn tt) (file_node TEXT 3) hello always
    (caller_calls _ _ _ _ _) (text_open _ _ _ _)) as (s' & p' & E & Hc & _ & Hm & _).
  - by constructor.
  - exact text_reads.
  - done.
  - split_and!; by vm_compute.
  - by vm_compute.
  - by vm_compute.
  - exists s', p'. split; [exact E|]. split; [exact Hc|].
    unfold Process.load. cbn [fmap list_fmap seq]. rewrite !Hm. by vm_compute.
Defined.

(** the whole interrupt, for the same seek: the caller waits in the queue
    with the position in [rax] *)
Lemma handle_syscall_answers_witness : exists v s2, handle_syscall 1 (call 20 3 2 (2 ^ 64 - 1) 0) = Ret (tt, s2) /\
  syscall_result_from_u64 v = Ok 4 /\ c_rax (context (process (answered_with v (call 20 3 2 (2 ^ 64 - 1) 0) entry))) = v.
Proof.
  assert (Hm : wp False sys_seek (call 20 3 2 (2 ^ 64 - 1) 0) (fun r s1 => exists p1, calling 1 s1 p1 kernel_context /\
    same_rest (call 20 3 2 (2 ^ 64 - 1) 0) s1 /\ r = Ok 4)).
  { unfold sys_seek. do 3 (wp_step; apply wp_arg). eapply wp_file; [apply caller_calls|apply text_open|].
    wp_step. wp_step. wp_step. eapply wp_lift_ret; [reflexivity|]. apply wp_ebind. unfold fs_q. wp_step. unfold wp at 1, Vfs.seek. wp_steps.
    intros s' C1 _ C3. eexists. split; [exact C1|]. by split. }
  destruct (wp_total _ _ _ Hm) as (r & s1 & E & p1 & Hc & Hs & ->).
  destruct (handle_syscall_answers 1 1 (call 20 3 2 (2 ^ 64 - 1) 0) sys_seek (Ok 4) s1 p1 kernel_context) as (v & s2 & E2 & Hv & _).
  - by vm_compute.
  - reflexivity.
  - exact E.
  - exact Hc.
  - apply Hs.
  - rewrite (sr_shutdown _ _ Hs). done.
  - by vm_compute.
  - by vm_compute.
  - exists v, s2. split; [exact E2|]. split; [exact Hv|done].
Defined.

(** ** How a process stops the kernel *)
(** leaving with a negative exit code: the code is sign-extended into the
    result, whose top bit must be clear *)
Lemma negative_exit_code_panics : handle_syscall 1 (call 5 (2 ^ 64 - 1) 0 0 0) = Panic.
Proof. by vm_compute. Qed.

(** waiting for a child that left with one *)
Definition orphaned : Sys :=
  let p := set_children {[ 7 := -1 ]} caller in
  mkSys (set_sched (mkSched [] [(0, mkSP p Running U64_MAX)] [] U64_MAX) world0) mounted (regs 9 7 0 0 0) 1 None (mkTime 0 0).
Lemma waiting_for_failed_child_panics : handle_syscall 1 orphaned = Panic.
Proof. by vm_compute. Qed.

(** creating a file when the disk is full: not every error of the file
    system has a code for the user *)
Lemma full_disk_panics : sys_open 100 (call 0 0x1020 (Z.lor FileLink.OO_WRITE FileLink.OO_CREATE) 0 0) = Panic.
Proof. by vm_compute. Qed.

(** a process that does not exist, a sleep that overflows the clock *)
Lemma unknown_process_priority_panics : sys_priority (call 21 99 0 0 0) = Panic.
Proof. by vm_compute. Qed.
Lemma long_sleep_panics : sys_sleep (call 17 (2 ^ 64 - 1) 0 0 0) = Panic.
Proof. by vm_compute. Qed.

(** a buffer whose first and last byte are mapped, with a hole between *)
Definition holes : Flat := ElfDemo.mkFlat memory (fun x => ((0x1000 <=? x) && (x <? 0x2000)) || ((0x3000 <=? x) && (x <? 0x4000))) 100.
Definition with_hole (r : InterruptAllSavedState) : Sys :=
  mkSys (set_sched (mkSched [] [(0, mkSP (set_vm holes caller) Running U64_MAX)] [] U64_MAX) world0) mounted r 1 None (mkTime 0 0).
Lemma buffer_with_hole_faults : is_ok (match check_ptr 0x1000 0x2001 (with_hole (regs 0 0 0 0 0)) with Ret (r, _) => r | _ => Err InvalidUserPointer end) = true /\
  sys_write (with_hole (regs 1 3 0x1000 0x2001 0)) = Panic.
Proof. by vm_compute. Qed.

(** a blocking mode that reads do not support can be set, and then stops the
    kernel at the next read *)
Lemma unsupported_blocking_mode_panics :
  match handle_syscall 1 (call 15 3 0 (FileLink.blocking_to_u64 (FileLink.BmBlock 2)) 0) with
  | Ret (_, s) => syscall_result_from_u64 (match scheduled_processes (sched (s_world s)) with p :: _ => c_rax (context (process p)) | [] => 2 ^ 63 end) = Ok 0
  | _ => False
  end /\
  match sys_set_file_meta (call 15 3 0 (FileLink.blocking_to_u64 (FileLink.BmBlock 2)) 0) with
  | Ret (_, s) => sys_read 10 (set_regs (regs 2 3 0x2000 1 0) s) = Panic
  | _ => False
  end.
Proof. by vm_compute. Qed.

(** ** Descriptors that get lost *)
Definition fds (s : Sys) : list Z :=
  match ZMap.get 0 (running_waiting_procs (sched (s_world s))) with Some p => (map_to_list (open_filesystem_nodes (process p))).*1 | None => [] end.
Definition write_only : Vfs.File (F := unit) :=
  Vfs.mkFile (Mount.Dyn tt) (of_string "/a") (file_node TEXT 3) 0 false FileLink.BmLine access_default (mkFileAccess false true).
Definition with_file (n : option Node) (std0 : bool) (r : InterruptAllSavedState) : Sys :=
  let m := open_filesystem_nodes caller in
  let m := match n with Some n => <[3 := n]> m | None => m end in
  let m := if std0 then m else delete 0 m in
  mkSys (set_sched (mkSched [] [(0, mkSP (set_files m 4 caller) Running U64_MAX)] [] U64_MAX) world0) mounted r 1 None (mkTime 0 0).

(** a read that fails in a blocking mode closes the file *)
Lemma failed_blocking_read_closes :
  match sys_read 1 (with_file (Some (Vfs.FsnFile write_only)) true (regs 2 3 0x2000 4 0)) with
  | Ret (r, s) => r = Err CouldNotReadFromFile /\ bool_decide (3 ∈ fds s) = false
  | _ => False
  end /\ bool_decide (3 ∈ fds (with_file (Some (Vfs.FsnFile write_only)) true (regs 2 3 0x2000 4 0))) = true.
Proof. by vm_compute. Qed.

(** spawning works: the child starts at the entry point of the program *)
Definition spawn_regs (mappings n : Z) : InterruptAllSavedState := regs 6 0x1000 0x1010 mappings n.
Lemma spawn_starts_program :
  match sys_spawn 100 (with_file None true (spawn_regs 0 0)) with
  | Ret (r, s) => r = Ok 1 /\ (match scheduled_processes (sched (s_world s)) with [p] => c_rip (context (process p)) = 0x400100 /\ argv (process p) = [of_string "/init"] | _ => False end)
  | _ => False
  end.
Proof. by vm_compute. Qed.

(** when a standard file is missing, [sys_spawn] fails after the mapped files
    have left the parent, and closes them *)
Lemma failed_spawn_loses_files :
  match sys_spawn 100 (with_file None false (spawn_regs 0x1040 1)) with
  | Ret (r, s) => r = Err InvalidFileIndex /\ bool_decide (3 ∈ fds s) = false
  | _ => False
  end.
Proof. by vm_compute. Qed.

(** a mapping to a high descriptor: attaching the standard files sets the
    allocator back, and the third file the child opens meets the taken
    descriptor *)
Definition child_with_high_descriptor : outcome (Process Flat Node) :=
  let p := set_files ∅ 0 caller in
  '(_, p) ← attach_fs_node_to_fd 5 console p;
  '(_, p) ← attach_fs_node_to_fd 0 console p;
  '(_, p) ← attach_fs_node_to_fd 1 console p;
  '(_, p) ← attach_fs_node_to_fd 2 console p;
  p ← finish_stdio p;
  '(_, p) ← push_fs_node console p;
  '(_, p) ← push_fs_node console p;
  Ret p.
Lemma attached_descriptor_collides :
  is_ok (match child_with_high_descriptor with Ret p => Ok p | _ => Err tt end) = true /\
  (p ← child_with_high_descriptor; push_fs_node console p) = Panic.
Proof. by vm_compute. Qed.

(** ** The display *)
Definition owner (s : Sys) : Sys := set_world (set_vga (Some 0) (s_world s)) s.
(** a rectangle that leaves the screen *)
Lemma drawing_outside_panics : sys_graphics (owner (call 19 3 0x1080 0 0)) = Panic.
Proof. by vm_compute. Qed.
(** the same command from a process that does not own the display *)
Lemma drawing_needs_ownership :
  match sys_graphics (call 19 3 0x1080 0 0) with Ret (r, _) => r = Err GraphicsNotOwned | _ => False end /\
  match sys_graphics (call 19 0 0 0 0) with Ret (r, s) => r = Ok 0 /\ vga_owner (s_world s) = Some 0 | _ => False end.
Proof. by vm_compute. Qed.

(** ** Which argument was wrong *)
(** a bad buffer, the second argument, is reported as the first *)
Lemma bad_buffer_reported_as_descriptor :
  match sys_write (call 1 3 0 5 0) with Ret (r, _) => r = Err (to_arg_err 0 InvalidUserPointer) | _ => False end.
Proof. by vm_compute. Qed.

(** ** A pipe *)
(** what is written to the second descriptor is read from the first *)
Definition run (n a b c d : Z) (s : Sys) : Sys :=
  match SYSCALLS 10 !! Z.to_nat n with
  | Some f => match f (set_regs (regs n a b c d) s) with Ret (_, s) => s | _ => s end
  | None => s
  end.
Lemma pipe_through_system_calls :
  let s := run 8 0x2000 0x2008 0 0 (call 0 0 0 0 0) in
  let s := run 1 5 0x1100 5 0 s in
  match sys_read 10 (set_regs (regs 2 4 0x2010 3 0) s) with
  | Ret (r, s) => r = Ok 3 /\ match load_user 0x2010 3 s with Ret (b, _) => b = of_string "hel" | _ => False end
  | _ => False
  end.
Proof. by vm_compute. Qed.
End SysDemo.
