(* ===== verification/AmlData.v ===== *)
(** * AML: errors and plain data

    The types of [kernel/src/acpi/aml/parser/mod.rs] that contain no code:
    errors, integers, region spaces, access types and rules, with their
    conversions from the bytes that encode them, and Rust's strings as the
    bytes of their UTF-8 encoding. *)
From S2P Require Import Prelude UserLink FsTypes Bytes.

Module AmlData.
Inductive AmlParseError : Type :=
| UnexpectedEndOfCode
| InvalidPkgLengthLead
| InvalidTermArgInPackage
| RemainingBytes (n : Z)
| CannotMoveBackward
| InvalidTarget (b : Z)
| NameObjectNotContainingDataObject
| UnalignedFieldElementOffset
| InvalidAccessType
| InvalidExtendedAttrib (b : Z)
| InvalidFieldUpdateRule
| ReservedFieldSet
| ResourceTemplateReservedTag
| ReservedValue
| InvalidResourceTemplate.

#[global] Instance AmlParseError_eq_dec : EqDecision AmlParseError.
Proof. solve_decision. Defined.

(** [flags & mask != 0] *)
Definition flag (flags mask : Z) : bool := negb (Z.land flags mask =? 0).

(** ** Integers *)
Inductive IntegerData : Type :=
| ConstZero | ConstOne | ConstOnes
| ByteConst (v : Z) | WordConst (v : Z) | DWordConst (v : Z) | QWordConst (v : Z).

Definition as_u8 (i : IntegerData) : option Z :=
  match i with ByteConst b => Some b | ConstZero => Some 0 | ConstOne => Some 1 | ConstOnes => Some 0xFF | _ => None end.
Definition as_u16 (i : IntegerData) : option Z :=
  match i with WordConst w => Some w | ConstOnes => Some 0xFFFF | _ => as_u8 i end.
Definition as_u32 (i : IntegerData) : option Z :=
  match i with DWordConst d => Some d | ConstOnes => Some 0xFFFFFFFF | _ => as_u16 i end.
Definition as_u64 (i : IntegerData) : outcome Z :=
  match i with QWordConst q => Ret q | ConstOnes => Ret 0xFFFFFFFFFFFFFFFF | _ => unwrap (as_u32 i) end.

(** ** Regions and fields *)
Inductive RegionSpace : Type :=
| SystemMemory | SystemIO | PCI_Config | EmbeddedControl | SMBus | SystemCMOS | PciBarTarget | IPMI | GeneralPurposeIO
| GenericSerialBus | PCC | FFixedHW | OtherSpace (b : Z).
Definition region_space_from (space : Z) : RegionSpace :=
  if space =? 0 then SystemMemory else if space =? 1 then SystemIO else if space =? 2 then PCI_Config
  else if space =? 3 then EmbeddedControl else if space =? 4 then SMBus else if space =? 5 then SystemCMOS
  else if space =? 6 then PciBarTarget else if space =? 7 then IPMI else if space =? 8 then GeneralPurposeIO
  else if space =? 9 then GenericSerialBus else if space =? 10 then PCC else OtherSpace space.

Inductive AccessType : Type := AtAny | AtByte | AtWord | AtDWord | AtQWord | AtBuffer.
Definition access_type_try_from (value : Z) : result AccessType AmlParseError :=
  let v := Z.land value 0xF in
  if v =? 0 then Ok AtAny else if v =? 1 then Ok AtByte else if v =? 2 then Ok AtWord else if v =? 3 then Ok AtDWord
  else if v =? 4 then Ok AtQWord else if v =? 5 then Ok AtBuffer else Err InvalidAccessType.

Inductive FieldUpdateRule : Type := Preserve | WriteAsOnes | WriteAsZeros.
Definition update_rule_try_from (value : Z) : result FieldUpdateRule AmlParseError :=
  let v := Z.land value 7 in
  if v =? 0 then Ok Preserve else if v =? 1 then Ok WriteAsOnes else if v =? 2 then Ok WriteAsZeros else Err InvalidFieldUpdateRule.

Inductive AccessAttrib : Type :=
| AaByteValue (b : Z) | AaBytes (b : Z) | AaRawBytes (b : Z) | AaRawProcessBytes (b : Z)
| AaQuick | AaSendRecv | AaByte | AaWord | AaBlock | AaProcessCall | AaBlockProcessCall.

Inductive ScopeType : Type := TDevice | TScope.
#[global] Instance ScopeType_eq_dec : EqDecision ScopeType.
Proof. solve_decision. Defined.

(** ** Strings *)
(** [String::push(byte as char)]: bytes above 127 take two *)
Definition push_char (s : bytes) (b : Z) : bytes :=
  s ++ (if b <? 128 then [b] else [0xC0 + b / 64; 0x80 + b mod 64]).
(** [&name[name.len() - 4..]]: fails on shorter strings and inside a character *)
Definition last4 (name : bytes) : outcome bytes :=
  n ← csub (Z.of_nat (length name)) 4;
  let s := drop (Z.to_nat n) name in
  _ ← assert_that (match s with b :: _ => negb (tail_byte b) | [] => true end);
  Ret s.
(** [str::starts_with], [str::contains] *)
Fixpoint starts_with (p s : bytes) : bool :=
  match p, s with
  | [], _ => true
  | a :: p, b :: s => (a =? b) && starts_with p s
  | _, [] => false
  end.
Fixpoint contains (p s : bytes) : bool :=
  starts_with p s || match s with [] => false | _ :: s => contains p s end.
(** [{:02X}] of a byte *)
Definition hex_digit (d : Z) : Z := if d <? 10 then 0x30 + d else 0x41 + (d - 10).
Definition hex2 (b : Z) : bytes := [hex_digit (b / 16); hex_digit (b mod 16)].

(** every integer has a 64-bit value: the [expect] of [as_u64] cannot fail *)
Lemma as_u64_total i : exists v, as_u64 i = Ret v.
Proof. destruct i; cbn; eauto. Qed.

Lemma last4_ascii p s : length s = 4%nat -> Forall (fun b => 0 <= b < 128) s -> last4 (p ++ s) = Ret s.
Proof.
  intros Hl Hs. unfold last4. rewrite length_app, Hl. rewrite csub_ret by lia. cbn [mbind outcome_bind].
  replace (Z.to_nat _) with (length p) by lia. rewrite drop_app_length.
  destruct Hs as [|b s Hb Hs]; [done|]. unfold tail_byte, between.
  by rewrite (proj2 (Z.leb_gt 0x80 b)) by lia.
Qed.
End AmlData.
