(* ===== verification/Resource.v ===== *)
(** * ACPI resource templates

    Models [kernel/src/acpi/aml/parser/resource_template.rs]: the reader of
    bytes, the small and the large resource items and the list of items that
    the buffer of a resource template holds. *)
From S2P Require Import Prelude UserLink FsTypes Bytes AmlData.
Import AmlData.

Module Resource.
Definition END_TAG_FULL : Z := 0x79.

(** ** The reader *)
Record RParser : Type := mkRP { buffer : bytes; rpos : Z }.
Notation R A := (ST RParser (result A AmlParseError)).
Definition rlen (p : RParser) : Z := Z.of_nat (length (buffer p)).

Definition get_next_byte : R Z :=
  p ← get;
  if rlen p <=? rpos p then mret (Err UnexpectedEndOfCode) else
  byte ← lift (unwrap (buffer p !! Z.to_nat (rpos p)));
  _ ← put (mkRP (buffer p) (rpos p + 1));
  mret (Ok byte).
Definition get_next_u16 : R Z :=
  low ←? get_next_byte;
  high ←? get_next_byte;
  mret (Ok (Z.lor (Z.shiftl high 8) low)).
(** [n] calls of [get_next_byte], as in an array of them *)
Fixpoint get_bytes (n : nat) : R bytes :=
  match n with
  | O => mret (Ok [])
  | S n => b ←? get_next_byte; r ←? get_bytes n; mret (Ok (b :: r))
  end.
Definition get_next_u32 : R Z := b ←? get_bytes 4; mret (Ok (from_le b)).
Definition get_next_u64 : R Z := b ←? get_bytes 8; mret (Ok (from_le b)).
(** [get_inner]: the reader of the next [len] bytes *)
Definition get_inner (len : Z) : R RParser :=
  p ← get;
  if rlen p <? rpos p + len then mret (Err UnexpectedEndOfCode) else
  _ ← put (mkRP (buffer p) (rpos p + len));
  mret (Ok (mkRP (take (Z.to_nat len) (drop (Z.to_nat (rpos p)) (buffer p))) 0)).
(** The position is moved to the end before the rest is taken. *)
Definition get_remaining_data : R bytes :=
  p ← get;
  if rlen p <=? rpos p then mret (Err UnexpectedEndOfCode) else
  _ ← put (mkRP (buffer p) (rlen p));
  mret (Ok (drop (Z.to_nat (rlen p)) (buffer p))).
Definition is_done (p : RParser) : bool := rlen p <=? rpos p.
Definition get_is_done : R bool := p ← get; mret (Ok (is_done p)).

(** ** Resource items *)
Inductive DmaSpeedType : Type := Compatibility | TypeA | TypeB | TypeF.
Inductive DmaTrasferType : Type := Transfer8 | Transfer16 | Transfer8_16.
Inductive DmaTransferWidth : Type := Width8Bit | Width16Bit | Width32Bit | Width64Bit | Width128Bit | Width256Bit.
Inductive SpaceMemoryType : Type := NonCacheable | Cacheable | WriteCombining | Prefetchable.
Inductive SpaceMemoryRangeType : Type := AddressRangeMemory | AddressRangeReserved | AddressRangeACPI | AddressRangeNVS.
Inductive SpaceIoRangeType : Type := NonISAOnlyRanges | ISAOnlyRanges | EntireRange.

Inductive AddressSpaceType : Type :=
| MemorySpace (is_read_write : bool) (ty : SpaceMemoryType) (range_ty : SpaceMemoryRangeType) (is_type_translation : bool)
| IoSpace (is_type_translation : bool) (range_ty : SpaceIoRangeType) (is_sparse_translation : bool)
| BusNumber
| VendorDefined (value flags : Z).

(** the trait [AddressWidth] and its three implementations *)
Inductive AddressWidth : Type := U16 | U32 | U64.
Definition width (w : AddressWidth) : Z := match w with U16 => 2 | U32 => 4 | U64 => 8 end.
Definition from_parser (w : AddressWidth) : R Z :=
  match w with U16 => get_next_u16 | U32 => get_next_u32 | U64 => get_next_u64 end.

Definition space_type_parse (w : AddressWidth) (value flags : Z) : outcome (result AddressSpaceType AmlParseError) :=
  if value =? 0 then
    let is_read_write := flag flags 1 in
    let t := Z.land (Z.shiftr flags 1) 3 in
    ty ← (if t =? 0 then Ret NonCacheable else if t =? 1 then Ret Cacheable else if t =? 2 then Ret WriteCombining
          else if t =? 3 then Ret Prefetchable else Panic);
    let r := Z.land (Z.shiftr flags 3) 3 in
    range_ty ← (if r =? 0 then Ret AddressRangeMemory else if r =? 1 then Ret AddressRangeReserved
                else if r =? 2 then Ret AddressRangeACPI else if r =? 3 then Ret AddressRangeNVS else Panic);
    let is_type_translation := flag (Z.shiftr flags 5) 1 in
    Ret (Ok (MemorySpace is_read_write ty range_ty is_type_translation))
  else if value =? 1 then
    let r := Z.land flags 3 in
    let io ty := Ret (Ok (IoSpace (flag (Z.shiftr flags 4) 1) ty (flag (Z.shiftr flags 5) 1))) in
    if r =? 0 then Ret (Err ReservedValue) else if r =? 1 then io NonISAOnlyRanges
    else if r =? 2 then io ISAOnlyRanges else if r =? 3 then io EntireRange else Panic
  else if (width w =? 2) && (value =? 2) then Ret (Ok BusNumber)
  else if (192 <=? value) && (value <=? 255) then Ret (Ok (VendorDefined value flags))
  else Ret (Err ReservedValue).

Record ResourceSource : Type := mkSource { index : option Z; source : option bytes }.
Definition source_parse : R ResourceSource :=
  d ←? get_is_done;
  index ←? (if negb d then b ←? get_next_byte; mret (Ok (Some b)) else mret (Ok None));
  d ←? get_is_done;
  source ←? (if negb d then b ←? get_remaining_data; mret (Ok (Some b)) else mret (Ok None));
  mret (Ok (mkSource index source)).

Inductive ResourceSourceOrTypeSpecificAttrs : Type := SourceExtra (s : ResourceSource) | TypeSpecificAttrs (v : Z).

Record AddressSpace : Type := mkSpace {
  sp_ty : AddressSpaceType; is_consumer : bool; is_max_fixed : bool; is_min_fixed : bool; is_subtract_decode : bool;
  granularity : Z; min : Z; max : Z; translation_offset : Z; sp_len : Z; extra : ResourceSourceOrTypeSpecificAttrs
}.

Definition parse_address_ranges_nums (w : AddressWidth) : R (Z * Z * Z * Z * Z) :=
  granularity ←? from_parser w;
  min ←? from_parser w;
  max ←? from_parser w;
  translation_offset ←? from_parser w;
  len ←? from_parser w;
  mret (Ok (granularity, min, max, translation_offset, len)).

Definition parse_start_flags (w : AddressWidth) : R (AddressSpaceType * bool * bool * bool * bool) :=
  ty_byte ←? get_next_byte;
  flags ←? get_next_byte;
  ty_flags ←? get_next_byte;
  ty ←? lift (space_type_parse w ty_byte ty_flags);
  let is_max_fixed := flag flags (Z.shiftl 1 3) in
  let is_min_fixed := flag flags (Z.shiftl 1 2) in
  let is_subtract_decode := flag flags (Z.shiftl 1 1) in
  let is_consumer := flag flags 1 in
  mret (Ok (ty, is_consumer, is_max_fixed, is_min_fixed, is_subtract_decode)).

Definition build_space (h : AddressSpaceType * bool * bool * bool * bool) (n : Z * Z * Z * Z * Z)
    (e : ResourceSourceOrTypeSpecificAttrs) : AddressSpace :=
  let '(ty, c, mx, mn, sd) := h in
  let '(g, lo, hi, t, l) := n in
  mkSpace ty c mx mn sd g lo hi t l e.

(** [AddressSpace::parse] *)
Definition space_parse (w : AddressWidth) : R AddressSpace :=
  head ←? parse_start_flags w;
  nums ←? parse_address_ranges_nums w;
  resource_source ←? source_parse;
  mret (Ok (build_space head nums (SourceExtra resource_source))).
(** [AddressSpace::parse_extended] *)
Definition space_parse_extended (w : AddressWidth) : R AddressSpace :=
  _ ← lift (assert_that (width w =? 8));
  head ←? parse_start_flags w;
  revision ←? get_next_byte;
  _ ← lift (assert_that (revision =? 1));
  reserved ←? get_next_byte;
  if negb (reserved =? 0) then mret (Err ReservedValue) else
  nums ←? parse_address_ranges_nums w;
  attribute ←? get_next_u64;
  mret (Ok (build_space head nums (TypeSpecificAttrs attribute))).

Inductive ResourceMacro : Type :=
| Irq (wake_capable is_shared active_low edge_triggered : bool) (irqs_mask : Z)
| Dma (speed_ty : DmaSpeedType) (is_bus_master : bool) (transfer_type : DmaTrasferType) (channels_mask : Z)
| StartDependentFunctions (compatibility_priority performance_priority : Z)
| EndDependentFunctions
| Io (is_16_bit_decode : bool) (min_addr max_addr alignment len : Z)
| FixedIo (base len : Z)
| FixedDma (dma_req channel : Z) (transfer_width : DmaTransferWidth)
| VendorShort (data : bytes) (len : Z)
| VendorLarge (data : bytes)
| Memory24 (is_read_write : bool) (min_addr max_addr alignment len : Z)
| Memory32Fixed (is_read_write : bool) (base_addr len : Z)
| Memory32 (is_read_write : bool) (min_addr max_addr alignment len : Z)
| Interrupt (consumer edge_triggered active_low is_shared wake_capable : bool) (interrupts : list Z) (resource_source : ResourceSource)
| Register (address_space : RegionSpace) (bit_width offset address : Z) (access_size : AccessType)
| AddressSpaceWord (s : AddressSpace)
| AddressSpaceDWord (s : AddressSpace)
| AddressSpaceQWord (s : AddressSpace)
| AddressSpaceExtended (s : AddressSpace).

Definition some {A} (a : A) : R (option A) := mret (Ok (Some a)).

(** ** Small items *)
Definition parse_irq (first : Z) : R (option ResourceMacro) :=
  let contain_info := first =? 0x23 in
  irqs_mask ←? get_next_u16;
  if contain_info then
    flags ←? get_next_byte;
    let edge_triggered := flag flags 1 in
    let active_low := flag flags (Z.shiftl 1 3) in
    let is_shared := flag flags (Z.shiftl 1 4) in
    let wake_capable := flag flags (Z.shiftl 1 5) in
    if flag flags (Z.shiftl 3 6) then mret (Err ReservedFieldSet) else
    some (Irq wake_capable is_shared active_low edge_triggered irqs_mask)
  else some (Irq false false false true irqs_mask).

Definition parse_dma : R (option ResourceMacro) :=
  channels_mask ←? get_next_byte;
  flags ←? get_next_byte;
  if flag flags 0x80 then mret (Err ReservedFieldSet) else
  let t := Z.land flags 3 in
  transfer_type ←? mret (if t =? 0 then Ok Transfer8 else if t =? 1 then Ok Transfer8_16 else if t =? 2 then Ok Transfer16
                         else Err ReservedFieldSet);
  let is_bus_master := Z.land (Z.shiftr flags 2) 1 =? 1 in
  let s := Z.land (Z.shiftr flags 5) 3 in
  speed_ty ← lift (if s =? 0 then Ret Compatibility else if s =? 1 then Ret TypeA else if s =? 2 then Ret TypeB
                   else if s =? 3 then Ret TypeF else Panic);
  some (Dma speed_ty is_bus_master transfer_type channels_mask).

Definition parse_start_dependent (first : Z) : R (option ResourceMacro) :=
  let contain_priority_byte := first =? 0x31 in
  if contain_priority_byte then
    flags ←? get_next_byte;
    if flag flags (Z.shiftl 0xF 4) then mret (Err ReservedFieldSet) else
    some (StartDependentFunctions (Z.land flags 3) (Z.land (Z.shiftr flags 2) 3))
  else some (StartDependentFunctions 1 1).

Definition parse_io : R (option ResourceMacro) :=
  flags ←? get_next_byte;
  min_addr ←? get_next_u16;
  max_addr ←? get_next_u16;
  alignment ←? get_next_byte;
  len ←? get_next_byte;
  some (Io (Z.land flags 1 =? 1) min_addr max_addr alignment len).

Definition parse_fixed_dma : R (option ResourceMacro) :=
  dma_req ←? get_next_u16;
  channel ←? get_next_u16;
  b ←? get_next_byte;
  transfer_width ←? mret (if b =? 0 then Ok Width8Bit else if b =? 1 then Ok Width16Bit else if b =? 2 then Ok Width32Bit
    else if b =? 3 then Ok Width64Bit else if b =? 4 then Ok Width128Bit else if b =? 5 then Ok Width256Bit else Err ReservedFieldSet);
  some (FixedDma dma_req channel transfer_width).

(** the array of six bytes, the first [len] of them read *)
Definition parse_vendor_short (first : Z) : R (option ResourceMacro) :=
  len ← lift (csub (Z.land first 7) 1);
  data ←? get_bytes (Nat.min (Z.to_nat len) 6);
  some (VendorShort (data ++ replicate (6 - length data) 0) len).

Definition try_parse_small_resource (first : Z) : R (option ResourceMacro) :=
  if (first =? 0x22) || (first =? 0x23) then parse_irq first
  else if first =? 0x2A then parse_dma
  else if (first =? 0x30) || (first =? 0x31) then parse_start_dependent first
  else if first =? 0x38 then some EndDependentFunctions
  else if first =? 0x47 then parse_io
  else if first =? 0x4B then
    base ←? get_next_u16;
    len ←? get_next_byte;
    some (FixedIo (Z.land base 0x3FF) len)
  else if first =? 0x55 then parse_fixed_dma
  else if (0x71 <=? first) && (first <=? 0x77) then parse_vendor_short first
  else if first =? 0x79 then mret (Err ResourceTemplateReservedTag)
  else mret (Ok None).

(** ** Large items *)
Definition parse_memory24 (data_len : Z) : R (option ResourceMacro) :=
  _ ← lift (assert_that (data_len =? 9));
  flags ←? get_next_byte;
  min_addr ←? get_next_u16;
  max_addr ←? get_next_u16;
  alignment ←? get_next_u16;
  len ←? get_next_u16;
  some (Memory24 (Z.land flags 1 =? 1) (Z.shiftl min_addr 8) (Z.shiftl max_addr 8) alignment len).

Definition parse_register (data_len : Z) : R (option ResourceMacro) :=
  _ ← lift (assert_that (data_len =? 12));
  space ←? get_next_byte;
  address_space ←? mret (match region_space_from space with
    | OtherSpace other => if other =? 0x7F then Ok FFixedHW else Err ReservedFieldSet
    | s => Ok s end);
  bit_width ←? get_next_byte;
  offset ←? get_next_byte;
  access ←? get_next_byte;
  access_size ←? mret (access_type_try_from access);
  address ←? get_next_u64;
  match access_size with
  | AtBuffer => mret (Err ReservedFieldSet)
  | _ => some (Register address_space bit_width offset address access_size)
  end.

Definition parse_memory32 (data_len : Z) : R (option ResourceMacro) :=
  _ ← lift (assert_that (data_len =? 17));
  flags ←? get_next_byte;
  min_addr ←? get_next_u32;
  max_addr ←? get_next_u32;
  alignment ←? get_next_u32;
  len ←? get_next_u32;
  some (Memory32 (Z.land flags 1 =? 1) min_addr max_addr alignment len).

Definition parse_memory32_fixed (data_len : Z) : R (option ResourceMacro) :=
  _ ← lift (assert_that (data_len =? 9));
  flags ←? get_next_byte;
  base_addr ←? get_next_u32;
  len ←? get_next_u32;
  some (Memory32Fixed (Z.land flags 1 =? 1) base_addr len).

(** [n] calls of [get_next_u32] *)
Fixpoint get_u32s (n : nat) : R (list Z) :=
  match n with O => mret (Ok []) | S n => v ←? get_next_u32; r ←? get_u32s n; mret (Ok (v :: r)) end.

Definition parse_interrupt (data_len : Z) : R (option ResourceMacro) :=
  _ ← lift (assert_that (6 <=? data_len));
  flags ←? get_next_byte;
  let is_consumed := flag flags 1 in
  let edge_triggered := flag flags (Z.shiftl 1 1) in
  let active_low := flag flags (Z.shiftl 1 2) in
  let is_shared := flag flags (Z.shiftl 1 3) in
  let wake_capable := flag flags (Z.shiftl 1 4) in
  table_len ←? get_next_byte;
  interrupts ←? get_u32s (Z.to_nat table_len);
  resource_source ←? source_parse;
  some (Interrupt is_consumed edge_triggered active_low is_shared wake_capable interrupts resource_source).

(** an address space of at least [low] bytes *)
Definition parse_space (low data_len : Z) (p : R AddressSpace) (k : AddressSpace -> ResourceMacro) : R (option ResourceMacro) :=
  _ ← lift (assert_that (low <=? data_len));
  s ←? p;
  some (k s).

Definition parse_large_item (tag data_len : Z) : R (option ResourceMacro) :=
  if (tag =? 0) || (tag =? 3) || ((0x13 <=? tag) && (tag <=? 0x7F)) then mret (Err ResourceTemplateReservedTag)
  else if tag =? 1 then parse_memory24 data_len
  else if tag =? 2 then parse_register data_len
  else if tag =? 4 then data ←? get_remaining_data; some (VendorLarge data)
  else if tag =? 5 then parse_memory32 data_len
  else if tag =? 6 then parse_memory32_fixed data_len
  else if tag =? 7 then parse_space 23 data_len (space_parse U32) AddressSpaceDWord
  else if tag =? 8 then parse_space 13 data_len (space_parse U16) AddressSpaceWord
  else if tag =? 9 then parse_interrupt data_len
  else if tag =? 10 then parse_space 43 data_len (space_parse U64) AddressSpaceQWord
  else if tag =? 11 then parse_space 53 data_len (space_parse_extended U64) AddressSpaceExtended
  else mret (Ok None).

(** run a reader of its own over the bytes of an item *)
Definition inside {A} (inner : RParser) (m : R A) : R A := fun p =>
  match m inner with
  | Ret (a, _) => Ret (a, p)
  | Panic => Panic
  | Diverge => Diverge
  end.

Definition try_parse_large_resource (first : Z) : R (option ResourceMacro) :=
  if negb (Z.land first 0x80 =? 0x80) then mret (Ok None) else
  data_len ←? get_next_u16;
  inner ←? get_inner data_len;
  inside inner (
    result ←? parse_large_item (Z.land first 0x7F) data_len;
    d ←? get_is_done;
    if match result with Some _ => negb d | None => false end then mret (Err InvalidResourceTemplate)
    else mret (Ok result)).

(** [ResourceMacro::try_parse_buffer] *)
Definition try_parse_item : R (option ResourceMacro) :=
  first ←? get_next_byte;
  result ←? try_parse_small_resource first;
  match result with
  | Some result => some result
  | None => try_parse_large_resource first
  end.

(** ** Templates *)
(** the loop over the items; every item takes a byte *)
Fixpoint items_loop (fuel : nat) : R (option (list ResourceMacro)) :=
  match fuel with
  | O => diverge
  | S fuel =>
      d ←? get_is_done;
      if d then some [] else
      item ←? try_parse_item;
      match item with
      | None => mret (Ok None)
      | Some item =>
          rest ←? items_loop fuel;
          mret (Ok ((item ::.) <$> rest))
      end
  end.

Definition sum8 (data : bytes) : Z := foldl (fun a b => wrap 8 (a + b)) 0 data.

(** [ResourceTemplate::try_parse_buffer] on the data of the buffer *)
Definition try_parse_buffer (data : bytes) : outcome (result (option (list ResourceMacro)) AmlParseError) :=
  let n := length data in
  if (Z.of_nat n <? 2) || negb (bool_decide (data !! (n - 2)%nat = Some END_TAG_FULL)) then Ret (Ok None) else
  if negb (sum8 data =? 0) && negb (bool_decide (last data = Some 0)) then Ret (Ok None) else
  let data := take (n - 2) data in
  r ← items_loop (S (length data)) (mkRP data 0);
  Ret (fst r).
End Resource.
