(* ===== verification/ResourceSpec.v ===== *)
(** * What a resource template decodes to

    The encoding of every kind of item, and the theorem that a buffer of
    encoded items is read back item by item. *)
From S2P Require Import Prelude UserLink FsTypes Bytes AmlData Resource.
Import AmlData Resource.

(** ** Reading *)
(** the bytes the reader has not yet taken *)
Definition sees (p : RParser) (rest : bytes) : Prop :=
  0 <= rpos p /\ rpos p + Z.of_nat (length rest) = rlen p /\ drop (Z.to_nat (rpos p)) (buffer p) = rest.

Lemma sees_start b : sees (mkRP b 0) b.
Proof. unfold sees, rlen. cbn. split_and!; [lia|lia|done]. Qed.

Lemma sees_skip p a rest : sees p (a ++ rest) -> sees (mkRP (buffer p) (rpos p + Z.of_nat (length a))) rest.
Proof.
  intros (H0 & H1 & H2). unfold sees, rlen in *. cbn. rewrite length_app in H1. split_and!; [lia|lia|].
  rewrite Z2Nat.inj_add, Nat2Z.id by lia. rewrite <- drop_drop, H2. apply drop_app_length.
Qed.

Lemma wp_done P p rest (Q : result bool AmlParseError -> RParser -> Prop) :
  sees p rest -> Q (Ok (bool_decide (rest = []))) p -> wp P get_is_done p Q.
Proof.
  intros (H0 & H1 & _) HQ. unfold get_is_done. wp_step. wp_step. wp_step. unfold is_done.
  replace (rlen p <=? rpos p) with (bool_decide (rest = [])); [done|].
  destruct rest; cbn in H1.
  - rewrite (proj2 (Z.leb_le _ _)) by lia. done.
  - rewrite (proj2 (Z.leb_gt _ _)) by lia. done.
Qed.

Section reading.
Context (P : Prop) (p : RParser).

Lemma wp_byte b rest (Q : result Z AmlParseError -> RParser -> Prop) :
  sees p (b :: rest) -> (forall p', sees p' rest -> Q (Ok b) p') -> wp P get_next_byte p Q.
Proof.
  intros Hs HQ. pose proof (sees_skip p [b] rest Hs) as Hn. destruct Hs as (H0 & H1 & H2). cbn in H1.
  unfold get_next_byte. wp_step. wp_step. rewrite (proj2 (Z.leb_gt _ _)) by lia. wp_step.
  eapply wp_lift_ret.
  { assert (E : drop (Z.to_nat (rpos p)) (buffer p) !! 0%nat = Some b) by by rewrite H2. rewrite lookup_drop, Nat.add_0_r in E.
    rewrite E. done. }
  wp_steps. apply HQ. exact Hn.
Qed.
End reading.

Lemma wp_bytes P l : forall p rest (Q : result bytes AmlParseError -> RParser -> Prop),
  sees p (l ++ rest) -> (forall p', sees p' rest -> Q (Ok l) p') -> wp P (get_bytes (length l)) p Q.
Proof.
  induction l as [|b l IH]; intros p rest Q Hs HQ; cbn [length get_bytes].
  - wp_step. by apply HQ.
  - apply wp_ebind. eapply wp_byte; [exact Hs|]. intros p1 H1. apply wp_ebind. eapply IH; [exact H1|]. intros p2 H2. wp_step. by apply HQ.
Qed.

Lemma u16_of_bytes v : fits 2 v -> Z.lor (Z.shiftl (v / 256 mod 256) 8) (v mod 256) = v.
Proof.
  intros Hv. unfold fits in Hv. change (256 ^ Z.of_nat 2) with 65536 in Hv.
  rewrite Z.mod_small by (split; [apply Z.div_pos; lia|apply Z.div_lt_upper_bound; lia]).
  rewrite Z.lor_comm, lor_shiftl_add; [|lia|by apply Z.mod_pos_bound|apply Z.div_pos; lia].
  change (2 ^ 8) with 256. rewrite (Z.div_mod v 256) at 3; lia.
Qed.

Section numbers.
Context (P : Prop) (p : RParser) (v : Z) (rest : bytes) (Q : result Z AmlParseError -> RParser -> Prop).
Hypothesis HQ : forall p', sees p' rest -> Q (Ok v) p'.

Lemma wp_u16 : fits 2 v -> sees p (le 2 v ++ rest) -> wp P get_next_u16 p Q.
Proof.
  intros Hv Hs. cbn [le app] in Hs. unfold get_next_u16. apply wp_ebind. eapply wp_byte; [exact Hs|]. intros p1 H1.
  apply wp_ebind. eapply wp_byte; [exact H1|]. intros p2 H2. wp_step. rewrite u16_of_bytes by done. by apply HQ.
Qed.

Lemma wp_le n : fits n v -> sees p (le n v ++ rest) -> wp P (b ←? get_bytes n; mret (Ok (from_le b))) p Q.
Proof.
  intros Hv Hs. apply wp_ebind. rewrite <- (length_le n v). eapply wp_bytes; [exact Hs|]. intros p' H'. wp_step.
  rewrite from_le_le by exact Hv. by apply HQ.
Qed.
Lemma wp_u32 : fits 4 v -> sees p (le 4 v ++ rest) -> wp P get_next_u32 p Q.
Proof. apply wp_le. Qed.
Lemma wp_u64 : fits 8 v -> sees p (le 8 v ++ rest) -> wp P get_next_u64 p Q.
Proof. apply wp_le. Qed.
End numbers.

(** ** The encoding *)
Definition source_bytes (s : ResourceSource) : bytes :=
  match index s with Some i => [i] | None => [] end ++ default [] (source s).
Definition source_ok (s : ResourceSource) : Prop :=
  match index s, source s with
  | Some i, Some b => is_byte i /\ b <> []
  | Some i, None => is_byte i
  | None, None => True
  | None, Some _ => False
  end.
(** what the reader keeps of a source: the name is lost *)
Definition source_kept (s : ResourceSource) : ResourceSource := mkSource (index s) ((fun _ => []) <$> source s).

Definition b2z (b : bool) : Z := if b then 1 else 0.

Definition space_ty_bytes (t : AddressSpaceType) : Z * Z :=
  match t with
  | MemorySpace rw ty r tr =>
      (0, b2z rw + 2 * match ty with NonCacheable => 0 | Cacheable => 1 | WriteCombining => 2 | Prefetchable => 3 end
          + 8 * match r with AddressRangeMemory => 0 | AddressRangeReserved => 1 | AddressRangeACPI => 2 | AddressRangeNVS => 3 end
          + 32 * b2z tr)
  | IoSpace tr r sp => (1, match r with NonISAOnlyRanges => 1 | ISAOnlyRanges => 2 | EntireRange => 3 end + 16 * b2z tr + 32 * b2z sp)
  | BusNumber => (2, 0)
  | VendorDefined v f => (v, f)
  end.
Definition space_ty_ok (w : AddressWidth) (t : AddressSpaceType) : Prop :=
  match t with BusNumber => w = U16 | VendorDefined v f => 192 <= v <= 255 /\ is_byte f | _ => True end.

Definition space_nums (s : AddressSpace) : list Z := [granularity s; min s; max s; translation_offset s; sp_len s].
Definition nbytes (w : AddressWidth) : nat := match w with U16 => 2 | U32 => 4 | U64 => 8 end.
Definition space_head (s : AddressSpace) : bytes :=
  let t := space_ty_bytes (sp_ty s) in
  [fst t; b2z (is_consumer s) + 2 * b2z (is_subtract_decode s) + 4 * b2z (is_min_fixed s) + 8 * b2z (is_max_fixed s); snd t].
Definition space_body (w : AddressWidth) (s : AddressSpace) : bytes := concat (le (nbytes w) <$> space_nums s).
Definition space_bytes (w : AddressWidth) (s : AddressSpace) : bytes :=
  space_head s ++
  match extra s with
  | SourceExtra r => space_body w s ++ source_bytes r
  | TypeSpecificAttrs v => [1; 0] ++ space_body w s ++ le 8 v
  end.
Definition space_ok (w : AddressWidth) (s : AddressSpace) : Prop :=
  space_ty_ok w (sp_ty s) /\ Forall (fits (nbytes w)) (space_nums s).
Definition plain_ok (w : AddressWidth) (s : AddressSpace) : Prop :=
  space_ok w s /\ match extra s with SourceExtra r => source_ok r | _ => False end.
Definition extended_ok (s : AddressSpace) : Prop :=
  space_ok U64 s /\ match extra s with TypeSpecificAttrs v => fits 8 v | _ => False end.
Definition space_kept (s : AddressSpace) : AddressSpace :=
  mkSpace (sp_ty s) (is_consumer s) (is_max_fixed s) (is_min_fixed s) (is_subtract_decode s)
    (granularity s) (min s) (max s) (translation_offset s) (sp_len s)
    (match extra s with SourceExtra r => SourceExtra (source_kept r) | e => e end).

Definition large (tag : Z) (body : bytes) : bytes := 0x80 + tag :: le 2 (Z.of_nat (length body)) ++ body.

Definition region_byte (r : RegionSpace) : Z :=
  match r with
  | SystemMemory => 0 | SystemIO => 1 | PCI_Config => 2 | EmbeddedControl => 3 | SMBus => 4 | SystemCMOS => 5 | PciBarTarget => 6
  | IPMI => 7 | GeneralPurposeIO => 8 | GenericSerialBus => 9 | PCC => 10 | FFixedHW => 0x7F | OtherSpace b => b
  end.
Definition access_byte (a : AccessType) : Z :=
  match a with AtAny => 0 | AtByte => 1 | AtWord => 2 | AtDWord => 3 | AtQWord => 4 | AtBuffer => 5 end.

(** the bytes behind the length of a large item *)
Definition large_item (m : ResourceMacro) : option (Z * bytes) :=
  match m with
  | Memory24 rw lo hi a l => Some (1, b2z rw :: le 2 (lo / 256) ++ le 2 (hi / 256) ++ le 2 a ++ le 2 l)
  | Register sp w o ad ac => Some (2, [region_byte sp; w; o; access_byte ac] ++ le 8 ad)
  | VendorLarge d => Some (4, d)
  | Memory32 rw lo hi a l => Some (5, b2z rw :: le 4 lo ++ le 4 hi ++ le 4 a ++ le 4 l)
  | Memory32Fixed rw b l => Some (6, b2z rw :: le 4 b ++ le 4 l)
  | AddressSpaceDWord s => Some (7, space_bytes U32 s)
  | AddressSpaceWord s => Some (8, space_bytes U16 s)
  | Interrupt c e l sh w irqs r =>
      Some (9, [b2z c + 2 * b2z e + 4 * b2z l + 8 * b2z sh + 16 * b2z w; Z.of_nat (length irqs)] ++ concat (le 4 <$> irqs) ++ source_bytes r)
  | AddressSpaceQWord s => Some (10, space_bytes U64 s)
  | AddressSpaceExtended s => Some (11, space_bytes U64 s)
  | _ => None
  end.
Definition small_item (m : ResourceMacro) : bytes :=
  match m with
  | Irq w sh l e mask => 0x23 :: le 2 mask ++ [b2z e + 8 * b2z l + 16 * b2z sh + 32 * b2z w]
  | Dma s bm t ch =>
      [0x2A; ch; match t with Transfer8 => 0 | Transfer8_16 => 1 | Transfer16 => 2 end + 4 * b2z bm
                 + 32 * match s with Compatibility => 0 | TypeA => 1 | TypeB => 2 | TypeF => 3 end]
  | StartDependentFunctions c p => [0x31; c + 4 * p]
  | EndDependentFunctions => [0x38]
  | Io d lo hi a l => [0x47; b2z d] ++ le 2 lo ++ le 2 hi ++ [a; l]
  | FixedIo b l => 0x4B :: le 2 b ++ [l]
  | FixedDma r c w => 0x55 :: le 2 r ++ le 2 c ++
      [match w with Width8Bit => 0 | Width16Bit => 1 | Width32Bit => 2 | Width64Bit => 3 | Width128Bit => 4 | Width256Bit => 5 end]
  | VendorShort d l => 0x70 + l :: take (Z.to_nat l) d
  | _ => []
  end.
Definition item_bytes (m : ResourceMacro) : bytes :=
  match large_item m with Some (tag, body) => large tag body | None => small_item m end.

(** the values an item can carry; short vendor items are not read back
    ([vendor_short_misread]) *)
Definition item_ok (m : ResourceMacro) : Prop :=
  match m with
  | Irq _ _ _ _ mask => fits 2 mask
  | Dma _ _ _ ch => is_byte ch
  | StartDependentFunctions c p => 0 <= c < 4 /\ 0 <= p < 4
  | EndDependentFunctions => True
  | Io _ lo hi a l => fits 2 lo /\ fits 2 hi /\ is_byte a /\ is_byte l
  | FixedIo b l => 0 <= b < 0x400 /\ is_byte l
  | FixedDma r c _ => fits 2 r /\ fits 2 c
  | VendorShort _ _ => False
  | VendorLarge d => d <> []
  | Memory24 _ lo hi a l => lo mod 256 = 0 /\ hi mod 256 = 0 /\ fits 2 (lo / 256) /\ fits 2 (hi / 256) /\ fits 2 a /\ fits 2 l
  | Memory32Fixed _ b l => fits 4 b /\ fits 4 l
  | Memory32 _ lo hi a l => fits 4 lo /\ fits 4 hi /\ fits 4 a /\ fits 4 l
  | Interrupt _ _ _ _ _ irqs r => (0 < length irqs)%nat /\ fits 1 (Z.of_nat (length irqs)) /\ Forall (fits 4) irqs /\ source_ok r
  | Register sp w o ad ac => match sp with OtherSpace _ => False | _ => True end /\ fits 8 ad /\ ac <> AtBuffer
  | AddressSpaceWord s => plain_ok U16 s
  | AddressSpaceDWord s => plain_ok U32 s
  | AddressSpaceQWord s => plain_ok U64 s
  | AddressSpaceExtended s => extended_ok s
  end /\ match large_item m with Some (_, body) => fits 2 (Z.of_nat (length body)) | None => True end.

(** what the reader returns for it *)
Definition item_kept (m : ResourceMacro) : ResourceMacro :=
  match m with
  | VendorLarge _ => VendorLarge []
  | Interrupt c e l sh w irqs r => Interrupt c e l sh w irqs (source_kept r)
  | AddressSpaceWord s => AddressSpaceWord (space_kept s)
  | AddressSpaceDWord s => AddressSpaceDWord (space_kept s)
  | AddressSpaceQWord s => AddressSpaceQWord (space_kept s)
  | AddressSpaceExtended s => AddressSpaceExtended (space_kept s)
  | m => m
  end.

(** ** Reading items back *)
(** step over the next read of a reader whose bytes are known *)
Ltac rd :=
  apply wp_ebind;
  lazymatch goal with
  | H : sees ?p _ |- wp _ get_next_byte ?p _ => eapply wp_byte; [exact H|]
  | H : sees ?p _ |- wp _ get_next_u16 ?p _ => eapply wp_u16; [| |exact H]; [|by eauto]
  | H : sees ?p _ |- wp _ get_next_u32 ?p _ => eapply wp_u32; [| |exact H]; [|by eauto]
  | H : sees ?p _ |- wp _ get_next_u64 ?p _ => eapply wp_u64; [| |exact H]; [|by eauto]
  | H : sees ?p _ |- wp _ get_is_done ?p _ => eapply wp_done; [exact H|];
      try first [rewrite bool_decide_true by done|rewrite bool_decide_false by done]; cbn [negb]
  | |- wp _ (mret _) _ _ => wp_step
  end;
  try match goal with H : sees ?p _ |- forall p', sees p' _ -> _ => clear H; let q := fresh "p" in intros q H end;
  cbn beta iota.

Lemma wp_remaining P p rest (Q : result bytes AmlParseError -> RParser -> Prop) :
  sees p rest -> rest <> [] -> (forall p', sees p' [] -> Q (Ok []) p') -> wp P get_remaining_data p Q.
Proof.
  intros Hs Hne HQ. pose proof Hs as (H0 & H1 & H2). destruct rest as [|b rest]; [done|]. cbn in H1. unfold get_remaining_data. wp_step. wp_step.
  rewrite (proj2 (Z.leb_gt _ _)) by lia. wp_steps. replace (drop _ _) with (@nil Z).
  - apply HQ. unfold sees, rlen in *. cbn. split_and!; [lia|lia|]. rewrite Nat2Z.id. apply drop_ge. lia.
  - unfold rlen. rewrite Nat2Z.id. symmetry. by apply drop_ge.
Qed.

Lemma wp_source P p r (Q : result ResourceSource AmlParseError -> RParser -> Prop) : source_ok r -> sees p (source_bytes r) ->
  (forall p', sees p' [] -> Q (Ok (source_kept r)) p') -> wp P source_parse p Q.
Proof.
  destruct r as [[i|] [b|]]; unfold source_ok, source_bytes, source_kept; cbn [index source app default]; intros Ho Hs HQ; [| |done|].
  - destruct Ho as [_ Hb]. unfold source_parse. rd. apply wp_ebind. rd. wp_step. rd.
    apply wp_ebind. apply wp_ebind. eapply wp_remaining; [exact Hs|done|]. intros p' H'. wp_steps. by apply HQ.
  - unfold source_parse. rd. apply wp_ebind. rd. wp_step. rd. rd. wp_step. by apply HQ.
  - unfold source_parse. rd. rd. rd. rd. wp_step. by apply HQ.
Qed.

Lemma space_type_ok w t : space_ty_ok w t ->
  space_type_parse w (fst (space_ty_bytes t)) (snd (space_ty_bytes t)) = Ret (Ok t).
Proof.
  destruct t as [rw ty r tr|tr r sp| |v f]; cbn [space_ty_ok space_ty_bytes fst snd].
  - intros _. by destruct rw, ty, r, tr.
  - intros _. by destruct tr, r, sp.
  - by intros ->.
  - intros [Hv Hf]. unfold space_type_parse. rewrite (proj2 (Z.eqb_neq v 0)), (proj2 (Z.eqb_neq v 1)), (proj2 (Z.eqb_neq v 2)) by lia.
    rewrite andb_false_r. by rewrite (proj2 (Z.leb_le 192 v)), (proj2 (Z.leb_le v 255)) by lia.
Qed.

Lemma wp_head P w s p rest (Q : result (AddressSpaceType * bool * bool * bool * bool) AmlParseError -> RParser -> Prop) :
  space_ty_ok w (sp_ty s) -> sees p (space_head s ++ rest) ->
  (forall p', sees p' rest -> Q (Ok (sp_ty s, is_consumer s, is_max_fixed s, is_min_fixed s, is_subtract_decode s)) p') ->
  wp P (parse_start_flags w) p Q.
Proof.
  intros Ht Hs HQ. unfold space_head in Hs. cbn [app] in Hs. unfold parse_start_flags. rd. rd. rd.
  apply wp_ebind. eapply wp_lift_ret; [by apply space_type_ok|]. cbn beta iota. wp_step. specialize (HQ _ Hs). destruct s as [t c mx mn sd].
  cbn [is_consumer is_subtract_decode is_min_fixed is_max_fixed sp_ty] in *. by destruct c, mx, mn, sd.
Qed.

Lemma wp_num P w v p rest (Q : result Z AmlParseError -> RParser -> Prop) : fits (nbytes w) v -> sees p (le (nbytes w) v ++ rest) ->
  (forall p', sees p' rest -> Q (Ok v) p') -> wp P (from_parser w) p Q.
Proof. intros Hv Hs HQ. destruct w; [eapply wp_u16|eapply wp_u32|eapply wp_u64]; eauto. Qed.

Lemma wp_nums P w s p rest (Q : result (Z * Z * Z * Z * Z) AmlParseError -> RParser -> Prop) :
  Forall (fits (nbytes w)) (space_nums s) -> sees p (space_body w s ++ rest) ->
  (forall p', sees p' rest -> Q (Ok (granularity s, min s, max s, translation_offset s, sp_len s)) p') ->
  wp P (parse_address_ranges_nums w) p Q.
Proof.
  intros Hf Hs HQ. unfold space_body, space_nums in *. cbn [fmap list_fmap concat] in Hs. rewrite app_nil_r, <- !app_assoc in Hs.
  decompose_Forall. unfold parse_address_ranges_nums.
  do 5 (apply wp_ebind; eapply wp_num; [|exact Hs|]; [eassumption|]; clear Hs; let q := fresh "p" in intros q Hs).
  wp_step. by apply HQ.
Qed.

Lemma wp_space P w s p (Q : result AddressSpace AmlParseError -> RParser -> Prop) : plain_ok w s -> sees p (space_bytes w s) ->
  (forall p', sees p' [] -> Q (Ok (space_kept s)) p') -> wp P (space_parse w) p Q.
Proof.
  intros [[Ht Hn] He] Hs HQ. unfold space_bytes in Hs. destruct (extra s) as [r|] eqn:E; [|done]. unfold space_parse.
  apply wp_ebind. eapply wp_head; [exact Ht|exact Hs|]. intros p1 H1. apply wp_ebind. eapply wp_nums; [exact Hn|exact H1|]. intros p2 H2.
  apply wp_ebind. eapply wp_source; [exact He|exact H2|]. intros p3 H3. wp_step. specialize (HQ _ H3). unfold space_kept in HQ. by rewrite E in HQ.
Qed.

Lemma wp_extended P s p (Q : result AddressSpace AmlParseError -> RParser -> Prop) : extended_ok s -> sees p (space_bytes U64 s) ->
  (forall p', sees p' [] -> Q (Ok (space_kept s)) p') -> wp P (space_parse_extended U64) p Q.
Proof.
  intros [[Ht Hn] He] Hs HQ. unfold space_bytes in Hs. destruct (extra s) as [|v] eqn:E; [done|]. unfold space_parse_extended.
  wp_step. apply wp_assert; [done|]. apply wp_ebind. eapply wp_head; [exact Ht|exact Hs|]. clear Hs. intros p1 Hs. cbn [app] in Hs. rd.
  wp_step. apply wp_assert; [done|]. rd. cbn [negb Z.eqb].
  apply wp_ebind. eapply wp_nums; [exact Hn|exact Hs|]. clear Hs. intros p3 Hs. rewrite <- (app_nil_r (le 8 v)) in Hs. rd. wp_step.
  specialize (HQ _ Hs). unfold space_kept in HQ. by rewrite E in HQ.
Qed.

Lemma wp_u32s P irqs : forall p rest (Q : result (list Z) AmlParseError -> RParser -> Prop), Forall (fits 4) irqs ->
  sees p (concat (le 4 <$> irqs) ++ rest) -> (forall p', sees p' rest -> Q (Ok irqs) p') -> wp P (get_u32s (length irqs)) p Q.
Proof.
  induction irqs as [|v irqs IH]; intros p rest Q Hf Hs HQ; cbn [length get_u32s fmap list_fmap concat] in *.
  - wp_step. by apply HQ.
  - apply Forall_cons in Hf as [Hv Hf]. rewrite <- app_assoc in Hs. rd. apply wp_ebind. eapply IH; [done|exact Hs|]. intros p' H'. wp_step. by apply HQ.
Qed.

(** ** Large items *)
Lemma length_space_body w s : length (space_body w s) = (5 * nbytes w)%nat.
Proof. unfold space_body, space_nums. cbn. rewrite !length_app, !length_le. cbn. lia. Qed.

Lemma wp_parse_space P low n m k s p (Q : result (option ResourceMacro) AmlParseError -> RParser -> Prop) : low <= n ->
  wp P m p (fun r p' => r = Ok s /\ sees p' []) -> (forall p', sees p' [] -> Q (Ok (Some (k s))) p') -> wp P (parse_space low n m k) p Q.
Proof.
  intros Hn Hm HQ. unfold parse_space. wp_step. wp_step. apply wp_ebind. eapply wp_mono; [exact Hm|]. cbn beta. intros r p' [-> H'].
  unfold some. wp_step. by apply HQ.
Qed.

Lemma bit0 b : (Z.land (b2z b) 1 =? 1) = b.
Proof. by destruct b. Qed.

(** the length of a body of known shape *)
Ltac body_length :=
  lazymatch goal with |- (_ <=? _) = true => apply Z.leb_le | |- (_ =? _) = true => apply Z.eqb_eq | _ => idtac end; unfold space_head; cbn [length app]; rewrite ?length_app, ?length_le, ?length_space_body;
  cbn [length nbytes]; rewrite ?length_app, ?length_le, ?length_space_body; cbn [nbytes]; lia.

(** the shape of the bytes of an item, ready to be read *)
Ltac shape Hs := rewrite ?app_nil_r, <- ?app_assoc in Hs; cbn [app] in Hs.

Lemma wp_large P m tag body p (Q : result (option ResourceMacro) AmlParseError -> RParser -> Prop) :
  item_ok m -> large_item m = Some (tag, body) -> sees p (body ++ []) ->
  (forall p', sees p' [] -> Q (Ok (Some (item_kept m))) p') -> wp P (parse_large_item tag (Z.of_nat (length body))) p Q.
Proof.
  intros [Ho Hb] E Hs HQ. rewrite E in Hb. destruct m; try done; cbn [large_item item_kept] in *; simplify_eq; rewrite <- ?app_assoc in Hs.
  - change (parse_large_item 4) with (fun _ : Z => data ←? get_remaining_data; some (VendorLarge data)). cbn beta. apply wp_ebind.
    rewrite app_nil_r in Hs. eapply wp_remaining; [exact Hs|done|]. intros p' H'. unfold some. wp_step. by apply HQ.
  - destruct Ho as (Hl & Hh & Fl & Fh & Fa & Fn). change (parse_large_item 1) with parse_memory24. unfold parse_memory24.
    wp_step. apply wp_assert; [body_length|]. cbn [app] in Hs. rewrite <- !app_assoc in Hs. do 5 rd. unfold some. wp_step.
    rewrite bit0, !Z.shiftl_mul_pow2 by lia. change (2 ^ 8) with 256.
    replace (min_addr / 256 * 256) with min_addr by dlia. replace (max_addr / 256 * 256) with max_addr by dlia. by apply HQ.
  - destruct Ho as (Fb & Fl). change (parse_large_item 6) with parse_memory32_fixed. unfold parse_memory32_fixed.
    wp_step. apply wp_assert; [body_length|]. cbn [app] in Hs. rewrite <- !app_assoc in Hs. do 3 rd. unfold some. wp_step. rewrite bit0. by apply HQ.
  - destruct Ho as (Fl & Fh & Fa & Fn). change (parse_large_item 5) with parse_memory32. unfold parse_memory32.
    wp_step. apply wp_assert; [body_length|]. cbn [app] in Hs. rewrite <- !app_assoc in Hs. do 5 rd. unfold some. wp_step. rewrite bit0. by apply HQ.
  - destruct Ho as (Hn & F1 & Fi & Fr). change (parse_large_item 9) with parse_interrupt. unfold parse_interrupt.
    wp_step. apply wp_assert.
    { destruct interrupts as [|v irqs]; [cbn in Hn; lia|]. cbn [fmap list_fmap concat]. body_length. }
    cbn [app] in Hs. rewrite app_nil_r in Hs. rd. rd. apply wp_ebind. rewrite Nat2Z.id. eapply wp_u32s; [exact Fi|exact Hs|]. clear Hs. intros p2 Hs.
    apply wp_ebind. eapply wp_source; [exact Fr|exact Hs|]. intros p3 H3. unfold some. wp_step. specialize (HQ _ H3).
    by destruct consumer, edge_triggered, active_low, is_shared, wake_capable.
  - destruct Ho as (Hsp & Fa & Hac). change (parse_large_item 2) with parse_register. unfold parse_register.
    wp_step. apply wp_assert; [body_length|]. cbn [app] in Hs. rd. apply wp_ebind. wp_step.
    replace (match region_space_from (region_byte address_space) with OtherSpace other => if other =? 127 then Ok FFixedHW else Err ReservedFieldSet | s => Ok s end)
      with (@Ok _ AmlParseError address_space) by by destruct address_space.
    rd. rd. rd. apply wp_ebind. wp_step.
    replace (access_type_try_from (access_byte access_size)) with (@Ok _ AmlParseError access_size) by by destruct access_size.
    rd. unfold some. destruct access_size; [wp_step; by apply HQ..|done].
  - eapply (wp_parse_space _ 13); [|eapply wp_space; [exact Ho|by rewrite app_nil_r in Hs|eauto]|exact HQ].
    destruct Ho as [_ He]. unfold space_bytes. destruct (extra s); [|done]. body_length.
  - eapply (wp_parse_space _ 23); [|eapply wp_space; [exact Ho|by rewrite app_nil_r in Hs|eauto]|exact HQ].
    destruct Ho as [_ He]. unfold space_bytes. destruct (extra s); [|done]. body_length.
  - eapply (wp_parse_space _ 43); [|eapply wp_space; [exact Ho|by rewrite app_nil_r in Hs|eauto]|exact HQ].
    destruct Ho as [_ He]. unfold space_bytes. destruct (extra s); [|done]. body_length.
  - eapply (wp_parse_space _ 53); [|eapply wp_extended; [exact Ho|by rewrite app_nil_r in Hs|eauto]|exact HQ].
    destruct Ho as [_ He]. unfold space_bytes. destruct (extra s); [done|]. body_length.
Qed.

(** ** Small items *)
Lemma wp_small P m p rest (Q : result (option ResourceMacro) AmlParseError -> RParser -> Prop) :
  item_ok m -> large_item m = None -> sees p (small_item m ++ rest) ->
  (forall p', sees p' rest -> Q (Ok (Some m)) p') -> wp P try_parse_item p Q.
Proof.
  intros [Ho _] E Hs HQ. unfold try_parse_item. destruct m; try done; cbn [small_item app] in Hs; rewrite <- ?app_assoc in Hs; rd; apply wp_ebind.
  - change (try_parse_small_resource 0x23) with (parse_irq 0x23). unfold parse_irq. rd. cbn [app] in Hs. rd. specialize (HQ _ Hs).
    by destruct wake_capable, is_shared, active_low, edge_triggered.
  - change (try_parse_small_resource 0x2A) with parse_dma. unfold parse_dma. rd. rd. specialize (HQ _ Hs).
    by destruct speed_ty, is_bus_master, transfer_type.
  - change (try_parse_small_resource 0x31) with (parse_start_dependent 0x31). unfold parse_start_dependent. rd. specialize (HQ _ Hs). destruct Ho as [Hc Hp].
    assert (compatibility_priority = 0 \/ compatibility_priority = 1 \/ compatibility_priority = 2 \/ compatibility_priority = 3) as Ec by lia.
    assert (performance_priority = 0 \/ performance_priority = 1 \/ performance_priority = 2 \/ performance_priority = 3) as Ep by lia.
    by destruct Ec as [->|[->|[->| ->]]], Ep as [->|[->|[->| ->]]].
  - by apply HQ.
  - change (try_parse_small_resource 0x47) with parse_io. unfold parse_io. destruct Ho as (Fl & Fh & _). rd. rd. rd. cbn [app] in Hs. rd. rd.
    unfold some. wp_steps. rewrite bit0. by apply HQ.
  - change (try_parse_small_resource 0x4B) with (b ←? get_next_u16; l ←? get_next_byte; some (FixedIo (Z.land b 0x3FF) l)). destruct Ho as [Hb _].
    assert (fits 2 base) by (unfold fits; cbn; lia). rd. cbn [app] in Hs. rd. unfold some. wp_steps. change 0x3FF with (Z.ones 10).
    rewrite Z.land_ones by lia. rewrite Z.mod_small by lia. by apply HQ.
  - change (try_parse_small_resource 0x55) with parse_fixed_dma. unfold parse_fixed_dma. destruct Ho as [Fr Fc]. rd. rd. cbn [app] in Hs. rd. specialize (HQ _ Hs).
    by destruct transfer_width.
Qed.

(** ** Items and templates *)
Lemma large_tags m tag body : large_item m = Some (tag, body) -> 1 <= tag <= 11 /\ try_parse_small_resource (0x80 + tag) = mret (Ok None) /\
  (Z.land (0x80 + tag) 0x80 =? 0x80) = true /\ Z.land (0x80 + tag) 0x7F = tag.
Proof. destruct m; cbn [large_item]; intros [= <- _]; (split; [lia|done]). Qed.

Lemma wp_get_inner P a rest p (Q : result RParser AmlParseError -> RParser -> Prop) : sees p (a ++ rest) ->
  (forall p', sees p' rest -> Q (Ok (mkRP a 0)) p') -> wp P (get_inner (Z.of_nat (length a))) p Q.
Proof.
  intros Hs HQ. pose proof (sees_skip _ _ _ Hs) as Hn. destruct Hs as (H0 & H1 & H2). rewrite length_app in H1. unfold get_inner. wp_step. wp_step.
  rewrite (proj2 (Z.ltb_ge _ _)) by lia. wp_steps. rewrite H2, Nat2Z.id, take_app_length. by apply HQ.
Qed.

Lemma wp_inside P {A} inner (m : ST RParser (result A AmlParseError)) p Q :
  wp P m inner (fun a _ => Q a p) -> wp P (inside inner m) p Q.
Proof. unfold wp, inside. by destruct (m inner) as [[a s]| |]. Qed.

Lemma wp_item P m p rest (Q : result (option ResourceMacro) AmlParseError -> RParser -> Prop) :
  item_ok m -> sees p (item_bytes m ++ rest) -> (forall p', sees p' rest -> Q (Ok (Some (item_kept m))) p') -> wp P try_parse_item p Q.
Proof.
  intros Ho Hs HQ. unfold item_bytes in Hs. destruct (large_item m) as [[tag body]|] eqn:E.
  - destruct (large_tags _ _ _ E) as (_ & E1 & E2 & E3). unfold large in Hs. cbn [app] in Hs. rewrite <- app_assoc in Hs. unfold try_parse_item. rd.
    apply wp_ebind. rewrite E1. wp_step. unfold try_parse_large_resource. rewrite E2, E3. cbn [negb].
    assert (Hb : fits 2 (Z.of_nat (length body))) by (destruct Ho as [_ Hb]; by rewrite E in Hb). rd.
    apply wp_ebind. eapply wp_get_inner; [exact Hs|]. intros p' H'. apply wp_inside. apply wp_ebind.
    eapply wp_large; [exact Ho|exact E|rewrite app_nil_r; apply sees_start|]. clear Hs. intros q Hs. rd. wp_step. by apply HQ.
  - eapply wp_small; [exact Ho|exact E|exact Hs|]. intros p' H'. specialize (HQ _ H'). by destruct m.
Qed.

Lemma wp_items P ms : forall fuel p (Q : result (option (list ResourceMacro)) AmlParseError -> RParser -> Prop), Forall item_ok ms ->
  sees p (concat (item_bytes <$> ms)) -> (length ms < fuel)%nat ->
  (forall p', Q (Ok (Some (item_kept <$> ms))) p') -> wp P (items_loop fuel) p Q.
Proof.
  induction ms as [|m ms IH]; intros [|fuel] p Q Ho Hs Hf HQ; cbn [length] in Hf; try lia; cbn [items_loop fmap list_fmap concat] in *.
  - rd. by apply HQ.
  - apply Forall_cons in Ho as [Hm Ho]. apply wp_ebind. eapply wp_done; [exact Hs|]. rewrite bool_decide_false.
    2:{ unfold item_bytes, large. destruct m; done. }
    apply wp_ebind. eapply wp_item; [exact Hm|exact Hs|]. intros p' H'. apply wp_ebind. eapply IH; [done|exact H'|lia|]. intros p2. wp_step. apply HQ.
Qed.

Lemma item_bytes_nonempty m : (1 <= length (item_bytes m))%nat.
Proof. unfold item_bytes, large. destruct m; cbn; lia. Qed.

(** C25: A buffer that holds items, encoded as the ACPI specification lays them
    out, the end tag and a checksum (or zero in its place) is recognised as a
    resource template and read back item by item: items of every kind but the
    short vendor ones.  Of every item all is kept but the data of large
    vendor items and the names of resource sources, which come back empty. *)
Theorem resource_template_decodes ms checksum : Forall item_ok ms ->
  (checksum = 0 \/ sum8 (concat (item_bytes <$> ms) ++ [END_TAG_FULL; checksum]) = 0) ->
  try_parse_buffer (concat (item_bytes <$> ms) ++ [END_TAG_FULL; checksum]) = Ret (Ok (Some (item_kept <$> ms))).
Proof.
  intros Ho Hc. set (body := concat (item_bytes <$> ms)) in *. unfold try_parse_buffer. rewrite length_app. cbn [length].
  rewrite (proj2 (Z.ltb_ge _ 2)) by lia. replace (length body + 2 - 2)%nat with (length body) by lia.
  rewrite list_lookup_middle by done. rewrite (bool_decide_true (Some _ = _)) by done. cbn [negb orb].
  assert (Hlast : last (body ++ [END_TAG_FULL; checksum]) = Some checksum).
  { change [END_TAG_FULL; checksum] with ([END_TAG_FULL] ++ [checksum]). by rewrite app_assoc, last_snoc. }
  assert (Hd : negb (sum8 (body ++ [END_TAG_FULL; checksum]) =? 0) && negb (bool_decide (last (body ++ [END_TAG_FULL; checksum]) = Some 0)) = false).
  { rewrite Hlast. destruct Hc as [->|Hc]; [by rewrite bool_decide_true, andb_false_r|]. by rewrite Hc. }
  rewrite Hd, take_app_length.
  assert (Hn : (length ms <= length body)%nat).
  { unfold body. clear. induction ms as [|m ms IH]; cbn; [lia|]. rewrite length_app. pose proof (item_bytes_nonempty m). lia. }
  pose proof (wp_items False ms (S (length body)) (mkRP body 0) (fun r _ => r = Ok (Some (item_kept <$> ms))) Ho (sees_start body) ltac:(lia) ltac:(done)) as Hw.
  apply wp_total in Hw as (r & p' & -> & ->). done.
Qed.

(** ** Termination on any bytes *)
(** a computation that ends, however it ends, and never moves back *)
Definition advances {A} (m : ST RParser (result A AmlParseError)) : Prop :=
  forall p, wp True m p (fun _ p' => buffer p' = buffer p /\ rpos p <= rpos p').

Section advances.
Context {A B : Type}.
Implicit Types (m : ST RParser (result A AmlParseError)) (k : A -> ST RParser (result B AmlParseError)).

Lemma adv_bind m k : advances m -> (forall a, advances (k a)) -> advances (m ≫= fun r => match r with Ok a => k a | Err e => mret (Err e) end).
Proof.
  intros Hm Hk p. apply wp_bind. eapply wp_mono; [apply Hm|]. intros [a|e] p' [E1 E2]; cbn beta iota.
  - eapply wp_mono; [apply Hk|]. intros _ p'' [E3 E4]. split; [congruence|lia].
  - by wp_step.
Qed.
Lemma adv_ret (r : result A AmlParseError) : advances (mret r).
Proof. intros p. wp_step. split; [done|lia]. Qed.
Lemma adv_lift {C} (o : outcome C) (k : C -> ST RParser (result B AmlParseError)) :
  o <> Diverge -> (forall c, advances (k c)) -> advances (c ← lift o; k c).
Proof. intros Ho Hk p. destruct o; [|done..]. apply (Hk a p). Qed.
Lemma adv_lift_res (o : outcome (result A AmlParseError)) : o <> Diverge -> advances (lift o).
Proof. intros Ho p. destruct o; [|done..]. split; [done|lia]. Qed.
Lemma adv_inside inner m : advances m -> advances (inside inner m).
Proof. intros Hm p. apply wp_inside. eapply wp_mono; [apply Hm|]. intros; split; [done|lia]. Qed.
Lemma adv_if (b : bool) (m1 m2 : ST RParser (result A AmlParseError)) : advances m1 -> advances m2 -> advances (if b then m1 else m2).
Proof. by destruct b. Qed.
End advances.

Lemma adv_byte : advances get_next_byte.
Proof.
  intros p. unfold get_next_byte. wp_step. wp_step. case_match; [wp_step; split; [done|lia]|]. wp_step.
  destruct (buffer p !! Z.to_nat (rpos p)); [|done]. eapply wp_lift_ret; [done|]. wp_steps. cbn. split; [done|lia].
Qed.
Lemma adv_done : advances get_is_done.
Proof. intros p. split; [done|lia]. Qed.
Lemma adv_inner n : 0 <= n -> advances (get_inner n).
Proof. intros Hn p. unfold get_inner. wp_step. wp_step. case_match; wp_steps; cbn; split; (done || lia). Qed.
Lemma adv_remaining : advances get_remaining_data.
Proof.
  intros p. unfold get_remaining_data. wp_step. wp_step. destruct (Z.leb_spec (rlen p) (rpos p)); wp_steps; cbn; split; (done || lia).
Qed.

Create HintDb adv.
#[export] Hint Resolve adv_byte adv_done adv_remaining adv_ret : adv.
(** walk over a reader, branch by branch *)
Ltac adv :=
  repeat first
    [ progress eauto with adv
    | apply adv_bind; [|intros ?]
    | apply adv_lift; [|intros ?]
    | apply adv_lift_res
    | apply adv_if
    | progress cbv zeta
    | match goal with |- advances (match ?x with _ => _ end) => destruct x end
    | progress (unfold some, ebind) ].

Lemma adv_u16 : advances get_next_u16.
Proof. unfold get_next_u16. adv. Qed.
Lemma adv_bytes n : advances (get_bytes n).
Proof. induction n; cbn [get_bytes]; adv. Qed.
#[export] Hint Resolve adv_u16 adv_bytes : adv.
Lemma adv_u32 : advances get_next_u32.
Proof. unfold get_next_u32. adv. Qed.
Lemma adv_u64 : advances get_next_u64.
Proof. unfold get_next_u64. adv. Qed.
#[export] Hint Resolve adv_u32 adv_u64 : adv.
Lemma adv_u32s n : advances (get_u32s n).
Proof. induction n; cbn [get_u32s]; adv. Qed.
Lemma adv_source : advances source_parse.
Proof. unfold source_parse. adv. Qed.
Lemma adv_num w : advances (from_parser w).
Proof. destruct w; cbn; adv. Qed.
#[export] Hint Resolve adv_u32s adv_source adv_num : adv.

Lemma adv_flags w : advances (parse_start_flags w).
Proof.
  unfold parse_start_flags. adv. unfold space_type_parse. repeat case_match; try done; cbn; repeat case_match; done.
Qed.
Lemma adv_nums w : advances (parse_address_ranges_nums w).
Proof. unfold parse_address_ranges_nums. adv. Qed.
#[export] Hint Resolve adv_flags adv_nums : adv.
Lemma adv_space w : advances (space_parse w).
Proof. unfold space_parse. adv. Qed.
Lemma adv_extended w : advances (space_parse_extended w).
Proof. unfold space_parse_extended. adv; unfold assert_that; by case_match. Qed.
#[export] Hint Resolve adv_space adv_extended : adv.
Lemma assert_not_diverge b : assert_that b <> Diverge.
Proof. by destruct b. Qed.
Lemma csub_not_diverge a b : csub a b <> Diverge.
Proof. unfold csub. by case_match. Qed.
#[export] Hint Resolve assert_not_diverge csub_not_diverge : adv.
Lemma adv_small first : advances (try_parse_small_resource first).
Proof.
  unfold try_parse_small_resource, parse_irq, parse_dma, parse_start_dependent, parse_io, parse_fixed_dma, parse_vendor_short.
  adv; repeat case_match; done.
Qed.
Lemma adv_large_item tag n : advances (parse_large_item tag n).
Proof.
  unfold parse_large_item, parse_memory24, parse_register, parse_memory32, parse_memory32_fixed, parse_interrupt, parse_space. adv.
Qed.

(** reading a byte of a buffer of bytes *)
Lemma next_byte_bound p : Forall is_byte (buffer p) ->
  wp True get_next_byte p (fun r p' => buffer p' = buffer p /\ match r with Ok v => is_byte v /\ rpos p' = rpos p + 1 /\ rpos p < rlen p | Err _ => rpos p' = rpos p end).
Proof.
  intros Hb. unfold get_next_byte. wp_step. wp_step. destruct (Z.leb_spec (rlen p) (rpos p)); [by wp_step|]. wp_step.
  destruct (buffer p !! Z.to_nat (rpos p)) as [b|] eqn:E; [|done]. eapply wp_lift_ret; [done|]. wp_steps. cbn. split_and!; [done| |done|done].
  by eapply Forall_lookup in E; [|exact Hb].
Qed.

Lemma next_u16_bound p : Forall is_byte (buffer p) ->
  wp True get_next_u16 p (fun r p' => buffer p' = buffer p /\ rpos p <= rpos p' /\ match r with Ok v => 0 <= v | Err _ => True end).
Proof.
  intros Hb. unfold get_next_u16. apply wp_ebind. eapply wp_mono; [by apply next_byte_bound|]. intros [l|e] p1 [E1 H1]; [|cbn; split_and!; [done|lia|done]].
  destruct H1 as (Hl & E2 & _). apply wp_ebind. eapply wp_mono; [apply next_byte_bound; by rewrite E1|]. intros [h|e] p2 [E3 H3].
  - wp_step. destruct H3 as (Hh & E4 & _). split_and!; [congruence|lia|]. apply Z.lor_nonneg. split; [apply Z.shiftl_nonneg, Hh|apply Hl].
  - split_and!; [congruence|lia|done].
Qed.

Lemma item_advances p : Forall is_byte (buffer p) -> 0 <= rpos p < rlen p ->
  wp True try_parse_item p (fun r p' => buffer p' = buffer p /\ match r with Ok _ => rpos p < rpos p' | Err _ => True end).
Proof.
  intros Hb Hp. unfold try_parse_item. apply wp_ebind. eapply wp_mono; [by apply next_byte_bound|]. intros [f|e] p1 [E1 H1]; [|done].
  apply wp_ebind. eapply wp_mono; [apply adv_small|]. intros [[m|]|e] p2 [E2 H2]; cbn beta iota.
  - unfold some. wp_step. split; [congruence|]. lia.
  - unfold try_parse_large_resource. case_match; [wp_step; split; [congruence|lia]|]. apply wp_ebind.
    eapply wp_mono; [apply next_u16_bound; congruence|]. intros [n|e] p3 (E3 & H3 & Hn); [|split; [congruence|done]].
    apply wp_ebind. eapply wp_mono; [by apply adv_inner|]. intros [q|e] p4 [E4 H4]; [|split; [congruence|done]].
    eapply wp_mono; [apply adv_inside|].
    + apply adv_bind; [apply adv_large_item|]. intros r. adv.
    + intros [r|e] p5 [E5 H5]; (split; [congruence|]); [|done]. lia.
  - split; [congruence|done].
Qed.

Lemma items_end fuel : forall p, Forall is_byte (buffer p) -> 0 <= rpos p -> Z.max 0 (rlen p - rpos p) < Z.of_nat fuel ->
  wp True (items_loop fuel) p (fun _ _ => True).
Proof.
  induction fuel as [|fuel IH]; intros p Hb H0 Hf; cbn [items_loop]; [lia|].
  apply wp_ebind. unfold get_is_done. wp_step. wp_step. wp_step. unfold is_done. destruct (Z.leb_spec (rlen p) (rpos p)); [done|].
  apply wp_ebind. eapply wp_mono; [by apply item_advances|]. intros [[m|]|e] p1 [E1 H1]; cbn beta iota; [|done..].
  apply wp_ebind. eapply wp_mono; [apply IH|].
  - by rewrite E1.
  - lia.
  - unfold rlen in *. rewrite E1. lia.
  - intros [r|e] p2 _; done.
Qed.

(** Whatever bytes the buffer holds, the loop over the items comes to an end. *)
Lemma template_ends data : Forall is_byte data -> try_parse_buffer data <> Diverge.
Proof.
  intros Hb. unfold try_parse_buffer. case_match; [done|]. case_match; [done|].
  pose proof (items_end (S (length (take (length data - 2) data))) (mkRP (take (length data - 2) data) 0)) as Hw.
  unfold rlen in Hw. cbn [buffer rpos] in Hw. specialize (Hw (Forall_take _ _ _ Hb) ltac:(lia) ltac:(lia)).
  unfold wp in Hw. by destruct (items_loop _ _) as [[r p]| |].
Qed.

(** ** A template *)
Module ResourceDemo.
(** the resources of a keyboard controller: two ports, an interrupt, a vendor
    item, and a window of the bus *)
Definition window : AddressSpace :=
  mkSpace (IoSpace false EntireRange false) false true true false 0 0xCF8 0xCFF 0 8 (SourceExtra (mkSource None None)).
Definition items : list ResourceMacro :=
  [Io true 0x60 0x60 1 1; Io true 0x64 0x64 1 1; Irq false false false true 2; VendorLarge [1; 2; 3];
   Memory32Fixed true 0xFEC00000 0x1000; AddressSpaceWord window].

Lemma resource_template_decodes_witness :
  try_parse_buffer (concat (item_bytes <$> items) ++ [END_TAG_FULL; 0]) =
    Ret (Ok (Some [Io true 0x60 0x60 1 1; Io true 0x64 0x64 1 1; Irq false false false true 2; VendorLarge [];
                   Memory32Fixed true 0xFEC00000 0x1000; AddressSpaceWord window])).
Proof.
  apply (resource_template_decodes items 0); [|by left].
  repeat constructor; cbn; unfold fits, is_byte, in_word; try done; lia.
Defined.

(** The data of a vendor item never arrives: the reader moves to the end
    before it takes the rest. *)
Lemma vendor_data_lost : try_parse_buffer ([0x84; 3; 0; 1; 2; 3] ++ [END_TAG_FULL; 0]) = Ret (Ok (Some [VendorLarge []])).
Proof. done. Qed.

(** A short vendor item of [n] bytes, tag [0x70 + n], is read as one of [n - 1]
    bytes; its last byte is then taken for the tag of another item. *)
Lemma vendor_short_misread :
  item_bytes (VendorShort [1; 0x38; 0; 0; 0; 0] 2) = [0x72; 1; 0x38] /\
  try_parse_buffer ([0x72; 1; 0x38] ++ [END_TAG_FULL; 0]) = Ret (Ok (Some [VendorShort [1; 0; 0; 0; 0; 0] 1; EndDependentFunctions])) /\
  try_parse_buffer ([0x72; 1; 2] ++ [END_TAG_FULL; 0]) = Ret (Ok None).
Proof. done. Qed.

(** An item of the wrong length stops the kernel. *)
Lemma bad_item_length_panics : try_parse_buffer ([0x86; 1; 0; 0] ++ [END_TAG_FULL; 0]) = Panic.
Proof. done. Qed.
End ResourceDemo.
