(* ===== verification/Aml.v ===== *)
(** * The AML parser

    Models [kernel/src/acpi/aml/parser/mod.rs]: the terms of the byte code of
    the firmware, the parser state (position, known methods and names) and
    every function of the recursive-descent parser.  The functions call each
    other in a circle; each is written against a record [Calls] of the
    functions it calls, and [knot] closes the circle with fuel. *)
From S2P Require Import Prelude UserLink FsTypes Bytes AmlData Resource.
Import AmlData.

Module Aml.
(** ** Terms *)
Inductive PackageElement (D : Type) : Type := PeDataObject (d : D) | PeName (name : bytes).
Arguments PeDataObject {D} d.
Arguments PeName {D} name.
Definition as_data {D} (e : PackageElement D) : option D := match e with PeDataObject d => Some d | _ => None end.
Definition as_name {D} (e : PackageElement D) : option bytes := match e with PeName n => Some n | _ => None end.

(** the structures of the parser, over the type [A] of term arguments and the
    type [T] of terms *)
Record BufferOf (A : Type) : Type := mkBuffer { buf_size : A; buf_data : bytes }.
Record ScopeObjOf (T : Type) : Type := mkScopeObj { so_ty : ScopeType; so_name : bytes; so_terms : list T }.
Record RegionObjOf (A : Type) : Type := mkRegion { rg_name : bytes; rg_space : RegionSpace; rg_offset : A; rg_length : A }.
Inductive FieldConnectionOf (A : Type) : Type := FcBuffer (b : BufferOf A) | FcName (name : bytes).
Inductive FieldElementOf (A : Type) : Type :=
| FeOffset (bytes : Z) | FeNamed (name : bytes) (bits : Z) | FeAccess (ty : AccessType) (attrib : AccessAttrib)
| FeConnection (c : FieldConnectionOf A).
Record FieldDefOf (A : Type) : Type := mkField {
  fd_name : bytes; fd_access_type : AccessType; fd_need_lock : bool; fd_update_rule : FieldUpdateRule; fd_fields : list (FieldElementOf A) }.
Record IndexFieldDefOf (A : Type) : Type := mkIndexField {
  if_name : bytes; if_index_name : bytes; if_access_type : AccessType; if_need_lock : bool; if_update_rule : FieldUpdateRule;
  if_fields : list (FieldElementOf A) }.
Record MethodObjOf (T : Type) : Type := mkMethod {
  mo_name : bytes; num_args : Z; is_serialized : bool; sync_level : Z; mo_terms : list T }.
Record PredicateBlockOf (A T : Type) : Type := mkPredicate { pb_predicate : A; pb_terms : list T }.
Record ProcessorDeprecatedOf (T : Type) : Type := mkProcessor {
  pr_name : bytes; unk1 : Z; unk2 : Z; unk3 : Z; pr_terms : list T }.
Record PowerResourceOf (T : Type) : Type := mkPower {
  pw_name : bytes; system_level : Z; resource_order : Z; pw_terms : list T }.
Arguments mkBuffer {A}. Arguments buf_size {A}. Arguments buf_data {A}.
Arguments mkScopeObj {T}. Arguments so_ty {T}. Arguments so_name {T}. Arguments so_terms {T}.
Arguments mkRegion {A}. Arguments rg_name {A}. Arguments rg_space {A}. Arguments rg_offset {A}. Arguments rg_length {A}.
Arguments FcBuffer {A}. Arguments FcName {A}.
Arguments FeOffset {A}. Arguments FeNamed {A}. Arguments FeAccess {A}. Arguments FeConnection {A}.
Arguments mkField {A}. Arguments fd_name {A}. Arguments fd_access_type {A}. Arguments fd_need_lock {A}.
Arguments fd_update_rule {A}. Arguments fd_fields {A}.
Arguments mkIndexField {A}. Arguments if_name {A}. Arguments if_index_name {A}. Arguments if_access_type {A}.
Arguments if_need_lock {A}. Arguments if_update_rule {A}. Arguments if_fields {A}.
Arguments mkMethod {T}. Arguments mo_name {T}. Arguments num_args {T}. Arguments is_serialized {T}. Arguments sync_level {T}. Arguments mo_terms {T}.
Arguments mkPredicate {A T}. Arguments pb_predicate {A T}. Arguments pb_terms {A T}.
Arguments mkProcessor {T}. Arguments pr_name {T}. Arguments unk1 {T}. Arguments unk2 {T}. Arguments unk3 {T}. Arguments pr_terms {T}.
Arguments mkPower {T}. Arguments pw_name {T}. Arguments system_level {T}. Arguments resource_order {T}. Arguments pw_terms {T}.

Inductive UnresolvedDataObject : Type :=
| Integer (i : IntegerData)
| BufferObj (b : BufferOf TermArg)
| TemplateObj (items : list Resource.ResourceMacro)
| Package (size : Z) (elements : list (PackageElement UnresolvedDataObject))
| VarPackage (size : TermArg) (elements : list (PackageElement UnresolvedDataObject))
| StringObj (s : bytes)
| EisaId (s : bytes)
with AmlTerm : Type :=
| Scope (s : ScopeObjOf AmlTerm)
| Region (r : RegionObjOf TermArg)
| Field (f : FieldDefOf TermArg)
| IndexField (f : IndexFieldDefOf TermArg)
| Device (s : ScopeObjOf AmlTerm)
| Processor (p : ProcessorDeprecatedOf AmlTerm)
| PowerResource (p : PowerResourceOf AmlTerm)
| Method (m : MethodObjOf AmlTerm)
| NameObj (name : bytes) (d : UnresolvedDataObject)
| Alias (original aliased : bytes)
| ToHexString (a : TermArg) (t : Target)
| ToBuffer (a : TermArg) (t : Target)
| ToDecimalString (a : TermArg) (t : Target)
| ToInteger (a : TermArg) (t : Target)
| Mid (a b c : TermArg) (t : Target)
| Add (a b : TermArg) (t : Target)
| Concat (a b : TermArg) (t : Target)
| Subtract (a b : TermArg) (t : Target)
| Multiply (a b : TermArg) (t : Target)
| Divide (a b : TermArg) (t u : Target)
| ShiftLeft (a b : TermArg) (t : Target)
| ShiftRight (a b : TermArg) (t : Target)
| And (a b : TermArg) (t : Target)
| Nand (a b : TermArg) (t : Target)
| Or (a b : TermArg) (t : Target)
| Nor (a b : TermArg) (t : Target)
| Xor (a b : TermArg) (t : Target)
| Not (a : TermArg) (t : Target)
| SizeOf (t : Target)
| Store (a : TermArg) (t : Target)
| RefOf (t : Target)
| Increment (t : Target)
| Decrement (t : Target)
| While (p : PredicateBlockOf TermArg AmlTerm)
| If (p : PredicateBlockOf TermArg AmlTerm)
| Else (ts : list AmlTerm)
| Noop
| Return (a : TermArg)
| Break
| LAnd (a b : TermArg)
| LOr (a b : TermArg)
| LNot (a : TermArg)
| LNotEqual (a b : TermArg)
| LLessEqual (a b : TermArg)
| LGreaterEqual (a b : TermArg)
| LEqual (a b : TermArg)
| LGreater (a b : TermArg)
| LLess (a b : TermArg)
| FindSetLeftBit (a : TermArg) (t : Target)
| FindSetRightBit (a : TermArg) (t : Target)
| DerefOf (a : TermArg)
| ConcatRes (a b : TermArg) (t : Target)
| Mod (a b : TermArg) (t : Target)
| Notify (t : Target) (a : TermArg)
| Index (a b : TermArg) (t : Target)
| Mutex (name : bytes) (flags : Z)
| Event (name : bytes)
| CondRefOf (t u : Target)
| CreateFieldOp (a b c : TermArg) (name : bytes)
| Acquire (t : Target) (timeout : Z)
| Signal (t : Target)
| Wait (t : Target) (a : TermArg)
| Reset (t : Target)
| Release (t : Target)
| Stall (a : TermArg)
| Sleep (a : TermArg)
| CreateDWordField (a b : TermArg) (name : bytes)
| CreateWordField (a b : TermArg) (name : bytes)
| CreateByteField (a b : TermArg) (name : bytes)
| CreateBitField (a b : TermArg) (name : bytes)
| CreateQWordField (a b : TermArg) (name : bytes)
| MethodCall (name : bytes) (args : list TermArg)
| ObjectType (t : Target)
with TermArg : Type :=
| ArgExpression (t : AmlTerm)
| ArgDataObject (d : UnresolvedDataObject)
| ArgArg (n : Z)
| ArgLocal (n : Z)
| ArgName (name : bytes)
with Target : Type :=
| TgNone
| TgArg (n : Z)
| TgLocal (n : Z)
| TgName (name : bytes)
| TgDebug
| TgDerefOf (a : TermArg)
| TgRefOf (t : Target)
| TgIndex (a b : TermArg) (t : Target).

Notation Buffer := (BufferOf TermArg).
Notation ScopeObj := (ScopeObjOf AmlTerm).
Notation RegionObj := (RegionObjOf TermArg).
Notation FieldConnection := (FieldConnectionOf TermArg).
Notation FieldElement := (FieldElementOf TermArg).
Notation FieldDef := (FieldDefOf TermArg).
Notation IndexFieldDef := (IndexFieldDefOf TermArg).
Notation MethodObj := (MethodObjOf AmlTerm).
Notation PredicateBlock := (PredicateBlockOf TermArg AmlTerm).
Notation ProcessorDeprecated := (ProcessorDeprecatedOf AmlTerm).
Notation PowerResourceObj := (PowerResourceOf AmlTerm).

Record AmlCode : Type := mkAmlCode { term_list : list AmlTerm }.

(** ** The state of the parser *)
Record State : Type := mkState { methods : gmap bytes Z; names : gset bytes }.

Definition find_name (s : State) (name : bytes) : outcome bool :=
  short_name ← last4 name;
  Ret (bool_decide (name ∈ names s) || bool_decide (short_name ∈ names s)).
Definition find_method (s : State) (name : bytes) : outcome (option Z) :=
  method_name ← last4 name;
  Ret (methods s !! method_name).
Definition add_method_st (name : bytes) (arg_count : Z) (s : State) : outcome State :=
  method_name ← last4 name;
  Ret (mkState (<[method_name := arg_count]> (methods s)) (names s)).
Definition add_name_st (name : bytes) (s : State) : State := mkState (methods s) ({[ name ]} ∪ names s).

Record Parser : Type := mkParser { code : bytes; pos : Z; state : State }.
Notation P A := (ST Parser (result A AmlParseError)).
Definition code_len (p : Parser) : Z := Z.of_nat (length (code p)).

Definition fail {A} (e : AmlParseError) : P A := mret (Err e).
Definition good {A} (a : A) : P A := mret (Ok a).

Definition add_method (name : bytes) (arg_count : Z) : P unit :=
  p ← get;
  s ← lift (add_method_st name arg_count (state p));
  _ ← put (mkParser (code p) (pos p) s);
  good tt.
Definition add_name (name : bytes) : P unit :=
  p ← get;
  _ ← put (mkParser (code p) (pos p) (add_name_st name (state p)));
  good tt.

(** ** Bytes.  Positions stay below the length of a slice, so that their
    additions cannot overflow. *)
Definition remaining_bytes (p : Parser) : outcome Z := csub (code_len p) (pos p).
Definition peek_next_byte : P Z :=
  p ← get;
  if code_len p <=? pos p then fail UnexpectedEndOfCode else
  byte ← lift (unwrap (code p !! Z.to_nat (pos p)));
  good byte.
Definition get_next_byte : P Z :=
  p ← get;
  if code_len p <=? pos p then fail UnexpectedEndOfCode else
  byte ← lift (unwrap (code p !! Z.to_nat (pos p)));
  _ ← put (mkParser (code p) (pos p + 1) (state p));
  good byte.
Definition forward (n : Z) : P unit :=
  p ← get;
  if code_len p <? pos p + n then fail UnexpectedEndOfCode else
  _ ← put (mkParser (code p) (pos p + n) (state p));
  good tt.
Definition backward (n : Z) : P unit :=
  p ← get;
  if pos p =? 0 then fail CannotMoveBackward else
  q ← lift (csub (pos p) n);
  _ ← put (mkParser (code p) q (state p));
  good tt.
Fixpoint get_bytes (n : nat) : P bytes :=
  match n with
  | O => good []
  | S n => b ←? get_next_byte; r ←? get_bytes n; good (b :: r)
  end.
(** [from_le_bytes] of the next [n] bytes *)
Definition get_le (n : nat) : P Z := b ←? get_bytes n; good (from_le b).

(** ** Package lengths *)
Fixpoint pkg_loop (n : nat) (i length : Z) : P Z :=
  match n with
  | O => good length
  | S n => byte ←? get_next_byte; pkg_loop n (i + 1) (Z.lor length (Z.shiftl byte (8 * i + 4)))
  end.
Definition get_pkg_length : P Z :=
  lead_byte ←? get_next_byte;
  let following_bytes := Z.shiftr lead_byte 6 in
  if following_bytes =? 0 then
    n ← lift (csub (Z.land lead_byte 0x3F) 1);
    good n
  else if negb (Z.land (Z.shiftr lead_byte 4) 3 =? 0) then fail InvalidPkgLengthLead
  else
    length ←? pkg_loop (Z.to_nat following_bytes) 0 (Z.land lead_byte 0xF);
    n ← lift (csub length following_bytes);
    n ← lift (csub n 1);
    good n.

(** a parser of the next [n] bytes, which shares the state *)
Definition on_slice {A} (n : Z) (m : P A) : P A := fun p =>
  match m (mkParser (take (Z.to_nat n) (drop (Z.to_nat (pos p)) (code p))) 0 (state p)) with
  | Ret (a, q) => Ret (a, mkParser (code p) (pos p + n) (state q))
  | Panic => Panic
  | Diverge => Diverge
  end.
(** [get_inner_parser]; the slice fails beyond the end of the code *)
Definition in_inner {A} (m : P A) : P A :=
  pkg_length ←? get_pkg_length;
  p ← get;
  _ ← lift (assert_that (pos p + pkg_length <=? code_len p));
  on_slice pkg_length m.
(** [clone_parser]: a parser at the same place, which shares the state *)
Definition in_clone {A} (m : ST Parser A) : ST Parser A := fun p =>
  match m p with
  | Ret (a, q) => Ret (a, mkParser (code p) (pos p) (state q))
  | Panic => Panic
  | Diverge => Diverge
  end.
Definition check_empty : P unit :=
  p ← get;
  if negb (pos p =? code_len p) then
    n ← lift (csub (code_len p) (pos p));
    fail (RemainingBytes n)
  else good tt.

(** ** Names *)
Definition lead_name_char (b : Z) : bool := between 0x41 0x5A b || (b =? 0x5F).
Definition name_char (b : Z) : bool := between 0x41 0x5A b || (b =? 0x5F) || between 0x30 0x39 b.
Definition ROOT_CHAR : Z := 0x5C.
Definition PARENT_CHAR : Z := 0x5E.
Definition DOT : Z := 0x2E.
Definition SLASH : Z := 0x2F.

Fixpoint path_tail (n : nat) (str : bytes) : P bytes :=
  match n with
  | O => good str
  | S n =>
      byte ←? get_next_byte;
      if name_char byte then path_tail n (push_char str byte) else panic
  end.
Definition parse_name_path : P bytes :=
  byte ←? get_next_byte;
  if byte =? 0 then good [] else path_tail 3 (push_char [] byte).

(** [while self.peek_next_byte()? == b'^'] *)
Fixpoint parents (fuel : nat) (str : bytes) : P bytes :=
  match fuel with
  | O => diverge
  | S fuel =>
      b ←? peek_next_byte;
      if b =? PARENT_CHAR then _ ←? forward 1; parents fuel (push_char str PARENT_CHAR) else good str
  end.
(** the segments of a path of [count], from the [i]th on *)
Fixpoint segments (n : nat) (i count : Z) (str : bytes) : P bytes :=
  match n with
  | O => good str
  | S n =>
      seg ←? parse_name_path;
      let str := str ++ seg in
      last ← lift (csub count 1);
      segments n (i + 1) count (if negb (i =? last) then str ++ [DOT] else str)
  end.

(** [try_parse_name], and [parse_name] as it calls it again behind a prefix *)
Fixpoint try_parse_name_loop (fuel : nat) : P (option bytes) :=
  match fuel with
  | O => diverge
  | S fuel =>
      let parse_name :=
        _ ←? peek_next_byte;
        name ←? try_parse_name_loop fuel;
        match name with Some name => good name | None => panic end in
      name_char_byte ←? peek_next_byte;
      if name_char_byte =? 0 then _ ←? forward 1; good (Some [])
      else if lead_name_char name_char_byte then name ←? parse_name_path; good (Some name)
      else if name_char_byte =? ROOT_CHAR then
        _ ←? forward 1;
        name ←? parse_name;
        good (Some (ROOT_CHAR :: name))
      else if name_char_byte =? PARENT_CHAR then
        p ← get;
        str ←? parents (S (length (code p))) [];
        name ←? parse_name;
        good (Some (str ++ name))
      else if name_char_byte =? DOT then
        _ ←? forward 1;
        seg1 ←? parse_name_path;
        seg2 ←? parse_name_path;
        good (Some (seg1 ++ [DOT] ++ seg2))
      else if name_char_byte =? SLASH then
        _ ←? forward 1;
        count ←? get_next_byte;
        str ←? segments (Z.to_nat count) 0 count [];
        good (Some str)
      else good None
  end.
(** every prefix takes a byte *)
Definition try_parse_name : P (option bytes) := p ← get; try_parse_name_loop (S (length (code p))).
Definition parse_name : P bytes :=
  _ ←? peek_next_byte;
  name ←? try_parse_name;
  match name with Some name => good name | None => panic end.

Definition try_parse_local (lead : Z) : option Z := if between 0x60 0x67 lead then Some (lead - 0x60) else None.
Definition try_parse_arg (lead : Z) : option Z := if between 0x68 0x6E lead then Some (lead - 0x68) else None.

(** [parse_eisa_id]: three letters of five bits and four digits *)
Definition parse_eisa_id (id : Z) : bytes :=
  let byte2 := Z.land (Z.shiftr id 16) 0xFF in
  let byte3 := Z.land (Z.shiftr id 24) 0xFF in
  let byte0 := Z.land id 0xFF in
  let byte1 := Z.land (Z.shiftr id 8) 0xFF in
  let manufacturer_list :=
    [Z.shiftr byte0 2; Z.lor (Z.shiftl (Z.land byte0 3) 3) (Z.shiftr byte1 5); Z.land byte1 0x1F] in
  foldl push_char [] ((fun c => wrap 8 (c + 0x40)) <$> manufacturer_list) ++ hex2 byte2 ++ hex2 byte3.

(** ** The functions of the descent *)
Record Calls : Type := mkCalls {
  try_parse_data_object_ : P (option UnresolvedDataObject);
  parse_term_arg_general_ : bool -> bool -> P TermArg;
  try_parse_term_ : Z -> P (option AmlTerm);
  parse_target_ : P Target;
  terms_loop_ : P (list AmlTerm);
  elements_loop_ : P (list (PackageElement UnresolvedDataObject));
  fields_loop_ : Z -> P (list FieldElement)
}.

Section descent.
Context (rec : Calls).

Definition parse_term_arg_non_method_arg : P TermArg := parse_term_arg_general_ rec false true.
Definition parse_term_arg_last : P TermArg := parse_term_arg_general_ rec true false.
Definition parse_term_arg : P TermArg := parse_term_arg_general_ rec true true.
Definition parse_target : P Target := parse_target_ rec.

(** *** Lists of terms *)
Definition parse_term : P AmlTerm :=
  byte ←? get_next_byte;
  term ←? try_parse_term_ rec byte;
  match term with Some term => good term | None => panic end.
Definition parse_term_list : P (list AmlTerm) :=
  terms ←? terms_loop_ rec;
  p ← get;
  n ← lift (remaining_bytes p);
  if negb (n =? 0) then fail (RemainingBytes n) else good terms.
(** the [while] loop of [parse_term_list] *)
Definition terms_loop : P (list AmlTerm) :=
  p ← get;
  if pos p <? code_len p then
    term ←? parse_term;
    rest ←? terms_loop_ rec;
    good (term :: rest)
  else good [].

(** *** Objects with a body *)
Definition scope_parse (ty : ScopeType) : P ScopeObj :=
  in_inner (
    name ←? parse_name;
    terms ←? parse_term_list;
    _ ←? check_empty;
    good (mkScopeObj ty name terms)).
Definition region_parse : P RegionObj :=
  name ←? parse_name;
  space ←? get_next_byte;
  region_offset ←? parse_term_arg;
  region_length ←? parse_term_arg;
  good (mkRegion name (region_space_from space) region_offset region_length).
Definition method_parse : P MethodObj :=
  in_inner (
    name ←? parse_name;
    flags ←? get_next_byte;
    terms ←? parse_term_list;
    _ ←? check_empty;
    good (mkMethod name (Z.land flags 7) (flag flags (Z.shiftl 1 3)) (Z.land (Z.shiftr flags 4) 0xF) terms)).
Definition predicate_parse : P PredicateBlock :=
  in_inner (
    predicate ←? parse_term_arg;
    terms ←? parse_term_list;
    _ ←? check_empty;
    good (mkPredicate predicate terms)).
Definition processor_parse : P ProcessorDeprecated :=
  in_inner (
    name ←? parse_name;
    unk1 ←? get_next_byte;
    unk2 ←? get_le 4;
    unk3 ←? get_next_byte;
    terms ←? parse_term_list;
    _ ←? check_empty;
    good (mkProcessor name unk1 unk2 unk3 terms)).
Definition power_resource_parse : P PowerResourceObj :=
  in_inner (
    name ←? parse_name;
    system_level ←? get_next_byte;
    resource_order ←? get_le 2;
    terms ←? parse_term_list;
    _ ←? check_empty;
    good (mkPower name system_level resource_order terms)).

(** *** Fields *)
Definition access_attrib (access_byte attrib_byte : Z) : outcome AccessAttrib :=
  let k := Z.shiftr access_byte 6 in
  if k =? 0 then
    Ret (if attrib_byte =? 0x2 then AaQuick else if attrib_byte =? 0x4 then AaSendRecv else if attrib_byte =? 0x6 then AaByte
         else if attrib_byte =? 0x8 then AaWord else if attrib_byte =? 0xA then AaBlock else if attrib_byte =? 0xC then AaProcessCall
         else if attrib_byte =? 0xD then AaBlockProcessCall else AaByteValue attrib_byte)
  else if k =? 1 then Ret (AaBytes attrib_byte)
  else if k =? 2 then Ret (AaRawBytes attrib_byte)
  else if k =? 3 then Ret (AaRawProcessBytes attrib_byte)
  else Panic.

(** one element, and the position in bits behind it *)
Definition field_element (fields_pos_bits : Z) : P (FieldElement * Z) :=
  lead ←? peek_next_byte;
  if lead =? 0 then
    _ ←? forward 1;
    pkg_length ←? get_pkg_length;
    let bits := fields_pos_bits + (pkg_length + 1) in
    if negb (bits mod 8 =? 0) then fail UnalignedFieldElementOffset else
    good (FeOffset (bits / 8), bits)
  else if lead =? 1 then
    _ ←? forward 1;
    access_byte ←? get_next_byte;
    access_attrib_byte ←? get_next_byte;
    attrib ← lift (access_attrib access_byte access_attrib_byte);
    ty ←? mret (access_type_try_from access_byte);
    good (FeAccess ty attrib, fields_pos_bits)
  else if lead =? 2 then
    _ ←? forward 1;
    data_object ←? in_clone (try_parse_data_object_ rec);
    c ←? match data_object with
         | Some (BufferObj buffer) => good (FcBuffer buffer)
         | _ => name ←? parse_name; good (FcName name)
         end;
    good (FeConnection c, fields_pos_bits)
  else if lead =? 3 then
    _ ←? forward 1;
    access_byte ←? get_next_byte;
    extended_attrib ←? get_next_byte;
    access_length ←? get_next_byte;
    attrib ←? mret (if extended_attrib =? 0xB then Ok (AaBytes access_length)
                    else if extended_attrib =? 0xE then Ok (AaRawBytes access_length)
                    else if extended_attrib =? 0xF then Ok (AaRawProcessBytes access_length)
                    else Err (InvalidExtendedAttrib extended_attrib));
    ty ←? mret (access_type_try_from access_byte);
    good (FeAccess ty attrib, fields_pos_bits)
  else
    before ← get;
    name ←? parse_name;
    _ ←? add_name name;
    after ← get;
    _ ← lift (assert_that (pos after - pos before =? 4));
    pkg_length ←? get_pkg_length;
    let size_bits := pkg_length + 1 in
    good (FeNamed name size_bits, fields_pos_bits + size_bits).
(** the [while] loop of [parse_fields_list_and_flags] *)
Definition fields_loop (fields_pos_bits : Z) : P (list FieldElement) :=
  p ← get;
  if pos p <? code_len p then
    f ←? field_element fields_pos_bits;
    rest ←? fields_loop_ rec (snd f);
    good (fst f :: rest)
  else good [].
Definition parse_fields_list_and_flags : P (Z * list FieldElement) :=
  flags ←? get_next_byte;
  field_list ←? fields_loop_ rec 0;
  _ ←? check_empty;
  good (flags, field_list).
Definition field_parse : P FieldDef :=
  in_inner (
    name ←? parse_name;
    fl ←? parse_fields_list_and_flags;
    access_type ←? mret (access_type_try_from (fst fl));
    update_rule ←? mret (update_rule_try_from (Z.shiftr (fst fl) 5));
    good (mkField name access_type (flag (fst fl) (Z.shiftl 1 4)) update_rule (snd fl))).
Definition index_field_parse : P IndexFieldDef :=
  in_inner (
    name ←? parse_name;
    index_name ←? parse_name;
    fl ←? parse_fields_list_and_flags;
    access_type ←? mret (access_type_try_from (fst fl));
    update_rule ←? mret (update_rule_try_from (Z.shiftr (fst fl) 5));
    good (mkIndexField name index_name access_type (flag (fst fl) (Z.shiftl 1 4)) update_rule (snd fl))).

(** *** Data objects *)
(** [loop { byte; if byte == 0 { break } str.push(byte) }] *)
Fixpoint string_loop (fuel : nat) (str : bytes) : P bytes :=
  match fuel with
  | O => diverge
  | S fuel => byte ←? get_next_byte; if byte =? 0 then good str else string_loop fuel (push_char str byte)
  end.
Definition parse_package_element : P (PackageElement UnresolvedDataObject) :=
  data_object ←? try_parse_data_object_ rec;
  match data_object with
  | Some data_object => good (PeDataObject data_object)
  | None =>
      name ←? try_parse_name;
      match name with Some name => good (PeName name) | None => fail InvalidTermArgInPackage end
  end.
(** the [while] loop over the elements of a package *)
Definition elements_loop : P (list (PackageElement UnresolvedDataObject)) :=
  p ← get;
  if pos p <? code_len p then
    e ←? parse_package_element;
    rest ←? elements_loop_ rec;
    good (e :: rest)
  else good [].
Definition buffer_parse : P UnresolvedDataObject :=
  buffer ←? in_inner (
    buf_size ←? parse_term_arg;
    inner ← get;
    good (mkBuffer buf_size (drop (Z.to_nat (pos inner)) (code inner))));
  template ←? lift (Resource.try_parse_buffer (buf_data buffer));
  good (match template with Some items => TemplateObj items | None => BufferObj buffer end).
Definition package_parse : P UnresolvedDataObject :=
  in_inner (
    package_size ←? get_next_byte;
    elements ←? elements_loop_ rec;
    _ ←? check_empty;
    good (Package package_size elements)).
Definition var_package_parse : P UnresolvedDataObject :=
  in_inner (
    package_size ←? parse_term_arg;
    elements ←? elements_loop_ rec;
    _ ←? check_empty;
    good (VarPackage package_size elements)).

Definition integer (i : IntegerData) : P (option UnresolvedDataObject) := good (Some (Integer i)).
Definition try_parse_data_object : P (option UnresolvedDataObject) :=
  lead_byte ←? get_next_byte;
  if lead_byte =? 0x0 then integer ConstZero
  else if lead_byte =? 0x1 then integer ConstOne
  else if lead_byte =? 0xA then data ←? get_next_byte; integer (ByteConst data)
  else if lead_byte =? 0xB then data ←? get_le 2; integer (WordConst data)
  else if lead_byte =? 0xC then data ←? get_le 4; integer (DWordConst data)
  else if lead_byte =? 0xD then p ← get; str ←? string_loop (S (length (code p))) []; good (Some (StringObj str))
  else if lead_byte =? 0xE then data ←? get_le 8; integer (QWordConst data)
  else if lead_byte =? 0x11 then b ←? buffer_parse; good (Some b)
  else if lead_byte =? 0x12 then b ←? package_parse; good (Some b)
  else if lead_byte =? 0x13 then b ←? var_package_parse; good (Some b)
  else if lead_byte =? 0xFF then integer ConstOnes
  else _ ←? backward 1; good None.

(** *** Calls of methods *)
(** the terms that cannot be an argument of a method *)
Definition is_none (t : Target) : bool := match t with TgNone => true | _ => false end.
Definition no_argument (t : AmlTerm) : bool :=
  match t with
  | Store _ _ | Notify _ _ | Release _ | Reset _ | Signal _ | Wait _ _ | Sleep _ | Stall _ | Acquire _ _ | CondRefOf _ _ | Break
  | Return _ | Noop | Else _ | If _ | While _ | Scope _ | Region _ | Field _ | IndexField _ | Device _ | Processor _ | PowerResource _
  | Method _ | NameObj _ _ | Alias _ _ | ToHexString _ _ | ToBuffer _ _ | ToDecimalString _ _ | ToInteger _ _ | Mutex _ _ | Event _
  | CreateDWordField _ _ _ | CreateWordField _ _ _ | CreateByteField _ _ _ | CreateBitField _ _ _ | CreateQWordField _ _ _ => true
  | Add _ _ t | Concat _ _ t | Subtract _ _ t | Multiply _ _ t | Divide _ _ _ t | ShiftLeft _ _ t | ShiftRight _ _ t | And _ _ t
  | Nand _ _ t | Or _ _ t | Nor _ _ t | Xor _ _ t | Not _ t | ConcatRes _ _ t | Mod _ _ t | Index _ _ t => negb (is_none t)
  | _ => false
  end.
(** the loop of [predict_possible_args], [n] of its seven rounds left *)
Fixpoint predict_loop (n : nat) (expect_data_after : bool) (name : bytes) (n_args : Z) : ST Parser Z :=
  match n with
  | O => mret n_args
  | S n =>
      r ← parse_term_arg;
      match r with
      | Ok (ArgName var_name) =>
          if bool_decide (name = var_name) then mret 0 else predict_loop n expect_data_after name (n_args + 1)
      | Ok (ArgExpression term) =>
          if no_argument term then mret n_args else predict_loop n expect_data_after name (n_args + 1)
      | Ok _ => predict_loop n expect_data_after name (n_args + 1)
      | Err UnexpectedEndOfCode =>
          if (0 <? n_args) && expect_data_after then
            p ← get;
            left ← lift (remaining_bytes p);
            if left =? 0 then mret (n_args - 1) else mret n_args
          else mret n_args
      | Err _ => mret n_args
      end
  end.
Definition predict_possible_args (expect_data_after : bool) (name : bytes) : ST Parser Z :=
  in_clone (predict_loop 7 expect_data_after name 0).
Fixpoint args_loop (n : nat) : P (list TermArg) :=
  match n with
  | O => good []
  | S n => a ←? parse_term_arg; r ←? args_loop n; good (a :: r)
  end.

(** *** Terms *)
Definition term (t : AmlTerm) : P (option AmlTerm) := good (Some t).
Definition with_target (k : Target -> AmlTerm) : P (option AmlTerm) := t ←? parse_target; term (k t).
Definition with_arg (k : TermArg -> AmlTerm) : P (option AmlTerm) := a ←? parse_term_arg; term (k a).
Definition with_args (k : TermArg -> TermArg -> AmlTerm) : P (option AmlTerm) :=
  a ←? parse_term_arg; b ←? parse_term_arg; term (k a b).
Definition arg_target (k : TermArg -> Target -> AmlTerm) : P (option AmlTerm) :=
  a ←? parse_term_arg; t ←? parse_target; term (k a t).
Definition args_target (k : TermArg -> TermArg -> Target -> AmlTerm) : P (option AmlTerm) :=
  a ←? parse_term_arg; b ←? parse_term_arg; t ←? parse_target; term (k a b t).
(** the first argument is no method call *)
Definition nargs_target (k : TermArg -> TermArg -> Target -> AmlTerm) : P (option AmlTerm) :=
  a ←? parse_term_arg_non_method_arg; b ←? parse_term_arg; t ←? parse_target; term (k a b t).

Definition alias_term : P (option AmlTerm) :=
  original_name ←? parse_name;
  aliased_name ←? parse_name;
  _ ←? add_name aliased_name;
  _ ←? add_name original_name;
  term (Alias original_name aliased_name).
Definition ID : bytes := [0x49; 0x44].
Definition name_term : P (option AmlTerm) :=
  name ←? parse_name;
  _ ←? add_name name;
  data_object ←? try_parse_data_object_ rec;
  data_object ←? mret (match data_object with Some d => Ok d | None => Err NameObjectNotContainingDataObject end);
  term (NameObj name (match data_object with
    | Integer (DWordConst data) => if contains ID name then EisaId (parse_eisa_id data) else data_object
    | d => d end)).
Definition method_term : P (option AmlTerm) :=
  method ←? method_parse;
  _ ←? add_method (mo_name method) (num_args method);
  term (Method method).
(** the second byte of an operator *)
Definition extra_op (inner_opcode : Z) : P (option AmlTerm) :=
  if inner_opcode =? 0x01 then name ←? parse_name; b ←? get_next_byte; term (Mutex name b)
  else if inner_opcode =? 0x02 then name ←? parse_name; term (Event name)
  else if inner_opcode =? 0x12 then t ←? parse_target; u ←? parse_target; term (CondRefOf t u)
  else if inner_opcode =? 0x13 then
    a ←? parse_term_arg; b ←? parse_term_arg; c ←? parse_term_arg; name ←? parse_name; term (CreateFieldOp a b c name)
  else if inner_opcode =? 0x21 then with_arg Stall
  else if inner_opcode =? 0x22 then with_arg Sleep
  else if inner_opcode =? 0x23 then t ←? parse_target; n ←? get_le 2; term (Acquire t n)
  else if inner_opcode =? 0x24 then with_target Signal
  else if inner_opcode =? 0x25 then t ←? parse_target; a ←? parse_term_arg; term (Wait t a)
  else if inner_opcode =? 0x26 then with_target Reset
  else if inner_opcode =? 0x27 then with_target Release
  else if inner_opcode =? 0x80 then r ←? region_parse; term (Region r)
  else if inner_opcode =? 0x81 then f ←? field_parse; term (Field f)
  else if inner_opcode =? 0x82 then s ←? scope_parse TDevice; term (Device s)
  else if inner_opcode =? 0x83 then p ←? processor_parse; term (Processor p)
  else if inner_opcode =? 0x84 then p ←? power_resource_parse; term (PowerResource p)
  else if inner_opcode =? 0x86 then f ←? index_field_parse; term (IndexField f)
  else panic.
Definition extra_term : P (option AmlTerm) := inner_opcode ←? get_next_byte; extra_op inner_opcode.
Definition create_field_term (opcode : Z) : P (option AmlTerm) :=
  term1 ←? parse_term_arg;
  term2 ←? parse_term_arg;
  name ←? parse_name;
  _ ←? add_name name;
  if opcode =? 0x8A then term (CreateDWordField term1 term2 name)
  else if opcode =? 0x8B then term (CreateWordField term1 term2 name)
  else if opcode =? 0x8C then term (CreateByteField term1 term2 name)
  else if opcode =? 0x8D then term (CreateBitField term1 term2 name)
  else if opcode =? 0x8F then term (CreateQWordField term1 term2 name)
  else panic.
(** a negation, or a comparison that begins with one *)
Definition not_op (next_byte : Z) : P (option AmlTerm) :=
  if next_byte =? 0x93 then _ ←? forward 1; with_args LNotEqual
  else if next_byte =? 0x94 then _ ←? forward 1; with_args LLessEqual
  else if next_byte =? 0x95 then _ ←? forward 1; with_args LGreaterEqual
  else with_arg LNot.
Definition not_term : P (option AmlTerm) := next_byte ←? peek_next_byte; not_op next_byte.
Definition else_term : P (option AmlTerm) :=
  else_list ←? in_inner (else_list ←? parse_term_list; _ ←? check_empty; good else_list);
  term (Else else_list).
(** an opcode that begins a name *)
Definition call_term : P (option AmlTerm) :=
  _ ←? backward 1;
  name ←? try_parse_name;
  match name with
  | None => good None
  | Some name =>
      _ ← lift (assert_that (negb (bool_decide (name = []))));
      p ← get;
      m ← lift (find_method (state p) name);
      n_args ← match m with Some n => mret n | None => predict_possible_args false name end;
      args ←? args_loop (Z.to_nat n_args);
      term (MethodCall name args)
  end.

Definition try_parse_term (opcode : Z) : P (option AmlTerm) :=
  if opcode =? 0x06 then alias_term
  else if opcode =? 0x08 then name_term
  else if opcode =? 0x10 then s ←? scope_parse TScope; term (Scope s)
  else if opcode =? 0x14 then method_term
  else if opcode =? 0x5B then extra_term
  else if opcode =? 0x70 then arg_target Store
  else if opcode =? 0x71 then with_target RefOf
  else if opcode =? 0x72 then args_target Add
  else if opcode =? 0x73 then args_target Concat
  else if opcode =? 0x74 then args_target Subtract
  else if opcode =? 0x75 then with_target Increment
  else if opcode =? 0x76 then with_target Decrement
  else if opcode =? 0x77 then args_target Multiply
  else if opcode =? 0x78 then
    a ←? parse_term_arg; b ←? parse_term_arg; t ←? parse_target; u ←? parse_target; term (Divide a b t u)
  else if opcode =? 0x79 then nargs_target ShiftLeft
  else if opcode =? 0x7A then nargs_target ShiftRight
  else if opcode =? 0x7B then nargs_target And
  else if opcode =? 0x7C then args_target Nand
  else if opcode =? 0x7D then args_target Or
  else if opcode =? 0x7E then args_target Nor
  else if opcode =? 0x7F then args_target Xor
  else if opcode =? 0x80 then arg_target Not
  else if opcode =? 0x81 then arg_target FindSetLeftBit
  else if opcode =? 0x82 then arg_target FindSetRightBit
  else if opcode =? 0x83 then with_arg DerefOf
  else if opcode =? 0x84 then args_target ConcatRes
  else if opcode =? 0x85 then args_target Mod
  else if opcode =? 0x86 then t ←? parse_target; a ←? parse_term_arg; term (Notify t a)
  else if opcode =? 0x87 then with_target SizeOf
  else if opcode =? 0x88 then args_target Index
  else if between 0x8A 0x8D opcode || (opcode =? 0x8F) then create_field_term opcode
  else if opcode =? 0x8E then with_target ObjectType
  else if opcode =? 0x90 then with_args LAnd
  else if opcode =? 0x91 then with_args LOr
  else if opcode =? 0x92 then not_term
  else if opcode =? 0x93 then with_args LEqual
  else if opcode =? 0x94 then with_args LGreater
  else if opcode =? 0x95 then with_args LLess
  else if opcode =? 0x96 then arg_target ToBuffer
  else if opcode =? 0x97 then arg_target ToDecimalString
  else if opcode =? 0x98 then arg_target ToHexString
  else if opcode =? 0x99 then arg_target ToInteger
  else if opcode =? 0x9E then
    a ←? parse_term_arg; b ←? parse_term_arg; c ←? parse_term_arg; t ←? parse_target; term (Mid a b c t)
  else if opcode =? 0xA0 then p ←? predicate_parse; term (If p)
  else if opcode =? 0xA1 then else_term
  else if opcode =? 0xA2 then p ←? predicate_parse; term (While p)
  else if opcode =? 0xA3 then term Noop
  else if opcode =? 0xA4 then a ←? parse_term_arg_last; term (Return a)
  else if opcode =? 0xA5 then term Break
  else call_term.

(** *** Arguments *)
(** the number of arguments of [name] when it is called here, [None] when it
    is taken for a variable *)
Definition option_nargs (can_call_method expect_data_after : bool) (name : bytes) : ST Parser (option Z) :=
  p ← get;
  m ← lift (find_method (state p) name);
  match m with
  | Some n => mret (Some n)
  | None =>
      known ← lift (find_name (state p) name);
      if (known : bool) then mret None
      else if can_call_method then
        possible_args ← predict_possible_args expect_data_after name;
        if possible_args =? 0 then _ ← add_name name; mret None else mret (Some possible_args)
      else _ ← add_name name; mret None
  end.
Definition parse_term_arg_general (can_call_method expect_data_after : bool) : P TermArg :=
  data_object ←? try_parse_data_object_ rec;
  match data_object with
  | Some data_object => good (ArgDataObject data_object)
  | None =>
      lead_byte ←? get_next_byte;
      match try_parse_local lead_byte, try_parse_arg lead_byte with
      | Some local, _ => good (ArgLocal local)
      | None, Some arg => good (ArgArg arg)
      | None, None =>
          _ ←? backward 1;
          name ←? try_parse_name;
          match name with
          | Some name =>
              _ ← lift (assert_that (negb (bool_decide (name = []))));
              n ← option_nargs can_call_method expect_data_after name;
              match n with
              | Some n_args => args ←? args_loop (Z.to_nat n_args); good (ArgExpression (MethodCall name args))
              | None => good (ArgName name)
              end
          | None =>
              _ ←? forward 1;
              t ←? try_parse_term_ rec lead_byte;
              match t with Some t => good (ArgExpression t) | None => panic end
          end
      end
  end.

Definition parse_target_body : P Target :=
  lead_byte ←? peek_next_byte;
  if lead_byte =? 0x0 then _ ←? forward 1; good TgNone
  else if lead_byte =? 0x5B then
    _ ←? forward 1;
    next_byte ←? get_next_byte;
    _ ← lift (assert_that (next_byte =? 0x31));
    good TgDebug
  else if lead_byte =? 0x71 then panic
  else
    match try_parse_local lead_byte, try_parse_arg lead_byte with
    | Some local, _ => _ ←? forward 1; good (TgLocal local)
    | None, Some arg => _ ←? forward 1; good (TgArg arg)
    | None, None =>
        name ←? try_parse_name;
        match name with
        | Some name => good (TgName name)
        | None =>
            _ ←? forward 1;
            t ←? try_parse_term_ rec lead_byte;
            match t with
            | Some (Index a b t) => good (TgIndex a b t)
            | Some (RefOf t) => good (TgRefOf t)
            | Some (DerefOf a) => good (TgDerefOf a)
            | _ => fail (InvalidTarget lead_byte)
            end
        end
    end.
End descent.

(** ** Closing the circle *)
Fixpoint knot (fuel : nat) : Calls :=
  match fuel with
  | O => mkCalls diverge (fun _ _ => diverge) (fun _ => diverge) diverge diverge diverge (fun _ => diverge)
  | S fuel =>
      let rec := knot fuel in
      mkCalls (try_parse_data_object rec) (parse_term_arg_general rec) (try_parse_term rec) (parse_target_body rec)
        (terms_loop rec) (elements_loop rec) (fields_loop rec)
  end.

Definition parse_root (fuel : nat) : P AmlCode := terms ←? parse_term_list (knot fuel); good (mkAmlCode terms).
(** a byte of code costs at most three calls of the circle: an argument, its
    data object or term, and the argument of that *)
Definition parse_aml (code : bytes) : outcome (result AmlCode AmlParseError) :=
  r ← parse_root (3 * length code + 3) (mkParser code 0 (mkState ∅ ∅));
  Ret (fst r).
End Aml.
