(* ===== verification/AmlEnds.v ===== *)
(** * The AML parser ends

    Whatever bytes it is given, the parser returns, reports an error or stops
    at one of its assertions: every call that goes around the circle of
    functions has consumed code. *)
From S2P Require Import Prelude UserLink FsTypes Bytes AmlData Resource ResourceSpec Aml.
Import AmlData Aml.

Definition wf (p : Parser) : Prop := 0 <= pos p <= code_len p /\ Forall is_byte (code p).
Definition left (p : Parser) : Z := code_len p - pos p.

(** From a parser with at most [n] bytes left, [m] ends; when it returns [a]
    it has consumed at least [d a] bytes. *)
Definition runs (n : Z) {A} (d : A -> Z) (m : ST Parser (result A AmlParseError)) : Prop :=
  forall p, wf p -> left p <= n ->
  wp True m p (fun r p' => code p' = code p /\ 0 <= pos p' <= code_len p /\ match r with Ok a => pos p + d a <= pos p' | Err _ => True end).
(** a computation that ends and stays where it is *)
Definition stays (n : Z) {A} (m : ST Parser A) : Prop :=
  forall p, wf p -> left p <= n -> wp True m p (fun _ p' => code p' = code p /\ pos p' = pos p).

Lemma wf_same p p' : wf p -> code p' = code p -> 0 <= pos p' <= code_len p -> wf p'.
Proof. unfold wf, code_len. intros [_ H] -> ?. done. Qed.

Section rules.
Context {A B : Type}.
Implicit Types (m : ST Parser (result A AmlParseError)) (k : A -> ST Parser (result B AmlParseError)).

Lemma runs_neg n (d : A -> Z) m : n < 0 -> runs n d m.
Proof. intros Hn p [Hp _] Hl. unfold left in Hl. lia. Qed.

Lemma runs_bind n (d : A -> Z) (e : B -> Z) m k :
  runs n d m -> (forall a, runs (n - d a) (fun b => e b - d a) (k a)) -> runs n e (ebind m k).
Proof.
  intros Hm Hk p Hw Hl. apply wp_ebind. eapply wp_mono; [by apply Hm|]. intros [a|err] p1 (E1 & H1 & H2); [|done].
  eapply wp_mono; [apply Hk|].
  - by eapply wf_same.
  - unfold left, code_len in *. rewrite E1. lia.
  - intros [b|err] p2 (E2 & H3 & H4); (split_and!; [congruence|unfold code_len in *; rewrite E1 in H3; lia|unfold code_len in *; rewrite E1 in H3; lia|]); [lia|done].
Qed.

Lemma runs_weak n n' (d d' : A -> Z) m : runs n d m -> n' <= n -> (forall a, d' a <= d a) -> runs n' d' m.
Proof.
  intros Hm Hn Hd p Hw Hl. eapply wp_mono; [apply Hm; [done|lia]|]. intros [a|e] p' (E & H1 & H2); (split_and!; [done|lia..|]); [|done].
  specialize (Hd a). lia.
Qed.

Lemma runs_mono n (d d' : A -> Z) m : runs n d m -> (forall a, d' a <= d a) -> runs n d' m.
Proof. intros Hm Hd. by eapply runs_weak. Qed.

Lemma runs_good n (e : A -> Z) a : e a <= 0 -> runs n e (good a).
Proof. intros He p [Hp _] _. unfold good. wp_step. split_and!; [done|lia..]. Qed.
Lemma runs_fail n (e : A -> Z) err : runs n e (fail err).
Proof. intros p [Hp _] _. unfold fail. wp_step. split_and!; [done|lia..|done]. Qed.
Lemma runs_panic n (e : A -> Z) : runs n e panic.
Proof. done. Qed.
Lemma runs_mret n (e : B -> Z) (r : result A AmlParseError) k : (forall a, runs n e (k a)) -> runs n e (ebind (mret r) k).
Proof. intros Hk p Hw Hl. apply wp_ebind. wp_step. destruct r; [by apply Hk|]. split_and!; [done|apply Hw..|done]. Qed.
Lemma runs_lift {C} n (e : B -> Z) (o : outcome C) (k : C -> ST Parser (result B AmlParseError)) :
  o <> Diverge -> (forall c, runs n e (k c)) -> runs n e (c ← lift o; k c).
Proof. intros Ho Hk p Hw Hl. destruct o; [|done..]. by apply (Hk a p). Qed.
Lemma runs_lift_res n (e : B -> Z) (o : outcome (result A AmlParseError)) k :
  o <> Diverge -> (forall a, runs n e (k a)) -> runs n e (ebind (lift o) k).
Proof.
  intros Ho Hk p Hw Hl. apply wp_ebind. destruct o as [[a|err]| |]; [by apply Hk| |done..].
  unfold wp, lift. split_and!; [done|apply Hw..|done].
Qed.
Lemma runs_get n (e : B -> Z) (k : Parser -> ST Parser (result B AmlParseError)) : (forall q, runs n e (k q)) -> runs n e (q ← get; k q).
Proof. intros Hk p Hw Hl. wp_step. wp_step. by apply Hk. Qed.
Lemma runs_stays {C} n (e : B -> Z) (m : ST Parser C) (k : C -> ST Parser (result B AmlParseError)) :
  stays n m -> (forall c, runs n e (k c)) -> runs n e (c ← m; k c).
Proof.
  intros Hm Hk p Hw Hl. wp_step. eapply wp_mono; [by apply Hm|]. intros c p1 [E1 E2].
  assert (Hl1 : left p1 = left p) by (unfold left, code_len; by rewrite E1, E2).
  eapply wp_mono; [apply Hk; [eapply wf_same; [done|done|rewrite E2; apply Hw]|lia]|]. cbn beta. rewrite E2.
  intros r p2 (E3 & H3 & H4). unfold code_len in *. rewrite E1 in *. split_and!; [congruence|lia..|done].
Qed.
Lemma runs_if n (e : A -> Z) (b : bool) (m1 m2 : ST Parser (result A AmlParseError)) : runs n e m1 -> runs n e m2 -> runs n e (if b then m1 else m2).
Proof. by destruct b. Qed.
End rules.

(** ** Bytes *)
Section bytes.
Context (n : Z).

Lemma runs_byte : runs n (fun _ => 1) get_next_byte.
Proof.
  intros p [Hp Hb] _. unfold get_next_byte. wp_step. wp_step. destruct (Z.leb_spec (code_len p) (pos p)).
  - unfold fail. wp_step. split_and!; [done|lia..|done].
  - wp_step. destruct (code p !! Z.to_nat (pos p)); [|done]. eapply wp_lift_ret; [done|]. unfold good. wp_steps. cbn. split_and!; [done|lia..].
Qed.
Lemma runs_peek : runs n (fun _ => 0) peek_next_byte.
Proof.
  intros p [Hp Hb] _. unfold peek_next_byte. wp_step. wp_step. case_match.
  - unfold fail. wp_step. split_and!; [done|lia..|done].
  - wp_step. destruct (code p !! Z.to_nat (pos p)); [|done]. eapply wp_lift_ret; [done|]. unfold good. wp_steps. split_and!; [done|lia..].
Qed.
Lemma runs_forward k : 0 <= k -> runs n (fun _ => k) (forward k).
Proof.
  intros Hk p [Hp Hb] _. unfold forward. wp_step. wp_step. destruct (Z.ltb_spec (code_len p) (pos p + k)).
  - unfold fail. wp_step. split_and!; [done|lia..|done].
  - unfold good. wp_steps. cbn. split_and!; [done|lia..].
Qed.
Lemma runs_backward : runs n (fun _ => -1) (backward 1).
Proof.
  intros p [Hp Hb] _. unfold backward. wp_step. wp_step. destruct (Z.eqb_spec (pos p) 0).
  - unfold fail. wp_step. split_and!; [done|lia..|done].
  - unfold good. wp_step. apply wp_csub; [lia|]. wp_steps. cbn. split_and!; [done|lia..].
Qed.
Lemma runs_add_name name : runs n (fun _ => 0) (add_name name).
Proof. intros p [Hp _] _. unfold add_name, good. wp_steps. cbn. split_and!; [done|lia..]. Qed.
Lemma last4_ends name : last4 name <> Diverge.
Proof. unfold last4, csub. case_match; [|done]. cbn. unfold assert_that. by case_match. Qed.
Lemma runs_add_method name k : runs n (fun _ => 0) (add_method name k).
Proof.
  intros p [Hp _] _. unfold add_method, good. wp_step. wp_step. wp_step. unfold add_method_st.
  destruct (last4 name) as [s| |] eqn:E; [|done|by destruct (last4_ends name)]. eapply wp_lift_ret; [done|]. wp_steps. cbn. split_and!; [done|lia..].
Qed.
Lemma runs_check : runs n (fun _ => 0) check_empty.
Proof.
  intros p [Hp _] _. unfold check_empty, fail, good. wp_step. wp_step. case_match.
  - wp_step. apply wp_csub; [lia|]. wp_step. split_and!; [done|lia..|done].
  - wp_step. split_and!; [done|lia..].
Qed.
End bytes.

Create HintDb runs.
#[export] Hint Resolve runs_byte runs_peek runs_backward runs_add_name runs_add_method runs_check runs_panic runs_fail : runs.
#[export] Hint Extern 1 (runs _ _ (forward _)) => apply runs_forward; lia : runs.
#[export] Hint Extern 1 (runs _ _ (good _)) => apply runs_good; cbn; lia : runs.
#[export] Hint Resolve assert_not_diverge csub_not_diverge : runs.

(** walk over a function of the parser *)
Ltac walk_step :=
  lazymatch goal with
  | |- runs _ _ (ebind (mret _) _) => apply runs_mret; intros ?
  | |- runs _ _ (ebind (lift _) _) => apply runs_lift_res; [|intros ?]
  | |- runs _ _ (ebind _ _) => eapply runs_bind; [solve [eauto with runs]|intros ?; cbn beta]
  | |- runs _ _ (get ≫= _) => apply runs_get; intros ?
  | |- runs _ _ (lift _ ≫= _) => apply runs_lift; [eauto with runs|intros ?]
  | |- runs _ _ (if _ then _ else _) => apply runs_if
  | |- runs _ _ (match ?x with _ => _ end) => destruct x
  | |- runs _ _ _ => solve [eauto with runs]
  end.
Ltac walk := repeat (cbv zeta; walk_step).

Lemma runs_bytes k n : runs n (fun _ => Z.of_nat k) (get_bytes k).
Proof.
  revert n. induction k as [|k IH]; intros n; cbn [get_bytes]; [walk|]. eapply runs_bind; [apply runs_byte|]. intros b. cbn beta.
  eapply runs_bind; [apply IH|]. intros r. apply runs_good. lia.
Qed.
Lemma runs_le k n : runs n (fun _ => 0) (get_le k).
Proof. unfold get_le. eapply runs_bind; [apply runs_bytes|]. intros b. apply runs_good. lia. Qed.
#[export] Hint Resolve runs_le : runs.

Lemma runs_pkg_loop k : forall n i l, runs n (fun _ => 0) (pkg_loop k i l).
Proof.
  induction k as [|k IH]; intros n i l; cbn [pkg_loop]; [walk|]. eapply runs_bind; [apply runs_byte|]. intros b.
  eapply runs_mono; [apply IH|cbn; lia].
Qed.

Lemma runs_pkg n : runs n (fun l => 1) get_pkg_length.
Proof.
  unfold get_pkg_length. eapply runs_bind; [apply runs_byte|]. intros b. cbv zeta. cbn beta. apply runs_if; [walk|]. apply runs_if; [walk|].
  eapply runs_bind; [apply runs_pkg_loop|]. intros l. cbn beta. walk.
Qed.
#[export] Hint Resolve runs_pkg : runs.

(** the length is never negative *)
Lemma csub_post P a b (p : Parser) (Q : Z -> Parser -> Prop) : P -> (b <= a -> Q (a - b) p) -> wp P (lift (csub a b)) p Q.
Proof. intros HP HQ. unfold wp, lift, csub. destruct (Z.leb_spec b a); auto. Qed.

Lemma pkg_post p : wf p ->
  wp True get_pkg_length p (fun r p' => code p' = code p /\ 0 <= pos p' <= code_len p /\ match r with Ok l => 0 <= l /\ pos p < pos p' | Err _ => True end).
Proof.
  intros Hw. unfold get_pkg_length. apply wp_ebind. eapply wp_mono; [apply (runs_byte (left p)); [done|lia]|]. intros [b|e] p1 (E1 & H1 & H2); [|done].
  cbv zeta. case_match.
  - wp_step. apply csub_post; [done|]. intros Hc. unfold good. wp_step. split_and!; [done|lia..].
  - case_match; [unfold fail; wp_step; split_and!; [done|lia..|done]|]. assert (Hw1 : wf p1) by by eapply wf_same.
    apply wp_ebind. eapply wp_mono; [apply (runs_pkg_loop _ (left p1)); [done|lia]|]. intros [l|e] p2 (E2 & H3 & H4); unfold code_len in *; rewrite E1 in *.
    + wp_step. apply csub_post; [done|]. intros Hc1. wp_step. apply csub_post; [done|]. intros Hc2. unfold good. wp_step. split_and!; [congruence|lia..].
    + split_and!; [congruence|lia..|done].
Qed.

(** the slice of a package of [l] bytes *)
Lemma slice_wf p p1 l n : wf p -> left p <= n -> code p1 = code p -> 0 <= pos p1 <= code_len p -> 0 <= l -> pos p < pos p1 ->
  pos p1 + l <= code_len p1 ->
  let q := mkParser (take (Z.to_nat l) (drop (Z.to_nat (pos p1)) (code p1))) 0 (state p1) in code_len q = l /\ wf q /\ left q <= n - 1.
Proof.
  intros Hw Hl E1 H1 Hl0 H2 Ha q. assert (Hq : code_len q = l).
  { unfold code_len, q. cbn. unfold code_len in Ha. rewrite length_take, length_drop. lia. }
  split_and!; [done| |].
  - split; [cbn; lia|]. apply Forall_take, Forall_drop. rewrite E1. apply Hw.
  - unfold left in *. rewrite Hq. cbn. unfold code_len in *. rewrite E1 in Ha. lia.
Qed.

Lemma runs_inner {A} n (m : ST Parser (result A AmlParseError)) : runs (n - 1) (fun _ => 0) m -> runs n (fun _ => 1) (in_inner m).
Proof.
  intros Hm p Hw Hl. unfold in_inner. apply wp_ebind. eapply wp_mono; [by apply pkg_post|]. intros [l|e] p1 (E1 & H1 & H2); [|done].
  destruct H2 as [Hl0 H2]. wp_step. wp_step. wp_step. apply wp_assert_or; [done|]. intros Ha. bool_hyps. unfold on_slice.
  set (q := mkParser (take (Z.to_nat l) (drop (Z.to_nat (pos p1)) (code p1))) 0 (state p1)).
  destruct (slice_wf p p1 l n Hw Hl E1 H1 Hl0 H2 Ha) as (_ & Hwq & Hlq).
  pose proof (Hm q Hwq Hlq) as Hr. unfold wp in Hr |- *. fold q. destruct (m q) as [[r q']| |]; [|done..]. cbn. unfold code_len in *.
  rewrite E1 in *. split_and!; [done|lia..|]. destruct r; [lia|done].
Qed.
#[export] Hint Extern 2 (runs _ _ (in_inner _)) => apply runs_inner; cbn beta : runs.

Lemma stays_clone {A} n (m : ST Parser A) : (forall p, wf p -> left p <= n -> wp True m p (fun _ _ => True)) -> stays n (in_clone m).
Proof.
  intros Hm p Hw Hl. specialize (Hm p Hw Hl). unfold in_clone, wp in *. by destruct (m p) as [[a q]| |].
Qed.
Lemma runs_clone {A} n (d : A -> Z) m : runs n d m -> runs n (fun _ : A => 0) (in_clone m).
Proof.
  intros Hm p Hw Hl. specialize (Hm p Hw Hl). unfold in_clone, wp in *. destruct (m p) as [[r q]| |]; [|done..]. cbn.
  destruct Hw as [Hp _]. split_and!; [done|lia..|]. destruct r; [lia|done].
Qed.

(** ** Names *)
Lemma runs_path_tail k : forall n str, runs n (fun _ => 0) (path_tail k str).
Proof.
  induction k as [|k IH]; intros n str; cbn [path_tail]; [walk|]. eapply runs_bind; [apply runs_byte|]. intros b. cbn beta.
  apply runs_if; [|walk]. eapply runs_mono; [apply IH|cbn; lia].
Qed.
Lemma runs_path n : runs n (fun _ => 1) parse_name_path.
Proof.
  unfold parse_name_path. eapply runs_bind; [apply runs_byte|]. intros b. cbn beta. apply runs_if; [walk|].
  eapply runs_mono; [apply runs_path_tail|cbn; lia].
Qed.
#[export] Hint Resolve runs_path : runs.
Lemma runs_parents fuel : forall n str, n < Z.of_nat fuel -> runs n (fun _ => 0) (parents fuel str).
Proof.
  induction fuel as [|fuel IH]; intros n str Hn; [apply runs_neg; lia|]. cbn [parents]. eapply runs_bind; [apply runs_peek|]. intros b. cbn beta.
  apply runs_if; [|walk]. eapply runs_bind; [apply runs_forward; lia|]. intros ?. cbn beta. eapply runs_mono; [apply IH; lia|cbn; lia].
Qed.
Lemma runs_segments k : forall n i c str, runs n (fun _ => 0) (segments k i c str).
Proof.
  induction k as [|k IH]; intros n i c str; cbn [segments]; [walk|]. eapply runs_bind; [apply runs_path|]. intros seg. cbv zeta. cbn beta.
  apply runs_lift; [apply csub_not_diverge|]. intros l. eapply runs_mono; [apply IH|cbn; lia].
Qed.

(** a name that was found took a byte *)
Definition took {A} (o : option A) : Z := match o with Some _ => 1 | None => 0 end.

(** fuel from the length of the code *)
Lemma runs_fuel {A} n (e : A -> Z) (k : nat -> ST Parser (result A AmlParseError)) :
  (forall f n', n' <= n -> n' < Z.of_nat f -> runs n' e (k f)) -> runs n e (q ← get; k (S (length (code q)))).
Proof.
  intros Hk p Hw Hl. wp_step. wp_step. apply (Hk _ (left p)); [done| |done|done].
  unfold left, code_len. destruct Hw as [Hp _]. lia.
Qed.

Lemma peek_post p (Q : result Z AmlParseError -> Parser -> Prop) : wf p ->
  (forall b, code p !! Z.to_nat (pos p) = Some b -> pos p < code_len p -> Q (Ok b) p) -> Q (Err UnexpectedEndOfCode) p -> wp True peek_next_byte p Q.
Proof.
  intros [Hp _] HQ He. unfold peek_next_byte. wp_step. wp_step. destruct (Z.leb_spec (code_len p) (pos p)); [done|].
  wp_step. destruct (code p !! Z.to_nat (pos p)) as [b|] eqn:E; [|done]. eapply wp_lift_ret; [done|]. unfold good. wp_step. by apply HQ.
Qed.

(** the prefixes of a name that begins with one take a byte *)
Lemma parents_take p fuel n str : wf p -> left p <= n -> n < Z.of_nat fuel -> code p !! Z.to_nat (pos p) = Some PARENT_CHAR ->
  wp True (parents fuel str) p (fun r p' => code p' = code p /\ 0 <= pos p' <= code_len p /\ match r with Ok _ => pos p + 1 <= pos p' | Err _ => True end).
Proof.
  intros Hw Hl Hf Hc. destruct fuel as [|fuel]; [unfold left in Hl; destruct Hw; lia|]. cbn [parents]. apply wp_ebind. apply peek_post; [done| |].
  - intros b Hb Hp. rewrite Hc in Hb. injection Hb as <-. cbn beta iota. rewrite Z.eqb_refl.
    apply (runs_bind n (fun _ => 1) (fun _ => 1)); [apply runs_forward; lia| |done|done]. intros ?. cbn beta.
    eapply runs_mono; [apply runs_parents; lia|cbn; lia].
  - split_and!; [done|apply Hw..|done].
Qed.

Lemma runs_name_loop fuel : forall n, n < Z.of_nat fuel -> runs n took (try_parse_name_loop fuel).
Proof.
  induction fuel as [|fuel IH]; intros n Hn; [apply runs_neg; lia|]. cbn [try_parse_name_loop].
  assert (Hname : forall n', n' < n -> runs n' (fun _ => 1)
    (_ ←? peek_next_byte; name ←? try_parse_name_loop fuel; match name with Some name => good name | None => panic end)).
  { intros n' Hn'. eapply runs_bind; [apply runs_peek|]. intros ?. cbn beta. eapply runs_bind; [apply IH; lia|].
    intros [name|]; [apply runs_good; cbn; lia|apply runs_panic]. }
  intros p Hw Hl. apply wp_ebind. apply peek_post; [done| |by split_and!; [|apply Hw..|]]. intros b Hb Hp. cbv zeta. cbn beta iota.
  destruct (b =? 0); [|destruct (lead_name_char b); [|destruct (b =? ROOT_CHAR); [|destruct (Z.eqb_spec b PARENT_CHAR) as [->|_];
    [|destruct (b =? DOT); [|destruct (b =? SLASH)]]]]]; cycle 3.
  - wp_step. wp_step. apply wp_ebind. eapply wp_mono; [apply (parents_take _ _ (left p)); [done|lia| |done]|].
    { unfold left, code_len. destruct Hw. lia. }
    intros [str|e] p1 (E1 & H1 & H2); [|done]. assert (Hw1 : wf p1) by by eapply wf_same.
    assert (Hl1 : left p1 <= n - 1) by (unfold left, code_len in *; rewrite E1; lia).
    eapply wp_mono; [apply (runs_bind (n - 1) (fun _ => 1) took); [apply Hname; lia| |done|done]|].
    + intros name. apply runs_good. cbn. lia.
    + intros [o|e] p2 (E2 & H3 & H4); unfold code_len in *; rewrite E1 in *; (split_and!; [congruence|lia..|]); [lia|done].
  - apply (runs_bind n (fun _ => 1) took); [apply runs_forward; lia| |done|done]. intros ?. cbn beta. eapply runs_bind; [apply runs_path|]. intros s1. cbn beta.
    eapply runs_bind; [apply runs_path|]. intros s2. apply runs_good. cbn. lia.
  - apply (runs_bind n (fun _ => 1) took); [apply runs_forward; lia| |done|done]. intros ?. cbn beta. eapply runs_bind; [apply runs_byte|]. intros c. cbn beta.
    eapply runs_bind; [apply runs_segments|]. intros s. apply runs_good. cbn. lia.
  - apply (runs_good n took); [cbn; lia|done|done].
  - apply (runs_bind n (fun _ => 1) took); [apply runs_forward; lia| |done|done]. intros ?. apply runs_good. cbn. lia.
  - apply (runs_bind n (fun _ => 1) took); [apply runs_path| |done|done]. intros s. apply runs_good. cbn. lia.
  - apply (runs_bind n (fun _ => 1) took); [apply runs_forward; lia| |done|done]. intros ?. cbn beta.
    eapply runs_bind; [apply Hname; lia|]. intros s. apply runs_good. cbn. lia.
Qed.

Lemma runs_try_name n : runs n took try_parse_name.
Proof. unfold try_parse_name. apply runs_fuel. intros f n' _ Hf. by apply runs_name_loop. Qed.
#[export] Hint Resolve runs_try_name : runs.
Lemma runs_name n : runs n (fun _ => 1) parse_name.
Proof.
  unfold parse_name. eapply runs_bind; [apply runs_peek|]. intros ?. cbn beta. eapply runs_bind; [apply runs_try_name|].
  intros [name|]; [apply runs_good; cbn; lia|apply runs_panic].
Qed.
#[export] Hint Resolve runs_name : runs.
Lemma runs_string fuel : forall n str, n < Z.of_nat fuel -> runs n (fun _ => 0) (string_loop fuel str).
Proof.
  induction fuel as [|fuel IH]; intros n str Hn; [apply runs_neg; lia|]. cbn [string_loop]. eapply runs_bind; [apply runs_byte|]. intros b. cbn beta.
  apply runs_if; [walk|]. eapply runs_mono; [apply IH; lia|cbn; lia].
Qed.

(** ** The bytes of a buffer *)
(** what [m] returns satisfies [V] *)
Definition gives {A} n (V : A -> Prop) (m : ST Parser (result A AmlParseError)) : Prop :=
  forall p, wf p -> left p <= n -> wp True m p (fun r _ => match r with Ok a => V a | Err _ => True end).

Lemma wp_and {S A} P (m : ST S A) s (Q R : A -> S -> Prop) : wp P m s Q -> wp P m s R -> wp P m s (fun a s' => Q a s' /\ R a s').
Proof. unfold wp. by destruct (m s) as [[a s']| |]. Qed.

Lemma runs_bind_val {A B} (V : A -> Prop) n (d : A -> Z) (e : B -> Z) (m : ST Parser (result A AmlParseError)) (k : A -> ST Parser (result B AmlParseError)) :
  runs n d m -> gives n V m -> (forall a, V a -> runs (n - d a) (fun b => e b - d a) (k a)) -> runs n e (ebind m k).
Proof.
  intros Hm Hv Hk p Hw Hl. apply wp_ebind. eapply wp_mono; [apply wp_and; [by apply Hm|by apply Hv]|].
  intros [a|err] p1 [(E1 & H1 & H2) Ha]; [|done].
  assert (Hw1 : wf p1) by by eapply wf_same. assert (Hl1 : left p1 <= n - d a) by (unfold left, code_len in *; rewrite E1; lia).
  eapply wp_mono; [by apply (Hk a Ha)|]. unfold code_len in *. rewrite E1 in *.
  intros [b|err] p2 (E2 & H3 & H4); (split_and!; [congruence|lia..|]); [lia|done].
Qed.

(** a parser of a slice gives what it gives on any code *)
Lemma gives_inner {A} n (V : A -> Prop) m : gives (n - 1) V m -> gives n V (in_inner m).
Proof.
  intros Hm p Hw Hl. unfold in_inner. apply wp_ebind. eapply wp_mono; [by apply pkg_post|]. intros [l|e] p1 (E1 & H1 & H2); [|done].
  destruct H2 as [Hl0 H2]. wp_step. wp_step. wp_step. apply wp_assert_or; [done|]. intros Ha. bool_hyps. unfold on_slice.
  set (q := mkParser (take (Z.to_nat l) (drop (Z.to_nat (pos p1)) (code p1))) 0 (state p1)).
  destruct (slice_wf p p1 l n Hw Hl E1 H1 Hl0 H2 Ha) as (_ & Hwq & Hlq). pose proof (Hm q Hwq Hlq) as Hr. unfold wp in Hr |- *. fold q.
  by destruct (m q) as [[r q']| |].
Qed.
(** ** The circle *)
(** a term that was not found has given its opcode back *)
Definition took_term {A} (o : option A) : Z := match o with Some _ => 0 | None => -1 end.

#[export] Hint Extern 1 (_ <= _) => lia : runs.

Section circle.
Context (rec : Calls) (n : Z).
Hypothesis Hdata : forall k, k <= n -> runs k took (try_parse_data_object_ rec).
Hypothesis Harg : forall k b c, k <= n -> runs k (fun _ => 0) (parse_term_arg_general_ rec b c).
Hypothesis Htarget : forall k, k <= n -> runs k (fun _ => 0) (parse_target_ rec).
Hypothesis Hterms : forall k, k <= n -> runs k (fun _ => 0) (terms_loop_ rec).
Hypothesis Hfields : forall k b, k <= n -> runs k (fun _ => 0) (fields_loop_ rec b).
Hypothesis Helements : forall k, k <= n -> runs k (fun _ => 0) (elements_loop_ rec).

Lemma end_arg k : k <= n -> runs k (fun _ => 0) (parse_term_arg rec).
Proof. apply Harg. Qed.
Lemma end_last k : k <= n -> runs k (fun _ => 0) (parse_term_arg_last rec).
Proof. apply Harg. Qed.
Lemma end_narg k : k <= n -> runs k (fun _ => 0) (parse_term_arg_non_method_arg rec).
Proof. apply Harg. Qed.
Lemma end_target k : k <= n -> runs k (fun _ => 0) (parse_target rec).
Proof. apply Htarget. Qed.
Hint Resolve end_arg end_last end_narg end_target : runs.

Lemma end_term_list k : k <= n -> runs k (fun _ => 0) (parse_term_list rec).
Proof. intros Hk. unfold parse_term_list, remaining_bytes. walk. Qed.
Hint Resolve end_term_list : runs.

(** the body of an object *)
Ltac body := let p := fresh "p" in eapply runs_mono; [apply runs_inner; walk|cbn; intros p; lia].

Lemma end_scope ty k : k <= n + 1 -> runs k (fun _ => 0) (scope_parse rec ty).
Proof. intros Hk. unfold scope_parse. body. Qed.
Lemma end_method k : k <= n + 1 -> runs k (fun _ => 0) (method_parse rec).
Proof. intros Hk. unfold method_parse. body. Qed.
Lemma end_predicate k : k <= n + 1 -> runs k (fun _ => 0) (predicate_parse rec).
Proof. intros Hk. unfold predicate_parse. body. Qed.
Lemma end_processor k : k <= n + 1 -> runs k (fun _ => 0) (processor_parse rec).
Proof. intros Hk. unfold processor_parse. body. Qed.
Lemma end_power k : k <= n + 1 -> runs k (fun _ => 0) (power_resource_parse rec).
Proof. intros Hk. unfold power_resource_parse. body. Qed.
Hint Resolve end_scope end_method end_predicate end_processor end_power : runs.
Lemma end_region k : k <= n -> runs k (fun _ => 0) (region_parse rec).
Proof. intros Hk. unfold region_parse. walk. Qed.
Lemma end_fields k : k <= n -> runs k (fun _ => 0) (parse_fields_list_and_flags rec).
Proof. intros Hk. unfold parse_fields_list_and_flags. walk. Qed.
Hint Resolve end_region end_fields : runs.
Lemma end_field k : k <= n + 1 -> runs k (fun _ => 0) (field_parse rec).
Proof. intros Hk. unfold field_parse. body. Qed.
Lemma end_index_field k : k <= n + 1 -> runs k (fun _ => 0) (index_field_parse rec).
Proof. intros Hk. unfold index_field_parse. body. Qed.
Hint Resolve end_field end_index_field : runs.

Lemma end_args j : forall k, k <= n -> runs k (fun _ => 0) (args_loop rec j).
Proof. induction j as [|j IH]; intros k Hk; cbn [args_loop]; walk. Qed.
Hint Resolve end_args : runs.

Lemma end_predict j : forall k x name c, k <= n -> forall p, wf p -> left p <= k -> wp True (predict_loop rec j x name c) p (fun _ _ => True).
Proof.
  induction j as [|j IH]; intros k x name c Hk p Hw Hl; cbn [predict_loop]; [done|]. wp_step. eapply wp_mono; [by apply (end_arg k)|].
  intros r p1 (E1 & H1 & H2). assert (Hw1 : wf p1) by by eapply wf_same.
  assert (Hnext : forall a, r = Ok a -> forall c', wp True (predict_loop rec j x name c') p1 (fun _ _ => True)).
  { intros a -> c'. apply (IH k); [done|done|]. unfold left, code_len in *. rewrite E1. lia. }
  destruct r as [[t|d|i|i|v]|e]; cbn beta iota; try by eapply Hnext.
  - destruct (no_argument t); [done|by eapply Hnext].
  - destruct (bool_decide _); [done|by eapply Hnext].
  - destruct e; try done. destruct (_ && x); [|done]. wp_step. wp_step. wp_step. unfold remaining_bytes. apply csub_post; [done|]. by case_match.
Qed.
Lemma stays_predict k x name : k <= n -> stays k (predict_possible_args rec x name).
Proof. intros Hk. apply stays_clone. by apply end_predict. Qed.

Lemma find_method_ends s name : find_method s name <> Diverge.
Proof. unfold find_method. pose proof (last4_ends name). by destruct (last4 name). Qed.
Lemma find_name_ends s name : find_name s name <> Diverge.
Proof. unfold find_name. pose proof (last4_ends name). by destruct (last4 name). Qed.
Hint Resolve find_method_ends find_name_ends : runs.

Lemma stays_nargs k b x name : k <= n -> stays k (option_nargs rec b x name).
Proof.
  intros Hk p Hw Hl. unfold option_nargs. wp_step. wp_step. wp_step.
  destruct (find_method (state p) name) as [[c|]| |] eqn:E; [done| |done|by destruct (find_method_ends (state p) name)].
  eapply wp_lift_ret; [done|]. cbn beta iota. wp_step.
  destruct (find_name (state p) name) as [known| |] eqn:E2; [|done|by destruct (find_name_ends (state p) name)].
  eapply wp_lift_ret; [done|]. destruct known; [done|]. destruct b; [|done].
  wp_step. eapply wp_mono; [by apply (stays_predict k x name Hk)|]. intros c p1 [E3 E4]. by case_match.
Qed.

(** the terms that begin with a name *)
Lemma end_call k : k <= n -> runs k took_term (call_term rec).
Proof.
  intros Hk. unfold call_term. eapply runs_bind; [apply runs_backward|]. intros ?. cbn beta. eapply runs_bind; [apply runs_try_name|].
  intros [name|]; cbn beta iota; [|apply runs_good; cbn; lia]. apply runs_lift; [apply assert_not_diverge|]. intros ?.
  apply runs_get. intros q. apply runs_lift; [apply find_method_ends|]. intros m. cbn [took].
  apply runs_stays.
  - destruct m; [intros p Hw Hl; done|]. apply stays_predict. lia.
  - intros c'. eapply runs_bind; [apply end_args; lia|]. intros args. apply runs_good. cbn. lia.
Qed.
Hint Resolve end_call : runs.
Lemma end_term opcode k : k <= n -> runs k took_term (try_parse_term rec opcode).
Proof.
  intros Hk. unfold try_parse_term, alias_term, name_term, method_term, extra_term, extra_op, create_field_term, not_term, not_op, else_term,
    nargs_target, args_target, arg_target, with_args, with_arg, with_target, term.
  walk.
  - destruct a1; apply runs_good; cbn; lia.
  - eapply runs_bind; [apply runs_inner; walk|]. intros ts. apply runs_good. cbn. lia.
Qed.

(** data objects: two bytes are consumed before a call *)
Lemma end_buffer k : k <= n + 1 -> runs k (fun _ => 0) (buffer_parse rec).
Proof.
  intros Hk. unfold buffer_parse. eapply (runs_bind_val (fun b : Buffer => Forall is_byte (buf_data b))).
  - apply runs_inner. walk.
  - apply gives_inner. intros p Hw Hl. apply wp_ebind. eapply wp_mono; [apply (end_arg (k - 1)); [lia|done|done]|].
    intros [a|e] p1 (E1 & _ & _); [|done]. unfold good. wp_steps. cbn. rewrite E1. apply Forall_drop, Hw.
  - intros b Hb. apply runs_lift_res; [by apply template_ends|]. intros t. apply runs_good. lia.
Qed.
Hint Resolve end_buffer : runs.
Lemma end_data k : k <= n + 2 -> runs k took (try_parse_data_object rec).
Proof.
  intros Hk. unfold try_parse_data_object, integer. eapply runs_bind; [apply runs_byte|]. intros b. cbn beta. repeat apply runs_if; try (solve [walk]).
  - apply (runs_fuel _ _ (fun f => str ←? string_loop f []; good (Some (StringObj str)))). intros f n' Hn' Hf.
    eapply runs_bind; [by apply runs_string|]. intros s. apply runs_good. cbn. lia.
  - unfold package_parse. eapply runs_bind; [apply runs_inner; walk|]. intros s. apply runs_good. cbn. lia.
  - unfold var_package_parse. eapply runs_bind; [apply runs_inner; walk|]. intros s. apply runs_good. cbn. lia.
Qed.

Lemma end_element k : k <= n -> runs k (fun _ => 1) (parse_package_element rec).
Proof.
  intros Hk. unfold parse_package_element. eapply runs_bind; [by apply Hdata|]. intros [d|]; [apply runs_good; cbn; lia|].
  eapply runs_bind; [apply runs_try_name|]. intros [name|]; [apply runs_good; cbn; lia|apply runs_fail].
Qed.
Lemma access_attrib_ends a b : access_attrib a b <> Diverge.
Proof. unfold access_attrib. repeat case_match; done. Qed.
Hint Resolve access_attrib_ends : runs.
Lemma end_field_element k b : k <= n + 1 -> runs k (fun _ => 1) (field_element rec b).
Proof.
  intros Hk. unfold field_element. eapply runs_bind; [apply runs_peek|]. intros l. cbn beta. repeat apply runs_if; try (solve [walk]).
  eapply runs_bind; [apply runs_forward; lia|]. intros ?. cbn beta. eapply runs_bind; [eapply runs_clone, Hdata; lia|]. intros d. cbn beta.
  apply (runs_bind _ (fun _ => 0)); [destruct d as [[]|]; walk|]. intros c. apply runs_good. cbn. lia.
Qed.
Lemma end_fields_loop k b : k <= n + 1 -> runs k (fun _ => 0) (fields_loop rec b).
Proof.
  intros Hk. unfold fields_loop. apply runs_get. intros q. apply runs_if; [|walk]. eapply runs_bind; [by apply end_field_element|]. intros f. cbn beta.
  eapply runs_bind; [apply Hfields; lia|]. intros r. apply runs_good. lia.
Qed.
End circle.

Section loops.
Context (rec : Calls) (n : Z).
Hypothesis Hterm : forall k o, k <= n -> runs k took_term (try_parse_term_ rec o).
Hypothesis Hterms : forall k, k <= n -> runs k (fun _ => 0) (terms_loop_ rec).
Hypothesis Harg : forall k b c, k <= n -> runs k (fun _ => 0) (parse_term_arg_general_ rec b c).
Hypothesis Helements : forall k, k <= n -> runs k (fun _ => 0) (elements_loop_ rec).
Hypothesis Hdata : forall k, k <= n + 1 -> runs k took (try_parse_data_object_ rec).

Lemma end_terms_loop k : k <= n + 1 -> runs k (fun _ => 0) (terms_loop rec).
Proof.
  intros Hk. unfold terms_loop, parse_term. apply runs_get. intros q. apply runs_if; [|walk].
  eapply (runs_bind _ (fun _ => 1)).
  - eapply runs_bind; [apply runs_byte|]. intros b. cbn beta. eapply runs_bind; [apply Hterm; lia|].
    intros [t|]; [apply runs_good; cbn; lia|apply runs_panic].
  - intros t. cbn beta. eapply runs_bind; [apply Hterms; lia|]. intros r. apply runs_good. lia.
Qed.
Lemma end_elements_loop k : k <= n + 1 -> runs k (fun _ => 0) (elements_loop rec).
Proof.
  intros Hk. unfold elements_loop. apply runs_get. intros q. apply runs_if; [|walk].
  eapply runs_bind; [apply (end_element rec (n + 1)); [exact Hdata|lia]|]. intros e. cbn beta.
  eapply runs_bind; [apply Helements; lia|]. intros r. apply runs_good. lia.
Qed.
Lemma end_target_body k : k <= n + 1 -> runs k (fun _ => 0) (parse_target_body rec).
Proof.
  intros Hk. unfold parse_target_body. eapply runs_bind; [apply runs_peek|]. intros b. cbn beta. repeat apply runs_if; try (solve [walk]).
  destruct (try_parse_local b); [walk|]. destruct (try_parse_arg b); [walk|]. eapply runs_bind; [apply runs_try_name|].
  intros [name|]; [apply runs_good; cbn; lia|]. cbn [took]. eapply runs_bind; [apply runs_forward; lia|]. intros ?. cbn beta.
  eapply runs_bind; [apply Hterm; lia|]. intros [[]|]; first [apply runs_fail|apply runs_good; cbn; lia].
Qed.
Lemma end_arg_general k b c : k <= n + 1 -> runs k (fun _ => 0) (parse_term_arg_general rec b c).
Proof.
  intros Hk. unfold parse_term_arg_general. eapply runs_bind; [by apply Hdata|]. intros [d|]; [apply runs_good; cbn; lia|]. cbn [took].
  eapply runs_bind; [apply runs_byte|]. intros l. cbn beta. destruct (try_parse_local l); [apply runs_good; lia|].
  destruct (try_parse_arg l); [apply runs_good; lia|]. eapply runs_bind; [apply runs_backward|]. intros ?. cbn beta.
  eapply runs_bind; [apply runs_try_name|]. intros [name|]; cbn [took].
  - apply runs_lift; [apply assert_not_diverge|]. intros ?. apply runs_stays.
    + apply (stays_nargs rec n); [exact Harg|lia].
    + intros [m|]; [|apply runs_good; lia]. eapply runs_bind; [apply (end_args rec n); [exact Harg|lia]|]. intros args. apply runs_good. lia.
  - eapply runs_bind; [apply runs_forward; lia|]. intros ?. cbn beta. eapply runs_bind; [apply Hterm; lia|].
    intros [t|]; [apply runs_good; cbn; lia|apply runs_panic].
Qed.
End loops.

(** Every function of the circle ends when it has three levels of fuel for a
    byte of code. *)
Record circle_ends (fuel : nat) : Prop := mkEnds {
  ends_data : forall n, 3 * n + 1 <= Z.of_nat fuel -> runs n took (try_parse_data_object_ (knot fuel));
  ends_arg : forall n b c, 3 * n + 2 <= Z.of_nat fuel -> runs n (fun _ => 0) (parse_term_arg_general_ (knot fuel) b c);
  ends_term : forall n o, 3 * n + 3 <= Z.of_nat fuel -> runs n took_term (try_parse_term_ (knot fuel) o);
  ends_target : forall n, 3 * n + 2 <= Z.of_nat fuel -> runs n (fun _ => 0) (parse_target_ (knot fuel));
  ends_terms : forall n, 3 * n + 2 <= Z.of_nat fuel -> runs n (fun _ => 0) (terms_loop_ (knot fuel));
  ends_elements : forall n, 3 * n + 2 <= Z.of_nat fuel -> runs n (fun _ => 0) (elements_loop_ (knot fuel));
  ends_fields : forall n b, 3 * n + 2 <= Z.of_nat fuel -> runs n (fun _ => 0) (fields_loop_ (knot fuel) b)
}.

Lemma knot_ends fuel : circle_ends fuel.
Proof.
  induction fuel as [|fuel IH]; [constructor; intros; apply runs_neg; lia|].
  destruct IH as [Hd Ha Ht Hg Hl He Hf]. constructor; intros n; cbn [knot try_parse_data_object_ parse_term_arg_general_ try_parse_term_ parse_target_
    terms_loop_ elements_loop_ fields_loop_].
  - intros Hn. apply (end_data (knot fuel) (n - 2)); [intros; apply Ha; lia|intros; apply He; lia|lia].
  - intros b c Hn. apply (end_arg_general (knot fuel) (n - 1)); [intros; apply Ht; lia|intros; apply Ha; lia|intros; apply Hd; lia|lia].
  - intros o Hn. apply (end_term (knot fuel) n); [intros; apply Hd; lia|intros; apply Ha; lia|intros; apply Hg; lia|intros; apply Hl; lia|intros; apply Hf; lia|lia].
  - intros Hn. apply (end_target_body (knot fuel) (n - 1)); [intros; apply Ht; lia|lia].
  - intros Hn. apply (end_terms_loop (knot fuel) (n - 1)); [intros; apply Ht; lia|intros; apply Hl; lia|lia].
  - intros Hn. apply (end_elements_loop (knot fuel) (n - 1)); [intros; apply He; lia|intros; apply Hd; lia|lia].
  - intros b Hn. apply (end_fields_loop (knot fuel) (n - 1)); [intros; apply Hd; lia|intros; apply Hf; lia|lia].
Qed.

(** C24: The parser ends on any bytes: it returns the code, reports an error, or
    stops at one of its assertions, with the fuel [parse_aml] gives it. *)
Theorem parse_aml_terminates code : Forall is_byte code -> parse_aml code <> Diverge.
Proof.
  intros Hb. unfold parse_aml, parse_root. set (p := mkParser code 0 _).
  assert (Hw : wf p) by (split; [unfold code_len; cbn; lia|done]).
  assert (Hl : left p <= Z.of_nat (length code)) by (unfold left, code_len; cbn; lia).
  assert (Hr : runs (Z.of_nat (length code)) (fun _ => 0) (terms ←? parse_term_list (knot (3 * length code + 3)); good (mkAmlCode terms))).
  { apply (runs_bind _ (fun _ => 0)); [|intros t; apply runs_good; cbn; lia].
    apply (end_term_list _ (Z.of_nat (length code))); [|lia]. intros k Hk. apply ends_terms; [apply knot_ends|lia]. }
  specialize (Hr p Hw Hl). unfold wp in Hr. by destruct (ebind _ _ p) as [[r p']| |].
Qed.
