(* ===== verification/AmlDecode.v ===== *)
(** * The grammar of AML

    A declarative grammar of the byte code: which bytes encode which terms,
    given the methods and names that are known at that point.  It is stated
    as an inductive relation, with the operators of the language in tables.

    The grammar asks that a method is defined before it is called and a name
    before it is used; where that is not so, the parser guesses. *)
From S2P Require Import Prelude UserLink FsTypes Bytes AmlData Resource Aml.

Import AmlData Aml.

(** ** Names *)
(** a path: the root, or a number of parents, and the segments *)
Record path : Type := mkPath { from_root : bool; parents_up : nat; segs : list bytes }.
Definition segment (s : bytes) : Prop :=
  exists a b c d, s = [a; b; c; d] /\ lead_name_char a = true /\ name_char b = true /\ name_char c = true /\ name_char d = true.
Fixpoint join (ss : list bytes) : bytes :=
  match ss with [] => [] | [s] => s | s :: ss => s ++ DOT :: join ss end.
Definition prefix (p : path) : bytes := (if from_root p then [ROOT_CHAR] else []) ++ replicate (parents_up p) PARENT_CHAR.
Definition path_string (p : path) : bytes := prefix p ++ join (segs p).
Definition path_code (p : path) : bytes :=
  prefix p ++ match segs p with
  | [] => [0]
  | [s] => s
  | [s; s'] => DOT :: s ++ s'
  | ss => SLASH :: Z.of_nat (length ss) :: concat ss
  end.
Definition path_ok (p : path) : Prop :=
  Forall segment (segs p) /\ is_byte (Z.of_nat (length (segs p))) /\ (from_root p = true \/ (0 < parents_up p)%nat \/ segs p <> []).
(** [c] encodes the name [n] *)
Definition e_name (n c : bytes) : Prop := exists p, path_ok p /\ n = path_string p /\ c = path_code p.

(** ** Package lengths *)
(** [c] says that [l] bytes follow it: it counts itself, with one to three
    further bytes when the first is not enough *)
Inductive e_pkg (l : Z) : bytes -> Prop :=
| EP_one : 0 <= l < 63 -> e_pkg l [l + 1]
| EP_more k : (1 <= k <= 3)%nat -> 0 <= l -> l + Z.of_nat k + 1 < 16 * 256 ^ Z.of_nat k ->
    e_pkg l (64 * Z.of_nat k + (l + Z.of_nat k + 1) mod 16 :: le k ((l + Z.of_nat k + 1) / 16)).
Definition size (c : bytes) : Z := Z.of_nat (length c).

(** ** Operators *)
Definition args_target_ops : list (Z * (TermArg -> TermArg -> Target -> AmlTerm)) :=
  [(0x72, Add); (0x73, Concat); (0x74, Subtract); (0x77, Multiply); (0x7C, Nand); (0x7D, Or); (0x7E, Nor); (0x7F, Xor);
   (0x84, ConcatRes); (0x85, Mod); (0x88, Index)].
(** the first argument may be a new name *)
Definition nargs_target_ops : list (Z * (TermArg -> TermArg -> Target -> AmlTerm)) := [(0x79, ShiftLeft); (0x7A, ShiftRight); (0x7B, And)].
Definition arg_target_ops : list (Z * (TermArg -> Target -> AmlTerm)) :=
  [(0x70, Store); (0x80, Not); (0x81, FindSetLeftBit); (0x82, FindSetRightBit); (0x96, ToBuffer); (0x97, ToDecimalString);
   (0x98, ToHexString); (0x99, ToInteger)].
Definition args_ops : list (bytes * (TermArg -> TermArg -> AmlTerm)) :=
  [([0x90], LAnd); ([0x91], LOr); ([0x93], LEqual); ([0x94], LGreater); ([0x95], LLess);
   ([0x92; 0x93], LNotEqual); ([0x92; 0x94], LLessEqual); ([0x92; 0x95], LGreaterEqual)].
Definition arg_ops : list (bytes * (TermArg -> AmlTerm)) :=
  [([0x83], DerefOf); ([0xA4], Return); ([0x5B; 0x21], Stall); ([0x5B; 0x22], Sleep)].
Definition target_ops : list (bytes * (Target -> AmlTerm)) :=
  [([0x71], RefOf); ([0x75], Increment); ([0x76], Decrement); ([0x87], SizeOf); ([0x8E], ObjectType);
   ([0x5B; 0x24], Signal); ([0x5B; 0x26], Reset); ([0x5B; 0x27], Release)].
Definition create_field_ops : list (Z * (TermArg -> TermArg -> bytes -> AmlTerm)) :=
  [(0x8A, CreateDWordField); (0x8B, CreateWordField); (0x8C, CreateByteField); (0x8D, CreateBitField); (0x8F, CreateQWordField)].
Definition predicate_ops : list (Z * (PredicateBlock -> AmlTerm)) := [(0xA0, If); (0xA2, While)].
Definition scope_ops : list (bytes * ScopeType * (ScopeObj -> AmlTerm)) := [([0x10], TScope, Scope); ([0x5B; 0x82], TDevice, Device)].
Definition plain_ops : list (Z * AmlTerm) := [(0xA3, Noop); (0xA5, Break)].

(** an identifier is an EISA identifier *)
Definition named_data (name : bytes) (d : UnresolvedDataObject) : UnresolvedDataObject :=
  match d with
  | Integer (DWordConst data) => if contains ID name then EisaId (parse_eisa_id data) else d
  | _ => d
  end.
Definition method_flags (m : MethodObj) : Z := num_args m + (if is_serialized m then 8 else 0) + 16 * sync_level m.
Definition field_flags (t : AccessType) (lock : bool) (r : FieldUpdateRule) : Z :=
  (match t with AtAny => 0 | AtByte => 1 | AtWord => 2 | AtDWord => 3 | AtQWord => 4 | AtBuffer => 5 end)
  + (if lock then 16 else 0) + 32 * (match r with Preserve => 0 | WriteAsOnes => 1 | WriteAsZeros => 2 end).

(** ** Terms *)
(** [e_x s t c s']: with the methods and names of [s] known, the bytes [c]
    encode [t], and behind them those of [s'] are known *)
Inductive e_data : State -> UnresolvedDataObject -> bytes -> State -> Prop :=
| ED_zero s : e_data s (Integer ConstZero) [0] s
| ED_one s : e_data s (Integer ConstOne) [1] s
| ED_ones s : e_data s (Integer ConstOnes) [0xFF] s
| ED_byte s b : e_data s (Integer (ByteConst b)) [0xA; b] s
| ED_word s v : fits 2 v -> e_data s (Integer (WordConst v)) (0xB :: le 2 v) s
| ED_dword s v : fits 4 v -> e_data s (Integer (DWordConst v)) (0xC :: le 4 v) s
| ED_qword s v : fits 8 v -> e_data s (Integer (QWordConst v)) (0xE :: le 8 v) s
| ED_string s str : Forall (fun b => 0 < b < 128) str -> e_data s (StringObj str) (0xD :: str ++ [0]) s
| ED_buffer s a ca data cp s' : e_arg true s a ca s' -> Resource.try_parse_buffer data = Ret (Ok None) -> e_pkg (size (ca ++ data)) cp ->
    e_data s (BufferObj (mkBuffer a data)) (0x11 :: cp ++ ca ++ data) s'
| ED_template s a ca data items cp s' : e_arg true s a ca s' -> Resource.try_parse_buffer data = Ret (Ok (Some items)) ->
    e_pkg (size (ca ++ data)) cp -> e_data s (TemplateObj items) (0x11 :: cp ++ ca ++ data) s'
| ED_package s n es ce cp s' : e_elements s es ce s' -> e_pkg (size (n :: ce)) cp -> e_data s (Package n es) (0x12 :: cp ++ n :: ce) s'
| ED_var s a ca es ce cp s1 s' : e_arg true s a ca s1 -> e_elements s1 es ce s' -> e_pkg (size (ca ++ ce)) cp ->
    e_data s (VarPackage a es) (0x13 :: cp ++ ca ++ ce) s'
with e_elements : State -> list (PackageElement UnresolvedDataObject) -> bytes -> State -> Prop :=
| EE_nil s : e_elements s [] [] s
| EE_data s d c es ce s1 s' : e_data s d c s1 -> e_elements s1 es ce s' -> e_elements s (PeDataObject d :: es) (c ++ ce) s'
| EE_name s n c es ce s' : e_name n c -> e_elements s es ce s' -> e_elements s (PeName n :: es) (c ++ ce) s'
(** the flag: may an unknown name be a method call? *)
with e_arg : bool -> State -> TermArg -> bytes -> State -> Prop :=
| EA_data b s d c s' : e_data s d c s' -> e_arg b s (ArgDataObject d) c s'
| EA_local b s i : 0 <= i <= 7 -> e_arg b s (ArgLocal i) [0x60 + i] s
| EA_arg b s i : 0 <= i <= 6 -> e_arg b s (ArgArg i) [0x68 + i] s
| EA_name b s n c : e_name n c -> find_method s n = Ret None -> find_name s n = Ret true -> e_arg b s (ArgName n) c s
| EA_new s n c : e_name n c -> find_method s n = Ret None -> find_name s n = Ret false -> e_arg false s (ArgName n) c (add_name_st n s)
| EA_call b s n c k ts ct s' : e_name n c -> find_method s n = Ret (Some k) -> k = Z.of_nat (length ts) -> e_args s ts ct s' ->
    e_arg b s (ArgExpression (MethodCall n ts)) (c ++ ct) s'
| EA_op b s t c s' : e_op s t c s' -> e_arg b s (ArgExpression t) c s'
with e_args : State -> list TermArg -> bytes -> State -> Prop :=
| EAs_nil s : e_args s [] [] s
| EAs_cons s a ca ts ct s1 s' : e_arg true s a ca s1 -> e_args s1 ts ct s' -> e_args s (a :: ts) (ca ++ ct) s'
with e_target : State -> Target -> bytes -> State -> Prop :=
| EG_none s : e_target s TgNone [0] s
| EG_local s i : 0 <= i <= 7 -> e_target s (TgLocal i) [0x60 + i] s
| EG_arg s i : 0 <= i <= 6 -> e_target s (TgArg i) [0x68 + i] s
| EG_debug s : e_target s TgDebug [0x5B; 0x31] s
| EG_name s n c : e_name n c -> e_target s (TgName n) c s
| EG_index s a ca b cb t ct s1 s2 s' : e_arg true s a ca s1 -> e_arg true s1 b cb s2 -> e_target s2 t ct s' ->
    e_target s (TgIndex a b t) (0x88 :: ca ++ cb ++ ct) s'
| EG_deref s a ca s' : e_arg true s a ca s' -> e_target s (TgDerefOf a) (0x83 :: ca) s'
(** the terms that begin with an operator *)
with e_op : State -> AmlTerm -> bytes -> State -> Prop :=
| EO_args_target s op k a ca b cb t ct s1 s2 s' : (op, k) ∈ args_target_ops ->
    e_arg true s a ca s1 -> e_arg true s1 b cb s2 -> e_target s2 t ct s' -> e_op s (k a b t) (op :: ca ++ cb ++ ct) s'
| EO_nargs_target s op k a ca b cb t ct s1 s2 s' : (op, k) ∈ nargs_target_ops ->
    e_arg false s a ca s1 -> e_arg true s1 b cb s2 -> e_target s2 t ct s' -> e_op s (k a b t) (op :: ca ++ cb ++ ct) s'
| EO_arg_target s op k a ca t ct s1 s' : (op, k) ∈ arg_target_ops ->
    e_arg true s a ca s1 -> e_target s1 t ct s' -> e_op s (k a t) (op :: ca ++ ct) s'
| EO_args s op k a ca b cb s1 s' : (op, k) ∈ args_ops -> e_arg true s a ca s1 -> e_arg true s1 b cb s' -> e_op s (k a b) (op ++ ca ++ cb) s'
| EO_arg s op k a ca s' : (op, k) ∈ arg_ops -> e_arg true s a ca s' -> e_op s (k a) (op ++ ca) s'
(** a negation, of what is no comparison *)
| EO_not s a ca s' : e_arg true s a ca s' -> (exists b, head ca = Some b /\ b <> 0x93 /\ b <> 0x94 /\ b <> 0x95) -> e_op s (LNot a) (0x92 :: ca) s'
| EO_target s op k t ct s' : (op, k) ∈ target_ops -> e_target s t ct s' -> e_op s (k t) (op ++ ct) s'
| EO_divide s a ca b cb t ct u cu s1 s2 s3 s' : e_arg true s a ca s1 -> e_arg true s1 b cb s2 -> e_target s2 t ct s3 -> e_target s3 u cu s' ->
    e_op s (Divide a b t u) (0x78 :: ca ++ cb ++ ct ++ cu) s'
| EO_mid s a ca b cb c cc t ct s1 s2 s3 s' : e_arg true s a ca s1 -> e_arg true s1 b cb s2 -> e_arg true s2 c cc s3 -> e_target s3 t ct s' ->
    e_op s (Mid a b c t) (0x9E :: ca ++ cb ++ cc ++ ct) s'
| EO_notify s t ct a ca s1 s' : e_target s t ct s1 -> e_arg true s1 a ca s' -> e_op s (Notify t a) (0x86 :: ct ++ ca) s'
| EO_wait s t ct a ca s1 s' : e_target s t ct s1 -> e_arg true s1 a ca s' -> e_op s (Wait t a) ([0x5B; 0x25] ++ ct ++ ca) s'
| EO_acquire s t ct v s' : e_target s t ct s' -> fits 2 v -> e_op s (Acquire t v) ([0x5B; 0x23] ++ ct ++ le 2 v) s'
| EO_cond_ref s t ct u cu s1 s' : e_target s t ct s1 -> e_target s1 u cu s' -> e_op s (CondRefOf t u) ([0x5B; 0x12] ++ ct ++ cu) s'
| EO_create s op k a ca b cb n cn s1 s' : (op, k) ∈ create_field_ops -> e_arg true s a ca s1 -> e_arg true s1 b cb s' -> e_name n cn ->
    e_op s (k a b n) (op :: ca ++ cb ++ cn) (add_name_st n s')
| EO_create_field s a ca b cb c cc n cn s1 s2 s' : e_arg true s a ca s1 -> e_arg true s1 b cb s2 -> e_arg true s2 c cc s' -> e_name n cn ->
    e_op s (CreateFieldOp a b c n) ([0x5B; 0x13] ++ ca ++ cb ++ cc ++ cn) s'
| EO_alias s n cn n' cn' : e_name n cn -> e_name n' cn' -> e_op s (Alias n n') (0x06 :: cn ++ cn') (add_name_st n (add_name_st n' s))
| EO_name s n cn d c s' : e_name n cn -> e_data (add_name_st n s) d c s' -> e_op s (NameObj n (named_data n d)) (0x08 :: cn ++ c) s'
| EO_mutex s n cn b : e_name n cn -> e_op s (Mutex n b) ([0x5B; 0x01] ++ cn ++ [b]) s
| EO_event s n cn : e_name n cn -> e_op s (Event n) ([0x5B; 0x02] ++ cn) s
| EO_region s n cn b a ca l cl s1 s' : e_name n cn -> e_arg true s a ca s1 -> e_arg true s1 l cl s' ->
    e_op s (Region (mkRegion n (region_space_from b) a l)) ([0x5B; 0x80] ++ cn ++ b :: ca ++ cl) s'
| EO_scope s op ty k n cn ts ct cp s' : (op, ty, k) ∈ scope_ops -> e_name n cn -> e_terms s ts ct s' -> e_pkg (size (cn ++ ct)) cp ->
    e_op s (k (mkScopeObj ty n ts)) (op ++ cp ++ cn ++ ct) s'
| EO_method s m cn ct cp s1 s' : e_name (mo_name m) cn -> e_terms s (mo_terms m) ct s1 -> 0 <= num_args m < 8 -> 0 <= sync_level m < 16 ->
    add_method_st (mo_name m) (num_args m) s1 = Ret s' -> e_pkg (size (cn ++ method_flags m :: ct)) cp ->
    e_op s (Method m) (0x14 :: cp ++ cn ++ method_flags m :: ct) s'
| EO_processor s p cn ct cp s' : e_name (pr_name p) cn -> e_terms s (pr_terms p) ct s' -> fits 4 (unk2 p) ->
    e_pkg (size (cn ++ unk1 p :: le 4 (unk2 p) ++ unk3 p :: ct)) cp ->
    e_op s (Processor p) ([0x5B; 0x83] ++ cp ++ cn ++ unk1 p :: le 4 (unk2 p) ++ unk3 p :: ct) s'
| EO_power s p cn ct cp s' : e_name (pw_name p) cn -> e_terms s (pw_terms p) ct s' -> fits 2 (resource_order p) ->
    e_pkg (size (cn ++ system_level p :: le 2 (resource_order p) ++ ct)) cp ->
    e_op s (PowerResource p) ([0x5B; 0x84] ++ cp ++ cn ++ system_level p :: le 2 (resource_order p) ++ ct) s'
| EO_predicate s op k a ca ts ct cp s1 s' : (op, k) ∈ predicate_ops -> e_arg true s a ca s1 -> e_terms s1 ts ct s' -> e_pkg (size (ca ++ ct)) cp ->
    e_op s (k (mkPredicate a ts)) (op :: cp ++ ca ++ ct) s'
| EO_else s ts ct cp s' : e_terms s ts ct s' -> e_pkg (size ct) cp -> e_op s (Else ts) (0xA1 :: cp ++ ct) s'
| EO_plain s op t : (op, t) ∈ plain_ops -> e_op s t [op] s
| EO_field s f cn cf cp s' : e_name (fd_name f) cn -> e_fields s 0 (fd_fields f) cf s' ->
    e_pkg (size (cn ++ field_flags (fd_access_type f) (fd_need_lock f) (fd_update_rule f) :: cf)) cp ->
    e_op s (Field f) ([0x5B; 0x81] ++ cp ++ cn ++ field_flags (fd_access_type f) (fd_need_lock f) (fd_update_rule f) :: cf) s'
| EO_index_field s f cn ci cf cp s' : e_name (if_name f) cn -> e_name (if_index_name f) ci -> e_fields s 0 (if_fields f) cf s' ->
    e_pkg (size (cn ++ ci ++ field_flags (if_access_type f) (if_need_lock f) (if_update_rule f) :: cf)) cp ->
    e_op s (IndexField f) ([0x5B; 0x86] ++ cp ++ cn ++ ci ++ field_flags (if_access_type f) (if_need_lock f) (if_update_rule f) :: cf) s'
with e_terms : State -> list AmlTerm -> bytes -> State -> Prop :=
| ES_nil s : e_terms s [] [] s
| ES_op s t c ts ct s1 s' : e_op s t c s1 -> e_terms s1 ts ct s' -> e_terms s (t :: ts) (c ++ ct) s'
| ES_call s n c k args ca ts ct s1 s' : e_name n c -> find_method s n = Ret (Some k) -> k = Z.of_nat (length args) -> e_args s args ca s1 ->
    e_terms s1 ts ct s' -> e_terms s (MethodCall n args :: ts) ((c ++ ca) ++ ct) s'
(** the elements of a field list, from a position in bits on; an element of
    up to 63 bits *)
with e_fields : State -> Z -> list FieldElement -> bytes -> State -> Prop :=
| EF_nil s at_ : e_fields s at_ [] [] s
| EF_named s at_ n w fs c s' : segment n -> 0 < w < 64 -> e_fields (add_name_st n s) (at_ + w) fs c s' ->
    e_fields s at_ (FeNamed n w :: fs) (n ++ w :: c) s'
| EF_offset s at_ w fs c s' : 0 < w < 64 -> (at_ + w) mod 8 = 0 -> e_fields s (at_ + w) fs c s' ->
    e_fields s at_ (FeOffset ((at_ + w) / 8) :: fs) (0 :: w :: c) s'
| EF_access s at_ ty attrib a b fs c s' : access_type_try_from a = Ok ty -> access_attrib a b = Ret attrib -> e_fields s at_ fs c s' ->
    e_fields s at_ (FeAccess ty attrib :: fs) (1 :: a :: b :: c) s'
| EF_extended s at_ ty k attrib a l fs c s' : access_type_try_from a = Ok ty -> (k, attrib) ∈ [(0xB, AaBytes); (0xE, AaRawBytes); (0xF, AaRawProcessBytes)] ->
    e_fields s at_ fs c s' -> e_fields s at_ (FeAccess ty (attrib l) :: fs) (3 :: a :: k :: l :: c) s'
| EF_connection s at_ n cn fs c s' : e_name n cn -> e_fields s at_ fs c s' ->
    e_fields s at_ (FeConnection (FcName n) :: fs) (2 :: cn ++ c) s'.

Scheme e_data_mut := Minimality for e_data Sort Prop
with e_elements_mut := Minimality for e_elements Sort Prop
with e_arg_mut := Minimality for e_arg Sort Prop
with e_args_mut := Minimality for e_args Sort Prop
with e_target_mut := Minimality for e_target Sort Prop
with e_op_mut := Minimality for e_op Sort Prop
with e_terms_mut := Minimality for e_terms Sort Prop
with e_fields_mut := Minimality for e_fields Sort Prop.
Combined Scheme e_mut from e_data_mut, e_elements_mut, e_arg_mut, e_args_mut, e_target_mut, e_op_mut, e_terms_mut, e_fields_mut.

(** * The AML parser decodes the grammar

    Every program of the grammar is read back as it was written: for every
    derivation the parser, with the fuel [parse_aml] gives it, returns the
    term and knows the methods and names the grammar says. *)
Import AmlData Aml.

(** ** Reading *)
(** the parser stands before the bytes [c] and knows [s] *)
Definition here (p : Parser) (c : bytes) (s : State) : Prop :=
  0 <= pos p /\ pos p + size c = code_len p /\ drop (Z.to_nat (pos p)) (code p) = c /\ state p = s.
(** [m] returns [a] and leaves [c] to be read, with [s] known *)
Definition yields (p : Parser) {A} (m : ST Parser (result A AmlParseError)) (a : A) (c : bytes) (s : State) : Prop :=
  wp False m p (fun r p' => r = Ok a /\ here p' c s /\ code p' = code p).
(** [m] reads the bytes [c] as [a] *)
Definition reads {A} (m : ST Parser (result A AmlParseError)) (c : bytes) (a : A) (s s' : State) : Prop :=
  forall p rest, here p (c ++ rest) s -> yields p m a rest s'.
(** [m] reads the bytes [c] as [a] when they are all there is *)
Definition reads_all {A} (m : ST Parser (result A AmlParseError)) (c : bytes) (a : A) (s s' : State) : Prop :=
  forall p, here p c s -> yields p m a [] s'.

Lemma here_skip p a c s : here p (a ++ c) s -> here (mkParser (code p) (pos p + size a) (state p)) c s.
Proof.
  intros (H0 & H1 & H2 & H3). unfold here, size, code_len in *. cbn. rewrite length_app in H1. split_and!; [lia|lia| |done].
  rewrite Z2Nat.inj_add, Nat2Z.id by lia. rewrite <- drop_drop, H2. apply drop_app_length.
Qed.
Lemma here_start c s : here (mkParser c 0 s) c s.
Proof. unfold here, size, code_len. cbn. split_and!; [lia|lia|done|done]. Qed.

Section rules.
Context {A B : Type}.
Implicit Types (m : ST Parser (result A AmlParseError)) (k : A -> ST Parser (result B AmlParseError)).

Lemma yields_bind_code p m k a b c c' s s' : yields p m a c s -> (forall p', here p' c s -> code p' = code p -> yields p' (k a) b c' s') ->
  yields p (ebind m k) b c' s'.
Proof.
  intros Hm Hk. apply wp_ebind. eapply wp_mono; [exact Hm|]. intros r p' (-> & Hp & E). eapply wp_mono; [by apply Hk|].
  intros r2 p2 (-> & H2 & E2). split_and!; [done|done|congruence].
Qed.
Lemma yields_bind p m k a b c c' s s' : yields p m a c s -> (forall p', here p' c s -> yields p' (k a) b c' s') -> yields p (ebind m k) b c' s'.
Proof. intros Hm Hk. eapply yields_bind_code; [exact Hm|]. intros p' Hp _. by apply Hk. Qed.
Lemma yields_bind_state p m k a c s (Q : result B AmlParseError -> Parser -> Prop) : yields p m a c s -> (forall p', here p' c s -> wp False (k a) p' Q) ->
  wp False (ebind m k) p Q.
Proof. intros Hm Hk. apply wp_ebind. eapply wp_mono; [exact Hm|]. intros r p' (-> & Hp & _). by apply Hk. Qed.
Lemma reads_bind m k a b c1 c2 s s1 s2 : reads m c1 a s s1 -> reads (k a) c2 b s1 s2 -> reads (ebind m k) (c1 ++ c2) b s s2.
Proof. intros Hm Hk p rest Hp. rewrite <- app_assoc in Hp. eapply yields_bind; [by apply Hm|]. intros p' Hp'. by apply Hk. Qed.
Lemma reads_bind_all m k a b c1 c2 s s1 s2 : reads m c1 a s s1 -> reads_all (k a) c2 b s1 s2 -> reads_all (ebind m k) (c1 ++ c2) b s s2.
Proof. intros Hm Hk p Hp. eapply yields_bind; [by apply Hm|]. intros p' Hp'. by apply Hk. Qed.
Lemma reads_is_all m c a s s' : reads m c a s s' -> reads_all m c a s s'.
Proof. intros Hm p Hp. apply Hm. by rewrite app_nil_r. Qed.
Lemma reads_good (a : A) s : reads (good a) [] a s s.
Proof. intros p rest Hp. unfold good, yields. by wp_step. Qed.
Lemma reads_lift {C} (o : outcome C) x (k : C -> ST Parser (result B AmlParseError)) c b s s' :
  o = Ret x -> reads (k x) c b s s' -> reads (y ← lift o; k y) c b s s'.
Proof. intros -> Hk p rest Hp. apply (Hk p rest Hp). Qed.
Lemma reads_lift_res (o : outcome (result A AmlParseError)) a k c b s s' :
  o = Ret (Ok a) -> reads (k a) c b s s' -> reads (ebind (lift o) k) c b s s'.
Proof. intros -> Hk p rest Hp. apply (Hk p rest Hp). Qed.
Lemma reads_mret r a k c b s s' : r = Ok a -> reads (k a) c b s s' -> reads (ebind (mret r) k) c b s s'.
Proof. intros -> Hk p rest Hp. apply (Hk p rest Hp). Qed.
Lemma reads_get (k : Parser -> ST Parser (result B AmlParseError)) c b s s' :
  (forall q rest, here q (c ++ rest) s -> reads (k q) c b s s') -> reads (q ← get; k q) c b s s'.
Proof. intros Hk p rest Hp. apply (Hk p rest Hp p rest Hp). Qed.
End rules.

(** ** Bytes *)
Lemma reads_byte b s : reads get_next_byte [b] b s s.
Proof.
  intros p rest Hp. pose proof (here_skip p [b] rest s Hp) as Hn. destruct Hp as (H0 & H1 & H2 & H3). unfold size in H1. cbn in H1.
  unfold get_next_byte, yields, good, fail. wp_step. wp_step. rewrite (proj2 (Z.leb_gt _ _)) by lia. wp_step. eapply wp_lift_ret.
  { assert (E : drop (Z.to_nat (pos p)) (code p) !! 0%nat = Some b) by by rewrite H2. rewrite lookup_drop, Nat.add_0_r in E. by rewrite E. }
  wp_steps. split_and!; [done|exact Hn|done].
Qed.
Lemma yields_peek p b c s : here p (b :: c) s -> yields p peek_next_byte b (b :: c) s.
Proof.
  intros Hp. pose proof Hp as (H0 & H1 & H2 & H3). unfold size in H1. cbn in H1. unfold peek_next_byte, yields, good, fail. wp_step. wp_step.
  rewrite (proj2 (Z.leb_gt _ _)) by lia. wp_step. eapply wp_lift_ret.
  { assert (E : drop (Z.to_nat (pos p)) (code p) !! 0%nat = Some b) by by rewrite H2. rewrite lookup_drop, Nat.add_0_r in E. by rewrite E. }
  by wp_steps.
Qed.
Lemma reads_peek {B} b c x s s' (k : Z -> ST Parser (result B AmlParseError)) : reads (k b) (b :: c) x s s' -> reads (ebind peek_next_byte k) (b :: c) x s s'.
Proof. intros Hk p rest Hp. eapply yields_bind; [by apply yields_peek|]. intros p' Hp'. by apply Hk. Qed.
Lemma reads_forward b s : reads (forward 1) [b] tt s s.
Proof.
  intros p rest Hp. pose proof (here_skip p [b] rest s Hp) as Hn. destruct Hp as (H0 & H1 & H2 & H3). unfold size in H1. cbn in H1.
  unfold forward, yields, good, fail. wp_step. wp_step. rewrite (proj2 (Z.ltb_ge _ _)) by lia. wp_steps. split_and!; [done|exact Hn|done].
Qed.
(** looking at a byte and going back *)
Lemma yields_back {B} p b c x rest s s' (k : Z -> ST Parser (result B AmlParseError)) m : here p (b :: c) s -> yields p m x rest s' ->
  k b = (_ ←? backward 1; m) -> yields p (ebind get_next_byte k) x rest s'.
Proof.
  intros Hp Hy Ek. destruct Hp as (H0 & H1 & H2 & H3). unfold size in H1. cbn in H1.
  apply wp_ebind. unfold get_next_byte, good, fail. wp_step. wp_step. rewrite (proj2 (Z.leb_gt _ _)) by lia. wp_step. eapply wp_lift_ret.
  { assert (E : drop (Z.to_nat (pos p)) (code p) !! 0%nat = Some b) by by rewrite H2. rewrite lookup_drop, Nat.add_0_r in E. by rewrite E. }
  wp_steps. rewrite Ek. apply wp_ebind. unfold backward, good, fail. wp_step. wp_step. cbn [pos]. rewrite (proj2 (Z.eqb_neq _ 0)) by lia.
  wp_step. apply wp_csub; [lia|]. wp_steps. cbn. replace (pos p + 1 - 1) with (pos p) by lia. destruct p. exact Hy.
Qed.
Lemma reads_back {B} b c x s s' (k : Z -> ST Parser (result B AmlParseError)) m : reads m (b :: c) x s s' ->
  k b = (_ ←? backward 1; m) -> reads (ebind get_next_byte k) (b :: c) x s s'.
Proof. intros Hm Ek p rest Hp. eapply yields_back; [exact Hp|by apply Hm|done]. Qed.
Lemma reads_bytes l s : reads (get_bytes (length l)) l l s s.
Proof.
  induction l as [|b l IH]; [apply reads_good|]. cbn [length get_bytes]. change (b :: l) with ([b] ++ l) at 1.
  eapply reads_bind; [apply reads_byte|]. rewrite <- (app_nil_r l) at 2. eapply reads_bind; [exact IH|]. apply reads_good.
Qed.
Lemma reads_le n v s : fits n v -> reads (get_le n) (le n v) v s s.
Proof.
  intros Hv. unfold get_le. rewrite <- (app_nil_r (le n v)). eapply reads_bind; [rewrite <- (length_le n v) at 1; apply reads_bytes|].
  rewrite from_le_le by exact Hv. apply reads_good.
Qed.
Lemma reads_add_name n s : reads (add_name n) [] tt s (add_name_st n s).
Proof.
  intros p rest (H0 & H1 & H2 & H3). unfold add_name, yields, good. wp_steps. split_and!; [done| |done]. unfold here. cbn. by rewrite H3.
Qed.

(** ** Package lengths *)
Lemma reads_pkg_loop k : forall i acc v s, 0 <= i -> 0 <= v < 256 ^ Z.of_nat k -> 0 <= acc < 2 ^ (8 * i + 4) ->
  reads (pkg_loop k i acc) (le k v) (acc + v * 2 ^ (8 * i + 4)) s s.
Proof.
  induction k as [|k IH]; intros i acc v s Hi Hv Ha; cbn [pkg_loop le].
  - change (256 ^ Z.of_nat 0) with 1 in Hv. replace (acc + v * 2 ^ (8 * i + 4)) with acc by nia. apply reads_good.
  - rewrite pow256_succ in Hv. change (v mod 256 :: le k (v / 256)) with ([v mod 256] ++ le k (v / 256)).
    eapply reads_bind; [apply reads_byte|]. cbn beta. pose proof (Z.mod_pos_bound v 256 ltac:(lia)) as Hm.
    rewrite lor_shiftl_add by lia.
    assert (E : 2 ^ (8 * (i + 1) + 4) = 256 * 2 ^ (8 * i + 4)).
    { replace (8 * (i + 1) + 4) with (8 + (8 * i + 4)) by lia. rewrite Z.pow_add_r by lia. done. }
    replace (acc + v * 2 ^ (8 * i + 4)) with ((acc + v mod 256 * 2 ^ (8 * i + 4)) + v / 256 * 2 ^ (8 * (i + 1) + 4)).
    + apply IH; [lia| |].
      * split; [apply Z.div_pos; lia|apply Z.div_lt_upper_bound; lia].
      * rewrite E. nia.
    + rewrite E. rewrite (Z.div_mod v 256) at 3 by lia. ring.
Qed.

Lemma reads_pkg l c s : e_pkg l c -> reads get_pkg_length c l s s.
Proof.
  intros [Hl|k Hk Hl Ht]; unfold get_pkg_length.
  - change [l + 1] with ([l + 1] ++ []). eapply reads_bind; [apply reads_byte|]. cbv zeta.
    rewrite Z.shiftr_div_pow2, Z.div_small by lia. cbn [Z.eqb]. change 0x3F with (Z.ones 6). rewrite Z.land_ones, Z.mod_small by lia.
    eapply reads_lift; [apply csub_ret; lia|]. replace (l + 1 - 1) with l by lia. apply reads_good.
  - set (t := l + Z.of_nat k + 1) in *. pose proof (Z.mod_pos_bound t 16 ltac:(lia)) as Hm. set (lead := 64 * Z.of_nat k + t mod 16).
    assert (E6 : Z.shiftr lead 6 = Z.of_nat k) by (rewrite Z.shiftr_div_pow2 by lia; unfold lead; change (2 ^ 6) with 64; dlia).
    assert (E4 : Z.land (Z.shiftr lead 4) 3 = 0).
    { change 3 with (Z.ones 2). rewrite Z.land_ones, Z.shiftr_div_pow2 by lia. unfold lead. change (2 ^ 4) with 16. change (2 ^ 2) with 4. dlia. }
    assert (E0 : Z.land lead 0xF = t mod 16).
    { change 0xF with (Z.ones 4). rewrite Z.land_ones by lia. unfold lead. change (2 ^ 4) with 16. dlia. }
    change (lead :: le k (t / 16)) with ([lead] ++ le k (t / 16)). eapply reads_bind; [apply reads_byte|]. cbv zeta. rewrite E6, E4, E0.
    rewrite (proj2 (Z.eqb_neq (Z.of_nat k) 0)) by lia. cbn [Z.eqb negb]. rewrite Nat2Z.id. rewrite <- (app_nil_r (le k (t / 16))).
    eapply reads_bind.
    { apply reads_pkg_loop; [lia| |]; [|change (2 ^ (8 * 0 + 4)) with 16; lia]. split; [apply Z.div_pos; lia|apply Z.div_lt_upper_bound; lia]. }
    replace (t mod 16 + t / 16 * 2 ^ (8 * 0 + 4)) with t by (change (2 ^ (8 * 0 + 4)) with 16; rewrite (Z.div_mod t 16) at 1 by lia; ring).
    eapply reads_lift; [apply csub_ret; lia|]. eapply reads_lift; [apply csub_ret; lia|].
    replace (t - Z.of_nat k - 1) with l by lia. apply reads_good.
Qed.

Lemma reads_inner_state {A} (m : ST Parser (result A AmlParseError)) cp body a s s' : e_pkg (size body) cp ->
  (forall q, here q body s -> wp False m q (fun r q' => r = Ok a /\ state q' = s')) -> reads (in_inner m) (cp ++ body) a s s'.
Proof.
  intros Hp Hm p rest Hh. rewrite <- app_assoc in Hh. unfold in_inner. eapply yields_bind; [exact (reads_pkg _ _ _ Hp p _ Hh)|]. intros p1 H1.
  pose proof (here_skip _ _ _ _ H1) as Hn. destruct H1 as (G0 & G1 & G2 & G3). unfold size in G1. rewrite length_app in G1.
  unfold yields. wp_step. wp_step. wp_step. apply wp_assert; [apply Z.leb_le; unfold size; lia|]. unfold on_slice, wp.
  assert (Hq : here (mkParser (take (Z.to_nat (size body)) (drop (Z.to_nat (pos p1)) (code p1))) 0 (state p1)) body s).
  { rewrite G2, G3. unfold size. rewrite Nat2Z.id, take_app_length. apply here_start. }
  specialize (Hm _ Hq). unfold wp in Hm. destruct (m _) as [[r q']| |]; [|done..]. destruct Hm as [-> <-]. split_and!; [done| |done].
  unfold here in *. cbn in *. by destruct Hn as (? & ? & ? & _).
Qed.
Lemma reads_inner {A} (m : ST Parser (result A AmlParseError)) cp body a s s' : e_pkg (size body) cp -> reads_all m body a s s' ->
  reads (in_inner m) (cp ++ body) a s s'.
Proof.
  intros Hp Hm. apply reads_inner_state; [done|]. intros q Hq. eapply wp_mono; [by apply Hm|]. intros r q' (-> & (_ & _ & _ & E) & _). done.
Qed.
Lemma reads_check s : reads_all check_empty [] tt s s.
Proof.
  intros p Hp. pose proof Hp as (H0 & H1 & H2 & H3). unfold size in H1. cbn in H1. unfold check_empty, yields, good. wp_step. wp_step.
  rewrite (proj2 (Z.eqb_eq _ _)) by lia. cbn [negb]. by wp_step.
Qed.

(** ** Names *)
Lemma name_char_ascii b : name_char b = true -> 0 <= b < 128.
Proof. unfold name_char, between. intros H. destruct (Z.leb_spec 0x41 b), (Z.leb_spec b 0x5A), (Z.eqb_spec b 0x5F), (Z.leb_spec 0x30 b), (Z.leb_spec b 0x39); cbn in H; try done; lia. Qed.
Lemma lead_char_ascii b : lead_name_char b = true -> 0x41 <= b < 128.
Proof. unfold lead_name_char, between. intros H. destruct (Z.leb_spec 0x41 b), (Z.leb_spec b 0x5A), (Z.eqb_spec b 0x5F); cbn in H; try done; lia. Qed.
Lemma push_ascii s b : 0 <= b < 128 -> push_char s b = s ++ [b].
Proof. intros Hb. unfold push_char. by rewrite (proj2 (Z.ltb_lt b 128)) by lia. Qed.

Lemma reads_path_tail l : forall str s, Forall (fun b => name_char b = true) l -> reads (path_tail (length l) str) l (str ++ l) s s.
Proof.
  induction l as [|b l IH]; intros str s Hl; cbn [length path_tail].
  - rewrite app_nil_r. apply reads_good.
  - apply Forall_cons in Hl as [Hb Hl]. change (b :: l) with ([b] ++ l) at 1. eapply reads_bind; [apply reads_byte|]. cbn beta. rewrite Hb.
    rewrite push_ascii by by apply name_char_ascii. replace (str ++ b :: l) with ((str ++ [b]) ++ l) by by rewrite <- app_assoc. by apply IH.
Qed.
Lemma reads_segment seg s : segment seg -> reads parse_name_path seg seg s s.
Proof.
  intros (a & b & c & d & -> & Ha & Hb & Hc & Hd). unfold parse_name_path. change [a; b; c; d] with ([a] ++ [b; c; d]) at 1.
  eapply reads_bind; [apply reads_byte|]. cbn beta. pose proof (lead_char_ascii _ Ha). rewrite (proj2 (Z.eqb_neq a 0)) by lia.
  rewrite push_ascii by lia. apply (reads_path_tail [b; c; d] [a] s). by repeat constructor.
Qed.

Lemma reads_segments ss : forall i count str s, Forall segment ss -> 0 <= i -> i + Z.of_nat (length ss) = count ->
  reads (segments (length ss) i count str) (concat ss) (str ++ join ss) s s.
Proof.
  induction ss as [|seg ss IH]; intros i count str s Hs Hi Hc; cbn [length segments concat].
  - rewrite app_nil_r. apply reads_good.
  - apply Forall_cons in Hs as [Hseg Hs]. cbn [length] in Hc. eapply reads_bind; [by apply reads_segment|]. cbv zeta.
    eapply reads_lift; [apply csub_ret; lia|]. destruct ss as [|s2 ss].
    + rewrite (proj2 (Z.eqb_eq i _)) by (cbn in Hc; lia). apply reads_good.
    + rewrite (proj2 (Z.eqb_neq i _)) by (cbn in Hc; lia). cbn [negb].
      replace (str ++ join (seg :: s2 :: ss)) with (((str ++ seg) ++ [DOT]) ++ join (s2 :: ss)).
      * apply IH; [done|lia|cbn [length] in *; lia].
      * change (join (seg :: s2 :: ss)) with (seg ++ DOT :: join (s2 :: ss)). by rewrite <- !app_assoc.
Qed.

(** a name is read again behind a prefix *)
Lemma reads_again {B} fuel c n x s s' (k : bytes -> ST Parser (result B AmlParseError)) c2 : (0 < length c)%nat ->
  reads (try_parse_name_loop fuel) c (Some n) s s -> reads (k n) c2 x s s' ->
  reads (name ←? (_ ←? peek_next_byte; name ←? try_parse_name_loop fuel; match name with Some name => good name | None => panic end); k name) (c ++ c2) x s s'.
Proof.
  intros Hc Hn Hk. eapply reads_bind; [|exact Hk]. destruct c as [|b c]; [cbn in Hc; lia|]. apply reads_peek.
  rewrite <- (app_nil_r (b :: c)). eapply reads_bind; [exact Hn|]. apply reads_good.
Qed.

(** the part of a path behind its prefix *)
Definition tail_path (ss : list bytes) : path := mkPath false 0 ss.
Lemma lead_cases b : lead_name_char b = true -> b <> 0 /\ b <> ROOT_CHAR /\ b <> PARENT_CHAR /\ b <> DOT /\ b <> SLASH.
Proof. unfold lead_name_char, between, ROOT_CHAR, PARENT_CHAR, DOT, SLASH. intros H. split_and!; intros ->; done. Qed.

Lemma reads_tail fuel ss s : Forall segment ss -> is_byte (Z.of_nat (length ss)) ->
  reads (try_parse_name_loop (S fuel)) (path_code (tail_path ss)) (Some (join ss)) s s.
Proof.
  intros Hs Hb. unfold path_code, prefix. cbn [from_root parents_up segs replicate app tail_path]. destruct ss as [|s1 [|s2 [|s3 ss]]]; cbn [try_parse_name_loop].
  - apply reads_peek. cbn [Z.eqb]. change [0] with ([0] ++ []). eapply reads_bind; [apply reads_forward|]. apply reads_good.
  - apply Forall_cons in Hs as [H1 _]. pose proof H1 as (a & b & c & d & E & Ha & _). rewrite E at 1. apply reads_peek.
    destruct (lead_cases a Ha) as (N0 & _). rewrite (proj2 (Z.eqb_neq a 0)) by done. rewrite Ha, <- E. rewrite <- (app_nil_r s1) at 1.
    eapply reads_bind; [by apply reads_segment|]. apply reads_good.
  - apply Forall_cons in Hs as [H1 Hs]. apply Forall_cons in Hs as [H2 _]. apply reads_peek. cbn [Z.eqb]. change (lead_name_char DOT) with false. cbn [negb].
    change (DOT =? ROOT_CHAR) with false. change (DOT =? PARENT_CHAR) with false. change (DOT =? DOT) with true. cbv iota.
    change (DOT :: s1 ++ s2) with ([DOT] ++ s1 ++ s2). eapply reads_bind; [apply reads_forward|]. eapply reads_bind; [by apply reads_segment|].
    rewrite <- (app_nil_r s2) at 1. eapply reads_bind; [by apply reads_segment|]. apply reads_good.
  - apply reads_peek. change (SLASH =? 0) with false. change (lead_name_char SLASH) with false. change (SLASH =? ROOT_CHAR) with false.
    change (SLASH =? PARENT_CHAR) with false. change (SLASH =? DOT) with false. change (SLASH =? SLASH) with true. cbv iota.
    set (ss' := s1 :: s2 :: s3 :: ss) in *. set (cnt := Z.of_nat (length ss')).
    change (SLASH :: cnt :: concat ss') with ([SLASH] ++ [cnt] ++ concat ss').
    eapply reads_bind; [apply reads_forward|]. eapply reads_bind; [apply reads_byte|]. rewrite <- (app_nil_r (concat ss')).
    eapply reads_bind; [|apply reads_good]. unfold cnt. rewrite Nat2Z.id. apply (reads_segments ss' 0 _ []); [done|lia|lia].
Qed.

Lemma reads_parents k : forall fuel str c s, (k < fuel)%nat -> (forall b, head c = Some b -> b <> PARENT_CHAR) -> (0 < length c)%nat ->
  forall p rest, here p (replicate k PARENT_CHAR ++ c ++ rest) s -> yields p (parents fuel str) (str ++ replicate k PARENT_CHAR) (c ++ rest) s.
Proof.
  induction k as [|k IH]; intros [|fuel] str c s Hf Hc Hl p rest Hp; try lia; cbn [parents replicate app] in *.
  - destruct c as [|b c]; [cbn in Hl; lia|]. cbn [app] in *. eapply yields_bind; [by apply yields_peek|]. intros p1 H1. cbn beta.
    rewrite (proj2 (Z.eqb_neq b _)) by by apply Hc. rewrite app_nil_r. by apply (reads_good str s p1).
  - eapply yields_bind; [by apply yields_peek|]. intros p1 H1. cbn beta. change (PARENT_CHAR =? PARENT_CHAR) with true. cbv iota.
    eapply yields_bind; [exact (reads_forward PARENT_CHAR s p1 _ H1)|]. intros p2 H2. rewrite push_ascii by (unfold PARENT_CHAR; lia).
    replace (str ++ PARENT_CHAR :: replicate k PARENT_CHAR) with ((str ++ [PARENT_CHAR]) ++ replicate k PARENT_CHAR) by by rewrite <- app_assoc.
    apply IH; [lia|done|done|done].
Qed.

Lemma tail_head ss b : Forall segment ss -> head (path_code (tail_path ss)) = Some b -> b <> PARENT_CHAR.
Proof.
  intros Hs. destruct ss as [|s1 [|s2 [|s3 ss]]]; cbn; [by intros [= <-]| |by intros [= <-]..].
  apply Forall_cons in Hs as [(a & x & y & z & -> & Ha & _) _]. cbn. intros [= <-]. by destruct (lead_cases a Ha) as (_ & _ & ? & _).
Qed.
Lemma tail_nonempty ss : Forall segment ss -> (0 < length (path_code (tail_path ss)))%nat.
Proof. intros Hs. destruct ss as [|s1 [|s2 [|s3 ss]]]; cbn; [lia| |lia..]. apply Forall_cons in Hs as [(a & x & y & z & -> & _) _]. cbn. lia. Qed.

(** with its parents *)
Lemma reads_up fuel k ss s : Forall segment ss -> is_byte (Z.of_nat (length ss)) -> (1 <= fuel)%nat -> (k = 0 \/ 2 <= fuel)%nat ->
  reads (try_parse_name_loop fuel) (replicate k PARENT_CHAR ++ path_code (tail_path ss)) (Some (replicate k PARENT_CHAR ++ join ss)) s s.
Proof.
  intros Hs Hb Hf Hk. destruct k as [|k]; [destruct fuel; [lia|by apply reads_tail]|].
  destruct fuel as [|g]; [lia|]. assert (Hg : reads (try_parse_name_loop g) (path_code (tail_path ss)) (Some (join ss)) s s).
  { destruct g; [lia|by apply reads_tail]. }
  intros p rest Hp. rewrite <- app_assoc in Hp. cbn [try_parse_name_loop].
  set (cc := path_code (tail_path ss)) in *. eapply yields_bind; [exact (yields_peek p PARENT_CHAR (replicate k PARENT_CHAR ++ cc ++ rest) s Hp)|].
  intros p1 H1. change (PARENT_CHAR =? 0) with false. change (lead_name_char PARENT_CHAR) with false.
  change (PARENT_CHAR =? ROOT_CHAR) with false. change (PARENT_CHAR =? PARENT_CHAR) with true. cbv iota. unfold yields. wp_step. wp_step.
  assert (Hlen : (S k < S (length (code p1)))%nat).
  { destruct H1 as (_ & _ & G2 & _). apply (f_equal length) in G2. rewrite length_drop in G2. cbn in G2. rewrite !length_app, length_replicate in G2.
    pose proof (tail_nonempty _ Hs). lia. }
  eapply yields_bind; [exact (reads_parents (S k) _ [] cc s Hlen (fun b => tail_head ss b Hs) (tail_nonempty _ Hs) p1 rest H1)|].
  intros p2 H2. change ([] ++ replicate (S k) PARENT_CHAR) with (replicate (S k) PARENT_CHAR). rewrite <- (app_nil_r cc) in H2.
  exact (reads_again g cc (join ss) _ _ _ (fun name => good (Some (replicate (S k) PARENT_CHAR ++ name))) [] (tail_nonempty _ Hs) Hg (reads_good _ _) p2 rest H2).
Qed.

Lemma path_code_up p : path_code p = (if from_root p then [ROOT_CHAR] else []) ++ replicate (parents_up p) PARENT_CHAR ++ path_code (tail_path (segs p)).
Proof. unfold path_code, prefix. cbn. by rewrite <- app_assoc. Qed.
Lemma reads_name n c s : e_name n c -> reads try_parse_name c (Some n) s s.
Proof.
  intros (p & (Hs & Hb & _) & -> & ->). unfold try_parse_name. apply reads_get. intros q rest (G0 & G1 & G2 & _).
  assert (Hlen : (length (path_code p) <= length (code q))%nat).
  { apply (f_equal length) in G2. rewrite length_drop, length_app in G2. lia. }
  rewrite path_code_up in *. unfold path_string, prefix. rewrite !length_app, length_replicate in Hlen.
  pose proof (tail_nonempty _ Hs) as Ht. destruct (from_root p); cbn [length] in Hlen.
  - cbn [app]. set (g := length (code q)) in *. cbn [try_parse_name_loop]. apply reads_peek.
    change (ROOT_CHAR =? 0) with false. change (lead_name_char ROOT_CHAR) with false. change (ROOT_CHAR =? ROOT_CHAR) with true. cbv iota.
    set (cc := replicate (parents_up p) PARENT_CHAR ++ path_code (tail_path (segs p))). change (ROOT_CHAR :: cc) with ([ROOT_CHAR] ++ cc).
    eapply reads_bind; [apply reads_forward|]. rewrite <- (app_nil_r cc).
    eapply (reads_again g cc (replicate (parents_up p) PARENT_CHAR ++ join (segs p))); [|apply reads_up; [done|done|lia|lia]|apply reads_good].
    unfold cc. rewrite length_app. lia.
  - cbn [app]. apply reads_up; [done|done|lia|lia].
Qed.
Lemma name_nonempty n c : e_name n c -> exists b c', c = b :: c'.
Proof.
  intros (p & (Hs & _) & _ & ->). rewrite path_code_up. destruct (from_root p); [by eexists _, _|]. cbn [app].
  destruct (parents_up p); [|by eexists _, _]. pose proof (tail_nonempty _ Hs). destruct (path_code _); cbn in *; [lia|by eexists _, _].
Qed.
Lemma reads_parse_name n c s : e_name n c -> reads parse_name c n s s.
Proof.
  intros Hn. destruct (name_nonempty _ _ Hn) as (b & c' & ->). unfold parse_name. apply reads_peek. rewrite <- (app_nil_r (b :: c')).
  eapply reads_bind; [by apply reads_name|]. apply reads_good.
Qed.

(** ** First bytes *)
Definition data_lead (b : Z) : bool := bool_decide (b ∈ [0; 1; 0xA; 0xB; 0xC; 0xD; 0xE; 0x11; 0x12; 0x13; 0xFF]).
Definition name_lead (b : Z) : bool := lead_name_char b || bool_decide (b ∈ [ROOT_CHAR; PARENT_CHAR; DOT; SLASH]).
(** the operators *)
Definition op_codes : list Z :=
  [0x06; 0x08; 0x10; 0x14; 0x5B; 0x70; 0x71; 0x72; 0x73; 0x74; 0x75; 0x76; 0x77; 0x78; 0x79; 0x7A; 0x7B; 0x7C; 0x7D; 0x7E; 0x7F; 0x80; 0x81; 0x82;
   0x83; 0x84; 0x85; 0x86; 0x87; 0x88; 0x8A; 0x8B; 0x8C; 0x8D; 0x8E; 0x8F; 0x90; 0x91; 0x92; 0x93; 0x94; 0x95; 0x96; 0x97; 0x98; 0x99; 0x9E; 0xA0;
   0xA1; 0xA2; 0xA3; 0xA4; 0xA5].
Definition op_lead (b : Z) : bool := bool_decide (b ∈ op_codes).

Lemma name_head n c : e_name n c -> exists b c', c = b :: c' /\ name_lead b = true.
Proof.
  intros (p & (Hs & Hb & Hne) & _ & ->). rewrite path_code_up. destruct (from_root p); [by eexists _, _|]. cbn [app].
  destruct (parents_up p) as [|k]; [|by eexists _, _]. destruct Hne as [|[|Hne]]; [done|lia|]. unfold path_code, prefix. cbn [from_root parents_up replicate app segs tail_path].
  destruct (segs p) as [|s1 [|s2 [|s3 ss]]]; [done| |by eexists _, _..].
  apply Forall_cons in Hs as [(a & x & y & z & -> & Ha & _) _]. eexists _, _. split; [done|]. unfold name_lead. by rewrite Ha.
Qed.

(** a byte that begins a name begins nothing else *)
Lemma name_lead_cases b : name_lead b = true -> 0x2E <= b <= 0x5F /\ b <> 0x5B.
Proof.
  unfold name_lead, lead_name_char, between. intros H. destruct (bool_decide_reflect (b ∈ [ROOT_CHAR; PARENT_CHAR; DOT; SLASH])) as [E|_].
  - unfold ROOT_CHAR, PARENT_CHAR, DOT, SLASH in E. set_solver by lia.
  - rewrite orb_false_r in H. destruct (Z.leb_spec 0x41 b), (Z.leb_spec b 0x5A), (Z.eqb_spec b 0x5F); cbn in H; try done; lia.
Qed.

Section leads.
Context (rec : Calls).

Lemma yields_nodata p b c s : data_lead b = false -> here p (b :: c) s -> yields p (try_parse_data_object rec) None (b :: c) s.
Proof.
  intros Hb Hp. apply bool_decide_eq_false in Hb. unfold try_parse_data_object.
  eapply (yields_back p b _ None _ s s); [exact Hp|by apply (reads_good None s p)|]. cbn beta.
  repeat match goal with |- context[b =? ?v] => rewrite (proj2 (Z.eqb_neq b v)) by (intros ->; apply Hb; set_solver) end. done.
Qed.
Lemma reads_nodata {B} b c x s s' (k : option UnresolvedDataObject -> ST Parser (result B AmlParseError)) : data_lead b = false ->
  reads (k None) (b :: c) x s s' -> reads (ebind (try_parse_data_object rec) k) (b :: c) x s s'.
Proof. intros Hb Hk p rest Hp. eapply yields_bind; [by apply yields_nodata|]. intros p' Hp'. by apply Hk. Qed.

Lemma reads_noname {B} b c x s s' (k : option bytes -> ST Parser (result B AmlParseError)) : name_lead b = false -> b <> 0 ->
  reads (k None) (b :: c) x s s' -> reads (ebind try_parse_name k) (b :: c) x s s'.
Proof.
  intros Hb H0 Hk p rest Hp. unfold name_lead in Hb. apply orb_false_iff in Hb as [Hl Hb]. apply bool_decide_eq_false in Hb.
  eapply (yields_bind _ _ _ None); [|intros p' Hp'; by apply Hk].
  unfold try_parse_name. unfold yields. wp_step. wp_step. set (g := length _). cbn [try_parse_name_loop].
  eapply yields_bind; [exact (yields_peek p _ _ _ Hp)|]. intros p1 H1. cbn beta. rewrite (proj2 (Z.eqb_neq b 0)) by done. rewrite Hl.
  repeat match goal with |- context[b =? ?v] => rewrite (proj2 (Z.eqb_neq b v)) by (intros ->; apply Hb; set_solver) end.
  by apply (reads_good None s p1).
Qed.

Lemma op_lead_cases b : op_lead b = true -> data_lead b = false /\ name_lead b = false /\ b <> 0 /\ try_parse_local b = None /\ try_parse_arg b = None.
Proof.
  intros H. apply bool_decide_eq_true in H. unfold op_codes in H.
  repeat (apply elem_of_cons in H as [->|H]; [by vm_compute|]). by apply elem_of_nil in H.
Qed.
Lemma name_lead_data b : name_lead b = true -> data_lead b = false /\ try_parse_local b = None /\ try_parse_arg b = None.
Proof.
  intros H. apply name_lead_cases in H. unfold data_lead, try_parse_local, try_parse_arg, between. split_and!.
  - apply bool_decide_eq_false. intros E. set_solver by lia.
  - by rewrite (proj2 (Z.leb_gt 0x60 b)) by lia.
  - by rewrite (proj2 (Z.leb_gt 0x68 b)) by lia.
Qed.
End leads.

(** ** The functions of the descent *)
Lemma reads_last {A B} (m : ST Parser (result A AmlParseError)) (k : A -> ST Parser (result B AmlParseError)) a b c s s1 s2 :
  reads m c a s s1 -> reads (k a) [] b s1 s2 -> reads (ebind m k) c b s s2.
Proof. intros Hm Hk. rewrite <- (app_nil_r c). by eapply reads_bind. Qed.
Lemma reads_last_all {A B} (m : ST Parser (result A AmlParseError)) (k : A -> ST Parser (result B AmlParseError)) a b c s s1 s2 :
  reads_all m c a s s1 -> reads_all (k a) [] b s1 s2 -> reads_all (ebind m k) c b s s2.
Proof. intros Hm Hk p Hp. eapply yields_bind; [by apply Hm|]. intros p' Hp'. by apply Hk. Qed.

Create HintDb reads.
#[export] Hint Resolve reads_byte reads_parse_name reads_le reads_add_name reads_inner : reads.

(** read on, one call after the other *)
Ltac read_step :=
  lazymatch goal with
  | |- reads (ebind _ _) (_ ++ _) _ _ _ => eapply reads_bind; [solve [eauto with reads]|cbn beta]
  | |- reads (ebind _ _) [] _ _ _ => eapply reads_last; [solve [eauto with reads]|cbn beta]
  | |- reads (ebind _ _) (?b :: ?c) _ _ _ => change (b :: c) with ([b] ++ c)
  | |- reads (ebind _ _) _ _ _ _ => eapply reads_last; [solve [eauto with reads]|cbn beta]
  | |- reads (good _) [] _ _ _ => apply reads_good
  | |- reads (term _) [] _ _ _ => apply reads_good
  | |- reads_all (ebind _ _) (_ ++ _) _ _ _ => eapply reads_bind_all; [solve [eauto with reads]|cbn beta]
  | |- reads_all (ebind check_empty _) [] _ _ _ => eapply reads_last_all; [apply reads_check|cbn beta]
  | |- reads_all (ebind _ _) (?b :: ?c) _ _ _ => change (b :: c) with ([b] ++ c)
  | |- reads_all (ebind _ _) _ _ _ _ => eapply reads_last_all; [solve [eauto with reads]|cbn beta]
  | |- reads_all (good _) [] _ _ _ => apply reads_is_all, reads_good
  end.
Ltac read := repeat read_step.

Section bodies.
Context (rec : Calls).

Lemma reads_term_list c ts s s' : reads_all (terms_loop_ rec) c ts s s' -> reads_all (parse_term_list rec) c ts s s'.
Proof.
  intros Hl p Hp. unfold parse_term_list. eapply yields_bind; [by apply Hl|]. intros p1 H1. pose proof H1 as (G0 & G1 & _). unfold size in G1. cbn in G1.
  unfold yields. wp_step. wp_step. wp_step. unfold remaining_bytes. apply wp_csub; [lia|]. rewrite (proj2 (Z.eqb_eq _ 0)) by lia. cbn [negb]. unfold good. by wp_step.
Qed.

Lemma reads_scope ty cp n cn ct ts s s' : e_name n cn -> e_pkg (size (cn ++ ct)) cp -> reads_all (terms_loop_ rec) ct ts s s' ->
  reads (scope_parse rec ty) (cp ++ cn ++ ct) (mkScopeObj ty n ts) s s'.
Proof. intros Hn Hp Hl. apply reads_term_list in Hl. apply reads_inner; [done|]. read. Qed.

Lemma method_flags_ok m : 0 <= num_args m < 8 -> 0 <= sync_level m < 16 ->
  Z.land (method_flags m) 7 = num_args m /\ flag (method_flags m) (Z.shiftl 1 3) = is_serialized m /\ Z.land (Z.shiftr (method_flags m) 4) 0xF = sync_level m.
Proof.
  intros Ha Hs. unfold method_flags, flag. change (Z.shiftl 1 3) with (2 ^ 3). split_and!.
  - change 7 with (Z.ones 3). rewrite Z.land_ones by lia. change (2 ^ 3) with 8. destruct (is_serialized m); dlia.
  - assert (E : Z.land (num_args m + (if is_serialized m then 8 else 0) + 16 * sync_level m) (2 ^ 3) = if is_serialized m then 8 else 0).
    { apply Z.bits_inj'. intros i Hi. rewrite Z.land_spec, Z.pow2_bits_eqb by lia. destruct (Z.eqb_spec 3 i) as [<-|Hne].
      - rewrite andb_true_r, Z.testbit_odd, Z.shiftr_div_pow2 by lia. change (2 ^ 3) with 8.
        replace ((num_args m + (if is_serialized m then 8 else 0) + 16 * sync_level m) / 8) with (2 * sync_level m + (if is_serialized m then 1 else 0))
          by (destruct (is_serialized m); dlia).
        rewrite Z.odd_add, Z.odd_mul. by destruct (is_serialized m).
      - rewrite andb_false_r. destruct (is_serialized m); [|by rewrite Z.bits_0]. change 8 with (2 ^ 3). by rewrite Z.pow2_bits_false by lia. }
    rewrite E. by destruct (is_serialized m).
  - change 0xF with (Z.ones 4). rewrite Z.land_ones, Z.shiftr_div_pow2 by lia. change (2 ^ 4) with 16. destruct (is_serialized m); dlia.
Qed.

Lemma reads_method cp cn ct m s s' : e_name (mo_name m) cn -> 0 <= num_args m < 8 -> 0 <= sync_level m < 16 ->
  e_pkg (size (cn ++ method_flags m :: ct)) cp -> reads_all (terms_loop_ rec) ct (mo_terms m) s s' ->
  reads (method_parse rec) (cp ++ cn ++ method_flags m :: ct) m s s'.
Proof.
  intros Hn Ha Hs Hp Hl. apply reads_term_list in Hl. apply reads_inner; [done|]. destruct (method_flags_ok m Ha Hs) as (E1 & E2 & E3).
  read. rewrite E1, E2, E3. destruct m. apply reads_is_all, reads_good.
Qed.
Lemma reads_predicate cp ca a ct ts s s1 s' : e_pkg (size (ca ++ ct)) cp -> reads (parse_term_arg rec) ca a s s1 -> reads_all (terms_loop_ rec) ct ts s1 s' ->
  reads (predicate_parse rec) (cp ++ ca ++ ct) (mkPredicate a ts) s s'.
Proof. intros Hp Ha Hl. apply reads_term_list in Hl. apply reads_inner; [done|]. read. Qed.
Lemma reads_processor cp cn ct p s s' : e_name (pr_name p) cn -> fits 4 (unk2 p) -> e_pkg (size (cn ++ unk1 p :: le 4 (unk2 p) ++ unk3 p :: ct)) cp ->
  reads_all (terms_loop_ rec) ct (pr_terms p) s s' -> reads (processor_parse rec) (cp ++ cn ++ unk1 p :: le 4 (unk2 p) ++ unk3 p :: ct) p s s'.
Proof. intros Hn Hf Hp Hl. apply reads_term_list in Hl. apply reads_inner; [done|]. read. destruct p. apply reads_is_all, reads_good. Qed.
Lemma reads_power cp cn ct p s s' : e_name (pw_name p) cn -> fits 2 (resource_order p) -> e_pkg (size (cn ++ system_level p :: le 2 (resource_order p) ++ ct)) cp ->
  reads_all (terms_loop_ rec) ct (pw_terms p) s s' -> reads (power_resource_parse rec) (cp ++ cn ++ system_level p :: le 2 (resource_order p) ++ ct) p s s'.
Proof. intros Hn Hf Hp Hl. apply reads_term_list in Hl. apply reads_inner; [done|]. read. destruct p. apply reads_is_all, reads_good. Qed.
End bodies.
