(* ===== verification/AmlProgram.v ===== *)
(** * AML programs are read back

    The operators, fields, arguments and targets of the grammar, and the
    mutual induction over its derivations. *)
From S2P Require Import Prelude UserLink FsTypes Bytes AmlData Resource Aml AmlEnds AmlDecode.

Import AmlData Aml.

(** ** Operators *)
(** case analysis on an entry of a table *)
Ltac table H := repeat (apply elem_of_cons in H as [[= -> ->]|H]; [|]); try by apply elem_of_nil in H.

Section operators.
Context (rec : Calls).

Lemma op_args_target op k : (op, k) ∈ args_target_ops -> try_parse_term rec op = args_target rec k /\ op_lead op = true.
Proof. intros H. unfold args_target_ops in H. table H; split_and!; reflexivity. Qed.
Lemma op_nargs_target op k : (op, k) ∈ nargs_target_ops -> try_parse_term rec op = nargs_target rec k /\ op_lead op = true.
Proof. intros H. unfold nargs_target_ops in H. table H; split_and!; reflexivity. Qed.
Lemma op_arg_target op k : (op, k) ∈ arg_target_ops -> try_parse_term rec op = arg_target rec k /\ op_lead op = true.
Proof. intros H. unfold arg_target_ops in H. table H; split_and!; reflexivity. Qed.
Lemma op_create op k : (op, k) ∈ create_field_ops -> try_parse_term rec op = create_field_term rec op /\ op_lead op = true /\
  create_field_term rec op = (a ←? parse_term_arg rec; b ←? parse_term_arg rec; n ←? parse_name; _ ←? add_name n; term (k a b n)).
Proof. intros H. unfold create_field_ops in H. table H; split_and!; reflexivity. Qed.
Lemma op_predicate op k : (op, k) ∈ predicate_ops -> try_parse_term rec op = (p ←? predicate_parse rec; term (k p)) /\ op_lead op = true.
Proof. intros H. unfold predicate_ops in H. table H; split_and!; reflexivity. Qed.
Lemma op_plain op t : (op, t) ∈ plain_ops -> try_parse_term rec op = term t /\ op_lead op = true.
Proof. intros H. unfold plain_ops in H. table H; split_and!; reflexivity. Qed.

(** an operator of one or two bytes: behind its first byte, [m] is read *)
Definition op_reads (op : bytes) (c : bytes) (t : AmlTerm) (s s' : State) : Prop :=
  exists lead more, op = lead :: more /\ op_lead lead = true /\ reads (try_parse_term rec lead) (more ++ c) (Some t) s s'.

Lemma extra_reads x c t s s' : reads (extra_op rec x) c (Some t) s s' -> op_reads [0x5B; x] c t s s'.
Proof.
  intros Hm. exists 0x5B, [x]. split_and!; [done|done|]. change (try_parse_term rec 0x5B) with (extra_term rec).
  unfold extra_term. eapply reads_bind; [apply reads_byte|exact Hm].
Qed.
(** the operators that begin with [0x92] *)
Lemma compare_reads x c t s s' k : not_op rec x = (_ ←? forward 1; with_args rec k) -> reads (with_args rec k) c (Some t) s s' -> op_reads [0x92; x] c t s s'.
Proof.
  intros Hk Hm. exists 0x92, [x]. split_and!; [done|done|]. change (try_parse_term rec 0x92) with (not_term rec). unfold not_term.
  apply (reads_peek x c). rewrite Hk. change (x :: c) with ([x] ++ c). eapply reads_bind; [apply reads_forward|exact Hm].
Qed.

Lemma op_args op k ca a cb b s s1 s' : (op, k) ∈ args_ops -> reads (parse_term_arg rec) ca a s s1 -> reads (parse_term_arg rec) cb b s1 s' ->
  op_reads op (ca ++ cb) (k a b) s s'.
Proof.
  intros H Ha Hb. assert (Hw : reads (with_args rec k) (ca ++ cb) (Some (k a b)) s s') by (unfold with_args; read).
  unfold args_ops in H.
  do 5 (apply elem_of_cons in H as [[= -> ->]|H]; [by eexists _, []|]).
  do 3 (apply elem_of_cons in H as [[= -> ->]|H]; [eapply compare_reads; [reflexivity|exact Hw]|]).
  by apply elem_of_nil in H.
Qed.
Lemma op_arg op k ca a s s' : (op, k) ∈ arg_ops -> (forall x, reads (parse_term_arg_general_ rec true x) ca a s s') -> op_reads op ca (k a) s s'.
Proof.
  intros H Ha. pose proof (Ha true) as Ha1. pose proof (Ha false) as Ha2. unfold arg_ops in H.
  apply elem_of_cons in H as [[= -> ->]|H].
  { eexists _, []. split_and!; [done|done|]. change (try_parse_term rec 0x83) with (with_arg rec DerefOf). unfold with_arg, parse_term_arg. cbn [app]. read. }
  apply elem_of_cons in H as [[= -> ->]|H].
  { eexists _, []. split_and!; [done|done|]. change (try_parse_term rec 0xA4) with (a ←? parse_term_arg_last rec; term (Return a)). unfold parse_term_arg_last. cbn [app]. read. }
  assert (Hw : reads (with_arg rec k) ca (Some (k a)) s s') by (unfold with_arg, parse_term_arg; read).
  do 2 (apply elem_of_cons in H as [[= -> ->]|H]; [apply extra_reads; exact Hw|]).
  by apply elem_of_nil in H.
Qed.
Lemma op_target op k ct t s s' : (op, k) ∈ target_ops -> reads (parse_target rec) ct t s s' -> op_reads op ct (k t) s s'.
Proof.
  intros H Ht. assert (Hw : reads (with_target rec k) ct (Some (k t)) s s') by (unfold with_target; read). unfold target_ops in H.
  do 5 (apply elem_of_cons in H as [[= -> ->]|H]; [by eexists _, []|]).
  do 3 (apply elem_of_cons in H as [[= -> ->]|H]; [apply extra_reads; exact Hw|]).
  by apply elem_of_nil in H.
Qed.
Lemma op_scope op ty k cp n cn ct ts s s' : (op, ty, k) ∈ scope_ops -> e_name n cn -> e_pkg (size (cn ++ ct)) cp -> reads_all (terms_loop_ rec) ct ts s s' ->
  op_reads op (cp ++ cn ++ ct) (k (mkScopeObj ty n ts)) s s'.
Proof.
  intros H Hn Hp Hl. assert (Hw : reads (p ←? scope_parse rec ty; term (k p)) (cp ++ cn ++ ct) (Some (k (mkScopeObj ty n ts))) s s').
  { eapply reads_last; [by apply reads_scope|]. apply reads_good. }
  unfold scope_ops in H. apply elem_of_cons in H as [[= -> -> ->]|H]; [by eexists _, []|].
  apply elem_of_cons in H as [[= -> -> ->]|H]; [apply extra_reads; exact Hw|]. by apply elem_of_nil in H.
Qed.
End operators.

(** ** Loops *)
Section loops.
Context {A B : Type}.

Lemma reads_more (m : ST Parser (result A AmlParseError)) (k : A -> ST Parser (result (list B) AmlParseError)) c1 c2 a b s s1 s2 :
  reads m c1 a s s1 -> (0 < length c1)%nat -> reads_all (k a) c2 b s1 s2 ->
  reads_all (p ← get; if pos p <? code_len p then ebind m k else good []) (c1 ++ c2) b s s2.
Proof.
  intros Hm Hc Hk p Hp. pose proof Hp as (_ & G1 & _). unfold size in G1. rewrite length_app in G1. unfold yields. wp_step. wp_step.
  rewrite (proj2 (Z.ltb_lt _ _)) by lia. by apply (reads_bind_all m k a b c1 c2 s s1 s2 Hm Hk).
Qed.
Lemma reads_done (m : ST Parser (result (list B) AmlParseError)) s : reads_all (p ← get; if pos p <? code_len p then m else good []) [] [] s s.
Proof.
  intros p Hp. pose proof Hp as (_ & G1 & _). unfold size in G1. cbn in G1. unfold yields. wp_step. wp_step.
  rewrite (proj2 (Z.ltb_ge _ _)) by lia. unfold good. by wp_step.
Qed.
End loops.

(** ** Fields *)
Lemma field_flags_ok t l r : access_type_try_from (field_flags t l r) = Ok t /\ update_rule_try_from (Z.shiftr (field_flags t l r) 5) = Ok r /\
  flag (field_flags t l r) (Z.shiftl 1 4) = l.
Proof. by destruct t, l, r. Qed.

Section fields.
Context (rec : Calls).

Lemma reads_field_list fl cf fs s s' : reads_all (fields_loop_ rec 0) cf fs s s' -> reads_all (parse_fields_list_and_flags rec) (fl :: cf) (fl, fs) s s'.
Proof. intros Hf. unfold parse_fields_list_and_flags. read. Qed.
Lemma reads_field cp cn cf f s s' : e_name (fd_name f) cn -> let fl := field_flags (fd_access_type f) (fd_need_lock f) (fd_update_rule f) in
  e_pkg (size (cn ++ fl :: cf)) cp -> reads_all (fields_loop_ rec 0) cf (fd_fields f) s s' -> reads (field_parse rec) (cp ++ cn ++ fl :: cf) f s s'.
Proof.
  intros Hn fl Hp Hf. apply (reads_field_list fl) in Hf. apply reads_inner; [done|]. eapply reads_bind_all; [by apply reads_parse_name|]. cbn beta.
  eapply reads_last_all; [exact Hf|]. cbn [fst snd]. destruct (field_flags_ok (fd_access_type f) (fd_need_lock f) (fd_update_rule f)) as (E1 & E2 & E3).
  apply reads_is_all. eapply reads_mret; [exact E1|]. eapply reads_mret; [exact E2|]. unfold fl. rewrite E3. destruct f. apply reads_good.
Qed.
Lemma reads_index_field cp cn ci cf f s s' : e_name (if_name f) cn -> e_name (if_index_name f) ci ->
  let fl := field_flags (if_access_type f) (if_need_lock f) (if_update_rule f) in
  e_pkg (size (cn ++ ci ++ fl :: cf)) cp -> reads_all (fields_loop_ rec 0) cf (if_fields f) s s' -> reads (index_field_parse rec) (cp ++ cn ++ ci ++ fl :: cf) f s s'.
Proof.
  intros Hn Hi fl Hp Hf. apply (reads_field_list fl) in Hf. apply reads_inner; [done|]. eapply reads_bind_all; [by apply reads_parse_name|]. cbn beta.
  eapply reads_bind_all; [by apply reads_parse_name|]. cbn beta. eapply reads_last_all; [exact Hf|]. cbn [fst snd].
  destruct (field_flags_ok (if_access_type f) (if_need_lock f) (if_update_rule f)) as (E1 & E2 & E3).
  apply reads_is_all. eapply reads_mret; [exact E1|]. eapply reads_mret; [exact E2|]. unfold fl. rewrite E3. destruct f. apply reads_good.
Qed.

(** the length of an element, one byte of bits *)
Lemma reads_bits w s : 0 < w < 64 -> reads get_pkg_length [w] (w - 1) s s.
Proof. intros Hw. replace [w] with [(w - 1) + 1] by (f_equal; lia). apply reads_pkg. constructor. lia. Qed.

Lemma segment_name n : segment n -> e_name n n.
Proof.
  intros Hn. exists (mkPath false 0 [n]). split_and!; [|done|done]. split_and!; [by constructor|by vm_compute|by right; right].
Qed.
Lemma reads_named n w at_ s : segment n -> 0 < w < 64 -> reads (field_element rec at_) (n ++ [w]) (FeNamed n w, at_ + w) s (add_name_st n s).
Proof.
  intros Hn Hw. pose proof Hn as (a & b & c & d & E & Ha & _). apply lead_char_ascii in Ha.
  intros p rest Hp. unfold field_element. rewrite <- app_assoc in Hp. eapply (yields_bind _ _ _ a _ (n ++ [w] ++ rest) _ s).
  { rewrite E in *. exact (yields_peek p a ([b; c; d] ++ [w] ++ rest) s Hp). }
  intros p0 H0. cbn beta. rewrite (proj2 (Z.eqb_neq a 0)), (proj2 (Z.eqb_neq a 1)), (proj2 (Z.eqb_neq a 2)), (proj2 (Z.eqb_neq a 3)) by lia.
  unfold yields. wp_step. wp_step. eapply yields_bind_code; [exact (reads_parse_name n n s (segment_name n Hn) p0 _ H0)|]. intros p1 H1 E1.
  eapply yields_bind_code; [exact (reads_add_name n s p1 _ H1)|]. intros p2 H2 E2. unfold yields. wp_step. wp_step. wp_step. apply wp_assert.
  { destruct H0 as (_ & G0 & _), H2 as (_ & G2 & _). unfold size, code_len in *. rewrite E2, E1 in G2. rewrite length_app in G0.
    assert (length n = 4%nat) by by rewrite E. apply Z.eqb_eq. lia. }
  eapply yields_bind; [exact (reads_bits w _ Hw p2 _ H2)|]. intros p3 H3. cbv zeta. replace (w - 1 + 1) with w by lia. by apply (reads_good _ _ p3).
Qed.
Lemma reads_offset w at_ s : 0 < w < 64 -> (at_ + w) mod 8 = 0 -> reads (field_element rec at_) [0; w] (FeOffset ((at_ + w) / 8), at_ + w) s s.
Proof.
  intros Hw Ha. unfold field_element. apply reads_peek. cbn [Z.eqb]. change [0; w] with ([0] ++ [w]). eapply reads_bind; [apply reads_forward|]. cbn beta.
  eapply reads_last; [by apply reads_bits|]. cbv zeta. replace (w - 1 + 1) with w by lia. rewrite Ha. apply reads_good.
Qed.
Lemma reads_access a b ty attrib at_ s : access_type_try_from a = Ok ty -> access_attrib a b = Ret attrib ->
  reads (field_element rec at_) [1; a; b] (FeAccess ty attrib, at_) s s.
Proof.
  intros Ht Ha. unfold field_element. apply reads_peek. cbn [Z.eqb Pos.eqb]. change [1; a; b] with ([1] ++ [a] ++ [b]).
  eapply reads_bind; [apply reads_forward|]. cbn beta. read. eapply reads_lift; [exact Ha|]. eapply reads_mret; [exact Ht|]. apply reads_good.
Qed.
Lemma reads_extended a k l ty attrib at_ s : access_type_try_from a = Ok ty -> (k, attrib) ∈ [(0xB, AaBytes); (0xE, AaRawBytes); (0xF, AaRawProcessBytes)] ->
  reads (field_element rec at_) [3; a; k; l] (FeAccess ty (attrib l), at_) s s.
Proof.
  intros Ht Hk. unfold field_element. apply reads_peek. cbn [Z.eqb Pos.eqb]. change [3; a; k; l] with ([3] ++ [a] ++ [k] ++ [l]).
  eapply reads_bind; [apply reads_forward|]. cbn beta. eapply reads_bind; [apply reads_byte|]. eapply reads_bind; [apply reads_byte|].
  eapply reads_last; [apply reads_byte|]. cbn beta. eapply (reads_mret _ (attrib l)); [table Hk; reflexivity|]. eapply reads_mret; [exact Ht|]. apply reads_good.
Qed.
(** a connection to a name: the look at it as data finds none *)
Lemma reads_connection rec' n cn at_ s : try_parse_data_object_ rec = try_parse_data_object rec' -> e_name n cn ->
  reads (field_element rec at_) (2 :: cn) (FeConnection (FcName n), at_) s s.
Proof.
  intros Er Hn. unfold field_element. apply reads_peek. cbn [Z.eqb Pos.eqb]. change (2 :: cn) with ([2] ++ cn).
  eapply reads_bind; [apply reads_forward|]. cbn beta. intros p rest Hp. eapply (yields_bind _ _ _ None _ (cn ++ rest) _ s).
  - destruct (name_head _ _ Hn) as (b & c & -> & Hb). apply name_lead_data in Hb as (Hd & _). rewrite Er.
    pose proof (yields_nodata rec' p b (c ++ rest) s Hd Hp) as Hy. unfold yields, in_clone, wp in *.
    destruct (try_parse_data_object rec' p) as [[r q]| |]; [|done..]. destruct Hy as (-> & (_ & _ & _ & Es) & _). split_and!; [done| |done].
    destruct Hp as (G0 & G1 & G2 & _). unfold here. cbn. by rewrite Es.
  - intros p1 H1. eapply yields_bind; [eapply yields_bind; [exact (reads_parse_name n cn s Hn p1 _ H1)|]; intros p2 H2; by apply (reads_good _ _ p2)|].
    intros p2 H2. by apply (reads_good _ _ p2).
Qed.
End fields.

(** ** Data *)
Lemma reads_string str : forall fuel acc s, Forall (fun b => 0 < b < 128) str -> (length str < fuel)%nat -> reads (string_loop fuel acc) (str ++ [0]) (acc ++ str) s s.
Proof.
  induction str as [|b str IH]; intros [|fuel] acc s Hs Hf; cbn [length] in Hf; try lia; cbn [string_loop app].
  - change [0] with ([0] ++ []). eapply reads_bind; [apply reads_byte|]. cbn [Z.eqb]. rewrite app_nil_r. apply reads_good.
  - apply Forall_cons in Hs as [Hb Hs]. change (b :: str ++ [0]) with ([b] ++ str ++ [0]). eapply reads_bind; [apply reads_byte|]. cbn beta.
    rewrite (proj2 (Z.eqb_neq b 0)), push_ascii by lia. replace (acc ++ b :: str) with ((acc ++ [b]) ++ str) by by rewrite <- app_assoc. apply IH; [done|lia].
Qed.

Section data.
Context (rec : Calls).
(** behind the first byte of a data object *)
Ltac lead_byte := unfold try_parse_data_object; match goal with |- reads _ (?b :: ?c) _ _ _ => change (b :: c) with ([b] ++ c) end;
  eapply reads_bind; [apply reads_byte|]; cbn [Z.eqb Pos.eqb]; unfold integer.

Lemma reads_number i c s : e_data s (Integer i) c s -> reads (try_parse_data_object rec) c (Some (Integer i)) s s.
Proof.
  intros H. inversion H; subst; lead_byte; read.
Qed.
Lemma reads_text str s : Forall (fun b => 0 < b < 128) str -> reads (try_parse_data_object rec) (0xD :: str ++ [0]) (Some (StringObj str)) s s.
Proof.
  intros Hs. lead_byte. apply reads_get. intros q rest (G0 & G1 & G2 & _).
  eapply reads_last; [apply (reads_string str _ [] s Hs)|apply reads_good].
  apply (f_equal length) in G2. rewrite length_drop, !length_app in G2. lia.
Qed.
Lemma reads_buffer a ca data cp t s s' : reads (parse_term_arg rec) ca a s s' -> Resource.try_parse_buffer data = Ret (Ok t) -> e_pkg (size (ca ++ data)) cp ->
  reads (try_parse_data_object rec) (0x11 :: cp ++ ca ++ data) (Some (match t with Some items => TemplateObj items | None => BufferObj (mkBuffer a data) end)) s s'.
Proof.
  intros Ha Ht Hp. lead_byte. eapply reads_last; [|apply reads_good]. unfold buffer_parse.
  eapply (reads_last _ _ (mkBuffer a data)); [|by eapply reads_lift_res; [exact Ht|apply reads_good]].
  apply reads_inner_state; [done|]. intros q Hq. eapply yields_bind_state; [exact (Ha q data Hq)|]. intros p1 H1.
  unfold good. wp_steps. destruct H1 as (_ & _ & E & Es). by rewrite E.
Qed.
Lemma reads_package n ce es cp s s' : reads_all (elements_loop_ rec) ce es s s' -> e_pkg (size (n :: ce)) cp ->
  reads (try_parse_data_object rec) (0x12 :: cp ++ n :: ce) (Some (Package n es)) s s'.
Proof.
  intros He Hp. lead_byte. eapply reads_last; [|apply reads_good]. unfold package_parse. apply reads_inner; [done|]. read.
Qed.
Lemma reads_var a ca ce es cp s s1 s' : reads (parse_term_arg rec) ca a s s1 -> reads_all (elements_loop_ rec) ce es s1 s' -> e_pkg (size (ca ++ ce)) cp ->
  reads (try_parse_data_object rec) (0x13 :: cp ++ ca ++ ce) (Some (VarPackage a es)) s s'.
Proof.
  intros Ha He Hp. lead_byte. eapply reads_last; [|apply reads_good]. unfold var_package_parse. apply reads_inner; [done|]. read.
Qed.
End data.

(** ** Arguments *)
Section arguments.
Context (rec rec' : Calls).
Hypothesis Hdata : try_parse_data_object_ rec = try_parse_data_object rec'.

Lemma nargs_method b x n k p : find_method (state p) n = Ret (Some k) -> option_nargs rec b x n p = Ret (Some k, p).
Proof. intros E. unfold option_nargs, mbind, ST_bind, get, lift. by rewrite E. Qed.
Lemma nargs_known b x n p : find_method (state p) n = Ret None -> find_name (state p) n = Ret true -> option_nargs rec b x n p = Ret (None, p).
Proof. intros E1 E2. unfold option_nargs, mbind, ST_bind, get, lift. by rewrite E1, E2. Qed.
Lemma nargs_new x n p : find_method (state p) n = Ret None -> find_name (state p) n = Ret false ->
  option_nargs rec false x n p = Ret (None, mkParser (code p) (pos p) (add_name_st n (state p))).
Proof. intros E1 E2. unfold option_nargs, mbind, ST_bind, get, lift. by rewrite E1, E2. Qed.

(** a name for which the state [s] says how many arguments follow *)
Lemma reads_named_arg b x n c k ct a s s1 s' : e_name n c ->
  (forall p, state p = s -> option_nargs rec b x n p = Ret (k, mkParser (code p) (pos p) s1)) -> n <> [] ->
  reads (match k with Some m => args ←? args_loop rec (Z.to_nat m); good (ArgExpression (MethodCall n args)) | None => good (ArgName n) end) ct a s1 s' ->
  reads (parse_term_arg_general rec b x) (c ++ ct) a s s'.
Proof.
  intros Hn Hk Hne Hr. destruct (name_head _ _ Hn) as (l & c' & -> & Hl). destruct (name_lead_data l Hl) as (Hd & El & Ea).
  unfold parse_term_arg_general. rewrite Hdata. cbn [app]. apply reads_nodata; [done|]. cbn beta iota.
  eapply reads_back; [|by rewrite El, Ea]. change (l :: c' ++ ct) with ((l :: c') ++ ct). eapply reads_bind; [by apply reads_name|]. cbn beta iota.
  eapply reads_lift; [by rewrite bool_decide_false|]. intros p rest Hp. pose proof Hp as (G0 & G1 & G2 & G3).
  unfold yields, wp, mbind, ST_bind. rewrite (Hk p G3). apply (Hr (mkParser (code p) (pos p) s1) rest). unfold here. cbn. done.
Qed.

Lemma find_method_nonempty s n k : find_method s n = Ret k -> n <> [].
Proof. by intros E ->. Qed.

Lemma reads_arg_name b x n c s : e_name n c -> find_method s n = Ret None -> find_name s n = Ret true ->
  reads (parse_term_arg_general rec b x) c (ArgName n) s s.
Proof.
  intros Hn E1 E2. rewrite <- (app_nil_r c). eapply (reads_named_arg b x n c None); [done| |by eapply find_method_nonempty|apply reads_good].
  intros p Ep. subst s. rewrite nargs_known by done. by destruct p.
Qed.
Lemma reads_arg_new x n c s : e_name n c -> find_method s n = Ret None -> find_name s n = Ret false ->
  reads (parse_term_arg_general rec false x) c (ArgName n) s (add_name_st n s).
Proof.
  intros Hn E1 E2. rewrite <- (app_nil_r c). eapply (reads_named_arg false x n c None); [done| |by eapply find_method_nonempty|apply reads_good].
  intros p Ep. subst s. by rewrite nargs_new.
Qed.
Lemma reads_arg_call b x n c ts ct s s' : e_name n c -> find_method s n = Ret (Some (Z.of_nat (length ts))) ->
  reads (args_loop rec (length ts)) ct ts s s' -> reads (parse_term_arg_general rec b x) (c ++ ct) (ArgExpression (MethodCall n ts)) s s'.
Proof.
  intros Hn E Hr. eapply (reads_named_arg b x n c (Some (Z.of_nat (length ts))) ct _ s s s'); [done| |by eapply find_method_nonempty|].
  - intros p Ep. subst s. rewrite (nargs_method b x n _ p E). by destruct p.
  - cbn beta iota. rewrite Nat2Z.id. eapply reads_last; [exact Hr|apply reads_good].
Qed.
Lemma reads_arg_op b x l c t s s' : op_lead l = true -> reads (try_parse_term_ rec l) c (Some t) s s' ->
  reads (parse_term_arg_general rec b x) (l :: c) (ArgExpression t) s s'.
Proof.
  intros Hl Ht. destruct (op_lead_cases l Hl) as (Hd & Hn & H0 & El & Ea). unfold parse_term_arg_general. rewrite Hdata.
  apply reads_nodata; [done|]. cbn beta iota. eapply reads_back; [|by rewrite El, Ea]. apply reads_noname; [done|done|]. cbn beta iota.
  change (l :: c) with ([l] ++ c). eapply reads_bind; [apply reads_forward|]. eapply reads_last; [exact Ht|apply reads_good].
Qed.
Lemma reads_arg_local b x i s : 0 <= i <= 7 -> reads (parse_term_arg_general rec b x) [0x60 + i] (ArgLocal i) s s.
Proof.
  intros Hi. unfold parse_term_arg_general. rewrite Hdata. apply reads_nodata.
  { apply bool_decide_eq_false. intros E. set_solver by lia. }
  change [0x60 + i] with ([0x60 + i] ++ []). eapply reads_bind; [apply reads_byte|]. unfold try_parse_local, between.
  rewrite (proj2 (Z.leb_le 0x60 _)), (proj2 (Z.leb_le _ 0x67)) by lia. cbn [andb]. replace (0x60 + i - 0x60) with i by lia. apply reads_good.
Qed.
Lemma reads_arg_arg b x i s : 0 <= i <= 6 -> reads (parse_term_arg_general rec b x) [0x68 + i] (ArgArg i) s s.
Proof.
  intros Hi. unfold parse_term_arg_general. rewrite Hdata. apply reads_nodata.
  { apply bool_decide_eq_false. intros E. set_solver by lia. }
  change [0x68 + i] with ([0x68 + i] ++ []). eapply reads_bind; [apply reads_byte|]. unfold try_parse_local, try_parse_arg, between.
  rewrite (proj2 (Z.leb_gt _ 0x67)), andb_false_r by lia. rewrite (proj2 (Z.leb_le 0x68 _)), (proj2 (Z.leb_le _ 0x6E)) by lia. cbn [andb].
  replace (0x68 + i - 0x68) with i by lia. apply reads_good.
Qed.
Lemma reads_arg_data b x d c s s' : reads (try_parse_data_object_ rec) c (Some d) s s' -> reads (parse_term_arg_general rec b x) c (ArgDataObject d) s s'.
Proof. intros Hr. unfold parse_term_arg_general. eapply reads_last; [exact Hr|apply reads_good]. Qed.
End arguments.

(** ** Targets and calls *)
Section targets.
Context (rec : Calls).

Lemma reads_target_none s : reads (parse_target_body rec) [0] TgNone s s.
Proof. unfold parse_target_body. apply reads_peek. change [0] with ([0] ++ []). eapply reads_bind; [apply reads_forward|apply reads_good]. Qed.
Lemma reads_target_debug s : reads (parse_target_body rec) [0x5B; 0x31] TgDebug s s.
Proof.
  unfold parse_target_body. apply reads_peek. change [0x5B; 0x31] with ([0x5B] ++ [0x31] ++ []). eapply reads_bind; [apply reads_forward|].
  eapply reads_bind; [apply reads_byte|]. eapply reads_lift; [done|apply reads_good].
Qed.
Lemma reads_target_local i s : 0 <= i <= 7 -> reads (parse_target_body rec) [0x60 + i] (TgLocal i) s s.
Proof.
  intros Hi. unfold parse_target_body. apply reads_peek.
  rewrite (proj2 (Z.eqb_neq (0x60 + i) 0)), (proj2 (Z.eqb_neq (0x60 + i) 0x5B)), (proj2 (Z.eqb_neq (0x60 + i) 0x71)) by lia.
  unfold try_parse_local, between. rewrite (proj2 (Z.leb_le 0x60 _)), (proj2 (Z.leb_le _ 0x67)) by lia. cbn [andb].
  replace (0x60 + i - 0x60) with i by lia. change [0x60 + i] with ([0x60 + i] ++ []). eapply reads_bind; [apply reads_forward|apply reads_good].
Qed.
Lemma reads_target_arg i s : 0 <= i <= 6 -> reads (parse_target_body rec) [0x68 + i] (TgArg i) s s.
Proof.
  intros Hi. unfold parse_target_body. apply reads_peek.
  rewrite (proj2 (Z.eqb_neq (0x68 + i) 0)), (proj2 (Z.eqb_neq (0x68 + i) 0x5B)), (proj2 (Z.eqb_neq (0x68 + i) 0x71)) by lia.
  unfold try_parse_local, try_parse_arg, between. rewrite (proj2 (Z.leb_gt _ 0x67)), andb_false_r by lia.
  rewrite (proj2 (Z.leb_le 0x68 _)), (proj2 (Z.leb_le _ 0x6E)) by lia. cbn [andb].
  replace (0x68 + i - 0x68) with i by lia. change [0x68 + i] with ([0x68 + i] ++ []). eapply reads_bind; [apply reads_forward|apply reads_good].
Qed.
Lemma reads_target_name n c s : e_name n c -> reads (parse_target_body rec) c (TgName n) s s.
Proof.
  intros Hn. destruct (name_head _ _ Hn) as (b & c' & -> & Hb). destruct (name_lead_data b Hb) as (_ & El & Ea). apply name_lead_cases in Hb.
  unfold parse_target_body. apply reads_peek. rewrite (proj2 (Z.eqb_neq b 0)), (proj2 (Z.eqb_neq b 0x5B)), (proj2 (Z.eqb_neq b 0x71)) by lia.
  rewrite El, Ea. eapply reads_last; [by apply reads_name|apply reads_good].
Qed.
Lemma reads_target_op l c t x s s' : l ∈ [0x83; 0x88] -> reads (try_parse_term_ rec l) c (Some t) s s' ->
  match t with Index a b t => x = TgIndex a b t | DerefOf a => x = TgDerefOf a | _ => False end ->
  reads (parse_target_body rec) (l :: c) x s s'.
Proof.
  intros Hl Ht Hx. assert (Hf : reads (_ ←? forward 1; t ←? try_parse_term_ rec l;
      match t with Some (Index a b t) => good (TgIndex a b t) | Some (RefOf t) => good (TgRefOf t) | Some (DerefOf a) => good (TgDerefOf a)
      | _ => fail (InvalidTarget l) end) (l :: c) x s s').
  { change (l :: c) with ([l] ++ c). eapply reads_bind; [apply reads_forward|]. eapply reads_last; [exact Ht|]. destruct t; try done; subst x; apply reads_good. }
  unfold parse_target_body. apply reads_peek. repeat (apply elem_of_cons in Hl as [->|Hl]); [apply reads_noname; [done|done|exact Hf]..|by apply elem_of_nil in Hl].
Qed.

(** a method called as a statement *)
Lemma reads_call n c l c' ts ct s s' : e_name n c -> c = l :: c' -> find_method s n = Ret (Some (Z.of_nat (length ts))) ->
  reads (args_loop rec (length ts)) ct ts s s' ->
  forall p rest, here p (c ++ ct ++ rest) s -> yields p (b ←? get_next_byte; try_parse_term rec b) (Some (MethodCall n ts)) rest s'.
Proof.
  intros Hn -> E Hr p rest Hp. destruct (name_head _ _ Hn) as (b & c2 & [= <- <-] & Hl).
  assert (Ec : try_parse_term rec l = call_term rec).
  { apply name_lead_cases in Hl. unfold try_parse_term, between.
    repeat match goal with |- context[l =? ?v] => rewrite (proj2 (Z.eqb_neq l v)) by lia end. by rewrite (proj2 (Z.leb_gt 0x8A l)) by lia. }
  eapply yields_back; [exact Hp| |cbn beta; rewrite Ec; reflexivity].
  eapply yields_bind; [exact (reads_name _ _ s Hn p _ Hp)|]. intros p1 H1. cbn beta iota.
  assert (Hne : n <> []) by by eapply find_method_nonempty. unfold yields. wp_step. apply wp_assert; [by rewrite bool_decide_false|].
  wp_step. wp_step. wp_step. eapply wp_lift_ret; [by destruct H1 as (_ & _ & _ & ->)|]. wp_step. wp_step. rewrite Nat2Z.id.
  eapply yields_bind; [exact (Hr p1 rest H1)|]. intros p2 H2. by apply (reads_good _ _ p2).
Qed.
End targets.

(** * AML programs are read back: the induction

    One lemma per rule of the grammar, the mutual induction over derivations
    and the theorem about [parse_aml]. *)
Import AmlData Aml.

(** What the induction shows of every kind of derivation: with three levels of
    fuel for a byte, the parser reads what is encoded. *)
Definition P_data s d c s' := forall f, (3 * length c + 1 <= f)%nat -> reads (try_parse_data_object_ (knot f)) c (Some d) s s'.
Definition P_elements s es c s' := forall f, (3 * length c + 2 <= f)%nat -> reads_all (elements_loop_ (knot f)) c es s s'.
Definition P_arg b s a c s' := forall f x, (3 * length c + 2 <= f)%nat -> reads (parse_term_arg_general_ (knot f) b x) c a s s'.
Definition P_args s ts c s' := forall f, (3 * length c + 2 <= f)%nat -> reads (args_loop (knot f) (length ts)) c ts s s'.
Definition P_target s t c s' := forall f, (3 * length c + 2 <= f)%nat -> reads (parse_target_ (knot f)) c t s s'.
Definition P_op s t c s' := exists l c', c = l :: c' /\ op_lead l = true /\
  forall f, (3 * length c <= f)%nat -> reads (try_parse_term_ (knot f) l) c' (Some t) s s'.
Definition P_terms s ts c s' := forall f, (3 * length c + 2 <= f)%nat -> reads_all (terms_loop_ (knot f)) c ts s s'.
Definition P_fields s at_ fs c s' := forall f, (3 * length c + 2 <= f)%nat -> reads_all (fields_loop_ (knot f) at_) c fs s s'.

(** lengths of codes *)
Ltac len := rewrite ?length_app in *; cbn [length] in *; rewrite ?length_app in *; cbn [length] in *; rewrite ?length_le in *; lia.
(** one level of fuel *)
Ltac level f := destruct f as [|f]; [exfalso; len|];
  cbn [knot try_parse_data_object_ parse_term_arg_general_ try_parse_term_ parse_target_ terms_loop_ elements_loop_ fields_loop_].

Lemma op_case l c t s s' : op_lead l = true -> (forall f, (3 * length c + 2 <= f)%nat -> reads (try_parse_term (knot f) l) c (Some t) s s') ->
  P_op s t (l :: c) s'.
Proof. intros Hl Hr. exists l, c. split_and!; [done|done|]. intros f Hf. level f. apply Hr. len. Qed.
Lemma ops_case op c t s s' : (forall f, (3 * length c + 2 <= f)%nat -> op_reads (knot f) op c t s s') -> P_op s t (op ++ c) s'.
Proof.
  intros Hr. destruct (Hr (3 * length c + 2)%nat ltac:(lia)) as (l & more & -> & Hl & _). exists l, (more ++ c). split_and!; [done|done|].
  intros f Hf. cbn [app] in Hf. level f. destruct (Hr f ltac:(len)) as (l2 & more2 & [= <- <-] & _ & Hr2). exact Hr2.
Qed.
Lemma extra_case x c t s s' : (forall f, (3 * length c + 2 <= f)%nat -> reads (extra_op (knot f) x) c (Some t) s s') -> P_op s t ([0x5B; x] ++ c) s'.
Proof. intros Hr. apply ops_case. intros f Hf. apply extra_reads. by apply Hr. Qed.

(** use an induction hypothesis *)
Ltac ih :=
  match goal with
  | H : P_arg true ?s ?a ?c ?s' |- reads (parse_term_arg _) ?c ?a ?s ?s' => apply H; len
  | H : P_arg ?b ?s ?a ?c ?s' |- reads (parse_term_arg_general_ _ ?b _) ?c ?a ?s ?s' => apply H; len
  | H : P_arg false ?s ?a ?c ?s' |- reads (parse_term_arg_non_method_arg _) ?c ?a ?s ?s' => apply H; len
  | H : P_target ?s ?t ?c ?s' |- reads (parse_target _) ?c ?t ?s ?s' => apply H; len
  | H : P_terms ?s ?ts ?c ?s' |- reads_all (terms_loop_ _) ?c ?ts ?s ?s' => apply H; len
  | H : P_fields ?s _ ?fs ?c ?s' |- reads_all (fields_loop_ _ _) ?c ?fs ?s ?s' => apply H; len
  | H : P_data ?s ?d ?c ?s' |- reads (try_parse_data_object_ _) ?c (Some ?d) ?s ?s' => apply H; len
  | H : P_elements ?s ?es ?c ?s' |- reads_all (elements_loop_ _) ?c ?es ?s ?s' => apply H; len
  | H : P_args ?s ?ts ?c ?s' |- reads (args_loop _ _) ?c ?ts ?s ?s' => apply H; len
  end.
(** collect what the hypotheses say at fuel [f] *)
Ltac ihs f :=
  repeat match goal with
  | H : P_arg true ?s ?a ?c ?s' |- _ => assert (reads (parse_term_arg (knot f)) c a s s') by ih; clear H
  | H : P_arg false ?s ?a ?c ?s' |- _ => assert (reads (parse_term_arg_non_method_arg (knot f)) c a s s') by ih; clear H
  | H : P_target ?s ?t ?c ?s' |- _ => assert (reads (parse_target (knot f)) c t s s') by ih; clear H
  | H : P_terms ?s ?ts ?c ?s' |- _ => assert (reads_all (terms_loop_ (knot f)) c ts s s') by ih; clear H
  | H : P_fields ?s 0 ?fs ?c ?s' |- _ => assert (reads_all (fields_loop_ (knot f) 0) c fs s s') by ih; clear H
  | H : P_data ?s ?d ?c ?s' |- _ => assert (reads (try_parse_data_object_ (knot f)) c (Some d) s s') by ih; clear H
  | H : P_elements ?s ?es ?c ?s' |- _ => assert (reads_all (elements_loop_ (knot f)) c es s s') by ih; clear H
  | H : P_args ?s ?ts ?c ?s' |- _ => assert (reads (args_loop (knot f) (length ts)) c ts s s') by ih; clear H
  end.

Section cases.
Implicit Types (s : State) (c : bytes) (a b : TermArg) (t : Target).

Lemma c_args_target s op k a ca b cb t ct s1 s2 s' : (op, k) ∈ args_target_ops -> P_arg true s a ca s1 -> P_arg true s1 b cb s2 -> P_target s2 t ct s' ->
  P_op s (k a b t) (op :: ca ++ cb ++ ct) s'.
Proof.
  intros H ???. apply op_case; [by eapply (op_args_target (knot 0))|]. intros f Hf. ihs f. rewrite (proj1 (op_args_target (knot f) op k H)). unfold args_target. read.
Qed.
Lemma c_nargs_target s op k a ca b cb t ct s1 s2 s' : (op, k) ∈ nargs_target_ops -> P_arg false s a ca s1 -> P_arg true s1 b cb s2 -> P_target s2 t ct s' ->
  P_op s (k a b t) (op :: ca ++ cb ++ ct) s'.
Proof.
  intros H ???. apply op_case; [by eapply (op_nargs_target (knot 0))|]. intros f Hf. ihs f. rewrite (proj1 (op_nargs_target (knot f) op k H)). unfold nargs_target. read.
Qed.
Lemma c_arg_target s op k a ca t ct s1 s' : (op, k) ∈ arg_target_ops -> P_arg true s a ca s1 -> P_target s1 t ct s' -> P_op s (k a t) (op :: ca ++ ct) s'.
Proof.
  intros H ??. apply op_case; [by eapply (op_arg_target (knot 0))|]. intros f Hf. ihs f. rewrite (proj1 (op_arg_target (knot f) op k H)). unfold arg_target. read.
Qed.
Lemma c_args s op k a ca b cb s1 s' : (op, k) ∈ args_ops -> P_arg true s a ca s1 -> P_arg true s1 b cb s' -> P_op s (k a b) (op ++ ca ++ cb) s'.
Proof. intros H ??. apply ops_case. intros f Hf. ihs f. by eapply op_args. Qed.
Lemma c_arg s op k a ca s' : (op, k) ∈ arg_ops -> P_arg true s a ca s' -> P_op s (k a) (op ++ ca) s'.
Proof. intros H ?. apply ops_case. intros f Hf. eapply op_arg; [done|]. intros x. ih. Qed.
Lemma c_not s a ca s' : P_arg true s a ca s' -> (exists x, head ca = Some x /\ x <> 0x93 /\ x <> 0x94 /\ x <> 0x95) ->
  P_op s (LNot a) (0x92 :: ca) s'.
Proof.
  intros ? (x & Hx & N1 & N2 & N3). apply op_case; [done|]. intros f Hf. ihs f. change (try_parse_term (knot f) 0x92) with (not_term (knot f)). unfold not_term.
  destruct ca as [|x' ca]; [done|]. injection Hx as ->. apply reads_peek. unfold not_op.
  rewrite (proj2 (Z.eqb_neq x 0x93)), (proj2 (Z.eqb_neq x 0x94)), (proj2 (Z.eqb_neq x 0x95)) by done. unfold with_arg. eapply reads_last; [eassumption|apply reads_good].
Qed.
Lemma c_target s op k t ct s' : (op, k) ∈ target_ops -> P_target s t ct s' -> P_op s (k t) (op ++ ct) s'.
Proof. intros H ?. apply ops_case. intros f Hf. ihs f. by eapply op_target. Qed.
Lemma c_divide s a ca b cb t ct u cu s1 s2 s3 s' : P_arg true s a ca s1 -> P_arg true s1 b cb s2 -> P_target s2 t ct s3 -> P_target s3 u cu s' ->
  P_op s (Divide a b t u) (0x78 :: ca ++ cb ++ ct ++ cu) s'.
Proof.
  intros ????. apply op_case; [done|]. intros f Hf. ihs f.
  change (try_parse_term (knot f) 0x78) with (a ←? parse_term_arg (knot f); b ←? parse_term_arg (knot f); t ←? parse_target (knot f); u ←? parse_target (knot f); term (Divide a b t u)). read.
Qed.
Lemma c_mid s a ca b cb d cd t ct s1 s2 s3 s' : P_arg true s a ca s1 -> P_arg true s1 b cb s2 -> P_arg true s2 d cd s3 -> P_target s3 t ct s' ->
  P_op s (Mid a b d t) (0x9E :: ca ++ cb ++ cd ++ ct) s'.
Proof.
  intros ????. apply op_case; [done|]. intros f Hf. ihs f.
  change (try_parse_term (knot f) 0x9E) with (a ←? parse_term_arg (knot f); b ←? parse_term_arg (knot f); c ←? parse_term_arg (knot f); t ←? parse_target (knot f); term (Mid a b c t)). read.
Qed.
Lemma c_notify s t ct a ca s1 s' : P_target s t ct s1 -> P_arg true s1 a ca s' -> P_op s (Notify t a) (0x86 :: ct ++ ca) s'.
Proof.
  intros ??. apply op_case; [done|]. intros f Hf. ihs f.
  change (try_parse_term (knot f) 0x86) with (t ←? parse_target (knot f); a ←? parse_term_arg (knot f); term (Notify t a)). read.
Qed.
(** the operators of two bytes *)
Lemma c_wait s t ct a ca s1 s' : P_target s t ct s1 -> P_arg true s1 a ca s' -> P_op s (Wait t a) ([0x5B; 0x25] ++ ct ++ ca) s'.
Proof. intros ??. apply extra_case. intros f Hf. ihs f. cbv [extra_op Z.eqb Pos.eqb]. read. Qed.
Lemma c_acquire s t ct v s' : P_target s t ct s' -> fits 2 v -> P_op s (Acquire t v) ([0x5B; 0x23] ++ ct ++ le 2 v) s'.
Proof. intros ??. apply extra_case. intros f Hf. ihs f. cbv [extra_op Z.eqb Pos.eqb]. read. Qed.
Lemma c_cond_ref s t ct u cu s1 s' : P_target s t ct s1 -> P_target s1 u cu s' -> P_op s (CondRefOf t u) ([0x5B; 0x12] ++ ct ++ cu) s'.
Proof. intros ??. apply extra_case. intros f Hf. ihs f. cbv [extra_op Z.eqb Pos.eqb]. read. Qed.
Lemma c_create_field s a ca b cb d cd n cn s1 s2 s' : P_arg true s a ca s1 -> P_arg true s1 b cb s2 -> P_arg true s2 d cd s' -> e_name n cn ->
  P_op s (CreateFieldOp a b d n) ([0x5B; 0x13] ++ ca ++ cb ++ cd ++ cn) s'.
Proof. intros ????. apply extra_case. intros f Hf. ihs f. cbv [extra_op Z.eqb Pos.eqb]. read. Qed.
Lemma c_mutex s n cn v : e_name n cn -> P_op s (Mutex n v) ([0x5B; 0x01] ++ cn ++ [v]) s.
Proof. intros ?. apply extra_case. intros f Hf. cbv [extra_op Z.eqb Pos.eqb]. eapply reads_bind; [by apply reads_parse_name|]. eapply reads_last; [apply reads_byte|apply reads_good]. Qed.
Lemma c_event s n cn : e_name n cn -> P_op s (Event n) ([0x5B; 0x02] ++ cn) s.
Proof. intros ?. apply extra_case. intros f Hf. cbv [extra_op Z.eqb Pos.eqb]. read. Qed.
Lemma c_region s n cn v a ca l cl s1 s' : e_name n cn -> P_arg true s a ca s1 -> P_arg true s1 l cl s' ->
  P_op s (Region (mkRegion n (region_space_from v) a l)) ([0x5B; 0x80] ++ cn ++ v :: ca ++ cl) s'.
Proof.
  intros ???. apply extra_case. intros f Hf. ihs f. cbv [extra_op Z.eqb Pos.eqb]. eapply reads_last; [|apply reads_good]. unfold region_parse. read.
Qed.
Lemma c_processor s p cn ct cp s' : e_name (pr_name p) cn -> P_terms s (pr_terms p) ct s' -> fits 4 (unk2 p) ->
  e_pkg (size (cn ++ unk1 p :: le 4 (unk2 p) ++ unk3 p :: ct)) cp -> P_op s (Processor p) ([0x5B; 0x83] ++ cp ++ cn ++ unk1 p :: le 4 (unk2 p) ++ unk3 p :: ct) s'.
Proof. intros ????. apply extra_case. intros f Hf. ihs f. cbv [extra_op Z.eqb Pos.eqb]. eapply reads_last; [by apply reads_processor|apply reads_good]. Qed.
Lemma c_power s p cn ct cp s' : e_name (pw_name p) cn -> P_terms s (pw_terms p) ct s' -> fits 2 (resource_order p) ->
  e_pkg (size (cn ++ system_level p :: le 2 (resource_order p) ++ ct)) cp ->
  P_op s (PowerResource p) ([0x5B; 0x84] ++ cp ++ cn ++ system_level p :: le 2 (resource_order p) ++ ct) s'.
Proof. intros ????. apply extra_case. intros f Hf. ihs f. cbv [extra_op Z.eqb Pos.eqb]. eapply reads_last; [by apply reads_power|apply reads_good]. Qed.
Lemma c_create s op k a ca b cb n cn s1 s' : (op, k) ∈ create_field_ops -> P_arg true s a ca s1 -> P_arg true s1 b cb s' -> e_name n cn ->
  P_op s (k a b n) (op :: ca ++ cb ++ cn) (add_name_st n s').
Proof.
  intros H ???. apply op_case; [by eapply (op_create (knot 0))|]. intros f Hf. ihs f. destruct (op_create (knot f) op k H) as (-> & _ & ->). read.
Qed.
Lemma c_alias s n cn n' cn' : e_name n cn -> e_name n' cn' -> P_op s (Alias n n') (0x06 :: cn ++ cn') (add_name_st n (add_name_st n' s)).
Proof. intros ??. apply op_case; [done|]. intros f Hf. change (try_parse_term (knot f) 0x06) with alias_term. unfold alias_term. read. Qed.
Lemma c_name s n cn d c s' : e_name n cn -> P_data (add_name_st n s) d c s' -> P_op s (NameObj n (named_data n d)) (0x08 :: cn ++ c) s'.
Proof.
  intros ??. apply op_case; [done|]. intros f Hf. ihs f. change (try_parse_term (knot f) 0x08) with (name_term (knot f)). unfold name_term.
  eapply reads_bind; [by apply reads_parse_name|]. cbn beta. rewrite <- (app_nil_l c). eapply reads_bind; [apply reads_add_name|]. cbn beta.
  eapply reads_last; [eassumption|]. cbn beta. eapply reads_mret; [done|]. apply reads_good.
Qed.
Lemma c_scope s op ty k n cn ts ct cp s' : (op, ty, k) ∈ scope_ops -> e_name n cn -> P_terms s ts ct s' -> e_pkg (size (cn ++ ct)) cp ->
  P_op s (k (mkScopeObj ty n ts)) (op ++ cp ++ cn ++ ct) s'.
Proof. intros H ???. apply ops_case. intros f Hf. ihs f. by eapply op_scope. Qed.
Lemma c_method s m cn ct cp s1 s' : e_name (mo_name m) cn -> P_terms s (mo_terms m) ct s1 -> 0 <= num_args m < 8 -> 0 <= sync_level m < 16 ->
  add_method_st (mo_name m) (num_args m) s1 = Ret s' -> e_pkg (size (cn ++ method_flags m :: ct)) cp ->
  P_op s (Method m) (0x14 :: cp ++ cn ++ method_flags m :: ct) s'.
Proof.
  intros Hn ? Ha Hs Em Hp. apply op_case; [done|]. intros f Hf. ihs f. change (try_parse_term (knot f) 0x14) with (method_term (knot f)). unfold method_term.
  eapply (reads_last _ _ m); [by apply reads_method|]. cbn beta. eapply reads_last; [|apply reads_good].
  intros p rest (G0 & G1 & G2 & G3). unfold add_method, yields, good. wp_step. wp_step. wp_step. eapply wp_lift_ret; [by rewrite G3|]. wp_steps.
  split_and!; [done| |done]. unfold here. cbn. done.
Qed.
Lemma c_predicate s op k a ca ts ct cp s1 s' : (op, k) ∈ predicate_ops -> P_arg true s a ca s1 -> P_terms s1 ts ct s' -> e_pkg (size (ca ++ ct)) cp ->
  P_op s (k (mkPredicate a ts)) (op :: cp ++ ca ++ ct) s'.
Proof.
  intros H ???. apply op_case; [by eapply (op_predicate (knot 0))|]. intros f Hf. ihs f. rewrite (proj1 (op_predicate (knot f) op k H)).
  eapply reads_last; [by eapply reads_predicate|apply reads_good].
Qed.
Lemma c_else s ts ct cp s' : P_terms s ts ct s' -> e_pkg (size ct) cp -> P_op s (Else ts) (0xA1 :: cp ++ ct) s'.
Proof.
  intros Ht Hp. apply op_case; [done|]. intros f Hf. ihs f. change (try_parse_term (knot f) 0xA1) with (else_term (knot f)). unfold else_term.
  eapply reads_last; [|apply reads_good]. apply reads_inner; [done|]. eapply reads_last_all; [by apply reads_term_list|]. read.
Qed.
Lemma c_plain s op (t : AmlTerm) : (op, t) ∈ plain_ops -> P_op s t [op] s.
Proof.
  intros H. apply op_case; [by eapply (op_plain (knot 0))|]. intros f Hf. rewrite (proj1 (op_plain (knot f) op t H)). apply reads_good.
Qed.
Lemma c_field s f cn cf cp s' : e_name (fd_name f) cn -> P_fields s 0 (fd_fields f) cf s' ->
  e_pkg (size (cn ++ field_flags (fd_access_type f) (fd_need_lock f) (fd_update_rule f) :: cf)) cp ->
  P_op s (Field f) ([0x5B; 0x81] ++ cp ++ cn ++ field_flags (fd_access_type f) (fd_need_lock f) (fd_update_rule f) :: cf) s'.
Proof. intros ???. apply extra_case. intros g Hg. ihs g. cbv [extra_op Z.eqb Pos.eqb]. eapply reads_last; [by apply reads_field|apply reads_good]. Qed.
Lemma c_index_field s f cn ci cf cp s' : e_name (if_name f) cn -> e_name (if_index_name f) ci -> P_fields s 0 (if_fields f) cf s' ->
  e_pkg (size (cn ++ ci ++ field_flags (if_access_type f) (if_need_lock f) (if_update_rule f) :: cf)) cp ->
  P_op s (IndexField f) ([0x5B; 0x86] ++ cp ++ cn ++ ci ++ field_flags (if_access_type f) (if_need_lock f) (if_update_rule f) :: cf) s'.
Proof. intros ????. apply extra_case. intros g Hg. ihs g. cbv [extra_op Z.eqb Pos.eqb]. eapply reads_last; [by apply reads_index_field|apply reads_good]. Qed.

(** data *)
Lemma c_number s i c : e_data s (Integer i) c s -> P_data s (Integer i) c s.
Proof. intros H f Hf. level f. by apply reads_number. Qed.
Lemma c_string s str : Forall (fun x => 0 < x < 128) str -> P_data s (StringObj str) (0xD :: str ++ [0]) s.
Proof. intros H f Hf. level f. by apply reads_text. Qed.
Lemma c_buffer s a ca data o cp s' : P_arg true s a ca s' -> Resource.try_parse_buffer data = Ret (Ok o) -> e_pkg (size (ca ++ data)) cp ->
  P_data s (match o with Some items => TemplateObj items | None => BufferObj (mkBuffer a data) end) (0x11 :: cp ++ ca ++ data) s'.
Proof. intros ??? f Hf. level f. ihs f. by eapply reads_buffer. Qed.
Lemma c_package s n es ce cp s' : P_elements s es ce s' -> e_pkg (size (n :: ce)) cp -> P_data s (Package n es) (0x12 :: cp ++ n :: ce) s'.
Proof. intros ?? f Hf. level f. ihs f. by apply reads_package. Qed.
Lemma c_var s a ca es ce cp s1 s' : P_arg true s a ca s1 -> P_elements s1 es ce s' -> e_pkg (size (ca ++ ce)) cp -> P_data s (VarPackage a es) (0x13 :: cp ++ ca ++ ce) s'.
Proof. intros ??? f Hf. level f. ihs f. by eapply reads_var. Qed.
Lemma data_nonempty s d c s' : e_data s d c s' -> (0 < length c)%nat.
Proof. destruct 1; cbn; lia. Qed.
Lemma c_elements_data s d c es ce s1 s' : e_data s d c s1 -> P_data s d c s1 -> P_elements s1 es ce s' -> P_elements s (PeDataObject d :: es) (c ++ ce) s'.
Proof.
  intros Hd ?? f Hf. level f. apply data_nonempty in Hd. ihs f. unfold elements_loop. eapply (reads_more _ _ c ce (PeDataObject d)); [|done|].
  - unfold parse_package_element. eapply reads_last; [eassumption|apply reads_good].
  - eapply reads_last_all; [eassumption|]. apply reads_is_all, reads_good.
Qed.
Lemma name_length n c : e_name n c -> (0 < length c)%nat.
Proof. intros (b & c' & ->)%name_nonempty. cbn. lia. Qed.
Lemma c_elements_name s n c es ce s' : e_name n c -> P_elements s es ce s' -> P_elements s (PeName n :: es) (c ++ ce) s'.
Proof.
  intros Hn ? f Hf. pose proof (name_length _ _ Hn) as Hc. level f. ihs f. unfold elements_loop. eapply (reads_more _ _ c ce (PeName n)); [|done|].
  - unfold parse_package_element. level f. destruct (name_head _ _ Hn) as (b & c' & -> & Hb). apply reads_nodata; [by apply name_lead_data|].
    cbn beta iota. eapply reads_last; [by apply reads_name|apply reads_good].
  - eapply reads_last_all; [eassumption|]. apply reads_is_all, reads_good.
Qed.
Lemma c_elements_nil s : P_elements s [] [] s.
Proof. intros f Hf. level f. apply reads_done. Qed.

(** arguments; [f] is at least two levels *)
Lemma c_arg_data (b : bool) s d c s' : P_data s d c s' -> P_arg b s (ArgDataObject d) c s'.
Proof. intros ? f x Hf. level f. ihs f. by apply reads_arg_data. Qed.
Lemma c_arg_local (b : bool) s i : 0 <= i <= 7 -> P_arg b s (ArgLocal i) [0x60 + i] s.
Proof. intros Hi f x Hf. level f. destruct f as [|f]; [len|]. by apply (reads_arg_local _ (knot f)). Qed.
Lemma c_arg_arg (b : bool) s i : 0 <= i <= 6 -> P_arg b s (ArgArg i) [0x68 + i] s.
Proof. intros Hi f x Hf. level f. destruct f as [|f]; [len|]. by apply (reads_arg_arg _ (knot f)). Qed.
Lemma c_arg_name (b : bool) s n c : e_name n c -> find_method s n = Ret None -> find_name s n = Ret true -> P_arg b s (ArgName n) c s.
Proof. intros Hn ?? f x Hf. level f. destruct f as [|f]; [pose proof (name_length _ _ Hn); len|]. by apply (reads_arg_name _ (knot f)). Qed.
Lemma c_arg_new s n c : e_name n c -> find_method s n = Ret None -> find_name s n = Ret false -> P_arg false s (ArgName n) c (add_name_st n s).
Proof. intros Hn ?? f x Hf. level f. destruct f as [|f]; [pose proof (name_length _ _ Hn); len|]. by apply (reads_arg_new _ (knot f)). Qed.
Lemma c_arg_call (b : bool) s n c k ts ct s' : e_name n c -> find_method s n = Ret (Some k) -> k = Z.of_nat (length ts) -> P_args s ts ct s' ->
  P_arg b s (ArgExpression (MethodCall n ts)) (c ++ ct) s'.
Proof.
  intros Hn ? -> ? f x Hf. pose proof (name_length _ _ Hn). level f. destruct f as [|f]; [len|]. ihs (S f).
  by apply (reads_arg_call _ (knot f)).
Qed.
Lemma c_arg_op (b : bool) s (t : AmlTerm) c s' : P_op s t c s' -> P_arg b s (ArgExpression t) c s'.
Proof.
  intros (l & c' & -> & Hl & Hr) f x Hf. level f. destruct f as [|f]; [len|]. apply (reads_arg_op _ (knot f)); [done|done|]. apply Hr. len.
Qed.
Lemma c_args_nil s : P_args s [] [] s.
Proof. intros f Hf. apply reads_good. Qed.
Lemma c_args_cons s a ca ts ct s1 s' : P_arg true s a ca s1 -> P_args s1 ts ct s' -> P_args s (a :: ts) (ca ++ ct) s'.
Proof. intros ?? f Hf. ihs f. cbn [length args_loop]. read. Qed.

(** targets *)
Lemma c_target_none s : P_target s TgNone [0] s.
Proof. intros f Hf. level f. apply reads_target_none. Qed.
Lemma c_target_local s i : 0 <= i <= 7 -> P_target s (TgLocal i) [0x60 + i] s.
Proof. intros Hi f Hf. level f. by apply reads_target_local. Qed.
Lemma c_target_arg s i : 0 <= i <= 6 -> P_target s (TgArg i) [0x68 + i] s.
Proof. intros Hi f Hf. level f. by apply reads_target_arg. Qed.
Lemma c_target_debug s : P_target s TgDebug [0x5B; 0x31] s.
Proof. intros f Hf. level f. apply reads_target_debug. Qed.
Lemma c_target_name s n c : e_name n c -> P_target s (TgName n) c s.
Proof. intros Hn f Hf. level f. by apply reads_target_name. Qed.
Lemma c_target_index s a ca b cb t ct s1 s2 s' : P_arg true s a ca s1 -> P_arg true s1 b cb s2 -> P_target s2 t ct s' ->
  P_target s (TgIndex a b t) (0x88 :: ca ++ cb ++ ct) s'.
Proof.
  intros ??? f Hf. level f. eapply (reads_target_op _ 0x88 _ (Index a b t)); [set_solver| |done]. level f. ihs f.
  change (try_parse_term (knot f) 0x88) with (args_target (knot f) Index). unfold args_target. read.
Qed.
Lemma c_target_deref s a ca s' : P_arg true s a ca s' -> P_target s (TgDerefOf a) (0x83 :: ca) s'.
Proof.
  intros ? f Hf. level f. eapply (reads_target_op _ 0x83 _ (DerefOf a)); [set_solver| |done]. level f. ihs f.
  change (try_parse_term (knot f) 0x83) with (with_arg (knot f) DerefOf). unfold with_arg. read.
Qed.

(** lists of terms *)
Lemma ebind_ebind {A B C} (m : ST Parser (result A AmlParseError)) (k : A -> ST Parser (result B AmlParseError)) (h : B -> ST Parser (result C AmlParseError)) p :
  ebind (ebind m k) h p = (a ←? m; b ←? k a; h b) p.
Proof. unfold ebind, mbind, ST_bind. destruct (m p) as [[[a|e] q]| |]; reflexivity. Qed.
Lemma c_terms_nil s : P_terms s [] [] s.
Proof. intros f Hf. level f. apply reads_done. Qed.
Lemma c_terms_op s (t : AmlTerm) c ts ct s1 s' : P_op s t c s1 -> P_terms s1 ts ct s' -> P_terms s (t :: ts) (c ++ ct) s'.
Proof.
  intros (l & c' & -> & Hl & Hr) ? f Hf. level f. ihs f. unfold terms_loop. eapply (reads_more _ _ (l :: c') ct t); [|cbn; lia|].
  - unfold parse_term. change (l :: c') with ([l] ++ c'). eapply reads_bind; [apply reads_byte|]. eapply reads_last; [apply Hr; len|apply reads_good].
  - eapply reads_last_all; [eassumption|]. apply reads_is_all, reads_good.
Qed.
Lemma c_terms_call s n c k args ca ts ct s1 s' : e_name n c -> find_method s n = Ret (Some k) -> k = Z.of_nat (length args) -> P_args s args ca s1 ->
  P_terms s1 ts ct s' -> P_terms s (MethodCall n args :: ts) ((c ++ ca) ++ ct) s'.
Proof.
  intros Hn Em -> Ha Hr f Hf. pose proof (name_length _ _ Hn). level f. unfold terms_loop.
  eapply (reads_more _ _ (c ++ ca) ct (MethodCall n args) _ s s1); [|len|].
  - destruct (name_nonempty _ _ Hn) as (l & c' & E). destruct f as [|f]; [len|]. intros p rest Hp. rewrite <- app_assoc in Hp.
    unfold parse_term. cbn [knot try_parse_term_].
    pose proof (reads_call (knot f) n c l c' args ca s s1 Hn E Em (Ha f ltac:(len)) p rest Hp) as Hc.
    unfold yields, wp. rewrite <- ebind_ebind. eapply yields_bind; [exact Hc|]. intros p2 H2. by apply (reads_good _ _ p2).
  - eapply reads_last_all; [apply Hr; len|]. apply reads_is_all, reads_good.
Qed.

(** fields *)
Lemma c_fields_nil s at_ : P_fields s at_ [] [] s.
Proof. intros f Hf. level f. apply reads_done. Qed.
(** one element, of the bytes [c1] *)
Lemma c_fields_more s at_ e at' c1 fs c s1 s' : (forall f, (1 <= f)%nat -> reads (field_element (knot f) at_) c1 (e, at') s s1) -> (0 < length c1)%nat ->
  P_fields s1 at' fs c s' -> P_fields s at_ (e :: fs) (c1 ++ c) s'.
Proof.
  intros He Hc Hr f Hf. level f. unfold fields_loop. eapply (reads_more _ _ c1 c (e, at')); [apply He; len|done|].
  cbn [fst snd]. eapply reads_last_all; [apply Hr; len|]. apply reads_is_all, reads_good.
Qed.
Lemma c_fields_named s at_ n w fs c s' : segment n -> 0 < w < 64 -> P_fields (add_name_st n s) (at_ + w) fs c s' -> P_fields s at_ (FeNamed n w :: fs) (n ++ w :: c) s'.
Proof.
  intros Hn Hw Hr. change (w :: c) with ([w] ++ c). rewrite app_assoc. eapply c_fields_more; [|rewrite length_app; cbn; lia|exact Hr].
  intros f _. by apply reads_named.
Qed.
Lemma c_fields_offset s at_ w fs c s' : 0 < w < 64 -> (at_ + w) mod 8 = 0 -> P_fields s (at_ + w) fs c s' ->
  P_fields s at_ (FeOffset ((at_ + w) / 8) :: fs) (0 :: w :: c) s'.
Proof. intros Hw Ha Hr. eapply (c_fields_more _ _ _ _ [0; w]); [|cbn; lia|exact Hr]. intros f _. by apply reads_offset. Qed.
Lemma c_fields_access s at_ ty attrib (a b : Z) fs c s' : access_type_try_from a = Ok ty -> access_attrib a b = Ret attrib -> P_fields s at_ fs c s' ->
  P_fields s at_ (FeAccess ty attrib :: fs) (1 :: a :: b :: c) s'.
Proof. intros Ht Ha Hr. eapply (c_fields_more _ _ _ _ [1; a; b]); [|cbn; lia|exact Hr]. intros f _. by apply reads_access. Qed.
Lemma c_fields_extended s at_ ty k attrib (a l : Z) fs c s' : access_type_try_from a = Ok ty -> (k, attrib) ∈ [(0xB, AaBytes); (0xE, AaRawBytes); (0xF, AaRawProcessBytes)] ->
  P_fields s at_ fs c s' -> P_fields s at_ (FeAccess ty (attrib l) :: fs) (3 :: a :: k :: l :: c) s'.
Proof. intros Ht Hk Hr. eapply (c_fields_more _ _ _ _ [3; a; k; l]); [|cbn; lia|exact Hr]. intros f _. by apply reads_extended. Qed.
Lemma c_fields_connection s at_ n cn fs c s' : e_name n cn -> P_fields s at_ fs c s' -> P_fields s at_ (FeConnection (FcName n) :: fs) (2 :: cn ++ c) s'.
Proof.
  intros Hn Hr. eapply (c_fields_more _ _ _ _ (2 :: cn)); [|cbn; lia|exact Hr]. intros [|f] Hf; [lia|]. by apply (reads_connection _ (knot f)).
Qed.
End cases.

#[export] Hint Resolve c_args_target c_nargs_target c_arg_target c_args c_arg c_not c_target c_divide c_mid c_notify c_wait c_acquire c_cond_ref
  c_create_field c_mutex c_event c_region c_processor c_power c_create c_alias c_name c_scope c_method c_predicate c_else c_plain c_field c_index_field : reads.
#[export] Hint Resolve c_string c_package c_var c_elements_data c_elements_name c_elements_nil c_arg_data c_arg_local c_arg_arg c_arg_name c_arg_new
  c_arg_call c_arg_op c_args_nil c_args_cons c_target_none c_target_local c_target_arg c_target_debug c_target_name c_target_index c_target_deref
  c_terms_nil c_terms_op c_terms_call c_fields_nil c_fields_named c_fields_offset c_fields_access c_fields_extended c_fields_connection : reads.

(** every derivation is read back *)
Lemma decodes_mut :
  (forall s d c s', e_data s d c s' -> P_data s d c s') /\ (forall s es c s', e_elements s es c s' -> P_elements s es c s') /\
  (forall b s a c s', e_arg b s a c s' -> P_arg b s a c s') /\ (forall s ts c s', e_args s ts c s' -> P_args s ts c s') /\
  (forall s t c s', e_target s t c s' -> P_target s t c s') /\ (forall s t c s', e_op s t c s' -> P_op s t c s') /\
  (forall s ts c s', e_terms s ts c s' -> P_terms s ts c s') /\ (forall s at_ fs c s', e_fields s at_ fs c s' -> P_fields s at_ fs c s').
Proof.
  apply e_mut; intros; eauto 2 with reads; try (by apply c_number; constructor).
  - by eapply (c_buffer _ _ _ _ None).
  - by eapply (c_buffer _ _ _ _ (Some items)).
Qed.

Lemma parse_aml_reads ts code s' : e_terms (mkState ∅ ∅) ts code s' -> parse_aml code = Ret (Ok (mkAmlCode ts)).
Proof.
  intros Ht. apply decodes_mut in Ht. unfold parse_aml, parse_root.
  assert (Hr : reads_all (terms ←? parse_term_list (knot (3 * length code + 3)); good (mkAmlCode terms)) code (mkAmlCode ts) (mkState ∅ ∅) s').
  { eapply reads_last_all; [apply reads_term_list, Ht; lia|]. apply reads_is_all, reads_good. }
  specialize (Hr (mkParser code 0 (mkState ∅ ∅)) (here_start _ _)). unfold yields, wp in Hr.
  destruct (ebind _ _ _) as [[r p]| |]; [|done..]. by destruct Hr as (-> & _).
Qed.

(** C23: The byte code of a program of the grammar parses, to the terms it
    encodes; so the grammar is unambiguous, a code has one reading. *)
Theorem parse_aml_decodes ts code s' : e_terms (mkState ∅ ∅) ts code s' ->
  parse_aml code = Ret (Ok (mkAmlCode ts)) /\ forall ts2 s2, e_terms (mkState ∅ ∅) ts2 code s2 -> ts2 = ts.
Proof.
  intros H%parse_aml_reads. split; [done|]. intros ts2 s2 H2%parse_aml_reads. congruence.
Qed.

(** * AML: example programs

    A program with a scope, a method and its call, a field and an identifier,
    which shows that the theorems about the parser are not vacuous, and what
    the parser makes of input outside the grammar. *)
Import AmlData Aml.

Module AmlDemo.
(** [_SB_], [ADD_], [DBG_], [DBGB], [_HID] and [\_SB_] *)
Definition SB : bytes := [0x5F; 0x53; 0x42; 0x5F].
Definition ADD : bytes := [0x41; 0x44; 0x44; 0x5F].
Definition DBG : bytes := [0x44; 0x42; 0x47; 0x5F].
Definition DBGB : bytes := [0x44; 0x42; 0x47; 0x42].
Definition HID : bytes := [0x5F; 0x48; 0x49; 0x44].
Definition ROOT_SB : bytes := ROOT_CHAR :: SB.
Definition byte_arg (b : Z) : TermArg := ArgDataObject (Integer (ByteConst b)).

(** [Method (ADD_, 2) { Return (Add (Arg0, Arg1)) }] *)
Definition add_method_obj : MethodObj := mkMethod ADD 2 false 0 [Return (ArgExpression (Add (ArgArg 0) (ArgArg 1) TgNone))].
(** [OperationRegion (DBG_, SystemIO, 0x402, 1)] and its field of eight bits *)
Definition dbg_region : RegionObj := mkRegion DBG (region_space_from 1) (ArgDataObject (Integer (WordConst 0x402))) (ArgDataObject (Integer ConstOne)).
Definition dbg_field : FieldDef := mkField DBG AtByte false Preserve [FeNamed DBGB 8].
(** [Name (_HID, EisaId ("PNP0A03"))] *)
Definition pci_id : UnresolvedDataObject := Integer (DWordConst 0x030AD041).
(** [If (LEqual (ADD_ (1, 2), 3)) { Store (0x2A, DBGB) }] *)
Definition check : AmlTerm :=
  If (mkPredicate (ArgExpression (LEqual (ArgExpression (MethodCall ADD [byte_arg 1; byte_arg 2])) (byte_arg 3)))
    [Store (byte_arg 0x2A) (TgName DBGB)]).
Definition demo_terms : list AmlTerm :=
  [Method add_method_obj; Region dbg_region; Field dbg_field;
   Scope (mkScopeObj TScope ROOT_SB [NameObj HID (EisaId [0x50; 0x4E; 0x50; 0x30; 0x41; 0x30; 0x33]); check; MethodCall ADD [byte_arg 1; byte_arg 2]])].
Definition demo_code : bytes :=
  [0x14; 0x0B; 0x41; 0x44; 0x44; 0x5F; 0x02; 0xA4; 0x72; 0x68; 0x69; 0x00;
   0x5B; 0x80; 0x44; 0x42; 0x47; 0x5F; 0x01; 0x0B; 0x02; 0x04; 0x01;
   0x5B; 0x81; 0x0B; 0x44; 0x42; 0x47; 0x5F; 0x01; 0x44; 0x42; 0x47; 0x42; 0x08;
   0x10; 0x2C; 0x5C; 0x5F; 0x53; 0x42; 0x5F;
   0x08; 0x5F; 0x48; 0x49; 0x44; 0x0C; 0x41; 0xD0; 0x0A; 0x03;
   0xA0; 0x13; 0x93; 0x41; 0x44; 0x44; 0x5F; 0x0A; 0x01; 0x0A; 0x02; 0x0A; 0x03; 0x70; 0x0A; 0x2A; 0x44; 0x42; 0x47; 0x42;
   0x41; 0x44; 0x44; 0x5F; 0x0A; 0x01; 0x0A; 0x02].

(** ** The program is one of the grammar *)
Lemma seg_name n : segment n -> e_name n n.
Proof. apply segment_name. Qed.
Lemma root_name : e_name ROOT_SB ROOT_SB.
Proof.
  exists (mkPath true 0 [SB]). split_and!; [|done|done]. split_and!; [|by vm_compute|by left]. constructor; [|constructor].
  by exists 0x5F, 0x53, 0x42, 0x5F.
Qed.
Lemma segment_intro a b c d : lead_name_char a && name_char b && name_char c && name_char d = true -> segment [a; b; c; d].
Proof. intros (((H1 & H2)%andb_true_iff & H3)%andb_true_iff & H4)%andb_true_iff. by exists a, b, c, d. Qed.

(** one rule of the grammar after the other *)
Ltac table_entry := repeat first [apply list_elem_of_here | apply list_elem_of_further].
Ltac derive_step :=
  lazymatch goal with
  | |- e_terms _ [] _ _ => eapply ES_nil
  | |- e_terms _ (MethodCall _ _ :: _) _ _ => eapply ES_call
  | |- e_terms _ (_ :: _) _ _ => eapply ES_op
  | |- e_args _ [] _ _ => eapply EAs_nil
  | |- e_args _ (_ :: _) _ _ => eapply EAs_cons
  | |- e_arg _ _ (byte_arg _) _ _ => eapply EA_data
  | |- e_arg _ _ (ArgDataObject _) _ _ => eapply EA_data
  | |- e_arg _ _ (ArgArg _) _ _ => eapply EA_arg
  | |- e_arg _ _ (ArgExpression (MethodCall _ _)) _ _ => eapply EA_call
  | |- e_arg _ _ (ArgExpression _) _ _ => eapply EA_op
  | |- e_data _ _ _ _ => constructor
  | |- e_target _ TgNone _ _ => eapply EG_none
  | |- e_target _ (TgName _) _ _ => eapply EG_name
  | |- e_fields _ _ [] _ _ => eapply EF_nil
  | |- e_fields _ _ (FeNamed _ _ :: _) _ _ => eapply EF_named
  | |- e_name ROOT_SB _ => eapply root_name
  | |- e_name _ _ => eapply seg_name, segment_intro; reflexivity
  | |- segment _ => eapply segment_intro; reflexivity
  | |- e_pkg _ _ => eapply EP_one; unfold size; cbn; lia
  | |- _ ∈ _ => table_entry
  | |- fits _ _ => by vm_compute
  | |- _ = _ => reflexivity
  | |- _ <= _ < _ => cbn; lia
  | |- _ <= _ <= _ => lia
  | |- _ < _ < _ => lia
  end.
Ltac derive := repeat derive_step.


Lemma add_method_code s s' : add_method_st ADD 2 s = Ret s' -> e_op s (Method add_method_obj) (take 12 demo_code) s'.
Proof.
  intros E. eassert (H : e_op s (Method add_method_obj) _ s').
  { eapply (EO_method s add_method_obj); [derive| | | |exact E|]; cbn [mo_terms add_method_obj num_args sync_level].
    - eapply ES_op; [|derive]. eapply (EO_arg _ [0xA4] Return); [derive|]. derive. eapply (EO_args_target _ 0x72 Add); derive.
    - lia.
    - lia.
    - derive. }
  exact H.
Qed.
Lemma region_code s : e_op s (Region dbg_region) (take 11 (drop 12 demo_code)) s.
Proof. eassert (H : e_op s (Region dbg_region) _ s); [eapply EO_region; derive|exact H]. Qed.
Lemma field_code s : e_op s (Field dbg_field) (take 13 (drop 23 demo_code)) (add_name_st DBGB s).
Proof. eassert (H : e_op s (Field dbg_field) _ (add_name_st DBGB s)); [eapply (EO_field _ dbg_field); cbn [fd_fields dbg_field]; derive|exact H]. Qed.
(** the method and the names that are known in the scope *)
Definition known : State := mkState {[ ADD := 2 ]} {[ DBGB ]}.
Lemma call_code : e_args known [byte_arg 1; byte_arg 2] [0xA; 1; 0xA; 2] known.
Proof. eassert (H : e_args known [byte_arg 1; byte_arg 2] _ known); [derive|exact H]. Qed.
Lemma check_code s : find_method s ADD = Ret (Some 2) -> e_op s check (take 20 (drop 53 demo_code)) s.
Proof.
  intros E. eassert (H : e_op s check _ s).
  { eapply (EO_predicate _ 0xA0 If); [derive| | |].
    - derive. eapply (EO_args _ [0x93] LEqual); [derive| |derive]. eapply EA_call; [derive|exact E|reflexivity|derive].
    - eapply ES_op; [|derive]. eapply (EO_arg_target _ 0x70 Store); derive.
    - derive. }
  exact H.
Qed.
Lemma scope_code : e_op known (Scope (mkScopeObj TScope ROOT_SB
    [NameObj HID (EisaId [0x50; 0x4E; 0x50; 0x30; 0x41; 0x30; 0x33]); check; MethodCall ADD [byte_arg 1; byte_arg 2]])) (drop 36 demo_code) (add_name_st HID known).
Proof.
  eassert (H : e_op known (Scope (mkScopeObj TScope ROOT_SB [NameObj HID (named_data HID pci_id); check; MethodCall ADD [byte_arg 1; byte_arg 2]])) _ (add_name_st HID known)).
  { eapply (EO_scope _ [0x10] TScope Scope); [derive|derive| |].
    - eapply ES_op; [eapply EO_name; [derive|unfold pci_id; derive]|]. eapply ES_op; [by apply check_code|]. derive.
    - derive. }
  exact H.
Qed.
Lemma demo_grammar : e_terms (mkState ∅ ∅) demo_terms demo_code (add_name_st HID known).
Proof.
  eassert (H : e_terms (mkState ∅ ∅) demo_terms _ (add_name_st HID known)).
  { unfold demo_terms. eapply ES_op; [by apply add_method_code|]. eapply ES_op; [apply region_code|]. eapply ES_op; [apply field_code|].
    eapply ES_op; [|derive]. exact scope_code. }
  exact H.
Qed.
Lemma parse_aml_decodes_witness : e_terms (mkState ∅ ∅) demo_terms demo_code (add_name_st HID known) /\ parse_aml demo_code = Ret (Ok (mkAmlCode demo_terms)) /\
  forall ts2 s2, e_terms (mkState ∅ ∅) ts2 demo_code s2 -> ts2 = demo_terms.
Proof. split; [exact demo_grammar|]. exact (parse_aml_decodes _ _ _ demo_grammar). Defined.
Lemma parse_aml_terminates_witness : Forall is_byte demo_code /\ parse_aml demo_code <> Diverge.
Proof.
  assert (H : Forall is_byte demo_code) by (apply (bool_decide_unpack (Forall is_byte demo_code)); by vm_compute).
  split; [exact H|]. exact (parse_aml_terminates _ H).
Defined.

(** ** Input outside the grammar *)
(** a field of 64 bits, whose length takes two bytes, is read as one of 63 *)
Lemma wide_field_is_narrow :
  parse_aml ([0x5B; 0x81; 0x0C] ++ DBG ++ [1] ++ DBGB ++ [0x40; 0x04]) = Ret (Ok (mkAmlCode [Field (mkField DBG AtByte false Preserve [FeNamed DBGB 63])])).
Proof. reflexivity. Qed.
(** a gap of 64 bits is an error *)
Lemma wide_gap_fails : parse_aml ([0x5B; 0x81; 0x09] ++ DBG ++ [1] ++ [0; 0x40; 0x04]) = Ret (Err UnalignedFieldElementOffset).
Proof. reflexivity. Qed.
(** a field connected to a buffer: the buffer is parsed by a copy of the
    parser, which then reads on in the midst of the buffer *)
Lemma buffer_connection_panics : parse_aml ([0x5B; 0x81; 0x0C] ++ DBG ++ [1] ++ [2; 0x11; 0x04; 0x0A; 0x01; 0x61]) = Panic.
Proof. reflexivity. Qed.
(** a package longer than the code *)
Lemma long_package_panics : parse_aml [0x10; 0x20; 0x41] = Panic.
Proof. reflexivity. Qed.
(** a package of length zero, which does not count its own byte *)
Lemma empty_package_panics : parse_aml [0x10; 0x00] = Panic.
Proof. reflexivity. Qed.
(** a store to a reference *)
Lemma ref_target_panics : parse_aml ([0x70; 0x01; 0x71] ++ DBG) = Panic.
Proof. reflexivity. Qed.
(** an operator the parser does not know: [LoadTable] *)
Lemma unknown_operator_panics : parse_aml [0x5B; 0x1F] = Panic.
Proof. reflexivity. Qed.
(** a call before the definition: the number of its arguments is guessed
    from what follows it, here one too many *)
Lemma early_call_swallows :
  let code := ADD ++ [0x0A; 1; 0x0A; 2] ++ DBG in
  parse_aml code = Ret (Ok (mkAmlCode [MethodCall ADD [byte_arg 1; byte_arg 2; ArgName DBG]])).
Proof. reflexivity. Qed.
End AmlDemo.
