(* ===== verification/AmlTree.v ===== *)
(** * The namespace of the firmware and what the kernel asks of it

    Models [kernel/src/acpi/aml/structured.rs] (the tree of scopes that the
    definitions of a program form), [kernel/src/acpi/aml/execution.rs] (the
    evaluation of named data), [kernel/src/acpi/aml/mod.rs], and from
    [kernel/src/acpi/mod.rs] the search for the sleep types. *)
From S2P Require Import Prelude UserLink FsTypes Bytes AmlData Resource Aml AmlDecode.

Import AmlData Aml.

Module Tree.
(** ** Strings *)
Fixpoint split_once (c : Z) (s : bytes) : option (bytes * bytes) :=
  match s with
  | [] => None
  | x :: s => if x =? c then Some ([], s) else (fun p => (x :: fst p, snd p)) <$> split_once c s
  end.
Fixpoint rsplit_once (c : Z) (s : bytes) : option (bytes * bytes) :=
  match s with
  | [] => None
  | x :: s =>
      match rsplit_once c s with
      | Some p => Some (x :: fst p, snd p)
      | None => if x =? c then Some ([], s) else None
      end
  end.
Fixpoint trim_start (c : Z) (s : bytes) : bytes :=
  match s with x :: s' => if x =? c then trim_start c s' else s | [] => [] end.
Definition ends_with (c : Z) (s : bytes) : bool := bool_decide (last s = Some c).
(** the order of strings *)
Fixpoint string_lt (a b : bytes) : bool :=
  match a, b with
  | [], _ :: _ => true
  | _, [] => false
  | x :: a, y :: b => (x <? y) || (x =? y) && string_lt a b
  end.

Definition is_some {A} (o : option A) : bool := match o with Some _ => true | None => false end.

(** ** Maps: [BTreeMap<String, _>] as the list of its entries in order *)
Section maps.
Context {V : Type}.
Fixpoint map_get (k : bytes) (m : list (bytes * V)) : option V :=
  match m with [] => None | (k', v) :: m => if bool_decide (k = k') then Some v else map_get k m end.
Fixpoint map_replace (k : bytes) (v : V) (m : list (bytes * V)) : list (bytes * V) :=
  match m with
  | [] => []
  | (k', v') :: m => if bool_decide (k = k') then (k, v) :: m else (k', v') :: map_replace k v m
  end.
Fixpoint map_add (k : bytes) (v : V) (m : list (bytes * V)) : list (bytes * V) :=
  match m with
  | [] => [(k, v)]
  | (k', v') :: m' => if string_lt k k' then (k, v) :: m else (k', v') :: map_add k v m'
  end.
Definition map_insert (k : bytes) (v : V) (m : list (bytes * V)) : list (bytes * V) :=
  match map_get k m with Some _ => map_replace k v m | None => map_add k v m end.
End maps.

(** ** The tree *)
Inductive StructuredAmlError : Type :=
| QueryPathMustBeAbsolute | CannotQueryRoot | PartOfPathNotScope (s : bytes) | InvalidName (s : bytes).

Record ScopeOf (E : Type) : Type := mkScope { sc_ty : ScopeType; children : list (bytes * E) }.
Arguments mkScope {E}. Arguments sc_ty {E}. Arguments children {E}.
Inductive ElementType : Type :=
| ScopeOrDevice (s : ScopeOf ElementType)
| EMethod (m : MethodObj)
| EProcessor (p : ProcessorDeprecated)
| EPowerResource (p : PowerResourceObj)
| ERegionFields (region : option RegionObj) (fields : list FieldDef)
| EIndexField (f : IndexFieldDef)
| EName (d : UnresolvedDataObject)
| EUnknownElements (ts : list AmlTerm).
Notation NScope := (ScopeOf ElementType).
Definition default_scope : NScope := mkScope TScope [].
Record StructuredAml : Type := mkStructured { root : NScope }.

(** [add_immediate_child], on the children of a scope.  Where two scopes meet
    the new one is marked as a device if either is one, but only its children
    are then looked at. *)
Fixpoint add_immediate (name : bytes) (element : ElementType) (this : list (bytes * ElementType)) {struct element} :
    outcome (list (bytes * ElementType)) :=
  _ ← assert_that (negb (starts_with [ROOT_CHAR] name));
  _ ← assert_that (Z.of_nat (length name) =? 4);
  match map_get name this with
  | None => Ret (map_insert name element this)
  | Some (ScopeOrDevice scope) =>
      match element with
      | ScopeOrDevice (mkScope _ others) =>
          merged ← (fix merge (l : list (bytes * ElementType)) (this : list (bytes * ElementType)) :=
            match l with
            | [] => Ret this
            | (name, element) :: l => this ← add_immediate name element this; merge l this
            end) others (children scope);
          Ret (map_insert name (ScopeOrDevice (mkScope (sc_ty scope) merged)) this)
      | _ => Panic
      end
  | Some (ERegionFields region fields) =>
      match element with
      | ERegionFields new_region new_fields =>
          _ ← assert_that (negb (is_some region && is_some new_region));
          Ret (map_insert name (ERegionFields (match region with Some r => Some r | None => new_region end) (fields ++ new_fields)) this)
      | _ => Panic
      end
  | Some (EUnknownElements elements) =>
      match element with
      | EUnknownElements new_elements => Ret (map_insert name (EUnknownElements (elements ++ new_elements)) this)
      | _ => Panic
      end
  | Some _ => Panic
  end.
Definition add_immediate_child (name : bytes) (element : ElementType) (this : NScope) : outcome NScope :=
  c ← add_immediate name element (children this);
  Ret (mkScope (sc_ty this) c).
Fixpoint merge_children (l this : list (bytes * ElementType)) : outcome (list (bytes * ElementType)) :=
  match l with
  | [] => Ret this
  | (name, element) :: l => this ← add_immediate name element this; merge_children l this
  end.
Definition merge (this other : NScope) : outcome NScope :=
  c ← merge_children (children other) (children this);
  Ret (mkScope (sc_ty this) c).

(** the [match element] of [add_child]: objects that carry their name *)
Definition set_name (name : bytes) (element : ElementType) : ElementType :=
  match element with
  | EMethod m => EMethod (mkMethod name (num_args m) (is_serialized m) (sync_level m) (mo_terms m))
  | EProcessor p => EProcessor (mkProcessor name (unk1 p) (unk2 p) (unk3 p) (pr_terms p))
  | EPowerResource p => EPowerResource (mkPower name (system_level p) (resource_order p) (pw_terms p))
  | ERegionFields region fields =>
      ERegionFields ((fun r => mkRegion name (rg_space r) (rg_offset r) (rg_length r)) <$> region)
        ((fun f => mkField name (fd_access_type f) (fd_need_lock f) (fd_update_rule f) (fd_fields f)) <$> fields)
  | EIndexField f => EIndexField (mkIndexField name (if_index_name f) (if_access_type f) (if_need_lock f) (if_update_rule f) (if_fields f))
  | e => e
  end.

Fixpoint add_child_loop (fuel : nat) (name : bytes) (element : ElementType) (this : NScope) : outcome NScope :=
  match fuel with
  | O => Diverge
  | S fuel =>
      _ ← assert_that (negb (starts_with [ROOT_CHAR] name));
      let element := set_name name element in
      match split_once DOT name with
      | Some (first_child, rest) =>
          match default (ScopeOrDevice default_scope) (map_get first_child (children this)) with
          | ScopeOrDevice scope =>
              scope ← add_child_loop fuel rest element scope;
              Ret (mkScope (sc_ty this) (map_insert first_child (ScopeOrDevice scope) (children this)))
          | _ => Panic
          end
      | None => add_immediate_child name element this
      end
  end.
(** every level takes a separator from the name *)
Definition add_child (name : bytes) (element : ElementType) (this : NScope) : outcome NScope :=
  add_child_loop (S (length name)) name element this.

Fixpoint handle_add (current_path : bytes) (this root : NScope) (name : bytes) (element : ElementType) {struct name} : outcome (NScope * NScope) :=
  match name with
  | c :: rest =>
      if c =? ROOT_CHAR then
        if bool_decide (rest = []) then
          match element with
          | ScopeOrDevice scope => root ← merge root scope; Ret (this, root)
          | _ => Panic
          end
        else root ← add_child rest element root; Ret (this, root)
      else if c =? PARENT_CHAR then
        _ ← assert_that (negb (bool_decide (rest = [])));
        parent ← unwrap (rsplit_once DOT current_path);
        let parent := fst parent in
        _ ← assert_that (starts_with [ROOT_CHAR] parent);
        if starts_with [PARENT_CHAR] rest then handle_add parent this root rest element
        else
          root ← add_child (trim_start ROOT_CHAR (parent ++ [DOT] ++ rest)) element root;
          Ret (this, root)
      else this ← add_child name element this; Ret (this, root)
  | [] => this ← add_child name element this; Ret (this, root)
  end.

Definition scope_path_of (current_path name : bytes) : bytes :=
  if starts_with [ROOT_CHAR] name then name
  else current_path ++ (if ends_with ROOT_CHAR current_path then [] else [DOT]) ++ name.
(** the statements that define nothing are collected at [\UNKW] *)
Definition UNKW : bytes := [0x55; 0x4E; 0x4B; 0x57].
(** the name and the element of a definition other than a scope *)
Definition element_of (term : AmlTerm) : bytes * ElementType :=
  match term with
  | Region region => (rg_name region, ERegionFields (Some region) [])
  | Field field => (fd_name field, ERegionFields None [field])
  | IndexField f => (if_name f, EIndexField f)
  | Processor p => (pr_name p, EProcessor p)
  | PowerResource p => (pw_name p, EPowerResource p)
  | Method m => (mo_name m, EMethod m)
  | NameObj name obj => (name, EName obj)
  | t => (ROOT_CHAR :: UNKW, EUnknownElements [t])
  end.

(** one round of the loop of [Scope::parse] *)
Fixpoint add_term (current_path : bytes) (term : AmlTerm) (this root : NScope) {struct term} : outcome (NScope * NScope) :=
  let scope_case (ty : ScopeType) (s : ScopeObj) :=
    match s with
    | mkScopeObj _ name terms =>
        r ← (fix parse (ts : list AmlTerm) (this root : NScope) : outcome (NScope * NScope) :=
          match ts with
          | [] => Ret (this, root)
          | t :: ts => r ← add_term (scope_path_of current_path name) t this root; parse ts (fst r) (snd r)
          end) terms (mkScope ty []) root;
        handle_add current_path this (snd r) name (ScopeOrDevice (fst r))
    end in
  match term with
  | Device s => scope_case TDevice s
  | Scope s => scope_case TScope s
  | t => handle_add current_path this root (fst (element_of t)) (snd (element_of t))
  end.
Definition add_terms (current_path : bytes) : list AmlTerm -> NScope -> NScope -> outcome (NScope * NScope) :=
  fix parse (ts : list AmlTerm) (this root : NScope) : outcome (NScope * NScope) :=
    match ts with
    | [] => Ret (this, root)
    | t :: ts => r ← add_term current_path t this root; parse ts (fst r) (snd r)
    end.
(** [Scope::parse]: the scope, and the root *)
Definition scope_parse (terms : list AmlTerm) (root : NScope) (current_path : bytes) (ty : ScopeType) : outcome (NScope * NScope) :=
  add_terms current_path terms (mkScope ty []) root.
Definition structured_parse (code : AmlCode) : outcome StructuredAml :=
  r ← scope_parse (term_list code) default_scope [ROOT_CHAR] TScope;
  root ← merge (snd r) (fst r);
  Ret (mkStructured root).

(** [Scope::find_object] *)
Fixpoint scope_find_object (fuel : nat) (this : NScope) (name : bytes) : outcome (result (option ElementType) StructuredAmlError) :=
  match fuel with
  | O => Diverge
  | S fuel =>
      match split_once DOT name with
      | Some (first_child, rest) =>
          if negb (Z.of_nat (length first_child) =? 4) then Ret (Err (InvalidName first_child)) else
          match map_get first_child (children this) with
          | None => Ret (Ok None)
          | Some (ScopeOrDevice scope) => scope_find_object fuel scope rest
          | Some _ => Ret (Err (PartOfPathNotScope first_child))
          end
      | None =>
          if negb (Z.of_nat (length name) =? 4) then Ret (Err (InvalidName name)) else
          Ret (Ok (map_get name (children this)))
      end
  end.
Definition find_object (s : StructuredAml) (label : bytes) : outcome (result (option ElementType) StructuredAmlError) :=
  match label with
  | c :: rest =>
      if c =? ROOT_CHAR then
        if bool_decide (rest = []) then Ret (Err CannotQueryRoot) else scope_find_object (S (length rest)) (root s) rest
      else Ret (Err QueryPathMustBeAbsolute)
  | [] => Ret (Err QueryPathMustBeAbsolute)
  end.

(** ** Evaluation *)
Inductive DataObject : Type :=
| DInteger (i : IntegerData)
| DResourceTemplate (items : list Resource.ResourceMacro)
| DBuffer (size : IntegerData) (data : bytes)
| DPackage (size : IntegerData) (elements : list (PackageElement DataObject))
| DString (s : bytes)
| DEisaId (s : bytes).
Definition as_integer (d : DataObject) : option IntegerData := match d with DInteger i => Some i | _ => None end.
Definition as_package (d : DataObject) : option (IntegerData * list (PackageElement DataObject)) :=
  match d with DPackage size elements => Some (size, elements) | _ => None end.
Inductive AmlExecutionError : Type :=
| LableNotFound (s : bytes) | StructuredError (e : StructuredAmlError) | ElementNotExecutable (s : bytes)
| UnexpectedTermResultType (a : TermArg) (expected : bytes).

(** [todo!] *)
Definition execute_term_arg (term : TermArg) : outcome (result DataObject AmlExecutionError) := Panic.
Definition INTEGER : bytes := [0x49; 0x6E; 0x74; 0x65; 0x67; 0x65; 0x72].
(** the size of a buffer or package *)
Definition size_term (term : TermArg) : outcome (result IntegerData AmlExecutionError) :=
  d ← execute_term_arg term;
  Ret (match d with
       | Err e => Err e
       | Ok (DInteger i) => Ok i
       | Ok _ => Err (UnexpectedTermResultType term INTEGER)
       end).
Fixpoint evaluate_data_object (data : UnresolvedDataObject) : outcome (result DataObject AmlExecutionError) :=
  let convert_package_elements := fix convert (l : list (PackageElement UnresolvedDataObject)) :
      outcome (result (list (PackageElement DataObject)) AmlExecutionError) :=
    match l with
    | [] => Ret (Ok [])
    | e :: l =>
        e ← match e with
            | PeDataObject d =>
                r ← evaluate_data_object d;
                Ret (match r with Ok d => Ok (PeDataObject d) | Err e => Err e end)
            | PeName name => Ret (Ok (PeName name))
            end;
        match e with
        | Err e => Ret (Err e)
        | Ok e => r ← convert l; Ret (match r with Ok r => Ok (e :: r) | Err e => Err e end)
        end
    end in
  match data with
  | BufferObj buffer =>
      size ← size_term (buf_size buffer);
      Ret (match size with Ok i => Ok (DBuffer i (buf_data buffer)) | Err e => Err e end)
  | TemplateObj items => Ret (Ok (DResourceTemplate items))
  | Package size elements =>
      r ← convert_package_elements elements;
      Ret (match r with Ok es => Ok (DPackage (ByteConst size) es) | Err e => Err e end)
  | VarPackage term elements =>
      size ← size_term term;
      match size with
      | Err e => Ret (Err e)
      | Ok size => r ← convert_package_elements elements; Ret (match r with Ok es => Ok (DPackage size es) | Err e => Err e end)
      end
  | Integer i => Ret (Ok (DInteger i))
  | StringObj s => Ret (Ok (DString s))
  | EisaId s => Ret (Ok (DEisaId s))
  end.
(** [ExecutionContext::execute]; methods are not executed: [todo!] *)
Definition execute (s : StructuredAml) (label : bytes) : outcome (result DataObject AmlExecutionError) :=
  r ← find_object s label;
  match r with
  | Err e => Ret (Err (StructuredError e))
  | Ok None => Ret (Err (LableNotFound label))
  | Ok (Some (EMethod _)) => Panic
  | Ok (Some (EName data)) => evaluate_data_object data
  | Ok (Some (EUnknownElements _)) => Ret (Err (LableNotFound label))
  | Ok (Some _) => Ret (Err (ElementNotExecutable label))
  end.

(** ** [aml/mod.rs] *)
Record AmlTable : Type := mkAml { aml_code : AmlCode; structured : StructuredAml }.
Definition aml_parse (body : bytes) : outcome (result AmlTable AmlParseError) :=
  r ← parse_aml body;
  match r with
  | Err e => Ret (Err e)
  | Ok code => s ← structured_parse code; Ret (Ok (mkAml code s))
  end.

(** ** Sleep types *)
(** the closure of [fetch_s_array] *)
Definition slp_item (e : PackageElement DataObject) : option Z :=
  match as_data e with
  | None => None
  | Some data =>
      match as_integer data with
      | None => None
      | Some int =>
          match as_u8 int with
          | Some int => Some (if negb (Z.land int (unot 8 7) =? 0) then Z.land int 7 else int)
          | None => None
          end
      end
  end.
(** the two bytes, zero where the package is shorter *)
Fixpoint slp_bytes (items : list (PackageElement DataObject)) (slp_data : list Z) (i : nat) : option (list Z) :=
  match items with
  | [] => Some slp_data
  | e :: items => match slp_item e with Some item => slp_bytes items (<[i := item]> slp_data) (S i) | None => None end
  end.
Definition fetch_s_array (aml : AmlTable) (name : bytes) : outcome (option (list Z)) :=
  r ← execute (structured aml) name;
  Ret (match r with
       | Ok obj => match as_package obj with Some (_, elements) => slp_bytes (take 2 elements) [0; 0] 0 | None => None end
       | Err _ => None
       end).
(** [\_S1_] to [\_S5_] *)
Definition sleep_name (i : nat) : bytes := [0x5C; 0x5F; 0x53; 0x31 + Z.of_nat i; 0x5F].
(** one table: fill in what is still missing, from the [i]th on *)
Fixpoint fill_slp (table : AmlTable) (i : nat) (slp_type_data : list (option (list Z))) : outcome (list (option (list Z))) :=
  match slp_type_data with
  | [] => Ret []
  | d :: rest =>
      d ← match d with Some d => Ret (Some d) | None => fetch_s_array table (sleep_name i) end;
      rest ← fill_slp table (S i) rest;
      Ret (d :: rest)
  end.
Fixpoint fill_tables (tables : list AmlTable) (slp_type_data : list (option (list Z))) : outcome (list (option (list Z))) :=
  match tables with
  | [] => Ret slp_type_data
  | t :: tables => slp_type_data ← fill_slp t 0 slp_type_data; fill_tables tables slp_type_data
  end.
Definition slp_type_data (tables : list AmlTable) : outcome (list (option (list Z))) := fill_tables tables (replicate 5 None).
End Tree.

(** * The tree of scopes as a map of paths

    The tree of [AmlTree] is read as a finite map from paths to nodes.  Adding
    an element or merging two scopes is the union of such maps, with a
    partial operation where both have a node; the calls panic exactly where
    that operation is undefined. *)
Import AmlData Aml Tree.

(** ** Maps *)
Section maps.
Context {V : Type}.
Implicit Types (m : list (bytes * V)) (k : bytes) (v : V).

Lemma map_get_None k m : map_get k m = None <-> k ∉ m.*1.
Proof.
  induction m as [|[k' v'] m IH]; cbn; [split; [intros _ H; by apply elem_of_nil in H|done]|].
  case_bool_decide; [subst; split; [done|intros H; exfalso; apply H, list_elem_of_here]|]. rewrite IH, not_elem_of_cons. naive_solver.
Qed.
Lemma map_get_elem k v m : map_get k m = Some v -> (k, v) ∈ m.
Proof.
  induction m as [|[k' v'] m IH]; cbn; [done|]. case_bool_decide; [intros [= ->]; subst; apply list_elem_of_here|].
  intros E. by apply list_elem_of_further, IH.
Qed.
Lemma map_add_perm k v m : map_add k v m ≡ₚ (k, v) :: m.
Proof.
  induction m as [|[k' v'] m IH]; cbn [map_add]; [done|]. destruct (string_lt k k'); [done|]. rewrite IH. apply Permutation_swap.
Qed.
Lemma map_get_add k v m k' : map_get k m = None -> map_get k' (map_add k v m) = if bool_decide (k' = k) then Some v else map_get k' m.
Proof.
  induction m as [|[k2 v2] m IH]; cbn [map_add map_get]; [done|]. intros H. case_bool_decide as E; [done|].
  destruct (string_lt k k2); cbn [map_get]; [done|]. rewrite IH by done. do 2 case_bool_decide; congruence.
Qed.
Lemma map_get_replace k v m k' : map_get k m <> None -> map_get k' (map_replace k v m) = if bool_decide (k' = k) then Some v else map_get k' m.
Proof.
  induction m as [|[k2 v2] m IH]; cbn [map_replace map_get]; [done|]. destruct (bool_decide_reflect (k = k2)) as [->|E]; intros H; cbn [map_get]; [by case_bool_decide|].
  rewrite IH by done. do 2 case_bool_decide; congruence.
Qed.
Lemma map_get_insert k v m k' : map_get k' (map_insert k v m) = if bool_decide (k' = k) then Some v else map_get k' m.
Proof.
  unfold map_insert. destruct (map_get k m) eqn:E; [apply map_get_replace; congruence|by apply map_get_add].
Qed.
Lemma replace_keys k v m : (map_replace k v m).*1 = m.*1.
Proof. induction m as [|[k' v'] m IH]; cbn; [done|]. case_bool_decide; cbn; [by subst|by f_equal]. Qed.
Lemma map_insert_keys k v m : NoDup m.*1 -> NoDup (map_insert k v m).*1.
Proof.
  intros H. unfold map_insert. destruct (map_get k m) eqn:E; [by rewrite replace_keys|]. rewrite map_add_perm. cbn. constructor; [by apply map_get_None|done].
Qed.
Lemma map_insert_Forall (Q : bytes * V -> Prop) k v m : Q (k, v) -> Forall Q m -> Forall Q (map_insert k v m).
Proof.
  intros Hq H. unfold map_insert. destruct (map_get k m); [|rewrite map_add_perm; by constructor].
  induction H as [|[k' v'] m Hx H IH]; cbn; [constructor|]. case_bool_decide; constructor; done.
Qed.
End maps.

(** ** Elements *)
Definition is_scope (e : ElementType) : bool := match e with ScopeOrDevice _ => true | _ => false end.
Section induction.
Context (Q : ElementType -> Prop).
Hypothesis Hleaf : forall e, is_scope e = false -> Q e.
Hypothesis Hscope : forall ty l, Forall (fun p => Q (snd p)) l -> Q (ScopeOrDevice (mkScope ty l)).
Fixpoint element_induction (e : ElementType) : Q e :=
  match e with
  | ScopeOrDevice (mkScope ty l) =>
      Hscope ty l ((fix go l : Forall (fun p : bytes * ElementType => Q (snd p)) l :=
        match l with [] => Forall_nil_2 _ | (k, e) :: l => Forall_cons_2 (fun p => Q (snd p)) (k, e) l (element_induction e) (go l) end) l)
  | EMethod m => Hleaf (EMethod m) eq_refl
  | EProcessor p => Hleaf (EProcessor p) eq_refl
  | EPowerResource p => Hleaf (EPowerResource p) eq_refl
  | ERegionFields r f => Hleaf (ERegionFields r f) eq_refl
  | EIndexField f => Hleaf (EIndexField f) eq_refl
  | EName d => Hleaf (EName d) eq_refl
  | EUnknownElements ts => Hleaf (EUnknownElements ts) eq_refl
  end.
End induction.

(** the names in a tree are names of four bytes, each once in its scope *)
Definition key (x : bytes) : Prop := length x = 4%nat /\ starts_with [ROOT_CHAR] x = false.
Inductive wf : ElementType -> Prop :=
| wf_scope ty l : NoDup l.*1 -> Forall (fun p => key (fst p)) l -> Forall (fun p => wf (snd p)) l -> wf (ScopeOrDevice (mkScope ty l))
| wf_leaf e : is_scope e = false -> wf e.
Definition wfm (l : list (bytes * ElementType)) : Prop := NoDup l.*1 /\ Forall (fun p => key (fst p)) l /\ Forall (fun p => wf (snd p)) l.
Lemma wf_scope_iff s : wf (ScopeOrDevice s) <-> wfm (children s).
Proof.
  split; [inversion 1 as [ty l H1 H2 H3|]; [by split_and!|done]|]. intros (H1 & H2 & H3). destruct s. by constructor.
Qed.
Lemma wfm_nil : wfm [].
Proof. split_and!; constructor. Qed.
Lemma wfm_get l k e : wfm l -> map_get k l = Some e -> wf e.
Proof. intros (_ & _ & H) E%map_get_elem. rewrite Forall_forall in H. exact (H _ E). Qed.
Lemma wfm_insert l k e : wfm l -> key k -> wf e -> wfm (map_insert k e l).
Proof. intros (H1 & H2 & H3) Hk He. split_and!; [by apply map_insert_keys|by apply map_insert_Forall..]. Qed.

(** ** Nodes *)
Inductive node : Type := NdScope | NdLeaf (e : ElementType).
Definition node_of (e : ElementType) : node := match e with ScopeOrDevice _ => NdScope | e => NdLeaf e end.
(** what is at a path below an element *)
Fixpoint below (e : ElementType) (q : list bytes) {struct q} : option node :=
  match q with
  | [] => Some (node_of e)
  | x :: q =>
      match e with
      | ScopeOrDevice s => match map_get x (children s) with Some e => below e q | None => None end
      | _ => None
      end
  end.
Definition lookup_path (l : list (bytes * ElementType)) (q : list bytes) : option node :=
  match q with [] => None | x :: q => match map_get x l with Some e => below e q | None => None end end.
Lemma below_scope s x q : below (ScopeOrDevice s) (x :: q) = lookup_path (children s) (x :: q).
Proof. done. Qed.
Lemma below_leaf e x q : is_scope e = false -> below e (x :: q) = None.
Proof. by destruct e. Qed.
Lemma lookup_insert k e l x q : lookup_path (map_insert k e l) (x :: q) = if bool_decide (x = k) then below e q else lookup_path l (x :: q).
Proof. cbn [lookup_path]. rewrite map_get_insert. by case_bool_decide. Qed.

(** two nodes at one path: scopes are merged, fields join their region *)
Definition combine (a b : node) : option node :=
  match a, b with
  | NdScope, NdScope => Some NdScope
  | NdLeaf (ERegionFields r fs), NdLeaf (ERegionFields r' fs') =>
      if is_some r && is_some r' then None else Some (NdLeaf (ERegionFields (match r with Some r => Some r | None => r' end) (fs ++ fs')))
  | NdLeaf (EUnknownElements ts), NdLeaf (EUnknownElements ts') => Some (NdLeaf (EUnknownElements (ts ++ ts')))
  | _, _ => None
  end.
Definition union_at (a b : option node) : option node :=
  match a, b with Some a, Some b => combine a b | Some a, None => Some a | None, b => b end.
Definition compat_at (a b : option node) : Prop := match a, b with Some a, Some b => is_Some (combine a b) | _, _ => True end.
Lemma union_none_r a : union_at a None = a.
Proof. by destruct a. Qed.
Lemma compat_none_r a : compat_at a None.
Proof. by destruct a. Qed.

(** ** Placing an element at a path; the scopes on the way are made *)
Fixpoint deep (p : list bytes) (e : ElementType) (q : list bytes) {struct p} : option node :=
  match p with
  | [] => below e q
  | x :: p => match q with [] => Some NdScope | y :: q => if bool_decide (y = x) then deep p e q else None end
  end.
Definition place (p : list bytes) (e : ElementType) (q : list bytes) : option node := match q with [] => None | _ => deep p e q end.

(** ** Merging *)
(** what [add_immediate] does with an element *)
Definition adds (e : ElementType) : Prop := forall name m, wf e -> key name -> wfm m ->
  (forall q, compat_at (lookup_path m q) (place [name] e q)) ->
  exists m', add_immediate name e m = Ret m' /\ wfm m' /\ forall q, lookup_path m' q = union_at (lookup_path m q) (place [name] e q).

Lemma merge_spec l : Forall (fun p => adds (snd p)) l -> wfm l -> forall m, wfm m -> (forall q, compat_at (lookup_path m q) (lookup_path l q)) ->
  exists m', merge_children l m = Ret m' /\ wfm m' /\ forall q, lookup_path m' q = union_at (lookup_path m q) (lookup_path l q).
Proof.
  induction l as [|[k e] l IH]; intros Ha Hl m Hm Hc; cbn [merge_children].
  - exists m. split_and!; [done|done|]. intros [|x q]; by rewrite union_none_r.
  - apply Forall_cons in Ha as [He Ha]. destruct Hl as (Hd & Hk & Hw). cbn [fmap list_fmap fst snd] in *.
    apply NoDup_cons in Hd as [Hn Hd]. apply Forall_cons in Hk as [Hk0 Hk]. apply Forall_cons in Hw as [Hw0 Hw]. apply map_get_None in Hn.
    assert (Hp : forall q, lookup_path ((k, e) :: l) q = union_at (place [k] e q) (lookup_path l q)).
    { intros [|x q]; [done|]. cbn. case_bool_decide; [subst; rewrite Hn; by rewrite union_none_r|done]. }
    assert (Hx : forall q, place [k] e q = None \/ lookup_path l q = None).
    { intros [|x q]; [by left|]. cbn. case_bool_decide; [subst; right; by rewrite Hn|by left]. }
    destruct (He k m Hw0 Hk0 Hm) as (m1 & E1 & W1 & L1).
    { intros q. specialize (Hc q). rewrite Hp in Hc. destruct (Hx q) as [E|E]; [rewrite E; apply compat_none_r|]. by rewrite E, union_none_r in Hc. }
    destruct (IH Ha ltac:(by split_and!) m1 W1) as (m2 & E2 & W2 & L2).
    { intros q. specialize (Hc q). rewrite L1. rewrite Hp in Hc. destruct (Hx q) as [E|E]; [|rewrite E; apply compat_none_r]. rewrite E in Hc. by rewrite E, union_none_r. }
    exists m2. split_and!; [|done|].
    + cbn [mbind outcome_bind]. rewrite E1. exact E2.
    + intros q. rewrite L2, L1, Hp. destruct (Hx q) as [E|E]; rewrite E; [by rewrite union_none_r|by rewrite !union_none_r].
Qed.

Lemma node_leaf e : is_scope e = false -> node_of e = NdLeaf e.
Proof. by destruct e. Qed.
(** at a name without children *)
Lemma insert_leaf m name e e' : wfm m -> key name -> is_scope e = false -> is_scope e' = false ->
  union_at (node_of <$> map_get name m) (Some (NdLeaf e)) = Some (NdLeaf e') ->
  wfm (map_insert name e' m) /\ forall q, lookup_path (map_insert name e' m) q = union_at (lookup_path m q) (place [name] e q).
Proof.
  intros Hm Hk He He' Hu. split; [apply wfm_insert; [done|done|by apply wf_leaf]|]. intros [|x q]; [done|]. rewrite lookup_insert.
  cbn [lookup_path place deep]. case_bool_decide as Ex; [subst x|by rewrite union_none_r]. destruct (map_get name m) as [e0|] eqn:Eg; cbn [fmap option_fmap option_map] in Hu.
  - assert (is_scope e0 = false) by by destruct e0. destruct q as [|y q]; [|by rewrite !below_leaf]. cbn [below]. by rewrite (node_leaf e), (node_leaf e'), Hu.
  - injection Hu as ->. by destruct q.
Qed.
Lemma add_leaf_spec e : is_scope e = false -> adds e.
Proof.
  intros He name m Hw Hk Hm Hc. pose proof Hk as [Hlen Hroot]. specialize (Hc [name]). cbn [lookup_path place deep below] in Hc. rewrite bool_decide_eq_true_2 in Hc by done.
  assert (Ha : forall e', is_scope e' = false -> union_at (node_of <$> map_get name m) (Some (NdLeaf e)) = Some (NdLeaf e') ->
    add_immediate name e m = Ret (map_insert name e' m) ->
    exists m', add_immediate name e m = Ret m' /\ wfm m' /\ forall q, lookup_path m' q = union_at (lookup_path m q) (place [name] e q)).
  { intros e' He' Hu E. exists (map_insert name e' m). split; [done|]. by apply insert_leaf. }
  destruct (map_get name m) as [e0|] eqn:Eg.
  - rewrite (node_leaf e He) in Hc. destruct Hc as [n Hc]. cbn [below] in Hc. destruct e0, e; try done; cbn [node_of combine] in Hc.
    + destruct (is_some region && is_some region0) eqn:Er; [done|]. eapply Ha; [|cbn; rewrite Er; reflexivity|]; [done|].
      cbn [add_immediate]. rewrite Hroot, Hlen, Eg, Er. done.
    + eapply Ha; [|reflexivity|]; [done|]. cbn [add_immediate]. rewrite Hroot, Hlen, Eg. done.
  - apply (Ha e); [done|done|]. destruct e; try done; cbn [add_immediate]; rewrite Hroot, Hlen, Eg; done.
Qed.
Lemma add_immediate_scope name ty l m s : key name -> map_get name m = Some (ScopeOrDevice s) ->
  add_immediate name (ScopeOrDevice (mkScope ty l)) m =
  (merged ← merge_children l (children s); Ret (map_insert name (ScopeOrDevice (mkScope (sc_ty s) merged)) m)).
Proof. intros [Hlen Hroot] Eg. cbn [add_immediate]. rewrite Hroot, Hlen, Eg. reflexivity. Qed.
Lemma adds_all e : adds e.
Proof.
  induction e as [e He|ty l IH] using element_induction; [by apply add_leaf_spec|]. intros name m Hw Hk Hm Hc. pose proof Hk as [Hlen Hroot].
  assert (Hx : forall s c, wfm c -> (forall q, below (ScopeOrDevice (mkScope s c)) q = union_at (match map_get name m with Some e => below e q | None => None end) (below (ScopeOrDevice (mkScope ty l)) q)) ->
    wfm (map_insert name (ScopeOrDevice (mkScope s c)) m) /\
    forall q, lookup_path (map_insert name (ScopeOrDevice (mkScope s c)) m) q = union_at (lookup_path m q) (place [name] (ScopeOrDevice (mkScope ty l)) q)).
  { intros s c Hwc Hb. split; [apply wfm_insert; [done|done|by apply wf_scope_iff]|]. intros [|x q]; [done|]. rewrite lookup_insert. cbn [lookup_path place deep].
    case_bool_decide as Ex; [by subst x|by rewrite union_none_r]. }
  destruct (map_get name m) as [e0|] eqn:Eg.
  - assert (Hq : forall q, compat_at (below e0 q) (below (ScopeOrDevice (mkScope ty l)) q)).
    { intros q. specialize (Hc (name :: q)). cbn [lookup_path place deep] in Hc. by rewrite Eg, bool_decide_eq_true_2 in Hc by done. }
    assert (exists s, e0 = ScopeOrDevice s) as [s ->] by (specialize (Hq []) as [n Hq0]; destruct e0; try done; by eexists).
    apply wf_scope_iff in Hw. cbn [children] in Hw. pose proof (wfm_get _ _ _ Hm Eg) as Hws. apply wf_scope_iff in Hws.
    destruct (merge_spec l IH Hw (children s) Hws) as (c & Ec & Wc & Lc).
    { intros [|x q]; [done|]. exact (Hq (x :: q)). }
    exists (map_insert name (ScopeOrDevice (mkScope (sc_ty s) c)) m). split; [|apply Hx; [done|]].
    + rewrite (add_immediate_scope _ _ _ _ s) by done. by rewrite Ec.
    + intros [|x q]; [done|]. exact (Lc (x :: q)).
  - exists (map_insert name (ScopeOrDevice (mkScope ty l)) m). split; [cbn [add_immediate]; by rewrite Hroot, Hlen, Eg|].
    apply Hx; [by apply wf_scope_iff in Hw|]. intros q. done.
Qed.

(** ** Adding at a path *)
Lemma set_name_twice a b e : set_name a (set_name b e) = set_name a e.
Proof. destruct e as [| | | |[r|] fs| | |]; try done; cbn; by rewrite <- list_fmap_compose. Qed.
Lemma set_name_scope n e : is_scope (set_name n e) = is_scope e.
Proof. by destruct e. Qed.
Lemma set_name_wf n e : wf e -> wf (set_name n e).
Proof. destruct e; intros H; try done; by apply wf_leaf. Qed.

Lemma segment_chars x : segment x -> length x = 4%nat /\ exists a y, x = a :: y /\ 0x41 <= a /\ a <> ROOT_CHAR /\ a <> PARENT_CHAR /\ Forall (fun b => b <> DOT /\ b <> ROOT_CHAR) x.
Proof.
  intros (a & b & c & d & -> & Ha & Hb & Hc & Hd). split; [done|].
  assert (Hn : forall b, name_char b = true -> b <> DOT /\ b <> ROOT_CHAR) by (intros i Hi; unfold DOT, ROOT_CHAR; by split; intros ->).
  assert (Hl : 0x41 <= a /\ a <> ROOT_CHAR /\ a <> PARENT_CHAR /\ a <> DOT).
  { unfold lead_name_char, between in Ha. unfold ROOT_CHAR, PARENT_CHAR, DOT. destruct (Z.leb_spec 0x41 a), (Z.leb_spec a 0x5A), (Z.eqb_spec a 0x5F); try done; lia. }
  destruct Hl as (? & ? & ? & ?). exists a, [b; c; d]. split_and!; [done..|]. repeat constructor; try done; by apply Hn.
Qed.
Lemma starts_with_one c a y : starts_with [c] (a :: y) = (c =? a).
Proof. cbn [starts_with]. apply andb_true_r. Qed.
Lemma segment_key x : segment x -> key x.
Proof.
  intros (Hl & a & y & -> & _ & Hr & _)%segment_chars. split; [done|]. rewrite starts_with_one. apply Z.eqb_neq. congruence.
Qed.
Lemma split_once_app c x r : Forall (fun b => b <> c) x -> split_once c (x ++ c :: r) = Some (x, r).
Proof. induction 1 as [|b x Hb Hx IH]; cbn; [by rewrite Z.eqb_refl|]. by rewrite (proj2 (Z.eqb_neq _ _)), IH. Qed.
Lemma split_once_none c x : Forall (fun b => b <> c) x -> split_once c x = None.
Proof. induction 1 as [|b x Hb Hx IH]; cbn; [done|]. by rewrite (proj2 (Z.eqb_neq _ _)), IH. Qed.
Lemma segment_no_dot x : segment x -> Forall (fun b => b <> DOT) x.
Proof. intros (_ & a & y & _ & _ & _ & _ & H)%segment_chars. eapply Forall_impl; [exact H|]. by intros ? []. Qed.
Lemma join_cons x y p : join (x :: y :: p) = x ++ DOT :: join (y :: p).
Proof. done. Qed.
Lemma join_head p : p <> [] -> Forall segment p -> exists a y, join p = a :: y /\ a <> ROOT_CHAR /\ a <> PARENT_CHAR.
Proof.
  destruct p as [|x [|x2 p]]; [done|..]; intros _ [Hx _]%Forall_cons; destruct (segment_chars x Hx) as (_ & a & y & -> & _ & ? & ? & _); by eexists _, _.
Qed.
Lemma join_not_root p : p <> [] -> Forall segment p -> starts_with [ROOT_CHAR] (join p) = false.
Proof. intros H1 H2. destruct (join_head p H1 H2) as (a & y & -> & Hr & _). rewrite starts_with_one. apply Z.eqb_neq. congruence. Qed.

(** the name an element has at a path *)
Definition named (p : list bytes) (e : ElementType) : ElementType := set_name (List.last p []) e.
Lemma add_child_loop_spec p : forall fuel e this, p <> [] -> Forall segment p -> (length p <= fuel)%nat -> wf e -> wfm (children this) ->
  (forall q, compat_at (lookup_path (children this) q) (place p (named p e) q)) ->
  exists c, add_child_loop fuel (join p) e this = Ret (mkScope (sc_ty this) c) /\ wfm c /\
    forall q, lookup_path c q = union_at (lookup_path (children this) q) (place p (named p e) q).
Proof.
  induction p as [|x p IH]; intros [|fuel] e this Hne Hs Hf He Hm Hc; try done; [cbn in Hf; lia|].
  cbn [add_child_loop]. rewrite (join_not_root _ Hne Hs). cbn [negb assert_that mbind outcome_bind]. apply Forall_cons in Hs as [Hx Hs].
  destruct p as [|y p].
  - cbn [join]. rewrite split_once_none by by apply segment_no_dot. unfold add_immediate_child.
    destruct (adds_all (set_name x e) x (children this)) as (c & Ec & Wc & Lc); [by apply set_name_wf|by apply segment_key|done|exact Hc|].
    exists c. by rewrite Ec.
  - rewrite join_cons, split_once_app by by apply segment_no_dot.
    assert (exists s, default (ScopeOrDevice default_scope) (map_get x (children this)) = ScopeOrDevice s /\ wfm (children s) /\
      forall q, lookup_path (children this) (x :: q) = match q with [] => node_of <$> map_get x (children this) | _ => lookup_path (children s) q end) as (s & Es & Ws & Ls).
    { specialize (Hc [x]). cbn [lookup_path place deep below] in Hc. rewrite bool_decide_eq_true_2 in Hc by done. cbn [lookup_path].
      destruct (map_get x (children this)) as [e0|] eqn:Eg.
      - assert (exists s, e0 = ScopeOrDevice s) as [s ->] by (destruct Hc as [n Hc]; destruct e0; try done; by eexists).
        exists s. split_and!; [done|by eapply wf_scope_iff, wfm_get|by intros []].
      - exists default_scope. split_and!; [done|apply wfm_nil|]. by intros [|? ?]. }
    rewrite Es. destruct (IH fuel (set_name (x ++ DOT :: join (y :: p)) e) s) as (c & Ec & Wc & Lc); [done|done|cbn in *; lia|by apply set_name_wf|done| |].
    { intros q. specialize (Hc (x :: q)). unfold named in *. rewrite set_name_twice. destruct q as [|z q]; [done|]. rewrite Ls in Hc.
      cbn [place] in *. cbn [deep] in Hc. rewrite bool_decide_eq_true_2 in Hc by done. exact Hc. }
    rewrite Ec. exists (map_insert x (ScopeOrDevice (mkScope (sc_ty s) c)) (children this)). split_and!; [done| |].
    + apply wfm_insert; [done|by apply segment_key|by apply wf_scope_iff].
    + intros [|z q]; [done|]. rewrite lookup_insert. unfold named in *. rewrite set_name_twice in Lc. cbn [place deep].
      case_bool_decide as Ez; [subst z|by rewrite union_none_r]. rewrite Ls. destruct q as [|w q].
      * specialize (Hc [x]). cbn [lookup_path place deep below] in Hc. rewrite bool_decide_eq_true_2 in Hc by done.
        destruct (map_get x (children this)) as [[]|]; cbn in *; try done; by destruct Hc.
      * rewrite below_scope. exact (Lc (w :: q)).
Qed.
Lemma join_length p : Forall segment p -> (length p <= length (join p))%nat.
Proof.
  induction p as [|x p IH]; [done|]. intros [(Hx & _)%segment_chars Hp]%Forall_cons. specialize (IH Hp). destruct p; [cbn; lia|].
  rewrite join_cons, length_app. cbn [length] in *. lia.
Qed.
Lemma add_child_spec p e this : p <> [] -> Forall segment p -> wf e -> wfm (children this) ->
  (forall q, compat_at (lookup_path (children this) q) (place p (named p e) q)) ->
  exists c, add_child (join p) e this = Ret (mkScope (sc_ty this) c) /\ wfm c /\
    forall q, lookup_path c q = union_at (lookup_path (children this) q) (place p (named p e) q).
Proof. intros. apply add_child_loop_spec; try done. pose proof (join_length p ltac:(done)). lia. Qed.
Lemma merge_scope_spec this other : wfm (children this) -> wfm (children other) ->
  (forall q, compat_at (lookup_path (children this) q) (lookup_path (children other) q)) ->
  exists c, merge this other = Ret (mkScope (sc_ty this) c) /\ wfm c /\
    forall q, lookup_path c q = union_at (lookup_path (children this) q) (lookup_path (children other) q).
Proof.
  intros Ht Ho Hc. destruct (merge_spec (children other)) with (m := children this) as (c & Ec & Wc & Lc); [|done|done|done|].
  - apply Forall_true. intros [k e]. apply adds_all.
  - exists c. unfold merge. by rewrite Ec.
Qed.
