(* ===== verification/AmlSpace.v ===== *)
(** * What the definitions of a program put into the namespace

    A declarative reading of an AML program: the list of its definitions, each
    with the absolute path it is made at.  [StructuredAml::parse] builds the
    tree of exactly these definitions, and [find_object] finds them. *)
From S2P Require Import Prelude UserLink FsTypes Bytes AmlData Resource Aml AmlDecode AmlTree.
Import AmlData Aml Tree.

(** ** Definitions *)
(** an element, its path relative to a scope, and the path of the scope *)
Record def : Type := mkDef { d_base : list bytes; d_rel : list bytes; d_elem : ElementType }.
Definition d_path (d : def) : list bytes := d_base d ++ d_rel d.
Fixpoint under (p : list bytes) (f : list bytes -> option node) (q : list bytes) : option node :=
  match p, q with
  | [], q => f q
  | x :: p, y :: q => if bool_decide (y = x) then under p f q else None
  | _ :: _, [] => None
  end.
Definition sem (d : def) (q : list bytes) : option node := under (d_base d) (place (d_rel d) (d_elem d)) q.
Definition shift (p : list bytes) (d : def) : def := mkDef (p ++ d_base d) (d_rel d) (d_elem d).

Lemma under_app p r f q : under (p ++ r) f q = under p (under r f) q.
Proof. revert q. induction p as [|x p IH]; intros [|y q]; cbn; try done. case_bool_decide; [apply IH|done]. Qed.
Lemma under_at p f q : under p f (p ++ q) = f q.
Proof. induction p as [|x p IH]; cbn; [done|]. by rewrite bool_decide_eq_true_2. Qed.
Lemma sem_shift p d q : sem (shift p d) q = under p (sem d) q.
Proof. apply under_app. Qed.
Lemma sem_nil d : sem d [] = None.
Proof. unfold sem. by destruct (d_base d). Qed.
Lemma shift_nil d : shift [] d = d.
Proof. by destruct d. Qed.
Lemma shift_shift p r d : shift p (shift r d) = shift (p ++ r) d.
Proof. unfold shift. cbn. by rewrite app_assoc. Qed.
Lemma shift_nil_list (ds : list def) : shift [] <$> ds = ds.
Proof. induction ds as [|d ds IH]; cbn; [done|]. by rewrite shift_nil, IH. Qed.
Lemma shift_shift_list p r (ds : list def) : shift p <$> (shift r <$> ds) = shift (p ++ r) <$> ds.
Proof. rewrite <- list_fmap_compose. apply list_fmap_ext. intros. apply shift_shift. Qed.

(** ** A node stands for the definitions at its path *)
Definition region_of (n : node) : option RegionObj := match n with NdLeaf (ERegionFields r _) => r | _ => None end.
Definition fields_of (n : node) : list FieldDef := match n with NdLeaf (ERegionFields _ fs) => fs | _ => [] end.
Definition is_region (n : node) : Prop := match n with NdLeaf (ERegionFields _ _) => True | _ => False end.
Definition terms_of (n : node) : list AmlTerm := match n with NdLeaf (EUnknownElements ts) => ts | _ => [] end.
Definition is_unknown (n : node) : Prop := match n with NdLeaf (EUnknownElements _) => True | _ => False end.
Definition rep (o : option node) (ns : list node) : Prop :=
  match o with
  | None => ns = []
  | Some NdScope => ns <> [] /\ Forall (fun n => n = NdScope) ns
  | Some (NdLeaf (ERegionFields r fs)) => ns <> [] /\ Forall is_region ns /\ omap region_of ns = option_list r /\ fs ≡ₚ (ns ≫= fields_of)
  | Some (NdLeaf (EUnknownElements ts)) => ns <> [] /\ Forall is_unknown ns /\ ts ≡ₚ (ns ≫= terms_of)
  | Some n => ns = [n]
  end.
Lemma rep_single o : rep o (option_list o).
Proof.
  destruct o as [[|[]]|]; try done; cbn.
  - split; [done|by constructor].
  - split_and!; [done|by constructor|by destruct region|by rewrite app_nil_r].
  - split_and!; [done|by constructor|by rewrite app_nil_r].
Qed.
Lemma rep_perm o ns ms : ns ≡ₚ ms -> rep o ns -> rep o ms.
Proof.
  intros Hp. assert (Hne : ns <> [] -> ms <> []) by (intros H ->; by apply Permutation_nil_r in Hp).
  destruct o as [[|[]]|]; cbn; try (intros ->; by apply Permutation_singleton_l in Hp).
  - intros [H1 H2]. split; [auto|]. by rewrite <- Hp.
  - intros (H1 & H2 & H3 & H4). split_and!; [auto|by rewrite <- Hp| |by rewrite H4, Hp].
    assert (Ho : omap region_of ns ≡ₚ omap region_of ms) by by rewrite Hp. rewrite H3 in Ho.
    destruct region; [by apply Permutation_singleton_l in Ho|by apply Permutation_nil_l in Ho].
  - intros (H1 & H2 & H3). split_and!; [auto|by rewrite <- Hp|by rewrite H3, Hp].
  - intros ->. by apply Permutation_nil_l in Hp.
Qed.
(** the kinds of nodes that can meet *)
Definition kind (n : node) : Z :=
  match n with NdScope => 0 | NdLeaf (ERegionFields _ _) => 1 | NdLeaf (EUnknownElements _) => 2 | _ => 3 end.
Lemma combine_kind a b c : combine a b = Some c -> kind a = kind b /\ kind a <> 3.
Proof. destruct a as [|[]], b as [|[]]; try done. Qed.
Lemma rep_kind a ns : rep (Some a) ns -> exists n, n ∈ ns /\ kind n = kind a.
Proof.
  assert (Hf : forall (Q : node -> Prop), ns <> [] -> Forall Q ns -> exists n, n ∈ ns /\ Q n).
  { intros Q Hne HQ. destruct ns as [|n ns]; [done|]. apply Forall_cons in HQ as [? _]. exists n. split; [apply list_elem_of_here|done]. }
  destruct a as [|[]]; cbn; try (intros ->; eexists; split; [apply list_elem_of_here|done]).
  - intros [H1 H2]. destruct (Hf _ H1 H2) as (n & Hn & ->). by eexists.
  - intros (H1 & H2 & _). destruct (Hf _ H1 H2) as (n & Hn & Hr). exists n. split; [done|]. by destruct n as [|[]].
  - intros (H1 & H2 & _). destruct (Hf _ H1 H2) as (n & Hn & Hr). exists n. split; [done|]. by destruct n as [|[]].
Qed.
Lemma region_elem ns r : omap region_of ns = [r] -> exists fs, NdLeaf (ERegionFields (Some r) fs) ∈ ns.
Proof.
  intros E. assert (H : r ∈ omap region_of ns) by (rewrite E; apply list_elem_of_here). apply list_elem_of_omap in H as (n & Hn & Hr).
  destruct n as [|[]]; try done. cbn in Hr. subst. by eexists.
Qed.
Lemma rep_union a b ns ms : rep a ns -> rep b ms -> (forall n m, n ∈ ns -> m ∈ ms -> is_Some (combine n m)) ->
  compat_at a b /\ rep (union_at a b) (ns ++ ms).
Proof.
  intros Ha Hb Hc. destruct a as [a|]; [|cbn in Ha; by subst]. destruct b as [b|]; [|cbn in Hb; subst; rewrite app_nil_r; by destruct a].
  assert (Hk : kind a = kind b /\ kind a <> 3).
  { destruct (rep_kind _ _ Ha) as (n & Hn & En), (rep_kind _ _ Hb) as (m & Hm & Em). destruct (Hc n m Hn Hm) as [x Hx].
    apply combine_kind in Hx. rewrite <- En, <- Em. exact Hx. }
  assert (Hne : forall l l' : list node, l <> [] -> l ++ l' <> []) by by intros [].
  destruct a as [|[]], b as [|[]]; cbn in Hk; try (exfalso; lia).
  - cbn in Ha, Hb. destruct Ha, Hb. cbn. split; [done|]. split; [auto|by apply Forall_app].
  - cbn in Ha, Hb. destruct Ha as (A1 & A2 & A3 & A4), Hb as (B1 & B2 & B3 & B4).
    assert (Hr : is_some region && is_some region0 = false).
    { destruct region as [r|], region0 as [r'|]; try done. destruct (region_elem _ _ A3) as [fs Hn], (region_elem _ _ B3) as [fs' Hm].
      destruct (Hc _ _ Hn Hm) as [x Hx]. done. }
    cbn [compat_at union_at combine]. rewrite Hr. split; [done|]. cbn. split_and!; [auto|by apply Forall_app| |].
    + rewrite omap_app, A3, B3. by destruct region, region0.
    + by rewrite bind_app, A4, B4.
  - cbn in Ha, Hb. destruct Ha as (A1 & A2 & A3), Hb as (B1 & B2 & B3). cbn. split; [done|]. split_and!; [auto|by apply Forall_app|by rewrite bind_app, A3, B3].
Qed.

(** ** A tree stands for a list of definitions *)
Definition nodes_at (ds : list def) (q : list bytes) : list node := omap (fun d => sem d q) ds.
Definition Represents (m : list (bytes * ElementType)) (ds : list def) : Prop := forall q, rep (lookup_path m q) (nodes_at ds q).
(** no two definitions are in each other's way *)
Definition agree (d e : def) : Prop := forall q, compat_at (sem d q) (sem e q).
Fixpoint all_agree (ds : list def) : Prop := match ds with [] => True | d :: ds => Forall (agree d) ds /\ all_agree ds end.

Lemma compat_sym a b : compat_at a b -> compat_at b a.
Proof.
  destruct a as [[|[]]|], b as [[|[]]|]; cbn; try done; try (by intros [? ?]).
  destruct region, region0; cbn; by intros [? ?].
Qed.
Lemma agree_sym d e : agree d e -> agree e d.
Proof. intros H q. by apply compat_sym. Qed.
Lemma all_agree_app ds es : all_agree (ds ++ es) <-> all_agree ds /\ all_agree es /\ forall d e, d ∈ ds -> e ∈ es -> agree d e.
Proof.
  induction ds as [|d ds IH]; cbn; [split; [intros H; split_and!; [done|done|intros ? ? H2; by apply elem_of_nil in H2]|by intros (_ & ? & _)]|].
  rewrite Forall_app, IH. rewrite !Forall_forall. split.
  - intros ([H1 H2] & H3 & H4 & H5). split_and!; [done|done|done|]. intros x e [->|Hx]%elem_of_cons He; [by apply H2|by apply H5].
  - intros ([H1 H2] & H3 & H4). split_and!; [done| |done|done|]; [intros e He; apply H4; [apply list_elem_of_here|done]|].
    intros x e Hx He. apply H4; [by apply list_elem_of_further|done].
Qed.
Lemma all_agree_perm ds es : ds ≡ₚ es -> all_agree ds -> all_agree es.
Proof.
  induction 1 as [|d ds es H IH|d e ds|ds es fs H1 IH1 H2 IH2]; cbn; [done| | |by auto].
  - intros [Hd Hds]. split; [by rewrite <- H|auto].
  - intros [[He Hd]%Forall_cons [He2 Hds]]. split_and!; [|done|done]. constructor; [by apply agree_sym|done].
Qed.
Lemma agree_shift p d e : agree (shift p d) (shift p e) -> agree d e.
Proof. intros H q. specialize (H (p ++ q)). by rewrite !sem_shift, !under_at in H. Qed.

(** the union of what two lists of definitions stand for *)
Lemma union_represents m f ds es : Represents m ds -> (forall q, rep (f q) (nodes_at es q)) -> (forall d e, d ∈ ds -> e ∈ es -> agree d e) ->
  (forall q, compat_at (lookup_path m q) (f q)) /\ forall m', (forall q, lookup_path m' q = union_at (lookup_path m q) (f q)) -> Represents m' (ds ++ es).
Proof.
  intros Hm Hf Ha. assert (H : forall q, compat_at (lookup_path m q) (f q) /\ rep (union_at (lookup_path m q) (f q)) (nodes_at ds q ++ nodes_at es q)).
  { intros q. apply rep_union; [apply Hm|apply Hf|]. intros n k (d & Hd & Ed)%list_elem_of_omap (e & He & Ee)%list_elem_of_omap.
    specialize (Ha d e Hd He q). by rewrite Ed, Ee in Ha. }
  split; [intros q; apply H|]. intros m' Hm' q. rewrite Hm'. unfold nodes_at. rewrite omap_app. apply H.
Qed.

(** an element and the definitions it stands for *)
Definition holds (e : ElementType) (ds : list def) : Prop := match e with ScopeOrDevice s => Represents (children s) ds | _ => ds = [] end.
Definition hollow (e : ElementType) : ElementType := match e with ScopeOrDevice s => ScopeOrDevice (mkScope (sc_ty s) []) | e => e end.
(** the definitions that placing it at [p] makes *)
Definition placed (b p : list bytes) (e : ElementType) (ds : list def) : list def := mkDef b p (named p (hollow e)) :: (shift (b ++ p) <$> ds).

Lemma nodes_nil ds : nodes_at ds [] = [].
Proof. induction ds as [|d ds IH]; [done|]. unfold nodes_at in *. cbn. by rewrite sem_nil. Qed.
Lemma omap_none {A B} (l : list A) : omap (fun _ => None) l = ([] : list B).
Proof. by induction l. Qed.
Lemma deep_rep p s ds q : Represents (children s) ds ->
  rep (deep p (ScopeOrDevice s) q) (option_list (deep p (hollow (ScopeOrDevice s)) q) ++ omap (fun d => under p (sem d) q) ds).
Proof.
  intros Hs. revert q. induction p as [|x p IH]; intros q.
  - destruct q as [|y q]; [|exact (Hs (y :: q))]. cbn [deep below hollow]. change (fun d => under [] (sem d) []) with (fun d => sem d []).
    fold (nodes_at ds []). rewrite nodes_nil. apply (rep_single (Some NdScope)).
  - destruct q as [|y q]; cbn [deep under].
    + rewrite omap_none. apply (rep_single (Some NdScope)).
    + case_bool_decide; [apply IH|]. by rewrite omap_none.
Qed.
Lemma named_hollow p e : hollow (named p e) = named p (hollow e).
Proof. by destruct e. Qed.
Lemma named_scope p s : named p (ScopeOrDevice s) = ScopeOrDevice s.
Proof. done. Qed.
Lemma nodes_cons d ds q : nodes_at (d :: ds) q = option_list (sem d q) ++ nodes_at ds q.
Proof. unfold nodes_at. cbn [omap list_omap]. by destruct (sem d q). Qed.
Lemma nodes_shift p ds q : nodes_at (shift p <$> ds) q = omap (fun d => under p (sem d) q) ds.
Proof.
  induction ds as [|d ds IH]; [done|]. change (shift p <$> d :: ds) with (shift p d :: (shift p <$> ds)). rewrite nodes_cons, sem_shift, IH. cbn [omap list_omap].
  by destruct (under p (sem d) q).
Qed.
Lemma placed_rep p e ds : holds e ds -> forall q, rep (place p (named p e) q) (nodes_at (placed [] p e ds) q).
Proof.
  intros He q. unfold placed. rewrite nodes_cons, nodes_shift. cbn [app]. change (sem (mkDef [] p (named p (hollow e))) q) with (place p (named p (hollow e)) q).
  destruct q as [|y q]; [cbn [place]; rewrite <- nodes_shift; apply nodes_nil|]. cbn [place]. destruct (is_scope e) eqn:Es.
  - destruct e as [s| | | | | | |]; try done. exact (deep_rep p s ds (y :: q) He).
  - assert (ds = []) as -> by by destruct e. replace (hollow e) with e by by destruct e. cbn. rewrite app_nil_r. apply rep_single.
Qed.

(** ** Adding an element *)
Definition scope_of (t : AmlTerm) : option (ScopeType * ScopeObj) :=
  match t with Device s => Some (TDevice, s) | Scope s => Some (TScope, s) | _ => None end.
Definition cur_string (cur : list bytes) : bytes := ROOT_CHAR :: join cur.
Lemma hollow_scope e : is_scope (hollow e) = is_scope e.
Proof. by destruct e. Qed.
Lemma wf_named p e : wf e -> wf (named p e).
Proof. apply set_name_wf. Qed.

Lemma add_child_represents r e ds this T : r <> [] -> Forall segment r -> wf e -> holds e ds -> wfm (children this) -> Represents (children this) T ->
  (forall d d', d ∈ T -> d' ∈ placed [] r e ds -> agree d d') ->
  exists c, add_child (join r) e this = Ret (mkScope (sc_ty this) c) /\ wfm c /\ Represents c (T ++ placed [] r e ds).
Proof.
  intros Hr Hs Hw He Hm HT Ha. destruct (union_represents (children this) (place r (named r e)) T (placed [] r e ds) HT (placed_rep r e ds He) Ha) as [Hc Hu].
  destruct (add_child_spec r e this Hr Hs Hw Hm Hc) as (c & Ec & Wc & Lc). exists c. split_and!; [done|done|by apply Hu].
Qed.
Lemma merge_represents this s ds T : wfm (children this) -> wfm (children s) -> Represents (children s) ds -> Represents (children this) T ->
  (forall d d', d ∈ T -> d' ∈ ds -> agree d d') -> exists c, merge this s = Ret (mkScope (sc_ty this) c) /\ wfm c /\ Represents c (T ++ ds).
Proof.
  intros Ht Hs Hds HT Ha. destruct (union_represents (children this) (lookup_path (children s)) T ds HT Hds Ha) as [Hc Hu].
  destruct (merge_scope_spec this s Ht Hs Hc) as (c & Ec & Wc & Lc). exists c. split_and!; [done|done|by apply Hu].
Qed.

Lemma merge_placed this s ds T : wfm (children this) -> wfm (children s) -> Represents (children s) ds -> Represents (children this) T ->
  (forall d d', d ∈ T -> d' ∈ placed [] [] (ScopeOrDevice s) ds -> agree d d') ->
  exists c, merge this s = Ret (mkScope (sc_ty this) c) /\ wfm c /\ Represents c (T ++ placed [] [] (ScopeOrDevice s) ds).
Proof.
  intros Ht Hs Hds HT Ha.
  destruct (union_represents (children this) (place [] (ScopeOrDevice s)) T _ HT (placed_rep [] (ScopeOrDevice s) ds Hds) Ha) as [Hc Hu].
  assert (Hp : forall q, place [] (ScopeOrDevice s) q = lookup_path (children s) q) by by intros [].
  destruct (merge_scope_spec this s Ht Hs) as (c & Ec & Wc & Lc); [intros q; by rewrite <- Hp|].
  exists c. split_and!; [done|done|]. apply Hu. intros q. by rewrite Hp.
Qed.

(** *** Strings of paths *)
Lemma rsplit_once_none c x : Forall (fun b => b <> c) x -> rsplit_once c x = None.
Proof. induction 1 as [|b x Hb Hx IH]; cbn; [done|]. by rewrite IH, (proj2 (Z.eqb_neq _ _)). Qed.
Lemma rsplit_once_app c y x : Forall (fun b => b <> c) x -> rsplit_once c (y ++ c :: x) = Some (y, x).
Proof. intros Hx. induction y as [|b y IH]; cbn; [by rewrite rsplit_once_none, Z.eqb_refl|]. by rewrite IH. Qed.
Lemma join_app a b : a <> [] -> b <> [] -> join (a ++ b) = join a ++ DOT :: join b.
Proof.
  intros Ha Hb. induction a as [|x a IH]; [done|]. destruct a as [|y a].
  - cbn [app]. destruct b; [done|]. by rewrite join_cons.
  - cbn [app] in *. rewrite !join_cons, IH by done. by rewrite <- app_assoc.
Qed.
Lemma trim_start_none c a y : a <> c -> trim_start c (a :: y) = a :: y.
Proof. intros H. cbn. by rewrite (proj2 (Z.eqb_neq _ _)). Qed.

(** a name with parents is looked up from the scope it appears in *)
Lemma handle_add_parents k : forall cur s this root e, Forall segment cur -> Forall segment s -> s <> [] -> (S k < length cur)%nat ->
  handle_add (cur_string cur) this root (replicate (S k) PARENT_CHAR ++ join s) e =
  (root ← add_child (join (take (length cur - S k) cur ++ s)) e root; Ret (this, root)).
Proof.
  induction k as [|k IH]; intros cur s this root e Hcur Hs Hne Hk; destruct cur as [|x cur _] using rev_ind; cbn in Hk; try lia;
    rewrite length_app in Hk; cbn in Hk; apply Forall_app in Hcur as [Hcur [Hx _]%Forall_cons]; (assert (Hc : cur <> []) by (intros ->; cbn in Hk; lia)).
  - cbn [replicate app handle_add]. change (PARENT_CHAR =? ROOT_CHAR) with false. change (PARENT_CHAR =? PARENT_CHAR) with true. cbv iota.
    destruct (join_head s Hne Hs) as (a & y & E & Hr & Hp). unfold cur_string. rewrite join_app by done. cbn [join]. rewrite E.
    rewrite bool_decide_eq_false_2 by done. cbn [negb assert_that mbind outcome_bind].
    change (ROOT_CHAR :: join cur ++ DOT :: x) with ((ROOT_CHAR :: join cur) ++ DOT :: x). rewrite rsplit_once_app by by apply segment_no_dot.
    cbn [unwrap mbind outcome_bind fst]. rewrite !starts_with_one, Z.eqb_refl. cbn [assert_that mbind outcome_bind].
    rewrite (proj2 (Z.eqb_neq PARENT_CHAR a)) by congruence. rewrite length_app. cbn [length]. replace (length cur + 1 - 1)%nat with (length cur) by lia.
    rewrite take_app_length, join_app, E by done. destruct (join_head cur Hc Hcur) as (b & z & Eb & Hb & _). rewrite Eb.
    assert (Et : trim_start ROOT_CHAR ((ROOT_CHAR :: b :: z) ++ DOT :: a :: y) = (b :: z) ++ DOT :: a :: y).
    { cbn [app trim_start]. by rewrite Z.eqb_refl, (proj2 (Z.eqb_neq b _)) by done. }
    cbn [app] in *. by rewrite Et.
  - change (replicate (S (S k)) PARENT_CHAR ++ join s) with (PARENT_CHAR :: (replicate (S k) PARENT_CHAR ++ join s)). set (rest := replicate (S k) PARENT_CHAR ++ join s).
    cbn [handle_add]. change (PARENT_CHAR =? ROOT_CHAR) with false. change (PARENT_CHAR =? PARENT_CHAR) with true. cbv iota.
    unfold cur_string at 1. rewrite join_app by done. cbn [join]. rewrite bool_decide_eq_false_2 by done. cbn [negb assert_that mbind outcome_bind].
    change (ROOT_CHAR :: join cur ++ DOT :: x) with ((ROOT_CHAR :: join cur) ++ DOT :: x). rewrite rsplit_once_app by by apply segment_no_dot.
    cbn [unwrap mbind outcome_bind fst]. rewrite starts_with_one, Z.eqb_refl. cbn [assert_that mbind outcome_bind].
    assert (Es : starts_with [PARENT_CHAR] rest = true) by done. rewrite Es. fold (cur_string cur). unfold rest. rewrite IH by (done || lia).
    rewrite length_app. cbn [length]. rewrite take_app_le by lia. by replace (length cur + 1 - S (S k))%nat with (length cur - S k)%nat by lia.
Qed.

(** ** The definitions of a program *)
(** a name may go up to, but not beyond, the scopes on the way *)
Definition name_ok (cur : list bytes) (p : path) : Prop :=
  Forall segment (segs p) /\ (if from_root p then parents_up p = 0 else parents_up p = 0 \/ parents_up p < length cur)%nat.
(** where a name of the scope [cur] points: a scope, and a path below it *)
Definition target (cur : list bytes) (p : path) : list bytes * list bytes :=
  if from_root p then ([], segs p)
  else match parents_up p with O => (cur, segs p) | k => ([], take (length cur - k) cur ++ segs p) end.
Definition def_at (cur : list bytes) (p : path) (e : ElementType) : def :=
  mkDef (fst (target cur p)) (snd (target cur p)) (named (snd (target cur p)) e).

Inductive namespace : list bytes -> list AmlTerm -> list def -> Prop :=
| NS_nil cur : namespace cur [] []
(** a scope, named from the root or from the scope it is in *)
| NS_scope cur t ty s p ts ds1 ds2 : scope_of t = Some (ty, s) -> so_name s = path_string p -> name_ok cur p -> parents_up p = 0%nat ->
    segs p <> [] \/ from_root p = true -> namespace (fst (target cur p) ++ snd (target cur p)) (so_terms s) ds1 -> namespace cur ts ds2 ->
    namespace cur (t :: ts) (def_at cur p (ScopeOrDevice (mkScope ty [])) :: ds1 ++ ds2)
| NS_leaf cur t p ts ds : scope_of t = None -> fst (element_of t) = path_string p -> name_ok cur p -> segs p <> [] -> namespace cur ts ds ->
    namespace cur (t :: ts) (def_at cur p (snd (element_of t)) :: ds).

Lemma element_leaf t : scope_of t = None -> is_scope (snd (element_of t)) = false.
Proof. by destruct t. Qed.
Lemma shift_placed cur r e ds : shift cur <$> placed [] r e ds = placed cur r e ds.
Proof. unfold placed. cbn [fmap list_fmap app]. rewrite <- shift_shift_list. unfold shift at 1. cbn. by rewrite app_nil_r. Qed.

Definition added cur p e ds := placed (fst (target cur p)) (snd (target cur p)) e ds.
Lemma handle_add_spec cur p this root e ds T R : Forall segment cur -> name_ok cur p -> segs p <> [] \/ (from_root p = true /\ is_scope e = true) ->
  wf e -> holds e ds -> wfm (children this) -> wfm (children root) -> Represents (children this) T -> Represents (children root) R ->
  all_agree ((shift cur <$> T) ++ R ++ added cur p e ds) ->
  exists c c' T' R', handle_add (cur_string cur) this root (path_string p) e = Ret (mkScope (sc_ty this) c, mkScope (sc_ty root) c') /\
    wfm c /\ wfm c' /\ Represents c T' /\ Represents c' R' /\ (shift cur <$> T') ++ R' ≡ₚ (shift cur <$> T) ++ R ++ added cur p e ds.
Proof.
  intros Hcur [Hs Hp] Hne Hw He Ht Hr HT HR Ha. unfold added, target in *. unfold path_string, prefix.
  apply all_agree_app in Ha as (_ & Ha & HaT). apply all_agree_app in Ha as (_ & _ & HaR).
  destruct (from_root p) eqn:Ef; [|destruct (parents_up p) as [|k] eqn:Ek]; cbn [fst snd] in *.
  - rewrite Hp. cbn [replicate app]. cbn [handle_add]. rewrite Z.eqb_refl. destruct (segs p) as [|x ss] eqn:Eg.
    + destruct Hne as [|[_ Hsc]]; [done|]. destruct e as [s| | | | | | |]; try done. cbn [join]. rewrite bool_decide_eq_true_2 by done.
      apply wf_scope_iff in Hw. destruct (merge_placed root s ds R Hr Hw He HR HaR) as (c & Ec & Wc & Rc).
      rewrite Ec. exists (children this), c, T, (R ++ placed [] [] (ScopeOrDevice s) ds). split_and!; try done. by destruct this.
    + assert (Hne' : x :: ss <> []) by done. destruct (join_head _ Hne' Hs) as (a & y & E & _). rewrite bool_decide_eq_false_2 by by rewrite E.
      destruct (add_child_represents (x :: ss) e ds root R Hne' Hs Hw He Hr HR HaR) as (c & Ec & Wc & Rc).
      rewrite Ec. exists (children this), c, T, (R ++ placed [] (x :: ss) e ds). split_and!; try done. by destruct this.
  - cbn [replicate app]. assert (Hne' : segs p <> []) by (destruct Hne as [|[? _]]; congruence). destruct (join_head _ Hne' Hs) as (a & y & E & N1 & N2).
    assert (Eh : handle_add (cur_string cur) this root (join (segs p)) e = (this ← add_child (join (segs p)) e this; Ret (this, root))).
    { rewrite E. cbn [handle_add]. by rewrite (proj2 (Z.eqb_neq a ROOT_CHAR)), (proj2 (Z.eqb_neq a PARENT_CHAR)) by done. }
    destruct (add_child_represents (segs p) e ds this T Hne' Hs Hw He Ht HT) as (c & Ec & Wc & Rc).
    { intros d d' Hd Hd'. apply (agree_shift cur). apply HaT; [by apply list_elem_of_fmap_2|]. apply elem_of_app. right. rewrite <- shift_placed. by apply list_elem_of_fmap_2. }
    rewrite Eh, Ec. exists c, (children root), (T ++ placed [] (segs p) e ds), R. split_and!; try done; [by destruct root|].
    rewrite fmap_app, shift_placed, <- app_assoc. apply Permutation_app_head, Permutation_app_comm.
  - assert (Hk : (S k < length cur)%nat) by lia. assert (Hne' : segs p <> []) by (destruct Hne as [|[? _]]; congruence). cbn [app].
    rewrite handle_add_parents by done. set (r := take (length cur - S k) cur ++ segs p) in *.
    assert (Hr' : r <> []) by (unfold r; by intros [_ ?]%app_nil). assert (Hsr : Forall segment r) by (apply Forall_app; split; [by apply Forall_take|done]).
    destruct (add_child_represents r e ds root R Hr' Hsr Hw He Hr HR HaR) as (c & Ec & Wc & Rc).
    rewrite Ec. exists (children this), c, T, (R ++ placed [] r e ds). split_and!; try done. by destruct this.
Qed.

Lemma add_term_scope path t ty s this root : scope_of t = Some (ty, s) -> add_term path t this root =
  (r ← add_terms (scope_path_of path (so_name s)) (so_terms s) (mkScope ty []) root; handle_add path this (snd r) (so_name s) (ScopeOrDevice (fst r))).
Proof. destruct t; try done; intros [= <- <-]; match goal with s : ScopeObj |- _ => destruct s end; reflexivity. Qed.
Lemma add_terms_cons path t ts this root : add_terms path (t :: ts) this root = (r ← add_term path t this root; add_terms path ts (fst r) (snd r)).
Proof. done. Qed.
Lemma add_term_leaf path t this root : scope_of t = None -> add_term path t this root = handle_add path this root (fst (element_of t)) (snd (element_of t)).
Proof. by destruct t. Qed.
Lemma join_no_root p : Forall segment p -> Forall (fun b => b <> ROOT_CHAR) (join p).
Proof.
  induction p as [|x p IH]; [constructor|]. intros [(_ & a & y & _ & _ & _ & _ & Hx)%segment_chars Hp]%Forall_cons.
  assert (Hr : Forall (fun b => b <> ROOT_CHAR) x) by (eapply Forall_impl; [exact Hx|by intros ? []]).
  destruct p; [done|]. rewrite join_cons. apply Forall_app. split; [done|]. constructor; [done|by apply IH].
Qed.
Lemma scope_path cur p : Forall segment cur -> name_ok cur p -> parents_up p = 0%nat -> segs p <> [] \/ from_root p = true ->
  scope_path_of (cur_string cur) (path_string p) = cur_string (fst (target cur p) ++ snd (target cur p)).
Proof.
  intros Hcur [Hs _] Hp Hne. unfold scope_path_of, path_string, prefix, target. rewrite Hp. destruct (from_root p); cbn [replicate app fst snd].
  - rewrite starts_with_one. by rewrite Z.eqb_refl.
  - destruct Hne as [Hne|]; [|done]. rewrite join_not_root by done. unfold cur_string. destruct cur as [|x cur]; [done|].
    assert (He : ends_with ROOT_CHAR (ROOT_CHAR :: join (x :: cur)) = false).
    { unfold ends_with. apply bool_decide_eq_false. destruct (join_head (x :: cur) ltac:(done) Hcur) as (a & y & E & _). pose proof (join_no_root _ Hcur) as Hn.
      rewrite E in *. rewrite last_cons_cons. intros Hl%last_Some_elem_of. rewrite Forall_forall in Hn. by apply (Hn ROOT_CHAR). }
    rewrite He, join_app by done. done.
Qed.
Lemma target_segments cur p : Forall segment cur -> name_ok cur p -> Forall segment (fst (target cur p) ++ snd (target cur p)).
Proof.
  intros Hc [Hs _]. unfold target. destruct (from_root p); [done|]. destruct (parents_up p); cbn; repeat (apply Forall_app; split); try done. by apply Forall_take.
Qed.

(** [Scope::parse] keeps the definitions it read, in its scope or in the root *)
Lemma add_terms_spec cur ts ds : namespace cur ts ds -> Forall segment cur -> forall this root T R,
  wfm (children this) -> wfm (children root) -> Represents (children this) T -> Represents (children root) R -> all_agree ((shift cur <$> T) ++ R ++ ds) ->
  exists c c' T' R', add_terms (cur_string cur) ts this root = Ret (mkScope (sc_ty this) c, mkScope (sc_ty root) c') /\
    wfm c /\ wfm c' /\ Represents c T' /\ Represents c' R' /\ (shift cur <$> T') ++ R' ≡ₚ (shift cur <$> T) ++ R ++ ds.
Proof.
  induction 1 as [cur|cur t ty s p ts ds1 ds2 Et En Hn Hp Hne H1 IH1 H2 IH2|cur t p ts ds Et En Hn Hne H IH]; intros Hcur this root T R Ht Hr HT HR Ha.
  - exists (children this), (children root), T, R. cbn. destruct this, root. rewrite app_nil_r. by split_and!.
  - rewrite add_terms_cons. rewrite (add_term_scope _ _ ty s), En, scope_path by done. set (cur' := fst (target cur p) ++ snd (target cur p)) in *.
    destruct (IH1 (target_segments _ _ Hcur Hn) (mkScope ty []) root [] R) as (c1 & c1' & T1 & R1 & E1 & W1 & W1' & HT1 & HR1 & P1);
      [apply wfm_nil|done|by intros []|done| |].
    { apply all_agree_app in Ha as (_ & Ha & _). apply (all_agree_perm _ ((R ++ ds1) ++ def_at cur p (ScopeOrDevice (mkScope ty [])) :: ds2)) in Ha; [|by solve_Permutation].
      by apply all_agree_app in Ha as (Ha & _ & _). }
    rewrite E1. cbn [mbind outcome_bind fst snd sc_ty]. set (D := def_at cur p (ScopeOrDevice (mkScope ty []))) in *. cbn [fmap list_fmap app] in P1.
    assert (K : (shift cur <$> T) ++ R1 ++ D :: (shift cur' <$> T1) ≡ₚ (shift cur <$> T) ++ R ++ D :: ds1).
    { transitivity ((shift cur <$> T) ++ D :: ((shift cur' <$> T1) ++ R1)); [by solve_Permutation|]. rewrite P1. by solve_Permutation. }
    assert (Ha1 : all_agree (((shift cur <$> T) ++ R1 ++ D :: (shift cur' <$> T1)) ++ ds2)).
    { eapply all_agree_perm; [|exact Ha]. rewrite K. by solve_Permutation. }
    destruct (handle_add_spec cur p this (mkScope (sc_ty root) c1') (ScopeOrDevice (mkScope ty c1)) T1 T R1) as (c2 & c2' & T2 & R2 & E2 & W2 & W2' & HT2 & HR2 & P2);
      [done|done|naive_solver|by apply wf_scope_iff|done|done|done|done|done|by apply all_agree_app in Ha1 as (? & _)|].
    rewrite E2. cbn [mbind outcome_bind fst snd]. cbn [sc_ty].
    destruct (IH2 Hcur (mkScope (sc_ty this) c2) (mkScope (sc_ty root) c2') T2 R2) as (c3 & c3' & T3 & R3 & E3 & W3 & W3' & HT3 & HR3 & P3); [done|done|done|done| |].
    { rewrite app_assoc. eapply all_agree_perm; [|exact Ha1]. apply Permutation_app_tail. by rewrite P2. }
    exists c3, c3', T3, R3. split_and!; try done. rewrite P3, app_assoc, P2. change (added _ _ _ _) with (D :: (shift cur' <$> T1)). rewrite K. by solve_Permutation.
  - rewrite add_terms_cons. rewrite add_term_leaf, En by done. pose proof (element_leaf t Et) as Hl. set (e := snd (element_of t)) in *.
    assert (Hd : added cur p e [] = [def_at cur p e]) by (unfold added, placed, def_at; by replace (hollow e) with e by by destruct e).
    assert (Ha1 : all_agree (((shift cur <$> T) ++ R ++ added cur p e []) ++ ds)) by (rewrite Hd; eapply all_agree_perm; [|exact Ha]; by solve_Permutation).
    destruct (handle_add_spec cur p this root e [] T R) as (c2 & c2' & T2 & R2 & E2 & W2 & W2' & HT2 & HR2 & P2);
      [done|done|by left|by apply wf_leaf|by destruct e|done|done|done|done|by apply all_agree_app in Ha1 as (? & _)|].
    rewrite E2. cbn [mbind outcome_bind fst snd].
    destruct (IH Hcur (mkScope (sc_ty this) c2) (mkScope (sc_ty root) c2') T2 R2) as (c3 & c3' & T3 & R3 & E3 & W3 & W3' & HT3 & HR3 & P3); [done|done|done|done| |].
    { rewrite app_assoc. eapply all_agree_perm; [|exact Ha1]. apply Permutation_app_tail. by rewrite P2. }
    exists c3, c3', T3, R3. split_and!; try done. rewrite P3, app_assoc, P2, Hd. by solve_Permutation.
Qed.

Lemma structured_represents ts ds : namespace [] ts ds -> all_agree ds ->
  exists s, structured_parse (mkAmlCode ts) = Ret s /\ wfm (children (root s)) /\ Represents (children (root s)) ds.
Proof.
  intros Hn Ha. destruct (add_terms_spec [] ts ds Hn ltac:(constructor) (mkScope TScope []) default_scope [] []) as (c & c' & T & R & E & W & W' & HT & HR & P);
    [apply wfm_nil|apply wfm_nil|by intros []|by intros []|done|].
  rewrite shift_nil_list in P. cbn [fmap list_fmap app] in P. unfold structured_parse, scope_parse. cbn [term_list]. change [ROOT_CHAR] with (cur_string []). rewrite E.
  cbn [mbind outcome_bind fst snd]. destruct (merge_represents (mkScope (sc_ty default_scope) c') (mkScope TScope c) T R) as (c2 & E2 & W2 & R2); [done|done|done|done| |].
  { apply (all_agree_perm _ (R ++ T)) in Ha; [|rewrite <- P; apply Permutation_app_comm]. by apply all_agree_app in Ha as (_ & _ & ?). }
  cbn [sc_ty] in *. rewrite E2. eexists. split_and!; [done|done|]. cbn [root children]. intros q. eapply rep_perm; [|apply R2].
  unfold nodes_at. by rewrite (Permutation_app_comm R T), P.
Qed.

(** ** Looking up *)
Lemma scope_find_path q : forall fuel this, q <> [] -> Forall segment q -> (length q <= fuel)%nat ->
  exists r, scope_find_object fuel this (join q) = Ret r /\
    match r with Ok o => node_of <$> o = lookup_path (children this) q | Err _ => lookup_path (children this) q = None end.
Proof.
  induction q as [|x q IH]; intros [|fuel] this Hne Hs Hf; try done; [cbn in Hf; lia|]. apply Forall_cons in Hs as [Hx Hs].
  pose proof (segment_key _ Hx) as [Hlen _]. cbn [scope_find_object]. destruct q as [|y q].
  - cbn [join]. rewrite split_once_none by by apply segment_no_dot. rewrite Hlen. cbn [Z.of_nat Z.eqb negb]. eexists. split; [done|]. cbn.
    by destruct (map_get x (children this)).
  - rewrite join_cons, split_once_app by by apply segment_no_dot. rewrite Hlen. cbn [lookup_path]. destruct (map_get x (children this)) as [e|]; [|by eexists].
    destruct e as [s| | | | | | |]; try by eexists. destruct (IH fuel s ltac:(done) Hs ltac:(cbn in *; lia)) as (r & Er & Hr). exists r. split; [exact Er|exact Hr].
Qed.
Lemma find_object_path s q : q <> [] -> Forall segment q ->
  exists r, find_object s (cur_string q) = Ret r /\
    match r with Ok o => node_of <$> o = lookup_path (children (root s)) q | Err _ => lookup_path (children (root s)) q = None end.
Proof.
  intros Hq Hs. unfold find_object, cur_string. rewrite Z.eqb_refl. destruct (join_head q Hq Hs) as (a & y & E & _). rewrite bool_decide_eq_false_2 by by rewrite E.
  apply scope_find_path; [done|done|]. pose proof (join_length q Hs). lia.
Qed.
Lemma find_leaf s q e : q <> [] -> Forall segment q -> lookup_path (children (root s)) q = Some (NdLeaf e) -> find_object s (cur_string q) = Ret (Ok (Some e)).
Proof.
  intros Hq Hs El. destruct (find_object_path s q Hq Hs) as (r & -> & Hr). rewrite El in Hr. destruct r as [[e'|]|]; cbn in Hr; try done. by destruct e'; try done; injection Hr as <-.
Qed.
Lemma find_leaf_inv s q e : q <> [] -> Forall segment q -> is_scope e = false -> find_object s (cur_string q) = Ret (Ok (Some e)) ->
  lookup_path (children (root s)) q = Some (NdLeaf e).
Proof. intros Hq Hs He Ef. destruct (find_object_path s q Hq Hs) as (r & Er & Hr). rewrite Ef in Er. injection Er as <-. cbn in Hr. by rewrite <- Hr, node_leaf. Qed.

(** ** What a definition is at its own path, and nowhere else *)
Lemma deep_self p e : deep p e p = Some (node_of e).
Proof. induction p as [|x p IH]; cbn; [done|]. by rewrite bool_decide_eq_true_2. Qed.
Lemma deep_leaf p e q e' : hollow e = e -> deep p e q = Some (NdLeaf e') -> q = p /\ e' = e /\ is_scope e = false.
Proof.
  intros Hh. revert q. induction p as [|x p IH]; intros q.
  - destruct q as [|y q]; [destruct e; try done; by intros [= <-]|]. destruct e as [[ty l]| | | | | | |]; try done. cbn in Hh. by injection Hh as <-.
  - destruct q as [|y q]; cbn; [done|]. case_bool_decide as E; [|done]. intros (-> & -> & ?)%IH. by subst.
Qed.
Lemma under_inv p f q n : under p f q = Some n -> exists r, q = p ++ r /\ f r = Some n.
Proof.
  revert q. induction p as [|x p IH]; intros q; [by exists q|]. destruct q as [|y q]; cbn; [done|]. case_bool_decide as E; [|done].
  intros (r & -> & Hr)%IH. subst. by exists r.
Qed.
Definition def_ok (d : def) : Prop := Forall segment (d_path d) /\ hollow (d_elem d) = d_elem d /\ (is_scope (d_elem d) = false -> d_rel d <> []).
Lemma sem_self d : def_ok d -> is_scope (d_elem d) = false -> sem d (d_path d) = Some (NdLeaf (d_elem d)).
Proof.
  intros (_ & _ & Hr) He. specialize (Hr He). unfold sem, d_path. rewrite under_at. unfold place. destruct (d_rel d) as [|x r] eqn:E; [done|].
  rewrite <- E. by rewrite deep_self, node_leaf.
Qed.
Lemma sem_leaf d q e : def_ok d -> sem d q = Some (NdLeaf e) -> d_path d = q /\ d_elem d = e.
Proof.
  intros (_ & Hh & _) (r & -> & Hr)%under_inv. unfold place in Hr. destruct r as [|x r]; [done|]. apply deep_leaf in Hr as (E & -> & _); [|done].
  unfold d_path. by rewrite E.
Qed.
Lemma hollow_named p e : hollow e = e -> hollow (named p e) = named p e.
Proof. intros H. by rewrite named_hollow, H. Qed.
Lemma namespace_ok cur ts ds : namespace cur ts ds -> Forall segment cur -> Forall def_ok ds.
Proof.
  induction 1 as [cur|cur t ty s p ts ds1 ds2 Et En Hn Hp Hne H1 IH1 H2 IH2|cur t p ts ds Et En Hn Hne H IH]; intros Hcur; [constructor| |].
  - constructor; [|apply Forall_app; split; [by apply IH1, target_segments|by apply IH2]]. split_and!; [by apply target_segments|done|done].
  - constructor; [|by apply IH]. pose proof (element_leaf t Et) as Hl. split_and!; [by apply target_segments|apply hollow_named; by destruct (snd (element_of t))|].
    intros _. unfold def_at, target. cbn. destruct (from_root p); [done|]. destruct (parents_up p); [done|]. cbn. by intros [_ ?]%app_nil.
Qed.

(** ** Deciding that definitions are not in each other's way *)
Lemma deep_prefix p e q n : hollow e = e -> deep p e q = Some n -> q `prefix_of` p.
Proof.
  intros Hh. revert q. induction p as [|x p IH]; intros [|y q]; cbn [deep]; try (intros _; apply prefix_nil).
  - destruct e as [[ty l]| | | | | | |]; try done. cbn in Hh. by injection Hh as <-.
  - case_bool_decide as E; [|done]. intros H%IH. subst. by apply prefix_cons.
Qed.
Lemma sem_prefix d q n : hollow (d_elem d) = d_elem d -> sem d q = Some n -> q = take (length q) (d_path d) /\ (length q <= length (d_path d))%nat.
Proof.
  intros Hh (r & -> & Hr)%under_inv. unfold place in Hr. destruct r as [|x r]; [done|]. apply deep_prefix in Hr as [k Hk]; [|done].
  unfold d_path. rewrite Hk. rewrite app_assoc, take_app_length, !length_app. split; [done|lia].
Qed.
Definition compat_b (a b : option node) : bool := match a, b with Some a, Some b => is_some (combine a b) | _, _ => true end.
Lemma compat_b_true a b : compat_b a b = true -> compat_at a b.
Proof. destruct a, b; cbn; try done. by destruct (combine _ _). Qed.
(** two definitions can only meet on the way to the first *)
Definition agree_b (d e : def) : bool :=
  forallb (fun k => compat_b (sem d (take k (d_path d))) (sem e (take k (d_path d)))) (seq 0 (S (length (d_path d)))).
Lemma agree_b_true d e : hollow (d_elem d) = d_elem d -> agree_b d e = true -> agree d e.
Proof.
  intros Hh H q. destruct (sem d q) as [n|] eqn:Es; [|done]. destruct (sem_prefix d q n Hh Es) as [Eq Hl].
  unfold agree_b in H. rewrite forallb_forall in H. specialize (H (length q)). rewrite <- Es, Eq. apply compat_b_true, H. apply in_seq. lia.
Qed.
Fixpoint all_agree_b (ds : list def) : bool := match ds with [] => true | d :: ds => forallb (agree_b d) ds && all_agree_b ds end.
Lemma all_agree_b_true ds : Forall (fun d => hollow (d_elem d) = d_elem d) ds -> all_agree_b ds = true -> all_agree ds.
Proof.
  induction 1 as [|d ds Hd Hds IH]; cbn; [done|]. intros [H1 H2]%andb_true_iff. split; [|by apply IH]. apply Forall_forall. intros e He.
  rewrite forallb_forall in H1. apply agree_b_true; [done|]. apply H1. by apply list_elem_of_In.
Qed.

(** methods, processors, power resources, index fields and named data: a path
    has only one of them *)
Definition single (e : ElementType) : Prop := kind (node_of e) = 3.
Lemma single_leaf e : single e -> is_scope e = false.
Proof. by destruct e. Qed.
Lemma rep_single_in o ns n : rep o ns -> n ∈ ns -> kind n = 3 -> o = Some n.
Proof.
  intros Hr Hn Hk. assert (Hf : forall (Q : node -> Prop), Forall Q ns -> Q n) by (intros Q HQ; rewrite Forall_forall in HQ; by apply HQ).
  destruct o as [[|[]]|]; cbn in Hr; try (rewrite Hr in Hn; apply list_elem_of_singleton in Hn; by subst).
  - destruct Hr as [_ Hr]. by rewrite (Hf _ Hr) in Hk.
  - destruct Hr as (_ & Hr & _). apply Hf in Hr. by destruct n as [|[]].
  - destruct Hr as (_ & Hr & _). apply Hf in Hr. by destruct n as [|[]].
  - subst. by apply elem_of_nil in Hn.
Qed.
Lemma nodes_elem ds d q n : d ∈ ds -> sem d q = Some n -> n ∈ nodes_at ds q.
Proof. intros Hd Hs. apply list_elem_of_omap. by exists d. Qed.
Lemma d_path_nonempty d : def_ok d -> is_scope (d_elem d) = false -> d_path d <> [].
Proof. intros (_ & _ & Hr) He [_ E]%app_nil. by apply Hr. Qed.

Lemma single_found ts ds s d : namespace [] ts ds -> Represents (children (root s)) ds -> d ∈ ds -> single (d_elem d) ->
  find_object s (cur_string (d_path d)) = Ret (Ok (Some (d_elem d))).
Proof.
  intros Hn HR Hd Hs. pose proof (namespace_ok _ _ _ Hn ltac:(constructor)) as Hok. rewrite Forall_forall in Hok. specialize (Hok d Hd). pose proof (single_leaf _ Hs) as Hl.
  apply find_leaf; [by apply d_path_nonempty|by destruct Hok as (? & _)|].
  eapply rep_single_in; [apply HR|eapply nodes_elem; [exact Hd|by apply sem_self]|]. unfold single in Hs. by rewrite node_leaf in Hs.
Qed.
Lemma single_defined ts ds s q e : namespace [] ts ds -> Represents (children (root s)) ds -> q <> [] -> Forall segment q -> single e ->
  find_object s (cur_string q) = Ret (Ok (Some e)) -> exists d, d ∈ ds /\ d_path d = q /\ d_elem d = e.
Proof.
  intros Hn HR Hq Hs He Hf. pose proof (namespace_ok _ _ _ Hn ltac:(constructor)) as Hok. rewrite Forall_forall in Hok.
  apply find_leaf_inv in Hf; [|done|done|by apply single_leaf]. specialize (HR q). rewrite Hf in HR.
  assert (HE : nodes_at ds q = [NdLeaf e]) by (destruct e; try done; exact HR).
  assert (Hin : NdLeaf e ∈ nodes_at ds q) by (rewrite HE; apply list_elem_of_here). apply list_elem_of_omap in Hin as (d & Hd & Hsem).
  exists d. apply (sem_leaf d q e) in Hsem as [-> ->]; [done|by apply Hok].
Qed.
Lemma region_found ts ds s d r : namespace [] ts ds -> Represents (children (root s)) ds -> d ∈ ds -> d_elem d = ERegionFields (Some r) [] ->
  exists fs, find_object s (cur_string (d_path d)) = Ret (Ok (Some (ERegionFields (Some r) fs))) /\
    forall f, f ∈ fs <-> exists d', d' ∈ ds /\ d_path d' = d_path d /\ f ∈ fields_of (node_of (d_elem d')).
Proof.
  intros Hn HR Hd Ed. pose proof (namespace_ok _ _ _ Hn ltac:(constructor)) as Hok. rewrite Forall_forall in Hok. pose proof (Hok d Hd) as Hdok.
  assert (Hl : is_scope (d_elem d) = false) by by rewrite Ed. pose proof (sem_self d Hdok Hl) as Hself. pose proof (nodes_elem _ _ _ _ Hd Hself) as Hin.
  specialize (HR (d_path d)). destruct (lookup_path (children (root s)) (d_path d)) as [[|e]|] eqn:El.
  - destruct HR as [_ HR]. rewrite Forall_forall in HR. by apply HR in Hin.
  - assert (exists fs r', e = ERegionFields r' fs) as (fs & r' & ->).
    { destruct e; cbn [rep] in HR; try (rewrite HR, Ed in Hin; apply list_elem_of_singleton in Hin; discriminate Hin).
      - by eexists _, _.
      - destruct HR as (_ & HR & _). rewrite Forall_forall in HR. apply HR in Hin. by rewrite Ed in Hin. }
    destruct HR as (_ & HR & HO & HF). assert (r' = Some r) as ->.
    { assert (Hr : r ∈ omap region_of (nodes_at ds (d_path d))) by (apply list_elem_of_omap; eexists; split; [exact Hin|by rewrite Ed]).
      rewrite HO in Hr. destruct r'; cbn in Hr; [apply list_elem_of_singleton in Hr; by subst|by apply elem_of_nil in Hr]. }
    exists fs. split; [apply find_leaf; [by apply d_path_nonempty|by destruct Hdok as (? & _)|done]|].
    intros f. rewrite HF, list_elem_of_bind. split.
    + intros (n & Hf & (d' & Hd' & Hs')%list_elem_of_omap). exists d'. split; [done|]. destruct n as [|e]; [by apply elem_of_nil in Hf|].
      destruct (sem_leaf d' _ _ (Hok d' Hd') Hs') as [-> <-]. split; [done|]. by destruct (d_elem d').
    + intros (d' & Hd' & Ep & Hf). assert (Hl' : is_scope (d_elem d') = false) by (destruct (d_elem d'); try done; by apply elem_of_nil in Hf).
      exists (NdLeaf (d_elem d')). rewrite (node_leaf _ Hl') in Hf. split; [done|]. eapply nodes_elem; [exact Hd'|]. rewrite <- Ep. apply sem_self; [by apply Hok|done].
  - rewrite HR in Hin. by apply elem_of_nil in Hin.
Qed.

