(* ===== verification/AmlSleep.v ===== *)
(** * From the bytes of a table to the sleep types, and example programs

    The parser, the tree and the evaluation together: the value a program
    gives to [\_S5_] is what the kernel writes to the power registers.  The
    examples run the tree on small programs, also where it misplaces them. *)
From S2P Require Import Prelude UserLink FsTypes Bytes AmlData Resource Aml AmlDecode AmlProgram.
From S2P Require Import AmlTree AmlSpace.
Import AmlData Aml Tree AmlDemo.

(** ** Evaluation of constants *)
(** data without a part that has to be computed *)
Fixpoint constant (d : UnresolvedDataObject) : bool :=
  match d with
  | BufferObj _ | VarPackage _ _ => false
  | Package _ es => forallb (fun e => match e with PeDataObject d => constant d | PeName _ => true end) es
  | _ => true
  end.
Definition constant_element (e : PackageElement UnresolvedDataObject) : bool := match e with PeDataObject d => constant d | PeName _ => true end.

Definition evaluate_element (e : PackageElement UnresolvedDataObject) : outcome (result (PackageElement DataObject) AmlExecutionError) :=
  match e with
  | PeDataObject d => r ← evaluate_data_object d; Ret (match r with Ok d => Ok (PeDataObject d) | Err e => Err e end)
  | PeName name => Ret (Ok (PeName name))
  end.
Fixpoint evaluate_elements (l : list (PackageElement UnresolvedDataObject)) : outcome (result (list (PackageElement DataObject)) AmlExecutionError) :=
  match l with
  | [] => Ret (Ok [])
  | e :: l =>
      e ← evaluate_element e;
      match e with
      | Err e => Ret (Err e)
      | Ok e => r ← evaluate_elements l; Ret (match r with Ok r => Ok (e :: r) | Err e => Err e end)
      end
  end.
Lemma evaluate_package n es : evaluate_data_object (Package n es) =
  (r ← evaluate_elements es; Ret (match r with Ok es => Ok (DPackage (ByteConst n) es) | Err e => Err e end)).
Proof. reflexivity. Qed.
Lemma evaluate_elements_ok es : Forall (fun e => exists v, evaluate_element e = Ret (Ok v)) es -> exists vs, evaluate_elements es = Ret (Ok vs).
Proof.
  induction 1 as [|e es [v Ev] H [vs Evs]]; [by eexists|]. exists (v :: vs). cbn [evaluate_elements]. by rewrite Ev, Evs.
Qed.
(** every constant has a value *)
Fixpoint evaluate_constant (d : UnresolvedDataObject) : constant d = true -> exists v, evaluate_data_object d = Ret (Ok v).
Proof.
  destruct d as [i|b|items|n es|a es|s|s]; cbn [constant]; intros H; try done; try by eexists. rewrite evaluate_package.
  assert (He : Forall (fun e => exists v, evaluate_element e = Ret (Ok v)) es).
  { induction es as [|[d|name] es IH]; [constructor|..]; cbn [forallb] in H; [|constructor; [by eexists|by apply IH]].
    apply andb_true_iff in H as [Hd H]. constructor; [|by apply IH]. destruct (evaluate_constant d Hd) as [v Ev]. eexists. cbn [evaluate_element]. by rewrite Ev. }
  destruct (evaluate_elements_ok es He) as [vs Evs]. rewrite Evs. by eexists.
Qed.
Lemma evaluate_constants es : forallb constant_element es = true -> exists vs, evaluate_elements es = Ret (Ok vs).
Proof.
  intros H. apply evaluate_elements_ok. apply Forall_forall. intros e He.
  assert (Hc : constant_element e = true) by (eapply forallb_forall; [exact H|by apply list_elem_of_In]).
  destruct e as [d|name]; [|by eexists]. destruct (evaluate_constant d Hc) as [v Ev]. eexists. cbn [evaluate_element]. by rewrite Ev.
Qed.
(** the three bits of a sleep type *)
Lemma slp_item_bits i x : as_u8 i = Some x -> is_byte x -> slp_item (PeDataObject (DInteger i)) = Some (Z.land x 7).
Proof.
  intros Hi Hx. unfold slp_item. cbn [as_data as_integer]. rewrite Hi. f_equal. change 7 with (2 ^ 3 - 1) at 1. rewrite land_unot_mask by (lia || exact Hx).
  change (2 ^ 3) with 8. change 7 with (Z.ones 3). rewrite Z.land_ones by lia. change (2 ^ 3) with 8.
  destruct (Z.eqb_spec (x - x mod 8) 0); cbn [negb]; [f_equal; lia|done].
Qed.

Lemma fetch_package ts ds t d i n a b es x y : namespace [] ts ds -> Represents (children (root (structured t))) ds ->
  d ∈ ds -> cur_string (d_path d) = sleep_name i ->
  d_elem d = EName (Package n (PeDataObject (Integer a) :: PeDataObject (Integer b) :: es)) -> forallb constant_element es = true ->
  as_u8 a = Some x -> as_u8 b = Some y -> is_byte x -> is_byte y -> fetch_s_array t (sleep_name i) = Ret (Some [Z.land x 7; Z.land y 7]).
Proof.
  intros Hn HR Hd Hp Hel Hc Hx Hy Bx By. unfold fetch_s_array, execute. rewrite <- Hp, (single_found ts ds _ d Hn HR Hd) by by rewrite Hel.
  rewrite Hel. cbn [mbind outcome_bind]. rewrite evaluate_package. cbn [evaluate_elements evaluate_element evaluate_data_object mbind outcome_bind].
  destruct (evaluate_constants es Hc) as [vs Evs]. rewrite Evs. cbn [mbind outcome_bind as_package take slp_bytes].
  rewrite (slp_item_bits a x Hx Bx), (slp_item_bits b y Hy By). done.
Qed.
Lemma aml_parse_tree ts code s' ds : e_terms (mkState ∅ ∅) ts code s' -> namespace [] ts ds -> all_agree ds ->
  exists s, aml_parse code = Ret (Ok (mkAml (mkAmlCode ts) s)) /\ Represents (children (root s)) ds.
Proof.
  intros He Hn Ha. destruct (structured_represents ts ds Hn Ha) as (s & Es & _ & HR). exists s. split; [|done].
  unfold aml_parse. rewrite (parse_aml_reads _ _ _ He). cbn [mbind outcome_bind]. by rewrite Es.
Qed.

(** From bytes to registers: when the byte code of a table encodes a
    program whose definitions are not in each other's way, and one of them
    gives [\_S1_] to [\_S5_] a package that begins with two bytes, then the
    table parses, its tree is built, and the sleep type found for it is the low
    three bits of these bytes. *)
Theorem sleep_types_found code ts s' ds d i n a b es x y :
  e_terms (mkState ∅ ∅) ts code s' -> namespace [] ts ds -> all_agree ds ->
  d ∈ ds -> (i < 5)%nat -> cur_string (d_path d) = sleep_name i ->
  d_elem d = EName (Package n (PeDataObject (Integer a) :: PeDataObject (Integer b) :: es)) -> forallb constant_element es = true ->
  as_u8 a = Some x -> as_u8 b = Some y -> is_byte x -> is_byte y ->
  exists t, aml_parse code = Ret (Ok t) /\ fetch_s_array t (sleep_name i) = Ret (Some [Z.land x 7; Z.land y 7]).
Proof.
  intros He Hn Ha Hd Hi Hp Hel Hc Hx Hy Bx By. destruct (aml_parse_tree _ _ _ _ He Hn Ha) as (s & Es & HR). eexists. split; [exact Es|].
  by eapply (fetch_package ts ds).
Qed.

Module SleepDemo.
(** ** A program *)
Definition S5 : bytes := [0x5F; 0x53; 0x35; 0x5F].
Definition PCI0 : bytes := [0x50; 0x43; 0x49; 0x30].
Definition UP_ADD : bytes := PARENT_CHAR :: ADD.
Definition byte_el (b : Z) : PackageElement UnresolvedDataObject := PeDataObject (Integer (ByteConst b)).
Definition zero_el : PackageElement UnresolvedDataObject := PeDataObject (Integer ConstZero).
(** [Name (_S5_, Package (4) { 5, 13, Zero, Zero })] *)
Definition s5_package : UnresolvedDataObject := Package 4 [byte_el 5; byte_el 13; zero_el; zero_el].
Definition up_method : MethodObj := mkMethod UP_ADD 2 false 0 [Return (ArgExpression (Add (ArgArg 0) (ArgArg 1) TgNone))].
(** [Scope (\_SB_) { Device (PCI0) { OperationRegion (DBG_, ...) Field (DBG_, ...) {...} Method (^ADD_, 2) {...} } }] *)
Definition pci_terms : list AmlTerm := [Region dbg_region; Field dbg_field; Method up_method].
Definition tree_terms : list AmlTerm :=
  [NameObj S5 s5_package; Scope (mkScopeObj TScope ROOT_SB [Device (mkScopeObj TDevice PCI0 pci_terms)])].
Definition tree_code : bytes :=
  [0x08] ++ S5 ++ [0x12; 0x08; 0x04; 0x0A; 5; 0x0A; 13; 0; 0] ++
  [0x10; 0x32; 0x5C; 0x5F; 0x53; 0x42; 0x5F; 0x5B; 0x82; 0x2A] ++ PCI0 ++
  [0x5B; 0x80; 0x44; 0x42; 0x47; 0x5F; 0x01; 0x0B; 0x02; 0x04; 0x01;
   0x5B; 0x81; 0x0B; 0x44; 0x42; 0x47; 0x5F; 0x01; 0x44; 0x42; 0x47; 0x42; 0x08;
   0x14; 0x0C; 0x5E; 0x41; 0x44; 0x44; 0x5F; 0x02; 0xA4; 0x72; 0x68; 0x69; 0x00].
Lemma tree_parses : parse_aml tree_code = Ret (Ok (mkAmlCode tree_terms)).
Proof. reflexivity. Qed.
Lemma tree_sleeps : (t ← aml_parse tree_code; match t with Ok t => fetch_s_array t (sleep_name 4) | Err _ => Panic end) = Ret (Some [5; 5]).
Proof. reflexivity. Qed.

(** ** Its code and its definitions *)
Lemma up_name : e_name UP_ADD UP_ADD.
Proof.
  exists (mkPath false 1 [ADD]). split_and!; [|done|done]. split_and!; [|by vm_compute|right; left; cbn; lia]. constructor; [|constructor].
  by apply segment_intro.
Qed.
Definition tree_state : State := mkState {[ ADD := 2 ]} {[ S5; DBGB ]}.
Lemma s5_code s : e_op s (NameObj S5 s5_package) (take 14 tree_code) (add_name_st S5 s).
Proof.
  eassert (H : e_op s (NameObj S5 (named_data S5 s5_package)) _ (add_name_st S5 s)).
  { eapply EO_name; [derive|]. unfold s5_package. eapply ED_package.
    - repeat (eapply EE_data; [derive|]). apply EE_nil.
    - derive. }
  exact H.
Qed.
Lemma up_method_code s s' : add_method_st UP_ADD 2 s = Ret s' -> e_op s (Method up_method) (drop 52 tree_code) s'.
Proof.
  intros E. eassert (H : e_op s (Method up_method) _ s').
  { eapply (EO_method s up_method); [apply up_name| | | |exact E|]; cbn [mo_terms up_method num_args sync_level].
    - eapply ES_op; [|derive]. eapply (EO_arg _ [0xA4] Return); [derive|]. derive. eapply (EO_args_target _ 0x72 Add); derive.
    - lia.
    - lia.
    - derive. }
  exact H.
Qed.
Lemma tree_grammar : exists s', e_terms (mkState ∅ ∅) tree_terms tree_code s'.
Proof.
  eexists. eassert (H : e_terms (mkState ∅ ∅) tree_terms _ _).
  { unfold tree_terms. eapply ES_op; [apply s5_code|]. eapply ES_op; [|derive].
    eapply (EO_scope _ [0x10] TScope Scope); [derive|derive| |].
    - eapply ES_op; [|derive]. eapply (EO_scope _ [0x5B; 0x82] TDevice Device); [derive|derive| |].
      + unfold pci_terms. eapply ES_op; [apply region_code|]. eapply ES_op; [apply field_code|]. eapply ES_op; [by apply up_method_code|]. derive.
      + derive.
    - derive. }
  exact H.
Qed.
(** the definitions, with the paths they are made at *)
Definition tree_defs : list def :=
  [mkDef [] [S5] (EName s5_package); mkDef [] [SB] (ScopeOrDevice (mkScope TScope [])); mkDef [SB] [PCI0] (ScopeOrDevice (mkScope TDevice []));
   mkDef [SB; PCI0] [DBG] (ERegionFields (Some dbg_region) []); mkDef [SB; PCI0] [DBG] (ERegionFields None [dbg_field]);
   mkDef [] [SB; ADD] (EMethod (mkMethod ADD 2 false 0 (mo_terms up_method)))].
Lemma tree_namespace : namespace [] tree_terms tree_defs.
Proof.
  assert (Hseg : Forall segment [S5; SB; PCI0; DBG; ADD]) by (repeat constructor; by apply segment_intro). repeat (apply Forall_cons in Hseg as [? Hseg]).
  assert (Hleaf : forall cur q, Forall segment [q] -> name_ok cur (mkPath false 0 [q])) by (intros; split; [done|by left]).
  assert (Hn : namespace [SB; PCI0] pci_terms (skipn 3 tree_defs)).
  { eassert (Hn : namespace [SB; PCI0] pci_terms _).
    { unfold pci_terms.
    eapply (NS_leaf _ _ (mkPath false 0 [DBG])); [done|done|apply Hleaf; by repeat constructor|done|].
    eapply (NS_leaf _ _ (mkPath false 0 [DBG])); [done|done|apply Hleaf; by repeat constructor|done|].
    eapply (NS_leaf _ _ (mkPath false 1 [ADD])); [done|done|split; [by repeat constructor|right; cbn; lia]|done|constructor]. }
    exact Hn. }
  eassert (Hs : namespace [] tree_terms _).
  { unfold tree_terms.
  eapply (NS_leaf _ _ (mkPath false 0 [S5])); [done|done|apply Hleaf; by repeat constructor|done|].
  eapply (NS_scope _ _ TScope _ (mkPath true 0 [SB])); [done|done|split; [by repeat constructor|done]|done|by left| |constructor].
  eapply (NS_scope _ _ TDevice _ (mkPath false 0 [PCI0])); [done|done|apply Hleaf; by repeat constructor|done|by left|exact Hn|constructor]. }
  exact Hs.
Qed.
Lemma tree_agrees : all_agree tree_defs.
Proof. apply all_agree_b_true; [by repeat constructor|reflexivity]. Qed.
Lemma sleep_types_found_witness : exists t, aml_parse tree_code = Ret (Ok t) /\ fetch_s_array t (sleep_name 4) = Ret (Some [5; 5]).
Proof.
  destruct tree_grammar as [s' Hg].
  apply (sleep_types_found tree_code tree_terms s' tree_defs (mkDef [] [S5] (EName s5_package)) 4 4 (ByteConst 5) (ByteConst 13) [zero_el; zero_el] 5 13);
    [exact Hg|exact tree_namespace|exact tree_agrees|apply list_elem_of_here|lia|reflexivity|reflexivity|reflexivity|reflexivity|reflexivity|by vm_compute|by vm_compute].
Defined.

(** ** Where the tree goes wrong *)
(** a device added to a scope stays a scope: the type is set on the scope that
    is taken apart *)
Lemma device_stays_scope :
  structured_parse (mkAmlCode [Scope (mkScopeObj TScope PCI0 []); Device (mkScopeObj TDevice PCI0 [])])
  = Ret (mkStructured (mkScope TScope [(PCI0, ScopeOrDevice (mkScope TScope []))])).
Proof. reflexivity. Qed.
(** the parent of a scope of the root is the root, but a name that goes there panics *)
Lemma parent_of_root_scope_panics :
  structured_parse (mkAmlCode [Scope (mkScopeObj TScope ROOT_SB [NameObj (PARENT_CHAR :: S5) s5_package])]) = Panic.
Proof. reflexivity. Qed.
(** in a scope that was itself named with a parent, a parent is taken of the
    wrong path: [\_SB_.DBG_._S5_] instead of [\_SB_._S5_] *)
Lemma parent_scope_misplaces :
  let inner := Scope (mkScopeObj TScope (PARENT_CHAR :: PCI0) [NameObj (PARENT_CHAR :: S5) s5_package]) in
  (s ← structured_parse (mkAmlCode [Scope (mkScopeObj TScope ROOT_SB [Device (mkScopeObj TDevice DBG [inner])])]);
   r ← find_object s (cur_string [SB; DBG; S5]); r' ← find_object s (cur_string [SB; S5]); Ret (r, r'))
  = Ret (Ok (Some (EName s5_package)), Ok None).
Proof. reflexivity. Qed.
(** a sleep package given by a method stops the kernel *)
Lemma sleep_method_panics :
  (s ← structured_parse (mkAmlCode [Method (mkMethod S5 0 false 0 [])]); execute s (sleep_name 4)) = Panic.
Proof. reflexivity. Qed.
(** so does a buffer, whose size is not computed even when it is a constant *)
Lemma named_buffer_panics :
  (s ← structured_parse (mkAmlCode [NameObj S5 (BufferObj (mkBuffer (byte_arg 1) [0]))]); execute s (sleep_name 4)) = Panic.
Proof. reflexivity. Qed.
End SleepDemo.
