(* ===== verification/AcpiTables.v ===== *)
(** * The ACPI tables

    Models [kernel/src/acpi/tables/mod.rs]: finding the root pointer in the
    memory of the firmware, the table of tables, the checksums, and the
    decoding of the tables the kernel knows.  Physical memory is a function
    from addresses to bytes; the temporary mappings ([VirtualSpace]) through
    which the source reads it are identities here. *)
From S2P Require Import Prelude UserLink FsTypes Bytes AmlData Resource Aml AmlTree.
Import AmlData Aml Tree.

Module Acpi.
(** ** Memory *)
Definition Mem : Type := Z -> Z.
Fixpoint read_mem (mem : Mem) (addr : Z) (n : nat) : bytes :=
  match n with O => [] | S n => mem addr :: read_mem mem (addr + 1) n end.
(** [fold(0u8, wrapping_add)] *)
Definition sum_bytes (b : bytes) : Z := foldl (fun acc x => wrap 8 (acc + x)) 0 b.
Definition slice (b : bytes) (from to : Z) : outcome bytes :=
  if (from <=? to) && (to <=? Z.of_nat (length b)) then Ret (take (Z.to_nat (to - from)) (drop (Z.to_nat from) b)) else Panic.

(** ** Headers *)
Record DescriptionHeader : Type := mkDescription {
  signature : bytes; dh_length : Z; dh_revision : Z; dh_checksum : Z; dh_oem_id : bytes; oem_table_id : bytes;
  oem_revision : Z; creator_id : Z; creator_revision : Z
}.
Definition HEADER_BYTES : nat := 36.
Definition header_of (b : bytes) : DescriptionHeader :=
  mkDescription (take 4 b) (from_le (take 4 (drop 4 b))) (nth 8 b 0) (nth 9 b 0) (take 6 (drop 10 b)) (take 8 (drop 16 b))
    (from_le (take 4 (drop 24 b))) (from_le (take 4 (drop 28 b))) (from_le (take 4 (drop 32 b))).

Definition get_acpi_table_bytes (mem : Mem) (physical_addr : Z) : outcome (DescriptionHeader * bytes) :=
  let raw := read_mem mem physical_addr HEADER_BYTES in
  let header := header_of raw in
  data_len ← csub (dh_length header) (Z.of_nat HEADER_BYTES);
  let header_data := read_mem mem (physical_addr + Z.of_nat HEADER_BYTES) (Z.to_nat data_len) in
  let sum := wrap 8 (sum_bytes raw + sum_bytes header_data) in
  _ ← assert_that (sum =? 0);
  Ret (header, header_data).

(** the bytes of a structure of [size] bytes: shorter tables are filled with
    zeros; longer ones are out of range *)
Definition get_table_from_body (size : nat) (body : bytes) : outcome bytes :=
  _ ← assert_that (Z.of_nat (length body) <=? Z.of_nat size);
  Ret (body ++ replicate (size - length body) 0).
Definition get_struct_from_bytes (size : nat) (data : bytes) : outcome bytes :=
  _ ← assert_that (Z.of_nat (length data) =? Z.of_nat size);
  Ret data.
(** a packed structure with fields of the given widths *)
Definition struct_of {A} (ws : list nat) (k : list Z -> A) (data : bytes) : outcome A :=
  b ← get_struct_from_bytes (width ws) data; Ret (k (unpack ws b)).
Definition table_of {A} (ws : list nat) (k : list Z -> A) (body : bytes) : outcome A :=
  b ← get_table_from_body (width ws) body; Ret (k (unpack ws b)).

(** ** Lists of structures: a type, a length and the rest *)
Fixpoint structs_loop {A} (from_type_and_bytes : Z -> bytes -> outcome A) (fuel : nat) (remaining_body : bytes) : outcome (list A) :=
  match fuel with
  | O => Diverge
  | S fuel =>
      if bool_decide (remaining_body = []) then Ret [] else
      struct_type ← unwrap (remaining_body !! 0%nat);
      struct_len ← unwrap (remaining_body !! 1%nat);
      struct_bytes ← slice remaining_body 2 struct_len;
      s ← from_type_and_bytes struct_type struct_bytes;
      rest ← slice remaining_body struct_len (Z.of_nat (length remaining_body));
      r ← structs_loop from_type_and_bytes fuel rest;
      Ret (s :: r)
  end.
(** a structure takes two bytes at least *)
Definition structs {A} (from_type_and_bytes : Z -> bytes -> outcome A) (b : bytes) : outcome (list A) :=
  structs_loop from_type_and_bytes (S (length b)) b.

(** ** The interrupt controllers: [Apic] *)
Record ProcessorLocalApic : Type := mkLocalApic { acpi_processor_id : Z; apic_id : Z; la_flags : Z }.
Record IoApic : Type := mkIoApic { io_apic_id : Z; io_reserved : Z; io_apic_address : Z; global_system_interrupt_base : Z }.
Record InterruptSourceOverride : Type := mkOverride { bus : Z; ov_source : Z; ov_global_system_interrupt : Z; ov_flags : Z }.
Record NonMaskableInterrupt : Type := mkNmi { nmi_flags : Z; nmi_global_system_interrupt : Z }.
Record LocalApicNmi : Type := mkLocalNmi { acpi_processor_uid : Z; ln_flags : Z; local_apic_lint : Z }.
Record LocalApicAddressOverride : Type := mkAddressOverride { ao_reserved : Z; ao_local_apic_address : Z }.
Inductive InterruptControllerStruct : Type :=
| ProcessorLocalApicS (s : ProcessorLocalApic)
| IoApicS (s : IoApic)
| InterruptSourceOverrideS (s : InterruptSourceOverride)
| NonMaskableInterruptS (s : NonMaskableInterrupt)
| LocalApicNmiS (s : LocalApicNmi)
| LocalApicAddressOverrideS (s : LocalApicAddressOverride)
| UnknownController (struct_type : Z) (data : bytes).
Definition controller_from_type_and_bytes (struct_type : Z) (data : bytes) : outcome InterruptControllerStruct :=
  let f (l : list Z) i := nth i l 0 in
  if struct_type =? 0 then s ← struct_of [1; 1; 4]%nat (fun l => mkLocalApic (f l 0%nat) (f l 1%nat) (f l 2%nat)) data; Ret (ProcessorLocalApicS s)
  else if struct_type =? 1 then s ← struct_of [1; 1; 4; 4]%nat (fun l => mkIoApic (f l 0%nat) (f l 1%nat) (f l 2%nat) (f l 3%nat)) data; Ret (IoApicS s)
  else if struct_type =? 2 then s ← struct_of [1; 1; 4; 2]%nat (fun l => mkOverride (f l 0%nat) (f l 1%nat) (f l 2%nat) (f l 3%nat)) data; Ret (InterruptSourceOverrideS s)
  else if struct_type =? 3 then s ← struct_of [2; 4]%nat (fun l => mkNmi (f l 0%nat) (f l 1%nat)) data; Ret (NonMaskableInterruptS s)
  else if struct_type =? 4 then s ← struct_of [1; 2; 1]%nat (fun l => mkLocalNmi (f l 0%nat) (f l 1%nat) (f l 2%nat)) data; Ret (LocalApicNmiS s)
  else if struct_type =? 5 then s ← struct_of [2; 8]%nat (fun l => mkAddressOverride (f l 0%nat) (f l 1%nat)) data; Ret (LocalApicAddressOverrideS s)
  else Ret (UnknownController struct_type data).
Record Apic : Type := mkApic { local_apic_address : Z; ap_flags : Z; interrupt_controller_structs : list InterruptControllerStruct }.
(** [LittleEndian::read] from the start of a slice *)
Definition read_le (n : nat) (b : bytes) : outcome Z := _ ← assert_that (Z.of_nat n <=? Z.of_nat (length b)); Ret (from_le (take n b)).
Definition apic_from_body_bytes (body : bytes) : outcome Apic :=
  local_apic_address ← read_le 4 body;
  rest ← slice body 4 (Z.of_nat (length body));
  flags ← read_le 4 rest;
  remaining_body ← slice body 8 (Z.of_nat (length body));
  s ← structs controller_from_type_and_bytes remaining_body;
  Ret (mkApic local_apic_address flags s).

(** ** The affinities: [Srat] *)
Inductive StaticResourceAffinity : Type :=
| ProcessorLocalAcpiAffinity (proximity_domain_low apic_id flags local_sapic_eid : Z) (proximity_domain_high : list Z) (clock_domain : Z)
| MemoryAffinity (proximity_domain reserved1 base_address_low base_address_high length_low length_high reserved2 flags reserved3 : Z)
| ProcessorLocalX2ApicAffinity (reserved1 proximity_domain x2apic_id flags clock_domain reserved2 : Z)
| GiccAffinity (proximity_domain acpi_processor_uid flags clock_domain : Z)
| GicInterruptTranslationService (proximity_domain reserved1 its_id : Z)
| GenericInitiatorAffinity (reserved1 device_handle_type proximity_domain : Z) (device_handle : list Z) (flags reserved2 : Z)
| UnknownAffinity (struct_type : Z) (data : bytes).
Definition affinity_from_type_and_bytes (struct_type : Z) (data : bytes) : outcome StaticResourceAffinity :=
  let f (l : list Z) i := nth i l 0 in
  if struct_type =? 0 then
    struct_of [1; 1; 4; 1; 1; 1; 1; 4]%nat
      (fun l => ProcessorLocalAcpiAffinity (f l 0%nat) (f l 1%nat) (f l 2%nat) (f l 3%nat) (take 3 (drop 4 l)) (f l 7%nat)) data
  else if struct_type =? 1 then
    struct_of [4; 2; 4; 4; 4; 4; 4; 4; 8]%nat
      (fun l => MemoryAffinity (f l 0%nat) (f l 1%nat) (f l 2%nat) (f l 3%nat) (f l 4%nat) (f l 5%nat) (f l 6%nat) (f l 7%nat) (f l 8%nat)) data
  else if struct_type =? 2 then
    struct_of [2; 4; 4; 4; 4; 4]%nat
      (fun l => ProcessorLocalX2ApicAffinity (f l 0%nat) (f l 1%nat) (f l 2%nat) (f l 3%nat) (f l 4%nat) (f l 5%nat)) data
  else if struct_type =? 3 then struct_of [4; 4; 4; 4]%nat (fun l => GiccAffinity (f l 0%nat) (f l 1%nat) (f l 2%nat) (f l 3%nat)) data
  else if struct_type =? 4 then struct_of [4; 2; 4]%nat (fun l => GicInterruptTranslationService (f l 0%nat) (f l 1%nat) (f l 2%nat)) data
  else if struct_type =? 5 then
    struct_of ([1; 1; 4] ++ replicate 16 1 ++ [4; 4])%nat
      (fun l => GenericInitiatorAffinity (f l 0%nat) (f l 1%nat) (f l 2%nat) (take 16 (drop 3 l)) (f l 19%nat) (f l 20%nat)) data
  else Ret (UnknownAffinity struct_type data).
Record Srat : Type := mkSrat { sr_reserved1 : Z; sr_reserved2 : Z; static_resource_allocation : list StaticResourceAffinity }.
Definition srat_from_body_bytes (body : bytes) : outcome Srat :=
  reserved1 ← read_le 4 body;
  rest ← slice body 4 (Z.of_nat (length body));
  reserved2 ← read_le 8 rest;
  remaining_body ← slice body 12 (Z.of_nat (length body));
  s ← structs affinity_from_type_and_bytes remaining_body;
  Ret (mkSrat reserved1 reserved2 s).

(** ** Tables of a fixed size *)
Record ApicGenericAddress : Type := mkGas {
  address_space_id : Z; register_bit_width : Z; register_bit_offset : Z; ga_reserved : Z; address : Z
}.
Definition gas_of (l : list Z) : ApicGenericAddress :=
  let f i := nth i l 0 in mkGas (f 0%nat) (f 1%nat) (f 2%nat) (f 3%nat) (f 4%nat).
Definition is_zero (a : ApicGenericAddress) : bool :=
  (address a =? 0) && (address_space_id a =? 0) && (register_bit_offset a =? 0) && (register_bit_width a =? 0) && (ga_reserved a =? 0).
Record Hpet : Type := mkHpet {
  event_timer_block_id : Z; base_address : ApicGenericAddress; hpet_number : Z; main_counter_minimum_clock_tick : Z; page_protection : Z
}.
Definition hpet_widths : list nat := [4; 1; 1; 1; 1; 8; 1; 2; 1]%nat.
Definition hpet_of (l : list Z) : Hpet :=
  let f i := nth i l 0 in mkHpet (f 0%nat) (gas_of (drop 1 l)) (f 6%nat) (f 7%nat) (f 8%nat).
Record Bgrt : Type := mkBgrt {
  bg_version : Z; bg_status : Z; image_type : Z; image_address : Z; image_offset_x : Z; image_offset_y : Z
}.
Definition bgrt_widths : list nat := [2; 1; 1; 8; 4; 4]%nat.
Definition bgrt_of (l : list Z) : Bgrt :=
  let f i := nth i l 0 in mkBgrt (f 0%nat) (f 1%nat) (f 2%nat) (f 3%nat) (f 4%nat) (f 5%nat).
Record Waet : Type := mkWaet { emulated_device_flags : Z }.
Definition waet_of (l : list Z) : Waet := mkWaet (nth 0 l 0).
(** [Facp], in [tables/facp.rs] *)
Record Facp : Type := mkFacp {
  firmware_control : Z; dsdt : Z; reserved : Z; preferred_pm_profile : Z; sci_interrupt : Z; smi_command_port : Z; acpi_enable : Z;
  acpi_disable : Z; s4bios_req : Z; pstate_control : Z;
  pm1a_event_block : Z; pm1b_event_block : Z; pm1a_control_block : Z; pm1b_control_block : Z; pm2_control_block : Z; pm_timer_block : Z;
  gpe0_block : Z; gpe1_block : Z;
  pm1_event_length : Z; pm1_control_length : Z; pm2_control_length : Z; pm_timer_length : Z; gpe0_block_length : Z; gpe1_block_length : Z;
  gpe1_base : Z; cstate_control : Z;
  p_level2_latency : Z; p_level3_latency : Z; flush_size : Z; flush_stride : Z; duty_offset : Z; duty_width : Z; day_alarm : Z;
  month_alarm : Z; century : Z; iapc_boot_arch : Z; reserved2 : Z; fa_flags : Z;
  reset_reg : ApicGenericAddress; reset_value : Z; arm_boot_arch : Z; fadt_minor_version : Z; x_firmware_control : Z; x_dsdt : Z;
  x_pm1a_event_block : ApicGenericAddress; x_pm1b_event_block : ApicGenericAddress; x_pm1a_control_block : ApicGenericAddress;
  x_pm1b_control_block : ApicGenericAddress; x_pm2_control_block : ApicGenericAddress; x_pm_timer_block : ApicGenericAddress;
  x_gpe0_block : ApicGenericAddress; x_gpe1_block : ApicGenericAddress; sleep_control_reg : ApicGenericAddress;
  sleep_status_reg : ApicGenericAddress;
  hypervisor_vendor_id : Z
}.
Definition facp_widths : list nat :=
  [4; 4; 1; 1; 2; 4; 1; 1; 1; 1; 4; 4; 4; 4; 4; 4; 4; 4; 1; 1; 1; 1; 1; 1; 1; 1; 2; 2; 2; 2; 1; 1; 1; 1; 1; 2; 1; 4; 1; 1; 1; 1; 8; 1; 2; 1; 8; 8; 1;
   1; 1; 1; 8; 1; 1; 1; 1; 8; 1; 1; 1; 1; 8; 1; 1; 1; 1; 8; 1; 1; 1; 1; 8; 1; 1; 1; 1; 8; 1; 1; 1; 1; 8; 1; 1; 1; 1; 8; 1; 1; 1; 1; 8; 1; 1; 1; 1; 8;
   8]%nat.
Definition facp_of (l : list Z) : Facp :=
  let f i := nth i l 0 in
  mkFacp
    (f 0%nat) (f 1%nat) (f 2%nat) (f 3%nat) (f 4%nat) (f 5%nat) (f 6%nat) (f 7%nat) (f 8%nat) (f 9%nat) (f 10%nat) (f 11%nat) (f 12%nat) (f 13%nat)
    (f 14%nat) (f 15%nat) (f 16%nat) (f 17%nat) (f 18%nat) (f 19%nat) (f 20%nat) (f 21%nat) (f 22%nat) (f 23%nat) (f 24%nat) (f 25%nat) (f 26%nat)
    (f 27%nat) (f 28%nat) (f 29%nat) (f 30%nat) (f 31%nat) (f 32%nat) (f 33%nat) (f 34%nat) (f 35%nat) (f 36%nat) (f 37%nat) (gas_of (drop 38 l))
    (f 43%nat) (f 44%nat) (f 45%nat) (f 46%nat) (f 47%nat) (gas_of (drop 48 l)) (gas_of (drop 53 l)) (gas_of (drop 58 l)) (gas_of (drop 63 l))
    (gas_of (drop 68 l)) (gas_of (drop 73 l)) (gas_of (drop 78 l)) (gas_of (drop 83 l)) (gas_of (drop 88 l)) (gas_of (drop 93 l)) (f 98%nat).

(** ** Description tables *)
(** the code of a DSDT or SSDT *)
Definition xsdt_from_body_bytes (body : bytes) : outcome AmlTable :=
  r ← aml_parse body;
  match r with Ok t => Ret t | Err _ => Panic end.
Inductive DescriptorTableBody : Type :=
| ApicT (a : Apic) | FacpT (f : Facp) | HpetT (h : Hpet) | DsdtT (t : AmlTable) | SsdtT (t : AmlTable) | BgrtT (b : Bgrt) | WaetT (w : Waet)
| SratT (s : Srat) | UnknownT (data : bytes).
Record DescriptorTable : Type := mkTable { t_header : DescriptionHeader; t_body : DescriptorTableBody }.
Definition sig_APIC : bytes := [0x41; 0x50; 0x49; 0x43].
Definition sig_FACP : bytes := [0x46; 0x41; 0x43; 0x50].
Definition sig_HPET : bytes := [0x48; 0x50; 0x45; 0x54].
Definition sig_DSDT : bytes := [0x44; 0x53; 0x44; 0x54].
Definition sig_SSDT : bytes := [0x53; 0x53; 0x44; 0x54].
Definition sig_BGRT : bytes := [0x42; 0x47; 0x52; 0x54].
Definition sig_WAET : bytes := [0x57; 0x41; 0x45; 0x54].
Definition sig_SRAT : bytes := [0x53; 0x52; 0x41; 0x54].
(** the [match] of [from_physical_ptr] *)
Definition body_of (sig body : bytes) : outcome DescriptorTableBody :=
  if bool_decide (sig = sig_APIC) then a ← apic_from_body_bytes body; Ret (ApicT a)
  else if bool_decide (sig = sig_FACP) then f ← table_of facp_widths facp_of body; Ret (FacpT f)
  else if bool_decide (sig = sig_HPET) then h ← table_of hpet_widths hpet_of body; Ret (HpetT h)
  else if bool_decide (sig = sig_DSDT) then t ← xsdt_from_body_bytes body; Ret (DsdtT t)
  else if bool_decide (sig = sig_SSDT) then t ← xsdt_from_body_bytes body; Ret (SsdtT t)
  else if bool_decide (sig = sig_BGRT) then b ← table_of bgrt_widths bgrt_of body; Ret (BgrtT b)
  else if bool_decide (sig = sig_WAET) then w ← table_of [4]%nat waet_of body; Ret (WaetT w)
  else if bool_decide (sig = sig_SRAT) then s ← srat_from_body_bytes body; Ret (SratT s)
  else Ret (UnknownT body).
Definition from_physical_ptr (mem : Mem) (ptr : Z) : outcome DescriptorTable :=
  r ← get_acpi_table_bytes mem ptr;
  body ← body_of (signature (fst r)) (snd r);
  Ret (mkTable (fst r) body).
Fixpoint from_physical_ptrs (mem : Mem) (ptrs : list Z) : outcome (list DescriptorTable) :=
  match ptrs with
  | [] => Ret []
  | p :: ptrs => t ← from_physical_ptr mem p; ts ← from_physical_ptrs mem ptrs; Ret (t :: ts)
  end.

(** ** The table of tables *)
Record Rsdt : Type := mkRsdt { rs_header : DescriptionHeader; entries : list DescriptorTable }.
Definition facp_table (t : DescriptorTable) : option Facp := match t_body t with FacpT f => Some f | _ => None end.
(** [get_table::<Facp>] and [iter_tables::<Xsdt>] *)
Definition get_facp (ts : list DescriptorTable) : option Facp := head (omap facp_table ts).
Definition xsdt_table (t : DescriptorTable) : option AmlTable := match t_body t with DsdtT t | SsdtT t => Some t | _ => None end.
Definition iter_xsdts (ts : list DescriptorTable) : list AmlTable := omap xsdt_table ts.

(** [body_bytes.chunks(4)], each a [u32] *)
Fixpoint u32_chunks (fuel : nat) (b : bytes) : outcome (list Z) :=
  match fuel with
  | O => Diverge
  | S fuel =>
      if bool_decide (b = []) then Ret [] else
      _ ← assert_that (4 <=? Z.of_nat (length b));
      r ← u32_chunks fuel (drop 4 b);
      Ret (from_le (take 4 b) :: r)
  end.

Record Rsdp : Type := mkRsdp {
  rp_signature : bytes; rp_checksum : Z; rp_oem_id : bytes; rp_revision : Z; rsdt_address : Z; rp_length : Z; xsdt_address : Z;
  extended_checksum : Z; rp_reserved : bytes
}.
(** [Rsdp::rdst] *)
Definition rdst (mem : Mem) (rsdp : Rsdp) : outcome Rsdt :=
  r ← get_acpi_table_bytes mem (rsdt_address rsdp);
  entries_ptrs ← u32_chunks (S (length (snd r))) (snd r);
  let entries_ptrs := filter (fun a => a <> 0) entries_ptrs in
  entries ← from_physical_ptrs mem entries_ptrs;
  match get_facp entries with
  | Some facp =>
      if negb (dsdt facp =? 0) then
        t ← from_physical_ptr mem (dsdt facp);
        Ret (mkRsdt (fst r) (entries ++ [t]))
      else Ret (mkRsdt (fst r) entries)
  | None => Ret (mkRsdt (fst r) entries)
  end.

(** ** The root pointer *)
Definition BIOS_RO_MEM_START : Z := 0x000E0000.
Definition BIOS_RO_MEM_END : Z := 0x000FFFFF.
Definition RSD_PTR : bytes := [0x52; 0x53; 0x44; 0x20; 0x50; 0x54; 0x52; 0x20].
Definition from_v1 (b : bytes) : Rsdp :=
  mkRsdp (take 8 b) (nth 8 b 0) (take 6 (drop 9 b)) (nth 15 b 0) (from_le (take 4 (drop 16 b))) 0 0 0 [0; 0; 0].
Definition from_v2 (b : bytes) : Rsdp :=
  mkRsdp (take 8 b) (nth 8 b 0) (take 6 (drop 9 b)) (nth 15 b 0) (from_le (take 4 (drop 16 b)))
    (from_le (take 4 (drop 20 b))) (from_le (take 8 (drop 24 b))) (nth 32 b 0) (take 3 (drop 33 b)).
(** what is at one address *)
Definition rsdp_at (mem : Mem) (ptr : Z) : option Rsdp :=
  if bool_decide (read_mem mem ptr 8 = RSD_PTR) then
    if sum_bytes (read_mem mem ptr 20) =? 0 then
      let b := read_mem mem ptr 36 in
      Some (if 2 <=? nth 15 b 0 then from_v2 b else from_v1 b)
    else None
  else None.
(** the [while] loop, [n] addresses left *)
Fixpoint scan_rsdp (mem : Mem) (ptr : Z) (n : nat) : option Rsdp :=
  match n with
  | O => None
  | S n => match rsdp_at mem ptr with Some r => Some r | None => scan_rsdp mem (ptr + 1) n end
  end.
Definition find_rsdp (mem : Mem) (multiboot : option Rsdp) : outcome Rsdp :=
  unwrap (match multiboot with
          | Some r => Some r
          | None => scan_rsdp mem BIOS_RO_MEM_START (Z.to_nat (BIOS_RO_MEM_END - BIOS_RO_MEM_START))
          end).
Record BiosTables : Type := mkBios { bios_rsdp : Rsdp; bios_rsdt : Rsdt }.
(** [init_acpi_tables]; what the boot loader found comes first *)
Definition init_acpi_tables (mem : Mem) (multiboot : option Rsdp) : outcome BiosTables :=
  rsdp ← find_rsdp mem multiboot;
  rsdt ← rdst mem rsdp;
  Ret (mkBios rsdp rsdt).
End Acpi.
