(* ===== verification/AcpiPower.v ===== *)
(** * The power management registers

    Models [kernel/src/acpi/tables/facp.rs] (the registers the FACP names) and
    [kernel/src/acpi/mod.rs] ([enable], [sleep] and the interrupt handler).
    The ports are an interface: a state of the hardware that reads and writes
    act on. *)
From S2P Require Import Prelude UserLink FsTypes Bytes AmlData Resource Aml AmlTree AcpiTables.
Import AmlData Aml Tree Acpi.

Module Power.
Definition PM_STS_WAK : Z := Z.shiftl 1 15.
Definition PM_EN_TMR : Z := Z.shiftl 1 0.
Definition PM_EN_GBL : Z := Z.shiftl 1 5.
Definition PM_EN_PWRBTN : Z := Z.shiftl 1 8.
Definition PM_EN_SLPBTN : Z := Z.shiftl 1 9.
Definition PM_EN_RTC : Z := Z.shiftl 1 10.
Definition PM_CTRL_SLP_EN : Z := Z.shiftl 1 13.
Definition PM_CTRL_SLP_TYP_SHIFT : Z := 10.
Definition PM_CTRL_SLP_TYP_MASK : Z := Z.shiftl 7 PM_CTRL_SLP_TYP_SHIFT.

Section registers.
Context {H : Type} `{PortIo H}.
Implicit Types (self : Facp).

Definition port_ok (register : Z) : bool := (0 <? register) && (register <? 0xFFFF).
Definition sci_interrupt_of self : outcome Z :=
  _ ← assert_that (sci_interrupt self <? 256);
  _ ← assert_that (0 <? sci_interrupt self);
  Ret (sci_interrupt self).
Definition smi_command_port_of self : outcome Z :=
  _ ← assert_that ((0 <? smi_command_port self) && (smi_command_port self <? 0xFFFF));
  Ret (smi_command_port self).

Definition access_io_write (register : Z) (alt_register : option Z) (length value : Z) : ST H unit :=
  _ ← lift (assert_that (port_ok register));
  if length =? 2 then
    _ ← lift (assert_that (value <? 2 ^ 16));
    _ ← io_out 2 register value;
    match alt_register with
    | Some alt_register => _ ← lift (assert_that (port_ok alt_register)); io_out 2 alt_register value
    | None => mret tt
    end
  else if length =? 4 then
    _ ← io_out 4 register value;
    match alt_register with
    | Some alt_register => _ ← lift (assert_that (port_ok alt_register)); io_out 4 alt_register value
    | None => mret tt
    end
  else panic.
Definition access_io_read (register length : Z) : ST H Z :=
  _ ← lift (assert_that (port_ok register));
  if length =? 2 then io_in 2 register else if length =? 4 then io_in 4 register else panic.
(** [try_into] a [u16] *)
Definition read_u16 (register length : Z) : ST H Z :=
  v ← access_io_read register length;
  _ ← lift (assert_that (v <? 2 ^ 16));
  mret v.
(** a generic address is not implemented: [todo!] *)
Definition no_generic (a : ApicGenericAddress) : ST H unit := if negb (is_zero a) then panic else mret tt.
Definition alt (register : Z) : option Z := if register =? 0 then None else Some register.

Definition evt_part_len self : Z := pm1_event_length self / 2.
Definition write_pm1_status self (value : Z) : ST H unit :=
  _ ← no_generic (x_pm1a_event_block self);
  access_io_write (pm1a_event_block self) (alt (pm1b_event_block self)) (evt_part_len self) value.
Definition read_pm1_status self : ST H Z :=
  _ ← no_generic (x_pm1a_event_block self);
  read_u16 (pm1a_event_block self) (evt_part_len self).
Definition write_pm1_enable self (value : Z) : ST H unit :=
  _ ← no_generic (x_pm1a_event_block self);
  alt_reg ← (if pm1b_event_block self =? 0 then mret None else r ← lift (cadd 32 (pm1b_event_block self) (evt_part_len self)); mret (Some r));
  r ← lift (cadd 32 (pm1a_event_block self) (evt_part_len self));
  access_io_write r alt_reg (evt_part_len self) value.
Definition read_pm1_enable self : ST H Z :=
  _ ← no_generic (x_pm1a_event_block self);
  r ← lift (cadd 32 (pm1a_event_block self) (evt_part_len self));
  read_u16 r (evt_part_len self).
Definition write_pm1_control self (value : Z) : ST H unit :=
  _ ← no_generic (x_pm1a_control_block self);
  access_io_write (pm1a_control_block self) (alt (pm1b_control_block self)) (pm1_control_length self) value.
Definition read_pm1_control self : ST H Z :=
  _ ← no_generic (x_pm1a_control_block self);
  read_u16 (pm1a_control_block self) (pm1_control_length self).
Definition read_pm1_control_a self : ST H Z := read_u16 (pm1a_control_block self) (pm1_control_length self).
Definition read_pm1_control_b self : ST H (option Z) :=
  if pm1b_control_block self =? 0 then mret None
  else v ← read_u16 (pm1b_control_block self) (pm1_control_length self); mret (Some v).
Definition write_pm1_control_a self (value : Z) : ST H unit := access_io_write (pm1a_control_block self) None (pm1_control_length self) value.
Definition write_pm1_control_b self (value : Z) : ST H unit := access_io_write (pm1b_control_block self) None (pm1_control_length self) value.
Definition is_acpi_enabled self : ST H bool := v ← read_pm1_control self; mret (negb (Z.land v 1 =? 0)).
Definition enable_acpi self : ST H unit :=
  e ← is_acpi_enabled self;
  if (e : bool) then mret tt else
  port ← lift (smi_command_port_of self);
  io_out 1 port (acpi_enable self).
Definition read_pm_timer self : ST H (option Z) :=
  _ ← no_generic (x_pm_timer_block self);
  if pm_timer_block self =? 0 then mret None else
  _ ← lift (assert_that (pm_timer_length self =? 4));
  v ← access_io_read (pm_timer_block self) (pm_timer_length self);
  mret (Some v).
Definition write_pm2_control self (value : Z) : ST H (option unit) :=
  _ ← no_generic (x_pm2_control_block self);
  if pm2_control_block self =? 0 then mret None else
  _ ← access_io_write (pm2_control_block self) (Some (pm2_control_block self)) (pm2_control_length self) value;
  mret (Some tt).
Definition read_pm2_control self : ST H (option Z) :=
  _ ← no_generic (x_pm2_control_block self);
  if pm2_control_block self =? 0 then mret None else
  v ← access_io_read (pm2_control_block self) (pm2_control_length self);
  mret (Some (wrap 16 v)).

(** the general purpose events, byte by byte *)
Fixpoint gpe_write_loop (n : nat) (i register value : Z) : ST H unit :=
  match n with
  | O => mret tt
  | S n => r ← lift (cadd 16 register i); _ ← io_out 1 r (Z.land value 0xFF); gpe_write_loop n (i + 1) register (Z.shiftr value 8)
  end.
Definition gpe_reg_write (register length value : Z) : ST H unit :=
  _ ← lift (assert_that (port_ok register));
  _ ← lift (assert_that (length <=? 4));
  gpe_write_loop (Z.to_nat length) 0 register value.
Fixpoint gpe_read_loop (n : nat) (i register result : Z) : ST H Z :=
  match n with
  | O => mret result
  | S n => r ← lift (cadd 16 register i); s ← io_in 1 r; gpe_read_loop n (i + 1) register (Z.lor result (Z.shiftl s (i * 8)))
  end.
Definition gpe_reg_read (register length : Z) : ST H Z :=
  _ ← lift (assert_that (port_ok register));
  _ ← lift (assert_that (length <=? 4));
  gpe_read_loop (Z.to_nat length) 0 register 0.
Definition on_gpe {A} self (enable : bool) (m : Z -> Z -> ST H A) : ST H (option A) :=
  _ ← no_generic (x_gpe0_block self);
  if gpe0_block self =? 0 then mret None else
  let half := gpe0_block_length self / 2 in
  r ← lift (if enable then cadd 32 (gpe0_block self) half else Ret (gpe0_block self));
  a ← m r half;
  mret (Some a).
Definition write_gpe_0_event_status self (value : Z) : ST H (option unit) := on_gpe self false (fun r l => gpe_reg_write r l value).
Definition read_gpe_0_event_status self : ST H (option Z) := on_gpe self false gpe_reg_read.
Definition write_gpe_0_event_enable self (value : Z) : ST H (option unit) := on_gpe self true (fun r l => gpe_reg_write r l value).
Definition read_gpe_0_event_enable self : ST H (option Z) := on_gpe self true gpe_reg_read.

(** ** [acpi/mod.rs] *)
Inductive AcpiError : Type := InvalidSleepType | SleepTypeNotAvailable.
Definition with_type (ctrl slp : Z) : Z :=
  Z.lor (Z.land ctrl (unot 16 PM_CTRL_SLP_TYP_MASK)) (wrap 16 (Z.shiftl slp PM_CTRL_SLP_TYP_SHIFT)).
(** poll until woken *)
Fixpoint wait_wake (fuel : nat) self : ST H unit :=
  match fuel with
  | O => diverge
  | S fuel => s ← read_pm1_status self; if Z.land s PM_STS_WAK =? 0 then wait_wake fuel self else mret tt
  end.
(** [Acpi::sleep], with the sleep types and the FACP of the tables; [fuel]
    bounds the polls *)
Definition sleep (fuel : nat) (slp_type_data : list (option (list Z))) (facp : option Facp) (ty : Z) : ST H (result unit AcpiError) :=
  if (ty =? 0) || (5 <? ty) then mret (Err InvalidSleepType) else
  d ← lift (unwrap (slp_type_data !! Z.to_nat (ty - 1)));
  match d with
  | Some slp_data =>
      facp ← lift (unwrap facp);
      slp_a ← lift (unwrap (slp_data !! 0%nat));
      ctrl_a ← read_pm1_control_a facp;
      ctrl_b ← read_pm1_control_b facp;
      let ctrl_a := with_type ctrl_a slp_a in
      _ ← match ctrl_b with
          | Some ctrl_b => slp_b ← lift (unwrap (slp_data !! 1%nat)); write_pm1_control_b facp (with_type ctrl_b slp_b)
          | None => mret tt
          end;
      _ ← write_pm1_control_a facp (Z.lor ctrl_a PM_CTRL_SLP_EN);
      _ ← wait_wake fuel facp;
      mret (Ok tt)
  | None => mret (Err SleepTypeNotAvailable)
  end.

(** [Acpi::enable]; the APIC is the pair of calls it makes *)
Section enable.
Context (is_irq_assigned : Z -> H -> bool) (assign_io_irq : Z -> ST H unit).
Fixpoint wait_enabled (n : nat) self : ST H unit :=
  match n with
  | O => _ ← is_acpi_enabled self; mret tt
  | S n => e ← is_acpi_enabled self; if (e : bool) then mret tt else wait_enabled n self
  end.
Definition enable (facp : option Facp) : ST H unit :=
  facp ← lift (unwrap facp);
  e ← is_acpi_enabled facp;
  if (e : bool) then
    irq ← lift (sci_interrupt_of facp);
    h ← get;
    lift (assert_that (is_irq_assigned irq h))
  else
    _ ← write_pm1_enable facp 0;
    irq ← lift (sci_interrupt_of facp);
    _ ← assign_io_irq irq;
    _ ← enable_acpi facp;
    _ ← wait_enabled 10000 facp;
    e ← is_acpi_enabled facp;
    _ ← lift (assert_that e);
    write_pm1_enable facp (Z.lor (Z.lor (Z.lor PM_EN_GBL PM_EN_PWRBTN) PM_EN_SLPBTN) PM_EN_RTC).
(** [Acpi::init], with the tables *)
Definition init (entries : list DescriptorTable) : ST H (list (option (list Z))) :=
  _ ← enable (get_facp entries);
  lift (slp_type_data (iter_xsdts entries)).
End enable.

(** [acpi_handler]; the start of the shutdown and the end of the interrupt are
    the calls it makes *)
Definition acpi_handler (start_shutdown return_from_interrupt : ST H unit) (facp : option Facp) : ST H unit :=
  facp ← lift (unwrap facp);
  pm1_event ← read_pm1_status facp;
  let on bit := negb (Z.land pm1_event bit =? 0) in
  _ ← (if on PM_EN_GBL then write_pm1_status facp PM_EN_GBL
       else if on PM_EN_SLPBTN then write_pm1_status facp PM_EN_SLPBTN
       else if on PM_EN_RTC then write_pm1_status facp PM_EN_RTC
       else if on PM_EN_PWRBTN then _ ← write_pm1_status facp PM_EN_PWRBTN; start_shutdown
       else if on PM_EN_TMR then write_pm1_status facp PM_EN_TMR
       else mret tt);
  return_from_interrupt.
End registers.
End Power.
