(* ===== verification/AcpiSpec.v ===== *)
(** * ACPI: the tables are found and decoded

    What it means that memory holds a table: the bytes at the offsets the ACPI
    specification gives its fields, and a sum of zero; and that the kernel
    then loads exactly the tables the firmware lists, each decoded to what it
    holds. *)
From S2P Require Import Prelude UserLink FsTypes Bytes AmlData Resource Aml AmlDecode AmlProgram AmlTree AmlSpace AmlSleep AcpiTables.
Import AmlData Aml Tree Acpi.

(** ** Lists of structures *)
Section structs.
Context {A : Type} (from : Z -> bytes -> outcome A).
(** a structure: its type, its bytes and what it decodes to *)
Definition encodes_struct (b : bytes) (a : A) : Prop :=
  exists ty data, b = ty :: Z.of_nat (length data + 2) :: data /\ from ty data = Ret a.
Lemma slice_ret b from_ to : 0 <= from_ <= to -> to <= Z.of_nat (length b) -> slice b from_ to = Ret (take (Z.to_nat (to - from_)) (drop (Z.to_nat from_) b)).
Proof. intros H1 H2. unfold slice. by rewrite (proj2 (Z.leb_le _ _)), (proj2 (Z.leb_le _ _)) by lia. Qed.
Lemma structs_decode bs sts : Forall2 encodes_struct bs sts -> structs from (concat bs) = Ret sts.
Proof.
  unfold structs. intros H. assert (Hf : (length (concat bs) < S (length (concat bs)))%nat) by lia. revert Hf. generalize (S (length (concat bs))) as fuel.
  induction H as [|b a bs sts (ty & data & -> & Ha) H IH]; intros [|fuel] Hf; [lia|done|lia|]. cbn [concat structs_loop app].
  set (rest := concat bs) in *. cbn [concat app length] in Hf. rewrite length_app in Hf.
  rewrite bool_decide_eq_false_2 by done. cbn [lookup list_lookup unwrap mbind outcome_bind].
  rewrite (slice_ret _ 2) by (cbn [length]; rewrite ?length_app; lia). cbn [mbind outcome_bind].
  replace (Z.to_nat (Z.of_nat (length data + 2) - 2)) with (length data) by lia. change (Z.to_nat 2) with 2%nat. cbn [drop]. rewrite drop_0, take_app_length, Ha.
  cbn [mbind outcome_bind]. rewrite slice_ret by (cbn [length]; rewrite ?length_app; lia). cbn [mbind outcome_bind].
  rewrite Nat2Z.id. replace (length data + 2)%nat with (S (S (length data))) by lia. cbn [drop]. rewrite drop_app_length.
  rewrite take_ge by (cbn [length]; rewrite ?length_app; lia). rewrite IH by (unfold rest; lia). done.
Qed.
End structs.

(** the encodings of the interrupt controllers *)
Definition encode_controller (s : InterruptControllerStruct) : bytes :=
  let enc ty data := ty :: Z.of_nat (length data + 2) :: data in
  match s with
  | ProcessorLocalApicS s => enc 0 (pack [1; 1; 4]%nat [acpi_processor_id s; apic_id s; la_flags s])
  | IoApicS s => enc 1 (pack [1; 1; 4; 4]%nat [io_apic_id s; io_reserved s; io_apic_address s; global_system_interrupt_base s])
  | InterruptSourceOverrideS s => enc 2 (pack [1; 1; 4; 2]%nat [bus s; ov_source s; ov_global_system_interrupt s; ov_flags s])
  | NonMaskableInterruptS s => enc 3 (pack [2; 4]%nat [nmi_flags s; nmi_global_system_interrupt s])
  | LocalApicNmiS s => enc 4 (pack [1; 2; 1]%nat [acpi_processor_uid s; ln_flags s; local_apic_lint s])
  | LocalApicAddressOverrideS s => enc 5 (pack [2; 8]%nat [ao_reserved s; ao_local_apic_address s])
  | UnknownController ty data => enc ty data
  end.
Definition controller_fits (s : InterruptControllerStruct) : Prop :=
  match s with
  | ProcessorLocalApicS s => Forall2 fits [1; 1; 4]%nat [acpi_processor_id s; apic_id s; la_flags s]
  | IoApicS s => Forall2 fits [1; 1; 4; 4]%nat [io_apic_id s; io_reserved s; io_apic_address s; global_system_interrupt_base s]
  | InterruptSourceOverrideS s => Forall2 fits [1; 1; 4; 2]%nat [bus s; ov_source s; ov_global_system_interrupt s; ov_flags s]
  | NonMaskableInterruptS s => Forall2 fits [2; 4]%nat [nmi_flags s; nmi_global_system_interrupt s]
  | LocalApicNmiS s => Forall2 fits [1; 2; 1]%nat [acpi_processor_uid s; ln_flags s; local_apic_lint s]
  | LocalApicAddressOverrideS s => Forall2 fits [2; 8]%nat [ao_reserved s; ao_local_apic_address s]
  | UnknownController ty data => 5 < ty
  end.
Lemma struct_of_pack {A} ws (k : list Z -> A) vs : Forall2 fits ws vs -> struct_of ws k (pack ws vs) = Ret (k vs).
Proof.
  intros Hf. unfold struct_of, get_struct_from_bytes. rewrite length_pack by (by eapply Forall2_length). rewrite Z.eqb_refl. cbn [assert_that mbind outcome_bind].
  rewrite <- (app_nil_r (pack ws vs)), unpack_pack by done. done.
Qed.
Lemma controller_decodes s : controller_fits s -> encodes_struct controller_from_type_and_bytes (encode_controller s) s.
Proof.
  intros Hf. destruct s as [s|s|s|s|s|s|ty data]; cbn [controller_fits encode_controller] in *; eexists _, _; (split; [reflexivity|]);
    unfold controller_from_type_and_bytes; cbn [Z.eqb Pos.eqb]; try (rewrite struct_of_pack by exact Hf; by destruct s).
  repeat (match goal with |- context[ty =? ?v] => rewrite (proj2 (Z.eqb_neq ty v)) by lia end). done.
Qed.
Lemma slice_tail b1 b2 k : k = Z.of_nat (length b1) -> slice (b1 ++ b2) k (Z.of_nat (length (b1 ++ b2))) = Ret b2.
Proof.
  intros ->. rewrite slice_ret by (rewrite ?length_app; lia). rewrite Nat2Z.id, drop_app_length, take_ge; [done|]. rewrite length_app. lia.
Qed.
Lemma read_le_ret n v rest : fits n v -> read_le n (le n v ++ rest) = Ret v.
Proof.
  intros Hv. unfold read_le. rewrite (proj2 (Z.leb_le _ _)) by (rewrite length_app, length_le; lia). cbn [assert_that mbind outcome_bind].
  rewrite take_app_length' by by rewrite length_le. by rewrite from_le_le.
Qed.
(** the body of a table of interrupt controllers *)
Definition encode_apic (a : Apic) : bytes := le 4 (local_apic_address a) ++ le 4 (ap_flags a) ++ concat (encode_controller <$> interrupt_controller_structs a).
(** A table of interrupt controllers is decoded to the controllers it lists. *)
Theorem apic_table_decodes a : fits 4 (local_apic_address a) -> fits 4 (ap_flags a) -> Forall controller_fits (interrupt_controller_structs a) ->
  apic_from_body_bytes (encode_apic a) = Ret a.
Proof.
  intros H1 H2 H3. unfold apic_from_body_bytes, encode_apic. set (cs := concat _). rewrite read_le_ret by done. cbn [mbind outcome_bind].
  rewrite (slice_tail _ _ 4) by by rewrite length_le. cbn [mbind outcome_bind]. rewrite read_le_ret by done. cbn [mbind outcome_bind].
  rewrite app_assoc. rewrite (slice_tail _ _ 8) by by rewrite length_app, !length_le. cbn [mbind outcome_bind].
  unfold cs. rewrite (structs_decode _ _ (interrupt_controller_structs a)); [by destruct a|].
  apply Forall2_fmap_l. apply Forall_Forall2_diag. eapply Forall_impl; [exact H3|]. apply controller_decodes.
Qed.

(** the encodings of the affinities *)
Definition encode_affinity (s : StaticResourceAffinity) : bytes :=
  let enc ty data := ty :: Z.of_nat (length data + 2) :: data in
  match s with
  | ProcessorLocalAcpiAffinity lo id fl eid hi ck => enc 0 (le 1 lo ++ le 1 id ++ le 4 fl ++ le 1 eid ++ concat (le 1 <$> hi) ++ le 4 ck)
  | MemoryAffinity pd r1 bl bh ll lh r2 fl r3 => enc 1 (le 4 pd ++ le 2 r1 ++ le 4 bl ++ le 4 bh ++ le 4 ll ++ le 4 lh ++ le 4 r2 ++ le 4 fl ++ le 8 r3)
  | ProcessorLocalX2ApicAffinity r1 pd id fl ck r2 => enc 2 (le 2 r1 ++ le 4 pd ++ le 4 id ++ le 4 fl ++ le 4 ck ++ le 4 r2)
  | GiccAffinity pd uid fl ck => enc 3 (le 4 pd ++ le 4 uid ++ le 4 fl ++ le 4 ck)
  | GicInterruptTranslationService pd r1 its => enc 4 (le 4 pd ++ le 2 r1 ++ le 4 its)
  | GenericInitiatorAffinity r1 ty pd h fl r2 => enc 5 (le 1 r1 ++ le 1 ty ++ le 4 pd ++ concat (le 1 <$> h) ++ le 4 fl ++ le 4 r2)
  | UnknownAffinity ty data => enc ty data
  end.
Definition affinity_fits (s : StaticResourceAffinity) : Prop :=
  match s with
  | ProcessorLocalAcpiAffinity lo id fl eid hi ck =>
      length hi = 3%nat /\ Forall (fits 1) ([lo; id; eid] ++ hi) /\ Forall (fits 4) [fl; ck]
  | MemoryAffinity pd r1 bl bh ll lh r2 fl r3 => Forall (fits 4) [pd; bl; bh; ll; lh; r2; fl] /\ fits 2 r1 /\ fits 8 r3
  | ProcessorLocalX2ApicAffinity r1 pd id fl ck r2 => fits 2 r1 /\ Forall (fits 4) [pd; id; fl; ck; r2]
  | GiccAffinity pd uid fl ck => Forall (fits 4) [pd; uid; fl; ck]
  | GicInterruptTranslationService pd r1 its => Forall (fits 4) [pd; its] /\ fits 2 r1
  | GenericInitiatorAffinity r1 ty pd h fl r2 => length h = 16%nat /\ Forall (fits 1) ([r1; ty] ++ h) /\ Forall (fits 4) [pd; fl; r2]
  | UnknownAffinity ty data => 5 < ty
  end.
(** the data are the fields [vs], one after the other *)
Ltac by_fields vs :=
  match goal with |- struct_of ?ws ?k ?d = _ =>
    replace d with (pack ws vs); [rewrite struct_of_pack; [reflexivity|cbn [app replicate]; repeat (apply Forall2_cons_2; [tauto|]); apply Forall2_nil_2]|
      cbn [pack fmap list_fmap concat app replicate]; by rewrite ?app_nil_r, <- ?app_assoc] end.
Lemma affinity_decodes s : affinity_fits s -> encodes_struct affinity_from_type_and_bytes (encode_affinity s) s.
Proof.
  intros Hf. destruct s as [lo id fl eid hi ck|pd r1 bl bh ll lh r2 fl r3|r1 pd id fl ck r2|pd uid fl ck|pd r1 its|r1 ty pd h fl r2|ty data];
    cbn [affinity_fits encode_affinity] in *; eexists _, _; (split; [reflexivity|]); unfold affinity_from_type_and_bytes; cbn [Z.eqb Pos.eqb].
  - destruct Hf as (Hl & H1 & H2). do 3 (destruct hi as [|? hi]; [done|]). destruct hi; [|done]. cbn [app] in H1. repeat rewrite Forall_cons in H1. repeat rewrite Forall_cons in H2.
    by_fields [lo; id; fl; eid; z; z0; z1; ck].
  - destruct Hf as (H1 & H2 & H3). repeat rewrite Forall_cons in H1. by_fields [pd; r1; bl; bh; ll; lh; r2; fl; r3].
  - destruct Hf as (H1 & H2). repeat rewrite Forall_cons in H2. by_fields [r1; pd; id; fl; ck; r2].
  - repeat rewrite Forall_cons in Hf. by_fields [pd; uid; fl; ck].
  - destruct Hf as (H1 & H2). repeat rewrite Forall_cons in H1. by_fields [pd; r1; its].
  - destruct Hf as (Hl & H1 & H2). do 16 (destruct h as [|? h]; [done|]). destruct h; [|done]. cbn [app] in H1. repeat rewrite Forall_cons in H1. repeat rewrite Forall_cons in H2.
    by_fields [r1; ty; pd; z; z0; z1; z2; z3; z4; z5; z6; z7; z8; z9; z10; z11; z12; z13; z14; fl; r2].
  - repeat (match goal with |- context[ty =? ?v] => rewrite (proj2 (Z.eqb_neq ty v)) by lia end). done.
Qed.
(** the body of a table of affinities *)
Definition encode_srat (s : Srat) : bytes := le 4 (sr_reserved1 s) ++ le 8 (sr_reserved2 s) ++ concat (encode_affinity <$> static_resource_allocation s).
Lemma srat_table_decodes s : fits 4 (sr_reserved1 s) -> fits 8 (sr_reserved2 s) -> Forall affinity_fits (static_resource_allocation s) ->
  srat_from_body_bytes (encode_srat s) = Ret s.
Proof.
  intros H1 H2 H3. unfold srat_from_body_bytes, encode_srat. set (cs := concat _). rewrite read_le_ret by done. cbn [mbind outcome_bind].
  rewrite (slice_tail _ _ 4) by by rewrite length_le. cbn [mbind outcome_bind]. rewrite read_le_ret by done. cbn [mbind outcome_bind].
  rewrite app_assoc. rewrite (slice_tail _ _ 12) by by rewrite length_app, !length_le. cbn [mbind outcome_bind].
  unfold cs. rewrite (structs_decode _ _ (static_resource_allocation s)); [by destruct s|].
  apply Forall2_fmap_l. apply Forall_Forall2_diag. eapply Forall_impl; [exact H3|]. apply affinity_decodes.
Qed.

(** ** Fields by their offsets *)
(** [n] bytes at offset [off]; what the table does not have is zero *)
Definition bytes_at (b : bytes) (off n : nat) : bytes := (fun i => nth (off + i) b 0) <$> seq 0 n.
Definition word_at (b : bytes) (off n : nat) : Z := from_le (bytes_at b off n).
(** offset, width and value of each field *)
Definition Layout : Type := list (nat * nat * Z).
Definition laid_out (b : bytes) (l : Layout) : Prop := Forall (fun x => x.2 = word_at b x.1.1 x.1.2) l.
Definition gas_layout (off : nat) (g : ApicGenericAddress) : Layout :=
  [(off, 1, address_space_id g); (off + 1, 1, register_bit_width g); (off + 2, 1, register_bit_offset g); (off + 3, 1, ga_reserved g);
   (off + 4, 8, address g)]%nat.
(** ACPI specification, section 5.2.9 *)
Definition facp_layout (f : Facp) : Layout :=
  ([(36, 4, firmware_control f); (40, 4, dsdt f); (44, 1, reserved f); (45, 1, preferred_pm_profile f); (46, 2, sci_interrupt f);
    (48, 4, smi_command_port f); (52, 1, acpi_enable f); (53, 1, acpi_disable f); (54, 1, s4bios_req f); (55, 1, pstate_control f);
    (56, 4, pm1a_event_block f); (60, 4, pm1b_event_block f); (64, 4, pm1a_control_block f); (68, 4, pm1b_control_block f);
    (72, 4, pm2_control_block f); (76, 4, pm_timer_block f); (80, 4, gpe0_block f); (84, 4, gpe1_block f);
    (88, 1, pm1_event_length f); (89, 1, pm1_control_length f); (90, 1, pm2_control_length f); (91, 1, pm_timer_length f);
    (92, 1, gpe0_block_length f); (93, 1, gpe1_block_length f); (94, 1, gpe1_base f); (95, 1, cstate_control f);
    (96, 2, p_level2_latency f); (98, 2, p_level3_latency f); (100, 2, flush_size f); (102, 2, flush_stride f);
    (104, 1, duty_offset f); (105, 1, duty_width f); (106, 1, day_alarm f); (107, 1, month_alarm f); (108, 1, century f);
    (109, 2, iapc_boot_arch f); (111, 1, reserved2 f); (112, 4, fa_flags f)] ++
   gas_layout 116 (reset_reg f) ++
   [(128, 1, reset_value f); (129, 2, arm_boot_arch f); (131, 1, fadt_minor_version f); (132, 8, x_firmware_control f); (140, 8, x_dsdt f)] ++
   gas_layout 148 (x_pm1a_event_block f) ++ gas_layout 160 (x_pm1b_event_block f) ++ gas_layout 172 (x_pm1a_control_block f) ++
   gas_layout 184 (x_pm1b_control_block f) ++ gas_layout 196 (x_pm2_control_block f) ++ gas_layout 208 (x_pm_timer_block f) ++
   gas_layout 220 (x_gpe0_block f) ++ gas_layout 232 (x_gpe1_block f) ++ gas_layout 244 (sleep_control_reg f) ++
   gas_layout 256 (sleep_status_reg f) ++ [(268, 8, hypervisor_vendor_id f)])%nat.
Definition hpet_layout (h : Hpet) : Layout :=
  ([(36, 4, event_timer_block_id h)] ++ gas_layout 40 (base_address h) ++
   [(52, 1, hpet_number h); (53, 2, main_counter_minimum_clock_tick h); (55, 1, page_protection h)])%nat.
Definition bgrt_layout (b : Bgrt) : Layout :=
  [(36, 2, bg_version b); (38, 1, bg_status b); (39, 1, image_type b); (40, 8, image_address b); (48, 4, image_offset_x b); (52, 4, image_offset_y b)]%nat.
Definition waet_layout (w : Waet) : Layout := [(36, 4, emulated_device_flags w)]%nat.

Lemma bytes_at_eq b off n k : (off + n <= length b + k)%nat -> take n (drop off (b ++ replicate k 0)) = bytes_at b off n.
Proof.
  intros Hl. apply list_eq. intros i. unfold bytes_at. rewrite list_lookup_fmap. destruct (decide (i < n)%nat) as [Hi|Hi].
  - rewrite lookup_take_lt, lookup_drop by done. rewrite lookup_seq_lt by done. cbn. rewrite nth_lookup.
    destruct (decide (off + i < length b)%nat) as [Hb|Hb].
    + rewrite lookup_app_l by done. destruct (lookup_lt_is_Some_2 b (off + i) Hb) as [x ->]. done.
    + rewrite lookup_app_r by lia. rewrite lookup_replicate_2 by lia. by rewrite (lookup_ge_None_2 b) by lia.
  - rewrite lookup_take_ge by lia. by rewrite lookup_seq_ge by lia.
Qed.
Lemma bytes_at_app raw b off n : bytes_at (raw ++ b) (length raw + off) n = bytes_at b off n.
Proof. apply list_fmap_ext. intros i x _. rewrite app_nth2 by lia. f_equal. lia. Qed.

Fixpoint offsets (off : nat) (ws : list nat) : list (nat * nat) :=
  match ws with [] => [] | w :: ws => (off, w) :: offsets (off + w) ws end.
Lemma unpack_at ws : forall off b k, (off + width ws <= length b + k)%nat ->
  unpack ws (drop off (b ++ replicate k 0)) = (fun x => word_at b x.1 x.2) <$> offsets off ws.
Proof.
  induction ws as [|w ws IH]; intros off b k Hl; [done|]. cbn [unpack offsets fmap list_fmap]. change (width (w :: ws)) with (w + width ws)%nat in Hl.
  rewrite bytes_at_eq by lia. rewrite drop_drop. rewrite IH by lia. done.
Qed.
(** a structure of the kernel whose fields are where the layout says *)
Lemma table_laid_out {A} ws (k : list Z -> A) raw body (l : Layout) a : length raw = 36%nat -> (length body <= width ws)%nat ->
  laid_out (raw ++ body) l -> l.*1 = offsets 36 ws -> k (l.*2) = a -> table_of ws k body = Ret a.
Proof.
  intros Hr Hb Hl Ho <-. unfold table_of, get_table_from_body. rewrite (proj2 (Z.leb_le _ _)) by lia. cbn [assert_that mbind outcome_bind]. do 2 f_equal.
  assert (Hu : forall ws off, (off + width ws <= length body + (width ws - length body) + off)%nat) by (intros; lia).
  assert (Hsh : forall ws off, (fun x => word_at (raw ++ body) x.1 x.2) <$> offsets (36 + off) ws = (fun x => word_at body x.1 x.2) <$> offsets off ws).
  { clear -Hr. induction ws as [|w ws IH]; intros off; [done|]. cbn [offsets fmap list_fmap]. f_equal; [|by rewrite <- Nat.add_assoc, IH].
    unfold word_at. cbn [fst snd]. by rewrite <- Hr, bytes_at_app. }
  rewrite <- (drop_0 (body ++ _)). rewrite unpack_at by lia. rewrite <- Hsh. cbn [Nat.add]. rewrite <- Ho.
  clear -Hl. induction Hl as [|x l Hx _ IH]; [done|]. cbn. by rewrite Hx, IH.
Qed.
Ltac laid_out_tac := intros Hr Hb Hl; eapply table_laid_out; [exact Hr|exact Hb|exact Hl|reflexivity|].
Lemma facp_decodes raw body f : length raw = 36%nat -> (length body <= 240)%nat -> laid_out (raw ++ body) (facp_layout f) ->
  table_of facp_widths facp_of body = Ret f.
Proof.
  laid_out_tac. destruct f. cbn [facp_layout]. repeat match goal with g : ApicGenericAddress |- _ => destruct g end. reflexivity.
Qed.
Lemma hpet_decodes raw body h : length raw = 36%nat -> (length body <= 20)%nat -> laid_out (raw ++ body) (hpet_layout h) -> table_of hpet_widths hpet_of body = Ret h.
Proof. laid_out_tac. by destruct h as [? [] ? ? ?]. Qed.
Lemma bgrt_decodes raw body b : length raw = 36%nat -> (length body <= 20)%nat -> laid_out (raw ++ body) (bgrt_layout b) -> table_of bgrt_widths bgrt_of body = Ret b.
Proof. laid_out_tac. by destruct b. Qed.
Lemma waet_decodes raw body w : length raw = 36%nat -> (length body <= 4)%nat -> laid_out (raw ++ body) (waet_layout w) -> table_of [4]%nat waet_of body = Ret w.
Proof. laid_out_tac. by destruct w. Qed.

(** ** Memory that holds tables *)
(** what a table holds: fields, or code *)
Inductive Content : Type :=
| Fields (b : DescriptorTableBody)
| Code (is_dsdt : bool) (terms : list AmlTerm) (defs : list def).
(** "APIC", "FACP", ... *)
Definition content_signature (c : Content) (sig : bytes) : Prop :=
  match c with
  | Fields (ApicT _) => sig = [0x41; 0x50; 0x49; 0x43]
  | Fields (FacpT _) => sig = [0x46; 0x41; 0x43; 0x50]
  | Fields (HpetT _) => sig = [0x48; 0x50; 0x45; 0x54]
  | Fields (BgrtT _) => sig = [0x42; 0x47; 0x52; 0x54]
  | Fields (WaetT _) => sig = [0x57; 0x41; 0x45; 0x54]
  | Fields (SratT _) => sig = [0x53; 0x52; 0x41; 0x54]
  | Code true _ _ => sig = [0x44; 0x53; 0x44; 0x54]
  | Code false _ _ => sig = [0x53; 0x53; 0x44; 0x54]
  | Fields (UnknownT _) => sig ∉ [sig_APIC; sig_FACP; sig_HPET; sig_DSDT; sig_SSDT; sig_BGRT; sig_WAET; sig_SRAT]
  | Fields (DsdtT _ | SsdtT _) => False
  end.
(** the bytes [body] behind the header of the table [b] *)
Definition content_bytes (c : Content) (b body : bytes) : Prop :=
  match c with
  | Fields (ApicT a) => body = encode_apic a /\ fits 4 (local_apic_address a) /\ fits 4 (ap_flags a) /\ Forall controller_fits (interrupt_controller_structs a)
  | Fields (FacpT f) => (length b <= 276)%nat /\ laid_out b (facp_layout f)
  | Fields (HpetT h) => (length b <= 56)%nat /\ laid_out b (hpet_layout h)
  | Fields (BgrtT g) => (length b <= 56)%nat /\ laid_out b (bgrt_layout g)
  | Fields (WaetT w) => (length b <= 40)%nat /\ laid_out b (waet_layout w)
  | Fields (SratT s) => body = encode_srat s /\ fits 4 (sr_reserved1 s) /\ fits 8 (sr_reserved2 s) /\ Forall affinity_fits (static_resource_allocation s)
  | Fields (UnknownT d) => body = d
  | Fields (DsdtT _ | SsdtT _) => False
  | Code _ terms defs => (exists s, e_terms (mkState ∅ ∅) terms body s) /\ namespace [] terms defs /\ all_agree defs
  end.
(** what the kernel makes of it *)
Definition content_is (c : Content) (b : DescriptorTableBody) : Prop :=
  match c with
  | Fields f => b = f
  | Code is_dsdt terms defs =>
      exists t, b = (if is_dsdt then DsdtT t else SsdtT t) /\ aml_code t = mkAmlCode terms /\ Represents (children (root (structured t))) defs
  end.
Lemma content_decodes c raw body : length raw = 36%nat -> content_signature c (take 4 raw) -> content_bytes c (raw ++ body) body ->
  exists b, body_of (take 4 raw) body = Ret b /\ content_is c b.
Proof.
  intros Hr Hs Hb. unfold body_of. destruct c as [[a|f|h|t|t|g|w|s|d]|[] terms defs]; cbn [content_signature content_bytes content_is] in *; try done.
  1-6,8-9: rewrite Hs; cbn [bool_decide]; repeat (rewrite bool_decide_eq_false_2 by done); rewrite bool_decide_eq_true_2 by done.
  - destruct Hb as (-> & H1 & H2 & H3). rewrite apic_table_decodes by done. by eexists.
  - destruct Hb as [Hl Hb]. rewrite length_app in Hl. rewrite (facp_decodes raw body f) by (done || lia). by eexists.
  - destruct Hb as [Hl Hb]. rewrite length_app in Hl. rewrite (hpet_decodes raw body h) by (done || lia). by eexists.
  - destruct Hb as [Hl Hb]. rewrite length_app in Hl. rewrite (bgrt_decodes raw body g) by (done || lia). by eexists.
  - destruct Hb as [Hl Hb]. rewrite length_app in Hl. rewrite (waet_decodes raw body w) by (done || lia). by eexists.
  - destruct Hb as (-> & H1 & H2 & H3). rewrite srat_table_decodes by done. by eexists.
  - destruct Hb as ((s & He) & Hn & Ha). destruct (aml_parse_tree _ _ _ _ He Hn Ha) as (st & Es & HR). unfold xsdt_from_body_bytes. rewrite Es.
    eexists. split; [reflexivity|]. eexists. split; [reflexivity|done].
  - destruct Hb as ((s & He) & Hn & Ha). destruct (aml_parse_tree _ _ _ _ He Hn Ha) as (st & Es & HR). unfold xsdt_from_body_bytes. rewrite Es.
    eexists. split; [reflexivity|]. eexists. split; [reflexivity|done].
  - rewrite !not_elem_of_cons in Hs. repeat (rewrite bool_decide_eq_false_2 by tauto). subst. by eexists.
Qed.
Lemma read_mem_app mem addr n m : read_mem mem addr (n + m) = read_mem mem addr n ++ read_mem mem (addr + Z.of_nat n) m.
Proof.
  revert addr. induction n as [|n IH]; intros addr; cbn [read_mem Nat.add app]; [by rewrite Z.add_0_r|]. rewrite IH. do 3 f_equal. lia.
Qed.
Lemma length_read mem addr n : length (read_mem mem addr n) = n.
Proof. revert addr. induction n as [|n IH]; intros addr; cbn; [done|]. by rewrite IH. Qed.
Lemma sum_bytes_acc b : forall acc, 0 <= acc < 256 -> foldl (fun acc x => wrap 8 (acc + x)) acc b = wrap 8 (acc + sum_bytes b).
Proof.
  induction b as [|x b IH]; intros acc Ha; cbn [foldl].
  - unfold sum_bytes, wrap. cbn. rewrite Z.mod_small; change (2 ^ 8) with 256; lia.
  - assert (Hw : forall z, 0 <= wrap 8 z < 256) by (intros z; apply (Z.mod_pos_bound z 256); lia).
    unfold sum_bytes. cbn [foldl]. rewrite !IH by apply Hw. unfold wrap. change (2 ^ 8) with 256.
    rewrite Z.add_0_l, Zplus_mod_idemp_l, (Zplus_mod_idemp_l x), Zplus_mod_idemp_r. f_equal. lia.
Qed.
Lemma sum_bytes_app a b : sum_bytes (a ++ b) = wrap 8 (sum_bytes a + sum_bytes b).
Proof.
  unfold sum_bytes at 1. rewrite foldl_app. apply sum_bytes_acc. fold (sum_bytes a). destruct a as [|x a] using rev_ind; [done|].
  unfold sum_bytes. rewrite foldl_app. cbn. apply (Z.mod_pos_bound _ 256). lia.
Qed.

(** a header, by the offsets of its fields *)
Definition header_at (b : bytes) (h : DescriptionHeader) : Prop :=
  signature h = bytes_at b 0 4 /\ dh_length h = word_at b 4 4 /\ dh_revision h = word_at b 8 1 /\ dh_checksum h = word_at b 9 1 /\
  dh_oem_id h = bytes_at b 10 6 /\ oem_table_id h = bytes_at b 16 8 /\ oem_revision h = word_at b 24 4 /\ creator_id h = word_at b 28 4 /\
  creator_revision h = word_at b 32 4.
Lemma take_bytes b off n : (off + n <= length b)%nat -> take n (drop off b) = bytes_at b off n.
Proof. intros Hl. rewrite <- (bytes_at_eq b off n 0) by lia. by rewrite app_nil_r. Qed.
Lemma nth_byte b i : nth i b 0 = word_at b i 1.
Proof. unfold word_at, bytes_at. cbn. rewrite Nat.add_0_r. lia. Qed.
Lemma header_decodes b h : (36 <= length b)%nat -> header_at b h -> header_of b = h.
Proof.
  intros Hl (H1 & H2 & H3 & H4 & H5 & H6 & H7 & H8 & H9). unfold header_of. rewrite !nth_byte.
  rewrite <- (drop_0 b) at 1. rewrite !take_bytes by lia. destruct h. cbn in *. by subst.
Qed.
Lemma header_prefix raw b h : length raw = 36%nat -> header_at (raw ++ b) h -> header_at raw h.
Proof.
  intros Hr. assert (Hp : forall off n, (off + n <= 36)%nat -> bytes_at (raw ++ b) off n = bytes_at raw off n).
  { intros off n Hn. apply list_fmap_ext. intros i x Hx. apply lookup_seq in Hx as [-> Hx]. rewrite app_nth1 by lia. done. }
  unfold header_at, word_at. rewrite !Hp by lia. done.
Qed.
(** the sum of the bytes *)
Definition total (b : bytes) : Z := foldr Z.add 0 b.
Lemma total_sum b : total b mod 256 = 0 -> sum_bytes b = 0.
Proof.
  assert (H : forall b, sum_bytes b = total b mod 256); [|by rewrite H]. clear. intros b. induction b as [|x b IH]; [done|].
  unfold sum_bytes. cbn [foldl]. rewrite sum_bytes_acc by (apply (Z.mod_pos_bound _ 256); lia). rewrite IH. unfold wrap, total. cbn [foldr].
  change (2 ^ 8) with 256. by rewrite Zplus_mod_idemp_r, Zplus_mod_idemp_l.
Qed.
Lemma sum_total b : sum_bytes b = 0 -> total b mod 256 = 0.
Proof.
  assert (H : forall b, sum_bytes b = total b mod 256); [|by rewrite H]. clear. intros b. induction b as [|x b IH]; [done|].
  unfold sum_bytes. cbn [foldl]. rewrite sum_bytes_acc by (apply (Z.mod_pos_bound _ 256); lia). rewrite IH. unfold wrap, total. cbn [foldr].
  change (2 ^ 8) with 256. by rewrite Zplus_mod_idemp_r, Zplus_mod_idemp_l.
Qed.

Section tables.
Context (mem : Mem).
(** a table: a header of 36 bytes, which tells the length of the whole, and a
    body; all bytes add up to zero *)
Definition table_at (ptr : Z) (h : DescriptionHeader) (raw body : bytes) : Prop :=
  length raw = 36%nat /\ read_mem mem ptr (length (raw ++ body)) = raw ++ body /\ header_at (raw ++ body) h /\
  word_at (raw ++ body) 4 4 = Z.of_nat (length (raw ++ body)) /\ total (raw ++ body) mod 256 = 0.
Lemma get_table ptr h raw body : table_at ptr h raw body -> get_acpi_table_bytes mem ptr = Ret (h, body).
Proof.
  intros (H1 & H2 & H3 & H4 & H5). rewrite length_app in H2, H4. rewrite read_mem_app in H2.
  assert (E : read_mem mem ptr (length raw) = raw /\ read_mem mem (ptr + Z.of_nat (length raw)) (length body) = body).
  { apply app_inj_1; [by rewrite length_read|done]. }
  destruct E as [E1 E2]. rewrite H1 in E1, E2. assert (Hl : dh_length h = Z.of_nat (36 + length body)) by (destruct H3 as (_ & -> & _); rewrite H4, H1; done).
  apply header_prefix in H3; [|done]. apply header_decodes in H3; [|lia].
  unfold get_acpi_table_bytes, HEADER_BYTES. rewrite E1, H3, Hl, csub_ret by lia. cbn [mbind outcome_bind].
  replace (Z.to_nat (Z.of_nat (36 + length body) - Z.of_nat 36)) with (length body) by lia. rewrite E2, <- sum_bytes_app, total_sum by done. done.
Qed.
(** a table that does not add up is not accepted *)
Lemma bad_checksum_panics ptr raw body : length raw = 36%nat -> word_at (raw ++ body) 4 4 = Z.of_nat (length (raw ++ body)) ->
  read_mem mem ptr (length (raw ++ body)) = raw ++ body -> total (raw ++ body) mod 256 <> 0 -> from_physical_ptr mem ptr = Panic.
Proof.
  intros H1 H4 H2 H5. rewrite length_app in H2, H4. rewrite read_mem_app in H2.
  assert (E : read_mem mem ptr (length raw) = raw /\ read_mem mem (ptr + Z.of_nat (length raw)) (length body) = body).
  { apply app_inj_1; [by rewrite length_read|done]. }
  destruct E as [E1 E2]. rewrite H1 in E1, E2.
  assert (Hl : dh_length (header_of raw) = Z.of_nat (36 + length body)).
  { rewrite H1 in H4. rewrite <- H4. cbn [header_of dh_length]. unfold word_at. rewrite take_bytes by lia. f_equal. apply list_fmap_ext.
    intros i x Hx. apply lookup_seq in Hx as [-> Hx]. by rewrite app_nth1 by lia. }
  unfold from_physical_ptr, get_acpi_table_bytes, HEADER_BYTES. rewrite E1, Hl, csub_ret by lia. cbn [mbind outcome_bind].
  replace (Z.to_nat (Z.of_nat (36 + length body) - Z.of_nat 36)) with (length body) by lia. rewrite E2, <- sum_bytes_app.
  destruct (Z.eqb_spec (sum_bytes (raw ++ body)) 0) as [E|E]; [|done]. by apply sum_total in E.
Qed.

(** the table at a pointer, with its content *)
Definition holds_table (ptr : Z) (x : DescriptionHeader * Content) : Prop :=
  exists raw body, table_at ptr x.1 raw body /\ content_signature x.2 (signature x.1) /\ content_bytes x.2 (raw ++ body) body.
Definition table_is (x : DescriptionHeader * Content) (t : DescriptorTable) : Prop := t_header t = x.1 /\ content_is x.2 (t_body t).
Lemma holds_loads ptr x : holds_table ptr x -> exists t, from_physical_ptr mem ptr = Ret t /\ table_is x t.
Proof.
  intros (raw & body & Ht & Hs & Hb). unfold from_physical_ptr. rewrite (get_table _ _ _ _ Ht). cbn [mbind outcome_bind fst snd].
  destruct Ht as (Hr & _ & Hh & _). apply header_prefix in Hh; [|done].
  assert (Es : signature x.1 = take 4 raw).
  { destruct Hh as (-> & _). rewrite <- take_bytes by lia. by rewrite drop_0. }
  rewrite Es in Hs |- *. destruct (content_decodes _ raw body Hr Hs Hb) as (b & -> & Hc). eexists. split; [reflexivity|done].
Qed.
Lemma holds_all ptrs xs : Forall2 holds_table ptrs xs -> exists ts, from_physical_ptrs mem ptrs = Ret ts /\ Forall2 table_is xs ts.
Proof.
  induction 1 as [|p x ptrs xs Hx _ (ts & IH & Hts)]; cbn [from_physical_ptrs]; [by exists []|].
  destruct (holds_loads _ _ Hx) as (t & -> & Ht). rewrite IH. eexists. split; [reflexivity|by constructor].
Qed.
Lemma chunks_ptrs ptrs : Forall (fits 4) ptrs -> forall fuel, (length ptrs < fuel)%nat -> u32_chunks fuel (concat (le 4 <$> ptrs)) = Ret ptrs.
Proof.
  induction 1 as [|p ptrs Hp _ IH]; intros [|fuel] Hf; cbn [length] in Hf; try lia; [done|]. cbn [u32_chunks fmap list_fmap concat].
  rewrite bool_decide_eq_false_2 by done. rewrite (proj2 (Z.leb_le _ _)) by (rewrite length_app, length_le; lia). cbn [assert_that mbind outcome_bind].
  rewrite drop_app_length', take_app_length' by by rewrite length_le. rewrite IH by lia. cbn [mbind outcome_bind]. by rewrite from_le_le.
Qed.
Lemma length_ptrs ptrs : length (concat (le 4 <$> ptrs)) = (4 * length ptrs)%nat.
Proof. induction ptrs as [|p ptrs IH]; [done|]. cbn [fmap list_fmap concat length]. rewrite length_app, length_le, IH. lia. Qed.

(** the root pointer at an address: its name, and 20 bytes that add up to zero *)
Definition root_signature (addr : Z) : Prop :=
  read_mem mem addr 8 = [0x52; 0x53; 0x44; 0x20; 0x50; 0x54; 0x52; 0x20] /\ total (read_mem mem addr 20) mod 256 = 0.
(** ... and its fields; the later ones since revision 2 *)
Definition root_fields (addr : Z) (r : Rsdp) : Prop :=
  let b := read_mem mem addr 36 in
  rp_signature r = bytes_at b 0 8 /\ rp_checksum r = word_at b 8 1 /\ rp_oem_id r = bytes_at b 9 6 /\ rp_revision r = word_at b 15 1 /\
  rsdt_address r = word_at b 16 4 /\
  if 2 <=? rp_revision r
  then rp_length r = word_at b 20 4 /\ xsdt_address r = word_at b 24 8 /\ extended_checksum r = word_at b 32 1 /\ rp_reserved r = bytes_at b 33 3
  else rp_length r = 0 /\ xsdt_address r = 0 /\ extended_checksum r = 0 /\ rp_reserved r = [0; 0; 0].
(** where it is found: the boot loader passes it on, or it is the first one in
    the memory of the BIOS *)
Definition root_at (multiboot : option Rsdp) (rsdp : Rsdp) : Prop :=
  multiboot = Some rsdp \/
  multiboot = None /\ exists addr, 0xE0000 <= addr < 0xFFFFF /\ root_signature addr /\ root_fields addr rsdp /\
    forall a, 0xE0000 <= a < addr -> ~ root_signature a.
Lemma rsdp_at_some addr r : root_signature addr -> root_fields addr r -> rsdp_at mem addr = Some r.
Proof.
  intros [H1 H2] Hf. unfold rsdp_at. rewrite bool_decide_eq_true_2 by done. rewrite total_sum by done. cbn [Z.eqb]. f_equal.
  unfold root_fields in Hf. cbn zeta in Hf. set (b := read_mem mem addr 36) in *. assert (Hl : length b = 36%nat) by apply length_read.
  destruct Hf as (F1 & F2 & F3 & F4 & F5 & F6). rewrite nth_byte, <- F4.
  assert (E : take 8 b = bytes_at b 0 8) by (rewrite <- take_bytes by lia; by rewrite drop_0).
  destruct (2 <=? rp_revision r); unfold from_v1, from_v2; rewrite !nth_byte, !take_bytes, E by lia; destruct r; cbn in *; destruct F6 as (? & ? & ? & ?); by subst.
Qed.
Lemma rsdp_at_none addr : ~ root_signature addr -> rsdp_at mem addr = None.
Proof.
  intros Hn. unfold rsdp_at. case_bool_decide as Hs; [|done]. destruct (Z.eqb_spec (sum_bytes (read_mem mem addr 20)) 0) as [E|]; [|done].
  exfalso. apply Hn. split; [done|by apply sum_total].
Qed.
Lemma scan_finds n : forall ptr addr r, ptr <= addr < ptr + Z.of_nat n -> rsdp_at mem addr = Some r -> (forall a, ptr <= a < addr -> rsdp_at mem a = None) ->
  scan_rsdp mem ptr n = Some r.
Proof.
  induction n as [|n IH]; intros ptr addr r Ha Hr Hn; [lia|]. cbn [scan_rsdp]. destruct (decide (ptr = addr)) as [->|Hne]; [by rewrite Hr|].
  rewrite Hn by lia. apply (IH _ addr); [lia|done|]. intros a ?. apply Hn. lia.
Qed.
Lemma root_found mb rsdp : root_at mb rsdp -> find_rsdp mem mb = Ret rsdp.
Proof.
  intros [->|(-> & addr & Ha & Hs & Hf & Hn)]; [done|]. unfold find_rsdp. rewrite (scan_finds _ _ addr rsdp); [done| |by apply rsdp_at_some|].
  - unfold BIOS_RO_MEM_START, BIOS_RO_MEM_END in *. rewrite Z2Nat.id; lia.
  - intros a Ha'. by apply rsdp_at_none, Hn.
Qed.

(** the first FACP among the tables, and the table it points to *)
Definition facp_content (x : DescriptionHeader * Content) : option Facp := match x.2 with Fields (FacpT f) => Some f | _ => None end.
Definition first_facp (xs : list (DescriptionHeader * Content)) : option Facp := head (omap facp_content xs).
Definition pointed (xs extra : list (DescriptionHeader * Content)) : Prop :=
  match first_facp xs with
  | Some f => if dsdt f =? 0 then extra = [] else exists x, holds_table (dsdt f) x /\ extra = [x]
  | None => extra = []
  end.
Lemma facp_same xs ts : Forall2 table_is xs ts -> get_facp ts = first_facp xs.
Proof.
  unfold get_facp, first_facp. induction 1 as [|x t xs ts [_ Hc] _ IH]; [done|]. cbn [omap list_omap]. unfold facp_table, facp_content.
  destruct x as [h [b|d terms defs]]; cbn [snd content_is] in *.
  - rewrite Hc. by destruct b.
  - destruct Hc as (a & -> & _). by destruct d.
Qed.
(** the kernel's tables are those of the list and the one pointed to *)
Lemma tables_load mb rsdp h raw ptrs xs extra : root_at mb rsdp -> table_at (rsdt_address rsdp) h raw (concat (le 4 <$> ptrs)) -> Forall (fits 4) ptrs ->
  Forall2 holds_table (filter (fun a => a <> 0) ptrs) xs -> pointed xs extra ->
  exists ts, init_acpi_tables mem mb = Ret (mkBios rsdp (mkRsdt h ts)) /\ Forall2 table_is (xs ++ extra) ts.
Proof.
  intros Hr Ht Hp Hl Hd. unfold init_acpi_tables. rewrite (root_found _ _ Hr). cbn [mbind outcome_bind]. unfold rdst. rewrite (get_table _ _ _ _ Ht).
  cbn [mbind outcome_bind fst snd]. rewrite chunks_ptrs by (done || rewrite length_ptrs; lia). cbn [mbind outcome_bind].
  destruct (holds_all _ _ Hl) as (ts & -> & Hts). cbn [mbind outcome_bind]. rewrite (facp_same _ _ Hts). unfold pointed in Hd.
  destruct (first_facp xs) as [f|]; [|subst; rewrite app_nil_r; by eexists]. destruct (dsdt f =? 0); cbn [negb]; [subst; rewrite app_nil_r; by eexists|].
  destruct Hd as (x & Hx & ->). destruct (holds_loads _ _ Hx) as (t & -> & Htx). eexists. split; [reflexivity|].
  apply Forall2_app; [done|by constructor].
Qed.
End tables.

