(* ===== verification/AcpiUse.v ===== *)
(** * Sleeping: from the tables to the registers

    [Acpi::sleep] programs the sleep type into the control registers, and the
    types are those the firmware's code defines: the tables, the parser, the
    namespace and the registers together. *)
From S2P Require Import Prelude UserLink FsTypes Bytes AmlData Resource Aml AmlDecode AmlProgram AmlTree AmlSpace AmlSleep.
From S2P Require Import AcpiTables AcpiPower AcpiSpec.

Import AmlData Aml Tree Acpi Power.

(** ** The bits of a control register *)
Lemma testbit_high v w i : 0 <= v < 2 ^ w -> 0 <= w <= i -> Z.testbit v i = false.
Proof. intros Hv Hi. rewrite <- (Z.mod_small v (2 ^ w)) by lia. apply Z.mod_pow2_bits_high. lia. Qed.
Lemma with_type_bits v s i : in_word 16 v -> 0 <= s < 8 -> 0 <= i ->
  Z.testbit (with_type v s) i = if (10 <=? i) && (i <? 13) then Z.testbit s (i - 10) else Z.testbit v i.
Proof.
  intros Hv Hs Hi. unfold with_type, PM_CTRL_SLP_TYP_MASK, PM_CTRL_SLP_TYP_SHIFT.
  assert (Ew : wrap 16 (Z.shiftl s 10) = Z.shiftl s 10) by (unfold wrap; rewrite Z.shiftl_mul_pow2 by lia; apply Z.mod_small; lia).
  rewrite Ew, Z.lor_spec, Z.land_spec, Z.shiftl_spec by lia. unfold unot. rewrite Z.lxor_spec, Z.shiftl_spec by lia. change 7 with (Z.ones 3).
  rewrite (Z.testbit_ones 16) by lia. rewrite (Z.testbit_ones 3) by lia.
  destruct (Z.leb_spec 10 i), (Z.ltb_spec i 13); cbn [andb].
  - rewrite (proj2 (Z.leb_le 0 (i - 10))), (proj2 (Z.ltb_lt (i - 10) 3)), (proj2 (Z.leb_le 0 i)), (proj2 (Z.ltb_lt i 16)) by lia. cbn. by rewrite andb_false_r.
  - rewrite (proj2 (Z.ltb_ge (i - 10) 3)), (proj2 (Z.leb_le 0 i)), andb_false_r by lia. cbn [xorb andb]. rewrite (testbit_high s 3 (i - 10)) by lia. rewrite orb_false_r.
    destruct (Z.ltb_spec i 16); [by rewrite andb_true_r|]. rewrite (testbit_high v 16 i) by (unfold in_word in Hv; lia). done.
  - rewrite (proj2 (Z.leb_gt 0 (i - 10))), (proj2 (Z.leb_le 0 i)), (proj2 (Z.ltb_lt i 16)) by lia. cbn [xorb andb]. rewrite andb_true_r.
    rewrite (Z.testbit_neg_r s) by lia. by rewrite orb_false_r.
  - lia.
Qed.
Lemma with_type_word v s : in_word 16 v -> 0 <= s < 8 -> in_word 16 (with_type v s).
Proof.
  intros Hv Hs. assert (H0 : 0 <= with_type v s).
  { unfold with_type. apply Z.lor_nonneg. split; [apply Z.land_nonneg; left; unfold in_word in Hv; lia|apply (Z.mod_pos_bound _ (2 ^ 16)); lia]. }
  split; [done|]. destruct (Z.ltb_spec (with_type v s) (2 ^ 16)) as [|Hge]; [done|]. exfalso.
  assert (Hl : 16 <= Z.log2 (with_type v s)) by (apply Z.log2_le_pow2; lia).
  pose proof (Z.bit_log2 (with_type v s) ltac:(lia)) as Hb. rewrite with_type_bits in Hb by (done || lia).
  rewrite (proj2 (Z.ltb_ge (Z.log2 _) 13)), andb_false_r in Hb by lia. by rewrite (testbit_high v 16) in Hb by (unfold in_word in Hv; lia).
Qed.
(** the value that starts the sleep *)
Definition sleep_value (v s : Z) : Z := Z.lor (with_type v s) PM_CTRL_SLP_EN.
Lemma sleep_value_bits v s i : in_word 16 v -> 0 <= s < 8 -> 0 <= i ->
  Z.testbit (sleep_value v s) i = if i =? 13 then true else if (10 <=? i) && (i <? 13) then Z.testbit s (i - 10) else Z.testbit v i.
Proof.
  intros Hv Hs Hi. unfold sleep_value. rewrite Z.lor_spec, with_type_bits by done. unfold PM_CTRL_SLP_EN. rewrite Z.shiftl_1_l, Z.pow2_bits_eqb by lia.
  rewrite (Z.eqb_sym 13 i). destruct (i =? 13); [by rewrite orb_true_r|]. by rewrite orb_false_r.
Qed.
Lemma sleep_value_word v s : in_word 16 v -> 0 <= s < 8 -> sleep_value v s < 2 ^ 16.
Proof.
  intros Hv Hs. pose proof (with_type_word v s Hv Hs) as [H0 H1]. unfold sleep_value.
  destruct (Z.eq_dec (with_type v s) 0) as [->|]; [by vm_compute|]. apply Z.log2_lt_pow2; [|rewrite Z.log2_lor by (done || lia)].
  - assert (0 <= Z.lor (with_type v s) PM_CTRL_SLP_EN) by by apply Z.lor_nonneg. destruct (Z.eq_dec (Z.lor (with_type v s) PM_CTRL_SLP_EN) 0) as [E|]; [|lia].
    apply Z.lor_eq_0_iff in E. lia.
  - apply Z.max_lub_lt; [|by vm_compute]. apply Z.log2_lt_pow2; lia.
Qed.

(** ** Sleeping *)
Section sleep.
Context {H : Type} `{PortIo H}.
(** the status register says after [n] polls that the machine woke up *)
Inductive wakes (f : Facp) : nat -> H -> H -> Prop :=
| wakes_now h h' s : read_pm1_status f h = Ret (s, h') -> Z.land s PM_STS_WAK <> 0 -> wakes f 0 h h'
| wakes_later n h h1 h' s : read_pm1_status f h = Ret (s, h1) -> Z.land s PM_STS_WAK = 0 -> wakes f n h1 h' -> wakes f (S n) h h'.
Lemma wait_wake_ends f n h h' fuel : wakes f n h h' -> (n < fuel)%nat -> wait_wake fuel f h = Ret (tt, h').
Proof.
  intros Hw. revert fuel. induction Hw as [h h' s Hr Hs|n h h1 h' s Hr Hs Hw IH]; intros [|fuel] Hf; try lia; cbn [wait_wake].
  - unfold mbind, ST_bind. rewrite Hr. by rewrite (proj2 (Z.eqb_neq _ 0)).
  - unfold mbind, ST_bind. rewrite Hr. rewrite Hs. cbn [Z.eqb]. apply IH. lia.
Qed.
Lemma read_u16_ret p h v : port_ok p = true -> io_in 2 p h = Ret (v, h) -> in_word 16 v -> read_u16 p 2 h = Ret (v, h).
Proof.
  intros Hp Hr Hv. unfold read_u16, access_io_read, mbind, ST_bind, lift. rewrite Hp. cbn [assert_that Z.eqb Pos.eqb]. rewrite Hr.
  unfold in_word in Hv. by rewrite (proj2 (Z.ltb_lt v (2 ^ 16))) by lia.
Qed.
Lemma write_u16_ret p h v : port_ok p = true -> v < 2 ^ 16 -> access_io_write p None 2 v h = io_out 2 p v h.
Proof.
  intros Hp Hv. unfold access_io_write, mbind, ST_bind, lift. rewrite Hp. cbn [assert_that Z.eqb Pos.eqb]. rewrite (proj2 (Z.ltb_lt v _)) by lia. cbn [assert_that].
  destruct (io_out 2 p v h) as [[[] h']| |]; done.
Qed.

(** what a sleep writes: the type into the second control register, if there
    is one, then the type and the bit that starts the sleep into the first *)
Definition sleep_writes (f : Facp) (va vb sa sb : Z) : ST H unit :=
  _ ← (if pm1b_control_block f =? 0 then mret tt else io_out 2 (pm1b_control_block f) (with_type vb sb));
  io_out 2 (pm1a_control_block f) (sleep_value va sa).
(** registers of two bytes that can be read without a change *)
Definition control_registers (f : Facp) (va vb : Z) (h : H) : Prop :=
  pm1_control_length f = 2 /\ port_ok (pm1a_control_block f) = true /\ io_in 2 (pm1a_control_block f) h = Ret (va, h) /\ in_word 16 va /\
  (pm1b_control_block f <> 0 -> port_ok (pm1b_control_block f) = true /\ io_in 2 (pm1b_control_block f) h = Ret (vb, h)) /\ in_word 16 vb.

Lemma sleep_ok fuel data f ty sa sb va vb h h1 h2 n : 1 <= ty <= 5 -> data !! Z.to_nat (ty - 1) = Some (Some [sa; sb]) ->
  0 <= sa < 8 -> 0 <= sb < 8 -> control_registers f va vb h -> sleep_writes f va vb sa sb h = Ret (tt, h1) -> wakes f n h1 h2 -> (n < fuel)%nat ->
  sleep fuel data (Some f) ty h = Ret (Ok tt, h2).
Proof.
  intros Hty Hd Hsa Hsb (Hl & Hpa & Hra & Hva & Hb & Hvb) Hw Hwk Hf. unfold sleep.
  rewrite (proj2 (Z.eqb_neq ty 0)), (proj2 (Z.ltb_ge 5 ty)) by lia. cbn [orb]. unfold mbind, ST_bind, lift. rewrite Hd. cbn [unwrap lookup list_lookup].
  unfold read_pm1_control_a. rewrite Hl, (read_u16_ret _ _ va) by done. unfold sleep_writes, sleep_value, mbind, ST_bind in Hw.
  unfold read_pm1_control_b, write_pm1_control_a, write_pm1_control_b. rewrite Hl. destruct (Z.eqb_spec (pm1b_control_block f) 0) as [Eb|Eb].
  - cbn [mret ST_ret] in *. rewrite write_u16_ret by (done || by apply (sleep_value_word va sa)). rewrite Hw. by rewrite (wait_wake_ends f n h1 h2).
  - destruct (Hb Eb) as [Hpb Hrb]. unfold mbind, ST_bind. rewrite (read_u16_ret _ _ vb) by done. cbn [mret ST_ret].
    rewrite write_u16_ret by (done || apply with_type_word; done). destruct (io_out 2 (pm1b_control_block f) (with_type vb sb) h) as [[[] h']| |]; try done.
    rewrite write_u16_ret by (done || by apply (sleep_value_word va sa)). rewrite Hw. by rewrite (wait_wake_ends f n h1 h2).
Qed.
End sleep.

(** ** The sleep types of the tables *)
(** the sleep packages of a program are constants *)
Definition sleep_constants (ds : list def) : Prop :=
  forall d i, d ∈ ds -> (i < 5)%nat -> cur_string (d_path d) = sleep_name i -> exists v, d_elem d = EName v /\ constant v = true.
Lemma sleep_segment i : (i < 5)%nat -> exists x, segment x /\ sleep_name i = cur_string [x].
Proof.
  intros Hi. exists [0x5F; 0x53; 0x31 + Z.of_nat i; 0x5F]. split; [|done]. apply AmlDemo.segment_intro.
  assert (Hc : name_char (0x31 + Z.of_nat i) = true) by (do 5 (destruct i as [|i]; [done|]); lia). by rewrite Hc.
Qed.
(** looking one up never stops the kernel *)
Lemma fetch_returns ts ds t i : namespace [] ts ds -> Represents (children (root (structured t))) ds -> sleep_constants ds -> (i < 5)%nat ->
  exists r, fetch_s_array t (sleep_name i) = Ret r.
Proof.
  intros Hn HR Hc Hi. destruct (sleep_segment i Hi) as (x & Hx & Ex). unfold fetch_s_array, execute. rewrite Ex.
  destruct (find_object_path (structured t) [x] ltac:(done) ltac:(by constructor)) as (r & Er & _). rewrite Er. cbn [mbind outcome_bind].
  assert (Hd : forall e, single e -> r = Ok (Some e) -> exists v, e = EName v /\ constant v = true).
  { intros e He ->. destruct (single_defined ts ds (structured t) [x] e) as (d & Hd & Hp & <-); [done|done|done|by constructor|done|done|].
    apply (Hc d i); [done|done|]. by rewrite Hp, Ex. }
  destruct r as [[e|]|]; [|by eexists..]. destruct e; try by eexists.
  - by destruct (Hd (EMethod m) eq_refl eq_refl) as (v & ? & _).
  - destruct (Hd (EName d) eq_refl eq_refl) as (v & [= <-] & Hcv). destruct (evaluate_constant d Hcv) as [o Eo]. rewrite Eo. by eexists.
Qed.
Lemma fill_spec t l : forall k, (forall i, (i < length l)%nat -> exists r, fetch_s_array t (sleep_name (k + i)) = Ret r) ->
  exists l', fill_slp t k l = Ret l' /\ length l' = length l /\
    forall i, l !! i = Some None -> exists r, fetch_s_array t (sleep_name (k + i)) = Ret r /\ l' !! i = Some r.
Proof.
  induction l as [|d l IH]; intros k Hf; [by exists []|]. destruct (IH (S k)) as (l' & El & Hl & Hi).
  { intros i Hi. replace (S k + i)%nat with (k + S i)%nat by lia. apply Hf. cbn. lia. }
  assert (exists d', (match d with Some d => Ret (Some d) | None => fetch_s_array t (sleep_name k) end) = Ret d') as [d' Ed].
  { destruct d; [by eexists|]. destruct (Hf 0%nat ltac:(cbn; lia)) as [r Er]. rewrite Nat.add_0_r in Er. by eexists. }
  exists (d' :: l'). cbn [fill_slp]. rewrite Ed, El. split_and!; [done|cbn; lia|]. intros [|i] E; cbn in E.
  - injection E as ->. exists d'. by rewrite Nat.add_0_r.
  - destruct (Hi i E) as (r & Er & E'). exists r. by replace (k + S i)%nat with (S k + i)%nat by lia.
Qed.

Lemma slp_data_found ts ds t d i n a b es x y : namespace [] ts ds -> Represents (children (root (structured t))) ds -> sleep_constants ds ->
  d ∈ ds -> (i < 5)%nat -> cur_string (d_path d) = sleep_name i ->
  d_elem d = EName (Package n (PeDataObject (Integer a) :: PeDataObject (Integer b) :: es)) ->
  as_u8 a = Some x -> as_u8 b = Some y -> is_byte x -> is_byte y ->
  exists data, slp_type_data [t] = Ret data /\ data !! i = Some (Some [Z.land x 7; Z.land y 7]).
Proof.
  intros Hn HR Hk Hd Hi Hp Hel Hx Hy Bx By. destruct (fill_spec t (replicate 5 None) 0) as (data & Ed & _ & Hdata).
  { intros j Hj. rewrite length_replicate in Hj. by apply (fetch_returns ts ds). }
  exists data. unfold slp_type_data. cbn [fill_tables]. rewrite Ed. split; [done|]. destruct (Hdata i) as (r & Er & ->); [by apply lookup_replicate_2|].
  assert (Hc : forallb constant_element es = true).
  { destruct (Hk d i Hd Hi Hp) as (v & Hv & Hcv). rewrite Hel in Hv. injection Hv as <-. exact Hcv. }
  cbn [Nat.add] in Er. rewrite (fetch_package ts ds t d i n a b es x y) in Er by done. by injection Er as <-.
Qed.

(** tables without code *)
Definition no_code (x : DescriptionHeader * Content) : Prop := match x.2 with Code _ _ _ => False | Fields _ => True end.
Lemma no_code_tables mem ptrs xs ts : Forall no_code xs -> Forall2 (holds_table mem) ptrs xs -> Forall2 table_is xs ts -> iter_xsdts ts = [].
Proof.
  intros Hn Hh Ht. revert ptrs Hn Hh. unfold iter_xsdts. induction Ht as [|x t xs ts [_ Hc] _ IH]; intros ptrs Hn Hh; [done|].
  apply Forall_cons in Hn as [Hx Hn]. inversion Hh as [|p ? ptrs' ? Hp Hh']; subst. cbn [omap list_omap]. unfold xsdt_table at 1.
  destruct x as [hd [b|]]; [|done]. destruct Hp as (raw & body & _ & Hs & _). cbn [snd content_is content_signature] in *. rewrite Hc.
  rewrite (IH ptrs' Hn Hh'). by destruct b.
Qed.


(** * ACPI: a machine

    Firmware memory with a table of tables, a FACP, the interrupt controllers
    and a DSDT, the ports of a machine that wakes up from its sleep, and the
    tables and registers on which the kernel stops. *)
Import AmlData Aml Tree Acpi Power.

Module AcpiDemo.
(** ** Memory *)
Definition raw_of (sig : bytes) (len check : Z) : bytes := sig ++ le 4 len ++ [1; check] ++ replicate 26 0.
(** a header whose checksum makes the table add up *)
Definition raw_for (sig body : bytes) : bytes :=
  let len := Z.of_nat (HEADER_BYTES + length body) in
  raw_of sig len (wrap 8 (256 - sum_bytes (raw_of sig len 0 ++ body))).
Fixpoint load_all (segs : list (Z * bytes)) (a : Z) : Z :=
  match segs with
  | [] => 0
  | (base, b) :: segs => if (base <=? a) && (a <? base + Z.of_nat (length b)) then nth (Z.to_nat (a - base)) b 0 else load_all segs a
  end.
Definition sig_RSDT : bytes := [0x52; 0x53; 0x44; 0x54].
Definition ptrs : list Z := [0x2000; 0; 0x4000].
Definition rsdt_body : bytes := concat (le 4 <$> ptrs).
(** the status at 0x600, the control registers at 0x604 and 0x608 and a second
    one of one byte at 0x60C, the DSDT at 0x3000 *)
Definition facp_values : list Z :=
  [0; 0x3000; 0; 0; 9; 0xB2; 2; 3; 0; 0; 0x600; 0; 0x604; 0x608; 0x60C; 0; 0; 0; 4; 2; 1] ++ replicate 78 0.
Definition facp_body : bytes := pack facp_widths facp_values.
Definition the_facp : Facp := facp_of facp_values.
Definition the_apic : Apic :=
  mkApic 0xFEE00000 1 [ProcessorLocalApicS (mkLocalApic 0 0 1); IoApicS (mkIoApic 1 0 0xFEC00000 0); InterruptSourceOverrideS (mkOverride 0 0 2 0);
                       LocalApicNmiS (mkLocalNmi 255 0 1); UnknownController 9 [1; 2]].
Definition apic_body : bytes := encode_apic the_apic.
Definition dsdt_body : bytes := SleepDemo.tree_code.
Definition segments : list (Z * bytes) :=
  Eval vm_compute in
  [(0x1000, raw_for sig_RSDT rsdt_body ++ rsdt_body); (0x2000, raw_for sig_FACP facp_body ++ facp_body);
   (0x3000, raw_for sig_DSDT dsdt_body ++ dsdt_body); (0x4000, raw_for sig_APIC apic_body ++ apic_body)].
Definition memory : Mem := load_all segments.
Definition the_rsdp : Rsdp := mkRsdp RSD_PTR 0 [0; 0; 0; 0; 0; 0] 0 0x1000 0 0 0 [0; 0; 0].
Definition raw_at (i : nat) : bytes := take 36 (snd (nth i segments (0, []))).
Definition header (i : nat) : DescriptionHeader := header_of (raw_at i).
Lemma rsdt_at : table_at memory 0x1000 (header 0) (raw_at 0) rsdt_body.
Proof. split_and!; by vm_compute. Qed.
Lemma facp_at : table_at memory 0x2000 (header 1) (raw_at 1) facp_body.
Proof. split_and!; by vm_compute. Qed.
Lemma dsdt_at : table_at memory 0x3000 (header 2) (raw_at 2) dsdt_body.
Proof. split_and!; by vm_compute. Qed.
Lemma apic_at : table_at memory 0x4000 (header 3) (raw_at 3) apic_body.
Proof. split_and!; by vm_compute. Qed.

Lemma apic_table_decodes_witness : Forall controller_fits (interrupt_controller_structs the_apic) /\ apic_from_body_bytes (encode_apic the_apic) = Ret the_apic.
Proof.
  assert (Hc : Forall controller_fits (interrupt_controller_structs the_apic)) by (repeat constructor; by vm_compute).
  split; [exact Hc|]. apply (apic_table_decodes the_apic); [by vm_compute|by vm_compute|exact Hc].
Defined.

(** ** The tables *)
Definition listed : list (DescriptionHeader * Content) := [(header 1, Fields (FacpT the_facp)); (header 3, Fields (ApicT the_apic))].
Lemma facp_laid_out : laid_out (raw_at 1 ++ facp_body) (facp_layout the_facp).
Proof. unfold laid_out. apply (bool_decide_unpack _). by vm_compute. Qed.
Lemma listed_held : Forall2 (holds_table memory) (filter (fun a => a <> 0) ptrs) listed.
Proof.
  change (filter (fun a => a <> 0) ptrs) with [0x2000; 0x4000]. constructor; [|constructor; [|constructor]].
  - exists (raw_at 1), facp_body. split; [exact facp_at|]. split; [reflexivity|]. split; [apply Nat.leb_le; reflexivity|exact facp_laid_out].
  - exists (raw_at 3), apic_body. split; [exact apic_at|]. split; [reflexivity|]. split_and!; [reflexivity|by vm_compute|by vm_compute|]. repeat constructor; by vm_compute.
Qed.
Lemma ptrs_fit : Forall (fits 4) ptrs.
Proof. repeat constructor; by vm_compute. Qed.
Definition the_code : Content := Code true SleepDemo.tree_terms SleepDemo.tree_defs.
Lemma code_held : holds_table memory 0x3000 (header 2, the_code).
Proof.
  exists (raw_at 2), dsdt_body. split; [exact dsdt_at|]. split; [reflexivity|]. destruct SleepDemo.tree_grammar as [s' Hg].
  split_and!; [by exists s'|exact SleepDemo.tree_namespace|exact SleepDemo.tree_agrees].
Qed.
Lemma code_pointed : pointed memory listed [(header 2, the_code)].
Proof. exists (header 2, the_code). split; [exact code_held|reflexivity]. Qed.
(** a root pointer of the first revision in the memory of the BIOS *)
Definition root_bytes : bytes := Eval vm_compute in
  let r check := [0x52; 0x53; 0x44; 0x20; 0x50; 0x54; 0x52; 0x20; check; 0; 0; 0; 0; 0; 0; 0] ++ le 4 0x1000 in
  r (wrap 8 (256 - sum_bytes (r 0))).
Definition bios : Mem := load_all [(0xE0000, root_bytes)].
Lemma root_in_bios : root_at bios None (mkRsdp RSD_PTR (nth 8 root_bytes 0) (replicate 6 0) 0 0x1000 0 0 0 [0; 0; 0]).
Proof.
  right. split; [done|]. exists 0xE0000. split; [lia|]. split; [split; by vm_compute|]. split; [by vm_compute|]. intros a Ha. lia.
Qed.

(** ** The ports of a machine *)
(** the values of its registers; the one that starts a sleep sets the bit of
    the status that says that the machine woke up *)
Definition Ports : Type := list (Z * Z).
Fixpoint port_value (h : Ports) (p : Z) : Z :=
  match h with [] => 0 | (q, v) :: h => if p =? q then v else port_value h p end.
#[export] Instance ports_io : PortIo Ports := {
  io_in n p := fun h => Ret (port_value h p, h);
  io_out n p v := fun h => Ret (tt, if (p =? 0x604) && negb (Z.land v PM_CTRL_SLP_EN =? 0) then (0x600, PM_STS_WAK) :: (p, v) :: h else (p, v) :: h)
}.
Definition awake : Ports := [(0x604, 0x0401); (0x608, 0x0001)].
Definition slept : Ports := [(0x600, PM_STS_WAK); (0x604, 0x3401); (0x608, 0x1401)] ++ awake.
Lemma tree_constants : sleep_constants SleepDemo.tree_defs.
Proof.
  intros d i Hd Hi Hp. apply list_elem_of_In in Hd. destruct Hd as [<-|[<-|[<-|[<-|[<-|[<-|[]]]]]]]; [by eexists|..]; exfalso; revert Hp; do 5 (destruct i as [|i]; [by vm_compute|]); lia.
Qed.
(** the firmware has enabled ACPI already *)
Definition assigned (irq : Z) (h : Ports) : bool := irq =? 9.
Definition assign (irq : Z) : ST Ports unit := panic.

(** ** Where the kernel stops *)
(** a table that is longer than the structure of the kernel: firmware of a
    later revision *)
Lemma longer_table_panics : table_of hpet_widths hpet_of (replicate 21 0) = Panic.
Proof. reflexivity. Qed.
(** an entry of two bytes less than its type has *)
Lemma short_entry_panics : apic_from_body_bytes (le 4 0 ++ le 4 0 ++ [0; 6; 0; 0; 0; 0]) = Panic.
Proof. reflexivity. Qed.
(** an entry whose length is zero: the length covers its own two bytes *)
Lemma zero_length_entry_panics : apic_from_body_bytes (le 4 0 ++ le 4 0 ++ [9; 0; 0; 0]) = Panic.
Proof. reflexivity. Qed.
(** the second control register has one byte, which no access can handle *)
Lemma pm2_byte_panics : read_pm2_control the_facp awake = Panic.
Proof. reflexivity. Qed.
(** and one of two bytes is written twice: the register is its own alternative *)
Lemma pm2_written_twice :
  write_pm2_control (facp_of ([0; 0; 0; 0; 9; 0xB2; 2; 3; 0; 0; 0x600; 0; 0x604; 0x608; 0x60C; 0; 0; 0; 4; 2; 2] ++ replicate 78 0)) 7 awake
  = Ret (Some tt, [(0x60C, 7); (0x60C, 7)] ++ awake).
Proof. reflexivity. Qed.
End AcpiDemo.
