(* ===== verification/Cmdline.v ===== *)
(** * The kernel's command line

    Models [kernel/src/cmdline.rs], [cmdline/tokenizer.rs] and
    [cmdline/parser.rs]: the tokenizer over the text the boot loader passes,
    the parsers of the values, and the loop that the macro [cmdline_struct]
    ([cmdline/macros.rs]) generates for [Cmd].  A [str] is the list of its
    characters, a character its code point; the classes of characters beyond
    ASCII are those of the Unicode tables, an argument here. *)
From S2P Require Import Prelude UserLink FsTypes Path FatDir.

(** the Unicode classes of characters beyond ASCII *)
Class Unicode : Type := {
  unicode_alphanumeric : Z -> bool;
  unicode_whitespace : Z -> bool
}.
(** no character is of both classes *)
Class UnicodeLaws `{Unicode} : Prop :=
  classes_disjoint : forall c, unicode_alphanumeric c = true -> unicode_whitespace c = false.

Module Cmdline.
Definition str : Type := list Z.
Section cmdline.
Context `{Unicode}.

Definition is_alphanumeric (c : Z) : bool :=
  if c <? 128 then (48 <=? c) && (c <=? 57) || (65 <=? c) && (c <=? 90) || (97 <=? c) && (c <=? 122) else unicode_alphanumeric c.
Definition is_whitespace (c : Z) : bool :=
  if c <? 128 then (9 <=? c) && (c <=? 13) || (c =? 32) else unicode_whitespace c.
Definition utf8_len (c : Z) : Z := Z.of_nat (length (Text.encode_char c)).
Definition len (s : str) : Z := foldr (fun c n => utf8_len c + n) 0 s.
(** [find] and [split_at]: the characters before the first one of a kind *)
Fixpoint split_find (p : Z -> bool) (s : str) : option (str * str) :=
  match s with
  | [] => None
  | c :: s' => if p c then Some ([], s) else (fun r => (c :: fst r, snd r)) <$> split_find p s'
  end.
Definition strip_prefix (p : Z -> bool) (s : str) : option str :=
  match s with c :: s => if p c then Some s else None | [] => None end.
Fixpoint trim_start_matches (p : Z -> bool) (s : str) : str :=
  match s with c :: s' => if p c then trim_start_matches p s' else s | [] => [] end.
Definition trim_start (s : str) : str := trim_start_matches is_whitespace s.
Definition trim_end (s : str) : str := rev (trim_start_matches is_whitespace (rev s)).

(** ** [tokenizer.rs] *)
Record Tokenizer : Type := mkTokenizer { running_str : str; idx : Z }.
Definition new (inp : str) : Tokenizer := mkTokenizer inp 0.
Definition next_token (find_pattern starts_with_pattern strip_pattern : Z -> bool) : ST Tokenizer (option (Z * str)) := fun self =>
  if bool_decide (running_str self = []) then Ret (None, self) else
  match split_find find_pattern (running_str self) with
  | None => Ret (None, self)
  | Some (value, rest) =>
      let i := len value in
      if bool_decide (value = []) then Ret (None, self) else
      let rest_len := len rest in
      match strip_prefix starts_with_pattern rest with
      | None => Ret (None, self)
      | Some stripped =>
          let running := trim_start_matches strip_pattern stripped in
          let old_value_len := len value in
          let value := trim_start value in
          leading_whitespace_size ← csub (len value) old_value_len;
          taken ← csub rest_len (len running);
          Ret (Some (idx self + leading_whitespace_size, trim_end value), mkTokenizer running (idx self + (i + taken)))
      end
  end.
Definition COMMA : Z := 44.
Definition EQUALS : Z := 61.
Definition UNDERSCORE : Z := 95.
Definition ident_end (c : Z) : bool := negb (is_alphanumeric c) && negb (c =? COMMA) && negb (c =? UNDERSCORE).
Definition separator (c : Z) : bool := is_whitespace c || (c =? COMMA).
Definition value_end (c : Z) : bool := is_whitespace c || (c =? COMMA) || (c =? EQUALS).
Definition next_ident : ST Tokenizer (option (Z * str)) := next_token ident_end (fun c => c =? EQUALS) is_whitespace.
(** the closure of [or_else]: all that is left *)
Definition take_rest : ST Tokenizer (option (Z * str)) := fun self =>
  let rest := running_str self in
  Ret (Some (idx self, rest), mkTokenizer [] (idx self + len rest)).
Definition next_value : ST Tokenizer (option (Z * str)) :=
  r ← next_token value_end separator separator;
  match r with Some v => mret (Some v) | None => take_rest end.

(** ** [parser.rs] *)
Inductive IntErrorKind : Type := Empty | InvalidDigit | PosOverflow.
Inductive ParseErrorKind : Type :=
| Unexpected (need : str) (got : option str)
| ParseIntError (e : IntErrorKind)
| UnexpectedId (id : str).
Record ParseError : Type := mkError { kind : ParseErrorKind; loc : Z }.
Class CmdlineParse (A : Type) : Type := parse_value : ST Tokenizer (result A ParseError).

(** the value that follows, or the error when there is none *)
Definition with_value {A} (need : str) (k : Z -> str -> result A ParseError) : ST Tokenizer (result A ParseError) :=
  v ← next_value;
  match v with
  | Some (loc, value) => mret (k loc value)
  | None => self ← get; mret (Err (mkError (Unexpected need None) (idx self)))
  end.
Definition one_of {A} (need : str) (words : list (str * A)) : ST Tokenizer (result A ParseError) :=
  with_value need (fun loc value =>
    match list_find (fun w => fst w = value) words with
    | Some (_, (_, a)) => Ok a
    | None => Err (mkError (Unexpected need (Some value)) loc)
    end).

Definition t_true : str := [116; 114; 117; 101].
Definition t_false : str := [102; 97; 108; 115; 101].
Definition TRUE_FALSE : str := t_true ++ [47] ++ t_false.
Definition parse_bool : CmdlineParse bool := one_of TRUE_FALSE [(t_true, true); (t_false, false)].
#[export] Existing Instance parse_bool.

(** [u32::from_str] *)
Definition to_digit (c : Z) : option Z := if (48 <=? c) && (c <=? 57) then Some (c - 48) else None.
Fixpoint parse_digits (s : str) (result_ : Z) : result Z IntErrorKind :=
  match s with
  | [] => Ok result_
  | c :: s =>
      match to_digit c with
      | None => Err InvalidDigit
      | Some x =>
          if 2 ^ 32 <=? result_ * 10 then Err PosOverflow
          else if 2 ^ 32 <=? result_ * 10 + x then Err PosOverflow
          else parse_digits s (result_ * 10 + x)
      end
  end.
Definition PLUS : Z := 43.
Definition MINUS : Z := 45.
Definition u32_from_str (s : str) : result Z IntErrorKind :=
  match s with
  | [] => Err Empty
  | [c] => if (c =? PLUS) || (c =? MINUS) then Err InvalidDigit else parse_digits s 0
  | c :: s' => if c =? PLUS then parse_digits s' 0 else parse_digits s 0
  end.
Definition NUMBER : str := [60; 110; 117; 109; 98; 101; 114; 62].
Definition parse_u32 : CmdlineParse Z :=
  with_value NUMBER (fun loc value => match u32_from_str value with Ok v => Ok v | Err e => Err (mkError (ParseIntError e) loc) end).
#[export] Existing Instance parse_u32.
Definition STR : str := [60; 115; 116; 114; 62].
Definition parse_str : CmdlineParse str := with_value STR (fun _ value => Ok value).
#[export] Existing Instance parse_str.

(** ** [cmdline.rs] *)
Inductive LogLevel : Type := Trace | Debug | Info | Warn | Error.
Inductive LogAml : Type := Off | Normal | Structured.
Definition t_trace : str := [116; 114; 97; 99; 101].
Definition t_debug : str := [100; 101; 98; 117; 103].
Definition t_info : str := [105; 110; 102; 111].
Definition t_warn : str := [119; 97; 114; 110].
Definition t_error : str := [101; 114; 114; 111; 114].
Definition LEVELS : str := t_trace ++ [47] ++ t_debug ++ [47] ++ t_info ++ [47] ++ t_warn ++ [47] ++ t_error.
Definition parse_level : CmdlineParse LogLevel :=
  one_of LEVELS [(t_trace, Trace); (t_debug, Debug); (t_info, Info); (t_warn, Warn); (t_error, Error)].
#[export] Existing Instance parse_level.
Definition t_off : str := [111; 102; 102].
Definition t_normal : str := [110; 111; 114; 109; 97; 108].
Definition t_structured : str := [115; 116; 114; 117; 99; 116; 117; 114; 101; 100].
Definition MODES : str := t_off ++ [47] ++ t_normal ++ [47] ++ t_structured.
Definition parse_aml_mode : CmdlineParse LogAml := one_of MODES [(t_off, Off); (t_normal, Normal); (t_structured, Structured)].
#[export] Existing Instance parse_aml_mode.

Record Cmd : Type := mkCmd {
  uart : bool; uart_baud : Z; max_log_level : LogLevel; log_file : str; allow_hpet : bool; log_aml : LogAml
}.
Definition KERNEL_LOG : str := [47; 107; 101; 114; 110; 101; 108; 46; 108; 111; 103].
Definition default_cmdline : Cmd := mkCmd true 115200 Info KERNEL_LOG true Off.

Definition n_uart : str := [117; 97; 114; 116].
Definition n_uart_baud : str := n_uart ++ [95; 98; 97; 117; 100].
Definition n_max_log_level : str := [109; 97; 120; 95; 108; 111; 103; 95; 108; 101; 118; 101; 108].
Definition n_log_file : str := [108; 111; 103; 95; 102; 105; 108; 101].
Definition n_allow_hpet : str := [97; 108; 108; 111; 119; 95; 104; 112; 101; 116].
Definition n_log_aml : str := [108; 111; 103; 95; 97; 109; 108].
(** the arm of [match ident] for a field: parse its value and assign it *)
Definition field {A} `{CmdlineParse A} (set : A -> Cmd -> Cmd) (c : Cmd) : ST Tokenizer (result Cmd ParseError) :=
  r ← parse_value;
  mret (match r with Ok v => Ok (set v c) | Err e => Err e end).
Definition parse_field (i : Z) (ident : str) (c : Cmd) : ST Tokenizer (result Cmd ParseError) :=
  if bool_decide (ident = n_uart) then field (fun v c => mkCmd v (uart_baud c) (max_log_level c) (log_file c) (allow_hpet c) (log_aml c)) c
  else if bool_decide (ident = n_uart_baud) then field (fun v c => mkCmd (uart c) v (max_log_level c) (log_file c) (allow_hpet c) (log_aml c)) c
  else if bool_decide (ident = n_max_log_level) then field (fun v c => mkCmd (uart c) (uart_baud c) v (log_file c) (allow_hpet c) (log_aml c)) c
  else if bool_decide (ident = n_log_file) then field (fun v c => mkCmd (uart c) (uart_baud c) (max_log_level c) v (allow_hpet c) (log_aml c)) c
  else if bool_decide (ident = n_allow_hpet) then field (fun v c => mkCmd (uart c) (uart_baud c) (max_log_level c) (log_file c) v (log_aml c)) c
  else if bool_decide (ident = n_log_aml) then field (fun v c => mkCmd (uart c) (uart_baud c) (max_log_level c) (log_file c) (allow_hpet c) v) c
  else mret (Err (mkError (UnexpectedId ident) i)).
(** the [while let] loop *)
Fixpoint parse_loop (fuel : nat) (c : Cmd) : ST Tokenizer (result Cmd ParseError) :=
  match fuel with
  | O => diverge
  | S fuel =>
      t ← next_ident;
      match t with
      | None => mret (Ok c)
      | Some (i, ident) => c ←? parse_field i ident c; parse_loop fuel c
      end
  end.
(** an identifier has one character at least *)
Definition parse_cmdline (inp : str) : outcome (result Cmd ParseError) :=
  r ← parse_loop (S (length inp)) default_cmdline (new inp);
  Ret (fst r).
(** [init]: what the kernel uses; errors are printed later *)
Definition init (cmdline : option str) : outcome Cmd :=
  match cmdline with
  | None => Ret default_cmdline
  | Some inp => r ← parse_cmdline inp; Ret (match r with Ok c => c | Err _ => default_cmdline end)
  end.
End cmdline.
End Cmdline.

(** * The command line: what is parsed

    A command line that is a list of settings gives exactly these settings;
    any other text ends with the settings before it or with an error at the
    right place, and never stops the kernel. *)
Import Cmdline.

Section spec.
Context `{Unicode}.

(** ** The tokenizer *)
Lemma split_find_app p v c rest : Forall (fun x => p x = false) v -> p c = true -> split_find p (v ++ c :: rest) = Some (v, c :: rest).
Proof. intros Hv Hc. induction Hv as [|x v Hx _ IH]; cbn; [by rewrite Hc|]. by rewrite Hx, IH. Qed.
Lemma split_find_none p s : Forall (fun x => p x = false) s -> split_find p s = None.
Proof. induction 1 as [|x s Hx _ IH]; cbn; [done|]. by rewrite Hx, IH. Qed.
Lemma split_find_inv p s v rest : split_find p s = Some (v, rest) ->
  s = v ++ rest /\ Forall (fun x => p x = false) v /\ exists c rest', rest = c :: rest' /\ p c = true.
Proof.
  revert v rest. induction s as [|x s IH]; intros v rest E; cbn in E; [done|]. destruct (p x) eqn:Ex.
  - injection E as <- <-. split_and!; [done|done|by eexists _, _].
  - destruct (split_find p s) as [[v' r']|]; [|done]. injection E as <- <-. destruct (IH v' r' eq_refl) as (-> & Hv & Hr).
    split_and!; [done|by constructor|done].
Qed.
Lemma trim_none p s : Forall (fun x => p x = false) s -> trim_start_matches p s = s.
Proof. destruct 1 as [|x s Hx _]; cbn; [done|]. by rewrite Hx. Qed.
Lemma trim_end_none s : Forall (fun x => is_whitespace x = false) s -> trim_end s = s.
Proof. intros Hs. unfold trim_end. rewrite trim_none by by apply Forall_rev. apply rev_involutive. Qed.
Lemma trim_app p l s : Forall (fun x => p x = true) l -> match s with x :: _ => p x = false | [] => True end -> trim_start_matches p (l ++ s) = s.
Proof. intros Hl Hs. induction Hl as [|x l Hx _ IH]; cbn; [|by rewrite Hx]. destruct s as [|y s]; cbn; [done|]. by rewrite Hs. Qed.
Lemma trim_split p s : exists l, s = l ++ trim_start_matches p s.
Proof. induction s as [|x s [l IH]]; [by exists []|]. cbn. destruct (p x); [|by exists []]. exists (x :: l). cbn. by rewrite <- IH. Qed.
Lemma utf8_len_pos c : 0 <= utf8_len c.
Proof. unfold utf8_len. lia. Qed.
Lemma len_app a b : len (a ++ b) = len a + len b.
Proof. induction a as [|x a IH]; cbn [app len foldr]; [done|]. fold (len (a ++ b)) (len a). lia. Qed.
Lemma len_pos s : 0 <= len s.
Proof. induction s as [|x s IH]; cbn [len foldr]; [done|]. fold (len s). pose proof (utf8_len_pos x). lia. Qed.

Section token.
Context (find_p start_p strip_p : Z -> bool).
(** a token is the text up to the mark *)
Lemma next_token_some v c rest i : v <> [] -> Forall (fun x => find_p x = false) v -> Forall (fun x => is_whitespace x = false) v ->
  find_p c = true -> start_p c = true ->
  next_token find_p start_p strip_p (mkTokenizer (v ++ c :: rest) i) =
  Ret (Some (i, v), mkTokenizer (trim_start_matches strip_p rest) (i + (len (v ++ c :: rest) - len (trim_start_matches strip_p rest)))).
Proof.
  intros Hv Hf Hw Hc Hs. unfold next_token. cbn [running_str idx]. rewrite bool_decide_eq_false_2 by by destruct v.
  rewrite (split_find_app _ _ _ _ Hf Hc). rewrite bool_decide_eq_false_2 by done. cbn [strip_prefix]. rewrite Hs.
  unfold trim_start. rewrite trim_none by done. rewrite (csub_ret (len v)) by lia. cbn [mbind outcome_bind]. rewrite trim_end_none by exact Hw.
  destruct (trim_split strip_p rest) as [l El]. rewrite csub_ret.
  - cbn [mbind outcome_bind]. rewrite len_app. do 3 f_equal; [f_equal|]; lia.
  - change (c :: rest) with ([c] ++ rest). rewrite len_app. rewrite El at 2. rewrite len_app. pose proof (len_pos [c]). pose proof (len_pos l). lia.
Qed.
Lemma next_token_none s i : Forall (fun x => find_p x = false) s -> next_token find_p start_p strip_p (mkTokenizer s i) = Ret (None, mkTokenizer s i).
Proof. intros Hs. unfold next_token. cbn [running_str]. rewrite split_find_none by done. by destruct (bool_decide _). Qed.
(** what it can return *)
Lemma next_token_cases t : (forall c, find_p c = false -> is_whitespace c = false) ->
  next_token find_p start_p strip_p t = Ret (None, t) \/
  exists v c rest, v <> [] /\ running_str t = v ++ c :: rest /\ Forall (fun x => find_p x = false) v /\ start_p c = true /\
    next_token find_p start_p strip_p t =
    Ret (Some (idx t, v), mkTokenizer (trim_start_matches strip_p rest) (idx t + (len (v ++ c :: rest) - len (trim_start_matches strip_p rest)))).
Proof.
  intros Hfw. destruct t as [s i]. cbn [running_str idx]. destruct (split_find find_p s) as [[v rest]|] eqn:E.
  - destruct (split_find_inv _ _ _ _ E) as (-> & Hv & c & rest' & -> & Hc). destruct (decide (v = [])) as [->|Hne].
    + left. unfold next_token. cbn [running_str app]. cbn [app] in E. rewrite E. by destruct (bool_decide _).
    + destruct (start_p c) eqn:Es.
      * right. exists v, c, rest'. split_and!; [done|done|done|done|]. apply next_token_some; try done. eapply Forall_impl; [exact Hv|]. done.
      * left. unfold next_token. cbn [running_str]. rewrite E. cbn [strip_prefix]. rewrite Es. by repeat destruct (bool_decide _).
  - left. unfold next_token. cbn [running_str]. rewrite E. by destruct (bool_decide _).
Qed.
End token.

(** ** Settings *)
Inductive setting : Type :=
| SUart (b : bool) | SUartBaud (n : Z) | SMaxLogLevel (l : LogLevel) | SLogFile (f : str) | SAllowHpet (b : bool) | SLogAml (m : LogAml).
Definition name_of (x : setting) : str :=
  match x with
  | SUart _ => n_uart | SUartBaud _ => n_uart_baud | SMaxLogLevel _ => n_max_log_level | SLogFile _ => n_log_file
  | SAllowHpet _ => n_allow_hpet | SLogAml _ => n_log_aml
  end.
Definition text_bool (b : bool) : str := if b then t_true else t_false.
Definition text_of (x : setting) : str :=
  match x with
  | SUart b | SAllowHpet b => text_bool b
  | SUartBaud n => Text.format_u32 n
  | SMaxLogLevel l => match l with Trace => t_trace | Debug => t_debug | Info => t_info | Warn => t_warn | Error => t_error end
  | SLogFile f => f
  | SLogAml m => match m with Off => t_off | Normal => t_normal | Structured => t_structured end
  end.
(** the value of a setting is a word *)
Definition setting_ok (x : setting) : Prop :=
  match x with
  | SUartBaud n => 0 <= n < 2 ^ 32
  | SLogFile f => f <> [] /\ Forall (fun c => value_end c = false) f
  | _ => True
  end.
Definition apply_setting (c : Cmd) (x : setting) : Cmd :=
  match x with
  | SUart v => mkCmd v (uart_baud c) (max_log_level c) (log_file c) (allow_hpet c) (log_aml c)
  | SUartBaud v => mkCmd (uart c) v (max_log_level c) (log_file c) (allow_hpet c) (log_aml c)
  | SMaxLogLevel v => mkCmd (uart c) (uart_baud c) v (log_file c) (allow_hpet c) (log_aml c)
  | SLogFile v => mkCmd (uart c) (uart_baud c) (max_log_level c) v (allow_hpet c) (log_aml c)
  | SAllowHpet v => mkCmd (uart c) (uart_baud c) (max_log_level c) (log_file c) v (log_aml c)
  | SLogAml v => mkCmd (uart c) (uart_baud c) (max_log_level c) (log_file c) (allow_hpet c) v
  end.
(** the text of a list of settings: blanks may follow the equals sign, blanks
    and commas separate *)
Inductive command_line : list setting -> str -> Prop :=
| line_end : command_line [] []
| line_last x ws : setting_ok x -> Forall (fun c => is_whitespace c = true) ws -> command_line [x] (name_of x ++ EQUALS :: ws ++ text_of x)
| line_more x ws sep xs s : setting_ok x -> Forall (fun c => is_whitespace c = true) ws -> sep <> [] -> Forall (fun c => separator c = true) sep ->
    command_line xs s -> command_line (x :: xs) (name_of x ++ EQUALS :: ws ++ text_of x ++ sep ++ s).

Lemma digits_chars fuel : forall n acc, 0 <= n -> Forall (fun c => 48 <= c <= 57) acc -> Forall (fun c => 48 <= c <= 57) (Text.digits fuel n acc).
Proof.
  induction fuel as [|fuel IH]; intros n acc Hn Ha; cbn [Text.digits]; [done|]. pose proof (Z.mod_pos_bound n 10).
  assert (Forall (fun c => 48 <= c <= 57) (48 + n mod 10 :: acc)) by (constructor; [lia|done]). destruct (n <? 10); [done|].
  apply IH; [apply Z.div_pos; lia|done].
Qed.
Lemma parse_digit d s n : 0 <= d <= 9 -> 0 <= n -> n * 10 + d < 2 ^ 32 -> parse_digits (48 + d :: s) n = parse_digits s (n * 10 + d).
Proof.
  intros Hd H0 Hn. cbn [parse_digits]. unfold to_digit. rewrite (proj2 (Z.leb_le 48 _)), (proj2 (Z.leb_le _ 57)) by lia. cbn [andb].
  replace (48 + d - 48) with d by lia. by rewrite (proj2 (Z.leb_gt _ (n * 10))), (proj2 (Z.leb_gt _ (n * 10 + d))) by lia.
Qed.
Lemma digits_S fuel n acc : Text.digits (S fuel) n acc = if n <? 10 then 48 + n mod 10 :: acc else Text.digits fuel (n / 10) (48 + n mod 10 :: acc).
Proof. done. Qed.
Lemma parse_format fuel : forall n acc, 0 <= n < 10 ^ Z.of_nat (S fuel) -> n < 2 ^ 32 -> parse_digits (Text.digits (S fuel) n acc) 0 = parse_digits acc n.
Proof.
  induction fuel as [|fuel IH]; intros n acc Hn Hm; rewrite digits_S; destruct (Z.ltb_spec n 10) as [Hl|Hl].
  1,3: rewrite parse_digit by (rewrite ?Z.mod_small by lia; lia); f_equal; rewrite Z.mod_small by lia; lia.
  - change (10 ^ Z.of_nat 1) with 10 in Hn. lia.
  - rewrite IH.
    + pose proof (Z.mod_pos_bound n 10). rewrite parse_digit; [|lia|apply Z.div_pos; lia|]; pose proof (Z.div_mod n 10); [f_equal|]; lia.
    + split; [apply Z.div_pos; lia|]. apply Z.div_lt_upper_bound; [lia|]. rewrite (Nat2Z.inj_succ (S fuel)), Z.pow_succ_r in Hn by lia. lia.
    + apply Z.div_lt_upper_bound; lia.
Qed.
Lemma u32_of_digits s : Forall (fun c => 48 <= c <= 57) s -> s <> [] -> u32_from_str s = parse_digits s 0.
Proof.
  intros Hs Hn. destruct s as [|c [|d s]]; [done|..]; apply Forall_cons in Hs as [Hc _]; unfold u32_from_str, PLUS, MINUS;
    rewrite ?(proj2 (Z.eqb_neq c 43)), ?(proj2 (Z.eqb_neq c 45)) by lia; done.
Qed.
Lemma parse_format_u32 n : 0 <= n < 2 ^ 32 -> u32_from_str (Text.format_u32 n) = Ok n.
Proof.
  intros Hn. unfold Text.format_u32. rewrite u32_of_digits.
  - by rewrite parse_format by (change (10 ^ Z.of_nat 10) with 10000000000; lia).
  - apply digits_chars; [lia|done].
  - intros E. pose proof (parse_format 9 n [] ltac:(change (10 ^ Z.of_nat 10) with 10000000000; lia) ltac:(lia)) as P. rewrite E in P.
    cbn in P. injection P as P. subst n. by vm_compute in E.
Qed.

Lemma digit_not_end c : 48 <= c <= 57 -> value_end c = false.
Proof.
  intros Hc. unfold value_end, is_whitespace, COMMA, EQUALS. rewrite (proj2 (Z.ltb_lt c 128)), (proj2 (Z.eqb_neq c 44)), (proj2 (Z.eqb_neq c 61)), (proj2 (Z.eqb_neq c 32)), (proj2 (Z.leb_gt c 13)) by lia.
  by rewrite andb_false_r.
Qed.
Lemma text_word x : setting_ok x -> text_of x <> [] /\ Forall (fun c => value_end c = false) (text_of x).
Proof.
  intros Hx. destruct x as [b|n|l|f|b|m]; cbn [text_of setting_ok] in *; [by destruct b; (split; [|repeat constructor])| |by destruct l; (split; [|repeat constructor])|done|by destruct b; (split; [|repeat constructor])|by destruct m; (split; [|repeat constructor])].
  split.
  - intros E. pose proof (parse_format_u32 n Hx) as P. by rewrite E in P.
  - eapply Forall_impl; [|apply digit_not_end]. apply digits_chars; [lia|done].
Qed.
Lemma name_word x : name_of x <> [] /\ Forall (fun c => ident_end c = false /\ is_whitespace c = false) (name_of x) /\
  match name_of x with c :: _ => separator c = false | [] => False end.
Proof. destruct x; (split_and!; [done|repeat constructor; by vm_compute|by vm_compute]). Qed.

Lemma value_not_space c : value_end c = false -> is_whitespace c = false.
Proof. unfold value_end. by destruct (is_whitespace c). Qed.
Lemma separator_ends c : separator c = true -> value_end c = true.
Proof. unfold separator, value_end. intros ->. done. Qed.
Lemma next_value_word v c rest i : v <> [] -> Forall (fun c => value_end c = false) v -> separator c = true ->
  exists i', next_value (mkTokenizer (v ++ c :: rest) i) = Ret (Some (i, v), mkTokenizer (trim_start_matches separator rest) i').
Proof.
  intros Hv Hw Hc. eexists. unfold next_value, mbind, ST_bind. rewrite next_token_some; [done|done|done| |by apply separator_ends|done].
  eapply Forall_impl; [exact Hw|]. apply value_not_space.
Qed.
Lemma next_value_last v i : Forall (fun c => value_end c = false) v -> exists i', next_value (mkTokenizer v i) = Ret (Some (i, v), mkTokenizer [] i').
Proof. intros Hv. eexists. unfold next_value, mbind, ST_bind. rewrite next_token_none by done. reflexivity. Qed.

Ltac name_test := first [rewrite bool_decide_eq_true_2 by done | rewrite bool_decide_eq_false_2 by discriminate].
(** the arm of a setting reads its value *)
Lemma field_reads x c t t' i j : setting_ok x -> next_value t = Ret (Some (i, text_of x), t') -> parse_field j (name_of x) c t = Ret (Ok (apply_setting c x), t').
Proof.
  intros Hx E. destruct x as [b|n|l|f|b|m]; cbn [name_of text_of apply_setting setting_ok] in *; unfold parse_field; repeat name_test;
    unfold field, parse_value, parse_bool, parse_u32, parse_level, parse_str, parse_aml_mode, one_of, with_value, mbind, ST_bind; rewrite E; cbn [mret ST_ret].
  - by destruct b.
  - by rewrite parse_format_u32.
  - by destruct l.
  - done.
  - by destruct b.
  - by destruct m.
Qed.
Lemma next_ident_name x rest i : exists i', next_ident (mkTokenizer (name_of x ++ EQUALS :: rest) i) = Ret (Some (i, name_of x), mkTokenizer (trim_start_matches is_whitespace rest) i').
Proof.
  destruct (name_word x) as (Hn & Hf & _). eexists. unfold next_ident. apply next_token_some; [done| | |done|done]; (eapply Forall_impl; [exact Hf|]; by intros ? []).
Qed.
Lemma line_start xs s : command_line xs s -> match s with c :: _ => separator c = false | [] => True end.
Proof.
  destruct 1 as [|x ws Hx Hw|x ws sep xs s Hx Hw Hn Hs Hl]; [done|..]; destruct (name_word x) as (_ & _ & Hh); by destruct (name_of x).
Qed.
Lemma text_start x rest : setting_ok x -> match text_of x ++ rest with c :: _ => is_whitespace c = false | [] => True end.
Proof. intros Hx. destruct (text_word x Hx) as [Hn Hw]. destruct (text_of x) as [|c s]; [done|]. apply Forall_cons in Hw as [Hc _]. by apply value_not_space. Qed.

Lemma next_ident_end i : next_ident (mkTokenizer [] i) = Ret (None, mkTokenizer [] i).
Proof. done. Qed.
(** the loop reads the settings one after the other *)
Lemma loop_reads xs s : command_line xs s -> forall fuel c i, (length xs < fuel)%nat ->
  exists t, parse_loop fuel c (mkTokenizer s i) = Ret (Ok (foldl apply_setting c xs), t).
Proof.
  induction 1 as [|x ws Hx Hw|x ws sep xs s Hx Hw Hn Hs Hl IH]; intros [|fuel] c i Hf; cbn [length] in Hf; try lia; cbn [parse_loop foldl].
  - eexists. unfold mbind, ST_bind. by rewrite next_ident_end.
  - destruct (next_ident_name x (ws ++ text_of x) i) as [i1 E1]. unfold mbind, ST_bind, ebind. rewrite E1. rewrite trim_app; [|done|].
    + destruct (text_word x Hx) as [_ Hword]. destruct (next_value_last (text_of x) i1 Hword) as [i2 E2].
      unfold mbind, ST_bind. rewrite (field_reads x c _ _ _ i Hx E2). destruct fuel as [|fuel]; [lia|]. cbn [parse_loop]. unfold mbind, ST_bind.
      rewrite next_ident_end. by eexists.
    + rewrite <- (app_nil_r (text_of x)). by apply text_start.
  - destruct (next_ident_name x (ws ++ text_of x ++ sep ++ s) i) as [i1 E1]. unfold mbind, ST_bind, ebind. rewrite E1. rewrite trim_app; [|done|by apply text_start].
    destruct sep as [|d sep]; [done|]. apply Forall_cons in Hs as [Hd Hs]. destruct (text_word x Hx) as [Hne Hword].
    destruct (next_value_word (text_of x) d (sep ++ s) i1 Hne Hword Hd) as [i2 E2]. cbn [app].
    unfold mbind, ST_bind. rewrite (field_reads x c _ _ _ i Hx E2). rewrite trim_app by (done || by eapply line_start). apply IH. lia.
Qed.
Lemma line_length xs s : command_line xs s -> (length xs <= length s)%nat.
Proof.
  induction 1 as [|x ws Hx Hw|x ws sep xs s Hx Hw Hn Hs Hl IH]; cbn [length]; rewrite ?length_app; cbn [length]; rewrite ?length_app; lia.
Qed.
End spec.

(** The kernel runs with the settings of its command line: a text that is a
    list of settings, in any order and separated by blanks and commas, gives
    the defaults with these settings applied one after the other, the last one
    winning where a name is repeated. *)
Theorem command_line_applied `{Unicode} xs s : command_line xs s ->
  parse_cmdline s = Ret (Ok (foldl apply_setting default_cmdline xs)) /\ init (Some s) = Ret (foldl apply_setting default_cmdline xs).
Proof.
  intros Hl. assert (E : parse_cmdline s = Ret (Ok (foldl apply_setting default_cmdline xs))).
  { unfold parse_cmdline, new. destruct (loop_reads xs s Hl (S (length s)) default_cmdline 0) as [t E]; [pose proof (line_length _ _ Hl); lia|]. by rewrite E. }
  split; [done|]. unfold init. by rewrite E.
Qed.

(** ** Any text *)
Section any.
Context `{UnicodeLaws}.
(** the tokenizer stands at a place of the text and knows its offset *)
Definition at_place (s : str) (t : Tokenizer) : Prop := exists pre, s = pre ++ running_str t /\ idx t = len pre.
Definition moved (s : str) (t t' : Tokenizer) : Prop := at_place s t' /\ (length (running_str t') <= length (running_str t))%nat.
Lemma token_moves s t strip_p v c rest : at_place s t -> running_str t = v ++ c :: rest ->
  let t' := mkTokenizer (trim_start_matches strip_p rest) (idx t + (len (v ++ c :: rest) - len (trim_start_matches strip_p rest))) in
  at_place s t' /\ (length (running_str t') < length (running_str t))%nat.
Proof.
  intros (pre & -> & Hi) Er. cbn zeta. cbn [running_str]. rewrite Er, Hi. destruct (trim_split strip_p rest) as [l El]. split.
  - exists (pre ++ v ++ c :: l). cbn [running_str idx]. split.
    + rewrite El at 1. by rewrite <- !app_assoc.
    + rewrite El at 1. change (c :: l ++ trim_start_matches strip_p rest) with ((c :: l) ++ trim_start_matches strip_p rest). rewrite !len_app. lia.
  - rewrite El at 2. rewrite length_app. cbn [length]. rewrite length_app. lia.
Qed.
Lemma ident_not_space c : ident_end c = false -> is_whitespace c = false.
Proof.
  unfold ident_end. destruct (is_alphanumeric c) eqn:Ea; cbn [negb andb].
  - intros _. unfold is_alphanumeric, is_whitespace in *. destruct (Z.ltb_spec c 128) as [Hc|Hc]; [|by apply classes_disjoint].
    repeat (apply orb_true_iff in Ea as [Ea|Ea]); apply andb_true_iff in Ea as [E1 E2]; apply Z.leb_le in E1, E2;
      rewrite (proj2 (Z.leb_gt c 13)), (proj2 (Z.eqb_neq c 32)), andb_false_r by lia; done.
  - destruct (Z.eqb_spec c COMMA) as [->|]; [done|]. destruct (Z.eqb_spec c UNDERSCORE) as [->|]; done.
Qed.
Lemma next_value_moves s t : at_place s t -> exists v t', next_value t = Ret (Some v, t') /\ moved s t t'.
Proof.
  intros Ht. unfold next_value, mbind, ST_bind.
  destruct (next_token_cases value_end separator separator t value_not_space) as [E|(v & c & rest & Hv & Er & Hf & Hc & E)]; rewrite E.
  - eexists _, _. split; [reflexivity|]. destruct Ht as (pre & -> & Hi). split; cbn [running_str idx]; [|cbn; lia]. exists (pre ++ running_str t). cbn [running_str idx].
    split; [by rewrite app_nil_r|]. by rewrite len_app, Hi.
  - eexists _, _. split; [reflexivity|]. destruct (token_moves s t separator v c rest Ht Er). split; [done|lia].
Qed.
Definition names : list str := [n_uart; n_uart_baud; n_max_log_level; n_log_file; n_allow_hpet; n_log_aml].
Definition not_id {A} (r : result A ParseError) : Prop := forall id l, r <> Err (mkError (UnexpectedId id) l).
Lemma field_moves {A} `{CmdlineParse A} set c s t : (forall t, at_place s t -> exists (r : result A ParseError) t', parse_value t = Ret (r, t') /\ moved s t t' /\ not_id r) ->
  at_place s t -> exists r t', field set c t = Ret (r, t') /\ moved s t t' /\ not_id r.
Proof.
  intros Hp Ht. destruct (Hp t Ht) as (r & t' & E & Hm & Hn). unfold field, mbind, ST_bind. rewrite E. eexists _, _. split; [reflexivity|]. split; [done|].
  destruct r as [v|e]; [done|]. intros id l [= ->]. by eapply Hn.
Qed.
Lemma with_value_moves {A} need (k : Z -> str -> result A ParseError) s t : (forall l v, not_id (k l v)) -> at_place s t ->
  exists r t', with_value need k t = Ret (r, t') /\ moved s t t' /\ not_id r.
Proof. intros Hk Ht. destruct (next_value_moves s t Ht) as ([l v] & t' & E & Hm). unfold with_value, mbind, ST_bind. rewrite E. eexists _, _. split; [reflexivity|]. done. Qed.
Lemma one_of_moves {A} need (ws : list (str * A)) s t : at_place s t -> exists r t', one_of need ws t = Ret (r, t') /\ moved s t t' /\ not_id r.
Proof. intros Ht. apply with_value_moves; [|done]. intros l v. by destruct (list_find _ ws) as [[? []]|]. Qed.
Lemma arm_moves {A} (m : ST Tokenizer (result A ParseError)) (P : result A ParseError -> Prop) s t : (exists r t', m t = Ret (r, t') /\ moved s t t' /\ not_id r) ->
  exists r t', m t = Ret (r, t') /\ moved s t t' /\ (not_id r \/ P r).
Proof. intros (r & t' & E & Hm & Hn). exists r, t'. split_and!; [done..|by left]. Qed.
Lemma parse_field_moves i id c s t : at_place s t -> exists r t', parse_field i id c t = Ret (r, t') /\ moved s t t' /\
  (not_id r \/ id ∉ names /\ r = Err (mkError (UnexpectedId id) i)).
Proof.
  intros Ht. assert (Hr : moved s t t) by done. unfold parse_field.
  repeat (case_bool_decide; [apply (arm_moves _ (fun r => id ∉ names /\ r = Err (mkError (UnexpectedId id) i))), field_moves; [intros t1 Ht1|exact Ht]|]).
  - by apply one_of_moves.
  - apply with_value_moves; [|done]. intros l v. by destruct (u32_from_str v).
  - by apply one_of_moves.
  - by apply with_value_moves.
  - by apply one_of_moves.
  - by apply one_of_moves.
  - eexists _, _. split; [reflexivity|]. split; [done|]. right. split; [|done]. unfold names. set_solver.
Qed.
Lemma loop_ends s : forall fuel c t, at_place s t -> (length (running_str t) < fuel)%nat -> exists r t', parse_loop fuel c t = Ret (r, t') /\
  forall id l, r = Err (mkError (UnexpectedId id) l) -> id ∉ names /\ exists pre rest, s = pre ++ id ++ EQUALS :: rest /\ l = len pre.
Proof.
  induction fuel as [|fuel IH]; intros c t Ht Hf; [lia|]. cbn [parse_loop]. unfold mbind, ST_bind.
  destruct (next_token_cases ident_end (fun c => c =? EQUALS) is_whitespace t ident_not_space) as [E|(v & q & rest & Hv & Er & Hfa & Hq & E)]; unfold next_ident; rewrite E.
  - by eexists _, _.
  - destruct (token_moves s t is_whitespace v q rest Ht Er) as [Hp Hlt]. cbn zeta in Hp, Hlt. set (t1 := mkTokenizer _ _) in *.
    destruct (parse_field_moves (idx t) v c s t1 Hp) as (r & t2 & E2 & [Hp2 Hl2] & Hid). unfold ebind, mbind, ST_bind. rewrite E2. destruct r as [c'|e].
    + apply IH; [done|lia].
    + eexists _, _. split; [reflexivity|]. intros id l [= ->]. destruct Hid as [Hn|[Hn [= -> ->]]]; [by destruct (Hn id l)|]. split; [done|].
      destruct Ht as (pre & -> & Hi). exists pre, rest. rewrite Er. apply Z.eqb_eq in Hq as ->. done.
Qed.
End any.

(** C31: No command line stops the kernel: the parser returns on every text; and
    when it refuses a name, the text has that name there, followed by an equals
    sign, at the byte offset the error reports, and no setting has it. *)
Theorem command_line_total `{UnicodeLaws} s : exists r, parse_cmdline s = Ret r /\
  forall id l, r = Err (mkError (UnexpectedId id) l) -> id ∉ names /\ exists pre rest, s = pre ++ id ++ EQUALS :: rest /\ l = len pre.
Proof.
  destruct (loop_ends s (S (length s)) default_cmdline (new s)) as (r & t & E & Hr); [by exists []|cbn; lia|].
  exists r. unfold parse_cmdline. rewrite E. done.
Qed.

Module CmdDemo.
(** letters of Latin-1 and two blanks, enough for the examples *)
#[export] Instance latin : Unicode := {| unicode_alphanumeric c := (192 <=? c) && (c <? 256); unicode_whitespace c := (c =? 0xA0) || (c =? 0x85) |}.
#[export] Instance latin_laws : UnicodeLaws.
Proof. intros c Hc. cbn in *. apply andb_true_iff in Hc as [H1 _]. apply Z.leb_le in H1. by rewrite !(proj2 (Z.eqb_neq c _)) by lia. Qed.
(** [uart=false, max_log_level= debug uart=true] *)
Definition line : str :=
  n_uart ++ EQUALS :: t_false ++ [44; 32] ++ n_max_log_level ++ EQUALS :: [32] ++ t_debug ++ [32] ++ n_uart ++ EQUALS :: t_true.
Lemma command_line_applied_witness : init (Some line) = Ret (mkCmd true 115200 Debug KERNEL_LOG true Off).
Proof.
  refine (proj2 (command_line_applied [SUart false; SMaxLogLevel Debug; SUart true] line _)).
  apply (line_more (SUart false) [] [44; 32]); [done|done|done|by repeat constructor|].
  apply (line_more (SMaxLogLevel Debug) [32] [32]); [done|by repeat constructor|done|by repeat constructor|]. by apply (line_last (SUart true) []).
Defined.
Lemma command_line_total_witness : exists r, parse_cmdline ([104; 105; 61] ++ line) = Ret r /\
  forall id l, r = Err (mkError (UnexpectedId id) l) -> id ∉ names /\ exists pre rest, [104; 105; 61] ++ line = pre ++ id ++ EQUALS :: rest /\ l = len pre.
Proof. apply (command_line_total (H0 := latin_laws)). Defined.
(** a blank before the first setting, or a name with a character that no name
    has, silently drops the rest of the line: [ uart=false], [log-file=x uart=false] *)
Lemma leading_blank_ignores_line : parse_cmdline (32 :: n_uart ++ EQUALS :: t_false) = Ret (Ok default_cmdline).
Proof. reflexivity. Qed.
Lemma unknown_character_ignores_line : parse_cmdline ([108; 111; 103; 45; 102; 61; 120; 32] ++ n_uart ++ EQUALS :: t_false) = Ret (Ok default_cmdline).
Proof. reflexivity. Qed.
(** a value left out takes the next setting for its value *)
Lemma missing_value_swallows_next : exists e, parse_cmdline (n_log_file ++ EQUALS :: 32 :: n_uart ++ EQUALS :: t_false) = Ret (Ok e) /\ log_file e = n_uart ++ EQUALS :: t_false /\ uart e = true.
Proof. eexists. by split. Qed.
End CmdDemo.
