(* ===== verification/Multiboot.v ===== *)
(** * The information of the boot loader

    Models [kernel/src/multiboot2.rs]: the tags the boot loader leaves in
    memory, the iterators over them and over the memory maps they hold, and
    the queries of the kernel: the command line, the memory map, the frame
    buffer and the ACPI root pointer.  Memory is a function from addresses to
    bytes.  A string that has no end before the end of the information is
    outside the model. *)
From S2P Require Import Prelude MemLayout UserLink FsTypes Bytes Path FatDir PhysPages Graphics AmlData Resource Aml AmlTree AcpiTables Cmdline.
Import Str Text PhysPages Acpi.

Module Multiboot.
Definition read_int (mem : Mem) (addr : Z) (n : nat) : Z := from_le (read_mem mem addr n).

(** ** Memory maps *)
Record MemoryMapIter : Type := mkMapIter { mm_remaining : Z; mm_entry_size : Z; mm_raw : Z }.
Definition mem_type_of (n : Z) : MemoryMapType :=
  if n =? 1 then Available else if n =? 2 then Reserved else if n =? 3 then ACPIReclaimable else if n =? 4 then ACPINonVolatile
  else if n =? 5 then BadMemory else Undefined n.
Definition map_next (mem : Mem) (self : MemoryMapIter) : option (MemoryMap * MemoryMapIter) :=
  if mm_remaining self =? 0 then None else
  let ptr := mm_raw self in
  Some (mkMap (read_int mem ptr 8) (read_int mem (ptr + 8) 8) (mem_type_of (read_int mem (ptr + 16) 4)),
        mkMapIter (Z.max 0 (mm_remaining self - mm_entry_size self)) (mm_entry_size self) (wrap 64 (ptr + mm_entry_size self))).
Inductive EfiMemoryMapType : Type :=
| EfiReserved | LoaderCode | LoaderData | BootServicesCode | BootServicesData | RuntimeServicesCode | RuntimeServicesData | Conventional | Unusable
| EfiACPIReclaimable | EfiACPINonVolatile | MemoryMappedIO | MemoryMappedIOPortSpace | PalCode | PersistentMemory | EfiUndefined (n : Z).
Record EfiMemoryMap : Type := mkEfiMap {
  efi_mem_type : EfiMemoryMapType; physical_start : Z; virtual_start : Z; number_of_pages : Z; attributes : Z
}.
Definition efi_types : list EfiMemoryMapType :=
  [EfiReserved; LoaderCode; LoaderData; BootServicesCode; BootServicesData; RuntimeServicesCode; RuntimeServicesData; Conventional; Unusable;
   EfiACPIReclaimable; EfiACPINonVolatile; MemoryMappedIO; MemoryMappedIOPortSpace; PalCode; PersistentMemory].
Definition efi_type_of (n : Z) : EfiMemoryMapType :=
  match (if n <? 15 then efi_types !! Z.to_nat n else None) with Some t => t | None => EfiUndefined (wrap 32 n) end.
Definition efi_map_next (mem : Mem) (self : MemoryMapIter) : option (EfiMemoryMap * MemoryMapIter) :=
  if mm_remaining self =? 0 then None else
  let ptr := mm_raw self in
  Some (mkEfiMap (efi_type_of (read_int mem ptr 8)) (read_int mem (ptr + 8) 8) (read_int mem (ptr + 16) 8) (read_int mem (ptr + 24) 8) (read_int mem (ptr + 32) 8),
        mkMapIter (Z.max 0 (mm_remaining self - mm_entry_size self)) (mm_entry_size self) (wrap 64 (ptr + mm_entry_size self))).
(** what a [for] loop over an iterator sees *)
Fixpoint collect {A} (next : MemoryMapIter -> option (A * MemoryMapIter)) (fuel : nat) (it : MemoryMapIter) : outcome (list A) :=
  match fuel with
  | O => Diverge
  | S fuel =>
      match next it with
      | None => Ret []
      | Some (m, it) => r ← collect next fuel it; Ret (m :: r)
      end
  end.
Definition collect_maps (mem : Mem) (it : MemoryMapIter) : outcome (list MemoryMap) := collect (map_next mem) (S (Z.to_nat (mm_remaining it))) it.

(** ** Frame buffers *)
Inductive FramebufferColorInfo : Type :=
| Indexed (num_colors : Z)
| RgbInfo (c : Graphics.Rgb)
| EgaText.
Definition from_color_info (ty : Z) (color_info : bytes) : outcome FramebufferColorInfo :=
  let at_ i := unwrap (color_info !! i) in
  if ty =? 0 then
    b0 ← at_ 0%nat; b1 ← at_ 1%nat; b2 ← at_ 2%nat; b3 ← at_ 3%nat;
    Ret (Indexed (from_le [b0; b1; b2; b3]))
  else if ty =? 1 then
    b0 ← at_ 0%nat; b1 ← at_ 1%nat; b2 ← at_ 2%nat; b3 ← at_ 3%nat; b4 ← at_ 4%nat; b5 ← at_ 5%nat;
    Ret (RgbInfo (Graphics.mkRgb b0 b1 b2 b3 b4 b5))
  else if ty =? 2 then Ret EgaText
  else Panic.
Definition is_rgb (c : FramebufferColorInfo) : bool := match c with RgbInfo _ => true | _ => false end.
Record Framebuffer : Type := mkFramebuffer { fb_addr : Z; fb_pitch : Z; fb_width : Z; fb_height : Z; fb_bpp : Z; fb_color_info : FramebufferColorInfo }.
(** [FramebufferRaw] *)
Definition FRAMEBUFFER_RAW : list nat := [8; 4; 4; 4; 1; 1; 2]%nat.

(** ** Structures that are only passed on *)
Record BasicMemoryInfo : Type := mkBasic { mem_lower : Z; mem_upper : Z }.
Record AdvancedPowerManagementTable : Type := mkApm {
  apm_version : Z; cseg : Z; apm_offset : Z; cseg_16 : Z; dseg : Z; apm_flags : Z; cseg_len : Z; cseg_16_len : Z; dseg_len : Z
}.
Record VbeControlInfo : Type := mkVbeControl {
  vc_signature : bytes; vc_version : Z; oem_str_ptr : Z; capabilities : Z; video_modes_ptr : Z; video_memory_size_blocks : Z; software_rev : Z;
  vendor : Z; product_name : Z; product_rev : Z; vc_reserved : bytes; oem_data : bytes
}.
Record VbeModeInfo : Type := mkVbeMode {
  vm_attributes : Z; window_a_attributes : Z; window_b_attributes : Z; window_granularity : Z; window_size : Z; window_a_segment : Z;
  window_b_segment : Z; window_func_ptr : Z; bytes_per_scanline : Z; vm_width : Z; vm_height : Z; w_char : Z; y_char : Z; planes : Z; vm_bpp : Z;
  banks : Z; memory_model : Z; bank_size : Z; image_pages : Z; reserved0 : Z; vm_red_mask_size : Z; vm_red_field_position : Z; vm_green_mask_size : Z;
  vm_green_field_position : Z; vm_blue_mask_size : Z; vm_blue_field_position : Z; rsvd_mask_size : Z; rsvd_field_position : Z;
  direct_color_mode_attributes : Z; framebuffer_addr : Z; reserved1 : bytes
}.
Record VbeInfo : Type := mkVbe { vb_mode : Z; interface_seg : Z; interface_off : Z; interface_len : Z; control_info : VbeControlInfo; mode_info : VbeModeInfo }.
Definition vbe_control_of (mem : Mem) (p : Z) : VbeControlInfo :=
  let f i := nth i (unpack [2; 4; 4; 4; 2; 2; 4; 4; 4]%nat (read_mem mem (p + 4) 30)) 0 in
  mkVbeControl (read_mem mem p 4) (f 0%nat) (f 1%nat) (f 2%nat) (f 3%nat) (f 4%nat) (f 5%nat) (f 6%nat) (f 7%nat) (f 8%nat)
    (read_mem mem (p + 34) 222) (read_mem mem (p + 256) 256).
Definition vbe_mode_of (mem : Mem) (p : Z) : VbeModeInfo :=
  let f i := nth i (unpack [2; 1; 1; 2; 2; 2; 2; 4; 2; 2; 2; 1; 1; 1; 1; 1; 1; 1; 1; 1; 1; 1; 1; 1; 1; 1; 1; 1; 1; 4]%nat (read_mem mem p 44)) 0 in
  mkVbeMode (f 0%nat) (f 1%nat) (f 2%nat) (f 3%nat) (f 4%nat) (f 5%nat) (f 6%nat) (f 7%nat) (f 8%nat) (f 9%nat) (f 10%nat) (f 11%nat) (f 12%nat)
    (f 13%nat) (f 14%nat) (f 15%nat) (f 16%nat) (f 17%nat) (f 18%nat) (f 19%nat) (f 20%nat) (f 21%nat) (f 22%nat) (f 23%nat) (f 24%nat) (f 25%nat)
    (f 26%nat) (f 27%nat) (f 28%nat) (f 29%nat) (read_mem mem (p + 44) 212).
Definition vbe_of (mem : Mem) (p : Z) : VbeInfo :=
  mkVbe (read_int mem p 2) (read_int mem (p + 2) 2) (read_int mem (p + 4) 2) (read_int mem (p + 6) 2) (vbe_control_of mem (p + 8)) (vbe_mode_of mem (p + 520)).

(** ** Tags *)
Inductive MultiBootTag : Type :=
| BootCommandLine (cmdline : bytes)
| BootLoaderName (name : bytes)
| BasicMemory (m : BasicMemoryInfo)
| AdvancedPower (t : AdvancedPowerManagementTable)
| ImageLoadBasePhysical (base_addr : Z)
| MemoryMapTag (it : MemoryMapIter)
| EfiMemoryMapTag (it : MemoryMapIter)
| ElfSymbols
| BiosBootDevice (biosdev partition sub_partition : Z)
| FrameBufferInfo (f : Framebuffer)
| OldRsdp (r : Rsdp)
| NewRsdp (r : Rsdp)
| Efi64SystemTablePtr (ptr : Z)
| EfiBootServicesNotTerminated
| Efi64ImageHandle (ptr : Z)
| VbeTag (v : VbeInfo).
Definition TAG_RAW : Z := 8.
Definition RSDP_V1 : Z := 20.
Definition RSDP_V2 : Z := 36.

(** [CStr::from_ptr] and [to_str] *)
Definition c_str (mem : Mem) (ptr : Z) (limit : nat) : outcome bytes :=
  match until_nul (read_mem mem ptr limit) with
  | Some s => _ ← assert_that (utf8 s); Ret s
  | None => Diverge
  end.
(** the [match tag.ty] of [next], but for the end; [limit] bytes are left *)
Definition tag_of (mem : Mem) (ptr ty size : Z) (limit : nat) : outcome MultiBootTag :=
  let data := ptr + TAG_RAW in
  if ty =? 1 then s ← c_str mem data limit; Ret (BootCommandLine s)
  else if ty =? 2 then s ← c_str mem data limit; Ret (BootLoaderName s)
  else if ty =? 4 then Ret (BasicMemory (mkBasic (read_int mem data 4) (read_int mem (data + 4) 4)))
  else if ty =? 5 then Ret (BiosBootDevice (read_int mem data 4) (read_int mem (data + 4) 4) (read_int mem (data + 8) 4))
  else if ty =? 6 then
    r ← csub size TAG_RAW; r ← csub r 8;
    Ret (MemoryMapTag (mkMapIter r (read_int mem data 4) (data + 8)))
  else if ty =? 7 then Ret (VbeTag (vbe_of mem data))
  else if ty =? 8 then
    let f i := nth i (unpack FRAMEBUFFER_RAW (read_mem mem data 24)) 0 in
    r ← csub size TAG_RAW; remaining_size ← csub r 24;
    color_info ← from_color_info (f 5%nat) (read_mem mem (data + 24) (Z.to_nat remaining_size));
    Ret (FrameBufferInfo (mkFramebuffer (f 0%nat) (f 1%nat) (f 2%nat) (f 3%nat) (f 4%nat) color_info))
  else if ty =? 9 then Ret ElfSymbols
  else if ty =? 10 then
    let f i := nth i (unpack [2; 2; 4; 2; 2; 2; 2; 2; 2]%nat (read_mem mem data 20)) 0 in
    Ret (AdvancedPower (mkApm (f 0%nat) (f 1%nat) (f 2%nat) (f 3%nat) (f 4%nat) (f 5%nat) (f 6%nat) (f 7%nat) (f 8%nat)))
  else if ty =? 12 then Ret (Efi64SystemTablePtr (read_int mem data 8))
  else if ty =? 14 then
    r ← csub size 8; _ ← assert_that (r =? RSDP_V1);
    Ret (OldRsdp (from_v1 (read_mem mem data 20)))
  else if ty =? 15 then
    r ← csub size 8; _ ← assert_that (r =? RSDP_V2);
    Ret (NewRsdp (from_v2 (read_mem mem data 36)))
  else if ty =? 17 then
    r ← csub size TAG_RAW; r ← csub r 8;
    Ret (EfiMemoryMapTag (mkMapIter r (read_int mem data 4) (data + 8)))
  else if ty =? 18 then Ret EfiBootServicesNotTerminated
  else if ty =? 20 then Ret (Efi64ImageHandle (read_int mem data 8))
  else if ty =? 21 then Ret (ImageLoadBasePhysical (read_int mem data 4))
  else Panic.

Record MultiBootTagIter : Type := mkTagIter { current : Z; remaining : Z }.
(** [MultiBootTagIter::next] *)
Definition tag_next (mem : Mem) (self : MultiBootTagIter) : outcome (option MultiBootTag * MultiBootTagIter) :=
  if remaining self =? 0 then Ret (None, self) else
  let ptr := current self in
  let ty := read_int mem ptr 4 in
  let size := read_int mem (ptr + 4) 4 in
  tag_size ← align_up size 8;
  left ← csub (remaining self) tag_size;
  let next := mkTagIter (ptr + tag_size) left in
  if ty =? 0 then
    _ ← assert_that (size =? TAG_RAW);
    _ ← assert_that (left =? 0);
    Ret (None, next)
  else
    t ← tag_of mem ptr ty size (Z.to_nat (remaining self));
    Ret (Some t, next).

(** ** [MultiBoot2Info], at an address *)
Definition total_size (mem : Mem) (info : Z) : Z := read_int mem info 4.
Definition end_address (mem : Mem) (info : Z) : Z := info + total_size mem info.
Definition tags (mem : Mem) (info : Z) : outcome MultiBootTagIter :=
  r ← csub (total_size mem info) 8;
  Ret (mkTagIter (info + 8) r).
(** [find_map]: stops at the first tag the closure takes *)
Fixpoint find_map {A} (mem : Mem) (f : MultiBootTag -> option A) (fuel : nat) (it : MultiBootTagIter) : outcome (option A) :=
  match fuel with
  | O => Diverge
  | S fuel =>
      r ← tag_next mem it;
      match r with
      | (None, _) => Ret None
      | (Some t, it) => match f t with Some a => Ret (Some a) | None => find_map mem f fuel it end
      end
  end.
(** a tag takes eight bytes *)
Definition find_tag {A} (mem : Mem) (f : MultiBootTag -> option A) (info : Z) : outcome (option A) :=
  it ← tags mem info;
  find_map mem f (S (Z.to_nat (remaining it))) it.
Definition cmdline (mem : Mem) (info : Z) : outcome (option bytes) := find_tag mem (fun t => match t with BootCommandLine s => Some s | _ => None end) info.
Definition memory_maps (mem : Mem) (info : Z) : outcome (option MemoryMapIter) := find_tag mem (fun t => match t with MemoryMapTag it => Some it | _ => None end) info.
Definition framebuffer (mem : Mem) (info : Z) : outcome (option Framebuffer) := find_tag mem (fun t => match t with FrameBufferInfo f => Some f | _ => None end) info.
Definition vbe_info (mem : Mem) (info : Z) : outcome (option VbeInfo) := find_tag mem (fun t => match t with VbeTag v => Some v | _ => None end) info.
(** the body of the loop of [get_most_recent_rsdp] *)
Definition newer_rsdp (ret : option Rsdp) (t : MultiBootTag) : option Rsdp :=
  match t with
  | OldRsdp rsdp | NewRsdp rsdp =>
      match ret with
      | None => Some rsdp
      | Some r => if rp_revision r <? rp_revision rsdp then Some rsdp else Some r
      end
  | _ => ret
  end.
Fixpoint rsdp_loop (mem : Mem) (fuel : nat) (it : MultiBootTagIter) (ret : option Rsdp) : outcome (option Rsdp) :=
  match fuel with
  | O => Diverge
  | S fuel =>
      r ← tag_next mem it;
      match r with
      | (None, _) => Ret ret
      | (Some t, it) => rsdp_loop mem fuel it (newer_rsdp ret t)
      end
  end.
Definition get_most_recent_rsdp (mem : Mem) (info : Z) : outcome (option Rsdp) :=
  it ← tags mem info;
  rsdp_loop mem (S (Z.to_nat (remaining it))) it None.

(** ** The uses of the queries at boot *)
(** [cmdline::init] *)
Definition cmdline_init `{Unicode} (mem : Mem) (info : Z) : outcome Cmdline.Cmd :=
  s ← cmdline mem info;
  Cmdline.init ((fun s => char_code <$> chars s) <$> s).
(** the maps the loop of [PhysicalPageAllocator::new] goes over *)
Definition read_maps (mem : Mem) (info : Z) : outcome (option (list MemoryMap)) :=
  it ← memory_maps mem info;
  match it with Some it => m ← collect_maps mem it; Ret (Some m) | None => Ret None end.
(** [PhysicalPageAllocator::new] *)
Definition pages_init (kernel_elf_end : Z) (mem : Mem) (info : Z) : ST Phys unit :=
  maps ← lift (read_maps mem info);
  PhysPages.new kernel_elf_end (end_address mem info) maps.
(** [init_acpi_tables] *)
Definition acpi_init (mem : Mem) (info : Z) : outcome BiosTables :=
  rsdp ← get_most_recent_rsdp mem info;
  init_acpi_tables mem rsdp.
End Multiboot.
