(* ===== verification/MultibootSpec.v ===== *)
(** * The information of the boot loader: what the kernel reads from it

    When memory holds the encoding of a list of tags, the queries of the
    kernel give what the tags say. *)
From S2P Require Import Prelude MemLayout UserLink FsTypes PhysPages Path FatDir Bytes Graphics AmlData Resource Aml AmlTree AcpiTables.
From S2P Require Import AcpiSpec Cmdline Multiboot.

Import Str Text PhysPages Acpi Multiboot.

(** ** Memory that holds bytes *)
Definition holds (mem : Mem) (p : Z) (b : bytes) : Prop := read_mem mem p (length b) = b.
Lemma holds_mem_app mem p a b : holds mem p (a ++ b) <-> holds mem p a /\ holds mem (p + Z.of_nat (length a)) b.
Proof.
  unfold holds. rewrite length_app, read_mem_app. split; [|by intros [-> ->]]. intros E. apply app_inj_1 in E; [done|]. apply length_read.
Qed.
Lemma holds_take mem p b n : holds mem p b -> (n <= length b)%nat -> read_mem mem p n = take n b.
Proof.
  intros H Hn. rewrite <- (take_drop n b) in H. apply holds_mem_app in H as [H _]. unfold holds in H. by rewrite length_take_le in H by lia.
Qed.
Lemma holds_int mem p n v : fits n v -> holds mem p (le n v) -> read_int mem p n = v.
Proof. intros Hv H. unfold read_int. unfold holds in H. rewrite length_le in H. by rewrite H, from_le_le. Qed.
Lemma holds_long mem p b n : holds mem p b -> (length b <= n)%nat -> read_mem mem p n = b ++ read_mem mem (p + Z.of_nat (length b)) (n - length b).
Proof. intros H Hn. replace n with (length b + (n - length b))%nat at 1 by lia. by rewrite read_mem_app, H. Qed.

(** ** Tags as the boot loader writes them *)
Definition type_code (t : MemoryMapType) : Z :=
  match t with Available => 1 | Reserved => 2 | ACPIReclaimable => 3 | ACPINonVolatile => 4 | BadMemory => 5 | Undefined n => n end.
Definition map_fits (m : MemoryMap) : Prop :=
  fits 8 (base_addr m) /\ fits 8 (length_ m) /\ fits 4 (type_code (mem_type m)) /\ match mem_type m with Undefined n => n = 0 \/ 5 < n | _ => True end.
(** entries may be longer than what the kernel reads of them *)
Definition encode_map (extra : nat) (m : MemoryMap) : bytes :=
  le 8 (base_addr m) ++ le 8 (length_ m) ++ le 4 (type_code (mem_type m)) ++ le 4 0 ++ replicate extra 0.
Definition color_type (c : FramebufferColorInfo) : Z := match c with Indexed _ => 0 | RgbInfo _ => 1 | EgaText => 2 end.
Definition encode_color (c : FramebufferColorInfo) : bytes :=
  match c with
  | Indexed n => le 4 n
  | RgbInfo (Graphics.mkRgb a b c d e f) => [a; b; c; d; e; f]
  | EgaText => []
  end.
Inductive item : Type :=
| ICmdline (s : bytes)
| IName (s : bytes)
| IMaps (extra : nat) (ms : list MemoryMap)
| IFrame (f : Framebuffer)
| IOldRsdp (raw : bytes)
| INewRsdp (raw : bytes)
| IOther (ty : Z) (body : bytes).
Definition item_type (i : item) : Z :=
  match i with ICmdline _ => 1 | IName _ => 2 | IMaps _ _ => 6 | IFrame _ => 8 | IOldRsdp _ => 14 | INewRsdp _ => 15 | IOther ty _ => ty end.
Definition frame_values (f : Framebuffer) : list Z := [fb_addr f; fb_pitch f; fb_width f; fb_height f; fb_bpp f; color_type (fb_color_info f); 0].
Definition item_body (i : item) : bytes :=
  match i with
  | ICmdline s | IName s => s ++ [0]
  | IMaps extra ms => le 4 (24 + Z.of_nat extra) ++ le 4 0 ++ concat (encode_map extra <$> ms)
  | IFrame f => pack FRAMEBUFFER_RAW (frame_values f) ++ encode_color (fb_color_info f)
  | IOldRsdp raw | INewRsdp raw => raw
  | IOther _ body => body
  end.
(** tags that no query looks at, the map of the EFI with its header *)
Definition item_ok (i : item) : Prop :=
  match i with
  | ICmdline s | IName s => 0 ∉ s /\ utf8 s = true
  | IMaps extra ms => Forall map_fits ms /\ fits 4 (24 + Z.of_nat extra)
  | IFrame f => Forall2 fits FRAMEBUFFER_RAW (frame_values f) /\ match fb_color_info f with Indexed n => fits 4 n | _ => True end
  | IOldRsdp raw => length raw = 20%nat
  | INewRsdp raw => length raw = 36%nat
  | IOther ty body => ty ∈ [4; 5; 7; 9; 10; 12; 18; 20; 21] \/ ty = 17 /\ (8 <= length body)%nat
  end.
(** a tag: its type and size, its body, and the bytes up to the next multiple of eight *)
Definition tag_bytes (i : item) (b : bytes) : Prop :=
  exists pad, b = le 4 (item_type i) ++ le 4 (8 + Z.of_nat (length (item_body i))) ++ item_body i ++ pad /\
    Z.of_nat (length b) = round_up (8 + Z.of_nat (length (item_body i))) 8.
Definition END_TAG : bytes := le 4 0 ++ le 4 8.
Definition boot_info (mem : Mem) (info : Z) (items : list item) : Prop :=
  exists bs, Forall2 tag_bytes items bs /\ Forall item_ok items /\
    let size := 16 + Z.of_nat (length (concat bs)) in
    fits 4 size /\ 0 <= info /\ info + size < 2 ^ 64 /\
    holds mem info (le 4 size ++ le 4 0 ++ concat bs ++ END_TAG).

(** ** What a tag stands for *)
Definition stands_for (mem : Mem) (i : item) (t : MultiBootTag) : Prop :=
  match i with
  | ICmdline s => t = BootCommandLine s
  | IName s => t = BootLoaderName s
  | IMaps _ ms => exists it, t = MemoryMapTag it /\ collect_maps mem it = Ret ms
  | IFrame f => t = FrameBufferInfo f
  | IOldRsdp raw => t = OldRsdp (from_v1 raw)
  | INewRsdp raw => t = NewRsdp (from_v2 raw)
  | IOther _ _ =>
      match t with BootCommandLine _ | BootLoaderName _ | MemoryMapTag _ | FrameBufferInfo _ | OldRsdp _ | NewRsdp _ => False | _ => True end
  end.

Lemma mem_type_code t : match t with Undefined n => n = 0 \/ 5 < n | _ => True end -> mem_type_of (type_code t) = t.
Proof.
  destruct t as [| | | | |n]; try done. cbn [type_code]. intros Hn. unfold mem_type_of. by rewrite !(proj2 (Z.eqb_neq n _)) by lia.
Qed.
Lemma length_map extra m : length (encode_map extra m) = (24 + extra)%nat.
Proof. unfold encode_map. rewrite !length_app, !length_le, length_replicate. lia. Qed.
Lemma length_maps extra ms : length (concat (encode_map extra <$> ms)) = (length ms * (24 + extra))%nat.
Proof. induction ms as [|m ms IH]; [done|]. cbn [fmap list_fmap concat length]. rewrite length_app, length_map, IH. lia. Qed.
(** iterating over the entries of a memory map *)
Lemma maps_collected mem extra ms : Forall map_fits ms -> forall fuel p, holds mem p (concat (encode_map extra <$> ms)) -> (length ms < fuel)%nat ->
  0 <= p -> p + Z.of_nat (length ms * (24 + extra)) < 2 ^ 64 ->
  collect (map_next mem) fuel (mkMapIter (Z.of_nat (length ms * (24 + extra))) (24 + Z.of_nat extra) p) = Ret ms.
Proof.
  induction 1 as [|m ms (H1 & H2 & H3 & H4) _ IH]; intros [|fuel] p Hh Hf Hp Hb; cbn [length] in *; try lia; [done|]. cbn [collect]. unfold map_next at 1. cbn [mm_remaining mm_raw mm_entry_size].
  rewrite (proj2 (Z.eqb_neq _ 0)) by lia. cbn [fmap list_fmap concat] in Hh. apply holds_mem_app in Hh as [Hm Hh]. rewrite length_map in Hh. unfold encode_map in Hm.
  apply holds_mem_app in Hm as [Hm1 Hm]. apply holds_mem_app in Hm as [Hm2 Hm]. apply holds_mem_app in Hm as [Hm3 _]. rewrite !length_le in *.
  change (Z.of_nat 8) with 8 in *. rewrite (holds_int _ _ _ _ H1 Hm1), (holds_int _ _ _ _ H2 Hm2). replace (p + 8 + 8) with (p + 16) in Hm3 by lia.
  rewrite (holds_int _ _ _ _ H3 Hm3), mem_type_code by done.
  replace (Z.max 0 _) with (Z.of_nat (length ms * (24 + extra))) by lia. unfold wrap. rewrite Z.mod_small by lia.
  replace (p + (24 + Z.of_nat extra)) with (p + Z.of_nat (24 + extra)) by lia. rewrite IH; [by destruct m|done|lia|lia|lia].
Qed.
Lemma color_reads c tail : match c with Indexed n => fits 4 n | _ => True end -> from_color_info (color_type c) (encode_color c ++ tail) = Ret c.
Proof.
  destruct c as [n|[]|]; [|done..]. intros Hn. cbn [encode_color color_type]. unfold from_color_info. cbn [Z.eqb].
  destruct (le 4 n) as [|b0 [|b1 [|b2 [|b3 [|]]]]] eqn:E; try (apply (f_equal length) in E; by rewrite length_le in E).
  cbn [app lookup list_lookup unwrap mbind outcome_bind]. by rewrite <- E, from_le_le.
Qed.
Lemma item_type_fits i : item_ok i -> fits 4 (item_type i) /\ item_type i <> 0.
Proof.
  intros Hi. assert (H : 0 < item_type i < 256).
  { destruct i as [s|s|extra ms|f|raw|raw|ty body]; cbn [item_type]; try lia. cbn [item_ok] in Hi. destruct Hi as [Hi|[-> _]]; [|lia].
    apply list_elem_of_In in Hi. cbn [In] in Hi. lia. }
  split; [|lia]. unfold fits. change (256 ^ Z.of_nat 4) with 4294967296. lia.
Qed.

Section tags.
Context (mem : Mem).
Lemma tag_reads p i limit : item_ok i -> holds mem (p + 8) (item_body i) -> (length (item_body i) <= limit)%nat ->
  0 <= p -> p + 8 + Z.of_nat (length (item_body i)) < 2 ^ 64 ->
  exists t, tag_of mem p (item_type i) (8 + Z.of_nat (length (item_body i))) limit = Ret t /\ stands_for mem i t.
Proof.
  intros Hok Hh Hl Hp Hb. unfold tag_of, TAG_RAW. destruct i as [s|s|extra ms|f|raw|raw|ty body]; cbn [item_type item_body item_ok stands_for] in *.
  - destruct Hok as [H0 Hu]. eexists. split; [|reflexivity]. cbn [Z.eqb Pos.eqb]. unfold c_str. rewrite (holds_long _ _ _ _ Hh Hl), <- app_assoc. cbn [app].
    rewrite until_nul_found by done. by rewrite Hu.
  - destruct Hok as [H0 Hu]. eexists. split; [|reflexivity]. cbn [Z.eqb Pos.eqb]. unfold c_str. rewrite (holds_long _ _ _ _ Hh Hl), <- app_assoc. cbn [app].
    rewrite until_nul_found by done. by rewrite Hu.
  - destruct Hok as [Hm He]. cbn [Z.eqb Pos.eqb]. rewrite !length_app, !length_le, length_maps in *. rewrite csub_ret by lia. cbn [mbind outcome_bind]. rewrite csub_ret by lia. cbn [mbind outcome_bind].
    apply holds_mem_app in Hh as [Hh1 Hh]. apply holds_mem_app in Hh as [_ Hh]. rewrite !length_le in Hh. rewrite (holds_int _ _ _ _ He Hh1).
    eexists. split; [reflexivity|]. eexists. split; [reflexivity|]. unfold collect_maps. cbn [mm_remaining].
    replace (8 + Z.of_nat (4 + (4 + length ms * (24 + extra))) - 8 - 8) with (Z.of_nat (length ms * (24 + extra))) by lia.
    apply maps_collected; [done| |rewrite Nat2Z.id; lia|lia|lia]. by replace (p + 8 + 8) with (p + 8 + Z.of_nat 4 + Z.of_nat 4) by lia.
  - destruct Hok as [Hv Hc]. cbn [Z.eqb Pos.eqb]. assert (Hlen : length (pack FRAMEBUFFER_RAW (frame_values f)) = 24%nat) by done.
    rewrite length_app, Hlen in *. rewrite csub_ret by lia. cbn [mbind outcome_bind]. rewrite csub_ret by lia. cbn [mbind outcome_bind].
    apply holds_mem_app in Hh as [Hh1 Hh2]. unfold holds in Hh1. rewrite Hlen in *. rewrite Hh1. rewrite <- (app_nil_r (pack _ _)), unpack_pack by done.
    replace (8 + Z.of_nat (24 + length (encode_color (fb_color_info f))) - 8 - 24) with (Z.of_nat (length (encode_color (fb_color_info f)))) by lia.
    rewrite Nat2Z.id. unfold holds in Hh2. change (p + 8 + 24) with (p + 8 + Z.of_nat 24). rewrite Hh2. cbn [frame_values nth].
    rewrite <- (app_nil_r (encode_color _)), color_reads by done. cbn [mbind outcome_bind]. eexists. split; [reflexivity|]. by destruct f.
  - cbn [Z.eqb Pos.eqb]. rewrite csub_ret by lia. cbn [mbind outcome_bind]. unfold holds in Hh. rewrite Hok in *. rewrite Hh. eexists. by split.
  - cbn [Z.eqb Pos.eqb]. rewrite csub_ret by lia. cbn [mbind outcome_bind]. unfold holds in Hh. rewrite Hok in *. rewrite Hh. eexists. by split.
  - destruct Hok as [Hi|[-> Hlb]].
    + apply list_elem_of_In in Hi. cbn [In] in Hi. repeat (destruct Hi as [<-|Hi]; [by eexists|]). done.
    + cbn [Z.eqb Pos.eqb]. rewrite csub_ret by lia. cbn [mbind outcome_bind]. rewrite csub_ret by lia. cbn [mbind outcome_bind]. by eexists.
Qed.
(** iterating gives tags in their order *)
Inductive walk : MultiBootTagIter -> list MultiBootTag -> Prop :=
| walk_end it it' : tag_next mem it = Ret (None, it') -> walk it []
| walk_tag it it' t ts : tag_next mem it = Ret (Some t, it') -> walk it' ts -> walk it (t :: ts).
Lemma walk_find {A} (f : MultiBootTag -> option A) it ts : walk it ts -> forall fuel, (length ts < fuel)%nat -> find_map mem f fuel it = Ret (head (omap f ts)).
Proof.
  induction 1 as [it it' E|it it' t ts E _ IH]; intros [|fuel] Hf; cbn [length] in Hf; try lia; cbn [find_map]; rewrite E; cbn [mbind outcome_bind]; [done|].
  cbn [omap list_omap]. destruct (f t); [done|]. apply IH. lia.
Qed.
Lemma walk_rsdp it ts : walk it ts -> forall fuel ret, (length ts < fuel)%nat -> rsdp_loop mem fuel it ret = Ret (foldl newer_rsdp ret ts).
Proof.
  induction 1 as [it it' E|it it' t ts E _ IH]; intros [|fuel] ret Hf; cbn [length] in Hf; try lia; cbn [rsdp_loop]; rewrite E; cbn [mbind outcome_bind]; [done|].
  apply IH. lia.
Qed.
Lemma tag_length i b : tag_bytes i b -> (8 <= length b)%nat.
Proof. intros (pad & _ & Hl). destruct (round_up_spec (8 + Z.of_nat (length (item_body i))) 8); lia. Qed.
Lemma tag_step i b rest p : tag_bytes i b -> item_ok i -> 0 <= p -> holds mem p b -> 0 <= rest -> p + Z.of_nat (length b) + rest < 2 ^ 64 -> Z.of_nat (length b) < 2 ^ 32 ->
  exists t, tag_next mem (mkTagIter p (Z.of_nat (length b) + rest)) = Ret (Some t, mkTagIter (p + Z.of_nat (length b)) rest) /\ stands_for mem i t.
Proof.
  intros Hb Hok Hp Hh Hr Hmax Hsz. pose proof (tag_length _ _ Hb) as H8. destruct Hb as (pad & Eb & Hlen). destruct (item_type_fits i Hok) as [Hty Hne].
  destruct (round_up_spec (8 + Z.of_nat (length (item_body i))) 8) as [[Hu1 Hu2] Hu3]; [lia|]. rewrite <- Hlen in Hu1, Hu2.
  assert (Hsize : fits 4 (8 + Z.of_nat (length (item_body i)))) by (unfold fits; change (256 ^ Z.of_nat 4) with (2 ^ 32); lia).
  rewrite Eb in Hh. apply holds_mem_app in Hh as [Hh1 Hh]. apply holds_mem_app in Hh as [Hh2 Hh]. apply holds_mem_app in Hh as [Hh3 _]. rewrite !length_le in *.
  change (Z.of_nat 4) with 4 in *. replace (p + 4 + 4) with (p + 8) in Hh3 by lia.
  destruct (tag_reads p i (Z.to_nat (Z.of_nat (length b) + rest)) Hok Hh3) as (t & Et & Hs); [lia|done|lia|]. exists t. split; [|done].
  unfold tag_next. cbn [remaining current]. rewrite (proj2 (Z.eqb_neq _ 0)) by lia. rewrite (holds_int _ _ _ _ Hty Hh1), (holds_int _ _ _ _ Hsize Hh2).
  rewrite align_up_eq; [|by exists 3|lia|lia]. cbn [mbind outcome_bind]. rewrite <- Hlen, csub_ret by lia. cbn [mbind outcome_bind].
  rewrite (proj2 (Z.eqb_neq _ 0)) by done. rewrite Et. cbn [mbind outcome_bind]. do 3 f_equal. lia.
Qed.
Lemma end_step p : holds mem p END_TAG -> exists it, tag_next mem (mkTagIter p 8) = Ret (None, it).
Proof.
  intros H. apply holds_mem_app in H as [H1 H2]. rewrite length_le in H2. change (Z.of_nat 4) with 4 in H2. unfold tag_next. cbn [remaining current].
  rewrite (proj2 (Z.eqb_neq 8 0)) by lia. rewrite (holds_int mem p 4 0), (holds_int mem (p + 4) 4 8) by (done || by vm_compute).
  eexists. reflexivity.
Qed.
Lemma walk_tags items bs : Forall2 tag_bytes items bs -> Forall item_ok items -> forall p, 0 <= p -> p + Z.of_nat (length (concat bs)) + 8 < 2 ^ 64 ->
  Z.of_nat (length (concat bs)) < 2 ^ 32 -> holds mem p (concat bs ++ END_TAG) ->
  exists ts, walk (mkTagIter p (Z.of_nat (length (concat bs)) + 8)) ts /\ Forall2 (stands_for mem) items ts /\ (length ts <= length (concat bs))%nat.
Proof.
  induction 1 as [|i b items bs Hb _ IH]; intros Hok p Hp Hm Hs Hh.
  - destruct (end_step p Hh) as [it E]. exists []. split_and!; [by eapply walk_end|constructor|done].
  - apply Forall_cons in Hok as [Hi Hok]. cbn [concat] in *. rewrite length_app in *. rewrite <- app_assoc in Hh. apply holds_mem_app in Hh as [Hhb Hh].
    destruct (IH Hok (p + Z.of_nat (length b))) as (ts & Hw & Hst & Hlt); [lia|lia|lia|done|].
    destruct (tag_step i b (Z.of_nat (length (concat bs)) + 8) p) as (t & Et & Hs1); [done|done|done|done|lia|lia|lia|].
    exists (t :: ts). split_and!; [|by constructor|pose proof (tag_length _ _ Hb); cbn [length]; lia].
    eapply walk_tag; [|exact Hw]. by rewrite Nat2Z.inj_add, <- Z.add_assoc.
Qed.
Lemma info_tags info items : boot_info mem info items -> exists ts, Forall2 (stands_for mem) items ts /\
  (forall A (f : MultiBootTag -> option A), find_tag mem f info = Ret (head (omap f ts))) /\ get_most_recent_rsdp mem info = Ret (foldl newer_rsdp None ts).
Proof.
  intros (bs & Hb & Hok & Hfit & H0 & Hmax & Hh). set (size := 16 + Z.of_nat (length (concat bs))) in *.
  apply holds_mem_app in Hh as [Hh1 Hh]. apply holds_mem_app in Hh as [_ Hh]. rewrite !length_le in Hh. replace (info + Z.of_nat 4 + Z.of_nat 4) with (info + 8) in Hh by lia.
  assert (Hfit' : size < 2 ^ 32) by (unfold fits in Hfit; change (256 ^ Z.of_nat 4) with (2 ^ 32) in Hfit; lia).
  destruct (walk_tags items bs Hb Hok (info + 8)) as (ts & Hw & Hst & Hlt); [lia|lia|lia|done|].
  assert (Et : tags mem info = Ret (mkTagIter (info + 8) (Z.of_nat (length (concat bs)) + 8))).
  { unfold tags, total_size. rewrite (holds_int _ _ _ _ Hfit Hh1). rewrite csub_ret by lia. cbn [mbind outcome_bind]. do 2 f_equal. lia. }
  exists ts. split_and!; [done|..].
  - intros A f. unfold find_tag. rewrite Et. cbn [mbind outcome_bind remaining]. apply walk_find; [done|lia].
  - unfold get_most_recent_rsdp. rewrite Et. cbn [mbind outcome_bind remaining]. apply walk_rsdp; [done|lia].
Qed.
End tags.

(** ** The queries *)
Definition item_cmdline (i : item) : option bytes := match i with ICmdline s => Some s | _ => None end.
Definition item_maps (i : item) : option (list MemoryMap) := match i with IMaps _ ms => Some ms | _ => None end.
Definition item_frame (i : item) : option Framebuffer := match i with IFrame f => Some f | _ => None end.
Definition item_rsdp (i : item) : option Rsdp := match i with IOldRsdp raw => Some (from_v1 raw) | INewRsdp raw => Some (from_v2 raw) | _ => None end.
(** the first of the kind, and one of the highest revision *)
Definition first {A} (f : item -> option A) (items : list item) : option A := head (omap f items).
Definition most_recent (r : option Rsdp) (l : list Rsdp) : Prop :=
  match r with None => l = [] | Some r => r ∈ l /\ forall r', r' ∈ l -> rp_revision r' <= rp_revision r end.

Section queries.
Context (mem : Mem) (items : list item) (ts : list MultiBootTag) (Hst : Forall2 (stands_for mem) items ts).
Lemma first_same {A} (f : item -> option A) (g : MultiBootTag -> option A) : (forall i t, stands_for mem i t -> f i = g t) -> head (omap g ts) = first f items.
Proof.
  intros Hfg. clear -Hst Hfg. unfold first. induction Hst as [|i t its ts' Hit Hrest IH]; [done|]. specialize (IH Hrest). cbn [omap list_omap]. rewrite (Hfg i t Hit).
  by destruct (g t).
Qed.
Lemma newest ret : most_recent (foldl newer_rsdp ret ts) (option_list ret ++ omap item_rsdp items).
Proof.
  clear -Hst. revert ret. induction Hst as [|i t its ts' Hit Hrest IH]; intros ret; cbn [foldl].
  - cbn [omap list_omap]. rewrite app_nil_r. destruct ret as [r|]; [|done]. cbn. split; [by apply list_elem_of_here|]. intros r' ->%list_elem_of_singleton. lia.
  - specialize (IH Hrest (newer_rsdp ret t)). assert (Hnone : item_rsdp i = None -> newer_rsdp ret t = ret).
    { destruct i, t; cbn in *; intros E; try done; try (by destruct Hit as (? & [=] & _)). }
    assert (Hsome : forall r, item_rsdp i = Some r -> newer_rsdp ret t = match ret with None => Some r | Some r0 => if rp_revision r0 <? rp_revision r then Some r else Some r0 end).
    { destruct i; cbn in *; intros r [= <-]; by subst t. }
    cbn [omap list_omap]. destruct (item_rsdp i) as [r|]; [|by rewrite (Hnone eq_refl) in IH |- *]. rewrite (Hsome r eq_refl) in IH |- *. clear Hnone Hsome Hit.
    set (l := omap item_rsdp its) in *. destruct ret as [r0|]; cbn [option_list app] in *; [|done].
    destruct (Z.ltb_spec (rp_revision r0) (rp_revision r)) as [Hlt|Hge]; cbn [option_list app] in *.
    + destruct (foldl newer_rsdp (Some r) ts') as [x|]; [|done]. destruct IH as [Hx Hm]. split; [by apply list_elem_of_further|].
      intros r' [->|Hr']%elem_of_cons; [|by apply Hm]. pose proof (Hm r (list_elem_of_here _ _)). lia.
    + destruct (foldl newer_rsdp (Some r0) ts') as [x|]; [|done]. destruct IH as [Hx Hm]. split.
      * apply elem_of_cons in Hx as [->|Hx]; [by apply list_elem_of_here|]. by do 2 apply list_elem_of_further.
      * intros r' [->|[->|Hr']%elem_of_cons]%elem_of_cons; [by apply Hm, list_elem_of_here| |by apply Hm, list_elem_of_further].
        pose proof (Hm r0 (list_elem_of_here _ _)). lia.
Qed.
Lemma maps_same : (it ← Ret (head (omap (fun t => match t with MemoryMapTag it => Some it | _ => None end) ts));
    match it with Some it => m ← collect_maps mem it; Ret (Some m) | None => Ret None end) = Ret (first item_maps items).
Proof.
  clear -Hst. unfold first. induction Hst as [|i t its ts' Hit Hrest IH]; [done|]. specialize (IH Hrest). cbn [omap list_omap].
  destruct i as [| |extra ms| | | |]; cbn [stands_for] in Hit; try (subst t; exact IH).
  - destruct Hit as (it & -> & E). cbn [item_maps head mbind outcome_bind]. by rewrite E.
  - cbn [item_maps]. destruct t; try done.
Qed.
End queries.

(** C30: What the kernel learns from the boot loader is what the boot loader
    wrote: when memory holds a list of tags of the types the kernel knows, in
    any order and with any padding, the command line, the memory map and the
    frame buffer are those of the first tag of their kind, entry by entry, and
    the ACPI root pointer is one of the highest revision. *)
Theorem boot_information_read mem info items : boot_info mem info items ->
  cmdline mem info = Ret (first item_cmdline items) /\ read_maps mem info = Ret (first item_maps items) /\ framebuffer mem info = Ret (first item_frame items) /\
  exists r, get_most_recent_rsdp mem info = Ret r /\ most_recent r (omap item_rsdp items).
Proof.
  intros Hb. destruct (info_tags mem info items Hb) as (ts & Hst & Hf & Hr). split_and!.
  - unfold cmdline. rewrite Hf. f_equal. apply (first_same mem items ts Hst). intros [] []; cbn; intros Hs; try done; try (by destruct Hs as (? & [=] & _)); by injection Hs as ->.
  - unfold read_maps, memory_maps. rewrite Hf. by apply maps_same.
  - unfold framebuffer. rewrite Hf. f_equal. apply (first_same mem items ts Hst). intros [] []; cbn; intros Hs; try done; try (by destruct Hs as (? & [=] & _)); by injection Hs as ->.
  - eexists. split; [exact Hr|]. apply (newest mem items ts Hst None).
Qed.

(** * Booting: from the boot loader to the allocator and the settings

    The information of the boot loader, the command line and the physical page
    allocator together, and a machine they are run on. *)
Import Str Text PhysPages Acpi Multiboot.

(** the characters of a text of one-byte characters *)
Lemma char_codes_of_ascii s : Forall (fun c => 0 <= c < 128) s -> char_code <$> chars s = s.
Proof.
  intros Hs. assert (E : chars s = (fun c => [c]) <$> s).
  { induction Hs as [|c s Hc Hs IH]; [done|]. cbn [chars fmap list_fmap]. rewrite IH. destruct Hs as [|d s Hd _]; [done|]. cbn [fmap list_fmap].
    unfold is_continuation. by rewrite (proj2 (Z.leb_gt 128 d)) by lia. }
  rewrite E. clear. induction s as [|c s IH]; [done|]. cbn. by rewrite IH.
Qed.
(** the maps of the information, and what the allocator is given *)
Lemma maps_read mem info items maps : boot_info mem info items -> first item_maps items = Some maps -> read_maps mem info = Ret (Some maps).
Proof.
  intros Hb Hm. destruct (info_tags mem info items Hb) as (ts & Hst & Hf & _). unfold read_maps, memory_maps. rewrite Hf, <- Hm. by apply maps_same.
Qed.
Lemma cmdline_read mem info items : boot_info mem info items -> cmdline mem info = Ret (first item_cmdline items).
Proof.
  intros Hb. destruct (info_tags mem info items Hb) as (ts & Hst & Hf & _). unfold cmdline. rewrite Hf. f_equal. apply (first_same mem items ts Hst).
  intros [] []; cbn; intros Hs; try done; try (by destruct Hs as (? & [=] & _)); by injection Hs as ->.
Qed.
Lemma settings_applied `{Unicode} xs s : command_line xs s -> Cmdline.init (Some s) = Ret (foldl apply_setting Cmdline.default_cmdline xs).
Proof.
  intros Hl. unfold Cmdline.init, Cmdline.parse_cmdline, Cmdline.new.
  destruct (loop_reads xs s Hl (S (length s)) Cmdline.default_cmdline 0) as [t E]; [pose proof (line_length _ _ Hl); lia|]. by rewrite E.
Qed.


Module BootDemo.
Import CmdDemo.
(** ** A boot loader's information, at 16.25 KiB behind the kernel's start *)
Definition padded (i : item) : bytes :=
  let body := item_body i in
  let b := le 4 (item_type i) ++ le 4 (8 + Z.of_nat (length body)) ++ body in
  b ++ replicate (Z.to_nat (round_up (8 + Z.of_nat (length body)) 8) - length b) 0.
Definition frame : Framebuffer := mkFramebuffer 0xFD000000 3200 800 600 32 (RgbInfo (Graphics.mkRgb 16 8 8 8 0 8)).
Definition rsdp_raw (revision : Z) : bytes := RSD_PTR ++ [0] ++ [66; 79; 67; 72; 83; 32] ++ [revision] ++ le 4 0x1000.
Definition items : list item :=
  [IName [71; 82; 85; 66]; ICmdline CmdDemo.line; IOther 4 (le 4 640 ++ le 4 1024); IMaps 0 demo_maps; IFrame frame; IOldRsdp (rsdp_raw 0);
   INewRsdp (rsdp_raw 2 ++ replicate 16 0)].
Definition info : Z := KERNEL_LINK + 0x4100.
Definition info_bytes : bytes :=
  Eval vm_compute in
  let bs := concat (padded <$> items) in
  le 4 (16 + Z.of_nat (length bs)) ++ le 4 0 ++ bs ++ END_TAG.
Definition memory : Mem := fun a => if (info <=? a) && (a <? info + Z.of_nat (length info_bytes)) then nth (Z.to_nat (a - info)) info_bytes 0 else 0.
Lemma items_in_memory : boot_info memory info items.
Proof.
  exists (padded <$> items). split_and!.
  - apply Forall2_fmap_r, Forall_Forall2_diag. repeat constructor; (eexists; split; [reflexivity|reflexivity]).
  - unfold items. repeat constructor; try (by vm_compute).
    all: try (intros Hz; apply list_elem_of_In in Hz; vm_compute in Hz; intuition discriminate).
  - cbv zeta. split_and!; by vm_compute.
Qed.
Lemma boot_information_read_witness : cmdline memory info = Ret (Some CmdDemo.line) /\ read_maps memory info = Ret (Some demo_maps) /\ framebuffer memory info = Ret (Some frame).
Proof. destruct (boot_information_read memory info items items_in_memory) as (H1 & H2 & H3 & _). split_and!; [exact H1|exact H2|exact H3]. Defined.
(** ** Where the kernel stops *)
(** a tag the kernel does not know, such as the one for a module (3) *)
Definition with_module : bytes := le 4 32 ++ le 4 0 ++ le 4 3 ++ le 4 16 ++ le 8 0 ++ END_TAG.
Definition module_memory : Mem := fun a => if (0 <=? a) && (a <? 40) then nth (Z.to_nat a) with_module 0 else 0.
Lemma unknown_tag_panics : cmdline module_memory 0 = Panic.
Proof. reflexivity. Qed.
End BootDemo.
