(* ===== verification/Input.v ===== *)
(** * Keyboard and mouse

    Models [kernel/src/devices/keyboard_mouse]: the PS/2 controller
    ([ps2.rs]), the keyboard with its modifiers and toggles ([keyboard.rs]),
    the packets of the mouse ([mouse.rs]), the draining of the controller and
    the devices programs read ([mod.rs]); and from
    [libraries/kernel_user_link] the keys and mouse events as both sides see
    them ([keyboard.rs], [mouse.rs]).  Ports are the interface [PortIo]; the
    broadcast channel [blinkcast] is the interface [Blinkcast]. *)
From S2P Require Import Prelude UserLink FsTypes Bytes AmlData Resource Aml AmlTree AcpiTables AcpiPower.

(** [blinkcast::alloc]: a sender, and receivers that share its buffer *)
Class Blinkcast : Type := {
  Sender : Type -> Type;
  Receiver : Type -> Type;
  new_sender : forall A, Z -> Sender A;
  send : forall A, A -> Sender A -> Sender A;
  new_receiver : forall A, Sender A -> Receiver A;
  recv : forall A, Sender A -> Receiver A -> option A * Receiver A
}.
Arguments new_sender {_} {A}. Arguments send {_} {A}. Arguments new_receiver {_} {A}. Arguments recv {_} {A}.

Module Input.
(** ** [kernel_user_link/keyboard.rs] *)
Definition SHIFT : Z := Z.shiftl 1 0.
Definition CTRL : Z := Z.shiftl 1 1.
Definition ALT : Z := Z.shiftl 1 2.
Definition CAPS_LOCK : Z := Z.shiftl 1 3.
Definition NUM_LOCK : Z := Z.shiftl 1 4.
Definition SCROLL_LOCK : Z := Z.shiftl 1 5.
Definition PRESSED : Z := Z.shiftl 1 7.
Inductive KeyType : Type :=
| KNone1 | KEscape | KNum1 | KNum2 | KNum3 | KNum4 | KNum5 | KNum6 | KNum7 | KNum8 | KNum9 | KNum0 | KMinus | KEquals | KBackspace | KTab | KQ | KW
| KE | KR | KT | KY | KU | KI | KO | KP | KLeftBracket | KRightBracket | KEnter | KLeftCtrl | KA | KS | KD | KF | KG | KH | KJ | KK | KL | KSemicolon
| KSingleQuote | KBacktick | KLeftShift | KBackslash | KZ | KX | KC | KV | KB | KN | KM | KComma | KDot | KSlash | KRightShift | KKeypadAsterisk
| KLeftAlt | KSpace | KCapsLock | KF1 | KF2 | KF3 | KF4 | KF5 | KF6 | KF7 | KF8 | KF9 | KF10 | KNumLock | KScrollLock | KKeypad7 | KKeypad8
| KKeypad9 | KKeypadMinus | KKeypad4 | KKeypad5 | KKeypad6 | KKeypadPlus | KKeypad1 | KKeypad2 | KKeypad3 | KKeypad0 | KKeypadDot | KNone2 | KNone3
| KNone4 | KF11 | KF12 | KMultimediaPreviousTrack | KMultimediaNextTrack | KKeypadEnter | KRightCtrl | KMultimediaMute | KCalculator
| KMultimediaPlayPause | KMultimediaStop | KVolumeDown | KVolumeUp | KWWWHome | KKeypadSlash | KRightAlt | KHome | KUpArrow | KPageUp | KLeftArrow
| KRightArrow | KEnd | KDownArrow | KPageDown | KInsert | KDelete | KLeftGUI | KRightGUI | KApplication | KPower | KSleep | KWake | KWWWSearch
| KWWWFavorites | KWWWRefresh | KWWWStop | KWWWForward | KWWWBack | KMyComputer | KEmail | KMultimediaSelect.
(** the keys in the order of their numbers *)
Definition key_types : list KeyType :=
  [KNone1; KEscape; KNum1; KNum2; KNum3; KNum4; KNum5; KNum6; KNum7; KNum8; KNum9; KNum0; KMinus; KEquals; KBackspace; KTab; KQ; KW; KE; KR; KT; KY;
  KU; KI; KO; KP; KLeftBracket; KRightBracket; KEnter; KLeftCtrl; KA; KS; KD; KF; KG; KH; KJ; KK; KL; KSemicolon; KSingleQuote; KBacktick;
  KLeftShift; KBackslash; KZ; KX; KC; KV; KB; KN; KM; KComma; KDot; KSlash; KRightShift; KKeypadAsterisk; KLeftAlt; KSpace; KCapsLock; KF1; KF2; KF3;
  KF4; KF5; KF6; KF7; KF8; KF9; KF10; KNumLock; KScrollLock; KKeypad7; KKeypad8; KKeypad9; KKeypadMinus; KKeypad4; KKeypad5; KKeypad6; KKeypadPlus;
  KKeypad1; KKeypad2; KKeypad3; KKeypad0; KKeypadDot; KNone2; KNone3; KNone4; KF11; KF12; KMultimediaPreviousTrack; KMultimediaNextTrack;
  KKeypadEnter; KRightCtrl; KMultimediaMute; KCalculator; KMultimediaPlayPause; KMultimediaStop; KVolumeDown; KVolumeUp; KWWWHome; KKeypadSlash;
  KRightAlt; KHome; KUpArrow; KPageUp; KLeftArrow; KRightArrow; KEnd; KDownArrow; KPageDown; KInsert; KDelete; KLeftGUI; KRightGUI; KApplication;
  KPower; KSleep; KWake; KWWWSearch; KWWWFavorites; KWWWRefresh; KWWWStop; KWWWForward; KWWWBack; KMyComputer; KEmail; KMultimediaSelect].
(** [as u8] *)
Definition key_code (k : KeyType) : Z :=
  match k with
  | KNone1 => 0 | KEscape => 1 | KNum1 => 2 | KNum2 => 3 | KNum3 => 4 | KNum4 => 5 | KNum5 => 6 | KNum6 => 7 | KNum7 => 8 | KNum8 => 9 | KNum9 => 10
  | KNum0 => 11 | KMinus => 12 | KEquals => 13 | KBackspace => 14 | KTab => 15 | KQ => 16 | KW => 17 | KE => 18 | KR => 19 | KT => 20 | KY => 21
  | KU => 22 | KI => 23 | KO => 24 | KP => 25 | KLeftBracket => 26 | KRightBracket => 27 | KEnter => 28 | KLeftCtrl => 29 | KA => 30 | KS => 31
  | KD => 32 | KF => 33 | KG => 34 | KH => 35 | KJ => 36 | KK => 37 | KL => 38 | KSemicolon => 39 | KSingleQuote => 40 | KBacktick => 41
  | KLeftShift => 42 | KBackslash => 43 | KZ => 44 | KX => 45 | KC => 46 | KV => 47 | KB => 48 | KN => 49 | KM => 50 | KComma => 51 | KDot => 52
  | KSlash => 53 | KRightShift => 54 | KKeypadAsterisk => 55 | KLeftAlt => 56 | KSpace => 57 | KCapsLock => 58 | KF1 => 59 | KF2 => 60 | KF3 => 61
  | KF4 => 62 | KF5 => 63 | KF6 => 64 | KF7 => 65 | KF8 => 66 | KF9 => 67 | KF10 => 68 | KNumLock => 69 | KScrollLock => 70 | KKeypad7 => 71
  | KKeypad8 => 72 | KKeypad9 => 73 | KKeypadMinus => 74 | KKeypad4 => 75 | KKeypad5 => 76 | KKeypad6 => 77 | KKeypadPlus => 78 | KKeypad1 => 79
  | KKeypad2 => 80 | KKeypad3 => 81 | KKeypad0 => 82 | KKeypadDot => 83 | KNone2 => 84 | KNone3 => 85 | KNone4 => 86 | KF11 => 87 | KF12 => 88
  | KMultimediaPreviousTrack => 89 | KMultimediaNextTrack => 90 | KKeypadEnter => 91 | KRightCtrl => 92 | KMultimediaMute => 93 | KCalculator => 94
  | KMultimediaPlayPause => 95 | KMultimediaStop => 96 | KVolumeDown => 97 | KVolumeUp => 98 | KWWWHome => 99 | KKeypadSlash => 100
  | KRightAlt => 101 | KHome => 102 | KUpArrow => 103 | KPageUp => 104 | KLeftArrow => 105 | KRightArrow => 106 | KEnd => 107 | KDownArrow => 108
  | KPageDown => 109 | KInsert => 110 | KDelete => 111 | KLeftGUI => 112 | KRightGUI => 113 | KApplication => 114 | KPower => 115 | KSleep => 116
  | KWake => 117 | KWWWSearch => 118 | KWWWFavorites => 119 | KWWWRefresh => 120 | KWWWStop => 121 | KWWWForward => 122 | KWWWBack => 123
  | KMyComputer => 124 | KEmail => 125 | KMultimediaSelect => 126
  end.
(** [transmute] from a number below the number of keys *)
Definition key_of_code (n : Z) : outcome KeyType := unwrap (key_types !! Z.to_nat n).
Definition US_KEYTYPE_KEYMAP : list Z :=
  [0; 27; 49; 50; 51; 52; 53; 54; 55; 56; 57; 48; 45; 61; 8; 9; 113; 119; 101; 114; 116; 121; 117; 105; 111; 112; 91; 93; 10; 0; 97; 115; 100; 102;
  103; 104; 106; 107; 108; 59; 39; 96; 0; 92; 122; 120; 99; 118; 98; 110; 109; 44; 46; 47; 0; 42; 0; 32; 0; 0; 0; 0; 0; 0; 0; 0; 0; 0; 0; 0; 0; 55;
  56; 57; 45; 52; 53; 54; 43; 49; 50; 51; 48; 46; 0; 0; 0; 0; 0; 0; 0; 10; 0; 0; 0; 0; 0; 0; 0; 0; 47; 0; 0; 0; 0; 0; 0; 0; 0; 0; 0; 0; 0; 0; 0; 0;
  0; 0; 0; 0; 0; 0; 0; 0; 0; 0; 0].
Definition US_KEYTYPE_KEYMAP_SHIFTED : list Z :=
  [0; 27; 33; 64; 35; 36; 37; 94; 38; 42; 40; 41; 95; 43; 8; 9; 81; 87; 69; 82; 84; 89; 85; 73; 79; 80; 123; 125; 10; 0; 65; 83; 68; 70; 71; 72; 74;
  75; 76; 58; 34; 126; 0; 124; 90; 88; 67; 86; 66; 78; 77; 60; 62; 63; 0; 42; 0; 32; 0; 0; 0; 0; 0; 0; 0; 0; 0; 0; 0; 0; 0; 0; 0; 0; 45; 0; 53; 0;
  43; 0; 0; 0; 0; 0; 0; 0; 0; 0; 0; 0; 0; 0; 0; 0; 0; 0; 0; 0; 0; 0; 0; 0; 0; 0; 0; 0; 0; 0; 0; 0; 0; 0; 0; 0; 0; 0; 0; 0; 0; 0; 0; 0; 0; 0; 0; 0;
  0].
Definition virtual_key (self : KeyType) (shifted : bool) : outcome (option Z) :=
  let mappings := if shifted then US_KEYTYPE_KEYMAP_SHIFTED else US_KEYTYPE_KEYMAP in
  value ← unwrap (mappings !! Z.to_nat (key_code self));
  Ret (if value =? 0 then None else Some value).
Record Key : Type := mkKey { pressed : bool; modifiers : Z; key_type : KeyType }.
Definition KEY_BYTES_SIZE : Z := 2.
Definition key_from_bytes (b0 b1 : Z) : outcome Key :=
  k ← key_of_code b1;
  Ret (mkKey (negb (Z.land b0 PRESSED =? 0)) (Z.land b0 (unot 8 PRESSED)) k).
Definition key_as_bytes (self : Key) : bytes :=
  [Z.lor (Z.land (modifiers self) (unot 8 PRESSED)) (if pressed self then PRESSED else 0); key_code (key_type self)].
Definition virtual_char (self : Key) : outcome (option Z) := virtual_key (key_type self) (negb (Z.land (modifiers self) SHIFT =? 0)).

(** ** [kernel_user_link/mouse.rs] *)
Inductive ScrollType : Type := ScrollNone | VerticalUp | VerticalDown | HorizontalRight | HorizontalNegative.
Record MouseEvent : Type := mkMouse { m_x : Z; m_y : Z; scroll_type : ScrollType; buttons : Z }.
Definition MOUSE_BYTES_SIZE : Z := 5.
(** [u16 as i16] and back *)
Definition as_i16 (z : Z) : Z := if z <? 2 ^ 15 then z else z - 2 ^ 16.
Definition scroll_code (s : ScrollType) : Z :=
  match s with ScrollNone => 0 | VerticalUp => 1 | VerticalDown => 2 | HorizontalRight => 3 | HorizontalNegative => 4 end.
Definition scroll_of_code (n : Z) : outcome ScrollType :=
  if n =? 0 then Ret ScrollNone else if n =? 1 then Ret VerticalUp else if n =? 2 then Ret VerticalDown else if n =? 3 then Ret HorizontalRight
  else if n =? 4 then Ret HorizontalNegative else Panic.
Definition mouse_from_bytes (b0 b1 b2 b3 b4 : Z) : outcome MouseEvent :=
  s ← scroll_of_code (Z.shiftr b4 5);
  Ret (mkMouse (as_i16 (from_le [b0; b1])) (as_i16 (from_le [b2; b3])) s (Z.land b4 31)).
Definition mouse_as_bytes (self : MouseEvent) : bytes :=
  le 2 (wrap 16 (m_x self)) ++ le 2 (wrap 16 (m_y self)) ++ [Z.lor (Z.land (buttons self) 31) (wrap 8 (Z.shiftl (scroll_code (scroll_type self)) 5))].

(** ** [ps2.rs] *)
Definition PS2_STATUS_PORT : Z := 0x64.
Definition PS2_DATA_PORT : Z := 0x60.
Definition DATA_READY : Z := Z.shiftl 1 0.
Definition INPUT_BUFFER_FULL : Z := Z.shiftl 1 1.
Definition KEYBOARD_TIMEOUT_MOUSE_DATA : Z := Z.shiftl 1 5.
Definition PARITY_ERROR : Z := Z.shiftl 1 7.
Definition on (v bit : Z) : bool := negb (Z.land v bit =? 0).
Section ps2.
Context {H : Type} `{PortIo H}.
Definition read_data : ST H Z := io_in 1 PS2_DATA_PORT.
Definition read_status : ST H Z := io_in 1 PS2_STATUS_PORT.
Definition has_data : ST H bool := s ← read_status; mret (on s DATA_READY).
(** [(success, resend)] *)
Fixpoint wait_for_ack (timeout : nat) : ST H (bool * bool) :=
  match timeout with
  | O => mret (false, false)
  | S timeout =>
      s ← read_status;
      if on s DATA_READY then
        data ← read_data;
        if data =? 0xFA then mret (true, false) else if data =? 0xFE then mret (false, true) else panic
      else wait_for_ack timeout
  end.
(** the two loops of [wait_for_command_clear] *)
Fixpoint flush (fuel : nat) : ST H unit :=
  match fuel with
  | O => diverge
  | S fuel => s ← read_status; if on s DATA_READY then _ ← read_data; flush fuel else mret tt
  end.
Fixpoint wait_input (fuel : nat) : ST H unit :=
  match fuel with
  | O => diverge
  | S fuel => s ← read_status; if on s INPUT_BUFFER_FULL then wait_input fuel else mret tt
  end.
Definition wait_for_command_clear (fuel : nat) : ST H unit := _ ← flush fuel; wait_input fuel.
Definition write_prefix (fuel : nat) (prefix : Z) : ST H unit := _ ← wait_for_command_clear fuel; io_out 1 PS2_STATUS_PORT prefix.
Definition write_data (data : Z) : ST H unit := io_out 1 PS2_DATA_PORT data.
Fixpoint wait_read_data (fuel : nat) : ST H Z :=
  match fuel with
  | O => diverge
  | S fuel => s ← read_status; if on s DATA_READY then read_data else wait_read_data fuel
  end.
Fixpoint wait_read_data_slice (fuel : nat) (n : nat) : ST H bytes :=
  match n with
  | O => mret []
  | S n => b ← wait_read_data fuel; r ← wait_read_data_slice fuel n; mret (b :: r)
  end.
(** a resend uses up an attempt, a timeout does not *)
Fixpoint command_loop (wait fuel attempts : nat) (data : Z) : ST H (option unit) :=
  match fuel with
  | O => diverge
  | S fuel =>
      _ ← wait_for_command_clear wait;
      _ ← write_data data;
      r ← wait_for_ack 1000;
      if (snd r : bool) then
        if bool_decide (attempts <= 1)%nat then mret None else command_loop wait fuel (attempts - 1) data
      else if (fst r : bool) then mret (Some tt)
      else command_loop wait fuel attempts data
  end.
Definition write_command_data (fuel : nat) (data : Z) : ST H (option unit) := command_loop fuel fuel 3 data.
End ps2.

(** ** [keyboard.rs] *)
Definition KEYBOARD_BUFFER_SIZE : Z := 256.
Definition KEY_PRESSED : Z := Z.shiftl 1 7.
Definition EXTENDED_PREFIX : Z := 0xE0.
Definition F12_CODE : Z := key_code KF12.
Definition is_none_key (k : KeyType) : bool := match k with KNone1 | KNone2 | KNone3 | KNone4 => true | _ => false end.
(** the keys behind the prefix *)
Definition extended_keys : list (Z * KeyType) :=
  [(0x10, KMultimediaPreviousTrack); (0x19, KMultimediaNextTrack); (0x1C, KKeypadEnter); (0x1D, KRightCtrl); (0x20, KMultimediaMute);
  (0x21, KCalculator); (0x22, KMultimediaPlayPause); (0x24, KMultimediaStop); (0x2E, KVolumeDown); (0x30, KVolumeUp); (0x32, KWWWHome);
  (0x35, KKeypadSlash); (0x38, KRightAlt); (0x47, KHome); (0x48, KUpArrow); (0x49, KPageUp); (0x4B, KLeftArrow); (0x4D, KRightArrow); (0x4F, KEnd);
  (0x50, KDownArrow); (0x51, KPageDown); (0x52, KInsert); (0x53, KDelete); (0x5B, KLeftGUI); (0x5C, KRightGUI); (0x5D, KApplication); (0x5E, KPower);
  (0x5F, KSleep); (0x63, KWake); (0x65, KWWWSearch); (0x66, KWWWFavorites); (0x67, KWWWRefresh); (0x68, KWWWStop); (0x69, KWWWForward);
  (0x6A, KWWWBack); (0x6B, KMyComputer); (0x6C, KEmail); (0x6D, KMultimediaSelect)].
Fixpoint assoc {A} (n : Z) (l : list (Z * A)) : option A :=
  match l with [] => None | (k, a) :: l => if n =? k then Some a else assoc n l end.
Definition key_type_from_device (value : Z) : outcome (option KeyType) :=
  if Z.land value 0x80 =? 0 then
    if value <=? F12_CODE then
      k ← key_of_code value;
      Ret (if is_none_key k then None else Some k)
    else Ret None
  else Ret (assoc (Z.land value (unot 8 0x80)) extended_keys).
Definition get_modifier (key : Z) : option Z :=
  if key =? 0x2A then Some SHIFT else if key =? 0x36 then Some SHIFT else if key =? 0x1D then Some CTRL else if key =? 0x38 then Some ALT else None.
Definition get_toggle (key : Z) : option Z :=
  if key =? 0x3A then Some CAPS_LOCK else if key =? 0x45 then Some NUM_LOCK else if key =? 0x46 then Some SCROLL_LOCK else None.

Section devices.
Context {H : Type} `{PortIo H} `{Blinkcast}.
Record Keyboard : Type := mkKeyboard { active_modifiers : Z; active_toggles : Z; key_sender : Sender Key }.
Record Mouse : Type := mkMouseDev { has_extra_byte : bool; mouse_sender : Sender MouseEvent }.
Record KeyboardMouse : Type := mkDev { hw : H; keyboard : Keyboard; mouse : Mouse }.
Definition on_hw {A} (m : ST H A) : ST KeyboardMouse A := fun d =>
  match m (hw d) with
  | Ret (a, h) => Ret (a, mkDev h (keyboard d) (mouse d))
  | Panic => Panic
  | Diverge => Diverge
  end.
Definition set_modifiers (f : Z -> Z) : ST KeyboardMouse unit :=
  modify (fun d => mkDev (hw d) (mkKeyboard (f (active_modifiers (keyboard d))) (active_toggles (keyboard d)) (key_sender (keyboard d))) (mouse d)).
Definition set_toggles (f : Z -> Z) : ST KeyboardMouse unit :=
  modify (fun d => mkDev (hw d) (mkKeyboard (active_modifiers (keyboard d)) (f (active_toggles (keyboard d))) (key_sender (keyboard d))) (mouse d)).
Definition send_key (k : Key) : ST KeyboardMouse unit :=
  modify (fun d => mkDev (hw d) (mkKeyboard (active_modifiers (keyboard d)) (active_toggles (keyboard d)) (send k (key_sender (keyboard d)))) (mouse d)).
Definition send_event (e : MouseEvent) : ST KeyboardMouse unit :=
  modify (fun d => mkDev (hw d) (keyboard d) (mkMouseDev (has_extra_byte (mouse d)) (send e (mouse_sender (mouse d))))).
Definition keyboard_new : Keyboard := mkKeyboard 0 0 (new_sender KEYBOARD_BUFFER_SIZE).
(** [Keyboard::modifiers] *)
Definition current_modifiers (k : Keyboard) : Z :=
  Z.lor (Z.land (active_modifiers k) (unot 8 (Z.lor (Z.lor CAPS_LOCK NUM_LOCK) SCROLL_LOCK))) (active_toggles k).
Definition report_key (pressed_ : bool) (key : KeyType) : ST KeyboardMouse unit :=
  d ← get;
  send_key (mkKey pressed_ (current_modifiers (keyboard d)) key).
(** the part of [handle_keyboard_data] behind the prefix *)
Definition track_key (pressed_ : bool) (data : Z) : ST KeyboardMouse unit :=
  match get_modifier data with
  | Some modifier_key =>
      if pressed_ then set_modifiers (fun m => Z.lor m modifier_key) else set_modifiers (fun m => Z.land m (unot 8 modifier_key))
  | None =>
      match get_toggle data with
      | Some toggle_key =>
          d ← get;
          _ ← (if pressed_ && (Z.land (active_modifiers (keyboard d)) toggle_key =? 0) then set_toggles (fun t => Z.lxor t toggle_key) else mret tt);
          if pressed_ then set_modifiers (fun m => Z.lor m toggle_key) else set_modifiers (fun m => Z.land m (unot 8 toggle_key))
      | None => mret tt
      end
  end.
Definition handle_key (data : Z) : ST KeyboardMouse unit :=
  let pressed_ := Z.land data KEY_PRESSED =? 0 in
  let data := Z.land data (unot 8 KEY_PRESSED) in
  _ ← track_key pressed_ data;
  k ← lift (key_type_from_device data);
  match k with None => mret tt | Some key => report_key pressed_ key end.
Definition handle_keyboard_data : ST KeyboardMouse unit :=
  r ← on_hw has_data;
  if negb r then mret tt else
  data ← on_hw read_data;
  if data =? EXTENDED_PREFIX then
    data2 ← on_hw read_data;
    let pressed_ := Z.land data2 KEY_PRESSED =? 0 in
    k ← lift (key_type_from_device (Z.lor data2 0x80));
    match k with
    | None => mret tt
    | Some key => _ ← report_key pressed_ key; handle_key data
    end
  else handle_key data.

(** ** [mouse.rs] *)
Definition MOUSE_BUFFER_SIZE : Z := 1024.
Definition MOUSE_PREFIX : Z := 0xD4.
Definition MOUSE_RESET : Z := 0xFF.
Definition MOUSE_ENABLE_STREAMING : Z := 0xF4.
Definition MOUSE_SET_DEFAULTS : Z := 0xF6.
Definition MOUSE_SET_SAMPLE_RATE : Z := 0xF3.
Definition MOUSE_GET_DEVICE_ID : Z := 0xF2.
Definition Y_OVERFLOW : Z := Z.shiftl 1 7.
Definition X_OVERFLOW : Z := Z.shiftl 1 6.
Definition Y_SIGN : Z := Z.shiftl 1 5.
Definition X_SIGN : Z := Z.shiftl 1 4.
Fixpoint reset_loop (wait fuel : nat) : ST H unit :=
  match fuel with
  | O => diverge
  | S fuel =>
      data ← wait_read_data wait;
      if negb (data =? 0xAA) && negb (data =? 0xFA) then panic
      else if data =? 0xAA then mret tt else reset_loop wait fuel
  end.
Definition reset (fuel : nat) : ST H unit :=
  _ ← write_prefix fuel MOUSE_PREFIX;
  r ← write_command_data fuel MOUSE_RESET;
  _ ← lift (unwrap r);
  reset_loop fuel fuel.
Definition write_command (fuel : nat) (command : Z) (extra : option Z) : ST H unit :=
  _ ← write_prefix fuel MOUSE_PREFIX;
  r ← write_command_data fuel command;
  _ ← lift (unwrap r);
  match extra with
  | Some extra => _ ← write_prefix fuel MOUSE_PREFIX; _ ← write_command_data fuel extra; mret tt
  | None => mret tt
  end.
Definition get_id (fuel : nat) : ST H Z := _ ← write_command fuel MOUSE_GET_DEVICE_ID None; wait_read_data fuel.
Fixpoint sample_rates (fuel : nat) (rates : list Z) : ST H unit :=
  match rates with [] => mret tt | r :: rates => _ ← write_command fuel MOUSE_SET_SAMPLE_RATE (Some r); sample_rates fuel rates end.
(** [Mouse::new]: enable it and ask for the wheel and the extra buttons *)
Definition mouse_new (fuel : nat) : ST H Mouse :=
  _ ← reset fuel;
  mouse_id ← get_id fuel;
  _ ← write_command fuel MOUSE_SET_DEFAULTS None;
  _ ← write_command fuel MOUSE_ENABLE_STREAMING None;
  mouse_id ← (if negb (mouse_id =? 3) then _ ← sample_rates fuel [200; 100; 80]; get_id fuel else mret mouse_id);
  mouse_id ← (if mouse_id =? 3 then _ ← sample_rates fuel [200; 200; 80]; get_id fuel else mret mouse_id);
  mret (mkMouseDev ((mouse_id =? 3) || (mouse_id =? 4)) (new_sender MOUSE_BUFFER_SIZE)).
Fixpoint read_packet (n : nat) : ST KeyboardMouse bytes :=
  match n with O => mret [] | S n => b ← on_hw read_data; r ← read_packet n; mret (b :: r) end.
(** what a packet says *)
Definition packet_event (d0 d1 d2 d3 : Z) : MouseEvent :=
  let sign v bit := if negb (Z.land d0 bit =? 0) then Z.lor v 0xFF00 else v in
  let wheel := Z.land d3 15 in
  mkMouse (as_i16 (sign d1 X_SIGN)) (as_i16 (sign d2 Y_SIGN))
    (if wheel =? 1 then VerticalUp else if wheel =? 15 then VerticalDown else if wheel =? 2 then HorizontalRight
     else if wheel =? 14 then HorizontalNegative else ScrollNone)
    (Z.lor (Z.land d0 7) (Z.shiftl (Z.land (Z.shiftr d3 4) 3) 3)).
Definition handle_mouse_data : ST KeyboardMouse unit :=
  d ← get;
  data ← read_packet (if has_extra_byte (mouse d) then 4 else 3)%nat;
  let b i := nth i data 0 in
  if on (b 0%nat) X_OVERFLOW || on (b 0%nat) Y_OVERFLOW then mret tt
  else send_event (packet_event (b 0%nat) (b 1%nat) (b 2%nat) (b 3%nat)).

(** ** [mod.rs] *)
Definition fetch_next_data : ST KeyboardMouse bool :=
  status ← on_hw read_status;
  if negb (on status DATA_READY) then mret false else
  if on status PARITY_ERROR then _ ← on_hw read_data; mret false else
  _ ← (if on status KEYBOARD_TIMEOUT_MOUSE_DATA then handle_mouse_data else handle_keyboard_data);
  mret true.
Fixpoint read_all_events (fuel : nat) : ST KeyboardMouse unit :=
  match fuel with
  | O => diverge
  | S fuel => r ← fetch_next_data; if (r : bool) then read_all_events fuel else mret tt
  end.

(** the loop of the [read] of a device: whole records while there is room; the
    bytes, and the receiver *)
Fixpoint device_loop {A} (size : Z) (as_bytes : A -> bytes) (s : Sender A) (fuel : nat) (reader : Receiver A) (i len : Z) : outcome (bytes * Receiver A) :=
  match fuel with
  | O => Diverge
  | S fuel =>
      if i + size <=? len then
        match recv s reader with
        | (Some e, reader) => r ← device_loop size as_bytes s fuel reader (i + size) len; Ret (as_bytes e ++ fst r, snd r)
        | (None, reader) => Ret ([], reader)
        end
      else Ret ([], reader)
  end.
(** [KeyboardDevice::read] and [MouseDevice::read] into a buffer of [len] bytes *)
Definition device_read {A} (size : Z) (as_bytes : A -> bytes) (s : Sender A) (reader : Receiver A) (len : Z) : outcome (result bytes FileSystemError * Receiver A) :=
  if len <? size then Ret (Err (BufferNotLargeEnough size), reader) else
  r ← device_loop size as_bytes s (S (Z.to_nat len)) reader 0 len;
  Ret (Ok (fst r), snd r).
Definition keyboard_read (s : Sender Key) (reader : Receiver Key) (len : Z) : outcome (result bytes FileSystemError * Receiver Key) :=
  device_read KEY_BYTES_SIZE key_as_bytes s reader len.
Definition mouse_read (s : Sender MouseEvent) (reader : Receiver MouseEvent) (len : Z) : outcome (result bytes FileSystemError * Receiver MouseEvent) :=
  device_read MOUSE_BYTES_SIZE mouse_as_bytes s reader len.

(** ** [emerald_runtime/src/keyboard.rs] and [mouse.rs]: the side of a program,
    whose reads of the file are reads of the device *)
Definition get_key_event (s : Sender Key) (file : Receiver Key) : outcome (option Key * Receiver Key) :=
  r ← keyboard_read s file KEY_BYTES_SIZE;
  match fst r with
  | Ok [b0; b1] => k ← key_from_bytes b0 b1; Ret (Some k, snd r)
  | Ok _ => Ret (None, snd r)
  | Err _ => Panic
  end.
Definition get_event (s : Sender MouseEvent) (file : Receiver MouseEvent) : outcome (option MouseEvent * Receiver MouseEvent) :=
  r ← mouse_read s file MOUSE_BYTES_SIZE;
  match fst r with
  | Ok [b0; b1; b2; b3; b4] => e ← mouse_from_bytes b0 b1 b2 b3 b4; Ret (Some e, snd r)
  | Ok _ => Ret (None, snd r)
  | Err _ => Panic
  end.
(** [iter_keys] and [iter_events], to their end *)
Fixpoint iter {A} (get_one : Receiver A -> outcome (option A * Receiver A)) (fuel : nat) (file : Receiver A) : outcome (list A * Receiver A) :=
  match fuel with
  | O => Diverge
  | S fuel =>
      r ← get_one file;
      match r with
      | (Some e, file) => r ← iter get_one fuel file; Ret (e :: fst r, snd r)
      | (None, file) => Ret ([], file)
      end
  end.
Definition iter_keys (s : Sender Key) : nat -> Receiver Key -> outcome (list Key * Receiver Key) := iter (get_key_event s).
Definition iter_events (s : Sender MouseEvent) : nat -> Receiver MouseEvent -> outcome (list MouseEvent * Receiver MouseEvent) := iter (get_event s).
End devices.
Arguments KeyboardMouse H {_}.
End Input.
