(* ===== verification/InputSpec.v ===== *)
(** * Keyboard and mouse: from the wire to the program

    Scan codes and packets are decoded to exactly the keys and movements they
    stand for, with the modifiers that are in force, and a program that reads
    the devices decodes these events from the bytes it gets. *)
From S2P Require Import Prelude UserLink FsTypes Bytes AmlData Resource Aml AmlTree AcpiTables AcpiPower Input.

Import Input.

(** ** Events as bytes *)
Lemma key_code_lookup k : key_types !! Z.to_nat (key_code k) = Some k.
Proof. by destruct k. Qed.
Lemma key_bytes_decode k : 0 <= modifiers k < 128 -> exists b0 b1, key_as_bytes k = [b0; b1] /\ key_from_bytes b0 b1 = Ret k.
Proof.
  intros Hm. destruct k as [p m k]. cbn [modifiers] in Hm. eexists _, _. split; [reflexivity|]. unfold key_from_bytes, key_of_code. cbn [pressed modifiers key_type].
  rewrite key_code_lookup. cbn [unwrap mbind outcome_bind].
  assert (E : forall m, 0 <= m < 128 -> Z.land m (unot 8 PRESSED) = m).
  { intros x Hx. change (unot 8 PRESSED) with (Z.ones 7). rewrite Z.land_ones by lia. apply Z.mod_small. lia. }
  rewrite E by done. assert (Hb : forall i, 7 <= i -> Z.testbit m i = false) by (intros i Hi; apply (testbit_small 7); [unfold in_word; lia|lia]).
  do 2 f_equal.
  - destruct p; [|rewrite Z.lor_0_r].
    + destruct (Z.eqb_spec (Z.land (Z.lor m PRESSED) PRESSED) 0) as [E0|]; [|done]. apply (f_equal (fun z => Z.testbit z 7)) in E0.
      rewrite Z.land_spec, Z.lor_spec in E0. change (Z.testbit PRESSED 7) with true in E0. by rewrite orb_true_r in E0.
    + replace (Z.land m PRESSED) with 0; [done|]. symmetry. apply Z.bits_inj'. intros i Hi. rewrite Z.land_spec, Z.bits_0. unfold PRESSED.
      rewrite Z.shiftl_1_l, Z.pow2_bits_eqb by lia. destruct (Z.eqb_spec 7 i) as [<-|]; [|apply andb_false_r]. by rewrite Hb.
  - rewrite <- (E m Hm) at 2. change (unot 8 PRESSED) with (Z.ones 7). apply Z.bits_inj'. intros i Hi. rewrite !Z.land_spec.
    destruct p; [|by rewrite Z.lor_0_r]. rewrite Z.lor_spec. unfold PRESSED. rewrite Z.shiftl_1_l, Z.pow2_bits_eqb by lia. rewrite Z.testbit_ones by lia.
    destruct (Z.eqb_spec 7 i) as [<-|]; [by rewrite !andb_false_r|]. by rewrite orb_false_r.
Qed.
Lemma as_i16_wrap z : -2 ^ 15 <= z < 2 ^ 15 -> as_i16 (wrap 16 z) = z.
Proof.
  intros Hz. unfold as_i16, wrap. destruct (Z.ltb_spec (z mod 2 ^ 16) (2 ^ 15)); Z.to_euclidean_division_equations; lia.
Qed.
Lemma mouse_bytes_decode e : -2 ^ 15 <= m_x e < 2 ^ 15 -> -2 ^ 15 <= m_y e < 2 ^ 15 -> 0 <= buttons e < 32 ->
  exists b0 b1 b2 b3 b4, mouse_as_bytes e = [b0; b1; b2; b3; b4] /\ mouse_from_bytes b0 b1 b2 b3 b4 = Ret e.
Proof.
  intros Hx Hy Hb. destruct e as [x y s b]. cbn [m_x m_y buttons] in *. unfold mouse_as_bytes. cbn [m_x m_y buttons scroll_type].
  assert (Hle : forall z, exists l h, le 2 (wrap 16 z) = [l; h] /\ from_le [l; h] = wrap 16 z).
  { intros z. eexists _, _. split; [reflexivity|]. rewrite <- (from_le_le 2 (wrap 16 z)) at 3; [reflexivity|]. apply (Z.mod_pos_bound z (2 ^ 16)). lia. }
  destruct (Hle x) as (x0 & x1 & -> & Ex), (Hle y) as (y0 & y1 & -> & Ey). do 5 eexists. split; [reflexivity|]. unfold mouse_from_bytes. rewrite Ex, Ey, !as_i16_wrap by done.
  change 31 with (Z.ones 5). rewrite (Z.land_ones b), (Z.mod_small b) by lia.
  assert (Hs : exists c, 0 <= c < 8 /\ wrap 8 (Z.shiftl (scroll_code s) 5) = Z.shiftl c 5 /\ scroll_of_code c = Ret s) by (exists (scroll_code s); by destruct s).
  destruct Hs as (c & Hc & -> & Es). assert (Hor : Z.lor b (Z.shiftl c 5) = b + c * 2 ^ 5) by (apply lor_shiftl_add; lia). rewrite Hor.
  rewrite Z.shiftr_div_pow2, Z.land_ones by lia. rewrite Z.div_add, Z.mod_add, Z.div_small, Z.mod_small by lia. by rewrite Z.add_0_l, Es.
Qed.

(** ** What the wire says *)
(** a key with a scan code of one byte, a key behind the prefix, a movement *)
Inductive action : Type :=
| AKey (code : Z) (down : bool)
| AExt (code : Z) (down : bool)
| AMouse (e : MouseEvent).
Definition scan (code : Z) (down : bool) : Z := if down then code else code + 128.
Definition wheel_code (s : ScrollType) : Z :=
  match s with ScrollNone => 0 | VerticalUp => 1 | VerticalDown => 15 | HorizontalRight => 2 | HorizontalNegative => 14 end.
(** nine bits for each direction, the signs in the first byte *)
Definition packet (extra : bool) (e : MouseEvent) : bytes :=
  let sign v bit := if v <? 0 then bit else 0 in
  [buttons e mod 8 + 8 + sign (m_x e) 16 + sign (m_y e) 32; m_x e mod 256; m_y e mod 256] ++
  (if extra then [wheel_code (scroll_type e) + 16 * (buttons e / 8)] else []).
Definition act_bytes (extra : bool) (a : action) : list (bool * Z) :=
  match a with
  | AKey code down => [(false, scan code down)]
  | AExt code down => [(false, EXTENDED_PREFIX); (false, scan code down)]
  | AMouse e => (true,.) <$> packet extra e
  end.
(** the release of key 0x60 would be the prefix *)
Definition act_ok (extra : bool) (a : action) : Prop :=
  match a with
  | AKey code _ => 0 <= code < 128 /\ code <> 0x60
  | AExt code _ => 0 <= code < 128
  | AMouse e => -256 <= m_x e < 256 /\ -256 <= m_y e < 256 /\ 0 <= buttons e < 32 /\ (extra = false -> buttons e < 8 /\ scroll_type e = ScrollNone)
  end.

(** ** What the keys mean *)
(** the keys of a keyboard by the place they have in scan code set 1, in rows,
    and the ones behind the prefix *)
Definition key_row (first : Z) (l : list KeyType) : list (bool * Z * KeyType) := imap (fun i k => (false, first + Z.of_nat i, k)) l.
Definition layout : list (bool * Z * KeyType) :=
  (false, 0x01, KEscape) :: key_row 0x02 [KNum1; KNum2; KNum3; KNum4; KNum5; KNum6; KNum7; KNum8; KNum9; KNum0; KMinus; KEquals; KBackspace] ++
  key_row 0x0F [KTab; KQ; KW; KE; KR; KT; KY; KU; KI; KO; KP; KLeftBracket; KRightBracket; KEnter] ++
  key_row 0x1D [KLeftCtrl; KA; KS; KD; KF; KG; KH; KJ; KK; KL; KSemicolon; KSingleQuote; KBacktick] ++
  key_row 0x2A [KLeftShift; KBackslash; KZ; KX; KC; KV; KB; KN; KM; KComma; KDot; KSlash; KRightShift] ++
  key_row 0x37 [KKeypadAsterisk; KLeftAlt; KSpace; KCapsLock] ++ key_row 0x3B [KF1; KF2; KF3; KF4; KF5; KF6; KF7; KF8; KF9; KF10] ++
  key_row 0x45 [KNumLock; KScrollLock] ++ key_row 0x47 [KKeypad7; KKeypad8; KKeypad9; KKeypadMinus] ++
  key_row 0x4B [KKeypad4; KKeypad5; KKeypad6; KKeypadPlus] ++ key_row 0x4F [KKeypad1; KKeypad2; KKeypad3; KKeypad0; KKeypadDot] ++
  key_row 0x57 [KF11; KF12] ++
  [(true, 0x47, KHome); (true, 0x48, KUpArrow); (true, 0x49, KPageUp); (true, 0x4B, KLeftArrow); (true, 0x4D, KRightArrow); (true, 0x4F, KEnd);
   (true, 0x50, KDownArrow); (true, 0x51, KPageDown); (true, 0x52, KInsert); (true, 0x53, KDelete); (true, 0x1C, KKeypadEnter); (true, 0x35, KKeypadSlash);
   (true, 0x1D, KRightCtrl); (true, 0x38, KRightAlt); (true, 0x5B, KLeftGUI); (true, 0x5C, KRightGUI); (true, 0x5D, KApplication);
   (true, 0x5E, KPower); (true, 0x5F, KSleep); (true, 0x63, KWake);
   (true, 0x20, KMultimediaMute); (true, 0x2E, KVolumeDown); (true, 0x30, KVolumeUp); (true, 0x10, KMultimediaPreviousTrack);
   (true, 0x19, KMultimediaNextTrack); (true, 0x22, KMultimediaPlayPause); (true, 0x24, KMultimediaStop); (true, 0x6D, KMultimediaSelect);
   (true, 0x21, KCalculator); (true, 0x6B, KMyComputer); (true, 0x6C, KEmail); (true, 0x32, KWWWHome); (true, 0x65, KWWWSearch);
   (true, 0x66, KWWWFavorites); (true, 0x67, KWWWRefresh); (true, 0x68, KWWWStop); (true, 0x69, KWWWForward); (true, 0x6A, KWWWBack)].
Definition key_at (place : bool * Z) : option KeyType := match list_find (fun e => fst e = place) layout with Some (_, e) => Some (snd e) | None => None end.
(** what happened to the keys so far, newest first; a key is held when the last
    thing that happened to it is that it went down *)
Definition events : Type := list (bool * Z * bool).
Fixpoint holding (place : bool * Z) (h : events) : bool :=
  match h with [] => false | (p, down) :: h => if decide (p = place) then down else holding place h end.
(** a lock changes when its key goes down, not while it repeats *)
Fixpoint lock_on (place : bool * Z) (h : events) : bool :=
  match h with
  | [] => false
  | (p, down) :: h => if decide (p = place) then (if down && negb (holding place h) then negb (lock_on place h) else lock_on place h) else lock_on place h
  end.
Definition flag (b : bool) (bit : Z) : Z := if b then bit else 0.
(** shift, control and alt while one of their two keys is held, and the locks *)
Definition in_force (h : events) : Z :=
  flag (holding (false, 0x2A) h || holding (false, 0x36) h) 1 + flag (holding (false, 0x1D) h || holding (true, 0x1D) h) 2 +
  flag (holding (false, 0x38) h || holding (true, 0x38) h) 4 +
  flag (lock_on (false, 0x3A) h) 8 + flag (lock_on (false, 0x45) h) 16 + flag (lock_on (false, 0x46) h) 32.
Definition act_event (a : action) : option (bool * Z * bool) :=
  match a with AKey code down => Some (false, code, down) | AExt code down => Some (true, code, down) | AMouse _ => None end.
Fixpoint typed (h : events) (acts : list action) : list Key :=
  match acts with
  | [] => []
  | a :: acts =>
      match act_event a with
      | Some (p, down) => match key_at p with Some k => [mkKey down (in_force ((p, down) :: h)) k] | None => [] end ++ typed ((p, down) :: h) acts
      | None => typed h acts
      end
  end.
(** only a key that is down goes up, the two shift keys are not held together,
    and the right control and alt keys are left alone *)
Fixpoint usual (h : events) (acts : list action) : Prop :=
  match acts with
  | [] => True
  | a :: acts =>
      match act_event a with
      | Some (p, down) => (down = false -> holding p h = true) /\
          ~ (holding (false, 0x2A) ((p, down) :: h) = true /\ holding (false, 0x36) ((p, down) :: h) = true) /\
          p <> (true, 0x1D) /\ p <> (true, 0x38) /\ usual ((p, down) :: h) acts
      | None => usual h acts
      end
  end.

(** ** What the driver keeps of the keys, newest first *)
Definition history : Type := list (Z * bool).
(** whether the last of the keys [p] that moved went down *)
Fixpoint held (p : Z -> bool) (h : history) : bool :=
  match h with [] => false | (c, down) :: h => if p c then down else held p h end.
Definition is_shift (c : Z) : bool := (c =? 0x2A) || (c =? 0x36).
Definition key_is (k c : Z) : bool := c =? k.
(** a lock changes when its key goes down, not while it repeats *)
Fixpoint locked (k : Z) (h : history) : bool :=
  match h with
  | [] => false
  | (c, down) :: h => if key_is k c && down && negb (held (key_is k) h) then negb (locked k h) else locked k h
  end.
Definition bits (l : list (bool * Z)) : Z := foldr (fun p z => Z.lor (flag (fst p) (snd p)) z) 0 l.
Definition mod_flags (h : history) : list (bool * Z) := [(held is_shift h, SHIFT); (held (key_is 0x1D) h, CTRL); (held (key_is 0x38) h, ALT)].
Definition lock_flags (h : history) : list (bool * Z) := [(locked 0x3A h, CAPS_LOCK); (locked 0x45 h, NUM_LOCK); (locked 0x46 h, SCROLL_LOCK)].
Definition down_flags (h : history) : list (bool * Z) :=
  [(held (key_is 0x3A) h, CAPS_LOCK); (held (key_is 0x45) h, NUM_LOCK); (held (key_is 0x46) h, SCROLL_LOCK)].
Definition driver_mods (h : history) : Z := bits (mod_flags h ++ lock_flags h).
Definition plain_key (code : Z) : option KeyType :=
  if code <=? 88 then match key_types !! Z.to_nat code with Some k => if is_none_key k then None else Some k | None => None end else None.
Definition next_history (h : history) (a : action) : history := match a with AKey code down => (code, down) :: h | _ => h end.
Definition keys_of (h : history) (a : action) : list Key :=
  match a with
  | AKey code down => match plain_key code with Some k => [mkKey down (driver_mods ((code, down) :: h)) k] | None => [] end
  | AExt code down => match assoc code extended_keys with Some k => [mkKey down (driver_mods h) k] | None => [] end
  | AMouse _ => []
  end.
Fixpoint all_keys (h : history) (acts : list action) : list Key :=
  match acts with [] => [] | a :: acts => keys_of h a ++ all_keys (next_history h a) acts end.
Definition moves_of (a : action) : option MouseEvent := match a with AMouse e => Some e | _ => None end.

(** the state of the keyboard after a history *)
Definition tracks (h : history) (m t : Z) : Prop := m = bits (mod_flags h ++ down_flags h) /\ t = bits (lock_flags h).
Lemma tracks_modifiers h m t : tracks h m t -> Z.lor (Z.land m (unot 8 (Z.lor (Z.lor CAPS_LOCK NUM_LOCK) SCROLL_LOCK))) t = driver_mods h.
Proof.
  intros [-> ->]. unfold driver_mods, mod_flags, down_flags, lock_flags.
  destruct (held is_shift h), (held (key_is 0x1D) h), (held (key_is 0x38) h), (held (key_is 0x3A) h), (held (key_is 0x45) h), (held (key_is 0x46) h),
    (locked 0x3A h), (locked 0x45 h), (locked 0x46 h); reflexivity.
Qed.
Lemma driver_mods_small h : 0 <= driver_mods h < 128.
Proof.
  unfold driver_mods, mod_flags, lock_flags.
  destruct (held is_shift h), (held (key_is 0x1D) h), (held (key_is 0x38) h), (locked 0x3A h), (locked 0x45 h), (locked 0x46 h); by vm_compute.
Qed.
(** ** The driver keeps the keys that are held *)
#[export] Instance KeyType_eq_dec : EqDecision KeyType.
Proof. solve_decision. Defined.
Lemma key_at_plain c : 0 <= c < 128 -> plain_key c = key_at (false, c).
Proof.
  intros Hc. assert (Forall (fun c => plain_key c = key_at (false, c)) (seqZ 0 128)) as Hall by (apply (bool_decide_unpack _); by vm_compute).
  rewrite Forall_forall in Hall. apply Hall, elem_of_seqZ. lia.
Qed.
Lemma key_at_extended c : 0 <= c < 128 -> assoc c extended_keys = key_at (true, c).
Proof.
  intros Hc. assert (Forall (fun c => assoc c extended_keys = key_at (true, c)) (seqZ 0 128)) as Hall by (apply (bool_decide_unpack _); by vm_compute).
  rewrite Forall_forall in Hall. apply Hall, elem_of_seqZ. lia.
Qed.
(** the driver's history, against what happened *)
Definition agrees (g : history) (h : events) : Prop :=
  (forall c, held (key_is c) g = holding (false, c) h) /\ (forall c, locked c g = lock_on (false, c) h) /\
  held is_shift g = holding (false, 0x2A) h || holding (false, 0x36) h /\
  ~ (holding (false, 0x2A) h = true /\ holding (false, 0x36) h = true) /\ holding (true, 0x1D) h = false /\ holding (true, 0x38) h = false.
Lemma agrees_mods g h : agrees g h -> driver_mods g = in_force h.
Proof.
  intros (Hh & Hl & Hs & _ & Hc & Ha). unfold driver_mods, in_force, mod_flags, lock_flags. rewrite Hs, !Hh, !Hl, Hc, Ha, !orb_false_r.
  destruct (_ || _), (holding (false, 0x1D) h), (holding (false, 0x38) h), (lock_on (false, 0x3A) h), (lock_on (false, 0x45) h), (lock_on (false, 0x46) h); reflexivity.
Qed.
Lemma agrees_plain g h c down : agrees g h -> (down = false -> holding (false, c) h = true) ->
  ~ (holding (false, 0x2A) ((false, c, down) :: h) = true /\ holding (false, 0x36) ((false, c, down) :: h) = true) ->
  agrees ((c, down) :: g) ((false, c, down) :: h).
Proof.
  intros (Hh & Hl & Hs & Hn & Hc & Ha) Hup Hone. split_and!; [| | |done|cbn; by rewrite decide_False by done|cbn; by rewrite decide_False by done].
  - intros k. cbn [held holding]. unfold key_is at 1. destruct (Z.eqb_spec c k) as [->|Hk]; [by rewrite decide_True|]. rewrite decide_False by congruence. apply Hh.
  - intros k. cbn [locked lock_on]. unfold key_is at 1. destruct (Z.eqb_spec c k) as [->|Hk]; cbn [andb]; [rewrite decide_True by done|rewrite decide_False by congruence; apply Hl].
    by rewrite Hh, Hl.
  - cbn [held holding] in *. unfold is_shift at 1. destruct (Z.eqb_spec c 0x2A) as [->|H1]; cbn [orb].
    { rewrite decide_True, decide_False in * by done. destruct down; [done|]. specialize (Hup eq_refl). destruct (holding (false, 0x36) h); [by destruct Hn|done]. }
    destruct (Z.eqb_spec c 0x36) as [->|H2].
    { rewrite decide_False, decide_True in * by done. destruct down; [by rewrite orb_true_r|]. specialize (Hup eq_refl). destruct (holding (false, 0x2A) h); [by destruct Hn|done]. }
    rewrite !decide_False by congruence. exact Hs.
Qed.
Lemma agrees_extended g h c down : agrees g h -> c <> 0x1D -> c <> 0x38 -> agrees g ((true, c, down) :: h).
Proof.
  intros (Hh & Hl & Hs & Hn & Hc & Ha) H1 H2. split_and!; intros; cbn [holding lock_on]; rewrite ?decide_False by congruence; auto.
Qed.
(** the words after a key *)
Definition track_words (down : bool) (c m t : Z) : Z * Z :=
  let put b := if down then Z.lor m b else Z.land m (unot 8 b) in
  match get_modifier c with
  | Some b => (put b, t)
  | None => match get_toggle c with Some b => (put b, if down && (Z.land m b =? 0) then Z.lxor t b else t) | None => (m, t) end
  end.
Ltac all_flags h :=
  destruct (held is_shift h), (held (key_is 0x1D) h), (held (key_is 0x38) h), (held (key_is 0x3A) h), (held (key_is 0x45) h), (held (key_is 0x46) h).
(** the copy of a lock's key among the modifiers *)
Lemma down_bit h : let m := bits (mod_flags h ++ down_flags h) in
  (Z.land m CAPS_LOCK =? 0) = negb (held (key_is 0x3A) h) /\ (Z.land m NUM_LOCK =? 0) = negb (held (key_is 0x45) h) /\
  (Z.land m SCROLL_LOCK =? 0) = negb (held (key_is 0x46) h).
Proof. cbn zeta. unfold mod_flags, down_flags. all_flags h; split_and!; reflexivity. Qed.
Lemma tracks_mods h t c down : fst (track_words down c (bits (mod_flags h ++ down_flags h)) t) = bits (mod_flags ((c, down) :: h) ++ down_flags ((c, down) :: h)).
Proof.
  unfold mod_flags, down_flags. cbn [held]. destruct (decide (c ∈ [0x2A; 0x36; 0x1D; 0x38; 0x3A; 0x45; 0x46])) as [Hc|Hc].
  - apply list_elem_of_In in Hc. repeat (destruct Hc as [<-|Hc]; [all_flags h; destruct down; reflexivity|]). done.
  - assert (Hk : forall k, k ∈ [0x2A; 0x36; 0x1D; 0x38; 0x3A; 0x45; 0x46] -> key_is k c = false) by (intros k Hk; apply Z.eqb_neq; intros ->; done).
    assert (Hs : is_shift c = false) by (change ((key_is 0x2A c || key_is 0x36 c) = false); by rewrite !Hk by set_solver).
    unfold track_words, get_modifier, get_toggle. fold (key_is 0x2A c) (key_is 0x36 c) (key_is 0x1D c) (key_is 0x38 c) (key_is 0x3A c) (key_is 0x45 c) (key_is 0x46 c).
    by rewrite !Hk, Hs by set_solver.
Qed.
Lemma tracks_locks h c down : snd (track_words down c (bits (mod_flags h ++ down_flags h)) (bits (lock_flags h))) = bits (lock_flags ((c, down) :: h)).
Proof.
  unfold lock_flags. cbn [locked]. destruct (down_bit h) as (D1 & D2 & D3). destruct (decide (c ∈ [0x2A; 0x36; 0x1D; 0x38])) as [Hc|Hc].
  { apply list_elem_of_In in Hc. repeat (destruct Hc as [<-|Hc]; [reflexivity|]). done. }
  destruct (decide (c ∈ [0x3A; 0x45; 0x46])) as [Hc'|Hc'].
  { unfold track_words. apply list_elem_of_In in Hc'. destruct Hc' as [<-|[<-|[<-|[]]]]; cbn [get_modifier get_toggle Z.eqb Pos.eqb snd]; rewrite ?D1, ?D2, ?D3;
      [destruct (held (key_is 0x3A) h)|destruct (held (key_is 0x45) h)|destruct (held (key_is 0x46) h)];
      destruct (locked 0x3A h), (locked 0x45 h), (locked 0x46 h), down; reflexivity. }
  assert (Hk : forall k, k ∈ [0x2A; 0x36; 0x1D; 0x38; 0x3A; 0x45; 0x46] -> key_is k c = false) by (intros k Hk; apply Z.eqb_neq; intros ->; set_solver).
  unfold track_words, get_modifier, get_toggle. fold (key_is 0x2A c) (key_is 0x36 c) (key_is 0x1D c) (key_is 0x38 c) (key_is 0x3A c) (key_is 0x45 c) (key_is 0x46 c).
  by rewrite !Hk by set_solver.
Qed.
Lemma tracks_step h m t c down : tracks h m t -> tracks ((c, down) :: h) (fst (track_words down c m t)) (snd (track_words down c m t)).
Proof. intros [-> ->]. split; [apply tracks_mods|apply tracks_locks]. Qed.

(** ** The wire *)
(** the controller holds the bytes that arrived, and from which device *)
Class Ps2Laws (H : Type) `{PortIo H} : Type := {
  queue : H -> list (bool * Z);
  status_reads : forall h, exists s, io_in 1 PS2_STATUS_PORT h = Ret (s, h) /\ on s DATA_READY = negb (bool_decide (queue h = [])) /\
    forall from b q, queue h = (from, b) :: q -> on s KEYBOARD_TIMEOUT_MOUSE_DATA = from /\ on s PARITY_ERROR = false;
  data_reads : forall h from b q, queue h = (from, b) :: q -> exists h', io_in 1 PS2_DATA_PORT h = Ret (b, h') /\ queue h' = q
}.

Section wire.
Context {H : Type} `{Ps2Laws H} `{Blinkcast}.
Implicit Types d : KeyboardMouse H.
Lemma read_data_ok d from b q : queue (hw d) = (from, b) :: q -> exists h', on_hw read_data d = Ret (b, mkDev h' (keyboard d) (mouse d)) /\ queue h' = q.
Proof. intros Hq. destruct (data_reads _ _ _ _ Hq) as (h' & E & Hq'). exists h'. unfold on_hw, read_data. rewrite E. done. Qed.
Lemma has_data_ok d x q : queue (hw d) = x :: q -> on_hw has_data d = Ret (true, d).
Proof.
  intros Hq. destruct (status_reads (hw d)) as (s & E & Hr & _). unfold on_hw, has_data, read_status, mbind, ST_bind. rewrite E. cbn [mret ST_ret]. rewrite Hr, Hq.
  by destruct d.
Qed.
(** what is sent, and the words of the keyboard *)
Definition sent (d : KeyboardMouse H) (h : H) (m t : Z) (ks : list Key) (es : list MouseEvent) : KeyboardMouse H :=
  mkDev h (mkKeyboard m t (foldl (fun s k => send k s) (key_sender (keyboard d)) ks))
    (mkMouseDev (has_extra_byte (mouse d)) (foldl (fun s e => send e s) (mouse_sender (mouse d)) es)).
Lemma track_ok d down c : track_key down c d =
  Ret (tt, mkDev (hw d) (mkKeyboard (fst (track_words down c (active_modifiers (keyboard d)) (active_toggles (keyboard d))))
                                    (snd (track_words down c (active_modifiers (keyboard d)) (active_toggles (keyboard d)))) (key_sender (keyboard d))) (mouse d)).
Proof.
  unfold track_key, track_words. destruct d as [h [m t s] ms]. cbn [keyboard active_modifiers active_toggles key_sender hw mouse]. destruct (get_modifier c) as [b|]; [by destruct down|].
  destruct (get_toggle c) as [b|]; [|done]. unfold mbind, ST_bind, get, set_toggles, set_modifiers, modify. cbn [keyboard active_modifiers].
  destruct down; cbn [andb]; [destruct (Z.land m b =? 0)|]; done.
Qed.
Lemma scan_pressed code down : 0 <= code < 128 -> (Z.land (scan code down) KEY_PRESSED =? 0) = down /\ Z.land (scan code down) (unot 8 KEY_PRESSED) = code /\
  Z.lor (scan code down) 0x80 = code + 128 /\ scan code down mod 128 = code.
Proof.
  intros Hc. change (unot 8 KEY_PRESSED) with (Z.ones 7). rewrite Z.land_ones by lia. change KEY_PRESSED with (2 ^ 7). change 0x80 with (2 ^ 7).
  assert (Hbit : forall i, 7 <= i -> Z.testbit code i = false) by (intros i Hi; apply (testbit_small 7); [unfold in_word; lia|lia]).
  assert (Hor : Z.lor code (2 ^ 7) = code + 128) by (rewrite <- (Z.shiftl_1_l 7), lor_shiftl_add by lia; lia).
  assert (HZ : Z.land code (2 ^ 7) = 0).
  { apply Z.bits_inj'. intros i Hi. rewrite Z.land_spec, Z.bits_0, Z.pow2_bits_eqb by lia. destruct (Z.eqb_spec 7 i) as [<-|]; [by rewrite Hbit|apply andb_false_r]. }
  destruct down; cbn [scan].
  - rewrite HZ. split_and!; [done|rewrite Z.mod_small; lia|done|rewrite Z.mod_small; lia].
  - rewrite <- Hor. split_and!.
    + rewrite Z.land_lor_distr_l, HZ, Z.land_diag. done.
    + rewrite Hor. Z.to_euclidean_division_equations; lia.
    + by rewrite <- Z.lor_assoc, Z.lor_diag.
    + rewrite Hor. Z.to_euclidean_division_equations; lia.
Qed.
Lemma plain_device code : 0 <= code < 128 -> key_type_from_device code = Ret (plain_key code).
Proof.
  intros Hc. unfold key_type_from_device, plain_key. destruct (scan_pressed code true Hc) as (Hp & _). cbn [scan] in Hp. change KEY_PRESSED with 0x80 in Hp. rewrite Hp.
  change F12_CODE with 88. destruct (Z.leb_spec code 88) as [Hle|]; [|done]. unfold key_of_code.
  destruct (lookup_lt_is_Some_2 key_types (Z.to_nat code)) as [k ->]; [change (length key_types) with 127%nat; lia|]. done.
Qed.
Lemma extended_device code down : 0 <= code < 128 -> key_type_from_device (Z.lor (scan code down) 0x80) = Ret (assoc code extended_keys).
Proof.
  intros Hc. destruct (scan_pressed code down Hc) as (_ & _ & -> & _). destruct (scan_pressed code false Hc) as (Hp & Hs & _). cbn [scan] in Hp, Hs.
  unfold key_type_from_device. change KEY_PRESSED with 0x80 in Hp, Hs. by rewrite Hp, Hs.
Qed.
Lemma handle_key_ok d h code down : 0 <= code < 128 -> tracks h (active_modifiers (keyboard d)) (active_toggles (keyboard d)) ->
  exists m t, tracks ((code, down) :: h) m t /\ handle_key (scan code down) d = Ret (tt, sent d (hw d) m t (keys_of h (AKey code down)) []).
Proof.
  intros Hc Ht. pose proof (tracks_step _ _ _ code down Ht) as Ht'. set (w := track_words down code (active_modifiers (keyboard d)) (active_toggles (keyboard d))) in *.
  exists (fst w), (snd w). split; [done|]. destruct (scan_pressed code down Hc) as (Hp & Hs & _). unfold handle_key. rewrite Hp, Hs. unfold mbind at 1, ST_bind. rewrite track_ok. fold w.
  unfold mbind, ST_bind, lift. rewrite plain_device by done. cbn [keys_of]. unfold sent. destruct d as [hh kb [x ms]]. destruct (plain_key code) as [k|]; [|done].
  unfold report_key, mbind, ST_bind, get, send_key, modify. cbn [keyboard hw mouse active_modifiers active_toggles key_sender foldl].
  unfold current_modifiers. cbn [active_modifiers active_toggles]. by rewrite (tracks_modifiers _ _ _ Ht').
Qed.
Lemma prefix_noop d : handle_key EXTENDED_PREFIX d = Ret (tt, d).
Proof. unfold handle_key. by destruct d as [h [m t s] ms]. Qed.
Lemma status_ok d from b q : queue (hw d) = (from, b) :: q ->
  fetch_next_data d = (_ ← (if from then handle_mouse_data else handle_keyboard_data); mret true) d.
Proof.
  intros Hq. destruct (status_reads (hw d)) as (s & E & Hr & Hs). destruct (Hs _ _ _ Hq) as [Hm Hp]. unfold fetch_next_data. unfold mbind at 1, ST_bind. unfold on_hw, read_status. rewrite E, Hr, Hq, Hp, Hm.
  cbn [bool_decide negb]. destruct d, from; reflexivity.
Qed.
Lemma fetch_empty d : queue (hw d) = [] -> fetch_next_data d = Ret (false, d).
Proof.
  intros Hq. destruct (status_reads (hw d)) as (s & E & Hr & _). unfold fetch_next_data, mbind, ST_bind, on_hw, read_status. rewrite E, Hr, Hq. by destruct d.
Qed.

(** ** Packets *)
Lemma sign_extended v : -256 <= v < 256 -> as_i16 (if v <? 0 then Z.lor (v mod 256) 0xFF00 else v mod 256) = v.
Proof.
  intros Hv. pose proof (Z.mod_pos_bound v 256). unfold as_i16. destruct (Z.ltb_spec v 0).
  - change 0xFF00 with (Z.shiftl 255 8). rewrite lor_shiftl_add by lia. destruct (Z.ltb_spec (v mod 256 + 255 * 2 ^ 8) (2 ^ 15)); Z.to_euclidean_division_equations; lia.
  - rewrite Z.mod_small by lia. by rewrite (proj2 (Z.ltb_lt v _)) by lia.
Qed.
Lemma first_byte r (sx sy : bool) : 0 <= r < 8 -> let d0 := r + 8 + flag sx 16 + flag sy 32 in
  on d0 X_OVERFLOW = false /\ on d0 Y_OVERFLOW = false /\ negb (Z.land d0 X_SIGN =? 0) = sx /\ negb (Z.land d0 Y_SIGN =? 0) = sy /\ Z.land d0 7 = r.
Proof.
  intros Hr. assert (r = 0 \/ r = 1 \/ r = 2 \/ r = 3 \/ r = 4 \/ r = 5 \/ r = 6 \/ r = 7) as Hcases by lia.
  destruct sx, sy; repeat (destruct Hcases as [->|Hcases]; [done|]); by subst r.
Qed.
Lemma fourth_byte s k : 0 <= k < 4 -> let d3 := wheel_code s + 16 * k in
  (if Z.land d3 15 =? 1 then VerticalUp else if Z.land d3 15 =? 15 then VerticalDown else if Z.land d3 15 =? 2 then HorizontalRight
   else if Z.land d3 15 =? 14 then HorizontalNegative else ScrollNone) = s /\ Z.land (Z.shiftr d3 4) 3 = k.
Proof.
  intros Hk. assert (k = 0 \/ k = 1 \/ k = 2 \/ k = 3) as Hcases by lia. destruct s; repeat (destruct Hcases as [->|Hcases]; [done|]); by subst k.
Qed.
Lemma packet_decodes extra e : act_ok extra (AMouse e) -> let b i := nth i (packet extra e) 0 in
  on (b 0%nat) X_OVERFLOW || on (b 0%nat) Y_OVERFLOW = false /\ packet_event (b 0%nat) (b 1%nat) (b 2%nat) (b 3%nat) = e.
Proof.
  intros (Hx & Hy & Hb & Hextra). cbn zeta. unfold packet. cbn [app nth]. pose proof (Z.mod_pos_bound (buttons e) 8).
  fold (flag (m_x e <? 0) 16) (flag (m_y e <? 0) 32). destruct (first_byte (buttons e mod 8) (m_x e <? 0) (m_y e <? 0)) as (O1 & O2 & S1 & S2 & L); [lia|]. cbn zeta in *.
  rewrite O1, O2. split; [done|]. unfold packet_event. rewrite S1, S2, L, !sign_extended by done.
  assert (Hq : 0 <= buttons e / 8 < 4) by (split; [apply Z.div_pos; lia|apply Z.div_lt_upper_bound; lia]).
  set (d3 := nth 0 _ 0). assert (E3 : d3 = wheel_code (scroll_type e) + 16 * (buttons e / 8)).
  { unfold d3. destruct extra; [done|]. destruct (Hextra eq_refl) as [Hs ->]. rewrite Z.div_small by lia. done. }
  rewrite E3. destruct (fourth_byte (scroll_type e) (buttons e / 8) Hq) as [W K]. cbn zeta in W, K. rewrite W, K. rewrite lor_shiftl_add by lia.
  destruct e as [x y s b]. cbn [m_x m_y scroll_type buttons] in *. f_equal. change (2 ^ 3) with 8. pose proof (Z.div_mod b 8). lia.
Qed.
Lemma read_packet_ok l : forall d q, queue (hw d) = ((true,.) <$> l) ++ q -> exists h', read_packet (length l) d = Ret (l, mkDev h' (keyboard d) (mouse d)) /\ queue h' = q.
Proof.
  induction l as [|b l IH]; intros d q Hq.
  - exists (hw d). split; [by destruct d|done].
  - cbn [fmap list_fmap app] in Hq. destruct (read_data_ok d _ _ _ Hq) as (h1 & E1 & Hq1). destruct (IH (mkDev h1 (keyboard d) (mouse d)) q Hq1) as (h2 & E2 & Hq2).
    exists h2. split; [|done]. cbn [length read_packet]. unfold mbind, ST_bind. rewrite E1. cbn [keyboard mouse] in E2. by rewrite E2.
Qed.

(** ** One action, and all of them *)
Lemma action_ok_step d h a q : act_ok (has_extra_byte (mouse d)) a -> tracks h (active_modifiers (keyboard d)) (active_toggles (keyboard d)) ->
  queue (hw d) = act_bytes (has_extra_byte (mouse d)) a ++ q ->
  exists hh m t, tracks (next_history h a) m t /\ queue hh = q /\ fetch_next_data d = Ret (true, sent d hh m t (keys_of h a) (option_list (moves_of a))).
Proof.
  intros Hok Ht Hq. destruct a as [code down|code down|e]; cbn [act_bytes app next_history keys_of moves_of option_list act_ok] in *.
  - destruct Hok as [Hc Hne]. rewrite (status_ok d _ _ _ Hq). unfold mbind at 1, ST_bind, handle_keyboard_data. unfold mbind at 1, ST_bind. rewrite (has_data_ok d _ _ Hq). cbn [negb].
    destruct (read_data_ok d _ _ _ Hq) as (h1 & E1 & Hq1). unfold mbind at 1, ST_bind. rewrite E1.
    assert ((scan code down =? EXTENDED_PREFIX) = false) as ->.
    { apply Z.eqb_neq. unfold EXTENDED_PREFIX. destruct down; cbn [scan]; lia. }
    destruct (handle_key_ok (mkDev h1 (keyboard d) (mouse d)) h code down Hc Ht) as (m & t & Ht' & E2). rewrite E2. exists h1, m, t. split_and!; [done|done|]. done.
  - rewrite (status_ok d _ _ _ Hq). unfold mbind at 1, ST_bind, handle_keyboard_data. unfold mbind at 1, ST_bind. rewrite (has_data_ok d _ _ Hq). cbn [negb].
    destruct (read_data_ok d _ _ _ Hq) as (h1 & E1 & Hq1). unfold mbind at 1, ST_bind. rewrite E1, Z.eqb_refl.
    destruct (read_data_ok (mkDev h1 (keyboard d) (mouse d)) _ _ _ Hq1) as (h2 & E2 & Hq2). unfold mbind at 1, ST_bind. rewrite E2. cbn [keyboard mouse].
    destruct (scan_pressed code down Hok) as (Hp & _). unfold mbind at 1, ST_bind, lift. rewrite extended_device by done. rewrite Hp.
    exists h2, (active_modifiers (keyboard d)), (active_toggles (keyboard d)). split_and!; [done|done|]. unfold sent. destruct d as [hh [m t s] [x ms]]. cbn [keyboard mouse hw active_modifiers active_toggles key_sender] in *.
    destruct (assoc code extended_keys) as [k|]; [|done]. unfold report_key, mbind, ST_bind, get, send_key, modify. cbn [keyboard mouse hw active_modifiers active_toggles key_sender].
    rewrite prefix_noop. unfold current_modifiers. cbn [active_modifiers active_toggles]. by rewrite (tracks_modifiers _ _ _ Ht).
  - assert (Hq' := Hq). unfold packet in Hq'. cbn [app fmap list_fmap] in Hq'. rewrite (status_ok d _ _ _ Hq'). unfold mbind at 1, ST_bind, handle_mouse_data. unfold mbind at 1, ST_bind, get.
    destruct (read_packet_ok _ d q Hq) as (h1 & E1 & Hq1). unfold mbind at 1, ST_bind.
    assert ((if has_extra_byte (mouse d) then 4 else 3)%nat = length (packet (has_extra_byte (mouse d)) e)) as -> by by destruct (has_extra_byte (mouse d)). rewrite E1.
    destruct (packet_decodes _ e Hok) as [Ho Ee]. cbn zeta in Ho, Ee. rewrite Ho, Ee. exists h1, (active_modifiers (keyboard d)), (active_toggles (keyboard d)). split_and!; [done|done|].
    unfold sent. by destruct d as [hh [m t s] [x ms]].
Qed.
Lemma sent_sent d hh hh' m m' t t' ks ks' es es' : sent (sent d hh m t ks es) hh' m' t' ks' es' = sent d hh' m' t' (ks ++ ks') (es ++ es').
Proof. unfold sent. cbn [keyboard mouse key_sender mouse_sender has_extra_byte]. by rewrite !foldl_app. Qed.
Lemma all_actions acts : forall d h fuel, Forall (act_ok (has_extra_byte (mouse d))) acts -> tracks h (active_modifiers (keyboard d)) (active_toggles (keyboard d)) ->
  queue (hw d) = concat (act_bytes (has_extra_byte (mouse d)) <$> acts) -> (length acts < fuel)%nat ->
  exists hh m t, queue hh = [] /\ read_all_events fuel d = Ret (tt, sent d hh m t (all_keys h acts) (omap moves_of acts)).
Proof.
  induction acts as [|a acts IH]; intros d h [|fuel] Hok Ht Hq Hf; cbn [length] in Hf; try lia; cbn [read_all_events]; unfold mbind, ST_bind.
  - rewrite fetch_empty by done. exists (hw d), (active_modifiers (keyboard d)), (active_toggles (keyboard d)). split; [done|]. unfold sent. by destruct d as [hh [m t s] [x ms]].
  - apply Forall_cons in Hok as [Ha Hok]. cbn [fmap list_fmap concat] in Hq. destruct (action_ok_step d h a _ Ha Ht Hq) as (h1 & m1 & t1 & Ht1 & Hq1 & E1). rewrite E1.
    destruct (IH (sent d h1 m1 t1 (keys_of h a) (option_list (moves_of a))) (next_history h a) fuel) as (h2 & m2 & t2 & Hq2 & E2); [done|done|done|lia|].
    exists h2, m2, t2. split; [done|]. rewrite E2, sent_sent. cbn [all_keys omap list_omap]. by destruct (moves_of a).
Qed.
End wire.

(** * Keyboard and mouse: what a program reads

    The decoding of the wire, the channel between the interrupt handler and the
    devices, and the decoding on the side of the program, together. *)
Import Input.

(** the channel: a receiver gets what was sent after it was made, in order, as
    long as it does not fall behind by more than the buffer *)
Class BlinkcastLaws `{Blinkcast} : Type := {
  receives : forall A, Sender A -> Receiver A -> Prop;
  pending : forall A, Sender A -> Receiver A -> list A;
  capacity : forall A, Sender A -> Z;
  capacity_new : forall A n, capacity A (new_sender n) = n;
  capacity_send : forall A a s, capacity A (send a s) = capacity A s;
  pending_new : forall A s, receives A s (new_receiver s) /\ pending A s (new_receiver s) = [];
  pending_send : forall A a s r, receives A s r -> Z.of_nat (length (pending A s r)) < capacity A s ->
    receives A (send a s) r /\ pending A (send a s) r = pending A s r ++ [a];
  recv_pending : forall A s r, receives A s r -> exists r', recv s r = (head (pending A s r), r') /\ receives A s r' /\ pending A s r' = tail (pending A s r)
}.
Arguments receives {_ _} {A}. Arguments pending {_ _} {A}. Arguments capacity {_ _} {A}.

Section channel.
Context `{BlinkcastLaws} {A : Type}.
Definition send_all (l : list A) (s : Sender A) : Sender A := foldl (fun s e => send e s) s l.
Lemma capacity_all (l : list A) : forall s, capacity (send_all l s) = capacity s.
Proof. induction l as [|a l IH]; intros s; [done|]. cbn. unfold send_all in IH. by rewrite IH, capacity_send. Qed.
Lemma pending_all (l : list A) : forall s r, receives s r -> Z.of_nat (length (pending s r) + length l) <= capacity s ->
  receives (send_all l s) r /\ pending (send_all l s) r = pending s r ++ l.
Proof.
  induction l as [|a l IH]; intros s r Hr Hc; [by rewrite app_nil_r|]. cbn [length] in Hc. unfold send_all in *. cbn [foldl].
  destruct (pending_send A a s r Hr) as [Hr' Ep]; [lia|]. rewrite (cons_middle a (pending s r) l), app_assoc, <- Ep. apply IH; [done|].
  rewrite Ep, length_app, capacity_send. cbn [length]. lia.
Qed.
(** a step of a receiver *)
Definition takes_one (s : Sender A) (r : Receiver A) (o : outcome (option A * Receiver A)) : Prop :=
  exists r', o = Ret (head (pending s r), r') /\ receives s r' /\ pending s r' = tail (pending s r).
(** reading one record at a time delivers all of them *)
Lemma iter_all (s : Sender A) get_one (P : A -> Prop) : (forall r, receives s r -> Forall P (pending s r) -> takes_one s r (get_one r)) ->
  forall fuel r, receives s r -> Forall P (pending s r) -> (length (pending s r) < fuel)%nat -> exists r', iter get_one fuel r = Ret (pending s r, r').
Proof.
  intros Hget. induction fuel as [|fuel IH]; intros r Hr HP Hf; [lia|]. destruct (Hget r Hr HP) as (r1 & E1 & Hr1 & P1). cbn [iter]. rewrite E1. cbn [mbind outcome_bind].
  destruct (pending s r) as [|a l]; cbn [head tail] in *; [by eexists|]. apply Forall_cons in HP as [_ HP].
  destruct (IH r1 Hr1) as (r2 & E2); [by rewrite P1|rewrite P1; cbn in Hf; lia|]. exists r2. rewrite E2, P1. done.
Qed.
(** a read with room for one record takes one *)
Lemma read_one size (as_bytes : A -> bytes) s r : 0 < size -> receives s r -> exists r', receives s r' /\ pending s r' = tail (pending s r) /\
  device_read size as_bytes s r size = Ret (Ok (match head (pending s r) with Some e => as_bytes e | None => [] end), r').
Proof.
  intros Hs Hr. destruct (recv_pending A s r Hr) as (r1 & E1 & Hr1 & P1). exists r1. split; [done|]. split; [done|]. unfold device_read. rewrite Z.ltb_irrefl. cbn [device_loop].
  rewrite (proj2 (Z.leb_le (0 + size) size)) by lia. rewrite E1. destruct (head (pending s r)) as [e|]; cbn [mbind outcome_bind]; [|done].
  destruct (Z.to_nat size) as [|n] eqn:En; [lia|]. cbn [device_loop]. rewrite (proj2 (Z.leb_gt (0 + size + size) size)) by lia. cbn [mbind outcome_bind fst snd]. by rewrite app_nil_r.
Qed.
(** a program that was there before reads all of it *)
Lemma iter_sent get_one (P : A -> Prop) n s l fuel : let s' := send_all l s in s = new_sender n -> Z.of_nat (length l) <= n -> Forall P l -> (length l < fuel)%nat ->
  (forall r, receives s' r -> Forall P (pending s' r) -> takes_one s' r (get_one r)) -> exists r', iter get_one fuel (new_receiver s) = Ret (l, r').
Proof.
  cbn zeta. intros Es Hn HP Hf Hget. destruct (pending_new A s) as [Hr0 Hp0]. destruct (pending_all l s (new_receiver s) Hr0) as [Hr Hp]; [rewrite Hp0, Es, capacity_new; cbn; lia|].
  rewrite Hp0 in Hp. cbn [app] in Hp. destruct (iter_all _ get_one P Hget fuel (new_receiver s) Hr) as [r' E]; [by rewrite Hp|by rewrite Hp|]. exists r'. by rewrite Hp in E.
Qed.
End channel.

Section programs.
Context `{BlinkcastLaws}.
Lemma head_in {A} (l : list A) (P : A -> Prop) e : Forall P l -> head l = Some e -> P e.
Proof. intros Hl. destruct Hl; [done|]. by intros [= <-]. Qed.
Lemma key_event_ok s r : receives s r -> Forall (fun k => 0 <= modifiers k < 128) (pending s r) -> takes_one s r (get_key_event s r).
Proof.
  intros Hr Hk. destruct (read_one KEY_BYTES_SIZE key_as_bytes s r ltac:(done) Hr) as (r' & Hr' & P & E). exists r'. split; [|done]. unfold get_key_event, keyboard_read. rewrite E. cbn [mbind outcome_bind fst snd].
  destruct (head (pending s r)) as [k|] eqn:Eh; [|done]. destruct (key_bytes_decode k (head_in _ _ _ Hk Eh)) as (b0 & b1 & -> & Ek). by rewrite Ek.
Qed.
Definition event_fits (e : MouseEvent) : Prop := -2 ^ 15 <= m_x e < 2 ^ 15 /\ -2 ^ 15 <= m_y e < 2 ^ 15 /\ 0 <= buttons e < 32.
Lemma mouse_event_ok s r : receives s r -> Forall event_fits (pending s r) -> takes_one s r (get_event s r).
Proof.
  intros Hr Hk. destruct (read_one MOUSE_BYTES_SIZE mouse_as_bytes s r ltac:(done) Hr) as (r' & Hr' & P & E). exists r'. split; [|done]. unfold get_event, mouse_read. rewrite E. cbn [mbind outcome_bind fst snd].
  destruct (head (pending s r)) as [e|] eqn:Eh; [|done]. destruct (head_in _ _ _ Hk Eh) as (H1' & H2' & H3').
  destruct (mouse_bytes_decode e H1' H2' H3') as (b0 & b1 & b2 & b3 & b4 & -> & Ek). by rewrite Ek.
Qed.
End programs.
Lemma keys_small acts : forall h, Forall (fun k => 0 <= modifiers k < 128) (all_keys h acts).
Proof.
  induction acts as [|a acts IH]; intros h; cbn [all_keys]; [done|]. apply Forall_app. split; [|done]. destruct a as [c d|c d|e]; cbn [keys_of]; [| |done].
  - destruct (plain_key c); repeat constructor; apply driver_mods_small.
  - destruct (assoc c extended_keys); repeat constructor; apply driver_mods_small.
Qed.
Lemma moves_fit extra acts : Forall (act_ok extra) acts -> Forall event_fits (omap moves_of acts).
Proof.
  induction 1 as [|a acts Ha _ IH]; [done|]. destruct a as [c d|c d|e]; cbn [omap list_omap moves_of]; [done|done|]. constructor; [|done].
  destruct Ha as (Hx & Hy & Hb & _). unfold event_fits. lia.
Qed.

Lemma keys_typed extra acts : Forall (act_ok extra) acts -> forall g h, agrees g h -> usual h acts -> all_keys g acts = typed h acts.
Proof.
  induction 1 as [|a acts Ha _ IH]; intros g h Hg Hu; [done|]. destruct a as [c down|c down|e]; cbn [all_keys keys_of next_history typed usual act_event] in *; [| |by apply IH].
  - destruct Hu as (Hup & Hone & _ & _ & Hu), Ha as [Hc _]. pose proof (agrees_plain _ _ _ _ Hg Hup Hone) as Hg'.
    rewrite (IH _ _ Hg' Hu), (agrees_mods _ _ Hg'), key_at_plain by done. done.
  - destruct Hu as (_ & _ & H1 & H2 & Hu). assert (agrees g ((true, c, down) :: h)) as Hg' by (apply agrees_extended; [done|congruence|congruence]).
    rewrite (IH _ _ Hg' Hu), (agrees_mods _ _ Hg'), key_at_extended by done. done.
Qed.
Lemma agrees_start : agrees [] [].
Proof. split_and!; try done. by intros []. Qed.

(** C32: What happens at the keyboard and the mouse is what a program sees: for
    any sequence of keys going down and up (the two shift keys not held
    together, the right control and alt keys not used) and movements that waits
    in the controller, polling empties the controller, and a program that opened
    the devices before, and whose buffers hold it all, then reads exactly these
    keys, as the keyboard has them at these places, each with the modifiers
    whose keys are held and the locks that are on at that moment, and exactly
    these movements, buttons and turns of the wheel, in order. *)
Theorem input_reaches_program {H : Type} `{Ps2Laws H} `{BlinkcastLaws} (d : KeyboardMouse H) acts fuel :
  keyboard d = keyboard_new -> mouse_sender (mouse d) = new_sender MOUSE_BUFFER_SIZE ->
  Forall (act_ok (has_extra_byte (mouse d))) acts -> queue (hw d) = concat (act_bytes (has_extra_byte (mouse d)) <$> acts) ->
  usual [] acts -> (length acts < fuel)%nat -> Z.of_nat (length (typed [] acts)) <= 256 -> Z.of_nat (length (omap moves_of acts)) <= 1024 ->
  exists d', read_all_events fuel d = Ret (tt, d') /\ queue (hw d') = [] /\
    (forall n, (256 < n)%nat -> exists r, iter_keys (key_sender (keyboard d')) n (new_receiver (key_sender (keyboard d))) = Ret (typed [] acts, r)) /\
    (forall n, (1024 < n)%nat -> exists r, iter_events (mouse_sender (mouse d')) n (new_receiver (mouse_sender (mouse d))) = Ret (omap moves_of acts, r)).
Proof.
  intros Hk Hm Hok Hq Hu Hf. rewrite <- (keys_typed _ _ Hok _ _ agrees_start Hu). intros Hnk Hnm. destruct (all_actions acts d [] fuel Hok) as (hh & m & t & Hq' & E); [by rewrite Hk|done|done|].
  eexists. split; [exact E|]. split; [done|]. cbn [sent keyboard mouse key_sender mouse_sender]. split; intros n Hn.
  - eapply (iter_sent _ (fun k => 0 <= modifiers k < 128) 256 (key_sender (keyboard d)) (all_keys [] acts)); [by rewrite Hk|done|apply keys_small|lia|apply key_event_ok].
  - eapply (iter_sent _ event_fits 1024 (mouse_sender (mouse d)) (omap moves_of acts)); [done|done|by eapply moves_fit|lia|apply mouse_event_ok].
Qed.

Module InputDemo.
(** ** A controller and a channel *)
#[export] Instance wire_io : PortIo (list (bool * Z)) := {
  io_in n p := fun q =>
    if p =? PS2_STATUS_PORT then Ret (match q with [] => 0 | (from, _) :: _ => if from then 0x21 else 1 end, q)
    else match q with [] => Ret (0, []) | (_, b) :: q => Ret (b, q) end;
  io_out n p v := fun q => Ret (tt, q)
}.
#[export] Instance wire_laws : Ps2Laws (list (bool * Z)).
Proof.
  refine {| queue := fun q => q |}.
  - intros q. eexists. split; [reflexivity|]. destruct q as [|[from b] q]; [done|]. split; [by destruct from|]. intros from' b' q' [= <- <- <-]. by destruct from.
  - intros h from b q ->. by eexists.
Defined.
(** all that was sent, and how much of it a receiver took *)
#[export] Instance log_cast : Blinkcast := {|
  Sender A := (Z * list A)%type; Receiver A := nat;
  new_sender A n := (n, []); send A a s := (fst s, snd s ++ [a]);
  new_receiver A s := length (snd s);
  recv A s r := match snd s !! r with Some a => (Some a, S r) | None => (None, r) end
|}.
#[export] Instance log_laws : BlinkcastLaws.
Proof.
  unshelve refine {|
    receives A (s : Sender A) (r : Receiver A) := (r <= length (snd (s : Z * list A)))%nat;
    pending A (s : Sender A) (r : Receiver A) := drop r (snd (s : Z * list A)); capacity A (s : Sender A) := fst (s : Z * list A) |}.
  - done.
  - done.
  - intros A [n l]. cbn. split; [done|]. apply drop_all.
  - intros A a [n l] r Hr _. cbn in *. rewrite length_app, drop_app_le by done. split; [lia|done].
  - intros A [n l] r Hr. cbn in *. destruct (l !! r) as [a|] eqn:Ea.
    + exists (S r). rewrite (drop_S l a r Ea). split; [done|]. split; [by apply lookup_lt_Some in Ea|done].
    + exists r. rewrite (drop_ge l r) by by apply lookup_ge_None. done.
Defined.
(** shift down, a, caps lock down and up, a, arrow up, shift up, and a movement *)
Definition acts : list action :=
  [AKey 0x2A true; AKey 0x1E true; AKey 0x3A true; AKey 0x3A false; AKey 0x1E true; AExt 0x48 true; AKey 0x2A false; AMouse (mkMouse (-3) 200 VerticalUp 9)].
Definition start : KeyboardMouse (list (bool * Z)) :=
  mkDev (concat (act_bytes true <$> acts)) keyboard_new (mkMouseDev true (new_sender MOUSE_BUFFER_SIZE)).
Lemma acts_ok : Forall (act_ok true) acts.
Proof. repeat constructor; cbn; try lia; done. Qed.
Lemma acts_usual : usual [] acts.
Proof. unfold acts. cbn [usual act_event]. split_and!; try done; by intros []. Qed.
Lemma input_reaches_program_witness : exists d', read_all_events 9 start = Ret (tt, d') /\
  (exists r, iter_keys (key_sender (keyboard d')) 257 (new_receiver (key_sender (keyboard start))) =
    Ret ([mkKey true 1 KLeftShift; mkKey true 1 KA; mkKey true 9 KCapsLock; mkKey false 9 KCapsLock; mkKey true 9 KA; mkKey true 9 KUpArrow; mkKey false 8 KLeftShift], r)) /\
  exists r, iter_events (mouse_sender (mouse d')) 1025 (new_receiver (mouse_sender (mouse start))) = Ret ([mkMouse (-3) 200 VerticalUp 9], r).
Proof.
  destruct (input_reaches_program start acts 9) as (d' & E & _ & Hk & Hm); [done|done|exact acts_ok|done|exact acts_usual|by vm_compute; lia|by vm_compute|by vm_compute|].
  exists d'. split; [exact E|]. split; [exact (Hk 257%nat ltac:(lia))|exact (Hm 1025%nat ltac:(lia))].
Defined.
(** ** What is not as it should be *)
(** both shift keys share one bit: letting one go forgets the other *)
Definition run (l : list action) : outcome (list Key) :=
  r ← read_all_events (S (length l)) (mkDev (concat (act_bytes true <$> l)) keyboard_new (mkMouseDev true (new_sender MOUSE_BUFFER_SIZE)));
  Ret (snd (key_sender (keyboard (snd r)) : Z * list Key)).
Lemma other_shift_forgotten : run [AKey 0x2A true; AKey 0x36 true; AKey 0x36 false; AKey 0x1E true]
  = Ret [mkKey true 1 KLeftShift; mkKey true 1 KRightShift; mkKey false 0 KRightShift; mkKey true 0 KA].
Proof. reflexivity. Qed.
(** the right control key is no modifier *)
Lemma right_control_no_modifier : run [AExt 0x1D true; AKey 0x2E true] = Ret [mkKey true 0 KRightCtrl; mkKey true 0 KC].
Proof. reflexivity. Qed.
End InputDemo.
