(* ===== verification/Pci.v ===== *)
(** * The PCI bus

    Models [kernel/src/devices/pci.rs]: configuration space through its two
    ports, the decoding of a function with its base addresses, and the
    iterator over all functions.  The ports are the interface [PortIo]; what
    the bus does behind them is the class [PciLaws], for host bridges that keep
    the low bits of an address and for ones that have them wired to zero, and
    the theorem says what the iterator finds behind either. *)
From S2P Require Import Prelude UserLink.

Module Pci.
(** ** [reg] *)
Definition VENDOR_ID : Z := 0x00.
Definition DEVICE_ID : Z := 0x02.
Definition COMMAND : Z := 0x04.
Definition STATUS : Z := 0x06.
Definition CLASS_DWORD : Z := 0x08.
Definition HEADER_TYPE : Z := 0x0E.
Definition BAR0 : Z := 0x10.
Definition BAR1 : Z := 0x14.
Definition BAR2 : Z := 0x18.
Definition BAR3 : Z := 0x1C.
Definition CAPABILITIES_PTR : Z := 0x34.
Definition INTERRUPT_LINE : Z := 0x3C.
Definition CONFIG_ADDRESS : Z := 0xCF8.
Definition CONFIG_DATA : Z := 0xCFC.

Inductive PciDeviceType : Type :=
| Unclassified (subclass prog_if revision : Z)
| MassStorageController (subclass prog_if revision : Z)
| NetworkController (subclass prog_if revision : Z)
| DisplayController (subclass prog_if revision : Z)
| MultimediaController (subclass prog_if revision : Z)
| MemoryController (subclass prog_if revision : Z)
| BridgeDevice (subclass prog_if revision : Z)
| SimpleCommunicationController (subclass prog_if revision : Z)
| BaseSystemPeripheral (subclass prog_if revision : Z)
| InputDeviceController (subclass prog_if revision : Z)
| DockingStation (subclass prog_if revision : Z)
| Processor (subclass prog_if revision : Z)
| SerialBusController (subclass prog_if revision : Z)
| WirelessController (subclass prog_if revision : Z)
| IntelligentController (subclass prog_if revision : Z)
| SatelliteCommunicationController (subclass prog_if revision : Z)
| EncryptionController (subclass prog_if revision : Z)
| SignalProcessingController (subclass prog_if revision : Z)
| ProcessingAccelerator (subclass prog_if revision : Z)
| NonEssentialInstrumentation (subclass prog_if revision : Z)
| CoProcessor (subclass prog_if revision : Z)
| Reserved (class subclass prog_if revision : Z)
| Unassigned (subclass prog_if revision : Z).

(** [PciDeviceType::new] *)
Definition type_new (class_dword : Z) : PciDeviceType :=
  let class_id := wrap 8 (Z.shiftr class_dword 24) in
  let subclass_id := Z.land (Z.shiftr class_dword 16) 0xFF in
  let prog_if := Z.land (Z.shiftr class_dword 8) 0xFF in
  let revision_id := Z.land class_dword 0xFF in
  match [Unclassified; MassStorageController; NetworkController; DisplayController; MultimediaController; MemoryController;
         BridgeDevice; SimpleCommunicationController; BaseSystemPeripheral; InputDeviceController; DockingStation; Processor;
         SerialBusController; WirelessController; IntelligentController; SatelliteCommunicationController; EncryptionController;
         SignalProcessingController; ProcessingAccelerator; NonEssentialInstrumentation] !! Z.to_nat class_id with
  | Some c => c subclass_id prog_if revision_id
  | None =>
      if class_id =? 0x40 then CoProcessor subclass_id prog_if revision_id
      else if class_id =? 0xFF then Unassigned subclass_id prog_if revision_id
      else Reserved class_id subclass_id prog_if revision_id
  end.

Inductive PciBar : Type :=
| Memory (addr size : Z) (prefetchable : bool)
| Io (addr size : Z)
| NoBar.
Definition get_io (b : PciBar) : option (Z * Z) := match b with Io addr size => Some (addr, size) | _ => None end.
Definition get_memory (b : PciBar) : option (Z * Z * bool) := match b with Memory addr size p => Some (addr, size, p) | _ => None end.

Record PciDeviceConfig : Type := mkConfig {
  bus : Z; dev : Z; func : Z; vendor_id : Z; device_id : Z; device_type : PciDeviceType; header_type : Z;
  base_address : list PciBar; interrupt_line : Z; interrupt_pin : Z; capabilities_ptr : option Z }.

Section ports.
Context {H : Type} `{PortIo H}.

(** the address both accesses compute *)
Definition config_address (bus dev func offset : Z) : Z :=
  Z.lor (Z.lor (Z.lor (Z.lor 0x80000000 (Z.shiftl bus 16)) (Z.shiftl dev 11)) (Z.shiftl func 8)) offset.
Definition read_pci_config (n : nat) (bus dev func offset : Z) : ST H Z :=
  _ ← io_out 4 CONFIG_ADDRESS (config_address bus dev func offset);
  io_in n CONFIG_DATA.
Definition write_pci_config (n : nat) (bus dev func offset value : Z) : ST H unit :=
  _ ← io_out 4 CONFIG_ADDRESS (config_address bus dev func offset);
  io_out n CONFIG_DATA value.

(** write ones, read what stuck, put the address back *)
Definition bar_size (bus dev func reg old_bar mask : Z) : ST H Z :=
  _ ← write_pci_config 4 bus dev func reg mask;
  bar ← read_pci_config 4 bus dev func reg;
  _ ← write_pci_config 4 bus dev func reg old_bar;
  lift (cadd 32 (unot 32 (Z.land bar mask)) 1).

(** the loop over the base address registers; [i] is the register, [bars] the array *)
Fixpoint probe_bars (fuel : nat) (bus dev func i : Z) (bars : list PciBar) : ST H (list PciBar) :=
  match fuel with
  | O => diverge
  | S fuel =>
      if negb (i <? 6) then mret bars else
      let reg := BAR0 + i * 4 in
      bar_v ← read_pci_config 4 bus dev func reg;
      if bar_v =? 0 then probe_bars fuel bus dev func (i + 1) bars else
      if Z.land bar_v 1 =? 1 then
        let old_bar := Z.land bar_v 0xFFFFFFFC in
        size ← bar_size bus dev func reg old_bar 0xFFFFFFFC;
        probe_bars fuel bus dev func (i + 1) (<[Z.to_nat i := Io (wrap 16 old_bar) size]> bars)
      else
        let old_bar := Z.land bar_v 0xFFFFFFF0 in
        size ← bar_size bus dev func reg old_bar 0xFFFFFFF0;
        let prefetchable := Z.land bar_v 8 =? 8 in
        let ty := Z.shiftr (Z.land bar_v 6) 1 in
        if ty =? 0 then probe_bars fuel bus dev func (i + 1) (<[Z.to_nat i := Memory old_bar size prefetchable]> bars)
        else if ty =? 2 then
          _ ← lift (assert_that (i <? 5));
          bar_2 ← read_pci_config 4 bus dev func (BAR0 + (i + 1) * 4);
          let b := Memory (Z.lor (Z.shiftl bar_2 32) old_bar) size prefetchable in
          probe_bars fuel bus dev func (i + 2) (<[Z.to_nat i := b]> (<[Z.to_nat (i + 1) := b]> bars))
        else panic
  end.

Definition probe (bus dev func : Z) : ST H (option PciDeviceConfig) :=
  vendor_id ← read_pci_config 2 bus dev func VENDOR_ID;
  if vendor_id =? 0xFFFF then mret None else
  device_id ← read_pci_config 2 bus dev func DEVICE_ID;
  class_dword ← read_pci_config 4 bus dev func CLASS_DWORD;
  header_type ← read_pci_config 1 bus dev func HEADER_TYPE;
  if negb (Z.land header_type 0x7F =? 0) then mret None else
  base_address ← probe_bars 7 bus dev func 0 (repeat NoBar 6);
  interrupt_info ← read_pci_config 2 bus dev func INTERRUPT_LINE;
  capabilities_ptr ← read_pci_config 1 bus dev func CAPABILITIES_PTR;
  mret (Some (mkConfig bus dev func vendor_id device_id (type_new class_dword) header_type base_address
    (wrap 8 interrupt_info) (wrap 8 (Z.shiftr interrupt_info 8)) (if capabilities_ptr =? 0 then None else Some capabilities_ptr))).

Definition read_config (self : PciDeviceConfig) (n : nat) (offset : Z) : ST H Z := read_pci_config n (bus self) (dev self) (func self) offset.
Definition write_config (self : PciDeviceConfig) (n : nat) (offset value : Z) : ST H unit := write_pci_config n (bus self) (dev self) (func self) offset value.
Definition read_command (self : PciDeviceConfig) : ST H Z := read_config self 2 COMMAND.
Definition write_command (self : PciDeviceConfig) (value : Z) : ST H unit := write_config self 2 COMMAND value.
Definition read_status (self : PciDeviceConfig) : ST H Z := read_config self 2 STATUS.
Definition write_status (self : PciDeviceConfig) (value : Z) : ST H unit := write_config self 2 STATUS value.

(** ** The iterator *)
Record PciDeviceProbeIterator : Type := mkIter { it_bus : Z; it_dev : Z; it_func : Z }.
Definition iter_new : PciDeviceProbeIterator := mkIter 0 0 0.
(** [while self.func < 8] *)
Fixpoint func_loop (fuel : nat) (self : PciDeviceProbeIterator) : ST H (option PciDeviceConfig * PciDeviceProbeIterator) :=
  match fuel with
  | O => diverge
  | S fuel =>
      if negb (it_func self <? 8) then mret (None, self) else
      config ← probe (it_bus self) (it_dev self) (it_func self);
      let self := mkIter (it_bus self) (it_dev self) (it_func self + 1) in
      match config with Some c => mret (Some c, self) | None => func_loop fuel self end
  end.
(** [while self.dev < 32] *)
Fixpoint dev_loop (fuel : nat) (self : PciDeviceProbeIterator) : ST H (option PciDeviceConfig * PciDeviceProbeIterator) :=
  match fuel with
  | O => diverge
  | S fuel =>
      if negb (it_dev self <? 32) then mret (None, self) else
      r ← func_loop 9 self;
      match r with
      | (Some c, self) => mret (Some c, self)
      | (None, self) => dev_loop fuel (mkIter (it_bus self) (it_dev self + 1) 0)
      end
  end.
Fixpoint bus_loop (fuel : nat) (self : PciDeviceProbeIterator) : ST H (option PciDeviceConfig * PciDeviceProbeIterator) :=
  match fuel with
  | O => diverge
  | S fuel =>
      r ← dev_loop 33 self;
      match r with
      | (Some c, self) => mret (Some c, self)
      | (None, self) =>
          if 0xFF <=? it_bus self then mret (None, mkIter (it_bus self) 0 (it_func self))
          else bus_loop fuel (mkIter (it_bus self + 1) 0 (it_func self))
      end
  end.
Definition next (self : PciDeviceProbeIterator) : ST H (option PciDeviceConfig * PciDeviceProbeIterator) := bus_loop 256 self.

(** [probe_pci_devices]: hand every function found to the drivers *)
Fixpoint probe_pci_devices (driver : PciDeviceConfig -> ST H bool) (fuel : nat) (self : PciDeviceProbeIterator) : ST H unit :=
  match fuel with
  | O => diverge
  | S fuel =>
      r ← next self;
      match r with
      | (None, _) => mret tt
      | (Some device, self) => _ ← driver device; probe_pci_devices driver fuel self
      end
  end.
End ports.
End Pci.

(** ** What the bus holds *)
Import Pci.

(** a base address register: only the bits of the mask can be written, and
    the flags are read as they are *)
Record bar_reg : Type := mkReg { b_val : Z; b_mask : Z; b_flags : Z }.
Definition write_reg (r : bar_reg) (v : Z) : bar_reg := mkReg (Z.lor (Z.land v (b_mask r)) (b_flags r)) (b_mask r) (b_flags r).
Record function : Type := mkFunction {
  f_vendor : Z; f_device : Z; f_class : Z; f_line : Z; f_latency : Z; f_header : Z; f_bars : list bar_reg; f_int : Z; f_cap : Z }.
Definition write_bar (fn : function) (i : nat) (v : Z) : function :=
  mkFunction (f_vendor fn) (f_device fn) (f_class fn) (f_line fn) (f_latency fn) (f_header fn) (alter (fun r => write_reg r v) i (f_bars fn)) (f_int fn) (f_cap fn).

(** the words of the header of a function, by their number: identity; class and
    revision; cache line size, latency and header type; the base addresses;
    the capabilities; the interrupt line and pin *)
Definition word_at (fn : function) (w : Z) : Z :=
  if w =? 0 then f_vendor fn + f_device fn * 2 ^ 16
  else if w =? 2 then f_class fn
  else if w =? 3 then f_line fn + f_latency fn * 2 ^ 8 + f_header fn * 2 ^ 16
  else if (4 <=? w) && (w <? 10) then match f_bars fn !! Z.to_nat (w - 4) with Some r => b_val r | None => 0 end
  else if w =? 13 then f_cap fn
  else if w =? 15 then f_int fn
  else 0.
(** [n] bytes read at the data port.  The address selects a word; by the
    specification of the bus its two low bits are wired to zero, so that the
    bytes are the first ones of the word.  Host bridges that keep these bits
    ([keeps], as emulators do) give the bytes at the address itself. *)
Definition register (keeps : bool) (fn : function) (n : nat) (off : Z) : Z :=
  word_at fn (off / 4) / 2 ^ (8 * (if keeps then off mod 4 else 0)) mod 2 ^ (8 * Z.of_nat n).
Definition word_ok (fn : function) : Prop :=
  0 <= f_vendor fn < 2 ^ 16 /\ 0 <= f_device fn < 2 ^ 16 /\ 0 <= f_class fn < 2 ^ 32 /\ 0 <= f_line fn < 2 ^ 8 /\
  0 <= f_latency fn < 2 ^ 8 /\ 0 <= f_header fn < 2 ^ 8 /\ 0 <= f_int fn < 2 ^ 16 /\ 0 <= f_cap fn < 2 ^ 8.

(** what base address registers mean, from the first on *)
Definition region (addr k fl : Z) : bar_reg := mkReg (addr + fl) (2 ^ 32 - 2 ^ k) fl.
Definition mem_flags (wide prefetchable : bool) : Z := (if wide then 4 else 0) + (if prefetchable then 8 else 0).
Inductive describes : list bar_reg -> list PciBar -> Prop :=
| bars_end : describes [] []
| bar_unused r rs bs : b_val r = 0 -> describes rs bs -> describes (r :: rs) (NoBar :: bs)
| bar_io addr k rs bs : 2 <= k < 32 -> addr mod 2 ^ k = 0 -> 0 <= addr < 2 ^ 16 ->
    describes rs bs -> describes (region addr k 1 :: rs) (Io addr (2 ^ k) :: bs)
| bar_memory addr k p rs bs : 4 <= k < 32 -> addr mod 2 ^ k = 0 -> 0 < addr < 2 ^ 32 ->
    describes rs bs -> describes (region addr k (mem_flags false p) :: rs) (Memory addr (2 ^ k) p :: bs)
| bar_wide lo hi k p r rs bs : 4 <= k < 32 -> lo mod 2 ^ k = 0 -> 0 <= lo < 2 ^ 32 -> b_val r = hi -> 0 <= hi < 2 ^ 32 ->
    describes rs bs -> describes (region lo k (mem_flags true p) :: r :: rs) (Memory (lo + hi * 2 ^ 32) (2 ^ k) p :: Memory (lo + hi * 2 ^ 32) (2 ^ k) p :: bs).

(** what is read as the device and as the type of header: without the low bits
    of the address, the vendor and the size of a cache line *)
Definition seen_device (keeps : bool) (fn : function) : Z := if keeps then f_device fn else f_vendor fn.
Definition seen_header (keeps : bool) (fn : function) : Z := if keeps then f_header fn else f_line fn.
(** a function the kernel can use, and what it learns of it *)
Definition bridge (keeps : bool) (fn : function) : bool := negb (seen_header keeps fn mod 2 ^ 7 =? 0).
Definition function_ok (keeps : bool) (fn : function) : Prop :=
  word_ok fn /\ f_vendor fn <> 0xFFFF /\ (bridge keeps fn = false -> length (f_bars fn) = 6%nat /\ exists bs, describes (f_bars fn) bs).
(** the class of a device, from its number *)
Definition class_of (t : PciDeviceType) : Z :=
  match t with
  | Unclassified _ _ _ => 0 | MassStorageController _ _ _ => 1 | NetworkController _ _ _ => 2 | DisplayController _ _ _ => 3
  | MultimediaController _ _ _ => 4 | MemoryController _ _ _ => 5 | BridgeDevice _ _ _ => 6 | SimpleCommunicationController _ _ _ => 7
  | BaseSystemPeripheral _ _ _ => 8 | InputDeviceController _ _ _ => 9 | DockingStation _ _ _ => 10 | Processor _ _ _ => 11
  | SerialBusController _ _ _ => 12 | WirelessController _ _ _ => 13 | IntelligentController _ _ _ => 14
  | SatelliteCommunicationController _ _ _ => 15 | EncryptionController _ _ _ => 16 | SignalProcessingController _ _ _ => 17
  | ProcessingAccelerator _ _ _ => 18 | NonEssentialInstrumentation _ _ _ => 19 | CoProcessor _ _ _ => 0x40 | Unassigned _ _ _ => 0xFF
  | Reserved c _ _ _ => c
  end.
Definition parts_of (t : PciDeviceType) : list Z :=
  match t with
  | Unclassified s p r | MassStorageController s p r | NetworkController s p r | DisplayController s p r
  | MultimediaController s p r | MemoryController s p r | BridgeDevice s p r | SimpleCommunicationController s p r
  | BaseSystemPeripheral s p r | InputDeviceController s p r | DockingStation s p r | Processor s p r
  | SerialBusController s p r | WirelessController s p r | IntelligentController s p r
  | SatelliteCommunicationController s p r | EncryptionController s p r | SignalProcessingController s p r
  | ProcessingAccelerator s p r | NonEssentialInstrumentation s p r | CoProcessor s p r | Unassigned s p r | Reserved _ s p r => [s; p; r]
  end.
Definition is_class (w : Z) (t : PciDeviceType) : Prop := class_of t = w / 2 ^ 24 /\ parts_of t = [w / 2 ^ 16 mod 2 ^ 8; w / 2 ^ 8 mod 2 ^ 8; w mod 2 ^ 8].
Definition config_of (keeps : bool) (b d f : Z) (fn : function) (c : PciDeviceConfig) : Prop :=
  describes (f_bars fn) (base_address c) /\ is_class (f_class fn) (device_type c) /\
  c = mkConfig b d f (f_vendor fn) (seen_device keeps fn) (device_type c) (seen_header keeps fn) (base_address c)
    (f_int fn mod 2 ^ 8) (f_int fn / 2 ^ 8) (if f_cap fn =? 0 then None else Some (f_cap fn)).

(** The bus behind the ports: an address selects a register of a function;
    of a function that is not there all bits are read as ones. *)
Class PciLaws (H : Type) `{PortIo H} (keeps : bool) : Type := {
  functions : H -> Z -> Z -> Z -> option function;
  latch : H -> Z;
  selects : forall h a, exists h', io_out 4 CONFIG_ADDRESS a h = Ret (tt, h') /\ latch h' = a /\
    forall b d f, functions h' b d f = functions h b d f;
  reads_function : forall h b d f n off fn, 0 <= b < 256 -> 0 <= d < 32 -> 0 <= f < 8 -> 0 <= off < 64 ->
    latch h = config_address b d f off -> functions h b d f = Some fn -> off mod 4 + Z.of_nat n <= 4 ->
    exists h', io_in n CONFIG_DATA h = Ret (register keeps fn n off, h') /\ forall b d f, functions h' b d f = functions h b d f;
  reads_absent : forall h b d f, 0 <= b < 256 -> 0 <= d < 32 -> 0 <= f < 8 ->
    latch h = config_address b d f VENDOR_ID -> functions h b d f = None ->
    exists h', io_in 2 CONFIG_DATA h = Ret (0xFFFF, h') /\ forall b d f, functions h' b d f = functions h b d f;
  writes_bar : forall h b d f i v fn, 0 <= b < 256 -> 0 <= d < 32 -> 0 <= f < 8 -> (i < 6)%nat ->
    latch h = config_address b d f (BAR0 + Z.of_nat i * 4) -> functions h b d f = Some fn ->
    exists h', io_out 4 CONFIG_DATA v h = Ret (tt, h') /\
      forall b' d' f', functions h' b' d' f' = if decide ((b', d', f') = (b, d, f)) then Some (write_bar fn i v) else functions h b' d' f'
}.

(** ** Arithmetic of the registers *)
Lemma mask_is_unot k : 0 <= k <= 32 -> 2 ^ 32 - 2 ^ k = unot 32 (2 ^ k - 1).
Proof.
  intros Hk. assert (forallb (fun k => 2 ^ 32 - 2 ^ k =? unot 32 (2 ^ k - 1)) (seqZ 0 33) = true) as Ha by done.
  rewrite forallb_forall in Ha. apply Z.eqb_eq, Ha, list_elem_of_In, elem_of_seqZ. lia.
Qed.
Lemma land_mask32 x k : 0 <= k <= 32 -> 0 <= x < 2 ^ 32 -> Z.land x (2 ^ 32 - 2 ^ k) = x - x mod 2 ^ k.
Proof. intros Hk Hx. rewrite mask_is_unot by done. apply land_unot_mask; [lia|done]. Qed.
(** an aligned address and flags below it do not overlap *)
Lemma lor_low_flags a j k fl : 0 <= j <= k -> a mod 2 ^ k = 0 -> 0 <= a -> 0 <= fl < 2 ^ j -> Z.lor a fl = a + fl.
Proof.
  intros Hk Ha H0 Hf. pose proof (Z.pow_le_mono_r 2 j k ltac:(lia) ltac:(lia)). apply Z.div_exact in Ha; [|lia].
  rewrite Z.lor_comm, Ha, (Z.mul_comm (2 ^ k)), <- Z.shiftl_mul_pow2 by lia. rewrite lor_shiftl_add; [|lia|lia|apply Z.div_pos; lia].
  rewrite Z.shiftl_mul_pow2 by lia. lia.
Qed.
Lemma mod_smaller a j k : 0 <= j <= k -> a mod 2 ^ k = 0 -> a mod 2 ^ j = 0.
Proof.
  intros Hk Ha. apply Z.div_exact in Ha; [|lia]. rewrite Ha. replace k with (j + (k - j)) at 1 by lia. rewrite Z.pow_add_r by lia.
  rewrite <- Z.mul_assoc, Z.mul_comm. apply Z_mod_mult.
Qed.

Section region.
Context (addr j k fl : Z) (Hj : 0 <= j <= k) (Hk : k < 32) (Ha : addr mod 2 ^ k = 0) (Hr : 0 <= addr < 2 ^ 32) (Hf : 0 <= fl < 2 ^ j).
Lemma pow_facts : 0 < 2 ^ j <= 2 ^ k /\ 2 * 2 ^ k <= 2 ^ 32.
Proof.
  pose proof (Z.pow_le_mono_r 2 j k ltac:(lia) ltac:(lia)). pose proof (Z.pow_pos_nonneg 2 j ltac:(lia) ltac:(lia)).
  pose proof (Z.pow_le_mono_r 2 (Z.succ k) 32 ltac:(lia) ltac:(lia)). rewrite Z.pow_succ_r in * by lia. lia.
Qed.
Lemma below_top : addr + 2 ^ k <= 2 ^ 32.
Proof.
  pose proof pow_facts. apply Z.div_exact in Ha; [|lia]. assert (2 ^ 32 = 2 ^ k * 2 ^ (32 - k)) as E by (rewrite <- Z.pow_add_r by lia; f_equal; lia).
  set (q := addr / 2 ^ k) in *. set (m := 2 ^ (32 - k)) in *. assert (q < m) by (apply (Z.mul_lt_mono_pos_l (2 ^ k)); lia). nia.
Qed.
(** the address of what the register holds *)
Lemma region_addr : Z.land (addr + fl) (2 ^ 32 - 2 ^ j) = addr.
Proof.
  pose proof pow_facts. pose proof below_top. rewrite land_mask32 by lia. rewrite Z.add_comm, <- Z.add_mod_idemp_r, (mod_smaller addr j k) by (done || lia).
  rewrite Z.add_0_r, Z.mod_small by lia. lia.
Qed.
(** the size that the register shows *)
Lemma region_ones : write_reg (region addr k fl) (2 ^ 32 - 2 ^ j) = region (2 ^ 32 - 2 ^ k) k fl.
Proof.
  pose proof pow_facts. unfold write_reg, region. cbn [b_mask b_flags]. f_equal.
  assert ((2 ^ 32 - 2 ^ k) mod 2 ^ k = 0) as E. { rewrite Zminus_mod, Z_mod_same_full, Z.sub_0_r, Zmod_mod. apply (mod_smaller _ k 32); [lia|]. apply Z_mod_same_full. }
  assert (Z.land (2 ^ 32 - 2 ^ j) (2 ^ 32 - 2 ^ k) = 2 ^ 32 - 2 ^ k) as ->; [|apply (lor_low_flags _ j k); (done || lia)].
  rewrite land_mask32 by lia. enough ((2 ^ 32 - 2 ^ j) mod 2 ^ k = (2 ^ k - 2 ^ j) mod 2 ^ k) as -> by (rewrite Z.mod_small; lia).
  replace (2 ^ 32 - 2 ^ j) with (2 ^ 32 - 2 ^ k + (2 ^ k - 2 ^ j)) by lia. by rewrite <- Z.add_mod_idemp_l, E, Z.add_0_l by lia.
Qed.
Lemma region_size : Z.land (b_val (region (2 ^ 32 - 2 ^ k) k fl)) (2 ^ 32 - 2 ^ j) = 2 ^ 32 - 2 ^ k.
Proof.
  pose proof pow_facts. cbn [region b_val]. rewrite land_mask32 by lia.
  assert ((2 ^ 32 - 2 ^ k) mod 2 ^ j = 0) as E. { apply (mod_smaller _ j k); [lia|]. rewrite Zminus_mod, Z_mod_same_full, Z.sub_0_r, Zmod_mod. apply (mod_smaller _ k 32); [lia|]. apply Z_mod_same_full. }
  rewrite <- Z.add_mod_idemp_l, E, Z.add_0_l, (Z.mod_small fl) by lia. lia.
Qed.
(** writing the address gives the register back *)
Lemma region_back v : write_reg (region v k fl) addr = region addr k fl.
Proof. pose proof pow_facts. unfold write_reg, region. cbn [b_mask b_flags]. rewrite land_mask32, Ha, Z.sub_0_r by lia. f_equal. apply (lor_low_flags _ j k); (done || lia). Qed.
Lemma size_of_mask : cadd 32 (unot 32 (2 ^ 32 - 2 ^ k)) 1 = Ret (2 ^ k).
Proof.
  pose proof pow_facts. rewrite mask_is_unot by lia. unfold unot. rewrite Z.lxor_assoc, Z.lxor_nilpotent, Z.lxor_0_r. rewrite cadd_ret by lia. f_equal. lia.
Qed.
End region.
(** the flags of a memory region can be read off its register *)
Lemma flags_read a fl c : a mod 2 ^ 4 = 0 -> 0 <= fl < 2 ^ 4 -> Z.land 15 c = c -> Z.land (a + fl) c = Z.land fl c.
Proof.
  intros Ha Hf Hc. rewrite <- Hc, !Z.land_assoc. change 15 with (2 ^ 4 - 1). rewrite !land_mask by lia.
  by rewrite <- Z.add_mod_idemp_l, Ha, Z.add_0_l by lia.
Qed.

(** ** The registers the kernel reads *)
Lemma registers_read keeps fn : word_ok fn ->
  register keeps fn 2 VENDOR_ID = f_vendor fn /\ register keeps fn 2 DEVICE_ID = seen_device keeps fn /\ register keeps fn 4 CLASS_DWORD = f_class fn /\
  register keeps fn 1 HEADER_TYPE = seen_header keeps fn /\ register keeps fn 2 INTERRUPT_LINE = f_int fn /\ register keeps fn 1 CAPABILITIES_PTR = f_cap fn.
Proof.
  intros (H1 & H2 & H3 & H4 & H5 & H6 & H7 & H8). unfold register, seen_device, seen_header.
  destruct fn as [v dv c l t hd bars i cp]. cbn [f_vendor f_device f_class f_line f_latency f_header f_int f_cap] in *.
  split_and!; destruct keeps.
  1, 2: change ((v + dv * 2 ^ 16) / 2 ^ 0 mod 2 ^ 16 = v); dlia.
  - change ((v + dv * 2 ^ 16) / 2 ^ 16 mod 2 ^ 16 = dv). dlia.
  - change ((v + dv * 2 ^ 16) / 2 ^ 0 mod 2 ^ 16 = v). dlia.
  - change (c / 2 ^ 0 mod 2 ^ 32 = c). dlia.
  - change (c / 2 ^ 0 mod 2 ^ 32 = c). dlia.
  - change ((l + t * 2 ^ 8 + hd * 2 ^ 16) / 2 ^ 16 mod 2 ^ 8 = hd). dlia.
  - change ((l + t * 2 ^ 8 + hd * 2 ^ 16) / 2 ^ 0 mod 2 ^ 8 = l). dlia.
  - change (i / 2 ^ 0 mod 2 ^ 16 = i). dlia.
  - change (i / 2 ^ 0 mod 2 ^ 16 = i). dlia.
  - change (cp / 2 ^ 0 mod 2 ^ 8 = cp). dlia.
  - change (cp / 2 ^ 0 mod 2 ^ 8 = cp). dlia.
Qed.
Lemma register_bar keeps fn i r : f_bars fn !! i = Some r -> (i < 6)%nat -> 0 <= b_val r < 2 ^ 32 -> register keeps fn 4 (BAR0 + Z.of_nat i * 4) = b_val r.
Proof.
  intros Hr Hi Hv. unfold register, BAR0. replace ((0x10 + Z.of_nat i * 4) / 4) with (4 + Z.of_nat i) by dlia. replace ((0x10 + Z.of_nat i * 4) mod 4) with 0 by dlia.
  unfold word_at. rewrite !(proj2 (Z.eqb_neq (4 + Z.of_nat i) _)), (proj2 (Z.leb_le _ _)), (proj2 (Z.ltb_lt _ _)) by lia. cbn [andb].
  replace (Z.to_nat (4 + Z.of_nat i - 4)) with i by lia. rewrite Hr. destruct keeps; change (2 ^ (8 * 0)) with 1; rewrite Z.div_1_r; by apply Z.mod_small.
Qed.
Lemma type_new_ok w : 0 <= w < 2 ^ 32 -> is_class w (type_new w).
Proof.
  intros Hw. unfold type_new, is_class. rewrite !Z.shiftr_div_pow2 by lia. change 0xFF with (2 ^ 8 - 1). rewrite !land_mask by lia. unfold wrap.
  rewrite (Z.mod_small (w / 2 ^ 24)) by dlia. set (c := w / 2 ^ 24). assert (0 <= c < 256) by (unfold c; dlia).
  destruct (decide (c < 20)) as [Hc|Hc].
  - assert (exists n : nat, c = Z.of_nat n /\ (n < 20)%nat) as (n & -> & Hn) by (exists (Z.to_nat c); lia). rewrite Nat2Z.id.
    do 20 (destruct n as [|n]; [by split|]). lia.
  - rewrite lookup_ge_None_2 by (cbn; lia). destruct (Z.eqb_spec c 0x40) as [->|]; [by split|]. destruct (Z.eqb_spec c (2 ^ 8 - 1)) as [->|]; by split.
Qed.

(** ** Reading a function *)
Section bus.
Context {H : Type} {keeps : bool} `{PciLaws H keeps}.
Implicit Types (h : H) (fn : function).
Definition quiet h h' : Prop := forall b d f, functions h' b d f = functions h b d f.
#[local] Instance quiet_preorder : PreOrder quiet.
Proof. split; [done|]. intros x y z Hx Hy b d f. by rewrite Hy, Hx. Qed.

Section at_function.
Context (b d f : Z) (Hb : 0 <= b < 256) (Hd : 0 <= d < 32) (Hf : 0 <= f < 8) (fn : function).

Lemma read_ok h n off v : functions h b d f = Some fn -> 0 <= off < 64 -> off mod 4 + Z.of_nat n <= 4 -> register keeps fn n off = v ->
  exists h', read_pci_config n b d f off h = Ret (v, h') /\ quiet h h'.
Proof.
  intros Hfn Ho Hn <-. destruct (selects h (config_address b d f off)) as (h1 & E1 & Hl & Hq).
  destruct (reads_function h1 b d f n off fn) as (h2 & E2 & Hq2); [done..|by rewrite Hq|done|].
  exists h2. unfold read_pci_config, mbind, ST_bind. rewrite E1, E2. split; [done|]. by transitivity h1.
Qed.
Lemma write_ok h fn' i v : (i < 6)%nat -> functions h b d f = Some fn' -> exists h', write_pci_config 4 b d f (BAR0 + Z.of_nat i * 4) v h = Ret (tt, h') /\
  forall b' d' f', functions h' b' d' f' = if decide ((b', d', f') = (b, d, f)) then Some (write_bar fn' i v) else functions h b' d' f'.
Proof.
  intros Hi Hfn. destruct (selects h (config_address b d f (BAR0 + Z.of_nat i * 4))) as (h1 & E1 & Hl & Hq).
  destruct (writes_bar h1 b d f i v fn') as (h2 & E2 & Hw); [done..|by rewrite Hq|].
  exists h2. unfold write_pci_config, mbind, ST_bind. rewrite E1, E2. split; [done|]. intros b' d' f'. rewrite Hw. case_decide; [done|apply Hq].
Qed.
(** ones in, size out, and the register as before *)
Lemma bar_size_ok h i addr j k fl : 0 <= j <= k -> k < 32 -> addr mod 2 ^ k = 0 -> 0 <= addr < 2 ^ 32 -> 0 <= fl < 2 ^ j -> (i < 6)%nat ->
  functions h b d f = Some fn -> f_bars fn !! i = Some (region addr k fl) ->
  exists h', bar_size b d f (BAR0 + Z.of_nat i * 4) addr (2 ^ 32 - 2 ^ j) h = Ret (2 ^ k, h') /\ quiet h h'.
Proof.
  intros Hj Hk Ha Hr Hfl Hi Hfn Hreg. set (ones := 2 ^ 32 - 2 ^ j).
  destruct (write_ok h fn i ones) as (h1 & E1 & F1); [done..|]. pose proof (F1 b d f) as G1. rewrite decide_True in G1 by done.
  assert (f_bars (write_bar fn i ones) !! i = Some (region (2 ^ 32 - 2 ^ k) k fl)) as Hr1.
  { cbn [write_bar f_bars]. rewrite list_lookup_alter_eq, Hreg. cbn [fmap option_fmap option_map]. f_equal. apply region_ones; done. }
  destruct (selects h1 (config_address b d f (BAR0 + Z.of_nat i * 4))) as (h2 & E2 & L2 & Q2).
  assert (0 <= b_val (region (2 ^ 32 - 2 ^ k) k fl) < 2 ^ 32) as Hv by (pose proof (pow_facts j k Hj Hk); cbn [region b_val]; lia).
  destruct (reads_function h2 b d f 4 (BAR0 + Z.of_nat i * 4) (write_bar fn i ones)) as (h3 & E3 & Q3); [done..|unfold BAR0; lia|done|by rewrite Q2|unfold BAR0; dlia|].
  rewrite (register_bar _ _ _ _ Hr1 Hi Hv) in E3.
  destruct (write_ok h3 (write_bar fn i ones) i addr) as (h4 & E4 & F4); [done|by rewrite Q3, Q2|].
  exists h4. split.
  - unfold bar_size, read_pci_config, mbind, ST_bind. rewrite E1, E2, E3, E4. unfold lift, ones. rewrite (region_size j) by done. by rewrite (size_of_mask j).
  - intros b' d' f'. rewrite F4. case_decide as E; [|by rewrite Q3, Q2, F1, decide_False]. injection E as -> -> ->. rewrite Hfn. f_equal.
    destruct fn as [? ? ? ? ? ? bars ? ?]. unfold write_bar. cbn [f_vendor f_device f_class f_line f_latency f_header f_bars f_int f_cap] in *. f_equal.
    rewrite list_alter_alter_eq. rewrite (list_alter_ext _ id bars bars i); [by apply list_alter_id|intros r Hr'|done]. rewrite Hreg in Hr'. injection Hr' as <-. cbn [compose id]. unfold compose, ones. rewrite region_ones by done. by apply region_back with j.
Qed.

Lemma bar_read h i r : functions h b d f = Some fn -> f_bars fn !! i = Some r -> (i < 6)%nat -> 0 <= b_val r < 2 ^ 32 ->
  exists h', read_pci_config 4 b d f (BAR0 + Z.of_nat i * 4) h = Ret (b_val r, h') /\ quiet h h'.
Proof. intros Hfn Hr Hi Hv. apply read_ok; [done|unfold BAR0; lia|unfold BAR0; dlia|by apply register_bar]. Qed.

(** the loop from one register on; [one] is an iteration that takes one register *)
Definition goes rs bs : Prop := forall fuel h pre done_, functions h b d f = Some fn -> f_bars fn = pre ++ rs ->
  (length pre + length rs = 6)%nat -> length done_ = length pre -> (length rs < fuel)%nat ->
  exists h', probe_bars fuel b d f (Z.of_nat (length pre)) (done_ ++ repeat NoBar (length rs)) h = Ret (done_ ++ bs, h') /\ quiet h h'.
Definition one x y : Prop := forall fuel h i bars, functions h b d f = Some fn -> f_bars fn !! i = Some x -> (i < 6)%nat -> bars !! i = Some NoBar ->
  exists h', quiet h h' /\ probe_bars (S fuel) b d f (Z.of_nat i) bars h = probe_bars fuel b d f (Z.of_nat (S i)) (<[i := y]> bars) h'.
Lemma goes_one x y rs bs : one x y -> goes rs bs -> goes (x :: rs) (y :: bs).
Proof.
  intros Ho Hg fuel h pre done_ Hfn Hbars Hl Hd' Hfu. cbn [length repeat] in *. destruct fuel as [|fuel]; [lia|].
  destruct (Ho fuel h (length pre) (done_ ++ NoBar :: repeat NoBar (length rs))) as (h1 & Q1 & ->);
    [done|rewrite Hbars; by apply list_lookup_middle|lia|by apply list_lookup_middle|].
  rewrite <- Hd', (insert_app_r_alt done_), Nat.sub_diag by lia. cbn [insert list_insert].
  destruct (Hg fuel h1 (pre ++ [x]) (done_ ++ [y])) as (h2 & E2 & Q2); [by rewrite Q1|by rewrite <- app_assoc|rewrite length_app; cbn; lia|rewrite !length_app; cbn; lia|lia|].
  rewrite length_app, Nat.add_1_r, <- Hd', <- !app_assoc in E2. exists h2. split; [exact E2|by transitivity h1].
Qed.

Lemma one_unused r : b_val r = 0 -> one r NoBar.
Proof.
  intros Hv fuel h i bars Hfn Hr Hi Hn. destruct (bar_read h i r Hfn Hr Hi ltac:(lia)) as (h1 & E1 & Q1). exists h1. split; [done|].
  cbn [probe_bars]. rewrite (proj2 (Z.ltb_lt _ 6)) by lia. cbn [negb]. unfold mbind at 1, ST_bind at 1. rewrite E1, Hv. cbn [Z.eqb].
  by rewrite (list_insert_id _ _ _ Hn), Nat2Z.inj_succ.
Qed.
Lemma one_io addr k : 2 <= k < 32 -> addr mod 2 ^ k = 0 -> 0 <= addr < 2 ^ 16 -> one (region addr k 1) (Io addr (2 ^ k)).
Proof.
  intros Hk Ha Hr fuel h i bars Hfn Hreg Hi Hn. destruct (bar_read h i _ Hfn Hreg Hi ltac:(cbn [region b_val]; lia)) as (h1 & E1 & Q1).
  destruct (bar_size_ok h1 i addr 2 k 1) as (h2 & E2 & Q2); [lia|lia|done|lia|lia|done|by rewrite Q1|done|].
  assert (Ha1 : addr mod 2 ^ 1 = 0) by (apply (mod_smaller _ 1 k); [lia|done]).
  exists h2. split; [by transitivity h1|]. cbn [probe_bars]. rewrite (proj2 (Z.ltb_lt _ 6)) by lia. cbn [negb]. unfold mbind, ST_bind. rewrite E1. cbn [region b_val].
  rewrite (proj2 (Z.eqb_neq _ 0)) by lia. change 1 with (2 ^ 1 - 1) at 2. rewrite land_mask, <- Z.add_mod_idemp_l, Ha1 by lia. cbn [Z.add Z.modulo Z.div_eucl].
  change 0xFFFFFFFC with (2 ^ 32 - 2 ^ 2). rewrite (region_addr addr 2 k 1) by (done || lia). change ((0 + 1) mod 2 ^ 1 =? 1) with true. cbv beta iota. rewrite E2.
  unfold wrap. by rewrite Z.mod_small, Nat2Z.id, Nat2Z.inj_succ by lia.
Qed.

(** what the loop reads off the register of a memory region *)
Lemma memory_flags addr k w p : 4 <= k < 32 -> addr mod 2 ^ k = 0 -> 0 <= addr < 2 ^ 32 ->
  let v := addr + mem_flags w p in
  (Z.land v 1 =? 1) = false /\ Z.land v 0xFFFFFFF0 = addr /\ (Z.land v 8 =? 8) = p /\ Z.shiftr (Z.land v 6) 1 = if w then 2 else 0.
Proof.
  intros Hk Ha Hr v. assert (Ha4 : addr mod 2 ^ 4 = 0) by (apply (mod_smaller _ 4 k); [lia|done]).
  assert (0 <= mem_flags w p < 2 ^ 4) by (by destruct w, p). unfold v. rewrite (flags_read addr _ 1), (flags_read addr _ 8), (flags_read addr _ 6) by done.
  split_and!; [by destruct w, p| |by destruct w, p|by destruct w, p]. change 0xFFFFFFF0 with (2 ^ 32 - 2 ^ 4). apply (region_addr addr 4 k); (done || lia).
Qed.
Lemma memory_step addr k w p fuel h i bars : 4 <= k < 32 -> addr mod 2 ^ k = 0 -> 0 <= addr < 2 ^ 32 -> addr + mem_flags w p <> 0 ->
  functions h b d f = Some fn -> f_bars fn !! i = Some (region addr k (mem_flags w p)) -> (i < 6)%nat ->
  exists h', quiet h h' /\ probe_bars (S fuel) b d f (Z.of_nat i) bars h =
    (if w then
       _ ← lift (assert_that (Z.of_nat i <? 5));
       bar_2 ← read_pci_config 4 b d f (BAR0 + (Z.of_nat i + 1) * 4);
       let b_ := Memory (Z.lor (Z.shiftl bar_2 32) addr) (2 ^ k) p in
       probe_bars fuel b d f (Z.of_nat i + 2) (<[i := b_]> (<[Z.to_nat (Z.of_nat i + 1) := b_]> bars))
     else probe_bars fuel b d f (Z.of_nat i + 1) (<[i := Memory addr (2 ^ k) p]> bars)) h'.
Proof.
  intros Hk Ha Hr Hnz Hfn Hreg Hi. assert (0 <= mem_flags w p < 2 ^ 4) as Hfl by (by destruct w, p).
  destruct (pow_facts 4 k) as [? _]; [lia|lia|]. pose proof (below_top addr 4 k ltac:(lia) ltac:(lia) Ha Hr).
  destruct (bar_read h i _ Hfn Hreg Hi ltac:(cbn [region b_val]; lia)) as (h1 & E1 & Q1).
  destruct (memory_flags addr k w p Hk Ha Hr) as (F1 & F2 & F3 & F4).
  destruct (bar_size_ok h1 i addr 4 k (mem_flags w p)) as (h2 & E2 & Q2); [lia|lia|done|lia|by destruct w, p|done|by rewrite Q1|done|].
  exists h2. split; [by transitivity h1|]. cbn [probe_bars]. rewrite (proj2 (Z.ltb_lt (Z.of_nat i) 6)) by lia. cbn [negb]. unfold mbind at 1, ST_bind at 1. rewrite E1.
  cbn [region b_val]. rewrite (proj2 (Z.eqb_neq _ 0)) by done. rewrite F1, F2, F3, F4. change 0xFFFFFFF0 with (2 ^ 32 - 2 ^ 4). unfold mbind at 1, ST_bind at 1. rewrite E2.
  rewrite Nat2Z.id. by destruct w.
Qed.
Lemma one_memory addr k p : 4 <= k < 32 -> addr mod 2 ^ k = 0 -> 0 < addr < 2 ^ 32 -> one (region addr k (mem_flags false p)) (Memory addr (2 ^ k) p).
Proof.
  intros Hk Ha Hr fuel h i bars Hfn Hreg Hi Hn.
  destruct (memory_step addr k false p fuel h i bars) as (h1 & Q1 & E1); [done|done|lia|destruct p; unfold mem_flags; lia|done..|].
  exists h1. split; [done|]. by rewrite E1, Nat2Z.inj_succ.
Qed.
Lemma goes_wide lo hi k p r rs bs : 4 <= k < 32 -> lo mod 2 ^ k = 0 -> 0 <= lo < 2 ^ 32 -> b_val r = hi -> 0 <= hi < 2 ^ 32 -> goes rs bs ->
  goes (region lo k (mem_flags true p) :: r :: rs) (Memory (lo + hi * 2 ^ 32) (2 ^ k) p :: Memory (lo + hi * 2 ^ 32) (2 ^ k) p :: bs).
Proof.
  intros Hk Ha Hr Hv Hhi Hg fuel h pre done_ Hfn Hbars Hl Hd' Hfu. cbn [length repeat] in *. destruct fuel as [|fuel]; [lia|].
  assert (L1 : f_bars fn !! length pre = Some (region lo k (mem_flags true p))) by (rewrite Hbars; by apply list_lookup_middle).
  assert (L2 : f_bars fn !! S (length pre) = Some r) by (rewrite Hbars, lookup_app_r, Nat.sub_succ_l, Nat.sub_diag by lia; done).
  destruct (memory_step lo k true p fuel h (length pre) (done_ ++ NoBar :: NoBar :: repeat NoBar (length rs))) as (h1 & Q1 & E1);
    [done|done|lia|destruct p; unfold mem_flags; lia|done|done|lia|].
  destruct (bar_read h1 (S (length pre)) r) as (h2 & E2 & Q2); [by rewrite Q1|done|lia|lia|].
  set (m := Memory (lo + hi * 2 ^ 32) (2 ^ k) p).
  destruct (Hg fuel h2 (pre ++ [region lo k (mem_flags true p); r]) (done_ ++ [m; m])) as (h3 & E3 & Q3);
    [by rewrite Q2, Q1|by rewrite <- app_assoc|rewrite length_app; cbn; lia|rewrite !length_app; cbn; lia|lia|].
  exists h3. split; [|transitivity h1; [done|by transitivity h2]]. rewrite E1. rewrite (proj2 (Z.ltb_lt _ 5)) by lia.
  unfold mbind, ST_bind, lift, assert_that. change (Z.of_nat (length pre) + 1) with (Z.succ (Z.of_nat (length pre))). rewrite <- Nat2Z.inj_succ, E2, Hv. cbv zeta. rewrite Z.lor_comm, lor_shiftl_add by lia. fold m.
  rewrite Nat2Z.id, <- Hd'. rewrite (insert_app_r_alt done_), Nat.sub_succ_l, Nat.sub_diag by lia. cbn [insert list_insert].
  rewrite (insert_app_r_alt done_), Nat.sub_diag by lia. cbn [insert list_insert].
  rewrite length_app, Nat2Z.inj_add, <- Hd', <- !app_assoc in E3. exact E3.
Qed.
Lemma bars_go rs bs : describes rs bs -> goes rs bs.
Proof.
  induction 1; [|by apply goes_one; [apply one_unused|]|by apply goes_one; [apply one_io|]|by apply goes_one; [apply one_memory|]|by apply goes_wide].
  intros fuel h pre done_ Hfn Hbars Hl Hd' Hfu. destruct fuel as [|fuel]; [lia|]. exists h. split; [|done]. cbn [probe_bars length repeat] in *.
  by rewrite (proj2 (Z.ltb_ge _ _)) by lia.
Qed.

Lemma probe_ok h : function_ok keeps fn -> functions h b d f = Some fn -> exists r h', probe b d f h = Ret (r, h') /\ quiet h h' /\
  if bridge keeps fn then r = None else exists c, r = Some c /\ config_of keeps b d f fn c.
Proof.
  intros (Hw & Hv & Hok) Hfn. unfold probe. destruct (registers_read keeps fn Hw) as (R1 & R2 & R3 & R4 & R5 & R6).
  destruct (read_ok h 2 VENDOR_ID _ Hfn ltac:(done) ltac:(done) R1) as (h1 & E1 & Q1).
  destruct (read_ok h1 2 DEVICE_ID (seen_device keeps fn)) as (h2 & E2 & Q2); [by rewrite Q1|done..|].
  destruct (read_ok h2 4 CLASS_DWORD (f_class fn)) as (h3 & E3 & Q3); [by rewrite Q2, Q1|done..|].
  destruct (read_ok h3 1 HEADER_TYPE (seen_header keeps fn)) as (h4 & E4 & Q4); [by rewrite Q3, Q2, Q1|done..|].
  assert (Q : quiet h h4) by (do 3 (etransitivity; [eassumption|]); eassumption).
  unfold mbind, ST_bind. rewrite E1. rewrite (proj2 (Z.eqb_neq _ _)) by done. rewrite E2, E3, E4. change 0x7F with (2 ^ 7 - 1). rewrite land_mask by lia. fold (bridge keeps fn).
  destruct (bridge keeps fn); [by eexists _, _|]. destruct Hok as (Hl & bs & Hbs); [done|].
  destruct (bars_go _ _ Hbs 7%nat h4 [] []) as (h5 & E5 & Q5); [by rewrite Q|done|done|done|lia|]. rewrite Hl in E5. change (repeat NoBar 6) with ([] ++ repeat NoBar 6). change (Z.of_nat (length ([] : list bar_reg))) with 0 in E5. rewrite E5.
  destruct (read_ok h5 2 INTERRUPT_LINE (f_int fn)) as (h6 & E6 & Q6); [by rewrite Q5, Q|done..|].
  destruct (read_ok h6 1 CAPABILITIES_PTR (f_cap fn)) as (h7 & E7 & Q7); [by rewrite Q6, Q5, Q|done..|].
  rewrite E6, E7. eexists _, h7. split; [reflexivity|]. split; [etransitivity; [exact Q|]; do 2 (etransitivity; [eassumption|]); eassumption|].
  eexists. split; [reflexivity|]. split; [exact Hbs|]. split; [apply type_new_ok, Hw|]. destruct Hw as (_ & _ & _ & _ & _ & _ & Hi & _).
  unfold wrap. rewrite Z.shiftr_div_pow2, (Z.mod_small (f_int fn / 2 ^ 8)) by dlia. reflexivity.
Qed.
End at_function.

Lemma probe_absent b d f h : 0 <= b < 256 -> 0 <= d < 32 -> 0 <= f < 8 -> functions h b d f = None -> exists h', probe b d f h = Ret (None, h') /\ quiet h h'.
Proof.
  intros Hb Hd Hf Hn. destruct (selects h (config_address b d f VENDOR_ID)) as (h1 & E1 & Hl & Hq).
  destruct (reads_absent h1 b d f) as (h2 & E2 & Q2); [done..|by rewrite Hq|]. exists h2. unfold probe, read_pci_config, mbind, ST_bind. rewrite E1, E2.
  split; [done|by transitivity h1].
Qed.

(** ** All functions *)
Section scan.
Context (h0 : H) (Hok : forall b d f fn, functions h0 b d f = Some fn -> function_ok keeps fn).
(** what probing a place finds *)
Definition finds (p : Z * Z * Z) (r : option PciDeviceConfig) : Prop :=
  let '(b, d, f) := p in
  match functions h0 b d f with
  | None => r = None
  | Some fn => if bridge keeps fn then r = None else exists c, r = Some c /\ config_of keeps b d f fn c
  end.
Lemma probe_finds b d f h : quiet h0 h -> 0 <= b < 256 -> 0 <= d < 32 -> 0 <= f < 8 -> exists r h', probe b d f h = Ret (r, h') /\ quiet h0 h' /\ finds (b, d, f) r.
Proof.
  intros Hq Hb Hd Hf. unfold finds. destruct (functions h0 b d f) as [fn|] eqn:E.
  - destruct (probe_ok b d f Hb Hd Hf fn h) as (r & h' & E' & Q & Hr); [by eapply Hok|by rewrite Hq|]. exists r, h'. split_and!; [done|by transitivity h|done].
  - destruct (probe_absent b d f h) as (h' & E' & Q); [done..|by rewrite Hq|]. exists None, h'. split_and!; [done|by transitivity h|done].
Qed.

(** looking through places until one is found; [ps'] are the places left *)
Definition search (ps : list (Z * Z * Z)) (r : option PciDeviceConfig) (ps' : list (Z * Z * Z)) : Prop :=
  match r with
  | None => Forall (fun p => finds p None) ps /\ ps' = []
  | Some c => exists ps1 p, ps = ps1 ++ p :: ps' /\ Forall (fun p => finds p None) ps1 /\ finds p (Some c)
  end.
Lemma search_skip ps1 ps r ps' : Forall (fun p => finds p None) ps1 -> search ps r ps' -> search (ps1 ++ ps) r ps'.
Proof.
  intros H1'. destruct r as [c|]; cbn.
  - intros (l & p & -> & Hl & Hp). exists (ps1 ++ l), p. rewrite <- app_assoc. split_and!; [done|by apply Forall_app|done].
  - intros [H2' ->]. split; [by apply Forall_app|done].
Qed.
Lemma search_more ps c ps' qs : search ps (Some c) ps' -> search (ps ++ qs) (Some c) (ps' ++ qs).
Proof. intros (l & p & -> & Hl & Hp). exists l, p. by rewrite <- app_assoc. Qed.

Definition funcs (b d f : Z) : list (Z * Z * Z) := (fun f => (b, d, f)) <$> seqZ f (8 - f).
Definition devs (b d : Z) : list (Z * Z * Z) := concat ((fun d => funcs b d 0) <$> seqZ d (32 - d)).
Definition buses (b : Z) : list (Z * Z * Z) := concat ((fun b => devs b 0) <$> seqZ b (256 - b)).
Lemma seqZ_from a n : a < n -> seqZ a (n - a) = a :: seqZ (a + 1) (n - (a + 1)).
Proof. intros Ha. rewrite seqZ_cons by lia. f_equal. f_equal; lia. Qed.
Lemma seqZ_none a n : n <= a -> seqZ a (n - a) = [].
Proof. intros Ha. apply seqZ_nil. lia. Qed.

Lemma func_loop_ok fuel : forall b d f h, 0 <= b < 256 -> 0 <= d < 32 -> 0 <= f <= 8 -> 8 - f < Z.of_nat fuel -> quiet h0 h ->
  exists r f' h', func_loop fuel (mkIter b d f) h = Ret ((r, mkIter b d f'), h') /\ quiet h0 h' /\ 0 <= f' <= 8 /\ search (funcs b d f) r (funcs b d f').
Proof.
  induction fuel as [|fuel IH]; intros b d f h Hb Hd Hf Hfu Hq; [lia|]. cbn [func_loop it_bus it_dev it_func]. destruct (Z.ltb_spec f 8); cbn [negb].
  - destruct (probe_finds b d f h) as (r & h1 & E1 & Q1 & Hr); [done..|lia|]. unfold mbind, ST_bind. rewrite E1. unfold funcs at 1. rewrite seqZ_from by done. cbn [fmap list_fmap].
    destruct r as [c|].
    + exists (Some c), (f + 1), h1. split_and!; [done|done|lia|lia|]. by exists [], (b, d, f).
    + destruct (IH b d (f + 1) h1) as (r & f' & h2 & E2 & Q2 & Hf' & Hs); [done|done|lia|lia|done|]. exists r, f', h2. split_and!; [done|done|lia|lia|].
      apply (search_skip [(b, d, f)]); [by constructor|done].
  - exists None, f, h. split_and!; [done|done|lia|lia|]. unfold funcs. rewrite seqZ_none by lia. by split.
Qed.

(** the places an iterator still has on its bus, and on all *)
Definition left_dev (b d f : Z) : list (Z * Z * Z) := if decide (d < 32) then funcs b d f ++ devs b (d + 1) else [].
Definition left_bus (b d f : Z) : list (Z * Z * Z) := left_dev b d f ++ buses (b + 1).
Lemma devs_left b d : devs b d = left_dev b d 0.
Proof.
  unfold devs, left_dev. case_decide; [|by rewrite seqZ_none by lia]. rewrite seqZ_from by done. done.
Qed.
Lemma buses_left b : buses b = if decide (b < 256) then left_bus b 0 0 else [].
Proof. unfold buses, left_bus. case_decide; [|by rewrite seqZ_none by lia]. rewrite seqZ_from by done. cbn [fmap list_fmap concat]. by rewrite devs_left. Qed.

Lemma dev_loop_ok fuel : forall b d f h, 0 <= b < 256 -> 0 <= d <= 32 -> 0 <= f <= 8 -> (d = 32 -> f = 0) -> 32 - d < Z.of_nat fuel -> quiet h0 h ->
  exists r d' f' h', dev_loop fuel (mkIter b d f) h = Ret ((r, mkIter b d' f'), h') /\ quiet h0 h' /\ 0 <= f' <= 8 /\
    match r with None => f' = 0 | Some _ => 0 <= d' < 32 end /\ search (left_dev b d f) r (match r with None => [] | Some _ => left_dev b d' f' end).
Proof.
  induction fuel as [|fuel IH]; intros b d f h Hb Hd Hf Hf0 Hfu Hq; [lia|]. cbn [dev_loop it_bus it_dev it_func]. destruct (Z.ltb_spec d 32); cbn [negb].
  - destruct (func_loop_ok 9 b d f h) as (r & f' & h1 & E1 & Q1 & Hf' & Hs); [done|lia|done|lia|done|]. unfold mbind, ST_bind. rewrite E1.
    unfold left_dev at 1. rewrite decide_True by done. cbn [it_bus it_dev]. destruct r as [c|].
    + exists (Some c), d, f', h1. split_and!; [done|done|lia|lia|lia|lia|]. unfold left_dev. rewrite decide_True by done. by apply search_more.
    + destruct (IH b (d + 1) 0 h1) as (r & d' & f2 & h2 & E2 & Q2 & Hf2 & Hr & Hs2); [done|lia|lia|done|lia|done|].
      exists r, d', f2, h2. split_and!; [done|done|lia|lia|done|]. destruct Hs as [Hs _]. apply search_skip; [done|]. by rewrite devs_left.
  - exists None, d, f, h. split_and!; [done|done|lia|lia|lia|]. unfold left_dev. rewrite decide_False by lia. by split.
Qed.
Lemma bus_loop_ok fuel : forall b d f h, 0 <= b < 256 -> 0 <= d < 32 -> 0 <= f <= 8 -> 255 - b < Z.of_nat fuel -> quiet h0 h ->
  exists r b' d' f' h', bus_loop fuel (mkIter b d f) h = Ret ((r, mkIter b' d' f'), h') /\ quiet h0 h' /\ 0 <= b' < 256 /\ 0 <= d' < 32 /\ 0 <= f' <= 8 /\
    search (left_bus b d f) r (match r with None => [] | Some _ => left_bus b' d' f' end).
Proof.
  induction fuel as [|fuel IH]; intros b d f h Hb Hd Hf Hfu Hq; [lia|]. cbn [bus_loop].
  destruct (dev_loop_ok 33 b d f h) as (r & d' & f' & h1 & E1 & Q1 & Hf' & Hr & Hs); [done|lia|done|lia|lia|done|]. unfold mbind, ST_bind. rewrite E1.
  unfold left_bus at 1. destruct r as [c|].
  - exists (Some c), b, d', f', h1. split_and!; [done|done|lia|lia|lia|lia|lia|lia|]. by apply search_more.
  - subst f'. destruct Hs as [Hs _]. cbn [it_bus it_func]. rewrite buses_left. destruct (Z.leb_spec 0xFF b).
    + exists None, b, 0, 0, h1. rewrite decide_False by lia. split_and!; [done|done|lia..|]. rewrite app_nil_r. by split.
    + rewrite decide_True by lia. destruct (IH (b + 1) 0 0 h1) as (r & b' & d2 & f2 & h2 & E2 & Q2 & Hb' & Hd2 & Hf2 & Hs2); [lia|lia|lia|lia|done|].
      exists r, b', d2, f2, h2. split_and!; [done|done|lia..|]. by apply search_skip.
Qed.
Lemma next_ok b d f h : 0 <= b < 256 -> 0 <= d < 32 -> 0 <= f <= 8 -> quiet h0 h ->
  exists r b' d' f' h', next (mkIter b d f) h = Ret ((r, mkIter b' d' f'), h') /\ quiet h0 h' /\ 0 <= b' < 256 /\ 0 <= d' < 32 /\ 0 <= f' <= 8 /\
    search (left_bus b d f) r (match r with None => [] | Some _ => left_bus b' d' f' end).
Proof. intros. apply bus_loop_ok; [done..|lia|done]. Qed.

(** what the iterator yields until it ends *)
Fixpoint scan (fuel : nat) (self : PciDeviceProbeIterator) : ST H (list PciDeviceConfig) :=
  match fuel with
  | O => diverge
  | S fuel => r ← next self; match r with (None, _) => mret [] | (Some c, self) => l ← scan fuel self; mret (c :: l) end
  end.
Lemma scan_ok fuel : forall b d f h, 0 <= b < 256 -> 0 <= d < 32 -> 0 <= f <= 8 -> quiet h0 h -> (length (left_bus b d f) < fuel)%nat ->
  exists rs h', scan fuel (mkIter b d f) h = Ret (omap id rs, h') /\ quiet h0 h' /\ Forall2 finds (left_bus b d f) rs.
Proof.
  induction fuel as [|fuel IH]; intros b d f h Hb Hd Hf Hq Hfu; [lia|]. cbn [scan].
  destruct (next_ok b d f h) as (r & b' & d' & f' & h1 & E1 & Q1 & Hb' & Hd' & Hf' & Hs); [done..|]. unfold mbind, ST_bind. rewrite E1.
  assert (Hnone : forall ps, Forall (fun p => finds p None) ps -> Forall2 finds ps (replicate (length ps) None) /\ omap id (replicate (length ps) (None : option PciDeviceConfig)) = []).
  { induction 1 as [|p ps Hp _ [IH1 IH2]]; [by split|]. by split; [constructor|]. }
  destruct r as [c|]; cbn [search] in Hs.
  - destruct Hs as (ps1 & p & Eps & Hn & Hp). rewrite Eps in *. destruct (Hnone _ Hn) as [Hn1 Hn2].
    destruct (IH b' d' f' h1) as (rs & h2 & E2 & Q2 & Hrs); [done..|rewrite length_app in Hfu; cbn in Hfu; lia|]. rewrite E2.
    exists (replicate (length ps1) None ++ Some c :: rs), h2. rewrite omap_app, Hn2. split_and!; [done|done|]. apply Forall2_app; [done|by constructor].
  - destruct Hs as [Hn _]. destruct (Hnone _ Hn) as [Hn1 Hn2]. exists (replicate (length (left_bus b d f)) None), h1. by rewrite Hn2.
Qed.
End scan.
End bus.

(** every place there is, in the order of the iterator *)
Definition all_places : list (Z * Z * Z) := buses 0.

(** C34: Probing the bus looks at every place once, in the order of bus, device
    and function, ends, and leaves the base address registers as they were. On a
    host bridge that keeps the low bits of an address, as emulators do, it
    yields exactly the functions with an ordinary header, each with its
    identity, its class, its interrupt and the addresses and sizes of its
    regions (below 4 GiB in size). On one that has these bits wired to zero, as
    the specification says, the same holds but for the device number and the
    type of header, for which the vendor and the size of a cache line are read.
    *)
Theorem pci_scan_finds_devices {H : Type} {keeps : bool} `{PciLaws H keeps} (h : H) :
  (forall b d f fn, functions h b d f = Some fn -> function_ok keeps fn) ->
  exists rs h', scan (S (length all_places)) iter_new h = Ret (omap id rs, h') /\ Forall2 (finds h) all_places rs /\
    forall b d f, functions h' b d f = functions h b d f.
Proof.
  intros Hok. assert (all_places = left_bus 0 0 0) as -> by (unfold all_places; by rewrite buses_left).
  destruct (scan_ok h Hok (S (length (left_bus 0 0 0))) 0 0 0 h) as (rs & h' & E & Q & Hrs); [lia|lia|lia|done|lia|]. by exists rs, h'.
Qed.

Module PciDemo.
(** a bus: the address register, and the functions *)
Record Bus : Type := mkBus { address : Z; table : Z -> Z -> Z -> option function }.
Definition place (a : Z) : Z * Z * Z := (a / 2 ^ 16 mod 256, a / 2 ^ 11 mod 32, a / 2 ^ 8 mod 8).
Section host.
Context (keeps : bool).
#[local] Instance bus_io : PortIo Bus := {
  io_in n p := fun h =>
    let '(b, d, f) := place (address h) in
    Ret (match table h b d f with Some fn => register keeps fn n (address h mod 256) | None => 0xFFFF end, h);
  io_out n p v := fun h =>
    if p =? CONFIG_ADDRESS then Ret (tt, mkBus v (table h)) else
    let '(b, d, f) := place (address h) in
    Ret (tt, mkBus (address h) (fun b' d' f' => if decide ((b', d', f') = (b, d, f)) then (fun fn => write_bar fn (Z.to_nat ((address h mod 256 - BAR0) / 4)) v) <$> table h b d f else table h b' d' f'))
}.
Lemma address_sum b d f off : 0 <= b < 256 -> 0 <= d < 32 -> 0 <= f < 8 -> 0 <= off < 256 ->
  config_address b d f off = 2 ^ 31 + b * 2 ^ 16 + d * 2 ^ 11 + f * 2 ^ 8 + off.
Proof.
  intros. unfold config_address. rewrite !Z.shiftl_mul_pow2 by lia. change 0x80000000 with (2 ^ 31).
  rewrite (lor_low_flags (2 ^ 31) 24 24), (lor_low_flags (2 ^ 31 + b * 2 ^ 16) 16 16), (lor_low_flags (2 ^ 31 + b * 2 ^ 16 + d * 2 ^ 11) 11 11), (lor_low_flags _ 8 8); try lia; try done; dlia.
Qed.
Lemma place_ok b d f off : 0 <= b < 256 -> 0 <= d < 32 -> 0 <= f < 8 -> 0 <= off < 256 -> place (config_address b d f off) = (b, d, f) /\ config_address b d f off mod 256 = off.
Proof. intros. rewrite address_sum by done. unfold place. split; [f_equal; [f_equal|]|]; dlia. Qed.
#[local] Program Instance bus_laws : PciLaws Bus keeps := { functions := table; latch := address }.
Next Obligation. intros h a. eexists. by split. Qed.
Next Obligation.
  intros h b d f n off fn Hb Hd Hf Ho Hl Hfn Hn. destruct (place_ok b d f off) as [Hp Hm]; [done..|lia|].
  exists h. split; [|done]. cbn [io_in bus_io]. by rewrite Hl, Hp, Hm, Hfn.
Qed.
Next Obligation.
  intros h b d f Hb Hd Hf Hl Hfn. destruct (place_ok b d f VENDOR_ID) as [Hp Hm]; [done..|]. exists h. split; [|done]. cbn [io_in bus_io]. by rewrite Hl, Hp, Hfn.
Qed.
Next Obligation.
  intros h b d f i v fn Hb Hd Hf Hi Hl Hfn. destruct (place_ok b d f (BAR0 + Z.of_nat i * 4)) as [Hp Hm]; [done..|unfold BAR0; lia|].
  eexists. split; [cbn [io_out bus_io]; change (CONFIG_DATA =? CONFIG_ADDRESS) with false; cbv beta iota; rewrite Hl, Hp; reflexivity|].
  intros b' d' f'. cbn [table]. case_decide; [|done]. rewrite Hfn, Hm. cbn [fmap option_fmap option_map]. do 2 f_equal.
  replace (BAR0 + Z.of_nat i * 4 - BAR0) with (Z.of_nat i * 4) by lia. rewrite Z.div_mul by lia. lia.
Qed.
End host.
(** an IDE controller with an I/O region, and a bridge *)
Definition ide : function := mkFunction 0x8086 0x7010 0x01018000 0 0 0 [mkReg 0 0 0; mkReg 0 0 0; mkReg 0 0 0; mkReg 0 0 0; region 0xC040 4 1; mkReg 0 0 0] 0 0.
Definition pci_bridge : function := mkFunction 0x8086 0x1234 0x06040000 0 0 1 [] 0 0.
Definition demo : Bus := mkBus 0 (fun b d f => if decide ((b, d, f) = (0, 1, 1)) then Some ide else if decide ((b, d, f) = (0, 2, 0)) then Some pci_bridge else None).
Lemma demo_ok b d f fn : table demo b d f = Some fn -> function_ok true fn.
Proof.
  cbn [table demo]. repeat case_decide; intros [= <-]; (split; [by vm_compute|]; split; [done|]); [|by vm_compute]. intros _. split; [done|].
  eexists. do 4 (apply bar_unused; [done|]). apply bar_io; [lia|done|lia|]. apply bar_unused; [done|]. constructor.
Qed.
Lemma pci_scan_finds_devices_witness : exists rs h', scan (H0 := bus_io true) (S (length all_places)) iter_new demo = Ret (omap id rs, h') /\
  Forall2 (finds (H1 := bus_laws true) demo) all_places rs /\ forall b d f, table h' b d f = table demo b d f.
Proof. exact (pci_scan_finds_devices (H1 := bus_laws true) demo demo_ok). Defined.
(** what is found at the place of the controller *)
Example ide_found : exists h', probe (H0 := bus_io true) 0 1 1 demo = Ret (Some (mkConfig 0 1 1 0x8086 0x7010 (MassStorageController 1 0x80 0) 0 [NoBar; NoBar; NoBar; NoBar; Io 0xC040 16; NoBar] 0 0 None), h').
Proof. eexists. vm_compute. reflexivity. Qed.
(** The registers of the device and of the header are addressed with their low
    bits; on a bus built to the specification these select nothing, and the
    device is read as its vendor. *)
Lemma unaligned_register_misread : match probe (H0 := bus_io false) 0 1 1 demo with Ret (Some c, _) => device_id c = f_vendor ide /\ f_device ide <> f_vendor ide | _ => False end.
Proof. by vm_compute. Qed.
(** Sizes are computed from the low half of a wide region only: one of 4 GiB
    or more overflows the computation. *)
Definition huge : function := mkFunction 0x1234 0x5678 0x03000000 0 0 0 [mkReg 4 0 4; mkReg 8 (2 ^ 32 - 2) 0; mkReg 0 0 0; mkReg 0 0 0; mkReg 0 0 0; mkReg 0 0 0] 0 0.
Lemma huge_region_panics : probe (H0 := bus_io true) 0 3 0 (mkBus 0 (fun b d f => if decide ((b, d, f) = (0, 3, 0)) then Some huge else None)) = Panic.
Proof. vm_compute. reflexivity. Qed.
End PciDemo.
