(* ===== verification/Ata.v ===== *)
(** * The IDE driver at its ports

    Models [kernel/src/devices/ide.rs] below [IdeDevice::read_sync] and
    [write_sync] (which are [BlockDev.v]): the registers of a drive, the
    transfer of data blocks, ATA and ATAPI commands, the identification of a
    drive, the search for drives behind a PCI controller, their registry and
    the interrupt handlers.  It ends with the instance of [AtaDrive] that the
    block layer runs on.  Loops that wait for the drive have fuel. *)
From S2P Require Import Prelude UserLink FsTypes BlockDev Bytes Pci.
Import Pci.

Module Ata.
(** ** [pci_cfg] *)
Definition PROG_IF_PRIMARY : Z := Z.shiftl 1 0.
Definition PROG_IF_PRIMARY_PROGRAMMABLE : Z := Z.shiftl 1 1.
Definition PROG_IF_SECONDARY : Z := Z.shiftl 1 2.
Definition PROG_IF_SECONDARY_PROGRAMMABLE : Z := Z.shiftl 1 3.
Definition PROG_IF_MASTER : Z := Z.shiftl 1 7.
Definition DEFAULT_PRIMARY_IO : Z * Z := (0x1F0, 0x3F6).
Definition DEFAULT_SECONDARY_IO : Z * Z := (0x170, 0x376).
Definition CMD_IO_SPACE : Z := Z.shiftl 1 0.
Definition CMD_BUS_MASTER : Z := Z.shiftl 1 2.
Definition DEFAULT_PRIMARY_INTERRUPT : Z := 14.
Definition DEFAULT_SECONDARY_INTERRUPT : Z := 15.

(** ** [ata] *)
Definition DATA : Z := 0x0.
Definition ERROR : Z := 0x1.
Definition FEATURES : Z := 0x1.
Definition SECTOR_COUNT : Z := 0x2.
Definition LBA_LO : Z := 0x3.
Definition LBA_MID : Z := 0x4.
Definition LBA_HI : Z := 0x5.
Definition DRIVE : Z := 0x6.
Definition COMMAND : Z := 0x7.
Definition STATUS : Z := 0x7.
Definition ERROR_ABORTED : Z := Z.shiftl 1 2.
Definition SENSE_NOT_READY : Z := 0x2.
Definition STATUS_ERR : Z := Z.shiftl 1 0.
Definition STATUS_DATA_REQUEST : Z := Z.shiftl 1 3.
Definition STATUS_BUSY : Z := Z.shiftl 1 7.
Definition COMMAND_IDENTIFY : Z := 0xEC.
Definition COMMAND_PACKET_IDENTIFY : Z := 0xA1.
Definition COMMAND_READ_SECTORS : Z := 0x20.
Definition COMMAND_WRITE_SECTORS : Z := 0x30.
Definition COMMAND_PACKET : Z := 0xA0.
Definition PACKET_FEAT_DMA : Z := Z.shiftl 1 0.
Definition PACKET_FEAT_DMA_DIR_FROM_DEVICE : Z := Z.shiftl 1 2.
Definition PACKET_CMD_READ_10 : Z := 0x28.
Definition PACKET_CMD_TEST_UNIT_READY : Z := 0x00.
Definition PACKET_CMD_READ_CAPACITY : Z := 0x25.
Definition DEFAULT_SECTOR_SIZE : Z := 512.

(** [v & bits != 0] *)
Definition has (v bits : Z) : bool := negb (Z.land v bits =? 0).

Record IdeIo : Type := mkIo { command_block : Z; control_block : Z }.

Section ports.
Context {H : Type} `{PortIo H} (polls : nat).
Implicit Types io : IdeIo.

(** ** [IdeIo] *)
Definition read_command_block io (offset : Z) : ST H Z := p ← lift (cadd 16 (command_block io) offset); io_in 1 p.
Definition write_command_block io (offset value : Z) : ST H unit := p ← lift (cadd 16 (command_block io) offset); io_out 1 p value.
Definition read_data io : ST H Z := p ← lift (cadd 16 (command_block io) DATA); io_in 2 p.
Definition write_data io (value : Z) : ST H unit := p ← lift (cadd 16 (command_block io) DATA); io_out 2 p value.
Definition read_status io : ST H Z := read_command_block io STATUS.
Definition read_error io : ST H Z := read_command_block io ERROR.
Definition read_sense_key io : ST H Z := e ← read_error io; mret (Z.shiftr e 4).

Fixpoint free_loop (fuel : nat) io : ST H unit :=
  match fuel with
  | O => diverge
  | S fuel => status ← read_status io; if has status STATUS_BUSY then free_loop fuel io else mret tt
  end.
Definition wait_until_free io : ST H unit := free_loop polls io.
Fixpoint command_loop (fuel : nat) io : ST H (result unit Z) :=
  match fuel with
  | O => diverge
  | S fuel =>
      status ← read_status io;
      if has status (Z.lor STATUS_BUSY STATUS_DATA_REQUEST) then
        if has status STATUS_ERR then e ← read_error io; mret (Err e) else command_loop fuel io
      else mret (Ok tt)
  end.
Definition wait_until_can_command io : ST H (result unit Z) := _ ← wait_until_free io; command_loop polls io.

(** the words [i ..] of a block of [n] bytes; every 256 words the drive may be busy *)
Fixpoint read_words (n : nat) io (i : Z) : ST H bytes :=
  match n with
  | O => mret []
  | S n =>
      _ ← (if i mod 256 =? 0 then wait_until_free io else mret tt);
      word ← read_data io;
      rest ← read_words n io (i + 1);
      mret (Z.land word 0xFF :: Z.land (Z.shiftr word 8) 0xFF :: rest)
  end.
Definition read_data_block io (len : Z) : ST H (result bytes Z) :=
  status ← read_status io;
  if has status STATUS_ERR then e ← read_error io; mret (Err e) else
  data ← read_words (Z.to_nat (len / 2)) io 0;
  _ ← wait_until_free io;
  status ← read_status io;
  _ ← lift (assert_that (Z.land status STATUS_DATA_REQUEST =? 0));
  mret (Ok data).
Fixpoint write_words io (i : Z) (data : bytes) : ST H unit :=
  match data with
  | b0 :: b1 :: data =>
      _ ← (if i mod 256 =? 0 then wait_until_free io else mret tt);
      _ ← write_data io (Z.lor b0 (Z.shiftl b1 8));
      write_words io (i + 1) data
  | _ => mret tt
  end.
Definition write_data_block io (data : bytes) : ST H (result unit Z) :=
  status ← read_status io;
  if has status STATUS_ERR then e ← read_error io; mret (Err e) else
  _ ← write_words io 0 data;
  _ ← wait_until_free io;
  status ← read_status io;
  _ ← lift (assert_that (Z.land status STATUS_DATA_REQUEST =? 0));
  mret (Ok tt).

(** ** [AtaCommand] *)
Record AtaCommand : Type := mkCommand { command : Z; drive : Z; lba : Z; sector_count : Z; features : Z }.
Definition ata_new (command : Z) : AtaCommand := mkCommand command 0x40 0 0 0.
(** the bit of the second drive, in both kinds of command *)
Definition select_drive (drive : Z) (is_second : bool) : Z :=
  if is_second then Z.lor drive (Z.shiftl 1 4) else Z.land drive (unot 8 (Z.shiftl 1 4)).
Definition with_second_drive (is_second : bool) (self : AtaCommand) : AtaCommand :=
  mkCommand (command self) (select_drive (drive self) is_second) (lba self) (sector_count self) (features self).
Definition with_lba (lba : Z) (self : AtaCommand) : AtaCommand := mkCommand (command self) (drive self) lba (sector_count self) (features self).
Definition with_sector_count (n : Z) (self : AtaCommand) : AtaCommand := mkCommand (command self) (drive self) (lba self) n (features self).
Definition write_command (self : AtaCommand) io : ST H unit :=
  _ ← write_command_block io FEATURES (features self);
  _ ← write_command_block io SECTOR_COUNT (sector_count self);
  _ ← write_command_block io LBA_LO (Z.land (lba self) 0xFF);
  _ ← write_command_block io LBA_MID (Z.land (Z.shiftr (lba self) 8) 0xFF);
  _ ← write_command_block io LBA_HI (Z.land (Z.shiftr (lba self) 16) 0xFF);
  _ ← write_command_block io DRIVE (drive self);
  write_command_block io COMMAND (command self).
Definition ata_execute_read (self : AtaCommand) io (len : Z) : ST H (result bytes Z) :=
  _ ← lift (assert_that (len mod 2 =? 0));
  _ ←? wait_until_can_command io;
  _ ← write_command self io;
  read_data_block io len.
Definition ata_execute_write (self : AtaCommand) io (data : bytes) : ST H (result unit Z) :=
  _ ← lift (assert_that (Z.of_nat (length data) mod 2 =? 0));
  _ ←? wait_until_can_command io;
  _ ← write_command self io;
  write_data_block io data.

(** ** [AtapiPacketCommand] *)
Inductive AtapiDmaDirection : Type := FromDevice | ToDevice | NoDma.
Record AtapiPacketCommand : Type := mkPacket { p_drive : Z; dma : AtapiDmaDirection; p_lba : Z; params : bytes; params_index : nat }.
Definition atapi_new (command : Z) : AtapiPacketCommand := mkPacket 0x40 NoDma 0xFFFF00 (command :: repeat 0 31) 1.
Definition packet_second_drive (is_second : bool) (self : AtapiPacketCommand) : AtapiPacketCommand :=
  mkPacket (select_drive (p_drive self) is_second) (dma self) (p_lba self) (params self) (params_index self).
(** the array has 32 elements; one more is an index out of range *)
Definition push_param (param : Z) (self : AtapiPacketCommand) : outcome AtapiPacketCommand :=
  _ ← assert_that (params_index self <? 32)%nat;
  Ret (mkPacket (p_drive self) (dma self) (p_lba self) (<[params_index self := param]> (params self)) (S (params_index self))).
Definition push_param_u16 (param : Z) (self : AtapiPacketCommand) : outcome AtapiPacketCommand :=
  self ← push_param (wrap 8 (Z.shiftr param 8)) self; push_param (wrap 8 (Z.land param 0xFF)) self.
Definition push_param_u32 (param : Z) (self : AtapiPacketCommand) : outcome AtapiPacketCommand :=
  self ← push_param (wrap 8 (Z.shiftr param 24)) self;
  self ← push_param (wrap 8 (Z.shiftr param 16)) self;
  self ← push_param (wrap 8 (Z.shiftr param 8)) self;
  push_param (wrap 8 (Z.land param 0xFF)) self.
Definition write_packet_command (self : AtapiPacketCommand) io : ST H unit :=
  let features := match dma self with FromDevice => Z.lor PACKET_FEAT_DMA PACKET_FEAT_DMA_DIR_FROM_DEVICE | ToDevice => PACKET_FEAT_DMA | NoDma => 0 end in
  _ ← write_command_block io FEATURES features;
  _ ← write_command_block io SECTOR_COUNT 0;
  _ ← write_command_block io LBA_LO (Z.land (p_lba self) 0xFF);
  _ ← write_command_block io LBA_MID (Z.land (Z.shiftr (p_lba self) 8) 0xFF);
  _ ← write_command_block io LBA_HI (Z.land (Z.shiftr (p_lba self) 16) 0xFF);
  _ ← write_command_block io DRIVE (p_drive self);
  write_command_block io COMMAND COMMAND_PACKET.
(** the parameters as little-endian words *)
Fixpoint send_params io (data : bytes) : ST H unit :=
  match data with b0 :: b1 :: data => _ ← write_data io (Z.lor b0 (Z.shiftl b1 8)); send_params io data | _ => mret tt end.
(** zeros while the drive asks for more, [max] at most *)
Fixpoint pad_params (max : nat) io : ST H unit :=
  match max with
  | O => mret tt
  | S max =>
      status ← read_status io;
      if has status STATUS_DATA_REQUEST then _ ← write_data io 0; pad_params max io else mret tt
  end.
Definition atapi_execute (self : AtapiPacketCommand) io (len : Z) : ST H (result bytes Z) :=
  _ ← lift (assert_that (len mod 2 =? 0));
  _ ←? wait_until_can_command io;
  _ ← write_packet_command self io;
  _ ← wait_until_free io;
  status ← read_status io;
  if has status STATUS_ERR then e ← read_sense_key io; mret (Err e) else
  let param_count := if Nat.odd (params_index self) then S (params_index self) else params_index self in
  _ ← lift (assert_that (param_count <=? 32)%nat);
  _ ← send_params io (take param_count (params self));
  _ ← pad_params 32 io;
  r ← read_data_block io len;
  mret (match r with Ok data => Ok data | Err e => Err (Z.shiftr e 4) end).
End ports.

(** ** The identification of a drive *)
(** the fields of [CommandIdentifyDataRaw], in bytes *)
Definition IDENTIFY_LAYOUT : list nat :=
  [2; 2; 2; 8; 4; 2; 20; 6; 8; 40; 2; 2; 4; 4; 2; 10; 2; 4; 2; 2; 2; 2; 2; 2; 2; 2; 2; 8; 2; 4; 2; 2; 2; 2; 12; 2; 2; 2; 2; 2; 2; 2; 2; 2; 2; 4; 8;
   2; 2; 2; 2; 8; 8; 2; 4; 4; 8; 2; 2; 2; 2; 62; 16; 2; 2; 8; 4; 60; 2; 4; 2; 4; 4; 6; 2; 2; 2; 2; 2; 2; 2; 12; 8; 2; 2; 38; 2]%nat.
Definition field (d : bytes) (i : nat) : bytes := take (nth i IDENTIFY_LAYOUT 0%nat) (drop (list_sum (take i IDENTIFY_LAYOUT)) d).
(** the fields the driver uses *)
Record CommandIdentifyDataRaw : Type := mkIdentify {
  general_config : Z; serial_number : bytes; capabilities : Z; user_addressable_sectors_28_mode : Z; additional_supported : Z;
  command_set_supported : Z; user_addressable_sectors_48 : Z; physical_logical_sector_size : Z; logical_sector_size : Z;
  extended_user_addressable_sectors : Z }.
(** [mem::transmute]; of the arrays of words, the element that is used *)
Definition identify_of (d : bytes) : CommandIdentifyDataRaw :=
  mkIdentify (from_le (field d 0)) (field d 6) (from_le (take 2 (field d 12))) (from_le (field d 17)) (from_le (field d 25))
    (from_le (take 2 (drop 2 (field d 34)))) (from_le (field d 46)) (from_le (field d 49)) (from_le (field d 54)) (from_le (field d 82)).
Section identify.
Implicit Types self : CommandIdentifyDataRaw.
Definition is_valid self : bool :=
  negb (Z.shiftr (general_config self) 8 =? 0xFF) && negb (Z.shiftr (general_config self) 8 =? 0x7F) &&
  existsb (fun x => negb (x =? 0)) (serial_number self) && existsb (fun x => negb (x =? 0xFF)) (serial_number self).
Definition is_dma_supported self : bool := has (capabilities self) (Z.shiftl 1 8).
Definition is_lba_supported self : bool := has (capabilities self) (Z.shiftl 1 9).
Definition is_lba48_supported self : bool := has (command_set_supported self) (Z.shiftl 1 10).
Definition user_addressable_sectors self : Z :=
  if is_lba48_supported self then
    if has (additional_supported self) (Z.shiftl 1 3) then extended_user_addressable_sectors self else user_addressable_sectors_48 self
  else user_addressable_sectors_28_mode self.
Definition sector_size self : outcome Z :=
  if has (physical_logical_sector_size self) (Z.shiftl 1 12) && negb (logical_sector_size self =? 0) then
    _ ← assert_that (256 <=? logical_sector_size self);
    cmul 32 (logical_sector_size self) 2
  else Ret DEFAULT_SECTOR_SIZE.
End identify.

(** ** Drives *)
Record IdeDeviceImpl : Type := mkImpl {
  master_io : option Z; im_io : IdeIo; pci_device : PciDeviceConfig; identify_data : CommandIdentifyDataRaw; second_device_select : bool }.
(** [IdeDevice]: the part behind the lock, and what is fixed *)
Record IdeDrive : Type := mkDrive {
  device_impl : IdeDeviceImpl; drive_type : Ide.IdeDeviceType; drive_sectors : Z; drive_sector_size : Z; drive_second : bool }.
Definition is_primary (d : IdeDrive) : bool := negb (drive_second d).
Definition is_secondary (d : IdeDrive) : bool := drive_second d.

Section init.
Context {H : Type} `{PortIo H} (polls : nat).
Definition from_be (b : bytes) : Z := from_le (rev b).

(** is there an ATAPI drive? it says so by refusing the first command *)
Definition identify_packet (io : IdeIo) (second : bool) (err : Z) : ST H (option bytes) :=
  _ ← lift (assert_that (negb (Z.land err ERROR_ABORTED =? 0)));
  lbalo ← read_command_block io LBA_LO;
  lbamid ← read_command_block io LBA_MID;
  lbahi ← read_command_block io LBA_HI;
  if (lbalo =? 0x1) && (lbamid =? 0x14) && (lbahi =? 0xEB) then
    r ← atapi_execute polls (packet_second_drive second (atapi_new PACKET_CMD_TEST_UNIT_READY)) io 0;
    match r with
    | Err _ => mret None
    | Ok _ =>
        r ← ata_execute_read polls (with_second_drive second (ata_new COMMAND_PACKET_IDENTIFY)) io 512;
        mret (match r with Ok data => Some data | Err _ => None end)
    end
  else mret None.
(** the size of an ATAPI drive, in big-endian words *)
Definition read_capacity (io : IdeIo) (second : bool) : ST H (Z * Z) :=
  r ← atapi_execute polls (packet_second_drive second (atapi_new PACKET_CMD_READ_CAPACITY)) io 8;
  match r with
  | Err _ => panic
  | Ok data => mret (from_be (take 4 data) + 1, from_be (take 4 (drop 4 data)))
  end.
(** [IdeDeviceImpl::init_new] *)
Definition init_new (master_io : option Z) (io : IdeIo) (pci_device : PciDeviceConfig) (second : bool) : ST H (option IdeDrive) :=
  r ← ata_execute_read polls (with_second_drive second (ata_new COMMAND_IDENTIFY)) io 512;
  found ← (match r with
           | Ok data => mret (Some (Ide.Ata, data))
           | Err err => d ← identify_packet io second err; mret (match d with Some data => Some (Ide.Atapi, data) | None => None end)
           end);
  match found with
  | None => mret None
  | Some (device_type, data) =>
      _ ← lift (assert_that (Z.of_nat (list_sum IDENTIFY_LAYOUT) =? Z.of_nat (length data)));
      let identify_data := identify_of data in
      if negb (is_valid identify_data) then mret None else
      let master_io := if is_dma_supported identify_data then master_io else None in
      _ ← lift (assert_that (is_lba_supported identify_data));
      size ← (match device_type with
              | Ide.Ata => s ← lift (sector_size identify_data); mret (user_addressable_sectors identify_data, s)
              | Ide.Atapi => read_capacity io second
              end);
      mret (Some (mkDrive (mkImpl master_io io pci_device identify_data second) device_type (fst size) (snd size) second))
  end.

(** ** Commands to a drive *)
Definition read_sync_ata (self : IdeDeviceImpl) (start_sector len_sectors len : Z) : ST H (result bytes Z) :=
  ata_execute_read polls (with_second_drive (second_device_select self) (with_sector_count (wrap 8 len_sectors) (with_lba start_sector (ata_new COMMAND_READ_SECTORS)))) (im_io self) len.
Definition write_sync_ata (self : IdeDeviceImpl) (start_sector len_sectors : Z) (data : bytes) : ST H (result unit Z) :=
  ata_execute_write polls (with_second_drive (second_device_select self) (with_sector_count (wrap 8 len_sectors) (with_lba start_sector (ata_new COMMAND_WRITE_SECTORS)))) (im_io self) data.
Definition read_sync_atapi (self : IdeDeviceImpl) (start_sector len_sectors len : Z) : ST H (result bytes Z) :=
  command ← lift (
    c ← push_param 0 (packet_second_drive (second_device_select self) (atapi_new PACKET_CMD_READ_10));
    c ← push_param_u32 (wrap 32 start_sector) c;
    c ← push_param 0 c;
    c ← push_param_u16 (wrap 16 len_sectors) c;
    push_param 0 c);
  atapi_execute polls command (im_io self) len.
(** acknowledge the interrupt *)
Definition interrupt (self : IdeDeviceImpl) : ST H unit := _ ← read_status (im_io self); mret tt.
End init.

(** ** Controllers *)
Inductive IdeHandler : Type := ide_interrupt_primary | ide_interrupt_secondary.
(** the interrupt controller: [apic::assign_io_irq] for the current CPU, [apic::return_from_interrupt] *)
Class Irqs (H : Type) : Type := {
  assign_io_irq : IdeHandler -> Z -> ST H unit;
  return_from_interrupt : ST H unit
}.

(** [IDE_DEVICES] and [INTERRUPTS_SETUP] beside the hardware *)
Record IdeState (H : Type) : Type := mkIdeState { hw : H; ide_devices : list (option IdeDrive); interrupts_setup : bool }.
Arguments mkIdeState {H}. Arguments hw {H}. Arguments ide_devices {H}. Arguments interrupts_setup {H}.
Definition no_drives {H} (h : H) : IdeState H := mkIdeState h (repeat None 4) false.

Section controllers.
Context {H : Type} `{PortIo H} `{Irqs H} (polls : nat).
Definition on_hw {A} (m : ST H A) : ST (IdeState H) A := fun s =>
  match m (hw s) with
  | Ret (a, h) => Ret (a, mkIdeState h (ide_devices s) (interrupts_setup s))
  | Panic => Panic
  | Diverge => Diverge
  end.

(** the ports of a channel: those of the controller, or the ones of old, which it may have to be told *)
Definition channel_io (config : PciDeviceConfig) (prog_if native programmable : Z) (reg : Z) (reg2 : Z) (bar : nat) (default : Z * Z) : ST H (Z * Z) :=
  if negb (Z.land prog_if native =? 0) then
    match get_io (nth bar (base_address config) NoBar) with
    | Some (io, _) =>
        match get_io (nth (S bar) (base_address config) NoBar) with Some (control, _) => mret (io, control) | None => panic end
    | None =>
        _ ← (if negb (Z.land prog_if programmable =? 0) then
               _ ← write_config config 2 reg (Z.lor (fst default) 1);
               write_config config 2 reg2 (Z.lor (snd default) 1)
             else mret tt);
        mret default
    end
  else mret default.

(** [IdeDevice::probe_init] *)
Definition probe_init (config : PciDeviceConfig) (channel second : Z) : ST (IdeState H) (option IdeDrive) :=
  match Pci.device_type config with
  | MassStorageController sub prog_if _ =>
      if negb (sub =? 1) then mret None else
      let support_dma := has prog_if PROG_IF_MASTER in
      command ← on_hw (read_command config);
      let command := Z.lor command CMD_IO_SPACE in
      let command := if support_dma then Z.lor command CMD_BUS_MASTER else command in
      _ ← on_hw (Pci.write_command config command);
      command ← on_hw (read_command config);
      if Z.land command CMD_IO_SPACE =? 0 then mret None else
      io_port ← on_hw (if channel =? 0
                       then channel_io config prog_if PROG_IF_PRIMARY PROG_IF_PRIMARY_PROGRAMMABLE BAR0 BAR1 0 DEFAULT_PRIMARY_IO
                       else channel_io config prog_if PROG_IF_SECONDARY PROG_IF_SECONDARY_PROGRAMMABLE BAR2 BAR3 2 DEFAULT_SECONDARY_IO);
      master_io ← (if support_dma then
                     match get_io (nth 4 (base_address config) NoBar) with Some (io, _) => mret (Some io) | None => panic end
                   else mret None);
      s ← get;
      _ ← put (mkIdeState (hw s) (ide_devices s) true);
      _ ← (if interrupts_setup s then mret tt else
             _ ← on_hw (assign_io_irq ide_interrupt_primary DEFAULT_PRIMARY_INTERRUPT);
             on_hw (assign_io_irq ide_interrupt_secondary DEFAULT_SECONDARY_INTERRUPT));
      on_hw (init_new polls master_io (mkIo (fst io_port) (snd io_port)) config (second =? 1))
  | _ => mret None
  end.
(** [*slot = Some(..)] for the first free slot *)
Fixpoint fill_slot (d : IdeDrive) (slots : list (option IdeDrive)) : outcome (list (option IdeDrive)) :=
  match slots with
  | [] => Panic
  | None :: slots => Ret (Some d :: slots)
  | Some x :: slots => r ← fill_slot d slots; Ret (Some x :: r)
  end.
Fixpoint register_loop (config : PciDeviceConfig) (places : list (Z * Z)) (found_device : bool) : ST (IdeState H) bool :=
  match places with
  | [] => mret found_device
  | (i, j) :: places =>
      r ← probe_init config i j;
      match r with
      | None => register_loop config places found_device
      | Some d =>
          s ← get;
          slots ← lift (fill_slot d (ide_devices s));
          _ ← put (mkIdeState (hw s) slots (interrupts_setup s));
          register_loop config places true
      end
  end.
Definition try_register_ide_device (config : PciDeviceConfig) : ST (IdeState H) bool :=
  match Pci.device_type config with
  | MassStorageController _ _ _ => register_loop config [(0, 0); (0, 1); (1, 0); (1, 1)] false
  | _ => mret false
  end.
(** [get_ide_device]: the [index]-th drive of a type *)
Definition same_type (a b : Ide.IdeDeviceType) : bool := match a, b with Ide.Ata, Ide.Ata | Ide.Atapi, Ide.Atapi => true | _, _ => false end.
Fixpoint find_device (ty : Ide.IdeDeviceType) (index : Z) (slots : list (option IdeDrive)) (passed : Z) : option IdeDrive :=
  match slots with
  | [] => None
  | Some d :: slots =>
      if same_type (drive_type d) ty then if passed =? index then Some d else find_device ty index slots (passed + 1)
      else find_device ty index slots passed
  | None :: slots => find_device ty index slots passed
  end.
Definition get_ide_device (s : IdeState H) (ty : Ide.IdeDeviceType) (index : Z) : option IdeDrive :=
  if index <? Z.of_nat (length (ide_devices s)) then find_device ty index (ide_devices s) 0 else None.

(** the interrupt handlers *)
Fixpoint acknowledge (mine : IdeDrive -> bool) (ds : list IdeDrive) : ST H unit :=
  match ds with [] => mret tt | d :: ds => _ ← (if mine d then interrupt (device_impl d) else mret tt); acknowledge mine ds end.
Definition handle_interrupt (which : IdeHandler) : ST (IdeState H) unit :=
  s ← get;
  _ ← on_hw (acknowledge (match which with ide_interrupt_primary => is_primary | ide_interrupt_secondary => is_secondary end) (omap id (ide_devices s)));
  on_hw return_from_interrupt.
End controllers.
End Ata.

(** ** The commands of the block layer

    Behind the lock of an [IdeDevice] are the ports and the drive they lead
    to; [read_sync] passes buffers of whole sectors. *)
Record AtaPorts (H : Type) : Type := mkPorts { ports : H; impl : Ata.IdeDeviceImpl; sector_bytes : Z }.
Arguments mkPorts {H}. Arguments ports {H}. Arguments impl {H}. Arguments sector_bytes {H}.
Definition on_ports {H A} (m : Ata.IdeDeviceImpl -> Z -> ST H A) : ST (AtaPorts H) A := fun s =>
  match m (impl s) (sector_bytes s) (ports s) with
  | Ret (a, h) => Ret (a, mkPorts h (impl s) (sector_bytes s))
  | Panic => Panic
  | Diverge => Diverge
  end.
#[export] Instance ata_drive {H : Type} `{PortIo H} (polls : nat) : AtaDrive (AtaPorts H) := {
  execute_read lba n := on_ports (fun im sz => Ata.read_sync_ata polls im lba n (n * sz));
  execute_write lba n data := on_ports (fun im sz => Ata.write_sync_ata polls im lba n data);
  execute_packet_read lba n := on_ports (fun im sz => Ata.read_sync_atapi polls im lba n (n * sz))
}.
(** the device that [init_new] returns *)
Definition device_of {H} (d : Ata.IdeDrive) (h : H) : Ide.IdeDevice (AtaPorts H) :=
  Ide.mkIde (Ata.drive_type d) (Ata.drive_sectors d) (Ata.drive_sector_size d) (mkPorts h (Ata.device_impl d) (Ata.drive_sector_size d)).
