(* ===== verification/AtaSpec.v ===== *)
(** * A disk behind the ports

    What a drive in PIO mode does at its registers is the class [AtaLaws]:
    it is busy for a while after each command and each block of 256 words,
    asks for or offers data, and reads and writes the sectors the address
    registers name.  On such a drive the commands of the driver keep the
    contract of the block layer ([TransferLaws]), a drive is identified, and
    what is written through the ports is read back. *)
From S2P Require Import Prelude UserLink FsTypes BlockDev Bytes Pci Ata.
Import Ata.

(** ** Words *)
Fixpoint words (b : bytes) : list Z := match b with b0 :: b1 :: b => Z.lor b0 (Z.shiftl b1 8) :: words b | _ => [] end.
Definition unword (w : Z) : bytes := [Z.land w 0xFF; Z.land (Z.shiftr w 8) 0xFF].
Definition unwords (ws : list Z) : bytes := concat (unword <$> ws).
Lemma pair_ind (P : bytes -> Prop) : P [] -> (forall x, P [x]) -> (forall x y l, P l -> P (x :: y :: l)) -> forall l, P l.
Proof. intros H0 H1 H2. refine (fix F l := match l with [] => H0 | [x] => H1 x | x :: y :: l => H2 x y l (F l) end). Qed.
Lemma unword_word b0 b1 : is_byte b0 -> is_byte b1 -> unword (Z.lor b0 (Z.shiftl b1 8)) = [b0; b1].
Proof.
  unfold is_byte, in_word. change (2 ^ 8) with 256. intros H0 H1. unfold unword. rewrite lor_shiftl_add by lia. change (2 ^ 8) with 256.
  change 0xFF with (2 ^ 8 - 1). rewrite !land_mask, Z.shiftr_div_pow2 by lia. change (2 ^ 8) with 256. do 2 f_equal; [dlia|f_equal; dlia].
Qed.
Lemma unwords_words b : Forall is_byte b -> Nat.even (length b) = true -> unwords (words b) = b.
Proof.
  induction b as [|x|x y b IH] using pair_ind; [done|done|]. intros Hb He. apply Forall_cons in Hb as [Hx Hb]. apply Forall_cons in Hb as [Hy Hb].
  cbn [words]. unfold unwords. cbn [fmap list_fmap concat]. rewrite unword_word by done. fold (unwords (words b)). by rewrite IH.
Qed.
Lemma length_data_words b : length (words b) = (length b / 2)%nat.
Proof.
  induction b as [|x|x y b IH] using pair_ind; [done|done|]. cbn [words length]. rewrite IH. replace (S (S (length b))) with (length b + 1 * 2)%nat by lia.
  rewrite Nat.div_add by lia. lia.
Qed.

(** ** A drive *)
Inductive Phase : Type := Idle | Offers (ws : list Z) | Takes (lba n : Z) (got : list Z).
Record Machine : Type := mkMachine { m_count : Z; m_lo : Z; m_mid : Z; m_hi : Z; m_drive : Z; m_phase : Phase; m_busy : nat; m_disk : Z -> bytes; m_ident : bytes }.
Definition set_busy (k : nat) (m : Machine) : Machine := mkMachine (m_count m) (m_lo m) (m_mid m) (m_hi m) (m_drive m) (m_phase m) k (m_disk m) (m_ident m).
Definition set_phase (p : Phase) (m : Machine) : Machine := mkMachine (m_count m) (m_lo m) (m_mid m) (m_hi m) (m_drive m) p (m_busy m) (m_disk m) (m_ident m).
Definition set_disk (d : Z -> bytes) (m : Machine) : Machine := mkMachine (m_count m) (m_lo m) (m_mid m) (m_hi m) (m_drive m) (m_phase m) (m_busy m) d (m_ident m).
Definition set_reg (off v : Z) (m : Machine) : Machine :=
  let r k old := if off =? k then v else old in
  mkMachine (r SECTOR_COUNT (m_count m)) (r LBA_LO (m_lo m)) (r LBA_MID (m_mid m)) (r LBA_HI (m_hi m)) (r DRIVE (m_drive m)) (m_phase m) (m_busy m) (m_disk m) (m_ident m).
(** the address has 28 bits, the highest four in the drive register *)
Definition m_lba (m : Machine) : Z := m_lo m + m_mid m * 2 ^ 8 + m_hi m * 2 ^ 16 + m_drive m mod 16 * 2 ^ 24.
Definition offers (ws : list Z) : Phase := match ws with [] => Idle | _ => Offers ws end.
Definition asks (p : Phase) : bool := match p with Idle => false | _ => true end.
(** a word of data arrives; the last one stores the sectors *)
Definition receive (sz w : Z) (m : Machine) : Machine :=
  match m_phase m with
  | Takes lba n got =>
      let got := got ++ [w] in
      if Z.of_nat (length got) * 2 =? n * sz
      then set_phase Idle (set_disk (fun s => if decide (lba <= s < lba + n) then block sz (unwords got) (s - lba) else m_disk m s) m)
      else set_phase (Takes lba n got) m
  | _ => m
  end.

Class AtaLaws (H : Type) `{PortIo H} (io : IdeIo) (second : bool) (sz cap : Z) (polls : nat) : Type := {
  machine : H -> Machine;
  is_busy_below : forall h, (m_busy (machine h) < polls)%nat;
  holds_sectors : forall h s, 0 <= s < cap -> Z.of_nat (length (m_disk (machine h) s)) = sz /\ Forall is_byte (m_disk (machine h) s);
  holds_ident : forall h, length (m_ident (machine h)) = 512%nat /\ Forall is_byte (m_ident (machine h));
  status_law : forall h, exists s h', io_in 1 (command_block io + STATUS) h = Ret (s, h') /\ has s STATUS_ERR = false /\
    match m_busy (machine h) with
    | O => has s STATUS_BUSY = false /\ has s STATUS_DATA_REQUEST = asks (m_phase (machine h)) /\ machine h' = machine h
    | S k => has s STATUS_BUSY = true /\ exists k', (k' <= k)%nat /\ machine h' = set_busy k' (machine h)
    end;
  register_law : forall h off v, 1 <= off <= 6 -> m_busy (machine h) = 0%nat -> m_phase (machine h) = Idle ->
    exists h', io_out 1 (command_block io + off) v h = Ret (tt, h') /\ machine h' = set_reg off v (machine h);
  command_law : forall h c p, m_busy (machine h) = 0%nat -> m_phase (machine h) = Idle ->
    Z.testbit (m_drive (machine h)) 4 = second -> Z.testbit (m_drive (machine h)) 6 = true ->
    (let m := machine h in
     (c = COMMAND_IDENTIFY /\ p = Offers (words (m_ident m))) \/
     (0 < m_count m /\ m_lba m + m_count m <= cap /\
      ((c = COMMAND_READ_SECTORS /\ p = Offers (words (span (m_disk m) (m_lba m) (Z.to_nat (m_count m))))) \/
       (c = COMMAND_WRITE_SECTORS /\ p = Takes (m_lba m) (m_count m) [])))) ->
    exists h' k, io_out 1 (command_block io + COMMAND) c h = Ret (tt, h') /\ machine h' = set_busy k (set_phase p (machine h));
  data_in_law : forall h w ws, m_busy (machine h) = 0%nat -> m_phase (machine h) = Offers (w :: ws) ->
    exists h' k, io_in 2 (command_block io + DATA) h = Ret (w, h') /\ machine h' = set_busy k (set_phase (offers ws) (machine h)) /\
      (k <> 0%nat -> Z.of_nat (length ws) mod 256 = 0);
  data_out_law : forall h lba n got w, m_busy (machine h) = 0%nat -> m_phase (machine h) = Takes lba n got ->
    exists h' k, io_out 2 (command_block io + DATA) w h = Ret (tt, h') /\ machine h' = set_busy k (receive sz w (machine h)) /\
      (k <> 0%nat -> Z.of_nat (length got + 1) mod 256 = 0)
}.

(** ** The driver on such a drive *)
Section driver.
Context {H : Type} `{AtaLaws H io second sz cap polls} (Hcb : 0 <= command_block io < 2 ^ 16 - 8) (Hsz : 0 < sz) (Hsz' : sz mod 512 = 0).
Implicit Types (h : H).

Lemma wp_cadd_port {A} off (k : Z -> ST H A) h Q : 0 <= off < 8 -> wp False (k (command_block io + off)) h Q -> wp False (p ← lift (cadd 16 (command_block io) off); k p) h Q.
Proof. intros Ho Hk. apply wp_bind, wp_cadd; [lia|done]. Qed.
Lemma wp_status h (Q : Z -> H -> Prop) :
  (forall s h', has s STATUS_ERR = false -> has s STATUS_BUSY = negb (m_busy (machine h) =? 0)%nat -> (m_busy (machine h) = 0%nat -> has s STATUS_DATA_REQUEST = asks (m_phase (machine h))) ->
    (exists k, (k <= pred (m_busy (machine h)))%nat /\ machine h' = set_busy k (machine h)) -> Q s h') ->
  wp False (read_status io) h Q.
Proof.
  intros HQ. unfold read_status, read_command_block. apply wp_cadd_port; [done|]. destruct (status_law h) as (s & h' & E & He & Hs). unfold wp. rewrite E. apply HQ; [done|..].
  - destruct (m_busy (machine h)); [by destruct Hs as (-> & _)|by destruct Hs as (-> & _)].
  - intros Hb. rewrite Hb in Hs. by destruct Hs as (_ & -> & _).
  - destruct (m_busy (machine h)) as [|k] eqn:Eb.
    + destruct Hs as (_ & _ & ->). exists 0%nat. split; [lia|]. destruct (machine h). cbn in *. by subst.
    + destruct Hs as (_ & k' & Hk & ->). by exists k'.
Qed.
Lemma set_busy_twice a b m : set_busy a (set_busy b m) = set_busy a m.
Proof. done. Qed.
Lemma set_busy_same m : m_busy m = 0%nat -> set_busy 0 m = m.
Proof. destruct m. cbn. by intros ->. Qed.

Lemma free_loop_ok fuel : forall h (Q : unit -> H -> Prop), (m_busy (machine h) < fuel)%nat ->
  (forall h', machine h' = set_busy 0 (machine h) -> Q tt h') -> wp False (free_loop fuel io) h Q.
Proof.
  induction fuel as [|fuel IH]; intros h Q Hb HQ; [lia|]. cbn [free_loop]. apply wp_bind, wp_status. intros s h' _ Hs _ (k & Hk & E). rewrite Hs.
  destruct (m_busy (machine h)) as [|b] eqn:Eb; cbn [Nat.eqb negb].
  - apply wp_ret, HQ. rewrite E. f_equal. cbn in Hk. lia.
  - apply IH; [rewrite E; cbn in *; lia|]. intros h2 E2. apply HQ. by rewrite E2, E.
Qed.
Lemma wp_free h (Q : unit -> H -> Prop) : (forall h', machine h' = set_busy 0 (machine h) -> Q tt h') -> wp False (wait_until_free polls io) h Q.
Proof. apply free_loop_ok, is_busy_below. Qed.
Lemma has_lor s a b : has s (Z.lor a b) = has s a || has s b.
Proof.
  unfold has. rewrite Z.land_lor_distr_r. destruct (Z.eqb_spec (Z.land s a) 0) as [Ea|Ea], (Z.eqb_spec (Z.land s b) 0) as [Eb|Eb]; cbn; rewrite ?Ea, ?Eb; try done.
  - by rewrite Z.lor_0_l, (proj2 (Z.eqb_neq _ _)).
  - by rewrite Z.lor_0_r, (proj2 (Z.eqb_neq _ _)).
  - rewrite (proj2 (Z.eqb_neq _ _)); [done|]. by intros [? ?]%Z.lor_eq_0_iff.
Qed.
Lemma wp_can_command h (Q : result unit Z -> H -> Prop) : m_phase (machine h) = Idle ->
  (forall h', machine h' = set_busy 0 (machine h) -> Q (Ok tt) h') -> wp False (wait_until_can_command polls io) h Q.
Proof.
  intros Hp HQ. unfold wait_until_can_command. apply wp_bind, wp_free. intros h1 E1. pose proof (is_busy_below h) as Hb.
  assert (exists fuel, polls = S fuel) as [fuel Ef] by (exists (pred polls); lia). rewrite Ef at 1.
  cbn [command_loop]. apply wp_bind, wp_status. intros s h2 _ Hs Hd (k & Hk & E2). rewrite E1 in *. cbn [set_busy m_busy m_phase Nat.eqb negb pred] in *.
  rewrite has_lor, Hs, (Hd eq_refl), Hp. cbn [orb asks]. apply wp_ret, HQ. rewrite E2. assert (k = 0%nat) as -> by lia. done.
Qed.

(** ** Blocks of data *)
(** reading all words the drive offers, from word [i] on *)
Lemma read_words_ok ws : forall h i (Q : bytes -> H -> Prop), m_phase (machine h) = offers ws -> (m_busy (machine h) <> 0%nat -> i mod 256 = 0) ->
  (i + Z.of_nat (length ws)) mod 256 = 0 ->
  (forall h', machine h' = set_busy (m_busy (machine h')) (set_phase Idle (machine h)) -> Q (unwords ws) h') ->
  wp False (read_words polls (length ws) io i) h Q.
Proof.
  induction ws as [|w ws IH]; intros h i Q Hp Hb Hi HQ; cbn [length read_words].
  { apply wp_ret, HQ. cbn in Hp. destruct (machine h) eqn:E. cbn in *. by subst. }
  apply wp_bind. eapply (wp_mono _ _ _ (fun _ h1 => machine h1 = set_busy 0 (machine h))).
  { destruct (Z.eqb_spec (i mod 256) 0) as [E|E]; [by apply wp_free|]. apply wp_ret. rewrite set_busy_same; [done|]. destruct (m_busy (machine h)); [done|]. destruct E. by apply Hb. }
  intros _ h1 E1. apply wp_bind. unfold read_data. apply wp_cadd_port; [done|].
  destruct (data_in_law h1 w ws) as (h2 & k & E2 & E3 & Hk); [by rewrite E1|by rewrite E1|]. unfold wp at 1. rewrite E2. apply wp_bind. apply IH.
  - by rewrite E3.
  - rewrite E3. cbn [set_busy m_busy]. intros Hk0. specialize (Hk Hk0). cbn [length] in Hi. replace (i + Z.of_nat (S (length ws))) with (i + 1 + Z.of_nat (length ws)) in Hi by lia. dlia.
  - cbn [length] in Hi. rewrite <- Hi. f_equal. lia.
  - intros h' E'. apply wp_ret. change (Q (unwords (w :: ws)) h'). apply HQ. rewrite E', E3, E1. done.
Qed.

Lemma wp_read_block h ws len (Q : result bytes Z -> H -> Prop) : m_phase (machine h) = offers ws -> len / 2 = Z.of_nat (length ws) -> Z.of_nat (length ws) mod 256 = 0 ->
  (forall h', machine h' = set_busy 0 (set_phase Idle (machine h)) -> Q (Ok (unwords ws)) h') -> wp False (read_data_block polls io len) h Q.
Proof.
  intros Hp Hl Hm HQ. unfold read_data_block. apply wp_bind, wp_status. intros s h1 -> _ _ (k & _ & E1). apply wp_bind. rewrite Hl, Nat2Z.id.
  apply read_words_ok; [by rewrite E1|done|by rewrite Z.add_0_l|]. intros h2 E2. apply wp_bind, wp_free. intros h3 E3. apply wp_bind, wp_status.
  intros s3 h4 _ _ Hd (k4 & Hk4 & E4). rewrite E3, E2, E1 in *. cbn [set_busy set_phase m_busy m_phase m_count m_lo m_mid m_hi m_drive m_disk m_ident asks pred] in *.
  specialize (Hd eq_refl). unfold has in Hd. apply negb_false_iff in Hd. apply wp_bind, wp_assert; [done|]. apply wp_ret, HQ. rewrite E4. assert (k4 = 0%nat) as -> by lia. done.
Qed.

(** what the last word of a write leaves *)
Definition stored (lba n : Z) (data : bytes) (m : Machine) : Machine :=
  set_disk (fun s => if decide (lba <= s < lba + n) then block sz data (s - lba) else m_disk m s) m.
Lemma write_words_ok data : forall h got lba n (Q : unit -> H -> Prop), Forall is_byte data -> Nat.even (length data) = true ->
  m_phase (machine h) = Takes lba n got -> data <> [] -> (m_busy (machine h) <> 0%nat -> Z.of_nat (length got) mod 256 = 0) ->
  Z.of_nat (length got) * 2 + Z.of_nat (length data) = n * sz ->
  (forall h', machine h' = set_busy (m_busy (machine h')) (set_phase Idle (stored lba n (unwords (got ++ words data)) (machine h))) -> Q tt h') ->
  wp False (write_words polls io (Z.of_nat (length got)) data) h Q.
Proof.
  induction data as [|x|x y data IH] using pair_ind; intros h got lba n Q Hb He Hp Hne Hk Hl HQ; [done|done|]. cbn [write_words].
  apply wp_bind. eapply (wp_mono _ _ _ (fun _ h1 => machine h1 = set_busy 0 (machine h))).
  { destruct (Z.eqb_spec (Z.of_nat (length got) mod 256) 0) as [E|E]; [by apply wp_free|]. apply wp_ret. rewrite set_busy_same; [done|]. destruct (m_busy (machine h)); [done|]. destruct E. by apply Hk. }
  intros _ h1 E1. apply wp_bind. unfold write_data. apply wp_cadd_port; [done|]. set (w := Z.lor x (Z.shiftl y 8)).
  destruct (data_out_law h1 lba n got w) as (h2 & k & E2 & E3 & Hk2); [by rewrite E1|by rewrite E1|]. unfold wp at 1. rewrite E2.
  unfold receive in E3. rewrite E1 in E3. cbn [set_busy m_phase m_disk] in E3. rewrite Hp in E3. rewrite length_app in E3. cbn [length] in E3, Hl, Hk2.
  do 2 apply Forall_cons in Hb as [_ Hb]. cbn [words] in HQ. fold w in HQ. replace (got ++ w :: words data) with ((got ++ [w]) ++ words data) in HQ by (by rewrite <- app_assoc).
  destruct (Z.eqb_spec (Z.of_nat (length got + 1) * 2) (n * sz)) as [Ed|Ed].
  - assert (data = []) as ->. { destruct data; [done|]. cbn [length] in Hl. lia. } cbn [write_words words] in *. rewrite app_nil_r in HQ. apply wp_ret, HQ. by rewrite E3.
  - replace (Z.of_nat (length got) + 1) with (Z.of_nat (length (got ++ [w]))) by (rewrite length_app; cbn; lia). apply (IH h2 (got ++ [w]) lba n).
    + done.
    + done.
    + by rewrite E3.
    + intros ->. cbn [length] in Hl. lia.
    + rewrite E3, length_app. cbn [set_busy m_busy length]. exact Hk2.
    + rewrite length_app. cbn [length]. lia.
    + intros h' E'. apply HQ. rewrite E', E3. done.
Qed.
Lemma wp_write_block h lba n data (Q : result unit Z -> H -> Prop) : m_phase (machine h) = Takes lba n [] -> 0 < n -> Z.of_nat (length data) = n * sz -> Forall is_byte data ->
  (forall h', machine h' = set_busy 0 (set_phase Idle (stored lba n data (machine h))) -> Q (Ok tt) h') -> wp False (write_data_block polls io data) h Q.
Proof.
  intros Hp Hn Hl Hb HQ. assert (He : Nat.even (length data) = true).
  { apply Nat.even_spec. exists (Z.to_nat (n * (sz / 512) * 256)). apply Nat2Z.inj. rewrite Nat2Z.inj_mul, Z2Nat.id, Hl by dlia. apply Z.div_exact in Hsz'; [|lia]. rewrite Hsz' at 1. lia. }
  unfold write_data_block. apply wp_bind, wp_status. intros s h1 -> _ _ (k & _ & E1). apply wp_bind.
  apply (write_words_ok data h1 [] lba n); [done|done|by rewrite E1|intros ->; cbn [length] in Hl; nia|done|cbn [length]; lia|]. intros h2 E2. apply wp_bind, wp_free. intros h3 E3. apply wp_bind, wp_status.
  intros s3 h4 _ _ Hd (k4 & Hk4 & E4). rewrite E3, E2, E1 in *. cbn [app] in *. rewrite unwords_words in * by done.
  cbn [stored set_disk set_busy set_phase m_busy m_phase m_count m_lo m_mid m_hi m_drive m_disk m_ident asks pred] in *.
  specialize (Hd eq_refl). unfold has in Hd. apply negb_false_iff in Hd. apply wp_bind, wp_assert; [done|]. apply wp_ret, HQ. rewrite E4. assert (k4 = 0%nat) as -> by lia. done.
Qed.

(** ** Commands *)
Lemma wp_register h off v (Q : unit -> H -> Prop) : 1 <= off <= 6 -> m_busy (machine h) = 0%nat -> m_phase (machine h) = Idle ->
  (forall h', machine h' = set_reg off v (machine h) -> Q tt h') -> wp False (write_command_block io off v) h Q.
Proof.
  intros Ho Hb Hp HQ. unfold write_command_block. apply wp_cadd_port; [lia|]. destruct (register_law h off v) as (h' & E & Em); [done..|]. unfold wp. rewrite E. by apply HQ.
Qed.
(** the registers after a command was written *)
Definition addressed (c : AtaCommand) (m : Machine) : Machine :=
  mkMachine (sector_count c) (Z.land (lba c) 0xFF) (Z.land (Z.shiftr (lba c) 8) 0xFF) (Z.land (Z.shiftr (lba c) 16) 0xFF) (drive c) (m_phase m) (m_busy m) (m_disk m) (m_ident m).
Definition starts (c : AtaCommand) (m : Machine) (p : Phase) : Prop :=
  (command c = COMMAND_IDENTIFY /\ p = Offers (words (m_ident m))) \/
  (0 < m_count m /\ m_lba m + m_count m <= cap /\
   ((command c = COMMAND_READ_SECTORS /\ p = Offers (words (span (m_disk m) (m_lba m) (Z.to_nat (m_count m))))) \/ (command c = COMMAND_WRITE_SECTORS /\ p = Takes (m_lba m) (m_count m) []))).
Lemma wp_command c h p (Q : unit -> H -> Prop) : m_busy (machine h) = 0%nat -> m_phase (machine h) = Idle ->
  Z.testbit (drive c) 4 = second -> Z.testbit (drive c) 6 = true -> starts c (addressed c (machine h)) p ->
  (forall h' k, machine h' = set_busy k (set_phase p (addressed c (machine h))) -> Q tt h') -> wp False (write_command c io) h Q.
Proof.
  intros Hb Hp H4 H6 Hst HQ. unfold write_command.
  apply wp_bind, wp_register; [unfold FEATURES; lia|done..|]. intros h1 E1.
  apply wp_bind, wp_register; [unfold SECTOR_COUNT; lia|by rewrite E1..|]. intros h2 E2.
  apply wp_bind, wp_register; [unfold LBA_LO; lia|by rewrite E2, E1..|]. intros h3 E3.
  apply wp_bind, wp_register; [unfold LBA_MID; lia|by rewrite E3, E2, E1..|]. intros h4 E4.
  apply wp_bind, wp_register; [unfold LBA_HI; lia|by rewrite E4, E3, E2, E1..|]. intros h5 E5.
  apply wp_bind, wp_register; [unfold DRIVE; lia|by rewrite E5, E4, E3, E2, E1..|]. intros h6 E6.
  assert (machine h6 = addressed c (machine h)) as E by (rewrite E6, E5, E4, E3, E2, E1; done). clear E1 E2 E3 E4 E5 E6.
  unfold write_command_block. apply wp_cadd_port; [done|]. destruct (command_law h6 (command c) p) as (h' & k & E' & Em); [by rewrite E..|]. unfold wp. rewrite E'. apply (HQ h' k). by rewrite Em, E.
Qed.

Definition transfer (cmd start n : Z) : AtaCommand := with_second_drive second (with_sector_count (wrap 8 n) (with_lba start (ata_new cmd))).
Lemma drive_bits : Z.testbit (select_drive 0x40 second) 4 = second /\ Z.testbit (select_drive 0x40 second) 6 = true /\ select_drive 0x40 second mod 16 = 0.
Proof. by destruct second. Qed.
Lemma transfer_lba cmd start n m : 0 <= start < 2 ^ 24 -> m_lba (addressed (transfer cmd start n) m) = start.
Proof.
  intros Hs. unfold m_lba, addressed. cbn [m_lo m_mid m_hi m_drive transfer with_second_drive with_sector_count with_lba ata_new lba drive].
  destruct drive_bits as (_ & _ & ->). change 0xFF with (2 ^ 8 - 1). rewrite !land_mask, !Z.shiftr_div_pow2 by lia.
  change (2 ^ 8) with 256. change (2 ^ 16) with 65536. change (2 ^ 24) with 16777216 in *. dlia.
Qed.
Lemma transfer_count cmd start n m : 0 < n <= 255 -> m_count (addressed (transfer cmd start n) m) = n.
Proof. intros Hn. cbn. unfold wrap. apply Z.mod_small. lia. Qed.
Lemma words_of_sectors n : 0 <= n -> n * sz / 2 = n * (sz / 512) * 256.
Proof. intros Hn. apply Z.div_exact in Hsz'; [|lia]. rewrite Hsz' at 1. replace (n * (512 * (sz / 512))) with (n * (sz / 512) * 256 * 2) by lia. apply Z.div_mul. lia. Qed.
Lemma sectors_even n : 0 <= n -> (n * sz) mod 2 = 0.
Proof. intros Hn. apply Z.div_exact in Hsz'; [|lia]. rewrite Hsz'. replace (n * (512 * (sz / 512))) with (n * (sz / 512) * 256 * 2) by lia. apply Z_mod_mult. Qed.
Lemma span_bytes h start n : 0 <= start -> start + Z.of_nat n <= cap -> Forall is_byte (span (m_disk (machine h)) start n) /\ Z.of_nat (length (span (m_disk (machine h)) start n)) = Z.of_nat n * sz.
Proof.
  intros Hs Hc. split.
  - revert start Hs Hc. induction n as [|n IH]; intros start Hs Hc; [done|]. cbn [span]. apply Forall_app. split; [apply holds_sectors; lia|apply IH; lia].
  - apply length_span. intros s Hs'. apply holds_sectors. lia.
Qed.
Lemma wp_read_transfer_cmd h start n (Q : result bytes Z -> H -> Prop) : m_phase (machine h) = Idle -> 0 <= start -> 0 < n <= 255 -> start + n <= cap -> start < 2 ^ 24 ->
  (forall h', m_phase (machine h') = Idle -> m_disk (machine h') = m_disk (machine h) -> m_ident (machine h') = m_ident (machine h) ->
    Q (Ok (span (m_disk (machine h)) start (Z.to_nat n))) h') ->
  wp False (ata_execute_read polls (transfer COMMAND_READ_SECTORS start n) io (n * sz)) h Q.
Proof.
  intros Hp Hs Hn Hc Ht HQ. unfold ata_execute_read. apply wp_bind, wp_assert; [apply Z.eqb_eq, sectors_even; lia|].
  apply wp_ebind, wp_can_command; [done|]. intros h1 E1. destruct drive_bits as (B4 & B6 & _). set (c := transfer _ _ _).
  apply wp_bind. apply (wp_command c _ (Offers (words (span (m_disk (machine h)) start (Z.to_nat n))))); [by rewrite E1|by rewrite E1|done|done|..].
  { right. unfold c. rewrite transfer_lba, transfer_count, E1 by lia. split; [lia|]. split; [lia|]. left. done. }
  intros h2 k E2. rewrite E1 in E2. destruct (span_bytes h start (Z.to_nat n)) as [Hb Hl]; [lia|lia|].
  assert (Hw : Z.of_nat (length (words (span (m_disk (machine h)) start (Z.to_nat n)))) = n * (sz / 512) * 256).
  { rewrite length_data_words, Nat2Z.inj_div, Hl, Z2Nat.id by lia. apply words_of_sectors. lia. }
  assert (He : Nat.even (length (span (m_disk (machine h)) start (Z.to_nat n))) = true).
  { apply Nat.even_spec. exists (Z.to_nat (n * (sz / 512) * 256)). apply Nat2Z.inj. rewrite Nat2Z.inj_mul, Z2Nat.id, Hl, Z2Nat.id by dlia. apply Z.div_exact in Hsz'; [|lia]. rewrite Hsz' at 1. lia. }
  apply (wp_read_block _ (words (span (m_disk (machine h)) start (Z.to_nat n)))).
  - rewrite E2. cbn [set_busy set_phase m_phase]. destruct (words _) eqn:Ew; [|done]. cbn [length] in Hw. assert (0 < sz / 512) by dlia. nia.
  - rewrite Hw. apply words_of_sectors. lia.
  - rewrite Hw. apply Z_mod_mult.
  - intros h3 E3. rewrite unwords_words by done. apply HQ; rewrite E3, E2; done.
Qed.
Lemma wp_write_transfer_cmd h start n data (Q : result unit Z -> H -> Prop) : m_phase (machine h) = Idle -> 0 <= start -> 0 < n <= 255 -> start + n <= cap -> start < 2 ^ 24 ->
  Z.of_nat (length data) = n * sz -> Forall is_byte data ->
  (forall h', m_phase (machine h') = Idle -> m_disk (machine h') = m_disk (stored start n data (machine h)) -> Q (Ok tt) h') ->
  wp False (ata_execute_write polls (transfer COMMAND_WRITE_SECTORS start n) io data) h Q.
Proof.
  intros Hp Hs Hn Hc Ht Hl Hb HQ. unfold ata_execute_write. apply wp_bind, wp_assert; [rewrite Hl; apply Z.eqb_eq, sectors_even; lia|].
  apply wp_ebind, wp_can_command; [done|]. intros h1 E1. destruct drive_bits as (B4 & B6 & _). set (c := transfer _ _ _).
  apply wp_bind. apply (wp_command c _ (Takes start n [])); [by rewrite E1|by rewrite E1|done|done|..].
  { right. unfold c. rewrite transfer_lba, transfer_count by lia. split; [lia|]. split; [lia|]. right. done. }
  intros h2 k E2. rewrite E1 in E2. apply (wp_write_block _ start n); [by rewrite E2|lia|done|done|]. intros h3 E3. apply HQ; rewrite E3, E2; done.
Qed.

(** ** Identification *)
Lemma wp_identify h (Q : result bytes Z -> H -> Prop) : m_phase (machine h) = Idle ->
  (forall h', m_phase (machine h') = Idle -> m_disk (machine h') = m_disk (machine h) -> m_ident (machine h') = m_ident (machine h) -> Q (Ok (m_ident (machine h))) h') ->
  wp False (ata_execute_read polls (with_second_drive second (ata_new COMMAND_IDENTIFY)) io 512) h Q.
Proof.
  intros Hp HQ. unfold ata_execute_read. apply wp_bind, wp_assert; [done|]. apply wp_ebind, wp_can_command; [done|]. intros h1 E1. destruct drive_bits as (B4 & B6 & _).
  apply wp_bind. apply (wp_command _ _ (Offers (words (m_ident (machine h))))); [by rewrite E1|by rewrite E1|done|done|left; by rewrite E1|]. intros h2 k E2. rewrite E1 in E2.
  destruct (holds_ident h) as [Hl Hb].
  assert (Hw : length (words (m_ident (machine h))) = 256%nat) by (by rewrite length_data_words, Hl).
  apply (wp_read_block _ (words (m_ident (machine h)))); [|by rewrite Hw|by rewrite Hw|].
  - rewrite E2. cbn [set_busy set_phase m_phase]. by destruct (words _).
  - intros h3 E3. rewrite unwords_words by (done || by rewrite Hl). apply HQ; rewrite E3, E2; done.
Qed.
Lemma wp_init h master pci (Q : option IdeDrive -> H -> Prop) : let id := identify_of (m_ident (machine h)) in
  m_phase (machine h) = Idle -> is_valid id = true -> is_lba_supported id = true -> Ata.sector_size id = Ret sz ->
  (forall h', m_phase (machine h') = Idle -> m_disk (machine h') = m_disk (machine h) ->
    Q (Some (mkDrive (mkImpl (if is_dma_supported id then master else None) io pci id second) Ide.Ata (user_addressable_sectors id) sz second)) h') ->
  wp False (init_new polls master io pci second) h Q.
Proof.
  intros id Hp Hv Hlba Hss HQ. unfold init_new. apply wp_bind, wp_identify; [done|]. intros h1 P1 D1 I1. apply wp_bind, wp_ret.
  destruct (holds_ident h) as [Hl _]. apply wp_bind, wp_assert; [by rewrite Hl|]. fold id. rewrite Hv. cbn [negb]. apply wp_bind, wp_assert; [done|].
  apply wp_bind, wp_bind. eapply wp_lift_ret; [exact Hss|]. apply wp_ret. cbn [fst snd]. apply wp_ret, HQ; done.
Qed.
End driver.

(** ** The contract of the block layer *)
Section contract.
Context {H : Type} `{AtaLaws H io second sz cap polls} (Hcb : 0 <= command_block io < 2 ^ 16 - 8) (Hsz : 0 < sz) (Hsz' : sz mod 512 = 0) (Hcap : cap <= 2 ^ 24).
Notation disk s := (m_disk (machine (ports s))).
(** the drive is idle, and the driver addresses it *)
Definition attached (s : AtaPorts H) : Prop :=
  m_phase (machine (ports s)) = Idle /\ im_io (impl s) = io /\ second_device_select (impl s) = second /\ sector_bytes s = sz.
Program Definition port_transfers : TransferLaws (H0 := ata_drive polls) (AtaPorts H) sz cap := {|
  sectors_of s := disk s; takes_commands := attached; sendable := is_byte; same s s' := disk s' = disk s
|}.
Next Obligation. done. Qed.
Next Obligation. cbn. by intros s1 s2 s3 -> ->. Qed.
Next Obligation. cbn. by intros s s' x ->. Qed.
Next Obligation.
  intros s lba n (Hp & Hio & Hse & Hb) H0' Hn Hc. cbn [execute_read ata_drive]. unfold on_ports, read_sync_ata. rewrite Hio, Hse, Hb.
  destruct (wp_total _ _ _ (wp_read_transfer_cmd Hcb Hsz Hsz' (ports s) lba n
    (fun r h' => r = Ok (span (disk s) lba (Z.to_nat n)) /\ m_phase (machine h') = Idle /\ m_disk (machine h') = disk s) Hp H0' Hn Hc ltac:(lia)
    ltac:(by intros h' ? ? _))) as (r & h' & E & -> & P' & D'). unfold transfer in E. rewrite E. eexists. split; [reflexivity|]. by split.
Qed.
Next Obligation.
  intros s lba n data (Hp & Hio & Hse & Hb) H0' Hn Hc Hl Hby. cbn [execute_write ata_drive]. unfold on_ports, write_sync_ata. rewrite Hio, Hse.
  destruct (wp_total _ _ _ (wp_write_transfer_cmd Hcb Hsz Hsz' (ports s) lba n data
    (fun r h' => r = Ok tt /\ m_phase (machine h') = Idle /\ m_disk (machine h') = m_disk (stored (sz := sz) lba n data (machine (ports s)))) Hp H0' Hn Hc ltac:(lia) Hl Hby
    ltac:(by intros h' ? ?))) as (r & h' & E & -> & P' & D'). unfold transfer in E. rewrite E. eexists. split; [reflexivity|]. split; [by split|].
  intros x. cbn [ports]. by rewrite D'.
Qed.
End contract.

(** C33: A disk through the ports: a drive of up to 2^24 sectors that answers at
    its registers as the standard says is identified with its size; and whatever
    is then written with [write_sync], of any length that ends before the last
    sector of the disk, is read back with [read_sync], while no other sector
    changed. The driver neither panics nor waits for ever. *)
Theorem disk_through_ports {H : Type} `{AtaLaws H io second sz cap polls} (h : H) master pci : let id := identify_of (m_ident (machine h)) in
  0 <= command_block io < 2 ^ 16 - 8 -> 0 < sz -> sz mod 512 = 0 -> cap <= 2 ^ 24 ->
  m_phase (machine h) = Idle -> is_valid id = true -> is_lba_supported id = true -> Ata.sector_size id = Ret sz -> user_addressable_sectors id <= cap ->
  exists d h1, init_new polls master io pci second h = Ret (Some d, h1) /\ drive_sectors d = user_addressable_sectors id /\ drive_sector_size d = sz /\
    forall start n data, 0 <= start -> 0 <= n -> start + n < user_addressable_sectors id -> Z.of_nat (length data) = n * sz -> Forall is_byte data ->
      exists d' d'', Ide.write_sync (H0 := ata_drive polls) start data (device_of d h1) = Ret (Ok tt, d') /\ Ide.read_sync (H0 := ata_drive polls) start (n * sz) d' = Ret (Ok data, d'') /\
        forall s, s < start \/ start + n <= s -> m_disk (machine (ports (Ide.drive d''))) s = m_disk (machine h) s.
Proof.
  intros id Hcb Hsz Hsz' Hcap Hp Hv Hl Hss Hn.
  destruct (wp_total (init_new polls master io pci second) h (fun r h' => r = Some (mkDrive (mkImpl (if is_dma_supported id then master else None) io pci id second) Ide.Ata (user_addressable_sectors id) sz second) /\
    m_phase (machine h') = Idle /\ m_disk (machine h') = m_disk (machine h))) as (r & h1 & E & -> & P1 & D1); [by apply (wp_init Hcb)|].
  eexists _, h1. split; [exact E|]. split; [done|]. split; [done|]. intros start n data H0' Hn' Hc Hlen Hby.
  destruct (write_then_read (H1 := port_transfers Hcb Hsz Hsz' Hcap) Hsz (device_of (mkDrive (mkImpl (if is_dma_supported id then master else None) io pci id second) Ide.Ata (user_addressable_sectors id) sz second) h1) start n data)
    as (d' & d'' & E1 & E2 & _ & _ & Hd); [|done..|].
  { split; [done|done|cbn; lia]. }
  exists d', d''. split; [exact E1|]. split; [exact E2|]. intros x Hx. rewrite <- D1. by apply Hd.
Qed.

Module AtaDemo.
(** ** A drive of 1000 sectors on the primary channel *)
Definition io : IdeIo := mkIo 0x1F0 0x3F6.
Definition CAP : Z := 1000.
Definition raw_in (p : Z) (m : Machine) : Z * Machine :=
  if p =? 0x1F7 then match m_busy m with S k => (0x80, set_busy k m) | O => (if asks (m_phase m) then 0x48 else 0x40, m) end
  else if p =? 0x1F0 then
    match m_busy m, m_phase m with
    | O, Offers (w :: ws) => (w, set_busy (if Z.of_nat (length ws) mod 256 =? 0 then 2 else 0) (set_phase (offers ws) m))
    | _, _ => (0, m)
    end
  else (0, m).
Definition raw_out (cap p v : Z) (m : Machine) : Machine :=
  if p =? 0x1F7 then
    if v =? COMMAND_IDENTIFY then set_busy 2 (set_phase (Offers (words (m_ident m))) m) else
    if (0 <? m_count m) && (m_lba m + m_count m <=? cap) then
      if v =? COMMAND_READ_SECTORS then set_busy 2 (set_phase (Offers (words (span (m_disk m) (m_lba m) (Z.to_nat (m_count m))))) m)
      else if v =? COMMAND_WRITE_SECTORS then set_busy 2 (set_phase (Takes (m_lba m) (m_count m) []) m) else m
    else m
  else if p =? 0x1F0 then
    match m_phase m with Takes _ _ got => set_busy (if Z.of_nat (length got + 1) mod 256 =? 0 then 2 else 0) (receive 512 v m) | _ => m end
  else set_reg (p - 0x1F0) v m.
(** at every moment the disk has its sectors *)
Record wf (m : Machine) : Prop := {
  wf_busy : (m_busy m < 4)%nat;
  wf_disk : forall s, 0 <= s < CAP -> Z.of_nat (length (m_disk m s)) = 512 /\ Forall is_byte (m_disk m s);
  wf_ident : length (m_ident m) = 512%nat /\ Forall is_byte (m_ident m) }.
Lemma unwords_bytes ws : Forall is_byte (unwords ws) /\ length (unwords ws) = (2 * length ws)%nat.
Proof.
  induction ws as [|w ws [IH1 IH2]]; [by split|]. unfold unwords in *. cbn [fmap list_fmap concat]. rewrite length_app, IH2. split; [|cbn; lia]. apply Forall_app. split; [|done].
  repeat constructor; unfold is_byte, in_word; (change 0xFF with (2 ^ 8 - 1); rewrite land_mask by lia; apply Z.mod_pos_bound; lia).
Qed.
Lemma raw_in_wf p m : wf m -> wf (snd (raw_in p m)).
Proof.
  intros [B D I]. unfold raw_in. destruct (p =? 0x1F7); [destruct (m_busy m) eqn:E|destruct (p =? 0x1F0); [destruct (m_busy m) eqn:E, (m_phase m) as [|[|w ws]|]|]];
    (split; cbn; [|exact D|exact I]); try lia; try (rewrite E; lia). destruct (Z.of_nat (length ws) mod 256 =? 0); lia.
Qed.
Lemma raw_out_wf p v m : wf m -> wf (raw_out CAP p v m).
Proof.
  intros [B D I]. unfold raw_out. destruct (p =? 0x1F7).
  { destruct (v =? COMMAND_IDENTIFY); [split; cbn; [lia|exact D|exact I]|]. destruct (_ && _); [|by split].
    destruct (v =? COMMAND_READ_SECTORS); [split; cbn; [lia|exact D|exact I]|]. destruct (v =? COMMAND_WRITE_SECTORS); [split; cbn; [lia|exact D|exact I]|by split]. }
  destruct (p =? 0x1F0); [|split; cbn; done]. unfold receive. destruct (m_phase m) as [| |lba n got] eqn:Ep; [by split..|].
  split; [destruct (_ mod 256 =? 0); cbn; lia| |].
  - destruct (Z.eqb_spec (Z.of_nat (length (got ++ [v])) * 2) (n * 512)) as [E|E]; cbn [set_busy set_phase set_disk m_disk]; [|exact D]. intros s Hs. case_decide as Hin; [|by apply D].
    destruct (unwords_bytes (got ++ [v])) as [Hb Hl]. unfold block. split; [|by apply Forall_take, Forall_drop]. rewrite length_take, length_drop, Hl. nia.
  - destruct (_ * 2 =? _); exact I.
Qed.
Definition Drive : Type := { m : Machine | wf m }.
#[export] Instance drive_io : PortIo Drive := {
  io_in n p := fun h => Ret (fst (raw_in p (`h)), (snd (raw_in p (`h))) ↾ raw_in_wf p _ (proj2_sig h));
  io_out n p v := fun h => Ret (tt, raw_out CAP p v (`h) ↾ raw_out_wf p v _ (proj2_sig h))
}.
#[export] Program Instance drive_laws : AtaLaws Drive io false 512 CAP 4 := { machine h := `h }.
Next Obligation. by intros [m [B D I]]. Qed.
Next Obligation. intros [m [B D I]]. exact D. Qed.
Next Obligation. intros [m [B D I]]. exact I. Qed.
Next Obligation.
  intros [m W]. eexists _, _. split; [reflexivity|]. cbn [proj1_sig]. unfold raw_in. change (command_block io + STATUS =? 0x1F7) with true. cbv beta iota.
  destruct (m_busy m) as [|k] eqn:E; cbn [fst snd].
  - destruct (asks (m_phase m)); by split_and!.
  - split; [done|]. split; [done|]. by exists k.
Qed.
Next Obligation.
  intros [m W] off v Ho Hb Hp. eexists. split; [reflexivity|]. cbn [proj1_sig]. unfold raw_out. cbn [command_block io].
  rewrite (proj2 (Z.eqb_neq _ 0x1F7)), (proj2 (Z.eqb_neq _ 0x1F0)) by lia. f_equal. lia.
Qed.
Next Obligation.
  intros [m W] c p Hb Hp H4 H6 Hc. eexists _, 2%nat. split; [reflexivity|]. cbn [proj1_sig] in *. unfold raw_out. change (command_block io + COMMAND =? 0x1F7) with true. cbv beta iota.
  destruct Hc as [[-> ->]|(Hn & Hl & Hc)]; [done|]. rewrite (proj2 (Z.ltb_lt _ _) Hn), (proj2 (Z.leb_le _ _) Hl). by destruct Hc as [[-> ->]|[-> ->]].
Qed.
Next Obligation.
  intros [m W] w ws Hb Hp. cbn [proj1_sig] in *. eexists _, (if Z.of_nat (length ws) mod 256 =? 0 then 2%nat else 0%nat).
  split; [cbn [io_in drive_io proj1_sig]; unfold raw_in at 1; change (command_block io + DATA =? 0x1F7) with false; change (command_block io + DATA =? 0x1F0) with true; cbv beta iota; rewrite Hb, Hp; reflexivity|].
  cbn [proj1_sig]. split; [unfold raw_in; change (command_block io + DATA =? 0x1F7) with false; change (command_block io + DATA =? 0x1F0) with true; cbv beta iota; by rewrite Hb, Hp|].
  destruct (Z.eqb_spec (Z.of_nat (length ws) mod 256) 0); done.
Qed.
Next Obligation.
  intros [m W] lba n got w Hb Hp. cbn [proj1_sig] in *. eexists _, (if Z.of_nat (length got + 1) mod 256 =? 0 then 2%nat else 0%nat). split; [reflexivity|]. cbn [proj1_sig]. split.
  - unfold raw_out. change (command_block io + DATA =? 0x1F7) with false. change (command_block io + DATA =? 0x1F0) with true. cbv beta iota. by rewrite Hp.
  - destruct (Z.eqb_spec (Z.of_nat (length got + 1) mod 256) 0); done.
Qed.

Definition ident : bytes := resize 512 0 (resize 20 0 [] ++ resize 78 0 [69; 109] ++ resize 22 0 [0; 2] ++ [0xE8; 3]).
Definition blank (cap : Z) : Machine := mkMachine 0 0 0 0 0 Idle 0 (fun s => repeat (s mod 251) 512) ident.
Lemma blank_wf : wf (blank CAP).
Proof.
  split; [cbn; lia| |].
  - intros s Hs. cbn [blank m_disk]. rewrite repeat_length. split; [done|]. apply Forall_forall. intros x Hx%list_elem_of_In%repeat_spec. subst x. unfold is_byte, in_word. pose proof (Z.mod_pos_bound s 251). lia.
  - cbn [blank m_ident]. unfold ident. split; [by rewrite length_resize|]. by vm_compute; repeat constructor.
Qed.
Definition config : Pci.PciDeviceConfig := Pci.mkConfig 0 1 1 0x8086 0x7010 (Pci.MassStorageController 1 0x80 0) 0 [] 0 0 None.
Lemma fives n : Forall is_byte (repeat 5 n).
Proof. apply Forall_forall. intros x Hx%list_elem_of_In%repeat_spec. by subst x. Qed.
Lemma disk_through_ports_witness : exists d h1 d' d'', init_new 4 None io config false (blank CAP ↾ blank_wf) = Ret (Some d, h1) /\
  Ide.write_sync (H0 := ata_drive 4) 7 (repeat 5 (Z.to_nat (300 * 512))) (device_of d h1) = Ret (Ok tt, d') /\
  Ide.read_sync (H0 := ata_drive 4) 7 (300 * 512) d' = Ret (Ok (repeat 5 (Z.to_nat (300 * 512))), d'').
Proof.
  destruct (disk_through_ports (io := io) (second := false) (sz := 512) (cap := CAP) (polls := 4) (blank CAP ↾ blank_wf) None config) as (d & h1 & E & _ & _ & HD); [cbn; lia|done|done|done|done|by vm_compute|by vm_compute|by vm_compute|by vm_compute|].
  destruct (HD 7 300 (repeat 5 (Z.to_nat (300 * 512)))) as (d' & d'' & E1 & E2 & _); [lia|lia|by vm_compute|rewrite repeat_length; lia|..].
  - apply fives.
  - exists d, h1, d', d''. split; [exact E|]. split; [exact E1|exact E2].
Defined.

(** ** Sectors beyond 2^24

    The commands have an address of 28 bits, but the driver leaves the highest
    four zero: what it reads as sector 2^24 is sector 0. *)
#[export] Instance big_io : PortIo Machine := {
  io_in n p := fun m => Ret (raw_in p m);
  io_out n p v := fun m => Ret (tt, raw_out (2 ^ 25) p v m)
}.
Definition big : Machine := blank (2 ^ 25).
Definition result_of {S A} (o : outcome (A * S)) : outcome A := match o with Ret (a, _) => Ret a | Panic => Panic | Diverge => Diverge end.
Lemma high_sector_reads_low :
  result_of (Ide.read_sync (H0 := ata_drive 4) (2 ^ 24) 512 (device_of (mkDrive (mkImpl None io config (identify_of ident) false) Ide.Ata (2 ^ 25) 512 false) big)) = Ret (Ok (m_disk big 0)) /\
  head (m_disk big 0) <> head (m_disk big (2 ^ 24)).
Proof. split; [vm_compute; reflexivity|]. vm_compute. discriminate. Qed.
(** The handler of an interrupt of the primary channel acknowledges the first
    drive of both channels instead of both drives of its channel. *)
#[export] Instance no_irqs : Irqs (list Z) := { assign_io_irq _ _ := mret tt; return_from_interrupt := mret tt }.
#[export] Instance log_io : PortIo (list Z) := { io_in n p := fun l => Ret (0, l ++ [p]); io_out n p v := fun l => Ret (tt, l ++ [p]) }.
Definition drive_at (cb : Z) (second : bool) : IdeDrive := mkDrive (mkImpl None (mkIo cb 0) config (identify_of ident) second) Ide.Ata 1000 512 second.
Lemma primary_interrupt_wrong_drives : exists s, handle_interrupt ide_interrupt_primary (mkIdeState [] [Some (drive_at 0x1F0 false); Some (drive_at 0x1F0 true); Some (drive_at 0x170 false); None] true) = Ret (tt, s) /\
  hw s = [0x1F7; 0x177].
Proof. eexists. split; vm_compute; reflexivity. Qed.
End AtaDemo.
