(* ===== verification/Apic.v ===== *)
(** * Interrupts

    Models [kernel/src/cpu/idt.rs] (the descriptor table), [gdt.rs] (segments
    and the stacks of the interrupts), [interrupts/mod.rs] (the allocation of
    vectors) and [interrupts/apic.rs] (the interrupt controllers: set-up from
    the ACPI tables and the routing of interrupt lines).  The addresses of
    handlers, which the linker chooses, are arguments; memory-mapped registers
    and the registers of the CPU are the interfaces [Mmio] and [CpuRegs]. *)
From S2P Require Import Prelude MemLayout UserLink FsTypes Bytes AmlData Resource Aml AmlTree AcpiTables.
Import AcpiTables.Acpi.

(** 32-bit registers in memory ([VCell]) *)
Class Mmio (H : Type) : Type := {
  mmio_read : Z -> ST H Z;
  mmio_write : Z -> Z -> ST H unit
}.
(** [cpuid] (the word of features), and the machine registers *)
Class CpuRegs (H : Type) : Type := {
  cpuid_features : ST H Z;
  msr_read : Z -> ST H Z;
  msr_write : Z -> Z -> ST H unit
}.

Module Idt.
(** ** [idt.rs] *)
Definition GATE_TYPE : Z := 14.
Definition KEEP_INTERRUPTS : Z := Z.shiftl 1 0.
Definition PRESENT : Z := Z.shiftl 1 7.
Definition dpl (ring : Z) : Z := Z.shiftl ring 5.

Record InterruptDescriptorTableEntry : Type := mkEntry {
  offset_low : Z; selector : Z; ist : Z; flags : Z; offset_middle : Z; offset_high : Z }.
Definition empty : InterruptDescriptorTableEntry := mkEntry 0 0 0 0 0 0.
Definition set_handler_ptr (cs handler_addr : Z) (self : InterruptDescriptorTableEntry) : InterruptDescriptorTableEntry :=
  mkEntry (wrap 16 handler_addr) cs 0 (Z.lor PRESENT GATE_TYPE) (wrap 16 (Z.shiftr handler_addr 16)) (wrap 32 (Z.shiftr handler_addr 32)).
Definition set_stack_index (stack_index : option Z) (self : InterruptDescriptorTableEntry) : outcome InterruptDescriptorTableEntry :=
  i ← (match stack_index with Some i => cadd 8 i 1 | None => Ret 0 end);
  _ ← assert_that (i <=? 7);
  Ret (mkEntry (offset_low self) (selector self) i (flags self) (offset_middle self) (offset_high self)).
Definition set_flags (f : Z) (self : InterruptDescriptorTableEntry) : InterruptDescriptorTableEntry :=
  mkEntry (offset_low self) (selector self) (ist self) f (offset_middle self) (offset_high self).
Definition set_disable_interrupts (disable : bool) (self : InterruptDescriptorTableEntry) : InterruptDescriptorTableEntry :=
  set_flags (if disable then Z.land (flags self) (unot 8 KEEP_INTERRUPTS) else Z.lor (flags self) KEEP_INTERRUPTS) self.
Definition set_privilege_level (ring : Z) (self : InterruptDescriptorTableEntry) : InterruptDescriptorTableEntry :=
  set_flags (Z.lor (Z.land (flags self) (unot 8 (dpl 3))) (dpl ring)) self.

(** a handler that returns by itself, or one that gets all registers *)
Inductive Handler : Type := Basic (addr : Z) | AllState (addr : Z).

(** [Interrupts] with its descriptor table, and [REDIRECTED_INTERRUPTS] *)
Record Interrupts : Type := mkInterrupts { idt : list InterruptDescriptorTableEntry; last_used_user_interrupt : Z; redirected : list (option Z) }.
Definition FAULTS_STACK : Z := 0.
Definition DOUBLE_FAULT_STACK : Z := 1.
Definition USER_INTERRUPTS_START : Z := 0x20.
Definition MAX_USER_INTERRUPTS : Z := 0xe0 - 0x10.
Definition SPECIAL_SCHEDULER_INTERRUPT : Z := 0xdf.
Definition SYSCALL_INTERRUPT_NUMBER : Z := 0xFE.
Definition SPECIAL_SYSCALL_INTERRUPT : Z := SYSCALL_INTERRUPT_NUMBER - USER_INTERRUPTS_START.
Definition USER_RING : Z := 3.

Section table.
(** the code segment, the entry points of [idt_vectors.S] and the default handlers *)
Context (cs : Z) (vector_stub default_handler default_handler_with_error : Z -> Z).

(** which exceptions have a handler with an error code, and which their own stack *)
Definition exceptions : list (Z * bool * option Z) :=
  [(0, false, None); (1, false, None); (2, false, None); (3, false, None); (4, false, None); (5, false, Some FAULTS_STACK); (6, false, Some FAULTS_STACK);
   (7, false, Some FAULTS_STACK); (8, true, Some DOUBLE_FAULT_STACK); (10, true, None); (11, true, None); (12, true, None); (13, true, None);
   (14, true, Some FAULTS_STACK); (16, false, None); (17, true, Some FAULTS_STACK); (18, false, None); (19, false, None); (21, false, None);
   (28, false, None); (29, false, None); (30, true, None)].
Fixpoint set_exceptions (l : list (Z * bool * option Z)) (t : list InterruptDescriptorTableEntry) : outcome (list InterruptDescriptorTableEntry) :=
  match l with
  | [] => Ret t
  | (n, with_error, stack) :: l =>
      let e := set_handler_ptr cs (if with_error then default_handler_with_error n else default_handler n) empty in
      e ← (match stack with Some i => set_stack_index (Some i) e | None => Ret e end);
      set_exceptions l (<[Z.to_nat n := e]> t)
  end.
(** [InterruptDescriptorTable::empty], then [init_default_handlers] *)
Definition init_default_handlers : outcome (list InterruptDescriptorTableEntry) :=
  set_exceptions exceptions (repeat empty 32 ++ repeat (set_handler_ptr cs (default_handler 0xFF) empty) 224).
Definition init_interrupts : outcome Interrupts := t ← init_default_handlers; Ret (mkInterrupts t 0 (repeat None 256)).

(** ** [interrupts/mod.rs] *)
Definition get_next_interrupt : ST Interrupts Z :=
  self ← get;
  if MAX_USER_INTERRUPTS <=? last_used_user_interrupt self then panic else
  _ ← put (mkInterrupts (idt self) (last_used_user_interrupt self + 1) (redirected self));
  mret (last_used_user_interrupt self).
(** a change of [user_defined[interrupt]] *)
Definition change_entry (interrupt : Z) (f : InterruptDescriptorTableEntry -> InterruptDescriptorTableEntry) : ST Interrupts unit :=
  modify (fun self => mkInterrupts (alter f (Z.to_nat (USER_INTERRUPTS_START + interrupt)) (idt self)) (last_used_user_interrupt self) (redirected self)).
Definition redirect (vector_n handler : Z) : ST Interrupts unit :=
  modify (fun self => mkInterrupts (idt self) (last_used_user_interrupt self) (<[Z.to_nat vector_n := Some handler]> (redirected self))).
Definition set_handler_with_number (interrupt handler : Z) : ST Interrupts unit :=
  let vector_n := interrupt + USER_INTERRUPTS_START in
  _ ← redirect vector_n handler;
  change_entry interrupt (set_handler_ptr cs (vector_stub vector_n)).
Definition allocate_basic_user_interrupt (handler : Z) : ST Interrupts Z :=
  interrupt ← get_next_interrupt;
  _ ← change_entry interrupt (set_handler_ptr cs handler);
  lift (cadd 8 interrupt USER_INTERRUPTS_START).
Definition allocate_user_interrupt_all_saved (handler : Z) : ST Interrupts Z :=
  interrupt ← get_next_interrupt;
  _ ← set_handler_with_number interrupt handler;
  lift (cadd 8 interrupt USER_INTERRUPTS_START).
Definition allocate_user_interrupt (h : Handler) : ST Interrupts Z :=
  match h with Basic a => allocate_basic_user_interrupt a | AllState a => allocate_user_interrupt_all_saved a end.
Definition create_scheduler_interrupt (handler : Z) : ST Interrupts unit :=
  _ ← set_handler_with_number SPECIAL_SCHEDULER_INTERRUPT handler;
  change_entry SPECIAL_SCHEDULER_INTERRUPT (set_disable_interrupts true).
Definition create_syscall_interrupt (handler : Z) : ST Interrupts unit :=
  _ ← set_handler_with_number SPECIAL_SYSCALL_INTERRUPT handler;
  change_entry SPECIAL_SYSCALL_INTERRUPT (fun e => set_disable_interrupts false (set_privilege_level USER_RING e)).
(** [rust_interrupt_handler_for_all_state]: which handler runs *)
Definition redirected_handler (self : Interrupts) (number : Z) : outcome Z := unwrap (mjoin (redirected self !! Z.to_nat number)).
End table.
End Idt.

Module Gdt.
(** ** [gdt.rs] *)
Definition KERNEL_RING : Z := 0.
Definition LONG_MODE : Z := Z.shiftl 1 5.
Definition SEG_PRESENT : Z := Z.shiftl 1 7.
Definition CODE : Z := Z.shiftl 1 3.
Definition USER : Z := Z.shiftl 1 4.
Definition WRITE : Z := Z.shiftl 1 1.
Definition TSS_TYPE : Z := 9.
(** limit, base and flags of a code or data segment, as the table holds them *)
Record UserDescriptorEntry : Type := mkUser { limit_low : Z; base_low : Z; base_middle : Z; access : Z; flags_and_limit : Z; base_high : Z }.
Definition user_word (e : UserDescriptorEntry) : Z :=
  from_le (pack [2; 2; 1; 1; 1; 1]%nat [limit_low e; base_low e; base_middle e; access e; flags_and_limit e; base_high e]).
Record SystemDescriptorEntry : Type := mkSystem { s_limit : Z; s_base_low : Z; s_base_middle : Z; s_access : Z; s_flags_and_limit : Z; s_base_high : Z; base_upper : Z; s_zero : Z }.
Definition system_words (e : SystemDescriptorEntry) : Z * Z :=
  let b := pack [2; 2; 1; 1; 1; 1; 4; 4]%nat [s_limit e; s_base_low e; s_base_middle e; s_access e; s_flags_and_limit e; s_base_high e; base_upper e; s_zero e] in
  (from_le (take 8 b), from_le (drop 8 b)).
Record GlobalDescriptorTable : Type := mkGdt { data : list Z; index : Z }.
Definition gdt_empty : GlobalDescriptorTable := mkGdt (repeat 0 8) 1.
Definition store (i v : Z) (l : list Z) : outcome (list Z) := _ ← assert_that (i <? Z.of_nat (length l)); Ret (<[Z.to_nat i := v]> l).
Definition push_user (e : UserDescriptorEntry) : ST GlobalDescriptorTable Z :=
  self ← get;
  l ← lift (store (index self) (user_word e) (data self));
  _ ← put (mkGdt l (index self + 1));
  mret (index self).
Definition push_system (e : SystemDescriptorEntry) : ST GlobalDescriptorTable Z :=
  self ← get;
  let '(w0, w1) := system_words e in
  l ← lift (store (index self) w0 (data self));
  l ← lift (store (index self + 1) w1 l);
  _ ← put (mkGdt l (index self + 2));
  mret (index self).
Definition from_index (index : Z) : outcome Z := _ ← assert_that (index <? 8192); Ret (Z.shiftl index 3).
Record Segments : Type := mkSegments { kernel_code_seg : Z; user_code_seg : Z; kernel_data_seg : Z; user_data_seg : Z; tss_seg : Z }.
Definition push_segment (access flags : Z) : ST GlobalDescriptorTable Z :=
  i ← push_user (mkUser 0 0 0 access flags 0); lift (from_index i).
Definition TSS_BYTES : Z := 104.
Definition tss_descriptor (tss_ptr : Z) : SystemDescriptorEntry :=
  mkSystem (TSS_BYTES - 1) (Z.land tss_ptr 0xFFFF) (Z.land (Z.shiftr tss_ptr 16) 0xFF) (Z.lor SEG_PRESENT TSS_TYPE) 0
    (Z.land (Z.shiftr tss_ptr 24) 0xFF) (Z.land (Z.shiftr tss_ptr 32) 0xFFFFFFFF) 0.
(** the segments that [init_kernel_gdt] makes *)
Definition init_segments (tss_ptr : Z) : ST GlobalDescriptorTable Segments :=
  self ← get;
  _ ← lift (assert_that (index self =? 1));
  kc ← push_segment (Z.lor (Z.lor (Z.lor SEG_PRESENT CODE) USER) (Idt.dpl KERNEL_RING)) LONG_MODE;
  uc ← push_segment (Z.lor (Z.lor (Z.lor SEG_PRESENT CODE) USER) (Idt.dpl Idt.USER_RING)) LONG_MODE;
  kd ← push_segment (Z.lor (Z.lor (Z.lor SEG_PRESENT USER) WRITE) (Idt.dpl KERNEL_RING)) 0;
  ud ← push_segment (Z.lor (Z.lor (Z.lor SEG_PRESENT USER) WRITE) (Idt.dpl Idt.USER_RING)) 0;
  ti ← push_system (tss_descriptor tss_ptr);
  ts ← lift (from_index ti);
  mret (mkSegments kc uc kd ud ts).
(** the stack of interrupt stack [i]: where it starts, and the pointer into it *)
Definition interrupt_stack (i : Z) : outcome (Z * Z) :=
  let stack_start_virtual := INTR_STACK_BASE + i * INTR_STACK_ENTRY_SIZE + INTR_STACK_EMPTY_SIZE in
  let stack_end_virtual := stack_start_virtual + INTR_STACK_SIZE in
  _ ← assert_that (stack_end_virtual <=? INTR_STACK_BASE + INTR_STACK_TOTAL_SIZE);
  _ ← assert_that (negb (i =? 6) || (stack_end_virtual =? INTR_STACK_BASE + INTR_STACK_TOTAL_SIZE));
  a ← is_aligned INTR_STACK_SIZE PAGE_4K;
  b ← is_aligned stack_start_virtual PAGE_4K;
  _ ← assert_that (a && b);
  Ret (stack_start_virtual, stack_end_virtual - 8).
End Gdt.

Module Apic.
(** ** [apic.rs] *)
Definition APIC_BAR_ENABLED : Z := Z.shiftl 1 11.
Definition APIC_BASE_MASK : Z := 0xFFFFFFFFFFFFF000.
Definition APIC_BASE : Z := 0x1B.
Definition FEAT_EDX_APIC : Z := Z.shiftl 1 9.
Definition MAX_CPUS : Z := 8.

(** *** Registers of the local controller; one in 16 bytes *)
Definition reg_at (base i : Z) : Z := base + i * 16.
Definition END_OF_INTERRUPT : Z := 11.
Definition SPURIOUS_VECTOR : Z := 15.
Definition ERROR_STATUS : Z := 40.
Definition TIMER_LVT : Z := 50.
Definition LINT0_LVT : Z := 53.
Definition LINT1_LVT : Z := 54.
Definition ERROR_LVT : Z := 55.
Definition TIMER_INITIAL_COUNT : Z := 56.
Definition TIMER_DIVIDE : Z := 62.
Definition SPURIOUS_ENABLE : Z := Z.shiftl 1 8.
Definition LVT_VECTOR_MASK : Z := 0xFF.
Definition LVT_MASK_MASK : Z := Z.shiftl 1 16.
Definition LVT_TIMER_MODE_MASK : Z := Z.shiftl 1 17.
(** replace a field of a [w]-bit register *)
Definition with_field (w mask v reg : Z) : Z := Z.lor (Z.land reg (unot w mask)) v.
Definition b2z (b : bool) : Z := if b then 1 else 0.
Definition lvt_vector (vector : Z) : Z -> Z := with_field 32 LVT_VECTOR_MASK vector.
Definition lvt_mask (mask : bool) : Z -> Z := with_field 32 LVT_MASK_MASK (Z.shiftl (b2z mask) 16).
Definition lvt_periodic_timer (periodic : bool) : Z -> Z := with_field 32 LVT_TIMER_MODE_MASK (Z.shiftl (b2z periodic) 17).

(** *** [io_apic], [IoApicRedirectionBuilder] *)
Definition IO_APIC_VERSION : Z := 1.
Definition IO_APIC_REDIRECTION_TABLE : Z := 0x10.
Definition RDR_VECTOR_MASK : Z := 0xFF.
Definition RDR_DELIVERY_MODE_MASK : Z := Z.shiftl 7 8.
Definition RDR_DESTINATION_MODE_MASK : Z := Z.shiftl 1 11.
Definition RDR_PIN_POLARITY_MASK : Z := Z.shiftl 1 13.
Definition RDR_TRIGGER_MODE_MASK : Z := Z.shiftl 1 15.
Definition RDR_MASK_MASK : Z := Z.shiftl 1 16.
Definition RDR_DESTINATION_PHYSICAL_MASK : Z := Z.shiftl 0x1F 59.
Definition RDR_DESTINATION_LOGICAL_MASK : Z := Z.shiftl 0xFF 56.
Inductive DestinationType : Type := Physical (d : Z) | Logical (d : Z).
Definition with_vector (vector : Z) : Z -> Z := with_field 64 RDR_VECTOR_MASK vector.
Definition with_delivery_mode (mode : Z) : Z -> Z := with_field 64 RDR_DELIVERY_MODE_MASK (Z.shiftl (Z.land mode 7) 8).
Definition with_interrupt_polarity_low (low : bool) : Z -> Z := with_field 64 RDR_PIN_POLARITY_MASK (Z.shiftl (b2z low) 13).
Definition with_trigger_mode_level (level : bool) : Z -> Z := with_field 64 RDR_TRIGGER_MODE_MASK (Z.shiftl (b2z level) 15).
Definition with_mask (mask : bool) : Z -> Z := with_field 64 RDR_MASK_MASK (Z.shiftl (b2z mask) 16).
Definition with_destination (destination : DestinationType) (reg : Z) : outcome Z :=
  match destination with
  | Physical d =>
      _ ← assert_that (d <? 32);
      let reg := Z.land reg (unot 64 RDR_DESTINATION_MODE_MASK) in
      Ret (with_field 64 RDR_DESTINATION_PHYSICAL_MASK (Z.shiftl (Z.land d 0x1F) 59) reg)
  | Logical d =>
      let reg := Z.lor reg RDR_DESTINATION_MODE_MASK in
      Ret (with_field 64 RDR_DESTINATION_LOGICAL_MASK (Z.shiftl d 56) reg)
  end.

Record IoApic : Type := mkIoApicDev { io_id : Z; global_irq_base : Z; n_entries : Z; io_mmio : Z }.
Record Cpu : Type := mkCpu { cpu_id : Z; cpu_apic_id : Z }.
Record Apic : Type := mkApicDev { mmio : Z; n_cpus : Z; io_apics : list IoApic; source_overrides : list InterruptSourceOverride }.

(** everything the set-up touches: the hardware, the vectors, [CPUS] *)
Record World (H : Type) : Type := mkWorld { hw : H; interrupts : Idt.Interrupts; cpus : list Cpu }.
Arguments mkWorld {H}. Arguments hw {H}. Arguments interrupts {H}. Arguments cpus {H}.

Section controller.
Context {H : Type} `{Mmio H} `{CpuRegs H} `{PortIo H}.
Context (cs : Z) (vector_stub : Z -> Z) (spurious_handler apic_timer_handler error_interrupt_handler : Z).
Definition on_hw {A} (m : ST H A) : ST (World H) A := fun w =>
  match m (hw w) with
  | Ret (a, h) => Ret (a, mkWorld h (interrupts w) (cpus w))
  | Panic => Panic
  | Diverge => Diverge
  end.
Definition on_interrupts {A} (m : ST Idt.Interrupts A) : ST (World H) A := fun w =>
  match m (interrupts w) with
  | Ret (a, i) => Ret (a, mkWorld (hw w) i (cpus w))
  | Panic => Panic
  | Diverge => Diverge
  end.

(** *** [IoApic] *)
Definition read_register (self : IoApic) (register : Z) : ST H Z := _ ← mmio_write (reg_at (io_mmio self) 0) register; mmio_read (reg_at (io_mmio self) 1).
Definition write_register (self : IoApic) (register value : Z) : ST H unit := _ ← mmio_write (reg_at (io_mmio self) 0) register; mmio_write (reg_at (io_mmio self) 1) value.
Definition write_redirect_entry (self : IoApic) (entry reg : Z) : ST H unit :=
  _ ← write_register self (IO_APIC_REDIRECTION_TABLE + entry * 2) (wrap 32 reg);
  write_register self (IO_APIC_REDIRECTION_TABLE + entry * 2 + 1) (wrap 32 (Z.shiftr reg 32)).
Definition is_entry_taken (self : IoApic) (entry : Z) : ST H bool :=
  lo ← read_register self (IO_APIC_REDIRECTION_TABLE + entry * 2);
  mret (negb (Z.land lo RDR_VECTOR_MASK =? 0)).
Fixpoint reset_entries (self : IoApic) (n : nat) (i : Z) : ST H unit :=
  match n with O => mret tt | S n => _ ← write_redirect_entry self i (with_mask true (with_vector 0 0)); reset_entries self n (i + 1) end.
Definition reset_all_interrupts (self : IoApic) : ST H unit := reset_entries self (Z.to_nat (n_entries self)) 0.
Fixpoint reset_all (l : list IoApic) : ST H unit := match l with [] => mret tt | a :: l => _ ← reset_all_interrupts a; reset_all l end.
(** [IoApic::from] the entry of the table *)
Definition io_apic_from (table : Acpi.IoApic) : ST H IoApic :=
  _ ← lift (assert_that (negb (io_apic_address table =? 0)));
  _ ← lift (assert_that (Z.land (io_apic_address table) 0xF =? 0));
  let s n := mkIoApicDev (io_apic_id table) (global_system_interrupt_base table) n (io_apic_address table) in
  v ← read_register (s 0) IO_APIC_VERSION;
  n ← lift (cadd 8 (wrap 8 (Z.shiftr v 16)) 1);
  mret (s n).

(** *** The entries of the table of interrupt controllers *)
Record Collected : Type := mkCollected { c_cpus : Z; c_io : list IoApic; c_overrides : list InterruptSourceOverride; c_address : Z }.
Fixpoint collect (l : list InterruptControllerStruct) (c : Collected) : ST (World H) Collected :=
  match l with
  | [] => mret c
  | s :: l =>
      match s with
      | ProcessorLocalApicS s =>
          if Z.land (la_flags s) 1 =? 0 then collect l c
          else if MAX_CPUS <=? c_cpus c then collect l c
          else
            _ ← modify (fun w => mkWorld (hw w) (interrupts w) (<[Z.to_nat (c_cpus c) := mkCpu (c_cpus c) (apic_id s)]> (cpus w)));
            collect l (mkCollected (c_cpus c + 1) (c_io c) (c_overrides c) (c_address c))
      | IoApicS s => io ← on_hw (io_apic_from s); collect l (mkCollected (c_cpus c) (c_io c ++ [io]) (c_overrides c) (c_address c))
      | InterruptSourceOverrideS s => collect l (mkCollected (c_cpus c) (c_io c) (c_overrides c ++ [s]) (c_address c))
      | NonMaskableInterruptS _ => panic
      | LocalApicNmiS _ => collect l c
      | LocalApicAddressOverrideS s => collect l (mkCollected (c_cpus c) (c_io c) (c_overrides c) (ao_local_apic_address s))
      | UnknownController _ _ => collect l c
      end
  end.

(** *** The local controller *)
Definition write_local (self : Apic) (i value : Z) : ST (World H) unit := on_hw (mmio_write (reg_at (mmio self) i) value).
Definition return_from_interrupt (self : Apic) : ST (World H) unit := write_local self END_OF_INTERRUPT 0.
Definition initialize_spurious_interrupt (self : Apic) : ST (World H) unit :=
  n ← on_interrupts (Idt.allocate_basic_user_interrupt cs spurious_handler);
  write_local self SPURIOUS_VECTOR (Z.lor SPURIOUS_ENABLE n).
Definition disable_local_interrupts (self : Apic) : ST (World H) unit :=
  _ ← write_local self LINT0_LVT (lvt_mask true 0);
  write_local self LINT1_LVT (lvt_mask true 0).
Definition initialize_timer (self : Apic) : ST (World H) unit :=
  n ← on_interrupts (Idt.allocate_user_interrupt_all_saved cs vector_stub apic_timer_handler);
  _ ← write_local self TIMER_DIVIDE 11;
  _ ← write_local self TIMER_INITIAL_COUNT 0x1000000;
  write_local self TIMER_LVT (lvt_vector n (lvt_mask false (lvt_periodic_timer true 0))).
Definition setup_error_interrupt (self : Apic) : ST (World H) unit :=
  _ ← write_local self ERROR_STATUS 0;
  _ ← write_local self ERROR_STATUS 0;
  n ← on_interrupts (Idt.allocate_basic_user_interrupt cs error_interrupt_handler);
  write_local self ERROR_LVT (lvt_vector n (lvt_mask false 0)).
(** [error_interrupt_handler] itself *)
Definition handle_error_interrupt (self : Apic) : ST (World H) Z :=
  e ← on_hw (mmio_read (reg_at (mmio self) ERROR_STATUS));
  _ ← write_local self ERROR_STATUS 0;
  _ ← return_from_interrupt self;
  mret e.

(** *** [Apic::new] *)
Definition apic_table (t : DescriptorTable) : option Acpi.Apic := match t_body t with ApicT a => Some a | _ => None end.
Definition get_apic (ts : list DescriptorTable) : option Acpi.Apic := head (omap apic_table ts).
(** the address of the local controller, which is enabled if it is not *)
Definition local_address : ST H Z :=
  edx ← cpuid_features;
  if Z.land edx FEAT_EDX_APIC =? 0 then panic else
  apic_bar ← msr_read APIC_BASE;
  _ ← (if Z.land apic_bar APIC_BAR_ENABLED =? 0 then
         _ ← msr_write APIC_BASE (Z.lor apic_bar APIC_BAR_ENABLED);
         bar ← msr_read APIC_BASE;
         lift (assert_that (negb (Z.land bar APIC_BAR_ENABLED =? 0)))
       else mret tt);
  mret (Z.land apic_bar APIC_BASE_MASK).
Definition new (tables : BiosTables) : ST (World H) Apic :=
  apic_address ← on_hw local_address;
  madt_table ← lift (unwrap (get_apic (entries (bios_rsdt tables))));
  let apic_address := if negb (local_apic_address madt_table =? apic_address) then local_apic_address madt_table else apic_address in
  c ← collect (interrupt_controller_structs madt_table) (mkCollected 0 [] [] apic_address);
  _ ← lift (assert_that (0 <? c_cpus c));
  _ ← lift (assert_that (match c_io c with [] => false | _ => true end));
  _ ← lift (assert_that (negb (c_address c =? 0)));
  _ ← lift (assert_that (Z.land (c_address c) 0xF =? 0));
  _ ← on_hw (reset_all (c_io c));
  let s := mkApicDev (c_address c) (c_cpus c) (c_io c) (c_overrides c) in
  _ ← initialize_spurious_interrupt s;
  _ ← disable_local_interrupts s;
  _ ← initialize_timer s;
  _ ← setup_error_interrupt s;
  _ ← return_from_interrupt s;
  mret s.
(** [init]: the old controllers are silenced first *)
Definition disable_pic : ST H unit := _ ← io_out 1 0x21 0xFF; io_out 1 0xA1 0xFF.
Definition init (tables : BiosTables) : ST (World H) Apic := _ ← on_hw disable_pic; new tables.

(** *** Lines *)
Fixpoint find_io (interrupt_num : Z) (l : list IoApic) : outcome (option IoApic) :=
  match l with
  | [] => Ret None
  | a :: l =>
      if global_irq_base a <=? interrupt_num then
        limit ← cadd 32 (global_irq_base a) (n_entries a);
        if interrupt_num <? limit then Ret (Some a) else find_io interrupt_num l
      else find_io interrupt_num l
  end.
Definition get_irq_ioapic_entry (self : Apic) (irq_num : Z) : outcome (option (Z * IoApic * option InterruptSourceOverride)) :=
  let int_override := snd <$> list_find (fun o => ov_source o = irq_num) (source_overrides self) in
  let interrupt_num := match int_override with Some o => ov_global_system_interrupt o | None => irq_num end in
  a ← find_io interrupt_num (io_apics self);
  Ret (match a with Some a => Some (wrap 8 (interrupt_num - global_irq_base a), a, int_override) | None => None end).
Definition is_irq_assigned (self : Apic) (irq_num : Z) : ST (World H) bool :=
  e ← lift (get_irq_ioapic_entry self irq_num);
  match e with None => panic | Some (entry, io, _) => on_hw (is_entry_taken io entry) end.
(** the two fields of the flags of an override *)
Definition trigger_mode_level (o : option InterruptSourceOverride) : outcome bool :=
  match o with
  | None => Ret false
  | Some o => let v := Z.land (Z.shiftr (ov_flags o) 2) 3 in if v =? 2 then Panic else Ret (v =? 3)
  end.
Definition polarity_low (o : option InterruptSourceOverride) : outcome bool :=
  match o with
  | None => Ret false
  | Some o => let v := Z.land (ov_flags o) 3 in if v =? 2 then Panic else Ret (negb (v =? 1))
  end.
Definition assign_io_irq_custom (self : Apic) (handler : Idt.Handler) (irq_num : Z) (cpu : Cpu) (modify_entry : Z -> Z) : ST (World H) unit :=
  _ ← lift (assert_that (cpu_id cpu <? n_cpus self));
  _ ← lift (assert_that (irq_num <? 24));
  e ← lift (get_irq_ioapic_entry self irq_num);
  match e with
  | None => panic
  | Some (entry_in_ioapic, io_apic, int_override) =>
      taken ← on_hw (is_entry_taken io_apic entry_in_ioapic);
      _ ← lift (assert_that (negb taken));
      level ← lift (trigger_mode_level int_override);
      low ← lift (polarity_low int_override);
      vector_num ← on_interrupts (Idt.allocate_user_interrupt cs vector_stub handler);
      b ← lift (with_destination (Physical (cpu_apic_id cpu))
            (with_mask false (with_trigger_mode_level level (with_interrupt_polarity_low low (with_delivery_mode 0 (with_vector vector_num 0))))));
      on_hw (write_redirect_entry io_apic entry_in_ioapic (modify_entry b))
  end.
Definition assign_io_irq (self : Apic) (handler : Idt.Handler) (irq_num : Z) (cpu : Cpu) : ST (World H) unit :=
  assign_io_irq_custom self handler irq_num cpu (fun b => b).
End controller.
End Apic.
