(* ===== verification/ApicSpec.v ===== *)
(** * Interrupts reach their handlers

    What an I/O interrupt controller does with its two registers is the class
    [IoApicLaws].  On such hardware every line that is assigned leads to its
    own vector, that vector to the handler it was assigned to, and no other
    line or vector changes; and after the set-up from the ACPI tables every
    line is free and masked. *)
From S2P Require Import Prelude MemLayout UserLink FsTypes Bytes AmlData Resource Aml AmlTree AcpiTables Apic.
Import AcpiTables.Acpi Idt Apic.Apic.

(** ** Descriptors *)
Definition target (e : InterruptDescriptorTableEntry) : Z := offset_low e + offset_middle e * 2 ^ 16 + offset_high e * 2 ^ 32.
Lemma target_set cs a e : 0 <= a < 2 ^ 64 -> target (set_handler_ptr cs a e) = a.
Proof.
  intros Ha. unfold target, set_handler_ptr. cbn [offset_low offset_middle offset_high]. unfold wrap. rewrite !Z.shiftr_div_pow2 by lia.
  change (2 ^ 16) with 65536. change (2 ^ 32) with 4294967296. change (2 ^ 64) with 18446744073709551616 in Ha. dlia.
Qed.
(** interrupt [v] runs [h]: directly, or through the stub that saves all registers *)
Definition runs (cs : Z) (vector_stub : Z -> Z) (i : Interrupts) (v : Z) (h : Handler) : Prop :=
  exists e, idt i !! Z.to_nat v = Some e /\ selector e = cs /\ flags e = 0x8E /\ ist e = 0 /\
  match h with Basic a => target e = a | AllState a => target e = vector_stub v /\ redirected_handler i v = Ret a end.
Definition address_of (h : Handler) : Z := match h with Basic a | AllState a => a end.
Definition tables_ok (i : Interrupts) : Prop := length (idt i) = 256%nat /\ length (redirected i) = 256%nat /\ 0 <= last_used_user_interrupt i.
(** the vector the next allocation takes *)
Definition next_vector (i : Interrupts) : Z := USER_INTERRUPTS_START + last_used_user_interrupt i.

Section vectors.
Context (cs : Z) (vector_stub : Z -> Z) (Hstub : forall v, 0 <= vector_stub v < 2 ^ 64).
Lemma allocated i h : tables_ok i -> last_used_user_interrupt i < MAX_USER_INTERRUPTS -> 0 <= address_of h < 2 ^ 64 ->
  exists i', allocate_user_interrupt cs vector_stub h i = Ret (next_vector i, i') /\ tables_ok i' /\ next_vector i' = next_vector i + 1 /\
    runs cs vector_stub i' (next_vector i) h /\
    forall v h', 0 <= v -> v <> next_vector i -> runs cs vector_stub i v h' -> runs cs vector_stub i' v h'.
Proof.
  intros (Hl & Hr & H0) Hm Ha. set (n := last_used_user_interrupt i) in *. assert (Hn : 0 <= n < 0xD0) by (unfold MAX_USER_INTERRUPTS in Hm; lia).
  set (e := fun a => alter (set_handler_ptr cs a) (Z.to_nat (USER_INTERRUPTS_START + n)) (idt i)).
  exists (match h with Basic a => mkInterrupts (e a) (n + 1) (redirected i) | AllState a => mkInterrupts (e (vector_stub (n + USER_INTERRUPTS_START))) (n + 1) (<[Z.to_nat (n + USER_INTERRUPTS_START) := Some a]> (redirected i)) end).
  assert (Hv : next_vector i = n + USER_INTERRUPTS_START) by (unfold next_vector; fold n; lia).
  destruct (lookup_lt_is_Some_2 (idt i) (Z.to_nat (USER_INTERRUPTS_START + n))) as [e0 He0]; [rewrite Hl; unfold USER_INTERRUPTS_START; lia|].
  split_and!.
  - destruct h as [a|a]; unfold allocate_user_interrupt, allocate_basic_user_interrupt, allocate_user_interrupt_all_saved, set_handler_with_number, redirect, change_entry, get_next_interrupt, mbind, ST_bind, get, put, modify, panic, lift; cbv beta iota;
      fold n; rewrite (proj2 (Z.leb_gt _ _) Hm); cbn [mret ST_ret]; unfold mret, ST_ret; rewrite cadd_ret by (unfold USER_INTERRUPTS_START; lia); by rewrite Hv.
  - unfold tables_ok. destruct h; cbn [idt redirected last_used_user_interrupt]; unfold e; rewrite ?length_alter, ?length_insert; (split_and!; [done|done|lia]).
  - unfold next_vector. fold n. destruct h; cbn [last_used_user_interrupt]; lia.
  - exists (set_handler_ptr cs (match h with Basic a => a | AllState _ => vector_stub (n + USER_INTERRUPTS_START) end) e0). rewrite Hv. split_and!; [|done|done|done|].
    + destruct h; cbn [idt]; unfold e; rewrite Z.add_comm, list_lookup_alter_eq, ?(Z.add_comm n), He0; done.
    + destruct h as [a|a]; [by apply target_set|]. split; [by apply target_set|]. unfold redirected_handler. cbn [redirected]. rewrite list_lookup_insert_eq; [done|]. rewrite Hr. unfold USER_INTERRUPTS_START. lia.
  - intros v h' H0' Hne (e1 & He1 & Hs & Hf & Hi & Ht). exists e1. rewrite Hv in Hne. assert (Z.to_nat (USER_INTERRUPTS_START + n) <> Z.to_nat v /\ Z.to_nat (n + USER_INTERRUPTS_START) <> Z.to_nat v) as [N1 N2] by (unfold USER_INTERRUPTS_START in *; lia).
    split_and!; [destruct h; cbn [idt]; unfold e; by rewrite list_lookup_alter_ne|done|done|done|]. destruct h' as [a'|a']; [done|]. destruct Ht as [Ht Hr']. split; [done|].
    unfold redirected_handler in *. destruct h; cbn [redirected]; [done|]. by rewrite list_lookup_insert_ne.
Qed.
End vectors.

(** ** The I/O controllers *)
Definition redirect_at (tab : Z -> Z -> Z) (a : IoApic) (e : Z) : Z :=
  tab (io_mmio a) (IO_APIC_REDIRECTION_TABLE + e * 2) + tab (io_mmio a) (IO_APIC_REDIRECTION_TABLE + e * 2 + 1) * 2 ^ 32.
(** [is_io] are the addresses of the controllers; each has a selected register
    and a file of registers *)
Class IoApicLaws (H : Type) `{Mmio H} (is_io : Z -> Prop) : Type := {
  sel : H -> Z -> Z;
  tab : H -> Z -> Z -> Z;
  io_select : forall h b v, is_io b -> exists h', mmio_write (reg_at b 0) v h = Ret (tt, h') /\ sel h' b = v /\ forall b' r, tab h' b' r = tab h b' r;
  io_read : forall h b, is_io b -> exists h', mmio_read (reg_at b 1) h = Ret (tab h b (sel h b), h') /\ forall b' r, tab h' b' r = tab h b' r;
  io_write : forall h b v, is_io b -> IO_APIC_REDIRECTION_TABLE <= sel h b -> exists h', mmio_write (reg_at b 1) v h = Ret (tt, h') /\
    forall b' r, tab h' b' r = if decide (b' = b /\ r = sel h b) then v else tab h b' r
}.

Section io.
Context {H : Type} `{IoApicLaws H is_io}.
Lemma read_register_ok h a r : is_io (io_mmio a) -> exists h', read_register a r h = Ret (tab h (io_mmio a) r, h') /\ forall b' r', tab h' b' r' = tab h b' r'.
Proof.
  intros Ha. destruct (io_select h (io_mmio a) r Ha) as (h1 & E1 & Hs & Ht). destruct (io_read h1 (io_mmio a) Ha) as (h2 & E2 & Ht2).
  exists h2. unfold read_register, mbind, ST_bind. rewrite E1, E2, Hs, Ht. split; [done|]. intros b' r'. by rewrite Ht2.
Qed.
Lemma write_register_ok h a r v : is_io (io_mmio a) -> IO_APIC_REDIRECTION_TABLE <= r -> exists h', write_register a r v h = Ret (tt, h') /\
  forall b' r', tab h' b' r' = if decide (b' = io_mmio a /\ r' = r) then v else tab h b' r'.
Proof.
  intros Ha Hr. destruct (io_select h (io_mmio a) r Ha) as (h1 & E1 & Hs & Ht). destruct (io_write h1 (io_mmio a) v Ha) as (h2 & E2 & Ht2); [by rewrite Hs|].
  exists h2. unfold write_register, mbind, ST_bind. rewrite E1, E2. split; [done|]. intros b' r'. rewrite Ht2, Hs. case_decide; [done|]. apply Ht.
Qed.
Lemma write_redirect_ok h a e reg : is_io (io_mmio a) -> 0 <= e -> 0 <= reg < 2 ^ 64 -> exists h', write_redirect_entry a e reg h = Ret (tt, h') /\
  redirect_at (tab h') a e = reg /\ forall a' e', 0 <= e' -> (io_mmio a', e') <> (io_mmio a, e) -> redirect_at (tab h') a' e' = redirect_at (tab h) a' e'.
Proof.
  intros Ha He Hreg. destruct (write_register_ok h a (IO_APIC_REDIRECTION_TABLE + e * 2) (wrap 32 reg)) as (h1 & E1 & T1); [done|unfold IO_APIC_REDIRECTION_TABLE; lia|].
  destruct (write_register_ok h1 a (IO_APIC_REDIRECTION_TABLE + e * 2 + 1) (wrap 32 (Z.shiftr reg 32))) as (h2 & E2 & T2); [done|unfold IO_APIC_REDIRECTION_TABLE; lia|].
  exists h2. unfold write_redirect_entry, mbind, ST_bind. rewrite E1, E2. split; [done|]. unfold redirect_at. split.
  - rewrite !T2, !T1. rewrite decide_False, decide_True, decide_True by lia. unfold wrap. rewrite Z.shiftr_div_pow2 by lia. change (2 ^ 32) with 4294967296. change (2 ^ 64) with 18446744073709551616 in Hreg. dlia.
  - intros a' e' He' Hne. rewrite !T2, !T1. assert (io_mmio a' = io_mmio a -> e' <> e) by (intros E ->; apply Hne; by rewrite E). rewrite !decide_False by lia. done.
Qed.
Lemma entry_taken_ok h a e : is_io (io_mmio a) -> exists h', is_entry_taken a e h = Ret (negb (Z.land (tab h (io_mmio a) (IO_APIC_REDIRECTION_TABLE + e * 2)) RDR_VECTOR_MASK =? 0), h') /\ forall b' r', tab h' b' r' = tab h b' r'.
Proof.
  intros Ha. destruct (read_register_ok h a (IO_APIC_REDIRECTION_TABLE + e * 2) Ha) as (h1 & E1 & T1). exists h1. unfold is_entry_taken, mbind, ST_bind. rewrite E1. done.
Qed.
End io.
(** the entry of an assigned line: the vector, fixed delivery, the polarity in
    bit 13, the trigger in bit 15, the destination in bits 56 to 63; not masked *)
Definition route (v : Z) (low level : bool) (apic : Z) : Z := v + b2z low * 2 ^ 13 + b2z level * 2 ^ 15 + apic * 2 ^ 56.
Lemma route_built v low level : 0 <= v < 256 ->
  with_destination (Physical 0) (with_mask false (with_trigger_mode_level level (with_interrupt_polarity_low low (with_delivery_mode 0 (with_vector v 0))))) = Ret (route v low level 0).
Proof.
  intros Hv. assert (forallb (fun v => forallb (fun lo => forallb (fun le =>
    bool_decide (with_destination (Physical 0) (with_mask false (with_trigger_mode_level le (with_interrupt_polarity_low lo (with_delivery_mode 0 (with_vector v 0))))) = Ret (route v lo le 0)))
    [true; false]) [true; false]) (seqZ 0 256) = true) as Hall by (vm_compute; reflexivity).
  rewrite forallb_forall in Hall. specialize (Hall v ltac:(apply list_elem_of_In, elem_of_seqZ; lia)).
  rewrite forallb_forall in Hall. specialize (Hall low ltac:(destruct low; cbn; tauto)). rewrite forallb_forall in Hall. specialize (Hall level ltac:(destruct level; cbn; tauto)).
  by apply bool_decide_eq_true in Hall.
Qed.

(** ** Assignments *)
Record Request : Type := mkRequest { rq_irq : Z; rq_handler : Handler; rq_cpu : Cpu }.
(** the controller and the entry a line leads to *)
Definition line (self : Apic) (r : Request) : option (Z * Z) :=
  match get_irq_ioapic_entry self (rq_irq r) with Ret (Some (e, a, _)) => Some (io_mmio a, e) | _ => None end.

Section routing.
Context {H : Type} `{IoApicLaws H is_io} (cs : Z) (vector_stub : Z -> Z) (Hstub : forall v, 0 <= vector_stub v < 2 ^ 64) (self : Apic).
Notation W := (World H).
Implicit Types (w : W) (r : Request).
(** what is asked for: a line that exists, with flags that are not reserved, for a CPU that exists *)
Definition request_found r : Prop :=
  cpu_id (rq_cpu r) < n_cpus self /\ rq_irq r < 24 /\ cpu_apic_id (rq_cpu r) = 0 /\ 0 <= address_of (rq_handler r) < 2 ^ 64 /\
  exists e a o level low, get_irq_ioapic_entry self (rq_irq r) = Ret (Some (e, a, o)) /\ is_io (io_mmio a) /\ 0 <= e /\
    trigger_mode_level o = Ret level /\ polarity_low o = Ret low.
Definition free w r : Prop := forall e a o, get_irq_ioapic_entry self (rq_irq r) = Ret (Some (e, a, o)) -> redirect_at (tab (hw w)) a e mod 256 = 0.
(** an interrupt on the line is delivered to the CPU as a vector that runs the
    handler, triggered as the tables say *)
Definition entry_delivers w r : Prop := forall e a o level low, get_irq_ioapic_entry self (rq_irq r) = Ret (Some (e, a, o)) ->
  trigger_mode_level o = Ret level -> polarity_low o = Ret low ->
  exists v, redirect_at (tab (hw w)) a e = route v low level (cpu_apic_id (rq_cpu r)) /\ USER_INTERRUPTS_START <= v < next_vector (interrupts w) /\
    runs cs vector_stub (interrupts w) v (rq_handler r).
Definition assign r : ST W unit := assign_io_irq cs vector_stub self (rq_handler r) (rq_irq r) (rq_cpu r).

Lemma line_entry r e a o : get_irq_ioapic_entry self (rq_irq r) = Ret (Some (e, a, o)) -> line self r = Some (io_mmio a, e).
Proof. unfold line. by intros ->. Qed.
Lemma entry_nonneg irq e a o : get_irq_ioapic_entry self irq = Ret (Some (e, a, o)) -> 0 <= e.
Proof.
  unfold get_irq_ioapic_entry. destruct (find_io _ _) as [[x|]| |]; cbn; intros [= <- _ _]. unfold wrap. apply Z.mod_pos_bound. lia.
Qed.
Lemma taken_bits x y : negb (Z.land x RDR_VECTOR_MASK =? 0) = negb ((x + y * 2 ^ 32) mod 256 =? 0).
Proof. do 2 f_equal. change RDR_VECTOR_MASK with (2 ^ 8 - 1). rewrite land_mask by lia. change (2 ^ 8) with 256. change (2 ^ 32) with 4294967296. dlia. Qed.
Lemma route_bounds v low level : 0 <= v < 256 -> 0 <= route v low level 0 < 2 ^ 64.
Proof. intros. unfold route. destruct low, level; cbn [b2z]; lia. Qed.

Lemma assign_ok w r : tables_ok (interrupts w) -> last_used_user_interrupt (interrupts w) < MAX_USER_INTERRUPTS -> request_found r -> free w r ->
  exists w', assign r w = Ret (tt, w') /\ tables_ok (interrupts w') /\ next_vector (interrupts w') = next_vector (interrupts w) + 1 /\ entry_delivers w' r /\
    (forall r', line self r' <> line self r -> entry_delivers w r' -> entry_delivers w' r') /\ (forall r', line self r' <> line self r -> free w r' -> free w' r').
Proof.
  intros Ht Hm (Hc & Hi & Ha & Had & e & a & o & level & low & Ee & Hio & He & El & Ep) Hf.
  destruct (allocated cs vector_stub Hstub (interrupts w) (rq_handler r)) as (i' & Ea & Ht' & Hn & Hr & Hk); [done..|].
  assert (Hv : 0 <= next_vector (interrupts w) < 256) by (destruct Ht as (_ & _ & ?); unfold next_vector, USER_INTERRUPTS_START, MAX_USER_INTERRUPTS in *; lia).
  destruct (entry_taken_ok (hw w) a e Hio) as (h1 & E1 & T1).
  destruct (write_redirect_ok h1 a e (route (next_vector (interrupts w)) low level 0)) as (h2 & E2 & R2 & K2); [done|done|by apply route_bounds|].
  assert (Tk : forall a' e', redirect_at (tab h1) a' e' = redirect_at (tab (hw w)) a' e') by (intros; unfold redirect_at; by rewrite !T1).
  exists (mkWorld h2 i' (cpus w)). split.
  { unfold assign, assign_io_irq, assign_io_irq_custom. rewrite (proj2 (Z.ltb_lt _ _) Hc), (proj2 (Z.ltb_lt _ _) Hi).
    unfold mbind, ST_bind, lift, on_hw, on_interrupts, assert_that. cbv beta iota. rewrite Ee, E1. cbn [hw interrupts cpus].
    rewrite (taken_bits _ (tab (hw w) (io_mmio a) (IO_APIC_REDIRECTION_TABLE + e * 2 + 1))). fold (redirect_at (tab (hw w)) a e). rewrite (Hf e a o Ee). cbn [Z.eqb negb].
    rewrite El, Ep. cbn [hw interrupts cpus]. rewrite Ea. cbn [hw interrupts cpus]. rewrite Ha, route_built by done. cbn [hw interrupts cpus]. by rewrite E2. }
  cbn [interrupts hw]. split_and!; [done|done| | |].
  - intros e' a' o' level' low' Ee' El' Ep'. rewrite Ee in Ee'. injection Ee' as <- <- <-. rewrite El in El'. rewrite Ep in Ep'. injection El' as <-. injection Ep' as <-.
    exists (next_vector (interrupts w)). cbn [hw interrupts]. rewrite Ha. split_and!; [done|destruct Ht as (_ & _ & ?); unfold next_vector; lia|lia|done].
  - intros r' Hl Hd e' a' o' level' low' Ee' El' Ep'. destruct (Hd e' a' o' level' low' Ee' El' Ep') as (v & Rv & Bv & Rr). exists v. cbn [hw interrupts].
    rewrite K2, Tk; [|by eapply entry_nonneg|]. 2: { intros Eq. apply Hl. by rewrite (line_entry r' _ _ _ Ee'), (line_entry r _ _ _ Ee), Eq. }
    split_and!; [done|lia|lia|]. apply Hk; [unfold USER_INTERRUPTS_START in *; lia|lia|done].
  - intros r' Hl Hd e' a' o' Ee'. cbn [hw]. rewrite K2, Tk; [by eapply Hd|by eapply entry_nonneg|]. intros Eq. apply Hl. by rewrite (line_entry r' _ _ _ Ee'), (line_entry r _ _ _ Ee), Eq.
Qed.

(** the assignments of the drivers, one after the other *)
Fixpoint assign_all (rs : list Request) : ST W unit := match rs with [] => mret tt | r :: rs => _ ← assign r; assign_all rs end.
End routing.


(** ** The set-up from the ACPI tables *)
(** the local controller and the registers of the CPU leave the others alone *)
Class LocalLaws (H : Type) (is_io : Z -> Prop) `{IoApicLaws H is_io} `{CpuRegs H} `{PortIo H} (base : Z) : Type := {
  base_msr : H -> Z;
  local_write : forall h i v, 0 <= i < 64 -> exists h', mmio_write (reg_at base i) v h = Ret (tt, h') /\ forall b r, tab h' b r = tab h b r;
  has_apic : forall h, exists x h', cpuid_features h = Ret (x, h') /\ Z.land x FEAT_EDX_APIC <> 0 /\ base_msr h' = base_msr h /\ forall b r, tab h' b r = tab h b r;
  reads_base : forall h, exists h', msr_read APIC_BASE h = Ret (base_msr h, h') /\ base_msr h' = base_msr h /\ forall b r, tab h' b r = tab h b r;
  writes_base : forall h v, exists h', msr_write APIC_BASE v h = Ret (tt, h') /\ base_msr h' = v /\ forall b r, tab h' b r = tab h b r;
  writes_pic : forall h p v, p = 0x21 \/ p = 0xA1 -> exists h', io_out 1 p v h = Ret (tt, h') /\ forall b r, tab h' b r = tab h b r
}.

(** what the entries of the table say *)
Definition enabled (s : InterruptControllerStruct) : bool := match s with ProcessorLocalApicS s => negb (Z.land (la_flags s) 1 =? 0) | _ => false end.
Definition io_of (t : Z -> Z -> Z) (s : InterruptControllerStruct) : option IoApic :=
  match s with
  | IoApicS s => Some (mkIoApicDev (io_apic_id s) (global_system_interrupt_base s) (wrap 8 (Z.shiftr (t (io_apic_address s) IO_APIC_VERSION) 16) + 1) (io_apic_address s))
  | _ => None
  end.
Definition override_of (s : InterruptControllerStruct) : option InterruptSourceOverride := match s with InterruptSourceOverrideS s => Some s | _ => None end.
Definition address_after (a : Z) (s : InterruptControllerStruct) : Z := match s with LocalApicAddressOverrideS s => ao_local_apic_address s | _ => a end.
Definition count_cpus (n : Z) (l : list InterruptControllerStruct) : Z := MAX_CPUS `min` (n + Z.of_nat (length (List.filter enabled l))).

Section setup.
Context {H : Type} `{LocalLaws H is_io base} (cs : Z) (vector_stub : Z -> Z) (Hstub : forall v, 0 <= vector_stub v < 2 ^ 64).
Context (spurious timer error : Z) (Hspur : 0 <= spurious < 2 ^ 64) (Htimer : 0 <= timer < 2 ^ 64) (Herror : 0 <= error < 2 ^ 64).
Implicit Types (w : World H) (h : H) (t : Z -> Z -> Z).
Definition shows t h : Prop := forall b r, tab h b r = t b r.
Definition controller_ok t (s : InterruptControllerStruct) : Prop :=
  match s with
  | IoApicS s => is_io (io_apic_address s) /\ io_apic_address s <> 0 /\ Z.land (io_apic_address s) 0xF = 0 /\ wrap 8 (Z.shiftr (t (io_apic_address s) IO_APIC_VERSION) 16) < 255
  | NonMaskableInterruptS _ => False
  | _ => True
  end.
Lemma io_apic_ok t h s a : shows t h -> controller_ok t (IoApicS s) -> io_of t (IoApicS s) = Some a -> exists h', io_apic_from s h = Ret (a, h') /\ shows t h'.
Proof.
  intros Ht (Hio & Hnz & Hal & Hv) [= <-]. unfold io_apic_from. rewrite (proj2 (Z.eqb_neq _ _) Hnz), (proj2 (Z.eqb_eq _ _) Hal).
  destruct (read_register_ok h (mkIoApicDev (io_apic_id s) (global_system_interrupt_base s) 0 (io_apic_address s)) IO_APIC_VERSION Hio) as (h1 & E1 & T1). cbn [io_mmio] in E1.
  exists h1. split; [|intros b r; by rewrite T1]. unfold mbind, ST_bind, lift, assert_that. cbn [negb]. rewrite E1, Ht, cadd_ret by lia. done.
Qed.
Lemma collect_ok t l : forall c w, Forall (controller_ok t) l -> shows t (hw w) -> 0 <= c_cpus c <= MAX_CPUS ->
  exists w', collect l c w = Ret (mkCollected (count_cpus (c_cpus c) l) (c_io c ++ omap (io_of t) l) (c_overrides c ++ omap override_of l) (foldl address_after (c_address c) l), w') /\
    shows t (hw w') /\ interrupts w' = interrupts w.
Proof.
  induction l as [|s l IH]; intros c w Hl Ht Hc.
  { exists w. cbn [collect]. rewrite !app_nil_r. split_and!; [|done|done]. unfold count_cpus. cbn. rewrite Z.add_0_r, Z.min_r by lia. by destruct c. }
  apply Forall_cons in Hl as [Hs Hl]. destruct s as [s|s|s|s|s|s|ty b]; cbn [collect].
  - unfold count_cpus. cbn [List.filter enabled omap list_omap foldl]. destruct (Z.land (la_flags s) 1 =? 0); cbn [negb]; [by apply IH|]. cbn [length].
    destruct (Z.leb_spec MAX_CPUS (c_cpus c)).
    + destruct (IH c w Hl Ht Hc) as (w' & E & Hw). exists w'. rewrite E. split; [|done]. do 3 f_equal. unfold count_cpus. rewrite !Z.min_l by lia. done.
    + unfold mbind, ST_bind, modify. edestruct IH as (w' & E & Hw); [done| | |exists w'; rewrite E; split; [|exact Hw]]; [done|cbn [c_cpus]; lia|]. cbn [c_cpus c_io c_overrides c_address]. unfold count_cpus. do 3 f_equal. lia.
  - unfold mbind, ST_bind, on_hw. destruct (io_apic_ok t (hw w) s _ Ht Hs eq_refl) as (h1 & E1 & T1). rewrite E1.
    edestruct IH as (w' & E & Hw & Hi); [done| | |exists w'; rewrite E; split; [|split; [exact Hw|exact Hi]]]; [done|done|]. cbn [c_cpus c_io c_overrides c_address]. by rewrite <- app_assoc.
  - edestruct IH as (w' & E & Hw & Hi); [done|exact Ht| |exists w'; rewrite E; split; [|split; [exact Hw|exact Hi]]]; [done|]. cbn [c_cpus c_io c_overrides c_address]. by rewrite <- app_assoc.
  - done.
  - by apply IH.
  - edestruct IH as (w' & E & Hw & Hi); [done|exact Ht| |exists w'; rewrite E; split; [|split; [exact Hw|exact Hi]]]; [done|]. done.
  - by apply IH.
Qed.

(** every entry is masked, without a vector *)
Definition silent (l : list IoApic) h : Prop := forall a e, a ∈ l -> 0 <= e < n_entries a -> redirect_at (tab h) a e = 2 ^ 16.
Lemma reset_entries_ok a n : forall h i, is_io (io_mmio a) -> 0 <= i -> exists h', reset_entries a n i h = Ret (tt, h') /\
  (forall a' e, 0 <= e -> redirect_at (tab h') a' e = if decide (io_mmio a' = io_mmio a /\ i <= e < i + Z.of_nat n) then 2 ^ 16 else redirect_at (tab h) a' e).
Proof.
  induction n as [|n IH]; intros h i Ha Hi; cbn [reset_entries].
  { exists h. split; [done|]. intros a' e He. by rewrite decide_False by lia. }
  change (with_mask true (with_vector 0 0)) with (2 ^ 16). destruct (write_redirect_ok h a i (2 ^ 16)) as (h1 & E1 & R1 & K1); [done|done|lia|].
  destruct (IH h1 (i + 1)) as (h2 & E2 & R2); [done|lia|]. exists h2. unfold mbind, ST_bind. rewrite E1. split; [done|]. intros a' e He. rewrite R2 by done.
  destruct (decide (io_mmio a' = io_mmio a /\ i + 1 <= e < i + 1 + Z.of_nat n)) as [[E' ?]|Hn]; [by rewrite decide_True by (split; [done|lia])|].
  destruct (decide (io_mmio a' = io_mmio a /\ e = i)) as [[E' ->]|Hn2].
  - rewrite decide_True by (split; [done|lia]). unfold redirect_at in *. by rewrite E'.
  - rewrite decide_False by (intros [? ?]; destruct (decide (e = i)); [by apply Hn2|apply Hn; split; [done|lia]]). apply K1; [done|]. intros [= E1' E2']. by apply Hn2.
Qed.
Lemma reset_all_ok l : forall h, Forall (fun a => is_io (io_mmio a) /\ 0 <= n_entries a) l -> exists h', reset_all l h = Ret (tt, h') /\ silent l h' /\
  (forall a e, 0 <= e -> redirect_at (tab h) a e = 2 ^ 16 -> redirect_at (tab h') a e = 2 ^ 16).
Proof.
  induction l as [|a l IH]; intros h Hl; cbn [reset_all].
  { exists h. split_and!; [done|by intros a e Ha%elem_of_nil|done]. }
  apply Forall_cons in Hl as [[Ha Hn] Hl]. destruct (reset_entries_ok a (Z.to_nat (n_entries a)) h 0) as (h1 & E1 & R1); [done|done|].
  destruct (IH h1 Hl) as (h2 & E2 & S2 & K2). exists h2. unfold mbind, ST_bind, reset_all_interrupts. rewrite E1. split; [done|]. split.
  - intros a' e Ha' He. apply elem_of_cons in Ha' as [->|Ha']; [|by apply S2]. apply K2; [lia|]. rewrite R1 by lia. by rewrite decide_True by (split; [done|lia]).
  - intros a' e He Hm. apply K2; [done|]. rewrite R1 by done. by case_decide.
Qed.

Lemma enable_bit x : Z.land (Z.lor x APIC_BAR_ENABLED) APIC_BAR_ENABLED <> 0.
Proof. intros E. assert (Z.testbit (Z.land (Z.lor x APIC_BAR_ENABLED) APIC_BAR_ENABLED) 11 = true) as Hb by (by rewrite Z.land_spec, Z.lor_spec, orb_true_r). by rewrite E in Hb. Qed.
Lemma local_address_ok t h : shows t h -> exists x h', local_address h = Ret (x, h') /\ shows t h'.
Proof.
  intros Ht. unfold local_address. destruct (has_apic h) as (x & h1 & E1 & Hx & B1 & T1). destruct (reads_base h1) as (h2 & E2 & B2 & T2).
  unfold mbind, ST_bind. rewrite E1, (proj2 (Z.eqb_neq _ _) Hx), E2. destruct (Z.land (base_msr h1) APIC_BAR_ENABLED =? 0).
  - destruct (writes_base h2 (Z.lor (base_msr h1) APIC_BAR_ENABLED)) as (h3 & E3 & B3 & T3). destruct (reads_base h3) as (h4 & E4 & B4 & T4). rewrite E3, E4, B3.
    unfold lift, assert_that. rewrite (proj2 (Z.eqb_neq _ _) (enable_bit _)). eexists _, h4. split; [reflexivity|]. intros b r. by rewrite T4, T3, T2, T1.
  - eexists _, h2. split; [reflexivity|]. intros b r. by rewrite T2, T1.
Qed.
(** the set-up of the local controller keeps the tables in order, counts vectors, and leaves the I/O controllers alone *)
Definition keeps t (n : Z) w : Prop := tables_ok (interrupts w) /\ last_used_user_interrupt (interrupts w) = n /\ shows t (hw w).
Lemma wp_local self w i v t n (Q : unit -> World H -> Prop) : mmio self = base -> 0 <= i < 64 -> keeps t n w -> (forall w', keeps t n w' -> Q tt w') -> wp False (write_local self i v) w Q.
Proof.
  intros Hm Hi (K1 & K2 & K3) HQ. unfold wp, write_local, on_hw. rewrite Hm. destruct (local_write (hw w) i v Hi) as (h' & E & T). rewrite E. apply HQ.
  split_and!; [done|done|]. intros b r. cbn [hw]. by rewrite T.
Qed.
Lemma wp_alloc_interrupt w hd t n (Q : Z -> World H -> Prop) : n < MAX_USER_INTERRUPTS -> 0 <= address_of hd < 2 ^ 64 -> keeps t n w -> (forall v w', keeps t (n + 1) w' -> Q v w') ->
  wp False (on_interrupts (allocate_user_interrupt cs vector_stub hd)) w Q.
Proof.
  intros Hm Ha (K1 & K2 & K3) HQ. destruct (allocated cs vector_stub Hstub (interrupts w) hd) as (i' & E & Ht' & Hn & _); [done|lia|done|].
  unfold wp, on_interrupts. rewrite E. apply HQ. split_and!; [done| |done]. cbn [interrupts]. unfold next_vector in Hn. lia.
Qed.
Lemma wp_local_setup self w t n (Q : Apic -> World H -> Prop) : mmio self = base -> n + 3 <= MAX_USER_INTERRUPTS -> keeps t n w -> (forall w', keeps t (n + 3) w' -> Q self w') ->
  wp False (_ ← initialize_spurious_interrupt cs spurious self; _ ← disable_local_interrupts self; _ ← initialize_timer cs vector_stub timer self;
    _ ← setup_error_interrupt cs error self; _ ← return_from_interrupt self; mret self) w Q.
Proof.
  intros Hm Hn K HQ. apply wp_bind, wp_bind, (wp_alloc_interrupt w (Basic spurious) t n); [lia|done|done|]. intros v1 w1 K1.
  eapply wp_local; [done|done|exact K1|]. intros w2 K2. apply wp_bind, wp_bind. eapply wp_local; [done|done|exact K2|]. intros w3 K3. eapply wp_local; [done|done|exact K3|]. intros w4 K4.
  apply wp_bind, wp_bind, (wp_alloc_interrupt w4 (AllState timer) t (n + 1)); [lia|done|done|]. intros v2 w5 K5. apply wp_bind. eapply wp_local; [done|done|exact K5|]. intros w6 K6.
  apply wp_bind. eapply wp_local; [done|done|exact K6|]. intros w7 K7. eapply wp_local; [done|done|exact K7|]. intros w8 K8.
  apply wp_bind, wp_bind. eapply wp_local; [done|done|exact K8|]. intros w9 K9. apply wp_bind. eapply wp_local; [done|done|exact K9|]. intros w10 K10.
  apply wp_bind, (wp_alloc_interrupt w10 (Basic error) t (n + 1 + 1)); [lia|done|done|]. intros v3 w11 K11. eapply wp_local; [done|done|exact K11|]. intros w12 K12.
  apply wp_bind. eapply wp_local; [done|done|exact K12|]. intros w13 K13. apply wp_ret, HQ. by replace (n + 3) with (n + 1 + 1 + 1) by lia.
Qed.

(** the controller that the table describes *)
Definition described t (madt : Acpi.Apic) : Apic :=
  mkApicDev base (count_cpus 0 (interrupt_controller_structs madt)) (omap (io_of t) (interrupt_controller_structs madt)) (omap override_of (interrupt_controller_structs madt)).
Definition madt_ok t (madt : Acpi.Apic) : Prop :=
  Forall (controller_ok t) (interrupt_controller_structs madt) /\ 0 < count_cpus 0 (interrupt_controller_structs madt) /\
  omap (io_of t) (interrupt_controller_structs madt) <> [] /\ foldl address_after (local_apic_address madt) (interrupt_controller_structs madt) = base /\
  base <> 0 /\ Z.land base 0xF = 0.
Lemma described_io t madt a : madt_ok t madt -> a ∈ io_apics (described t madt) -> is_io (io_mmio a) /\ 0 <= n_entries a < 256.
Proof.
  intros (Hc & _) Ha. cbn [described io_apics] in Ha. apply list_elem_of_omap in Ha as (s & Hs & Es). rewrite Forall_forall in Hc. specialize (Hc s Hs).
  destruct s; try done. cbn in Es. injection Es as <-. destruct Hc as (Hio & _ & _ & Hv). cbn [io_mmio n_entries]. split; [done|].
  unfold wrap in *. pose proof (Z.mod_pos_bound (Z.shiftr (t (io_apic_address s) IO_APIC_VERSION) 16) (2 ^ 8)). lia.
Qed.
Lemma wp_apic_init w t n tables madt (Q : Apic -> World H -> Prop) : madt_ok t madt -> get_apic (entries (bios_rsdt tables)) = Some madt ->
  keeps t n w -> n + 3 <= MAX_USER_INTERRUPTS ->
  (forall w', tables_ok (interrupts w') -> last_used_user_interrupt (interrupts w') = n + 3 -> silent (io_apics (described t madt)) (hw w') -> Q (described t madt) w') ->
  wp False (init cs vector_stub spurious timer error tables) w Q.
Proof.
  intros Hok Hg (K1 & K2 & K3) Hn HQ. pose proof Hok as (Hc & Hcpu & Hio & Haddr & Hb0 & Hba). unfold init, disable_pic.
  destruct (writes_pic (hw w) 0x21 0xFF) as (h1 & E1 & T1); [tauto|]. destruct (writes_pic h1 0xA1 0xFF) as (h2 & E2 & T2); [tauto|].
  destruct (local_address_ok t h2) as (x & h3 & E3 & T3); [intros b r; by rewrite T2, T1|]. set (l := interrupt_controller_structs madt) in *.
  destruct (collect_ok t l (mkCollected 0 [] [] (local_apic_address madt)) (mkWorld h3 (interrupts w) (cpus w))) as (w4 & E4 & T4 & I4); [done|done|done|]. cbn [c_cpus c_io c_overrides c_address app interrupts] in E4, I4.
  destruct (reset_all_ok (omap (io_of t) l) (hw w4)) as (h5 & E5 & S5 & _). { apply Forall_forall. intros a Ha. destruct (described_io t madt a Hok Ha) as [? ?]. split; [done|lia]. }
  apply wp_bind. unfold wp at 1, on_hw, mbind at 1, ST_bind at 1. rewrite E1, E2. unfold new. apply wp_bind. unfold wp at 1, on_hw at 1. cbn [hw]. rewrite E3.
  apply wp_bind. eapply wp_lift_ret; [by rewrite Hg|]. assert ((if negb (local_apic_address madt =? x) then local_apic_address madt else x) = local_apic_address madt) as ->.
  { destruct (Z.eqb_spec (local_apic_address madt) x); cbn; congruence. }
  apply wp_bind. unfold wp at 1. cbn [interrupts cpus]. fold l. rewrite E4. cbn [c_cpus c_io c_overrides c_address]. rewrite Haddr.
  apply wp_bind, wp_assert; [by apply Z.ltb_lt|]. apply wp_bind, wp_assert; [by destruct (omap (io_of t) l)|]. apply wp_bind, wp_assert; [by rewrite (proj2 (Z.eqb_neq _ _) Hb0)|].
  apply wp_bind, wp_assert; [by apply Z.eqb_eq|]. apply wp_bind. unfold wp at 1, on_hw. rewrite E5.
  apply (wp_local_setup _ _ (tab h5) n); [done|done|split_and!; [by rewrite <- I4 in K1|by cbn [interrupts]; rewrite I4|done]|].
  intros w' (R1 & R2 & R3). apply HQ; [done|done|]. intros a e Ha He. unfold redirect_at. rewrite !R3. by apply S5.
Qed.
End setup.

(** the controller a line leads to is one of the list, and the entry one of its own *)
Lemma find_io_in num l a : find_io num l = Ret (Some a) -> a ∈ l /\ global_irq_base a <= num < global_irq_base a + n_entries a.
Proof.
  induction l as [|b l IH]; cbn [find_io]; [done|]. destruct (Z.leb_spec (global_irq_base b) num).
  - unfold cadd. destruct (Z.ltb_spec (global_irq_base b + n_entries b) (2 ^ 32)); cbn [mbind outcome_bind]; [|done].
    destruct (Z.ltb_spec num (global_irq_base b + n_entries b)); [intros [= <-]; split; [apply list_elem_of_here|lia]|]. intros [? ?]%IH. split; [by apply list_elem_of_further|done].
  - intros [? ?]%IH. split; [by apply list_elem_of_further|done].
Qed.
Lemma silent_free {H : Type} `{IoApicLaws H is_io} self (w : World H) r : (forall a, a ∈ io_apics self -> n_entries a < 256) -> silent (io_apics self) (hw w) -> free self w r.
Proof.
  intros Hn Hs e a o. unfold get_irq_ioapic_entry. set (num := match _ with Some o => _ | None => _ end). clearbody num. destruct (find_io num (io_apics self)) as [[b|]| |] eqn:E; cbn; [|done..].
  intros [= <- <- _]. apply find_io_in in E as [Hb Hr]. specialize (Hn b Hb). unfold wrap. assert ((num - global_irq_base b) mod 2 ^ 8 = num - global_irq_base b) as -> by (apply Z.mod_small; lia). rewrite Hs; [done|done|lia].
Qed.

(** any sequence of assignments of free, different lines *)
Lemma assignments_deliver {H : Type} `{IoApicLaws H is_io} cs vector_stub self (w : World H) rs :
  (forall v, 0 <= vector_stub v < 2 ^ 64) -> tables_ok (interrupts w) -> last_used_user_interrupt (interrupts w) + Z.of_nat (length rs) <= MAX_USER_INTERRUPTS ->
  Forall (request_found (is_io := is_io) self) rs -> Forall (free self w) rs -> NoDup (line self <$> rs) ->
  exists w', assign_all cs vector_stub self rs w = Ret (tt, w') /\ Forall (entry_delivers cs vector_stub self w') rs.
Proof.
  intros Hstub. 
  enough (Hgen : forall w done_, tables_ok (interrupts w) -> last_used_user_interrupt (interrupts w) + Z.of_nat (length rs) <= MAX_USER_INTERRUPTS ->
    Forall (request_found (is_io := is_io) self) rs -> Forall (free self w) rs -> NoDup (line self <$> rs) -> Forall (entry_delivers cs vector_stub self w) done_ -> Forall (fun r => line self r ∉ line self <$> rs) done_ ->
    exists w', assign_all cs vector_stub self rs w = Ret (tt, w') /\ Forall (entry_delivers cs vector_stub self w') (done_ ++ rs)).
  { intros Ht Hn Hok Hf Hnd. by apply (Hgen w []). }
  clear w. induction rs as [|r rs IH]; intros w done_ Ht Hn Hok Hf Hnd Hd Hdl.
  { exists w. by rewrite app_nil_r. }
  apply Forall_cons in Hok as [Ok1 Hok]. apply Forall_cons in Hf as [F1 Hf]. cbn [fmap list_fmap] in Hnd, Hdl. apply NoDup_cons in Hnd as [Nd Hnd]. cbn [length] in Hn.
  destruct (assign_ok cs vector_stub Hstub self w r) as (w1 & E1 & T1 & N1 & D1 & K1 & K2); [done|lia|done|done|].
  destruct (IH w1 (done_ ++ [r])) as (w2 & E2 & D2).
  - done.
  - unfold next_vector in N1. lia.
  - done.
  - rewrite Forall_forall in *. intros r' Hr'. apply K2; [|by apply Hf]. intros E. apply Nd. rewrite <- E. by apply list_elem_of_fmap_2.
  - done.
  - apply Forall_app. split; [|by constructor]. rewrite Forall_forall in *. intros r' Hr'. apply K1; [|by apply Hd]. intros E. specialize (Hdl r' Hr'). apply Hdl. rewrite E. apply list_elem_of_here.
  - apply Forall_app. split; [|by constructor]. rewrite Forall_forall in *. intros r' Hr' Hin. apply (Hdl r' Hr'). by apply list_elem_of_further.
  - exists w2. cbn [assign_all]. unfold mbind, ST_bind. rewrite E1. split; [done|]. by rewrite <- app_assoc in D2.
Qed.

(** ** What the tables ask for *)
Section lines.
Context (self : Apic).
(** the first override for the line of a bus, and the global number of the line *)
Definition override_for (irq : Z) : option InterruptSourceOverride := List.find (fun o => ov_source o =? irq) (source_overrides self).
Definition gsi (irq : Z) : Z := match override_for irq with Some o => ov_global_system_interrupt o | None => irq end.
(** it leads to entry [e] of controller [a] *)
Definition leads (irq e : Z) (a : IoApic) : Prop := a ∈ io_apics self /\ global_irq_base a <= gsi irq < global_irq_base a + n_entries a /\ e = gsi irq - global_irq_base a.
(** trigger and polarity: lines of the bus are edge-triggered and active-high;
    an override says otherwise in its flags, the polarity in bits 0 and 1, the
    trigger in bits 2 and 3 (1: high, edge; 3: low, level; a trigger of 0 is
    that of the bus) *)
Definition signal (irq : Z) (level low : bool) : Prop :=
  match override_for irq with
  | None => level = false /\ low = false
  | Some o =>
      ((ov_flags o / 4) mod 4 = 0 /\ level = false \/ (ov_flags o / 4) mod 4 = 1 /\ level = false \/ (ov_flags o / 4) mod 4 = 3 /\ level = true) /\
      (ov_flags o mod 4 = 1 /\ low = false \/ ov_flags o mod 4 = 3 /\ low = true)
  end.
(** the controllers do not share registers or lines *)
Definition controllers_apart : Prop :=
  ForallOrdPairs (fun a b => io_mmio a <> io_mmio b /\ (global_irq_base a + n_entries a <= global_irq_base b \/ global_irq_base b + n_entries b <= global_irq_base a)) (io_apics self) /\
  Forall (fun a => global_irq_base a + n_entries a < 2 ^ 32 /\ n_entries a < 256) (io_apics self).

Lemma override_found irq : snd <$> list_find (fun o => ov_source o = irq) (source_overrides self) = override_for irq.
Proof.
  unfold override_for. induction (source_overrides self) as [|o l IH]; [done|]. cbn [list_find List.find]. destruct (Z.eqb_spec (ov_source o) irq) as [E|E].
  - by rewrite decide_True.
  - rewrite decide_False by done. rewrite <- IH. by destruct (list_find _ l) as [[i x]|].
Qed.
Lemma leads_found irq e a : controllers_apart -> leads irq e a -> get_irq_ioapic_entry self irq = Ret (Some (e, a, override_for irq)).
Proof.
  intros [Hd Hb] (Ha & Hg & ->). unfold get_irq_ioapic_entry. rewrite override_found. fold (gsi irq).
  assert (Hf : find_io (gsi irq) (io_apics self) = Ret (Some a)).
  { clear -Hd Hb Ha Hg. induction (io_apics self) as [|b l IH]; [by apply elem_of_nil in Ha|]. cbn [find_io]. apply Forall_cons in Hb as [[Hb1 _] Hb].
    inversion Hd as [|? ? Hbl Hd']; subst. apply elem_of_cons in Ha as [->|Ha].
    - rewrite (proj2 (Z.leb_le _ _)) by lia. rewrite cadd_ret by lia. cbn [mbind outcome_bind]. by rewrite (proj2 (Z.ltb_lt _ _)) by lia.
    - rewrite Forall_forall in Hbl. destruct (Hbl a Ha) as [_ Hs]. destruct (Z.leb_spec (global_irq_base b) (gsi irq)); [|by apply IH].
      rewrite cadd_ret by lia. cbn [mbind outcome_bind]. rewrite (proj2 (Z.ltb_ge _ _)) by lia. by apply IH. }
  rewrite Hf. cbn [mbind outcome_bind]. rewrite Forall_forall in Hb. destruct (Hb a Ha) as [_ Hn]. unfold wrap. rewrite Z.mod_small by lia. done.
Qed.
Lemma leads_apart irq irq' e e' a a' : controllers_apart -> leads irq e a -> leads irq' e' a' -> gsi irq <> gsi irq' -> (io_mmio a, e) <> (io_mmio a', e').
Proof.
  intros [Hd _] (Ha & Hg & ->) (Ha' & Hg' & ->) Hne [= Hm He]. assert (a = a') as <-; [|lia].
  revert Ha Ha' Hm. clear -Hd. induction Hd as [|b l Hbl Hd IH]; [by intros ?%elem_of_nil|]. rewrite Forall_forall in Hbl.
  intros [->|Ha]%elem_of_cons [->|Ha']%elem_of_cons Hm; [done|by destruct (Hbl a' Ha') as [? _]|by destruct (Hbl a Ha) as [? _]|by apply IH].
Qed.
Lemma signal_bits irq level low : signal irq level low -> trigger_mode_level (override_for irq) = Ret level /\ polarity_low (override_for irq) = Ret low.
Proof.
  unfold signal, trigger_mode_level, polarity_low. destruct (override_for irq) as [o|]; [|by intros [-> ->]].
  assert (Hl : forall x, Z.land x 3 = x mod 4) by (intros x; exact (Z.land_ones x 2 ltac:(lia))). rewrite !Hl, Z.shiftr_div_pow2 by lia. change (2 ^ 2) with 4.
  intros [[[-> ->]|[[-> ->]|[-> ->]]] [[-> ->]|[-> ->]]]; done.
Qed.
End lines.

Section promises.
Context {H : Type} `{IoApicLaws H is_io} (cs : Z) (vector_stub : Z -> Z) (self : Apic).
(** what may be asked for: a line that exists, with flags that say its polarity,
    for the CPU whose local controller has the number 0 *)
Definition request_ok (r : Request) : Prop :=
  cpu_id (rq_cpu r) < n_cpus self /\ rq_irq r < 24 /\ cpu_apic_id (rq_cpu r) = 0 /\ 0 <= address_of (rq_handler r) < 2 ^ 64 /\
  (exists e a, leads self (rq_irq r) e a) /\ exists level low, signal self (rq_irq r) level low.
(** an interrupt on the line is delivered to the CPU as a vector that runs the
    handler, triggered as the tables say *)
Definition delivers (w : World H) (r : Request) : Prop := forall e a level low, leads self (rq_irq r) e a -> signal self (rq_irq r) level low ->
  exists v, redirect_at (tab (hw w)) a e = route v low level (cpu_apic_id (rq_cpu r)) /\ USER_INTERRUPTS_START <= v < next_vector (interrupts w) /\
    runs cs vector_stub (interrupts w) v (rq_handler r).
Lemma request_is_found r : controllers_apart self -> (forall a, a ∈ io_apics self -> is_io (io_mmio a)) -> request_ok r -> request_found (is_io := is_io) self r.
Proof.
  intros Hap Hio (R1 & R2 & R3 & R4 & (e & a & Hl) & level & low & Hs). destruct (signal_bits _ _ _ _ Hs) as [Et Ep]. pose proof Hl as (Ha & Hg & ->).
  split_and!; try done; [lia|lia|]. eexists _, a, _, level, low. split_and!; [by apply leads_found|by apply Hio|lia|done|done].
Qed.
Lemma delivers_entry w r : controllers_apart self -> entry_delivers cs vector_stub self w r -> delivers w r.
Proof. intros Hap Hd e a level low Hl Hs. destruct (signal_bits _ _ _ _ Hs). eapply Hd; [by apply leads_found|done|done]. Qed.
End promises.

(** C35: Interrupts reach their handlers: the set-up takes the CPUs, the
    controllers and the overrides of the ACPI table, masks every line and
    programs the local controller; and after any sequence of assignments of
    different lines to handlers, on the CPU whose local controller has the
    number 0, every one of these lines, at the entry where the overrides and
    the ranges of the controllers put it, raises a vector of its own, edge or
    level and high or low as the overrides ask for, on that CPU, and the
    descriptor of the vector runs exactly the handler.  The controllers do
    not share registers or lines, and the overrides of the lines say their
    polarity. *)
Theorem interrupts_reach_handlers {H : Type} `{LocalLaws H is_io base} cs vector_stub spurious timer error (w : World H) t n tables madt rs :
  (forall v, 0 <= vector_stub v < 2 ^ 64) -> 0 <= spurious < 2 ^ 64 -> 0 <= timer < 2 ^ 64 -> 0 <= error < 2 ^ 64 ->
  madt_ok (is_io := is_io) (base := base) t madt -> get_apic (entries (bios_rsdt tables)) = Some madt -> keeps t n w -> n + 3 + Z.of_nat (length rs) <= MAX_USER_INTERRUPTS ->
  let self := described (base := base) t madt in
  controllers_apart self -> Forall (request_ok self) rs -> NoDup ((fun r => gsi self (rq_irq r)) <$> rs) ->
  exists w1 w2, init cs vector_stub spurious timer error tables w = Ret (self, w1) /\ silent (io_apics self) (hw w1) /\
    assign_all cs vector_stub self rs w1 = Ret (tt, w2) /\ Forall (delivers cs vector_stub self w2) rs.
Proof.
  intros Hstub Hsp Hti Her Hok Hg K Hn self Hap Hrs Hnd.
  destruct (wp_total (init cs vector_stub spurious timer error tables) w (fun s w' => s = self /\ tables_ok (interrupts w') /\ last_used_user_interrupt (interrupts w') = n + 3 /\ silent (io_apics self) (hw w')))
    as (s & w1 & E & -> & T1 & L1 & S1). { apply (wp_apic_init cs vector_stub Hstub spurious timer error Hsp Hti Her w t n tables madt); [done|done|done|lia|]. done. }
  assert (Hio : forall a, a ∈ io_apics self -> is_io (io_mmio a)) by (intros a Ha; by apply (described_io t madt a Hok)).
  destruct (assignments_deliver cs vector_stub self w1 rs) as (w2 & E2 & D2); [done|done|lia| | | |].
  - eapply Forall_impl; [exact Hrs|]. intros r Hr. by apply request_is_found.
  - apply Forall_forall. intros r _. apply silent_free; [|done]. intros a Ha. by apply (described_io t madt a Hok).
  - clear -Hap Hrs Hnd. induction Hrs as [|r rs Hr Hrs IH]; [constructor|]. cbn [fmap list_fmap] in *. apply NoDup_cons in Hnd as [Hr' Hnd]. constructor; [|by apply IH].
    intros Hin. apply list_elem_of_fmap in Hin as (r' & El & Hin). apply Hr'. apply list_elem_of_fmap. exists r'. split; [|done].
    destruct (decide (gsi self (rq_irq r) = gsi self (rq_irq r'))) as [|Hne]; [done|]. exfalso. rewrite Forall_forall in Hrs.
    destruct Hr as (_ & _ & _ & _ & (e & a & Hl) & _). destruct (Hrs r' Hin) as (_ & _ & _ & _ & (e' & a' & Hl') & _).
    rewrite (line_entry self r _ _ _ (leads_found self _ _ _ Hap Hl)), (line_entry self r' _ _ _ (leads_found self _ _ _ Hap Hl')) in El.
    injection El as E1 E2. apply (leads_apart self _ _ _ _ _ _ Hap Hl Hl' Hne). congruence.
  - exists w1, w2. split_and!; try done. eapply Forall_impl; [exact D2|]. intros r. by apply delivers_entry.
Qed.

(** ** Segments and stacks *)
(** The descriptor of the task state holds its address, in four pieces. *)
Lemma tss_address p : 0 <= p < 2 ^ 64 -> let d := Gdt.tss_descriptor p in
  Gdt.s_base_low d + Gdt.s_base_middle d * 2 ^ 16 + Gdt.s_base_high d * 2 ^ 24 + Gdt.base_upper d * 2 ^ 32 = p.
Proof.
  intros Hp d. unfold d, Gdt.tss_descriptor. cbn [Gdt.s_base_low Gdt.s_base_middle Gdt.s_base_high Gdt.base_upper].
  change 0xFFFF with (2 ^ 16 - 1). change 0xFFFFFFFF with (2 ^ 32 - 1). change 0xFF with (2 ^ 8 - 1). rewrite !land_mask, !Z.shiftr_div_pow2 by lia.
  change (2 ^ 8) with 256. change (2 ^ 16) with 65536. change (2 ^ 24) with 16777216. change (2 ^ 32) with 4294967296. change (2 ^ 64) with 18446744073709551616 in Hp. dlia.
Qed.
(** The stacks of the interrupts exist, and a page that is not mapped lies below each. *)
Lemma stacks_apart i j : 0 <= i < j -> j < 7 -> exists si pi sj pj, Gdt.interrupt_stack i = Ret (si, pi) /\ Gdt.interrupt_stack j = Ret (sj, pj) /\
  pi = si + INTR_STACK_SIZE - 8 /\ si + INTR_STACK_SIZE + PAGE_4K <= sj.
Proof.
  intros Hi Hj. assert (i ∈ seqZ 0 7 /\ j ∈ seqZ 0 7) as [Hi' Hj'] by (split; apply elem_of_seqZ; lia). vm_compute in Hi', Hj'.
  repeat (apply elem_of_cons in Hi' as [->|Hi']; [|]); [..|by apply elem_of_nil in Hi'];
    (repeat (apply elem_of_cons in Hj' as [->|Hj']; [|]); [..|by apply elem_of_nil in Hj']); try lia;
    (eexists _, _, _, _; split; [vm_compute; reflexivity|]; split; [vm_compute; reflexivity|]; split; vm_compute; congruence).
Qed.

Module ApicDemo.
(** one I/O controller of 24 lines, and a local one *)
Definition IO : Z := 0xFEC00000.
Definition LOCAL : Z := 0xFEE00000.
Record Hw : Type := mkHw { selected : Z; file : Z -> Z -> Z; msr : Z }.
#[export] Instance hw_mmio : Mmio Hw := {
  mmio_read p := fun h => Ret (if p =? reg_at IO 1 then file h IO (selected h) else 0, h);
  mmio_write p v := fun h =>
    Ret (tt, if p =? reg_at IO 0 then mkHw v (file h) (msr h)
             else if p =? reg_at IO 1 then mkHw (selected h) (fun b' r => if decide (b' = IO /\ r = selected h) then v else file h b' r) (msr h) else h)
}.
#[export] Instance hw_cpu : CpuRegs Hw := { cpuid_features := fun h => Ret (FEAT_EDX_APIC, h); msr_read _ := fun h => Ret (msr h, h); msr_write _ v := fun h => Ret (tt, mkHw (selected h) (file h) v) }.
#[export] Instance hw_ports : PortIo Hw := { io_in _ _ := mret 0; io_out _ _ _ := mret tt }.
Definition is_io (b : Z) : Prop := b = IO.
#[export] Program Instance hw_io : IoApicLaws Hw is_io := { sel h _ := selected h; tab := file }.
Next Obligation. intros h b v ->. by eexists. Qed.
Next Obligation. intros h b ->. by eexists. Qed.
Next Obligation. intros h b v -> _. eexists. split; [reflexivity|]. done. Qed.
#[export] Program Instance hw_local : LocalLaws Hw is_io LOCAL := { base_msr := msr }.
Next Obligation.
  intros h i v Hi. eexists. split; [reflexivity|]. unfold reg_at, IO, LOCAL. by rewrite !(proj2 (Z.eqb_neq _ _)) by lia.
Qed.
Next Obligation. intros h. by eexists _, _. Qed.
Next Obligation. intros h. by eexists. Qed.
Next Obligation. intros h v. by eexists. Qed.
Next Obligation. intros h p v _. by eexists. Qed.

(** two CPUs; the timer is on line 2, the interrupt of the ACPI is level-triggered *)
Definition madt : Acpi.Apic := mkApic LOCAL 1
  [ProcessorLocalApicS (mkLocalApic 0 0 1); ProcessorLocalApicS (mkLocalApic 1 1 1); IoApicS (mkIoApic 0 0 IO 0);
   InterruptSourceOverrideS (mkOverride 0 0 2 5); InterruptSourceOverrideS (mkOverride 0 9 9 13)].
Definition header : DescriptionHeader := mkDescription [] 0 0 0 [] [] 0 0 0.
Definition tables : BiosTables := mkBios (mkRsdp [] 0 [] 0 0 0 0 0 []) (mkRsdt header [mkTable header (ApicT madt)]).
Definition start : World Hw := mkWorld (mkHw 0 (fun _ r => if r =? 1 then 0x170011 else 0) (Z.lor LOCAL APIC_BAR_ENABLED)) (mkInterrupts (repeat empty 256) 0 (repeat None 256)) (repeat (mkCpu 0 0) 8).
Definition stub (v : Z) : Z := (v * 16) mod 2 ^ 64.
(** keyboard, timer and the ACPI *)
Definition requests : list Request := [mkRequest 1 (Basic 0x1000) (mkCpu 0 0); mkRequest 0 (AllState 0x2000) (mkCpu 0 0); mkRequest 9 (Basic 0x3000) (mkCpu 0 0)].
Lemma stub_ok v : 0 <= stub v < 2 ^ 64.
Proof. unfold stub. apply Z.mod_pos_bound. lia. Qed.
Lemma interrupts_reach_handlers_witness : let self := described (base := LOCAL) (file (hw start)) madt in exists w1 w2,
  init 8 stub 0x100 0x200 0x300 tables start = Ret (self, w1) /\ silent (io_apics self) (hw w1) /\
  assign_all 8 stub self requests w1 = Ret (tt, w2) /\ Forall (delivers 8 stub self w2) requests.
Proof.
  intros self. apply (interrupts_reach_handlers (is_io := is_io) (base := LOCAL) 8 stub 0x100 0x200 0x300 start (file (hw start)) 0 tables madt requests).
  - exact stub_ok.
  - done.
  - done.
  - done.
  - split_and!; [|vm_compute; reflexivity|done|done|done|done]. repeat constructor; try done; vm_compute; congruence.
  - done.
  - split_and!; [split_and!; done|done|done].
  - done.
  - split; [repeat constructor|]. constructor; [split; by vm_compute|constructor].
  - set (a := mkIoApicDev 0 0 24 IO).
    assert (Ha : io_apics self = [a]) by (vm_compute; reflexivity).
    assert (Hl : forall irq, 0 <= gsi self irq < 24 -> exists e b, leads self irq e b).
    { intros irq Hg. exists (gsi self irq - 0), a. split; [rewrite Ha; by apply list_elem_of_singleton|]. split; [exact Hg|done]. }
    unfold requests. repeat apply Forall_cons_2; try apply Forall_nil_2; do 4 (split; [by vm_compute|]); (split; [apply Hl; by vm_compute|]).
    + by exists false, false.
    + exists false, false. split; [right; left|left]; by vm_compute.
    + exists true, false. split; [right; right|left]; by vm_compute.
  - apply (bool_decide_unpack _). vm_compute. exact I.
Defined.
(** The destination of an entry is in its bits 56 to 63; the builder writes the
    identifier of the CPU from bit 59 on, so that CPU 1 is addressed as CPU 8. *)
Lemma destination_misplaced : with_destination (Physical 1) 0 = Ret (Z.shiftl 8 56).
Proof. reflexivity. Qed.
(** An override whose polarity conforms to the bus, which is active-high, is
    programmed active-low; without the override the line is active-high. *)
Lemma bus_polarity_inverted : polarity_low (Some (mkOverride 0 0 2 0)) = Ret true /\ polarity_low None = Ret false.
Proof. done. Qed.
End ApicDemo.
