(* ===== verification/Once.v ===== *)
(** * Cells that are initialised once

    Models [kernel/src/sync/once.rs] ([emerald_std/src/sync/once.rs] is the
    same code without [get]): [Once] with its three states, and [OnceLock]
    over it.  Any number of calls run at the same time, interleaved at every
    access to the state and to the value; an initialiser that uses its own
    cell is one more call.

    The orderings of the accesses are modelled.  The state only moves forward,
    and a load may return any state not older than the newest its thread has
    seen; the weak compare-exchange may fail at any time, and succeeds on the
    newest state only.  A load that acquires and finds the cell done makes the
    write of the value, which the release before it published, visible to its
    thread; a relaxed one does so only on a machine that orders every load, as
    the processors this kernel runs on do ([strong]).  A reference taken to
    the value while its write is not visible is the answer [Unordered]. *)
From S2P Require Import Prelude UserLink Locks.
Import Locks.SpinLocks.

Module Once.
Definition ONCE_STATE_INIT : Z := 0.
Definition ONCE_STATE_RUNNING : Z := 1.
Definition ONCE_STATE_DONE : Z := 2.

Inductive Ordering : Type := Relaxed | Acquire.
(** what a thread knows: no state older than [low] can be read, and whether
    the write of the value is visible *)
Record view : Type := mkView { low : Z; visible : bool }.

Section once.
Context {T E : Type} (strong : bool).

(** [value] is [None] while the memory is uninitialised *)
Record OnceLock : Type := mkOnce { state : Z; value : option T }.
Definition new : OnceLock := mkOnce ONCE_STATE_INIT None.

(** a load that returns [r] *)
Definition acquires (ord : Ordering) : bool := match ord with Acquire => true | Relaxed => strong end.
Definition load (ord : Ordering) (r : Z) (c : OnceLock) (v : view) : option view :=
  if (low v <=? r) && (r <=? state c) then Some (mkView r (visible v || (acquires ord && (r =? ONCE_STATE_DONE)))) else None.
Definition is_completed (r : Z) (c : OnceLock) (v : view) : option (bool * view) :=
  v ← load Relaxed r c v; Some (r =? ONCE_STATE_DONE, v).

(** the calls; [get_or_init(f)] is [get_or_try_init] with an initialiser that
    succeeds, and an initialiser is what it returns *)
Inductive call : Type :=
| CSet (v : T)
| CGet
| CTryGet
| CGetOrTryInit (f : result T E).

Inductive reply : Type :=
| SetOk | SetErr (v : T)       (* set *)
| Ref (v : T) | NotSet         (* a reference to the value, or [None] *)
| InitErr (e : E)              (* the error of an initialiser *)
| Uninit                       (* a reference to uninitialised memory *)
| Unordered.                   (* a reference that races with the initialiser *)

(** which caller of [init] is behind a call of [Once::call] *)
Inductive user : Type := USet | UInit.
Inductive pc : Type :=
| Start (c : call)
| Load (u : user) (f : result T E)
| Loop (u : user) (f : result T E) (st : Z)
| Run (u : user) (f : result T E)
| Finish (u : user) (r : result unit E)
| Called (u : user) (r : result unit E)
| AssertDone
| Unchecked
| Deref
| Done (r : reply)
| Panicked
| Broken.

(** [Once::call]: the loop on the local copy [st] of the state; the exchange
    reads [r], and [weak] is a spurious failure of it *)
Definition call_loop (weak : bool) (r : Z) (c : OnceLock) (v : view) (u : user) (f : result T E) (st : Z) : option (OnceLock * view * pc) :=
  if st =? ONCE_STATE_INIT then
    if weak || negb (r =? ONCE_STATE_INIT) then v ← load Relaxed r c v; Some (c, v, Loop u f r)
    else if state c =? ONCE_STATE_INIT then v ← load Acquire r c v; Some (mkOnce ONCE_STATE_RUNNING (value c), mkView ONCE_STATE_RUNNING (visible v), Run u f)
    else None
  else if st =? ONCE_STATE_RUNNING then Some (c, v, Panicked)
  else if st =? ONCE_STATE_DONE then Some (c, v, Called u (Ok tt))
  else Some (c, v, Broken).

(** one access to the cell; a load in it returns [r] *)
Definition advance (weak : bool) (r : Z) (c : OnceLock) (v : view) (p : pc) : option (OnceLock * view * pc) :=
  match p with
  | Start o =>
      '(done, v) ← is_completed r c v;
      Some (c, v, match o with
        | CSet x => if done : bool then Done (SetErr x) else Load USet (Ok x)
        | CGet => if done then Unchecked else Panicked
        | CTryGet => if done then Unchecked else Done NotSet
        | CGetOrTryInit f => if done then Unchecked else Load UInit f
        end)
  | Load u f => v ← load Acquire r c v; Some (c, v, Loop u f r)
  | Loop u f st => call_loop weak r c v u f st
  | Run u (Ok x) => Some (mkOnce (state c) (Some x), mkView (low v) true, Finish u (Ok tt))
  | Run u (Err e) => Some (c, v, Finish u (Err e))
  | Finish u res => Some (mkOnce ONCE_STATE_DONE (value c), mkView ONCE_STATE_DONE (visible v), Called u res)
  | Called _ (Err e) => Some (c, v, Done (InitErr e))
  | Called USet (Ok _) => Some (c, v, Done SetOk)
  | Called UInit (Ok _) => Some (c, v, AssertDone)
  | AssertDone => '(done, v) ← is_completed r c v; Some (c, v, if done : bool then Unchecked else Broken)
  | Unchecked => '(done, v) ← is_completed r c v; Some (c, v, if done : bool then Deref else Broken)
  | Deref => Some (c, v, Done (if visible v then match value c with Some x => Ref x | None => Uninit end else Unordered))
  | Done _ | Panicked | Broken => None
  end.

(** a call that nobody disturbs and that reads the newest state; ten accesses
    are more than any call makes *)
Fixpoint alone (n : nat) (c : OnceLock) (v : view) (p : pc) : OnceLock * pc :=
  match n with
  | O => (c, p)
  | S n => match advance false (state c) c v p with Some (c, v, p) => alone n c v p | None => (c, p) end
  end.
(** [Clone]: a new cell that is set when the old one is *)
Definition clone (c : OnceLock) (v : view) : OnceLock :=
  match alone 10 c v (Start CTryGet) with
  | (_, Done (Ref x)) => fst (alone 10 new (mkView ONCE_STATE_INIT false) (Start (CSet x)))
  | _ => new
  end.

(** ** Calls at the same time *)
Record sys : Type := mkSys { cell : OnceLock; agents : list (call * view * pc) }.
(** a thread can know at most what was written: the write of the value is
    visible when it was done and published *)
Definition view_ok (c : OnceLock) (v : view) : Prop :=
  (low v = ONCE_STATE_INIT \/ 0 <= low v <= state c) /\ (visible v = true -> state c = ONCE_STATE_DONE).
Inductive step (allowed : call -> Prop) (s : sys) : sys -> Prop :=
| st_call o v : allowed o -> view_ok (cell s) v -> step allowed s (mkSys (cell s) (agents s ++ [(o, v, Start o)]))
| st_access i o v p weak r c' v' p' : agents s !! i = Some (o, v, p) -> advance weak r (cell s) v p = Some (c', v', p') ->
    step allowed s (mkSys c' (<[i := (o, v', p')]> (agents s))).
Definition fresh : sys := mkSys new [].

(** a schedule: who starts a call, knowing nothing, and who makes the next
    access, reading what *)
Inductive event : Type := Begin (o : call) | Access (i : nat) | Reads (i : nat) (r : Z).
Definition play_access (s : sys) (i : nat) (r : Z) : sys :=
  match agents s !! i with
  | Some (o, v, p) => match advance false r (cell s) v p with Some (c', v', p') => mkSys c' (<[i := (o, v', p')]> (agents s)) | None => s end
  | None => s
  end.
Definition play1 (s : sys) (e : event) : sys :=
  match e with
  | Begin o => mkSys (cell s) (agents s ++ [(o, mkView ONCE_STATE_INIT false, Start o)])
  | Access i => play_access s i (state (cell s))
  | Reads i r => play_access s i r
  end.
Definition play (es : list event) : sys := foldl play1 fresh es.
End once.
Arguments OnceLock T : clear implicits.
Arguments sys T E : clear implicits.
Arguments call T E : clear implicits.
Arguments pc T E : clear implicits.
Arguments reply T E : clear implicits.
Arguments event T E : clear implicits.
End Once.

Import Once.
(** ** One value *)
Section spec.
Context {T E : Type} (strong : bool).
Implicit Types (c : OnceLock T) (s : sys T E) (p : pc T E) (v : view).

(** initialisers that do not fail *)
Definition succeeds (o : call T E) : Prop := match o with CGetOrTryInit (Err _) => False | _ => True end.
Definition proposes (o : call T E) (x : T) : Prop := match o with CSet w => x = w | CGetOrTryInit (Ok w) => x = w | _ => False end.
(** a call whose initialiser runs *)
Definition running (a : call T E * view * pc T E) : bool := match a.2 with Run _ _ | Finish _ _ => true | _ => false end.
(** what the initialiser of a call in progress returns *)
Definition carries (o : call T E) (f : result T E) : Prop := exists x, f = Ok x /\ proposes o x.

(** what a call at [p] knows of the cell; [done_at] is a thread that saw the cell done *)
Definition done_at v : Prop := low v = ONCE_STATE_DONE /\ (strong = true -> visible v = true).
Definition knows c (o : call T E) v p : Prop :=
  match p with
  | Start o' => o' = o
  | Load _ f => carries o f
  | Loop _ f st => carries o f /\ st = low v /\ (strong = true -> st = ONCE_STATE_DONE -> visible v = true)
  | Run _ f => carries o f /\ state c = ONCE_STATE_RUNNING /\ value c = None
  | Finish _ r => r = Ok tt /\ state c = ONCE_STATE_RUNNING /\ visible v = true /\ exists x, value c = Some x /\ proposes o x
  | Called _ r => r = Ok tt /\ done_at v
  | AssertDone | Unchecked | Deref => done_at v
  | Done (Ref x) => state c = ONCE_STATE_DONE /\ value c = Some x
  | Done Unordered => strong = false
  | Done SetOk | Done (SetErr _) | Done NotSet | Panicked => True
  | Done (InitErr _) | Done Uninit | Broken => False
  end.
(** the view of a thread is of the cell *)
Definition sees c v : Prop := 0 <= low v <= state c /\ (visible v = true -> is_Some (value c)).

Record inv s : Prop := {
  iv_succeeds : forall i o v p, agents s !! i = Some (o, v, p) -> succeeds o;
  iv_knows : forall i o v p, agents s !! i = Some (o, v, p) -> knows (cell s) o v p /\ sees (cell s) v;
  iv_state : 0 <= state (cell s) <= ONCE_STATE_DONE;
  iv_running : count running (agents s) = if state (cell s) =? ONCE_STATE_RUNNING then 1 else 0;
  iv_init : state (cell s) = ONCE_STATE_INIT -> value (cell s) = None;
  iv_done : state (cell s) = ONCE_STATE_DONE -> is_Some (value (cell s));
  iv_value : forall x, value (cell s) = Some x -> exists i o v p, agents s !! i = Some (o, v, p) /\ proposes o x
}.
(** a cell that is done stays as it is, a value stays, and the state moves on *)
Definition evolves c c' : Prop :=
  state c <= state c' /\ (forall x, value c = Some x -> value c' = Some x) /\ (state c = ONCE_STATE_DONE -> c' = c).
Lemma evolves_refl c : evolves c c.
Proof. done. Qed.

Lemma proposes_succeeds o x : proposes o x -> succeeds o.
Proof. destruct o as [w| | |[w|e]]; simpl; done. Qed.
Lemma sees_evolves c c' v : evolves c c' -> sees c v -> sees c' v.
Proof. intros (H1 & H2 & _) [H3 H4]. split; [lia|]. intros Hv. destruct (H4 Hv) as [x Hx]. rewrite (H2 _ Hx). done. Qed.
(** a call that does not initialise the cell knows what stays *)
Lemma knows_evolves c c' o v p : evolves c c' -> running (o, v, p) = false -> knows c o v p -> knows c' o v p.
Proof.
  unfold running. intros (_ & _ & Hd) Hr Hk. destruct p as [|u f|u f st|u f|u r|u r| | | |[]| |]; simpl in *; try done.
  destruct Hk as [Es Ev]. by rewrite (Hd Es).
Qed.

Lemma once_inv_set s i o v p c' v' p' :
  inv s -> agents s !! i = Some (o, v, p) -> knows c' o v' p' -> sees c' v' -> evolves (cell s) c' ->
  (forall j o' w q, j <> i -> agents s !! j = Some (o', w, q) -> evolves (cell s) c' -> running (o', w, q) = true -> c' = cell s) ->
  0 <= state c' <= ONCE_STATE_DONE ->
  count running (agents s) - (if running (o, v, p) then 1 else 0) + (if running (o, v', p') then 1 else 0) = (if state c' =? ONCE_STATE_RUNNING then 1 else 0) ->
  (state c' = ONCE_STATE_INIT -> value c' = None) -> (state c' = ONCE_STATE_DONE -> is_Some (value c')) ->
  (forall x, value c' = Some x -> value (cell s) = Some x \/ proposes o x) ->
  inv (mkSys c' (<[i := (o, v', p')]> (agents s))).
Proof.
  intros [I1 I2 I3 I4 I5 I6 I7] Hi Hk Hv He Ho Hs Hc H5 H6 H7. pose proof (lookup_lt_Some _ _ _ Hi) as Hl.
  assert (forall j o' w q, <[i := (o, v', p')]> (agents s) !! j = Some (o', w, q) -> (j = i /\ o' = o /\ w = v' /\ q = p') \/ (j <> i /\ agents s !! j = Some (o', w, q))) as Hcase.
  { intros j o' w q Hj. destruct (decide (j = i)) as [->|Hne].
    - rewrite list_lookup_insert_eq in Hj by done. left. naive_solver.
    - rewrite list_lookup_insert_ne in Hj by done. by right. }
  split; cbn [cell agents]; [| |done|by rewrite (count_insert _ _ _ _ _ Hi)|done|done|].
  - intros j o' w q Hj. destruct (Hcase _ _ _ _ Hj) as [(-> & -> & -> & ->)|[_ Hj']]; by eapply I1.
  - intros j o' w q Hj. destruct (Hcase _ _ _ _ Hj) as [(-> & -> & -> & ->)|[Hne Hj']]; [done|]. destruct (I2 _ _ _ _ Hj') as [Hk' Hv'].
    split; [|by eapply sees_evolves]. destruct (running (o', w, q)) eqn:Er; [|by eapply knows_evolves]. by rewrite (Ho _ _ _ _ Hne Hj' He Er).
  - intros x Hx. assert (exists j o' w q, agents s !! j = Some (o', w, q) /\ proposes o' x) as (j & o' & w & q & Hj & Hp).
    { destruct (H7 x Hx) as [Hx'|Hp]; [by apply I7|by exists i, o, v, p]. }
    destruct (decide (j = i)) as [->|Hne].
    + exists i, o, v', p'. rewrite list_lookup_insert_eq by done. split; [done|]. naive_solver.
    + exists j, o', w, q. by rewrite list_lookup_insert_ne.
Qed.
(** an access that changes nothing *)
Lemma inv_look s i o v p v' p' : inv s -> agents s !! i = Some (o, v, p) -> running (o, v', p') = running (o, v, p) -> knows (cell s) o v' p' -> sees (cell s) v' ->
  inv (mkSys (cell s) (<[i := (o, v', p')]> (agents s))).
Proof.
  intros I Hi Hr Hk Hv. pose proof I as [I1 I2 I3 I4 I5 I6 I7]. eapply once_inv_set; try done; [|by left].
  rewrite Hr, I4. destruct (running (o, v, p)); lia.
Qed.
(** only one call at a time initialises the cell *)
Lemma inv_others s i o v p c' : inv s -> agents s !! i = Some (o, v, p) -> (state (cell s) = ONCE_STATE_RUNNING -> running (o, v, p) = true) ->
  forall j o' w q, j <> i -> agents s !! j = Some (o', w, q) -> evolves (cell s) c' -> running (o', w, q) = true -> c' = cell s.
Proof.
  intros [I1 I2 I3 I4 I5 I6 I7] Hi Hr j o' w q Hne Hj _ Er. exfalso. destruct (Z.eqb_spec (state (cell s)) ONCE_STATE_RUNNING) as [Es|Es].
  - apply Hne. eapply (count_one running); [exact I4|exact Hj|exact Hi|done|by apply Hr].
  - pose proof (count_zero _ _ _ _ I4 Hj). congruence.
Qed.
(** what a load brings *)
Lemma load_sees s ord r v v' : inv s -> sees (cell s) v -> load strong ord r (cell s) v = Some v' ->
  sees (cell s) v' /\ low v' = r /\ (strong = true -> r = ONCE_STATE_DONE -> visible v' = true).
Proof.
  intros I [H1 H2]. unfold load. destruct (_ && _) eqn:Eb; [|done]. apply andb_true_iff in Eb as [L1%Z.leb_le L2%Z.leb_le]. intros [= <-]. split_and!; [split|..]; cbn [low visible].
  - lia.
  - intros Hv. apply orb_true_iff in Hv as [Hv|Hv]; [by apply H2|]. apply andb_true_iff in Hv as [_ ->%Z.eqb_eq]. apply (iv_done _ I).
    pose proof (iv_state _ I). unfold ONCE_STATE_DONE in *. lia.
  - done.
  - intros -> ->. by destruct ord, (visible v).
Qed.
Lemma completed_sees s r v done v' : inv s -> sees (cell s) v -> is_completed strong r (cell s) v = Some (done, v') ->
  sees (cell s) v' /\ (done = true -> done_at v') /\ (low v = ONCE_STATE_DONE -> done = true).
Proof.
  intros I Hv. unfold is_completed. destruct (load strong Relaxed r (cell s) v) as [w|] eqn:El; [|done]. cbn. intros [= <- <-].
  destruct (load_sees s Relaxed r v w I Hv El) as (H1 & H2 & H3). split_and!; [done|intros ->%Z.eqb_eq; split; auto|].
  intros Hl. apply Z.eqb_eq. unfold load in El. destruct (_ && _) eqn:Eb; [|done]. apply andb_true_iff in Eb as [L1%Z.leb_le L2%Z.leb_le].
  pose proof (iv_state _ I). lia.
Qed.

Lemma inv_loop s i o v u f st weak r c' v' p' : inv s -> agents s !! i = Some (o, v, Loop u f st) -> call_loop strong weak r (cell s) v u f st = Some (c', v', p') ->
  inv (mkSys c' (<[i := (o, v', p')]> (agents s))).
Proof.
  intros I Hi. pose proof I as [I1 I2 I3 I4 I5 I6 I7]. destruct (I2 _ _ _ _ Hi) as [(Hf & -> & Hd) Hv]. unfold call_loop.
  destruct (Z.eqb_spec (low v) ONCE_STATE_INIT) as [E0|N0].
  - destruct (weak || negb (r =? ONCE_STATE_INIT)) eqn:Ew.
    + destruct (load strong Relaxed r (cell s) v) as [w|] eqn:El; [|done]. cbn. intros [= <- <- <-]. destruct (load_sees _ _ _ _ _ I Hv El) as (H1 & H2 & H3).
      eapply inv_look; [done|exact Hi|done| |done]. split_and!; auto.
    + apply orb_false_iff in Ew as [_ ->%negb_false_iff%Z.eqb_eq]. destruct (Z.eqb_spec (state (cell s)) ONCE_STATE_INIT) as [Es|]; [|done].
      destruct (load strong Acquire ONCE_STATE_INIT (cell s) v) as [w|] eqn:El; [|done]. cbn. intros [= <- <- <-]. destruct (load_sees _ _ _ _ _ I Hv El) as ((H1 & H1') & _ & _).
      assert (value (cell s) = None) as Ev by by apply I5.
      eapply once_inv_set; [done|exact Hi| | | | | | | | |]; cbn [state value].
      * split_and!; [done|done|]. done.
      * split; cbn; [done|]. rewrite Ev in *. intros Hw. destruct (H1' Hw). done.
      * split_and!; cbn; [by rewrite Es|by rewrite Ev|by rewrite Es].
      * eapply inv_others; [done|exact Hi|]. by rewrite Es.
      * done.
      * rewrite I4, Es. done.
      * done.
      * done.
      * by left.
  - destruct (Z.eqb_spec (low v) ONCE_STATE_RUNNING) as [E1|N1]; [intros [= <- <- <-]; by eapply inv_look|].
    destruct (Z.eqb_spec (low v) ONCE_STATE_DONE) as [E2|N2]; intros [= <- <- <-]; [|destruct Hv; unfold ONCE_STATE_INIT, ONCE_STATE_RUNNING, ONCE_STATE_DONE in *; lia].
    eapply inv_look; [done|exact Hi|done| |done]. split; [done|]. split; auto.
Qed.

Lemma inv_access s i o v p weak r c' v' p' : inv s -> agents s !! i = Some (o, v, p) -> advance strong weak r (cell s) v p = Some (c', v', p') ->
  inv (mkSys c' (<[i := (o, v', p')]> (agents s))).
Proof.
  intros I Hi Ha. pose proof I as [I1 I2 I3 I4 I5 I6 I7]. destruct (I2 _ _ _ _ Hi) as [Hk Hv]. pose proof (I1 _ _ _ _ Hi) as Hs.
  destruct p as [o'|u f|u f st|u f|u res|u res| | | |rep| |]; simpl in Ha, Hk; try done.
  - subst o'. destruct (is_completed strong r (cell s) v) as [[d w]|] eqn:Ec; [|done]. cbn in Ha. injection Ha as <- <- <-.
    destruct (completed_sees _ _ _ _ _ I Hv Ec) as (Hw & Hd & _).
    destruct d; destruct o as [x| | |[x|e]]; (eapply inv_look; [done|exact Hi|done| |done]); simpl; try done; try (by apply Hd); by exists x.
  - destruct (load strong Acquire r (cell s) v) as [w|] eqn:El; [|done]. cbn in Ha. injection Ha as <- <- <-. destruct (load_sees _ _ _ _ _ I Hv El) as (H1 & H2 & H3).
    eapply inv_look; [done|exact Hi|done| |done]. split_and!; auto.
  - by eapply inv_loop.
  - destruct Hk as ((x & -> & Hp) & Es & Ev). injection Ha as <- <- <-. destruct Hv as [Hl Hvis]. eapply once_inv_set; [done|exact Hi| | | | | | | | |]; cbn [state value].
    + split_and!; [done|done|done|by exists x].
    + by split.
    + split_and!; cbn; [done|by rewrite Ev|by rewrite Es].
    + eapply inv_others; [done|exact Hi|done].
    + done.
    + rewrite I4. by destruct (_ =? _).
    + rewrite Es. done.
    + done.
    + intros w [= <-]. by right.
  - destruct Hk as (-> & Es & Hvis & x & Ev & Hp). injection Ha as <- <- <-. eapply once_inv_set; [done|exact Hi| | | | | | | | |]; cbn [state value].
    + by split.
    + split; cbn; [done|]. by rewrite Ev.
    + split_and!; cbn; [by rewrite Es|done|by rewrite Es].
    + eapply inv_others; [done|exact Hi|done].
    + done.
    + rewrite I4, Es. done.
    + done.
    + by rewrite Ev.
    + by left.
  - destruct Hk as [-> Hd], u; injection Ha as <- <- <-; by (eapply inv_look; [done|exact Hi|done| |done]).
  - destruct (is_completed strong r (cell s) v) as [[d w]|] eqn:Ec; [|done]. cbn in Ha. injection Ha as <- <- <-.
    destruct (completed_sees _ _ _ _ _ I Hv Ec) as (Hw & Hd & Hdone). rewrite (Hdone (proj1 Hk)) in *. eapply inv_look; [done|exact Hi|done|by apply Hd|done].
  - destruct (is_completed strong r (cell s) v) as [[d w]|] eqn:Ec; [|done]. cbn in Ha. injection Ha as <- <- <-.
    destruct (completed_sees _ _ _ _ _ I Hv Ec) as (Hw & Hd & Hdone). rewrite (Hdone (proj1 Hk)) in *. eapply inv_look; [done|exact Hi|done|by apply Hd|done].
  - injection Ha as <- <- <-. destruct Hk as [Hl Hst], Hv as [Hlow Hvis]. eapply inv_look; [done|exact Hi|done| |done].
    destruct (visible v) eqn:Evis; [|simpl; by destruct strong; [specialize (Hst eq_refl)|]].
    assert (state (cell s) = ONCE_STATE_DONE) as Es by lia. destruct (I6 Es) as [x Ev]. rewrite Ev. simpl. done.
Qed.

Lemma inv_call s o v : inv s -> succeeds o -> view_ok (cell s) v -> inv (mkSys (cell s) (agents s ++ [(o, v, Start o)])).
Proof.
  intros [I1 I2 I3 I4 I5 I6 I7] Ho [Hl Hvis].
  assert (forall i o' w q, (agents s ++ [(o, v, Start o)]) !! i = Some (o', w, q) -> agents s !! i = Some (o', w, q) \/ (o' = o /\ w = v /\ q = Start o)) as Hcase.
  { intros i o' w q Hi. apply lookup_app_Some in Hi as [Hi|[_ Hi]]; [by left|right]. apply list_lookup_singleton_Some in Hi. naive_solver. }
  split; cbn [cell agents]; try done.
  - intros i o' w q Hi. destruct (Hcase _ _ _ _ Hi) as [Hi'|(-> & -> & ->)]; [by eapply I1|done].
  - intros i o' w q Hi. destruct (Hcase _ _ _ _ Hi) as [Hi'|(-> & -> & ->)]; [by eapply I2|]. split; [done|]. split; [unfold ONCE_STATE_INIT in *; lia|auto].
  - rewrite count_app, I4. cbn. lia.
  - intros x Hx. destruct (I7 x Hx) as (i & o' & w & q & Hi & Hp). exists i, o', w, q. split; [|done]. by apply lookup_app_l_Some.
Qed.
Lemma inv_reachable s : rtc (step strong succeeds) fresh s -> inv s.
Proof.
  intros Hr. remember fresh as s0 eqn:E0. assert (inv s0) as I0.
  { subst. split; cbn; try done. }
  clear E0. induction Hr as [s|s1 s2 s3 Hs _ IH]; [done|]. apply IH.
  destruct Hs as [o v Ho Hv|i o v p weak r c' v' p' Hi Ha]; [by apply inv_call|by eapply inv_access].
Qed.
Lemma advance_done s i o v p weak r c' v' p' : inv s -> agents s !! i = Some (o, v, p) -> advance strong weak r (cell s) v p = Some (c', v', p') ->
  state (cell s) = ONCE_STATE_DONE -> c' = cell s.
Proof.
  intros I Hi Ha Hc. destruct (iv_knows _ I _ _ _ _ Hi) as [Hk _].
  destruct p as [o'|u f|u f st|u [x|e]|u res|[] []| | | |[]| |]; simpl in Ha, Hk; rewrite ?Hc in *; try done; try (by injection Ha as <-); try (by destruct Hk as (_ & ? & _)).
  - by destruct (is_completed strong r (cell s) v) as [[[] w]|]; [injection Ha as <-..|].
  - by destruct (load strong Acquire r (cell s) v) as [w|]; [injection Ha as <-|].
  - unfold call_loop in Ha. rewrite Hc in Ha. destruct (st =? _); [destruct (weak || _)|]; [destruct (load _ _ _ _ _) as [w|]; [by injection Ha as <-|done]|done|].
    destruct (st =? _); [by injection Ha as <-|]. destruct (st =? _); by injection Ha as <-.
  - by destruct (is_completed strong r (cell s) v) as [[[] w]|]; [injection Ha as <-..|].
  - by destruct (is_completed strong r (cell s) v) as [[[] w]|]; [injection Ha as <-..|].
Qed.
Lemma completed_stays s s' : inv s -> rtc (step strong succeeds) s s' -> state (cell s) = ONCE_STATE_DONE -> cell s' = cell s.
Proof.
  intros I Hr. induction Hr as [s|s1 s2 s3 Hs _ IH]; [done|]. intros Hc.
  assert (inv s2 /\ cell s2 = cell s1) as [I2 E2].
  { destruct Hs as [o v Ho Hv|i o v p weak r c' v' p' Hi Ha]; [by split; [apply inv_call|]|]. split; [by eapply inv_access|]. cbn [cell]. by eapply advance_done. }
  rewrite IH; [done|done|by rewrite E2].
Qed.

(** the answer of a call that comes first, and of one that comes later *)
Definition first_answer (x : T) (o : call T E) : reply T E := match o with CSet _ => SetOk | _ => Ref x end.
Definition later_answer (x : T) (o : call T E) : reply T E := match o with CSet w => SetErr w | _ => Ref x end.

Lemma call_first o x v : low v = ONCE_STATE_INIT -> proposes o x -> alone strong 10 new v (Start o) = (mkOnce ONCE_STATE_DONE (Some x), Done (first_answer x o)).
Proof. destruct v as [l vis]. cbn [low]. intros ->. destruct o as [w| | |[w|e]]; simpl; try done; intros ->; by destruct vis, strong. Qed.
Lemma call_later o x v : low v = ONCE_STATE_DONE -> strong || visible v = true ->
  alone strong 10 (mkOnce ONCE_STATE_DONE (Some x)) v (Start o) = (mkOnce ONCE_STATE_DONE (Some x), Done (later_answer x o)).
Proof. destruct v as [l vis]. cbn [low visible]. intros -> Hs. by destruct o, strong, vis. Qed.

(** C36: A cell has one value.  In every interleaving of calls whose initialisers
    succeed, with loads as stale as their orderings permit, at most one
    initialiser runs, no assertion fails and no call sees memory that is not
    initialised; on a machine that orders every load no reference races with
    the initialiser (with the orderings as written one can: see
    [OnceDemo.relaxed_get_races]).  A reference that a call returned is to a
    value that one of the calls brought, the cell holds that value from then
    on, and a call by a thread that knows the cell to be done gets it.  The
    first call on a new cell initialises it. *)
Theorem once_cell_one_value s s' : rtc (step strong succeeds) fresh s -> rtc (step strong succeeds) s s' ->
  count running (agents s) <= 1 /\
  (forall i o v p, agents s !! i = Some (o, v, p) -> p <> Broken /\ p <> Done Uninit /\ (strong = true -> p <> Done Unordered)) /\
  (forall i o v x, agents s !! i = Some (o, v, Done (Ref x)) ->
    (exists j o' w q, agents s !! j = Some (o', w, q) /\ proposes o' x) /\
    forall o' w, low w = ONCE_STATE_DONE -> strong || visible w = true -> alone strong 10 (cell s') w (Start o') = (cell s', Done (later_answer x o'))) /\
  (forall o v x, state (cell s) = ONCE_STATE_INIT -> low v = ONCE_STATE_INIT -> proposes o x ->
    alone strong 10 (cell s) v (Start o) = (mkOnce ONCE_STATE_DONE (Some x), Done (first_answer x o))).
Proof.
  intros Hr Hr'. pose proof (inv_reachable s Hr) as I. pose proof I as [I1 I2 I3 I4 I5 I6 I7]. split_and!.
  - rewrite I4. by destruct (_ =? _).
  - intros i o v p Hi. destruct (I2 _ _ _ _ Hi) as [Hk _]. split_and!; [by intros ->|by intros ->|]. intros Hs ->. simpl in Hk. congruence.
  - intros i o v x Hi. destruct (I2 _ _ _ _ Hi) as [[Hc Hx] _]. split; [by apply I7|]. intros o' w. rewrite (completed_stays s s' I Hr' Hc).
    destruct (cell s) as [st y]. cbn in Hc, Hx. subst. apply call_later.
  - intros o v x Es El Hp. replace (cell s) with (new : OnceLock T); [by apply call_first|].
    pose proof (I5 Es) as Ev. destruct (cell s) as [st w]. cbn in Es, Ev. by subst.
Qed.
End spec.

(** ** Runs *)
Module OnceDemo.
Notation ev := (event nat nat).
Definition begins (allowed : call nat nat -> Prop) (e : ev) : Prop := match e with Begin o => allowed o | _ => True end.
Lemma access_reachable strong allowed s i r : rtc (step strong allowed) s (play_access strong (T := nat) (E := nat) s i r).
Proof.
  unfold play_access. destruct (agents s !! i) as [[[o v] p]|] eqn:Hi; [|done]. destruct (advance strong false r (cell s) v p) as [[[c' v'] p']|] eqn:Hp; [|done].
  apply rtc_once. by eapply st_access.
Qed.
Lemma play_reachable strong (allowed : call nat nat -> Prop) (es : list ev) : Forall (begins allowed) es -> forall s, rtc (step strong allowed) s (foldl (play1 strong) s es).
Proof.
  induction 1 as [|e es He _ IH]; intros s; [done|]. cbn [foldl]. transitivity (play1 strong s e); [|apply IH].
  destruct e as [o|i|i r]; cbn [play1]; [|apply access_reachable..]. apply rtc_once, st_call; [done|]. split; [by left|done].
Qed.
Definition thread (i : nat) : list ev := repeat (Access i) 10.

(** two CPUs initialise at the same time; the second one is late and sees the first one's value *)
Definition both : list ev := [Begin (CGetOrTryInit (Ok 1%nat)); Begin (CGetOrTryInit (Ok 2%nat)); Access 0; Access 1] ++ thread 1 ++ thread 0.
Lemma once_cell_one_value_witness :
  let s := play true both in let s' := play1 true s (Begin CGet) in
  count running (agents s) <= 1 /\
  (forall i o v p, agents s !! i = Some (o, v, p) -> p <> Broken /\ p <> Done Uninit /\ (true = true -> p <> Done Unordered)) /\
  (forall i o v x, agents s !! i = Some (o, v, Done (Ref x)) ->
    (exists j o' w q, agents s !! j = Some (o', w, q) /\ proposes o' x) /\
    forall (o' : call nat nat) w, low w = ONCE_STATE_DONE -> true || visible w = true -> alone true 10 (cell s') w (Start o') = (cell s', Done (later_answer x o'))) /\
  (forall (o : call nat nat) v x, state (cell s) = ONCE_STATE_INIT -> low v = ONCE_STATE_INIT -> proposes o x ->
    alone true 10 (cell s) v (Start o) = (mkOnce ONCE_STATE_DONE (Some x), Done (first_answer x o))).
Proof.
  intros s s'. apply (once_cell_one_value true s s').
  - apply play_reachable. repeat constructor.
  - apply rtc_once. apply st_call; [done|]. split; [by left|done].
Defined.
Definition answers (s : sys nat nat) : list (call nat nat * pc nat nat) := (fun a => (a.1.1, a.2)) <$> agents s.
Lemma both_see_one : answers (play true both) = [(CGetOrTryInit (Ok 1%nat), Done (Ref 2%nat)); (CGetOrTryInit (Ok 2%nat), Done (Ref 2%nat))].
Proof. by vm_compute. Qed.

(** [is_completed] loads the state without ordering it before the read of the
    value: a reader that finds the cell done may read the value before the
    write of the initialiser is visible to it.  So may a call whose exchange
    fails on a cell that was completed meanwhile. *)
Lemma relaxed_get_races : answers (play false ([Begin (CSet 1%nat)] ++ thread 0 ++ [Begin CGet] ++ thread 1)) !! 1%nat = Some (CGet, Done Unordered).
Proof. by vm_compute. Qed.
Lemma relaxed_exchange_races :
  answers (play false ([Begin (CGetOrTryInit (Ok 1%nat)); Begin (CSet 2%nat); Access 0; Access 0] ++ thread 1 ++ thread 0)) !! 0%nat = Some (CGetOrTryInit (Ok 1%nat), Done Unordered).
Proof. by vm_compute. Qed.
(** a reader can be late: it asks a cell that is done, and is told that it is not *)
Lemma stale_try_get : answers (play true ([Begin (CSet 1%nat)] ++ thread 0 ++ [Begin CTryGet; Reads 1 ONCE_STATE_INIT])) !! 1%nat = Some (CTryGet, Done NotSet).
Proof. by vm_compute. Qed.
(** [call] marks the cell as done whatever its closure does: after a failed
    initialiser the next [get] is given memory that nobody wrote. *)
Lemma failed_init_reads_uninitialised :
  answers (play true ([Begin (CGetOrTryInit (Err 7%nat))] ++ thread 0 ++ [Begin CGet] ++ thread 1)) !! 1%nat = Some (CGet, Done Uninit).
Proof. by vm_compute. Qed.
(** [set] looks at the cell before it initialises it; when another CPU
    initialises it in between, [set] reports success and the value is lost. *)
Lemma racing_set_loses_value :
  let s := play true ([Begin (CSet 1%nat); Begin (CSet 2%nat); Access 0] ++ thread 1 ++ thread 0) in
  answers s = [(CSet 1%nat, Done SetOk); (CSet 2%nat, Done SetOk)] /\ value (cell s) = Some 2%nat.
Proof. by vm_compute. Qed.
(** [Clone] copies the value. *)
Lemma clone_copies {T} (x : T) : clone (E := unit) true (mkOnce ONCE_STATE_DONE (Some x)) (mkView ONCE_STATE_INIT false) = mkOnce ONCE_STATE_DONE (Some x).
Proof. done. Qed.
End OnceDemo.
