(* ===== verification/Clocks.v ===== *)
(** * Clocks

    Models [kernel/src/devices/clock]: the real-time clock ([rtc.rs]), the two
    hardware timers ([hardware_timer/hpet.rs], [pit.rs], [mod.rs]), the time
    stamp counter with its calibration ([tsc.rs]), and the system time over
    whatever device is best ([mod.rs]).  Ports, memory-mapped registers and
    the registers of the CPU are interfaces; waiting loops take fuel. *)
From S2P Require Import Prelude UserLink FsTypes Bytes AmlData Resource Aml AmlTree AcpiTables Apic Context.
Import Context.Clock.

(** 64-bit registers in memory *)
Class Mmio64 (H : Type) : Type := {
  read64 : Z -> ST H Z;
  write64 : Z -> Z -> ST H unit
}.
(** [rdtsc] *)
Class Cycles (H : Type) : Type := { read_tsc : ST H Z }.
(** what the timers use of the CPU and of its interrupt controller *)
Inductive TimerHandler : Type := timer0_handler | pit_interrupt.
Class Platform (H : Type) : Type := {
  push_cli : ST H unit;
  pop_cli : ST H unit;
  is_irq_assigned : Z -> ST H bool;
  assign_io_irq : TimerHandler -> Z -> ST H unit;
  return_from_interrupt : ST H unit
}.

Module Rtc.
Definition CURRENT_CENTURY : Z := 2000 / 100.
Definition RTC_ADDRESS : Z := 0x70.
Definition RTC_DATA : Z := 0x71.
Definition RTC_SECONDS : Z := 0x00.
Definition RTC_MINUTES : Z := 0x02.
Definition RTC_HOURS : Z := 0x04.
Definition RTC_DAY_OF_MONTH : Z := 0x07.
Definition RTC_MONTH : Z := 0x08.
Definition RTC_YEAR : Z := 0x09.
Definition RTC_STATUS_A : Z := 0x0A.
Definition RTC_STATUS_B : Z := 0x0B.
Definition SECONDS_PER_MINUTE : Z := 60.
Definition SECONDS_PER_HOUR : Z := 60 * SECONDS_PER_MINUTE.
Definition SECONDS_PER_DAY : Z := 24 * SECONDS_PER_HOUR.
Definition DAYS_PER_MONTH_ARRAY : list Z := [0; 31; 59; 90; 120; 151; 181; 212; 243; 273; 304; 334].
Definition UNIX_EPOCH_IN_SECONDS : Z := 62135596800.

Record RtcTime : Type := mkRtcTime { seconds : Z; minutes : Z; hours : Z; day_of_month : Z; month : Z; year : Z }.
#[global] Instance RtcTime_eq_dec : EqDecision RtcTime.
Proof. solve_decision. Defined.
Definition rtc_default : RtcTime := mkRtcTime 0 0 0 0 0 0.

Definition seconds_since_unix_epoch (t : RtcTime) : outcome (option Z) :=
  if year t <? 1970 then Ret None else
  let is_year_leap := (2 <? month t) && (year t mod 4 =? 0) && (negb (year t mod 100 =? 0) || (year t mod 400 =? 0)) in
  let last_year := year t - 1 in
  days_in_last_years ← (a ← cadd 64 (last_year * 365) (last_year / 4); b ← csub a (last_year / 100); cadd 64 b (last_year / 400));
  i ← csub (month t) 1;
  before ← unwrap (DAYS_PER_MONTH_ARRAY !! Z.to_nat i);
  this_year_days ← (a ← cadd 64 before (day_of_month t); csub a (if is_year_leap then 0 else 1));
  total_days ← cadd 64 days_in_last_years this_year_days;
  days ← cmul 64 total_days SECONDS_PER_DAY;
  timestamp ← (a ← cadd 64 days (hours t * SECONDS_PER_HOUR); b ← cadd 64 a (minutes t * SECONDS_PER_MINUTE); cadd 64 b (seconds t));
  r ← csub timestamp UNIX_EPOCH_IN_SECONDS;
  Ret (Some r).

Record Rtc : Type := mkRtc { century_reg : option Z }.
Definition new (century_reg : option Z) : Rtc :=
  mkRtc (match century_reg with Some r => if r =? 0 then None else Some r | None => None end).

(** two decimal digits in a byte; the operations on bytes below stay in their range *)
Definition from_bcd (x : Z) : Z := Z.land x 0x0F + x / 16 * 10.

Section ports.
Context {H : Type} `{PortIo H} (fuel : nat) (self : Rtc).
Definition read_register (reg : Z) : ST H Z := _ ← io_out 1 RTC_ADDRESS reg; io_in 1 RTC_DATA.
Definition is_updating : ST H bool := a ← read_register RTC_STATUS_A; mret (negb (Z.land a 0x80 =? 0)).
Definition is_bcd : ST H bool := b ← read_register RTC_STATUS_B; mret (Z.land b 0x04 =? 0).
Fixpoint wait_updated (n : nat) : ST H unit :=
  match n with
  | O => diverge
  | S n => u ← is_updating; if (u : bool) then wait_updated n else mret tt
  end.
Definition read_time : ST H RtcTime :=
  s ← read_register RTC_SECONDS; mi ← read_register RTC_MINUTES; h ← read_register RTC_HOURS;
  d ← read_register RTC_DAY_OF_MONTH; mo ← read_register RTC_MONTH; y ← read_register RTC_YEAR;
  mret (mkRtcTime s mi h d mo y).
Fixpoint sync_loop (n : nat) (t : RtcTime) (century : Z) : ST H (RtcTime * Z) :=
  match n with
  | O => diverge
  | S n =>
      _ ← wait_updated fuel;
      t_new ← read_time;
      century_new ← (match century_reg self with Some r => read_register r | None => mret century end);
      if decide (t_new = t /\ century_new = century) then mret (t, century) else sync_loop n t_new century_new
  end.
Definition get_time_sync : ST H (RtcTime * Z) := sync_loop fuel rtc_default 0.

Definition decode_bcd (t : RtcTime) : RtcTime :=
  mkRtcTime (from_bcd (seconds t)) (from_bcd (minutes t))
    (Z.lor (Z.land (hours t) 0x0F + Z.land (hours t) 0x70 / 16 * 10) (Z.land (hours t) 0x80))
    (from_bcd (day_of_month t)) (from_bcd (month t)) (from_bcd (year t)).
(** the value of the registers; [century] is meaningful with a register for it *)
Definition decode (bcd : bool) (t : RtcTime) (century : Z) : RtcTime :=
  let has_century := match century_reg self with Some _ => true | None => false end in
  let t := if bcd then decode_bcd t else t in
  let century := if bcd && has_century then from_bcd century else century in
  let hours' := if negb (Z.land (hours t) 0x80 =? 0) then (Z.land (hours t) 0x7F + 12) mod 24 else hours t in
  let century := if has_century then century else CURRENT_CENTURY in
  mkRtcTime (seconds t) (minutes t) hours' (day_of_month t) (month t) (year t + century * 100).
Definition get_time : ST H RtcTime :=
  tc ← get_time_sync;
  bcd ← is_bcd;
  mret (decode bcd (fst tc) (snd tc)).
End ports.
End Rtc.

(** ** The interface of a clock device ([trait ClockDevice]); [same] is [Arc::ptr_eq] *)
Class ClockDevice (D S : Type) : Type := {
  get_time : D -> ST S ClockTime;
  granularity : D -> ST S Z;
  require_calibration : D -> bool;
  rating : D -> Z;
  same : D -> D -> bool
}.

Definition FEMTOS_PER_SEC : Z := 1000000000000000.
Definition NANOS_PER_FEMTO : Z := 1000000.

Module Pit.
Definition PIT_TICK_PERIOD_FEMTOS : Z := 838095345.
Definition PIT_TICK_PERIOD_NANOS : Z := PIT_TICK_PERIOD_FEMTOS / NANOS_PER_FEMTO.
Definition PORT_CONTROL : Z := 0x43.
Definition PORT_CHANNEL_0 : Z := 0x40.
Definition SELECT_CHANNEL_0 : Z := Z.shiftl 0 6.
Definition ACCESS_LATCH_COUNT : Z := Z.shiftl 0 4.
Definition ACCESS_LOBYTE : Z := Z.shiftl 1 4.
Definition ACCESS_LOBYTE_HIBYTE : Z := Z.shiftl 3 4.
Definition MODE_INTERRUPT_ON_TERMINAL_COUNT : Z := Z.shiftl 0 1.
Definition MODE_RATE_GENERATOR : Z := Z.shiftl 2 1.
Definition MODE_BINARY : Z := 0.
Definition DEFAULT_INTERRUPT : Z := 0.
Definition RELOAD_VALUE : Z := 0.
Definition control (access mode : Z) : Z := Z.lor (Z.lor (Z.lor SELECT_CHANNEL_0 access) mode) MODE_BINARY.

Record Pit : Type := mkPit { total_counter : Z; last_counter : Z }.

Section ports.
Context {H : Type} `{PortIo H} `{Platform H}.
Definition disable : ST H unit :=
  _ ← io_out 1 PORT_CONTROL (control ACCESS_LOBYTE MODE_INTERRUPT_ON_TERMINAL_COUNT);
  io_out 1 PORT_CHANNEL_0 1.
Definition new : ST H Pit :=
  _ ← io_out 1 PORT_CONTROL (control ACCESS_LOBYTE_HIBYTE MODE_RATE_GENERATOR);
  _ ← io_out 1 PORT_CHANNEL_0 (wrap 8 (Z.land RELOAD_VALUE 0xFF));
  _ ← io_out 1 PORT_CHANNEL_0 (wrap 8 (Z.shiftr RELOAD_VALUE 8));
  _ ← assign_io_irq pit_interrupt DEFAULT_INTERRUPT;
  mret (mkPit 0 0).
Definition read_counter : ST H Z :=
  _ ← push_cli;
  _ ← io_out 1 PORT_CONTROL (control ACCESS_LATCH_COUNT 0);
  lo ← io_in 1 PORT_CHANNEL_0;
  hi ← io_in 1 PORT_CHANNEL_0;
  _ ← pop_cli;
  mret (Z.lor (Z.shiftl hi 8) lo).
End ports.
(** [last_counter.fetch_update]: the new value, and what passed since the old one *)
Definition swap_counter (counter : Z) (p : Pit) : Z * Pit := (wrap 16 (last_counter p - counter), mkPit (total_counter p) counter).
Definition add_total (elapsed : Z) (p : Pit) : Pit := mkPit (wrap 64 (total_counter p + elapsed)) (last_counter p).
Definition pit_ticks_time (counter : Z) : ClockTime :=
  let seconds_divider := FEMTOS_PER_SEC / PIT_TICK_PERIOD_FEMTOS in
  mkTime (counter mod seconds_divider * PIT_TICK_PERIOD_NANOS) (counter / seconds_divider).
End Pit.

Module Hpet.
(** ** [InterruptRouteCapabilityBitmap], [HpetTimerConfig] *)
Definition bit (data i : Z) : bool := negb (Z.land data (Z.shiftl 1 i) =? 0).
Definition bits_set (bitmap : Z) : list Z := List.filter (bit bitmap) (Z.of_nat <$> seq 0 32).
Record HpetTimerConfig : Type := mkTimerConfig {
  is_interrupt_level_triggered : bool; interrupt_enabled : bool; is_periodic : bool; is_periodic_capable : bool;
  is_64bit_capable : bool; timer_set_value : bool; force_32bit_mode : bool; interrupt_route : Z; interrupt_via_fsb : bool;
  fsb_capable : bool; interrupt_route_capabilities : Z }.
Definition config_new (data : Z) : HpetTimerConfig :=
  mkTimerConfig (bit data 1) (bit data 2) (bit data 3) (bit data 4) (bit data 5) (bit data 6) (bit data 7)
    (wrap 8 (Z.land (Z.shiftr data 9) 0x1F)) (bit data 14) (bit data 15) (wrap 32 (Z.land (Z.shiftr data 32) 0xFFFFFFFF)).
Definition set_if (b : bool) (i data : Z) : Z := if b then Z.lor data (Z.shiftl 1 i) else data.
Definition as_u64 (c : HpetTimerConfig) : Z :=
  let data := set_if (is_interrupt_level_triggered c) 1 0 in
  let data := set_if (interrupt_enabled c) 2 data in
  let data := set_if (is_periodic c) 3 data in
  let data := set_if (is_periodic_capable c) 4 data in
  let data := set_if (is_64bit_capable c) 5 data in
  let data := set_if (timer_set_value c) 6 data in
  let data := set_if (force_32bit_mode c) 7 data in
  let data := Z.lor data (Z.shiftl (interrupt_route c) 9) in
  let data := set_if (interrupt_via_fsb c) 14 data in
  let data := set_if (fsb_capable c) 15 data in
  Z.lor data (Z.shiftl (interrupt_route_capabilities c) 32).

(** ** Registers ([HpetMmio], [HpetTimerMmio]) *)
Definition GENERAL_CAPABILITIES : Z := 0x00.
Definition GENERAL_CONFIGURATION : Z := 0x10.
Definition GENERAL_INTERRUPT_STATUS : Z := 0x20.
Definition MAIN_COUNTER : Z := 0xF0.
Definition TIMER0_CONFIG : Z := 0x100.
Definition TIMER0_COMPARATOR : Z := 0x108.

Record Hpet : Type := mkHpetDev { mmio : Z }.

Section regs.
Context {H : Type} `{PortIo H} `{Platform H} `{Mmio64 H} `{Mmio H}.
Definition counter_clock_period (s : Hpet) : ST H Z :=
  v ← read64 (mmio s + GENERAL_CAPABILITIES); mret (Z.land (Z.shiftr v 32) 0xFFFFFFFF).
Definition current_counter (s : Hpet) : ST H Z := read64 (mmio s + MAIN_COUNTER).
Definition timer_config (s : Hpet) : ST H HpetTimerConfig := v ← read64 (mmio s + TIMER0_CONFIG); mret (config_new v).
Definition set_config (s : Hpet) (c : HpetTimerConfig) : ST H unit := write64 (mmio s + TIMER0_CONFIG) (as_u64 c).
Definition write_comparator_value (s : Hpet) (v : Z) : ST H unit := write64 (mmio s + TIMER0_COMPARATOR) v.
Definition set_general (s : Hpet) (i : Z) (enabled : bool) : ST H unit :=
  config ← read64 (mmio s + GENERAL_CONFIGURATION);
  write64 (mmio s + GENERAL_CONFIGURATION) (if enabled then Z.lor config (Z.shiftl 1 i) else Z.land config (unot 64 (Z.shiftl 1 i))).
Definition set_enabled (s : Hpet) (enabled : bool) : ST H unit := set_general s 0 enabled.
Definition set_enable_legacy_replacement_route (s : Hpet) (enabled : bool) : ST H unit := set_general s 1 enabled.

(** the loop over the routes the timer can use *)
Fixpoint find_routes (routes : list Z) (first_available above_15 : option Z) : ST H (option Z * option Z) :=
  match routes with
  | [] => mret (first_available, above_15)
  | route :: routes =>
      first_available ← (match first_available with
                         | Some _ => mret first_available
                         | None => a ← is_irq_assigned route; mret (if (a : bool) then None else Some route)
                         end);
      let above_15 := match above_15 with Some _ => above_15 | None => if 15 <? route then Some route else None end in
      match first_available, above_15 with
      | Some _, Some _ => mret (first_available, above_15)
      | _, _ => find_routes routes first_available above_15
      end
  end.
Definition set_up (c : HpetTimerConfig) (route : Z) : HpetTimerConfig :=
  mkTimerConfig false true true (is_periodic_capable c) (is_64bit_capable c) true false route false (fsb_capable c) (interrupt_route_capabilities c).
Definition new (hpet : Acpi.Hpet) : ST H Hpet :=
  _ ← Pit.disable;
  _ ← lift (assert_that (Acpi.address_space_id (Acpi.base_address hpet) =? 0));
  let s := mkHpetDev (Acpi.address (Acpi.base_address hpet)) in
  clock_period ← counter_clock_period s;
  config ← timer_config s;
  _ ← lift (assert_that (is_periodic_capable config));
  _ ← lift (assert_that (is_64bit_capable config));
  routes ← find_routes (bits_set (interrupt_route_capabilities config)) None None;
  chosen_route ← lift (unwrap (match snd routes with Some r => Some r | None => fst routes end));
  _ ← set_config s (set_up config chosen_route);
  comparator ← lift (cdiv FEMTOS_PER_SEC clock_period);
  _ ← write_comparator_value s comparator;
  _ ← write_comparator_value s comparator;
  _ ← assign_io_irq timer0_handler chosen_route;
  _ ← set_enabled s true;
  _ ← set_enable_legacy_replacement_route s false;
  mret s.

(** the time of [counter] ticks of [femtos_per_tick] *)
Definition ticks_time (counter femtos_per_tick : Z) : outcome ClockTime :=
  seconds_divider ← cdiv FEMTOS_PER_SEC femtos_per_tick;
  seconds ← cdiv counter seconds_divider;
  r ← cmod counter seconds_divider;
  nanoseconds ← cmul 64 r (femtos_per_tick / NANOS_PER_FEMTO);
  Ret (mkTime nanoseconds seconds).
Definition hpet_get_time (s : Hpet) : ST H ClockTime :=
  counter ← current_counter s;
  femtos_per_tick ← counter_clock_period s;
  lift (ticks_time counter femtos_per_tick).
Definition hpet_granularity (s : Hpet) : ST H Z :=
  p ← counter_clock_period s;
  mret (if p / NANOS_PER_FEMTO =? 0 then 1 else p / NANOS_PER_FEMTO).

(** [timer0_handler] *)
Definition handle_timer0 (s : Hpet) : ST H unit :=
  config ← timer_config s;
  _ ← (if is_interrupt_level_triggered config then
         status ← mmio_read (mmio s + GENERAL_INTERRUPT_STATUS);
         match bits_set status with
         | interrupt :: _ => mmio_write (mmio s + GENERAL_INTERRUPT_STATUS) (Z.shiftl 1 interrupt)
         | [] => mret tt
         end
       else mret tt);
  return_from_interrupt.
End regs.
End Hpet.

(** ** The time stamp counter *)
Module Tsc.
Definition NS_SCALE_SHIFT : Z := 32.
Definition FEAT_EDX_TSC : Z := Z.shiftl 1 4.
Definition cycles_to_ns (cycles nanos_per_cycle_scaled : Z) : Z := wrap 64 (Z.shiftr (cycles * nanos_per_cycle_scaled) NS_SCALE_SHIFT).
Record SyncPoint : Type := mkPoint { nanos : Z; cycles : Z }.
Record Tsc : Type := mkTsc { start_time : Z; nanos_per_cycle_scaled : Z; rd_tsc_call_latency : Z }.
Definition cycles_to_time_nanos (t : Tsc) (cycles : Z) : Z := cycles_to_ns cycles (nanos_per_cycle_scaled t).
Definition time_nanos_since_start (t : Tsc) (cycles : Z) : Z := wrap 64 (start_time t + cycles_to_time_nanos t cycles).
Definition tsc_granularity (t : Tsc) : Z := let n := cycles_to_time_nanos t 1 in if 0 <? n then n else 1.

Section tsc.
Context {D W : Type} `{ClockDevice D W} `{Cycles W} `{CpuRegs W}.

(** the least number of cycles that [m] takes, of [n] runs *)
Fixpoint least_latency (n : nat) (m : ST W unit) (latency : Z) : ST W Z :=
  match n with
  | O => mret latency
  | S n =>
      t1 ← read_tsc; _ ← m; t2 ← read_tsc;
      d ← lift (csub t2 t1);
      least_latency n m (latency `min` d)
  end.
Definition get_device_delay (tsc_latency : Z) (base : D) : ST W Z :=
  l ← least_latency 100 (_ ← get_time base; mret tt) (2 ^ 64 - 1);
  lift (csub l tsc_latency).

(** the loop of [get_sync_time_point], at most ten rounds *)
Fixpoint sync_rounds (n : nat) (tsc_latency : Z) (base : D) (good_latency min_cycles : Z) (p : SyncPoint) : ST W SyncPoint :=
  match n with
  | O => mret p
  | S n =>
      t1 ← read_tsc; device_time ← get_time base; t2 ← read_tsc;
      diff_tsc ← lift (csub t2 t1);
      if min_cycles <=? diff_tsc then sync_rounds n tsc_latency base good_latency min_cycles p else
      ns ← lift (as_nanos device_time);
      c ← lift (cadd 64 t1 tsc_latency);
      if diff_tsc <=? good_latency then mret (mkPoint ns c)
      else sync_rounds n tsc_latency base good_latency diff_tsc (mkPoint ns c)
  end.
Definition get_sync_time_point (tsc_latency : Z) (base : D) (device_latency : Z) : ST W SyncPoint :=
  good_latency ← lift (cadd 64 device_latency (device_latency / 2));
  sync_rounds 10 tsc_latency base good_latency (2 ^ 64 - 1) (mkPoint 0 0).

(** [while time - start < sleep_time] *)
Fixpoint sleep_loop (fuel : nat) (base : D) (start_ns sleep_time : Z) (time : ClockTime) : ST W unit :=
  match fuel with
  | O => diverge
  | S fuel =>
      now ← lift (as_nanos time);
      d ← lift (csub now start_ns);
      if d <? sleep_time then time ← get_time base; sleep_loop fuel base start_ns sleep_time time else mret tt
  end.
(** the two points give the scale and the origin *)
Definition scale (start_point end_point : SyncPoint) : outcome (Z * Z) :=
  ns_diff ← csub (nanos end_point) (nanos start_point);
  cycles_diff ← csub (cycles end_point) (cycles start_point);
  scaled_ns_per_cycle ← cdiv (Z.shiftl ns_diff NS_SCALE_SHIFT) cycles_diff;
  _ ← assert_that (scaled_ns_per_cycle <? 2 ^ 64);
  Ret (wrap 64 (nanos start_point - cycles_to_ns (cycles start_point) scaled_ns_per_cycle), scaled_ns_per_cycle).
Definition calibrate (fuel : nat) (tsc_latency : Z) (base : D) : ST W Tsc :=
  device_latency ← get_device_delay tsc_latency base;
  g ← granularity base;
  _ ← lift (assert_that (0 <? g));
  g1000 ← lift (cmul 64 g 1000);
  let sleep_time := (g1000 `max` 1000000) `min` NANOS_PER_SEC in
  start_point ← get_sync_time_point tsc_latency base device_latency;
  time ← get_time base;
  start_ns ← lift (as_nanos time);
  _ ← sleep_loop fuel base start_ns sleep_time time;
  end_point ← get_sync_time_point tsc_latency base device_latency;
  s ← lift (scale start_point end_point);
  mret (mkTsc (fst s) (snd s) tsc_latency).
(** a calibrated counter is compared with its base again *)
Definition recalibrate (fuel : nat) (t : Tsc) (base : D) : ST W Tsc :=
  device_latency ← get_device_delay (rd_tsc_call_latency t) base;
  end_point ← get_sync_time_point (rd_tsc_call_latency t) base device_latency;
  let expected_nanos := time_nanos_since_start t (cycles end_point) in
  diff ← lift (csub expected_nanos (nanos end_point));
  t ← (if 50000000 <? diff then calibrate fuel (rd_tsc_call_latency t) base else mret t);
  let start_ns := wrap 64 (nanos end_point - cycles_to_time_nanos t (cycles end_point)) in
  mret (mkTsc start_ns (nanos_per_cycle_scaled t) (rd_tsc_call_latency t)).
(** [Tsc::new] *)
Definition tsc_new (fuel : nat) (base : D) : ST W (option Tsc) :=
  edx ← cpuid_features;
  if Z.land edx FEAT_EDX_TSC =? 0 then mret None else
  latency ← least_latency 100 (mret tt) (2 ^ 64 - 1);
  t ← calibrate fuel latency base;
  mret (Some t).
Definition tsc_get_time (t : Tsc) : ST W ClockTime :=
  tsc ← read_tsc;
  let nanos := time_nanos_since_start t tsc in
  mret (mkTime (nanos mod NANOS_PER_SEC) (nanos / NANOS_PER_SEC)).
End tsc.
End Tsc.

(** ** The system time, over any devices *)
Module SystemTime.
Section time.
Context {D W : Type} `{ClockDevice D W}.
(** the real-time clock, and the nesting of disabled interrupts *)
Context (rtc : ST W Rtc.RtcTime) (cli sti : ST W unit) (fuel : nat).

Record SystemTime : Type := mkSystemTime { start_unix : ClockTime; last_tick : ClockTime; startup_offset : ClockTime; device : option D }.
Record Clock : Type := mkClock { devices : list D; system_time : SystemTime }.
Definition ZERO : ClockTime := mkTime 0 0.

Definition unix_seconds (t : Rtc.RtcTime) : outcome Z := r ← Rtc.seconds_since_unix_epoch t; unwrap r.
Definition system_time_new : ST W SystemTime :=
  time ← rtc;
  timestamp ← lift (unix_seconds time);
  mret (mkSystemTime (mkTime 0 timestamp) ZERO ZERO None).
Definition tick (self : SystemTime) : ST W SystemTime :=
  match device self with
  | None => mret self
  | Some d =>
      time ← get_time d;
      diff ← lift (time_sub time (last_tick self));
      offset ← lift (time_add (startup_offset self) diff);
      mret (mkSystemTime (start_unix self) time offset (device self))
  end.
(** wait for the next second to start *)
Fixpoint next_second (n : nat) (rtc_time : Rtc.RtcTime) : ST W Rtc.RtcTime :=
  match n with
  | O => diverge
  | S n =>
      new_rtc_time ← rtc;
      if Rtc.seconds new_rtc_time =? Rtc.seconds rtc_time then next_second n rtc_time else mret new_rtc_time
  end.
Definition update_device (new : D) (self : SystemTime) : ST W SystemTime :=
  match device self with
  | Some current =>
      if same new current then mret self else
      time ← get_time current;
      new_time ← get_time new;
      diff ← lift (time_sub time (last_tick self));
      offset ← lift (time_add (startup_offset self) diff);
      mret (mkSystemTime (start_unix self) new_time offset (Some new))
  | None =>
      _ ← cli;
      rtc_time ← rtc;
      rtc_time ← next_second fuel rtc_time;
      device_time ← get_time new;
      timestamp ← lift (unix_seconds rtc_time);
      _ ← sti;
      mret (mkSystemTime (mkTime 0 timestamp) device_time ZERO (Some new))
  end.

(** [sort_unstable_by_key(-rating)]; the devices of the kernel have different ratings *)
Fixpoint insert_by_rating (d : D) (l : list D) : list D :=
  match l with [] => [d] | x :: l => if rating d <=? rating x then x :: insert_by_rating d l else d :: x :: l end.
Definition sort_by_rating (l : list D) : list D := foldl (fun acc d => insert_by_rating d acc) [] l.

Definition clock_new : ST W Clock := t ← system_time_new; mret (mkClock [] t).
Definition add_device (d : D) (self : Clock) : ST W Clock :=
  let devs := sort_by_rating (devices self ++ [d]) in
  best ← lift (unwrap (head devs));
  t ← update_device best (system_time self);
  mret (mkClock devs t).
Definition get_best_for_calibration (self : Clock) : option D := head (List.filter (fun d => negb (require_calibration d)) (devices self)).
Definition tick_system_time (self : Clock) : ST W Clock := t ← tick (system_time self); mret (mkClock (devices self) t).
Definition time_since_startup (self : Clock) : ST W (ClockTime * Clock) :=
  c ← tick_system_time self; mret (startup_offset (system_time c), c).
Definition time_since_unix_epoch (self : Clock) : ST W (ClockTime * Clock) :=
  c ← tick_system_time self;
  t ← lift (time_add (start_unix (system_time c)) (startup_offset (system_time c)));
  mret (t, c).
End time.
Arguments SystemTime D : clear implicits.
Arguments Clock D : clear implicits.
End SystemTime.

(** ** The devices of the kernel *)
Module Timers.
Import SystemTime.
(** the hardware with [HPET_CLOCK] and [PIT_CLOCK] *)
Record Timers (H : Type) : Type := mkTimers { hw : H; hpet_clock : option Hpet.Hpet; pit_clock : option Pit.Pit }.
Arguments mkTimers {H}. Arguments hw {H}. Arguments hpet_clock {H}. Arguments pit_clock {H}.
(** [Arc<dyn ClockDevice>]: [HardwareTimer] or [Tsc] *)
Inductive Device : Type := HardwareHpet | HardwarePit | TscDevice (t : Tsc.Tsc).

Section timers.
Context {H : Type} `{PortIo H} `{Platform H} `{Mmio64 H} `{Mmio H} `{Cycles H} `{CpuRegs H}.
Definition on_hw {A} (m : ST H A) : ST (Timers H) A := fun w =>
  match m (hw w) with
  | Ret (a, h) => Ret (a, mkTimers h (hpet_clock w) (pit_clock w))
  | Panic => Panic
  | Diverge => Diverge
  end.
#[export] Instance timers_cycles : Cycles (Timers H) := { read_tsc := on_hw read_tsc }.
#[export] Instance timers_cpu : CpuRegs (Timers H) :=
  { cpuid_features := on_hw cpuid_features; msr_read r := on_hw (msr_read r); msr_write r v := on_hw (msr_write r v) }.

(** *** [pit.rs] *)
Definition with_pit {A} (f : Pit.Pit -> A * Pit.Pit) : ST (Timers H) A :=
  w ← get;
  p ← lift (unwrap (pit_clock w));
  _ ← put (mkTimers (hw w) (hpet_clock w) (Some (snd (f p))));
  mret (fst (f p)).
Definition get_elapsed : ST (Timers H) Z := counter ← on_hw Pit.read_counter; with_pit (Pit.swap_counter counter).
Definition tick_total_counter : ST (Timers H) Z :=
  elapsed ← get_elapsed;
  _ ← with_pit (fun p => (tt, Pit.add_total elapsed p));
  with_pit (fun p => (Pit.total_counter p, p)).
Definition pit_get_time : ST (Timers H) ClockTime := counter ← tick_total_counter; mret (Pit.pit_ticks_time counter).
Definition pit_init : ST (Timers H) unit :=
  _ ← on_hw push_cli;
  w ← get;
  _ ← lift (assert_that (match pit_clock w with None => true | Some _ => false end));
  p ← on_hw Pit.new;
  _ ← modify (fun w => mkTimers (hw w) (hpet_clock w) (Some p));
  on_hw pop_cli.
(** [pit_interrupt] *)
Definition handle_pit_interrupt : ST (Timers H) unit := _ ← tick_total_counter; on_hw return_from_interrupt.

(** *** [hpet.rs] *)
Definition hpet_init (table : Acpi.Hpet) : ST (Timers H) unit :=
  _ ← on_hw push_cli;
  w ← get;
  _ ← lift (assert_that (match hpet_clock w with None => true | Some _ => false end));
  s ← on_hw (Hpet.new table);
  _ ← modify (fun w => mkTimers (hw w) (Some s) (pit_clock w));
  on_hw pop_cli.
Definition with_hpet {A} (m : Hpet.Hpet -> ST H A) : ST (Timers H) A :=
  w ← get; s ← lift (unwrap (hpet_clock w)); on_hw (m s).

(** *** [HardwareTimer::init] *)
Definition hardware_timer_init (allow_hpet : bool) (hpet_table : option Acpi.Hpet) : ST (Timers H) Device :=
  match hpet_table with
  | Some table => if allow_hpet then _ ← hpet_init table; mret HardwareHpet else _ ← pit_init; mret HardwarePit
  | None => _ ← pit_init; mret HardwarePit
  end.

#[export] Instance device_clock : ClockDevice Device (Timers H) := {
  get_time d := match d with HardwareHpet => with_hpet Hpet.hpet_get_time | HardwarePit => pit_get_time | TscDevice t => Tsc.tsc_get_time t end;
  granularity d := match d with HardwareHpet => with_hpet Hpet.hpet_granularity | HardwarePit => mret (Pit.PIT_TICK_PERIOD_FEMTOS / NANOS_PER_FEMTO) | TscDevice t => mret (Tsc.tsc_granularity t) end;
  require_calibration d := match d with TscDevice _ => true | _ => false end;
  rating d := match d with HardwareHpet => 50 | HardwarePit => 40 | TscDevice _ => 100 end;
  same a b := match a, b with HardwareHpet, HardwareHpet | HardwarePit, HardwarePit | TscDevice _, TscDevice _ => true | _, _ => false end
}.

(** *** [init] *)
Definition century_of (ts : list Acpi.DescriptorTable) : option Z :=
  head (omap (fun t => match Acpi.t_body t with Acpi.FacpT f => Some (Acpi.century f) | _ => None end) ts).
Definition hpet_of (ts : list Acpi.DescriptorTable) : option Acpi.Hpet :=
  head (omap (fun t => match Acpi.t_body t with Acpi.HpetT h => Some h | _ => None end) ts).
Definition init (fuel : nat) (allow_hpet : bool) (tables : Acpi.BiosTables) : ST (Timers H) (Clock Device) :=
  let ts := Acpi.entries (Acpi.bios_rsdt tables) in
  let rtc := on_hw (Rtc.get_time fuel (Rtc.new (century_of ts))) in
  let add := add_device rtc (on_hw push_cli) (on_hw pop_cli) fuel in
  clock ← clock_new rtc;
  hardware_timer ← hardware_timer_init allow_hpet (hpet_of ts);
  clock ← add hardware_timer clock;
  base ← lift (unwrap (get_best_for_calibration clock));
  tsc ← Tsc.tsc_new fuel base;
  match tsc with
  | Some t => add (TscDevice t) clock
  | None => mret clock
  end.
End timers.
End Timers.
