(* ===== verification/ClocksSpec.v ===== *)
(** * Clocks: what they tell

    The real-time clock against the calendar and against a chip whose second
    may change while it is read; the system time against devices that do not
    go back ([ClockLaws]), with the timers of the kernel as instances; and the
    accuracy of a calibrated time stamp counter. *)
From S2P Require Import Prelude UserLink FsTypes Bytes AmlData Resource Aml AmlTree AcpiTables Apic Context Clocks.
Import Context.Clock.

(** ** The calendar *)
Section calendar.
Import Rtc.
Definition leap (y : Z) : bool := (y mod 4 =? 0) && (negb (y mod 100 =? 0) || (y mod 400 =? 0)).
Definition days_in_month (y m : Z) : Z :=
  nth (Z.to_nat (m - 1)) [31; if leap y then 29 else 28; 31; 30; 31; 30; 31; 31; 30; 31; 30; 31] 0.
Definition days_in_year (y : Z) : Z := if leap y then 366 else 365.
(** the days of the [n] years from 1970 on, and of the months of year [y] before month [m] *)
Fixpoint days_of_years (n : nat) : Z := match n with O => 0 | S n => days_of_years n + days_in_year (1970 + Z.of_nat n) end.
Definition days_of_months (y m : Z) : Z := foldr Z.add 0 (days_in_month y <$> (Z.of_nat <$> seq 1 (Z.to_nat (m - 1)))).

Record valid (t : RtcTime) : Prop := {
  v_year : 1970 <= year t < 2 ^ 16;
  v_month : 1 <= month t <= 12;
  v_day : 1 <= day_of_month t <= days_in_month (year t) (month t);
  v_hours : 0 <= hours t < 24;
  v_minutes : 0 <= minutes t < 60;
  v_seconds : 0 <= seconds t < 60
}.
(** seconds since the first of January 1970, counted day by day *)
Definition unix_time (t : RtcTime) : Z :=
  (days_of_years (Z.to_nat (year t - 1970)) + days_of_months (year t) (month t) + (day_of_month t - 1)) * 86400
  + hours t * 3600 + minutes t * 60 + seconds t.

Lemma div_step q l : 0 < q -> (l + 1) / q = l / q + (if (l + 1) mod q =? 0 then 1 else 0).
Proof.
  intros Hq. pose proof (Z.div_mod l q). pose proof (Z.mod_pos_bound l q Hq). destruct (Z.eqb_spec ((l + 1) mod q) 0) as [E|E].
  - pose proof (Z.div_mod (l + 1) q). nia.
  - pose proof (Z.div_mod (l + 1) q). pose proof (Z.mod_pos_bound (l + 1) q Hq). nia.
Qed.
Lemma days_of_years_closed n : let l := 1969 + Z.of_nat n in days_of_years n = l * 365 + l / 4 - l / 100 + l / 400 - 719162.
Proof.
  induction n as [|n IH]; [done|]. cbv zeta in *. cbn [days_of_years]. rewrite IH.
  replace (1969 + Z.of_nat (S n)) with (1969 + Z.of_nat n + 1) by lia. replace (1970 + Z.of_nat n) with (1969 + Z.of_nat n + 1) by lia.
  set (l := 1969 + Z.of_nat n). rewrite !div_step by lia. unfold days_in_year, leap.
  destruct (Z.eqb_spec ((l + 1) mod 4) 0), (Z.eqb_spec ((l + 1) mod 100) 0), (Z.eqb_spec ((l + 1) mod 400) 0); cbn [andb orb negb]; try lia; exfalso; dlia.
Qed.
Lemma days_of_years_nonneg n : 0 <= days_of_years n.
Proof. induction n as [|n IH]; [done|]. cbn [days_of_years]. unfold days_in_year. destruct (leap _); lia. Qed.
(** the table of the source is for a year that is not a leap year *)
Lemma month_table y m : 1 <= m <= 12 -> DAYS_PER_MONTH_ARRAY !! Z.to_nat (m - 1) = Some (days_of_months y m - (if (2 <? m) && leap y then 1 else 0)).
Proof.
  intros Hm. unfold days_of_months, days_in_month.
  assert (m = 1 \/ m = 2 \/ m = 3 \/ m = 4 \/ m = 5 \/ m = 6 \/ m = 7 \/ m = 8 \/ m = 9 \/ m = 10 \/ m = 11 \/ m = 12) as Hc by lia.
  by destruct Hc as [->|[->|[->|[->|[->|[->|[->|[->|[->|[->|[->| ->]]]]]]]]]]]; destruct (leap y).
Qed.
Lemma days_of_months_bounds y m : 1 <= m <= 12 -> 0 <= days_of_months y m <= 335 /\ days_in_month y m <= 31.
Proof.
  intros Hm. unfold days_of_months, days_in_month.
  assert (m = 1 \/ m = 2 \/ m = 3 \/ m = 4 \/ m = 5 \/ m = 6 \/ m = 7 \/ m = 8 \/ m = 9 \/ m = 10 \/ m = 11 \/ m = 12) as Hc by lia.
  by destruct Hc as [->|[->|[->|[->|[->|[->|[->|[->|[->|[->|[->| ->]]]]]]]]]]]; destruct (leap y); (repeat split); vm_compute; congruence.
Qed.

Lemma epoch_seconds t : valid t -> seconds_since_unix_epoch t = Ret (Some (unix_time t)).
Proof.
  intros [Vy Vm Vd Vh Vi Vs]. unfold seconds_since_unix_epoch, SECONDS_PER_DAY, SECONDS_PER_HOUR, SECONDS_PER_MINUTE, UNIX_EPOCH_IN_SECONDS.
  rewrite (proj2 (Z.ltb_ge _ _)) by lia. pose proof (days_of_months_bounds (year t) (month t) Vm) as [B1 B2].
  pose proof (days_of_years_closed (Z.to_nat (year t - 1970))) as Ey. cbv zeta in Ey. replace (1969 + Z.of_nat (Z.to_nat (year t - 1970))) with (year t - 1) in Ey by lia.
  pose proof (days_of_years_nonneg (Z.to_nat (year t - 1970))) as Ny. set (l := year t - 1) in *. assert (0 <= l / 4 < 2 ^ 16 /\ 0 <= l / 100 < 2 ^ 16 /\ 0 <= l / 400 < 2 ^ 16 /\ l / 100 <= l / 4) as (L1 & L2 & L3 & L4) by (unfold l; dlia).
  rewrite (cadd_ret 64 (l * 365)) by lia. cbn [mbind outcome_bind]. rewrite (csub_ret (_ + _)) by lia. cbn [mbind outcome_bind].
  rewrite (cadd_ret 64 (_ - _)) by lia. cbn [mbind outcome_bind]. rewrite (csub_ret (month t)) by lia. cbn [mbind outcome_bind].
  rewrite (month_table (year t)) by done. cbn [unwrap mbind outcome_bind].
  rewrite <-andb_assoc. fold (leap (year t)). set (k := if (2 <? month t) && leap (year t) then 1 else 0).
  replace (if (2 <? month t) && leap (year t) then 0 else 1) with (1 - k) by (unfold k; by destruct (_ && _)).
  assert (0 <= k <= 1) by (unfold k; destruct (_ && _); lia). unfold unix_time. rewrite Ey.
  assert (0 <= days_of_months (year t) (month t) - k). { pose proof (month_table (year t) (month t) Vm) as Em. fold k in Em. apply list_elem_of_lookup_2 in Em. unfold DAYS_PER_MONTH_ARRAY in Em. set_unfold. lia. }
  repeat (first [rewrite cadd_ret by lia|rewrite csub_ret by lia|rewrite cmul_ret by lia]; cbn [mbind outcome_bind]).
  do 2 f_equal. lia.
Qed.
End calendar.

(** ** A chip whose second may change while it is read *)
(** what may happen during an access: nothing, or the one change that is coming *)
Definition passes {H} (shows : H -> Z -> Z) (pending : H -> option (Z -> Z)) (h h' : H) : Prop :=
  (shows h' = shows h /\ pending h' = pending h) \/ (pending h = Some (shows h') /\ pending h' = None).
(** [shows] are the registers; the flag of a running update is off after at most [polls] looks at it *)
Class RtcLaws (H : Type) `{PortIo H} (polls : nat) : Type := {
  shows : H -> Z -> Z;
  pending : H -> option (Z -> Z);
  busy : H -> nat;
  busy_bound : forall h, (busy h < polls)%nat;
  rtc_reads : forall h reg, reg <> Rtc.RTC_STATUS_A -> exists h1 h2,
    io_out 1 Rtc.RTC_ADDRESS reg h = Ret (tt, h1) /\ io_in 1 Rtc.RTC_DATA h1 = Ret (shows h2 reg, h2) /\ passes shows pending h h2;
  rtc_updates : forall h, exists h1 v h2,
    io_out 1 Rtc.RTC_ADDRESS Rtc.RTC_STATUS_A h = Ret (tt, h1) /\ io_in 1 Rtc.RTC_DATA h1 = Ret (v, h2) /\ passes shows pending h h2 /\
    (Z.land v 0x80 = 0 \/ (busy h2 < busy h)%nat)
}.

Section chip.
Import Rtc.
Context {H : Type} `{RtcLaws H polls} (P : Prop) (self : Rtc).
Implicit Types (h : H).

(** the registers as [get_time_sync] returns them *)
Definition image (c : Z -> Z) : RtcTime * Z :=
  (mkRtcTime (c RTC_SECONDS) (c RTC_MINUTES) (c RTC_HOURS) (c RTC_DAY_OF_MONTH) (c RTC_MONTH) (c RTC_YEAR),
   match century_reg self with Some r => c r | None => 0 end).

(** since [h0]: still the old registers, or already the new ones *)
Definition old h0 h : Prop := shows h = shows h0 /\ pending h = pending h0.
Definition changed h0 h : Prop := pending h0 = Some (shows h) /\ pending h = None.
Lemma passes_since h0 h h' : passes shows pending h h' -> old h0 h \/ changed h0 h ->
  (old h0 h' \/ changed h0 h') /\ (changed h0 h -> changed h0 h').
Proof. unfold passes, old, changed. intros [[E1 E2]|[E1 E2]] [[F1 F2]|[F1 F2]]; (split; [|intros [G1 G2]; split; congruence]); first [left; split; congruence|right; split; congruence]. Qed.

Lemma wp_rtc_register h0 h reg (Q : Z -> H -> Prop) : reg <> RTC_STATUS_A -> old h0 h \/ changed h0 h ->
  (forall h', old h0 h' \/ changed h0 h' -> (changed h0 h -> changed h0 h') -> Q (shows h' reg) h') -> wp P (read_register reg) h Q.
Proof.
  intros Hr Hh HQ. destruct (rtc_reads h reg Hr) as (h1 & h2 & E1 & E2 & Hp). unfold read_register. apply wp_bind. unfold wp at 1. rewrite E1.
  unfold wp. rewrite E2. destruct (passes_since h0 h h2 Hp Hh). by apply HQ.
Qed.
Lemma wp_wait_updated h0 (Q : unit -> H -> Prop) n : forall h, (busy h < n)%nat -> old h0 h \/ changed h0 h ->
  (forall h', old h0 h' \/ changed h0 h' -> Q tt h') -> wp P (wait_updated n) h Q.
Proof.
  induction n as [|n IH]; intros h Hb Hh HQ; [lia|]. cbn [wait_updated]. apply wp_bind. unfold is_updating. apply wp_bind.
  destruct (rtc_updates h) as (h1 & v & h2 & E1 & E2 & Hp & Hv). unfold read_register. apply wp_bind. unfold wp at 1. rewrite E1.
  unfold wp at 1. rewrite E2. apply wp_ret. destruct (passes_since h0 h h2 Hp Hh) as [Hh2 _].
  destruct Hv as [->|Hv]; [by apply wp_ret, HQ|]. destruct (negb _); [apply IH; [lia|done|done]|by apply wp_ret, HQ].
Qed.

(** one round of the loop: the registers, if the second did not change, or a mixture *)
Definition settled h h' (r : RtcTime * Z) : Prop :=
  (old h h' /\ r = image (shows h)) \/ (changed h h' /\ (month (fst r) = shows h RTC_MONTH \/ month (fst r) = shows h' RTC_MONTH) /\
    (century_reg self = None -> snd r = 0)).
Lemma wp_round fuel n t century h (Q : RtcTime * Z -> H -> Prop) :
  century_reg self <> Some RTC_STATUS_A -> (century_reg self = None -> century = 0) -> (polls <= fuel)%nat ->
  (forall h' r, settled h h' r -> wp P (if decide (fst r = t /\ snd r = century) then mret (t, century) else sync_loop fuel self n (fst r) (snd r)) h' Q) ->
  wp P (sync_loop fuel self (S n) t century) h Q.
Proof.
  intros Ha Hc Hf HQ. cbn [sync_loop]. apply wp_bind. assert (old h h \/ changed h h) as K0 by (by left).
  apply (wp_wait_updated h); [pose proof (busy_bound h); lia|done|]. intros h1 K1. unfold read_time. apply wp_bind.
  apply wp_bind, (wp_rtc_register h); [done|done|]. intros h2 K2 C2. apply wp_bind, (wp_rtc_register h); [done|done|]. intros h3 K3 C3.
  apply wp_bind, (wp_rtc_register h); [done|done|]. intros h4 K4 C4. apply wp_bind, (wp_rtc_register h); [done|done|]. intros h5 K5 C5.
  apply wp_bind, (wp_rtc_register h); [done|done|]. intros h6 K6 C6. apply wp_bind, (wp_rtc_register h); [done|done|]. intros h7 K7 C7.
  apply wp_ret, wp_bind.
  assert (forall h' v, old h h' \/ changed h h' -> (changed h h7 -> changed h h') -> (century_reg self = None -> v = 0) ->
    (forall r, century_reg self = Some r -> v = shows h' r) -> settled h h' (mkRtcTime (shows h2 RTC_SECONDS) (shows h3 RTC_MINUTES) (shows h4 RTC_HOURS) (shows h5 RTC_DAY_OF_MONTH) (shows h6 RTC_MONTH) (shows h7 RTC_YEAR), v)) as Hs.
  { intros h' v [Ho|Hch] C8 N0 N1.
    - left. split; [done|]. assert (forall hk, old h hk \/ changed h hk -> (changed h hk -> changed h h') -> shows hk = shows h) as Hall.
      { intros hk [[-> _]|Hk] Ck; [done|]. destruct Ho as [_ Ho], (Ck Hk) as [E1 E2]. congruence. }
      rewrite (Hall h2), (Hall h3), (Hall h4), (Hall h5), (Hall h6), (Hall h7) by (done || auto 10). unfold image. f_equal.
      destruct (century_reg self) as [r|]; [|by apply N0]. rewrite (N1 r eq_refl). by destruct Ho as [-> _].
    - right. split; [done|]. split; [|done]. cbn [fst month]. destruct K6 as [[-> _]|[E _]]; [by left|right]. destruct Hch as [E' _]. congruence. }
  destruct (century_reg self) as [r|] eqn:Er.
  - apply (wp_rtc_register h); [by intros ->|done|]. intros h8 K8 C8. apply (HQ h8 (_, _)). apply Hs; [done|done|done|]. by intros r' [= ->].
  - apply wp_ret. apply (HQ h7 (_, _)). by apply Hs.
Qed.

Lemma wp_rounds_settled fuel n t century h (Q : RtcTime * Z -> H -> Prop) :
  century_reg self <> Some RTC_STATUS_A -> (century_reg self = None -> century = 0) -> (polls <= fuel)%nat -> pending h = None -> (2 <= n)%nat ->
  (forall h', shows h' = shows h -> pending h' = None -> Q (image (shows h)) h') -> wp P (sync_loop fuel self n t century) h Q.
Proof.
  intros Ha Hc Hf Hp Hn HQ. destruct n as [|[|n]]; [lia|lia|].
  assert (forall t c m h1, (century_reg self = None -> c = 0) -> shows h1 = shows h -> pending h1 = None ->
    (forall h2, shows h2 = shows h -> pending h2 = None -> image (shows h) <> (t, c) -> wp P (sync_loop fuel self m (fst (image (shows h))) (snd (image (shows h)))) h2 Q) ->
    wp P (sync_loop fuel self (S m) t c) h1 Q) as Hround.
  { intros t1 c m h1 Hc1 E1 E2 Hnext. apply wp_round; [done|done|done|]. intros h' r [[[F1 F2] ->]|[[F _] _]]; [|congruence].
    rewrite E1 in *. destruct (decide _) as [[<- <-]|N].
    - apply wp_ret. rewrite <-surjective_pairing. apply HQ; congruence.
    - apply Hnext; [done|congruence|]. intros E. apply N. by rewrite E. }
  apply Hround; [done|done|done|]. intros h1 E1 E2 _. apply Hround; [|done|done|].
  { intros E. cbn. by rewrite E. }
  intros h2 _ _ N. by rewrite <-surjective_pairing in N.
Qed.

Lemma wp_get_time_sync fuel h (Q : RtcTime * Z -> H -> Prop) :
  century_reg self <> Some RTC_STATUS_A -> (polls `max` 4 <= fuel)%nat -> shows h RTC_MONTH <> 0 ->
  (forall c, pending h = Some c -> c RTC_MONTH <> 0) ->
  (forall h' c, c = shows h \/ pending h = Some c -> old h h' \/ changed h h' -> Q (image c) h') -> wp P (get_time_sync fuel self) h Q.
Proof.
  intros Ha Hf Hm Hm' HQ. unfold get_time_sync. destruct fuel as [|[|[|fuel]]]; [lia..|].
  set (F := S (S (S fuel))) at 1. assert (polls <= F)%nat by lia.
  assert (forall n t c h', (2 <= n)%nat -> (century_reg self = None -> c = 0) -> changed h h' -> wp P (sync_loop F self n t c) h' Q) as Hafter.
  { intros n t c h' Hn Hc [E1 E2]. apply wp_rounds_settled; [done|done|done|done|done|]. intros h2 F1 F2. apply HQ; [by right|]. right. split; congruence. }
  apply wp_round; [done|done|done|]. intros h1 r [[Ho ->]|(Hch & Hmo & Hc)].
  - destruct (decide _) as [[E _]|_]; [apply (f_equal month) in E; cbn in E; congruence|].
    apply wp_round; [done| |done|].
    { intros E. cbn. by rewrite E. }
    intros h2 r [[Ho2 ->]|(Hch & _ & Hc)].
    + destruct Ho as [O1 O2], Ho2 as [O3 O4]. rewrite O1. rewrite decide_True by done. apply wp_ret. rewrite <-surjective_pairing. apply HQ; [by left|]. left. split; congruence.
    + assert (changed h h2) as Hch2 by (destruct Ho as [O1 O2], Hch as [C1 C2]; split; congruence).
      destruct (decide _) as [[E1 E2]|_]; [|apply Hafter; [lia|done|done]].
      apply wp_ret. rewrite <-surjective_pairing. apply HQ; [by left|by right].
  - destruct (decide _) as [[E _]|_]; [|apply Hafter; [lia|done|done]]. exfalso. rewrite E in Hmo. cbn in Hmo.
    destruct Hmo as [Hmo|Hmo]; [congruence|]. destruct Hch as [E1 _]. by apply (Hm' _ E1).
Qed.
End chip.

(** ** From the registers to the time *)
Section reading.
Import Rtc.
Definition to_bcd (x : Z) : Z := x / 10 * 16 + x mod 10.
(** the hour as it stands in its register: bit 1 of the status register is set
    on a clock of 24 hours; one of twelve counts from 1 to 12, the afternoon
    with the highest bit *)
Definition hour_shown (status : Z) (enc : Z -> Z) (h : Z) : Z :=
  if Z.testbit status 1 then enc h else enc ((h - 1) mod 12 + 1) + (if 12 <=? h then 0x80 else 0).
(** the registers [c] show the time [t] in the format that the status register
    says; of a clock of twelve hours, a time outside the hours of noon and midnight *)
Record displays (self : Rtc) (c : Z -> Z) (t : RtcTime) : Prop := {
  ds_valid : valid t;
  ds_year : year t < 10000;
  ds_fields : let enc := if Z.land (c RTC_STATUS_B) 4 =? 0 then to_bcd else id in
    c RTC_SECONDS = enc (seconds t) /\ c RTC_MINUTES = enc (minutes t) /\ c RTC_HOURS = hour_shown (c RTC_STATUS_B) enc (hours t) /\
    c RTC_DAY_OF_MONTH = enc (day_of_month t) /\ c RTC_MONTH = enc (month t) /\ c RTC_YEAR = enc (year t mod 100) /\
    match century_reg self with Some r => c r = enc (year t / 100) | None => year t / 100 = CURRENT_CENTURY end;
  ds_twelve : Z.testbit (c RTC_STATUS_B) 1 = false -> hours t mod 12 <> 0
}.

Lemma from_to_bcd x : 0 <= x < 100 -> from_bcd (to_bcd x) = x.
Proof. intros Hx. unfold from_bcd, to_bcd. change 0x0F with (2 ^ 4 - 1). rewrite land_mask by lia. change (2 ^ 4) with 16. dlia. Qed.
Lemma small_cases (f : Z -> bool) n : forallb f (Z.of_nat <$> seq 0 n) = true -> forall x, 0 <= x < Z.of_nat n -> f x = true.
Proof.
  intros Hf x Hx. rewrite forallb_forall in Hf. apply Hf. apply list_elem_of_In, list_elem_of_fmap. exists (Z.to_nat x). split; [lia|]. apply elem_of_seq. lia.
Qed.
(** what the reader makes of the register of the hour *)
Definition hour_read (bcd : bool) (v : Z) : Z :=
  let h := if bcd then Z.lor (Z.land v 0x0F + Z.land v 0x70 / 16 * 10) (Z.land v 0x80) else v in
  if negb (Z.land h 0x80 =? 0) then (Z.land h 0x7F + 12) mod 24 else h.
Lemma hour_roundtrip status (bcd : bool) x : 0 <= x < 24 -> (Z.testbit status 1 = false -> x mod 12 <> 0) ->
  hour_read bcd (hour_shown status (if bcd then to_bcd else id) x) = x.
Proof.
  intros Hx Hm. unfold hour_shown. destruct (Z.testbit status 1).
  - set (f b x := hour_read b ((if b : bool then to_bcd else id) x) =? x). apply Z.eqb_eq. change (f bcd x = true). destruct bcd; by apply (small_cases (f _) 24).
  - specialize (Hm eq_refl). set (f b x := (x mod 12 =? 0) || (hour_read b ((if b : bool then to_bcd else id) ((x - 1) mod 12 + 1) + (if 12 <=? x then 0x80 else 0)) =? x)).
    assert (f bcd x = true) as Hf by (destruct bcd; by apply (small_cases (f _) 24)).
    unfold f in Hf. apply orb_true_iff in Hf as [E%Z.eqb_eq|E%Z.eqb_eq]; [done|exact E].
Qed.

Lemma decode_displays self c t : displays self c t ->
  decode self (Z.land (c RTC_STATUS_B) 4 =? 0) (fst (image self c)) (snd (image self c)) = t.
Proof.
  intros [[Vy Vm Vd Vh Vi Vs] Y (E1 & E2 & E3 & E4 & E5 & E6 & E7) Hm].
  pose proof (hour_roundtrip (c RTC_STATUS_B) (Z.land (c RTC_STATUS_B) 4 =? 0) (hours t) Vh Hm) as Eh. rewrite <- E3 in Eh. clear E3.
  pose proof (days_of_months_bounds (year t) (month t) Vm) as [_ B]. assert (year t = year t mod 100 + year t / 100 * 100) as Ey by dlia.
  unfold image, decode. cbn [fst snd seconds minutes hours day_of_month month year]. rewrite E1, E2, E4, E5, E6. clear E1 E2 E4 E5 E6.
  destruct (Z.land (c RTC_STATUS_B) 4 =? 0); cbn [andb]; unfold hour_read in Eh; cbv zeta in Eh.
  - unfold decode_bcd. cbn [seconds minutes hours day_of_month month year]. rewrite !from_to_bcd by dlia.
    rewrite Eh. destruct (century_reg self); [rewrite E7, from_to_bcd by dlia|rewrite <-E7]; destruct t; cbn in *; f_equal; lia.
  - cbn [seconds minutes hours day_of_month month year]. rewrite Eh. unfold id in *. destruct (century_reg self); [rewrite E7|rewrite <-E7]; destruct t; cbn in *; f_equal; lia.
Qed.
Lemma displays_month self c t : displays self c t -> c RTC_MONTH <> 0.
Proof. intros [[_ Vm _ _ _ _] _ (_ & _ & _ & _ & E & _) _]. rewrite E. destruct (_ =? _); unfold to_bcd, id; dlia. Qed.

(** C37: The clock is never torn: read while its second changes, it gives the
    time before or after the change, in binary or in decimal digits, with or
    without a register for the century, on a clock of 24 hours or, outside the
    hours of noon and midnight, of twelve; and the seconds since 1970 are those
    of the calendar. *)
Theorem rtc_reads_calendar {H : Type} `{RtcLaws H polls} (self : Rtc) (fuel : nat) (h : H) t :
  century_reg self <> Some RTC_STATUS_A -> (polls `max` 4 <= fuel)%nat -> displays self (shows h) t ->
  (forall c, pending h = Some c -> c RTC_STATUS_B = shows h RTC_STATUS_B /\ exists t', displays self c t') ->
  exists c t' h', (c = shows h \/ pending h = Some c) /\ displays self c t' /\
    Rtc.get_time fuel self h = Ret (t', h') /\ seconds_since_unix_epoch t' = Ret (Some (unix_time t')).
Proof.
  intros Ha Hf Hd Hp.
  destruct (wp_total (Rtc.get_time fuel self) h (fun t' h' => exists c, (c = shows h \/ pending h = Some c) /\ displays self c t')) as (t' & h' & E & c & Hc & Hd').
  - unfold Rtc.get_time. apply wp_bind. apply wp_get_time_sync; [done|done|by eapply displays_month| |].
    { intros c Ec. destruct (Hp c Ec) as (_ & t' & Hd'). by eapply displays_month. }
    intros h1 c Hc Hh1. unfold is_bcd. apply wp_bind, wp_bind, (wp_rtc_register _ h); [done|done|]. intros h2 Hh2 _. apply wp_ret, wp_ret. exists c. split; [done|].
    assert (shows h2 RTC_STATUS_B = c RTC_STATUS_B) as ->.
    { assert (c RTC_STATUS_B = shows h RTC_STATUS_B) as -> by (destruct Hc as [->|Hc]; [done|by apply Hp]).
      destruct Hh2 as [[-> _]|[E2 _]]; [done|by apply Hp]. }
    destruct Hc as [->|Hc]; [by rewrite (decode_displays _ _ _ Hd)|]. destruct (Hp c Hc) as (_ & t' & Hd'). by rewrite (decode_displays _ _ _ Hd').
  - exists c, t', h'. split_and!; [done|done|done|]. apply epoch_seconds. apply Hd'.
Qed.
End reading.

(** ** The system time *)
(** A century of centuries, in seconds; no device runs longer. *)
Definition LIMIT : Z := 2 ^ 40.
(** A device that can be read: [seen] is the least time that it can still show. *)
Class ClockLaws (D W : Type) `{ClockDevice D W} : Type := {
  ready : D -> W -> Prop;
  seen : D -> W -> Z;
  shows_time : forall d w, ready d w -> exists t w', get_time d w = Ret (t, w') /\ time_ok t /\ Context.Clock.seconds t < LIMIT /\
    seen d w <= instant t <= seen d w' /\ forall d', ready d' w -> ready d' w' /\ seen d' w <= seen d' w'
}.

Section system_time.
Import SystemTime.
Context {D W : Type} `{ClockLaws D W}.
Context (rtc : ST W Rtc.RtcTime) (cli sti : ST W unit) (fuel : nat).
Implicit Types (c : Clock D) (w : W) (d : D).

(** what the rest of the kernel does with the clock, and what it is told *)
Inductive op : Type := Tick | Startup | Unix | Add (d : D).
Inductive answer : Type := AStartup (t : ClockTime) | AUnix (t : ClockTime).
Definition run_op (o : op) (c : Clock D) : ST W (list answer * Clock D) :=
  match o with
  | Tick => c ← tick_system_time c; mret ([], c)
  | Startup => r ← time_since_startup c; mret ([AStartup (fst r)], snd r)
  | Unix => r ← time_since_unix_epoch c; mret ([AUnix (fst r)], snd r)
  | Add d => c ← add_device rtc cli sti fuel d c; mret ([], c)
  end.
Fixpoint run_ops (os : list op) (c : Clock D) : ST W (list answer * Clock D) :=
  match os with
  | [] => mret ([], c)
  | o :: os => r ← run_op o c; rs ← run_ops os (snd r); mret (fst r ++ fst rs, snd rs)
  end.
(** the nanoseconds since the start that an answer means *)
Definition since (start : ClockTime) (a : answer) : Z := match a with AStartup t => instant t | AUnix t => instant t - instant start end.
Definition answer_time (a : answer) : ClockTime := match a with AStartup t | AUnix t => t end.
Fixpoint ascending (x : Z) (l : list Z) : Prop := match l with [] => True | y :: l => x <= y /\ ascending y l end.
Definition adds (o : op) : bool := match o with Add _ => true | _ => false end.
Definition may_add w (o : op) : Prop := match o with Add d => ready d w | _ => True end.

(** after [n] operations *)
Record sound (n : nat) c w : Prop := {
  so_devices : Forall (fun d => ready d w) (devices c);
  so_start : time_ok (start_unix (system_time c)) /\ Context.Clock.seconds (start_unix (system_time c)) < LIMIT;
  so_offset : time_ok (startup_offset (system_time c)) /\ instant (startup_offset (system_time c)) <= Z.of_nat n * (LIMIT * NANOS_PER_SEC);
  so_device : exists d, device (system_time c) = Some d /\ ready d w /\ time_ok (last_tick (system_time c)) /\ instant (last_tick (system_time c)) <= seen d w
}.

Lemma instant_bound t : time_ok t -> Context.Clock.seconds t < LIMIT -> 0 <= instant t < LIMIT * NANOS_PER_SEC.
Proof. unfold time_ok, instant, in_word, NANOS_PER_SEC, LIMIT. lia. Qed.
Lemma seconds_bound t x : time_ok t -> instant t <= x -> Context.Clock.seconds t <= x / NANOS_PER_SEC.
Proof. unfold time_ok, instant, in_word, NANOS_PER_SEC. intros. dlia. Qed.

(** reading the device in use: the offset grows by what the device moved *)
Lemma advance_offset n (st : SystemTime.SystemTime D) d w : (Z.of_nat n < 2 ^ 20) -> time_ok (startup_offset st) -> instant (startup_offset st) <= Z.of_nat n * (LIMIT * NANOS_PER_SEC) ->
  ready d w -> time_ok (last_tick st) -> instant (last_tick st) <= seen d w ->
  exists t w' diff offset, get_time d w = Ret (t, w') /\ time_sub t (last_tick st) = Ret diff /\ time_add (startup_offset st) diff = Ret offset /\
    time_ok t /\ time_ok offset /\ instant offset = instant (startup_offset st) + (instant t - instant (last_tick st)) /\ instant (last_tick st) <= instant t <= seen d w' /\
    instant offset <= Z.of_nat (S n) * (LIMIT * NANOS_PER_SEC) /\ forall d', ready d' w -> ready d' w' /\ seen d' w <= seen d' w'.
Proof.
  intros Hn Ho Hb Hr Hl Hs. destruct (shows_time d w Hr) as (t & w' & E & Ht & Hlim & [S1 S2] & Hall).
  pose proof (instant_bound t Ht Hlim) as Bt. assert (0 <= instant (last_tick st)) by (destruct Hl as [? ?]; unfold instant, in_word, NANOS_PER_SEC in *; lia).
  destruct (time_sub_spec t (last_tick st) Ht Hl) as (diff & Ed & Hd & Id); [lia|].
  assert (Context.Clock.seconds diff <= LIMIT). { pose proof (seconds_bound diff (LIMIT * NANOS_PER_SEC) Hd ltac:(lia)). rewrite Z.div_mul in * by (unfold NANOS_PER_SEC; lia). lia. }
  assert (Context.Clock.seconds (startup_offset st) <= Z.of_nat n * LIMIT). { pose proof (seconds_bound _ _ Ho Hb) as Hx. rewrite Z.mul_assoc, Z.div_mul in Hx by (unfold NANOS_PER_SEC; lia). lia. }
  destruct (time_add_spec (startup_offset st) diff Ho Hd) as (offset & Ea & Hof & Io); [unfold LIMIT in *; nia|].
  exists t, w', diff, offset. split_and!; try done; lia.
Qed.

Lemma run_tick n c w : sound n c w -> Z.of_nat n < 2 ^ 20 -> exists c' w', tick_system_time c w = Ret (c', w') /\ sound (S n) c' w' /\
  (forall d, ready d w -> ready d w') /\ start_unix (system_time c') = start_unix (system_time c) /\
  instant (startup_offset (system_time c)) <= instant (startup_offset (system_time c')) /\
  instant (startup_offset (system_time c')) - instant (startup_offset (system_time c)) = instant (last_tick (system_time c')) - instant (last_tick (system_time c)).
Proof.
  intros [S1 S2 [S3 S4] (d & Ed & Sr & Sl & Ss)] Hn.
  destruct (advance_offset n (system_time c) d w Hn S3 S4 Sr Sl Ss) as (t & w' & diff & offset & E1 & E2 & E3 & Ht & Ho & Io & Hlt & Hb & Hall).
  exists (mkClock (devices c) (mkSystemTime (start_unix (system_time c)) t offset (device (system_time c)))), w'.
  split; [|split; [|split; [|split; [|split]]]]; cbn [system_time start_unix last_tick startup_offset device devices]; [| |intros d' Hd'; by apply Hall|done|lia|lia].
  - unfold tick_system_time, tick, mbind, ST_bind. rewrite Ed, E1. unfold lift. by rewrite E2, E3.
  - split; cbn; [|done|done|].
    + eapply Forall_impl; [exact S1|]. intros d' Hd'. by apply Hall.
    + exists d. split_and!; [done|by apply Hall|done|lia].
Qed.

Lemma Forall_insert_by_rating (P : D -> Prop) d l : P d -> Forall P l -> Forall P (insert_by_rating d l) /\ insert_by_rating d l <> [].
Proof. intros Hd Hl. induction Hl as [|x l Hx Hl [IH IH']]; cbn; [by repeat constructor|]. destruct (_ <=? _); split; [by constructor|done|by repeat constructor|done]. Qed.
Lemma Forall_sort (P : D -> Prop) l : l <> [] -> Forall P l -> exists d l', sort_by_rating l = d :: l' /\ Forall P (d :: l').
Proof.
  assert (forall acc, Forall P acc -> Forall P l -> l <> [] \/ acc <> [] -> let r := foldl (fun acc d => insert_by_rating d acc) acc l in Forall P r /\ r <> []) as Hg.
  { induction l as [|x l IH]; intros acc Ha Hl Hn; cbn; [by destruct Hn|]. inversion Hl; subst. apply IH; [by apply Forall_insert_by_rating|done|right]. by apply (Forall_insert_by_rating P). }
  intros Hn Hl. destruct (Hg [] ltac:(constructor) Hl ltac:(by left)) as [H1 H2]. unfold sort_by_rating. destruct (foldl _ [] l) as [|d l'] eqn:E; [done|]. by exists d, l'.
Qed.

Lemma run_add n c w d : sound n c w -> Z.of_nat n < 2 ^ 20 -> ready d w -> exists c' w', add_device rtc cli sti fuel d c w = Ret (c', w') /\ sound (S n) c' w' /\
  (forall d, ready d w -> ready d w') /\ start_unix (system_time c') = start_unix (system_time c) /\
  instant (startup_offset (system_time c)) <= instant (startup_offset (system_time c')).
Proof.
  intros [S1 S2 [S3 S4] (d0 & Ed & Sr & Sl & Ss)] Hn Hd.
  destruct (Forall_sort (fun d => ready d w) (devices c ++ [d])) as (best & rest & Eb & Hb); [by destruct (devices c)|by apply Forall_app; split; [|by constructor]|].
  unfold add_device, update_device. rewrite Eb, Ed. inversion Hb as [|? ? Hbest Hrest]; subst.
  destruct (same best d0) eqn:Esame.
  { exists (mkClock (best :: rest) (system_time c)), w. split_and!; [|split; cbn [devices system_time]; [done|done|split; [done|unfold LIMIT, NANOS_PER_SEC in *; lia]|by exists d0]|done|done|done].
    unfold mbind, ST_bind, lift. cbn [head unwrap]. by rewrite Esame. }
  destruct (advance_offset n (system_time c) d0 w Hn S3 S4 Sr Sl Ss) as (t & w' & diff & offset & E1 & E2 & E3 & Ht & Ho & Io & Hlt & Hbd & Hall).
  destruct (shows_time best w') as (t2 & w2 & F1 & F2 & F3 & [F4 F5] & F6); [by apply Hall|].
  exists (mkClock (best :: rest) (mkSystemTime (start_unix (system_time c)) t2 offset (Some best))), w2.
  assert (forall d', ready d' w -> ready d' w2) as Hrd by (intros d' Hd'; apply F6; by apply Hall).
  split_and!; cbn [system_time start_unix startup_offset]; [|split; cbn; [|done|done|]|done|done|lia].
  - unfold mbind, ST_bind, lift. cbn [head unwrap]. by rewrite Esame, E1, F1, E2, E3.
  - eapply Forall_impl; [exact Hb|]. done.
  - exists best. split_and!; [done|by apply Hrd|done|lia].
Qed.

(** one operation *)
Lemma run_one n c w o : sound n c w -> Z.of_nat n < 2 ^ 20 -> may_add w o -> exists a c' w', run_op o c w = Ret ((a, c'), w') /\ sound (S n) c' w' /\
  (forall o, may_add w o -> may_add w' o) /\ start_unix (system_time c') = start_unix (system_time c) /\
  Forall (fun a => time_ok (answer_time a)) a /\ instant (startup_offset (system_time c)) <= instant (startup_offset (system_time c')) /\
  (a = [] \/ exists x, a = [x] /\ since (start_unix (system_time c)) x = instant (startup_offset (system_time c'))) /\
  (adds o = false -> instant (startup_offset (system_time c')) - instant (startup_offset (system_time c)) = instant (last_tick (system_time c')) - instant (last_tick (system_time c))).
Proof.
  intros Hs Hn Ho. assert (forall w w', (forall d, ready d w -> ready d w') -> forall o, may_add w o -> may_add w' o) as Hmay by (intros w1 w2 Hr [| | |d'] Hd'; try done; by apply Hr).
  destruct o as [| | |d]; cbn [run_op].
  - destruct (run_tick n c w Hs Hn) as (c' & w' & E & Hs' & Hr & Hst & Hle & Heq). exists [], c', w'. unfold mbind, ST_bind. rewrite E. split_and!; [done|done|by apply Hmay|done|done|done|by left|done].
  - destruct (run_tick n c w Hs Hn) as (c' & w' & E & Hs' & Hr & Hst & Hle & Heq). exists [AStartup (startup_offset (system_time c'))], c', w'.
    unfold time_since_startup, mbind, ST_bind. rewrite E. split_and!; [done|done|by apply Hmay|done| |done| |done].
    + constructor; [|constructor]. apply (so_offset _ _ _ Hs').
    + right. eexists. by split.
  - destruct (run_tick n c w Hs Hn) as (c' & w' & E & Hs' & Hr & Hst & Hle & Heq). pose proof Hs' as [_ [U1 U2] [U3 U4] _].
    destruct (time_add_spec (start_unix (system_time c')) (startup_offset (system_time c')) U1 U3) as (u & Eu & Hu & Iu).
    { pose proof (seconds_bound _ _ U3 U4) as Hx. rewrite Z.mul_assoc, Z.div_mul in Hx by (unfold NANOS_PER_SEC; lia). unfold LIMIT in *. nia. }
    exists [AUnix u], c', w'. unfold time_since_unix_epoch, mbind, ST_bind, lift. rewrite E, Eu. split_and!; [done|done|by apply Hmay|done| |done| |done].
    + by constructor; [|constructor].
    + right. eexists. split; [done|]. cbn. rewrite <-Hst. lia.
  - destruct (run_add n c w d Hs Hn Ho) as (c' & w' & E & Hs' & Hr & Hst & Hle). exists [], c', w'. unfold mbind, ST_bind. rewrite E. split_and!; [done|done|by apply Hmay|done|done|done|by left|done].
Qed.

Lemma ascending_weaken x y l : x <= y -> ascending y l -> ascending x l.
Proof. destruct l as [|z l]; [done|]. cbn. intros ? [? ?]. split; [lia|done]. Qed.

(** C38: The system time never goes back.  Whatever order the clock is ticked, asked
    and given better devices in, no operation fails, every answer is a
    normalised time, each is at least the one before, and as long as the
    device stays the time passed is exactly what the device measured. *)
Theorem system_time_never_goes_back n c w os : sound n c w -> Forall (may_add w) os -> Z.of_nat (n + length os) < 2 ^ 20 ->
  exists a c' w', run_ops os c w = Ret ((a, c'), w') /\ sound (n + length os) c' w' /\
    Forall (fun x => time_ok (answer_time x)) a /\
    ascending (instant (startup_offset (system_time c))) (since (start_unix (system_time c)) <$> a) /\
    (forallb (fun o => negb (adds o)) os = true ->
      instant (startup_offset (system_time c')) - instant (startup_offset (system_time c)) = instant (last_tick (system_time c')) - instant (last_tick (system_time c))).
Proof.
  revert n c w. induction os as [|o os IH]; intros n c w Hs Hos Hn; cbn [run_ops length] in *.
  { exists [], c, w. split_and!; [done|by rewrite Nat.add_0_r|done|done|lia]. }
  inversion Hos as [|? ? Ho Hos']; subst.
  destruct (run_one n c w o Hs ltac:(lia) Ho) as (a & c1 & w1 & E1 & Hs1 & Hm1 & Hst & Ha & Hle & Hans & Heq).
  destruct (IH (S n) c1 w1 Hs1) as (a2 & c2 & w2 & E2 & Hs2 & Ha2 & Hasc & Heq2); [eapply Forall_impl; [exact Hos'|exact Hm1]|lia|].
  exists (a ++ a2), c2, w2. split_and!.
  - unfold mbind, ST_bind. rewrite E1. cbn [snd fst]. by rewrite E2.
  - by rewrite <-Nat.add_succ_comm.
  - by apply Forall_app.
  - rewrite Hst in Hasc. rewrite fmap_app. destruct Hans as [->|(x & -> & Hx)]; cbn [app fmap list_fmap].
    + by eapply ascending_weaken.
    + cbn. rewrite Hx. split; [done|done].
  - cbn. intros [Hna Hnas]%andb_true_iff. apply negb_true_iff in Hna. specialize (Heq Hna). specialize (Heq2 Hnas). lia.
Qed.
End system_time.

(** ** The timers of the kernel *)
(** the counters of the machine; none runs longer than [2 ^ 60] ticks *)
Record counters : Type := mkCounters { hpet_ticks : Z; pit_ticks : Z; tsc_cycles : Z }.
Definition counters_ok (a : counters) : Prop := 0 <= hpet_ticks a < 2 ^ 60 /\ 0 <= pit_ticks a < 2 ^ 60 /\ 0 <= tsc_cycles a < 2 ^ 60.
Definition later (a b : counters) : Prop := hpet_ticks a <= hpet_ticks b /\ pit_ticks a <= pit_ticks b /\ tsc_cycles a <= tsc_cycles b.
Lemma later_refl a : later a a.
Proof. unfold later. lia. Qed.
Lemma later_trans a b c : later a b -> later b c -> later a c.
Proof. unfold later. lia. Qed.
#[local] Hint Resolve later_refl : core.

(** The counter of the PIT counts down from [2 ^ 16]; it is latched by a command and then read in two bytes.
    The HPET at [base] has ticks of [period] femtoseconds. *)
Class TimerLaws (H : Type) `{PortIo H} `{Platform H} `{Mmio64 H} `{Cycles H} (base period : Z) : Type := {
  counted : H -> counters;
  latched : H -> bytes;
  counted_ok : forall h, counters_ok (counted h);
  period_ok : 0 < period <= 100000000;
  cli_law : forall h, exists h', push_cli h = Ret (tt, h') /\ later (counted h) (counted h');
  sti_law : forall h, exists h', pop_cli h = Ret (tt, h') /\ later (counted h) (counted h');
  latch_law : forall h, exists h' n, io_out 1 Pit.PORT_CONTROL (Pit.control Pit.ACCESS_LATCH_COUNT 0) h = Ret (tt, h') /\ later (counted h) (counted h') /\
    pit_ticks (counted h) <= n <= pit_ticks (counted h') /\ latched h' = [wrap 16 (- n) mod 256; wrap 16 (- n) / 256];
  byte_law : forall h b r, latched h = b :: r -> exists h', io_in 1 Pit.PORT_CHANNEL_0 h = Ret (b, h') /\ later (counted h) (counted h') /\ latched h' = r;
  counter_law : forall h, exists n h', read64 (base + Hpet.MAIN_COUNTER) h = Ret (n, h') /\ later (counted h) (counted h') /\
    hpet_ticks (counted h) <= n <= hpet_ticks (counted h');
  period_law : forall h, exists v h', read64 (base + Hpet.GENERAL_CAPABILITIES) h = Ret (v, h') /\ later (counted h) (counted h') /\
    Z.land (Z.shiftr v 32) 0xFFFFFFFF = period;
  tsc_law : forall h, exists n h', read_tsc h = Ret (n, h') /\ later (counted h) (counted h') /\ tsc_cycles (counted h) <= n <= tsc_cycles (counted h')
}.

(** *** Ticks to time *)
Definition ticks_instant (divider nanos n : Z) : Z := n / divider * NANOS_PER_SEC + n mod divider * nanos.
Lemma ticks_instant_mono divider nanos n m : 0 < divider -> 0 <= nanos -> divider * nanos <= NANOS_PER_SEC -> 0 <= n <= m ->
  ticks_instant divider nanos n <= ticks_instant divider nanos m.
Proof.
  intros Hd Hn Hdn Hnm. unfold ticks_instant. pose proof (Z.div_mod n divider). pose proof (Z.div_mod m divider).
  pose proof (Z.mod_pos_bound n divider Hd). pose proof (Z.mod_pos_bound m divider Hd).
  destruct (decide (n / divider = m / divider)) as [E|E]; [nia|]. assert (n / divider < m / divider) by (pose proof (Z.div_le_mono n m divider); lia). nia.
Qed.
Lemma ticks_normal divider nanos n : 0 < divider -> 0 <= nanos -> divider * nanos <= NANOS_PER_SEC -> 0 <= n -> 0 <= n mod divider * nanos < NANOS_PER_SEC.
Proof. intros Hd Hn Hdn H0. pose proof (Z.mod_pos_bound n divider Hd). unfold NANOS_PER_SEC in *. nia. Qed.

Section devices.
Context {H : Type} `{TimerLaws H base period} `{Mmio H} `{CpuRegs H}.
Import Timers.
Implicit Types (w : Timers H) (h : H).

Definition hpet_divider : Z := FEMTOS_PER_SEC / period.
Definition hpet_nanos : Z := period / NANOS_PER_FEMTO.
Definition pit_divider : Z := FEMTOS_PER_SEC / Pit.PIT_TICK_PERIOD_FEMTOS.
Lemma hpet_rates : 10000000 <= hpet_divider /\ 0 <= hpet_nanos <= 100 /\ hpet_divider * hpet_nanos <= NANOS_PER_SEC.
Proof.
  pose proof (period_ok (H := H)) as Hp. unfold hpet_divider, hpet_nanos, FEMTOS_PER_SEC, NANOS_PER_SEC, NANOS_PER_FEMTO in *.
  assert (10000000 <= 1000000000000000 / period) by (apply Z.div_le_lower_bound; lia). split; [done|]. split; [dlia|].
  pose proof (Z.mul_div_le 1000000000000000 period). pose proof (Z.mul_div_le period 1000000). nia.
Qed.

Lemma hpet_time n : 0 <= n < 2 ^ 60 -> exists t, Hpet.ticks_time n period = Ret t /\ time_ok t /\ Context.Clock.seconds t < LIMIT /\ instant t = ticks_instant hpet_divider hpet_nanos n.
Proof.
  intros Hn. pose proof hpet_rates as (R1 & R2 & R3). pose proof (period_ok (H := H)) as Hp. unfold Hpet.ticks_time.
  rewrite cdiv_ret by lia. cbn [mbind outcome_bind]. fold hpet_divider hpet_nanos.
  rewrite cdiv_ret by lia. cbn [mbind outcome_bind]. rewrite cmod_ret by lia. cbn [mbind outcome_bind].
  pose proof (ticks_normal hpet_divider hpet_nanos n) as Hnorm. rewrite cmul_ret by (unfold NANOS_PER_SEC in *; lia). cbn [mbind outcome_bind].
  assert (0 <= n / hpet_divider < LIMIT) as [Q1 Q2] by (unfold LIMIT; split; [apply Z.div_pos; lia|apply Z.div_lt_upper_bound; lia]).
  eexists. split; [done|]. split; [split; cbn; [apply Hnorm; lia|unfold in_word, LIMIT in *; lia]|]. by split; [exact Q2|].
Qed.
Lemma pit_time n : 0 <= n < 2 ^ 60 -> let t := Pit.pit_ticks_time n in time_ok t /\ Context.Clock.seconds t < LIMIT /\ instant t = ticks_instant pit_divider Pit.PIT_TICK_PERIOD_NANOS n.
Proof.
  intros Hn t. unfold t, Pit.pit_ticks_time. fold pit_divider. pose proof (ticks_normal pit_divider Pit.PIT_TICK_PERIOD_NANOS n ltac:(done) ltac:(done) ltac:(done) ltac:(lia)).
  assert (0 <= n / pit_divider < LIMIT) as [Q1 Q2] by (change pit_divider with 1193181; unfold LIMIT; split; [apply Z.div_pos; lia|apply Z.div_lt_upper_bound; lia]).
  split; [split; cbn; [done|unfold in_word, LIMIT in *; lia]|]. by split; [exact Q2|].
Qed.

(** *** The counter of the PIT *)
Lemma read_counter_spec h : exists n h', Pit.read_counter h = Ret (wrap 16 (- n), h') /\ later (counted h) (counted h') /\ pit_ticks (counted h) <= n <= pit_ticks (counted h').
Proof.
  destruct (cli_law h) as (h1 & E1 & L1). destruct (latch_law h1) as (h2 & n & E2 & L2 & Hn & Hl). destruct (byte_law h2 _ _ Hl) as (h3 & E3 & L3 & Hl3).
  destruct (byte_law h3 _ _ Hl3) as (h4 & E4 & L4 & _). destruct (sti_law h4) as (h5 & E5 & L5). exists n, h5.
  split; [|split; [by do 4 (eapply later_trans; [eassumption|])|unfold later in *; lia]].
  unfold Pit.read_counter, mbind, ST_bind. rewrite E1, E2, E3, E4, E5. unfold mret, ST_ret. do 3 f_equal.
  assert (0 <= wrap 16 (- n) < 2 ^ 16) by (unfold wrap; apply Z.mod_pos_bound; lia). rewrite Z.lor_comm, lor_shiftl_add by dlia. dlia.
Qed.

(** the PIT has seen [n] ticks when it was read last, and counted no more than those *)
Definition pit_ok (p : Pit.Pit) (n : Z) : Prop := 0 <= Pit.total_counter p <= n /\ Pit.last_counter p = wrap 16 (- n).
Lemma pit_elapsed n m : n <= m -> wrap 16 (wrap 16 (- n) - wrap 16 (- m)) = (m - n) mod 2 ^ 16.
Proof. intros Hn. unfold wrap. rewrite <-Zminus_mod. f_equal. lia. Qed.

(** Between two readings less than [2 ^ 16] ticks apart nothing is lost. *)
Lemma tick_total_spec w p n : pit_clock w = Some p -> pit_ok p n -> n <= pit_ticks (counted (hw w)) ->
  exists m p' h', tick_total_counter w = Ret (Pit.total_counter p', mkTimers h' (hpet_clock w) (Some p')) /\ later (counted (hw w)) (counted h') /\
    pit_ticks (counted (hw w)) <= m <= pit_ticks (counted h') /\ pit_ok p' m /\ Pit.total_counter p <= Pit.total_counter p' /\
    (Pit.total_counter p = n -> m - n < 2 ^ 16 -> Pit.total_counter p' = m).
Proof.
  intros Hp [[T1 T2] Hl] Hn. destruct (read_counter_spec (hw w)) as (m & h' & E & L & Hm).
  exists m, (Pit.mkPit (Pit.total_counter p + (m - n) mod 2 ^ 16) (wrap 16 (- m))), h'.
  pose proof (counted_ok h') as (_ & Hb & _). pose proof (Z.mod_le (m - n) (2 ^ 16) ltac:(lia) ltac:(lia)). pose proof (Z.mod_pos_bound (m - n) (2 ^ 16) ltac:(lia)).
  split_and!; try done; cbn [Pit.total_counter]; try lia.
  - unfold tick_total_counter, get_elapsed, on_hw, with_pit, lift, get, put, mbind, ST_bind. rewrite E. cbn [hw hpet_clock pit_clock]. rewrite Hp. cbn [unwrap].
    unfold Pit.swap_counter, Pit.add_total. cbn [fst snd pit_clock hw hpet_clock unwrap Pit.total_counter Pit.last_counter mret ST_ret].
    rewrite Hl, pit_elapsed by lia. assert (wrap 64 (Pit.total_counter p + (m - n) mod 2 ^ 16) = Pit.total_counter p + (m - n) mod 2 ^ 16) as -> by (unfold wrap; apply Z.mod_small; lia). done.
  - split; cbn; [lia|done].
  - intros E0 Hg. rewrite Z.mod_small by lia. lia.
Qed.

(** *** A calibrated time stamp counter *)
(** [x] nanoseconds at [c0] cycles; the scale is small enough for [2 ^ 60] cycles *)
Definition tsc_at (t : Tsc.Tsc) (x c0 : Z) : Prop :=
  0 <= x /\ 0 <= c0 /\ 0 <= Tsc.nanos_per_cycle_scaled t /\ x + 2 ^ 28 * Tsc.nanos_per_cycle_scaled t + 1 < 2 ^ 64 /\
  Tsc.start_time t = wrap 64 (x - Tsc.cycles_to_ns c0 (Tsc.nanos_per_cycle_scaled t)).
Lemma tsc_value t x c0 c : tsc_at t x c0 -> c0 <= c < 2 ^ 60 -> let n := Tsc.nanos_per_cycle_scaled t in
  Tsc.time_nanos_since_start t c = x + (c * n / 2 ^ 32 - c0 * n / 2 ^ 32) /\ 0 <= c * n / 2 ^ 32 - c0 * n / 2 ^ 32 <= 2 ^ 28 * n.
Proof.
  intros (T1 & T2 & T3 & T4 & T5) Hc n. fold n in T3, T4, T5. unfold Tsc.time_nanos_since_start, Tsc.cycles_to_time_nanos, Tsc.cycles_to_ns, Tsc.NS_SCALE_SHIFT in *. fold n.
  rewrite T5. rewrite !Z.shiftr_div_pow2 by lia.
  assert (0 <= c0 * n / 2 ^ 32 <= c * n / 2 ^ 32) by (split; [apply Z.div_pos; nia|apply Z.div_le_mono; nia]).
  assert (c * n / 2 ^ 32 <= 2 ^ 28 * n) by (apply Z.div_le_upper_bound; nia). split; [|lia].
  set (A := c0 * n / 2 ^ 32) in *. set (B := c * n / 2 ^ 32) in *. unfold wrap.
  assert ((x - A mod 2 ^ 64) mod 2 ^ 64 + B mod 2 ^ 64 = x + (B - A) + (A / 2 ^ 64 - (x - A mod 2 ^ 64) / 2 ^ 64 - B / 2 ^ 64) * 2 ^ 64) as -> by (rewrite !Z.mod_eq by lia; ring).
  rewrite Z.mod_add by lia. apply Z.mod_small. lia.
Qed.
Definition tsc_ok (t : Tsc.Tsc) (now : Z) : Prop := exists x c0, tsc_at t x c0 /\ c0 <= now.
Lemma tsc_mono t now c1 c2 : tsc_ok t now -> now <= c1 <= c2 -> c2 < 2 ^ 60 ->
  0 <= Tsc.time_nanos_since_start t c1 <= Tsc.time_nanos_since_start t c2 /\ Tsc.time_nanos_since_start t c2 < 2 ^ 64.
Proof.
  intros (x & c0 & Ht & Hc) H12 Hb. destruct (tsc_value t x c0 c1 Ht ltac:(lia)) as [-> B1]. destruct (tsc_value t x c0 c2 Ht ltac:(lia)) as [-> B2].
  destruct Ht as (T1 & T2 & T3 & T4 & _). set (n := Tsc.nanos_per_cycle_scaled t) in *.
  assert (c1 * n / 2 ^ 32 <= c2 * n / 2 ^ 32) by (apply Z.div_le_mono; nia). lia.
Qed.

(** *** The devices do not go back *)
Definition dev_ready (d : Device) w : Prop :=
  match d with
  | HardwareHpet => hpet_clock w = Some (Hpet.mkHpetDev base)
  | HardwarePit => exists p n, pit_clock w = Some p /\ pit_ok p n /\ n <= pit_ticks (counted (hw w))
  | TscDevice t => tsc_ok t (tsc_cycles (counted (hw w)))
  end.
Definition dev_seen (d : Device) w : Z :=
  match d with
  | HardwareHpet => ticks_instant hpet_divider hpet_nanos (hpet_ticks (counted (hw w)))
  | HardwarePit => match pit_clock w with Some p => ticks_instant pit_divider Pit.PIT_TICK_PERIOD_NANOS (Pit.total_counter p) | None => 0 end
  | TscDevice t => Tsc.time_nanos_since_start t (tsc_cycles (counted (hw w)))
  end.
(** time passes, and the PIT may have been read *)
Lemma ready_later w h' p' : later (counted (hw w)) (counted h') ->
  (p' = pit_clock w \/ exists p q n, pit_clock w = Some p /\ p' = Some q /\ 0 <= Pit.total_counter p <= Pit.total_counter q /\ pit_ok q n /\ n <= pit_ticks (counted h')) ->
  forall d, dev_ready d w -> dev_ready d (mkTimers h' (hpet_clock w) p') /\ dev_seen d w <= dev_seen d (mkTimers h' (hpet_clock w) p').
Proof.
  intros (L1 & L2 & L3) Hp d Hd. pose proof (counted_ok (hw w)) as (B1 & B2 & B3). pose proof (counted_ok h') as (B4 & B5 & B6). pose proof hpet_rates as (R1 & R2 & R3).
  destruct d as [| |t]; cbn [dev_ready dev_seen hpet_clock pit_clock hw] in *.
  - split; [done|]. apply ticks_instant_mono; lia.
  - destruct Hp as [->|(p & q & n & Ep & -> & Hle & Hq & Hn)].
    + destruct Hd as (p & n & -> & Hok & Hn). split; [|lia]. exists p, n. split_and!; [done|done|lia].
    + rewrite Ep. split; [by exists q, n|]. by apply ticks_instant_mono.
  - split; [destruct Hd as (x & c0 & Ht & Hc); exists x, c0; split; [done|lia]|]. apply (tsc_mono t (tsc_cycles (counted (hw w)))); [done|lia|lia].
Qed.

#[export] Program Instance device_laws : ClockLaws Device (Timers H) := { ready := dev_ready; seen := dev_seen }.
Next Obligation.
  intros d w Hd. pose proof hpet_rates as (R1 & R2 & R3). destruct d as [| |t]; cbn [dev_ready] in Hd.
  - destruct (counter_law (hw w)) as (n & h1 & E1 & L1 & Hn). destruct (period_law h1) as (v & h2 & E2 & L2 & Hv).
    pose proof (counted_ok (hw w)) as ([B0 _] & _). pose proof (counted_ok h1) as ([_ B1] & _). pose proof (counted_ok h2) as ([_ B2] & _).
    destruct (hpet_time n) as (t & Et & Ht & Hl & It); [lia|]. exists t, (mkTimers h2 (hpet_clock w) (pit_clock w)).
    pose proof (later_trans _ _ _ L1 L2) as L. split_and!; [|done|done| | |].
    + cbn [get_time device_clock]. unfold with_hpet, on_hw, Hpet.hpet_get_time, Hpet.current_counter, Hpet.counter_clock_period, lift, get, mbind, ST_bind, mret, ST_ret.
      rewrite Hd. cbn [unwrap Hpet.mmio]. by rewrite E1, E2, Hv, Et, ?Hd.
    + rewrite It. cbn [dev_seen]. apply ticks_instant_mono; lia.
    + rewrite It. cbn [dev_seen hw]. destruct L2 as [L2 _]. apply ticks_instant_mono; lia.
    + intros d'. apply ready_later; [done|by left].
  - destruct Hd as (p & n & Hp & Hok & Hn). destruct (tick_total_spec w p n Hp Hok Hn) as (m & p' & h' & E & L & Hm & Hok' & Hle & _).
    pose proof (counted_ok h') as (_ & B & _). destruct (pit_time (Pit.total_counter p')) as (Ht & Hl & It); [destruct Hok' as [? _]; lia|].
    exists (Pit.pit_ticks_time (Pit.total_counter p')), (mkTimers h' (hpet_clock w) (Some p')). split_and!; [|done|done| | |].
    + cbn [get_time device_clock]. unfold pit_get_time, mbind, ST_bind. by rewrite E.
    + rewrite It. cbn [dev_seen]. rewrite Hp. destruct Hok. apply ticks_instant_mono; (done || lia).
    + rewrite It. cbn [dev_seen pit_clock]. lia.
    + intros d'. apply ready_later; [done|]. right. exists p, p', m. split_and!; try done; try lia. by destruct Hok as [? _]; lia.
  - destruct (tsc_law (hw w)) as (n & h' & E & L & Hn). pose proof (counted_ok h') as (_ & _ & B). pose proof (counted_ok (hw w)) as (_ & _ & B0).
    match type of Hn with ?a <= n <= ?b => destruct (tsc_mono t a n b Hd ltac:(lia) ltac:(lia)) as [M1 M2]; destruct (tsc_mono t a a n Hd ltac:(lia) ltac:(lia)) as [M3 M4] end.
    set (ns := Tsc.time_nanos_since_start t n) in *.
    assert (instant (mkTime (ns mod NANOS_PER_SEC) (ns / NANOS_PER_SEC)) = ns) as It by (unfold instant, NANOS_PER_SEC; cbn; dlia).
    exists (mkTime (ns mod NANOS_PER_SEC) (ns / NANOS_PER_SEC)), (mkTimers h' (hpet_clock w) (pit_clock w)). rewrite It. cbn [dev_seen hw]. split_and!; try lia.
    + cbn [get_time device_clock]. unfold Tsc.tsc_get_time, mbind, ST_bind. cbn [read_tsc timers_cycles]. unfold on_hw. by rewrite E.
    + split; cbn; [unfold NANOS_PER_SEC; dlia|unfold in_word, NANOS_PER_SEC; dlia].
    + cbn. unfold LIMIT, NANOS_PER_SEC. dlia.
    + intros d'. apply ready_later; [done|by left].
Qed.
End devices.

(** ** Calibration *)
(** C39: A time stamp counter of at least 125 MHz, calibrated between two points of
    a base clock, shows the time of the base at the first point, is at most
    one nanosecond and one part in [2 ^ 32] of the cycles behind it at the second, and
    can be used as a device from then on. *)
Theorem tsc_agrees_with_base (p1 p2 : Tsc.SyncPoint) (l : Z) :
  0 <= Tsc.nanos p1 <= Tsc.nanos p2 -> Tsc.nanos p2 < 2 ^ 62 -> 0 <= Tsc.cycles p1 < Tsc.cycles p2 -> Tsc.cycles p2 < 2 ^ 60 ->
  Tsc.nanos p2 - Tsc.nanos p1 <= 8 * (Tsc.cycles p2 - Tsc.cycles p1) ->
  exists start n, Tsc.scale p1 p2 = Ret (start, n) /\ let t := Tsc.mkTsc start n l in
    Tsc.time_nanos_since_start t (Tsc.cycles p1) = Tsc.nanos p1 /\
    Tsc.nanos p2 - 1 - (Tsc.cycles p2 - Tsc.cycles p1) / 2 ^ 32 <= Tsc.time_nanos_since_start t (Tsc.cycles p2) <= Tsc.nanos p2 /\
    tsc_ok t (Tsc.cycles p1).
Proof.
  destruct p1 as [x1 c1], p2 as [x2 c2]. cbn [Tsc.nanos Tsc.cycles]. intros H1 H2 H3 H4 H5. set (cd := c2 - c1) in *. set (n := (x2 - x1) * 2 ^ 32 / cd).
  assert (0 <= n <= 2 ^ 35) as Hn by (unfold n; split; [apply Z.div_pos; lia|apply Z.div_le_upper_bound; lia]).
  assert (n * cd <= (x2 - x1) * 2 ^ 32 < n * cd + cd) as Hnc by (pose proof (Z.div_mod ((x2 - x1) * 2 ^ 32) cd ltac:(lia)); pose proof (Z.mod_pos_bound ((x2 - x1) * 2 ^ 32) cd ltac:(lia)); unfold n; nia).
  exists (wrap 64 (x1 - Tsc.cycles_to_ns c1 n)), n. split.
  { unfold Tsc.scale, Tsc.NS_SCALE_SHIFT. cbn [Tsc.nanos Tsc.cycles]. rewrite (csub_ret x2) by lia. cbn [mbind outcome_bind]. rewrite (csub_ret c2) by lia. cbn [mbind outcome_bind].
    fold cd. rewrite Z.shiftl_mul_pow2 by lia. rewrite cdiv_ret by lia. cbn [mbind outcome_bind]. fold n. rewrite (proj2 (Z.ltb_lt _ _)) by lia. done. }
  set (t := Tsc.mkTsc _ n l). assert (tsc_at t x1 c1) as Ht. { unfold tsc_at, t. cbn [Tsc.nanos_per_cycle_scaled Tsc.start_time]. split_and!; [lia..|done]. }
  destruct (tsc_value t x1 c1 c1 Ht ltac:(lia)) as [-> _]. destruct (tsc_value t x1 c1 c2 Ht ltac:(lia)) as [-> _]. cbn [t Tsc.nanos_per_cycle_scaled].
  split; [lia|]. split; [|exists x1, c1; split; [done|lia]].
  replace (c2 * n) with (c1 * n + n * cd) by (unfold cd; lia). revert Hnc. generalize (n * cd) (c1 * n). clearbody cd. intros q r Hq. dlia.
Qed.

(** ** What goes wrong *)
Module ClockDemo.
(** On a clock of twelve hours noon is 12 with the bit for the afternoon, and
    midnight is 12 without it; the conversion gives 0 for noon and 12 for midnight. *)
Lemma noon_is_midnight : let clock h := Rtc.hours (Rtc.decode (Rtc.mkRtc None) true (Rtc.mkRtcTime 0 0 h 1 1 0x24) 0) in clock 0x92 = 0 /\ clock 0x12 = 12.
Proof. done. Qed.
(** The standard timer of 14.318 MHz: its tick of 69.84 ns is taken as 69, so that each second runs slow and ends with a jump of 12 ms. *)
Lemma hpet_second_jumps : let d := FEMTOS_PER_SEC / 69841279 in
  Hpet.ticks_time (d - 1) 69841279 = Ret (mkTime 987954282 0) /\ Hpet.ticks_time d 69841279 = Ret (mkTime 0 1).
Proof. by vm_compute. Qed.
(** The PIT is read with interrupts off, but the reading is stored with
    interrupts on: when the interrupt of the PIT comes in between, at a later
    count [m], storing the older reading [n] adds a whole round of the counter. *)
Lemma pit_interrupted_read_jumps n m : 0 <= n < m -> m - n < 2 ^ 16 -> m < 2 ^ 60 ->
  let p := Pit.mkPit m (wrap 16 (- m)) in
  let r := Pit.swap_counter (wrap 16 (- n)) p in Pit.total_counter (Pit.add_total (fst r) (snd r)) = n + 2 ^ 16.
Proof.
  intros Hn Hm Hb. cbn. unfold wrap. rewrite <-Zminus_mod. replace (- m - - n) with (n - m + 2 ^ 16 + (-1) * 2 ^ 16) by lia.
  rewrite Z.mod_add by lia. rewrite (Z.mod_small (n - m + 2 ^ 16)) by lia. rewrite Z.mod_small by lia. lia.
Qed.
(** A route above 15 is taken whether it is assigned or not; the interrupt
    controller then fails its assertion that the line is free. *)
Lemma taken_route_chosen {H} `{Platform H} (route : Z) (h : H) : 15 < route -> is_irq_assigned route h = Ret (true, h) ->
  Hpet.find_routes [route] None None h = Ret ((None, Some route), h).
Proof. intros Hr E. unfold Hpet.find_routes, mbind, ST_bind. rewrite E. cbn. by rewrite (proj2 (Z.ltb_lt _ _)) by lia. Qed.
End ClockDemo.

(** ** Runs *)
(** A chip that changes from the last second of February in a leap year to the next, [left] accesses from now. *)
Module RtcDemo.
Import Rtc.
Definition before : RtcTime := mkRtcTime 59 59 23 29 2 2024.
Definition after : RtcTime := mkRtcTime 0 0 0 1 3 2024.
Definition registers (t : RtcTime) (r : Z) : Z :=
  if r =? RTC_SECONDS then to_bcd (seconds t) else if r =? RTC_MINUTES then to_bcd (minutes t) else if r =? RTC_HOURS then to_bcd (hours t)
  else if r =? RTC_DAY_OF_MONTH then to_bcd (day_of_month t) else if r =? RTC_MONTH then to_bcd (month t) else if r =? RTC_YEAR then to_bcd (year t mod 100)
  else if r =? RTC_STATUS_B then 2 else if r =? 0x32 then to_bcd (year t / 100) else 0.
Record Chip : Type := mkChip { selected : Z; left : nat; late : bool }.
Definition showing (h : Chip) : Z -> Z := registers (if late h then after else before).
Definition coming (h : Chip) : option (Z -> Z) := if late h then None else Some (registers after).
Definition pass (h : Chip) : Chip := match left h with O => mkChip (selected h) 0 true | S n => mkChip (selected h) n (late h) end.
#[export] Instance chip_ports : PortIo Chip := {
  io_out n p v := fun h => Ret (tt, if p =? RTC_ADDRESS then mkChip v (left h) (late h) else h);
  io_in n p := fun h => let h' := pass h in Ret (if selected h =? RTC_STATUS_A then 0 else showing h' (selected h), h')
}.
Lemma pass_passes h : passes showing coming h (pass h).
Proof. destruct h as [r [|n] []]; [left|right|left|left]; done. Qed.
#[export] Program Instance chip_laws : RtcLaws Chip 1 := { shows := showing; pending := coming; busy := fun _ => 0%nat }.
Next Obligation. intros. cbn. lia. Qed.
Next Obligation.
  intros h reg Hr. eexists _, _. split; [done|]. split; [cbn; by rewrite (proj2 (Z.eqb_neq _ _)) by done|]. by destruct h as [r [|n] []]; [left|right|left|left].
Qed.
Next Obligation. intros h. eexists _, _, _. split; [done|]. split; [done|]. split; [|by left]. by destruct h as [r [|n] []]; [left|right|left|left]. Qed.

Definition rtc : Rtc := new (Some 0x32).
Lemma before_shown h : late h = false -> displays rtc (showing h) before.
Proof. intros E. unfold showing. rewrite E. split; [split; vm_compute; intuition congruence|done|by vm_compute|done]. Qed.
Lemma after_shown : displays rtc (registers after) after.
Proof. split; [split; vm_compute; intuition congruence|done|by vm_compute|done]. Qed.
Lemma rtc_reads_calendar_witness : let h := mkChip 0 12 false in
  exists c t h', (c = showing h \/ coming h = Some c) /\ displays rtc c t /\ Rtc.get_time 4 rtc h = Ret (t, h') /\ seconds_since_unix_epoch t = Ret (Some (unix_time t)).
Proof.
  intros h. refine (rtc_reads_calendar (polls := 1) rtc 4 h before _ _ _ _); [done|cbn; lia|by apply before_shown|].
  intros c [= <-]. split; [done|]. exists after. exact after_shown.
Defined.
(** the change comes in the middle of the first round *)
Lemma change_seen : exists h, Rtc.get_time 4 rtc (mkChip 0 3 false) = Ret (after, h).
Proof. eexists. by vm_compute. Qed.
End RtcDemo.

(** A machine whose counters move at every access. *)
Module TimerDemo.
Import Timers SystemTime.
Record Machine : Type := mkMachine { elapsed : Z; latch : bytes; rtc_reg : Z }.
Definition BASE : Z := 0xFED00000.
Definition PERIOD : Z := 10000000.
Definition clamp (t : Z) : Z := 0 `max` (t `min` (2 ^ 60 - 1)).
Definition later_by (h : Machine) : Machine := mkMachine (elapsed h + 1000) (latch h) (rtc_reg h).
Definition count (h : Machine) : counters := mkCounters (clamp (elapsed h)) (clamp (elapsed h)) (clamp (elapsed h)).
Definition machine_time (h : Machine) : Rtc.RtcTime := Rtc.mkRtcTime (elapsed h / 200000 mod 60) 3 12 1 1 2024.
#[export] Instance ports : PortIo Machine := {
  io_out n p v := fun h => let h := later_by h in
    Ret (tt, if p =? Rtc.RTC_ADDRESS then mkMachine (elapsed h) (latch h) v
             else if (p =? Pit.PORT_CONTROL) && (v =? 0) then let c := wrap 16 (- clamp (elapsed h)) in mkMachine (elapsed h) [c mod 256; c / 256] (rtc_reg h) else h);
  io_in n p := fun h => let h := later_by h in
    if p =? Pit.PORT_CHANNEL_0 then Ret (nth 0 (latch h) 0, mkMachine (elapsed h) (drop 1 (latch h)) (rtc_reg h)) else Ret (RtcDemo.registers (machine_time h) (rtc_reg h), h)
}.
#[export] Instance platform : Platform Machine := {
  push_cli := fun h => Ret (tt, later_by h); pop_cli := fun h => Ret (tt, later_by h); is_irq_assigned _ := fun h => Ret (false, h);
  assign_io_irq _ _ := fun h => Ret (tt, h); return_from_interrupt := fun h => Ret (tt, h)
}.
#[export] Instance mmio64 : Mmio64 Machine := {
  read64 a := fun h => let h := later_by h in
    Ret (if a =? BASE + Hpet.MAIN_COUNTER then clamp (elapsed h) else if a =? BASE + Hpet.GENERAL_CAPABILITIES then Z.shiftl PERIOD 32
         else if a =? BASE + Hpet.TIMER0_CONFIG then Z.lor 0x30 (Z.shiftl 0x00F00000 32) else 0, h);
  write64 _ _ := fun h => Ret (tt, h)
}.
#[export] Instance mmio32 : Mmio Machine := { mmio_read _ := fun h => Ret (0, h); mmio_write _ _ := fun h => Ret (tt, h) }.
#[export] Instance cpu : CpuRegs Machine := { cpuid_features := fun h => Ret (Tsc.FEAT_EDX_TSC, h); msr_read _ := fun h => Ret (0, h); msr_write _ _ := fun h => Ret (tt, h) }.
#[export] Instance cycles : Cycles Machine := { read_tsc := fun h => let h := later_by h in Ret (clamp (elapsed h), h) }.

Lemma clamp_mono a b : a <= b -> clamp a <= clamp b.
Proof. unfold clamp. lia. Qed.
Lemma count_later h l r : later (count h) (count (mkMachine (elapsed h + 1000) l r)).
Proof. unfold later, count. cbn [hpet_ticks pit_ticks tsc_cycles elapsed]. pose proof (clamp_mono (elapsed h) (elapsed h + 1000)). lia. Qed.
#[export] Program Instance machine_laws : TimerLaws Machine BASE PERIOD := { counted := count; latched := latch }.
Next Obligation. intros h. unfold counters_ok, count, clamp. cbn. lia. Qed.
Next Obligation. done. Qed.
Next Obligation. intros h. eexists. split; [done|]. apply count_later. Qed.
Next Obligation. intros h. eexists. split; [done|]. apply count_later. Qed.
Next Obligation.
  intros h. eexists _, (clamp (elapsed h + 1000)). split; [done|]. split; [apply count_later|]. split; [|done].
  pose proof (clamp_mono (elapsed h) (elapsed h + 1000)). change (clamp (elapsed h) <= clamp (elapsed h + 1000) <= clamp (elapsed h + 1000)). lia.
Qed.
Next Obligation. intros h b r E. eexists. cbn. rewrite E. split; [done|]. split; [apply count_later|done]. Qed.
Next Obligation. intros h. eexists _, _. split; [done|]. split; [apply count_later|]. pose proof (clamp_mono (elapsed h) (elapsed h + 1000)). change (clamp (elapsed h) <= clamp (elapsed h + 1000) <= clamp (elapsed h + 1000)). lia. Qed.
Next Obligation. intros h. eexists _, _. split; [done|]. split; [apply count_later|done]. Qed.
Next Obligation. intros h. eexists _, _. split; [done|]. split; [apply count_later|]. pose proof (clamp_mono (elapsed h) (elapsed h + 1000)). change (clamp (elapsed h) <= clamp (elapsed h + 1000) <= clamp (elapsed h + 1000)). lia. Qed.

(** booting finds the HPET and calibrates the time stamp counter against it *)
Definition header : Acpi.DescriptionHeader := Acpi.mkDescription [] 0 0 0 [] [] 0 0 0.
Definition hpet_table : Acpi.Hpet := Acpi.mkHpet 0 (Acpi.mkGas 0 64 0 0 BASE) 0 0 0.
Definition tables : Acpi.BiosTables := Acpi.mkBios (Acpi.mkRsdp [] 0 [] 0 0 0 0 0 []) (Acpi.mkRsdt header [Acpi.mkTable header (Acpi.HpetT hpet_table)]).
Definition off : Timers Machine := mkTimers (mkMachine 0 [] 0) None None.
Lemma boot_runs : exists c w u c' w', init 200 true tables off = Ret (c, w) /\ length (devices c) = 2%nat /\ hpet_clock w = Some (Hpet.mkHpetDev BASE) /\
  time_since_unix_epoch c w = Ret ((u, c'), w') /\ Context.Clock.seconds u = 1704110581.
Proof. eexists _, _, _, _, _. split; [vm_compute; reflexivity|]. split; [reflexivity|]. split; [reflexivity|]. split; [vm_compute; reflexivity|]. vm_compute. reflexivity. Qed.

(** the HPET is in use; the PIT and a calibrated time stamp counter are added while the time is asked for *)
Definition tsc : Tsc.Tsc := Tsc.mkTsc 0 (10 * 2 ^ 32) 0.
Definition start : Timers Machine := mkTimers (mkMachine 5000 [] 0) (Some (Hpet.mkHpetDev BASE)) (Some (Pit.mkPit 0 0)).
Definition clock : Clock Device := mkClock [HardwareHpet] (mkSystemTime (mkTime 0 1704110580) (mkTime 20000 0) ZERO (Some HardwareHpet)).
Definition ops : list (op (D := Device)) := [Startup; Unix; Add HardwarePit; Startup; Add (TscDevice tsc); Unix; Tick; Startup].
Lemma clock_sound : sound 0 clock start.
Proof.
  split.
  - by repeat constructor.
  - split; [split; vm_compute; intuition congruence|done].
  - split; [split; vm_compute; intuition congruence|done].
  - exists HardwareHpet. split_and!; [done|done|split; vm_compute; intuition congruence|vm_compute; congruence].
Qed.
Lemma system_time_never_goes_back_witness : let rtc := on_hw (Rtc.get_time 9 (Rtc.new None)) in
  exists a c' w', run_ops rtc (on_hw push_cli) (on_hw pop_cli) 9 ops clock start = Ret ((a, c'), w') /\ sound (0 + length ops) c' w' /\
    Forall (fun x => time_ok (answer_time x)) a /\
    ascending (instant (startup_offset (system_time clock))) (since (start_unix (system_time clock)) <$> a) /\
    (forallb (fun o => negb (adds o)) ops = true ->
      instant (startup_offset (system_time c')) - instant (startup_offset (system_time clock)) = instant (last_tick (system_time c')) - instant (last_tick (system_time clock))).
Proof.
  intros rtc. apply (system_time_never_goes_back (D := Device) rtc (on_hw push_cli) (on_hw pop_cli) 9 0 clock start ops clock_sound); [|done].
  repeat (constructor; [try exact I|]); [| |constructor].
  - exists (Pit.mkPit 0 0), 0. split; [done|]. split; [split; [cbn; lia|done]|vm_compute; congruence].
  - exists 0, 0. split; [split_and!; vm_compute; congruence|vm_compute; congruence].
Defined.
Lemma tsc_agrees_with_base_witness : let p1 := Tsc.mkPoint 1000 5000 in let p2 := Tsc.mkPoint 1001000 3005000 in
  exists start n, Tsc.scale p1 p2 = Ret (start, n) /\ let t := Tsc.mkTsc start n 20 in
    Tsc.time_nanos_since_start t 5000 = 1000 /\ 1001000 - 1 - (3005000 - 5000) / 2 ^ 32 <= Tsc.time_nanos_since_start t 3005000 <= 1001000 /\ tsc_ok t 5000.
Proof. intros p1 p2. apply (tsc_agrees_with_base p1 p2 20); cbn; lia. Defined.
End TimerDemo.
