(* ===== verification/Console.v ===== *)
(** * The console

    Models [kernel/src/io]: the serial port ([uart.rs]), the text screen
    ([console/vga_text.rs]), and the consoles over them ([console.rs]): the
    early one, the late one with its colour commands, its capture and its
    input, and the controller that replaces one by the other.  Ports are the
    interface [PortIo], a screen is the interface [VideoConsole]; the console
    that draws characters with a font of the library embedded_graphics is any
    other instance of it. *)
From S2P Require Import Prelude UserLink FsTypes Bytes AmlData Resource Aml AmlTree AcpiTables Cmdline Multiboot Input.
Import Cmdline.Cmdline Multiboot.Multiboot Input.Input.

Module Uart.
(** ** [uart.rs] *)
Definition COM1 : Z := 0x3F8.
Definition Data : Z := 0.
Definition InterruptEnable : Z := 1.
Definition InterruptAndFifoControl : Z := 2.
Definition LineControl : Z := 3.
Definition ModemControl : Z := 4.
Definition LineStatus : Z := 5.
Definition LINE_BAUD_LATCH : Z := Z.shiftl 1 7.
Definition MODEM_CTL_DTR : Z := Z.shiftl 1 0.
Definition MODEM_CTL_RTS : Z := Z.shiftl 1 1.
Definition MODEM_CTL_OUT1 : Z := Z.shiftl 1 2.
Definition MODEM_CTL_OUT2 : Z := Z.shiftl 1 3.
Definition MODEM_CTL_LOOPBACK : Z := Z.shiftl 1 4.
Definition IE_RX_READY : Z := Z.shiftl 1 0.
Definition IE_TX_READY : Z := Z.shiftl 1 1.
Definition LINE_RX_READY : Z := Z.shiftl 1 0.
Definition LINE_TX_EMPTY : Z := Z.shiftl 1 5.

Record Uart : Type := mkUart { port_addr : Z; is_enabled : bool }.
Definition uart_new (port_addr : Z) : Uart := mkUart port_addr false.

(** the divisor of the clock of the port *)
Definition baud_divisor (uart_baud : Z) : outcome Z :=
  let rate := if uart_baud =? 0 then uart_baud else 115200 in
  divisor ← cdiv 115200 rate;
  let divisor := if divisor =? 0 then 1 else divisor in
  Ret (if 0x10000 <=? divisor then 0xFFFF else divisor).

Section ports.
Context {H : Type} `{PortIo H} (fuel : nat).
Definition write_reg (port reg val : Z) : ST H unit := io_out 1 (port + reg) val.
Definition read_reg (port reg : Z) : ST H Z := io_in 1 (port + reg).
(** [while read_reg(LineStatus) & bit == 0] *)
Fixpoint wait_line (n : nat) (port bit : Z) : ST H unit :=
  match n with
  | O => diverge
  | S n => s ← read_reg port LineStatus; if Z.land s bit =? 0 then wait_line n port bit else mret tt
  end.
Definition init_port (cmd : Cmd) (port : Z) : ST H bool :=
  _ ← write_reg port InterruptEnable 0;
  _ ← write_reg port InterruptAndFifoControl 0;
  divisor ← lift (baud_divisor (uart_baud cmd));
  _ ← write_reg port LineControl LINE_BAUD_LATCH;
  _ ← write_reg port Data (wrap 8 divisor);
  _ ← write_reg port InterruptEnable (wrap 8 (Z.shiftr divisor 8));
  _ ← write_reg port LineControl 0x03;
  _ ← write_reg port InterruptEnable (Z.lor IE_RX_READY IE_TX_READY);
  _ ← write_reg port ModemControl MODEM_CTL_LOOPBACK;
  _ ← write_reg port Data 0xAA;
  _ ← wait_line fuel port LINE_RX_READY;
  val ← read_reg port Data;
  _ ← write_reg port ModemControl (Z.lor (Z.lor (Z.lor MODEM_CTL_DTR MODEM_CTL_RTS) MODEM_CTL_OUT1) MODEM_CTL_OUT2);
  mret (val =? 0xAA).
Definition uart_init (cmd : Cmd) (self : Uart) : ST H Uart :=
  enabled ← (if uart cmd then init_port cmd (port_addr self) else mret false);
  mret (mkUart (port_addr self) enabled).
Definition uart_write_byte (byte : Z) (self : Uart) : ST H unit :=
  if negb (is_enabled self) then mret tt else
  _ ← wait_line fuel (port_addr self) LINE_TX_EMPTY;
  write_reg (port_addr self) Data byte.
Definition try_read_byte (self : Uart) : ST H (option Z) :=
  if negb (is_enabled self) then mret None else
  s ← read_reg (port_addr self) LineStatus;
  if Z.land s LINE_RX_READY =? 0 then mret None else b ← read_reg (port_addr self) Data; mret (Some b).
End ports.
End Uart.

Module Colors.
Import Uart.
(** ** Colours *)
Inductive AnsiColor : Type :=
| Black | Red | Green | Yellow | Blue | Magenta | Cyan | White
| BrightBlack | BrightRed | BrightGreen | BrightYellow | BrightBlue | BrightMagenta | BrightCyan | BrightWhite.
Definition colors : list AnsiColor :=
  [Black; Red; Green; Yellow; Blue; Magenta; Cyan; White;
   BrightBlack; BrightRed; BrightGreen; BrightYellow; BrightBlue; BrightMagenta; BrightCyan; BrightWhite].
Definition from_u8 (color : Z) : outcome AnsiColor := unwrap (colors !! Z.to_nat color).
(** [as u8] *)
Definition color_code (c : AnsiColor) : Z :=
  match c with
  | Black => 0 | Red => 1 | Green => 2 | Yellow => 3 | Blue => 4 | Magenta => 5 | Cyan => 6 | White => 7
  | BrightBlack => 8 | BrightRed => 9 | BrightGreen => 10 | BrightYellow => 11
  | BrightBlue => 12 | BrightMagenta => 13 | BrightCyan => 14 | BrightWhite => 15
  end.
Record VideoConsoleAttribute : Type := mkAttr { foreground : AnsiColor; background : AnsiColor; bold : bool; faint : bool }.
Definition default_attribute : VideoConsoleAttribute := mkAttr White Black false false.
End Colors.

(** ** A screen ([trait VideoConsole]) *)
Class VideoConsole (H V : Type) : Type := {
  video_init : V -> ST H V;
  set_attrib : Colors.VideoConsoleAttribute -> V -> ST H V;
  video_write_byte : Z -> V -> ST H V;
  video_backspace : V -> ST H V
}.

Module VgaText.
Import Colors.
(** ** [vga_text.rs]; positions are at most one beyond the sizes, which are
    32-bit, so that stepping them cannot overflow *)
Definition DEFAULT_ATTRIB : Z := 0x0f.
Record VgaText : Type := mkVga { pos : Z * Z; attrib : Z; pitch : Z; height : Z; width : Z; memory : bytes }.
Definition set_pos (p : Z * Z) (v : VgaText) : VgaText := mkVga p (attrib v) (pitch v) (height v) (width v) (memory v).
Definition set_memory (m : bytes) (v : VgaText) : VgaText := mkVga (pos v) (attrib v) (pitch v) (height v) (width v) m.

(** [memory] is the slice at the address of the frame buffer *)
Definition vga_new {H} (new_slice : Z -> Z -> ST H bytes) (f : Framebuffer) : ST H VgaText :=
  _ ← lift (assert_that (match fb_color_info f with EgaText => true | _ => false end));
  memory_size ← lift (cmul 32 (fb_pitch f) (fb_height f));
  memory ← new_slice (fb_addr f) memory_size;
  mret (mkVga (0, 0) DEFAULT_ATTRIB (fb_pitch f) (fb_height f) (fb_width f) memory).

Definition get_arr_pos (p : Z * Z) (v : VgaText) : outcome Z :=
  a ← cmul 64 (fst p) 2; b ← cmul 64 (snd p) (pitch v); cadd 64 a b.
(** [self.memory[i] = b] *)
Definition store (i b : Z) (v : VgaText) : outcome VgaText :=
  _ ← assert_that (i <? Z.of_nat (length (memory v)));
  Ret (set_memory (<[Z.to_nat i := b]> (memory v)) v).
(** a character and its attribute *)
Definition put_cell (p : Z * Z) (c a : Z) (v : VgaText) : outcome VgaText :=
  i ← get_arr_pos p v;
  v ← store i c v;
  store (i + 1) a v.

Definition clear_line (line : Z) (v : VgaText) : outcome VgaText :=
  foldl (fun r i => v ← r; put_cell (Z.of_nat i, line) 32 0 v) (Ret v) (seq 0 (Z.to_nat (width v))).
(** [before[copy_to..copy_to + size].copy_from_slice(&after[..size])] *)
Definition copy_line (i : Z) (v : VgaText) : outcome VgaText :=
  copy_to ← get_arr_pos (0, i) v;
  copy_from ← get_arr_pos (0, i + 1) v;
  let size := pitch v in
  _ ← assert_that (copy_from <=? Z.of_nat (length (memory v)));
  _ ← assert_that (copy_to + size <=? copy_from);
  _ ← assert_that (size <=? Z.of_nat (length (memory v)) - copy_from);
  let m := memory v in
  Ret (set_memory (take (Z.to_nat copy_to) m ++ take (Z.to_nat size) (drop (Z.to_nat copy_from) m) ++ drop (Z.to_nat (copy_to + size)) m) v).
Definition scroll_up (v : VgaText) : outcome VgaText :=
  n ← csub (height v) 1;
  foldl (fun r i => v ← r; copy_line (Z.of_nat i) v) (Ret v) (seq 0 (Z.to_nat n)).
(** the recursion goes up a line each time *)
Fixpoint fix_loop (fuel : nat) (v : VgaText) : outcome VgaText :=
  match fuel with
  | O => Diverge
  | S fuel =>
      let v := if width v <=? fst (pos v) then set_pos (0, snd (pos v) + 1) v else v in
      if height v <=? snd (pos v) then
        v ← scroll_up v;
        y ← csub (snd (pos v)) 1;
        let v := set_pos (fst (pos v), y) v in
        v ← clear_line y v;
        fix_loop fuel v
      else Ret v
  end.
Definition fix_after_advance (v : VgaText) : outcome VgaText := fix_loop (S (S (Z.to_nat (snd (pos v) + 1)))) v.
Definition clear (v : VgaText) : outcome VgaText :=
  v ← foldl (fun r i => v ← r; clear_line (Z.of_nat i) v) (Ret v) (seq 0 (Z.to_nat (height v)));
  Ret (set_pos (0, 0) v).

Definition mappings : list Z := [0; 4; 2; 6; 1; 5; 3; 7; 8; 12; 10; 14; 9; 13; 11; 15].
Definition to_vga_color (color : Z) : outcome Z := unwrap (mappings !! Z.to_nat color).
Definition vga_set_attrib (a : VideoConsoleAttribute) (v : VgaText) : outcome VgaText :=
  let fg_index := color_code (foreground a) in
  let fg_index := if faint a && (8 <=? fg_index) then fg_index - 8 else fg_index in
  let fg_index := if bold a && (fg_index <? 8) then fg_index + 8 else fg_index in
  fg ← to_vga_color fg_index;
  bg ← to_vga_color (color_code (background a));
  Ret (mkVga (pos v) (Z.lor (wrap 8 (Z.shiftl bg 4)) fg) (pitch v) (height v) (width v) (memory v)).
Definition vga_write_byte (c : Z) (v : VgaText) : outcome VgaText :=
  if c =? 10 then fix_after_advance (set_pos (0, snd (pos v) + 1) v) else
  v ← put_cell (pos v) c (attrib v) v;
  fix_after_advance (set_pos (fst (pos v) + 1, snd (pos v)) v).
Definition vga_backspace (v : VgaText) : outcome VgaText :=
  if (fst (pos v) =? 0) && (snd (pos v) =? 0) then Ret v else
  p ← (if fst (pos v) =? 0 then x ← csub (width v) 1; Ret (x, snd (pos v) - 1) else Ret (fst (pos v) - 1, snd (pos v)));
  let v := set_pos p v in
  put_cell (pos v) 32 (attrib v) v.

#[export] Instance vga_video {H} : VideoConsole H VgaText := {
  video_init v := lift (clear v);
  set_attrib a v := lift (vga_set_attrib a v);
  video_write_byte c v := lift (vga_write_byte c v);
  video_backspace v := lift (vga_backspace v)
}.
End VgaText.

Module Late.
Import Uart Colors VgaText.
(** ** [console.rs] *)
(** [str::split(';')] *)
Fixpoint split_on (sep : Z) (s : bytes) : list bytes :=
  match s with
  | [] => [[]]
  | c :: s =>
      if c =? sep then [] :: split_on sep s
      else match split_on sep s with [] => [[c]] | x :: l => (c :: x) :: l end
  end.
(** [str::strip_prefix] *)
Definition strip_prefix (p : Z) (s : bytes) : option bytes := match s with c :: s => if c =? p then Some s else None | [] => None end.
(** [str::parse::<u8>] *)
Fixpoint u8_digits (s : bytes) (acc : Z) : option Z :=
  match s with
  | [] => Some acc
  | c :: s => if between 48 57 c then let v := acc * 10 + (c - 48) in if v <? 256 then u8_digits s v else None else None
  end.
Definition parse_u8 (s : bytes) : option Z :=
  match s with
  | [] => None
  | c :: s' => if c =? 43 then match s' with [] => None | _ => u8_digits s' 0 end else u8_digits s 0
  end.
(** one number of a colour command *)
Definition apply_cmd (cmd : Z) (a : VideoConsoleAttribute) : outcome VideoConsoleAttribute :=
  if cmd =? 0 then Ret default_attribute
  else if cmd =? 1 then Ret (mkAttr (foreground a) (background a) true false)
  else if cmd =? 2 then Ret (mkAttr (foreground a) (background a) false true)
  else if between 30 37 cmd then c ← from_u8 (cmd - 30); Ret (mkAttr c (background a) (bold a) (faint a))
  else if between 90 97 cmd then c ← from_u8 (cmd - 90 + 8); Ret (mkAttr c (background a) (bold a) (faint a))
  else if between 40 47 cmd then c ← from_u8 (cmd - 40); Ret (mkAttr (foreground a) c (bold a) (faint a))
  else if between 100 107 cmd then c ← from_u8 (cmd - 100 + 8); Ret (mkAttr (foreground a) c (bold a) (faint a))
  else Ret a.

Record EarlyConsole : Type := mkEarly { early_uart : Uart; early_capture : option bytes }.
Definition early_empty : EarlyConsole := mkEarly (uart_new COM1) None.

Section late.
Context {H V : Type} `{PortIo H} `{VideoConsole H V} `{Blinkcast} (fuel : nat).
(** the sender of the keyboard, which the receivers of all readers share *)
Context (keys : Sender Key).

Record LateConsole : Type := mkLate {
  late_uart : Uart; video_console : V; keyboard : Receiver Key; console_cmd_buffer : option bytes;
  current_attrib : VideoConsoleAttribute; capture : option bytes }.
Definition late_new (u : Uart) (v : V) : LateConsole := mkLate u v (new_receiver keys) None default_attribute None.
Definition set_video (v : V) (c : LateConsole) : LateConsole :=
  mkLate (late_uart c) v (keyboard c) (console_cmd_buffer c) (current_attrib c) (capture c).
Definition set_buffer (b : option bytes) (c : LateConsole) : LateConsole :=
  mkLate (late_uart c) (video_console c) (keyboard c) b (current_attrib c) (capture c).
Definition set_keyboard (r : Receiver Key) (c : LateConsole) : LateConsole :=
  mkLate (late_uart c) (video_console c) r (console_cmd_buffer c) (current_attrib c) (capture c).
Definition set_capture (b : option bytes) (c : LateConsole) : LateConsole :=
  mkLate (late_uart c) (video_console c) (keyboard c) (console_cmd_buffer c) (current_attrib c) b.

(** *** Output *)
Fixpoint uart_write (u : Uart) (s : bytes) : ST H unit :=
  match s with [] => mret tt | b :: s => _ ← uart_write_byte fuel b u; uart_write u s end.
Definition write_byte_inner (byte : Z) (c : LateConsole) : ST H LateConsole :=
  if byte =? 8 then
    v ← video_backspace (video_console c);
    _ ← uart_write (late_uart c) [byte; 32; byte];
    mret (set_video v c)
  else
    v ← video_write_byte byte (video_console c);
    _ ← uart_write_byte fuel byte (late_uart c);
    mret (set_video v c).
(** the numbers of a command, in order; the screen is told after each *)
Fixpoint run_cmds (cmds : list bytes) (c : LateConsole) : ST H LateConsole :=
  match cmds with
  | [] => mret c
  | cmd :: cmds =>
      match parse_u8 cmd with
      | None => run_cmds cmds c
      | Some n =>
          a ← lift (apply_cmd n (current_attrib c));
          v ← set_attrib a (video_console c);
          run_cmds cmds (mkLate (late_uart c) v (keyboard c) (console_cmd_buffer c) a (capture c))
      end
  end.
Definition write_byte (byte : Z) (c : LateConsole) : ST H LateConsole :=
  match console_cmd_buffer c with
  | Some buf =>
      if between 48 57 byte || (byte =? 59) || (byte =? 91) then mret (set_buffer (Some (buf ++ [byte])) c)
      else if byte =? 109 then
        match strip_prefix 91 buf with
        | Some inner_cmd =>
            c ← run_cmds (split_on 59 inner_cmd) c;
            _ ← uart_write (late_uart c) ([0x1b; 91] ++ inner_cmd ++ [109]);
            mret (set_buffer None c)
        | None => write_byte_inner byte (set_buffer None c)
        end
      else write_byte_inner byte (set_buffer None c)
  | None => if byte =? 0x1b then mret (set_buffer (Some []) c) else write_byte_inner byte c
  end.
Fixpoint write_bytes (src : bytes) (c : LateConsole) : ST H LateConsole :=
  match src with [] => mret c | b :: src => c ← write_byte b c; write_bytes src c end.
Definition late_write (src : bytes) (c : LateConsole) : ST H (Z * LateConsole) :=
  match capture c with
  | Some t => _ ← lift (assert_that (utf8 src)); mret (Z.of_nat (length src), set_capture (Some (t ++ src)) c)
  | None => c ← write_bytes src c; mret (Z.of_nat (length src), c)
  end.

(** *** Input *)
Definition read_uart (u : Uart) : ST H (option Z) :=
  b ← try_read_byte u;
  mret ((fun c => if c =? 13 then 10 else if c =? 0x7f then 8 else c) <$> b).
Definition pressed_char (k : option Key) : outcome (option Z) :=
  match k with Some k => if pressed k then virtual_char k else Ret None | None => Ret None end.
(** [n] is what is left of the buffer *)
Fixpoint read_loop (n : nat) (c : LateConsole) : ST H (bytes * LateConsole) :=
  match n with
  | O => mret ([], c)
  | S n =>
      let k := recv keys (keyboard c) in
      let c := set_keyboard (snd k) c in
      ch ← lift (pressed_char (fst k));
      ch ← (match ch with Some x => mret (Some x) | None => read_uart (late_uart c) end);
      match ch with
      | Some x => rest ← read_loop n c; mret (x :: fst rest, snd rest)
      | None => mret ([], c)
      end
  end.
Definition late_read (len : nat) (c : LateConsole) : ST H (bytes * LateConsole) := read_loop len c.
Definition late_start_capture (c : LateConsole) : option bytes * LateConsole := (capture c, set_capture (Some []) c).
Definition late_stop_capture (c : LateConsole) : option bytes * LateConsole := (capture c, set_capture None c).

(** *** The early console *)
Definition early_init (cmd : Cmd) (c : EarlyConsole) : ST H EarlyConsole :=
  u ← uart_init fuel cmd (early_uart c); mret (mkEarly u (early_capture c)).
Definition early_write (src : bytes) (c : EarlyConsole) : ST H (Z * EarlyConsole) :=
  match early_capture c with
  | Some t => _ ← lift (assert_that (utf8 src)); mret (Z.of_nat (length src), mkEarly (early_uart c) (Some (t ++ src)))
  | None => _ ← uart_write (early_uart c) src; mret (Z.of_nat (length src), c)
  end.
End late.
Arguments LateConsole V {_}.
End Late.

(** ** A console ([trait Console]) *)
Class Console (H C : Type) : Type := {
  con_write : bytes -> C -> ST H (Z * C);
  con_read : nat -> C -> ST H (bytes * C);
  start_capture : C -> option bytes * C;
  stop_capture : C -> option bytes * C
}.

Module Controller.
Import Uart Colors VgaText Late.
Section controller.
Context {H V : Type} `{PortIo H} `{VideoConsole H V} `{Blinkcast} (fuel : nat) (keys : Sender Key) (cmd : Cmd).
#[export] Instance early_console : Console H EarlyConsole := {
  con_write := early_write fuel;
  con_read _ c := mret ([], c);
  start_capture c := (early_capture c, mkEarly (early_uart c) (Some []));
  stop_capture c := (early_capture c, mkEarly (early_uart c) None)
}.
#[export] Instance late_console : Console H (LateConsole V) := {
  con_write := late_write fuel;
  con_read := late_read keys;
  start_capture := late_start_capture;
  stop_capture := late_stop_capture
}.

(** [RefCell], inside a lock that its owner can take again: [borrowed] while the owner uses it *)
Record RefCell (A : Type) : Type := mkRef { borrowed : bool; content : A }.
Arguments mkRef {A}. Arguments borrowed {A}. Arguments content {A}.
Inductive ConsoleController : Type :=
| Early (c : RefCell EarlyConsole)
| Late (c : RefCell (LateConsole V)).
Definition empty_early : ConsoleController := Early (mkRef false early_empty).
Definition init_early (self : ConsoleController) : ST H ConsoleController :=
  match self with
  | Early r => _ ← lift (assert_that (negb (borrowed r))); c ← early_init fuel cmd (content r); mret (Early (mkRef false c))
  | Late _ => panic
  end.

(** a use of the console that is there; inside another use (a panic while
    printing) of a new early one *)
Definition with_ref {C U} `{Console H C} (f : forall D, Console H D -> D -> ST H (U * D)) (r : RefCell C) : ST H (U * RefCell C) :=
  if borrowed r then
    c ← early_init fuel cmd early_empty;
    x ← f EarlyConsole _ c;
    mret (fst x, r)
  else x ← f C _ (content r); mret (fst x, mkRef false (snd x)).
Definition run_with {U} (f : forall D, Console H D -> D -> ST H (U * D)) (self : ConsoleController) : ST H (U * ConsoleController) :=
  match self with
  | Early r => x ← with_ref f r; mret (fst x, Early (snd x))
  | Late r => x ← with_ref f r; mret (fst x, Late (snd x))
  end.
(** [write_fmt]: the pieces of the text one after the other *)
Fixpoint write_pieces (ps : list bytes) (D : Type) (K : Console H D) (d : D) : ST H (unit * D) :=
  match ps with [] => mret (tt, d) | p :: ps => x ← con_write p d; write_pieces ps D K (snd x) end.
Definition print (ps : list bytes) (self : ConsoleController) : ST H (unit * ConsoleController) := run_with (write_pieces ps) self.
Definition run_start_capture (self : ConsoleController) : ST H (option bytes * ConsoleController) :=
  run_with (fun D _ d => mret (start_capture d)) self.
Definition run_stop_capture (self : ConsoleController) : ST H (option bytes * ConsoleController) :=
  run_with (fun D _ d => mret (stop_capture d)) self.

(** the late console takes the serial port of the early one *)
Definition init_late (create_video_console : ST H V) (self : ConsoleController) : ST H ConsoleController :=
  match self with
  | Early r => v ← create_video_console; mret (Late (mkRef false (late_new keys (early_uart (content r)) v)))
  | Late _ => panic
  end.
Definition late_device (self : ConsoleController) : option (RefCell (LateConsole V)) :=
  match self with Early _ => None | Late r => Some r end.

(** *** [impl Device]: the console as a file *)
Definition device_read (len : nat) (r : RefCell (LateConsole V)) : ST H (result bytes FileSystemError * RefCell (LateConsole V)) :=
  if borrowed r then mret (Ok [], r)
  else x ← late_read keys len (content r); mret (Ok (fst x), mkRef false (snd x)).
Definition device_write (buf : bytes) (r : RefCell (LateConsole V)) : ST H (result Z FileSystemError * RefCell (LateConsole V)) :=
  x ← with_ref (fun D _ d => con_write buf d) r; mret (Ok (fst x), snd x).
End controller.
Arguments RefCell : clear implicits. Arguments mkRef {A}. Arguments borrowed {A}. Arguments content {A}.
Arguments ConsoleController V {_}.

(** *** [create_video_console]: a text screen, or the graphics console [G] *)
Section video.
Context {H G : Type} `{VideoConsole H G} (graphics_new : ST H G) (new_slice : Z -> Z -> ST H bytes).
Inductive Video : Type := GraphicsVideo (g : G) | TextVideo (t : VgaText).
Definition on_video (f : G -> ST H G) (g : VgaText -> ST H VgaText) (v : Video) : ST H Video :=
  match v with
  | GraphicsVideo x => x ← f x; mret (GraphicsVideo x)
  | TextVideo t => t ← g t; mret (TextVideo t)
  end.
#[export] Instance any_video : VideoConsole H Video := {
  video_init := on_video video_init video_init;
  set_attrib a := on_video (set_attrib a) (set_attrib a);
  video_write_byte c := on_video (video_write_byte c) (video_write_byte c);
  video_backspace := on_video video_backspace video_backspace
}.
Definition create_video_console (framebuffer : option Framebuffer) : ST H Video :=
  match framebuffer with
  | Some f =>
      match fb_color_info f with
      | Indexed _ => panic
      | RgbInfo _ => g ← graphics_new; mret (GraphicsVideo g)
      | EgaText => t ← vga_new new_slice f; mret (TextVideo t)
      end
  | None => panic
  end.
End video.
Arguments Video : clear implicits.
End Controller.
