(* ===== verification/ConsoleSpec.v ===== *)
(** * The console: what appears on the screen and on the line

    A screen is specified as a grid of cells with a cursor ([screen]); the
    text mode driver keeps such a grid in its memory ([vga_laws], from the
    interface [VideoLaws]).  Over it and a serial port that
    sends what it is given ([UartLaws]), the console shows a stream of
    characters, backspaces and colour commands as a terminal does, however
    the stream is cut into writes.  The screen made of pixels does not obey
    these laws and is not modelled. *)
From S2P Require Import Prelude UserLink FsTypes Bytes AmlData Resource Aml AmlTree AcpiTables Cmdline Multiboot Input InputSpec Console.
Import Cmdline.Cmdline Multiboot.Multiboot Input.Input.
Import Uart Colors VgaText Late Controller.

(** ** A loop over a range *)
Lemma foldl_range {A} (f : nat -> A -> outcome A) (P : nat -> A -> Prop) (n a : nat) (v : A) :
  P a v -> (forall i v, (a <= i < a + n)%nat -> P i v -> exists v', f i v = Ret v' /\ P (S i) v') ->
  exists v', foldl (fun r i => v ← r; f i v) (Ret v) (seq a n) = Ret v' /\ P (a + n)%nat v'.
Proof.
  revert a v. induction n as [|n IH]; intros a v Hv Hf; cbn [seq foldl].
  { exists v. by rewrite Nat.add_0_r. }
  destruct (Hf a v) as (v1 & E & H1); [lia|done|]. cbn [mbind outcome_bind]. rewrite E.
  destruct (IH (S a) v1 H1) as (v2 & E2 & H2); [intros; apply Hf; [lia|done]|].
  exists v2. split; [done|]. by rewrite Nat.add_succ_r.
Qed.

(** ** The screen *)
Record screen : Type := mkScreen { cols : Z; rows : Z; cx : Z; cy : Z; ink : Z; cells : Z -> Z -> Z * Z }.
Definition blank : Z * Z := (32, 0).
Definition poke (x y : Z) (c : Z * Z) (s : screen) : screen :=
  mkScreen (cols s) (rows s) (cx s) (cy s) (ink s) (fun x' y' => if (x' =? x) && (y' =? y) then c else cells s x' y').
Definition move (x y : Z) (s : screen) : screen := mkScreen (cols s) (rows s) x y (ink s) (cells s).
(** at the end of the last line everything moves up a line *)
Definition scrolled (s : screen) : screen :=
  mkScreen (cols s) (rows s) (cx s) (rows s - 1) (ink s) (fun x y => if y =? rows s - 1 then blank else cells s x (y + 1)).
Definition settle (s : screen) : screen := if cy s =? rows s then scrolled s else s.
Definition newline (s : screen) : screen := settle (move 0 (cy s + 1) s).
Definition shown (b : Z) (s : screen) : screen :=
  if b =? 10 then newline s else
  let s := poke (cx s) (cy s) (b, ink s) s in
  if cx s + 1 =? cols s then newline s else move (cx s + 1) (cy s) s.
Definition rubout (s : screen) : screen :=
  if (cx s =? 0) && (cy s =? 0) then s else
  let s := if cx s =? 0 then move (cols s - 1) (cy s - 1) s else move (cx s - 1) (cy s) s in
  poke (cx s) (cy s) (32, ink s) s.
(** the palette of the screen has red and blue exchanged *)
Definition palette (n : Z) : Z := n / 8 * 8 + n mod 2 * 4 + n / 2 mod 2 * 2 + n / 4 mod 2.
Definition shade (a : VideoConsoleAttribute) : Z :=
  let n := color_code (foreground a) in
  if bold a then n mod 8 + 8 else if faint a then n mod 8 else n.
Definition inked (a : VideoConsoleAttribute) (s : screen) : screen :=
  mkScreen (cols s) (rows s) (cx s) (cy s) (16 * palette (color_code (background a)) + palette (shade a)) (cells s).

Definition on_screen (s : screen) : Prop := 0 < cols s /\ 0 < rows s /\ 0 <= cx s < cols s /\ 0 <= cy s < rows s.

(** what the console asks of a screen *)
Class VideoLaws (H V : Type) `{VideoConsole H V} : Type := {
  shows : V -> screen -> Prop;
  video_write_law : forall v s h b, shows v s -> exists v', video_write_byte b v h = Ret (v', h) /\ shows v' (shown b s);
  video_back_law : forall v s h, shows v s -> exists v', video_backspace v h = Ret (v', h) /\ shows v' (rubout s);
  video_ink_law : forall v s h a, shows v s -> exists v', set_attrib a v h = Ret (v', h) /\ shows v' (inked a s)
}.

(** ** The text screen *)
Section vga.
Definition at_byte (v : VgaText) (i : Z) : Z := memory v !!! Z.to_nat i.
Definition cell (v : VgaText) (x y : Z) : Z * Z := (at_byte v (2 * x + y * pitch v), at_byte v (2 * x + y * pitch v + 1)).
Record sound (v : VgaText) : Prop := mkSound {
  so_w : 0 < width v; so_h : 0 < height v; so_p : 2 * width v <= pitch v; so_m : pitch v * height v < 2 ^ 32;
  so_len : Z.of_nat (length (memory v)) = pitch v * height v }.
(** [v] with other contents of its memory, given for the cells of the screen *)
Definition like (v v' : VgaText) (cs : Z -> Z -> Z * Z) : Prop :=
  sound v' /\ pos v' = pos v /\ attrib v' = attrib v /\ pitch v' = pitch v /\ height v' = height v /\ width v' = width v /\
  forall x y, 0 <= x < width v -> 0 <= y < height v -> cell v' x y = cs x y.
(** as a screen *)
Definition displays (v : VgaText) (s : screen) : Prop :=
  sound v /\ cols s = width v /\ rows s = height v /\ pos v = (cx s, cy s) /\ attrib v = ink s /\
  0 <= cx s < cols s /\ 0 <= cy s < rows s /\ forall x y, 0 <= x < width v -> 0 <= y < height v -> cell v x y = cells s x y.

Lemma index_inj p a b y y' : 0 <= a < p -> 0 <= b < p -> a + y * p = b + y' * p -> a = b /\ y = y'.
Proof. intros Ha Hb E. assert (y = y') as -> by nia. split; [lia|done]. Qed.
Lemma index_bound v x y : sound v -> 0 <= x < width v -> 0 <= y < height v -> 0 <= 2 * x + y * pitch v /\ 2 * x + 1 + y * pitch v < pitch v * height v.
Proof. intros [? ? ? ? ?] Hx Hy. nia. Qed.
Lemma get_arr_pos_ok v x y : sound v -> 0 <= x < width v -> 0 <= y <= height v -> get_arr_pos (x, y) v = Ret (2 * x + y * pitch v).
Proof.
  intros [? ? ? ? ?] Hx Hy. unfold get_arr_pos. cbn [fst snd]. assert (0 <= y * pitch v <= pitch v * height v) by nia.
  assert (2 ^ 32 < 2 ^ 64) by reflexivity. assert (2 * x <= pitch v * height v) by nia. assert (2 ^ 32 + 2 ^ 32 < 2 ^ 64) by reflexivity.
  rewrite cmul_ret by lia. cbn [mbind outcome_bind]. rewrite cmul_ret by lia. cbn [mbind outcome_bind].
  rewrite cadd_ret by lia. f_equal. lia.
Qed.
Lemma store_ok i b v : sound v -> 0 <= i < pitch v * height v ->
  exists v', store i b v = Ret v' /\ sound v' /\ pos v' = pos v /\ attrib v' = attrib v /\ pitch v' = pitch v /\ height v' = height v /\ width v' = width v /\
    forall j, 0 <= j -> at_byte v' j = if j =? i then b else at_byte v j.
Proof.
  intros [? ? ? ? Hl] Hi. unfold store. rewrite (proj2 (Z.ltb_lt _ _)) by lia. eexists. split; [reflexivity|].
  split; [constructor; cbn; [done..|by rewrite length_insert]|]. split_and!; [done..|]. intros j Hj. unfold at_byte. cbn [memory set_memory].
  destruct (Z.eqb_spec j i) as [->|Hne]; [apply list_lookup_total_insert_eq; lia|apply list_lookup_total_insert_ne; lia].
Qed.
Lemma put_cell_ok x y c a v : sound v -> 0 <= x < width v -> 0 <= y < height v ->
  exists v', put_cell (x, y) c a v = Ret v' /\ like v v' (fun x' y' => if (x' =? x) && (y' =? y) then (c, a) else cell v x' y').
Proof.
  intros Hs Hx Hy. pose proof (index_bound v x y Hs Hx Hy) as [B1 B2]. unfold put_cell. rewrite get_arr_pos_ok by (done || lia). cbn [mbind outcome_bind].
  destruct (store_ok (2 * x + y * pitch v) c v Hs) as (v1 & -> & Hs1 & ? & ? & Ep & Eh & Ew & A1); [lia|]. cbn [mbind outcome_bind].
  destruct (store_ok (2 * x + y * pitch v + 1) a v1 Hs1) as (v2 & -> & Hs2 & ? & ? & Ep2 & Eh2 & Ew2 & A2); [rewrite Ep, Eh; lia|].
  eexists. split; [reflexivity|]. unfold like. split_and!; [done|congruence..|]. intros x' y' Hx' Hy'. pose proof (index_bound v x' y' Hs Hx' Hy') as [B1' B2'].
  pose proof (so_p _ Hs) as Hp. unfold cell. rewrite Ep2, Ep, !A2, !A1 by lia.
  destruct (Z.eqb_spec x' x) as [->|Nx]; [destruct (Z.eqb_spec y' y) as [->|Ny]|]; cbn [andb].
  - rewrite !Z.eqb_refl. by rewrite (proj2 (Z.eqb_neq _ _)) by lia.
  - rewrite !(proj2 (Z.eqb_neq _ _)); [done|..]; intros E.
    + edestruct (index_inj (pitch v) (2 * x + 1) (2 * x) y' y); [lia..|done].
    + edestruct (index_inj (pitch v) (2 * x + 1) (2 * x + 1) y' y); [lia..|done].
    + edestruct (index_inj (pitch v) (2 * x) (2 * x) y' y); [lia..|done].
    + edestruct (index_inj (pitch v) (2 * x) (2 * x + 1) y' y); [lia..|done].
  - rewrite !(proj2 (Z.eqb_neq _ _)); [done|..]; intros E.
    + edestruct (index_inj (pitch v) (2 * x' + 1) (2 * x) y' y); lia.
    + edestruct (index_inj (pitch v) (2 * x' + 1) (2 * x + 1) y' y); lia.
    + edestruct (index_inj (pitch v) (2 * x') (2 * x) y' y); lia.
    + edestruct (index_inj (pitch v) (2 * x') (2 * x + 1) y' y); lia.
Qed.

Lemma like_chain v v1 v2 cs : like v v1 (cell v1) -> like v1 v2 cs -> like v v2 cs.
Proof. intros (? & ? & ? & ? & Eh & Ew & _) (? & ? & ? & ? & ? & ? & Hc). unfold like. split_and!; try congruence. by rewrite <-Ew, <-Eh. Qed.
Lemma like_self v : sound v -> like v v (cell v).
Proof. intros Hs. unfold like. by split_and!. Qed.
Lemma like_cells v v' cs cs' : like v v' cs -> (forall x y, 0 <= x < width v -> 0 <= y < height v -> cs x y = cs' x y) -> like v v' cs'.
Proof. intros (? & ? & ? & ? & ? & ? & Hc) E. unfold like. split_and!; [done..|]. intros x y Hx Hy. rewrite Hc by done. by apply E. Qed.

Lemma clear_line_ok y v : sound v -> 0 <= y < height v ->
  exists v', clear_line y v = Ret v' /\ like v v' (fun x' y' => if y' =? y then blank else cell v x' y').
Proof.
  intros Hs Hy. unfold clear_line.
  destruct (foldl_range (fun i v => put_cell (Z.of_nat i, y) 32 0 v)
    (fun n v' => like v v' (fun x' y' => if (y' =? y) && (x' <? Z.of_nat n) then blank else cell v x' y')) (Z.to_nat (width v)) 0 v) as (v' & E & L).
  - eapply like_cells; [by apply like_self|]. intros x' y' Hx' Hy'. rewrite (proj2 (Z.ltb_ge _ _)) by (cbn; lia). by rewrite andb_false_r.
  - intros i v1 Hi L. pose proof L as (Hs1 & ? & ? & ? & Eh & Ew & Hc). destruct (put_cell_ok (Z.of_nat i) y 32 0 v1 Hs1) as (v2 & E2 & L2); [lia..|].
    exists v2. split; [done|]. eapply like_chain; [eapply like_cells; [exact L|]; intros; symmetry; by apply Hc|].
    eapply like_cells; [exact L2|]. rewrite Eh, Ew. intros x' y' Hx' Hy'. cbn beta. rewrite Hc by done. unfold blank.
    destruct (Z.eqb_spec x' (Z.of_nat i)) as [->|Nx]; cbn [andb].
    + rewrite (proj2 (Z.ltb_lt _ (Z.of_nat (S i)))), (proj2 (Z.ltb_ge _ (Z.of_nat i))) by lia. by destruct (y' =? y).
    + by replace (x' <? Z.of_nat (S i)) with (x' <? Z.of_nat i) by (apply eq_true_iff_eq; rewrite !Z.ltb_lt; lia).
  - exists v'. split; [done|]. eapply like_cells; [exact L|]. intros x' y' Hx' Hy'. cbn beta. rewrite (proj2 (Z.ltb_lt _ _)) by lia. by rewrite andb_true_r.
Qed.

(** bytes of one part of a list put over another part *)
Lemma splice_lookup (m : bytes) (a b n j : nat) : (a + n <= length m)%nat -> (b + n <= length m)%nat ->
  (take a m ++ take n (drop b m) ++ drop (a + n) m) !!! j = if decide (a <= j < a + n)%nat then m !!! (b + (j - a))%nat else m !!! j.
Proof.
  intros Ha Hb. rewrite !list_lookup_total_alt. f_equal.
  assert (length (take a m) = a) as La by (rewrite length_take; lia). assert (length (take n (drop b m)) = n) as Lb by (rewrite length_take, length_drop; lia).
  destruct (decide (j < a)%nat) as [Hj|Hj].
  { rewrite lookup_app_l by lia. rewrite lookup_take_lt by lia. by rewrite decide_False by lia. }
  rewrite lookup_app_r by lia. rewrite La. destruct (decide (j < a + n)%nat) as [Hj2|Hj2].
  - rewrite lookup_app_l by lia. rewrite lookup_take_lt, lookup_drop by lia. by rewrite decide_True by lia.
  - rewrite lookup_app_r by lia. rewrite Lb, lookup_drop, decide_False by lia. do 2 f_equal. lia.
Qed.
Lemma copy_line_ok i v : sound v -> 0 <= i < height v - 1 ->
  exists v', copy_line i v = Ret v' /\ like v v' (fun x' y' => if y' =? i then cell v x' (i + 1) else cell v x' y').
Proof.
  intros Hs Hi. pose proof Hs as [? ? ? ? Hl]. unfold copy_line. rewrite !get_arr_pos_ok by (done || lia). cbn [mbind outcome_bind].
  assert ((i + 2) * pitch v <= pitch v * height v) by nia. assert (0 <= i * pitch v) by nia.
  rewrite !(proj2 (Z.leb_le _ _)) by lia. cbn [assert_that mbind outcome_bind]. eexists. split; [reflexivity|].
  replace (2 * 0 + i * pitch v) with (i * pitch v) by lia. replace (2 * 0 + (i + 1) * pitch v) with (i * pitch v + pitch v) by lia.
  replace (Z.to_nat (i * pitch v + pitch v)) with (Z.to_nat (i * pitch v) + Z.to_nat (pitch v))%nat by lia.
  split_and!; [constructor; cbn [width height pitch memory set_memory]; try done|done..|].
  - rewrite !length_app, !length_take, !length_drop. lia.
  - intros x y Hx Hy. unfold cell, at_byte. cbn [pitch memory set_memory]. pose proof (index_bound v x y Hs Hx Hy) as [B1 B2].
    rewrite !splice_lookup by lia. destruct (Z.eqb_spec y i) as [->|Ny].
    + rewrite !decide_True by lia. f_equal; f_equal; lia.
    + rewrite !decide_False by nia. done.
Qed.
Lemma scroll_up_ok v : sound v ->
  exists v', scroll_up v = Ret v' /\ like v v' (fun x y => if y =? height v - 1 then cell v x y else cell v x (y + 1)).
Proof.
  intros Hs. pose proof (so_h _ Hs) as Hh. unfold scroll_up. rewrite csub_ret by lia. cbn [mbind outcome_bind].
  destruct (foldl_range (fun i v => copy_line (Z.of_nat i) v)
    (fun n v' => like v v' (fun x y => if y <? Z.of_nat n then cell v x (y + 1) else cell v x y)) (Z.to_nat (height v - 1)) 0 v) as (v' & E & L).
  - eapply like_cells; [by apply like_self|]. intros x y Hx Hy. by rewrite (proj2 (Z.ltb_ge _ _)) by (cbn; lia).
  - intros i v1 Hi L. pose proof L as (Hs1 & ? & ? & ? & Eh & Ew & Hc). destruct (copy_line_ok (Z.of_nat i) v1 Hs1) as (v2 & E2 & L2); [lia|].
    exists v2. split; [done|]. eapply like_chain; [eapply like_cells; [exact L|]; intros; symmetry; by apply Hc|].
    eapply like_cells; [exact L2|]. rewrite Eh, Ew. intros x y Hx Hy. cbn beta. rewrite !Hc by lia.
    destruct (Z.eqb_spec y (Z.of_nat i)) as [->|Ny].
    + rewrite (proj2 (Z.ltb_ge (Z.of_nat i + 1) _)), (proj2 (Z.ltb_lt _ (Z.of_nat (S i)))) by lia. done.
    + by replace (y <? Z.of_nat (S i)) with (y <? Z.of_nat i) by (apply eq_true_iff_eq; rewrite !Z.ltb_lt; lia).
  - exists v'. split; [done|]. eapply like_cells; [exact L|]. intros x y Hx Hy. cbn beta. destruct (Z.eqb_spec y (height v - 1)) as [->|Ny].
    + by rewrite (proj2 (Z.ltb_ge _ _)) by lia.
    + by rewrite (proj2 (Z.ltb_lt _ _)) by lia.
Qed.

(** *** The cursor *)
Lemma displays_set v s x y : displays v s -> 0 <= x < cols s -> 0 <= y < rows s -> displays (set_pos (x, y) v) (move x y s).
Proof. intros ([? ? ? ? ?] & ? & ? & ? & ? & ? & ? & Hc) Hx Hy. unfold displays. cbn. split_and!; try (done || lia). Qed.
Lemma fix_stay v fuel : fst (pos v) < width v -> snd (pos v) < height v -> fix_loop (S fuel) v = Ret v.
Proof. intros Hx Hy. cbn [fix_loop]. rewrite (proj2 (Z.leb_gt (width v) _)) by done. cbn zeta. by rewrite (proj2 (Z.leb_gt (height v) _)) by done. Qed.
(** from one line below the screen *)
Lemma fix_below v s fuel : displays v s -> exists v', fix_loop (S (S fuel)) (set_pos (0, height v) v) = Ret v' /\ displays v' (scrolled (move 0 (rows s) s)).
Proof.
  intros (Hs & Ew & Eh & Epos & Ei & Hx & Hy & Hc). pose proof (so_w _ Hs) as Hw. pose proof (so_h _ Hs) as Hh.
  remember (S fuel) as n eqn:En. cbn [fix_loop]. cbn [pos set_pos fst snd width height]. rewrite (proj2 (Z.leb_gt (width v) 0)) by lia. cbn [pos set_pos fst snd width height].
  rewrite Z.leb_refl. set (v0 := set_pos (0, height v) v). assert (sound v0) as Hs0 by (destruct Hs; by constructor).
  destruct (scroll_up_ok v0 Hs0) as (v1 & -> & Hs1 & P1 & A1 & T1 & H1 & W1 & C1). cbn [mbind outcome_bind]. rewrite P1. cbn [pos set_pos fst snd v0] in *.
  rewrite csub_ret by lia. cbn [mbind outcome_bind]. set (v2 := set_pos (0, height v - 1) v1).
  assert (sound v2) as Hs2 by (destruct Hs1; by constructor). change (height v0) with (height v) in *. change (width v0) with (width v) in *.
  assert (height v2 = height v /\ width v2 = width v) as [H2 W2] by (cbn; by rewrite H1, W1).
  destruct (clear_line_ok (height v - 1) v2 Hs2) as (v3 & -> & Hs3 & P3 & A3 & T3 & H3 & W3 & C3); [lia|]. rewrite H2, W2 in *. cbn [mbind outcome_bind].
  subst n. rewrite fix_stay by (rewrite P3, ?W3, ?H3; cbn; lia).
  exists v3. split; [done|]. unfold displays, scrolled. cbn [cols rows cx cy ink cells move].
  split_and!; try done; try congruence; [rewrite P3; cbn; congruence|rewrite A3; cbn; rewrite A1; cbn; congruence|lia..|].
  rewrite W3, H3. intros x y Hx' Hy'. rewrite C3 by done. rewrite Eh. destruct (Z.eqb_spec y (height v - 1)); [done|].
  change (cell v2 x y) with (cell v1 x y). rewrite C1 by done. rewrite (proj2 (Z.eqb_neq _ _)) by done. change (cell v0 x (y + 1)) with (cell v x (y + 1)). apply Hc; lia.
Qed.
Lemma fix_line v s fuel : displays v s -> exists v', fix_loop (S (S fuel)) (set_pos (0, cy s + 1) v) = Ret v' /\ displays v' (newline s).
Proof.
  intros D. pose proof D as (Hs & Ew & Eh & Epos & Ei & Hx & Hy & Hc). unfold newline, settle.
  cbn [cy rows move]. destruct (Z.eqb_spec (cy s + 1) (rows s)) as [E|Ne].
  - pose proof (fix_below v s fuel D) as F. rewrite Eh in F. by rewrite E, Eh.
  - rewrite fix_stay by (cbn; lia). eexists. split; [reflexivity|]. apply displays_set; [done|lia..].
Qed.
Lemma fix_wrap v y fuel : 0 < width v -> fix_loop (S fuel) (set_pos (width v, y) v) = fix_loop (S fuel) (set_pos (0, y + 1) v).
Proof.
  intros Hw. cbn [fix_loop]. cbn [pos set_pos fst snd width height]. rewrite Z.leb_refl. by rewrite (proj2 (Z.leb_gt (width v) 0)).
Qed.

Lemma put_here v s b : displays v s -> exists v', put_cell (pos v) b (attrib v) v = Ret v' /\ displays v' (poke (cx s) (cy s) (b, ink s) s).
Proof.
  intros (Hs & Ew & Eh & Epos & Ei & Hx & Hy & Hc). rewrite Epos. destruct (put_cell_ok (cx s) (cy s) b (attrib v) v Hs) as (v1 & -> & Hs1 & P1 & A1 & T1 & H1 & W1 & C1); [lia..|].
  exists v1. split; [done|]. unfold displays, poke. cbn [cols rows cx cy ink cells]. split_and!; try done; try congruence; [lia..|].
  rewrite W1, H1, <-Ei. intros x y Hx' Hy'. rewrite C1 by done. by destruct (_ && _); [|apply Hc].
Qed.
Lemma vga_write_ok b v s : displays v s -> exists v', vga_write_byte b v = Ret v' /\ displays v' (shown b s).
Proof.
  intros D. pose proof D as (Hs & Ew & Eh & Epos & Ei & Hx & Hy & Hc). unfold vga_write_byte, shown.
  destruct (b =? 10); [rewrite Epos; by apply fix_line|].
  destruct (put_here v s b D) as (v1 & -> & D1). cbn [mbind outcome_bind]. pose proof D1 as (Hs1 & W1 & H1 & P1 & _). cbn [cols rows cx cy poke] in *.
  rewrite P1. cbn [fst snd]. cbn zeta. unfold fix_after_advance. cbn [pos set_pos snd]. destruct (Z.eqb_spec (cx s + 1) (cols s)) as [E|Ne].
  - rewrite E, W1, fix_wrap by lia. by apply (fix_line v1 _ _ D1).
  - rewrite fix_stay by (cbn; lia). eexists. split; [reflexivity|]. apply displays_set; [done|cbn; lia..].
Qed.

Lemma vga_back_ok v s : displays v s -> exists v', vga_backspace v = Ret v' /\ displays v' (rubout s).
Proof.
  intros D. pose proof D as (Hs & Ew & Eh & Epos & Ei & Hx & Hy & Hc). unfold vga_backspace, rubout. rewrite Epos. cbn [fst snd].
  destruct (Z.eqb_spec (cx s) 0) as [E0|N0]; [destruct (Z.eqb_spec (cy s) 0) as [E1|N1]|]; cbn [andb]; [by exists v|..].
  - rewrite csub_ret by lia. cbn [mbind outcome_bind]. cbn zeta. rewrite <-Ew. apply put_here, displays_set; [done|lia..].
  - cbn [mbind outcome_bind]. cbn zeta. apply put_here, displays_set; [done|lia..].
Qed.
Lemma vga_ink_ok a v s : displays v s -> exists v', vga_set_attrib a v = Ret v' /\ displays v' (inked a s).
Proof.
  intros ([? ? ? ? ?] & Ew & Eh & Epos & Ei & Hx & Hy & Hc). eexists (mkVga (pos v) (16 * palette (color_code (background a)) + palette (shade a)) (pitch v) (height v) (width v) (memory v)).
  split; [by destruct a as [[] [] [] []]|]. unfold displays. cbn. split_and!; try (done || lia).
Qed.
End vga.

#[export] Instance vga_laws {H} : VideoLaws H VgaText.
Proof.
  refine {| shows := displays |}; intros v s h; [intros b|..|intros a]; intros D; cbn [video_write_byte video_backspace set_attrib vga_video].
  - destruct (vga_write_ok b v s D) as (v' & -> & D'). by exists v'.
  - destruct (vga_back_ok v s D) as (v' & -> & D'). by exists v'.
  - destruct (vga_ink_ok a v s D) as (v' & -> & D'). by exists v'.
Defined.

(** ** The serial port *)
(** [sent] is what went out on the line, [incoming] what will come in; the
    port accepts a byte after at most [polls] looks at its status *)
Class UartLaws (H : Type) `{PortIo H} (polls : nat) : Type := {
  sent : H -> bytes;
  incoming : H -> bytes;
  busy : H -> nat;
  busy_bound : forall h, (busy h <= polls)%nat;
  status_law : forall h, exists v h', io_in 1 (COM1 + LineStatus) h = Ret (v, h') /\ sent h' = sent h /\ incoming h' = incoming h /\
    (busy h' <= pred (busy h))%nat /\ (busy h = 0%nat -> Z.land v LINE_TX_EMPTY <> 0) /\ (Z.land v LINE_TX_EMPTY <> 0 -> busy h' = 0%nat) /\
    (Z.land v LINE_RX_READY <> 0 -> incoming h <> []);
  send_law : forall h b, busy h = 0%nat -> exists h', io_out 1 (COM1 + Data) b h = Ret (tt, h') /\ sent h' = sent h ++ [b] /\ incoming h' = incoming h;
  receive_law : forall h b r, incoming h = b :: r -> exists h', io_in 1 (COM1 + Data) h = Ret (b, h') /\ sent h' = sent h /\ incoming h' = r
}.

Section uart.
Context {H : Type} `{UartLaws H polls} (fuel : nat) (Hfuel : (polls < fuel)%nat).
Definition on_line (u : Uart) (s : bytes) : bytes := if is_enabled u then s else [].

Lemma wait_sent n h : (busy h < n)%nat -> exists h', wait_line n COM1 LINE_TX_EMPTY h = Ret (tt, h') /\ sent h' = sent h /\ incoming h' = incoming h /\ busy h' = 0%nat.
Proof.
  revert h. induction n as [|n IH]; intros h Hn; [lia|]. cbn [wait_line]. unfold read_reg. destruct (status_law h) as (v & h1 & E & S1 & I1 & B1 & T0 & T1 & _).
  unfold mbind, ST_bind. rewrite E. destruct (Z.eqb_spec (Z.land v LINE_TX_EMPTY) 0) as [Ez|Ez].
  - destruct (IH h1) as (h2 & E2 & S2 & I2 & B2). { destruct (busy h) eqn:Eb; [by destruct T0|cbn in *; lia]. }
    exists h2. by rewrite E2, S2, I2.
  - exists h1. split_and!; [done|done|done|]. by apply T1.
Qed.
Lemma uart_write_byte_ok b u h : port_addr u = COM1 ->
  exists h', uart_write_byte fuel b u h = Ret (tt, h') /\ sent h' = sent h ++ on_line u [b] /\ incoming h' = incoming h.
Proof.
  intros Ep. unfold uart_write_byte, on_line. destruct (is_enabled u); cbn [negb]; [|exists h; by rewrite app_nil_r]. rewrite Ep.
  pose proof (busy_bound h) as Hb. destruct (wait_sent fuel h) as (h1 & E1 & S1 & I1 & B1); [lia|]. destruct (send_law h1 b B1) as (h2 & E2 & S2 & I2).
  exists h2. unfold mbind, ST_bind. rewrite E1. unfold write_reg. rewrite E2, S2, S1. by rewrite I2, I1.
Qed.
Lemma uart_write_ok u s : forall h, port_addr u = COM1 ->
  exists h', uart_write fuel u s h = Ret (tt, h') /\ sent h' = sent h ++ on_line u s /\ incoming h' = incoming h.
Proof.
  induction s as [|b s IH]; intros h Ep; cbn [uart_write].
  { exists h. unfold on_line. destruct (is_enabled u); by rewrite app_nil_r. }
  destruct (uart_write_byte_ok b u h Ep) as (h1 & E1 & S1 & I1). destruct (IH h1 Ep) as (h2 & E2 & S2 & I2). exists h2. unfold mbind, ST_bind. rewrite E1, E2, S2, S1, I2, I1.
  split_and!; [done| |done]. rewrite <-app_assoc. unfold on_line. by destruct (is_enabled u).
Qed.
Lemma try_read_ok u h : port_addr u = COM1 -> exists b h', try_read_byte u h = Ret (b, h') /\ sent h' = sent h /\ incoming h = option_list b ++ incoming h'.
Proof.
  intros Ep. unfold try_read_byte. destruct (is_enabled u); cbn [negb]; [|by exists None, h]. rewrite Ep. unfold read_reg.
  destruct (status_law h) as (v & h1 & E & S1 & I1 & _ & _ & _ & R). unfold mbind, ST_bind. rewrite E.
  destruct (Z.eqb_spec (Z.land v LINE_RX_READY) 0) as [Ez|Ez]; [by exists None, h1|]. destruct (incoming h) as [|b r] eqn:Ei; [by destruct R|].
  destruct (receive_law h1 b r) as (h2 & E2 & S2 & I2); [done|]. exists (Some b), h2. rewrite E2, S2, I2. by split_and!.
Qed.
End uart.

(** ** What is written to the console *)
(** a character, a backspace, a colour command with its numbers (a missing one
    is [None]), or an escape that is no colour command *)
Inductive token : Type := Char (b : Z) | Back | Sgr (ps : list (option Z)) | Other (junk : bytes) (b : Z).
Definition command_byte (b : Z) : bool := between 48 57 b || (b =? 59) || (b =? 91).
Definition decimal (p : Z) : bytes :=
  if p <? 10 then [48 + p] else if p <? 100 then [48 + p / 10; 48 + p mod 10] else [48 + p / 100; 48 + p / 10 mod 10; 48 + p mod 10].
Definition param (p : option Z) : bytes := match p with Some p => decimal p | None => [] end.
Fixpoint params (ps : list (option Z)) : bytes :=
  match ps with [] => [] | [p] => param p | p :: ps => param p ++ 59 :: params ps end.
(** a missing number, which terminals take for 0, is ignored ([empty_command_ignored]) *)
Definition param_ok (p : option Z) : Prop := match p with Some p => 0 <= p < 1000 | None => False end.
Definition token_ok (t : token) : Prop :=
  match t with
  | Char b => b <> 8 /\ b <> 0x1b
  | Back => True
  | Sgr ps => ps <> [] /\ Forall param_ok ps
  | Other junk b => forallb command_byte junk = true /\ command_byte b = false /\ (b = 109 -> head junk <> Some 91)
  end.
Definition encode (t : token) : bytes :=
  match t with
  | Char b => [b]
  | Back => [8]
  | Sgr ps => 0x1b :: 91 :: params ps ++ [109]
  | Other junk b => 0x1b :: junk ++ [b]
  end.
(** on the serial line a backspace also clears the character *)
Definition echo_byte (b : Z) : bytes := if b =? 8 then [8; 32; 8] else [b].
Definition echo (t : token) : bytes :=
  match t with Char b => [b] | Back => [8; 32; 8] | Sgr ps => encode (Sgr ps) | Other _ b => echo_byte b end.

(** ** A terminal *)
Record terminal : Type := mkTerm { scr : screen; colours : VideoConsoleAttribute }.
Definition on_scr (f : screen -> screen) (t : terminal) : terminal := mkTerm (f (scr t)) (colours t).
Definition colour (n : Z) : AnsiColor := default Black (colors !! Z.to_nat n).
Definition select (p : Z) (a : VideoConsoleAttribute) : VideoConsoleAttribute :=
  if p =? 0 then mkAttr White Black false false
  else if p =? 1 then mkAttr (foreground a) (background a) true false
  else if p =? 2 then mkAttr (foreground a) (background a) false true
  else if between 30 37 p then mkAttr (colour (p - 30)) (background a) (bold a) (faint a)
  else if between 90 97 p then mkAttr (colour (p - 82)) (background a) (bold a) (faint a)
  else if between 40 47 p then mkAttr (foreground a) (colour (p - 40)) (bold a) (faint a)
  else if between 100 107 p then mkAttr (foreground a) (colour (p - 92)) (bold a) (faint a)
  else a.
Definition selected (t : terminal) (p : option Z) : terminal :=
  match p with
  | Some p => if p <? 256 then mkTerm (inked (select p (colours t)) (scr t)) (select p (colours t)) else t
  | None => t
  end.
Definition typed_byte (b : Z) (t : terminal) : terminal := on_scr (if b =? 8 then rubout else shown b) t.
Definition term_step (t : terminal) (k : token) : terminal :=
  match k with
  | Char b => typed_byte b t
  | Back => typed_byte 8 t
  | Sgr ps => foldl selected t ps
  | Other _ b => typed_byte b t
  end.

(** *** The numbers of a command *)
Lemma decimal_check : forallb (fun n => bool_decide (parse_u8 (decimal (Z.of_nat n)) = if Z.of_nat n <? 256 then Some (Z.of_nat n) else None) &&
  forallb (between 48 57) (decimal (Z.of_nat n))) (seq 0 1000) = true.
Proof. by vm_compute. Qed.
Lemma decimal_ok p : 0 <= p < 1000 -> parse_u8 (decimal p) = (if p <? 256 then Some p else None) /\ forallb (between 48 57) (decimal p) = true.
Proof.
  intros Hp. pose proof decimal_check as C. rewrite forallb_forall in C. specialize (C (Z.to_nat p)). rewrite Z2Nat.id in C by lia.
  apply andb_true_iff in C as [C1%bool_decide_eq_true C2]; [done|]. apply in_seq. lia.
Qed.
Lemma param_digits p : param_ok p -> forallb (between 48 57) (param p) = true.
Proof. destruct p as [p|]; [|done]. intros Hp. by apply decimal_ok. Qed.
Lemma digits_no_semicolon s : forallb (between 48 57) s = true -> forall r, split_on 59 (s ++ r) = match split_on 59 r with [] => [s] | x :: l => (s ++ x) :: l end /\ split_on 59 r <> [].
Proof.
  assert (forall r, split_on 59 r <> []) as Hne. { intros [|c r]; [done|]. cbn [split_on]. destruct (c =? 59); [done|]. by destruct (split_on 59 r). }
  induction s as [|c s IH]; intros Hs r; [split; [|done]; cbn; specialize (Hne r); by destruct (split_on 59 r)|].
  cbn [forallb] in Hs. apply andb_true_iff in Hs as [Hc Hs]. destruct (IH Hs r) as [E _]. split; [|done]. cbn [app split_on]. rewrite E.
  assert (c =? 59 = false) as -> by (unfold between in Hc; lia). by destruct (split_on 59 r).
Qed.
Lemma split_params ps : ps <> [] -> Forall param_ok ps -> split_on 59 (params ps) = param <$> ps.
Proof.
  intros Hne Hok. induction Hok as [|p ps Hp Hps IH]; [done|]. destruct ps as [|q ps].
  - destruct (digits_no_semicolon (param p) (param_digits p Hp) []) as [E _]. rewrite app_nil_r in E. cbn [params fmap list_fmap]. rewrite E. cbn. by rewrite app_nil_r.
  - change (params (p :: q :: ps)) with (param p ++ 59 :: params (q :: ps)). destruct (digits_no_semicolon (param p) (param_digits p Hp) (59 :: params (q :: ps))) as [E _].
    rewrite E. cbn [split_on]. rewrite Z.eqb_refl, app_nil_r, IH by done. done.
Qed.
Lemma params_command ps : Forall param_ok ps -> forallb command_byte (params ps) = true.
Proof.
  assert (forall s, forallb (between 48 57) s = true -> forallb command_byte s = true) as Hd.
  { intros s. rewrite !forallb_forall. intros Hs x Hx. unfold command_byte. by rewrite (Hs x Hx). }
  induction 1 as [|p ps Hp Hps IH]; [done|]. destruct ps as [|q ps]; [by apply Hd, param_digits|].
  change (params (p :: q :: ps)) with (param p ++ 59 :: params (q :: ps)). rewrite forallb_app. cbn [forallb]. rewrite IH, (Hd _ (param_digits p Hp)). done.
Qed.
Lemma from_u8_ok n : 0 <= n < 16 -> from_u8 n = Ret (colour n).
Proof.
  intros Hn. unfold from_u8, colour. destruct (colors !! Z.to_nat n) eqn:E; [done|]. apply lookup_ge_None_1 in E. cbn in E. lia.
Qed.
Lemma apply_cmd_ok p a : 0 <= p < 256 -> apply_cmd p a = Ret (select p a).
Proof.
  intros Hp. unfold apply_cmd, select. destruct (p =? 0); [done|]. destruct (p =? 1); [done|]. destruct (p =? 2); [done|].
  repeat match goal with |- context [between ?l ?h p] => let E := fresh in destruct (between l h p) eqn:E; [unfold between in E; rewrite from_u8_ok by lia; cbn [mbind outcome_bind]; by repeat f_equal; lia|] end.
  done.
Qed.

(** ** The console is a terminal *)
Section console.
Context {H V : Type} `{UartLaws H polls} `{VideoLaws H V} `{Blinkcast} (fuel : nat) (Hfuel : (polls < fuel)%nat) (keys : Sender Key) (cmd : Cmd).
Implicit Types (c : LateConsole V) (h : H).

(** outside an escape sequence, with its output on the devices *)
Definition idle c : Prop := console_cmd_buffer c = None /\ capture c = None /\ port_addr (late_uart c) = COM1.
Definition holds c (t : terminal) : Prop := shows (video_console c) (scr t) /\ current_attrib c = colours t.
(** after [out] went out on the line *)
Definition wrote c h (out : bytes) (t' : terminal) c' h' : Prop :=
  idle c' /\ holds c' t' /\ late_uart c' = late_uart c /\ keyboard c' = keyboard c /\
  sent h' = sent h ++ on_line (late_uart c) out /\ incoming h' = incoming h.

Lemma write_bytes_app s1 s2 c h : write_bytes fuel (s1 ++ s2) c h = (c ← write_bytes fuel s1 c; write_bytes fuel s2 c) h.
Proof.
  revert c h. induction s1 as [|b s1 IH]; intros c h; [done|]. cbn [app write_bytes]. unfold mbind, ST_bind in *.
  destruct (write_byte fuel b c h) as [[c1 h1]| |]; [|done..]. apply IH.
Qed.
Lemma inner_ok b c h t : idle (set_buffer None c) -> holds c t ->
  exists c' h', write_byte_inner fuel b (set_buffer None c) h = Ret (c', h') /\ wrote c h (echo_byte b) (typed_byte b t) c' h'.
Proof.
  intros (_ & Hk & Hp) [Hv Ha]. cbn in Hk, Hp. unfold write_byte_inner, echo_byte, typed_byte. cbn [video_console late_uart set_buffer]. destruct (b =? 8) eqn:E8.
  - destruct (video_back_law _ _ h Hv) as (v' & E & Hv'). apply Z.eqb_eq in E8 as ->. destruct (uart_write_ok fuel Hfuel (late_uart c) [8; 32; 8] h Hp) as (h2 & E2 & S2 & I2).
    do 2 eexists. unfold mbind, ST_bind. rewrite E, E2. split; [reflexivity|]. by split_and!.
  - destruct (video_write_law _ _ h b Hv) as (v' & E & Hv'). destruct (uart_write_byte_ok fuel Hfuel b (late_uart c) h Hp) as (h2 & E2 & S2 & I2).
    do 2 eexists. unfold mbind, ST_bind. rewrite E, E2. split; [reflexivity|]. by split_and!.
Qed.
Lemma junk_ok junk c h buf : forallb command_byte junk = true -> console_cmd_buffer c = Some buf ->
  write_bytes fuel junk c h = Ret (set_buffer (Some (buf ++ junk)) c, h).
Proof.
  revert c buf. induction junk as [|b junk IH]; intros c buf Hj Hb; [rewrite app_nil_r; by destruct c; cbn in *; subst|].
  cbn [forallb] in Hj. apply andb_true_iff in Hj as [Hc Hj]. cbn [write_bytes]. unfold write_byte at 1. rewrite Hb. unfold command_byte in Hc. rewrite Hc.
  unfold mbind, ST_bind, mret, ST_ret. rewrite (IH _ (buf ++ [b])) by done. by rewrite <-app_assoc.
Qed.
Lemma run_cmds_ok ps : forall c h t, Forall param_ok ps -> holds c t ->
  exists v a, run_cmds (param <$> ps) c h = Ret (mkLate (late_uart c) v (keyboard c) (console_cmd_buffer c) a (capture c), h) /\
    shows v (scr (foldl selected t ps)) /\ a = colours (foldl selected t ps).
Proof.
  induction ps as [|p ps IH]; intros c h t Hps [Hv Ha]. { exists (video_console c), (current_attrib c). by destruct c. }
  apply Forall_cons in Hps as [Hp Hps]. cbn [fmap list_fmap run_cmds foldl]. destruct p as [p|]; [|by apply IH]. cbn [param selected].
  destruct (decimal_ok p Hp) as [-> _]. destruct (Z.ltb_spec p 256); [|by apply IH].
  rewrite apply_cmd_ok by (cbn in Hp; lia). unfold mbind at 1, ST_bind at 1, lift at 1. rewrite Ha.
  destruct (video_ink_law _ _ h (select p (colours t)) Hv) as (v' & E & Hv'). unfold mbind at 1, ST_bind at 1. rewrite E.
  destruct (IH (mkLate (late_uart c) v' (keyboard c) (console_cmd_buffer c) (select p (colours t)) (capture c)) h
    (mkTerm (inked (select p (colours t)) (scr t)) (select p (colours t))) Hps) as (v2 & a2 & E2 & Hv2 & Ha2); [done|].
  exists v2, a2. by rewrite E2.
Qed.
Lemma escape_ok c h : idle c -> write_byte fuel 0x1b c h = Ret (set_buffer (Some []) c, h).
Proof. intros (Hb & _). unfold write_byte. by rewrite Hb. Qed.
Lemma token_written k c h t : token_ok k -> idle c -> holds c t ->
  exists c' h', write_bytes fuel (encode k) c h = Ret (c', h') /\ wrote c h (echo k) (term_step t k) c' h'.
Proof.
  intros Hk Hi Ht. pose proof Hi as (Hb & Hc & Hp).
  assert (forall b, b <> 0x1b -> exists c' h', write_bytes fuel [b] c h = Ret (c', h') /\ wrote c h (echo_byte b) (typed_byte b t) c' h') as Hone.
  { intros b Hne. cbn [write_bytes]. unfold write_byte at 1. rewrite Hb, (proj2 (Z.eqb_neq _ _)) by done. destruct (inner_ok b c h t) as (c' & h' & E & W); [done..|].
    replace (set_buffer None c) with c in E by (destruct c; cbn in *; by subst). exists c', h'. unfold mbind, ST_bind. by rewrite E. }
  destruct k as [b| |ps|junk b]; cbn [token_ok encode echo term_step] in *.
  - destruct Hk as [N8 N27]. unfold echo_byte in Hone. specialize (Hone b N27). by rewrite (proj2 (Z.eqb_neq _ _)) in Hone by done.
  - by apply (Hone 8).
  - destruct Hk as [Hne Hps]. cbn [write_bytes]. unfold mbind at 1, ST_bind at 1. rewrite escape_ok by done.
    change (91 :: params ps ++ [109]) with ((91 :: params ps) ++ [109]).
    pose proof (write_bytes_app (91 :: params ps) [109] (set_buffer (Some []) c) h) as E. cbn [app write_bytes] in E. cbn [app]. rewrite E. clear E.
    pose proof (junk_ok (91 :: params ps) (set_buffer (Some []) c) h [] (params_command ps Hps) eq_refl) as E. cbn [write_bytes] in E.
    unfold mbind at 1, ST_bind at 1. rewrite E. clear E. unfold mbind at 1, ST_bind at 1. unfold write_byte. cbn [console_cmd_buffer set_buffer app].
    change (between 48 57 109 || (109 =? 59) || (109 =? 91)) with false. cbn [Z.eqb Pos.eqb strip_prefix]. rewrite split_params by done.
    destruct (run_cmds_ok ps (set_buffer (Some (91 :: params ps)) c) h t Hps Ht) as (v & a & E & Hv & Ha). change (set_buffer (Some (91 :: params ps)) (set_buffer (Some []) c)) with (set_buffer (Some (91 :: params ps)) c).
    unfold mbind at 1, ST_bind at 1. rewrite E. cbn [late_uart set_buffer].
    destruct (uart_write_ok fuel Hfuel (late_uart c) (0x1b :: 91 :: params ps ++ [109]) h Hp) as (h2 & E2 & S2 & I2). unfold mbind at 1, ST_bind at 1. rewrite E2.
    do 2 eexists. split; [reflexivity|]. by split_and!.
  - destruct Hk as (Hj & Hnb & Hm). cbn [write_bytes]. unfold mbind at 1, ST_bind at 1. rewrite escape_ok by done.
    rewrite write_bytes_app. unfold mbind at 1, ST_bind at 1. rewrite (junk_ok junk (set_buffer (Some []) c) h [] Hj eq_refl). cbn [write_bytes]. unfold write_byte at 1. cbn [console_cmd_buffer set_buffer app].
    unfold command_byte in Hnb. rewrite Hnb. destruct (inner_ok b (set_buffer (Some junk) c) h t) as (c' & h' & E & W); [done..|].
    change (set_buffer (Some junk) (set_buffer (Some []) c)) with (set_buffer (Some junk) c). exists c', h'. split; [|done]. unfold mbind at 1, ST_bind at 1.
    destruct (Z.eqb_spec b 109) as [->|]; [|by rewrite E]. assert (strip_prefix 91 junk = None) as -> by (destruct junk as [|j junk]; [done|]; cbn; destruct (Z.eqb_spec j 91) as [->|]; [by destruct Hm|done]).
    by rewrite E.
Qed.
Lemma tokens_written ks : forall c h t, Forall token_ok ks -> idle c -> holds c t ->
  exists c' h', write_bytes fuel (concat (encode <$> ks)) c h = Ret (c', h') /\ wrote c h (concat (echo <$> ks)) (foldl term_step t ks) c' h'.
Proof.
  induction ks as [|k ks IH]; intros c h t Hks Hi Ht.
  { exists c, h. split; [done|]. unfold wrote, on_line. split_and!; try done; try apply Hi; try apply Ht. cbn. destruct (is_enabled (late_uart c)); by rewrite app_nil_r. }
  apply Forall_cons in Hks as [Hk Hks]. cbn [fmap list_fmap concat foldl]. rewrite write_bytes_app.
  destruct (token_written k c h t Hk Hi Ht) as (c1 & h1 & E1 & Hi1 & Ht1 & U1 & K1 & S1 & I1).
  destruct (IH c1 h1 _ Hks Hi1 Ht1) as (c2 & h2 & E2 & Hi2 & Ht2 & U2 & K2 & S2 & I2).
  exists c2, h2. unfold mbind, ST_bind. rewrite E1. split; [done|]. unfold wrote. split_and!; try done; try congruence.
  - rewrite S2, S1, U1, <-app_assoc. f_equal. unfold on_line. by destruct (is_enabled (late_uart c)).
Qed.

(** *** Through the controller *)
Lemma st_bind_inv {S A B} (m : ST S A) (f : A -> ST S B) s b s' : (m ≫= f) s = Ret (b, s') -> exists a s1, m s = Ret (a, s1) /\ f a s1 = Ret (b, s').
Proof. unfold mbind, ST_bind. destruct (m s) as [[a s1]| |]; [|done..]. by exists a, s1. Qed.
Lemma run_cmds_capture cs : forall c h c' h', run_cmds cs c h = Ret (c', h') -> capture c' = capture c.
Proof.
  induction cs as [|s cs IH]; intros c h c' h' E; cbn [run_cmds] in E; [by injection E as <- _|]. destruct (parse_u8 s); [|by eapply IH].
  apply st_bind_inv in E as (a & h1 & _ & E). apply st_bind_inv in E as (v & h2 & _ & E). by apply IH in E.
Qed.
Lemma inner_capture b c h c' h' : write_byte_inner fuel b c h = Ret (c', h') -> capture c' = capture c.
Proof. unfold write_byte_inner. destruct (b =? 8); intros E; apply st_bind_inv in E as (v & h1 & _ & E); apply st_bind_inv in E as (u & h2 & _ & E); by injection E as <- _. Qed.
Lemma write_bytes_capture s : forall c h c' h', write_bytes fuel s c h = Ret (c', h') -> capture c' = capture c.
Proof.
  induction s as [|b s IH]; intros c h c' h' E; [by injection E as <- _|]. cbn [write_bytes] in E. apply st_bind_inv in E as (c1 & h1 & E1 & E2). rewrite (IH _ _ _ _ E2). clear E2 IH.
  unfold write_byte in E1. destruct (console_cmd_buffer c) as [buf|]; repeat case_match; try (by injection E1 as <- _); try (by apply inner_capture in E1).
  apply st_bind_inv in E1 as (c2 & h2 & E1 & E2). apply st_bind_inv in E2 as (u & h3 & _ & E2). injection E2 as <- _. by apply run_cmds_capture in E1.
Qed.

(** the kernel prints, and programs write to the device *)
Inductive output : Type := Kernel (pieces : list bytes) | Program (buf : bytes).
Definition text (o : output) : bytes := match o with Kernel ps => concat ps | Program b => b end.
Definition emit (o : output) (self : ConsoleController V) : ST H (ConsoleController V) :=
  match o with
  | Kernel ps => x ← print fuel keys cmd ps self; mret (snd x)
  | Program b => r ← lift (unwrap (late_device self)); x ← device_write fuel keys cmd b r; mret (Late (snd x))
  end.
Fixpoint emits (os : list output) (self : ConsoleController V) : ST H (ConsoleController V) :=
  match os with [] => mret self | o :: os => self ← emit o self; emits os self end.

Lemma write_pieces_ok ps : forall c h c' h', capture c = None -> write_bytes fuel (concat ps) c h = Ret (c', h') ->
  write_pieces ps (LateConsole V) (late_console fuel keys) c h = Ret ((tt, c'), h').
Proof.
  induction ps as [|p ps IH]; intros c h c' h' Hc E; cbn [concat write_pieces] in *; [by injection E as <- <-|]. rewrite write_bytes_app in E.
  apply st_bind_inv in E as (c1 & h1 & E1 & E2). cbn [con_write late_console]. unfold late_write. rewrite Hc. unfold mbind, ST_bind. rewrite E1. cbn [snd mret ST_ret].
  apply IH; [by rewrite (write_bytes_capture _ _ _ _ _ E1)|done].
Qed.
Lemma emit_ok o c h c' h' : capture c = None -> write_bytes fuel (text o) c h = Ret (c', h') ->
  emit o (Late (mkRef false c)) h = Ret (Late (mkRef false c'), h').
Proof.
  intros Hc E. destruct o as [ps|b]; cbn [emit text late_device] in *.
  - unfold print, run_with, with_ref. cbn [borrowed content]. unfold mbind, ST_bind. by rewrite (write_pieces_ok ps c h c' h' Hc E).
  - unfold device_write, with_ref. unfold mbind, ST_bind, lift. cbn [unwrap borrowed content con_write late_console]. unfold late_write. rewrite Hc. unfold mbind, ST_bind. by rewrite E.
Qed.
Lemma emits_ok os : forall c h c' h', capture c = None -> write_bytes fuel (concat (text <$> os)) c h = Ret (c', h') ->
  emits os (Late (mkRef false c)) h = Ret (Late (mkRef false c'), h').
Proof.
  induction os as [|o os IH]; intros c h c' h' Hc E; cbn [fmap list_fmap concat emits] in *; [by injection E as <- <-|]. rewrite write_bytes_app in E.
  apply st_bind_inv in E as (c1 & h1 & E1 & E2). unfold mbind, ST_bind. rewrite (emit_ok o c h c1 h1 Hc E1). apply IH; [by rewrite (write_bytes_capture _ _ _ _ _ E1)|done].
Qed.

(** the console over any screen that keeps the laws *)
Lemma console_on_screen (os : list output) (ks : list token) (c : LateConsole V) (h : H) (t : terminal) :
  Forall token_ok ks -> concat (text <$> os) = concat (encode <$> ks) -> idle c -> holds c t ->
  exists c' h', emits os (Late (mkRef false c)) h = Ret (Late (mkRef false c'), h') /\
    idle c' /\ holds c' (foldl term_step t ks) /\ late_uart c' = late_uart c /\ keyboard c' = keyboard c /\
    sent h' = sent h ++ (if is_enabled (late_uart c) then concat (echo <$> ks) else []) /\ incoming h' = incoming h.
Proof.
  intros Hks Et Hi Ht. destruct (tokens_written ks c h t Hks Hi Ht) as (c' & h' & E & W). exists c', h'. split; [|exact W].
  apply emits_ok; [apply Hi|]. by rewrite Et.
Qed.

(** ** Capture *)
(** While a text is captured it goes nowhere else. *)
Theorem capture_collects (ps : list bytes) (c : LateConsole V) (h : H) : Forall (fun p => utf8 p = true) ps -> capture c = None ->
  (x ← run_start_capture fuel keys cmd (Late (mkRef false c)); x ← print fuel keys cmd ps (snd x); run_stop_capture fuel keys cmd (snd x)) h =
  Ret ((Some (concat ps), Late (mkRef false c)), h).
Proof.
  intros Hps Hc. assert (forall t, write_pieces ps (LateConsole V) (late_console fuel keys) (set_capture (Some t) c) h = Ret ((tt, set_capture (Some (t ++ concat ps)) c), h)) as E.
  { induction Hps as [|p ps Hp Hps IH]; intros t; cbn [write_pieces concat]; [by rewrite app_nil_r|]. cbn [con_write late_console]. unfold late_write. cbn [capture set_capture].
    rewrite Hp. cbn [assert_that]. unfold mbind, ST_bind, lift, mret, ST_ret. cbn [snd]. change (set_capture (Some (t ++ p)) (set_capture (Some t) c)) with (set_capture (Some (t ++ p)) c).
    rewrite IH. by rewrite <-app_assoc. }
  unfold run_start_capture, run_stop_capture, print, run_with, with_ref. cbn [borrowed content]. unfold mbind, ST_bind, mret, ST_ret.
  cbn [start_capture late_console late_start_capture fst snd borrowed content]. rewrite E. cbn. f_equal. f_equal. f_equal. f_equal. f_equal. destruct c. cbn in *. by subst.
Qed.
End console.


(** ** What is read from the console *)
(** [l] is made of [a] and [b], each in its order *)
Inductive merged {A} : list A -> list A -> list A -> Prop :=
| merged_nil : merged [] [] []
| merged_l x a b l : merged a b l -> merged (x :: a) b (x :: l)
| merged_r x a b l : merged a b l -> merged a (x :: b) (x :: l).
Definition typed_char (k : Key) : option Z := match pressed_char (Some k) with Ret o => o | _ => None end.
Definition line_char (b : Z) : Z := if b =? 13 then 10 else if b =? 0x7f then 8 else b.
Lemma pressed_char_ok k : pressed_char (Some k) = Ret (typed_char k).
Proof. unfold typed_char, pressed_char. destruct (pressed k); [|done]. unfold virtual_char. by destruct (key_type k), (negb _). Qed.

Section input.
Context {H V : Type} `{UartLaws H polls} `{VideoConsole H V} `{BlinkcastLaws} (keys : Sender Key).

(** Nothing typed is lost: a read takes the events of the keyboard from the
    front and bytes of the line from the front, and gives the characters of
    both, each in its order, at most as many as there is room for; when there
    is room and an event, it takes one. *)
Theorem console_read_in_order (n : nat) : forall (c : LateConsole V) (h : H), receives keys (keyboard c) -> port_addr (late_uart c) = COM1 ->
  exists out c' h' ks bs, late_read keys n c h = Ret ((out, c'), h') /\ (length out <= n)%nat /\
    receives keys (keyboard c') /\ pending keys (keyboard c) = ks ++ pending keys (keyboard c') /\ incoming h = bs ++ incoming h' /\
    merged (omap typed_char ks) (line_char <$> bs) out /\ (n <> 0%nat -> pending keys (keyboard c) <> [] -> ks <> []) /\
    sent h' = sent h /\ video_console c' = video_console c /\ console_cmd_buffer c' = console_cmd_buffer c /\ capture c' = capture c.
Proof.
  unfold late_read. induction n as [|n IH]; intros c h Hr Hp; cbn [read_loop]. { exists [], c, h, [], []. split_and!; try done; constructor. }
  destruct (recv_pending _ keys (keyboard c) Hr) as (r & -> & Hr1 & P1). cbn [fst snd].
  set (c1 := set_keyboard r c). assert (keyboard c1 = r) as Kc by done. set (k := head (pending keys (keyboard c))) in *.
  assert (pending keys (keyboard c) = option_list k ++ pending keys r) as Ek by (rewrite P1; unfold k; by destruct (pending keys (keyboard c))).
  assert (k = None -> pending keys (keyboard c) = []) as Hnone by (unfold k; by destruct (pending keys (keyboard c))).
  assert (pressed_char k = Ret (k ≫= typed_char)) as -> by (destruct k as [k0|]; [apply pressed_char_ok|done]).
  unfold mbind at 1, ST_bind at 1, lift at 1. destruct (k ≫= typed_char) as [x|] eqn:Ex.
  - unfold mbind at 1, ST_bind at 1, mret, ST_ret. destruct (IH c1 h Hr1 Hp) as (out & c2 & h2 & ks & bs & E & Hl & R2 & P2 & I2 & M & _ & S2 & V2 & B2 & C2).
    unfold mbind at 1, ST_bind at 1. rewrite E. cbn [fst snd]. destruct k as [k0|]; [|done]. cbn [mbind option_bind] in Ex. cbn [option_list] in Ek.
    exists (x :: out), c2, h2, (k0 :: ks), bs. split_and!; try done; [cbn; lia|rewrite Ek, <-Kc, P2; done|]. cbn [omap list_omap]. rewrite Ex. by constructor.
  - unfold read_uart. change (late_uart c1) with (late_uart c). destruct (try_read_ok (late_uart c) h Hp) as (b & h1 & E & S1 & I1).
    unfold mbind at 1, ST_bind at 1. unfold mbind at 1, ST_bind at 1. rewrite E. unfold mret at 1, ST_ret at 1. destruct b as [b|]; cbn [fmap option_fmap option_map].
    + destruct (IH c1 h1 Hr1 Hp) as (out & c2 & h2 & ks & bs & E2 & Hl & R2 & P2 & I2 & M & _ & S2 & V2 & B2 & C2). unfold mbind at 1, ST_bind at 1. rewrite E2. cbn [fst snd].
      exists (line_char b :: out), c2, h2, (option_list k ++ ks), (b :: bs). split_and!; try done; [cbn; lia|rewrite Ek, <-Kc, P2; by rewrite <-app_assoc|rewrite I1, I2; done| | |by rewrite S2].
      * rewrite omap_app. replace (omap typed_char (option_list k)) with (@nil Z) by (destruct k as [k0|]; [cbn in *; by rewrite Ex|done]). cbn. by constructor.
      * intros _ Hne. destruct k; [done|]. by destruct (Hne (Hnone eq_refl)).
    + exists [], c1, h1, (option_list k), []. split_and!; try done; [cbn; lia| |].
      * destruct k as [k0|]; cbn in *; [rewrite Ex|]; constructor.
      * intros _ Hne. destruct k; [done|]. by destruct (Hne (Hnone eq_refl)).
Qed.
End input.

(** ** From the boot information *)
Lemma text_screen_starts {H} (new_slice : Z -> Z -> ST H bytes) (f : Framebuffer) (h h' : H) m :
  fb_color_info f = EgaText -> 0 < fb_width f -> 0 < fb_height f -> 2 * fb_width f <= fb_pitch f -> fb_pitch f * fb_height f < 2 ^ 32 ->
  new_slice (fb_addr f) (fb_pitch f * fb_height f) h = Ret (m, h') -> Z.of_nat (length m) = fb_pitch f * fb_height f ->
  exists v, vga_new new_slice f h = Ret (v, h') /\ displays v (mkScreen (fb_width f) (fb_height f) 0 0 DEFAULT_ATTRIB (cell v)).
Proof.
  intros Ec Hw Hh Hp Hm En El. unfold vga_new. rewrite Ec. cbn [assert_that]. unfold mbind, ST_bind, lift. rewrite cmul_ret by done. rewrite En.
  eexists. split; [reflexivity|]. unfold displays. cbn. split_and!; try done; try lia.
Qed.

(** ** Runs *)
Module ConsoleDemo.
#[local] Existing Instances InputDemo.log_cast InputDemo.log_laws.
(** a port that is busy for one look after each byte *)
Record port : Type := mkPort { out : bytes; inp : bytes; sending : bool }.
#[export] Instance port_io : PortIo port := {
  io_in n p := fun h =>
    if p =? COM1 + LineStatus then Ret ((if sending h then 0 else 0x20) + match inp h with [] => 0 | _ => 1 end, mkPort (out h) (inp h) false)
    else match inp h with b :: r => Ret (b, mkPort (out h) r (sending h)) | [] => Ret (0, h) end;
  io_out n p v := fun h => if p =? COM1 + Data then Ret (tt, mkPort (out h ++ [v]) (inp h) true) else Ret (tt, h)
}.
#[export] Instance port_laws : UartLaws port 1.
Proof.
  refine {| sent := out; incoming := inp; busy h := if sending h then 1%nat else 0%nat |}.
  - intros h. destruct (sending h); lia.
  - intros h. do 2 eexists. split; [reflexivity|]. cbn. destruct (sending h), (inp h); cbn; split_and!; try done; lia.
  - intros h b _. by eexists.
  - intros h b r Ei. eexists. cbn. rewrite Ei. by split_and!.
Defined.

(** a screen of four columns and two lines, with a byte between the lines *)
Definition screen0 : VgaText := mkVga (0, 0) DEFAULT_ATTRIB 9 2 4 (replicate 18 0).
Definition keys0 : Sender Key := ((256, [mkKey false 0 KA; mkKey true 0 KB]) : Z * list Key).
Definition console0 : LateConsole VgaText := mkLate (mkUart COM1 true) screen0 (0%nat : Receiver Key) None default_attribute None.
Definition port0 : port := mkPort [] [] false.
Definition term0 : terminal := mkTerm (mkScreen 4 2 0 0 DEFAULT_ATTRIB (fun _ _ => (0, 0))) default_attribute.
Lemma screen0_shown : displays screen0 (scr term0).
Proof.
  unfold displays. cbn -[replicate]. split_and!; try done; try lia. intros x y Hx Hy.
  assert (x = 0 \/ x = 1 \/ x = 2 \/ x = 3) as [->|[->|[->| ->]]] by lia; assert (y = 0 \/ y = 1) as [->| ->] by lia; done.
Qed.
(** "ab", red on default, "c", a backspace, "de\nf", cut in the middle of the command *)
Definition tokens : list token := [Char 97; Char 98; Sgr [Some 1; Some 31]; Char 99; Back; Char 100; Char 101; Char 10; Char 102; Other [91; 50] 74].
Definition outputs : list output := [Program [97; 98; 0x1b; 91; 49]; Kernel [[59; 51; 49; 109; 99]; [8; 100]]; Program [101; 10; 102; 0x1b; 91; 50; 74]].
(** the screen after it: the first line was full, so that the line feed scrolled it away *)
Lemma screen_after : match emits 2 keys0 default_cmdline outputs (Late (mkRef false console0)) port0 with
  | Ret (Late r, _) => (fun y => (fun x => cell (video_console (content r)) x y) <$> [0; 1; 2; 3]) <$> [0; 1]
  | _ => []
  end = [[(0, 0); (0, 0); (0, 0); (0, 0)]; [(102, 12); (74, 12); blank; blank]].
Proof. by vm_compute. Qed.

(** ** Where the console does not do what it means to *)
(** any rate asked for gives the highest, and none a division by zero *)
Lemma baud_setting_ignored : baud_divisor 9600 = Ret 1 /\ baud_divisor 0 = Panic.
Proof. done. Qed.
(** the release of a key ends a read although the next character was typed *)
Lemma release_ends_read : exists c', late_read keys0 10 console0 port0 = Ret (([], c'), mkPort [] [] false) /\ exists c'', late_read keys0 10 c' port0 = Ret (([98], c''), mkPort [] [] false).
Proof. eexists. split; [reflexivity|]. by eexists. Qed.
(** the command that resets the colours leaves another one than at the start *)
Lemma reset_darkens : match write_bytes 2 (encode (Sgr [Some 0])) console0 port0 with Ret (c', _) => attrib (video_console c') = 0x07 | _ => False end /\ attrib screen0 = 0x0f.
Proof. by vm_compute. Qed.
(** a command without a number, which terminals take for a reset, is ignored *)
Lemma empty_command_ignored :
  match write_bytes 2 (encode (Sgr [Some 31]) ++ encode (Sgr [None])) console0 port0 with Ret (c', _) => foreground (current_attrib c') = Red | _ => False end.
Proof. by vm_compute. Qed.
(** while a text is captured, a program that writes half a character stops the kernel *)
Lemma captured_half_character_panics : device_write 2 keys0 default_cmdline [0xC3] (mkRef false (set_capture (Some []) console0)) port0 = Panic.
Proof. done. Qed.
End ConsoleDemo.
